(* ===== verification/_CoqProject ===== *)
-Q . S2P
Prelude.v
RustStr.v
BTree.v
Json.v
Status.v
Codec.v
Transport.v
Client.v
Rows.v
Verdicts.v
GapCodes.v
Gaps.v
ProbeGaps.v
Targets.v
Pins.v
NextCall.v
Variants.v
StableId.v
Receipt.v
Evidence.v
Session.v
Conclusions.v
Paths.v
Coverage.v
GoalDiff.v
Graph.v
Topo.v
Contracts.v
Propose.v
Acsl.v
Tagged.v
Injection.v
WpOutput.v
WpTriage.v
WpFailure.v
WpMessages.v
Errors.v
ProgramStep.v
WpConfig.v
CompileDb.v
Proc.v
WpCli.v
ParseSurface.v
ParseLog.v
SourceIdentity.v
MainInstance.v
Requests.v
WpTasks.v
EvaRun.v
Proofread.v
RunWp.v
Alarms.v
Suggestions.v
CallChain.v
Registry.v
Sandboxes.v
Versions.v
Probes.v
SelfCheck.v
ReceiptRun.v
FindingLists.v
Reload.v
Check.v
CheckVariants.v
MainCheck.v
ConcText.v
ConcStructure.v
ConcProgram.v
ConcActions.v
ConcLocks.v
ConcWalk.v
ConcSound.v
ConcReport.v
