(* ===== verification/Prelude.v ===== *)
(** * frama-c-mcp: verification library

    frama-c-mcp is a Model Context Protocol server in front of Frama-C, an analyzer
    of C programs.  It speaks Frama-C's socket protocol, turns the rows Frama-C's
    Eva and WP plug-ins answer into verdicts, says what a check leaves open, records
    a proof as a receipt, and keeps, per function, a conclusion that rests on one.
    What a caller relies on is that a green answer is earned.  This library models
    the code that decides so and proves what its answers mean.

    ** Parts, and how they meet

    Frames travel over a Unix socket ([Codec], [Transport]); a client matches
    responses to requests and pages through tables ([Client]).  A row of such a
    table is a JSON object ([Json]); how it spells its verdict is [Status], how a
    goal inherits from its property [Rows], and what one row means [Verdicts].  A
    check reads all rows and produces gaps ([GapCodes], [Gaps], [ProbeGaps],
    [Pins]); its verdict is that there are none, split by target in [Targets], and
    it recommends a next call ([NextCall]) and sums up configurations ([Variants]).
    The goals of a run, named so that a reload keeps the name ([StableId]), go into
    a receipt ([Receipt]); two receipts are compared by [GoalDiff]; a receipt is
    evidence for a conclusion when [Evidence] finds nothing against it; [Session]
    keeps conclusions and makes stale those whose callee or environment moved;
    [Conclusions] checks a registered target, handles the store tool and loads
    conclusions from disk; [Coverage] reports how much of a project they cover.
    Functions are verified callees first: [Topo] computes that order from the call
    graph, over the interface of [Graph], and says which functions are ready;
    [ProgramStep] joins the order and the conclusions into one bounded answer that
    says what to do next.

    What is wrong with a goal or a contract is said apart from the verdict.  [WpTriage]
    decides what a timeout shows, given how much of the run was measured and how busy
    the host was; [WpFailure] puts a failed goal in a category with a fix, and sorts and
    shares what it found; [WpMessages] reads what WP says beside its goals.  [Contracts]
    reads the printed ACSL of a function for clauses that leave results or written
    locations open, and [Propose] drafts frames and requires from a function's effects
    and has each type-checked before it is offered.  [Alarms] sorts the runtime alarms and
    suggests clauses for them, [Suggestions] does so from the sequent of an open goal, and
    [CallChain] walks the cached call graph from a function.

    A caller's clauses become text that Frama-C accepts ([Acsl]); an array of entries
    tagged by kind is fanned out with the place each one went ([Tagged]); [Injection] is
    the call that puts them into a sandbox's copy of the program, or the ghost ones and
    loop annotations into the project itself, which no contract may reach.

    The handlers of the tools are sequences of requests with decisions between them.
    [Requests] has the state they run over and the monad they are written in.  [Reload]
    loads a project into the main process ([MainInstance] says when that process is kept,
    [SourceIdentity] when its AST is still the one of the sources, [CompileDb] what reaches
    the preprocessor, [ParseLog] and [ParseSurface] what the front end left out).
    [EvaRun] and [RunWp] run the two analyses, over the waits and drains of [WpTasks];
    [Proofread] says what a run assumed, [FindingLists] reads the rows back,
    [ReceiptRun] probes the printed program and writes the receipt.  [Check] composes all
    of these into one verdict, over an interface of the steps it calls; [CheckVariants]
    does so for several configurations, and [MainCheck] discharges the interface with the
    definitions before it.

    Around them: what a WP run is configured with ([WpConfig]), proofs and probes in
    processes of their own ([WpCli]), what such a process prints ([WpOutput]), how a
    process is started, watched and killed ([Proc]), where files may be written
    ([Paths]), the sandboxes that outlive a server ([Registry]) and those of this one
    ([Sandboxes]), how an error reads for the caller ([Errors]), and the self check
    ([Versions], [Probes], [SelfCheck]).

    Beside this, a tool screens C sources for races and lock-order cycles without
    running Frama-C.  A text is cleaned and cut into tokens and calls ([ConcText]) and
    into functions and globals ([ConcStructure]); a survey of all files finds the
    threads and what may run more than once ([ConcProgram]); each line is a list of
    actions ([ConcActions]) that move a lockset and a lock graph ([ConcLocks]) along a
    walk over the files, repeated until the lock summaries of the functions settle
    ([ConcWalk]); [ConcReport] pairs the accesses, finds the cycles of the lock order
    and assembles the answer.

    ** Files and sources

    - [Prelude]: combinators of Rust's Option and Iterator, tactics, hint databases.
    - [BTree]: sorting, and the order in which a BTreeMap or BTreeSet is walked.
    - [RustStr]: str methods on byte strings; [Json]: serde_json values with objects
      in insertion order, their accessors, and the equality that ignores the order.
    - [Status]: src/mcp/status.rs.  [Rows]: row functions of src/mcp/server.rs.
    - [Codec], [Transport], [Client]: src/frama-c/codec.rs, transport.rs, client.rs
      and src/error.rs.  [Client] has a monad over a world holding the client's
      fields, the script of the network and the clock.
    - [Verdicts]: src/mcp/verdicts.rs.  [GapCodes], [Gaps], [ProbeGaps], [Targets],
      [Pins], [NextCall], [Variants]: src/mcp/checkgaps.rs with what it calls of
      analysis.rs, acsl.rs, project.rs, types.rs and wpclass.rs.
    - [StableId]: the first and last part of src/mcp/wpclass.rs.  [Receipt]:
      src/mcp/receipt.rs.  [GoalDiff]: proof_goal_diff of src/mcp/analysis.rs.
    - [WpTriage], [WpFailure], [WpMessages]: the rest of src/mcp/wpclass.rs.
      [Contracts]: src/mcp/contracts.rs.  [Propose]: src/mcp/propose.rs.
    - [Acsl]: src/mcp/acsl.rs.  [Tagged], [Injection]: src/mcp/annotations.rs, without
      the handlers that only fetch context.
    - [WpOutput]: src/mcp/wpout.rs.  [WpCli]: src/mcp/wpcli.rs.  [Proc]: src/mcp/proc.rs.
      [Paths], [Registry]: src/mcp/store.rs.  [Errors]: the second half of src/error.rs.
    - [CompileDb], [ParseSurface], [ParseLog], [Reload]: src/mcp/project.rs.
    - [WpConfig], [SourceIdentity], [MainInstance], [Sandboxes]: src/mcp/server.rs, with
      create and delete of src/mcp/sandbox.rs as steps.
    - [Requests], [WpTasks], [EvaRun], [Proofread], [RunWp], [ReceiptRun],
      [FindingLists], [Check], [CheckVariants], [MainCheck]: the handlers of
      src/mcp/analysis.rs with what they call of server.rs and receipt.rs; an async
      function is a computation of [Requests], a request one step of it.
    - [Alarms], [Suggestions]: the alarm and sequent advice of src/mcp/server.rs.
      [CallChain]: call_chain_payload of analysis.rs.
    - [Versions], [Probes], [SelfCheck]: src/mcp/selfcheck.rs.
    - [Evidence], [Session]: src/state.rs, with one definition per operation of
      SessionState and a step relation over them.
    - [Conclusions]: src/mcp/conclusions.rs and the loader of store.rs.  [Coverage]:
      src/mcp/coverage.rs.
    - [Graph]: what src/topo.rs asks of the petgraph crate, as a class of operations
      and a class of laws, with one instance over edge lists that has them.  [Topo]:
      src/topo.rs and the two tools of analysis.rs over it.  [ProgramStep]:
      verify_program_step of analysis.rs with the budget of its response.
    - [ConcText], [ConcStructure], [ConcProgram], [ConcActions], [ConcLocks],
      [ConcWalk], [ConcReport]: src/mcp/concurrency.rs, in the order of that file.
      [ConcSound] holds no code: it is the paths of a function and the proof that a
      lockset claims no more than they hold.
    A definition keeps the name of the function it models; a step of a long
    function that has a name of its own here is said in its comment.

    ** What the theorems show

    - Check: a proved verdict is given only to a check that loaded its program, ran both
      analyses to the end and left no gap in any gate; its answer has one shape on every
      path; its receipt and that of the proof run in it are about one program.  Which
      gaps there are, producer by producer; under a proved verdict every
      goal counts as progress and no lemma is open.  One theorem shows a goal whose
      property did not consolidate and that leaves no gap.  Variants are proved together
      only when each is, and as many programs as they claim to be.
    - Runs: no goal is proved under the settings of another call as long as none sets them
      meanwhile (the lock between EVA and WP covers only the reset, and one lemma shows a
      proof under another call's entry point), and no value is computed under them; a
      second pass restores the session's timeout on every path; a run reported under a
      profile is evidence about its target; waiting for WP ends, whatever is answered and
      however late; a drain of messages is whole or says it is not.
    - Loading: what a load reports is what Frama-C was given, under the settings in force
      and in their order; a load that fails leaves what the session knew, also where its
      process was rebuilt, which one theorem shows to be wrong; a record of a parse is
      never of another AST, whatever writes and loads interleave, unless a file is put
      back with its time within one load; what reaches the preprocessor's shell is split
      into exactly the words meant and holds no character a shell gives a meaning to.
    - Annotations: contracts of the main project are out of reach by name; every place an
      answer names is the caller's own entry, counted among those of its kind; what was
      planned is accounted for.
    - Files and processes: where output lands, dangling links apart, which directories a
      sweep removes, which group a signal reaches; a recorded sandbox is not lost however
      servers interleave and die, but where a server cannot read the file or spells the
      state directory another way; WP runs on one sandbox exclude each other.
    - Text of tools: printed goals, messages, parse logs and error texts are read
      exactly for what the tools write, and theorems show what else they read.
    - Self check: a probe is settled by the answer to its own identifier; every request
      is sent and is in the report once, whatever the network does; switches are reported in their
      order whatever order they answer in; the canary is reliable exactly when the known
      bug is named and its fix is proved.
    - Evidence: a receipt is accepted if and only if it is intact and a complete
      proof of that function by check; receipts the server writes always pass the
      tests of name, shape and hash; an edited one is refused unless SHA-256
      collides.  What a receipt says of the gaps does not depend on the session, and
      its rows all progress exactly when the goals do.
    - Session: by induction over every sequence of operations, the resumption of what is on
      disk at any moment among them, a verified conclusion is supported now: its evidence
      stands, its callees' contracts hash to what it recorded, and all verified
      conclusions share one environment; stale dependencies are exactly the contracts that
      moved; a store names exactly the conclusions it changed; receipts are bounded and
      distinct.  What came off the disk and was not stored again is excepted, and one lemma
      shows a contract that came in that way go unnoticed.
    - Conclusions and coverage: when a receipt is evidence about a target, what
      loading keeps verified, that propagation of lost coverage ends and reaches
      exactly the callers, and that a complete report is sound.
    - Comparison: every goal is accounted for and reordering is no transition.
    - Call order: the layers partition the functions with a body, a call never goes
      to a later layer, and members of one group call each other; the stored order is
      that one; a function is ready exactly when it has no conclusion and every
      defined callee outside its group is verified, and while work is left, something
      is ready, running or blocked.
    - Program step: the action is the first that applies, in the code's order, and
      the response never exceeds its cap; a step that gives no answer gives the error of
      fetching the call graph.  One theorem shows that a function without
      a body is offered as work.
    - Failures: the category is a timeout's exactly when the goal timed out; goals with
      one advice key get the same advice; a report is sorted, names no id twice and
      loses no finding; where a caller is sent is decided by the setup categories; more
      prover time is advised exactly for a timeout known to be measured.  One theorem
      shows a goal whose name alone makes it a rejected request.
    - Contracts and proposals: on contracts of comparisons the lint of results is
      exact; what text it misreads is shown; a function's frame is proposed only when
      every effect is accounted for, which a loop's is not; no proposal is lost and each
      that is offered was checked.
    - Threads: cleaning keeps every column and is idempotent; a scan is well formed,
      so the walks index nothing that is not there; a function is in exactly the
      threads that reach it, and runs more than once exactly by the rules stated
      inductively; a lockset names only locks that every path holds, for paths whose calls
      do what their summaries say, that run a block at most once, jump to no label and
      never take a lock they hold, and one theorem shows three ways in which it claims too much outside these bounds;
      summaries, when they settle, are supported by one more walk.
    - Race report: a complete enumeration lists every pair that races and every write
      that races with itself, and what is listed never exceeds the limits; deadlocks
      are reported exactly for the mutually ordered locks whose edges have threads, which
      those of file scope have not, as one lemma shows.  A scan returns when every
      bracket is closed on its line, and one theorem shows that it never does
      otherwise.
    - Protocol: frames round trip over any split of the stream, oversized and
      malformed frames are refused, a poisoned transport stays so, waits end, and
      answers reach the request they belong to.
    - Rows, pins, messages, next calls, variants: functional specifications.

    ** Conventions, bounds and fuel

    A string is its UTF-8 bytes.  Rust integers are [N], [Z] or [nat] with the width
    written out where the code depends on it ([as_u32], [u32_saturating_add], the
    radix parsers).  A float is a binary64 [spec_float].  A HashMap is a [gmap]; the
    code walks one in no fixed order, here in [map_to_list]'s, and the theorems that
    read a walk speak of membership.  Loops that do not follow their data carry
    fuel: the client's waits take one more than the events the script and the clock
    allow, [propagate_loop] one more than the rows, the peeling of layers the number
    of groups, string scans the string's length, [reach_loop] the seeds and the
    edges, [grow_loop] one more than the names; each has a theorem that this is
    enough.  A deadline is the number of readings of the clock that still answer
    that it has not passed.  In the scan an outer [None] is a loop that never ends:
    the fuel of [after_suffixes] exceeds what any loop that ends needs, and a suffix
    that step_suffix returns unchanged is shown to exhaust every fuel.  Hash map
    state shared behind locks is passed explicitly: the code holds the write lock
    over each operation modelled as one step.

    ** Parameters

    serde_json's text and parsing ([to_string], [from_str], [to_string_pretty];
    to_vec writes the same bytes), petgraph's graphs (the classes of [Graph]),
    deserialization of records, SHA-256, the regular expressions of the regex crate,
    Debug quoting, files (those of a scan are a test and a reading function), random
    nonces, the load of the host, the answer of a dry run, and the embedded header's
    digest.  Of the plug-in: what Frama-C answers to a request, a function of every
    request sent before it; what a get or an exec of the annotation plug-in answers, over
    a state of its own; the identifiers it makes fresh.  Of the system: the answers of a
    spawn, of kill, of ps and of the file system, the output of processes and its decoding
    as text, values of the environment, whether a name is on the path, the identity of a
    file on disk.  Of other components, where a handler hands a call over: the sandbox's
    own Frama-C, the runs in isolated processes and those of mutants.  Patterns of the
    regex crate (labels, locations) are functions on text.  No theorem assumes anything
    of them but where its statement says so.

    ** Not modelled

    The handlers that fetch and only reshape what they fetch: the context tools of
    annotations.rs, the lookups and lists of project.rs, counts, investigations and the
    details of one goal in analysis.rs.  Creation and deletion of a sandbox
    as processes and files (their steps on the shared registry are), E-ACSL runs
    (eacsl.rs; what is read off their output is in [WpOutput]), and conclusions_payload,
    which reads long texts from disk: input and output throughout.  The schemas of
    types.rs are derived; the records handlers read are modelled where they are read.  The
    entry point, the router of the tools, logging, the OCaml plug-in under ast-utils,
    tests and scripts are left out. *)

From stdpp Require Export prelude strings gmap sorting.
From Stdlib Require Export ZArith Lia.

#[global] Set Default Goal Selector "!".
#[export] Set Warnings "-clear-no-such-hyp,-register-all".

(** ** Notations *)

Declare Scope fc_scope.
Delimit Scope fc_scope with fc.
Open Scope fc_scope.

(** [Option::or_else]: the first value that is there. *)
Definition or_else {A} (x y : option A) : option A :=
  match x with Some a => Some a | None => y end.

Infix "<||>" := or_else (at level 50, left associativity) : fc_scope.

(** [Option::unwrap_or]. *)
Definition unwrap_or {A} (x : option A) (d : A) : A :=
  match x with Some a => a | None => d end.

(** [Option::is_some_and] and [Option::is_none_or]. *)
Definition is_some_and {A} (f : A -> bool) (x : option A) : bool :=
  match x with Some a => f a | None => false end.

Definition is_none_or {A} (f : A -> bool) (x : option A) : bool :=
  match x with Some a => f a | None => true end.

(** [Option::filter] with a boolean predicate. *)
Definition opt_filter {A} (f : A -> bool) (x : option A) : option A :=
  match x with Some a => if f a then Some a else None | None => None end.

(** [bool::then_some]. *)
Definition then_some {A} (b : bool) (a : A) : option A :=
  if b then Some a else None.

(** [Option == Option] for a type with a boolean equality. *)
Definition opt_eqb {A} (eqb : A -> A -> bool) (x y : option A) : bool :=
  match x, y with
  | Some a, Some b => eqb a b
  | None, None => true
  | _, _ => false
  end.

Notation "x =s y" := (String.eqb x y) (at level 70, no associativity) : fc_scope.
Notation "x =?s y" := (opt_eqb String.eqb x (Some y)) (at level 70, no associativity) : fc_scope.

(** ** Iterator combinators *)

(** [Iterator::find_map]. *)
Fixpoint find_map {A B} (f : A -> option B) (l : list A) : option B :=
  match l with
  | [] => None
  | a :: l => match f a with Some b => Some b | None => find_map f l end
  end.

(** [Iterator::find]. *)
Fixpoint find_first {A} (f : A -> bool) (l : list A) : option A :=
  match l with
  | [] => None
  | a :: l => if f a then Some a else find_first f l
  end.

(** [Iterator::filter] with a boolean predicate. *)
Fixpoint bfilter {A} (f : A -> bool) (l : list A) : list A :=
  match l with
  | [] => []
  | a :: l => if f a then a :: bfilter f l else bfilter f l
  end.

(** [Iterator::filter_map]. *)
Fixpoint collect_some {A B} (f : A -> option B) (l : list A) : list B :=
  match l with
  | [] => []
  | a :: l => match f a with Some b => b :: collect_some f l | None => collect_some f l end
  end.

Definition count_if {A} (f : A -> bool) (l : list A) : nat := length (bfilter f l).

(** Machine integers: a Rust [as u32] truncates, [saturating_add] clamps. *)
Definition as_u32 (n : nat) : N := N.modulo (N.of_nat n) (2 ^ 32).
Definition u32_saturating_add (a b : N) : N := N.min (a + b) (2 ^ 32 - 1).

(** ** Tactics *)

(** Split every boolean connective of a hypothesis or of the goal. *)
Ltac bool_simpl :=
  repeat match goal with
  | H : _ && _ = true |- _ => apply andb_true_iff in H; destruct H
  | H : _ || _ = false |- _ => apply orb_false_iff in H; destruct H
  | H : negb _ = true |- _ => apply negb_true_iff in H
  | H : negb _ = false |- _ => apply negb_false_iff in H
  | H : String.eqb _ _ = true |- _ => apply String.eqb_eq in H
  | H : String.eqb _ _ = false |- _ => apply String.eqb_neq in H
  | H : (_ =? _)%nat = true |- _ => apply Nat.eqb_eq in H
  | H : (_ =? _)%nat = false |- _ => apply Nat.eqb_neq in H
  | H : (_ =? _)%N = true |- _ => apply N.eqb_eq in H
  | H : (_ =? _)%N = false |- _ => apply N.eqb_neq in H
  | H : (_ <=? _)%N = true |- _ => apply N.leb_le in H
  | H : (_ <=? _)%N = false |- _ => apply N.leb_gt in H
  | H : (_ <? _)%nat = true |- _ => apply Nat.ltb_lt in H
  | H : (_ <? _)%nat = false |- _ => apply Nat.ltb_ge in H
  | H : (_ <=? _)%nat = true |- _ => apply Nat.leb_le in H
  | H : (_ <=? _)%nat = false |- _ => apply Nat.leb_gt in H
  end.

(** Case on the first [match] or [if] of the goal or of [H], remembering it. *)
Ltac split_match :=
  match goal with
  | |- context [match ?x with _ => _ end] => destruct x eqn:?
  end.

Ltac split_match_in H :=
  match type of H with
  | context [match ?x with _ => _ end] => destruct x eqn:?
  end.

(** A closed decidable statement, such as membership in a list of literals. *)
Ltac decide_closed := apply (bool_decide_eq_true_1 _); vm_compute; reflexivity.

Create HintDb fc discriminated.
Create Rewrite HintDb fc.

(** ** Lemmas on options *)

Section options.
Context {A : Type}.
Implicit Types (x y : option A) (f : A -> bool).

Lemma or_else_Some x y a : x <||> y = Some a <-> x = Some a \/ (x = None /\ y = Some a).
Proof. destruct x; simpl; split; [by left|by intros [?|[??]]|by right|by intros [?|[??]]]. Qed.

Lemma or_else_None x y : x <||> y = None <-> x = None /\ y = None.
Proof. destruct x; simpl; split; by try intros [??]. Qed.

Lemma or_else_assoc x y z : (x <||> y) <||> z = x <||> (y <||> z).
Proof. by destruct x. Qed.

Lemma is_some_and_true f x : is_some_and f x = true <-> exists a, x = Some a /\ f a = true.
Proof.
  destruct x as [b|]; simpl; split; [by exists b| |done|by intros (? & ? & ?)].
  intros (a & [= <-] & ?). done.
Qed.

Lemma is_some_and_false f x : is_some_and f x = false <-> forall a, x = Some a -> f a = false.
Proof.
  destruct x as [b|]; simpl; split; [|by intros H; apply H|done|done].
  intros H a [= <-]. done.
Qed.

Lemma opt_filter_Some f x a : opt_filter f x = Some a <-> x = Some a /\ f a = true.
Proof.
  destruct x as [b|]; simpl; [|by split; [|intros []]].
  destruct (f b) eqn:E; split; [|by intros [[= ->] _]|done|].
  - by intros [= ->].
  - intros [[= ->] ?]. congruence.
Qed.

Lemma then_some_Some (b : bool) (a c : A) : then_some b a = Some c <-> b = true /\ a = c.
Proof. destruct b; simpl; split; [by intros [= ->]|by intros [_ ->]|done|by intros []]. Qed.
End options.

Lemma opt_eqb_string_Some (x : option string) (s : string) :
  (x =?s s) = true <-> x = Some s.
Proof.
  destruct x as [t|]; simpl; [|by split].
  rewrite String.eqb_eq. split; [by intros ->|by intros [= ->]].
Qed.

Lemma opt_eqb_string_Some_false (x : option string) (s : string) :
  (x =?s s) = false <-> x <> Some s.
Proof. rewrite <- opt_eqb_string_Some. by destruct (x =?s s). Qed.

#[export] Hint Rewrite @or_else_Some @or_else_None @is_some_and_true @is_some_and_false
  @opt_filter_Some @then_some_Some opt_eqb_string_Some opt_eqb_string_Some_false : fc.

(** ** Lemmas on the iterator combinators *)

Section iterators.
Context {A B : Type}.
Implicit Types (l : list A) (f : A -> bool) (g : A -> option B).

Lemma find_map_Some g l b : find_map g l = Some b -> exists a, a ∈ l /\ g a = Some b.
Proof.
  induction l as [|a l IH]; simpl; [done|].
  destruct (g a) eqn:E; intros H; [injection H as <-; exists a; split; [left|done]|].
  destruct (IH H) as (a' & ? & ?). exists a'. split; [by right|done].
Qed.

Lemma find_map_None g l : find_map g l = None <-> forall a, a ∈ l -> g a = None.
Proof.
  induction l as [|a l IH]; simpl; [set_solver|].
  destruct (g a) eqn:E; [split; [done|]|].
  - intros H. rewrite H in E by set_solver. done.
  - rewrite IH. set_solver.
Qed.

Lemma find_first_Some f l a : find_first f l = Some a -> a ∈ l /\ f a = true.
Proof.
  induction l as [|b l IH]; simpl; [done|].
  destruct (f b) eqn:E; intros H; [injection H as <-; split; [left|done]|].
  destruct (IH H). split; [by right|done].
Qed.

Lemma find_first_None f l : find_first f l = None <-> forall a, a ∈ l -> f a = false.
Proof.
  induction l as [|b l IH]; simpl; [set_solver|].
  destruct (f b) eqn:E; [split; [done|]|].
  - intros H. rewrite H in E by set_solver. done.
  - rewrite IH. set_solver.
Qed.

Lemma elem_of_bfilter f l a : a ∈ bfilter f l <-> a ∈ l /\ f a = true.
Proof.
  induction l as [|b l IH]; simpl; [set_solver|].
  destruct (f b) eqn:E; rewrite ?elem_of_cons, IH; split.
  - intros [->|[??]]; [by split; [left|]|by split; [right|]].
  - intros [[->|?] ?]; [by left|by right].
  - intros [??]. by split; [right|].
  - intros [[->|?] ?]; [congruence|done].
Qed.

Lemma bfilter_nil f l : bfilter f l = [] <-> forall a, a ∈ l -> f a = false.
Proof.
  induction l as [|b l IH]; simpl; [set_solver|].
  destruct (f b) eqn:E.
  - split; [done|]. intros H. rewrite H in E by set_solver. done.
  - rewrite IH. set_solver.
Qed.

Lemma bfilter_all f l : (forall a, a ∈ l -> f a = true) -> bfilter f l = l.
Proof.
  induction l as [|b l IH]; simpl; intros H; [done|].
  rewrite H by set_solver. f_equal. apply IH. set_solver.
Qed.

Lemma bfilter_app f l l' : bfilter f (l ++ l') = bfilter f l ++ bfilter f l'.
Proof. induction l as [|b l IH]; simpl; [done|]. destruct (f b); simpl; by rewrite IH. Qed.

Lemma length_bfilter_le f l : length (bfilter f l) <= length l.
Proof. induction l as [|b l IH]; simpl; [lia|]. destruct (f b); simpl; lia. Qed.

Lemma count_if_all f l : length l <= count_if f l -> forallb f l = true.
Proof.
  unfold count_if. induction l as [|a l IH]; simpl; [done|]. destruct (f a); simpl; intros H; [apply IH; lia|].
  pose proof (length_bfilter_le f l). lia.
Qed.

Lemma bfilter_sublist f l : sublist (bfilter f l) l.
Proof. induction l as [|b l IH]; simpl; [done|]. destruct (f b); by constructor. Qed.

Lemma sublist_same_length (l k : list A) : sublist l k -> length k <= length l -> l = k.
Proof.
  induction 1 as [|a l k Hs IH|a l k Hs _]; simpl; intros Hlen; [done|f_equal; apply IH; lia|].
  apply sublist_length in Hs. lia.
Qed.

Lemma elem_of_collect_some g l b : b ∈ collect_some g l <-> exists a, a ∈ l /\ g a = Some b.
Proof.
  induction l as [|a l IH]; simpl; [set_solver|].
  destruct (g a) eqn:E; [rewrite elem_of_cons|]; rewrite IH; clear IH; split.
  - intros [->|(c & ? & ?)]; [exists a|exists c]; set_solver.
  - intros (c & Hc & ?). apply elem_of_cons in Hc as [->|?]; [left; congruence|right; eauto].
  - intros (c & ? & ?). exists c. set_solver.
  - intros (c & Hc & ?). apply elem_of_cons in Hc as [->|?]; [congruence|eauto].
Qed.

Lemma collect_some_nil g l : collect_some g l = [] <-> forall a, a ∈ l -> g a = None.
Proof.
  induction l as [|a l IH]; simpl; [set_solver|].
  destruct (g a) eqn:E; [split; [done|]|].
  - intros H. rewrite H in E by set_solver. done.
  - rewrite IH. set_solver.
Qed.

Lemma existsb_true f l : existsb f l = true <-> exists a, a ∈ l /\ f a = true.
Proof.
  rewrite existsb_exists. split; intros (a & Ha & ?); exists a; split; auto;
    by apply list_elem_of_In.
Qed.

Lemma existsb_false f l : existsb f l = false <-> forall a, a ∈ l -> f a = false.
Proof.
  rewrite <- not_true_iff_false, existsb_true. split.
  - intros H a ?. apply not_true_iff_false. intros ?. apply H. by exists a.
  - intros H (a & ? & E). rewrite H in E; done.
Qed.

Lemma forallb_true f l : forallb f l = true <-> forall a, a ∈ l -> f a = true.
Proof.
  rewrite forallb_forall. split; intros H a ?; apply H; by apply list_elem_of_In.
Qed.

Lemma forallb_false f l : forallb f l = false <-> exists a, a ∈ l /\ f a = false.
Proof.
  induction l as [|x l IH]; simpl; [split; [done|by intros (? & H & _); inversion H]|].
  rewrite andb_false_iff, IH. setoid_rewrite elem_of_cons. naive_solver.
Qed.
End iterators.

Lemma bfilter_perm {A} (f : A -> bool) l l' : l ≡ₚ l' -> bfilter f l ≡ₚ bfilter f l'.
Proof.
  induction 1 as [|x l l' _ IH|x y l|l l' l'' _ IH1 _ IH2]; simpl; [done| | |by etrans].
  - destruct (f x); [by constructor|done].
  - destruct (f x), (f y); try done. constructor.
Qed.

Lemma collect_some_app {A B} (g : A -> option B) l k : collect_some g (l ++ k) = collect_some g l ++ collect_some g k.
Proof. induction l as [|a l IH]; [reflexivity|]. simpl. destruct (g a); simpl; rewrite IH; reflexivity. Qed.

Lemma collect_some_perm {A B} (f : A -> option B) l l' : l ≡ₚ l' -> collect_some f l ≡ₚ collect_some f l'.
Proof.
  induction 1 as [|x l l' _ IH|x y l|l l' l'' _ IH1 _ IH2]; simpl; [done| | |by etrans].
  - destruct (f x); [by constructor|done].
  - destruct (f x), (f y); try done. constructor.
Qed.

Lemma length_collect_some {A B} (f : A -> option B) l : length (collect_some f l) <= length l.
Proof. induction l as [|a l IH]; simpl; [done|]. destruct (f a); simpl; lia. Qed.
