(* ===== verification/RustStr.v ===== *)
(** * The Rust standard library's [str], as far as the server uses it

    A Rust [String] is a sequence of UTF-8 bytes; here it is a [string] of
    bytes ([ascii] is one byte).  The functions below are the [str] methods the
    modelled code calls.  Those that read characters rather than bytes
    ([trim], [split_whitespace], [chars().count()]) decode the UTF-8 sequences
    they need explicitly. *)

From S2P Require Import Prelude.
From Stdlib Require Export Ascii.
From stdpp Require Export pretty.

Open Scope string_scope.
Open Scope list_scope.
Infix "+s+" := String.append (at level 60, right associativity) : fc_scope.
#[global] Arguments String.append !_ _ / : simpl nomatch.

(** The double quote, kept apart because a string literal cannot hold one. *)
Definition dq : string := String (ascii_of_nat 34) "".
Definition nl : ascii := ascii_of_nat 10.

(** ** Bytes *)

Definition byte_val (c : ascii) : N := N_of_ascii c.
Definition in_range (lo hi : N) (c : ascii) : bool :=
  (lo <=? byte_val c)%N && (byte_val c <=? hi)%N.

Definition is_ascii_digit (c : ascii) : bool := in_range 48 57 c.
Definition is_ascii_upper (c : ascii) : bool := in_range 65 90 c.
Definition is_ascii_lower (c : ascii) : bool := in_range 97 122 c.
Definition is_ascii_alphanumeric (c : ascii) : bool :=
  is_ascii_digit c || is_ascii_upper c || is_ascii_lower c.
Definition is_ascii_hexdigit (c : ascii) : bool :=
  is_ascii_digit c || in_range 65 70 c || in_range 97 102 c.

Definition ascii_lower (c : ascii) : ascii :=
  if is_ascii_upper c then ascii_of_N (byte_val c + 32) else c.

Fixpoint smap (f : ascii -> ascii) (s : string) : string :=
  match s with "" => "" | String c s => String (f c) (smap f s) end.

Definition to_ascii_lowercase : string -> string := smap ascii_lower.

Definition eq_ignore_ascii_case (a b : string) : bool :=
  to_ascii_lowercase a =s to_ascii_lowercase b.

Fixpoint sall (f : ascii -> bool) (s : string) : bool :=
  match s with "" => true | String c s => f c && sall f s end.

(** No byte of the string is [c]. *)
Definition free_of (c : ascii) : string -> bool := sall (fun d => negb (Ascii.eqb d c)).

Definition is_empty (s : string) : bool := match s with "" => true | _ => false end.

(** ** Prefixes, suffixes, substrings *)

Definition starts_with (p s : string) : bool := String.prefix p s.

Fixpoint strip_prefix (p s : string) : option string :=
  match p, s with
  | "", _ => Some s
  | String a p, String b s => if Ascii.eqb a b then strip_prefix p s else None
  | String _ _, "" => None
  end.

(** [ends_with] and [strip_suffix]: some suffix of [s] is [p]. *)
Fixpoint ends_with (p s : string) : bool :=
  (p =s s) || match s with "" => false | String _ s => ends_with p s end.

Fixpoint strip_suffix (p s : string) : option string :=
  if p =s s then Some ""
  else match s with
       | "" => None
       | String c s => String c <$> strip_suffix p s
       end.

Fixpoint contains (needle s : string) : bool :=
  starts_with needle s || match s with "" => false | String _ s => contains needle s end.

(** [str::split_once]: the text around the first occurrence of the needle. *)
Fixpoint split_once (needle s : string) : option (string * string) :=
  match strip_prefix needle s with
  | Some rest => Some ("", rest)
  | None =>
    match s with
    | "" => None
    | String c s =>
      match split_once needle s with
      | Some (l, r) => Some (String c l, r)
      | None => None
      end
    end
  end.

(** [str::rsplit_once]: the text around the last occurrence of the needle. *)
Fixpoint rsplit_once (needle s : string) : option (string * string) :=
  match s with
  | "" => if is_empty needle then Some ("", "") else None
  | String c s' =>
    match rsplit_once needle s' with
    | Some (l, r) => Some (String c l, r)
    | None => (fun rest => ("", rest)) <$> strip_prefix needle s
    end
  end.

(** [str::find] and the slice that starts at a byte offset. *)
Definition find (needle s : string) : option nat := String.index 0 needle s.
Fixpoint skip (n : nat) (s : string) : string :=
  match n, s with
  | O, _ => s
  | S n, String _ s => skip n s
  | S _, "" => ""
  end.
Fixpoint take_str (n : nat) (s : string) : string :=
  match n, s with
  | O, _ => ""
  | S n, String c s => String c (take_str n s)
  | S _, "" => ""
  end.

Fixpoint take_while (f : ascii -> bool) (s : string) : string :=
  match s with
  | "" => ""
  | String c s => if f c then String c (take_while f s) else ""
  end.

(** [s.split(c)] always yields at least one part. *)
Fixpoint split_char (sep : ascii) (s : string) : list string :=
  match s with
  | "" => [""]
  | String c s =>
    if Ascii.eqb c sep then "" :: split_char sep s
    else match split_char sep s with
         | [] => [String c ""]
         | part :: parts => String c part :: parts
         end
  end.

(** [slice::join]. *)
Definition join (sep : string) (l : list string) : string := String.concat sep l.

(** [str::lines]: split at line feeds, a final empty line dropped, and one
    carriage return before each line feed dropped with it. *)
Definition strip_cr (s : string) : string :=
  unwrap_or (strip_suffix (String (ascii_of_nat 13) "") s) s.

Fixpoint lines_go (parts : list string) : list string :=
  match parts with
  | [] => []
  | [last] => if is_empty last then [] else [last]
  | part :: rest => strip_cr part :: lines_go rest
  end.

Definition lines (s : string) : list string := lines_go (split_char nl s).

(** [trim_end_matches(c)] for one ASCII character. *)
Fixpoint trim_end_char (c : ascii) (s : string) : string :=
  match s with
  | "" => ""
  | String d s' => if sall (Ascii.eqb c) s then "" else String d (trim_end_char c s')
  end.

(** [trim_start_matches(pat)] for a string pattern: each repetition shortens the
    string, so its length is fuel enough. *)
Fixpoint trim_start_matches_go (fuel : nat) (p s : string) : string :=
  match fuel with
  | O => s
  | S fuel =>
    match p with
    | "" => s
    | _ => match strip_prefix p s with
           | Some rest => trim_start_matches_go fuel p rest
           | None => s
           end
    end
  end.
Definition trim_start_matches (p s : string) : string :=
  trim_start_matches_go (String.length s) p s.

(** [str::replace] of a pattern that is not empty: each step consumes a byte. *)
Fixpoint replace_go (fuel : nat) (pattern to s : string) : string :=
  match fuel, s with
  | O, _ | _, "" => s
  | S fuel, String c s' =>
    match strip_prefix pattern s with
    | Some rest => to +s+ replace_go fuel pattern to rest
    | None => String c (replace_go fuel pattern to s')
    end
  end.
Definition replace (pattern to s : string) : string := replace_go (String.length s) pattern to s.

(** [str::to_lowercase] as far as tests for ASCII text can tell: beside the ASCII
    capitals, two characters have ASCII letters in their lower case, the Kelvin sign and
    the dotted capital I, whose lower case is an i and a combining dot. *)
Fixpoint to_lowercase (s : string) : string :=
  match s with
  | "" => ""
  | String a s1 =>
    match s1 with
    | String b s2 =>
      if (byte_val a =? 196)%N && (byte_val b =? 176)%N
      then String "i" (String (ascii_of_nat 204) (String (ascii_of_nat 135) (to_lowercase s2)))
      else match s2 with
           | String c s3 =>
             if (byte_val a =? 226)%N && (byte_val b =? 132)%N && (byte_val c =? 170)%N
             then String "k" (to_lowercase s3)
             else String (ascii_lower a) (to_lowercase s1)
           | "" => String (ascii_lower a) (to_lowercase s1)
           end
    | "" => String (ascii_lower a) ""
    end
  end.

(** ** White space

    [char::is_whitespace] is the Unicode property White_Space.  [ws_char s] is
    the rest of [s] after one white-space character, when it starts with one. *)
Definition ws_char (s : string) : option string :=
  match s with
  | "" => None
  | String a s1 =>
    if in_range 9 13 a || (byte_val a =? 32)%N then Some s1
    else match s1 with
         | "" => None
         | String b s2 =>
           if (byte_val a =? 194)%N && ((byte_val b =? 133)%N || (byte_val b =? 160)%N)
           then Some s2
           else match s2 with
                | "" => None
                | String c s3 =>
                  let abc := (byte_val a, byte_val b, byte_val c) in
                  if bool_decide (abc ∈ [(225, 154, 128); (226, 128, 168); (226, 128, 169);
                                         (226, 128, 175); (226, 129, 159); (227, 128, 128)]%N)
                     || ((byte_val a =? 226)%N && (byte_val b =? 128)%N && in_range 128 138 c)
                  then Some s3
                  else None
                end
         end
  end.

Fixpoint trim_start_go (fuel : nat) (s : string) : string :=
  match fuel with
  | O => s
  | S fuel => match ws_char s with Some rest => trim_start_go fuel rest | None => s end
  end.
Definition trim_start (s : string) : string := trim_start_go (String.length s) s.

Definition all_ws (s : string) : bool := is_empty (trim_start s).

(** A suffix made of white space only starts at a character boundary, because
    every white-space sequence starts with an ASCII or a leading byte. *)
Fixpoint trim_end (s : string) : string :=
  match s with
  | "" => ""
  | String c s' => if all_ws s then "" else String c (trim_end s')
  end.

Definition trim (s : string) : string := trim_start (trim_end s).

(** [s.chars().filter(|c| !c.is_whitespace()).collect()] *)
Fixpoint remove_ws_go (fuel : nat) (s : string) : string :=
  match fuel with
  | O => ""
  | S fuel =>
    match ws_char s with
    | Some rest => remove_ws_go fuel rest
    | None => match s with "" => "" | String c s => String c (remove_ws_go fuel s) end
    end
  end.
Definition remove_ws (s : string) : string := remove_ws_go (S (String.length s)) s.

(** [split_whitespace]: the maximal runs of characters that are no white space. *)
Fixpoint split_ws_go (fuel : nat) (cur : string) (s : string) : list string :=
  let flush rest := if is_empty cur then rest else cur :: rest in
  match fuel with
  | O => flush []
  | S fuel =>
    match ws_char s with
    | Some rest => flush (split_ws_go fuel "" rest)
    | None =>
      match s with
      | "" => flush []
      | String c s => split_ws_go fuel (cur +s+ String c "") s
      end
    end
  end.
Definition split_whitespace (s : string) : list string :=
  split_ws_go (S (String.length s)) "" s.

(** [s.chars().count()]: the bytes that do not continue a character. *)
Fixpoint chars_count (s : string) : nat :=
  match s with
  | "" => 0
  | String c s => (if in_range 128 191 c then 0 else 1) + chars_count s
  end.

(** ** Numbers *)

Definition digit_val (c : ascii) : option N :=
  if is_ascii_digit c then Some (byte_val c - 48)%N else None.
Definition hex_val (c : ascii) : option N :=
  if is_ascii_digit c then Some (byte_val c - 48)%N
  else if in_range 97 102 c then Some (byte_val c - 87)%N
  else if in_range 65 70 c then Some (byte_val c - 55)%N
  else None.

Fixpoint digits_val (dig : ascii -> option N) (base acc : N) (s : string) : option N :=
  match s with
  | "" => Some acc
  | String c s =>
    match dig c with
    | Some d => digits_val dig base (acc * base + d)%N s
    | None => None
    end
  end.

(** Rust's unsigned [from_str_radix]: one optional ["+"], then at least one
    digit, and no overflow of the target width. *)
Definition from_str_radix (dig : ascii -> option N) (base bits : N) (s : string) : option N :=
  let body := match s with
              | String c rest => if Ascii.eqb c "+"%char then rest else s
              | "" => ""
              end in
  if is_empty body then None
  else match digits_val dig base 0 body with
       | Some n => if (n <? 2 ^ bits)%N then Some n else None
       | None => None
       end.

Definition parse_u64 : string -> option N := from_str_radix digit_val 10 64.
Definition usize_from_hex : string -> option N := from_str_radix hex_val 16 64.

Definition hex_digit (n : N) : ascii :=
  if (n <? 10)%N then ascii_of_N (48 + n) else ascii_of_N (87 + n).

(** [width] lower case hexadecimal digits, most significant first: what
    ["{:0<width>x}"] writes for a number that fits. *)
Fixpoint hex_fixed (width : nat) (n : N) : string :=
  match width with
  | O => ""
  | S w => String (hex_digit (N.modulo (N.div n (16 ^ N.of_nat w)) 16)) (hex_fixed w n)
  end.

(** ["{n}"] for an unsigned number. *)
Definition dec (n : nat) : string := pretty n.
Definition dec_N (n : N) : string := pretty n.

(** ** UTF-8 validity, as [std::str::from_utf8] checks it

    The accepted sequences are those of the Unicode standard's table of
    well-formed UTF-8: no overlong form, no surrogate, nothing over U+10FFFF. *)
Fixpoint utf8_valid_go (fuel : nat) (s : string) : bool :=
  match fuel with
  | O => true
  | S fuel =>
    match s with
    | "" => true
    | String a s1 =>
      if in_range 0 127 a then utf8_valid_go fuel s1
      else match s1 with
           | "" => false
           | String b s2 =>
             if in_range 194 223 a && in_range 128 191 b then utf8_valid_go fuel s2
             else match s2 with
                  | "" => false
                  | String c s3 =>
                    if ((byte_val a =? 224)%N && in_range 160 191 b
                        || (in_range 225 236 a || in_range 238 239 a) && in_range 128 191 b
                        || (byte_val a =? 237)%N && in_range 128 159 b)
                       && in_range 128 191 c
                    then utf8_valid_go fuel s3
                    else match s3 with
                         | "" => false
                         | String d s4 =>
                           if ((byte_val a =? 240)%N && in_range 144 191 b
                               || in_range 241 243 a && in_range 128 191 b
                               || (byte_val a =? 244)%N && in_range 128 143 b)
                              && in_range 128 191 c && in_range 128 191 d
                           then utf8_valid_go fuel s4
                           else false
                         end
                  end
           end
    end
  end.
Definition utf8_valid (s : string) : bool := utf8_valid_go (String.length s) s.

(** ** Lemmas on byte strings *)

Lemma length_app_str a b : String.length (a +s+ b) = String.length a + String.length b.
Proof. induction a as [|c a IH]; simpl; [done|]. by rewrite IH. Qed.

Lemma app_str_assoc (a b c : string) : (a +s+ b) +s+ c = a +s+ (b +s+ c).
Proof. induction a as [|x a IH]; simpl; [done|]. by rewrite IH. Qed.

Lemma app_str_nil_r (a : string) : a +s+ "" = a.
Proof. induction a as [|x a IH]; simpl; [done|]. by rewrite IH. Qed.

Lemma app_str_cancel (a b c : string) : a +s+ b = a +s+ c -> b = c.
Proof. induction a as [|d a IH]; simpl; [done|]. intros [= H]. auto. Qed.

Lemma take_str_app n a b :
  n <= String.length a -> take_str n (a +s+ b) = take_str n a.
Proof. revert a. induction n as [|n IH]; intros [|c a] H; simpl in *; try done; [lia|]. f_equal. apply IH. lia. Qed.

Lemma take_str_exact a b : take_str (String.length a) (a +s+ b) = a.
Proof. induction a as [|c a IH]; simpl; [done|]. by rewrite IH. Qed.

Lemma skip_exact a b : skip (String.length a) (a +s+ b) = b.
Proof. induction a as [|c a IH]; simpl; [done|]. by rewrite IH. Qed.

Lemma skip_app n a b : n <= String.length a -> skip n (a +s+ b) = skip n a +s+ b.
Proof. revert a. induction n as [|n IH]; intros [|c a] H; simpl in *; try done; [lia|]. apply IH. lia. Qed.

Lemma take_skip_str n s : take_str n s +s+ skip n s = s.
Proof. revert s. induction n as [|n IH]; intros [|c s]; simpl; [done..|]. by rewrite IH. Qed.

Lemma skip_skip a b s : skip a (skip b s) = skip (b + a) s.
Proof.
  revert s. induction b as [|b IH]; intros s; simpl; [done|]. destruct s as [|c s]; [by destruct a|]. apply IH.
Qed.

Lemma length_take_str n s : n <= String.length s -> String.length (take_str n s) = n.
Proof. revert s. induction n as [|n IH]; intros [|c s] H; simpl in *; [done..|lia|]. f_equal. apply IH. lia. Qed.

Lemma length_skip n s : String.length (skip n s) = String.length s - n.
Proof. revert s. induction n as [|n IH]; intros [|c s]; simpl; [done..|]. apply IH. Qed.

Lemma strip_prefix_app p s : strip_prefix p (p +s+ s) = Some s.
Proof.
  induction p as [|c p IH]; simpl; [by destruct s|].
  by rewrite Ascii.eqb_refl.
Qed.

Lemma strip_prefix_Some p s rest : strip_prefix p s = Some rest -> s = p +s+ rest.
Proof.
  revert s. induction p as [|c p IH]; intros [|d s]; simpl; try (by intros [= <-]).
  destruct (Ascii.eqb c d) eqn:E; [|done]. apply Ascii.eqb_eq in E as <-.
  intros H. by rewrite (IH _ H).
Qed.

(** The last occurrence stays the last one whatever precedes it. *)
Lemma rsplit_once_prepend needle s t l r :
  rsplit_once needle t = Some (l, r) -> rsplit_once needle (s +s+ t) = Some (s +s+ l, r).
Proof. intros H. induction s as [|c s IH]; simpl; [done|]. by rewrite IH. Qed.

(** ** Lemmas on white space *)

Lemma ws_char_length s rest : ws_char s = Some rest -> String.length rest < String.length s.
Proof. unfold ws_char. repeat split_match; intros [= <-]; subst; simpl; lia. Qed.

Lemma length_trim_start s : String.length (trim_start s) <= String.length s.
Proof.
  unfold trim_start. generalize (String.length s) at 1 as fuel. intros fuel. revert s.
  induction fuel as [|fuel IH]; intros s; simpl; [done|]. destruct (ws_char s) as [rest|] eqn:E; [|done].
  apply ws_char_length in E. specialize (IH rest). lia.
Qed.

Lemma length_trim_end s : String.length (trim_end s) <= String.length s.
Proof. induction s as [|c s IH]; simpl; [done|]. destruct (all_ws _); simpl; lia. Qed.

Lemma length_trim s : String.length (trim s) <= String.length s.
Proof. unfold trim. pose proof (length_trim_start (trim_end s)). pose proof (length_trim_end s). lia. Qed.

(** An ASCII character is white space only if it is one of six. *)
Lemma ws_char_ascii c s : (byte_val c < 128)%N -> in_range 9 13 c || (byte_val c =? 32)%N = false ->
  ws_char (String c s) = None.
Proof.
  intros Hc Hw. unfold ws_char. rewrite Hw. destruct s as [|b s]; [done|].
  assert (Hne : forall n, (128 <= n)%N -> (byte_val c =? n)%N = false) by (intros n Hn; apply N.eqb_neq; lia).
  rewrite (Hne 194%N) by lia. simpl. destruct s as [|d s]; [done|]. rewrite (Hne 226%N) by lia. simpl.
  rewrite orb_false_r. rewrite bool_decide_eq_false_2; [done|].
  rewrite !not_elem_of_cons. split_and!; try (intros [= H _ _]; rewrite H in Hc; lia). apply not_elem_of_nil.
Qed.

Lemma trim_start_ascii c s : (byte_val c < 128)%N -> in_range 9 13 c || (byte_val c =? 32)%N = false ->
  trim_start (String c s) = String c s.
Proof. intros. unfold trim_start. cbn [String.length trim_start_go]. by rewrite ws_char_ascii. Qed.

(** ** Words

    A graphic character is printable ASCII and no blank; a word is one or more of
    them. *)
Definition graphic (c : ascii) : bool := in_range 33 126 c.
Definition is_word (s : string) : bool := negb (is_empty s) && sall graphic s.

Lemma graphic_not_ws c s : graphic c = true -> ws_char (String c s) = None.
Proof.
  unfold graphic, in_range. rewrite andb_true_iff, !N.leb_le. intros [H1 H2]. apply ws_char_ascii; [lia|].
  unfold in_range. rewrite orb_false_iff, andb_false_iff, !N.leb_gt, N.eqb_neq. lia.
Qed.

Lemma split_ws_go_enough s : forall fuel fuel' cur, String.length s < fuel -> String.length s < fuel' ->
  split_ws_go fuel cur s = split_ws_go fuel' cur s.
Proof.
  induction (Nat.lt_wf_0_projected String.length s) as [s _ IH]. intros [|fuel] [|fuel'] cur H H'; [lia..|]. cbn [split_ws_go]. destruct (ws_char s) as [rest|] eqn:E.
  - apply ws_char_length in E. destruct (is_empty cur); [|f_equal]; apply IH; lia.
  - destruct s as [|c s]; [done|]. simpl in *. apply IH; simpl; lia.
Qed.

Lemma split_ws_go_graphic fuel cur c s : graphic c = true ->
  split_ws_go (S fuel) cur (String c s) = split_ws_go fuel (cur +s+ String c "") s.
Proof. intros H. cbn [split_ws_go]. by rewrite graphic_not_ws. Qed.

Lemma split_ws_go_word w s : forall cur, sall graphic w = true ->
  split_ws_go (S (String.length (w +s+ s))) cur (w +s+ s) = split_ws_go (S (String.length s)) (cur +s+ w) s.
Proof.
  induction w as [|c w IH]; intros cur Hw; [by rewrite app_str_nil_r|].
  cbn [sall] in Hw. apply andb_true_iff in Hw as [Hc Hw].
  change ((String c w) +s+ s) with (String c (w +s+ s)). rewrite split_ws_go_graphic by done.
  change (String.length (String c (w +s+ s))) with (S (String.length (w +s+ s))).
  by rewrite IH, app_str_assoc.
Qed.

Lemma split_whitespace_blank s : split_whitespace (String " " s) = split_whitespace s.
Proof. done. Qed.

Lemma split_whitespace_word w s : is_word w = true ->
  split_whitespace (w +s+ String " " s) = w :: split_whitespace s /\ split_whitespace w = [w].
Proof.
  unfold is_word. rewrite andb_true_iff, negb_true_iff. intros [He Hw]. unfold split_whitespace. split.
  - rewrite split_ws_go_word by done. cbn [String.append split_ws_go String.length ws_char].
    change (in_range 9 13 " " || (byte_val " " =? 32)%N) with true. cbv iota. by rewrite He.
  - rewrite <- (app_str_nil_r w) at 1 2. rewrite split_ws_go_word by done. simpl. by rewrite He.
Qed.

(** Blanks between words are all that splitting loses. *)
Lemma split_whitespace_join ws : forallb is_word ws = true -> split_whitespace (join " " ws) = ws.
Proof.
  induction ws as [|w ws IH]; simpl; [done|]. rewrite andb_true_iff. intros [Hw Hws].
  destruct ws as [|w' ws]; [by apply split_whitespace_word|].
  change (join " " (w :: w' :: ws)) with (w +s+ String " " (join " " (w' :: ws))).
  rewrite (proj1 (split_whitespace_word w _ Hw)). f_equal. by apply IH.
Qed.

Lemma trim_start_word w s : is_word w = true -> trim_start (w +s+ s) = w +s+ s.
Proof.
  destruct w as [|c w]; [done|]. intros H. cbn [is_word is_empty negb sall andb] in H. apply andb_true_iff in H as [Hc _]. change ((String c w) +s+ s) with (String c (w +s+ s)).
  unfold trim_start. cbn [String.length trim_start_go]. by rewrite graphic_not_ws.
Qed.

Lemma trim_start_blank s : trim_start (String " " s) = trim_start s.
Proof. done. Qed.

(** ** Searching *)

Lemma prefix_length p s : String.prefix p s = true -> String.length p <= String.length s.
Proof.
  revert s. induction p as [|a p IH]; intros [|b s]; simpl; try done; [lia|].
  destruct (ascii_dec a b); [|done]. intros H. apply IH in H. lia.
Qed.

Lemma find_cons p c s : p <> "" ->
  find p (String c s) = if starts_with p (String c s) then Some 0 else S <$> find p s.
Proof.
  intros Hp. unfold find, starts_with. cbn [String.index]. destruct p; [congruence|].
  destruct (String.prefix _ _); [reflexivity|]. destruct (String.index 0 _ s); reflexivity.
Qed.

Lemma find_spec p s n : p <> "" -> find p s = Some n ->
  starts_with p (skip n s) = true /\ n + String.length p <= String.length s
  /\ forall m, m < n -> starts_with p (skip m s) = false.
Proof.
  intros Hp. revert n; induction s as [|c s IH]; intros n Hn; [destruct p; [congruence|discriminate]|].
  rewrite (find_cons p c s Hp) in Hn. destruct (starts_with p (String c s)) eqn:Hs.
  - injection Hn as <-. split_and!; [assumption| |lia]. apply prefix_length. assumption.
  - destruct (find p s) as [k|]; [|discriminate]. injection Hn as <-.
    destruct (IH k eq_refl) as (H1 & H2 & H3). split_and!; [assumption|simpl; lia|].
    intros [|m] Hm; [assumption|]. apply H3. lia.
Qed.

Lemma find_None p s m : p <> "" -> find p s = None -> starts_with p (skip m s) = false.
Proof.
  intros Hp. revert m; induction s as [|c s IH]; intros m Hn; [destruct p, m; [congruence..|reflexivity|reflexivity]|].
  rewrite (find_cons p c s Hp) in Hn. destruct (starts_with p (String c s)) eqn:Hs; [discriminate|].
  destruct (find p s); [discriminate|]. destruct m; [assumption|]. apply IH. reflexivity.
Qed.

Lemma contains_skip p s : contains p s = true -> exists m, starts_with p (skip m s) = true.
Proof.
  induction s as [|c s IH]; cbn [contains]; intros H; apply orb_true_iff in H as [H|H];
    [exists 0; assumption | discriminate | exists 0; assumption |].
  destruct (IH H) as [m Hm]. exists (S m). assumption.
Qed.

(** A prefix of the cut text is one of the text, and fits before the cut. *)
Lemma starts_with_take p k s : starts_with p (take_str k s) = true -> starts_with p s = true /\ String.length p <= k.
Proof.
  unfold starts_with. revert p s; induction k as [|k IH]; intros p s H.
  - destruct p; [destruct s; split; [reflexivity|simpl; lia..]|destruct s; discriminate].
  - destruct p as [|d p]; [destruct s; split; try reflexivity; simpl; lia|].
    destruct s as [|c s]; [discriminate|]. simpl in *. destruct (Ascii.ascii_dec d c); [|discriminate].
    destruct (IH p s H). split; [assumption|lia].
Qed.

Lemma skip_take m k s : skip m (take_str k s) = take_str (k - m) (skip m s).
Proof.
  revert k s; induction m as [|m IH]; intros [|k] s; simpl; try reflexivity.
  destruct s; [destruct (k - m); reflexivity|]. apply IH.
Qed.

(** Text cut at or before the first occurrence holds none. *)
Lemma contains_before p s k : p <> "" -> (forall n, find p s = Some n -> k <= n) -> contains p (take_str k s) = false.
Proof.
  intros Hp Hk. destruct (contains p (take_str k s)) eqn:Hc; [|reflexivity].
  apply contains_skip in Hc as [m Hm]. rewrite skip_take in Hm. apply starts_with_take in Hm as [Hm Hlen].
  assert (0 < String.length p) by (destruct p; [congruence|simpl; lia]).
  destruct (find p s) as [n|] eqn:Hn.
  - specialize (Hk n eq_refl). destruct (find_spec p s n Hp Hn) as (_ & _ & Hfirst).
    rewrite Hfirst in Hm by lia. discriminate.
  - rewrite (find_None p s m Hp Hn) in Hm. discriminate.
Qed.

(** ** Lemmas on the bytes of a string *)

Lemma sall_app f a b : sall f (a +s+ b) = sall f a && sall f b.
Proof. induction a as [|c a IH]; simpl; [done|]. by rewrite IH, andb_assoc. Qed.

Lemma take_while_run f s rest : sall f s = true -> match rest with String c _ => f c = false | "" => True end ->
  take_while f (s +s+ rest) = s.
Proof.
  intros Hs Hr. induction s as [|c s IH]; simpl in *.
  - destruct rest as [|c rest]; [done|]. simpl. by rewrite Hr.
  - apply andb_true_iff in Hs as [-> Hs]. by rewrite (IH Hs).
Qed.

Lemma sall_impl (f g : ascii -> bool) s : (forall c, f c = true -> g c = true) -> sall f s = true -> sall g s = true.
Proof. intros H. induction s as [|c s IH]; simpl; [done|]. rewrite !andb_true_iff. intros [? ?]. auto. Qed.

(** What precedes a separator it does not hold, and what follows it. *)
Lemma separated_inj c (a b x y : string) :
  free_of c a = true -> free_of c b = true ->
  a +s+ String c x = b +s+ String c y -> a = b /\ x = y.
Proof.
  unfold free_of.
  revert b; induction a as [|d a IH]; intros [|e b] Ha Hb Heq; simpl in *.
  - split; congruence.
  - injection Heq as <- _. rewrite Ascii.eqb_refl in Hb. discriminate.
  - injection Heq as -> _. rewrite Ascii.eqb_refl in Ha. discriminate.
  - injection Heq as <- Heq. apply andb_true_iff in Ha as [_ Ha], Hb as [_ Hb].
    destruct (IH b Ha Hb Heq) as [-> ->]. auto.
Qed.

Lemma lowercase_app s t : to_ascii_lowercase (s +s+ t) = to_ascii_lowercase s +s+ to_ascii_lowercase t.
Proof. induction s as [|c s IH]; [reflexivity|]. unfold to_ascii_lowercase in *. simpl. rewrite IH. reflexivity. Qed.

Lemma starts_with_longer p s t : starts_with p s = true -> starts_with p (s +s+ t) = true.
Proof.
  revert p; induction s as [|c s IH]; intros [|d p] H; [destruct t; reflexivity | discriminate | reflexivity |].
  simpl in *. destruct (Ascii.ascii_dec d c); [auto|discriminate].
Qed.

Lemma contains_longer needle s t : contains needle s = true -> contains needle (s +s+ t) = true.
Proof.
  induction s as [|c s IH].
  - intros H. destruct needle; [destruct t; reflexivity | discriminate].
  - intros H. change (starts_with needle (String c s) || contains needle s = true) in H.
    change (starts_with needle (String c s +s+ t) || contains needle (s +s+ t) = true).
    apply orb_true_iff in H as [H|H]; apply orb_true_iff; [left; apply starts_with_longer | right]; auto.
Qed.

Lemma contains_app_r needle a s : contains needle s = true -> contains needle (a +s+ s) = true.
Proof. intros H. induction a as [|c a IH]; [done|]. simpl. by rewrite IH, orb_true_r. Qed.

(** ** Lemmas on decimal numbers *)

Lemma digit_of_small (d : N) : (d < 10)%N ->
  digit_val (pretty_N_char d) = Some d /\ is_ascii_digit (pretty_N_char d) = true.
Proof.
  intros H. assert (d = 0 \/ d = 1 \/ d = 2 \/ d = 3 \/ d = 4 \/ d = 5 \/ d = 6 \/ d = 7 \/ d = 8 \/ d = 9)%N as Hd by lia.
  by repeat destruct Hd as [->|Hd]; subst.
Qed.

(** The digits of a number, written in front of [s], read back as the number. *)
Lemma pretty_go_digits (x : N) : forall s,
  (forall acc, digits_val digit_val 10 acc (pretty_N_go x s)
     = digits_val digit_val 10 (acc * 10 ^ N.of_nat (String.length (pretty_N_go x s) - String.length s) + x) s)
  /\ (sall is_ascii_digit s = true -> sall is_ascii_digit (pretty_N_go x s) = true)
  /\ (String.length s <= String.length (pretty_N_go x s))%nat
  /\ ((0 < x)%N -> (String.length s < String.length (pretty_N_go x s))%nat).
Proof.
  induction x as [x IH] using (well_founded_induction N.lt_wf_0). intros s.
  destruct (decide (0 < x)%N) as [Hx|Hx].
  2:{ assert (x = 0)%N as -> by lia. rewrite pretty_N_go_0. split_and!; try done.
      intros acc. rewrite Nat.sub_diag. simpl. by rewrite N.mul_1_r, N.add_0_r. }
  rewrite pretty_N_go_step by lia.
  assert (Hlt : (x / 10 < x)%N) by (apply N.div_lt; lia).
  destruct (digit_of_small (x mod 10)) as [Hd Hdig]; [apply N.mod_lt; lia|].
  destruct (IH _ Hlt (String (pretty_N_char (x mod 10)) s)) as (H1 & H2 & H3 & H4).
  simpl in H3, H4. split_and!.
  - intros acc. rewrite H1. cbn [digits_val]. rewrite Hd. f_equal.
    set (k := String.length (pretty_N_go (x / 10) (String (pretty_N_char (x mod 10)) s))) in *.
    replace (k - String.length s)%nat with (S (k - S (String.length s)))%nat by lia.
    cbn [String.length]. rewrite Nat2N.inj_succ, N.pow_succ_r by lia.
    rewrite (N.div_mod x 10) at 3 by lia. nia.
  - intros Hs. apply H2. simpl. by rewrite Hdig.
  - lia.
  - lia.
Qed.

Lemma pretty_digits (n : N) :
  digits_val digit_val 10 0 (pretty n) = Some n /\ sall is_ascii_digit (pretty n) = true
  /\ exists c s, pretty n = String c s /\ is_ascii_digit c = true.
Proof.
  unfold pretty, pretty_N. destruct (decide (n = 0%N)) as [->|Hn]; [split_and!; [done|done|by exists "0"%char, ""]|].
  destruct (pretty_go_digits n "") as (H1 & H2 & _ & H4). split_and!; [by rewrite H1|by apply H2|].
  specialize (H4 ltac:(lia)). specialize (H2 eq_refl). destruct (pretty_N_go n "") as [|c s]; simpl in *; [lia|].
  bool_simpl. by exists c, s.
Qed.

Lemma dec_N_free c n : is_ascii_digit c = false -> free_of c (dec_N n) = true.
Proof.
  intros Hc. destruct (pretty_digits n) as (_ & Hd & _). revert Hd. apply sall_impl. intros d Hd.
  destruct (Ascii.eqb_spec d c) as [->|]; [congruence|done].
Qed.

Lemma dec_free c n : is_ascii_digit c = false -> free_of c (dec n) = true.
Proof. apply (dec_N_free c (N.of_nat n)). Qed.

Lemma dec_N_inj a b : dec_N a = dec_N b -> a = b.
Proof. apply (inj pretty). Qed.

Lemma dec_inj n m : dec n = dec m -> n = m.
Proof. apply (inj pretty). Qed.

Lemma free_of_app c a b : free_of c (a +s+ b) = free_of c a && free_of c b.
Proof. apply sall_app. Qed.

Lemma split_once_none c s : free_of c s = true -> split_once (String c "") s = None.
Proof.
  induction s as [|d s IH]; intros Hs; cbn in *; [done|]. apply andb_true_iff in Hs as [Hd Hs].
  destruct (Ascii.eqb_spec c d) as [->|_]; [by rewrite Ascii.eqb_refl in Hd|]. by rewrite IH.
Qed.

Lemma split_char_free sep s : free_of sep s = true -> split_char sep s = [s].
Proof.
  unfold free_of. induction s as [|c s IH]; [done|]. cbn [sall split_char]. intros [Hc Hs]%andb_true_iff.
  apply negb_true_iff in Hc. by rewrite Hc, IH.
Qed.

Lemma split_char_sep sep a b : free_of sep a = true -> split_char sep (a +s+ String sep b) = a :: split_char sep b.
Proof.
  unfold free_of. induction a as [|c a IH]; cbn [sall split_char String.append]; [by rewrite Ascii.eqb_refl|].
  intros [Hc Ha]%andb_true_iff. apply negb_true_iff in Hc. by rewrite Hc, IH.
Qed.

(** A separator that the first part does not hold is found right after it. *)
Lemma split_once_free c a b : free_of c a = true -> split_once (String c "") (a +s+ String c b) = Some (a, b).
Proof.
  induction a as [|d a IH]; intros Ha; cbn in *; [by rewrite Ascii.eqb_refl|].
  apply andb_true_iff in Ha as [Hd Ha]. destruct (Ascii.eqb_spec d c) as [->|Hne]; [done|].
  destruct (Ascii.eqb_spec c d) as [->|_]; [done|]. by rewrite IH.
Qed.

Lemma rsplit_once_free c pre name : free_of c name = true -> rsplit_once (String c "") (pre +s+ String c name) = Some (pre, name).
Proof.
  intros Hf. assert (Hnone : rsplit_once (String c "") name = None).
  { induction name as [|d name IH]; [done|]. cbn in Hf |- *. apply andb_true_iff in Hf as [Hd Hf]. rewrite (IH Hf).
    destruct (Ascii.eqb_spec d c) as [->|Hne]; [done|]. by destruct (Ascii.eqb_spec c d) as [->|]. }
  assert (Hbase : rsplit_once (String c "") (String c name) = Some ("", name)).
  { cbn [rsplit_once]. rewrite Hnone. cbn. by rewrite Ascii.eqb_refl. }
  pose proof (rsplit_once_prepend _ pre _ _ _ Hbase) as H. by rewrite app_str_nil_r in H.
Qed.

Lemma split_once_Some c s a b : split_once (String c "") s = Some (a, b) -> s = a +s+ String c b /\ free_of c a = true.
Proof.
  revert a. induction s as [|d s IH]; intros a; [done|]. cbn. destruct (Ascii.eqb_spec c d) as [->|Hne]; [by intros [= <- <-]|].
  destruct (split_once _ s) as [[a' b']|]; [|done]. intros [= <- ->]. destruct (IH _ eq_refl) as [-> Hf]. split; [done|].
  cbn. apply andb_true_iff. split; [|done]. by apply negb_true_iff, Ascii.eqb_neq.
Qed.
Lemma rsplit_once_Some c s a b : rsplit_once (String c "") s = Some (a, b) -> s = a +s+ String c b /\ free_of c b = true.
Proof.
  revert a. induction s as [|d s IH]; intros a; [done|]. cbn. destruct (rsplit_once _ s) as [[a' b']|] eqn:E.
  { intros [= <- ->]. by destruct (IH _ eq_refl) as [-> Hf]. }
  destruct (Ascii.eqb_spec c d) as [->|Hne]; [|done]. intros [= <- <-]. split; [done|]. clear IH.
  induction s as [|e s IH]; [done|]. cbn in E |- *. destruct (rsplit_once (String d "") s) as [[? ?]|]; [done|].
  destruct (Ascii.eqb_spec d e) as [->|Hde]; [done|]. apply andb_true_iff. split; [by apply negb_true_iff, Ascii.eqb_neq|by apply IH].
Qed.

Lemma ends_with_app p s : ends_with p (s +s+ p) = true.
Proof.
  induction s as [|c s IH]; cbn [String.append].
  - destruct p; cbn; [done|]. by rewrite Ascii.eqb_refl, String.eqb_refl.
  - cbn [ends_with]. by rewrite IH, orb_true_r.
Qed.

(** ** Lemmas on trimming *)

Lemma trim_end_word w t : sall graphic w = true -> trim_end (w +s+ t) = w +s+ trim_end t.
Proof.
  induction w as [|c w IH]; intros Hw; [done|]. cbn [sall] in Hw. apply andb_true_iff in Hw as [Hc Hw].
  change ((String c w) +s+ t) with (String c (w +s+ t)). cbn [trim_end].
  assert (all_ws (String c (w +s+ t)) = false) as ->.
  { unfold all_ws, trim_start. cbn [String.length trim_start_go]. by rewrite graphic_not_ws. }
  simpl. f_equal. by apply IH.
Qed.

Lemma trim_start_graphic w s : sall graphic w = true -> w <> "" -> trim_start (w +s+ s) = w +s+ s.
Proof. intros Hw Hne. apply trim_start_word. unfold is_word. rewrite Hw. by destruct w. Qed.

Lemma graphic_range c : graphic c = true -> (33 <= byte_val c <= 126)%N.
Proof. unfold graphic, in_range. by rewrite andb_true_iff, !N.leb_le. Qed.

(** A graphic character survives the white space before it. *)
Lemma ws_char_last c t s rest : graphic c = true -> ws_char (s +s+ String c t) = Some rest ->
  exists s', rest = s' +s+ String c t /\ String.length s' < String.length s.
Proof.
  intros Hc. pose proof (graphic_range c Hc) as Hr.
  assert (Hn : forall n, (126 < n)%N -> (byte_val c =? n)%N = false) by (intros n Hlt; apply N.eqb_neq; lia).
  assert (Hi : forall a b, (126 < a)%N -> in_range a b c = false).
  { intros a b Ha. unfold in_range. apply andb_false_iff. left. apply N.leb_gt. lia. }
  destruct s as [|a s]; [change ("" +s+ String c t) with (String c t); by rewrite graphic_not_ws|]. unfold ws_char. cbn [String.append].
  destruct (in_range 9 13 a || (byte_val a =? 32)%N); [intros [= <-]; exists s; simpl; by auto|].
  destruct s as [|b s]; cbn [String.append].
  { rewrite (Hn 133%N), (Hn 160%N), andb_false_r by lia. destruct t as [|d t]; [done|].
    rewrite (Hn 128%N), andb_false_r, orb_false_r by lia. rewrite bool_decide_eq_false_2; [done|].
    rewrite !not_elem_of_cons. split_and!; try (intros [= _ H _]; lia). apply not_elem_of_nil. }
  destruct ((byte_val a =? 194)%N && ((byte_val b =? 133)%N || (byte_val b =? 160)%N)); [intros [= <-]; exists s; simpl; by auto|].
  destruct s as [|d s]; cbn [String.append].
  - rewrite Hi by lia. rewrite andb_false_r, orb_false_r. rewrite bool_decide_eq_false_2; [done|].
    rewrite !not_elem_of_cons. split_and!; try (intros [= _ _ H]; lia). apply not_elem_of_nil.
  - match goal with |- context [if ?x then _ else _] => destruct x end; [|done]. intros [= <-]. exists s. simpl. by auto.
Qed.

Lemma trim_start_go_last c t fuel : graphic c = true -> forall s, trim_start_go fuel (s +s+ String c t) <> "".
Proof.
  intros Hc. induction fuel as [|fuel IH]; intros s; [by destruct s|]. cbn [trim_start_go].
  destruct (ws_char (s +s+ String c t)) as [rest|] eqn:Hw; [|by destruct s].
  by apply (ws_char_last c t s rest Hc) in Hw as (s' & -> & _).
Qed.

Lemma trim_end_graphic c t s : graphic c = true -> trim_end (s +s+ String c t) = s +s+ String c (trim_end t).
Proof.
  intros Hc. assert (Hne : forall s, all_ws (s +s+ String c t) = false).
  { intros u. unfold all_ws, trim_start. pose proof (trim_start_go_last c t (String.length (u +s+ String c t)) Hc u) as Ht.
    by destruct (trim_start_go _ _). }
  induction s as [|d s IH]; cbn [trim_end String.append].
  - pose proof (Hne "") as H. cbn [String.append] in H. by rewrite H.
  - pose proof (Hne (String d s)) as H. cbn [String.append] in H. by rewrite H, IH.
Qed.

Lemma trim_end_last c s : graphic c = true -> trim_end (s +s+ String c "") = s +s+ String c "".
Proof. apply trim_end_graphic. Qed.

(** A text that starts with a word and ends in a graphic character is trimmed already. *)
Lemma trim_closed w s c : sall graphic w = true -> w <> "" -> graphic c = true ->
  trim (w +s+ s +s+ String c "") = w +s+ s +s+ String c "".
Proof. intros Hw Hne Hc. unfold trim. rewrite <- app_str_assoc, trim_end_last, app_str_assoc by done. by apply trim_start_graphic. Qed.

Lemma trim_word w s : sall graphic w = true -> w <> "" -> trim (w +s+ s) = w +s+ trim_end s.
Proof. intros Hw Hne. unfold trim. rewrite trim_end_word by done. by apply trim_start_graphic. Qed.

Lemma to_lowercase_ascii c s : (byte_val c < 128)%N -> to_lowercase (String c s) = String (ascii_lower c) (to_lowercase s).
Proof.
  intros Hc. assert (Hn : forall n, (128 <= n)%N -> (byte_val c =? n)%N = false) by (intros n Hlt; apply N.eqb_neq; lia).
  destruct s as [|b s]; [done|]. cbn [to_lowercase]. rewrite (Hn 196%N), (Hn 226%N) by lia. by destruct s as [|d s].
Qed.

(** A text in small ASCII letters is its own lower case. *)
Definition lower_ascii (c : ascii) : bool := (byte_val c <? 128)%N && Ascii.eqb (ascii_lower c) c.

Lemma to_lowercase_lower w s : sall lower_ascii w = true -> to_lowercase (w +s+ s) = w +s+ to_lowercase s.
Proof.
  induction w as [|c w IH]; [done|]. cbn [sall]. intros [Hc Hw]%andb_true_iff.
  apply andb_true_iff in Hc as [Hb Hc]. apply N.ltb_lt in Hb. apply Ascii.eqb_eq in Hc.
  change (String c w +s+ s) with (String c (w +s+ s)). rewrite to_lowercase_ascii, Hc, IH by done. done.
Qed.

Lemma starts_with_app p s : starts_with p (p +s+ s) = true.
Proof. induction p as [|c p IH]; simpl; [by destruct s|]. unfold starts_with in *. simpl. by destruct (ascii_dec c c). Qed.
