(* ===== verification/BTree.v ===== *)
(** * Sorted collections of the standard library

    [slice::sort_by], [Vec::dedup], and the sorted views of [BTreeSet] and
    [BTreeMap].  A [BTreeMap] whose order matters is walked with [btree_entries];
    the map itself is a [gmap]. *)

From S2P Require Import Prelude RustStr.
Local Open Scope nat_scope.

(** ** The order of strings

    The byte order of Rust's [str]. *)
Definition str_le (a b : string) : Prop := String.leb a b = true.
#[export] Instance str_le_dec a b : Decision (str_le a b) := decide (String.leb a b = true).

(** [Vec::dedup]: neighbours that are equal collapse. *)
Fixpoint dedup (l : list string) : list string :=
  match l with
  | [] => []
  | x :: l' =>
    match dedup l' with
    | [] => [x]
    | y :: l'' => if x =s y then y :: l'' else x :: y :: l''
    end
  end.

(** A [BTreeSet<&str>] is the sorted list of its elements. *)
Definition btree_set (l : list string) : list string := dedup (merge_sort str_le l).

(** ** Maps and sets in key order *)

Definition key_le {A} (a b : string * A) : Prop := str_le a.1 b.1.
#[export] Instance key_le_dec {A} (a b : string * A) : Decision (key_le a b) := decide (str_le a.1 b.1).

(** [BTreeMap::iter] and [BTreeMap::keys]. *)
Definition btree_entries {A} (m : gmap string A) : list (string * A) := merge_sort key_le (map_to_list m).
Definition btree_keys {A} (m : gmap string A) : list string := (btree_entries m).*1.

(** [BTreeSet::iter]. *)
Definition btree_elements (s : gset string) : list string := merge_sort str_le (elements s).

(** The order [Ord] gives lists of strings. *)
Fixpoint names_leb (a b : list string) : bool :=
  match a, b with
  | [], _ => true
  | _ :: _, [] => false
  | x :: a, y :: b => if x =s y then names_leb a b else String.leb x y
  end.

(** ** Sorting

    [slice::sort_by] is stable.  Nothing compares below something. *)
Section sorting.
Context {A : Type} (le : A -> A -> bool).

Fixpoint insert_sorted (x : A) (l : list A) : list A :=
  match l with
  | [] => [x]
  | y :: l' => if le x y then x :: y :: l' else y :: insert_sorted x l'
  end.

Definition sort_by (l : list A) : list A := foldr insert_sorted [] l.

Lemma insert_sorted_perm x l : insert_sorted x l ≡ₚ x :: l.
Proof.
  induction l as [|y l IH]; simpl; [done|]. destruct (le x y); [done|].
  rewrite IH. apply perm_swap.
Qed.

Lemma sort_by_perm l : sort_by l ≡ₚ l.
Proof. induction l as [|x l IH]; simpl; [done|]. by rewrite insert_sorted_perm, IH. Qed.
End sorting.

(** ** Lemmas *)

Section sorted.
Context {A : Type} (le : A -> A -> bool).
Hypothesis le_total : forall x y, le x y = true \/ le y x = true.
Hypothesis le_trans : forall x y z, le x y = true -> le y z = true -> le x z = true.

Definition in_order (x y : A) : Prop := le x y = true.

Lemma insert_sorted_StronglySorted x l :
  StronglySorted in_order l -> StronglySorted in_order (insert_sorted le x l).
Proof.
  induction l as [|y l IH]; simpl; intros H; [by repeat constructor|].
  apply StronglySorted_inv in H as [Hl Hy]. destruct (le x y) eqn:E.
  - constructor; [by constructor|]. constructor; [done|].
    eapply Forall_impl; [exact Hy|]. intros z. by apply le_trans.
  - constructor; [by apply IH|]. rewrite (insert_sorted_perm le x l).
    constructor; [|done]. destruct (le_total x y); [congruence|done].
Qed.

Lemma sort_by_StronglySorted l : StronglySorted in_order (sort_by le l).
Proof. induction l as [|x l IH]; simpl; [constructor|]. by apply insert_sorted_StronglySorted. Qed.
End sorted.

Lemma elem_of_dedup x l : x ∈ dedup l <-> x ∈ l.
Proof.
  induction l as [|y l IH]; simpl; [done|]. rewrite elem_of_cons, <- IH. clear IH.
  destruct (dedup l) as [|z l']; [rewrite list_elem_of_singleton, elem_of_nil; tauto|].
  destruct (y =s z) eqn:E; bool_simpl; subst; rewrite !elem_of_cons; [|done].
  split; [intros [->|?]; auto|intros [->|[->|?]]; auto].
Qed.

Lemma elem_of_merge_sort x l : x ∈ merge_sort str_le l <-> x ∈ l.
Proof. by rewrite merge_sort_Permutation. Qed.

Lemma elem_of_btree_set x l : x ∈ btree_set l <-> x ∈ l.
Proof. unfold btree_set. by rewrite elem_of_dedup, elem_of_merge_sort. Qed.

#[export] Instance str_le_total : Total str_le.
Proof.
  intros a b. unfold str_le. destruct (String.leb_total a b) as [->| ->]; auto.
Qed.

#[export] Instance str_le_antisymm : AntiSymm eq str_le.
Proof. intros a b. apply String.leb_antisym. Qed.

Lemma ascii_compare_N a b : Ascii.compare a b = N.compare (N_of_ascii a) (N_of_ascii b).
Proof. done. Qed.

#[export] Instance str_le_trans : Transitive str_le.
Proof.
  unfold str_le, String.leb. intros a. induction a as [|c a IH]; intros [|d b] [|e f]; simpl; try done.
  rewrite !ascii_compare_N.
  destruct (N.compare_spec (N_of_ascii c) (N_of_ascii d)) as [E1|E1|E1]; try done;
    destruct (N.compare_spec (N_of_ascii d) (N_of_ascii e)) as [E2|E2|E2]; try done;
    destruct (N.compare_spec (N_of_ascii c) (N_of_ascii e)) as [E3|E3|E3]; try done; try lia.
  apply IH.
Qed.

(** Sorted, no element twice: what [BTreeSet] and [sort] with [dedup] give. *)
Definition str_lt (a b : string) : Prop := str_le a b /\ a <> b.

Lemma StronglySorted_dedup l : StronglySorted str_le l -> StronglySorted str_lt (dedup l).
Proof.
  induction l as [|x l IH]; simpl; intros Hs; [constructor|].
  apply StronglySorted_inv in Hs as [Hs Hx]. specialize (IH Hs).
  assert (Hall : Forall (str_le x) (dedup l)).
  { apply Forall_forall. intros y Hy. rewrite elem_of_dedup in Hy. rewrite Forall_forall in Hx. by apply Hx. }
  destruct (dedup l) as [|y l'] eqn:E; [repeat constructor|].
  destruct (x =s y) eqn:Exy; bool_simpl; [done|].
  constructor; [done|]. apply Forall_cons in Hall as [Hxy Hall].
  apply StronglySorted_inv in IH as [_ Hy]. constructor; [by split|].
  rewrite Forall_forall in Hy, Hall. apply Forall_forall. intros z Hz.
  destruct (Hy z Hz) as [Hyz Hne]. split; [by apply Hall|].
  intros <-. apply Exy. by apply (anti_symm str_le).
Qed.

Lemma sorted_btree_set l : StronglySorted str_lt (btree_set l).
Proof. apply StronglySorted_dedup, (StronglySorted_merge_sort str_le). Qed.

(** A sorted deduplicated set, and a count, forget the order of a list. *)
Lemma StronglySorted_str_lt_NoDup l : StronglySorted str_lt l -> NoDup l.
Proof.
  induction 1 as [|x l _ IH Hx]; constructor; [|done].
  intros Hin. rewrite Forall_forall in Hx. by destruct (Hx x Hin).
Qed.

Lemma btree_set_NoDup l : NoDup (btree_set l).
Proof. apply StronglySorted_str_lt_NoDup, sorted_btree_set. Qed.

Lemma StronglySorted_str_lt_unique l l' :
  StronglySorted str_lt l -> StronglySorted str_lt l' -> (forall x, x ∈ l <-> x ∈ l') -> l = l'.
Proof.
  intros H. revert l'. induction H as [|x l Hl IH Hx]; intros [|y l'] Hl' Hin.
  - done.
  - exfalso. apply (not_elem_of_nil y). apply Hin. left.
  - exfalso. apply (not_elem_of_nil x). apply Hin. left.
  - apply StronglySorted_inv in Hl' as [Hl' Hy]. rewrite Forall_forall in Hx, Hy.
    assert (x = y) as ->.
    { pose proof (proj1 (Hin x) (list_elem_of_here _ _)) as H1.
      pose proof (proj2 (Hin y) (list_elem_of_here _ _)) as H2.
      apply elem_of_cons in H1 as [->|H1]; [done|]. apply elem_of_cons in H2 as [->|H2]; [done|].
      apply (anti_symm str_le); [by apply Hx|by apply Hy]. }
    f_equal. apply IH; [done|]. intros z.
    assert (Hny : y ∉ l) by (intros Hz; by destruct (Hx _ Hz)).
    assert (Hny' : y ∉ l') by (intros Hz; by destruct (Hy _ Hz)).
    specialize (Hin z). rewrite !elem_of_cons in Hin. split; intros Hz.
    + destruct (proj1 Hin (or_intror Hz)) as [->|]; done.
    + destruct (proj2 Hin (or_intror Hz)) as [->|]; done.
Qed.

Lemma btree_set_perm l l' : l ≡ₚ l' -> btree_set l = btree_set l'.
Proof.
  intros Hp. apply StronglySorted_str_lt_unique; [apply sorted_btree_set..|].
  intros x. by rewrite !elem_of_btree_set, Hp.
Qed.

Lemma count_if_perm {A} (f : A -> bool) l l' : l ≡ₚ l' -> count_if f l = count_if f l'.
Proof.
  unfold count_if. induction 1; simpl; repeat (split_match; simpl); congruence.
Qed.

Lemma merge_sort_str_perm l l' : l ≡ₚ l' -> merge_sort str_le l = merge_sort str_le l'.
Proof.
  intros Hp. apply (StronglySorted_unique str_le).
  - by apply StronglySorted_merge_sort; try apply _.
  - by apply StronglySorted_merge_sort; try apply _.
  - by rewrite !merge_sort_Permutation.
Qed.

Lemma elem_of_btree_entries {A} (m : gmap string A) k v : (k, v) ∈ btree_entries m <-> m !! k = Some v.
Proof. unfold btree_entries. by rewrite merge_sort_Permutation, elem_of_map_to_list. Qed.

Lemma elem_of_btree_keys {A} (m : gmap string A) k : k ∈ btree_keys m <-> is_Some (m !! k).
Proof.
  unfold btree_keys. rewrite list_elem_of_fmap. split.
  - intros ([k' v] & -> & H). apply elem_of_btree_entries in H. by exists v.
  - intros [v H]. exists (k, v). by rewrite elem_of_btree_entries.
Qed.

Lemma elem_of_btree_elements (s : gset string) x : x ∈ btree_elements s <-> x ∈ s.
Proof. unfold btree_elements. by rewrite merge_sort_Permutation, elem_of_elements. Qed.

Lemma btree_elements_NoDup s : NoDup (btree_elements s).
Proof. unfold btree_elements. rewrite merge_sort_Permutation. apply NoDup_elements. Qed.

Lemma btree_keys_NoDup {A} (m : gmap string A) : NoDup (btree_keys m).
Proof. unfold btree_keys, btree_entries. rewrite merge_sort_Permutation. apply NoDup_fst_map_to_list. Qed.
