(* ===== verification/Json.v ===== *)
(** * JSON values

    The server reads and builds [serde_json::Value]s with the feature
    [preserve_order], so an object is a sequence of entries in insertion order.
    This file holds that data type, the accessors the server calls on it, and
    [==] on values, which ignores the order of object entries.  Rendering a value
    to text and parsing one are the serde_json crate's, and stay parameters of the
    definitions that use them. *)

From S2P Require Import Prelude RustStr.
From Stdlib Require Import SpecFloat.
From Stdlib Require Import Ascii.

(** ** Numbers

    A [serde_json::Number] is an unsigned or negative 64-bit integer, or an f64.
    Floats are IEEE binary64 values of the Standard Library's [SpecFloat]. *)
Inductive num :=
  | NInt (z : Z)
  | NFloat (f : spec_float).

Definition f64_of_Z (z : Z) : spec_float := binary_normalize 53 1024 z 0 false.
Definition f64_div : spec_float -> spec_float -> spec_float := SFdiv 53 1024.
Definition f64_mul : spec_float -> spec_float -> spec_float := SFmul 53 1024.
Definition f64_sub : spec_float -> spec_float -> spec_float := SFsub 53 1024.

Definition num_eqb (a b : num) : bool :=
  match a, b with
  | NInt x, NInt y => (x =? y)%Z
  | NFloat x, NFloat y => SFeqb x y
  | _, _ => false
  end.

(** ** Values *)
Inductive json :=
  | JNull
  | JBool (b : bool)
  | JNum (n : num)
  | JStr (s : string)
  | JArr (l : list json)
  | JObj (m : list (string * json)).

Abbreviation jmap := (list (string * json)).

Definition jnat (n : nat) : json := JNum (NInt (Z.of_nat n)).
Definition jZ (z : Z) : json := JNum (NInt z).
Definition jN (n : N) : json := JNum (NInt (Z.of_N n)).

(** [json!] of an optional value is null when there is none. *)
Definition jopt {A} (f : A -> json) (o : option A) : json :=
  match o with Some a => f a | None => JNull end.

(** ** Object entries *)

Fixpoint map_get (k : string) (m : jmap) : option json :=
  match m with
  | [] => None
  | (k', v) :: m => if k =s k' then Some v else map_get k m
  end.

Definition map_contains_key (k : string) (m : jmap) : bool :=
  match map_get k m with Some _ => true | None => false end.

(** [Map::insert] replaces the value of a key it holds, in place, and appends the
    entry otherwise. *)
Fixpoint map_insert (k : string) (v : json) (m : jmap) : jmap :=
  match m with
  | [] => [(k, v)]
  | (k', v') :: m => if k =s k' then (k', v) :: m else (k', v') :: map_insert k v m
  end.

(** [entry(k).or_insert(v)]. *)
Definition map_or_insert (k : string) (v : json) (m : jmap) : jmap :=
  if map_contains_key k m then m else map_insert k v m.

(** [Map::remove] under [preserve_order] is a swap-remove: the last entry takes
    the place of the removed one. *)
Fixpoint map_index (k : string) (m : jmap) : option nat :=
  match m with
  | [] => None
  | (k', _) :: m => if k =s k' then Some 0 else S <$> map_index k m
  end.

Definition map_remove (k : string) (m : jmap) : jmap :=
  match map_index k m with
  | None => m
  | Some i =>
    match last m with
    | None => m
    | Some e => take (length m - 1) (<[i := e]> m)
    end
  end.

(** ** Accessors *)

Definition as_str (v : json) : option string :=
  match v with JStr s => Some s | _ => None end.
Definition as_bool (v : json) : option bool :=
  match v with JBool b => Some b | _ => None end.
Definition as_array (v : json) : option (list json) :=
  match v with JArr l => Some l | _ => None end.
Definition as_object (v : json) : option jmap :=
  match v with JObj m => Some m | _ => None end.
Definition as_u64 (v : json) : option N :=
  match v with
  | JNum (NInt z) => if (0 <=? z)%Z then Some (Z.to_N z) else None
  | _ => None
  end.
(** A number that an [i64] holds, and [Value::as_i64]. *)
Definition in_i64 (z : Z) : bool := (- 2 ^ 63 <=? z)%Z && (z <? 2 ^ 63)%Z.
Definition as_i64 (v : json) : option Z :=
  match v with JNum (NInt z) => then_some (in_i64 z) z | _ => None end.
Definition is_null (v : json) : bool := match v with JNull => true | _ => false end.
Definition is_object (v : json) : bool := match v with JObj _ => true | _ => false end.

(** [value.get("key")]: an object's entry, nothing on any other value. *)
Definition get (k : string) (v : json) : option json :=
  match v with JObj m => map_get k m | _ => None end.

(** [value["key"]]: null where there is no entry. *)
Definition idx (k : string) (v : json) : json := unwrap_or (get k v) JNull.

Notation "v .? k" := (get k v) (at level 1, left associativity) : fc_scope.
Notation "v .[ k ]" := (idx k v) (at level 1, left associativity, format "v .[ k ]") : fc_scope.

(** [get(k).and_then(Value::as_str)] and the like, the chains the server writes
    everywhere. *)
Definition get_str (k : string) (v : json) : option string := v .? k ≫= as_str.
Definition get_bool (k : string) (v : json) : option bool := v .? k ≫= as_bool.
Definition get_arr (k : string) (v : json) : option (list json) := v .? k ≫= as_array.
Definition get_u64 (k : string) (v : json) : option N := v .? k ≫= as_u64.

(** [get(k).cloned().unwrap_or(null)]. *)
Definition field (k : string) (v : json) : json := unwrap_or (v .? k) JNull.

(** [as_array().map(Vec::as_slice).unwrap_or_default()], and iterating
    [as_array().into_iter().flatten()]. *)
Definition array_or_empty (v : json) : list json := unwrap_or (as_array v) [].

(** [Value::pointer].  A token selects an entry of an object, or an element of an
    array when it spells an index without sign or leading zero. *)
Definition parse_index (tok : string) : option nat :=
  if starts_with "+" tok || (starts_with "0" tok && negb (tok =s "0")) then None
  else N.to_nat <$> parse_u64 tok.

Definition pointer_step (tok : string) (v : json) : option json :=
  match v with
  | JObj m => map_get tok m
  | JArr l => parse_index tok ≫= fun i => l !! i
  | _ => None
  end.

Definition pointer (path : list string) (v : json) : option json :=
  fold_left (fun acc tok => acc ≫= pointer_step tok) path (Some v).

(** [as_object_mut]: the value with its entries changed, when it is an object. *)
Definition map_object (f : jmap -> jmap) (v : json) : json :=
  match v with JObj m => JObj (f m) | _ => v end.

(** ** Equality

    [Value == Value].  Objects compare as maps: as many entries, and each entry of
    one has an equal value under its key in the other. *)
Fixpoint json_eqb (a b : json) {struct a} : bool :=
  match a, b with
  | JNull, JNull => true
  | JBool x, JBool y => Bool.eqb x y
  | JNum x, JNum y => num_eqb x y
  | JStr x, JStr y => x =s y
  | JArr xs, JArr ys =>
    (fix go (xs ys : list json) : bool :=
       match xs, ys with
       | [], [] => true
       | x :: xs, y :: ys => json_eqb x y && go xs ys
       | _, _ => false
       end) xs ys
  | JObj xs, JObj ys =>
    (length xs =? length ys)%nat &&
    (fix go (xs : jmap) : bool :=
       match xs with
       | [] => true
       | (k, x) :: xs =>
         match map_get k ys with Some y => json_eqb x y | None => false end && go xs
       end) xs
  | _, _ => false
  end.

(** [value == "text"] and [value == true], the comparisons with a literal. *)
Definition eq_str (v : json) (s : string) : bool :=
  match v with JStr t => t =s s | _ => false end.
Definition eq_bool (v : json) (b : bool) : bool :=
  match v with JBool c => Bool.eqb c b | _ => false end.

(** ** Well-formed values: no object repeats a key, and no float is NaN

    Both hold of every [serde_json::Value]: an object is a map, and the crate
    stores a float only when it is finite. *)
Inductive json_wf : json -> Prop :=
  | wf_null : json_wf JNull
  | wf_bool b : json_wf (JBool b)
  | wf_int z : json_wf (JNum (NInt z))
  | wf_float f : SFeqb f f = true -> json_wf (JNum (NFloat f))
  | wf_str s : json_wf (JStr s)
  | wf_arr l : Forall json_wf l -> json_wf (JArr l)
  | wf_obj m : NoDup m.*1 -> Forall (fun e => json_wf e.2) m -> json_wf (JObj m).

(** ** Induction over the nested structure *)
Section json_ind.
Variable P : json -> Prop.
Hypothesis Hnull : P JNull.
Hypothesis Hbool : forall b, P (JBool b).
Hypothesis Hnum : forall n, P (JNum n).
Hypothesis Hstr : forall s, P (JStr s).
Hypothesis Harr : forall l, Forall P l -> P (JArr l).
Hypothesis Hobj : forall m, Forall (fun e => P e.2) m -> P (JObj m).

Fixpoint json_nested_ind (v : json) : P v :=
  match v with
  | JNull => Hnull
  | JBool b => Hbool b
  | JNum n => Hnum n
  | JStr s => Hstr s
  | JArr l =>
    Harr l ((fix go l : Forall P l :=
               match l with
               | [] => Forall_nil_2 P
               | v :: l => Forall_cons_2 P v l (json_nested_ind v) (go l)
               end) l)
  | JObj m =>
    Hobj m ((fix go m : Forall (fun e => P e.2) m :=
               match m with
               | [] => Forall_nil_2 _
               | e :: m => Forall_cons_2 (fun e => P e.2) e m (json_nested_ind e.2) (go m)
               end) m)
  end.
End json_ind.

(** ** Lemmas on object entries *)

Lemma map_insert_insert k v v' m : map_insert k v (map_insert k v' m) = map_insert k v m.
Proof.
  induction m as [|[k' w] m IH]; simpl; [by rewrite String.eqb_refl|].
  destruct (k =s k') eqn:E; simpl; rewrite E; [done|]. by rewrite IH.
Qed.

Lemma map_insert_same k v m : map_get k m = Some v -> map_insert k v m = m.
Proof.
  induction m as [|[k' w] m IH]; simpl; [done|]. destruct (k =s k') eqn:E; [by intros [= ->]|].
  intros Hm. by rewrite IH.
Qed.

Lemma map_get_insert k v m : map_get k (map_insert k v m) = Some v.
Proof.
  induction m as [|[k' v'] m IH]; simpl; [by rewrite String.eqb_refl|].
  destruct (k =s k') eqn:E; simpl; rewrite E; done.
Qed.

Lemma map_get_insert_ne k k' v m : k <> k' -> map_get k (map_insert k' v m) = map_get k m.
Proof.
  intros Hne. induction m as [|[k2 v2] m IH]; simpl.
  - destruct (k =s k') eqn:E; bool_simpl; done.
  - destruct (k' =s k2) eqn:E; bool_simpl; simpl; subst.
    + destruct (k =s k2) eqn:E'; bool_simpl; done.
    + by destruct (k =s k2).
Qed.

Lemma map_get_or_insert_ne k k' v m :
  k <> k' -> map_get k (map_or_insert k' v m) = map_get k m.
Proof. intros. unfold map_or_insert. case_match; [done|]. by apply map_get_insert_ne. Qed.

Lemma map_get_or_insert k v m :
  map_get k (map_or_insert k v m) = Some (unwrap_or (map_get k m) v).
Proof.
  unfold map_or_insert, map_contains_key.
  destruct (map_get k m) eqn:E; simpl; [done|]. apply map_get_insert.
Qed.

Lemma map_get_Some_elem k v m : map_get k m = Some v -> (k, v) ∈ m.
Proof.
  induction m as [|[k' v'] m IH]; simpl; [done|].
  destruct (k =s k') eqn:E; bool_simpl; intros H; [injection H as <-; subst; left|].
  right. by apply IH.
Qed.

Lemma map_get_None_keys k m : map_get k m = None <-> k ∉ m.*1.
Proof.
  induction m as [|[k' v'] m IH]; csimpl; [split; [intros _; apply not_elem_of_nil|done]|].
  rewrite not_elem_of_cons. destruct (k =s k') eqn:E; bool_simpl; subst.
  - split; [done|]. by intros [? _].
  - rewrite IH. by split; [split|intros []].
Qed.

Lemma map_get_elem_NoDup k v m : NoDup m.*1 -> (k, v) ∈ m -> map_get k m = Some v.
Proof.
  induction m as [|[k' v'] m IH]; csimpl; [by intros _ ?%not_elem_of_nil|].
  intros [Hk Hm]%NoDup_cons [Heq|Hin]%elem_of_cons.
  - injection Heq as -> ->. by rewrite String.eqb_refl.
  - destruct (k =s k') eqn:E; bool_simpl; [|by apply IH].
    subst. destruct Hk. apply list_elem_of_fmap. by exists (k', v).
Qed.

#[export] Hint Rewrite map_get_insert map_get_or_insert : fc.

(** ** [==] is an equivalence on well-formed values *)

Lemma SFeqb_true a b :
  SFeqb a b = true <->
  (a = b /\ a <> S754_nan) \/ (exists s t, a = S754_zero s /\ b = S754_zero t).
Proof.
  unfold SFeqb. split.
  - destruct a as [s|s| |s m e], b as [t|t| |t m' e'];
      try destruct s; try destruct t; simpl; intros H; try done;
      try (right; eauto; fail); try (left; split; [done|discriminate]).
    all: destruct (Z.compare_spec e e'); try done.
    all: change (Pos.compare_cont Eq m m') with (Pos.compare m m') in *.
    all: destruct (Pos.compare_spec m m'); try done.
    all: left; split; [congruence|discriminate].
  - intros [[-> Hn]|(s & t & -> & ->)]; [|done].
    destruct b as [[]|[]| |[] m e]; simpl; try done.
    all: by rewrite Z.compare_refl, ?Pos.compare_cont_refl.
Qed.

Lemma num_eqb_sym a b : num_eqb a b = true -> num_eqb b a = true.
Proof.
  destruct a, b; simpl; try done; [by rewrite Z.eqb_sym|].
  rewrite !SFeqb_true. intros [[-> ?]|(s & t & -> & ->)]; [by left|right; eauto].
Qed.

Lemma num_eqb_trans a b c : num_eqb a b = true -> num_eqb b c = true -> num_eqb a c = true.
Proof.
  destruct a, b, c; simpl; try done.
  - rewrite !Z.eqb_eq. congruence.
  - rewrite !SFeqb_true. intros [[-> ?]|(s & t & -> & ->)]; [done|].
    intros [[<- ?]|(s' & t' & ? & ->)]; right; eauto.
Qed.

Fixpoint forall2b {A} (f : A -> A -> bool) (xs ys : list A) : bool :=
  match xs, ys with
  | [], [] => true
  | x :: xs, y :: ys => f x y && forall2b f xs ys
  | _, _ => false
  end.

Definition entry_eqb (ys : jmap) (e : string * json) : bool :=
  is_some_and (json_eqb e.2) (map_get e.1 ys).

Lemma json_eqb_arr xs ys : json_eqb (JArr xs) (JArr ys) = forall2b json_eqb xs ys.
Proof.
  simpl. revert ys. induction xs as [|x xs IH]; intros [|y ys]; simpl; [done..|].
  by rewrite IH.
Qed.

Lemma json_eqb_obj xs ys :
  json_eqb (JObj xs) (JObj ys) = (length xs =? length ys)%nat && forallb (entry_eqb ys) xs.
Proof.
  simpl. f_equal. induction xs as [|[k x] xs IH]; simpl; [done|].
  unfold entry_eqb at 1. simpl. rewrite IH. by destruct (map_get k ys).
Qed.

Lemma json_eqb_obj_true xs ys :
  json_eqb (JObj xs) (JObj ys) = true <->
  length xs = length ys /\
  forall k x, (k, x) ∈ xs -> exists y, map_get k ys = Some y /\ json_eqb x y = true.
Proof.
  rewrite json_eqb_obj, andb_true_iff, Nat.eqb_eq, forallb_true. split; intros [? H]; split; auto.
  - intros k x Hin. apply (H (k, x)) in Hin. unfold entry_eqb in Hin. simpl in Hin.
    apply is_some_and_true in Hin as (y & ? & ?). eauto.
  - intros [k x] Hin. destruct (H k x Hin) as (y & E & ?).
    unfold entry_eqb. simpl. by rewrite E.
Qed.

Lemma json_eqb_refl v : json_wf v -> json_eqb v v = true.
Proof.
  induction v as [|b|n|s|l IH|m IH] using json_nested_ind; intros Hwf; inversion_clear Hwf.
  - done.
  - by destruct b.
  - simpl. apply Z.eqb_refl.
  - done.
  - simpl. apply String.eqb_refl.
  - rewrite json_eqb_arr. induction IH as [|v l Hv _ IHl]; [done|].
    apply Forall_cons in H as [??]. simpl. rewrite Hv by done. by apply IHl.
  - apply json_eqb_obj_true. split; [done|]. intros k x Hin. exists x.
    split; [by apply map_get_elem_NoDup|].
    rewrite Forall_forall in IH, H0. by apply (IH _ Hin), (H0 _ Hin).
Qed.

(** Two maps of equal size without repeated keys, one's keys among the other's,
    have the same keys. *)
Lemma keys_covered (xs ys : jmap) :
  NoDup xs.*1 -> length xs = length ys -> xs.*1 ⊆ ys.*1 -> ys.*1 ⊆ xs.*1.
Proof.
  intros Hnd Hlen Hsub k Hk.
  assert (Hp : xs.*1 ≡ₚ ys.*1).
  { apply submseteq_length_Permutation; [by apply NoDup_submseteq|].
    rewrite !length_fmap. lia. }
  by rewrite Hp.
Qed.

Lemma json_eqb_sym a b : json_wf a -> json_wf b -> json_eqb a b = true -> json_eqb b a = true.
Proof.
  revert b.
  induction a as [|x|n|s|l IH|m IH] using json_nested_ind;
    intros [|y|n'|s'|l'|m'] Ha Hb H; try done.
  - simpl in *. by rewrite eqb_true_iff in *.
  - by apply num_eqb_sym.
  - simpl in *. by rewrite String.eqb_sym.
  - rewrite json_eqb_arr in *. inversion_clear Ha as [| | | | |? Fl|].
    inversion_clear Hb as [| | | | |? Fl'|].
    revert l' Fl' H. induction IH as [|v l Hv _ IHl]; intros [|v' l'] Fl' H; simpl in *; try done.
    apply Forall_cons in Fl as [??], Fl' as [??]. bool_simpl.
    rewrite Hv by done. simpl. by apply IHl.
  - inversion_clear Ha as [| | | | | |? Hnd Fm]. inversion_clear Hb as [| | | | | |? Hnd' Fm'].
    apply json_eqb_obj_true in H as [Hlen H]. apply json_eqb_obj_true. split; [done|].
    intros k y Hy.
    assert (Hk : k ∈ m.*1).
    { apply (keys_covered m m'); [done..| |by apply list_elem_of_fmap; exists (k, y)].
      intros k' Hk'. apply list_elem_of_fmap in Hk' as ([k2 x] & -> & Hin).
      destruct (H _ _ Hin) as (y' & Hy'%map_get_Some_elem & _).
      apply list_elem_of_fmap. by exists (k2, y'). }
    apply list_elem_of_fmap in Hk as ([k2 x] & -> & Hin). simpl in *.
    exists x. split; [by apply map_get_elem_NoDup|].
    destruct (H _ _ Hin) as (y' & Hy' & Heq).
    rewrite (map_get_elem_NoDup k2 y m') in Hy' by done. injection Hy' as <-.
    rewrite Forall_forall in IH, Fm, Fm'.
    apply (IH _ Hin); [by apply (Fm _ Hin)|by apply (Fm' _ Hy)|done].
Qed.

Lemma json_eqb_trans a b c :
  json_eqb a b = true -> json_eqb b c = true -> json_eqb a c = true.
Proof.
  revert b c.
  induction a as [|x|n|s|l IH|m IH] using json_nested_ind;
    intros [|y|n'|s'|l'|m'] [|z|n''|s''|l''|m''] Hab Hbc; try done.
  - simpl in *. rewrite eqb_true_iff in *. congruence.
  - by apply (num_eqb_trans _ n').
  - simpl in *. bool_simpl. subst. apply String.eqb_refl.
  - rewrite json_eqb_arr in *. revert l' l'' Hab Hbc.
    induction IH as [|v l Hv _ IHl]; intros [|v' l'] [|v'' l''] Hab Hbc; simpl in *; try done.
    bool_simpl. rewrite (Hv v') by done. simpl. by apply (IHl l').
  - apply json_eqb_obj_true in Hab as [L1 Hab], Hbc as [L2 Hbc].
    apply json_eqb_obj_true. split; [congruence|]. intros k x Hin.
    destruct (Hab _ _ Hin) as (y & Hy%map_get_Some_elem & Exy).
    destruct (Hbc _ _ Hy) as (z & Hz & Eyz). exists z. split; [done|].
    rewrite Forall_forall in IH. by apply (IH _ Hin y).
Qed.

(** The setoid of well-formed values. *)
Definition json_equiv (a b : json) : Prop :=
  json_wf a /\ json_wf b /\ json_eqb a b = true.

#[export] Instance json_equiv_per : RelationClasses.PER json_equiv.
Proof.
  split.
  - intros a b (? & ? & ?). split_and!; [done..|]. by apply json_eqb_sym.
  - intros a b c (? & ? & ?) (? & ? & ?). split_and!; [done..|]. by apply (json_eqb_trans _ b).
Qed.

Lemma json_equiv_get a b k :
  json_equiv a b ->
  match a .? k, b .? k with
  | Some x, Some y => json_equiv x y
  | None, None => True
  | _, _ => False
  end.
Proof.
  intros (Ha & Hb & H). destruct a as [| | | | |m], b as [| | | | |m']; try done.
  simpl. pose proof (json_eqb_sym _ _ Ha Hb H) as H'.
  apply json_eqb_obj_true in H as [Hl H], H' as [_ H'].
  inversion_clear Ha as [| | | | | |? Hnd Fm]. inversion_clear Hb as [| | | | | |? Hnd' Fm'].
  rewrite Forall_forall in Fm, Fm'.
  destruct (map_get k m) as [x|] eqn:E.
  - apply map_get_Some_elem in E. destruct (H _ _ E) as (y & Hy & ?). rewrite Hy.
    split_and!; [apply (Fm _ E)|apply (Fm' _ (map_get_Some_elem _ _ _ Hy))|done].
  - destruct (map_get k m') as [y|] eqn:E'; [|done].
    apply map_get_Some_elem in E'. destruct (H' _ _ E') as (x & Hx & _). congruence.
Qed.

#[export] Instance get_str_proper k : Proper (json_equiv ==> eq) (get_str k).
Proof.
  intros a b H. apply (json_equiv_get _ _ k) in H. unfold get_str.
  destruct (a .? k) as [x|], (b .? k) as [y|]; try done. simpl.
  destruct H as (_ & _ & H). destruct x, y; simpl in *; try done. by bool_simpl; subst.
Qed.

#[export] Instance get_bool_proper k : Proper (json_equiv ==> eq) (get_bool k).
Proof.
  intros a b H. apply (json_equiv_get _ _ k) in H. unfold get_bool.
  destruct (a .? k) as [x|], (b .? k) as [y|]; try done. simpl.
  destruct H as (_ & _ & H). destruct x, y; simpl in *; try done.
  by apply Bool.eqb_prop in H as ->.
Qed.
