(* ===== verification/Status.v ===== *)
(** * Row verdicts (src/src/mcp/status.rs)

    How a goal or property row spells its verdict: the three status fields and
    the order they are read in, the folding of Frama-C's spellings, and the flags
    derived from a folded status. *)

From S2P Require Import Prelude RustStr Json.

(** ** Reading a status *)

Definition own_status (row : json) : option string :=
  (row .? "normalized_status" <||> row .? "raw_status" <||> row .? "status") ≫= as_str.

Definition CONSOLIDATED_KEYS : list string :=
  ["normalized_status"; "normalized_property_status"; "status"].

Definition consolidated_status (row : json) : option string :=
  find_map (fun key => row .? key ≫= as_str) CONSOLIDATED_KEYS.

Definition raw_status (row : json) : option string :=
  (row .? "raw_status" <||> row .? "status") ≫= as_str.

(** ** Folding Frama-C's spellings

    A character that is no ASCII letter or digit becomes an underscore.  Mapping
    bytes rather than characters writes several underscores for one character
    beyond ASCII, and the next step drops the empty parts between them. *)
Definition fold_char (c : ascii) : ascii :=
  if is_ascii_alphanumeric c then ascii_lower c else "_"%char.

Definition fold_parts (raw : string) : list string :=
  bfilter (fun part => negb (is_empty part)) (split_char "_" (smap fold_char raw)).

Definition canonical_status (normalized : string) : string :=
  if normalized =s "valid" then "valid"
  else if (normalized =s "valid_under_hyp") || (normalized =s "valid_under_hypothesis")
       then "valid_under_hyp"
  else if (normalized =s "invalid_under_hyp") || (normalized =s "invalid_under_hypothesis")
       then "invalid_under_hyp"
  else if (normalized =s "noresult") || (normalized =s "no_result")
          || (normalized =s "never_tried") then "noresult"
  else if normalized =s "timeout" then "timeout"
  else if normalized =s "failed" then "failed"
  else if normalized =s "unknown" then "unknown"
  else if normalized =s "invalid" then "invalid"
  else if normalized =s "" then "unknown"
  else normalized.

Definition normalize_frama_c_status (raw : string) : string :=
  canonical_status (join "_" (fold_parts raw)).

Definition normalized_or_derived (row : json) : string :=
  unwrap_or (get_str "normalized_status" row)
    (normalize_frama_c_status (unwrap_or (raw_status row) "unknown")).

(** ** Predicates on a status *)

Definition status_is_failed (status : string) : bool := eq_ignore_ascii_case status "failed".
Definition status_is_timeout (status : string) : bool := eq_ignore_ascii_case status "timeout".
Definition status_counts_as_progress (normalized : string) : bool := normalized =s "valid".
Definition status_requires_hypotheses (normalized : string) : bool :=
  (normalized =s "valid_under_hyp") || (normalized =s "invalid_under_hyp")
  || (normalized =s "valid_under_false_hypothesis").
Definition status_is_vacuous (normalized : string) : bool :=
  ends_with "_but_dead" normalized || (normalized =s "valid_under_false_hypothesis").
Definition is_proved (status : string) : bool := eq_ignore_ascii_case status "valid".
Definition own_status_is_proved (row : json) : bool := is_some_and is_proved (own_status row).
Definition own_status_is_timeout (row : json) : bool :=
  is_some_and status_is_timeout (own_status row).

(** ** Writing the derived fields *)

Definition insert_status_flags (normalized : string) (obj : jmap) : jmap :=
  map_insert "requires_hypotheses" (JBool (status_requires_hypotheses normalized))
    (map_insert "vacuous" (JBool (status_is_vacuous normalized))
       (map_insert "counts_as_progress" (JBool (status_counts_as_progress normalized)) obj)).

Definition add_status_fields (value : json) : json :=
  match get_str "status" value with
  | None => value
  | Some raw =>
    let normalized := normalize_frama_c_status raw in
    map_object (fun obj =>
      insert_status_flags normalized
        (map_insert "normalized_status" (JStr normalized)
           (map_insert "raw_status" (JStr raw) obj))) value
  end.

(** ** Lemmas *)

(** Reading back through the writes: distinct literal keys commute. *)
Ltac map_get_simpl :=
  repeat (rewrite map_get_insert_ne by discriminate); rewrite ?map_get_insert.

Lemma get_str_insert_ne k k' v m :
  k <> k' -> get_str k (JObj (map_insert k' v m)) = get_str k (JObj m).
Proof. intros. unfold get_str. simpl. by rewrite map_get_insert_ne. Qed.

(** The statuses the folding answers with: none of them is respelled again. *)
Lemma canonical_status_idem s : canonical_status (canonical_status s) = canonical_status s.
Proof.
  unfold canonical_status at 2 3.
  repeat (case_match; [done|]). unfold canonical_status. bool_simpl.
  repeat match goal with
  | H : ?a <> ?b |- context [?a =s ?b] => rewrite (proj2 (String.eqb_neq a b) H)
  end. done.
Qed.

Section folding.
(** A byte of a folded part. *)
Definition part_char (c : ascii) : bool :=
  is_ascii_alphanumeric c && Ascii.eqb (ascii_lower c) c.

Lemma fold_char_spec c : fold_char c = "_"%char \/ part_char (fold_char c) = true.
Proof. destruct c as [[] [] [] [] [] [] [] []]; vm_compute; auto. Qed.

Lemma part_char_fold c : part_char c = true -> fold_char c = c.
Proof. destruct c as [[] [] [] [] [] [] [] []]; vm_compute; (done || discriminate). Qed.

Lemma part_char_not_sep c : part_char c = true -> Ascii.eqb c "_" = false.
Proof. destruct c as [[] [] [] [] [] [] [] []]; vm_compute; (done || discriminate). Qed.

Lemma split_folded s : Forall (fun p => sall part_char p = true) (split_char "_" (smap fold_char s)).
Proof.
  induction s as [|c s IH]; simpl; [by repeat constructor|].
  destruct (fold_char_spec c) as [->|Hc]; simpl; [by constructor|].
  rewrite part_char_not_sep by done.
  destruct (split_char _ _) as [|p ps]; [repeat constructor; simpl; by rewrite Hc|].
  apply Forall_cons in IH as [Hp Hps]. constructor; [simpl; by rewrite Hc|done].
Qed.

(** Folding leaves a folded part alone, and splitting takes it up to the next
    separator. *)
Lemma split_part p s :
  sall part_char p = true ->
  split_char "_" (smap fold_char (p +s+ String "_" s)) = p :: split_char "_" (smap fold_char s).
Proof.
  induction p as [|c p IH]; simpl; intros H; [done|]. bool_simpl.
  rewrite part_char_fold, part_char_not_sep by done. by rewrite IH.
Qed.

Lemma split_last_part p :
  sall part_char p = true -> split_char "_" (smap fold_char p) = [p].
Proof.
  induction p as [|c p IH]; simpl; intros H; [done|]. bool_simpl.
  rewrite part_char_fold, part_char_not_sep by done. by rewrite IH.
Qed.

Lemma split_join parts :
  parts <> [] -> Forall (fun p => sall part_char p = true) parts ->
  split_char "_" (smap fold_char (join "_" parts)) = parts.
Proof.
  induction parts as [|p parts IH]; [done|]. intros _ [Hp Hps]%Forall_cons.
  destruct parts as [|q parts]; [by apply split_last_part|].
  change (join "_" (p :: q :: parts)) with (p +s+ String "_" (join "_" (q :: parts))).
  rewrite split_part by done. by rewrite IH.
Qed.

Lemma fold_parts_join parts :
  Forall (fun p => sall part_char p = true) parts ->
  Forall (fun p => is_empty p = false) parts ->
  fold_parts (join "_" parts) = parts.
Proof.
  intros Hc Hne. destruct parts as [|p parts]; [done|].
  unfold fold_parts. rewrite split_join by done.
  apply bfilter_all. intros a Ha. rewrite Forall_forall in Hne. by rewrite Hne.
Qed.

Lemma fold_parts_idem raw : fold_parts (join "_" (fold_parts raw)) = fold_parts raw.
Proof.
  apply fold_parts_join; apply Forall_forall; intros p [Hp Hne]%elem_of_bfilter.
  - pose proof (split_folded raw) as H. rewrite Forall_forall in H. auto.
  - by bool_simpl.
Qed.
End folding.

(** A folded status keeps its folding, or is one of the names below. *)
Lemma canonical_status_cases s :
  canonical_status s = s \/
  canonical_status s ∈ ["valid_under_hyp"; "invalid_under_hyp"; "noresult"; "unknown"].
Proof.
  unfold canonical_status.
  repeat (case_match; [bool_simpl; subst; first [by left|right; by repeat constructor]|]).
  by left.
Qed.

(** ** Properties *)

(** Folding a status twice is folding it once, so a reader cannot tell a
    status that was already normalized from one Frama-C just sent. *)
Theorem normalize_idempotent raw :
  normalize_frama_c_status (normalize_frama_c_status raw) = normalize_frama_c_status raw.
Proof.
  unfold normalize_frama_c_status at 2 3.
  destruct (canonical_status_cases (join "_" (fold_parts raw))) as [E|E].
  - rewrite E. unfold normalize_frama_c_status. by rewrite fold_parts_idem.
  - revert E. generalize (canonical_status (join "_" (fold_parts raw))) as s.
    intros s Hs. rewrite !elem_of_cons in Hs.
    destruct Hs as [->|[->|[->|[->|Hs]]]]; [done..|by apply elem_of_nil in Hs].
Qed.

(** The fields [add_status_fields] writes. *)
Definition STATUS_FIELDS : list string :=
  ["raw_status"; "normalized_status"; "counts_as_progress"; "vacuous"; "requires_hypotheses"].

Lemma add_status_fields_obj m raw :
  get_str "status" (JObj m) = Some raw ->
  add_status_fields (JObj m) =
  JObj (insert_status_flags (normalize_frama_c_status raw)
          (map_insert "normalized_status" (JStr (normalize_frama_c_status raw))
             (map_insert "raw_status" (JStr raw) m))).
Proof. unfold add_status_fields. by intros ->. Qed.

Lemma get_str_Some_obj k v s :
  get_str k v = Some s -> exists m, v = JObj m /\ map_get k m = Some (JStr s).
Proof.
  destruct v as [| | | | |m]; try done. unfold get_str. simpl. intros H.
  exists m. split; [done|]. destruct (map_get k m) as [[]|]; by simplify_eq/=.
Qed.

(** The three spellings a caller asks for by name, in any letter case, fold to
    that name. *)
Lemma fold_letters_case s t :
  sall is_ascii_lower t = true -> eq_ignore_ascii_case s t = true -> smap fold_char s = t.
Proof.
  unfold eq_ignore_ascii_case. intros Ht H. bool_simpl. revert t Ht H.
  induction s as [|c s IH]; intros [|d t] Ht H; simpl in *; try done.
  bool_simpl. injection H as Hc Hs. f_equal; [|by apply IH].
  revert Hc H0. clear.
  destruct d as [[] [] [] [] [] [] [] []]; try discriminate; intros Hc _;
    destruct c as [[] [] [] [] [] [] [] []]; (discriminate Hc || reflexivity).
Qed.

Lemma normalize_case s t :
  sall is_ascii_lower t = true -> t ∈ ["valid"; "failed"; "timeout"] ->
  eq_ignore_ascii_case s t = true -> normalize_frama_c_status s = t.
Proof.
  intros Ht Hin H. unfold normalize_frama_c_status, fold_parts.
  rewrite (fold_letters_case _ _ Ht H).
  rewrite !elem_of_cons in Hin. destruct Hin as [->|[->|[->|Hin]]]; [done..|by apply elem_of_nil in Hin].
Qed.

(** A row with a text status gets the folded verdict every reader then
    answers with, keeps the spelling it arrived with and all its other fields, and
    enriching it again changes nothing. *)
Theorem add_status_fields_spec v raw :
  get_str "status" v = Some raw ->
  let w := add_status_fields v in
  let n := normalize_frama_c_status raw in
  own_status w = Some n /\ consolidated_status w = Some n /\ raw_status w = Some raw /\
  normalized_or_derived w = n /\
  get_bool "counts_as_progress" w = Some (status_counts_as_progress n) /\
  get_bool "vacuous" w = Some (status_is_vacuous n) /\
  get_bool "requires_hypotheses" w = Some (status_requires_hypotheses n) /\
  (forall k, k ∉ STATUS_FIELDS -> w .? k = v .? k) /\
  add_status_fields w = w.
Proof.
  intros H. destruct (get_str_Some_obj _ _ _ H) as (m & -> & Hm). cbv zeta.
  rewrite (add_status_fields_obj _ _ H). unfold insert_status_flags.
  split_and!.
  1-7: unfold own_status, consolidated_status, raw_status, normalized_or_derived, get_bool, get_str;
    simpl; map_get_simpl; done.
  - intros k Hk. unfold STATUS_FIELDS in Hk. rewrite !not_elem_of_cons in Hk.
    destruct Hk as (? & ? & ? & ? & ? & _). simpl. by rewrite !map_get_insert_ne.
  - rewrite (add_status_fields_obj _ raw).
    + unfold insert_status_flags. f_equal.
      repeat (rewrite (map_insert_same _ _ _); [|by map_get_simpl]). done.
    + rewrite !get_str_insert_ne by discriminate. done.
Qed.

Lemma add_status_fields_spec_witness :
  own_status (add_status_fields (JObj [("status", JStr "VALID but dead")])) = Some "valid_but_dead".
Proof. apply (add_status_fields_spec (JObj [("status", JStr "VALID but dead")]) _ eq_refl). Defined.

(** of the flags derived from a folded status, progress excludes the other two;
    and a status any caller's case-insensitive test calls proved is one that
    counts as progress, while one it calls failed or timed out does not. *)
Theorem status_flags_consistent raw :
  let n := normalize_frama_c_status raw in
  (status_counts_as_progress n = true ->
   status_is_vacuous n = false /\ status_requires_hypotheses n = false) /\
  (is_proved raw = true -> status_counts_as_progress n = true) /\
  (status_is_failed raw || status_is_timeout raw = true -> status_counts_as_progress n = false).
Proof.
  cbv zeta. split_and!.
  - unfold status_counts_as_progress. intros H. bool_simpl. rewrite H. done.
  - intros H. unfold is_proved in H. apply normalize_case in H; [|done|by repeat constructor].
    by rewrite H.
  - unfold status_is_failed, status_is_timeout. intros [H|H]%orb_true_iff;
      (apply normalize_case in H; [|done|by repeat constructor]); by rewrite H.
Qed.
