(* ===== verification/Codec.v ===== *)
(** * The wire protocol of a Frama-C server (src/src/frama-c/codec.rs)

    Frames, commands and responses, with the error type of src/src/error.rs.  A
    byte buffer is a [string] of bytes.  Rendering a JSON value to text and parsing
    one are serde_json's: the section's [to_string] and [from_str]. *)

From S2P Require Import Prelude RustStr Json.

(** ** Errors

    An error keeps what its message is rendered from: the text of a standard
    library error inside a message is not reproduced. *)
Record FramaCRequestDiagnostics := {
  request_id : string;
  request : string;
  queued_task_id : option string;
  signal_count : N;
  elapsed_ms : option N;
  final_result : option string;
  cancellation_result : option string;
  rejected_command_id : option string;
}.

Inductive IoError :=
  | UnexpectedEof
  | BrokenPipe
  | ConnectionRefused
  | NotFoundIo
  | IoOther (what : string).

Inductive InvalidFrame :=
  | UnexpectedPrefix (byte : ascii)
  | HeaderNotUtf8
  | HeaderNotHex (hex_str : string)
  | OverLimit (payload_len : N)
  | PayloadNotUtf8.

Inductive Unexpected :=
  | UnknownString (text : string)
  | UnknownRes (res : string)
  | NotStringOrObject (value : json).

Inductive FramaCError :=
  | Io (e : IoError)
  | JsonError (text : string)
  | InvalidFrameError (why : InvalidFrame)
  | ServerError (id msg : string)
  | Rejected (id : string)
  | Killed (id : string)
  | CommandFailed (kind id msg : string) (diagnostics : FramaCRequestDiagnostics)
  | ConnectTimeout
  | Timeout (ms : N)
  | UnexpectedResponse (why : Unexpected)
  | FunctionNotFound (name : string)
  | GlobalNotFound (name : string)
  | SymbolNotFound (name : string).

(** [Result<T, FramaCError>]. *)
Inductive result (A : Type) :=
  | Ok (a : A)
  | Err (e : FramaCError).
Arguments Ok {A} a.
Arguments Err {A} e.

(** ** Messages *)
Inductive FramaCCommand :=
  | CGet (id request : string) (data : json)
  | CSet (id request : string) (data : json)
  | CExec (id request : string) (data : json)
  | CPoll
  | CShutdown
  | CKill (id : string)
  | CSigOn (id : string)
  | CSigOff (id : string).

Inductive FramaCResponse :=
  | RData (id : string) (data : json)
  | RError (id msg : string)
  | RSignal (id : string)
  | RRejected (id : string)
  | RKilled (id : string)
  | RCmdLineOn
  | RCmdLineOff.

(** ** Frames *)

(** ["{:0<width>x}"]: at least [width] digits, more when the number needs them. *)
Definition hex_pad (width : nat) (n : N) : string :=
  hex_fixed (Nat.max width (S (N.to_nat (N.log2 n / 4)))) n.

Definition encode_frame (payload : string) : string :=
  let len := N.of_nat (String.length payload) in
  let header :=
    if (len <=? 4095)%N then String "S" (hex_pad 3 len)
    else if (len <=? 268435455)%N then String "L" (hex_pad 7 len)
    else String "W" (hex_pad 15 len) in
  header +s+ payload.

Definition MAX_FRAME_PAYLOAD_BYTES : N := (256 * 1024 * 1024)%N.

Definition frame_hex_len (prefix : ascii) : option nat :=
  if Ascii.eqb prefix "S" then Some 3
  else if Ascii.eqb prefix "L" then Some 7
  else if Ascii.eqb prefix "W" then Some 15
  else None.

Definition decode_frame (buf : string) : result (option (string * nat)) :=
  match buf with
  | "" => Ok None
  | String prefix _ =>
    match frame_hex_len prefix with
    | None => Err (InvalidFrameError (UnexpectedPrefix prefix))
    | Some hex_len =>
      let header_len := 1 + hex_len in
      if (String.length buf <? header_len)%nat then Ok None
      else
        let hex_str := take_str hex_len (skip 1 buf) in
        if negb (utf8_valid hex_str) then Err (InvalidFrameError HeaderNotUtf8)
        else match usize_from_hex hex_str with
        | None => Err (InvalidFrameError (HeaderNotHex hex_str))
        | Some payload_len =>
          if (MAX_FRAME_PAYLOAD_BYTES <? payload_len)%N
          then Err (InvalidFrameError (OverLimit payload_len))
          else if (N.of_nat (String.length buf) <? N.of_nat header_len + payload_len)%N
          then Ok None
          else
            let payload := take_str (N.to_nat payload_len) (skip header_len buf) in
            if negb (utf8_valid payload) then Err (InvalidFrameError PayloadNotUtf8)
            else Ok (Some (payload, header_len + N.to_nat payload_len))
        end
    end
  end.

(** ** Commands and responses *)
Section serde_json.
Variable to_string : json -> string.
Variable from_str : string -> option json.

Definition encode_command (cmd : FramaCCommand) : string :=
  match cmd with
  | CGet id request data =>
    to_string (JObj [("cmd", JStr "GET"); ("id", JStr id); ("request", JStr request); ("data", data)])
  | CSet id request data =>
    to_string (JObj [("cmd", JStr "SET"); ("id", JStr id); ("request", JStr request); ("data", data)])
  | CExec id request data =>
    to_string (JObj [("cmd", JStr "EXEC"); ("id", JStr id); ("request", JStr request); ("data", data)])
  | CPoll => dq +s+ "POLL" +s+ dq
  | CShutdown => dq +s+ "SHUTDOWN" +s+ dq
  | CKill id => to_string (JObj [("cmd", JStr "KILL"); ("id", JStr id)])
  | CSigOn id => to_string (JObj [("cmd", JStr "SIGON"); ("id", JStr id)])
  | CSigOff id => to_string (JObj [("cmd", JStr "SIGOFF"); ("id", JStr id)])
  end.

Definition decode_response (json_str : string) : result FramaCResponse :=
  match from_str json_str with
  | None => Err (JsonError json_str)
  | Some value =>
    match as_str value with
    | Some s =>
      if s =s "CMDLINEON" then Ok RCmdLineOn
      else if s =s "CMDLINEOFF" then Ok RCmdLineOff
      else Err (UnexpectedResponse (UnknownString s))
    | None =>
      match as_object value with
      | Some obj =>
        let res := unwrap_or (map_get "res" obj ≫= as_str) "" in
        let id := unwrap_or (map_get "id" obj ≫= as_str) "" in
        if res =s "DATA" then Ok (RData id (unwrap_or (map_get "data" obj) JNull))
        else if res =s "ERROR" then Ok (RError id (unwrap_or (map_get "msg" obj ≫= as_str) ""))
        else if res =s "SIGNAL" then Ok (RSignal id)
        else if res =s "REJECTED" then Ok (RRejected id)
        else if res =s "KILLED" then Ok (RKilled id)
        else Err (UnexpectedResponse (UnknownRes res))
      | None => Err (UnexpectedResponse (NotStringOrObject value))
      end
    end
  end.
End serde_json.


(** ** Lemmas on headers *)

(** Decide a property of a hexadecimal digit on its sixteen values. *)
Lemma hex_digit_cases (P : N -> bool) d :
  forallb P (N.of_nat <$> seq 0 16) = true -> (d < 16)%N -> P d = true.
Proof.
  intros HP Hd. rewrite forallb_true in HP. apply HP.
  apply list_elem_of_fmap. exists (N.to_nat d). split; [lia|]. apply elem_of_seq. lia.
Qed.

Lemma hex_val_digit d : (d < 16)%N -> hex_val (hex_digit d) = Some d.
Proof.
  intros H. pose proof (hex_digit_cases (fun d => opt_eqb N.eqb (hex_val (hex_digit d)) (Some d)) d) as Hc.
  cbv beta in Hc. specialize (Hc eq_refl H). destruct (hex_val _); [|done].
  simpl in Hc. bool_simpl. by subst.
Qed.

Lemma hex_digit_ascii d :
  (d < 16)%N -> in_range 0 127 (hex_digit d) = true /\ Ascii.eqb (hex_digit d) "+" = false.
Proof.
  intros H. apply (hex_digit_cases
    (fun d => in_range 0 127 (hex_digit d) && negb (Ascii.eqb (hex_digit d) "+"))) in H; [|done].
  by bool_simpl.
Qed.

Lemma length_hex_fixed w n : String.length (hex_fixed w n) = w.
Proof. induction w as [|w IH]; simpl; [done|]. by rewrite IH. Qed.

Lemma digits_val_hex w n acc :
  digits_val hex_val 16 acc (hex_fixed w n) = Some (acc * 16 ^ N.of_nat w + n mod 16 ^ N.of_nat w)%N.
Proof.
  revert acc. induction w as [|w IH]; intros acc; cbn [hex_fixed digits_val].
  - change (16 ^ N.of_nat 0)%N with 1%N. rewrite N.mod_1_r. f_equal. lia.
  - rewrite hex_val_digit by (apply N.mod_lt; lia). rewrite IH. f_equal.
    rewrite Nat2N.inj_succ, N.pow_succ_r'.
    assert (Hp : (16 ^ N.of_nat w <> 0)%N) by (apply N.pow_nonzero; lia).
    rewrite (N.mul_comm 16 (16 ^ N.of_nat w)), N.Div0.mod_mul_r. lia.
Qed.

Lemma sall_hex_fixed (f : ascii -> bool) w n :
  (forall d, (d < 16)%N -> f (hex_digit d) = true) -> sall f (hex_fixed w n) = true.
Proof.
  intros Hf. induction w as [|w IH]; simpl; [done|]. rewrite Hf, IH by (apply N.mod_lt; lia). done.
Qed.

Lemma utf8_valid_go_ascii s fuel : sall (in_range 0 127) s = true -> utf8_valid_go fuel s = true.
Proof.
  revert s. induction fuel as [|fuel IH]; intros [|c s] H; simpl in *; try done.
  bool_simpl. rewrite H. by apply IH.
Qed.

Lemma utf8_valid_hex w n : utf8_valid (hex_fixed w n) = true.
Proof. apply utf8_valid_go_ascii, sall_hex_fixed. intros. by apply hex_digit_ascii. Qed.

Lemma usize_from_hex_fixed w n :
  (n < 16 ^ N.of_nat (S w))%N -> (n < 2 ^ 64)%N -> usize_from_hex (hex_fixed (S w) n) = Some n.
Proof.
  intros Hn Hw. unfold usize_from_hex, from_str_radix.
  assert (Hplus : forall s, hex_fixed (S w) n = s ->
    (match s with String c rest => if Ascii.eqb c "+"%char then rest else s | "" => "" end) = s).
  { intros s <-. cbn [hex_fixed].
    destruct (hex_digit_ascii ((n / 16 ^ N.of_nat w) mod 16)) as [_ ->]; [apply N.mod_lt; lia|done]. }
  rewrite (Hplus _ eq_refl). rewrite digits_val_hex.
  rewrite N.mul_0_l, N.add_0_l, N.mod_small by done.
  replace (n <? 2 ^ 64)%N with true by (symmetry; by apply N.ltb_lt).
  done.
Qed.

Lemma hex_pad_fixed w n : (n < 16 ^ N.of_nat (S w))%N -> hex_pad (S w) n = hex_fixed (S w) n.
Proof.
  intros H. unfold hex_pad. rewrite Nat.max_l; [done|].
  assert (N.log2 n / 4 < N.of_nat (S w))%N; [|lia].
  apply N.Div0.div_lt_upper_bound.
  destruct (decide (n = 0)%N) as [->|Hn]; [simpl; lia|].
  apply N.log2_lt_pow2; [lia|].
  replace (2 ^ (4 * N.of_nat (S w)))%N with (16 ^ N.of_nat (S w))%N; [done|].
  by rewrite N.pow_mul_r.
Qed.

(** What a complete header decides, with whatever bytes follow it. *)
Definition decode_payload (hex_len : nat) (payload_len : N) (rest : string) :
    result (option (string * nat)) :=
  if (MAX_FRAME_PAYLOAD_BYTES <? payload_len)%N then Err (InvalidFrameError (OverLimit payload_len))
  else if (N.of_nat (String.length rest) <? payload_len)%N then Ok None
  else let payload := take_str (N.to_nat payload_len) rest in
       if negb (utf8_valid payload) then Err (InvalidFrameError PayloadNotUtf8)
       else Ok (Some (payload, 1 + hex_len + N.to_nat payload_len)).

Lemma decode_frame_header prefix hex_len hex rest :
  frame_hex_len prefix = Some hex_len -> String.length hex = hex_len ->
  decode_frame (String prefix (hex +s+ rest)) =
  if negb (utf8_valid hex) then Err (InvalidFrameError HeaderNotUtf8)
  else match usize_from_hex hex with
       | None => Err (InvalidFrameError (HeaderNotHex hex))
       | Some n => decode_payload hex_len n rest
       end.
Proof.
  intros Hp <-. unfold decode_frame, decode_payload. rewrite Hp.
  cbn [String.length Nat.add skip]. rewrite take_str_exact, skip_exact, length_app_str.
  destruct (Nat.ltb_spec (S (String.length hex + String.length rest)) (S (String.length hex))); [lia|].
  destruct (utf8_valid hex); simpl negb; cbn match; [|done].
  destruct (usize_from_hex hex) as [n|]; [|done].
  destruct (_ <? n)%N; [done|].
  replace (N.of_nat (S (String.length hex + String.length rest)) <?
           N.of_nat (S (String.length hex)) + n)%N
    with (N.of_nat (String.length rest) <? n)%N; [done|].
  apply eq_true_iff_eq. rewrite !N.ltb_lt. lia.
Qed.

Lemma decode_frame_short prefix hex_len s :
  frame_hex_len prefix = Some hex_len -> String.length s < hex_len ->
  decode_frame (String prefix s) = Ok None.
Proof.
  intros Hp Hl. unfold decode_frame. rewrite Hp. simpl.
  destruct (Nat.ltb_spec (S (String.length s)) (S hex_len)); [done|lia].
Qed.

(** The header [encode_frame] writes for a payload the client would accept back. *)
Lemma encode_frame_header payload :
  (N.of_nat (String.length payload) <= MAX_FRAME_PAYLOAD_BYTES)%N ->
  exists prefix hex_len hex,
    frame_hex_len prefix = Some hex_len /\ String.length hex = hex_len /\
    utf8_valid hex = true /\ usize_from_hex hex = Some (N.of_nat (String.length payload)) /\
    encode_frame payload = String prefix (hex +s+ payload).
Proof.
  intros Hmax. unfold MAX_FRAME_PAYLOAD_BYTES in Hmax. unfold encode_frame.
  set (n := N.of_nat (String.length payload)) in *.
  destruct (N.leb_spec n 4095); [|destruct (N.leb_spec n 268435455)].
  - exists "S"%char, 3, (hex_fixed 3 n). split_and!; [done|apply length_hex_fixed|apply utf8_valid_hex| |].
    + apply usize_from_hex_fixed; simpl; lia.
    + rewrite hex_pad_fixed by (simpl; lia). done.
  - exists "L"%char, 7, (hex_fixed 7 n). split_and!; [done|apply length_hex_fixed|apply utf8_valid_hex| |].
    + apply usize_from_hex_fixed; simpl; lia.
    + rewrite hex_pad_fixed by (simpl; lia). done.
  - exists "W"%char, 15, (hex_fixed 15 n). split_and!; [done|apply length_hex_fixed|apply utf8_valid_hex| |].
    + apply usize_from_hex_fixed; simpl; lia.
    + rewrite hex_pad_fixed by (simpl; lia). done.
Qed.

(** Two ways to cut the same bytes, the first cut no later than the second. *)
Lemma app_str_cut a b m p :
  String.length a <= String.length b -> b +s+ m = a +s+ p ->
  exists b', b = a +s+ b' /\ b' +s+ m = p.
Proof.
  revert b. induction a as [|c a IH]; intros b Hl H; simpl in *; [by exists b|].
  destruct b as [|d b]; simpl in *; [lia|]. injection H as -> H.
  destruct (IH b) as (b' & -> & Hb'); [lia|done|]. by exists b'.
Qed.

Lemma decode_payload_stable hex_len n rest more :
  decode_payload hex_len n rest <> Ok None ->
  decode_payload hex_len n (rest +s+ more) = decode_payload hex_len n rest.
Proof.
  unfold decode_payload. rewrite length_app_str.
  destruct (_ <? n)%N; [done|].
  destruct (N.ltb_spec (N.of_nat (String.length rest)) n); [done|]. intros _.
  destruct (N.ltb_spec (N.of_nat (String.length rest + String.length more)) n); [lia|].
  by rewrite take_str_app by lia.
Qed.

(** More bytes never change what was decoded from the ones already there. *)
Lemma decode_frame_stable buf more :
  decode_frame buf <> Ok None -> decode_frame (buf +s+ more) = decode_frame buf.
Proof.
  destruct buf as [|c buf]; [done|]. simpl String.append.
  destruct (frame_hex_len c) as [h|] eqn:Hc.
  2:{ unfold decode_frame. by rewrite Hc. }
  destruct (decide (String.length buf < h)) as [?|Hl].
  { intros H. by rewrite (decode_frame_short c h) in H. }
  rewrite <- (take_skip_str h buf), app_str_assoc.
  rewrite !(decode_frame_header c h) by (rewrite ?length_take_str by lia; done).
  destruct (negb _); [done|]. destruct (usize_from_hex _); [|done].
  apply decode_payload_stable.
Qed.

Lemma decode_frame_round payload rest :
  utf8_valid payload = true -> (N.of_nat (String.length payload) <= MAX_FRAME_PAYLOAD_BYTES)%N ->
  decode_frame (encode_frame payload +s+ rest)
  = Ok (Some (payload, String.length (encode_frame payload))).
Proof.
  intros Hu Hm. destruct (encode_frame_header payload Hm) as (c & h & hex & Hc & Hh & Hx & Hn & ->).
  simpl String.append. rewrite app_str_assoc, (decode_frame_header c h) by done.
  rewrite Hx, Hn. simpl. unfold decode_payload.
  destruct (N.ltb_spec MAX_FRAME_PAYLOAD_BYTES (N.of_nat (String.length payload))); [lia|].
  rewrite length_app_str, Nat2N.id, take_str_exact, Hu.
  destruct (N.ltb_spec (N.of_nat (String.length payload + String.length rest))
                       (N.of_nat (String.length payload))); [lia|].
  simpl. rewrite length_app_str, Hh. done.
Qed.

Lemma decode_frame_prefix payload buf more :
  (N.of_nat (String.length payload) <= MAX_FRAME_PAYLOAD_BYTES)%N ->
  buf +s+ more = encode_frame payload -> more <> "" -> decode_frame buf = Ok None.
Proof.
  intros Hm Heq Hne. destruct (encode_frame_header payload Hm) as (c & h & hex & Hc & Hh & Hx & Hn & E).
  rewrite E in Heq. destruct buf as [|c' buf]; [done|]. simpl in Heq. injection Heq as -> Heq.
  destruct (decide (String.length buf < h)) as [?|Hl]; [by apply (decode_frame_short c h)|].
  destruct (app_str_cut hex buf more payload) as (b' & -> & Hb'); [lia|done|].
  rewrite (decode_frame_header c h), Hx, Hn by done. simpl. unfold decode_payload.
  destruct (N.ltb_spec MAX_FRAME_PAYLOAD_BYTES (N.of_nat (String.length payload))); [lia|].
  destruct (N.ltb_spec (N.of_nat (String.length b')) (N.of_nat (String.length payload))); [done|].
  exfalso. subst payload. rewrite length_app_str in *. destruct more; [done|simpl in *; lia].
Qed.

Lemma decode_frame_Some buf p n :
  decode_frame buf = Ok (Some (p, n)) ->
  exists c h, frame_hex_len c = Some h /\ n = 1 + h + String.length p /\
    usize_from_hex (take_str h (skip 1 buf)) = Some (N.of_nat (String.length p)) /\
    (N.of_nat (String.length p) <= MAX_FRAME_PAYLOAD_BYTES)%N /\ utf8_valid p = true /\
    buf = String c (take_str h (skip 1 buf) +s+ p +s+ skip n buf).
Proof.
  intros H. destruct buf as [|c buf]; [done|].
  destruct (frame_hex_len c) as [h|] eqn:Hc; [|by unfold decode_frame in H; rewrite Hc in H].
  destruct (decide (String.length buf < h)) as [?|Hl].
  { by rewrite (decode_frame_short c h) in H. }
  exists c, h. cbn [skip].
  pose proof (take_skip_str h buf) as Hcut. rewrite <- Hcut in H.
  rewrite (decode_frame_header c h) in H by (rewrite ?length_take_str by lia; done).
  destruct (negb _); [done|]. destruct (usize_from_hex _) as [m|] eqn:Hm; [|done].
  unfold decode_payload in H.
  destruct (N.ltb_spec MAX_FRAME_PAYLOAD_BYTES m); [done|].
  destruct (N.ltb_spec (N.of_nat (String.length (skip h buf))) m); [done|].
  destruct (utf8_valid _) eqn:Hu; [|done]. simpl in H. injection H as Hp Hn.
  assert (Hlen : String.length p = N.to_nat m) by (rewrite <- Hp, length_take_str; [done|lia]).
  split_and!; [done|lia|f_equal; lia|lia|by subst|].
  subst n. cbn [Nat.add skip]. f_equal. rewrite <- Hcut at 1. f_equal.
  rewrite <- (take_skip_str (N.to_nat m) (skip h buf)) at 1. rewrite Hp. f_equal.
  rewrite <- Hcut at 2. rewrite <- (length_take_str h buf) at 2 by lia.
  generalize (take_str h buf) as a, (skip h buf) as b, (N.to_nat m) as k. clear.
  induction a as [|x a IH]; intros b k; simpl; [done|]. apply IH.
Qed.

(** ** Properties *)

(** A payload within the limit survives encoding and decoding, whatever
    bytes follow its frame in the buffer, and decoding consumes exactly the frame. *)
Theorem decode_encode_frame payload rest :
  utf8_valid payload = true -> (N.of_nat (String.length payload) <= MAX_FRAME_PAYLOAD_BYTES)%N ->
  decode_frame (encode_frame payload +s+ rest)
  = Ok (Some (payload, String.length (encode_frame payload))).
Proof. apply decode_frame_round. Qed.

Lemma decode_encode_frame_witness :
  decode_frame (encode_frame "GET" +s+ "S0") = Ok (Some ("GET", 7)).
Proof. exact (decode_encode_frame "GET" "S0" eq_refl ltac:(vm_compute; discriminate)). Defined.

(** a frame that has not wholly arrived is never decoded and never refused:
    every proper prefix of it asks for more bytes. *)
Theorem decode_partial_frame payload buf more :
  (N.of_nat (String.length payload) <= MAX_FRAME_PAYLOAD_BYTES)%N ->
  buf +s+ more = encode_frame payload -> more <> "" -> decode_frame buf = Ok None.
Proof. apply decode_frame_prefix. Qed.

Lemma decode_partial_frame_witness : decode_frame "S003GE" = Ok None.
Proof.
  apply (decode_partial_frame "GET" "S003GE" "T");
    [vm_compute; discriminate|reflexivity|discriminate].
Defined.

(** What [decode_frame] returns came from the buffer: the payload is valid
    UTF-8, within the limit, as long as the header said, and lies between the
    header and the bytes left over. *)
Theorem decode_frame_sound buf p n :
  decode_frame buf = Ok (Some (p, n)) ->
  exists c h, frame_hex_len c = Some h /\ n = 1 + h + String.length p /\
    usize_from_hex (take_str h (skip 1 buf)) = Some (N.of_nat (String.length p)) /\
    (N.of_nat (String.length p) <= MAX_FRAME_PAYLOAD_BYTES)%N /\ utf8_valid p = true /\
    buf = String c (take_str h (skip 1 buf) +s+ p +s+ skip n buf).
Proof. apply decode_frame_Some. Qed.

Lemma decode_frame_sound_witness :
  exists c h, frame_hex_len c = Some h /\ 6 = 1 + h + 2.
Proof.
  destruct (decode_frame_sound "S002hi+" "hi" 6 eq_refl) as (c & h & H1 & H2 & _).
  exists c, h. exact (conj H1 H2).
Defined.

(** A length over the limit is refused as soon as the header is there,
    before any byte of the payload, and more bytes never turn the error around. *)
Theorem oversized_frame_refused prefix hex n rest :
  frame_hex_len prefix = Some (String.length hex) -> utf8_valid hex = true ->
  usize_from_hex hex = Some n -> (MAX_FRAME_PAYLOAD_BYTES < n)%N ->
  decode_frame (String prefix (hex +s+ rest)) = Err (InvalidFrameError (OverLimit n)).
Proof.
  intros Hp Hu Hn Hlt. rewrite (decode_frame_header _ _ _ _ Hp) by done.
  rewrite Hu, Hn. simpl. unfold decode_payload.
  by destruct (N.ltb_spec MAX_FRAME_PAYLOAD_BYTES n); [|lia].
Qed.

Lemma oversized_frame_refused_witness :
  decode_frame "W000000010000001" = Err (InvalidFrameError (OverLimit 268435457)).
Proof.
  exact (oversized_frame_refused "W" "000000010000001" 268435457 "" eq_refl eq_refl eq_refl eq_refl).
Defined.

(** The value a server answers with, for each response. *)
Definition response_json (r : FramaCResponse) : json :=
  match r with
  | RData id data => JObj [("res", JStr "DATA"); ("id", JStr id); ("data", data)]
  | RError id msg => JObj [("res", JStr "ERROR"); ("id", JStr id); ("msg", JStr msg)]
  | RSignal id => JObj [("res", JStr "SIGNAL"); ("id", JStr id)]
  | RRejected id => JObj [("res", JStr "REJECTED"); ("id", JStr id)]
  | RKilled id => JObj [("res", JStr "KILLED"); ("id", JStr id)]
  | RCmdLineOn => JStr "CMDLINEON"
  | RCmdLineOff => JStr "CMDLINEOFF"
  end.

(** Each response a server can render is read back as itself; and a text is
    read as a response only when it parses, to a string or an object that names a
    known response. *)
Theorem decode_response_spec (from_str : string -> option json) text :
  (forall r, from_str text = Some (response_json r) -> decode_response from_str text = Ok r) /\
  (forall r, decode_response from_str text = Ok r ->
     exists v, from_str text = Some v /\
       (v = response_json r \/
        exists m, v = JObj m /\ match r with
          | RData id data => get_str "res" v = Some "DATA" /\ id = unwrap_or (get_str "id" v) ""
                             /\ data = field "data" v
          | RError id msg => get_str "res" v = Some "ERROR" /\ id = unwrap_or (get_str "id" v) ""
                             /\ msg = unwrap_or (get_str "msg" v) ""
          | RSignal id => get_str "res" v = Some "SIGNAL" /\ id = unwrap_or (get_str "id" v) ""
          | RRejected id => get_str "res" v = Some "REJECTED" /\ id = unwrap_or (get_str "id" v) ""
          | RKilled id => get_str "res" v = Some "KILLED" /\ id = unwrap_or (get_str "id" v) ""
          | RCmdLineOn | RCmdLineOff => False
          end)).
Proof.
  unfold decode_response. split; [by intros [] ->|]. intros r H.
  destruct (from_str text) as [v|]; [|done]. exists v. split; [done|].
  destruct v as [|b|n|s|l|m]; simpl in H; try done.
  { repeat case_match; bool_simpl; simplify_eq/=; by left. }
  right. exists m. split; [done|].
  unfold get_str, field. cbn [get].
  destruct (map_get "res" m ≫= as_str) as [res|]; simpl in H; [|done].
  repeat (case_match; [bool_simpl; simplify_eq/=; by split_and!|]). done.
Qed.
