(* ===== verification/Transport.v ===== *)
(** * The socket transport (src/src/frama-c/transport.rs)

    One Unix socket to one Frama-C server.  What the operating system does is an
    explicit script: each read event is the outcome of one [read] call, with the
    time that passes before it, and each write event the outcome of one
    [write_all].  A script that has run out is a peer that stays silent: a read
    times out and a write succeeds. *)

From S2P Require Import Prelude RustStr Json Codec.

(** ** The network *)

(** [ReadChunk ""] is a read of zero bytes, which is the end of the stream. *)
Inductive ReadEvent :=
  | ReadChunk (bytes : string)
  | ReadError (e : IoError).

(** A failed or stalled [write_all] has put some prefix of the frame on the wire. *)
Inductive WriteEvent :=
  | WriteDone
  | WriteFailed (written : nat) (e : IoError)
  | WriteStalled (written : nat).

(** Times are in milliseconds.  A read event carries the wait before it. *)
Record Net := mkNet {
  net_reads : list (N * ReadEvent);
  net_writes : list WriteEvent;
  net_now : N;
}.

(** ** The transport *)

Definition WRITE_TIMEOUT : N := 10000.

(** [stream_shut] and [sent] are the state of the stream itself: whether this end
    was shut down, and every byte handed to it. *)
Record Transport := mkTransport {
  read_buf : string;
  poisoned : bool;
  stream_shut : bool;
  sent : string;
}.

Definition connect_transport : Transport := mkTransport "" false false "".

Definition poisoned_transport : FramaCError := Io BrokenPipe.

Definition set_buf (b : string) (t : Transport) : Transport :=
  mkTransport b (poisoned t) (stream_shut t) (sent t).
Definition add_sent (b : string) (t : Transport) : Transport :=
  mkTransport (read_buf t) (poisoned t) (stream_shut t) (sent t +s+ b).

Definition poison (t : Transport) : Transport :=
  mkTransport (read_buf t) true true (sent t).

Definition poison_flag (t : Transport) : bool := poisoned t.

Definition send_frame (payload : string) (t : Transport) (net : Net)
    : result unit * Transport * Net :=
  if poisoned t then (Err poisoned_transport, t, net)
  else
    let frame := encode_frame payload in
    let after ws now := mkNet (net_reads net) ws now in
    match net_writes net with
    | [] => (Ok tt, add_sent frame t, net)
    | WriteDone :: ws => (Ok tt, add_sent frame t, after ws (net_now net))
    | WriteFailed n e :: ws =>
      (Err (Io e), poison (add_sent (take_str n frame) t), after ws (net_now net))
    | WriteStalled n :: ws =>
      (Err (Timeout WRITE_TIMEOUT), poison (add_sent (take_str n frame) t),
       after ws (net_now net + WRITE_TIMEOUT)%N)
    end.

(** The loop of [recv_frame]: every turn but the last reads once, so it recurs on
    the read script.  The timeout applies to each read, not to the loop. *)
Fixpoint recv_loop (timeout : N) (reads : list (N * ReadEvent)) (now : N) (t : Transport)
    : result (option string) * Transport * list (N * ReadEvent) * N :=
  match decode_frame (read_buf t) with
  | Ok (Some (payload, consumed)) =>
    (Ok (Some payload), set_buf (skip consumed (read_buf t)) t, reads, now)
  | Err e => (Err e, poison t, reads, now)
  | Ok None =>
    match reads with
    | [] => (Ok None, t, [], (now + timeout)%N)
    | (wait, event) :: rest =>
      if (timeout <? wait)%N
      then (Ok None, t, ((wait - timeout)%N, event) :: rest, (now + timeout)%N)
      else match event with
           | ReadChunk "" => (Err (Io UnexpectedEof), poison t, rest, (now + wait)%N)
           | ReadChunk bytes =>
             recv_loop timeout rest (now + wait)%N (set_buf (read_buf t +s+ bytes) t)
           | ReadError e => (Err (Io e), poison t, rest, (now + wait)%N)
           end
    end
  end.

Definition recv_frame (timeout : N) (t : Transport) (net : Net)
    : result (option string) * Transport * Net :=
  if poisoned t then (Err poisoned_transport, t, net)
  else let '(r, t', reads, now) := recv_loop timeout (net_reads net) (net_now net) t in
       (r, t', mkNet reads (net_writes net) now).

(** [close] shuts the stream down; whether that fails is the system's answer. *)
Definition close (answer : option IoError) (t : Transport) : result unit * Transport :=
  let t' := mkTransport (read_buf t) (poisoned t) true (sent t) in
  match answer with
  | Some e => (Err (Io e), t')
  | None => (Ok tt, t')
  end.

(** ** Frames on the wire *)

Definition frames (ps : list string) : string :=
  fold_right (fun p acc => encode_frame p +s+ acc) "" ps.

(** A payload the other side may send: UTF-8, and within the limit. *)
Definition acceptable (p : string) : Prop :=
  utf8_valid p = true /\ (N.of_nat (String.length p) <= MAX_FRAME_PAYLOAD_BYTES)%N.

Fixpoint script_bytes (reads : list (N * ReadEvent)) : string :=
  match reads with
  | [] => ""
  | (_, ReadChunk b) :: rest => b +s+ script_bytes rest
  | (_, ReadError _) :: rest => script_bytes rest
  end.

(** A script on which the peer only writes: no error, and no end of stream. *)
Definition live (reads : list (N * ReadEvent)) : Prop :=
  Forall (fun e => exists c s, e.2 = ReadChunk (String c s)) reads.

Definition undelivered (t : Transport) (reads : list (N * ReadEvent)) : string :=
  read_buf t +s+ script_bytes reads.

Lemma frames_app ps qs : frames (ps ++ qs) = frames ps +s+ frames qs.
Proof. induction ps as [|p ps IH]; simpl; [done|]. by rewrite IH, app_str_assoc. Qed.

Lemma encode_frame_nonempty p : encode_frame p <> "".
Proof. unfold encode_frame. by repeat case_match. Qed.

Lemma app_str_eq_nil a b : a +s+ b = "" -> a = "" /\ b = "".
Proof. by destruct a. Qed.

(** The buffer of a live stream either starts with a whole frame or asks for more. *)
Lemma decode_live buf more ps :
  Forall acceptable ps -> buf +s+ more = frames ps ->
  (exists p ps' rest, ps = p :: ps' /\ rest +s+ more = frames ps' /\
     decode_frame buf = Ok (Some (p, String.length (encode_frame p))) /\
     skip (String.length (encode_frame p)) buf = rest) \/
  (decode_frame buf = Ok None /\ (more = "" -> ps = [])).
Proof.
  intros Hok Heq. destruct ps as [|p ps].
  { apply app_str_eq_nil in Heq as [-> ->]. by right. }
  apply Forall_cons in Hok as [[Hu Hm] Hok]. simpl in Heq.
  destruct (decide (String.length (encode_frame p) <= String.length buf)) as [Hl|Hl].
  - left. destruct (app_str_cut _ _ _ _ Hl Heq) as (rest & -> & Hrest).
    exists p, ps, rest. split_and!; [done|done|by apply decode_frame_round|apply skip_exact].
  - right. assert (exists m, m <> "" /\ buf +s+ m = encode_frame p) as (m & Hne & Hb).
    { destruct (app_str_cut buf (encode_frame p) (frames ps) more) as (m & Hm1 & _); [lia|done|].
      exists m. split; [|done]. intros ->. rewrite app_str_nil_r in Hm1. rewrite Hm1 in Hl. lia. }
    split; [by apply (decode_frame_prefix p buf m)|].
    intros ->. exfalso. apply Hl. rewrite app_str_nil_r in Heq. subst buf. rewrite length_app_str. lia.
Qed.

(** Total wait in a script. *)
Definition total_wait (reads : list (N * ReadEvent)) : N :=
  foldr (fun e acc => (e.1 + acc)%N) 0%N reads.

(** One call on a live stream: it delivers the next payload, or times out having
    lost nothing; and it only times out when a wait exceeds the timeout or when
    nothing is left. *)
Lemma recv_loop_live timeout reads now t ps r t' reads' now' :
  poisoned t = false -> live reads -> Forall acceptable ps ->
  undelivered t reads = frames ps ->
  recv_loop timeout reads now t = (r, t', reads', now') ->
  poisoned t' = false /\ live reads' /\ sent t' = sent t /\ (now <= now')%N /\
  ((exists p ps', ps = p :: ps' /\ r = Ok (Some p) /\ undelivered t' reads' = frames ps' /\
      (now' + total_wait reads' = now + total_wait reads)%N) \/
   (r = Ok None /\ undelivered t' reads' = frames ps /\
      ((total_wait reads <= timeout)%N -> ps = [] /\ reads' = []))).
Proof.
  intros Hp Hlive Hok. revert now t Hp.
  induction Hlive as [|[wait ev] reads (c & s & Hev) Hlive IH]; intros now t Hp Hu; simpl.
  - unfold undelivered in Hu. simpl in Hu.
    destruct (decode_live _ _ _ Hok Hu) as [(p & ps' & rest & -> & Hr & -> & Hs)|[-> Hn]].
    + intros [= <- <- <- <-]. split_and!; [done|constructor|done|lia|]. left. exists p, ps'.
      unfold undelivered. simpl. by rewrite Hs.
    + intros [= <- <- <- <-]. split_and!; [done|constructor|done|lia|]. right. split_and!; auto.
  - simpl in Hev. subst ev. unfold undelivered in Hu.
    destruct (decode_live _ _ _ Hok Hu) as [(p & ps' & rest & -> & Hr & -> & Hs)|[-> Hn]].
    + intros [= <- <- <- <-]. split_and!; [done|constructor; [eauto|done]|done|lia|].
      left. exists p, ps'. unfold undelivered. simpl. by rewrite Hs.
    + destruct (N.ltb_spec timeout wait).
      * intros [= <- <- <- <-]. split_and!; [done|constructor; [simpl; eauto|done]|done|lia|].
        right. split_and!; [done|done|]. unfold total_wait. simpl. lia.
      * intros H'. apply IH in H' as (? & ? & Hsent & ? & Hr); [|done|].
        2:{ unfold undelivered. simpl. rewrite app_str_assoc. exact Hu. }
        split_and!; [done|done|exact Hsent|lia|].
        destruct Hr as [(p & ps' & ? & ? & ? & ?)|(? & ? & Hd)].
        -- left. exists p, ps'. split_and!; [done..|]. unfold total_wait in *. simpl. lia.
        -- right. split_and!; [done..|]. intros Ht. apply Hd. unfold total_wait in *. simpl in Ht. lia.
Qed.

Lemma recv_frame_live timeout t net ps r t' net' :
  poisoned t = false -> live (net_reads net) -> Forall acceptable ps ->
  undelivered t (net_reads net) = frames ps ->
  recv_frame timeout t net = (r, t', net') ->
  poisoned t' = false /\ live (net_reads net') /\ sent t' = sent t /\
  net_writes net' = net_writes net /\ (net_now net <= net_now net')%N /\
  ((exists p ps', ps = p :: ps' /\ r = Ok (Some p) /\ undelivered t' (net_reads net') = frames ps' /\
      (net_now net' + total_wait (net_reads net') = net_now net + total_wait (net_reads net))%N) \/
   (r = Ok None /\ undelivered t' (net_reads net') = frames ps /\
      ((total_wait (net_reads net) <= timeout)%N -> ps = [] /\ net_reads net' = []))).
Proof.
  intros Hp Hlive Hok Hu. unfold recv_frame. rewrite Hp.
  destruct (recv_loop _ _ _ _) as [[[r0 t0] reads0] now0] eqn:E. intros [= <- <- <-].
  destruct (recv_loop_live _ _ _ _ ps _ _ _ _ Hp Hlive Hok Hu E) as (? & ? & ? & ? & ?).
  by split_and!.
Qed.

(** A caller that keeps asking, with one timeout per call, and keeps the payloads. *)
Fixpoint recv_calls (timeouts : list N) (t : Transport) (net : Net) : list string * Transport * Net :=
  match timeouts with
  | [] => ([], t, net)
  | d :: ds =>
    match recv_frame d t net with
    | (Ok (Some p), t', net') =>
      let '(ps, t'', net'') := recv_calls ds t' net' in (p :: ps, t'', net'')
    | (Ok None, t', net') => recv_calls ds t' net'
    | (Err _, t', net') => ([], t', net')
    end
  end.

Lemma recv_calls_live ds t net ps got t' net' :
  poisoned t = false -> live (net_reads net) -> Forall acceptable ps ->
  undelivered t (net_reads net) = frames ps ->
  recv_calls ds t net = (got, t', net') ->
  poisoned t' = false /\
  exists rest, ps = got ++ rest /\ undelivered t' (net_reads net') = frames rest /\
    (length ps <= length ds -> Forall (fun d => total_wait (net_reads net) <= d)%N ds -> rest = []).
Proof.
  revert t net ps got. induction ds as [|d ds IH]; intros t net ps got Hp Hlive Hok Hu; simpl.
  - intros [= <- <- <-]. split; [done|]. exists ps. split_and!; [done..|].
    destruct ps; simpl; [done|lia].
  - destruct (recv_frame d t net) as [[r t1] net1] eqn:E.
    destruct (recv_frame_live _ _ _ ps _ _ _ Hp Hlive Hok Hu E) as (Hp1 & Hl1 & _ & _ & Hnow & Hr).
    destruct Hr as [(p & ps' & -> & -> & Hu' & Hw)|(-> & Hu' & Hd)].
    + destruct (recv_calls ds t1 net1) as [[got1 t2] net2] eqn:E2. intros [= <- <- <-].
      apply Forall_cons in Hok as [_ Hok].
      destruct (IH t1 net1 ps' got1 Hp1 Hl1 Hok Hu' E2) as (? & rest & -> & ? & Hall).
      split; [done|]. exists rest. split_and!; [done..|].
      intros Hlen [_ HF]%Forall_cons. apply Hall; [simpl in Hlen; lia|].
      eapply Forall_impl; [exact HF|]. simpl. intros. lia.
    + intros H2. destruct (IH t1 net1 ps got Hp1 Hl1 Hok Hu' H2) as (? & rest & -> & ? & Hall).
      split; [done|]. exists rest. split_and!; [done..|].
      intros Hlen [Hd0 HF]%Forall_cons. destruct (Hd Hd0) as [Hnil _].
      by apply app_eq_nil in Hnil as [_ ->].
Qed.

(** ** Reachable transports *)

(** What a client does with a transport, with the payloads whose sending it was
    told succeeded. *)
Inductive reachable : list string -> Transport -> Prop :=
  | reach_connect : reachable [] connect_transport
  | reach_send log t p net r t' net' :
      reachable log t -> send_frame p t net = (r, t', net') ->
      reachable (match r with Ok _ => log ++ [p] | Err _ => log end) t'
  | reach_recv log t d net r t' net' :
      reachable log t -> recv_frame d t net = (r, t', net') -> reachable log t'
  | reach_close log t answer r t' :
      reachable log t -> close answer t = (r, t') -> reachable log t'.

Lemma recv_loop_keeps timeout reads now t r t' reads' now' :
  recv_loop timeout reads now t = (r, t', reads', now') ->
  sent t' = sent t /\ (forall e, r = Err e -> poisoned t' = true) /\
  (forall o, r = Ok o -> poisoned t' = poisoned t).
Proof.
  revert now t. induction reads as [|[wait ev] reads IH]; intros now t; simpl.
  - destruct (decode_frame _) as [[[p n]|]|e]; intros [= <- <- <- <-]; by split_and!.
  - destruct (decode_frame _) as [[[p n]|]|e]; [by intros [= <- <- <- <-]| |by intros [= <- <- <- <-]].
    destruct (_ <? _)%N; [by intros [= <- <- <- <-]|].
    destruct ev as [[|c s]|e]; [by intros [= <- <- <- <-]|intros E; exact (IH _ _ E)|by intros [= <- <- <- <-]].
Qed.

Lemma recv_frame_keeps timeout t net r t' net' :
  recv_frame timeout t net = (r, t', net') ->
  sent t' = sent t /\ (forall e, r = Err e -> poisoned t' = true) /\
  (forall o, r = Ok o -> poisoned t' = false /\ poisoned t = false).
Proof.
  unfold recv_frame. destruct (poisoned t) eqn:Hp; [by intros [= <- <- <-]|].
  destruct (recv_loop _ _ _ _) as [[[r0 t0] reads0] now0] eqn:E. intros [= <- <- <-].
  apply recv_loop_keeps in E as (? & ? & Ho). split_and!; [done..|].
  intros o ->. split; [|done]. by rewrite (Ho o).
Qed.

(** ** Properties *)

(** However the peer's bytes are cut into reads, and whatever timeouts the
    caller uses, the calls return the payloads the peer framed, in order and
    without loss: what they have not returned is still in the buffer or on the
    wire, a read that times out loses nothing and poisons nothing, and calls that
    wait long enough return them all. *)
Theorem transport_delivers ds t net ps got t' net' :
  poisoned t = false -> live (net_reads net) -> Forall acceptable ps ->
  undelivered t (net_reads net) = frames ps ->
  recv_calls ds t net = (got, t', net') ->
  poisoned t' = false /\
  exists rest, ps = got ++ rest /\ undelivered t' (net_reads net') = frames rest /\
    (length ps <= length ds -> Forall (fun d => total_wait (net_reads net) <= d)%N ds -> rest = []).
Proof. apply recv_calls_live. Qed.

Definition demo_net : Net :=
  mkNet [(0, ReadChunk "S00"); (700, ReadChunk "2hiS"); (10, ReadChunk "003bye")]%N [] 0.

Lemma transport_delivers_witness :
  poisoned (snd (fst (recv_calls [500; 500; 500]%N connect_transport demo_net))) = false.
Proof.
  apply (transport_delivers [500; 500; 500]%N connect_transport demo_net ["hi"; "bye"]
           ["hi"; "bye"] _ (snd (recv_calls [500; 500; 500]%N connect_transport demo_net))).
  - reflexivity.
  - repeat constructor; repeat eexists.
  - repeat constructor; vm_compute; discriminate.
  - reflexivity.
  - vm_compute. reflexivity.
Defined.

(** The poison flag is exact and final: a frame operation fails if and only
    if it leaves the transport poisoned, and on a poisoned transport it fails with
    the same error every time, writes no byte and consumes none. *)
Theorem poison_exact_and_final p d t net :
  (let '(r, t', _) := send_frame p t net in
   (poisoned t' = true <-> exists e, r = Err e) /\
   (poisoned t = true -> r = Err poisoned_transport /\ t' = t)) /\
  (let '(r, t', net') := recv_frame d t net in
   (poisoned t' = true <-> exists e, r = Err e) /\
   (poisoned t = true -> r = Err poisoned_transport /\ t' = t /\ net' = net)).
Proof.
  split.
  - unfold send_frame. destruct (poisoned t) eqn:Hp; [split; [split; eauto|done]|].
    destruct (net_writes net) as [|[| |] ws]; simpl; split; try done; split; eauto;
      try (rewrite Hp; done); by intros [].
  - destruct (recv_frame d t net) as [[r t'] net'] eqn:E. split.
    + apply recv_frame_keeps in E as (_ & He & Ho). split; [|by intros [e ->]; apply (He e)].
      intros Hp. destruct r as [o|e]; [|eauto]. destruct (Ho o eq_refl). congruence.
    + intros Hp. unfold recv_frame in E. rewrite Hp in E. by injection E as <- <- <-.
Qed.

(** The bytes on the wire are the frames of the payloads whose sending was
    reported as done, in order, followed by at most one incomplete frame; and no
    transport with an incomplete frame behind it is left usable. *)
Theorem wire_is_framed log t :
  reachable log t ->
  exists partial rest p, sent t = frames log +s+ partial /\ partial +s+ rest = encode_frame p /\
    (partial <> "" -> poisoned t = true).
Proof.
  induction 1 as [|log t p net r t' net' _ IH E|log t d net r t' net' _ IH E|log t a r t' _ IH E].
  - exists "", (encode_frame ""), "". by split_and!.
  - destruct IH as (part & rest & q & Hs & Hq & Hp). unfold send_frame in E.
    destruct (poisoned t) eqn:Hpt.
    { injection E as <- <- <-. exists part, rest, q. by split_and!. }
    assert (part = "") as -> by (destruct part; [done|by discriminate Hp]).
    rewrite app_str_nil_r in Hs.
    destruct (net_writes net) as [|[|n e|n] ws]; injection E as <- <- <-; simpl; rewrite Hs.
    1,2: exists "", (encode_frame ""), ""; rewrite frames_app; simpl;
      by rewrite !app_str_nil_r.
    all: exists (take_str n (encode_frame p)), (skip n (encode_frame p)), p;
      by rewrite take_skip_str.
  - destruct IH as (part & rest & q & Hs & Hq & Hp).
    apply recv_frame_keeps in E as (Hsent & He & Ho). exists part, rest, q.
    rewrite Hsent. split_and!; [done..|]. intros Hne. specialize (Hp Hne).
    destruct r as [o|e]; [destruct (Ho o eq_refl); congruence|eauto].
  - destruct IH as (part & rest & q & Hs & Hq & Hp). unfold close in E.
    destruct a; injection E as <- <-; by exists part, rest, q.
Qed.

Lemma wire_is_framed_witness : exists partial rest p,
  "S002hiS0" = frames ["hi"] +s+ partial /\ partial +s+ rest = encode_frame p.
Proof.
  pose (net := mkNet [] [WriteDone; WriteFailed 2 BrokenPipe] 0%N).
  pose (t1 := mkTransport "" false false "S002hi").
  assert (H1 : reachable ["hi"] t1).
  { exact (reach_send [] connect_transport "hi" net (Ok tt) t1 _ reach_connect eq_refl). }
  assert (H2 : reachable ["hi"] (poison (add_sent "S0" t1))).
  { exact (reach_send ["hi"] t1 "lost" (mkNet [] [WriteFailed 2 BrokenPipe] 0%N) (Err (Io BrokenPipe)) _ _
             H1 eq_refl). }
  destruct (wire_is_framed _ _ H2) as (partial & rest & p & Hs & Hp & _).
  exists partial, rest, p. exact (conj Hs Hp).
Defined.
