(* ===== verification/Client.v ===== *)
(** * The request client (src/src/frama-c/client.rs)

    One client owns one transport and a request counter.  A request holds the
    client's lock from the moment it takes an id to the moment it has an answer,
    so one request is one uninterrupted run of the definitions below.  Protocol
    tracing and log lines are not modelled. *)

From S2P Require Import Prelude RustStr Json Codec Transport.

(** ** A monad for code that talks to the server

    A computation runs on the world (the client's fields, the network, and how long
    past its due time each sleep ends); [None] is a loop that ran out of fuel, and
    an [Err] stops the computation where it happens. *)
Record World := mkWorld {
  w_transport : Transport;
  w_counter : N;
  w_net : Net;
  w_oversleep : list N;
}.

Definition M (A : Type) : Type := World -> option (result A * World).

Definition ret {A} (a : A) : M A := fun w => Some (Ok a, w).
Definition throw {A} (e : FramaCError) : M A := fun w => Some (Err e, w).
Definition out_of_fuel {A} : M A := fun _ => None.

Definition bind {A B} (m : M A) (k : A -> M B) : M B := fun w =>
  match m w with
  | Some (Ok a, w') => k a w'
  | Some (Err e, w') => Some (Err e, w')
  | None => None
  end.

(** A result taken as a value, for code that matches on it instead of using [?]. *)
Definition attempt {A} (m : M A) : M (result A) := fun w =>
  match m w with
  | Some (r, w') => Some (Ok r, w')
  | None => None
  end.

Notation "x <- m ;; k" := (bind m (fun x => k)) (at level 100, m at next level, right associativity) : fc_scope.
Notation "m ;;; k" := (bind m (fun _ => k)) (at level 100, right associativity) : fc_scope.

(** [Instant::now()], in milliseconds. *)
Definition now : M N := fun w => Some (Ok (net_now (w_net w)), w).

Definition sleep (ms : N) : M unit := fun w =>
  let late := match w_oversleep w with d :: _ => d | [] => 0%N end in
  let net := w_net w in
  Some (Ok tt, mkWorld (w_transport w) (w_counter w)
                 (mkNet (net_reads net) (net_writes net) (net_now net + ms + late)%N)
                 (tail (w_oversleep w))).

(** ** ClientInner *)

Definition next_id : M string := fun w =>
  Some (Ok ("RQ." +s+ dec_N (w_counter w)),
        mkWorld (w_transport w) ((w_counter w + 1) mod 2 ^ 64)%N (w_net w) (w_oversleep w)).

(** [elapsed_millis], whose [as_millis] saturates when it leaves the u64. *)
Definition elapsed_millis (started at_ : N) : N := N.min (at_ - started) (2 ^ 64 - 1).

Record FramaCExecResult := mkExecResult {
  data : json;
  diagnostics : FramaCRequestDiagnostics;
}.

(** The diagnostics fields [terminal_outcome] and [poll_loop] write. *)
Definition new_diagnostics (id req : string) : FramaCRequestDiagnostics :=
  Build_FramaCRequestDiagnostics id req None 0 None None None None.
Definition set_cancellation (c : string) (d : FramaCRequestDiagnostics) :=
  Build_FramaCRequestDiagnostics (request_id d) (request d) (queued_task_id d) (signal_count d)
    (elapsed_ms d) (final_result d) (Some c) (rejected_command_id d).
Definition set_rejected (c : string) (d : FramaCRequestDiagnostics) :=
  Build_FramaCRequestDiagnostics (request_id d) (request d) (queued_task_id d) (signal_count d)
    (elapsed_ms d) (final_result d) (cancellation_result d) (Some c).
Definition count_signal (id : string) (d : FramaCRequestDiagnostics) :=
  Build_FramaCRequestDiagnostics (request_id d) (request d)
    (Some (unwrap_or (queued_task_id d) id)) (signal_count d + 1)
    (elapsed_ms d) (final_result d) (cancellation_result d) (rejected_command_id d).
Definition set_final (kind : string) (elapsed : N) (d : FramaCRequestDiagnostics) :=
  Build_FramaCRequestDiagnostics (request_id d) (request d) (queued_task_id d) (signal_count d)
    (Some elapsed) (Some kind) (cancellation_result d) (rejected_command_id d).

(** [terminal_outcome]: the settled result if the response settles the request,
    and the diagnostics after it. *)
Definition terminal_outcome (resp : FramaCResponse) (rid : string) (started at_ : N)
    (diag : FramaCRequestDiagnostics)
    : option (result FramaCExecResult) * FramaCRequestDiagnostics :=
  let settle kind d (mk : FramaCRequestDiagnostics -> result FramaCExecResult) :=
    let d' := set_final kind (elapsed_millis started at_) d in (Some (mk d'), d') in
  match resp with
  | RData id v =>
    if id =s rid then settle "DATA" diag (fun d => Ok (mkExecResult v d)) else (None, diag)
  | RError id msg =>
    if id =s rid then settle "ERROR" diag (fun d => Err (CommandFailed "ERROR" id msg d))
    else (None, diag)
  | RKilled id =>
    if id =s rid
    then settle "KILLED" (set_cancellation "killed" diag)
           (fun d => Err (CommandFailed "KILLED" id ("killed: " +s+ id) d))
    else (None, diag)
  | RRejected id =>
    if id =s rid
    then settle "REJECTED" (set_rejected id diag)
           (fun d => Err (CommandFailed "REJECTED" id ("rejected: " +s+ id) d))
    else (None, diag)
  | RSignal id => (None, count_signal id diag)
  | RCmdLineOn | RCmdLineOff => (None, diag)
  end.

Section client.
(** serde_json, and the rendering of values into diagnostics text. *)
Variable to_string : json -> string.
Variable from_str : string -> option json.
Variable debug_response : FramaCResponse -> string.
Variable display_error : FramaCError -> string.
Variable debug_duration : N -> string.

Definition send_command (cmd : FramaCCommand) : M unit := fun w =>
  let '(r, t, net) := send_frame (encode_command to_string cmd) (w_transport w) (w_net w) in
  Some (r, mkWorld t (w_counter w) net (w_oversleep w)).

Definition recv_text (timeout : N) : M (option string) := fun w =>
  let '(r, t, net) := recv_frame timeout (w_transport w) (w_net w) in
  Some (r, mkWorld t (w_counter w) net (w_oversleep w)).

Definition recv_response (timeout : N) : M (option FramaCResponse) :=
  frame <- recv_text timeout ;;
  match frame with
  | Some s =>
    match decode_response from_str s with
    | Ok r => ret (Some r)
    | Err e => throw e
    end
  | None => ret None
  end.

(** The loop of [wait_for_id]. *)
Fixpoint wait_loop (fuel : nat) (rid : string) (timeout deadline : N) : M json :=
  match fuel with
  | O => out_of_fuel
  | S fuel =>
    at_ <- now ;;
    let remaining := (deadline - at_)%N in
    if (remaining =? 0)%N then throw (Timeout timeout)
    else
      resp <- recv_response remaining ;;
      match resp with
      | Some (RData id v) => if id =s rid then ret v else wait_loop fuel rid timeout deadline
      | Some (RError id msg) =>
        if id =s rid then throw (ServerError id msg) else wait_loop fuel rid timeout deadline
      | Some (RRejected id) =>
        if id =s rid then throw (Rejected id) else wait_loop fuel rid timeout deadline
      | Some (RSignal _) | Some RCmdLineOn | Some RCmdLineOff | Some (RKilled _) =>
        wait_loop fuel rid timeout deadline
      | None => throw (Timeout timeout)
      end
  end.

(** Every turn of the loop but the last consumes a frame, and a frame is at least
    four bytes, so the bytes still to come bound the turns. *)
Definition wait_fuel (w : World) : nat :=
  S (String.length (undelivered (w_transport w) (net_reads (w_net w)))).

Definition wait_for_id (rid : string) (timeout : N) : M json := fun w =>
  wait_loop (wait_fuel w) rid timeout (net_now (w_net w) + timeout)%N w.

(** What [poll_loop] records and reports once the deadline has passed. *)
Definition poll_timeout (rid : string) (timeout started : N) (diag : FramaCRequestDiagnostics)
    : M FramaCExecResult :=
  kill_result <- attempt (send_command (CKill rid)) ;;
  at_ <- now ;;
  let diag := set_final "TIMEOUT" (elapsed_millis started at_) diag in
  cancellation <-
    match kill_result with
    | Ok _ =>
      answer <- attempt (recv_response 500) ;;
      ret match answer with
          | Ok (Some (RKilled id)) =>
            if id =s rid then "killed" else "kill_sent_then_" +s+ debug_response (RKilled id)
          | Ok (Some other) => "kill_sent_then_" +s+ debug_response other
          | Ok None => "kill_sent"
          | Err e => "kill_sent_then_error:" +s+ display_error e
          end
    | Err e => ret ("kill_send_error:" +s+ display_error e)
    end ;;
  throw (CommandFailed "TIMEOUT" rid ("timeout after " +s+ debug_duration timeout)
           (set_cancellation cancellation diag)).

Fixpoint poll_turns (fuel : nat) (rid : string) (timeout started deadline : N)
    (diag : FramaCRequestDiagnostics) : M FramaCExecResult :=
  match fuel with
  | O => out_of_fuel
  | S fuel =>
    at_ <- now ;;
    if (deadline <=? at_)%N then poll_timeout rid timeout started diag
    else
      sleep 100 ;;;
      send_command CPoll ;;;
      resp <- recv_response 500 ;;
      match resp with
      | None => poll_turns fuel rid timeout started deadline diag
      | Some resp =>
        at_ <- now ;;
        match terminal_outcome resp rid started at_ diag with
        | (Some (Ok result), _) => ret result
        | (Some (Err e), _) => throw e
        | (None, diag) => poll_turns fuel rid timeout started deadline diag
        end
      end
  end.

(** Each turn sleeps for 100 ms, so the deadline bounds the turns. *)
Definition poll_fuel (timeout : N) : nat := S (N.to_nat (timeout / 100 + 1)).

Definition poll_loop (rid req : string) (timeout : N) : M FramaCExecResult :=
  started <- now ;;
  let deadline := (started + timeout)%N in
  let diag := new_diagnostics rid req in
  resp <- recv_response 500 ;;
  match resp with
  | None => poll_turns (poll_fuel timeout) rid timeout started deadline diag
  | Some resp =>
    at_ <- now ;;
    match terminal_outcome resp rid started at_ diag with
    | (Some (Ok result), _) => ret result
    | (Some (Err e), _) => throw e
    | (None, diag) => poll_turns (poll_fuel timeout) rid timeout started deadline diag
    end
  end.

(** ** FramaCClient *)

Definition is_poisoned (w : World) : bool := poison_flag (w_transport w).

Definition get_with_timeout (req : string) (v : json) (timeout : N) : M json :=
  id <- next_id ;;
  send_command (CGet id req v) ;;;
  wait_for_id id timeout.

Definition client_get (req : string) (v : json) : M json := get_with_timeout req v 10000.

Definition client_set (req : string) (v : json) : M json :=
  id <- next_id ;;
  send_command (CSet id req v) ;;;
  result <- poll_loop id req 30000 ;;
  ret (data result).

Definition exec_with_diagnostics (req : string) (v : json) (timeout : N) : M FramaCExecResult :=
  id <- next_id ;;
  send_command (CExec id req v) ;;;
  poll_loop id req timeout.

Definition exec (req : string) (v : json) (timeout : N) : M json :=
  result <- exec_with_diagnostics req v timeout ;;
  ret (data result).

Definition AST_PRINT_BUDGET : N := 60000.

Definition print_source : M string :=
  v <- get_with_timeout "plugins.ast-utils.printSource" (JStr "") AST_PRINT_BUDGET ;;
  ret (unwrap_or (as_str v) "").

(** One page of [fetch_all] added to what was fetched: a reload drops it all. *)
Definition add_page (all_entries : list json) (page : json) : list json :=
  (if unwrap_or (get_bool "reload" page) false then [] else all_entries)
  ++ unwrap_or (get_arr "updated" page) [].

Definition page_pending (page : json) : N := unwrap_or (get_u64 "pending" page) 0%N.

Fixpoint fetch_pages (fuel : nat) (req : string) (all_entries : list json) : M (list json) :=
  match fuel with
  | O => out_of_fuel
  | S fuel =>
    page <- client_get req (jN 20000) ;;
    let all_entries := add_page all_entries page in
    if (page_pending page =? 0)%N then ret all_entries
    else fetch_pages fuel req all_entries
  end.

Definition fetch_all (fuel : nat) (req : string) : M (list json) := fetch_pages fuel req [].

Definition reload_fetch (fuel : nat) (reload_request fetch_request : string) : M (list json) :=
  client_get reload_request JNull ;;;
  fetch_all fuel fetch_request.

Definition client_shutdown (answer : option IoError) : M unit :=
  send_command CShutdown ;;;
  fun w => let '(r, t) := close answer (w_transport w) in
           Some (r, mkWorld t (w_counter w) (w_net w) (w_oversleep w)).

(** The handshake of [connect]: whether CMDLINEOFF was seen. *)
Fixpoint handshake_loop (fuel : nat) (deadline : N) : M bool :=
  match fuel with
  | O => out_of_fuel
  | S fuel =>
    at_ <- now ;;
    let remaining := (deadline - at_)%N in
    if (remaining =? 0)%N then throw ConnectTimeout
    else
      resp <- recv_response remaining ;;
      match resp with
      | Some RCmdLineOff => ret true
      | Some _ => handshake_loop fuel deadline
      | None => ret false
      end
  end.

Definition handshake : M bool :=
  id <- next_id ;;
  send_command (CGet id "kernel.ast.getFiles" JNull) ;;;
  fun w => handshake_loop (wait_fuel w) (net_now (w_net w) + 30000)%N w.

End client.

(** ** Lemmas on the monad *)

Lemma bind_Some {A B} (m : M A) (k : A -> M B) w r w2 :
  bind m k w = Some (r, w2) ->
  (exists a w1, m w = Some (Ok a, w1) /\ k a w1 = Some (r, w2)) \/
  (exists e, m w = Some (Err e, w2) /\ r = Err e).
Proof.
  unfold bind. destruct (m w) as [[[a|e] w1]|]; [|intros [= <- <-]; right|done]; eauto.
Qed.

(** A computation that always ends. *)
Definition total {A} (m : M A) : Prop := forall w, m w <> None.

Lemma total_ret {A} (a : A) : total (ret a).
Proof. done. Qed.
Lemma total_throw {A} e : total (throw (A:=A) e).
Proof. done. Qed.
Lemma total_bind {A B} (m : M A) (k : A -> M B) : total m -> (forall a, total (k a)) -> total (bind m k).
Proof.
  intros Hm Hk w. unfold bind. specialize (Hm w).
  destruct (m w) as [[[a|e] w1]|]; [apply Hk|done|done].
Qed.
Lemma total_attempt {A} (m : M A) : total m -> total (attempt m).
Proof. intros Hm w. unfold attempt. specialize (Hm w). by destruct (m w) as [[]|]. Qed.
Lemma total_now : total now.
Proof. done. Qed.
Lemma total_sleep d : total (sleep d).
Proof. done. Qed.

#[export] Hint Resolve total_ret total_throw total_bind total_attempt total_now total_sleep : fc.

(** ** What a receive consumes *)

Definition pending_bytes (w : World) : nat :=
  String.length (undelivered (w_transport w) (net_reads (w_net w))).

Lemma recv_loop_bytes timeout reads at_ t r t' reads' at' :
  recv_loop timeout reads at_ t = (r, t', reads', at') ->
  String.length (undelivered t' reads') <= String.length (undelivered t reads) /\
  (at_ <= at')%N /\
  (forall p, r = Ok (Some p) ->
     String.length (undelivered t' reads') < String.length (undelivered t reads)).
Proof.
  unfold undelivered. revert at_ t. induction reads as [|[wait ev] reads IH]; intros at_ t; simpl;
    destruct (decode_frame (read_buf t)) as [[[p n]|]|e] eqn:E.
  1,4: intros [= <- <- <- <-]; apply decode_frame_Some in E as (c & h & _ & Hn & _ & _ & _ & Hb);
    assert (String.length (read_buf t) <> 0) by (rewrite Hb; discriminate);
    cbn [script_bytes read_buf set_buf]; rewrite !length_app_str, length_skip;
    split_and!; intros; lia.
  1,2: intros [= <- <- <- <-]; split_and!; [simpl; lia|lia|done].
  - destruct (_ <? _)%N; [intros [= <- <- <- <-]; split_and!; [simpl; lia|lia|done]|].
    destruct ev as [[|c s]|e]; [intros [= <- <- <- <-]; split_and!; [simpl; lia|lia|done]| |
                                intros [= <- <- <- <-]; split_and!; [simpl; lia|lia|done]].
    intros Hr. apply IH in Hr as (Hl & Ht & Hp). simpl read_buf in *.
    rewrite app_str_assoc in Hl, Hp. split_and!; [exact Hl|lia|exact Hp].
  - intros [= <- <- <- <-]. rewrite !length_app_str. split_and!; [|lia|done].
    destruct ev; simpl; rewrite ?length_app_str; lia.
Qed.

Lemma recv_response_bytes from_str d w r w' :
  recv_response from_str d w = Some (r, w') ->
  pending_bytes w' <= pending_bytes w /\ (net_now (w_net w) <= net_now (w_net w'))%N /\
  (forall x, r = Ok (Some x) -> pending_bytes w' < pending_bytes w).
Proof.
  unfold recv_response, bind, recv_text, pending_bytes, recv_frame.
  destruct (poisoned (w_transport w)).
  { intros [= <- <-]. simpl. split_and!; [lia|lia|done]. }
  destruct (recv_loop _ _ _ _) as [[[r0 t0] reads0] at0] eqn:E.
  apply recv_loop_bytes in E as (Hl & Ht & Hp).
  destruct r0 as [[p|]|e]; [|intros [= <- <-]; by split_and!..].
  specialize (Hp p eq_refl).
  destruct (decode_response from_str p); intros [= <- <-]; by split_and!.
Qed.

Lemma total_recv_response from_str d : total (recv_response from_str d).
Proof.
  apply total_bind.
  - intros w. unfold recv_text. by destruct (recv_frame _ _ _) as [[]].
  - intros [p|]; [|apply total_ret]. destruct (decode_response _ _); auto with fc.
Qed.

Lemma total_send_command to_string cmd : total (send_command to_string cmd).
Proof. intros w. unfold send_command. by destruct (send_frame _ _ _) as [[]]. Qed.
#[export] Hint Resolve total_recv_response total_send_command : fc.

(** A loop whose turns each consume a response ends within its byte fuel. *)
Lemma recv_then_total {A} from_str d (k : option FramaCResponse -> M A) w :
  (forall x w', pending_bytes w' < pending_bytes w -> k (Some x) w' <> None) ->
  (forall w', k None w' <> None) ->
  bind (recv_response from_str d) k w <> None.
Proof.
  intros Hs Hn. unfold bind.
  destruct (recv_response from_str d w) as [[[[x|]|e] w1]|] eqn:E; [|apply Hn|done|].
  - apply Hs. apply recv_response_bytes in E as (_ & _ & H). by apply (H x).
  - by apply total_recv_response in E.
Qed.

Lemma wait_loop_ends from_str fuel rid timeout deadline w :
  pending_bytes w < fuel -> wait_loop from_str fuel rid timeout deadline w <> None.
Proof.
  revert w. induction fuel as [|fuel IH]; intros w Hf; [lia|]. simpl. unfold bind at 1, now.
  destruct (_ =? 0)%N; [done|].
  apply recv_then_total; [|done]. intros x w' Hlt.
  assert (IHw : wait_loop from_str fuel rid timeout deadline w' <> None) by (apply IH; lia).
  destruct x; try exact IHw; by destruct (_ =s _).
Qed.

Lemma handshake_loop_ends from_str fuel deadline w :
  pending_bytes w < fuel -> handshake_loop from_str fuel deadline w <> None.
Proof.
  revert w. induction fuel as [|fuel IH]; intros w Hf; [lia|]. simpl. unfold bind at 1, now.
  destruct (_ =? 0)%N; [done|].
  apply recv_then_total; [|done]. intros x w' Hlt.
  assert (IHw : handshake_loop from_str fuel deadline w' <> None) by (apply IH; lia).
  by destruct x.
Qed.

(** ** Polling *)

Lemma send_command_time to_string cmd w r w' :
  send_command to_string cmd w = Some (r, w') -> (net_now (w_net w) <= net_now (w_net w'))%N.
Proof.
  unfold send_command, send_frame. destruct (poisoned _); [intros [= _ <-]; simpl; lia|].
  destruct (net_writes _) as [|[] ?]; intros [= _ <-]; simpl; lia.
Qed.

Lemma total_poll_timeout to_string from_str dr de dd rid timeout started diag :
  total (poll_timeout to_string from_str dr de dd rid timeout started diag).
Proof.
  unfold poll_timeout. apply total_bind; [auto with fc|]. intros [|]; repeat
    (apply total_bind; [auto with fc|]; intros ?); auto with fc.
Qed.

Lemma poll_turns_ends to_string from_str dr de dd fuel rid timeout started deadline diag w :
  (deadline <= net_now (w_net w) + 100 * N.of_nat fuel)%N ->
  poll_turns to_string from_str dr de dd (S fuel) rid timeout started deadline diag w <> None.
Proof.
  revert diag w. induction fuel as [|fuel IH]; intros diag w Hf; cbn [poll_turns]; unfold bind at 1, now at 1.
  { destruct (N.leb_spec deadline (net_now (w_net w))); [apply total_poll_timeout|lia]. }
  destruct (N.leb_spec deadline (net_now (w_net w))); [apply total_poll_timeout|].
  unfold bind at 1, sleep at 1. set (w1 := mkWorld _ _ _ _).
  assert (H1 : (net_now (w_net w) + 100 <= net_now (w_net w1))%N) by (simpl; lia).
  clearbody w1. unfold bind at 1.
  destruct (send_command to_string CPoll w1) as [[[[]|e] w2]|] eqn:E2; [|done|by apply total_send_command in E2].
  apply send_command_time in E2. unfold bind at 1.
  destruct (recv_response from_str 500 w2) as [[[o|e] w3]|] eqn:E3; [|done|by apply total_recv_response in E3].
  apply recv_response_bytes in E3 as (_ & E3 & _).
  assert (IHw : forall d, poll_turns to_string from_str dr de dd (S fuel) rid timeout started deadline d w3 <> None).
  { intros d. apply IH. lia. }
  destruct o as [resp|]; [|apply IHw]. unfold bind at 1, now at 1.
  destruct (terminal_outcome _ _ _ _ _) as [[[|]|] d]; [done|done|apply IHw].
Qed.

Lemma poll_loop_ends to_string from_str dr de dd rid req timeout w :
  poll_loop to_string from_str dr de dd rid req timeout w <> None.
Proof.
  unfold poll_loop. unfold bind at 1, now at 1. unfold bind at 1.
  destruct (recv_response from_str 500 w) as [[[o|e] w1]|] eqn:E; [|done|by apply total_recv_response in E].
  apply recv_response_bytes in E as (_ & E & _).
  assert (Hw : forall d, poll_turns to_string from_str dr de dd (poll_fuel timeout) rid timeout
                           (net_now (w_net w)) (net_now (w_net w) + timeout) d w1 <> None).
  { intros d. apply poll_turns_ends. rewrite N2Nat.id.
    pose proof (N.mod_lt timeout 100). pose proof (N.div_mod timeout 100). lia. }
  destruct o as [resp|]; [|apply Hw]. unfold bind, now.
  destruct (terminal_outcome _ _ _ _ _) as [[[|]|] d]; [done|done|apply Hw].
Qed.

(** What a settled poll says about itself. *)
Definition names_request (rid req : string) (d : FramaCRequestDiagnostics) : Prop :=
  request_id d = rid /\ request d = req.

Definition own_outcome (rid req : string) (r : result FramaCExecResult) : Prop :=
  match r with
  | Ok res => names_request rid req (diagnostics res) /\ final_result (diagnostics res) = Some "DATA"
  | Err (CommandFailed kind id _ d) =>
    id = rid /\ kind ∈ ["ERROR"; "KILLED"; "REJECTED"; "TIMEOUT"] /\
    names_request rid req d /\ final_result d = Some kind
  | Err (ServerError _ _) | Err (Rejected _) | Err (Killed _) => False
  | Err _ => True
  end.

Lemma terminal_outcome_spec resp rid req started at_ diag o d :
  names_request rid req diag -> terminal_outcome resp rid started at_ diag = (o, d) ->
  match o with
  | Some r => own_outcome rid req r /\
      (forall res, r = Ok res -> resp = RData rid (data res))
  | None => names_request rid req d
  end.
Proof.
  intros [H1 H2] H.
  destruct resp; simpl in H; repeat case_match; bool_simpl; simplify_eq/=;
    repeat split; try done; try (by intros ? [= <-]); repeat constructor.
Qed.

(** An error of the transport or of the decoder names no request. *)
Definition plain_error (e : FramaCError) : Prop :=
  match e with
  | CommandFailed _ _ _ _ | ServerError _ _ | Rejected _ | Killed _ => False
  | _ => True
  end.

Lemma own_outcome_plain rid req e : plain_error e -> own_outcome rid req (Err e).
Proof. by destruct e. Qed.

Lemma decode_frame_plain buf e : decode_frame buf = Err e -> plain_error e.
Proof.
  unfold decode_frame. intros H. repeat (case_match; simplify_eq/=; try done).
Qed.

Lemma decode_response_plain from_str s e : decode_response from_str s = Err e -> plain_error e.
Proof.
  unfold decode_response. intros H. repeat (case_match; simplify_eq/=; try done).
Qed.

Lemma recv_loop_plain timeout reads at_ t e t' reads' at' :
  recv_loop timeout reads at_ t = (Err e, t', reads', at') -> plain_error e.
Proof.
  revert at_ t. induction reads as [|[wait ev] reads IH]; intros at_ t; simpl;
    destruct (decode_frame (read_buf t)) as [[[p n]|]|e'] eqn:E; try done;
    try (intros [= <- _ _ _]; by apply decode_frame_plain in E).
  destruct (_ <? _)%N; [done|].
  destruct ev as [[|c s]|e']; [by intros [= <- _ _ _]|apply IH|by intros [= <- _ _ _]].
Qed.

Lemma recv_response_plain from_str d w e w' :
  recv_response from_str d w = Some (Err e, w') -> plain_error e.
Proof.
  unfold recv_response, bind, recv_text, recv_frame.
  destruct (poisoned (w_transport w)); [by intros [= <- _]|].
  destruct (recv_loop _ _ _ _) as [[[r0 t0] reads0] at0] eqn:E.
  destruct r0 as [[p|]|e']; [|done|intros [= <- _]; by apply recv_loop_plain in E].
  destruct (decode_response from_str p) eqn:Ep; [done|].
  intros [= <- _]. by apply decode_response_plain in Ep.
Qed.

Lemma send_command_plain to_string cmd w e w' :
  send_command to_string cmd w = Some (Err e, w') -> plain_error e.
Proof.
  unfold send_command, send_frame. destruct (poisoned _); [by intros [= <- _]|].
  destruct (net_writes _) as [|[] ?]; intros [= <- _]; done.
Qed.

Lemma poll_timeout_own to_string from_str dr de dd rid req timeout started diag w r w' :
  names_request rid req diag ->
  poll_timeout to_string from_str dr de dd rid timeout started diag w = Some (r, w') ->
  own_outcome rid req r.
Proof.
  intros Hd H. unfold poll_timeout in H.
  apply bind_Some in H as [(k & w1 & _ & H)|(e & H & ->)].
  2:{ unfold attempt in H. by destruct (send_command _ _ _) as [[]|]. }
  unfold bind at 1, now in H.
  apply bind_Some in H as [(c & w2 & _ & H)|(e & H & ->)].
  - injection H as <- _. simpl. destruct Hd. split_and!; try done. by repeat constructor.
  - destruct k as [[]|e']; [|done].
    apply bind_Some in H as [(a & w3 & _ & H)|(e2 & H & _)]; [done|].
    unfold attempt in H. by destruct (recv_response _ _ _) as [[]|].
Qed.

Lemma poll_turns_own to_string from_str dr de dd fuel rid req timeout started deadline diag w r w' :
  names_request rid req diag ->
  poll_turns to_string from_str dr de dd fuel rid timeout started deadline diag w = Some (r, w') ->
  own_outcome rid req r.
Proof.
  revert diag w. induction fuel as [|fuel IH]; intros diag w Hd; [done|]. cbn [poll_turns].
  unfold bind at 1, now at 1. destruct (_ <=? _)%N; [by apply poll_timeout_own|].
  unfold bind at 1, sleep at 1. intros H.
  apply bind_Some in H as [(? & w1 & _ & H)|(e & H & ->)].
  2:{ apply send_command_plain in H. by apply own_outcome_plain. }
  apply bind_Some in H as [(o & w2 & _ & H)|(e & H & ->)].
  2:{ apply recv_response_plain in H. by apply own_outcome_plain. }
  destruct o as [resp|]; [|by apply IH in H].
  unfold bind, now in H.
  destruct (terminal_outcome resp rid started _ diag) as [o d] eqn:Et.
  apply (terminal_outcome_spec _ _ req) in Et; [|done].
  destruct o as [[res|e]|]; [| |by apply IH in H]; destruct Et as [Ht _]; by injection H as <- _.
Qed.

(** ** Waiting for an answer *)

(** What one response answers to a GET, if anything. *)
Definition get_answer (rid : string) (resp : FramaCResponse) : option (result json) :=
  match resp with
  | RData id v => then_some (id =s rid) (Ok v)
  | RError id msg => then_some (id =s rid) (Err (ServerError id msg))
  | RRejected id => then_some (id =s rid) (Err (Rejected id))
  | _ => None
  end.

Lemma wait_loop_turn from_str fuel rid timeout deadline w :
  (net_now (w_net w) < deadline)%N ->
  wait_loop from_str (S fuel) rid timeout deadline w =
  match recv_response from_str (deadline - net_now (w_net w)) w with
  | Some (Ok (Some resp), w') =>
    match get_answer rid resp with
    | Some r => Some (r, w')
    | None => wait_loop from_str fuel rid timeout deadline w'
    end
  | Some (Ok None, w') => Some (Err (Timeout timeout), w')
  | Some (Err e, w') => Some (Err e, w')
  | None => None
  end.
Proof.
  intros Hlt. cbn [wait_loop]. unfold bind at 1, now. 
  destruct (N.eqb_spec (deadline - net_now (w_net w)) 0)%N; [lia|].
  unfold bind. destruct (recv_response _ _ w) as [[[[resp|]|e] w1]|]; try done.
  destruct resp; try done; simpl; by destruct (_ =s _).
Qed.

(** Receiving a response on a live stream whose frames all decode. *)
Lemma recv_response_live from_str d w ps rs r w' :
  poisoned (w_transport w) = false -> live (net_reads (w_net w)) -> Forall acceptable ps ->
  undelivered (w_transport w) (net_reads (w_net w)) = frames ps ->
  Forall2 (fun p x => decode_response from_str p = Ok x) ps rs ->
  (total_wait (net_reads (w_net w)) <= d)%N ->
  recv_response from_str d w = Some (r, w') ->
  poisoned (w_transport w') = false /\ live (net_reads (w_net w')) /\
  match ps, rs with
  | p :: ps', x :: rs' =>
    r = Ok (Some x) /\ undelivered (w_transport w') (net_reads (w_net w')) = frames ps' /\
    (net_now (w_net w') + total_wait (net_reads (w_net w'))
     = net_now (w_net w) + total_wait (net_reads (w_net w)))%N
  | _, _ => r = Ok None /\ undelivered (w_transport w') (net_reads (w_net w')) = ""
  end.
Proof.
  intros Hp Hl Hok Hu Hdec Hd. unfold recv_response, bind, recv_text.
  destruct (recv_frame d (w_transport w) (w_net w)) as [[r0 t0] net0] eqn:E.
  destruct (recv_frame_live _ _ _ ps _ _ _ Hp Hl Hok Hu E) as (Hp' & Hl' & _ & _ & _ & Hr).
  destruct Hr as [(p & ps' & -> & -> & Hu' & Hw)|(-> & Hu' & Hn)].
  - inversion Hdec as [|? x ? rs' Hx Hrs]; subst. rewrite Hx. intros [= <- <-]. by split_and!.
  - destruct (Hn Hd) as [-> _]. intros [= <- <-]. by split_and!.
Qed.

(** How many messages a wait reads: through the first answer to its own id, or all. *)
Fixpoint consumed (rid : string) (rs : list FramaCResponse) : nat :=
  match rs with
  | [] => 0
  | r :: rs => S (match get_answer rid r with Some _ => 0 | None => consumed rid rs end)
  end.

Lemma wait_loop_live from_str rid timeout deadline ps rs : forall fuel w,
  pending_bytes w < fuel ->
  poisoned (w_transport w) = false -> live (net_reads (w_net w)) -> Forall acceptable ps ->
  undelivered (w_transport w) (net_reads (w_net w)) = frames ps ->
  Forall2 (fun p x => decode_response from_str p = Ok x) ps rs ->
  (net_now (w_net w) + total_wait (net_reads (w_net w)) < deadline)%N ->
  exists w', wait_loop from_str fuel rid timeout deadline w
    = Some (unwrap_or (find_map (get_answer rid) rs) (Err (Timeout timeout)), w') /\
    poisoned (w_transport w') = false /\
    undelivered (w_transport w') (net_reads (w_net w')) = frames (drop (consumed rid rs) ps).
Proof.
  revert rs. induction ps as [|p ps IH]; intros rs fuel w Hf Hp Hl Hok Hu Hdec Hd;
    (destruct fuel as [|fuel]; [lia|]); rewrite wait_loop_turn by lia;
    destruct (recv_response from_str _ w) as [[r w1]|] eqn:E;
    try (by apply total_recv_response in E);
    pose proof (recv_response_bytes _ _ _ _ _ E) as (_ & _ & Hb);
    apply (recv_response_live _ _ _ _ rs _ _ Hp Hl Hok Hu Hdec) in E as (Hp' & Hl' & Hr); try lia.
  - destruct Hr as [-> Hu']. inversion Hdec; subst. exists w1. by split_and!.
  - apply Forall_cons in Hok as [_ Hok]. inversion Hdec as [|? x ? rs' Hx Hrs]; subst.
    destruct Hr as (-> & Hu' & Hw). specialize (Hb x eq_refl). cbn [find_map consumed].
    destruct (get_answer rid x) as [a|].
    + exists w1. by split_and!.
    + destruct (IH rs' fuel w1) as (w' & -> & ? & ?); [lia|done..|lia|]. by exists w'.
Qed.

(** ** Fetching a table page by page *)

(** The server's answers to the successive requests of [fetch_all]. *)
Inductive fetches (to_string : json -> string) (from_str : string -> option json) (req : string)
    : list json -> World -> World -> Prop :=
  | fetch_last page w w' :
      client_get to_string from_str req (jN 20000) w = Some (Ok page, w') ->
      page_pending page = 0%N -> fetches to_string from_str req [page] w w'
  | fetch_more page pages w w1 w' :
      client_get to_string from_str req (jN 20000) w = Some (Ok page, w1) ->
      page_pending page <> 0%N -> fetches to_string from_str req pages w1 w' ->
      fetches to_string from_str req (page :: pages) w w'.

Definition page_reloads (page : json) : bool := unwrap_or (get_bool "reload" page) false.

(** The pages from the last one that reloads on. *)
Fixpoint since_reload (pages : list json) : list json :=
  match pages with
  | [] => []
  | page :: rest => if existsb page_reloads rest then since_reload rest else page :: rest
  end.

Definition page_entries (page : json) : list json := unwrap_or (get_arr "updated" page) [].

Definition table_of (pages : list json) : list json := concat (map page_entries (since_reload pages)).

Lemma add_pages_fold pages acc :
  fold_left add_page pages acc =
  (if existsb page_reloads pages then [] else acc) ++ table_of pages.
Proof.
  revert acc. induction pages as [|p ps IH]; intros acc; simpl; [by rewrite app_nil_r|].
  rewrite IH. unfold add_page, table_of. fold (page_reloads p) (page_entries p). simpl.
  destruct (existsb page_reloads ps) eqn:E; [by rewrite orb_true_r|]. rewrite orb_false_r.
  destruct ps as [|q ps]; simpl; [by rewrite <- app_assoc|].
  simpl in E. apply orb_false_iff in E as [_ E]. rewrite E. simpl. by rewrite <- app_assoc.
Qed.

Lemma fetch_pages_spec to_string from_str req pages w w' :
  fetches to_string from_str req pages w w' -> forall fuel acc, length pages <= fuel ->
  fetch_pages to_string from_str fuel req acc w = Some (Ok (fold_left add_page pages acc), w').
Proof.
  induction 1 as [page w w' Hg Hz|page pages w w1 w' Hg Hz _ IH]; intros [|fuel] acc Hf;
    simpl in Hf; try lia; cbn [fetch_pages fold_left]; unfold bind; rewrite Hg.
  - by rewrite Hz.
  - destruct (N.eqb_spec (page_pending page) 0); [done|]. apply IH. lia.
Qed.

(** ** Request ids *)

(** The ids of [n] requests in a row. *)
Fixpoint take_ids (n : nat) : M (list string) :=
  match n with
  | O => ret []
  | S n => id <- next_id ;; ids <- take_ids n ;; ret (id :: ids)
  end.

Lemma take_ids_spec n w :
  (w_counter w < 2 ^ 64)%N ->
  exists w', take_ids n w =
    Some (Ok ((fun k => "RQ." +s+ dec_N ((w_counter w + N.of_nat k) mod 2 ^ 64)%N) <$> seq 0 n), w').
Proof.
  revert w. induction n as [|n IH]; intros w Hw; [by exists w|].
  cbn [take_ids]. unfold bind at 1, next_id. set (w1 := mkWorld _ _ _ _).
  destruct (IH w1) as (w' & Hw'); [simpl; apply N.mod_lt; lia|].
  exists w'. unfold bind. rewrite Hw'. unfold ret. rewrite <- cons_seq, fmap_cons, <- fmap_S_seq, <- list_fmap_compose.
  do 4 f_equal; [|apply list_fmap_ext; intros i x _; unfold compose].
  - change (N.of_nat 0) with 0%N. rewrite N.add_0_r, N.mod_small by done. done.
  - unfold w1. cbn [w_counter]. do 2 f_equal.
    rewrite N.Div0.add_mod_idemp_l. f_equal. lia.
Qed.

(** ** Properties *)

(** Whatever the server sends and however slowly, every wait for an answer
    ends: the wait for a GET, the poll loop of a SET or EXEC, and the handshake. *)
Theorem client_waits_end to_string from_str dr de dd rid req timeout w :
  wait_for_id from_str rid timeout w <> None /\
  poll_loop to_string from_str dr de dd rid req timeout w <> None /\
  handshake to_string from_str w <> None.
Proof.
  split_and!.
  - apply wait_loop_ends. unfold wait_fuel. fold (pending_bytes w). lia.
  - apply poll_loop_ends.
  - unfold handshake, bind at 1, next_id. unfold bind.
    destruct (send_command _ _ _) as [[[[]|e] w1]|] eqn:E; [|done|by apply total_send_command in E].
    apply handshake_loop_ends. unfold wait_fuel. fold (pending_bytes w1). lia.
Qed.

(** On a live stream whose frames decode, a GET is answered by the first
    response that carries its own id, and answered with that response; responses
    for other ids and notifications before it are skipped, nothing after it is
    consumed, and without such a response the wait reports its timeout and leaves
    the transport usable. *)
Theorem wait_for_id_spec from_str rid timeout ps rs w :
  poisoned (w_transport w) = false -> live (net_reads (w_net w)) -> Forall acceptable ps ->
  undelivered (w_transport w) (net_reads (w_net w)) = frames ps ->
  Forall2 (fun p x => decode_response from_str p = Ok x) ps rs ->
  (total_wait (net_reads (w_net w)) < timeout)%N ->
  exists w', wait_for_id from_str rid timeout w
    = Some (unwrap_or (find_map (get_answer rid) rs) (Err (Timeout timeout)), w') /\
    poisoned (w_transport w') = false /\
    exists ps1 ps2, ps = ps1 ++ ps2 /\
      undelivered (w_transport w') (net_reads (w_net w')) = frames ps2.
Proof.
  intros. destruct (wait_loop_live from_str rid timeout (net_now (w_net w) + timeout) ps rs (wait_fuel w) w) as (w' & Hw & Hp & Hu);
    [unfold wait_fuel; fold (pending_bytes w); lia|done..|lia|].
  exists w'. split_and!; [done..|]. exists (take (consumed rid rs) ps), (drop (consumed rid rs) ps). by rewrite take_drop.
Qed.

Definition demo_from_str (s : string) : option json :=
  if s =s "A" then Some (response_json (RData "RQ.1" (jnat 1)))
  else if s =s "B" then Some (response_json (RData "RQ.2" (jnat 2)))
  else if s =s "K" then Some (response_json (RKilled "RQ.2"))
  else None.

Definition demo_world : World :=
  mkWorld connect_transport 3
    (mkNet [(5, ReadChunk "S001AS0"); (20, ReadChunk "01KS001B"); (1, ReadChunk "S001A")]%N [] 0) [].

Lemma wait_for_id_spec_witness :
  exists w', wait_for_id demo_from_str "RQ.2" 100 demo_world = Some (Ok (jnat 2), w').
Proof.
  destruct (wait_for_id_spec demo_from_str "RQ.2" 100 ["A"; "K"; "B"; "A"]
              [RData "RQ.1" (jnat 1); RKilled "RQ.2"; RData "RQ.2" (jnat 2); RData "RQ.1" (jnat 1)]
              demo_world) as (w' & H & _).
  - reflexivity.
  - repeat constructor; repeat eexists.
  - repeat constructor; vm_compute; discriminate.
  - reflexivity.
  - repeat constructor.
  - reflexivity.
  - exists w'. exact H.
Defined.

(** The outcome of a SET or EXEC is attributed to that request whatever the
    network does: data comes with diagnostics that name the request, a failure
    that names an id names this one, and its kind is the one the diagnostics
    record. *)
Theorem poll_loop_attribution to_string from_str dr de dd rid req timeout w r w' :
  poll_loop to_string from_str dr de dd rid req timeout w = Some (r, w') ->
  own_outcome rid req r.
Proof.
  unfold poll_loop. unfold bind at 1, now at 1. intros H.
  apply bind_Some in H as [(o & w1 & _ & H)|(e & H & ->)].
  2:{ apply recv_response_plain in H. by apply own_outcome_plain. }
  assert (Hd : names_request rid req (new_diagnostics rid req)) by done.
  destruct o as [resp|]; [|by apply (poll_turns_own _ _ _ _ _ _ _ req) in H].
  unfold bind, now in H.
  destruct (terminal_outcome resp rid _ _ _) as [o d] eqn:Et.
  apply (terminal_outcome_spec _ _ req) in Et; [|done].
  destruct o as [[res|e]|]; [| |by apply (poll_turns_own _ _ _ _ _ _ _ req) in H];
    destruct Et as [Ht _]; by injection H as <- _.
Qed.

Lemma poll_loop_attribution_witness :
  own_outcome "RQ.2" "plugins.wp.start"
    (Err (CommandFailed "KILLED" "RQ.2" "killed: RQ.2"
            (Build_FramaCRequestDiagnostics "RQ.2" "plugins.wp.start" None 0 (Some 125%N)
               (Some "KILLED") (Some "killed") None))).
Proof.
  eapply (poll_loop_attribution (fun _ => "") demo_from_str (fun _ => "") (fun _ => "") (fun _ => "")
            "RQ.2" "plugins.wp.start" 1000 demo_world).
  vm_compute. reflexivity.
Defined.

(** ids do not repeat before the counter has gone through all its 2^64
    values, so a late answer is never taken for the answer to a later request. *)
Theorem request_ids_distinct n w :
  (w_counter w < 2 ^ 64)%N -> (N.of_nat n <= 2 ^ 64)%N ->
  exists ids w', take_ids n w = Some (Ok ids, w') /\ length ids = n /\ NoDup ids.
Proof.
  intros Hc Hn. destruct (take_ids_spec n w Hc) as (w' & H). eexists _, w'.
  split; [exact H|]. split; [by rewrite length_fmap, length_seq|].
  apply NoDup_fmap_2_strong; [|apply NoDup_seq].
  intros i j Hi%elem_of_seq Hj%elem_of_seq Heq. simpl in Heq. injection Heq as Heq%dec_N_inj.
  pose proof (N.div_mod (w_counter w + N.of_nat i) (2 ^ 64)).
  pose proof (N.div_mod (w_counter w + N.of_nat j) (2 ^ 64)).
  set (qi := ((w_counter w + N.of_nat i) / 2 ^ 64)%N) in *.
  set (qj := ((w_counter w + N.of_nat j) / 2 ^ 64)%N) in *.
  destruct (N.lt_trichotomy qi qj) as [|[|]]; nia.
Qed.

Lemma request_ids_distinct_witness : exists ids w', take_ids 2 demo_world = Some (Ok ids, w') /\
  length ids = 2 /\ NoDup ids.
Proof. apply (request_ids_distinct 2 demo_world); vm_compute; [reflexivity|discriminate]. Defined.

(** [fetch_all] returns the entries of the pages from the last reload on, in
    order: a page that reloads drops what was fetched before it, however many
    pages the server takes. *)
Theorem fetch_all_spec to_string from_str req pages w w' fuel :
  fetches to_string from_str req pages w w' -> length pages <= fuel ->
  fetch_all to_string from_str fuel req w = Some (Ok (table_of pages), w').
Proof.
  intros H Hf. unfold fetch_all. rewrite (fetch_pages_spec _ _ _ _ _ _ H _ _ Hf), add_pages_fold.
  by destruct (existsb _ _).
Qed.

Definition demo_table : list json :=
  [JObj [("updated", JArr [JStr "old"]); ("pending", jnat 3)];
   JObj [("reload", JBool true); ("updated", JArr [JStr "a"]); ("pending", jnat 1)];
   JObj [("updated", JArr [JStr "b"]); ("pending", jnat 0)]].

Definition demo_pages (s : string) : option json :=
  let page id i := response_json ∘ RData id <$> demo_table !! i in
  if s =s "1" then page "RQ.0" 0 else if s =s "2" then page "RQ.1" 1 else page "RQ.2" 2.

Definition pages_world : World :=
  mkWorld connect_transport 0 (mkNet [(1%N, ReadChunk "S0011S0012S0013")] [] 0) [].

Lemma fetch_all_spec_witness :
  exists w', fetch_all (fun _ => "") demo_pages 5 "kernel.ast.fetchFunctions" pages_world
    = Some (Ok [JStr "a"; JStr "b"], w').
Proof.
  eexists. apply (fetch_all_spec (fun _ => "") demo_pages "kernel.ast.fetchFunctions" demo_table).
  - eapply fetch_more; [vm_compute; reflexivity|vm_compute; discriminate|].
    eapply fetch_more; [vm_compute; reflexivity|vm_compute; discriminate|].
    eapply fetch_last; vm_compute; reflexivity.
  - simpl. lia.
Defined.
