(* ===== verification/Rows.v ===== *)
(** * Goal and property rows (src/src/mcp/server.rs)

    How a row is identified, how a property's verdict reaches the goals that
    discharge it, and how the hypotheses a goal depends on block its progress. *)

From S2P Require Import Prelude RustStr Json Status.

(** ** Identity *)

Definition wp_goal_status (goal : json) : string := unwrap_or (consolidated_status goal) "unknown".

Definition wp_goal_status_is (goal : json) (normalized : string) : bool :=
  normalize_frama_c_status (wp_goal_status goal) =s normalized.

Definition wp_goal_identity (goal : json) : option string :=
  (goal .? "wpo_id" <||> goal .? "wpo") ≫= as_str.

Definition wp_goal_counts_as_progress (goal : json) : bool :=
  unwrap_or (get_bool "counts_as_progress" goal)
    (status_counts_as_progress (normalize_frama_c_status (wp_goal_status goal))).

Definition value_marker (value : json) : option string :=
  find_map (fun field => value .? field ≫= as_str) ["key"; "property"; "prop"; "marker"; "id"].

Definition source_location (value : json) : option json :=
  opt_filter is_object (value .? "source") <||> opt_filter is_object (value .? "loc").

(** Fill a field in only where there is something to fill it with and nothing there. *)
Definition fill_str (key : string) (o : option string) (obj : jmap) : jmap :=
  match o with Some s => map_or_insert key (JStr s) obj | None => obj end.
Definition fill (key : string) (o : option json) (obj : jmap) : jmap :=
  match o with Some v => map_or_insert key v obj | None => obj end.

Definition add_identity_fields (value0 : json) : json :=
  let value := add_status_fields value0 in
  let property_marker := value_marker value in
  let wpo_id := (value .? "wpo_id" <||> value .? "wpo") ≫= as_str in
  let function_marker := get_str "scope" value in
  let kinstr_marker := get_str "kinstr" value in
  let location := source_location value in
  map_object (fun obj =>
    fill "source_location" location
      (fill_str "kinstr_marker" kinstr_marker
         (fill_str "function_marker" function_marker
            (fill_str "wpo_id" wpo_id
               (fill_str "property_marker" property_marker obj))))) value.

Abbreviation row_map := (gmap string json).

(** Later rows replace earlier ones under the same marker. *)
Definition property_status_map (properties : list json) : row_map :=
  fold_left (fun m property =>
    match value_marker property with
    | Some marker => <[marker := property]> m
    | None => m
    end) properties ∅.

Definition goal_covers_property (goal : json) (property_marker : string) : bool :=
  (value_marker goal =?s property_marker)
  || (get_str "property" goal =?s property_marker)
  || is_some_and (existsb (fun dep => as_str dep =?s property_marker)) (get_arr "deps" goal).

(** ** A second pass over the goals that timed out *)
Definition timeout_retry_report (timed_out : gset string) (retried : list json)
    (first_pass_timeout retry_timeout : N) : json :=
  let flipped := map (fun goal =>
    JObj [("wpo_id", jopt JStr (wp_goal_identity goal));
          ("name", jopt id (goal .? "name")); ("property", jopt id (goal .? "property"))])
    (bfilter (fun goal => wp_goal_status_is goal "valid"
       && is_some_and (fun id => bool_decide (id ∈ timed_out)) (wp_goal_identity goal)) retried) in
  JObj [("attempted", JBool true);
        ("timeout_seconds", JObj [("first_pass", jN first_pass_timeout); ("retry", jN retry_timeout)]);
        ("timed_out_first_pass", jnat (size timed_out));
        ("still_unproved", jnat (size timed_out - length flipped));
        ("flipped", JArr flipped)].

(** ** The verdict of a goal's property *)

(** The fields written from the property row the goal is keyed by. *)
Definition enrich_from_property (marker : string) (property : json) (obj : jmap) : jmap :=
  let raw := unwrap_or (raw_status property) "unknown" in
  let normalized := normalized_or_derived property in
  let obj := map_insert "property" (JStr marker) obj in
  let obj := map_or_insert "property_marker" (JStr marker) obj in
  let obj := map_insert "raw_property_status" (JStr raw) obj in
  let obj := map_insert "normalized_property_status" (JStr normalized) obj in
  let obj := insert_status_flags normalized obj in
  let obj := fill_str "kinstr_marker"
               ((property .? "kinstr_marker" <||> property .? "kinstr") ≫= as_str) obj in
  let obj := fill "source_location"
               (property .? "source_location" <||> source_location property) obj in
  let obj := fill "predicate" (property .? "predicate") obj in
  match property .? "origin" with
  | Some origin => map_insert "origin" origin obj
  | None => obj
  end.

Definition hypothesis_row (marker : string) (property : json) : json :=
  let normalized := normalized_or_derived property in
  JObj [("property", JStr marker);
        ("raw_status", JStr (unwrap_or (raw_status property) "unknown"));
        ("normalized_status", JStr normalized);
        ("counts_as_progress", JBool (status_counts_as_progress normalized));
        ("vacuous", JBool (status_is_vacuous normalized));
        ("requires_hypotheses", JBool (status_requires_hypotheses normalized))].

(** The known properties a goal depends on, as rows. *)
Definition dep_hypotheses (deps : list json) (properties : row_map) : list json :=
  collect_some (fun marker => hypothesis_row marker <$> properties !! marker)
    (collect_some as_str deps).

Definition row_blocks (hypothesis : json) : bool :=
  negb (unwrap_or (get_bool "counts_as_progress" hypothesis) false).

Definition HYPOTHESIS_REASON : string :=
  "The WP goal is proved only under at least one non-progress hypothesis".

Definition enrich_with_hypotheses (properties : row_map) (goal : json) : json :=
  match get_arr "deps" goal with
  | None => goal
  | Some deps =>
    let hypotheses := dep_hypotheses deps properties in
    match hypotheses with
    | [] => goal
    | _ =>
      map_object (fun obj =>
        let obj := map_insert "hypotheses" (JArr hypotheses) obj in
        if existsb row_blocks hypotheses
        then map_insert "vacuity_reason" (JStr HYPOTHESIS_REASON)
               (map_insert "requires_hypotheses" (JBool true)
                  (map_insert "counts_as_progress" (JBool false) obj))
        else obj) goal
    end
  end.

Definition enrich_goal_with_property_status (goal : json) (properties : row_map) : json :=
  let enriched :=
    match value_marker goal with
    | Some marker =>
      match properties !! marker with
      | Some property => map_object (enrich_from_property marker property) goal
      | None => goal
      end
    | None => goal
    end in
  enrich_with_hypotheses properties enriched.

(** ** Dependencies between goals *)

Definition GOAL_DEPENDENCY_REASON : string :=
  "The WP goal is proved only under at least one non-progress WP goal dependency".

Definition goal_dependency_row (dep : string) (dependency : json) : json :=
  match hypothesis_row dep dependency with
  | JObj m => JObj (("source", JStr "wp_goal") :: m)
  | v => v
  end.

Definition enrich_goal_with_goal_dependencies (goal : json) (goals : row_map) : json :=
  match get_arr "deps" goal with
  | None => goal
  | Some deps =>
    let existing := collect_some (get_str "property") (unwrap_or (get_arr "hypotheses" goal) []) in
    let found := collect_some (fun dep =>
      if bool_decide (dep ∈ existing) then None else goal_dependency_row dep <$> goals !! dep)
      (collect_some as_str deps) in
    match found with
    | [] => goal
    | _ =>
      map_object (fun obj =>
        let obj := map_or_insert "hypotheses" (JArr []) obj in
        let obj := match map_get "hypotheses" obj with
                   | Some (JArr existing) => map_insert "hypotheses" (JArr (existing ++ found)) obj
                   | _ => obj
                   end in
        if existsb row_blocks found
        then map_insert "vacuity_reason" (JStr GOAL_DEPENDENCY_REASON)
               (map_insert "vacuous" (JBool true)
                  (map_insert "requires_hypotheses" (JBool true)
                     (map_insert "counts_as_progress" (JBool false) obj)))
        else obj) goal
    end
  end.

(** ** Later instances of a property that already failed *)

Definition property_source_line (property : json) : option N :=
  property .? "source" ≫= get_u64 "line".

Definition instance_vacuity_key (property : json) : option (string * string) :=
  if get_str "kind" property =?s "instance" then
    match get_str "scope" property with
    | Some scope => Some (scope, unwrap_or (get_str "predicate" property) "")
    | None => None
    end
  else None.

(** [sort_by_key] keeps rows of one line in their order. *)
Fixpoint insert_by_line {A} (line : A -> N) (x : A) (l : list A) : list A :=
  match l with
  | [] => [x]
  | y :: l' => if (line x <=? line y)%N then x :: l else y :: insert_by_line line x l'
  end.
Fixpoint sort_by_line {A} (line : A -> N) (l : list A) : list A :=
  match l with
  | [] => []
  | x :: l => insert_by_line line x (sort_by_line line l)
  end.

Record InstanceEntry := mkEntry {
  ie_index : nat;
  ie_line : N;
  ie_key : string * string;
  ie_status : string;
}.

Fixpoint instance_entries (index : nat) (properties : list json) : list InstanceEntry :=
  match properties with
  | [] => []
  | property :: rest =>
    match property_source_line property, instance_vacuity_key property with
    | Some line, Some key =>
      mkEntry index line key (unwrap_or (get_str "normalized_status" property) "unknown")
        :: instance_entries (S index) rest
    | _, _ => instance_entries (S index) rest
    end
  end.

Definition INSTANCE_REASON : string :=
  "An earlier instance of the same property in this function did not prove; this later valid status may be under a contradictory path hypothesis".

Definition vacuous_instance (failed_line : N) (failed_marker failed_status : string) (obj : jmap) : jmap :=
  map_insert "vacuity_dependency"
    (JObj [("property", JStr failed_marker); ("status", JStr failed_status); ("line", jN failed_line)])
    (map_insert "vacuity_reason" (JStr INSTANCE_REASON)
       (map_insert "normalized_status" (JStr "valid_under_false_hypothesis")
          (map_insert "requires_hypotheses" (JBool true)
             (map_insert "counts_as_progress" (JBool false)
                (map_insert "vacuous" (JBool true) obj))))).

Abbreviation failed_map := (gmap (string * string) (N * string * string)).

Definition instance_step (acc : list json * failed_map) (e : InstanceEntry) : list json * failed_map :=
  let '(properties, first_failed) := acc in
  if negb (status_counts_as_progress (ie_status e)) then
    match first_failed !! ie_key e with
    | Some _ => acc
    | None =>
      let marker := unwrap_or (properties !! ie_index e ≫= value_marker) "" in
      (properties, <[ie_key e := (ie_line e, marker, ie_status e)]> first_failed)
    end
  else
    match first_failed !! ie_key e with
    | None => acc
    | Some (failed_line, failed_marker, failed_status) =>
      if (ie_line e <=? failed_line)%N then acc
      else (alter (map_object (vacuous_instance failed_line failed_marker failed_status))
              (ie_index e) properties, first_failed)
    end.

Definition add_ordered_instance_vacuity_warnings (properties : list json) : list json :=
  fst (fold_left instance_step
         (sort_by_line ie_line (instance_entries 0 properties)) (properties, ∅)).
