(* ===== verification/Verdicts.v ===== *)
(** * What a recorded status means (src/src/mcp/verdicts.rs)

    The predicates that judge one property or goal row, the status filters of the
    goal queries, and the rendering of a proof obligation. *)

From S2P Require Import Prelude RustStr BTree Json Status Rows.

(** ** Judging a property *)

Definition is_generated_alarm (property : json) : bool :=
  if negb (get_str "kind" property =?s "assert") then false
  else is_some_and (fun descr => contains "rte:" descr || contains "Eva:" descr)
         ((property .? "descr" <||> property .? "description") ≫= as_str).

Definition property_normalized_status (property : json) : string :=
  unwrap_or (own_status property) "".

Definition property_is_dead (property : json) : bool :=
  ends_with "_but_dead"
    (unwrap_or (get_str "normalized_property_status" property) (property_normalized_status property)).

Definition check_goal_counts_as_progress (goal : json) : bool :=
  unwrap_or (get_bool "counts_as_progress" goal) (own_status_is_proved goal).

Definition goal_is_valid_under_hypotheses (goal : json) : bool :=
  (unwrap_or (get_str "normalized_property_status" goal) (property_normalized_status goal)
     =s "valid_under_hyp")
  || is_some_and (existsb (fun hypothesis => negb (check_goal_counts_as_progress hypothesis)))
       (get_arr "hypotheses" goal).

Definition one_of (s : string) (l : list string) : bool := existsb (String.eqb s) l.

Definition alarm_is_undischarged (alarm : json) : bool :=
  is_generated_alarm alarm && negb (property_is_dead alarm)
  && one_of (property_normalized_status alarm) ["invalid"; "invalid_under_hyp"; "unknown"].

Definition goal_property_marker (goal : json) : option string :=
  (goal .? "property" <||> goal .? "property_marker") ≫= as_str.

Definition goals_for_property_all_valid (property wp_goals : json) : option bool :=
  match value_marker property with
  | None => None
  | Some marker =>
    match as_array wp_goals with
    | None => None
    | Some goals =>
      let '(covered, all_valid) :=
        fold_left (fun '(covered, all_valid) goal =>
          if goal_property_marker goal =?s marker
          then (true, all_valid && (get_str "normalized_status" goal =?s "valid"))
          else (covered, all_valid)) goals (false, true) in
      then_some covered all_valid
    end
  end.

Definition property_is_unproved_lemma (property wp_goals : json) : bool :=
  if negb (get_str "kind" property =?s "lemma") then false
  else match goals_for_property_all_valid property wp_goals with
       | Some all_valid => negb all_valid
       | None => negb (property_normalized_status property =s "valid")
       end.

Definition property_is_disproved (property wp_goals : json) : bool :=
  one_of (property_normalized_status property) ["invalid"; "invalid_under_hyp"]
  && negb (property_is_dead property)
  && match goals_for_property_all_valid property wp_goals with None => true | Some _ => false end.

Definition property_is_inconsistent (property : json) : bool :=
  property_normalized_status property =s "inconsistent".

Definition property_is_disproved_reachability (property : json) : bool :=
  (get_str "kind" property =?s "reachable")
  && one_of (property_normalized_status property) ["invalid"; "invalid_under_hyp"].

Definition property_is_assumed_valid (property : json) : bool :=
  property_normalized_status property =s "considered_valid".

Definition goal_is_vacuously_proved (goal : json) : bool :=
  unwrap_or (get_bool "vacuous" goal) false && negb (property_is_dead goal).

Definition goal_needs_failure_classification (goal : json) : bool :=
  negb (own_status_is_proved goal) || goal_is_vacuously_proved goal.

(** ** Status filters *)

Definition GOAL_STATUS_UNPROVED : string := "unproved".

Definition goal_status_matches (goal_status filter : string) : bool :=
  if eq_ignore_ascii_case filter GOAL_STATUS_UNPROVED then negb (is_proved goal_status)
  else eq_ignore_ascii_case goal_status filter.

Definition KNOWN_GOAL_STATUSES : list string :=
  ["considered_valid"; "failed"; "inconsistent"; "invalid"; "invalid_but_dead"; "invalid_under_hyp";
   "never_tried"; "noresult"; "stepout"; "timeout"; "unknown"; "unknown_but_dead"; "valid";
   "valid_but_dead"; "valid_under_false_hypothesis"; "valid_under_hyp"].

Definition present_statuses (rows : list json) : list string :=
  btree_set (collect_some (fun row => as_str row.["status"]) rows).

(** The refusal names what would have been accepted. *)
Inductive StatusFilter :=
  | FilterAccepted
  | FilterRefused (status : string) (accepted : list string).

Definition reject_unknown_status (status : string) (present : list string) : StatusFilter :=
  let matches candidate := eq_ignore_ascii_case candidate status in
  if eq_ignore_ascii_case status GOAL_STATUS_UNPROVED
     || existsb matches KNOWN_GOAL_STATUSES || existsb matches present
  then FilterAccepted
  else FilterRefused status
         (dedup (merge_sort str_le (KNOWN_GOAL_STATUSES ++ present ++ [GOAL_STATUS_UNPROVED]))).

(** ** Errors that reach the caller *)

(** The parts of an [rmcp::ErrorData] the server reads and writes. *)
Record McpError := mkMcpError {
  err_message : string;
  err_data : option json;
}.

Definition wp_timed_out (error : McpError) : bool :=
  (err_data error ≫= get_str "kind") =?s "WpTimeout".

Definition append_to_error_message (sentence : string) (error : McpError) : McpError :=
  let combined := err_message error +s+ "; " +s+ sentence in
  mkMcpError combined
    (map_object (fun data =>
       if map_contains_key "message" data then map_insert "message" (JStr combined) data else data)
     <$> err_data error).

(** ** Rendering a proof obligation *)

Definition one_line (text : string) : string := join " " (split_whitespace text).

Fixpoint repeat_str (c : ascii) (n : nat) : string :=
  match n with O => "" | S n => String c (repeat_str c n) end.

(** ["{kind:<6}"] pads to six characters. *)
Definition pad_right (width : nat) (s : string) : string :=
  s +s+ repeat_str " " (width - chars_count s).

Definition sequent_line (hypothesis : json) : string :=
  let kind := unwrap_or (as_str hypothesis.["kind"]) "have" in
  let formula := one_line (unwrap_or (as_str hypothesis.["formula"]) "") in
  let origin :=
    match as_u64 hypothesis.["loc"].["line"], as_str hypothesis.["description"] with
    | Some line, Some description => "    [line " +s+ dec_N line +s+ ", " +s+ description +s+ "]"
    | Some line, None => "    [line " +s+ dec_N line +s+ "]"
    | None, Some description => "    [" +s+ description +s+ "]"
    | None, None => ""
    end in
  "  " +s+ pad_right 6 kind +s+ formula +s+ origin.

Definition render_sequent (raw_vc_text : json) : string :=
  let hyps := map sequent_line (array_or_empty raw_vc_text.["hypotheses"]) in
  let width := fold_left (fun w line => Nat.max w (chars_count line)) hyps 0 in
  let newline := String nl "" in
  "WP terms, not source ACSL" +s+ newline
  +s+ fold_right (fun line out => line +s+ newline +s+ out)
        (repeat_str "-" (Nat.min 78 (Nat.max 24 width)) +s+ newline
         +s+ "  goal  " +s+ one_line (unwrap_or (as_str raw_vc_text.["goal"]) "(no goal reported)"))
        hyps.

(** ** Lemmas *)

Lemma one_of_true s l : one_of s l = true <-> s ∈ l.
Proof.
  unfold one_of. rewrite existsb_true. split; [intros (a & ? & ?); by bool_simpl; subst|].
  intros. exists s. split; [done|apply String.eqb_refl].
Qed.

Lemma eq_ignore_ascii_case_sym a b : eq_ignore_ascii_case a b = eq_ignore_ascii_case b a.
Proof. apply String.eqb_sym. Qed.

Lemma eq_ignore_ascii_case_refl a : eq_ignore_ascii_case a a = true.
Proof. apply String.eqb_refl. Qed.

Lemma eq_ignore_ascii_case_trans a b c :
  eq_ignore_ascii_case a b = true -> eq_ignore_ascii_case b c = true -> eq_ignore_ascii_case a c = true.
Proof. unfold eq_ignore_ascii_case. rewrite !String.eqb_eq. congruence. Qed.

(** ** What enrichment makes of a goal *)

(** The known dependencies of a goal, and whether one is a property that makes
    progress. *)
Definition dep_rows (goal : json) (properties : row_map) : list json :=
  collect_some (fun marker => properties !! marker) (collect_some as_str (unwrap_or (get_arr "deps" goal) [])).

Definition row_progresses (property : json) : bool :=
  status_counts_as_progress (normalized_or_derived property).

Lemma dep_hypotheses_blocks deps properties :
  existsb row_blocks (dep_hypotheses deps properties) =
  negb (forallb row_progresses
    (collect_some (fun marker => properties !! marker) (collect_some as_str deps))).
Proof.
  unfold dep_hypotheses. induction (collect_some as_str deps) as [|m l IH]; [done|]. simpl.
  destruct (properties !! m) as [p|]; simpl; [|done].
  rewrite IH, negb_andb. f_equal.
Qed.

Lemma dep_hypotheses_progress deps properties :
  existsb (fun h => negb (check_goal_counts_as_progress h)) (dep_hypotheses deps properties) =
  existsb row_blocks (dep_hypotheses deps properties).
Proof.
  unfold dep_hypotheses. induction (collect_some as_str deps) as [|m l IH]; [done|]. simpl.
  destruct (properties !! m) as [p|]; simpl; [|done]. rewrite IH. done.
Qed.

Lemma dep_hypotheses_nil deps properties :
  dep_hypotheses deps properties = [] ->
  collect_some (fun marker => properties !! marker) (collect_some as_str deps) = [].
Proof.
  unfold dep_hypotheses. rewrite !collect_some_nil. intros H a Ha. specialize (H a Ha).
  by destruct (properties !! a).
Qed.

(** Reading a key through the writes of [enrich_from_property] that leave it. *)
Lemma map_get_fill_str_ne k k' o m : k <> k' -> map_get k (fill_str k' o m) = map_get k m.
Proof. intros. destruct o; [by apply map_get_or_insert_ne|done]. Qed.
Lemma map_get_fill_ne k k' o m : k <> k' -> map_get k (fill k' o m) = map_get k m.
Proof. intros. destruct o; [by apply map_get_or_insert_ne|done]. Qed.

Ltac read_through :=
  repeat first
    [ rewrite map_get_insert
    | rewrite map_get_insert_ne by discriminate
    | rewrite map_get_or_insert_ne by discriminate
    | rewrite map_get_fill_str_ne by discriminate
    | rewrite map_get_fill_ne by discriminate ].

(** The fields [enrich_from_property] may write. *)
Definition ENRICHED_FIELDS : list string :=
  ["property"; "property_marker"; "raw_property_status"; "normalized_property_status";
   "counts_as_progress"; "vacuous"; "requires_hypotheses"; "kinstr_marker"; "source_location";
   "predicate"; "origin"].

Lemma enrich_from_property_get marker p m k :
  k ∉ ENRICHED_FIELDS -> map_get k (enrich_from_property marker p m) = map_get k m.
Proof.
  intros Hk. unfold ENRICHED_FIELDS in Hk. rewrite !not_elem_of_cons in Hk.
  destruct Hk as (?&?&?&?&?&?&?&?&?&?&?&_).
  unfold enrich_from_property, insert_status_flags.
  destruct (p .? "origin"); rewrite ?map_get_insert_ne, ?map_get_fill_ne, ?map_get_fill_str_ne,
    ?map_get_insert_ne, ?map_get_or_insert_ne, ?map_get_insert_ne by done; done.
Qed.

Lemma enrich_from_property_flags marker p m :
  let e := enrich_from_property marker p m in
  map_get "counts_as_progress" e = Some (JBool (row_progresses p)) /\
  map_get "normalized_property_status" e = Some (JStr (normalized_or_derived p)) /\
  map_get "vacuous" e = Some (JBool (status_is_vacuous (normalized_or_derived p))).
Proof.
  cbv zeta. unfold enrich_from_property, insert_status_flags, row_progresses.
  destruct (p .? "origin"); split_and!; read_through; done.
Qed.

Lemma get_arr_obj k m : get_arr k (JObj m) = map_get k m ≫= as_array.
Proof. done. Qed.

Definition with_hypotheses (deps : list json) (properties : row_map) (obj : jmap) : jmap :=
  let hypotheses := dep_hypotheses deps properties in
  let obj := map_insert "hypotheses" (JArr hypotheses) obj in
  if existsb row_blocks hypotheses
  then map_insert "vacuity_reason" (JStr HYPOTHESIS_REASON)
         (map_insert "requires_hypotheses" (JBool true)
            (map_insert "counts_as_progress" (JBool false) obj))
  else obj.

Lemma enrich_with_hypotheses_obj properties m :
  enrich_with_hypotheses properties (JObj m) =
  match map_get "deps" m ≫= as_array with
  | None => JObj m
  | Some deps =>
    match dep_hypotheses deps properties with
    | [] => JObj m
    | _ => JObj (with_hypotheses deps properties m)
    end
  end.
Proof.
  unfold enrich_with_hypotheses, with_hypotheses. rewrite get_arr_obj.
  destruct (map_get "deps" m ≫= as_array) as [deps|]; [|done].
  by destruct (dep_hypotheses deps properties).
Qed.

Lemma enrich_goal_obj g marker p properties :
  value_marker (JObj g) = Some marker -> properties !! marker = Some p ->
  enrich_goal_with_property_status (JObj g) properties =
  enrich_with_hypotheses properties (JObj (enrich_from_property marker p g)).
Proof. intros Hm Hp. unfold enrich_goal_with_property_status. by rewrite Hm, Hp. Qed.

(** What the enrichment of a goal with a known property leaves to be read. *)
Lemma enrich_goal_reads g marker p properties :
  value_marker (JObj g) = Some marker -> properties !! marker = Some p ->
  let deps := dep_rows (JObj g) properties in
  exists e, enrich_goal_with_property_status (JObj g) properties = JObj e /\
    map_get "counts_as_progress" e = Some (JBool (row_progresses p && forallb row_progresses deps)) /\
    map_get "normalized_property_status" e = Some (JStr (normalized_or_derived p)) /\
    (forall k, k ∈ ["normalized_status"; "raw_status"; "status"] -> map_get k e = map_get k g) /\
    (map_get "hypotheses" g = None ->
     is_some_and (existsb (fun h => negb (check_goal_counts_as_progress h)))
       (map_get "hypotheses" e ≫= as_array) = negb (forallb row_progresses deps)).
Proof.
  intros Hm Hp deps. rewrite (enrich_goal_obj _ _ _ _ Hm Hp), enrich_with_hypotheses_obj.
  destruct (enrich_from_property_flags marker p g) as (Hc & Hn & _).
  rewrite enrich_from_property_get by decide_closed.
  unfold deps, dep_rows. rewrite get_arr_obj.
  assert (Hkeep : forall k, k ∈ ["normalized_status"; "raw_status"; "status"] ->
            map_get k (enrich_from_property marker p g) = map_get k g).
  { intros k Hk. apply enrich_from_property_get.
    rewrite !elem_of_cons in Hk. destruct Hk as [->|[->|[->|Hk]]];
      [decide_closed..|by apply elem_of_nil in Hk]. }
  assert (Hh : map_get "hypotheses" (enrich_from_property marker p g) = map_get "hypotheses" g).
  { apply enrich_from_property_get. decide_closed. }
  destruct (map_get "deps" g ≫= as_array) as [ds|]; simpl unwrap_or.
  2:{ eexists. split; [done|]. rewrite Hc, andb_true_r. split_and!; [done..|].
      intros Hg. by rewrite Hh, Hg. }
  destruct (dep_hypotheses ds properties) as [|h hs] eqn:E.
  { apply dep_hypotheses_nil in E. rewrite E. eexists. split; [done|].
    rewrite Hc, andb_true_r. split_and!; [done..|]. intros Hg. by rewrite Hh, Hg. }
  clear E h hs.
  eexists. split; [done|]. unfold with_hypotheses. rewrite dep_hypotheses_blocks.
  destruct (forallb _ _) eqn:Ef; simpl negb; cbn match; split_and!; read_through; try done;
    rewrite ?Hc, ?andb_true_r, ?andb_false_r; try done.
  - intros k Hk. rewrite !elem_of_cons in Hk.
    destruct Hk as [->|[->|[->|Hk]]]; [..|by apply elem_of_nil in Hk];
      read_through; apply Hkeep; by repeat constructor.
  - intros _. simpl. by rewrite dep_hypotheses_progress, dep_hypotheses_blocks, Ef.
  - intros k Hk. rewrite !elem_of_cons in Hk.
    destruct Hk as [->|[->|[->|Hk]]]; [..|by apply elem_of_nil in Hk];
      read_through; apply Hkeep; by repeat constructor.
  - intros _. simpl. by rewrite dep_hypotheses_progress, dep_hypotheses_blocks, Ef.
Qed.

Lemma own_status_reads e g :
  (forall k, k ∈ ["normalized_status"; "raw_status"; "status"] -> map_get k e = map_get k g) ->
  own_status (JObj e) = own_status (JObj g).
Proof. intros H. unfold own_status. simpl. by rewrite !H by repeat constructor. Qed.

(** Folding over the goals under one property. *)
Lemma goals_fold_spec marker goals c a :
  fold_left (fun '(covered, all_valid) goal =>
    if goal_property_marker goal =?s marker
    then (true, all_valid && (get_str "normalized_status" goal =?s "valid"))
    else (covered, all_valid)) goals (c, a) =
  let own := bfilter (fun goal => goal_property_marker goal =?s marker) goals in
  (c || negb (bool_decide (own = [])),
   a && forallb (fun goal => get_str "normalized_status" goal =?s "valid") own).
Proof.
  revert c a. induction goals as [|g goals IH]; intros c a; simpl.
  { by rewrite orb_false_r, andb_true_r. }
  destruct (goal_property_marker g =?s marker); rewrite IH; simpl; [|done].
  by rewrite orb_true_r, andb_assoc.
Qed.

Lemma goals_for_property_own property goals marker :
  value_marker property = Some marker ->
  let own := bfilter (fun goal => goal_property_marker goal =?s marker) goals in
  goals_for_property_all_valid property (JArr goals) =
  match own with
  | [] => None
  | _ => Some (forallb (fun goal => get_str "normalized_status" goal =?s "valid") own)
  end.
Proof.
  intros Hm own. unfold goals_for_property_all_valid. rewrite Hm. simpl as_array. cbn match.
  rewrite goals_fold_spec. fold own. cbv zeta. rewrite orb_false_l, andb_true_l.
  by destruct own.
Qed.

(** ** Properties *)

(** Enriching a goal decides whether it counts as progress: its property
    must have consolidated to valid and so must every known property it depends
    on.  The goal's own verdict is left as WP gave it, and a goal held back only
    by a dependency is one [goal_is_valid_under_hypotheses] reports. *)
Theorem enriched_goal_progress g marker p properties :
  value_marker (JObj g) = Some marker -> properties !! marker = Some p ->
  map_get "hypotheses" g = None ->
  let e := enrich_goal_with_property_status (JObj g) properties in
  let deps := dep_rows (JObj g) properties in
  check_goal_counts_as_progress e = row_progresses p && forallb row_progresses deps /\
  goal_is_valid_under_hypotheses e =
    (normalized_or_derived p =s "valid_under_hyp") || negb (forallb row_progresses deps) /\
  own_status e = own_status (JObj g) /\
  (row_progresses p = true -> check_goal_counts_as_progress e = false ->
   goal_is_valid_under_hypotheses e = true).
Proof.
  intros Hm Hp Hg. cbv zeta.
  destruct (enrich_goal_reads _ _ _ _ Hm Hp) as (e & -> & Hc & Hn & Hkeep & Hh).
  assert (E1 : check_goal_counts_as_progress (JObj e) =
               row_progresses p && forallb row_progresses (dep_rows (JObj g) properties)).
  { unfold check_goal_counts_as_progress, get_bool. simpl. by rewrite Hc. }
  assert (E2 : goal_is_valid_under_hypotheses (JObj e) =
    (normalized_or_derived p =s "valid_under_hyp")
    || negb (forallb row_progresses (dep_rows (JObj g) properties))).
  { unfold goal_is_valid_under_hypotheses. rewrite get_arr_obj, Hh by done.
    unfold get_str. simpl. by rewrite Hn. }
  split_and!; [exact E1|exact E2|by apply own_status_reads|].
  intros Hr Hf. rewrite E1, Hr in Hf. simpl in Hf. by rewrite E2, Hf, orb_true_r.
Qed.

Lemma enriched_goal_progress_witness :
  check_goal_counts_as_progress
    (enrich_goal_with_property_status
       (JObj [("property", JStr "#p1"); ("status", JStr "VALID"); ("deps", JArr [JStr "#p2"])])
       (property_status_map [JObj [("key", JStr "#p1"); ("status", JStr "valid")];
                             JObj [("key", JStr "#p2"); ("status", JStr "unknown")]])) = false.
Proof.
  apply (enriched_goal_progress
    [("property", JStr "#p1"); ("status", JStr "VALID"); ("deps", JArr [JStr "#p2"])] "#p1"
    (JObj [("key", JStr "#p1"); ("status", JStr "valid")])); reflexivity.
Defined.

(** a property is covered when some goal stands for it, and discharged only
    when every goal that does is valid; one valid part never speaks for the rest. *)
Theorem goals_for_property_spec property goals marker :
  value_marker property = Some marker ->
  let own := bfilter (fun goal => goal_property_marker goal =?s marker) goals in
  goals_for_property_all_valid property (JArr goals) =
  match own with
  | [] => None
  | _ => Some (forallb (fun goal => get_str "normalized_status" goal =?s "valid") own)
  end.
Proof. apply goals_for_property_own. Qed.

Lemma goals_for_property_spec_witness :
  goals_for_property_all_valid (JObj [("key", JStr "#p1")])
    (JArr [JObj [("property", JStr "#p1"); ("normalized_status", JStr "valid")];
           JObj [("property", JStr "#p1"); ("normalized_status", JStr "timeout")]]) = Some false.
Proof.
  exact (goals_for_property_spec (JObj [("key", JStr "#p1")])
    [JObj [("property", JStr "#p1"); ("normalized_status", JStr "valid")];
     JObj [("property", JStr "#p1"); ("normalized_status", JStr "timeout")]] "#p1" eq_refl).
Defined.

(** a status filter that would match some row of the run is never refused,
    whatever its letter case; and a refusal lists, sorted and once each, every
    status the server knows and every one the run produced. *)
Theorem reject_unknown_status_spec filter rows :
  (forall row s, row ∈ rows -> as_str row.["status"] = Some s -> goal_status_matches s filter = true ->
     reject_unknown_status filter (present_statuses rows) = FilterAccepted) /\
  (forall accepted, reject_unknown_status filter (present_statuses rows) = FilterRefused filter accepted ->
     StronglySorted str_lt accepted /\
     (forall s, s ∈ accepted <-> s ∈ KNOWN_GOAL_STATUSES \/ s = GOAL_STATUS_UNPROVED \/
        exists row, row ∈ rows /\ as_str row.["status"] = Some s) /\
     forall s, s ∈ accepted -> eq_ignore_ascii_case s filter = false).
Proof.
  unfold reject_unknown_status. split.
  - intros row s Hrow Hs Hm. unfold goal_status_matches in Hm.
    destruct (eq_ignore_ascii_case filter GOAL_STATUS_UNPROVED); [done|].
    assert (existsb (fun c => eq_ignore_ascii_case c filter) (present_statuses rows) = true) as ->.
    { apply existsb_true. exists s. split; [|done]. apply elem_of_btree_set, elem_of_collect_some. eauto. }
    by rewrite orb_true_r.
  - intros accepted H.
    destruct (_ || _ || _) eqn:E; [done|]. injection H as <-. bool_simpl.
    match goal with
    | H1 : existsb _ KNOWN_GOAL_STATUSES = false, H2 : existsb _ (present_statuses rows) = false |- _ =>
      rewrite existsb_false in H1; rewrite existsb_false in H2; rename H1 into Hk; rename H2 into Hpres
    end.
    assert (Hin : forall s, s ∈ dedup (merge_sort str_le
                (KNOWN_GOAL_STATUSES ++ present_statuses rows ++ [GOAL_STATUS_UNPROVED])) <->
              s ∈ KNOWN_GOAL_STATUSES \/ s = GOAL_STATUS_UNPROVED \/ s ∈ present_statuses rows).
    { intros s. rewrite elem_of_dedup, elem_of_merge_sort, !elem_of_app, list_elem_of_singleton. tauto. }
    split_and!.
    + apply (sorted_btree_set (KNOWN_GOAL_STATUSES ++ present_statuses rows ++ [GOAL_STATUS_UNPROVED])).
    + intros s. rewrite Hin. unfold present_statuses. by rewrite elem_of_btree_set, elem_of_collect_some.
    + intros s Hs. rewrite Hin in Hs. destruct Hs as [?|[->|?]]; [auto| |auto].
      by rewrite eq_ignore_ascii_case_sym.
Qed.
