(* ===== verification/GapCodes.v ===== *)
(** * The vocabulary of gaps (src/src/mcp/checkgaps.rs)

    Every code the check tool can put in its [incomplete] array, the advice kept
    for a code, and the table of advice a payload carries.  A gap is an object with
    its code first. *)

From S2P Require Import Prelude RustStr Json.

Module incomplete_code.
Definition RTE_DISABLED : string := "RTE_DISABLED".
Definition EVA_NOT_RUN : string := "EVA_NOT_RUN".
Definition WP_NOT_RUN : string := "WP_NOT_RUN".
Definition WP_STILL_RUNNING : string := "WP_STILL_RUNNING".
Definition ALARM_NOT_VALID : string := "ALARM_NOT_VALID".
Definition GOAL_NOT_VALID : string := "GOAL_NOT_VALID".
Definition PROVER_TIMEOUT : string := "PROVER_TIMEOUT".
Definition PROPERTY_DEAD : string := "PROPERTY_DEAD".
Definition PROPERTY_VACUOUS : string := "PROPERTY_VACUOUS".
Definition PROPERTY_DISPROVED : string := "PROPERTY_DISPROVED".
Definition PROPERTY_INCONSISTENT : string := "PROPERTY_INCONSISTENT".
Definition LEMMA_NOT_PROVED : string := "LEMMA_NOT_PROVED".
Definition ASSUMED_VALID : string := "ASSUMED_VALID".
Definition ASSUMED_CALLEE_CONTRACT : string := "ASSUMED_CALLEE_CONTRACT".
Definition INDIRECT_CALL_UNRESOLVED : string := "INDIRECT_CALL_UNRESOLVED".
Definition UNCONSTRAINED_ASSIGNS : string := "UNCONSTRAINED_ASSIGNS".
Definition RESULT_UNCONSTRAINED : string := "RESULT_UNCONSTRAINED".
Definition UNPROVED_ASSUMPTION : string := "UNPROVED_ASSUMPTION".
Definition VALID_UNDER_HYP : string := "VALID_UNDER_HYP".
Definition EVA_NOT_REQUESTED : string := "EVA_NOT_REQUESTED".
Definition WP_NOT_REQUESTED : string := "WP_NOT_REQUESTED".
Definition WP_BACKEND_ANOMALY : string := "WP_BACKEND_ANOMALY".
Definition WP_MEMORY_MODEL_HYPOTHESIS : string := "WP_MEMORY_MODEL_HYPOTHESIS".
Definition WP_MEMORY_MODEL_UNCHECKED : string := "WP_MEMORY_MODEL_UNCHECKED".
Definition AST_ASM_CLOBBER : string := "AST_ASM_CLOBBER".
Definition AST_UNKNOWN_ATTRIBUTE : string := "AST_UNKNOWN_ATTRIBUTE".
Definition AST_UNCLASSIFIED_WARNING : string := "AST_UNCLASSIFIED_WARNING".
Definition AST_PARSE_DIAGNOSTICS_UNAVAILABLE : string := "AST_PARSE_DIAGNOSTICS_UNAVAILABLE".
Definition WP_VERIFICATION_SKIPPED : string := "WP_VERIFICATION_SKIPPED".
Definition WP_ANNOTATION_SKIPPED : string := "WP_ANNOTATION_SKIPPED".
Definition WP_UNSOUND_ENCODING : string := "WP_UNSOUND_ENCODING".
Definition GENERATED_CALLEE_SPEC : string := "GENERATED_CALLEE_SPEC".
Definition WP_WEAKENED_MODEL : string := "WP_WEAKENED_MODEL".
Definition SMOKE_TEST_FAILED : string := "SMOKE_TEST_FAILED".
Definition SMOKE_TEST_UNCHECKED : string := "SMOKE_TEST_UNCHECKED".
Definition RTE_REDUCED : string := "RTE_REDUCED".
Definition CHECK_NARROWED_BY_PROP : string := "CHECK_NARROWED_BY_PROP".
Definition WP_MESSAGES_TRUNCATED : string := "WP_MESSAGES_TRUNCATED".
Definition WP_GOALS_CHANGED_UNDER_CHECK : string := "WP_GOALS_CHANGED_UNDER_CHECK".
Definition REACHABILITY_PROPERTY_UNENCODED : string := "REACHABILITY_PROPERTY_UNENCODED".
Definition CONCURRENT_PROGRAM : string := "CONCURRENT_PROGRAM".
Definition COMPILE_FLAGS_DROPPED : string := "COMPILE_FLAGS_DROPPED".
Definition PINNED_PROPERTY_MISSING : string := "PINNED_PROPERTY_MISSING".
Definition PINNED_PROPERTY_NOT_PROVED : string := "PINNED_PROPERTY_NOT_PROVED".
Definition CONTRACT_DECORATIVE : string := "CONTRACT_DECORATIVE".
Definition CONTRACT_MUTANTS_UNCHECKED : string := "CONTRACT_MUTANTS_UNCHECKED".

Definition ALL : list string :=
  [RTE_DISABLED; EVA_NOT_RUN; WP_NOT_RUN;
   WP_STILL_RUNNING; ALARM_NOT_VALID; GOAL_NOT_VALID;
   PROVER_TIMEOUT; PROPERTY_DEAD; PROPERTY_VACUOUS;
   PROPERTY_DISPROVED; PROPERTY_INCONSISTENT; LEMMA_NOT_PROVED;
   ASSUMED_VALID; ASSUMED_CALLEE_CONTRACT; INDIRECT_CALL_UNRESOLVED;
   UNCONSTRAINED_ASSIGNS; RESULT_UNCONSTRAINED; UNPROVED_ASSUMPTION;
   VALID_UNDER_HYP; EVA_NOT_REQUESTED; WP_NOT_REQUESTED;
   WP_BACKEND_ANOMALY; WP_MEMORY_MODEL_HYPOTHESIS; WP_MEMORY_MODEL_UNCHECKED;
   AST_ASM_CLOBBER; AST_UNKNOWN_ATTRIBUTE; AST_UNCLASSIFIED_WARNING;
   AST_PARSE_DIAGNOSTICS_UNAVAILABLE; WP_VERIFICATION_SKIPPED; WP_ANNOTATION_SKIPPED;
   WP_UNSOUND_ENCODING; GENERATED_CALLEE_SPEC; WP_WEAKENED_MODEL;
   SMOKE_TEST_FAILED; SMOKE_TEST_UNCHECKED; RTE_REDUCED;
   CHECK_NARROWED_BY_PROP; WP_MESSAGES_TRUNCATED; WP_GOALS_CHANGED_UNDER_CHECK;
   REACHABILITY_PROPERTY_UNENCODED; CONCURRENT_PROGRAM; COMPILE_FLAGS_DROPPED;
   PINNED_PROPERTY_MISSING; PINNED_PROPERTY_NOT_PROVED; CONTRACT_DECORATIVE;
   CONTRACT_MUTANTS_UNCHECKED].
End incomplete_code.

(** The advice paragraphs, keyed by code. *)
Definition GUIDANCE : list (string * string) :=
  [
   (incomplete_code.LEMMA_NOT_PROVED,
    "An SMT prover does not do induction, so a lemma over a recursive logic function or "
    +s+ "an inductive predicate will not close by raising the timeout. First write it as a "
    +s+ "lemma function, a ghost C function whose contract is the lemma and whose loop or "
    +s+ "recursion is the induction, which inject_all_annotations takes as "
    +s+ "ghost_lemma_function: WP's loop machinery then does the step SMT cannot. Only if "
    +s+ "that cannot express it, use the Wp.induction tactic through -wp-tactic, or split "
    +s+ "the lemma into ones the prover can chain. Until one lands, WP hands this lemma to "
    +s+ "every goal in scope as a hypothesis, so any valid goal may rest on it, and a goal "
    +s+ "count that drops once a false lemma is removed is the correct outcome.");
   (incomplete_code.ASSUMED_VALID,
    "This property is recorded valid by assumption, not by proof. WP uses it as a "
    +s+ "hypothesis everywhere without ever checking it, so one false axiom proves every "
    +s+ "goal in scope. Prefer a recursive logic definition with proved lemmas and remove "
    +s+ "the axiom, but WP never checks that a recursion terminates either: give it a "
    +s+ "decreasing argument and a base case, because one that does not terminate is the "
    +s+ "same inconsistency under another name, and check lists it under "
    +s+ "assumed_definitions. If the assumption is deliberate, say so where a reader will "
    +s+ "see it, and run check with smoke: true: an inconsistent axiom set can show up there "
    +s+ "as SMOKE_TEST_FAILED, though only when a smoke goal mentions its symbols.");
   (incomplete_code.PROPERTY_DEAD,
    "EVA proved this code unreachable, so proving anything about it constrains no run. "
    +s+ "Either the guard that makes it unreachable is wrong, or the code is dead and should "
    +s+ "go. Do not strengthen the annotation: a property of unreachable code is vacuous "
    +s+ "whatever it says.");
   (incomplete_code.PROPERTY_VACUOUS,
    "Frama-C discharged this property only because the path reaching it carries a "
    +s+ "contradictory hypothesis, so the proof holds over no execution. This is not dead "
    +s+ "code: the statement is reachable, and an earlier instance of the same property in "
    +s+ "the function did not prove, which is what makes the later valid status suspect. "
    +s+ "Prove that earlier instance, or find the requires that excludes the path, before "
    +s+ "reading this one as evidence.");
   (incomplete_code.PROPERTY_INCONSISTENT,
    "Two emitters ruled opposite ways on this property, so the consolidated verdict "
    +s+ "cannot be trusted in either direction. Find the disagreement before writing any "
    +s+ "annotation that rests on it; a contract built on an inconsistent property proves "
    +s+ "nothing.");
   (incomplete_code.INDIRECT_CALL_UNRESOLVED,
    "Two annotations close this, and one alone does not. Name the callee set at the call "
    +s+ "site, as in a calls clause listing every function the pointer may hold, which stops "
    +s+ "WP assuming it can reach anything including the caller itself. Then constrain the "
    +s+ "pointer in the function's own contract, because the calls clause leaves a goal "
    +s+ "proving the pointer really holds one of those functions and nothing has said so "
    +s+ "yet. Raising the prover timeout closes neither: the open goals are unprovable "
    +s+ "rather than slow.");
   (incomplete_code.WP_MEMORY_MODEL_UNCHECKED,
    "This is not a finding about the code; it is the absence of one. The separate run "
    +s+ "that reads WP's memory-model hypotheses did not complete, so whether the proof "
    +s+ "rests on an unstated separation is unknown rather than answered. Check that the "
    +s+ "loaded sources still exist and that the memory model this run used is one the "
    +s+ "command-line Frama-C accepts, then run check again.");
   (incomplete_code.WP_MEMORY_MODEL_HYPOTHESIS,
    "WP's memory model needed these separations and assumed them; no goal in this run "
    +s+ "checks one. Put each clause into the function's own requires, which turns it into "
    +s+ "an obligation every caller has to discharge. Leave it out and the proof holds only "
    +s+ "for callers that happen to keep the locations apart, which nothing here verifies: a "
    +s+ "caller passing the address of the global the function also writes proves too, and "
    +s+ "is wrong at run time.");
   (incomplete_code.WP_VERIFICATION_SKIPPED,
    "WP refused this function outright and generated no goal for its contract, so "
    +s+ "nothing here was proved about it, whatever the goal count says. A non-natural loop "
    +s+ "is a goto back-edge or a jump into a loop: rewrite it as while, for or do-while. A "
    +s+ "recursive entry point is real recursion reached from the entry function, which "
    +s+ "needs a non-recursive wrapper.");
   (incomplete_code.WP_ANNOTATION_SKIPPED,
    "WP discarded this annotation without proving or using it, and the goals around it "
    +s+ "still report valid. A statement contract has to become a function with its own "
    +s+ "contract; a statement-level invariant has to become a loop invariant or an assert "
    +s+ "at that point.");
   (incomplete_code.WP_UNSOUND_ENCODING,
    "WP warned that its encoding of this construct can prove things that are false, and "
    +s+ "a goal reported valid under it is not evidence. For union access, do not state "
    +s+ "properties across members: use a tagged struct, or keep the union in unverified "
    +s+ "code. For a logic function declared without a definition, give it a body or an "
    +s+ "explicit reads clause, because reads nothing makes every frame property about it "
    +s+ "hold vacuously.");
   (incomplete_code.GENERATED_CALLEE_SPEC,
    "This callee has neither code nor a specification, so the kernel invented one: it "
    +s+ "terminates, never exits, and assigns only through its pointer parameters, never a "
    +s+ "global. Every caller's proof rests on that guess. Write the callee's real contract, "
    +s+ "at least assigns, terminates and exits, in the header callers include. A __builtin_ "
    +s+ "callee has no such header: load with builtin_models: true for "
    +s+ "__builtin_unreachable, __builtin_trap, clz, ctz and popcount, or force-include a "
    +s+ "header of your own that declares the builtin with a contract.");
   (incomplete_code.REACHABILITY_PROPERTY_UNENCODED,
    "This program states its property the SV-COMP way, as a call that must never be "
    +s+ "reached, and no annotation turns that call into an obligation. WP proves what is "
    +s+ "annotated, so nothing here checks the property: with the assert made false the same "
    +s+ "file still proves every goal it has. Give the error function "
    +s+ dq
    +s+ "requires \false;"
    +s+ dq
    +s+ " and the assert function "
    +s+ dq
    +s+ "requires cond != 0;"
    +s+ dq
    +s+ " over its own parameter, so every reachable call site becomes a goal, then check "
    +s+ "again.");
   (incomplete_code.CONCURRENT_PROGRAM,
    "This program starts threads, and EVA and WP both analyze it as one sequential "
    +s+ "execution. Frama-C's thread-creation stub never calls the start routine, so EVA "
    +s+ "from main does not analyze the thread bodies at all, and neither analysis sees "
    +s+ "another thread write a shared location between two statements. Run "
    +s+ "analyze_concurrency for race and deadlock candidates, protect or rule out each one, "
    +s+ "and report this result as holding for each thread run alone.");
   (incomplete_code.COMPILE_FLAGS_DROPPED,
    "The compilation database builds this code with flags Frama-C does not import, so "
    +s+ "the analyzed program is not the compiled one. Map each flag to what this server can "
    +s+ "set: char signedness, data model, ABI and layout flags to a machdep that matches "
    +s+ "the build (gcc_x86_32 for -m32, or a YAML machdep with char_is_unsigned for "
    +s+ "-funsigned-char); for -fwrapv or -fno-strict-overflow, the signed-overflow goals "
    +s+ "RTE reports are about behavior the build defines, so judge them as intended "
    +s+ "wraparound rather than bugs.");
   (incomplete_code.PINNED_PROPERTY_MISSING,
    "A property the caller pinned is no longer in the program in the form it was pinned. "
    +s+ "If it was edited, weakened or deleted, put it back as written: the pin is the "
    +s+ "statement of what was asked for, and everything else is scaffolding. If only its "
    +s+ "spelling changed, pin the new spelling deliberately.");
   (incomplete_code.PINNED_PROPERTY_NOT_PROVED,
    "A pinned property is present and not proved. Work on the scaffolding around it, the "
    +s+ "requires, the loop invariants and the callee contracts, and leave the property "
    +s+ "itself alone.");
   (incomplete_code.CONTRACT_DECORATIVE,
    "A stub body proves every postcondition of this contract, so proving the real body "
    +s+ "says nothing the stub does not. Strengthen the ensures until the stub named here "
    +s+ "fails it: relate \result to the inputs, and state what changes in every location "
    +s+ "the function assigns.");
   (incomplete_code.WP_WEAKENED_MODEL,
    "This run used a WP model selector that departs from C semantics, so a goal proved "
    +s+ "here may be false for the compiled program. +cast allows unsafe pointer casts, +nat "
    +s+ "treats machine integers as unbounded, and +real treats floating point as exact "
    +s+ "reals. Prove under the default Typed+nocast, or report the result as holding only "
    +s+ "under the named selectors.");
   (incomplete_code.SMOKE_TEST_FAILED,
    "WP proved a smoke goal, so something in scope is unreachable or contradictory and "
    +s+ "the goals around it prove for the wrong reason. by_kind says which, read off WP's "
    +s+ "report because the console shortens the goal name: contract_vacuous means no state "
    +s+ "satisfies the precondition, so every theorem about the function is vacuous; "
    +s+ "unreachable_code means a statement, loop body or call no execution reaches, and the "
    +s+ "theorem may still stand. Fix the specification or the code, never the smoke test.");
   (incomplete_code.RTE_REDUCED,
    "This load checked runtime errors without unsigned wraparound and narrowing, because "
    +s+ "it was loaded with rte_unsigned: false. That is right for code whose idioms wrap by "
    +s+ "design, such as a countdown loop over an unsigned counter or a byte read through a "
    +s+ "char conversion, and nothing else catches a real unsigned bug there. Say which "
    +s+ "idiom forced it where the result is reported, and load without it everywhere else.");
   (incomplete_code.WP_GOALS_CHANGED_UNDER_CHECK,
    "The goal table changed between this check's proof run and the read of its goals, so "
    +s+ "the goals reported are not the ones the run produced. Another call on the same "
    +s+ "session reloaded the project or ran WP in that window. Nothing here describes one "
    +s+ "run, so no part of it is evidence; run check again on a quiet session.");
   (incomplete_code.WP_MESSAGES_TRUNCATED,
    "The analyzer's message stream could not be read to the end, and four of the gates "
    +s+ "above are derived from it alone: a skipped function, a dropped annotation, an "
    +s+ "unsound encoding and an invented callee contract are all reported by message and by "
    +s+ "nothing else. So this run cannot tell a clean message stream from one it failed to "
    +s+ "read, and the goals it did prove stand only as far as that. Run check again; if it "
    +s+ "repeats, the analyzer is not answering and nothing here is evidence.");
   (incomplete_code.CHECK_NARROWED_BY_PROP,
    "This check ran WP under a prop filter, so it proved the selected properties and "
    +s+ "never attempted the rest. It is not a verdict about the function or the file, "
    +s+ "whatever the goals it did prove came back as, and it cannot be proved for that "
    +s+ "reason alone. Use it to iterate on one property, then run check without prop before "
    +s+ "believing anything about the whole.");
   (incomplete_code.SMOKE_TEST_UNCHECKED,
    "Smoke tests were requested and did not run, so whether the specification is vacuous "
    +s+ "is unknown rather than answered. The entry's reason says why; run check again once "
    +s+ "it is resolved.")
  ].

Definition CHECK_SCHEMA : string := "frama-c-mcp.check.v2".

Fixpoint assoc {A} (k : string) (l : list (string * A)) : option A :=
  match l with
  | [] => None
  | (k', a) :: l => if k =s k' then Some a else assoc k l
  end.

Definition gap_guidance (code : string) : json := jopt JStr (assoc code GUIDANCE).

(** An [incomplete] entry: [json!] with the code first. *)
Definition gap (code : string) (fields : jmap) : json := JObj (("code", JStr code) :: fields).

Definition gap_code (entry : json) : option string := get_str "code" entry.

(** The guidance gathered so far, after one more entry. *)
Definition add_guidance (guidance : jmap) (entry : json) : jmap :=
  match gap_code entry with
  | None => guidance
  | Some code =>
    if map_contains_key code guidance then guidance
    else let text := gap_guidance code in
         if is_null text then guidance else map_insert code text guidance
  end.

Definition incomplete_guidance (incomplete : list json) : json :=
  JObj (fold_left add_guidance incomplete []).

(** ** Lemmas *)

Lemma gap_code_gap code fields : gap_code (gap code fields) = Some code.
Proof. done. Qed.
#[export] Hint Rewrite gap_code_gap : fc.

Lemma map_contains_key_Some k m : map_contains_key k m = true <-> exists v, map_get k m = Some v.
Proof.
  unfold map_contains_key. destruct (map_get k m) as [v|]; split; try done.
  - intros _. by exists v.
  - by intros [v Hv].
Qed.

Lemma map_insert_keys k v m : map_get k m = None -> (map_insert k v m).*1 = m.*1 ++ [k].
Proof.
  induction m as [|[k' v'] m IH]; csimpl; [done|].
  destruct (k =s k'); csimpl; [done|]. intros H. by rewrite IH.
Qed.

(** The invariant of the fold: one entry per code, holding that code's advice. *)
Lemma add_guidance_spec entries g k :
  (forall c v, map_get c g = Some v -> v = gap_guidance c /\ is_null v = false) ->
  map_get k (fold_left add_guidance entries g) =
  match map_get k g with
  | Some v => Some v
  | None => if existsb (fun e => gap_code e =?s k) entries && negb (is_null (gap_guidance k))
            then Some (gap_guidance k) else None
  end.
Proof.
  revert g. induction entries as [|e es IH]; intros g Hg; simpl; [by destruct (map_get k g)|].
  assert (Hadd : forall c v, map_get c (add_guidance g e) = Some v ->
            v = gap_guidance c /\ is_null v = false).
  { intros c v. unfold add_guidance. destruct (gap_code e) as [c0|]; [|apply Hg].
    destruct (map_contains_key c0 g); [apply Hg|].
    destruct (is_null (gap_guidance c0)) eqn:En; [apply Hg|].
    destruct (decide (c = c0)) as [->|Hne].
    - rewrite map_get_insert. by intros [= <-].
    - rewrite map_get_insert_ne by done. apply Hg. }
  rewrite IH by done. clear IH Hadd.
  unfold add_guidance. destruct (gap_code e) as [c0|]; simpl; [|done].
  destruct (c0 =s k) eqn:E; bool_simpl; subst; simpl.
  - destruct (map_get k g) eqn:Ek; [unfold map_contains_key; rewrite Ek; simpl; by rewrite Ek|].
    unfold map_contains_key. rewrite Ek.
    destruct (is_null (gap_guidance k)) eqn:En; [rewrite Ek; by rewrite andb_false_r|].
    by rewrite map_get_insert.
  - destruct (map_contains_key c0 g); [done|]. destruct (is_null _); [done|].
    by rewrite map_get_insert_ne by done.
Qed.

Lemma add_guidance_keys entries g :
  NoDup g.*1 -> NoDup (fold_left add_guidance entries g).*1.
Proof.
  revert g. induction entries as [|e es IH]; intros g Hg; simpl; [done|]. apply IH.
  unfold add_guidance. destruct (gap_code e) as [c|]; [|done].
  destruct (map_contains_key c g) eqn:E; [done|]. destruct (is_null _); [done|].
  assert (Hc : map_get c g = None).
  { destruct (map_get c g) eqn:Ec; [|done].
    by rewrite (proj2 (map_contains_key_Some c g)) in E by eauto. }
  rewrite map_insert_keys by done. apply NoDup_app. split_and!; [done| |apply NoDup_singleton].
  intros x Hx ->%list_elem_of_singleton. by apply map_get_None_keys in Hc.
Qed.

(** ** Properties *)

(** the guidance of a payload has, for each code some entry carries, exactly
    the paragraph [gap_guidance] has for it, once; and nothing for a code no entry
    carries or no paragraph is kept for. *)
Theorem incomplete_guidance_spec incomplete :
  exists g, incomplete_guidance incomplete = JObj g /\ NoDup g.*1 /\
    forall code, map_get code g =
      if existsb (fun e => gap_code e =?s code) incomplete && negb (is_null (gap_guidance code))
      then Some (gap_guidance code) else None.
Proof.
  eexists. split; [done|]. split; [apply add_guidance_keys; constructor|].
  intros code. by rewrite add_guidance_spec.
Qed.

(** The published list holds each code once, and advice is kept for codes of the
    list only, at most one paragraph each. *)
Lemma vocabulary_closed :
  NoDup incomplete_code.ALL /\ NoDup GUIDANCE.*1 /\ GUIDANCE.*1 ⊆ incomplete_code.ALL.
Proof. split_and!; decide_closed. Qed.
