(* ===== verification/Gaps.v ===== *)
(** * What a check leaves open (src/src/mcp/checkgaps.rs)

    A check run ends in an array of gaps, and its verdict is that the array is
    empty.  Each producer below reads one part of the payload and returns the gaps
    it pushes; [check_incomplete_items] runs them in the order the server does.
    The rendering of a value or of a quoted string into a message is the section's
    [to_string] and [debug_str]. *)

From S2P Require Import Prelude RustStr Json Status Rows Verdicts GapCodes.
Import incomplete_code.

(** [finding.get(k).cloned().unwrap_or(default)]. *)
Definition field_or (k : string) (v default : json) : json := unwrap_or (v .? k) default.

(** ** What the caller asked for *)

Inductive CheckAnalysis := Eva | Wp.
#[export] Instance CheckAnalysis_eq_dec : EqDecision CheckAnalysis.
Proof. solve_decision. Defined.

Record WantedAnalyses := mkWanted { want_eva : bool; want_wp : bool }.

Definition BOTH : WantedAnalyses := mkWanted true true.

Definition from_want (want : option (list CheckAnalysis)) : WantedAnalyses :=
  match want with
  | None | Some [] => BOTH
  | Some wants => mkWanted (bool_decide (Eva ∈ wants)) (bool_decide (Wp ∈ wants))
  end.

Definition unrequested_analysis_gaps (rte : option bool) (wp : json) (wanted : WantedAnalyses) : list json :=
  (if negb (want_eva wanted)
   then [gap EVA_NOT_REQUESTED
          [("reason", JStr "check did not run EVA, so nothing here excludes the alarms it finds.")]]
   else [])
  ++ (if negb (want_wp wanted)
      then [gap WP_NOT_REQUESTED [("reason", JStr "check did not run WP, so nothing here is a proof.")]]
      else [])
  ++ (if opt_eqb Bool.eqb rte (Some false) then
        let wp_covered_runtime_errors :=
          want_wp wanted
          && opt_eqb Bool.eqb (pointer ["effective_wp_config"; "rte"] wp ≫= as_bool) (Some true) in
        [gap RTE_DISABLED
          [("reason", JStr (if wp_covered_runtime_errors
             then "check loaded without RTE annotations, so EVA's alarms exclude implicit runtime-error checks. WP generated its own RTE obligations in place for this run, so the goals do cover them."
             else "check ran without RTE annotations, so absence of alarms/goals excludes implicit runtime-error checks."))]]
      else []).

(** ** Steps that failed or had not finished *)

(** analysis.rs: a step that answered null, or ["ok": false]. *)
Definition check_step_failed (value : json) : bool :=
  is_null value || is_some_and negb (get_bool "ok" value).

Definition eva_unfinished_state (eva : json) : option string :=
  opt_filter (fun state => negb (state =s "computed")) (get_str "computation_state" eva).

Section rendering.
Variable to_string : json -> string.
Variable debug_str : string -> string.

Definition assumed_definitions (recursive_logic : json + string) : json :=
  let reason := "WP assumes each recursive logic definition below as an axiom without checking that it terminates; one that does not makes every goal in scope provable. Each needs a decreasing argument and a base case it reaches." in
  match recursive_logic with
  | inl answer =>
    match get_arr "definitions" answer with
    | Some definitions =>
      JObj [("ran", JBool true); ("recursive_logic", JArr definitions);
            ("reason", match definitions with [] => JNull | _ => JStr reason end)]
    | None =>
      JObj [("ran", JBool false); ("recursive_logic", JArr []);
            ("reason", JStr ("the plug-in answered without a definitions list: " +s+ to_string answer))]
    end
  | inr error =>
    JObj [("ran", JBool false); ("recursive_logic", JArr []); ("reason", JStr error)]
  end.

Definition step_failure_gaps (reload eva eva_alarms wp wp_goals : json) (wanted : WantedAnalyses)
    : list json :=
  let unfinished := eva_unfinished_state eva in
  (if want_eva wanted
      && (check_step_failed reload || check_step_failed eva || check_step_failed eva_alarms
          || match unfinished with Some _ => true | None => false end)
   then
     let error := eva .? "error" <||> eva_alarms .? "error" <||> reload .? "error"
       <||> ((fun state => JStr ("EVA computation state is " +s+ debug_str state +s+ ", not "
                                 +s+ dq +s+ "computed" +s+ dq)) <$> unfinished) in
     [gap EVA_NOT_RUN
       [("reason", JStr "EVA did not complete, so eva_alarms is not proof of no alarms.");
        ("error", unwrap_or error JNull)]]
   else [])
  ++ (if want_wp wanted then
        if check_step_failed reload || check_step_failed wp || check_step_failed wp_goals then
          [gap WP_NOT_RUN
            [("reason", JStr "WP did not complete, so wp_goals is not proof of no goals.");
             ("error", unwrap_or (wp .? "error" <||> wp_goals .? "error" <||> reload .? "error") JNull)]]
        else if negb (opt_eqb Bool.eqb (get_bool "drained" wp) (Some true)) then
          [gap WP_STILL_RUNNING
            [("reason", JStr "WP was still working when its goals were read, so wp_goals may be missing goals entirely.");
             ("todo", field "todo" wp); ("active", field "active" wp)]]
        else []
      else []).

End rendering.

(** ** Rows of the property table *)

(** The code and reason of one property row; the first test that holds decides. *)
Definition property_row_code (alarm wp_goals : json) : option (string * string) :=
  if property_is_inconsistent alarm then
    Some (PROPERTY_INCONSISTENT, "Frama-C consolidated contradictory statuses for this property, so the verdict cannot be trusted in either direction.")
  else if alarm_is_undischarged alarm then
    Some (ALARM_NOT_VALID, "EVA reported a runtime-error alarm it could not discharge.")
  else if property_is_disproved_reachability alarm then
    Some (PROPERTY_DEAD, "EVA proved this code unreachable, so nothing proved about it constrains a run.")
  else if property_is_unproved_lemma alarm wp_goals then
    Some (LEMMA_NOT_PROVED, "WP assumes every lemma while discharging other goals, so an undischarged one makes the proofs around it worthless.")
  else if property_is_disproved alarm wp_goals then
    Some (PROPERTY_DISPROVED, "Frama-C disproved this property, and WP emits no goal for a property that already carries a status, so nothing downstream reports it.")
  else if property_is_assumed_valid alarm then
    Some (ASSUMED_VALID, "Frama-C recorded this property as valid by external assumption rather than by proof. WP uses it as a hypothesis everywhere without ever checking it.")
  else None.

Definition property_row_gap (alarm : json) (code_reason : string * string) : json :=
  gap code_reason.1
    [("reason", JStr code_reason.2);
     ("property", jopt JStr (value_marker alarm));
     ("descr", field "descr" alarm);
     ("source_location", field "source_location" alarm);
     ("status", JStr (property_normalized_status alarm))].

Definition property_row_gaps (eva_alarms wp_goals : json) : list json :=
  collect_some (fun alarm => property_row_gap alarm <$> property_row_code alarm wp_goals)
    (array_or_empty eva_alarms).

(** ** WP's own goals *)

(** The fields every goal gap carries. *)
Definition goal_fields (goal : json) (reason status : string) : jmap :=
  [("reason", JStr reason);
   ("stable_goal_id", field "stable_goal_id" goal);
   ("frama_c_goal_name", field "frama_c_goal_name" goal);
   ("goal_kind", field "goal_kind" goal);
   ("normalized_status", JStr status)].

Definition proved_goal_gap (goal : json) (status : string) : option json :=
  if property_is_dead goal then
    Some (gap PROPERTY_DEAD
      (goal_fields goal "WP proved this goal, but its property sits in code EVA proved unreachable." status
       ++ [("property_status", field "normalized_property_status" goal)]))
  else if status_is_vacuous
            (unwrap_or (get_str "normalized_property_status" goal) (property_normalized_status goal)) then
    Some (gap PROPERTY_VACUOUS
      (goal_fields goal "WP proved this goal, but Frama-C discharged its property only under a hypothesis that cannot hold, so the proof holds over no execution." status
       ++ [("property_status", field "normalized_property_status" goal);
           ("vacuity_reason", field "vacuity_reason" goal);
           ("vacuity_dependency", field "vacuity_dependency" goal)]))
  else if goal_is_valid_under_hypotheses goal then
    Some (gap VALID_UNDER_HYP
      (goal_fields goal "WP proved this goal, but Frama-C consolidated its property as valid only under hypotheses that are not themselves established." status
       ++ [("property_status", field "normalized_property_status" goal);
           ("hypotheses", field "hypotheses" goal)]))
  else None.

Definition lemma_markers (eva_alarms : json) : list string :=
  collect_some value_marker
    (bfilter (fun alarm => get_str "kind" alarm =?s "lemma") (array_or_empty eva_alarms)).

(** A goal the loop passes over: it makes progress, or a lemma row speaks for it. *)
Definition goal_skipped (eva_alarms goal : json) : bool :=
  check_goal_counts_as_progress goal
  || is_some_and (fun marker => bool_decide (marker ∈ lemma_markers eva_alarms))
       (goal_property_marker goal).

Definition open_goal_gaps (goal : json) : list json :=
  let status := unwrap_or (own_status goal) "unknown" in
  if is_proved status then
    match proved_goal_gap goal status with Some g => [g] | None => [] end
  else
    gap GOAL_NOT_VALID (goal_fields goal "WP has a non-valid goal." status)
    :: (if eq_ignore_ascii_case status "timeout"
        then [gap PROVER_TIMEOUT (goal_fields goal "A WP prover timed out on this goal." status)]
        else []).

(** The gaps of the goals, and the goals judged, by WP's obligation id. *)
Definition wp_goal_gaps (eva_alarms wp_goals : json) : list json * row_map :=
  let judged := bfilter (fun goal => negb (goal_skipped eva_alarms goal)) (array_or_empty wp_goals) in
  (flat_map open_goal_gaps judged,
   fold_left (fun m goal =>
     match wp_goal_identity goal with Some wpo => <[wpo := goal]> m | None => m end) judged ∅).

(** ** Findings of the proofread pass *)

Definition proofread_finding_gap (judged_goals : row_map) (finding : json) : option json :=
  let category := get_str "category" finding in
  if category =?s "unproved_assumption" then
    match get_str "wpo" finding ≫= (fun wpo => judged_goals !! wpo) with
    | None => None
    | Some judged =>
      Some (gap UNPROVED_ASSUMPTION
        [("reason", field_or "why_problem" finding (JStr "WP assumes an unproved assertion or postcondition, so a goal reported valid may rest on it."));
         ("function", field "function" finding);
         ("stable_goal_id", field "stable_goal_id" judged);
         ("frama_c_goal_name", field "trigger" finding);
         ("goal_kind", field "clause_or_goal_kind" finding)])
    end
  else if category =?s "result_unconstrained" then
    Some (gap RESULT_UNCONSTRAINED
      [("reason", field_or "message" finding (JStr "The contract bounds the result without determining it."));
       ("function", field "function" finding);
       ("result_range", field "result_range" finding);
       ("undetermined_results", field "undetermined_results" finding)])
  else if category =?s "unconstrained_assigns" then
    Some (gap UNCONSTRAINED_ASSIGNS
      [("reason", field_or "message" finding (JStr "The contract assigns a location no postcondition constrains."));
       ("function", field "function" finding);
       ("assigns_target", field "assigns_target" finding)])
  else if category =?s "unresolved_call" then
    Some (gap INDIRECT_CALL_UNRESOLVED
      [("reason", field_or "message" finding (JStr "A call names no callee, so WP assumed it could reach any function."));
       ("function", field "function" finding);
       ("callee_expression", field "callee_expression" finding);
       ("stmt_id", field "stmt_id" finding);
       ("source_location", field "source_location" finding);
       ("reports", JStr "the call shape, not whether a calls clause is present")])
  else if negb (category =?s "assumed_callee_contract") then None
  else
    Some (gap ASSUMED_CALLEE_CONTRACT
      [("reason", field_or "message" finding (JStr "WP relied on a direct callee contract with no finite assigns clause."));
       ("function", field "function" finding);
       ("callee", field "callee" finding);
       ("source_location", field "source_location" finding)]).

Definition proofread_finding_gaps (wp : json) (judged_goals : row_map) : list json :=
  collect_some (proofread_finding_gap judged_goals)
    (unwrap_or (wp .? "proofread_report" ≫= get_arr "findings") []).

(** ** The parse of the loaded files *)

Definition AST_WARNING_ALLOWLIST : list (string * string) := [].

Definition ASM_CLOBBER : string := "kernel:asm:clobber".
Definition ATTRS_UNKNOWN : string := "kernel:attrs:unknown".

Definition ast_soundness_reason (category : string) : option (string * string) :=
  if category =s ASM_CLOBBER then
    Some (AST_ASM_CLOBBER, "Frama-C assumed inline assembly has no effects beyond its operands, so the analyzed statement is weaker than the compiled one.")
  else if category =s ATTRS_UNKNOWN then
    Some (AST_UNKNOWN_ATTRIBUTE, "Frama-C ignored an unknown attribute, so the analyzed declaration differs from the source.")
  else None.

Definition record_counts (record : json) : bool :=
  negb (unwrap_or (as_u64 record.["count"]) 0 =? 0)%N.

Definition ast_category_gap (category : string) (record : json) (code_reason : string * string) : json :=
  gap code_reason.1
    [("reason", JStr code_reason.2); ("category", JStr category);
     ("count", record.["count"]); ("count_unit", record.["count_unit"]);
     ("locations", record.["locations"]); ("locations_omitted", record.["locations_omitted"])].

(** The classified categories, one gap each. *)
Definition ast_classified_gaps (categories : jmap) : list json :=
  collect_some (fun '(category, record) =>
    if record_counts record then ast_category_gap category record <$> ast_soundness_reason category
    else None) categories.

(** The others that no row of the allowlist speaks for. *)
Definition ast_unclassified (categories : jmap) (allowlist : list (string * string)) : jmap :=
  bfilter (fun '(category, record) =>
    record_counts record
    && match ast_soundness_reason category with Some _ => false | None => true end
    && negb (existsb (fun row => row.1 =s category) allowlist)) categories.

Definition ast_diagnostic_gaps (reload : json) (allowlist : list (string * string)) : list json :=
  let diagnostics := reload.["ast_reload_health"].["parse_diagnostics"] in
  match as_str diagnostics.["unavailable"] with
  | Some reason =>
    [gap AST_PARSE_DIAGNOSTICS_UNAVAILABLE
      [("reason", JStr "This server has no record of what Frama-C's front end dropped while parsing, so nothing here says the analyzed program is the compiled one.");
       ("detail", JStr reason)]]
  | None =>
    match as_object diagnostics.["categories"] with
    | None => []
    | Some categories =>
      ast_classified_gaps categories
      ++ match ast_unclassified categories allowlist with
         | [] => []
         | unclassified =>
           [gap AST_UNCLASSIFIED_WARNING
             [("reason", JStr "Frama-C emitted parse warnings in categories this server has not classified, so their effect on the analyzed program is unknown.");
              ("categories", JObj unclassified)]]
         end
    end
  end.

Definition compile_flags_dropped_gap (reload : json) : option json :=
  match opt_filter (fun flags => negb (match flags with [] => true | _ => false end)
                                 && negb (map_contains_key "unreadable" flags))
          (reload .? "compilation_database_dropped_flags" ≫= as_object) with
  | None => None
  | Some dropped =>
    Some (gap COMPILE_FLAGS_DROPPED
      [("reason", JStr "The compilation database builds with flags that change what the program means, and Frama-C drops them on import, so the analyzed program differs from the compiled one.");
       ("flags", JObj dropped)])
  end.

(** ** The array itself *)
Definition check_incomplete_items (debug_str : string -> string) (rte : option bool)
    (reload eva eva_alarms wp wp_goals : json) (wanted : WantedAnalyses) : list json :=
  let goal_gaps := wp_goal_gaps eva_alarms wp_goals in
  ast_diagnostic_gaps reload AST_WARNING_ALLOWLIST
  ++ option_list (compile_flags_dropped_gap reload)
  ++ unrequested_analysis_gaps rte wp wanted
  ++ step_failure_gaps debug_str reload eva eva_alarms wp wp_goals wanted
  ++ property_row_gaps eva_alarms wp_goals
  ++ goal_gaps.1
  ++ proofread_finding_gaps wp goal_gaps.2.

(** ** Lemmas: when a producer stays silent *)

Lemma app_nil_iff {A} (l k : list A) : l ++ k = [] <-> l = [] /\ k = [].
Proof. split; [apply app_eq_nil|by intros [-> ->]]. Qed.

Lemma opt_eqb_bool_true (o : option bool) b : opt_eqb Bool.eqb o (Some b) = true <-> o = Some b.
Proof. destruct o as [[]|], b; simpl; split; done. Qed.

Lemma is_some_and_negb_false (o : option bool) : is_some_and negb o = false <-> o <> Some false.
Proof. destruct o as [[]|]; simpl; split; done. Qed.

Lemma existsb_negb_false {A} (f : A -> bool) l :
  existsb (fun a => negb (f a)) l = false <-> forallb f l = true.
Proof.
  rewrite existsb_false, forallb_true. split; intros H a Ha; specialize (H a Ha);
    [by apply negb_false_iff in H|by rewrite H].
Qed.

Lemma unrequested_analysis_gaps_nil rte wp wanted :
  unrequested_analysis_gaps rte wp wanted = [] <->
  want_eva wanted = true /\ want_wp wanted = true /\ rte <> Some false.
Proof.
  unfold unrequested_analysis_gaps. rewrite !app_nil_iff.
  destruct (want_eva wanted), (want_wp wanted); simpl;
    destruct rte as [[]|]; simpl; split; intros H; repeat split; try done; by destruct H as (? & ? & ?).
Qed.

Lemma step_failure_gaps_nil ds reload eva eva_alarms wp wp_goals wanted :
  want_eva wanted = true -> want_wp wanted = true ->
  step_failure_gaps ds reload eva eva_alarms wp wp_goals wanted = [] <->
  Forall (fun v => check_step_failed v = false) [reload; eva; eva_alarms; wp; wp_goals] /\
  eva_unfinished_state eva = None /\ get_bool "drained" wp = Some true.
Proof.
  intros He Hw. unfold step_failure_gaps. rewrite He, Hw, app_nil_iff, andb_true_l.
  rewrite !Forall_cons, Forall_nil.
  destruct (check_step_failed reload), (check_step_failed eva), (check_step_failed eva_alarms),
    (check_step_failed wp), (check_step_failed wp_goals), (eva_unfinished_state eva); simpl;
    try (split; [by intros [??]|by intros ((? & ? & ? & ? & ? & ?) & ? & ?)]).
  destruct (opt_eqb Bool.eqb (get_bool "drained" wp) (Some true)) eqn:E; simpl.
  - apply opt_eqb_bool_true in E. by split.
  - split; [by intros []|]. intros (_ & _ & H). apply opt_eqb_bool_true in H. congruence.
Qed.

Lemma property_row_code_None alarm wp_goals :
  property_row_code alarm wp_goals = None <->
  property_is_inconsistent alarm = false /\ alarm_is_undischarged alarm = false /\
  property_is_disproved_reachability alarm = false /\
  property_is_unproved_lemma alarm wp_goals = false /\
  property_is_disproved alarm wp_goals = false /\ property_is_assumed_valid alarm = false.
Proof.
  unfold property_row_code.
  destruct (property_is_inconsistent alarm), (alarm_is_undischarged alarm),
    (property_is_disproved_reachability alarm), (property_is_unproved_lemma alarm wp_goals),
    (property_is_disproved alarm wp_goals), (property_is_assumed_valid alarm);
    split; intros H; try done; by destruct H as (? & ? & ? & ? & ? & ?).
Qed.

Lemma property_row_gaps_nil eva_alarms wp_goals :
  property_row_gaps eva_alarms wp_goals = [] <->
  forall alarm, alarm ∈ array_or_empty eva_alarms -> property_row_code alarm wp_goals = None.
Proof.
  unfold property_row_gaps. rewrite collect_some_nil.
  split; intros H a Ha; specialize (H a Ha); destruct (property_row_code a wp_goals); done.
Qed.

(** What a proved goal has to be for [proved_goal_gap] to say nothing. *)
Definition proof_stands (goal : json) : Prop :=
  property_is_dead goal = false /\
  status_is_vacuous (unwrap_or (get_str "normalized_property_status" goal)
                       (property_normalized_status goal)) = false /\
  goal_is_valid_under_hypotheses goal = false.

Lemma proved_goal_gap_None goal status : proved_goal_gap goal status = None <-> proof_stands goal.
Proof.
  unfold proved_goal_gap, proof_stands. destruct (property_is_dead goal); [by split; [|intros []]|].
  destruct (status_is_vacuous _); [by split; [|intros (? & ? & ?)]|].
  destruct (goal_is_valid_under_hypotheses goal); by split; [|intros (? & ? & ?)].
Qed.

Lemma open_goal_gaps_nil goal :
  open_goal_gaps goal = [] <-> own_status_is_proved goal = true /\ proof_stands goal.
Proof.
  unfold open_goal_gaps, own_status_is_proved.
  assert (Hu : is_proved "unknown" = false) by done.
  destruct (own_status goal) as [s|]; simpl unwrap_or; simpl is_some_and.
  - destruct (is_proved s); [|by split; [|intros []]].
    rewrite <- (proved_goal_gap_None goal s). destruct (proved_goal_gap goal s); split; try done;
      by intros [].
  - rewrite Hu. by split; [|intros []].
Qed.

Lemma flat_map_nil {A B} (f : A -> list B) l : flat_map f l = [] <-> forall a, a ∈ l -> f a = [].
Proof.
  induction l as [|a l IH]; simpl; [split; [intros _ a Ha; by apply elem_of_nil in Ha|done]|].
  rewrite app_nil_iff, IH. split.
  - intros [H1 H2] b [->|Hb]%elem_of_cons; auto.
  - intros H. split; [apply H; left|intros b Hb; apply H; by right].
Qed.

Lemma wp_goal_gaps_nil eva_alarms wp_goals :
  (wp_goal_gaps eva_alarms wp_goals).1 = [] <->
  forall goal, goal ∈ array_or_empty wp_goals ->
    goal_skipped eva_alarms goal = true \/ (own_status_is_proved goal = true /\ proof_stands goal).
Proof.
  unfold wp_goal_gaps. simpl. rewrite flat_map_nil. split.
  - intros H goal Hg. destruct (goal_skipped eva_alarms goal) eqn:E; [by left|right].
    apply open_goal_gaps_nil, H, elem_of_bfilter. by rewrite E.
  - intros H goal [Hg Hs]%elem_of_bfilter. apply open_goal_gaps_nil.
    bool_simpl. destruct (H goal Hg); [congruence|done].
Qed.

(** The categories of a proofread finding that always leave a gap. *)
Definition GATING_FINDINGS : list string :=
  ["result_unconstrained"; "unconstrained_assigns"; "unresolved_call"; "assumed_callee_contract"].

Lemma proofread_finding_gap_None judged finding :
  proofread_finding_gap judged finding = None <->
  (forall c, c ∈ GATING_FINDINGS -> get_str "category" finding <> Some c) /\
  (get_str "category" finding = Some "unproved_assumption" ->
   forall wpo, get_str "wpo" finding = Some wpo -> judged !! wpo = None).
Proof.
  unfold proofread_finding_gap.
  destruct (get_str "category" finding) as [c|].
  2:{ split; [|done]. intros _. split; [done|done]. }
  cbn [opt_eqb].
  destruct (c =s "unproved_assumption") eqn:E1; bool_simpl.
  { subst c. destruct (get_str "wpo" finding) as [wpo|]; cbn [mbind option_bind];
      [destruct (judged !! wpo) as [j|] eqn:Ej|].
    - split; [done|]. intros [_ H]. specialize (H eq_refl wpo eq_refl). congruence.
    - split; [|done]. intros _. split; [|by intros _ ? [= <-]].
      intros c Hc [= <-]. revert Hc. decide_closed.
    - split; [|done]. intros _. split; [|done]. intros c Hc [= <-]. revert Hc. decide_closed. }
  destruct (c =s "result_unconstrained") eqn:E2; bool_simpl.
  { subst c. split; [done|]. intros [H _]. destruct (H "result_unconstrained"); [decide_closed|done]. }
  destruct (c =s "unconstrained_assigns") eqn:E3; bool_simpl.
  { subst c. split; [done|]. intros [H _]. destruct (H "unconstrained_assigns"); [decide_closed|done]. }
  destruct (c =s "unresolved_call") eqn:E4; bool_simpl.
  { subst c. split; [done|]. intros [H _]. destruct (H "unresolved_call"); [decide_closed|done]. }
  destruct (c =s "assumed_callee_contract") eqn:E5; bool_simpl; simpl negb; cbn match.
  { subst c. split; [done|]. intros [H _]. destruct (H "assumed_callee_contract"); [decide_closed|done]. }
  split; [|done]. intros _. split; [|by intros [= ->]].
  intros c' Hc' [= <-]. unfold GATING_FINDINGS in Hc'. rewrite !elem_of_cons in Hc'.
  destruct Hc' as [?|[?|[?|[?|Hc']]]]; [done..|by apply elem_of_nil in Hc'].
Qed.

(** What the parse must have recorded for the front end to have dropped nothing. *)
Definition parse_clean (reload : json) : Prop :=
  let diagnostics := reload.["ast_reload_health"].["parse_diagnostics"] in
  as_str diagnostics.["unavailable"] = None /\
  forall categories, as_object diagnostics.["categories"] = Some categories ->
    forall category record, (category, record) ∈ categories -> record_counts record = false.

Lemma ast_diagnostic_gaps_nil reload :
  ast_diagnostic_gaps reload [] = [] <-> parse_clean reload.
Proof.
  unfold ast_diagnostic_gaps, parse_clean.
  destruct (as_str _) as [reason|]; [by split; [|intros []]|].
  destruct (as_object _) as [cs|]; [|by split].
  assert (Hm : match ast_unclassified cs [] with
               | [] => [] | unclassified =>
                 [gap AST_UNCLASSIFIED_WARNING
                   [("reason", JStr "Frama-C emitted parse warnings in categories this server has not classified, so their effect on the analyzed program is unknown.");
                    ("categories", JObj unclassified)]] end = [] <-> ast_unclassified cs [] = []).
  { by destruct (ast_unclassified cs []). }
  rewrite app_nil_iff, Hm. clear Hm. unfold ast_classified_gaps, ast_unclassified.
  rewrite collect_some_nil, bfilter_nil. split.
  - intros [H1 H2]. split; [done|]. intros ? [= <-] category record Hin.
    specialize (H1 _ Hin). specialize (H2 _ Hin). simpl in H1, H2.
    destruct (record_counts record); [|done]. simpl in H2.
    by destruct (ast_soundness_reason category).
  - intros [_ H]. specialize (H cs eq_refl). split; intros [category record] Hin; by rewrite (H _ _ Hin).
Qed.

(** ** Lemmas: every gap names a published code *)

Definition coded (g : json) : Prop := exists c, gap_code g = Some c /\ c ∈ ALL.

Lemma coded_gap code fields : code ∈ ALL -> coded (gap code fields).
Proof. by exists code. Qed.

(** A producer's branches, each a literal code. *)
Ltac coded_branches :=
  repeat first
    [ apply Forall_nil_2
    | apply Forall_app_2
    | apply Forall_cons_2; [apply coded_gap; decide_closed|]
    | case_match ].

Lemma collect_some_Forall {A B} (f : A -> option B) (P : B -> Prop) l :
  (forall a b, f a = Some b -> P b) -> Forall P (collect_some f l).
Proof.
  intros H. apply Forall_forall. intros b Hb. apply elem_of_collect_some in Hb as (a & _ & Hf). eauto.
Qed.

Lemma flat_map_Forall {A B} (f : A -> list B) (P : B -> Prop) l :
  (forall a, Forall P (f a)) -> Forall P (flat_map f l).
Proof. intros H. induction l; simpl; [constructor|]. by apply Forall_app_2. Qed.

Lemma ast_diagnostic_gaps_coded reload allowlist : Forall coded (ast_diagnostic_gaps reload allowlist).
Proof.
  unfold ast_diagnostic_gaps. destruct (as_str _); [coded_branches|].
  destruct (as_object _); [|constructor]. apply Forall_app_2.
  - apply collect_some_Forall. intros [category record] g H.
    destruct (record_counts record); [|done]. unfold ast_soundness_reason in H.
    repeat case_match; simplify_eq/=; apply coded_gap; decide_closed.
  - case_match; coded_branches.
Qed.

Lemma property_row_gaps_coded eva_alarms wp_goals : Forall coded (property_row_gaps eva_alarms wp_goals).
Proof.
  apply collect_some_Forall. intros alarm g H. unfold property_row_code in H.
  repeat case_match; simplify_eq/=; apply coded_gap; decide_closed.
Qed.

Lemma open_goal_gaps_coded goal : Forall coded (open_goal_gaps goal).
Proof.
  unfold open_goal_gaps. destruct (is_proved _); [|coded_branches].
  destruct (proved_goal_gap goal _) as [g|] eqn:E; [|constructor]. constructor; [|constructor].
  unfold proved_goal_gap in E. repeat case_match; simplify_eq/=; apply coded_gap; decide_closed.
Qed.

Lemma proofread_finding_gaps_coded wp judged : Forall coded (proofread_finding_gaps wp judged).
Proof.
  apply collect_some_Forall. intros finding g H. unfold proofread_finding_gap in H.
  repeat case_match; simplify_eq/=; apply coded_gap; decide_closed.
Qed.

(** ** Properties *)

(** The run the verdict "proved" is about. *)
Record CleanRun (rte : option bool) (reload eva eva_alarms wp wp_goals : json)
    (wanted : WantedAnalyses) : Prop := mkClean {
  clean_parse : parse_clean reload;
  clean_flags : compile_flags_dropped_gap reload = None;
  clean_wanted : want_eva wanted = true /\ want_wp wanted = true;
  clean_rte : rte <> Some false;
  clean_steps : Forall (fun v => check_step_failed v = false) [reload; eva; eva_alarms; wp; wp_goals];
  clean_eva : eva_unfinished_state eva = None;
  clean_drained : get_bool "drained" wp = Some true;
  clean_rows : forall alarm, alarm ∈ array_or_empty eva_alarms ->
    property_is_inconsistent alarm = false /\ alarm_is_undischarged alarm = false /\
    property_is_disproved_reachability alarm = false /\
    property_is_unproved_lemma alarm wp_goals = false /\
    property_is_disproved alarm wp_goals = false /\ property_is_assumed_valid alarm = false;
  clean_goals : forall goal, goal ∈ array_or_empty wp_goals ->
    goal_skipped eva_alarms goal = true \/ (own_status_is_proved goal = true /\ proof_stands goal);
  clean_findings : forall finding,
    finding ∈ unwrap_or (wp .? "proofread_report" ≫= get_arr "findings") [] ->
    (forall c, c ∈ GATING_FINDINGS -> get_str "category" finding <> Some c) /\
    (get_str "category" finding = Some "unproved_assumption" ->
     forall wpo, get_str "wpo" finding = Some wpo -> (wp_goal_gaps eva_alarms wp_goals).2 !! wpo = None);
}.

Lemma check_incomplete_items_clean ds rte reload eva eva_alarms wp wp_goals wanted :
  check_incomplete_items ds rte reload eva eva_alarms wp wp_goals wanted = [] <->
  CleanRun rte reload eva eva_alarms wp wp_goals wanted.
Proof.
  unfold check_incomplete_items. rewrite !app_nil_iff. fold (ast_diagnostic_gaps reload []).
  rewrite ast_diagnostic_gaps_nil, unrequested_analysis_gaps_nil, property_row_gaps_nil, wp_goal_gaps_nil.
  unfold proofread_finding_gaps. rewrite collect_some_nil.
  split.
  - intros (Hp & Hf & (He & Hw & Hr) & Hs & Hrow & Hg & Hfind).
    apply step_failure_gaps_nil in Hs as (? & ? & ?); [|done..].
    split; try done.
    + by destruct (compile_flags_dropped_gap reload).
    + intros alarm Ha. apply property_row_code_None. auto.
    + intros f Hf'. apply proofread_finding_gap_None. auto.
  - intros [Hp Hf [He Hw] Hr Hs Hev Hd Hrow Hg Hfind].
    split_and!; try done.
    + by rewrite Hf.
    + by apply step_failure_gaps_nil.
    + intros alarm Ha. apply property_row_code_None. auto.
    + intros f Hf'. apply proofread_finding_gap_None. auto.
Qed.

(** C16: [incomplete] is empty exactly for a clean run: both analyses were asked
    for, ran to the end and were drained, nothing was dropped in the parse, no row
    of the property table is open, disproved, contradictory or assumed, and every
    goal makes progress, or belongs to a lemma row, or is proved with nothing
    known against its property; and no proofread finding gates. *)
Theorem check_incomplete_items_spec ds rte reload eva eva_alarms wp wp_goals wanted :
  check_incomplete_items ds rte reload eva eva_alarms wp wp_goals wanted = [] <->
  CleanRun rte reload eva eva_alarms wp wp_goals wanted.
Proof. apply check_incomplete_items_clean. Qed.

(** every gap of the array carries a code of the published list. *)
Theorem check_incomplete_items_coded ds rte reload eva eva_alarms wp wp_goals wanted :
  Forall coded (check_incomplete_items ds rte reload eva eva_alarms wp wp_goals wanted).
Proof.
  unfold check_incomplete_items.
  apply Forall_app_2; [apply ast_diagnostic_gaps_coded|].
  apply Forall_app_2; [unfold compile_flags_dropped_gap; case_match; simpl; coded_branches|].
  apply Forall_app_2; [unfold unrequested_analysis_gaps; coded_branches|].
  apply Forall_app_2; [unfold step_failure_gaps; coded_branches|].
  apply Forall_app_2; [apply property_row_gaps_coded|].
  apply Forall_app_2; [apply flat_map_Forall, open_goal_gaps_coded|apply proofread_finding_gaps_coded].
Qed.

Lemma property_marker_covers property goal goals marker :
  value_marker property = Some marker -> goal_property_marker goal = Some marker -> goal ∈ goals ->
  goals_for_property_all_valid property (JArr goals) = Some true ->
  get_str "normalized_status" goal = Some "valid".
Proof.
  intros Hm Hg Hin H. rewrite (goals_for_property_own property goals marker Hm) in H.
  set (own := bfilter _ goals) in H.
  assert (Hown : goal ∈ own) by (apply elem_of_bfilter; rewrite Hg; simpl; by rewrite String.eqb_refl).
  assert (Hall : forallb (fun g => get_str "normalized_status" g =?s "valid") own = true).
  { destruct own; [by apply elem_of_nil in Hown|by injection H]. }
  rewrite forallb_true in Hall. apply opt_eqb_string_Some. by apply Hall.
Qed.

(** What it is for a proof to stand, read off the status of the property. *)
Lemma proof_stands_spec goal : proof_stands goal ->
  forall status, status = unwrap_or (get_str "normalized_property_status" goal) (unwrap_or (own_status goal) "") ->
    (forall code, status <> code +s+ "_but_dead") /\ status <> "valid_under_false_hypothesis" /\ status <> "valid_under_hyp"
    /\ forall hypotheses hypothesis, get_arr "hypotheses" goal = Some hypotheses -> hypothesis ∈ hypotheses ->
         check_goal_counts_as_progress hypothesis = true.
Proof.
  unfold proof_stands, property_is_dead, goal_is_valid_under_hypotheses, property_normalized_status, status_is_vacuous.
  intros (Hd & [_ Hv]%orb_false_iff & [Hu Hh]%orb_false_iff) status ->. set (status := unwrap_or _ _) in *.
  split_and!.
  - intros code He. rewrite He, ends_with_app in Hd. done.
  - by apply String.eqb_neq.
  - by apply String.eqb_neq.
  - intros hypotheses hypothesis Ha Hin. rewrite Ha in Hh. cbn in Hh. destruct (check_goal_counts_as_progress hypothesis) eqn:E; [done|].
    assert (Ht : existsb (fun hypothesis => negb (check_goal_counts_as_progress hypothesis)) hypotheses = true); [|by rewrite Ht in Hh].
    apply existsb_exists. exists hypothesis. split; [by apply list_elem_of_In|by rewrite E].
Qed.


(** A run with nothing open, for the witnesses: one goal, valid, under a property
    that consolidated to valid. *)
Definition demo_reload : json :=
  JObj [("ok", JBool true);
        ("ast_reload_health", JObj [("parse_diagnostics", JObj [("categories", JObj [])])])].
Definition demo_eva : json := JObj [("computation_state", JStr "computed")].
Definition demo_wp : json := JObj [("ok", JBool true); ("drained", JBool true)].
Definition demo_goal (property_status : string) : json :=
  enrich_goal_with_property_status
    (JObj [("wpo", JStr "typed_f_ensures"); ("property", JStr "#p1"); ("normalized_status", JStr "valid")])
    (property_status_map [JObj [("key", JStr "#p1"); ("status", JStr property_status)]]).

Definition demo_lemma_goal : json :=
  JObj [("wpo", JStr "w2"); ("property", JStr "#l1"); ("normalized_status", JStr "valid"); ("counts_as_progress", JBool false)].
Definition demo_lemma_row : json := JObj [("kind", JStr "lemma"); ("key", JStr "#l1"); ("status", JStr "never_tried")].

(** The proved goals a run passes over without progress, spelled out on the
    property: an enriched goal WP proved that makes no progress is reported unless
    every known dependency of it does and its property consolidated to something
    other than valid, vacuous or valid under hypotheses. *)
Theorem proved_goal_unreported g marker p properties :
  value_marker (JObj g) = Some marker -> properties !! marker = Some p ->
  map_get "hypotheses" g = None ->
  own_status_is_proved (JObj g) = true ->
  let e := enrich_goal_with_property_status (JObj g) properties in
  let n := normalized_or_derived p in
  check_goal_counts_as_progress e = false ->
  (open_goal_gaps e = [] <->
   n <> "valid" /\ status_is_vacuous n = false /\ n <> "valid_under_hyp" /\
   forallb row_progresses (dep_rows (JObj g) properties) = true).
Proof.
  intros Hm Hp Hg Hown. cbv zeta. intros Hc.
  destruct (enrich_goal_reads _ _ _ _ Hm Hp) as (e & He & Hcp & Hn & Hkeep & Hh).
  rewrite He in *. rewrite open_goal_gaps_nil.
  assert (Hpo : own_status_is_proved (JObj e) = true).
  { unfold own_status_is_proved. by rewrite (own_status_reads e g Hkeep). }
  unfold check_goal_counts_as_progress, get_bool in Hc. simpl in Hc. rewrite Hcp in Hc. simpl in Hc.
  unfold proof_stands, property_is_dead, goal_is_valid_under_hypotheses.
  rewrite get_arr_obj, Hh by done.
  assert (Hs : get_str "normalized_property_status" (JObj e) = Some (normalized_or_derived p)).
  { unfold get_str. simpl. by rewrite Hn. }
  rewrite Hs. simpl unwrap_or. set (n := normalized_or_derived p) in *.
  change (row_progresses p) with (n =s "valid") in Hc.
  destruct (forallb row_progresses (dep_rows (JObj g) properties)).
  - rewrite andb_true_r in Hc. apply String.eqb_neq in Hc. rewrite orb_false_r, String.eqb_neq.
    split; [by intros (_ & _ & ? & ?)|]. intros (_ & Hv & Hu & _). split_and!; try done.
    unfold status_is_vacuous in Hv. by apply orb_false_iff in Hv as [? _].
  - rewrite orb_true_r. split; [by intros (_ & _ & _ & ?)|by intros (_ & _ & _ & ?)].
Qed.

Lemma proved_goal_unreported_witness : open_goal_gaps (demo_goal "inconsistent") = [].
Proof.
  apply (proved_goal_unreported
    [("wpo", JStr "typed_f_ensures"); ("property", JStr "#p1"); ("normalized_status", JStr "valid")]
    "#p1" (JObj [("key", JStr "#p1"); ("status", JStr "inconsistent")])
    (property_status_map [JObj [("key", JStr "#p1"); ("status", JStr "inconsistent")]]));
    try reflexivity.
  split_and!; (discriminate || reflexivity).
Defined.

(** The verdict such a goal leaves: nothing is incomplete, though the goal's
    property consolidated to contradictory statuses. *)
Lemma inconsistent_goal_reads_proved :
  check_incomplete_items id (Some true) demo_reload demo_eva (JArr []) demo_wp
    (JArr [demo_goal "inconsistent"]) BOTH = [] /\
  check_goal_counts_as_progress (demo_goal "inconsistent") = false.
Proof. split; vm_compute; reflexivity. Qed.
