(* ===== verification/ProbeGaps.v ===== *)
(** * Gaps of the probes beside a check (src/src/mcp/checkgaps.rs)

    The smoke tests, the analyzers' message stream, the memory-model hypotheses and
    the contract mutants: each is read by a probe of its own, and each has to tell
    "asked and found nothing" from "could not ask". *)

From S2P Require Import Prelude RustStr Json Status Verdicts GapCodes Gaps.
Import incomplete_code.

(** ** Smoke tests *)

Definition smoke_summary_failed (passed total : option N) : nat :=
  match passed, total with
  | Some passed, Some total => if (passed <? total)%N then N.to_nat (total - passed) else 0
  | _, _ => 0
  end.

Definition kind_count (kind : string) (detail : list json) : nat :=
  count_if (fun d => eq_str d.["kind"] kind) detail.

Definition smoke_failed_gap (probe : json) (failed : list json) (passed total : option N) : json :=
  let summary_failed := smoke_summary_failed passed total in
  let base :=
    [("code", JStr SMOKE_TEST_FAILED);
     ("reason", JStr ("WP proved " +s+ dec (Nat.max (length failed) summary_failed)
                      +s+ " smoke goal(s), so part of what was proved holds over no execution."));
     ("failed", JArr failed); ("passed", jopt jN passed); ("total", jopt jN total)] in
  JObj match get_arr "failed_detail" probe with
       | None => base
       | Some detail =>
         map_insert "failed_detail" (JArr detail)
           (map_insert "by_kind"
              (JObj [("contract_vacuous", jnat (kind_count "contract_vacuous" detail));
                     ("unreachable_code", jnat (kind_count "unreachable_code" detail));
                     ("unclassified", jnat (kind_count "unclassified" detail))]) base)
       end.

Definition smoke_test_gaps (requested : bool) (wp : json) : list json :=
  if negb requested then []
  else
    let probe := wp .? "smoke_probe" in
    match opt_filter (fun probe => opt_eqb Bool.eqb (get_bool "ran" probe) (Some true)) probe with
    | None =>
      let reason := unwrap_or (probe ≫= get_str "reason")
                      "WP did not complete, so no smoke probe ran" in
      [gap SMOKE_TEST_UNCHECKED [("reason", JStr reason)]]
    | Some probe =>
      let failed := unwrap_or (get_arr "failed" probe) [] in
      let passed := get_u64 "passed" probe in
      let total := get_u64 "total" probe in
      match total with
      | None =>
        [gap SMOKE_TEST_UNCHECKED
          [("reason", JStr "The smoke probe ran and WP printed no smoke summary, so no smoke goal was generated and whether the specification is vacuous is unanswered.")]]
      | Some _ =>
        if (length failed =? 0)%nat && (smoke_summary_failed passed total =? 0)%nat then []
        else [smoke_failed_gap probe failed passed total]
      end
    end.

(** ** The message stream *)

Definition selector_weakens (selector : string) : bool :=
  one_of selector ["cast"; "nat"; "real"].

Definition weakening_model_selectors (model : option string) : list string :=
  match model with
  | None => []
  | Some model =>
    map (fun selector => "+" +s+ selector)
      (bfilter selector_weakens
         (map (fun selector => to_ascii_lowercase (trim selector))
            (flat_map (fun alternative => drop 1 (split_char "+" alternative))
               (split_char "," model))))
  end.

Definition message_field (name : string) (message : json) : string :=
  unwrap_or (get_str name message) "".

Definition message_code (message : json) : option string :=
  let text := message_field "message" message in
  let plugin := message_field "plugin" message in
  let kind := message_field "kind" message in
  if (plugin =s "wp") && eq_ignore_ascii_case kind "error" && contains "skipped verification" text
  then Some WP_VERIFICATION_SKIPPED
  else if (plugin =s "wp") && contains "not yet supported (skipped)" text
  then Some WP_ANNOTATION_SKIPPED
  else if (plugin =s "wp")
          && (contains "might be unsound" text || contains "interpreted as reads nothing" text)
  then Some WP_UNSOUND_ENCODING
  else if (plugin =s "kernel") && (message_field "category" message =s "annot:missing-spec")
          && contains "Neither code nor specification for function" text
  then Some GENERATED_CALLEE_SPEC
  else None.

Definition message_line (message : json) : string :=
  unwrap_or (head (lines (message_field "message" message))) "".

Definition message_source (message : json) : option json :=
  opt_filter (fun source => negb (is_null source)) (message .? "source").

(** [gap["code"] == code && gap["reason"] == first_line]. *)
Definition same_finding (code line : string) (g : json) : bool :=
  eq_str g.["code"] code && eq_str g.["reason"] line.

Definition add_location (source : option json) (g : json) : json :=
  match source, as_array g.["locations"] with
  | Some source, Some locations =>
    if existsb (json_eqb source) locations then g
    else map_object (map_insert "locations" (JArr (locations ++ [source]))) g
  | _, _ => g
  end.

(** Change the first gap that is the same finding; [None] when there is none. *)
Fixpoint update_first (p : json -> bool) (f : json -> json) (gaps : list json) : option (list json) :=
  match gaps with
  | [] => None
  | g :: gaps => if p g then Some (f g :: gaps) else cons g <$> update_first p f gaps
  end.

Definition new_message_gap (code : string) (message : json) : json :=
  gap code [("reason", JStr (message_line message));
            ("message", JStr (message_field "message" message)); ("locations", JArr [])].

Definition add_message (gaps : list json) (message : json) : list json :=
  match message_code message with
  | None => gaps
  | Some code =>
    let locate := add_location (message_source message) in
    match update_first (same_finding code (message_line message)) locate gaps with
    | Some gaps => gaps
    | None => gaps ++ [locate (new_message_gap code message)]
    end
  end.

Definition weakened_model_gap (model : option string) : list json :=
  let weakenings := weakening_model_selectors model in
  match weakenings with
  | [] => []
  | _ =>
    [gap WP_WEAKENED_MODEL
      [("reason", JStr ("This run's memory model uses " +s+ join ", " weakenings
                        +s+ ", which departs from C semantics."));
       ("model", jopt JStr model); ("selectors", JArr (map JStr weakenings))]]
  end.

Definition wp_message_gaps (messages : list json) (model : option string) : list json :=
  fold_left add_message messages [] ++ weakened_model_gap model.

(** ** Memory-model hypotheses *)

Definition hypothesis_entries (probe : json) : list json :=
  unwrap_or (get_arr "hypotheses" probe) [].

Definition entry_names_function (entry : json) : bool :=
  is_some_and (fun name => negb (is_null name)) (entry .? "function").

Definition parsed_hypothesis_entries (probe : json) : list json :=
  bfilter entry_names_function (hypothesis_entries probe).

Definition unparsed_hypothesis_warnings (probe : json) : N :=
  foldr N.add 0%N (collect_some (get_u64 "unparsed_warning_count") (hypothesis_entries probe)).

Definition has_parsed_hypothesis_entry (probe : json) : bool :=
  existsb entry_names_function (hypothesis_entries probe).

Definition HYPOTHESIS_SAMPLE : nat := 20.

Definition probe_ran (probe : json) : bool :=
  opt_eqb Bool.eqb (get_bool "ran" probe) (Some true).

Definition memory_model_hypothesis_gap (probe : json) : option json :=
  if negb (probe_ran probe) then None
  else
    let sample := parsed_hypothesis_entries probe in
    match sample with
    | [] => None
    | _ =>
      let total := length sample in
      Some (gap WP_MEMORY_MODEL_HYPOTHESIS
        [("reason", JStr "WP's memory model assumed these separations to discharge this run's goals, and emitted no obligation for any of them. A goal reported valid here is valid only for callers that satisfy them.");
         ("function_count", jnat total);
         ("functions", JArr (take HYPOTHESIS_SAMPLE sample));
         ("functions_truncated", JBool (HYPOTHESIS_SAMPLE <? total)%nat);
         ("unparsed_warning_count", jN (unparsed_hypothesis_warnings probe));
         ("read_from", field "read_from" probe)])
    end.

Definition PROBE_READ_FROM_SEPARATE_RUN : string := "a separate frama-c run with provers off".
Definition PROBE_READ_FROM_RETRY_OUTPUT : string := "the isolated retry's own captured output".

Definition probe_absent (reason : string) (nothing_was_proved : bool) : json :=
  JObj [("ran", JBool false); ("reason", JStr reason);
        ("nothing_was_proved", JBool nothing_was_proved); ("hypotheses", JArr [])].

Definition memory_model_unchecked_gap (probe : json) (wanted : WantedAnalyses) : option json :=
  if negb (want_wp wanted) then None
  else if probe_ran probe then
    let unparsed := unparsed_hypothesis_warnings probe in
    if (unparsed =? 0)%N || has_parsed_hypothesis_entry probe then None
    else Some (gap WP_MEMORY_MODEL_UNCHECKED
      [("reason", JStr ("WP printed " +s+ dec_N unparsed +s+ " memory-model hypothesis warning(s) whose wording this server could not parse, so the separations it assumed are unknown rather than absent. A goal reported valid here is not evidence that the model assumed nothing."));
       ("probe_reason", JStr "the probe ran and could not parse what WP printed");
       ("unparsed_warning_count", jN unparsed);
       ("exit_code", field "exit_code" probe)])
  else
    match get_str "reason" probe with
    | None => None
    | Some reason =>
      if unwrap_or (get_bool "nothing_was_proved" probe) false then None
      else Some (gap WP_MEMORY_MODEL_UNCHECKED
        [("reason", JStr ("WP's memory-model hypotheses are unknown for this run: the probe could not read them (" +s+ reason +s+ "). A goal reported valid here is not evidence that the model assumed nothing."));
         ("probe_reason", JStr reason);
         ("exit_code", field "exit_code" probe)])
    end.

(** ** Contract mutants and threads *)

Definition contract_mutant_gaps (probe : json) : list json :=
  if is_null probe then []
  else if negb (eq_bool probe.["ran"] true) then
    [gap CONTRACT_MUTANTS_UNCHECKED
      [("reason", JStr (unwrap_or (as_str probe.["reason"]) "the mutant probe did not run"))]]
  else
    let decorative := bfilter (fun m => eq_str m.["verdict"] "decorative")
                        (array_or_empty probe.["mutants"]) in
    match decorative with
    | [] => []
    | _ => [gap CONTRACT_DECORATIVE
             [("reason", JStr "A stub body proves every postcondition of the contract, so the proof does not distinguish the function from the stub.");
              ("mutants", JArr decorative)]]
    end.

Definition THREAD_CREATION_FUNCTIONS : list string := ["pthread_create"; "thrd_create"].

Definition concurrent_program_gap (present : list string) : option json :=
  match present with
  | [] => None
  | _ => Some (gap CONCURRENT_PROGRAM
      [("reason", JStr "The program creates threads, and EVA and WP analyze it sequentially: thread bodies are not analyzed from main, and no interleaving is considered.");
       ("thread_creation", JArr (map JStr present))])
  end.

(** ** Lemmas on the message gaps *)

Definition finding_key (g : json) : json * json := (g.["code"], g.["reason"]).

(** What a message asks to be reported. *)
Definition message_key (message : json) : option (string * string) :=
  (fun code => (code, message_line message)) <$> message_code message.

(** A gap of the stream: its code and line are text, and its locations a list. *)
Definition message_gap (g : json) : Prop :=
  exists c r ls, g.["code"] = JStr c /\ g.["reason"] = JStr r /\ g.["locations"] = JArr ls.

Definition gap_locations (g : json) : list json := array_or_empty g.["locations"].

Lemma idx_map_insert k v m : (JObj (map_insert k v m)).[k] = v.
Proof. unfold idx. simpl. by rewrite map_get_insert. Qed.

Lemma idx_map_insert_ne k k' v m : k <> k' -> (JObj (map_insert k' v m)).[k] = (JObj m).[k].
Proof. intros. unfold idx. simpl. by rewrite map_get_insert_ne. Qed.

Lemma add_location_key source g : finding_key (add_location source g) = finding_key g.
Proof.
  unfold add_location. destruct source as [s|]; [|done]. destruct (as_array _); [|done].
  destruct (existsb _ _); [done|]. destruct g as [| | | | |m]; try done.
  unfold finding_key. simpl map_object. by rewrite !idx_map_insert_ne by discriminate.
Qed.

Lemma add_location_gap source g : message_gap g ->
  message_gap (add_location source g) /\
  (forall l, l ∈ gap_locations g -> l ∈ gap_locations (add_location source g)) /\
  (forall s, source = Some s -> json_wf s -> exists l, l ∈ gap_locations (add_location source g) /\ json_eqb s l = true).
Proof.
  intros (c & r & ls & Hc & Hr & Hl). unfold add_location.
  destruct source as [s|]; [|split_and!; [by exists c, r, ls|done|done]]. rewrite Hl. simpl as_array. cbn match.
  destruct (existsb (json_eqb s) ls) eqn:E; cbn match.
  - split_and!; [by exists c, r, ls|done|]. intros s' [= <-] _.
    apply existsb_true in E as (l & ? & ?). exists l. split; [|done]. unfold gap_locations. by rewrite Hl.
  - destruct g as [| | | | |m]; try done. simpl map_object. unfold gap_locations, array_or_empty.
    rewrite idx_map_insert, Hl. split_and!.
    + exists c, r, (ls ++ [s]). rewrite !idx_map_insert_ne, idx_map_insert by discriminate. done.
    + intros l Hin. simpl. rewrite elem_of_app. by left.
    + intros s' [= <-] Hwf. exists s. split; [simpl; rewrite elem_of_app; right; left|by apply json_eqb_refl].
Qed.

Lemma eq_str_true v s : eq_str v s = true <-> v = JStr s.
Proof.
  destruct v; simpl; try done. rewrite String.eqb_eq. by split; [intros ->|intros [= ->]].
Qed.

Lemma same_finding_true code line g :
  same_finding code line g = true <-> finding_key g = (JStr code, JStr line).
Proof.
  unfold same_finding, finding_key. rewrite andb_true_iff, !eq_str_true.
  split; [by intros [-> ->]|by intros [= -> ->]].
Qed.

Lemma update_first_Some p f gaps gaps' :
  update_first p f gaps = Some gaps' ->
  exists l g k, gaps = l ++ g :: k /\ gaps' = l ++ f g :: k /\ p g = true.
Proof.
  revert gaps'. induction gaps as [|g gaps IH]; intros gaps'; simpl; [done|].
  destruct (p g) eqn:E; [intros [= <-]; by exists [], g, gaps|].
  destruct (update_first p f gaps) as [r|]; [|done]. intros [= <-].
  destruct (IH r eq_refl) as (l & g' & k & -> & -> & ?). by exists (g :: l), g', k.
Qed.

Lemma update_first_None p f gaps : update_first p f gaps = None <-> forall g, g ∈ gaps -> p g = false.
Proof.
  induction gaps as [|g gaps IH]; simpl; [split; [intros _ a Ha; by apply elem_of_nil in Ha|done]|].
  destruct (p g) eqn:E; [split; [done|intros H; rewrite H in E by left; done]|].
  transitivity (update_first p f gaps = None); [by destruct (update_first p f gaps)|].
  rewrite IH. split.
  - intros H a [->|Ha]%elem_of_cons; auto.
  - intros H a Ha. apply H. by right.
Qed.

Lemma new_message_gap_ok code message :
  message_gap (new_message_gap code message) /\
  finding_key (new_message_gap code message) = (JStr code, JStr (message_line message)).
Proof. split; [|done]. by exists code, (message_line message), []. Qed.

(** What the gaps gathered so far say about the messages read so far. *)
Record stream_inv (messages gaps : list json) : Prop := mkStream {
  si_gaps : Forall message_gap gaps;
  si_once : NoDup (finding_key <$> gaps);
  si_keys : forall c l, (JStr c, JStr l) ∈ (finding_key <$> gaps) <->
              exists m, m ∈ messages /\ message_key m = Some (c, l);
  si_located : forall m c l s, m ∈ messages -> message_key m = Some (c, l) ->
    message_source m = Some s -> json_wf s ->
    exists g loc, g ∈ gaps /\ finding_key g = (JStr c, JStr l) /\
      loc ∈ gap_locations g /\ json_eqb s loc = true;
}.

Lemma message_key_Some m c l : message_key m = Some (c, l) <-> message_code m = Some c /\ l = message_line m.
Proof.
  unfold message_key. destruct (message_code m); simpl; [|by split; [|intros []]].
  split; [by intros [= <- <-]|by intros [[= <-] ->]].
Qed.

Lemma add_message_skip messages gaps m :
  message_code m = None -> stream_inv messages gaps -> stream_inv (messages ++ [m]) gaps.
Proof.
  intros Hm [Hg Ho Hk Hl]. assert (Hkey : message_key m = None) by (unfold message_key; by rewrite Hm).
  split; [done|done| |].
  - intros c l. rewrite Hk. split; intros (m' & Hin & Hm').
    + exists m'. split; [apply elem_of_app; by left|done].
    + apply elem_of_app in Hin as [Hin|Hin%list_elem_of_singleton]; [eauto|subst; congruence].
  - intros m' c l s Hin Hm'. apply elem_of_app in Hin as [Hin|Hin%list_elem_of_singleton]; [eauto|subst; congruence].
Qed.

Lemma add_message_update messages gaps m code l g k :
  message_code m = Some code -> gaps = l ++ g :: k ->
  finding_key g = (JStr code, JStr (message_line m)) ->
  stream_inv messages gaps ->
  stream_inv (messages ++ [m]) (l ++ add_location (message_source m) g :: k).
Proof.
  intros Hm -> Hkey [Hg Ho Hk Hl].
  apply Forall_app in Hg as [Hgl [Hgg Hgk]%Forall_cons].
  destruct (add_location_gap (message_source m) g Hgg) as (Hnew & Hkeep & Hadd).
  assert (Hkeys : finding_key <$> l ++ add_location (message_source m) g :: k = finding_key <$> l ++ g :: k).
  { by rewrite !fmap_app, !fmap_cons, add_location_key. }
  assert (Hmk : message_key m = Some (code, message_line m)) by (by apply message_key_Some).
  split; [by apply Forall_app_2; [|constructor]|by rewrite Hkeys| |].
  - intros c r. rewrite Hkeys, Hk. split; intros (m' & Hin & Hm').
    + exists m'. split; [apply elem_of_app; by left|done].
    + apply elem_of_app in Hin as [Hin|Hin%list_elem_of_singleton]; [eauto|subst m'].
      rewrite Hmk in Hm'. injection Hm' as <- <-. apply Hk. rewrite <- Hkey.
      apply list_elem_of_fmap_2. apply elem_of_app. right. left.
  - intros m' c r s Hin Hm' Hs Hwf. apply elem_of_app in Hin as [Hin|Hin%list_elem_of_singleton]; [|subst m'].
    + destruct (Hl m' c r s Hin Hm' Hs Hwf) as (g' & loc & Hg' & Hkg' & Hloc & Heq).
      apply elem_of_app in Hg' as [Hg'|Hg']; [|apply elem_of_cons in Hg' as [->|Hg']].
      * exists g', loc. split; [apply elem_of_app; by left|done].
      * exists (add_location (message_source m) g), loc. rewrite add_location_key.
        split_and!; [apply elem_of_app; right; left|done|by apply Hkeep|done].
      * exists g', loc. split; [apply elem_of_app; right; by right|done].
    + rewrite Hmk in Hm'. injection Hm' as <- <-. destruct (Hadd s Hs Hwf) as (loc & ? & ?).
      exists (add_location (message_source m) g), loc. rewrite add_location_key.
      split_and!; [apply elem_of_app; right; left|done..].
Qed.

Lemma add_message_new messages gaps m code :
  message_code m = Some code ->
  (forall g, g ∈ gaps -> same_finding code (message_line m) g = false) ->
  stream_inv messages gaps ->
  stream_inv (messages ++ [m]) (gaps ++ [add_location (message_source m) (new_message_gap code m)]).
Proof.
  intros Hm Hfresh [Hg Ho Hk Hl].
  destruct (new_message_gap_ok code m) as [Hng Hkey].
  destruct (add_location_gap (message_source m) _ Hng) as (Hnew & _ & Hadd).
  assert (Hmk : message_key m = Some (code, message_line m)) by (by apply message_key_Some).
  assert (Hkeys : finding_key <$> gaps ++ [add_location (message_source m) (new_message_gap code m)]
                  = (finding_key <$> gaps) ++ [(JStr code, JStr (message_line m))]).
  { by rewrite fmap_app, fmap_cons, add_location_key, Hkey. }
  split.
  - by apply Forall_app_2; [|repeat constructor].
  - rewrite Hkeys. apply NoDup_app. split_and!; [done| |apply NoDup_singleton].
    intros kk Hkk Hs%list_elem_of_singleton. subst kk.
    apply list_elem_of_fmap in Hkk as (g & Hkg & Hin). specialize (Hfresh g Hin).
    symmetry in Hkg. apply same_finding_true in Hkg. congruence.
  - intros c r. rewrite Hkeys, elem_of_app, Hk, list_elem_of_singleton. split.
    + intros [(m' & Hin & Hm')|[= -> ->]]; [exists m'; split; [apply elem_of_app; by left|done]|].
      exists m. split; [apply elem_of_app; right; left|done].
    + intros (m' & Hin & Hm'). apply elem_of_app in Hin as [Hin|Hin%list_elem_of_singleton]; [left; eauto|subst m'].
      right. rewrite Hmk in Hm'. by injection Hm' as <- <-.
  - intros m' c r s Hin Hm' Hs Hwf. apply elem_of_app in Hin as [Hin|Hin%list_elem_of_singleton]; [|subst m'].
    + destruct (Hl m' c r s Hin Hm' Hs Hwf) as (g' & loc & Hg' & Hrest).
      exists g', loc. split; [apply elem_of_app; by left|done].
    + rewrite Hmk in Hm'. injection Hm' as <- <-. destruct (Hadd s Hs Hwf) as (loc & ? & ?).
      eexists _, loc. rewrite add_location_key.
      split_and!; [apply elem_of_app; right; left|done..].
Qed.

Lemma add_message_inv messages gaps m :
  stream_inv messages gaps -> stream_inv (messages ++ [m]) (add_message gaps m).
Proof.
  intros H. unfold add_message. destruct (message_code m) as [code|] eqn:Hm.
  2:{ by apply add_message_skip. }
  destruct (update_first _ _ gaps) as [gaps'|] eqn:E.
  - apply update_first_Some in E as (l & g & k & Hl & -> & Hp).
    apply (add_message_update messages gaps m code l g k); [done..|by apply same_finding_true|done].
  - apply add_message_new; [done| |done]. by apply update_first_None with (1 := E).
Qed.

Lemma add_messages_inv messages : stream_inv messages (fold_left add_message messages []).
Proof.
  induction messages as [|m messages IH] using rev_ind.
  - cbn [fold_left]. split; [apply Forall_nil_2|exact (NoDup_nil_2)| |intros ???? H; by apply elem_of_nil in H].
    intros c l. cbn [fmap list_fmap]. split; [intros H; by apply elem_of_nil in H|intros (? & H & _); by apply elem_of_nil in H].
  - rewrite fold_left_app. simpl. by apply add_message_inv.
Qed.

(** ** Properties *)

(** The message stream leaves one gap per finding, a code and a first line:
    each finding some message makes is reported once, no other is, and every place
    a finding was printed at is among its gap's locations. *)
Theorem wp_message_gaps_spec messages model :
  exists gaps, wp_message_gaps messages model = gaps ++ weakened_model_gap model /\
    stream_inv messages gaps.
Proof. exists (fold_left add_message messages []). split; [done|apply add_messages_inv]. Qed.

(** the two memory-model gaps answer different questions and are never both
    reported; and when WP was asked for, neither is reported only if the probe read
    everything WP printed and it assumed nothing, or the probe's producer says
    nothing was proved, or gives no reason. *)
Theorem memory_model_gaps_exclusive probe wanted :
  (memory_model_hypothesis_gap probe = None \/ memory_model_unchecked_gap probe wanted = None) /\
  (want_wp wanted = true ->
   memory_model_hypothesis_gap probe = None -> memory_model_unchecked_gap probe wanted = None ->
   (probe_ran probe = true /\ unparsed_hypothesis_warnings probe = 0%N /\
    forall entry, entry ∈ hypothesis_entries probe -> entry_names_function entry = false) \/
   (probe_ran probe = false /\
    (get_str "reason" probe = None \/ get_bool "nothing_was_proved" probe = Some true))).
Proof.
  unfold memory_model_hypothesis_gap, memory_model_unchecked_gap.
  assert (Hp : has_parsed_hypothesis_entry probe = false <-> parsed_hypothesis_entries probe = []).
  { unfold has_parsed_hypothesis_entry, parsed_hypothesis_entries. by rewrite existsb_false, bfilter_nil. }
  destruct (probe_ran probe); simpl negb; cbn match.
  - destruct (parsed_hypothesis_entries probe) as [|e es] eqn:Ee.
    + split; [by left|]. intros -> _. simpl negb. cbn match.
      rewrite (proj2 Hp eq_refl), orb_false_r.
      destruct (N.eqb_spec (unparsed_hypothesis_warnings probe) 0); [|done]. intros _. left.
      split_and!; [done|done|]. by apply bfilter_nil.
    + split; [|done]. right. destruct (negb (want_wp wanted)); [done|].
      destruct (has_parsed_hypothesis_entry probe); [by rewrite orb_true_r|].
      discriminate (proj1 Hp eq_refl).
  - split; [by left|]. intros -> _. simpl negb. cbn match. intros H. right. split; [done|].
    destruct (get_str "reason" probe); [right|by left].
    destruct (get_bool "nothing_was_proved" probe) as [[]|]; done.
Qed.

(** smoke tests that were asked for leave no gap only when the probe ran, WP
    counted its smoke goals, the count says all of them passed, and no goal line
    names a failure; a probe that could not answer is never read as a pass. *)
Theorem smoke_test_gaps_spec requested wp :
  smoke_test_gaps requested wp = [] <->
  requested = false \/
  exists probe total, wp .? "smoke_probe" = Some probe /\ get_bool "ran" probe = Some true /\
    unwrap_or (get_arr "failed" probe) [] = [] /\ get_u64 "total" probe = Some total /\
    (forall passed, get_u64 "passed" probe = Some passed -> (total <= passed)%N).
Proof.
  unfold smoke_test_gaps. destruct requested; simpl negb; cbn match; [|by split; [left|]].
  destruct (opt_filter _ _) as [probe|] eqn:E.
  2:{ split; [done|]. intros [?|(probe & total & Hp & Hr & _)]; [done|].
      rewrite Hp in E. simpl in E. by rewrite Hr in E. }
  apply opt_filter_Some in E as [Hp Hr]. apply opt_eqb_bool_true in Hr.
  destruct (get_u64 "total" probe) as [total|] eqn:Et.
  2:{ split; [done|]. intros [?|(probe' & total & Hp' & _ & _ & Ht & _)]; [done|].
      rewrite Hp in Hp'. injection Hp' as <-. congruence. }
  transitivity ((length (unwrap_or (get_arr "failed" probe) []) =? 0)%nat
                && (smoke_summary_failed (get_u64 "passed" probe) (Some total) =? 0)%nat = true).
  { destruct (_ && _); by split. }
  rewrite andb_true_iff, !Nat.eqb_eq, length_zero_iff_nil.
  assert (Hsum : smoke_summary_failed (get_u64 "passed" probe) (Some total) = 0 <->
                 forall passed, get_u64 "passed" probe = Some passed -> (total <= passed)%N).
  { unfold smoke_summary_failed. destruct (get_u64 "passed" probe) as [p|]; [|by split].
    destruct (N.ltb_spec p total).
    - split; [lia|]. intros Hle. specialize (Hle p eq_refl). lia.
    - split; [|done]. by intros _ ? [= <-]. }
  rewrite Hsum. split.
  - intros [? ?]. right. by exists probe, total.
  - intros [?|(probe' & total' & Hp' & _ & ? & Ht & ?)]; [done|].
    rewrite Hp in Hp'. injection Hp' as <-. rewrite Et in Ht. injection Ht as <-. done.
Qed.
