(* ===== verification/Targets.v ===== *)
(** * The verdict split by target (src/src/mcp/checkgaps.rs, wpclass.rs)

    The field [established] of a check says, for memory safety, termination and
    functional correctness apart, whether the run's goals for it are all proved and
    no gap stands in the way. *)

From S2P Require Import Prelude RustStr Json Status Rows Verdicts GapCodes Gaps.
Import incomplete_code.

(** ** Which target a goal belongs to *)

Definition goal_scope_key (goal : json) : string :=
  unwrap_or ((goal .? "fct" <||> goal .? "scope" <||> goal .? "function_marker") ≫= as_str) "".

Definition goal_owner_name (goal : json) : option string :=
  let owner := goal_scope_key goal in
  then_some (negb (is_empty owner) && negb (starts_with "#" owner)) owner.

(** A goal's WP id without its model and function, the underscore kept. *)
Definition goal_id_after_owner (goal : json) : option string :=
  match wp_goal_identity goal with
  | None => None
  | Some id =>
    Some match goal_owner_name goal with
         | None => id
         | Some owner =>
           match find ("_" +s+ owner +s+ "_") id with
           | None => id
           | Some at_ => skip (at_ + String.length owner + 1) id
           end
         end
  end.

Definition is_terminates_goal (name : string) : bool :=
  ends_with "_terminates" name || contains "_terminates_part" name.

Definition VERIFICATION_TARGETS : list string := ["memory_safety"; "termination"; "functional"].

Definition goal_target (wpo : string) : string :=
  if contains "_rte_" wpo then "memory_safety"
  else if is_terminates_goal wpo || contains "_loop_variant" wpo || contains "_decreases" wpo
  then "termination"
  else "functional".

(** ** The split *)

(** Each goal that is no smoke test, with its target. *)
Definition placed_goals (wp_goals : json) : list (json * string) :=
  collect_some (fun goal => (fun tail => (goal, goal_target tail)) <$> goal_id_after_owner goal)
    (bfilter (fun goal => negb (eq_bool goal.["smoke"] true)) (array_or_empty wp_goals)).

Definition target_by_id (goals : list (json * string)) : gmap string string :=
  fold_left (fun m '(goal, target) =>
    match as_str goal.["stable_goal_id"] with
    | Some id => <[id := target]> m
    | None => m
    end) goals ∅.

Definition blocked_by (targets : gmap string string) (item : json) : list string :=
  let goal_level := eq_str item.["code"] GOAL_NOT_VALID || eq_str item.["code"] PROVER_TIMEOUT in
  let placed := if goal_level then as_str item.["stable_goal_id"] ≫= (fun id => targets !! id) else None in
  match placed with
  | Some target => [target]
  | None => VERIFICATION_TARGETS
  end.

Definition blocked_targets (goals : list (json * string)) (incomplete : list json) : list string :=
  flat_map (blocked_by (target_by_id goals)) incomplete.

Definition target_goals (target : string) (goals : list (json * string)) : list json :=
  map fst (bfilter (fun '(_, t) => t =s target) goals).

Definition open_goals (mine : list json) : nat :=
  count_if (fun goal => negb (own_status_is_proved goal)) mine.

Definition target_holds (target : string) (goals : list (json * string)) (incomplete : list json) : bool :=
  let mine := target_goals target goals in
  negb (length mine =? 0)%nat && (open_goals mine =? 0)%nat
  && negb (bool_decide (target ∈ blocked_targets goals incomplete)).

Definition target_entry (goals : list (json * string)) (incomplete : list json) (target : string) : json :=
  let mine := target_goals target goals in
  JObj [("goals", jnat (length mine)); ("open", jnat (open_goals mine));
        ("holds", JBool (target_holds target goals incomplete))].

Definition established_by_target (wp_goals : json) (incomplete : list json) : json :=
  let goals := placed_goals wp_goals in
  JObj (fold_left (fun object target => map_insert target (target_entry goals incomplete target) object)
          VERIFICATION_TARGETS []).

(** ** Lemmas *)

Lemma established_entry wp_goals incomplete target :
  target ∈ VERIFICATION_TARGETS ->
  (established_by_target wp_goals incomplete) .? target
  = Some (target_entry (placed_goals wp_goals) incomplete target).
Proof.
  unfold established_by_target, VERIFICATION_TARGETS. cbn [fold_left get].
  rewrite !elem_of_cons. intros [->|[->|[->|H]]]; [| | |by apply elem_of_nil in H];
    repeat (rewrite map_get_insert_ne by discriminate); by rewrite map_get_insert.
Qed.

Lemma count_if_zero {A} (f : A -> bool) l : count_if f l = 0 <-> forall a, a ∈ l -> f a = false.
Proof. unfold count_if. by rewrite length_zero_iff_nil, bfilter_nil. Qed.

Lemma elem_of_target_goals target goals goal :
  goal ∈ target_goals target goals <-> (goal, target) ∈ goals.
Proof.
  unfold target_goals. rewrite list_elem_of_fmap. split.
  - intros ([g t] & -> & [Hin Ht]%elem_of_bfilter). bool_simpl. by subst.
  - intros Hin. exists (goal, target). split; [done|]. apply elem_of_bfilter.
    split; [done|apply String.eqb_refl].
Qed.

Lemma elem_of_flat_map {A B} (f : A -> list B) l b : b ∈ flat_map f l <-> exists a, a ∈ l /\ b ∈ f a.
Proof.
  induction l as [|a l IH]; simpl.
  - split; [intros H; by apply elem_of_nil in H|intros (? & H & _); by apply elem_of_nil in H].
  - rewrite elem_of_app, IH. split.
    + intros [?|(c & ? & ?)]; [exists a; split; [left|done]|exists c; split; [by right|done]].
    + intros (c & [->|?]%elem_of_cons & ?); [by left|right; by exists c].
Qed.

(** A gap leaves a target alone when it is a goal's, and the goal belongs elsewhere. *)
Definition gap_spares (targets : gmap string string) (target : string) (item : json) : Prop :=
  (item.["code"] = JStr GOAL_NOT_VALID \/ item.["code"] = JStr PROVER_TIMEOUT) /\
  exists id other, item.["stable_goal_id"] = JStr id /\ targets !! id = Some other /\ other <> target.

Lemma eq_str_JStr v s : eq_str v s = true <-> v = JStr s.
Proof. destruct v; simpl; try done. rewrite String.eqb_eq. by split; [intros ->|intros [= ->]]. Qed.

Lemma not_blocked targets target item :
  target ∈ VERIFICATION_TARGETS ->
  target ∉ blocked_by targets item <-> gap_spares targets target item.
Proof.
  intros Ht. unfold blocked_by, gap_spares. rewrite <- !eq_str_JStr, <- orb_true_iff.
  destruct (eq_str _ _ || eq_str _ _).
  2:{ split; [done|by intros [? _]]. }
  destruct (as_str item.["stable_goal_id"]) as [id|] eqn:Eid; cbn [mbind option_bind].
  2:{ split; [done|]. intros (_ & i & o & Hi & _). by rewrite Hi in Eid. }
  assert (Hid : item.["stable_goal_id"] = JStr id) by (destruct (item.["stable_goal_id"]); by simplify_eq/=).
  rewrite Hid. destruct (targets !! id) as [other|] eqn:Eo.
  - rewrite list_elem_of_singleton. split.
    + intros Hne. split; [done|]. exists id, other. by split_and!; [| |congruence].
    + intros (_ & i & o & [= <-] & Ho & Hne) ->. congruence.
  - split; [done|]. intros (_ & i & o & [= <-] & Ho & _). congruence.
Qed.

Lemma target_holds_spec target goals incomplete :
  target ∈ VERIFICATION_TARGETS ->
  target_holds target goals incomplete = true <->
  (exists goal, (goal, target) ∈ goals) /\
  (forall goal, (goal, target) ∈ goals -> own_status_is_proved goal = true) /\
  (forall item, item ∈ incomplete -> gap_spares (target_by_id goals) target item).
Proof.
  intros Ht. unfold target_holds, open_goals, blocked_targets.
  rewrite !andb_true_iff, !negb_true_iff, Nat.eqb_eq, Nat.eqb_neq, count_if_zero, bool_decide_eq_false,
    elem_of_flat_map.
  assert (Hne : length (target_goals target goals) <> 0 <-> exists goal, (goal, target) ∈ goals).
  { destruct (target_goals target goals) as [|g gs] eqn:E; simpl.
    - split; [done|]. intros (g & Hg%elem_of_target_goals). rewrite E in Hg. by apply elem_of_nil in Hg.
    - split; [|done]. intros _. exists g. apply elem_of_target_goals. rewrite E. left. }
  rewrite Hne. split.
  - intros [[He Ho] Hb]. split_and!; [done| |].
    + intros g Hg%elem_of_target_goals. specialize (Ho g Hg). by apply negb_false_iff in Ho.
    + intros item Hi. apply not_blocked; [done|]. intros Hin. apply Hb. by exists item.
  - intros (He & Ho & Hb). split_and!; [done| |].
    + intros g Hg. apply elem_of_target_goals in Hg. by rewrite (Ho g Hg).
    + intros (item & Hi & Hin). specialize (Hb item Hi). by apply not_blocked in Hb.
Qed.

(** ** Properties *)

(** A target is reported to hold exactly when some goal belongs to it, each of
    its goals is proved by WP itself, and every gap of the run is a goal's gap whose
    goal is known to belong to another target.  So it never says more than the
    verdict: a gap about the whole run denies all three. *)
Theorem established_by_target_spec wp_goals incomplete target :
  target ∈ VERIFICATION_TARGETS ->
  exists entry, (established_by_target wp_goals incomplete) .? target = Some entry /\
    (get_bool "holds" entry = Some true <->
     (exists goal, (goal, target) ∈ placed_goals wp_goals) /\
     (forall goal, (goal, target) ∈ placed_goals wp_goals -> own_status_is_proved goal = true) /\
     (forall item, item ∈ incomplete -> gap_spares (target_by_id (placed_goals wp_goals)) target item)).
Proof.
  intros Ht. eexists. split; [by apply established_entry|]. rewrite <- target_holds_spec by done.
  unfold target_entry, get_bool. simpl. destruct (target_holds _ _ _); by split; [|intros [=]].
Qed.

Lemma established_by_target_spec_witness :
  exists entry, (established_by_target
    (JArr [JObj [("wpo", JStr "typed_f_ensures"); ("fct", JStr "f"); ("stable_goal_id", JStr "g1");
                 ("normalized_status", JStr "valid")];
           JObj [("wpo", JStr "typed_f_terminates"); ("fct", JStr "f"); ("stable_goal_id", JStr "g2");
                 ("normalized_status", JStr "timeout")]])
    [gap GOAL_NOT_VALID [("stable_goal_id", JStr "g2")]]) .? "functional" = Some entry /\
    entry = JObj [("goals", jnat 1); ("open", jnat 0); ("holds", JBool true)].
Proof.
  match goal with |- exists entry, (established_by_target ?w ?i) .? _ = _ /\ _ =>
    destruct (established_by_target_spec w i "functional" ltac:(decide_closed)) as (entry & He & _) end.
  exists entry. split; [exact He|]. vm_compute in He. by injection He as <-.
Defined.

(** A verdict of proved does not make every target with goals hold: a goal that
    counts as progress by its property, while its own verdict is a timeout, leaves
    no gap and keeps its target open. *)
Lemma proved_verdict_open_target :
  let goals := JArr [JObj [("wpo", JStr "typed_f_ensures"); ("property", JStr "#p1");
                           ("normalized_status", JStr "timeout"); ("counts_as_progress", JBool true)]] in
  check_incomplete_items id (Some true) demo_reload demo_eva (JArr []) demo_wp goals BOTH = [] /\
  (established_by_target goals []) .? "functional"
  = Some (JObj [("goals", jnat 1); ("open", jnat 1); ("holds", JBool false)]).
Proof. split; vm_compute; reflexivity. Qed.
