(* ===== verification/Pins.v ===== *)
(** * Pinned properties and SV-COMP harnesses (src/src/mcp/checkgaps.rs, acsl.rs)

    Two ways a caller states what has to be proved: properties pinned by their text,
    and a harness whose error call must be unreachable.  Both compare predicates up
    to spelling. *)

From S2P Require Import Prelude RustStr Json Status Rows Verdicts GapCodes Gaps.
Import incomplete_code.

(** ** Predicates up to spelling *)

(** acsl.rs: Frama-C's printer writes operators in Unicode.  The characters are
    their UTF-8 bytes, and UTF-8 being self-synchronizing, replacing the bytes at
    any offset replaces exactly the characters. *)
Definition ACSL_UNICODE_OPERATORS : list (string * string) :=
  [("≤", "<="); ("≥", ">="); ("≡", "=="); ("≢", "!="); ("≠", "!="); ("⇔", "<==>"); ("⇒", "==>");
   ("∧", "&&"); ("∨", "||"); ("⊕", "^^"); ("¬", "!"); ("∀", "\forall"); ("∃", "\exists");
   ("ℤ", "integer"); ("ℝ", "real")].

Fixpoint ascii_operators_go (fuel : nat) (text : string) : string :=
  match fuel with
  | O => text
  | S fuel =>
    match find_map (fun '(unicode, ascii) =>
             (fun rest => (ascii, rest)) <$> strip_prefix unicode text) ACSL_UNICODE_OPERATORS with
    | Some (ascii, rest) => ascii +s+ ascii_operators_go fuel rest
    | None =>
      match text with
      | "" => ""
      | String c rest => String c (ascii_operators_go fuel rest)
      end
    end
  end.
Definition ascii_acsl_operators (text : string) : string :=
  ascii_operators_go (String.length text) text.

Definition ident_start (c : ascii) : bool :=
  is_ascii_upper c || is_ascii_lower c || Ascii.eqb c "_".
Definition ident_char (c : ascii) : bool := is_ascii_alphanumeric c || Ascii.eqb c "_".

Definition take_ident (s : string) : option (string * string) :=
  match s with
  | String c rest =>
    if ident_start c then
      let tail := take_while ident_char rest in
      Some (String c tail, skip (String.length tail) rest)
    else None
  | "" => None
  end.

(** A match, at the start of [s], of the pattern of [normalize_predicate]: the text
    backslash-old and a parenthesis, an identifier with white space around it, and the
    closing parenthesis.  It gives the captured name and what follows the match.  The
    classes of the pattern's parts exclude one another, so the leftmost match is the
    greedy one. *)
Definition match_old (s : string) : option (string * string) :=
  match strip_prefix "\old(" s with
  | None => None
  | Some s =>
    match take_ident (trim_start s) with
    | None => None
    | Some (name, s) => (fun rest => (name, rest)) <$> strip_prefix ")" (trim_start s)
    end
  end.

(** [replace_all] with the closure that unwraps a formal and keeps the rest. *)
Fixpoint unwrap_old_go (fuel : nat) (formals : list string) (s : string) : string :=
  match fuel with
  | O => s
  | S fuel =>
    match match_old s with
    | Some (name, rest) =>
      (if bool_decide (name ∈ formals) then name
       else take_str (String.length s - String.length rest) s)
      +s+ unwrap_old_go fuel formals rest
    | None =>
      match s with
      | "" => ""
      | String c rest => String c (unwrap_old_go fuel formals rest)
      end
    end
  end.
Definition unwrap_old (formals : list string) (s : string) : string :=
  unwrap_old_go (String.length s) formals s.

Definition normalize_predicate (text : string) (formals : list string) : string :=
  remove_ws (ascii_acsl_operators (trim_end_char ";" (trim (unwrap_old formals text)))).

(** ** Pins *)

Definition POST_STATE_KINDS : list string := ["ensures"; "exits"; "breaks"; "continues"; "returns"].

Record PinnedProperty := mkPin {
  pin_predicate : string;
  pin_function : option string;
  pin_kind : option string;
}.

(** The formals a row's predicate is compared under. *)
Definition row_formals (formals : gmap string (list string)) (row : json) : list string :=
  let post_state := one_of (unwrap_or (as_str row.["kind"]) "") POST_STATE_KINDS in
  unwrap_or (opt_filter (fun _ => post_state) (as_str row.["scope"]) ≫= (fun marker => formals !! marker)) [].

Definition pin_in_scope (scopes : gmap string string) (pin : PinnedProperty) (row : json) : bool :=
  match pin_function pin with
  | None => true
  | Some name =>
    match scopes !! name with
    | None => false
    | Some marker => as_str row.["scope"] =?s marker
    end
  end.

Definition pin_matches (scopes : gmap string string) (formals : gmap string (list string))
    (pin : PinnedProperty) (row : json) : bool :=
  pin_in_scope scopes pin row
  && is_none_or (eq_str row.["kind"]) (pin_kind pin)
  && let own := row_formals formals row in
     is_some_and (fun text => normalize_predicate text own =s normalize_predicate (pin_predicate pin) own)
       (get_str "predicate" row).

Definition pinned_json (pin : PinnedProperty) : json :=
  JObj [("predicate", JStr (pin_predicate pin)); ("function", jopt JStr (pin_function pin));
        ("kind", jopt JStr (pin_kind pin))].

Definition pin_gap (scopes : gmap string string) (formals : gmap string (list string))
    (properties : list json) (pin : PinnedProperty) : option json :=
  let matching := bfilter (pin_matches scopes formals pin) properties in
  match matching with
  | [] =>
    Some (gap PINNED_PROPERTY_MISSING
      [("reason", JStr "No property in the program matches this pin, so the property that was asked for is not what was proved.");
       ("pinned", pinned_json pin)])
  | _ =>
    if negb (existsb own_status_is_proved matching) then
      Some (gap PINNED_PROPERTY_NOT_PROVED
        [("reason", JStr "The pinned property is present and not proved.");
         ("pinned", pinned_json pin);
         ("statuses", JArr (map (fun row => JStr (unwrap_or (own_status row) "unknown")) matching))])
    else None
  end.

Definition pinned_property_gaps (pins : list PinnedProperty) (properties : list json)
    (scopes : gmap string string) (formals : gmap string (list string)) : list json :=
  collect_some (pin_gap scopes formals properties) pins.

(** ** Harnesses *)

Definition SVCOMP_PROPERTY_FUNCTIONS : list (string * string) :=
  [("reach_error", "requires \false;"); ("__VERIFIER_error", "requires \false;");
   ("__VERIFIER_assert", "requires <its parameter> != 0;")].

Definition is_error_function (name : string) : bool := negb (name =s "__VERIFIER_assert").

Definition unencoded_harness (functions : list (string * bool)) : list json :=
  collect_some (fun '(name, requires) =>
    if existsb (fun '(f, encoded) => (f =s name) && negb encoded) functions
    then Some (JObj [("function", JStr name); ("suggested_requires", JStr requires)])
    else None) SVCOMP_PROPERTY_FUNCTIONS.

Definition reachability_property_gap (functions : list (string * bool)) : option json :=
  let deciding :=
    if existsb (fun '(f, _) => is_error_function f) functions
    then bfilter (fun '(f, _) => is_error_function f) functions
    else functions in
  if forallb snd deciding then None
  else
    let unencoded := unencoded_harness functions in
    match unencoded with
    | [] => None
    | _ => Some (gap REACHABILITY_PROPERTY_UNENCODED
        [("reason", JStr "The program states its property as an error call that must be unreachable, and no precondition on that call makes it a proof obligation, so no goal checks the property.");
         ("functions", JArr unencoded)])
    end.

(** A harness function the program declares: name, declaration marker, formals. *)
Definition harness : Type := string * string * list string.

Definition harness_clauses (name : string) (formals : list string) : list string :=
  if name =s "__VERIFIER_assert" then
    match formals with
    | p :: _ => [p +s+ "!=0"; "0!=" +s+ p; p; "!(" +s+ p +s+ "==0)"]
    | [] => []
    end
  else ["\false"].

Definition clause_encodes (declaration : string) (formals clauses : list string) (prop : json) : bool :=
  eq_str prop.["kind"] "requires"
  && (as_str prop.["scope"] =?s declaration)
  && is_some_and (fun p => bool_decide (normalize_predicate p formals ∈ clauses)) (as_str prop.["predicate"]).

Definition harness_encoding (present : list harness) (properties : list json) : list (string * bool) :=
  map (fun '(name, declaration, formals) =>
    (name, existsb (clause_encodes declaration formals (harness_clauses name formals)) properties)) present.

(** ** Lemmas *)

Lemma pin_gap_None scopes formals properties pin :
  pin_gap scopes formals properties pin = None <->
  exists row, row ∈ properties /\ pin_matches scopes formals pin row = true /\
    own_status_is_proved row = true.
Proof.
  unfold pin_gap. destruct (bfilter _ properties) as [|r rs] eqn:E.
  - split; [done|]. intros (row & Hin & Hm & _). rewrite bfilter_nil in E. by rewrite E in Hm.
  - rewrite <- E. clear E. transitivity (existsb own_status_is_proved (bfilter (pin_matches scopes formals pin) properties) = true).
    { by destruct (existsb _ _). }
    rewrite existsb_true. split.
    + intros (row & [? ?]%elem_of_bfilter & ?). by exists row.
    + intros (row & ? & ? & ?). exists row. split; [by apply elem_of_bfilter|done].
Qed.

(** The name a reachability entry is about. *)
Lemma elem_of_unencoded functions v :
  v ∈ unencoded_harness functions <->
  exists name requires, (name, requires) ∈ SVCOMP_PROPERTY_FUNCTIONS /\ (name, false) ∈ functions /\
    v = JObj [("function", JStr name); ("suggested_requires", JStr requires)].
Proof.
  unfold unencoded_harness. rewrite elem_of_collect_some. split.
  - intros ([name requires] & Hin & H). destruct (existsb _ functions) eqn:E; [|done].
    injection H as <-. apply existsb_true in E as ([f e] & Hf & Hfe). bool_simpl. subst.
    by exists name, requires.
  - intros (name & requires & Hin & Hf & ->). exists (name, requires). split; [done|].
    assert (existsb (fun '(f, e) => (f =s name) && negb e) functions = true) as ->; [|done].
    apply existsb_true. exists (name, false). split; [done|]. by rewrite String.eqb_refl.
Qed.

Definition known_harness (functions : list (string * bool)) : Prop :=
  forall f e, (f, e) ∈ functions -> f ∈ SVCOMP_PROPERTY_FUNCTIONS.*1.

Lemma known_unencoded functions f :
  known_harness functions -> (f, false) ∈ functions -> unencoded_harness functions <> [].
Proof.
  intros Hk Hf H. apply Hk in Hf as Hn. apply list_elem_of_fmap in Hn as ([name requires] & -> & Hin).
  assert (Hv : JObj [("function", JStr name); ("suggested_requires", JStr requires)] ∈ unencoded_harness functions).
  { apply elem_of_unencoded. by exists name, requires. }
  rewrite H in Hv. by apply elem_of_nil in Hv.
Qed.

(** The functions that decide whether the harness is encoded. *)
Definition deciding_functions (functions : list (string * bool)) : list (string * bool) :=
  if existsb (fun '(f, _) => is_error_function f) functions
  then bfilter (fun '(f, _) => is_error_function f) functions
  else functions.

Lemma deciding_sub functions x : x ∈ deciding_functions functions -> x ∈ functions.
Proof. unfold deciding_functions. case_match; [intros Hin; apply (elem_of_bfilter _ _ x) in Hin; tauto|done]. Qed.

Lemma reachability_gap_None functions :
  known_harness functions ->
  reachability_property_gap functions = None <-> forall f e, (f, e) ∈ deciding_functions functions -> e = true.
Proof.
  intros Hk. unfold reachability_property_gap. fold (deciding_functions functions).
  destruct (forallb snd (deciding_functions functions)) eqn:E.
  - split; [|done]. intros _ f e Hin. rewrite forallb_true in E. by apply (E (f, e)).
  - split.
    + destruct (unencoded_harness functions) eqn:Eu; [|done]. intros _ f e Hin.
      destruct e; [done|]. exfalso. by apply (known_unencoded functions f Hk (deciding_sub _ _ Hin)).
    + intros H. exfalso. rewrite <- not_true_iff_false in E. apply E. apply forallb_true.
      intros [f e] Hin. by apply (H f).
Qed.

Lemma as_str_Some v s : as_str v = Some s <-> v = JStr s.
Proof. destruct v; simpl; split; intros; simplify_eq/=; done. Qed.

Lemma eq_str_Some v s : eq_str v s = true <-> v = JStr s.
Proof. destruct v; simpl; rewrite ?String.eqb_eq; split; intros; simplify_eq/=; done. Qed.

Lemma clause_encodes_true declaration formals clauses row :
  clause_encodes declaration formals clauses row = true <->
  row.["kind"] = JStr "requires" /\ row.["scope"] = JStr declaration /\
  exists p, row.["predicate"] = JStr p /\ normalize_predicate p formals ∈ clauses.
Proof.
  unfold clause_encodes.
  rewrite !andb_true_iff, opt_eqb_string_Some, is_some_and_true, as_str_Some, eq_str_Some. split.
  - intros [[? ?] (p & Hp & Hb)]. apply as_str_Some in Hp. apply bool_decide_eq_true in Hb. eauto 6.
  - intros (? & ? & p & Hp & Hb). split; [done|]. exists p. by rewrite as_str_Some, bool_decide_eq_true.
Qed.

Definition encodes (properties : list json) (name declaration : string) (formals : list string) : bool :=
  existsb (clause_encodes declaration formals (harness_clauses name formals)) properties.

Lemma elem_of_harness_encoding present properties name e :
  (name, e) ∈ harness_encoding present properties <->
  exists d fs, (name, d, fs) ∈ present /\ e = encodes properties name d fs.
Proof.
  unfold harness_encoding. rewrite list_elem_of_In, in_map_iff. split.
  - intros ([[n d] fs] & [= <- <-] & Hin%list_elem_of_In). eauto.
  - intros (d & fs & Hin & ->). exists (name, d, fs). split; [done|by apply list_elem_of_In].
Qed.

(** Whether a declared function is one of those that decide. *)
Definition decides (present : list harness) (name : string) : Prop :=
  is_error_function name = true \/ forall h, h ∈ present -> is_error_function h.1.1 = false.

Lemma elem_of_deciding present properties name e :
  (name, e) ∈ deciding_functions (harness_encoding present properties) <->
  exists d fs, (name, d, fs) ∈ present /\ decides present name /\ e = encodes properties name d fs.
Proof.
  unfold deciding_functions, decides.
  destruct (existsb _ (harness_encoding present properties)) eqn:E.
  - rewrite elem_of_bfilter, elem_of_harness_encoding. apply existsb_true in E as ([n1 e1] & H1 & Herr).
    apply elem_of_harness_encoding in H1 as (d1 & fs1 & H1 & _). split.
    + intros [(d & fs & ? & ->) Hn]. eauto 6.
    + intros (d & fs & ? & [Hn|Hall] & ->); [eauto 6|]. specialize (Hall _ H1). simpl in Hall. congruence.
  - rewrite elem_of_harness_encoding. rewrite existsb_false in E. split.
    + intros (d & fs & ? & ->). exists d, fs. split_and!; [done| |done]. right.
      intros [[n1 d1] fs1] H1. apply (E (n1, encodes properties n1 d1 fs1)).
      apply elem_of_harness_encoding. eauto.
    + intros (d & fs & ? & _ & ->). eauto.
Qed.

(** ** Properties *)

(** Pins leave no gap exactly when each has a row that matches it and is
    proved; a pin whose function does not resolve always leaves one, and is
    reported missing rather than matched in every scope. *)
Theorem pinned_property_gaps_spec pins properties scopes formals :
  (pinned_property_gaps pins properties scopes formals = [] <->
   forall pin, pin ∈ pins -> exists row, row ∈ properties /\
     pin_matches scopes formals pin row = true /\ own_status_is_proved row = true) /\
  (forall pin name, pin ∈ pins -> pin_function pin = Some name -> scopes !! name = None ->
     exists g, g ∈ pinned_property_gaps pins properties scopes formals /\
       gap_code g = Some PINNED_PROPERTY_MISSING /\ get "pinned" g = Some (pinned_json pin)).
Proof.
  unfold pinned_property_gaps. split.
  - rewrite collect_some_nil. split; intros H pin Hp.
    + apply pin_gap_None. auto.
    + apply pin_gap_None. auto.
  - intros pin name Hp Hf Hs.
    assert (Hnil : bfilter (pin_matches scopes formals pin) properties = []).
    { apply bfilter_nil. intros row _. unfold pin_matches, pin_in_scope. by rewrite Hf, Hs. }
    eexists. split; [apply elem_of_collect_some; exists pin; split; [done|]; unfold pin_gap; by rewrite Hnil|].
    done.
Qed.

(** A harness leaves no gap exactly when it is encoded: every error function
    declared has a precondition that says false, or, where no error function is
    declared, every __VERIFIER_assert has one that says its parameter is not zero. *)
Theorem harness_gap_spec present properties :
  (forall h, h ∈ present -> h.1.1 ∈ SVCOMP_PROPERTY_FUNCTIONS.*1) ->
  reachability_property_gap (harness_encoding present properties) = None <->
  forall name declaration formals, (name, declaration, formals) ∈ present ->
    decides present name ->
    exists row, row ∈ properties /\ row.["kind"] = JStr "requires" /\ row.["scope"] = JStr declaration /\
      exists p, row.["predicate"] = JStr p /\ normalize_predicate p formals ∈ harness_clauses name formals.
Proof.
  intros Hk. rewrite reachability_gap_None.
  2:{ intros f e (d & fs & Hin & _)%elem_of_harness_encoding. by apply (Hk (f, d, fs)). }
  split.
  - intros H name d fs Hin Hd.
    assert (He : encodes properties name d fs = true) by (apply (H name), elem_of_deciding; eauto).
    apply existsb_true in He as (row & ? & Hr%clause_encodes_true). by exists row.
  - intros H n e (d & fs & Hin & Hd & ->)%elem_of_deciding.
    destruct (H n d fs Hin Hd) as (row & ? & Hr%clause_encodes_true).
    apply existsb_true. by exists row.
Qed.

Lemma harness_gap_spec_witness :
  reachability_property_gap
    (harness_encoding [("reach_error", "#d1", [])]
       [JObj [("kind", JStr "requires"); ("scope", JStr "#d1"); ("predicate", JStr " \false ;")]]) = None.
Proof.
  apply harness_gap_spec.
  - intros h Hh. apply list_elem_of_singleton in Hh as ->. decide_closed.
  - intros name d fs Hin _. apply list_elem_of_singleton in Hin as [= -> -> ->].
    eexists. split; [left|]. split; [reflexivity|]. split; [reflexivity|].
    eexists. split; [reflexivity|]. decide_closed.
Defined.

(** Two spellings of one postcondition, and a weakening told from it. *)
Example predicates_compared :
  normalize_predicate "\result ≥ \old( n ) ∧ n ≢ 0 ;" ["n"] = normalize_predicate "\result >= n && n != 0" ["n"] /\
  normalize_predicate "g == \old(g)" ["n"] <> normalize_predicate "g == g" ["n"].
Proof. split; vm_compute; [reflexivity|discriminate]. Qed.
