(* ===== verification/NextCall.v ===== *)
(** * What a check tells the caller to do next (src/src/mcp/checkgaps.rs, analysis.rs) *)

From S2P Require Import Prelude RustStr Json Status Rows Verdicts GapCodes Gaps.
Import incomplete_code.

(** ** The first open thing *)

Definition lemma_next_call (marker : string) : json :=
  JObj [("tool", JStr "get_wp_goals");
        ("args", JObj [("want", JArr [JStr "investigation"]); ("marker", JStr marker); ("depth", JStr "deep")]);
        ("reason", JStr "A lemma is assumed by every goal around it and no prover discharged it, so the proofs that rest on it are worth no more than the lemma is. A lemma over a recursive logic function usually needs induction rather than a longer timeout.")].

Definition first_unproved_lemma_next_call (alarms wp_goals : json) : option json :=
  as_array alarms ≫= find_map (fun property =>
    if negb (property_is_unproved_lemma property wp_goals) then None
    else lemma_next_call <$> value_marker property).

Definition alarm_next_call (marker : string) : json :=
  JObj [("tool", JStr "get_wp_goals");
        ("args", JObj [("want", JArr [JStr "investigation"]); ("marker", JStr marker); ("depth", JStr "normal")]);
        ("reason", JStr "EVA reported a runtime-error alarm that needs investigation.")].

Definition first_alarm_next_call (alarms : json) : option json :=
  as_array alarms ≫= find_map (fun alarm =>
    if negb (alarm_is_undischarged alarm) then None
    else alarm_next_call <$> value_marker alarm).

(** [Value::get] on a classification that may be null. *)
Definition classification_with_advice (goal : json) (goals : list json) : json :=
  let classification := field "failure_classification" goal in
  match classification .? "advice" with
  | Some _ => classification
  | None =>
    match get_str "advice_key" classification with
    | None => classification
    | Some key =>
      let advice := find_map (fun sibling =>
        match sibling .? "failure_classification" with
        | None => None
        | Some sibling => if get_str "advice_key" sibling =?s key then sibling .? "advice" else None
        end) goals in
      match advice with
      | Some advice => map_object (map_insert "advice" advice) classification
      | None => classification
      end
    end
  end.

(** A goal whose own status, however spelled, or whose property says valid. *)
Definition goal_reads_valid (goal : json) : bool :=
  ((get_str "normalized_status" goal <||> get_str "normalized_property_status" goal) =?s "valid")
  || ((to_ascii_lowercase <$> get_str "raw_status" goal) =?s "valid").

Definition wp_goal_next_call (goals : list json) (function : option string) (goal : json) : json :=
  let classification := classification_with_advice goal goals in
  match function with
  | Some function =>
    JObj [("tool", JStr "get_wp_goals");
          ("args", JObj [("want", JArr [JStr "vc"]); ("function", JStr function)]);
          ("reason", JStr "WP has a non-valid goal; inspect VC details and the attached failure_classification before changing the annotation.");
          ("classification", classification)]
  | None =>
    JObj [("tool", JStr "get_wp_goals"); ("args", JObj []);
          ("reason", JStr "WP has a non-valid goal; inspect its failure_classification before changing the annotation.");
          ("classification", classification)]
  end.

Definition first_wp_goal_next_call (goals : json) (function : option string) : option json :=
  as_array goals ≫= fun goals =>
    find_map (fun goal =>
      if goal_reads_valid goal then None else Some (wp_goal_next_call goals function goal)) goals.

(** ** The fallbacks *)

Definition CONCURRENT_NEXT_CALL : json :=
  JObj [("tool", JStr "analyze_concurrency"); ("args", JObj []);
        ("reason", JStr "The program creates threads and every sequential obligation that remains open is listed above it, so what is left unexamined is the interleaving: race and deadlock candidates.")].

Definition concurrent_program_next_call (incomplete : list json) : option json :=
  then_some
    (existsb (fun item =>
       eq_str item.["code"] CONCURRENT_PROGRAM
       && is_some_and (existsb (fun name => eq_str name "pthread_create"))
            (as_array item.["thread_creation"])) incomplete)
    CONCURRENT_NEXT_CALL.

Definition incomplete_codes (incomplete : list json) : list string := collect_some gap_code incomplete.

Definition check_blocked_reason (incomplete : list json) : string :=
  let codes := incomplete_codes incomplete in
  match codes with
  | [] => "EVA and WP did not report an immediate non-valid target."
  | _ =>
    let blocking := if (length codes =? 1)%nat then "one gap still blocks" else "several gaps still block" in
    "No non-valid alarm or goal to target, but " +s+ blocking +s+ " a proved verdict: "
    +s+ join ", " codes +s+ "."
  end.

Definition CLEAN_REASON : string :=
  "Every goal is valid, which says the code matches the contract, not that the contract was worth matching. Smoke tests, which look for vacuity, are off by default: check {smoke: true} is the check that sees an over-strong requires, which proves everything and silently excludes the branch it forbids.".

Record NextCallInputs := mkNextCall {
  backend_diagnosis : json;
  anomaly_left_goals_unjudged : bool;
  eva_alarms : json;
  wp_goals : json;
  incomplete : list json;
  wanted : WantedAnalyses;
  function : option string;
}.

Definition fallback_next_call (i : NextCallInputs) : json :=
  let both := want_eva (wanted i) && want_wp (wanted i) in
  JObj [("tool", JStr (if both then "get_wp_goals" else "check"));
        ("args", if both then JObj [("want", JArr [JStr "counts"])]
                 else JObj [("want", JArr [JStr "eva"; JStr "wp"])]);
        ("reason", JStr match incomplete i with
                        | [] => CLEAN_REASON
                        | _ => check_blocked_reason (incomplete i)
                        end)].

(** The calls that name something open, in the order they are preferred. *)
Definition targeted_next_call (i : NextCallInputs) : option json :=
  opt_filter (fun value => anomaly_left_goals_unjudged i && is_object value)
    ((backend_diagnosis i) .? "next_action")
  <||> first_unproved_lemma_next_call (eva_alarms i) (wp_goals i)
  <||> first_alarm_next_call (eva_alarms i)
  <||> first_wp_goal_next_call (wp_goals i) (function i).

Definition check_next_call (i : NextCallInputs) : json :=
  unwrap_or
    (targeted_next_call i
     <||> opt_filter (fun _ => want_eva (wanted i) && want_wp (wanted i))
            (concurrent_program_next_call (incomplete i)))
    (fallback_next_call i).

(** ** Lemmas *)

Lemma contains_app_here needle s : contains needle (needle +s+ s) = true.
Proof.
  pose proof (starts_with_app needle s) as H. revert H.
  generalize (needle +s+ s) as x. intros [|c x] H; cbn [contains]; by rewrite H.
Qed.

Lemma contains_join needle sep l tail : needle ∈ l -> contains needle (join sep l +s+ tail) = true.
Proof.
  intros Hin. induction l as [|x l IH]; [by apply elem_of_nil in Hin|].
  apply elem_of_cons in Hin as [->|Hin].
  - destruct l as [|y l]; [apply contains_app_here|].
    change (join sep (x :: y :: l)) with (x +s+ sep +s+ join sep (y :: l)).
    rewrite app_str_assoc. apply contains_app_here.
  - destruct l as [|y l]; [by apply elem_of_nil in Hin|].
    change (join sep (x :: y :: l)) with (x +s+ sep +s+ join sep (y :: l)).
    rewrite !app_str_assoc. by apply contains_app_r, contains_app_r, IH.
Qed.

Lemma first_alarm_None alarms :
  first_alarm_next_call alarms = None <->
  forall alarm, alarm ∈ array_or_empty alarms ->
    alarm_is_undischarged alarm = false \/ value_marker alarm = None.
Proof.
  unfold first_alarm_next_call, array_or_empty. destruct (as_array alarms) as [l|]; simpl.
  2:{ split; [intros _ a Ha; by apply elem_of_nil in Ha|done]. }
  rewrite find_map_None. split; intros H a Ha; specialize (H a Ha);
    destruct (alarm_is_undischarged a), (value_marker a); simpl in *; auto; first [done|by destruct H].
Qed.

Lemma first_lemma_None alarms goals :
  first_unproved_lemma_next_call alarms goals = None <->
  forall row, row ∈ array_or_empty alarms ->
    property_is_unproved_lemma row goals = false \/ value_marker row = None.
Proof.
  unfold first_unproved_lemma_next_call, array_or_empty. destruct (as_array alarms) as [l|]; simpl.
  2:{ split; [intros _ a Ha; by apply elem_of_nil in Ha|done]. }
  rewrite find_map_None. split; intros H a Ha; specialize (H a Ha);
    destruct (property_is_unproved_lemma a goals), (value_marker a); simpl in *; auto; first [done|by destruct H].
Qed.

Lemma first_goal_None goals f :
  first_wp_goal_next_call goals f = None <->
  forall goal, goal ∈ array_or_empty goals -> goal_reads_valid goal = true.
Proof.
  unfold first_wp_goal_next_call, array_or_empty. destruct (as_array goals) as [l|]; simpl.
  2:{ split; [intros _ a Ha; by apply elem_of_nil in Ha|done]. }
  rewrite find_map_None. split; intros H a Ha; specialize (H a Ha); by destruct (goal_reads_valid a).
Qed.

(** ** Properties *)

(** The call falls back to a general one only when nothing open can be named:
    no undischarged alarm and no undischarged lemma with a marker, and no goal that
    reads as anything but valid; and then its reason spells every code that blocks
    the verdict. *)
Theorem check_next_call_fallback i :
  targeted_next_call i = None ->
  (forall row, row ∈ array_or_empty (eva_alarms i) -> value_marker row <> None ->
     alarm_is_undischarged row = false /\ property_is_unproved_lemma row (wp_goals i) = false) /\
  (forall goal, goal ∈ array_or_empty (wp_goals i) -> goal_reads_valid goal = true) /\
  (check_next_call i = CONCURRENT_NEXT_CALL \/
   exists reason, get_str "reason" (check_next_call i) = Some reason /\
     forall item code, item ∈ incomplete i -> gap_code item = Some code -> contains code reason = true).
Proof.
  intros H. unfold check_next_call. rewrite H. simpl. unfold targeted_next_call in H.
  apply or_else_None in H as [H Hg]. apply or_else_None in H as [H Ha]. apply or_else_None in H as [_ Hl].
  rewrite first_goal_None in Hg. rewrite first_alarm_None in Ha. rewrite first_lemma_None in Hl.
  split_and!.
  - intros row Hr Hm. destruct (Ha row Hr), (Hl row Hr); done.
  - done.
  - unfold concurrent_program_next_call.
    destruct (existsb _ (incomplete i)); simpl then_some; simpl opt_filter;
      [destruct (_ && _); [by left|]|]; right; eexists; (split; [done|]);
      intros item code Hi Hc; destruct (incomplete i) as [|it its] eqn:Ei;
      try (by apply elem_of_nil in Hi);
      unfold check_blocked_reason;
      (assert (Hin : code ∈ incomplete_codes (it :: its)) by (apply elem_of_collect_some; eauto));
      destruct (incomplete_codes (it :: its)); try (by apply elem_of_nil in Hin);
      apply contains_app_r, contains_app_r, contains_app_r; by apply contains_join.
Qed.

Lemma check_next_call_fallback_witness :
  exists reason,
    get_str "reason" (check_next_call (mkNextCall JNull false (JArr []) (JArr [])
      [gap RTE_DISABLED []; gap WP_WEAKENED_MODEL []] BOTH None)) = Some reason /\
    contains "WP_WEAKENED_MODEL" reason = true.
Proof.
  destruct (check_next_call_fallback (mkNextCall JNull false (JArr []) (JArr [])
      [gap RTE_DISABLED []; gap WP_WEAKENED_MODEL []] BOTH None) eq_refl) as (_ & _ & [H|(r & Hr & Hc)]).
  - vm_compute in H. discriminate H.
  - exists r. split; [exact Hr|].
    apply (Hc (gap WP_WEAKENED_MODEL []) WP_WEAKENED_MODEL); [right; left|reflexivity].
Defined.
