(* ===== verification/Variants.v ===== *)
(** * One program under several configurations (src/src/mcp/checkgaps.rs)

    A variant run checks one source under several configurations and compares what
    each analysed.  The digest of a machdep file is the caller's [file_digest]. *)

From S2P Require Import Prelude RustStr Json Status Verdicts.

Definition machdep_digest (file_digest : string -> option string) (machdep : option string)
    : option string :=
  machdep ≫= file_digest.

Definition NUL : string := String (ascii_of_nat 0) "".

Definition variant_program_key (entry : json) : option string :=
  match get_str "ast_digest" entry with
  | None => None
  | Some digest =>
    let machine := unwrap_or (get_str "machdep_digest" entry <||> get_str "machdep" entry) "" in
    Some (digest +s+ NUL +s+ machine)
  end.

(** ** Labels *)

Definition numbered (label : string) (suffix : nat) : string := label +s+ "#" +s+ dec suffix.

(** The first number from [from] on whose label is free.  The labels differ, so one
    more try than there are labels taken is enough. *)
Fixpoint first_free (fuel : nat) (taken : gset string) (label : string) (from : nat) : option string :=
  match fuel with
  | O => None
  | S fuel =>
    let candidate := numbered label from in
    if bool_decide (candidate ∈ taken) then first_free fuel taken label (S from) else Some candidate
  end.

Definition claim_label (taken : gset string) (label : string) (from : nat) : string * gset string :=
  if bool_decide (label ∈ taken) then
    match first_free (S (size taken)) taken label from with
    | Some candidate => (candidate, {[candidate]} ∪ taken)
    | None => (label, taken)
    end
  else (label, {[label]} ∪ taken).

(** ** The summary *)

Definition has_duplicate_ast (entry : json) : bool :=
  match entry .? "duplicate_ast" with Some _ => true | None => false end.
Definition entry_proved (entry : json) : bool := get_str "verdict" entry =?s "proved".
Definition lacks_digest (entry : json) : bool :=
  match get_str "ast_digest" entry with Some _ => false | None => true end.

Definition DUPLICATE_REASON : string :=
  "Two or more variants asked for different code and analysed byte-identical ASTs, so they are one configuration checked twice rather than several checked once. Equal goal counts cannot show this; the digests can. Variants that differ only in the WP model are not counted here: no proof option changes the AST, so sharing one is expected.".
Definition UNESTABLISHED_REASON : string :=
  "At least one variant has no AST digest, so it was compared to nothing and this run cannot say whether the configurations differ. Read proof_receipt.subject.ast_digest_unavailable_reason on that variant: the usual causes are the ast-utils plug-in not being installed and printSource outrunning its budget on a large project.".

Definition check_variants_summary (results : list json) : json :=
  let duplicate_count := count_if has_duplicate_ast results in
  let all_proved := forallb entry_proved results in
  let distinct_asts := size (list_to_set (C := gset string) (collect_some variant_program_key results)) in
  let unestablished := count_if lacks_digest results in
  let reason :=
    if (0 <? duplicate_count)%nat then JStr DUPLICATE_REASON
    else if (0 <? unestablished)%nat then JStr UNESTABLISHED_REASON
    else JNull in
  JObj [("schema", JStr "frama-c-mcp.check-variants.v2");
        ("verdict", JStr (if (duplicate_count =? 0)%nat && (unestablished =? 0)%nat && all_proved
                          then "proved" else "incomplete"));
        ("variant_count", jnat (length results));
        ("distinct_asts", jnat distinct_asts);
        ("duplicate_ast_count", jnat duplicate_count);
        ("ast_digest_unavailable_count", jnat unestablished);
        ("reason", reason);
        ("variants", JArr results)].

(** ** Lemmas *)

Lemma numbered_inj label i j : numbered label i = numbered label j -> i = j.
Proof.
  unfold numbered. intros H%app_str_cancel. injection H as H.
  by apply (inj pretty) in H.
Qed.

Lemma first_free_spec fuel taken label from :
  match first_free fuel taken label from with
  | Some c => c ∉ taken /\ exists k, from <= k /\ c = numbered label k /\
      forall i, from <= i < k -> numbered label i ∈ taken
  | None => forall i, from <= i < from + fuel -> numbered label i ∈ taken
  end.
Proof.
  revert from. induction fuel as [|fuel IH]; intros from; simpl; [lia|].
  destruct (bool_decide_reflect (numbered label from ∈ taken)) as [Hin|Hout].
  - specialize (IH (S from)). destruct (first_free fuel taken label (S from)) as [c|].
    + destruct IH as (Hc & k & Hk & -> & Hall). split; [done|]. exists k. split_and!; [lia|done|].
      intros i Hi. destruct (decide (i = from)) as [->|]; [done|]. apply Hall. lia.
    + intros i Hi. destruct (decide (i = from)) as [->|]; [done|]. apply IH. lia.
  - split; [done|]. exists from. split_and!; [lia|done|lia].
Qed.

Lemma first_free_total taken label from : first_free (S (size taken)) taken label from <> None.
Proof.
  intros H. pose proof (first_free_spec (S (size taken)) taken label from) as Hs. rewrite H in Hs.
  set (names := numbered label <$> seq from (S (size taken))).
  assert (Hnd : NoDup names).
  { apply NoDup_fmap_2; [|apply NoDup_seq]. intros i j. apply numbered_inj. }
  assert (Hsub : list_to_set names ⊆ taken).
  { intros x Hx. apply elem_of_list_to_set in Hx.
    apply list_elem_of_fmap in Hx as (i & -> & Hi%elem_of_seq). by apply Hs. }
  apply subseteq_size in Hsub. rewrite size_list_to_set in Hsub by done.
  unfold names in Hsub. rewrite length_fmap, length_seq in Hsub. lia.
Qed.

Lemma claim_label_fresh taken label from :
  let '(got, taken') := claim_label taken label from in
  got ∉ taken /\ taken' = {[got]} ∪ taken.
Proof.
  unfold claim_label. destruct (bool_decide_reflect (label ∈ taken)) as [Hin|Hout]; [|done].
  pose proof (first_free_spec (S (size taken)) taken label from) as Hs.
  pose proof (first_free_total taken label from) as Ht.
  destruct (first_free _ _ _ _) as [c|]; [|done]. split; [apply Hs|done].
Qed.

(** The labels of a run, claimed one after the other. *)
Fixpoint claim_labels (taken : gset string) (labels : list (string * nat)) : list string :=
  match labels with
  | [] => []
  | (label, from) :: labels =>
    let '(got, taken') := claim_label taken label from in got :: claim_labels taken' labels
  end.

Lemma claim_labels_fresh labels taken :
  NoDup (claim_labels taken labels) /\ forall l, l ∈ claim_labels taken labels -> l ∉ taken.
Proof.
  revert taken. induction labels as [|[label from] labels IH]; intros taken; simpl.
  { split; [constructor|]. intros l Hl. by apply elem_of_nil in Hl. }
  pose proof (claim_label_fresh taken label from) as Hc.
  destruct (claim_label taken label from) as [got taken']. destruct Hc as [Hg ->].
  destruct (IH ({[got]} ∪ taken)) as [Hnd Hout]. split.
  - constructor; [|done]. intros Hin. apply (Hout _ Hin). apply elem_of_union. left. by apply elem_of_singleton.
  - intros l [->|Hl]%elem_of_cons; [done|]. intros Ht. apply (Hout _ Hl). apply elem_of_union. by right.
Qed.

Lemma no_duplicates results :
  count_if has_duplicate_ast results = 0 <-> forall e, e ∈ results -> e .? "duplicate_ast" = None.
Proof.
  unfold count_if. rewrite length_zero_iff_nil, bfilter_nil. unfold has_duplicate_ast.
  split; intros Hall e He; specialize (Hall e He); by destruct (e .? "duplicate_ast").
Qed.

Lemma all_digests results :
  count_if lacks_digest results = 0 <->
  forall e, e ∈ results -> exists digest, get_str "ast_digest" e = Some digest.
Proof.
  unfold count_if. rewrite length_zero_iff_nil, bfilter_nil. unfold lacks_digest.
  split; intros Hall e He; specialize (Hall e He); destruct (get_str "ast_digest" e); eauto; try done.
  by destruct Hall.
Qed.

Lemma all_entries_proved results :
  forallb entry_proved results = true <->
  forall e, e ∈ results -> get_str "verdict" e = Some "proved".
Proof.
  rewrite forallb_true. unfold entry_proved.
  split; intros Hall e He; specialize (Hall e He); by apply opt_eqb_string_Some.
Qed.

(** ** Properties *)

(** no two variants of a run get the same label, whatever labels the caller
    passes, and a label nobody has taken is kept as it was passed. *)
Theorem claimed_labels_distinct taken labels :
  NoDup (claim_labels taken labels) /\
  (forall l, l ∈ claim_labels taken labels -> l ∉ taken) /\
  (forall label from, label ∉ taken -> (claim_label taken label from).1 = label).
Proof.
  destruct (claim_labels_fresh labels taken). split_and!; [done..|].
  intros label from Hl. unfold claim_label. by rewrite bool_decide_eq_false_2.
Qed.

(** A variant run is proved exactly when every variant is, every variant has
    the digest it was compared by, and no two analysed the same code under
    different configurations; otherwise what is missing is counted. *)
Theorem check_variants_summary_spec results :
  let s := check_variants_summary results in
  (get_str "verdict" s = Some "proved" <->
   forall entry, entry ∈ results ->
     get_str "verdict" entry = Some "proved" /\ entry .? "duplicate_ast" = None /\
     exists digest, get_str "ast_digest" entry = Some digest) /\
  (get_str "verdict" s = Some "proved" \/ get_str "verdict" s = Some "incomplete") /\
  (s .? "reason" = Some JNull <->
   forall entry, entry ∈ results ->
     entry .? "duplicate_ast" = None /\ exists digest, get_str "ast_digest" entry = Some digest).
Proof.
  cbv zeta. unfold check_variants_summary. set (clean := _ && _ && _).
  assert (Hv : clean = true <-> forall entry, entry ∈ results ->
     get_str "verdict" entry = Some "proved" /\ entry .? "duplicate_ast" = None /\
     exists digest, get_str "ast_digest" entry = Some digest).
  { unfold clean. rewrite !andb_true_iff, !Nat.eqb_eq, no_duplicates, all_digests, all_entries_proved.
    split; [intros [[? ?] ?] e He; by split_and!; auto|].
    intros Hall. split_and!; intros e He; by destruct (Hall e He) as (? & ? & ?). }
  rewrite <- Hv. clearbody clean. split_and!.
  - by destruct clean; split.
  - destruct clean; [by left|by right].
  - transitivity (count_if has_duplicate_ast results = 0 /\ count_if lacks_digest results = 0).
    + simpl. destruct (Nat.ltb_spec 0 (count_if has_duplicate_ast results)); [split; [done|lia]|].
      destruct (Nat.ltb_spec 0 (count_if lacks_digest results)); [split; [done|lia]|]. split; [lia|done].
    + rewrite no_duplicates, all_digests. split; [intros [? ?] e He; by split; auto|].
      intros Hall. split; intros e He; by destruct (Hall e He).
Qed.
