(* ===== verification/StableId.v ===== *)
(** * What names a goal (src/src/mcp/wpclass.rs)

    A goal's kind, the label an injected annotation gave it, and the id that stays
    the same when the project is reloaded.  The regular expression that finds an
    injected label, the rendering of a value and SHA-256 are the section's
    parameters. *)

From S2P Require Import Prelude RustStr Json Status Rows Verdicts Targets.

(** ** Kinds *)

Definition any_contains (needles : list string) (s : string) : bool :=
  existsb (fun needle => contains needle s) needles.

Section ids.
(** The capture of the label pattern in a goal's name. *)
Variable hash_label_in : string -> option string.
(** [serde_json::to_string], whose bytes [to_vec] gives too. *)
Variable to_string : json -> string.
Variable sha256_hex : string -> string.

Definition classify_wp_goal (goal : json) : string * option string :=
  if is_some_and is_terminates_goal (goal_id_after_owner goal) then ("terminates", None)
  else
    let name := unwrap_or (get_str "name" goal) "" in
    let name_lc := to_ascii_lowercase name in
    if any_contains ["signed_overflow"; "unsigned_overflow"; "integer_overflow"; "downcast"] name_lc
    then ("rte_overflow", None)
    else if any_contains ["index_in_bound"; "index_bound"; "array_bound"] name_lc
    then ("rte_bound", None)
    else if any_contains ["division_by_zero"; "div_by_zero"; "modulo"] name_lc
    then ("rte_division", None)
    else if any_contains ["mem_access"; "initialization"; "dangling"; "pointer_validity"] name_lc
    then ("rte_pointer", None)
    else if contains "shift" name_lc then ("rte_shift", None)
    else match hash_label_in name with
         | Some label => ("spec", Some label)
         | None =>
           if any_contains ["assertion"; "user assert"] name_lc then ("user_assert", None)
           else ("spec", None)
         end.

(** ** The stable id *)

Definition normalize_stable_goal_text (value : option json) : string :=
  match value with
  | Some (JStr text) => join " " (split_whitespace text)
  | Some value => to_string value
  | None => ""
  end.

Definition stable_goal_source_key (goal : json) : string :=
  let location := goal .? "source_location" <||> goal .? "source" <||> goal .? "loc" in
  let file := unwrap_or (location ≫= (fun loc => (loc .? "file" <||> loc .? "base") ≫= as_str)) "" in
  let line := unwrap_or (dec_N <$> (location ≫= get_u64 "line")) "" in
  let col := unwrap_or (dec_N <$> (location ≫= get_u64 "col")) "" in
  join ":" [file; line; col].

Definition stable_goal_part_key (goal : json) : string :=
  let wpo := unwrap_or ((goal .? "wpo_id" <||> goal .? "wpo") ≫= as_str) "" in
  match rsplit_once "_part" wpo with
  | Some (_, digits) =>
    if negb (is_empty digits) && sall is_ascii_digit digits then "_part" +s+ digits else ""
  | None => ""
  end.

Definition stable_goal_name_key (goal : json) : string :=
  normalize_stable_goal_text (goal .? "name").

Definition stable_goal_predicate_key (goal : json) : string :=
  normalize_stable_goal_text
    (goal .? "predicate" <||> goal .? "descr" <||> goal .? "goal" <||> goal .? "name").

(** What is hashed. *)
Definition stable_goal_payload (goal : json) (goal_kind : string) (stable_scope : option string) : json :=
  JObj [("scope", JStr (unwrap_or stable_scope (goal_scope_key goal)));
        ("goal_kind", JStr goal_kind);
        ("source_location", JStr (stable_goal_source_key goal));
        ("predicate", JStr (stable_goal_predicate_key goal));
        ("name", JStr (stable_goal_name_key goal));
        ("part", JStr (stable_goal_part_key goal))].

Definition stable_goal_id_for (goal : json) (goal_kind : string) (stable_scope : option string) : string :=
  match get_str "hash_label" goal with
  | Some label => label
  | None =>
    "sg_" +s+ take_str 16 (sha256_hex (to_string (stable_goal_payload goal goal_kind stable_scope)))
  end.

Definition enrich_goal_stable_id (goal : json) (goal_kind : string) (stable_scope : option string) : json :=
  let stable_goal_id := stable_goal_id_for goal goal_kind stable_scope in
  map_object (fun obj0 =>
    let obj := map_or_insert "stable_goal_id" (JStr stable_goal_id) obj0 in
    match map_get "name" obj with
    | Some name => map_or_insert "frama_c_goal_name" name obj
    | None => obj
    end) goal.
End ids.

(** ** Replayed verdicts *)

Definition goal_is_from_cache (goal : json) : option bool := get_bool "from_cache" goal.

(** The plug-in's rows by goal; of two rows for one goal the later one counts. *)
Definition cache_rows (stats0 : json) : gmap string json :=
  let stats := unwrap_or (stats0 .? "result") stats0 in
  fold_left (fun m row =>
    match get_str "wpo" row with Some wpo => <[wpo := row]> m | None => m end)
    (unwrap_or (get_arr "goals" stats) []) ∅.

Definition apply_cache_provenance (goals : list json) (stats : json) : list json :=
  let by_wpo := cache_rows stats in
  map (fun goal =>
    let answer := get_str "wpo" goal ≫= (fun wpo => by_wpo !! wpo ≫= get "best_result_cached") in
    map_object (map_insert "from_cache" (unwrap_or answer JNull)) goal) goals.

(** ** Lemmas *)

(** A tail of digits holds no other part marker. *)
Lemma strip_part_digits digits : sall is_ascii_digit digits = true -> strip_prefix "_part" digits = None.
Proof.
  destruct digits as [|c s]; [done|]. cbn [strip_prefix sall].
  intros [Hc _]%andb_true_iff. destruct (Ascii.eqb "_" c) eqn:E; [|done].
  apply Ascii.eqb_eq in E as <-. done.
Qed.

Lemma rsplit_part_digits digits : sall is_ascii_digit digits = true -> rsplit_once "_part" digits = None.
Proof.
  induction digits as [|c s IH]; [done|].
  intros H. assert (Hs : sall is_ascii_digit s = true) by (simpl in H; by apply andb_true_iff in H as [_ ?]).
  cbn [rsplit_once]. rewrite (IH Hs), (strip_part_digits _ H). done.
Qed.

Lemma rsplit_part stem digits :
  sall is_ascii_digit digits = true ->
  rsplit_once "_part" (stem +s+ "_part" +s+ digits) = Some (stem, digits).
Proof.
  intros H. rewrite (rsplit_once_prepend _ _ _ "" digits), app_str_nil_r; [done|].
  cbn [String.append rsplit_once]. rewrite (rsplit_part_digits _ H). by destruct digits.
Qed.

Lemma part_key_tail goal stem digits :
  (goal .? "wpo_id" <||> goal .? "wpo") ≫= as_str = Some (stem +s+ "_part" +s+ digits) ->
  digits <> "" -> sall is_ascii_digit digits = true ->
  stable_goal_part_key goal = "_part" +s+ digits.
Proof.
  intros Hw Hne Hd. unfold stable_goal_part_key. rewrite Hw. cbn [unwrap_or].
  rewrite rsplit_part, Hd by done. by destruct digits.
Qed.

(** The fields the id reads, the markers and the WP id apart. *)
Definition ID_FIELDS : list string :=
  ["hash_label"; "fct"; "source_location"; "source"; "loc"; "predicate"; "descr"; "goal"; "name"].

(** ** Properties *)

(** A goal keeps its stable id across a reload.  Frama-C renumbers the markers
    and the counter inside a WP id; when two rows name their function and agree on
    the source position and the texts, and their WP ids end in the same part
    number, they have the same id whatever else changed. *)
Theorem stable_id_survives_reload to_string sha256_hex goal goal' kind scope stem stem' digits f :
  (forall k, k ∈ ID_FIELDS -> goal .? k = goal' .? k) ->
  goal .? "fct" = Some f ->
  (goal .? "wpo_id" <||> goal .? "wpo") ≫= as_str = Some (stem +s+ "_part" +s+ digits) ->
  (goal' .? "wpo_id" <||> goal' .? "wpo") ≫= as_str = Some (stem' +s+ "_part" +s+ digits) ->
  digits <> "" -> sall is_ascii_digit digits = true ->
  stable_goal_id_for to_string sha256_hex goal kind scope
  = stable_goal_id_for to_string sha256_hex goal' kind scope.
Proof.
  intros H Hf Hw Hw' Hne Hd.
  assert (Hp : stable_goal_part_key goal = stable_goal_part_key goal')
    by by rewrite (part_key_tail _ _ _ Hw), (part_key_tail _ _ _ Hw').
  assert (Hs : goal_scope_key goal = goal_scope_key goal').
  { unfold goal_scope_key. rewrite <- (H "fct") by decide_closed. by rewrite Hf. }
  unfold stable_goal_id_for, stable_goal_payload, get_str, stable_goal_source_key,
    stable_goal_predicate_key, stable_goal_name_key.
  rewrite Hp, Hs, <- !H by decide_closed. done.
Qed.

Definition demo_part (marker wpo : string) : json :=
  JObj [("fct", JStr "bsearch"); ("scope", JStr marker); ("wpo", JStr wpo);
        ("name", JStr "Assigns nothing"); ("predicate", JStr "assigns \nothing;")].

Lemma stable_id_survives_reload_witness :
  stable_goal_id_for (fun _ => "payload") (fun s => s)
    (demo_part "#F24" "typed_bsearch_assigns_part3") "spec" None
  = stable_goal_id_for (fun _ => "payload") (fun s => s)
    (demo_part "#F51" "typed_bsearch_assigns_3_part3") "spec" None.
Proof.
  apply (stable_id_survives_reload _ _ _ _ _ _ "typed_bsearch_assigns" "typed_bsearch_assigns_3" "3"
           (JStr "bsearch")); [|reflexivity..|done|reflexivity].
  intros k Hk. unfold ID_FIELDS in Hk.
  repeat (apply elem_of_cons in Hk as [->|Hk]; [reflexivity|]).
  by apply not_elem_of_nil in Hk.
Defined.
