(* ===== verification/Receipt.v ===== *)
(** * Proof receipts (src/src/mcp/receipt.rs)

    A receipt pins what a run proved: the sources, the load, the environment, the
    effective WP configuration and the per-goal statuses, under a hash of all of
    it.  Serialization, SHA-256, the files' contents, the label patterns and the
    random nonce are parameters. *)

From S2P Require Import Prelude RustStr BTree Json Status Rows Verdicts GapCodes Targets StableId.

(** ** Source paths

    [Path::components]: repeated separators and inner dots vanish. *)
Inductive component :=
  | RootDir
  | CurDir
  | ParentDir
  | Normal (name : string).

Definition path_component (first : bool) (part : string) : option component :=
  if is_empty part then None
  else if part =s "." then (if first then Some CurDir else None)
  else if part =s ".." then Some ParentDir
  else Some (Normal part).

Definition components (path : string) : list component :=
  match split_char "/"%char path with
  | [] => []
  | part :: parts =>
    (if starts_with "/" path then [RootDir] else [])
    ++ collect_some (path_component true) [part] ++ collect_some (path_component false) parts
  end.

Definition CHECK_SCRATCH_PREFIX : string := "frama-c-check-".

Definition receipt_source_path (file : string) : string :=
  match rev (components file) with
  | Normal name :: Normal dir :: _ => if starts_with CHECK_SCRATCH_PREFIX dir then name else file
  | _ => file
  end.

(** ** The load's identity *)

Record ProjectLoadOptions := mkProjectLoadOptions {
  include_paths : list string;
  defines : list string;
  force_includes : list string;
  machdep : option string;
  compilation_database : option string;
  rte : bool;
  isystem_paths : list string;
  nostdinc : bool;
  unsigned_rte_skipped : bool;
  pointer_rte_requested : bool;
  builtin_models : option string;
}.

Definition jstrings (l : list string) : json := JArr (map JStr l).

(** The struct's own serialization. *)
Definition project_load_identity (o : ProjectLoadOptions) : json :=
  JObj ([("include_paths", jstrings (include_paths o)); ("defines", jstrings (defines o));
         ("force_includes", jstrings (force_includes o)); ("machdep", jopt JStr (machdep o));
         ("compilation_database", jopt JStr (compilation_database o)); ("rte", JBool (rte o));
         ("isystem_paths", jstrings (isystem_paths o)); ("nostdinc", JBool (nostdinc o))]
        ++ (if unsigned_rte_skipped o then [("unsigned_rte_skipped", JBool true)] else [])
        ++ (if pointer_rte_requested o then [("pointer_rte_requested", JBool true)] else [])
        ++ match builtin_models o with Some d => [("builtin_models", JStr d)] | None => [] end).

Definition opt_leb (a b : option string) : bool :=
  match a, b with
  | None, _ => true
  | Some _, None => false
  | Some a, Some b => String.leb a b
  end.

(** The order of pairs. *)
Definition pair_leb (a b : option string * option string) : bool :=
  if opt_eqb String.eqb a.1 b.1 then opt_leb a.2 b.2 else opt_leb a.1 b.1.

Definition receipt_goal_key (goal : json) : option string * option string :=
  (get_str "stable_goal_id" goal, get_str "status" goal).

(** ** Goals *)

Definition receipt_goal_is_progress (goal : json) : bool :=
  is_some_and is_proved (get_str "status" goal)
  && negb (unwrap_or (get_bool "vacuously_proved" goal) false).

Definition receipt_goals_record_owner (goals : list json) : bool :=
  forallb (fun goal => match goal .? "fct" with Some _ => true | None => false end) goals.

(** ** Generated labels *)

Definition label_prefixes : list string := ["re"; "en"; "as"; "li"; "la"; "lv"; "at"; "an"].

Definition strip_generated_label (text : string) : string :=
  let clause :=
    match split_once ": " text with
    | Some (label, rest) =>
      match split_char "_"%char label with
      | prefix :: hex :: _ =>
        if one_of prefix label_prefixes
           && ((String.length hex =? 8)%nat && sall is_ascii_hexdigit hex)
        then rest else text
      | _ => text
      end
    | None => text
    end in
  trim clause.

(** ** The body *)

Definition RECEIPT_SCHEMA : string := "frama-c-mcp.proof-receipt".
Definition POST_BODY_KEY : string := "sha256".
Definition ISOLATED_RETRY_NO_AST : string := "unavailable_isolated_cli_retry".

Definition eva_config_absent (reason : string) : json :=
  JObj [("ran", JBool false); ("reason", JStr reason)].

Record ProofReceiptBody := mkProofReceiptBody {
  tool : string;
  source_files : list json;
  project_load : json;
  ast_digest : json;
  ast_digest_unavailable_reason : json;
  contracts : json;
  environment : json;
  wp_config : json;
  eva_config : json;
  goals : list json;
  goals_status_source : string;
  reported : json;
}.

(** [Map::keys]. *)
Definition keys (v : json) : list string :=
  match v with JObj m => m.*1 | _ => [] end.

Definition SESSION_SCOPED : list string := ["property"; "property_marker"; "kinstr_marker"].

Definition remove_session_scoped (m : jmap) : jmap :=
  fold_left (fun m k => map_remove k m) SESSION_SCOPED m.

(** The entries of an object are removed before the ones that stay are visited;
    [strip_session_scoped_obj] below states it so.  The recursion here visits them
    all and removes after, which is the same and structural. *)
Fixpoint strip_session_scoped (value : json) : json :=
  match value with
  | JObj m => JObj (remove_session_scoped (map (fun e => (e.1, strip_session_scoped e.2)) m))
  | JArr l => JArr (map strip_session_scoped l)
  | _ => value
  end.

Definition entry_code (entry : json) : string := unwrap_or (get_str "code" entry) "UNKNOWN".

Section receipts.
Variable to_string : json -> string.
Variable sha256_hex : string -> string.
Variable read_file : string -> string + string.
Variable hash_label_in : string -> option string.
Variable canonical_ast_for_digest : string -> string.

Definition source_file_entry (file : string) : json :=
  match read_file file with
  | inl bytes => JObj [("path", JStr (receipt_source_path file)); ("sha256", JStr (sha256_hex bytes))]
  | inr error => JObj [("path", JStr (receipt_source_path file)); ("sha256", JNull); ("error", JStr error)]
  end.

Definition proof_receipt_source_files (files : list string) : list json :=
  sort_by (fun a b => opt_leb (get_str "path" a) (get_str "path" b)) (map source_file_entry files).

(** A goal as the row is written from it: identified, enriched with its property,
    labelled and given its stable id. *)
Definition receipt_goal_enriched (stable_scope : option string) (properties : row_map) (goal0 : json) : json :=
  let goal := enrich_goal_with_property_status (add_identity_fields goal0) properties in
  let '(kind, hash_label) := classify_wp_goal hash_label_in goal in
  let goal := match hash_label with
              | Some label => map_object (map_or_insert "hash_label" (JStr label)) goal
              | None => goal
              end in
  enrich_goal_stable_id to_string sha256_hex goal kind stable_scope.

Definition receipt_goal_row (goal : json) : json :=
  JObj [("stable_goal_id", field "stable_goal_id" goal);
        ("status", jopt JStr (own_status goal));
        ("from_cache", jopt JBool (goal_is_from_cache goal));
        ("vacuously_proved", JBool (goal_is_vacuously_proved goal));
        ("fct", jopt JStr (goal_owner_name goal))].

Definition proof_receipt_goals (goals : list json) (stable_scope : option string)
    (properties : row_map) : list json :=
  sort_by (fun a b => pair_leb (receipt_goal_key a) (receipt_goal_key b))
    (map (fun goal => receipt_goal_row (receipt_goal_enriched stable_scope properties goal)) goals).

Definition proof_receipt_with_hash (body : json) : json :=
  let digest_input := to_string body in
  map_object (map_insert POST_BODY_KEY (JStr (sha256_hex digest_input))) body.

Definition incomplete_digest (incomplete : json) : json :=
  let entries := array_or_empty incomplete in
  let codes := map entry_code entries in
  let identities := merge_sort str_le (map (fun entry => to_string (strip_session_scoped entry)) entries) in
  JObj [("count", jnat (length entries));
        ("codes", JObj (map (fun code => (code, jnat (count_if (String.eqb code) codes))) (btree_set codes)));
        ("sha256", JStr (sha256_hex (to_string (jstrings identities))))].

Definition digest_of_printed_ast (text : string) : json * json :=
  if is_empty text then (JNull, JStr "request_answered_empty")
  else (JStr (sha256_hex (canonical_ast_for_digest text)), JNull).

(** [nonce] is what [random_hex(16)] draws for a null digest. *)
Definition proof_receipt_body (nonce : string) (body : ProofReceiptBody) : json :=
  let source_hash := sha256_hex (to_string (JArr (source_files body))) in
  JObj [("schema", JStr RECEIPT_SCHEMA);
        ("subject",
          JObj [("tool", JStr (tool body));
                ("source_hash", JStr source_hash);
                ("files", JArr (source_files body));
                ("project_load", project_load body);
                ("ast_digest", ast_digest body);
                ("ast_digest_unavailable_nonce",
                  jopt JStr (then_some (is_null (ast_digest body)) nonce));
                ("ast_digest_unavailable_reason", ast_digest_unavailable_reason body);
                ("contracts", contracts body)]);
        ("environment", environment body);
        ("wp", wp_config body);
        ("eva", eva_config body);
        ("goals_status_source", JStr (goals_status_source body));
        ("goals", JArr (goals body));
        ("reported", reported body)].

Definition shape_names (value : json) (prefix : string) : list string :=
  merge_sort str_le
    (map (fun key => prefix +s+ key)
       (bfilter (fun key => negb (is_empty prefix && (key =s POST_BODY_KEY))) (keys value))).

Definition schema_of (receipt : json) : string :=
  take_str 12 (sha256_hex (join (String nl "")
    (shape_names receipt "" ++ shape_names receipt.["subject"] "subject."))).

Definition receipt_shape : string :=
  schema_of (proof_receipt_body ""
    (mkProofReceiptBody "" [] (JObj []) (JStr "") JNull (JObj []) (JObj []) (JObj []) (JObj []) [] ""
       (JObj []))).
End receipts.


Lemma opt_leb_total a b : opt_leb a b = true \/ opt_leb b a = true.
Proof. destruct a as [a|], b as [b|]; simpl; auto. exact (total str_le a b). Qed.

Lemma opt_leb_trans a b c : opt_leb a b = true -> opt_leb b c = true -> opt_leb a c = true.
Proof. destruct a, b, c; simpl; try done. apply (transitivity (R := str_le)). Qed.

Lemma opt_leb_antisym a b : opt_leb a b = true -> opt_leb b a = true -> a = b.
Proof.
  destruct a as [a|], b as [b|]; simpl; try done. intros. f_equal. by apply (anti_symm str_le).
Qed.

Lemma opt_eqb_str a b : opt_eqb String.eqb a b = true <-> a = b.
Proof.
  destruct a, b; simpl; try done. rewrite String.eqb_eq. split; [by intros ->|by intros [= ->]].
Qed.

Lemma pair_leb_spec a b :
  pair_leb a b = true <-> a.1 <> b.1 /\ opt_leb a.1 b.1 = true \/ a.1 = b.1 /\ opt_leb a.2 b.2 = true.
Proof.
  unfold pair_leb. destruct (opt_eqb String.eqb a.1 b.1) eqn:E.
  - apply opt_eqb_str in E. split; [by right|]. by intros [[]|[]].
  - assert (a.1 <> b.1) by (intros H; apply opt_eqb_str in H; congruence).
    split; [by left|]. by intros [[]|[]].
Qed.

Lemma pair_leb_total a b : pair_leb a b = true \/ pair_leb b a = true.
Proof.
  rewrite !pair_leb_spec. destruct (decide (a.1 = b.1)) as [E|E].
  - destruct (opt_leb_total a.2 b.2); auto.
  - destruct (opt_leb_total a.1 b.1); auto.
Qed.

Lemma pair_leb_trans a b c : pair_leb a b = true -> pair_leb b c = true -> pair_leb a c = true.
Proof.
  rewrite !pair_leb_spec. intros [[N1 H1]|[E1 H1]] [[N2 H2]|[E2 H2]].
  - left. split; [|by apply (opt_leb_trans _ b.1)].
    intros E. rewrite <- E in H2. by destruct N1; apply opt_leb_antisym.
  - left. by rewrite <- E2.
  - left. by rewrite E1.
  - right. rewrite E1. split; [done|]. by apply (opt_leb_trans _ b.2).
Qed.

(** ** Lemmas: removing entries *)

Definition on_value (f : json -> json) (e : string * json) : string * json := (e.1, f e.2).

Lemma map_get_on_value f k m : map_get k (map (on_value f) m) = f <$> map_get k m.
Proof.
  induction m as [|[k' v] m IH]; simpl; [done|]. by destruct (k =s k').
Qed.

Lemma map_index_on_value f k m : map_index k (map (on_value f) m) = map_index k m.
Proof. induction m as [|[k' v] m IH]; simpl; [done|]. by rewrite IH. Qed.

Lemma map_remove_on_value f k m :
  map_remove k (map (on_value f) m) = map (on_value f) (map_remove k m).
Proof.
  unfold map_remove. rewrite map_index_on_value, length_map.
  destruct (map_index k m) as [i|]; [|done].
  change (map (on_value f) m) with (on_value f <$> m). rewrite fmap_last.
  destruct (last m) as [e|]; simpl; [|done].
  change (map (on_value f) (take (length m - 1) (<[i:=e]> m)))
    with (on_value f <$> take (length m - 1) (<[i:=e]> m)).
  by rewrite fmap_take, list_fmap_insert.
Qed.

(** The pass as the code runs it. *)
Lemma strip_session_scoped_obj m :
  strip_session_scoped (JObj m) = JObj (map (on_value strip_session_scoped) (remove_session_scoped m)).
Proof.
  simpl. f_equal. unfold remove_session_scoped, SESSION_SCOPED. cbn [fold_left].
  change (map (fun e => (e.1, strip_session_scoped e.2)) m) with (map (on_value strip_session_scoped) m).
  by rewrite !map_remove_on_value.
Qed.

(** Removing one key leaves what the others read, in a map without repeated keys. *)
Lemma map_index_Some k m i : map_index k m = Some i -> exists v, m !! i = Some (k, v).
Proof.
  revert i. induction m as [|[k' v] m IH]; simpl; [done|]. intros i.
  destruct (k =s k') eqn:E; bool_simpl.
  - intros [= <-]. subst. by exists v.
  - destruct (map_index k m) as [j|]; [|done]. intros [= <-]. by apply IH.
Qed.

Lemma swap_remove_perm (m : jmap) i e x :
  m !! i = Some x -> last m = Some e -> x :: take (length m - 1) (<[i := e]> m) ≡ₚ m.
Proof.
  intros Hi He. destruct (exists_last (l := m)) as (l & e' & ->); [by intros ->|].
  rewrite last_snoc in He. injection He as ->.
  rewrite length_app. simpl. replace (length l + 1 - 1) with (length l) by lia.
  apply list_elem_of_split_length in Hi as (l1 & l2 & Hl & ->).
  rewrite Hl, insert_app_r_alt, Nat.sub_diag by lia. simpl.
  destruct l2 as [|y l2 _] using rev_ind.
  - apply app_inj_tail in Hl as [-> ->]. rewrite take_app_length.
    by rewrite Permutation_app_comm.
  - rewrite app_comm_cons, app_assoc in Hl. apply app_inj_tail in Hl as [-> ->].
    replace (l1 ++ y :: l2 ++ [y]) with ((l1 ++ y :: l2) ++ [y]) by by rewrite <- app_assoc.
    replace (length (l1 ++ x :: l2)) with (length (l1 ++ y :: l2)) by (rewrite !length_app; done).
    rewrite take_app_length. solve_Permutation.
Qed.

Lemma map_get_perm k m m' : NoDup m.*1 -> m ≡ₚ m' -> map_get k m = map_get k m'.
Proof.
  intros Hnd Hp. assert (Hnd' : NoDup m'.*1) by by rewrite <- Hp.
  destruct (map_get k m) as [v|] eqn:E.
  - apply map_get_Some_elem in E. rewrite Hp in E. by rewrite (map_get_elem_NoDup _ _ _ Hnd' E).
  - symmetry. apply map_get_None_keys. rewrite <- Hp. by apply map_get_None_keys.
Qed.

Lemma map_index_None k m : map_index k m = None <-> k ∉ m.*1.
Proof.
  induction m as [|[k' v] m IH]; csimpl; [split; [intros _; apply not_elem_of_nil|done]|].
  rewrite not_elem_of_cons, <- IH. destruct (k =s k') eqn:E; bool_simpl.
  - split; [done|]. by intros [].
  - destruct (map_index k m); split; try done. by intros [].
Qed.

Lemma map_remove_spec k m :
  (map_remove k m = m /\ k ∉ m.*1) \/ exists v, (k, v) :: map_remove k m ≡ₚ m.
Proof.
  unfold map_remove. destruct (map_index k m) as [i|] eqn:E.
  - right. destruct (map_index_Some _ _ _ E) as [v Hv]. exists v.
    destruct (last m) as [e|] eqn:El; [by apply swap_remove_perm|].
    apply last_None in El as ->. done.
  - left. split; [done|]. by apply map_index_None.
Qed.

Lemma map_remove_keys k m : NoDup m.*1 ->
  NoDup (map_remove k m).*1 /\ forall k', k' <> k -> map_get k' (map_remove k m) = map_get k' m.
Proof.
  intros Hnd. destruct (map_remove_spec k m) as [[-> _]|[v Hp]]; [done|].
  assert (Hnd' : NoDup ((k, v) :: map_remove k m).*1) by by rewrite Hp.
  split; [by apply NoDup_cons in Hnd' as [_ ?]|]. intros k' Hk.
  rewrite <- (map_get_perm k' _ _ Hnd' Hp). simpl.
  destruct (k' =s k) eqn:E; bool_simpl; done.
Qed.

Lemma map_get_remove_session_scoped k m :
  NoDup m.*1 -> k ∉ SESSION_SCOPED -> map_get k (remove_session_scoped m) = map_get k m.
Proof.
  unfold remove_session_scoped, SESSION_SCOPED. cbn [fold_left]. intros Hnd Hk.
  rewrite !not_elem_of_cons in Hk. destruct Hk as (H1 & H2 & H3 & _).
  destruct (map_remove_keys "property" m Hnd) as [N1 E1].
  destruct (map_remove_keys "property_marker" _ N1) as [N2 E2].
  destruct (map_remove_keys "kinstr_marker" _ N2) as [_ E3].
  by rewrite E3, E2, E1.
Qed.

Lemma strip_session_scoped_code entry :
  json_wf entry -> entry_code (strip_session_scoped entry) = entry_code entry.
Proof.
  intros Hwf. unfold entry_code, get_str. destruct entry as [| | | | |m]; try done.
  rewrite strip_session_scoped_obj. simpl. inversion_clear Hwf.
  rewrite map_get_on_value, map_get_remove_session_scoped by (done || decide_closed).
  destruct (map_get "code" m) as [[]|]; done.
Qed.

Lemma forallb_perm {A} (f : A -> bool) l l' : l ≡ₚ l' -> forallb f l = forallb f l'.
Proof. induction 1; simpl; [done|congruence|by rewrite !andb_assoc, (andb_comm (f y))|congruence]. Qed.

(** What a receipt row answers is what the goal it was written from answers. *)
Lemma receipt_row_progress goal :
  receipt_goal_is_progress (receipt_goal_row goal)
  = own_status_is_proved goal && negb (goal_is_vacuously_proved goal).
Proof.
  unfold receipt_goal_is_progress, receipt_goal_row, get_str, get_bool. simpl.
  by destruct (own_status goal) eqn:E; unfold own_status_is_proved; rewrite E.
Qed.

(** The names of a finished receipt's fields are those of any other. *)
Definition body_keys : list string :=
  ["schema"; "subject"; "environment"; "wp"; "eva"; "goals_status_source"; "goals"; "reported"].

Lemma proof_receipt_with_hash_obj to_string sha256_hex nonce body :
  exists m, proof_receipt_body to_string sha256_hex nonce body = JObj m /\ m.*1 = body_keys /\
    proof_receipt_with_hash to_string sha256_hex (JObj m)
    = JObj (m ++ [(POST_BODY_KEY, JStr (sha256_hex (to_string (JObj m))))]).
Proof. eexists. split; [reflexivity|]. done. Qed.

(** ** Properties *)

(** Every receipt this server writes has the one shape the checker expects,
    whatever its contents and whether or not its hash has been added, so a receipt
    is never refused for its shape by the build that wrote it. *)
Theorem written_receipt_shape to_string sha256_hex nonce body :
  schema_of sha256_hex (proof_receipt_body to_string sha256_hex nonce body)
  = receipt_shape to_string sha256_hex
  /\ schema_of sha256_hex
      (proof_receipt_with_hash to_string sha256_hex (proof_receipt_body to_string sha256_hex nonce body))
  = receipt_shape to_string sha256_hex.
Proof. split; reflexivity. Qed.

(** What a receipt records of the open gaps does not depend on the session.
    Two gap arrays that agree, in any order, once the property and instruction
    markers are removed at every depth have the same count, the same count per
    code and the same hash. *)
Theorem incomplete_digest_session_free to_string sha256_hex entries entries' :
  Forall json_wf entries -> Forall json_wf entries' ->
  map strip_session_scoped entries ≡ₚ map strip_session_scoped entries' ->
  incomplete_digest to_string sha256_hex (JArr entries)
  = incomplete_digest to_string sha256_hex (JArr entries').
Proof.
  intros Hwf Hwf' Hp.
  assert (Hcodes : map entry_code entries ≡ₚ map entry_code entries').
  { apply (fmap_Permutation entry_code) in Hp.
    change (entry_code <$> map strip_session_scoped entries)
      with (map entry_code (map strip_session_scoped entries)) in Hp.
    change (entry_code <$> map strip_session_scoped entries')
      with (map entry_code (map strip_session_scoped entries')) in Hp.
    rewrite !map_map in Hp. rewrite Forall_forall in Hwf, Hwf'.
    rewrite (map_ext_in _ entry_code entries), (map_ext_in _ entry_code entries') in Hp; [done|..];
      intros e He%list_elem_of_In; apply strip_session_scoped_code; auto. }
  unfold incomplete_digest. cbn [array_or_empty as_array unwrap_or].
  assert (length entries = length entries') as ->.
  { apply Permutation_length in Hp. by rewrite !length_map in Hp. }
  rewrite (btree_set_perm _ _ Hcodes).
  rewrite (map_ext (fun code => (code, jnat (count_if (String.eqb code) (map entry_code entries))))
                   (fun code => (code, jnat (count_if (String.eqb code) (map entry_code entries')))))
    by (intros; by rewrite (count_if_perm _ _ _ Hcodes)).
  rewrite <- (map_map strip_session_scoped to_string entries),
    <- (map_map strip_session_scoped to_string entries').
  rewrite (merge_sort_str_perm (map to_string (map strip_session_scoped entries))
             (map to_string (map strip_session_scoped entries'))); [done|].
  exact (fmap_Permutation to_string _ _ Hp).
Qed.

Definition demo_gap (marker : string) : json :=
  JObj [("code", JStr "VALID_UNDER_HYP"); ("property", JStr marker);
        ("hypotheses", JArr [JObj [("property", JStr marker); ("status", JStr "unknown")]])].

Lemma incomplete_digest_session_free_witness :
  incomplete_digest (fun _ => "text") (fun s => s)
    (JArr [demo_gap "#p108"; JObj [("code", JStr "RTE_DISABLED")]])
  = incomplete_digest (fun _ => "text") (fun s => s)
    (JArr [JObj [("code", JStr "RTE_DISABLED")]; demo_gap "#p190"]).
Proof.
  apply incomplete_digest_session_free.
  - repeat constructor; simpl; decide_closed.
  - repeat constructor; simpl; decide_closed.
  - vm_compute. apply Permutation_swap.
Defined.

(** A receipt carries one row per goal, in the order of their ids and statuses,
    and its rows all count as progress exactly when every goal is proved in its own
    right and not by hypotheses that cannot hold. *)
Theorem proof_receipt_goals_spec to_string sha256_hex hash_label_in scope properties goals :
  let enriched := receipt_goal_enriched to_string sha256_hex hash_label_in scope properties in
  let rows := proof_receipt_goals to_string sha256_hex hash_label_in goals scope properties in
  rows ≡ₚ map (fun goal => receipt_goal_row (enriched goal)) goals
  /\ StronglySorted (fun a b => pair_leb (receipt_goal_key a) (receipt_goal_key b) = true) rows
  /\ forallb receipt_goal_is_progress rows
     = forallb (fun goal => own_status_is_proved (enriched goal)
                            && negb (goal_is_vacuously_proved (enriched goal))) goals.
Proof.
  intros enriched rows. unfold rows, proof_receipt_goals. split_and!.
  - apply sort_by_perm.
  - apply (sort_by_StronglySorted (fun a b => pair_leb (receipt_goal_key a) (receipt_goal_key b))).
    + intros x y. apply pair_leb_total.
    + intros x y z. apply pair_leb_trans.
  - rewrite (forallb_perm _ _ _ (sort_by_perm _ _)). unfold enriched.
    induction goals as [|g l IH]; simpl; [done|]. by rewrite receipt_row_progress, IH.
Qed.
