(* ===== verification/Evidence.v ===== *)
(** * Receipts as evidence (src/src/state.rs)

    [proof_receipt_evidence_error] is the one door a verified conclusion passes:
    why a receipt is not evidence for a function, or nothing. *)

From S2P Require Import Prelude RustStr Json Status Receipt.

Section evidence.
Variable to_string : json -> string.
Variable sha256_hex : string -> string.
(** How a quoted string is written in a message. *)
Variable debug_str : string -> string.

Definition debug_strs (l : list string) : string := "[" +s+ join ", " (map debug_str l) +s+ "]".

(** The body the hash was taken over: every entry but the hash itself. *)
Definition without_hash (m : jmap) : jmap := bfilter (fun e => negb (e.1 =s "sha256")) m.

Definition is_none_or_empty (o : option string) : bool := is_none_or is_empty o.

Definition unreadable_file (file : json) : bool :=
  is_none_or_empty (get_str "path" file) || is_none_or_empty (get_str "sha256" file).

Definition not_check_message : string :=
  "proof_receipt was not produced by check, so it did not run the soundness gates; store the receipt from a check whose incomplete[] is empty.".
Definition no_verdict_message : string :=
  "proof_receipt records no check verdict, so it comes from run_wp, which does not run the soundness gates: an invented callee contract, a skipped function or annotation, an unsound encoding and a failed smoke test are all invisible to it. Store the receipt from a check whose incomplete[] is empty.".
Definition narrowed_message : string :=
  "proof_receipt comes from a run narrowed by prop, which proved the selected properties and attempted none of the others. Re-run without prop before storing a conclusion.".
Definition sandbox_message : string :=
  "proof_receipt comes from a sandbox, which proves an extracted copy with stubbed callees rather than this program. Merge the annotations back and re-run WP on the main project, then store that receipt.".
Definition undischarged_message : string :=
  "proof_receipt goals are not all discharged; a goal is unproved, or proved only under hypotheses that cannot hold".

(** What the run covered: the last two tests. *)
Definition scope_error (receipt : json) (function : string) : option string :=
  if is_some_and (fun prop => negb (is_null prop)) (pointer ["wp"; "prop"; "effective"] receipt)
  then Some narrowed_message
  else if pointer ["wp"; "scope"] receipt ≫= as_str =?s "sandbox" then Some sandbox_message
  else match pointer ["wp"; "functions"] receipt ≫= as_array with
       | None => Some "proof_receipt does not record which functions WP ran over"
       | Some names =>
         if existsb (fun name => as_str name =?s function) names then None
         else Some ("proof_receipt proves " +s+ debug_strs (collect_some as_str names)
                    +s+ ", not " +s+ function)
       end.

(** Which tool produced it, and what that tool answered. *)
Definition verdict_error (receipt : json) (function : string) : option string :=
  if negb (pointer ["subject"; "tool"] receipt ≫= as_str =?s "check") then Some not_check_message
  else match pointer ["reported"; "verdict"] receipt ≫= as_str with
       | Some verdict =>
         if verdict =s "proved" then scope_error receipt function
         else Some ("proof_receipt records a check verdict of " +s+ debug_str verdict
                    +s+ " rather than " +s+ dq +s+ "proved" +s+ dq
                    +s+ ", so the run it describes found something still outstanding.")
       | None => Some no_verdict_message
       end.

(** The files and the goals. *)
Definition contents_error (receipt : json) (goal_total : N) (function : string) : option string :=
  match pointer ["subject"; "files"] receipt ≫= as_array with
  | None => Some "proof_receipt does not carry a source file list"
  | Some files =>
    if match files with [] => true | _ => false end || existsb unreadable_file files
    then Some "proof_receipt has unreadable or malformed source files"
    else match get_arr "goals" receipt with
         | None => Some "missing proof_receipt goals"
         | Some [] => Some "proof_receipt has no goals"
         | Some goals =>
           if negb (as_u32 (length goals) =? goal_total)%N
           then Some "proof_receipt goal count does not match wp_summary"
           else if existsb (fun goal => negb (receipt_goal_is_progress goal)) goals
           then Some undischarged_message
           else verdict_error receipt function
         end
  end.

Definition proof_receipt_evidence_error (receipt : json) (goal_total : N) (function : string)
    : option string :=
  let schema := get_str "schema" receipt in
  let shape := schema_of sha256_hex receipt in
  let expected_shape := receipt_shape to_string sha256_hex in
  if negb (schema =?s RECEIPT_SCHEMA) || negb (shape =s expected_shape) then
    Some ("proof_receipt is not one this build wrote (name "
          +s+ debug_str (unwrap_or schema "<missing>") +s+ ", expected " +s+ debug_str RECEIPT_SCHEMA
          +s+ "; field shape " +s+ shape +s+ ", expected " +s+ expected_shape
          +s+ "). Pass back the proof_receipt this server returned, unchanged.")
  else match get_str "sha256" receipt with
       | None => Some "missing proof_receipt sha256"
       | Some stamped =>
         match as_object receipt with
         | None => Some "proof_receipt is not an object"
         | Some fields =>
           let recomputed := sha256_hex (to_string (JObj (without_hash fields))) in
           if negb (recomputed =s stamped)
           then Some ("proof_receipt sha256 does not match its own contents (stamped " +s+ stamped
                      +s+ ", recomputed " +s+ recomputed
                      +s+ "); pass back the receipt this server returned, unchanged")
           else contents_error receipt goal_total function
         end
       end.

(** ** What acceptance means *)

Record covers (wp : option json) (function : string) : Prop := mkCovers {
  not_narrowed : forall prop, wp ≫= pointer ["prop"; "effective"] = Some prop -> prop = JNull;
  not_sandbox : wp ≫= get_str "scope" <> Some "sandbox";
  ran_function : exists names, wp ≫= get_arr "functions" = Some names /\ JStr function ∈ names;
}.

Record evidence (receipt : json) (goal_total : N) (function : string) : Prop := mkEvidence {
  readable_files : exists files, pointer ["subject"; "files"] receipt ≫= as_array = Some files /\
    files <> [] /\ forall file, file ∈ files -> exists path hash,
      get_str "path" file = Some path /\ get_str "sha256" file = Some hash /\ path <> "" /\ hash <> "";
  discharged_goals : exists goals, get_arr "goals" receipt = Some goals /\ goals <> [] /\
    as_u32 (length goals) = goal_total /\ forall goal, goal ∈ goals -> receipt_goal_is_progress goal = true;
  by_check : pointer ["subject"; "tool"] receipt = Some (JStr "check");
  verdict_proved : pointer ["reported"; "verdict"] receipt = Some (JStr "proved");
  covered : covers (receipt .? "wp") function;
}.

Record intact (receipt : json) : Prop := mkIntact {
  schema_name : receipt .? "schema" = Some (JStr RECEIPT_SCHEMA);
  schema_shape : schema_of sha256_hex receipt = receipt_shape to_string sha256_hex;
  own_hash : exists m, receipt = JObj m /\
    receipt .? "sha256" = Some (JStr (sha256_hex (to_string (JObj (without_hash m)))));
}.
End evidence.

(** ** Lemmas *)

Lemma pointer_cons k path v :
  pointer (k :: path) v = pointer_step k v ≫= pointer path.
Proof.
  unfold pointer. simpl. destruct (pointer_step k v) as [w|]; simpl; [done|].
  induction path as [|t path IH]; simpl; done.
Qed.

(** A token that spells no index selects nothing in an array. *)
Lemma pointer_key k path v :
  parse_index k = None -> pointer (k :: path) v = v .? k ≫= pointer path.
Proof. intros H. rewrite pointer_cons. destruct v; try done. simpl. by rewrite H. Qed.

Lemma bind_as_str (o : option json) s : o ≫= as_str = Some s <-> o = Some (JStr s).
Proof.
  destruct o as [[]|]; simpl; split; try done; [by intros [= ->]|by intros [= ->]].
Qed.

Lemma unreadable_file_false file :
  unreadable_file file = false <->
  exists path hash, get_str "path" file = Some path /\ get_str "sha256" file = Some hash
    /\ path <> "" /\ hash <> "".
Proof.
  unfold unreadable_file. destruct (get_str "path" file) as [p|], (get_str "sha256" file) as [h|]; simpl.
  - destruct p, h; simpl; split; try done; try (by intros (? & ? & [= <-] & [= <-] & ? & ?)).
    intros _. eexists _, _. done.
  - rewrite orb_true_r. split; [done|]. by intros (? & ? & _ & ? & _).
  - split; [done|]. by intros (? & ? & ? & _).
  - split; [done|]. by intros (? & ? & ? & _).
Qed.

Lemma pointer_one k v : parse_index k = None -> pointer [k] v = v .? k.
Proof. intros H. rewrite pointer_key by done. by destruct (v .? k). Qed.

Section acceptance.
Variable to_string : json -> string.
Variable sha256_hex : string -> string.
Variable debug_str : string -> string.

Lemma scope_error_None receipt function :
  scope_error debug_str receipt function = None <-> covers (receipt .? "wp") function.
Proof.
  unfold scope_error. rewrite !(pointer_key "wp") by done.
  destruct (receipt .? "wp") as [wp|]; simpl; [|split; [done|]; by intros [_ _ (? & ? & _)]].
  rewrite (pointer_key "scope"), (pointer_key "functions") by done.
  destruct (is_some_and _ _) eqn:Hp.
  { split; [done|]. intros [Hn _ _]. apply is_some_and_true in Hp as (p & Hp & Hnn).
    by rewrite (Hn p Hp) in Hnn. }
  destruct (_ =?s "sandbox") eqn:Hs.
  { split; [done|]. intros [_ Hn _]. destruct Hn. apply opt_eqb_string_Some in Hs.
    simpl. unfold get_str. by destruct (wp .? "scope"). }
  assert (Hsc : Some wp ≫= get_str "scope" <> Some "sandbox").
  { apply opt_eqb_string_Some_false in Hs. simpl. unfold get_str. by destruct (wp .? "scope"). }
  assert (Hpr : forall prop, Some wp ≫= pointer ["prop"; "effective"] = Some prop -> prop = JNull).
  { intros p E. apply (proj1 (is_some_and_false _ _) Hp) in E. by destruct p. }
  replace ((wp .? "functions" ≫= pointer []) ≫= as_array) with (get_arr "functions" wp)
    by (unfold get_arr; by destruct (wp .? "functions")).
  destruct (get_arr "functions" wp) as [names|] eqn:En.
  - destruct (existsb _ names) eqn:Ex; split; try done.
    + intros _. split; [done..|]. apply existsb_true in Ex as (n & Hin & Hn).
      apply opt_eqb_string_Some in Hn. exists names. split; [done|].
      destruct n; try done. by injection Hn as ->.
    + intros [_ _ (names' & E & Hin)]. simpl in E. simplify_eq.
      rewrite existsb_false in Ex. apply Ex in Hin. simpl in Hin. by rewrite String.eqb_refl in Hin.
  - split; [done|]. intros [_ _ (? & ? & _)]. simpl in *. congruence.
Qed.

Lemma verdict_error_None receipt function :
  verdict_error debug_str receipt function = None <->
  pointer ["subject"; "tool"] receipt = Some (JStr "check")
  /\ pointer ["reported"; "verdict"] receipt = Some (JStr "proved")
  /\ covers (receipt .? "wp") function.
Proof.
  unfold verdict_error. rewrite <- !bind_as_str.
  destruct (pointer ["subject"; "tool"] receipt ≫= as_str =?s "check") eqn:Ht; simpl.
  - apply opt_eqb_string_Some in Ht.
    destruct (pointer ["reported"; "verdict"] receipt ≫= as_str) as [v|]; [|naive_solver].
    destruct (v =s "proved") eqn:E; bool_simpl.
    + subst. rewrite scope_error_None. naive_solver.
    + naive_solver.
  - apply opt_eqb_string_Some_false in Ht. naive_solver.
Qed.

Lemma contents_error_None receipt total function :
  contents_error debug_str receipt total function = None <-> evidence receipt total function.
Proof.
  unfold contents_error.
  destruct (pointer ["subject"; "files"] receipt ≫= as_array) as [files|] eqn:Ef;
    [|split; [done|]; intros [(? & ? & _)]; congruence].
  destruct (_ || _) eqn:Hf.
  { split; [done|]. intros [(fs & E & Hne & Hr)]. simplify_eq.
    apply orb_true_iff in Hf as [Hf|Hf]; [by destruct files|].
    apply existsb_true in Hf as (file & Hin & Hu). apply Hr, unreadable_file_false in Hin. congruence. }
  apply orb_false_iff in Hf as [Hne Hf]. rewrite existsb_false in Hf.
  assert (Hfiles : files <> [] /\ forall file, file ∈ files -> exists path hash,
    get_str "path" file = Some path /\ get_str "sha256" file = Some hash /\ path <> "" /\ hash <> "").
  { split; [by destruct files|]. intros file Hin. by apply unreadable_file_false, Hf. }
  destruct (get_arr "goals" receipt) as [[|g gs]|] eqn:Eg;
    [split; [done|]; intros [_ (? & ? & ? & _)]; congruence| |
     split; [done|]; intros [_ (? & ? & _)]; congruence].
  destruct (negb _) eqn:Hn; bool_simpl.
  { split; [done|]. intros [_ (? & ? & _ & ? & _)]. simplify_eq. }
  destruct (existsb _ (g :: gs)) eqn:Hp.
  { split; [done|]. intros [_ (gs' & ? & _ & _ & Hall)]. simplify_eq.
    apply existsb_true in Hp as (x & Hin & Hx). by rewrite (Hall _ Hin) in Hx. }
  rewrite verdict_error_None. split.
  - intros (? & ? & ?). split; [by exists files| |done..].
    exists (g :: gs). split_and!; [done..|]. intros x Hin.
    rewrite existsb_false in Hp. apply Hp in Hin. by apply negb_false_iff in Hin.
  - by intros [_ _ ? ? ?].
Qed.

Lemma evidence_error_None receipt total function :
  proof_receipt_evidence_error to_string sha256_hex debug_str receipt total function = None <->
  intact to_string sha256_hex receipt /\ evidence receipt total function.
Proof.
  unfold proof_receipt_evidence_error. cbv zeta.
  destruct (negb (get_str "schema" receipt =?s _) || _) eqn:Hs.
  { split; [done|]. intros [[Hn Hsh _] _]. unfold get_str in Hs. rewrite Hn, Hsh in Hs.
    simpl in Hs. by rewrite !String.eqb_refl in Hs. }
  apply orb_false_iff in Hs as [Hn Hsh]. bool_simpl. apply opt_eqb_string_Some in Hn.
  destruct (get_str "sha256" receipt) as [stamped|] eqn:Est.
  - destruct receipt as [| | | | |m]; try done. cbn [as_object].
    destruct (negb (_ =s stamped)) eqn:Eh; bool_simpl.
    + split; [done|]. intros [[_ _ (m' & [= <-] & Hh)] _]. unfold get_str in Est.
      rewrite Hh in Est. simpl in Est. congruence.
    + rewrite contents_error_None. split; [|by intros []]. intros. split; [|done].
      split; [by apply bind_as_str in Hn|done|]. exists m. split; [done|].
      apply bind_as_str in Est. by rewrite Eh.
  - split; [done|]. intros [[_ _ (m' & -> & Hh)] _]. unfold get_str in Est. by rewrite Hh in Est.
Qed.
End acceptance.

(** A receipt as the server returns it. *)
Definition written_receipt (to_string : json -> string) (sha256_hex : string -> string)
    (nonce : string) (body : ProofReceiptBody) : json :=
  proof_receipt_with_hash to_string sha256_hex (proof_receipt_body to_string sha256_hex nonce body).

Lemma written_receipt_intact to_string sha256_hex nonce body :
  intact to_string sha256_hex (written_receipt to_string sha256_hex nonce body).
Proof. split; [reflexivity..|]. eexists. split; reflexivity. Qed.

(** ** Properties *)

(** C26: A receipt supports a conclusion exactly when it is intact, its name and
    shape this build's and its hash the one of its other entries, and is evidence:
    readable sources, as many goals as the summary counts, all discharged and none
    of them by hypotheses that cannot hold, from a check that answered proved, not
    narrowed to chosen properties, not in a sandbox, and over that very function. *)
Theorem receipt_accepted_iff to_string sha256_hex debug_str receipt total function :
  proof_receipt_evidence_error to_string sha256_hex debug_str receipt total function = None <->
  intact to_string sha256_hex receipt /\ evidence receipt total function.
Proof. apply evidence_error_None. Qed.

(** C24: A receipt this server wrote is judged by what the run found alone: its
    name, shape and hash always pass, so it is accepted exactly when the body it
    was built from is a complete proof of the function by check. *)
Theorem written_receipt_accepted to_string sha256_hex debug_str nonce body total function :
  proof_receipt_evidence_error to_string sha256_hex debug_str
    (written_receipt to_string sha256_hex nonce body) total function = None <->
  (source_files body <> [] /\
     forall file, file ∈ source_files body -> unreadable_file file = false)
  /\ (goals body <> [] /\ as_u32 (length (goals body)) = total /\
     forall goal, goal ∈ goals body -> receipt_goal_is_progress goal = true)
  /\ tool body = "check"
  /\ get_str "verdict" (reported body) = Some "proved"
  /\ covers (Some (wp_config body)) function.
Proof.
  rewrite evidence_error_None. split.
  - intros [_ [(fs & Ef & ? & Hf) (gs & Eg & ? & ? & Hg) Ht Hv Hc]].
    injection Ef as <-. injection Eg as <-. injection Ht as ->. split_and!; try done.
    + intros file Hin. by apply unreadable_file_false, Hf.
    + rewrite pointer_key in Hv by done. simpl in Hv. rewrite pointer_one in Hv by done.
      unfold get_str. by rewrite Hv.
  - intros ([? Hf] & (? & ? & ?) & Ht & Hv & Hc). split; [apply written_receipt_intact|]. split.
    + exists (source_files body). split_and!; [done..|]. intros file Hin.
      by apply unreadable_file_false, Hf.
    + by exists (goals body).
    + by rewrite <- Ht.
    + rewrite pointer_key by done. simpl. rewrite pointer_one by done. by apply bind_as_str in Hv.
    + done.
Qed.

(** C25: A receipt edited after it was written is refused.  Whatever entries it is
    given, when it still carries the hash of the receipt it was made from and its
    other entries serialize differently, it supports no conclusion, unless SHA-256
    collides on the two texts. *)
Theorem edited_receipt_refused to_string sha256_hex debug_str nonce body m total function :
  let written := proof_receipt_body to_string sha256_hex nonce body in
  let edited := JObj (without_hash m) in
  get_str "sha256" (JObj m) = get_str "sha256" (written_receipt to_string sha256_hex nonce body) ->
  to_string edited <> to_string written ->
  (sha256_hex (to_string edited) = sha256_hex (to_string written) -> to_string edited = to_string written) ->
  exists reason,
    proof_receipt_evidence_error to_string sha256_hex debug_str (JObj m) total function = Some reason.
Proof.
  intros written edited Hst Hne Hcol.
  destruct (proof_receipt_evidence_error _ _ _ _ _ _) as [reason|] eqn:E; [by exists reason|].
  apply evidence_error_None in E as [[_ _ (m' & [= <-] & Hh)] _].
  destruct Hne. apply Hcol. unfold get_str in Hst. rewrite Hh in Hst. simpl in Hst.
  by injection Hst.
Qed.

Definition demo_receipt_goal (status : string) : json :=
  JObj [("stable_goal_id", JStr "sg_1"); ("status", JStr status); ("from_cache", JBool false);
        ("vacuously_proved", JBool false); ("fct", JStr "f")].

Definition demo_body (status : string) : ProofReceiptBody :=
  mkProofReceiptBody "check" [JObj [("path", JStr "f.c"); ("sha256", JStr "ab")]] (JObj []) (JStr "d")
    JNull (JObj []) (JObj []) (JObj [("functions", JArr [JStr "f"]); ("scope", JStr "main")])
    (JObj []) [demo_receipt_goal status] "wp" (JObj [("verdict", JStr "proved")]).

(** A rendering and a hash concrete enough to tell the demonstrations apart. *)
Fixpoint demo_text (v : json) : string :=
  match v with
  | JStr s => s
  | JArr l => String.concat "," (map demo_text l)
  | JObj m => String.concat ";" (map (fun e => e.1 +s+ demo_text e.2) m)
  | _ => "_"
  end.

Definition edit_goals (status : string) (receipt : json) : jmap :=
  match receipt with
  | JObj m => map_insert "goals" (JArr [demo_receipt_goal status]) m
  | _ => []
  end.

Lemma edited_receipt_refused_witness :
  exists reason,
    proof_receipt_evidence_error demo_text (fun s => s) (fun s => s)
      (JObj (edit_goals "valid" (written_receipt demo_text (fun s => s) "" (demo_body "timeout"))))
      1 "f" = Some reason.
Proof.
  apply (edited_receipt_refused demo_text (fun s => s) (fun s => s) "" (demo_body "timeout")).
  - reflexivity.
  - vm_compute. discriminate.
  - vm_compute. discriminate.
Defined.
