(* ===== verification/Session.v ===== *)
(** * The session's state (src/src/state.rs)

    What a session knows of the project, its conclusions and the receipts it
    produced, with one function per operation.  A [HashMap] is a [gmap]; the order
    in which the code walks one is not fixed there, and is [map_to_list]'s here. *)

From S2P Require Import Prelude RustStr Json Status Receipt Evidence.

(** ** Data *)

Inductive VerificationStatus := InProgress | Verified | Failed | Unsound | BlockedOnCallee.
#[export] Instance VerificationStatus_eq_dec : EqDecision VerificationStatus.
Proof. solve_decision. Defined.

Inductive AnnotationSource := Generated.

Record AnnotationEntry := mkAnnotation {
  hash_label : string;
  user_label : option string;
  kind : string;
  acsl : string;
  stmt_id : option Z;
  derived_from : string;
  source : AnnotationSource;
  purpose : string;
  proof_target : option string;
  wp_status : option string;
  wp_time_ms : option N;
  wp_prover : option string;
}.

Record FailedSourceAssert := mkFailedSourceAssert {
  fa_stmt_id : N;
  fa_acsl : string;
  fa_kind : string;
}.

Record WpGoalSummary := mkSummary {
  total : N;
  valid : N;
  unknown : N;
  timeout : N;
  failed : N;
  model : option string;
  timeout_used : option N;
  recorded_at_retry : option N;
  failed_goal_labels : list string;
  failed_source_asserts : list FailedSourceAssert;
}.

Record StaleDependency := mkStaleDependency {
  callee : string;
  recorded_specs_hash : string;
  current_specs_hash : string;
}.
#[export] Instance StaleDependency_eq_dec : EqDecision StaleDependency.
Proof. solve_decision. Defined.

Record StaleProofEnvironment := mkStaleEnv {
  recorded_env_hash : string;
  current_env_hash : string;
}.
#[export] Instance StaleProofEnvironment_eq_dec : EqDecision StaleProofEnvironment.
Proof. solve_decision. Defined.

Record FunctionVerificationState := mkConclusion {
  function : string;
  status : VerificationStatus;
  specs : list AnnotationEntry;
  wp_summary : option WpGoalSummary;
  notes : string;
  callees : list string;
  callee_spec_hashes : gmap string string;
  stale_dependencies : list StaleDependency;
  proof_receipt : option json;
  verify_profile : option string;
  reproduce : option string;
  proof_env_hash : option string;
  stale_proof_environment : option StaleProofEnvironment;
  ast_stmt_count : option N;
  sandbox_clean : bool;
  annotation_count : N;
  sandbox_deleted : bool;
}.

(** The upsert a caller hands in; nothing keeps the stored value. *)
Record FunctionConclusionUpdate := mkUpdate {
  u_function : string;
  u_status : option VerificationStatus;
  u_specs : option (list AnnotationEntry);
  u_wp_summary : option WpGoalSummary;
  u_notes : option string;
  u_callees : option (list string);
  u_proof_receipt : option json;
  u_verify_profile : option string;
  u_reproduce : option string;
}.

Record ConclusionSummary := mkConclusionSummary {
  cs_function : string;
  cs_status : VerificationStatus;
  cs_wp_summary : option WpGoalSummary;
  cs_verified_with : option json;
}.

Record FunctionInfo := mkFunctionInfo {
  fi_name : string;
  fi_marker : string;
  fi_declaration : string;
  fi_signature : string;
  fi_file : string;
  fi_line : N;
  fi_defined : bool;
}.

Record GlobalInfo := mkGlobalInfo {
  gi_name : string;
  gi_marker : string;
  gi_declaration : string;
  gi_typ : string;
  gi_file : string;
  gi_line : N;
}.

Record CallEdge := mkCallEdge { src : string; dst : string; edge_kind : string }.
Record CallVertex := mkCallVertex { vertex_name : string; declaration : string }.

Record MarkerLocation := mkMarkerLocation {
  marker_kind : string;
  marker : string;
  function_marker : option string;
  function_name : option string;
  kinstr_marker : option string;
  source_file : option string;
  source_line : option N;
}.

Record StaleMarker := mkStaleMarker { previous : MarkerLocation; current : MarkerLocation }.

Record SccGroup := mkSccGroup {
  scc_id : N;
  members : list string;
  scc_level : nat;
  is_cycle : bool;
}.

Record ProjectVerificationState := mkProjectState {
  project_source_files : list string;
  verification_order : list string;
  scc_groups : list SccGroup;
}.

Record VerificationProfile := mkProfile {
  p_sources : list string;
  p_functions : list string;
  p_model : option string;
  p_machdep : option string;
  p_include_paths : list string;
  p_defines : list string;
  p_force_includes : list string;
  p_provers : list string;
  p_timeout_seconds : option N;
  p_isystem_paths : list string;
  p_nostdinc : option bool;
  p_min_goals : option N;
  p_build_gates : list string;
  p_rte : option bool;
  p_rte_unsigned : option bool;
  p_rte_pointer : option bool;
  p_builtin_models : option bool;
  p_reproduce : option string;
}.

Record SessionState := mkSession {
  project_loaded : bool;
  eva_completed : bool;
  wp_completed : bool;
  functions : gmap string FunctionInfo;
  stale_markers : gmap string StaleMarker;
  globals : gmap string GlobalInfo;
  callgraph_edges : list CallEdge;
  callgraph_vertices : list CallVertex;
  conclusions : gmap string FunctionVerificationState;
  project_state : option ProjectVerificationState;
  verification_profiles : gmap string VerificationProfile;
  verification_profiles_source : option string;
  seen_receipts : list (string * json);
}.

(** [SessionState::default]. *)
Definition default_session : SessionState :=
  mkSession false false false ∅ ∅ ∅ [] [] ∅ None ∅ None [].

Definition SEEN_RECEIPT_LIMIT : nat := 32.

(** ** Field updates *)

Definition with_conclusions (c : gmap string FunctionVerificationState) (s : SessionState) : SessionState :=
  mkSession (project_loaded s) (eva_completed s) (wp_completed s) (functions s) (stale_markers s)
    (globals s) (callgraph_edges s) (callgraph_vertices s) c (project_state s)
    (verification_profiles s) (verification_profiles_source s) (seen_receipts s).

Definition with_receipts (r : list (string * json)) (s : SessionState) : SessionState :=
  mkSession (project_loaded s) (eva_completed s) (wp_completed s) (functions s) (stale_markers s)
    (globals s) (callgraph_edges s) (callgraph_vertices s) (conclusions s) (project_state s)
    (verification_profiles s) (verification_profiles_source s) r.

Definition with_status (st : VerificationStatus) (e : FunctionVerificationState) : FunctionVerificationState :=
  mkConclusion (function e) st (specs e) (wp_summary e) (notes e) (callees e) (callee_spec_hashes e)
    (stale_dependencies e) (proof_receipt e) (verify_profile e) (reproduce e) (proof_env_hash e)
    (stale_proof_environment e) (ast_stmt_count e) (sandbox_clean e) (annotation_count e)
    (sandbox_deleted e).

Definition with_stale_dependencies (deps : list StaleDependency) (e : FunctionVerificationState)
    : FunctionVerificationState :=
  mkConclusion (function e) (status e) (specs e) (wp_summary e) (notes e) (callees e)
    (callee_spec_hashes e) deps (proof_receipt e) (verify_profile e) (reproduce e) (proof_env_hash e)
    (stale_proof_environment e) (ast_stmt_count e) (sandbox_clean e) (annotation_count e)
    (sandbox_deleted e).

Definition with_stale_env (env : option StaleProofEnvironment) (e : FunctionVerificationState)
    : FunctionVerificationState :=
  mkConclusion (function e) (status e) (specs e) (wp_summary e) (notes e) (callees e)
    (callee_spec_hashes e) (stale_dependencies e) (proof_receipt e) (verify_profile e) (reproduce e)
    (proof_env_hash e) env (ast_stmt_count e) (sandbox_clean e) (annotation_count e)
    (sandbox_deleted e).

Definition with_sandbox (count : option N) (clean : bool) (annotations : N) (deleted : bool)
    (e : FunctionVerificationState) : FunctionVerificationState :=
  mkConclusion (function e) (status e) (specs e) (wp_summary e) (notes e) (callees e)
    (callee_spec_hashes e) (stale_dependencies e) (proof_receipt e) (verify_profile e) (reproduce e)
    (proof_env_hash e) (stale_proof_environment e) count clean annotations deleted.

(** ** The project's functions, globals and call graph *)

(** [entry["key"].as_str().unwrap_or_default()]. *)
Definition str_at (k : string) (entry : json) : string := unwrap_or (as_str entry.[k]) "".

(** [as_u64().unwrap_or(0) as u32]. *)
Definition u32_at (k : string) (entry : json) : N :=
  N.modulo (unwrap_or (as_u64 entry.[k]) 0%N) (2 ^ 32).

Definition function_info (entry : json) : FunctionInfo :=
  mkFunctionInfo (str_at "name" entry) (str_at "key" entry) (str_at "decl" entry)
    (str_at "signature" entry) (str_at "file" entry.["sloc"]) (u32_at "line" entry.["sloc"])
    (unwrap_or (as_bool entry.["defined"]) false).

Definition global_info (entry : json) : GlobalInfo :=
  mkGlobalInfo (str_at "name" entry) (str_at "key" entry) (str_at "decl" entry)
    (str_at "type" entry) (str_at "file" entry.["sloc"]) (u32_at "line" entry.["sloc"]).

(** Entries without a name are skipped; later ones replace earlier ones. *)
Definition by_name {A} (name : A -> string) (infos : list A) : gmap string A :=
  fold_left (fun m info => if is_empty (name info) then m else <[name info := info]> m) infos ∅.

Lemma by_name_lookup {A} (name : A -> string) infos k info : by_name name infos !! k = Some info <->
  k <> "" /\ exists pre post, infos = pre ++ info :: post /\ name info = k /\ Forall (fun later => name later <> k) post.
Proof.
  unfold by_name. induction infos as [|i infos IH] using rev_ind.
  { cbn. rewrite lookup_empty. split; [done|]. intros (_ & pre & post & Hnil & _). by destruct pre. }
  rewrite fold_left_app. cbn. assert (Hskip : name i = "" \/ name i <> k -> k <> "" ->
    (exists pre post, infos = pre ++ info :: post /\ name info = k /\ Forall (fun later => name later <> k) post)
    <-> (exists pre post, infos ++ [i] = pre ++ info :: post /\ name info = k /\ Forall (fun later => name later <> k) post)).
  { intros Hi Hk. assert (Hne : name i <> k) by (destruct Hi as [->|]; congruence). split.
    - intros (pre & post & -> & Hn & Hf). exists pre, (post ++ [i]). rewrite <- app_assoc. split_and!; [done|done|]. apply Forall_app_2; [done|]. by constructor.
    - intros (pre & post & He & Hn & Hf). destruct post as [|j post _] using rev_ind; [apply app_inj_tail in He as [_ ->]; done|].
      rewrite app_comm_cons, app_assoc in He. apply app_inj_tail in He as [-> ->]. exists pre, post. split_and!; [done|done|]. by apply Forall_app in Hf as [? _]. }
  destruct (is_empty (name i)) eqn:Hempty.
  - assert (name i = "") as Hi by (by destruct (name i)). rewrite IH. destruct (decide (k = "")) as [->|Hk]; [by split; intros []|].
    rewrite (Hskip (or_introl Hi) Hk). done.
  - destruct (decide (name i = k)) as [<-|Hne].
    + rewrite lookup_insert_eq. split.
      * intros [= <-]. split; [by destruct (name i)|]. exists infos, []. by split_and!.
      * intros (_ & pre & post & He & Hn & Hf). destruct post as [|j post _] using rev_ind; [by apply app_inj_tail in He as [_ ->]|].
        rewrite app_comm_cons, app_assoc in He. apply app_inj_tail in He as [_ ->]. apply Forall_app in Hf as [_ Hf]. by inversion Hf.
    + rewrite lookup_insert_ne by done. rewrite IH. destruct (decide (k = "")) as [->|Hk]; [by split; intros []|].
      rewrite (Hskip (or_intror Hne) Hk). done.
Qed.

Definition update_functions (entries : list json) (s : SessionState) : SessionState :=
  mkSession (project_loaded s) (eva_completed s) (wp_completed s)
    (by_name fi_name (map function_info entries)) (stale_markers s)
    (globals s) (callgraph_edges s) (callgraph_vertices s) (conclusions s) (project_state s)
    (verification_profiles s) (verification_profiles_source s) (seen_receipts s).

Definition update_globals (entries : list json) (s : SessionState) : SessionState :=
  mkSession (project_loaded s) (eva_completed s) (wp_completed s) (functions s) (stale_markers s)
    (by_name gi_name (map global_info entries)) (callgraph_edges s) (callgraph_vertices s)
    (conclusions s) (project_state s)
    (verification_profiles s) (verification_profiles_source s) (seen_receipts s).

Definition resolve_function (name : string) (s : SessionState) : option FunctionInfo := functions s !! name.
Definition resolve_global (name : string) (s : SessionState) : option GlobalInfo := globals s !! name.

Definition call_edge (edge : json) : option CallEdge :=
  let src := str_at "src" edge in
  let dst := str_at "dst" edge in
  then_some (negb (is_empty src) && negb (is_empty dst)) (mkCallEdge src dst (str_at "kind" edge)).

Definition call_vertex (vertex : json) : option CallVertex :=
  let name := str_at "name" vertex in
  then_some (negb (is_empty name)) (mkCallVertex name (str_at "decl" vertex)).

Definition update_callgraph (graph : json) (s : SessionState) : SessionState :=
  mkSession (project_loaded s) (eva_completed s) (wp_completed s) (functions s) (stale_markers s)
    (globals s) (collect_some call_edge (unwrap_or (get_arr "edges" graph) []))
    (collect_some call_vertex (unwrap_or (get_arr "vertices" graph) []))
    (conclusions s) (project_state s)
    (verification_profiles s) (verification_profiles_source s) (seen_receipts s).

Definition get_callers (decl_marker : string) (s : SessionState) : list string :=
  map src (bfilter (fun e => dst e =s decl_marker) (callgraph_edges s)).

Definition get_callees (decl_marker : string) (s : SessionState) : list string :=
  map dst (bfilter (fun e => src e =s decl_marker) (callgraph_edges s)).

Definition resolve_decl_to_name (decl_marker : string) (s : SessionState) : option string :=
  vertex_name <$> find_first (fun v => declaration v =s decl_marker) (callgraph_vertices s).

Definition callgraph_by_name (s : SessionState) : list string * list (string * string) :=
  (map vertex_name (callgraph_vertices s),
   collect_some (fun edge =>
     match resolve_decl_to_name (src edge) s, resolve_decl_to_name (dst edge) s with
     | Some a, Some b => Some (a, b)
     | _, _ => None
     end) (callgraph_edges s)).

(** Conclusions, the plan and the profiles outlive a reload. *)
Definition invalidate_all (s : SessionState) : SessionState :=
  mkSession false false false ∅ (stale_markers s) ∅ [] [] (conclusions s) (project_state s)
    (verification_profiles s) (verification_profiles_source s) [].

Definition set_stale_markers (markers : gmap string StaleMarker) (s : SessionState) : SessionState :=
  mkSession (project_loaded s) (eva_completed s) (wp_completed s) (functions s) markers
    (globals s) (callgraph_edges s) (callgraph_vertices s) (conclusions s) (project_state s)
    (verification_profiles s) (verification_profiles_source s) (seen_receipts s).

Definition stale_marker (m : string) (s : SessionState) : option StaleMarker := stale_markers s !! m.

(** What a caller writes through [project_state_mut]. *)
Definition project_state_mut (write : ProjectVerificationState -> ProjectVerificationState)
    (s : SessionState) : SessionState :=
  mkSession (project_loaded s) (eva_completed s) (wp_completed s) (functions s) (stale_markers s)
    (globals s) (callgraph_edges s) (callgraph_vertices s) (conclusions s)
    (Some (write (unwrap_or (project_state s) (mkProjectState [] [] []))))
    (verification_profiles s) (verification_profiles_source s) (seen_receipts s).

Definition set_eva_completed (s : SessionState) : SessionState :=
  mkSession (project_loaded s) true (wp_completed s) (functions s) (stale_markers s)
    (globals s) (callgraph_edges s) (callgraph_vertices s) (conclusions s) (project_state s)
    (verification_profiles s) (verification_profiles_source s) (seen_receipts s).

Definition set_wp_completed (s : SessionState) : SessionState :=
  mkSession (project_loaded s) (eva_completed s) true (functions s) (stale_markers s)
    (globals s) (callgraph_edges s) (callgraph_vertices s) (conclusions s) (project_state s)
    (verification_profiles s) (verification_profiles_source s) (seen_receipts s).

(** ** Receipts *)

Definition remember_receipt (sha256 : string) (receipt : json) (s : SessionState) : SessionState :=
  if existsb (fun seen => seen.1 =s sha256) (seen_receipts s) then s
  else
    let kept := if (SEEN_RECEIPT_LIMIT <=? length (seen_receipts s))%nat
                then tail (seen_receipts s) else seen_receipts s in
    with_receipts (kept ++ [(sha256, receipt)]) s.

Definition receipt_body (sha256 : string) (s : SessionState) : option json :=
  opt_filter (fun receipt => negb (is_null receipt))
    (snd <$> find_first (fun seen => seen.1 =s sha256) (seen_receipts s)).

Definition receipt_goals (sha256 : string) (s : SessionState) : option (list json) :=
  receipt_body sha256 s ≫= get_arr "goals".

(** ** Conclusions *)

Definition empty_conclusion_static (f : string) : FunctionVerificationState :=
  mkConclusion f InProgress [] None "" [] ∅ [] None None None None None None true 0 false.

(** A file of annotations as serde writes it: absent optional fields are skipped. *)
Definition opt_field (k : string) (v : option json) : jmap :=
  match v with Some v => [(k, v)] | None => [] end.

Definition annotation_json (a : AnnotationEntry) : json :=
  JObj ([("hash_label", JStr (hash_label a))] ++ opt_field "user_label" (JStr <$> user_label a)
        ++ [("kind", JStr (kind a)); ("acsl", JStr (acsl a))]
        ++ opt_field "stmt_id" ((fun z => JNum (NInt z)) <$> stmt_id a)
        ++ [("derived_from", JStr (derived_from a)); ("source", JStr "generated");
            ("purpose", JStr (purpose a))]
        ++ opt_field "proof_target" (JStr <$> proof_target a)
        ++ opt_field "wp_status" (JStr <$> wp_status a)
        ++ opt_field "wp_time_ms" (jN <$> wp_time_ms a)
        ++ opt_field "wp_prover" (JStr <$> wp_prover a)).

Definition verified (e : FunctionVerificationState) : bool := bool_decide (status e = Verified).

(** The summary a verified conclusion needs. *)
Definition summary_incomplete (summary : WpGoalSummary) : bool :=
  (total summary =? 0)%N || negb (valid summary =? total summary)%N
  || negb (unknown summary =? 0)%N || negb (timeout summary =? 0)%N || negb (failed summary =? 0)%N.

(** One pass over the conclusions, one name after another: [function] and those the
    pass skips stay, the others are refreshed and named when that changed them. *)
Section passes.
Variable skipped : string.
Variable refresh : FunctionVerificationState -> option FunctionVerificationState.
Variable changed : FunctionVerificationState -> FunctionVerificationState -> bool.

Definition visit (acc : gmap string FunctionVerificationState * list string) (name : string)
    : gmap string FunctionVerificationState * list string :=
  if name =s skipped then acc
  else match acc.1 !! name with
       | None => acc
       | Some e =>
         match refresh e with
         | None => acc
         | Some e' => (<[name := e']> acc.1, if changed e e' then acc.2 ++ [name] else acc.2)
         end
       end.

Definition visit_all (acc : gmap string FunctionVerificationState * list string)
    : gmap string FunctionVerificationState * list string :=
  fold_left visit (map_to_list acc.1).*1 acc.
End passes.

(** A conclusion proved under another environment is stale and not verified. *)
Definition refresh_environment (current_env : string) (e : FunctionVerificationState)
    : option FunctionVerificationState :=
  match proof_env_hash e with
  | None => None
  | Some recorded =>
    Some (if recorded =s current_env then with_stale_env None e
          else let e := with_stale_env (Some (mkStaleEnv recorded current_env)) e in
               if verified e then with_status InProgress e else e)
  end.

Definition environment_changed (e e' : FunctionVerificationState) : bool :=
  negb (bool_decide (stale_proof_environment e' = stale_proof_environment e)).

(** The first dependency on [f] updated in place, if there is one. *)
Fixpoint update_dependency (f recorded current_hash : string) (deps : list StaleDependency)
    : option (list StaleDependency) :=
  match deps with
  | [] => None
  | dep :: deps =>
    if callee dep =s f then Some (mkStaleDependency (callee dep) recorded current_hash :: deps)
    else cons dep <$> update_dependency f recorded current_hash deps
  end.

Definition refreshed_dependencies (f recorded current_hash : string) (deps : list StaleDependency)
    : list StaleDependency :=
  if recorded =s current_hash then bfilter (fun dep => negb (callee dep =s f)) deps
  else unwrap_or (update_dependency f recorded current_hash deps)
         (deps ++ [mkStaleDependency f recorded current_hash]).

Definition refresh_dependency (f current_hash : string) (e : FunctionVerificationState)
    : option FunctionVerificationState :=
  match callee_spec_hashes e !! f with
  | None => None
  | Some recorded =>
    let deps := refreshed_dependencies f recorded current_hash (stale_dependencies e) in
    let e' := with_stale_dependencies deps e in
    Some (if negb (bool_decide (deps = stale_dependencies e))
             && negb (bool_decide (deps = [])) && verified e
          then with_status InProgress e' else e')
  end.

Definition dependencies_changed (e e' : FunctionVerificationState) : bool :=
  negb (bool_decide (stale_dependencies e' = stale_dependencies e)).

Section conclusions.
Variable to_string : json -> string.
Variable sha256_hex : string -> string.
Variable debug_str : string -> string.

Definition specs_hash (l : list AnnotationEntry) : string :=
  sha256_hex (to_string (JArr (map annotation_json l))).

Definition specs_hash_for_function (f : string) (c : gmap string FunctionVerificationState) : string :=
  unwrap_or ((fun e => specs_hash (specs e)) <$> c !! f) (specs_hash []).

(** The hash of the environment a receipt records; a receipt without one hashes as
    the empty text. *)
Definition proof_environment_hash (receipt : json) : string :=
  sha256_hex (unwrap_or (to_string <$> receipt .? "environment") "").

Definition refused (f reason : string) : string :=
  "cannot store verified conclusion for '" +s+ f +s+ "': " +s+ reason.

(** Why a conclusion cannot be stored as verified. *)
Definition validate_verified_conclusion (e : FunctionVerificationState) : option string :=
  if negb (verified e) then None
  else if negb (bool_decide (stale_dependencies e = []))
  then Some (refused (function e) "stale callee contracts")
  else if match stale_proof_environment e with Some _ => true | None => false end
  then Some (refused (function e) "stale proof environment")
  else match find_first (fun c => match callee_spec_hashes e !! c with Some _ => false | None => true end)
               (callees e) with
       | Some c => Some (refused (function e) ("missing callee contract hash for '" +s+ c +s+ "'"))
       | None =>
         match wp_summary e with
         | None => Some (refused (function e) "missing wp_summary")
         | Some summary =>
           if summary_incomplete summary
           then Some (refused (function e) "WP summary is not fully valid")
           else match proof_receipt e with
                | None => Some (refused (function e) "missing proof_receipt")
                | Some receipt =>
                  refused (function e) <$>
                  proof_receipt_evidence_error to_string sha256_hex debug_str receipt (total summary)
                    (function e)
                end
         end
       end.

(** The stored conclusion with the update's fields laid over it. *)
Definition merge_update (c : gmap string FunctionVerificationState) (u : FunctionConclusionUpdate)
    : FunctionVerificationState :=
  let e := unwrap_or (c !! u_function u) (empty_conclusion_static (u_function u)) in
  let sp := unwrap_or (u_specs u) (specs e) in
  let cs := unwrap_or (u_callees u) (callees e) in
  let refreshed_callees := match u_callees u with Some _ => true | None => false end in
  let hashes := if refreshed_callees
                then fold_left (fun m f => <[f := specs_hash_for_function f c]> m) cs ∅
                else callee_spec_hashes e in
  let deps := if refreshed_callees then [] else stale_dependencies e in
  mkConclusion (function e) (unwrap_or (u_status u) (status e)) sp
    (u_wp_summary u <||> wp_summary e) (unwrap_or (u_notes u) (notes e)) cs hashes deps
    (u_proof_receipt u <||> proof_receipt e)
    (u_verify_profile u <||> verify_profile e)
    (match u_verify_profile u with Some _ => u_reproduce u | None => reproduce e end)
    (match u_proof_receipt u with
     | Some receipt => Some (proof_environment_hash receipt)
     | None => proof_env_hash e
     end)
    (match u_proof_receipt u with Some _ => None | None => stale_proof_environment e end)
    (ast_stmt_count e) (sandbox_clean e) (as_u32 (length sp)) (sandbox_deleted e).

(** The new state with the names whose conclusions moved, or the refusal. *)
Definition store_conclusion (u : FunctionConclusionUpdate) (s : SessionState)
    : SessionState * list string + string :=
  let f := u_function u in
  let e := merge_update (conclusions s) u in
  match validate_verified_conclusion e with
  | Some reason => inr reason
  | None =>
    let acc0 := (<[f := e]> (conclusions s), [f]) in
    let acc1 := match u_proof_receipt u with
                | Some receipt =>
                  visit_all f (refresh_environment (proof_environment_hash receipt))
                    environment_changed acc0
                | None => acc0
                end in
    let current_hash := specs_hash_for_function f acc1.1 in
    let acc2 := visit_all f (refresh_dependency f current_hash) dependencies_changed acc1 in
    inl (with_conclusions acc2.1 s, acc2.2)
  end.

Definition verified_with (e : FunctionVerificationState) : option json :=
  if negb (verified e) then None
  else match proof_receipt e with
       | None => None
       | Some receipt =>
         Some (JObj
           [("model", jopt id (pointer ["wp"; "model"] receipt
                               <||> (JStr <$> (wp_summary e ≫= model))));
            ("provers", jopt id (pointer ["wp"; "provers"; "effective"] receipt));
            ("timeout_seconds", jopt id (pointer ["wp"; "timeout_seconds"; "effective"] receipt
                                         <||> (jN <$> (wp_summary e ≫= timeout_used))));
            ("assumed_callee_contracts", jstrings (callees e));
            ("proof_receipt_sha256", jopt id (receipt .? "sha256"));
            ("verify_profile", jopt JStr (verify_profile e));
            ("reproduce", jopt JStr (reproduce e))])
       end.

Definition get_conclusion (f : string) (s : SessionState) : option FunctionVerificationState :=
  conclusions s !! f.

Definition on_sandbox_created (f : string) (count : option N) (s : SessionState) : SessionState :=
  let e := with_sandbox count true 0 false
             (unwrap_or (conclusions s !! f) (empty_conclusion_static f)) in
  with_conclusions (<[f := with_status InProgress e]> (conclusions s)) s.

Definition on_annotation_added (f : string) (s : SessionState) : SessionState :=
  with_conclusions
    (alter (fun e => with_sandbox (ast_stmt_count e) false (u32_saturating_add (annotation_count e) 1)
                       (sandbox_deleted e) e) f (conclusions s)) s.

Definition on_sandbox_deleted (f : string) (s : SessionState) : SessionState :=
  with_conclusions
    (alter (fun e => with_sandbox (ast_stmt_count e) (sandbox_clean e) (annotation_count e) true e)
       f (conclusions s)) s.

Definition list_conclusions (status_filter : option VerificationStatus) (s : SessionState)
    : list ConclusionSummary :=
  map (fun c => mkConclusionSummary (function c) (status c) (wp_summary c) (verified_with c))
    (bfilter (fun c => is_none_or (fun st => bool_decide (status c = st)) status_filter)
       (map_to_list (conclusions s)).*2).

(** ** Registering profiles *)

(** What serde makes of a profile body; a key it does not know is an error. *)
Variable profile_of_json : json -> VerificationProfile + string.

(** Names trimmed, in place; the first blank one stops. *)
Fixpoint trim_entries (entries : list string) : option (list string) :=
  match entries with
  | [] => Some []
  | entry :: entries =>
    let trimmed := trim entry in
    if is_empty trimmed then None else cons trimmed <$> trim_entries entries
  end.

Definition blank_message (name field : string) : string :=
  "profile " +s+ dq +s+ name +s+ dq +s+ " has a blank entry in " +s+ field +s+ ", which can never match".

Definition json_kind (value : json) : string :=
  match value with
  | JNull => "null" | JBool _ => "a boolean" | JNum _ => "a number"
  | JArr _ => "an array" | JStr _ => "a string" | JObj _ => "an object"
  end.

Definition with_trimmed (fs ps gs : list string) (p : VerificationProfile) : VerificationProfile :=
  mkProfile (p_sources p) fs (p_model p) (p_machdep p) (p_include_paths p) (p_defines p)
    (p_force_includes p) ps (p_timeout_seconds p) (p_isystem_paths p) (p_nostdinc p) (p_min_goals p)
    gs (p_rte p) (p_rte_unsigned p) (p_rte_pointer p) (p_builtin_models p) (p_reproduce p).

Definition parse_profile (name : string) (body : json) : VerificationProfile + string :=
  match profile_of_json body with
  | inr error => inr ("profile " +s+ dq +s+ name +s+ dq +s+ ": " +s+ error)
  | inl p =>
    if opt_eqb N.eqb (p_min_goals p) (Some 0%N)
    then inr ("profile " +s+ dq +s+ name +s+ dq
              +s+ ": min_goals 0 checks nothing; omit it to declare no floor")
    else match trim_entries (p_functions p) with
         | None => inr (blank_message name "functions")
         | Some fs =>
           match trim_entries (p_provers p) with
           | None => inr (blank_message name "provers")
           | Some ps =>
             match trim_entries (p_build_gates p) with
             | None => inr (blank_message name "build_gates")
             | Some gs =>
               if bool_decide (fs = []) && bool_decide (p_sources p = [])
               then inr ("profile " +s+ dq +s+ name +s+ dq
                         +s+ " names neither functions nor sources, so nothing could ever be matched to it")
               else inl (with_trimmed fs ps gs p)
             end
           end
         end
  end.

Fixpoint parse_profiles (entries : jmap) (profiles : gmap string VerificationProfile)
    : gmap string VerificationProfile + string :=
  match entries with
  | [] => inl profiles
  | (name, body) :: entries =>
    match parse_profile name body with
    | inr error => inr error
    | inl p => parse_profiles entries (<[name := p]> profiles)
    end
  end.

Definition parse_verification_profiles (value : json) : gmap string VerificationProfile + string :=
  match as_object value with
  | None => inr ("profiles must be an object keyed by target name, got " +s+ json_kind value)
  | Some [] => inr "profiles is empty, so no target could be named later"
  | Some object => parse_profiles object ∅
  end.
End conclusions.

(** ** Lemmas: a pass over the conclusions *)

Section pass_lemmas.
Variable skipped : string.
Variable refresh : FunctionVerificationState -> option FunctionVerificationState.
Variable changed : FunctionVerificationState -> FunctionVerificationState -> bool.
Implicit Types (c : gmap string FunctionVerificationState).

Definition refreshed (e : FunctionVerificationState) : FunctionVerificationState :=
  unwrap_or (refresh e) e.

Lemma visit_lookup acc name n :
  (visit skipped refresh changed acc name).1 !! n
  = if decide (n = name /\ n <> skipped) then refreshed <$> acc.1 !! n else acc.1 !! n.
Proof.
  unfold visit, refreshed. destruct (name =s skipped) eqn:E; bool_simpl.
  { case_decide as D; [|done]. destruct D. congruence. }
  destruct (acc.1 !! name) as [e|] eqn:El.
  - destruct (refresh e) as [e'|] eqn:Er; simpl; case_decide as D.
    + destruct D as [-> _]. by rewrite lookup_insert_eq, El; simpl; rewrite Er.
    + rewrite lookup_insert_ne; [done|]. intros ->. by destruct D.
    + destruct D as [-> _]. rewrite El. simpl. by rewrite Er.
    + done.
  - case_decide as D; [|done]. destruct D as [-> _]. by rewrite El.
Qed.

Lemma visit_touched acc name n :
  n ∈ (visit skipped refresh changed acc name).2 <->
  n ∈ acc.2 \/ n = name /\ n <> skipped /\
    exists e e', acc.1 !! n = Some e /\ refresh e = Some e' /\ changed e e' = true.
Proof.
  unfold visit. destruct (name =s skipped) eqn:E; bool_simpl; [naive_solver|].
  destruct (acc.1 !! name) as [e|] eqn:El; [|naive_solver].
  destruct (refresh e) as [e'|] eqn:Er; simpl; [|naive_solver].
  destruct (changed e e') eqn:Ec.
  - rewrite elem_of_app, list_elem_of_singleton. split.
    + intros [?| ->]; [by left|]. right. split_and!; [done..|]. by exists e, e'.
    + intros [?|[-> _]]; [by left|by right].
  - split; [by left|]. intros [?|(-> & _ & ? & ? & ? & ? & ?)]; [done|]. congruence.
Qed.

Lemma visits_lookup names acc n :
  NoDup names ->
  (fold_left (visit skipped refresh changed) names acc).1 !! n
  = if decide (n ∈ names /\ n <> skipped) then refreshed <$> acc.1 !! n else acc.1 !! n.
Proof.
  revert acc. induction names as [|x names IH]; intros acc Hnd; cbn [fold_left].
  { case_decide as D; [|done]. destruct D as [D _]. by apply not_elem_of_nil in D. }
  apply NoDup_cons in Hnd as [Hx Hnd]. rewrite IH by done. rewrite visit_lookup.
  destruct (decide (n = x)) as [->|Hne].
  - rewrite decide_False by tauto. apply decide_ext. rewrite elem_of_cons. tauto.
  - rewrite (decide_False (P := n = x /\ _)) by tauto.
    apply decide_ext. rewrite elem_of_cons. tauto.
Qed.

Lemma visits_touched names acc n :
  NoDup names ->
  n ∈ (fold_left (visit skipped refresh changed) names acc).2 <->
  n ∈ acc.2 \/ n ∈ names /\ n <> skipped /\
    exists e e', acc.1 !! n = Some e /\ refresh e = Some e' /\ changed e e' = true.
Proof.
  revert acc. induction names as [|x names IH]; intros acc Hnd; simpl.
  { split; [by left|]. by intros [?|[?%not_elem_of_nil _]]. }
  apply NoDup_cons in Hnd as [Hx Hnd]. rewrite IH by done.
  rewrite visit_touched, visit_lookup, elem_of_cons.
  destruct (decide (n = x /\ n <> skipped)) as [[-> ?]|D]; tauto.
Qed.

Lemma keys_spec c n : n ∈ (map_to_list c).*1 <-> is_Some (c !! n).
Proof.
  rewrite list_elem_of_fmap. split.
  - intros ([k e] & -> & H%elem_of_map_to_list). by exists e.
  - intros [e H]. exists (n, e). split; [done|]. by apply elem_of_map_to_list.
Qed.

Lemma visit_all_lookup acc n :
  (visit_all skipped refresh changed acc).1 !! n
  = if decide (n = skipped) then acc.1 !! n else refreshed <$> acc.1 !! n.
Proof.
  unfold visit_all. rewrite visits_lookup by apply NoDup_fst_map_to_list.
  destruct (decide (n = skipped)) as [->|]; [by rewrite decide_False by tauto|].
  case_decide as D; [done|]. destruct (acc.1 !! n) eqn:E; [|done].
  destruct D. split; [|done]. apply keys_spec. by rewrite E.
Qed.

Lemma visit_all_touched acc n :
  n ∈ (visit_all skipped refresh changed acc).2 <->
  n ∈ acc.2 \/ n <> skipped /\
    exists e e', acc.1 !! n = Some e /\ refresh e = Some e' /\ changed e e' = true.
Proof.
  unfold visit_all. rewrite visits_touched by apply NoDup_fst_map_to_list.
  rewrite keys_spec. split; [tauto|].
  intros [?|(? & e & e' & H & ?)]; [by left|right]. split_and!; [by exists e|done|by exists e, e'].
Qed.
End pass_lemmas.

(** ** Lemmas: stale dependencies *)

Lemma update_dependency_None f r h deps :
  update_dependency f r h deps = None <-> f ∉ map callee deps.
Proof.
  induction deps as [|d deps IH]; simpl; [split; [intros _; apply not_elem_of_nil|done]|].
  rewrite not_elem_of_cons. destruct (callee d =s f) eqn:E; bool_simpl.
  - split; [done|]. by intros [[] _].
  - rewrite <- IH. destruct (update_dependency f r h deps); simpl; [|by split].
    split; [done|]. by intros [_ ?].
Qed.

Lemma update_dependency_Some f r h deps deps' :
  update_dependency f r h deps = Some deps' ->
  map callee deps' = map callee deps /\
  (NoDup (map callee deps) ->
   forall d, d ∈ deps' <-> (d ∈ deps /\ callee d <> f) \/ d = mkStaleDependency f r h).
Proof.
  revert deps'. induction deps as [|d0 deps IH]; intros deps'; simpl; [done|].
  destruct (callee d0 =s f) eqn:E; bool_simpl.
  - intros [= <-]. subst f. split; [done|]. intros [Hn _]%NoDup_cons d.
    rewrite !elem_of_cons. split.
    + intros [->|Hd]; [by right|left]. split; [by right|]. intros Ed. destruct Hn. rewrite <- Ed.
      change (map callee deps) with (callee <$> deps). by apply list_elem_of_fmap_2.
    + intros [[[->|?] Hne]| ->]; [done|by right|by left].
  - destruct (update_dependency f r h deps) as [deps1|] eqn:E1; simpl; [|done].
    intros [= <-]. destruct (IH _ eq_refl) as [Hm Hd]. split; [simpl; by rewrite Hm|].
    intros [_ Hnd]%NoDup_cons d. rewrite !elem_of_cons, (Hd Hnd). naive_solver.
Qed.

Lemma refreshed_dependencies_spec f r h deps :
  NoDup (map callee deps) ->
  NoDup (map callee (refreshed_dependencies f r h deps)) /\
  forall d, d ∈ refreshed_dependencies f r h deps <->
    (d ∈ deps /\ callee d <> f) \/ (r <> h /\ d = mkStaleDependency f r h).
Proof.
  intros Hnd. unfold refreshed_dependencies. destruct (r =s h) eqn:E; bool_simpl.
  - split.
    + assert (Hsub : sublist (map callee (bfilter (fun dep => negb (callee dep =s f)) deps)) (map callee deps))
        by exact (fmap_sublist callee _ _ (bfilter_sublist _ _)).
      by eapply sublist_NoDup.
    + intros d. rewrite elem_of_bfilter, negb_true_iff, String.eqb_neq. naive_solver.
  - destruct (update_dependency f r h deps) as [deps'|] eqn:E1; simpl.
    + destruct (update_dependency_Some _ _ _ _ _ E1) as [Hm Hd]. rewrite Hm. split; [done|].
      intros d. rewrite (Hd Hnd). naive_solver.
    + apply update_dependency_None in E1. split.
      * rewrite map_app. apply NoDup_app. split_and!; [done| |apply NoDup_singleton].
        intros x Hx ->%list_elem_of_singleton. done.
      * intros d. rewrite elem_of_app, list_elem_of_singleton. split; [|naive_solver].
        intros [Hd|Hd]; [left|by right]. split; [done|]. intros <-. destruct E1.
        by apply (list_elem_of_fmap_2 callee).
Qed.

(** ** The invariant *)

Section invariant.
Variable to_string : json -> string.
Variable sha256_hex : string -> string.
Variable debug_str : string -> string.

Abbreviation specs_hash_of := (specs_hash_for_function to_string sha256_hex).
Abbreviation env_hash := (proof_environment_hash to_string sha256_hex).
Abbreviation validate := (validate_verified_conclusion to_string sha256_hex debug_str).
Abbreviation store := (store_conclusion to_string sha256_hex debug_str).

(** Callees whose conclusion came off the disk when others had been stored: nothing
    compares those with it until it is stored again. *)
Variable late : gset string.

(** A conclusion's stale dependencies are its recorded callee hashes that differ
    from the callee's specifications now.  A function's own name is never among
    them: the code compares other conclusions only. *)
Record dependencies_exact (c : gmap string FunctionVerificationState) (n : string)
    (e : FunctionVerificationState) : Prop := mkDependenciesExact {
  deps_distinct : NoDup (map callee (stale_dependencies e));
  deps_exact : forall d, callee d ∉ late -> d ∈ stale_dependencies e <->
    callee d <> n /\ callee_spec_hashes e !! callee d = Some (recorded_specs_hash d)
    /\ current_specs_hash d = specs_hash_of (callee d) c
    /\ recorded_specs_hash d <> current_specs_hash d;
}.

(** The staleness a recorded environment has when the newest receipt's is [env]. *)
Definition environment_staleness (env : string) (recorded : option string) : option StaleProofEnvironment :=
  match recorded with
  | Some r => if r =s env then None else Some (mkStaleEnv r env)
  | None => None
  end.

Record conclusion_ok (c : gmap string FunctionVerificationState) (env : string) (n : string)
    (e : FunctionVerificationState) : Prop := mkConclusionOk {
  ok_name : function e = n;
  ok_env_hash : proof_env_hash e = env_hash <$> proof_receipt e;
  ok_env : stale_proof_environment e = environment_staleness env (proof_env_hash e);
  ok_deps : dependencies_exact c n e;
  ok_valid : validate e = None;
}.

(** The conclusions [off_disk] apart. *)
Definition conclusions_ok (off_disk : gset string) (c : gmap string FunctionVerificationState) (env : string) : Prop :=
  forall n e, n ∉ off_disk -> c !! n = Some e -> conclusion_ok c env n e.

(** *** What a valid verified conclusion has *)

Lemma validate_verified e :
  validate e = None -> status e = Verified ->
  stale_dependencies e = [] /\ stale_proof_environment e = None
  /\ (forall f, f ∈ callees e -> is_Some (callee_spec_hashes e !! f))
  /\ exists summary receipt, wp_summary e = Some summary /\ summary_incomplete summary = false
     /\ proof_receipt e = Some receipt
     /\ intact to_string sha256_hex receipt /\ evidence receipt (total summary) (function e).
Proof.
  unfold validate_verified_conclusion, verified. intros H Hs.
  rewrite bool_decide_eq_true_2 in H by done. simpl in H.
  destruct (bool_decide (stale_dependencies e = [])) eqn:Hd; [|done].
  apply bool_decide_eq_true_1 in Hd. simpl in H.
  destruct (stale_proof_environment e) eqn:He; [done|].
  destruct (find_first _ (callees e)) eqn:Hc; [done|].
  destruct (wp_summary e) as [summary|]; [|done].
  destruct (summary_incomplete summary) eqn:Hi; [done|].
  destruct (proof_receipt e) as [receipt|]; [|done].
  apply fmap_None, evidence_error_None in H as [Hint Hev]. split_and!; [done..| |].
  - intros f Hf. rewrite find_first_None in Hc. apply Hc in Hf.
    by destruct (callee_spec_hashes e !! f); [eexists|].
  - by exists summary, receipt.
Qed.

Lemma with_stale_env_id e : with_stale_env (stale_proof_environment e) e = e.
Proof. by destruct e. Qed.
Lemma with_stale_dependencies_id e : with_stale_dependencies (stale_dependencies e) e = e.
Proof. by destruct e. Qed.

(** A refresh leaves a verified conclusion as it was or makes it unverified. *)
Lemma refresh_environment_verified env e e' :
  validate e = None -> refresh_environment env e = Some e' -> status e' = Verified -> e' = e.
Proof.
  unfold refresh_environment. intros Hv H Hs. destruct (proof_env_hash e) as [r|]; [|done].
  injection H as <-. destruct (r =s env).
  - destruct (validate_verified e Hv) as (_ & Hn & _); [by destruct e|].
    rewrite <- Hn. apply with_stale_env_id.
  - exfalso. revert Hs. unfold verified. destruct e as [? []]; simpl; done.
Qed.

Lemma refresh_dependency_verified f h e e' :
  validate e = None -> refresh_dependency f h e = Some e' -> status e' = Verified -> e' = e.
Proof.
  unfold refresh_dependency. intros Hv H Hs. destruct (callee_spec_hashes e !! f) as [r|]; [|done].
  injection H as <-. set (deps := refreshed_dependencies _ _ _ _) in *.
  destruct (bool_decide (deps = stale_dependencies e)) eqn:E1; simpl in *.
  { apply bool_decide_eq_true_1 in E1. rewrite E1. apply with_stale_dependencies_id. }
  apply bool_decide_eq_false_1 in E1.
  destruct (bool_decide (deps = [])) eqn:E2; simpl in *.
  - apply bool_decide_eq_true_1 in E2. destruct (validate_verified e Hv) as (Hn & _); [by destruct e|].
    destruct E1. congruence.
  - exfalso. revert Hs. unfold verified. destruct e as [? []]; simpl; done.
Qed.

Lemma validate_unverified e : status e <> Verified -> validate e = None.
Proof.
  intros H. unfold validate_verified_conclusion, verified.
  by rewrite bool_decide_eq_false_2.
Qed.

(** *** The invariant under the operations *)

Lemma conclusion_ok_ext c c' env n e :
  (forall x, x ∉ late -> specs_hash_of x c = specs_hash_of x c') ->
  conclusion_ok c env n e -> conclusion_ok c' env n e.
Proof.
  intros H [? ? ? [? Hd] ?]. split; [done..| |done]. split; [done|].
  intros d Hl. rewrite <- H by done. by apply Hd.
Qed.

(** Only the specifications of a conclusion are hashed. *)
Lemma specs_hash_of_alter c c' x :
  specs <$> c !! x = specs <$> c' !! x -> specs_hash_of x c = specs_hash_of x c'.
Proof.
  unfold specs_hash_for_function. destruct (c !! x), (c' !! x); simpl; by try intros [= ->].
Qed.

Lemma empty_conclusion_ok c env f : conclusion_ok c env f (empty_conclusion_static f).
Proof.
  split; try done. split; [constructor|]. intros d _. simpl. split; [by intros ?%not_elem_of_nil|].
  rewrite lookup_empty. by intros (_ & ? & _).
Qed.

Lemma stored_or_empty_ok off_disk c env f :
  conclusions_ok off_disk c env -> f ∉ off_disk -> conclusion_ok c env f (unwrap_or (c !! f) (empty_conclusion_static f)).
Proof. intros H Hf. destruct (c !! f) eqn:E; simpl; [by apply H|apply empty_conclusion_ok]. Qed.

(** What no pass touches. *)
Definition same_record (e e' : FunctionVerificationState) : Prop :=
  function e' = function e /\ specs e' = specs e /\ callee_spec_hashes e' = callee_spec_hashes e
  /\ proof_receipt e' = proof_receipt e /\ proof_env_hash e' = proof_env_hash e.

Lemma refresh_environment_fields env e e' :
  refresh_environment env e = Some e' ->
  same_record e e' /\ stale_dependencies e' = stale_dependencies e
  /\ stale_proof_environment e' = environment_staleness env (proof_env_hash e).
Proof.
  unfold refresh_environment, environment_staleness, same_record.
  destruct (proof_env_hash e) as [r|] eqn:Er; [|done]. intros [= <-].
  destruct (r =s env); [|destruct (verified _)]; by destruct e.
Qed.

Lemma refresh_dependency_fields f h e e' :
  refresh_dependency f h e = Some e' ->
  same_record e e' /\ stale_proof_environment e' = stale_proof_environment e
  /\ exists r, callee_spec_hashes e !! f = Some r
     /\ stale_dependencies e' = refreshed_dependencies f r h (stale_dependencies e).
Proof.
  unfold refresh_dependency, same_record.
  destruct (callee_spec_hashes e !! f) as [r|] eqn:Er; [|done]. intros [= <-].
  destruct (negb _ && _ && _); destruct e; simpl in *; eauto 10.
Qed.

Lemma refreshed_environment_ok c env0 env n e :
  conclusion_ok c env0 n e -> conclusion_ok c env n (refreshed (refresh_environment env) e).
Proof.
  intros [Hn Hh He [Hnd Hd] Hv]. unfold refreshed.
  destruct (refresh_environment env e) as [e'|] eqn:E; simpl.
  - destruct (refresh_environment_fields _ _ _ E) as ((Ef & _ & Ec & Er & Ep) & Es & Ee).
    split; [congruence|congruence|congruence| |].
    + split; [by rewrite Es|]. intros d Hl. rewrite Es, Ec. by apply Hd.
    + destruct (decide (status e' = Verified)) as [Hs|Hs]; [|by apply validate_unverified].
      by rewrite (refresh_environment_verified _ _ _ Hv E Hs).
  - unfold refresh_environment in E. destruct (proof_env_hash e) eqn:Er; [done|].
    split; try done; rewrite Er; done.
Qed.

Lemma refreshed_dependency_ok c c' env f h n e :
  n <> f -> specs_hash_of f c' = h ->
  (forall x, x <> f -> specs_hash_of x c' = specs_hash_of x c) ->
  conclusion_ok c env n e -> conclusion_ok c' env n (refreshed (refresh_dependency f h) e).
Proof.
  intros Hnf Hf Hx [Hn Hh He [Hnd Hd] Hv]. unfold refreshed.
  destruct (refresh_dependency f h e) as [e'|] eqn:E; simpl.
  - destruct (refresh_dependency_fields _ _ _ _ E) as ((Ef & _ & Ec & Ep & Eh) & Ee & r & Er & Es).
    destruct (refreshed_dependencies_spec f r h _ Hnd) as [Hnd' Hd'].
    split; [congruence|congruence|congruence| |].
    + split; [by rewrite Es|]. intros d Hl. rewrite Es, Ec, Hd', Hd by done.
      destruct (decide (callee d = f)) as [Ed|Ed].
      * rewrite Ed, Hf, Er. split.
        -- intros [[_ []]|[Hrh ->]]; [done|]. simpl. by split_and!.
        -- intros (_ & [= ->] & Hc & Hne). right. destruct d. simpl in *. by subst.
      * rewrite Hx by done. split; [|naive_solver]. intros [[? _]|[_ ->]]; done.
    + destruct (decide (status e' = Verified)) as [Hs|Hs]; [|by apply validate_unverified].
      by rewrite (refresh_dependency_verified _ _ _ _ Hv E Hs).
  - unfold refresh_dependency in E. destruct (callee_spec_hashes e !! f) eqn:Er; [done|].
    split; try done. split; [done|]. intros d Hl. rewrite Hd by done.
    destruct (decide (callee d = f)) as [Ed|Ed]; [|by rewrite Hx].
    rewrite Ed, Er. by split; intros (_ & ? & _).
Qed.

Lemma recorded_hashes (g : string -> string) cs (m : gmap string string) k v :
  fold_left (fun m f => <[f := g f]> m) cs m !! k = Some v -> v = g k \/ m !! k = Some v.
Proof.
  revert m. induction cs as [|x cs IH]; simpl; [by right|]. intros m H.
  destruct (IH _ H) as [?|H']; [by left|]. destruct (decide (k = x)) as [->|].
  - rewrite lookup_insert_eq in H'. left. by injection H'.
  - rewrite lookup_insert_ne in H' by done. by right.
Qed.

Definition next_env (u : FunctionConclusionUpdate) (env : string) : string :=
  unwrap_or (env_hash <$> u_proof_receipt u) env.

(** An update that says everything a conclusion's support rests on. *)
Definition restates (u : FunctionConclusionUpdate) (c : gmap string FunctionVerificationState) : bool :=
  match u_callees u, u_proof_receipt u with Some _, Some _ => true | _, _ => false end
  && (function (unwrap_or (c !! u_function u) (empty_conclusion_static (u_function u))) =s u_function u).

Lemma merged_ok off_disk c c' env u :
  conclusions_ok off_disk c env -> (u_function u ∉ off_disk \/ restates u c = true) ->
  (forall x, x <> u_function u -> specs_hash_of x c' = specs_hash_of x c) ->
  validate (merge_update to_string sha256_hex c u) = None ->
  conclusion_ok c' (next_env u env) (u_function u) (merge_update to_string sha256_hex c u).
Proof.
  intros Hok Hfresh Hx Hv. unfold restates in Hfresh.
  assert (Hfields : let e := unwrap_or (c !! u_function u) (empty_conclusion_static (u_function u)) in
    function e = u_function u
    /\ (u_proof_receipt u = None -> proof_env_hash e = env_hash <$> proof_receipt e
        /\ stale_proof_environment e = environment_staleness env (proof_env_hash e))
    /\ (u_callees u = None -> dependencies_exact c (u_function u) e)).
  { destruct Hfresh as [Hf|Hf]; [by destruct (stored_or_empty_ok _ _ _ _ Hok Hf)|].
    bool_simpl. by destruct (u_callees u), (u_proof_receipt u). }
  destruct Hfields as (Hn & He & Hd). unfold merge_update in *. set (e := unwrap_or (c !! u_function u) _) in *.
  split; [done| | | |done]; cbn [proof_env_hash proof_receipt stale_proof_environment].
  - destruct (u_proof_receipt u); [done|]. by destruct (He eq_refl).
  - unfold next_env. destruct (u_proof_receipt u); simpl; [by rewrite String.eqb_refl|]. by destruct (He eq_refl).
  - destruct (u_callees u) as [cs|]; simpl; split; simpl.
    + constructor.
    + intros d _. split; [by intros ?%not_elem_of_nil|]. intros (Hne & Hr & Hc & Hrc).
      destruct (recorded_hashes (fun f => specs_hash_of f c) _ _ _ _ Hr) as [Hr'|Hr'];
        [|by rewrite lookup_empty in Hr']. rewrite Hx in Hc by done. congruence.
    + by destruct (Hd eq_refl).
    + intros d Hl. destruct (Hd eq_refl) as [_ Hde]. rewrite Hde by done. split; intros (? & ? & Hc & ?); rewrite Hx in * by done; by split_and!.
Qed.

(** What a store that is not refused leaves, conclusion by conclusion. *)
Definition refreshed_by_store (u : FunctionConclusionUpdate) (e e0 : FunctionVerificationState)
    : FunctionVerificationState :=
  refreshed (refresh_dependency (u_function u) (specs_hash to_string sha256_hex (specs e)))
    (match u_proof_receipt u with
     | Some receipt => refreshed (refresh_environment (env_hash receipt)) e0
     | None => e0
     end).

Lemma env_pass_lookup u e c n :
  let acc := (<[u_function u := e]> c, [u_function u]) in
  (match u_proof_receipt u with
   | Some receipt => visit_all (u_function u) (refresh_environment (env_hash receipt)) environment_changed acc
   | None => acc
   end).1 !! n
  = if decide (n = u_function u) then Some e
    else (fun e0 => match u_proof_receipt u with
                    | Some receipt => refreshed (refresh_environment (env_hash receipt)) e0
                    | None => e0
                    end) <$> c !! n.
Proof.
  intros acc. unfold acc. destruct (u_proof_receipt u) as [receipt|]; rewrite ?visit_all_lookup; simpl.
  - case_decide as D; [subst; apply lookup_insert_eq|]. by rewrite lookup_insert_ne.
  - case_decide as D; [subst; apply lookup_insert_eq|].
    rewrite lookup_insert_ne by done. by destruct (c !! n).
Qed.

Lemma store_lookup u s s' touched :
  store u s = inl (s', touched) ->
  let e := merge_update to_string sha256_hex (conclusions s) u in
  validate e = None /\
  forall n, conclusions s' !! n =
    if decide (n = u_function u) then Some e else refreshed_by_store u e <$> conclusions s !! n.
Proof.
  intros H e. unfold store_conclusion in H. fold e in H.
  destruct (validate e) eqn:Hv; [done|]. split; [done|]. intros n.
  injection H as <- _. simpl. rewrite visit_all_lookup, env_pass_lookup.
  unfold specs_hash_for_function at 1. rewrite env_pass_lookup.
  rewrite (decide_True (P := u_function u = u_function u)) by done. simpl.
  case_decide; [done|]. unfold refreshed_by_store. by destruct (conclusions s !! n).
Qed.

Lemma refreshed_same (r : FunctionVerificationState -> option FunctionVerificationState) e :
  (forall e', r e = Some e' -> same_record e e') -> same_record e (refreshed r e).
Proof. intros H. unfold refreshed. destruct (r e); simpl; [by apply H|by unfold same_record]. Qed.

Lemma refreshed_by_store_same u e e0 : same_record e0 (refreshed_by_store u e e0).
Proof.
  assert (Htrans : forall a b c, same_record a b -> same_record b c -> same_record a c)
    by (unfold same_record; intuition congruence).
  unfold refreshed_by_store. eapply Htrans; [|apply refreshed_same; intros e' H;
    by apply refresh_dependency_fields in H as [? _]].
  destruct (u_proof_receipt u); [|by unfold same_record].
  apply refreshed_same. intros e' H. by apply refresh_environment_fields in H as [? _].
Qed.

(** Specifications after a store: the stored function's are the merged ones, and
    every other conclusion's are what they were. *)
Lemma store_specs u s s' touched :
  store u s = inl (s', touched) ->
  specs_hash_of (u_function u) (conclusions s')
    = specs_hash to_string sha256_hex (specs (merge_update to_string sha256_hex (conclusions s) u))
  /\ forall x, x <> u_function u -> specs_hash_of x (conclusions s') = specs_hash_of x (conclusions s).
Proof.
  intros H. destruct (store_lookup _ _ _ _ H) as [_ Hl]. split.
  - unfold specs_hash_for_function. by rewrite Hl, decide_True.
  - intros x Hx. apply specs_hash_of_alter. rewrite Hl, decide_False by done.
    destruct (conclusions s !! x) as [e0|]; simpl; [|done].
    by destruct (refreshed_by_store_same u (merge_update to_string sha256_hex (conclusions s) u) e0)
      as (_ & -> & _).
Qed.

Lemma store_ok off_disk u s s' touched env :
  conclusions_ok off_disk (conclusions s) env -> store u s = inl (s', touched) ->
  conclusions_ok (if restates u (conclusions s) then off_disk ∖ {[u_function u]} else off_disk) (conclusions s') (next_env u env).
Proof.
  intros Hok H n e' Hin Hn. destruct (store_lookup _ _ _ _ H) as [Hv Hl].
  destruct (store_specs _ _ _ _ H) as [Hf Hx]. rewrite Hl in Hn.
  case_decide as D.
  - subst n. injection Hn as <-. apply (merged_ok off_disk (conclusions s)); [done| |done|done].
    destruct (restates _ _); [by right|by left].
  - assert (n ∉ off_disk) by (destruct (restates _ _); set_solver).
    destruct (conclusions s !! n) as [e0|] eqn:E0; [|done]. injection Hn as <-.
    apply (refreshed_dependency_ok (conclusions s)); [done|done|done|].
    unfold next_env. destruct (u_proof_receipt u); simpl; [|by apply Hok].
    by apply (refreshed_environment_ok _ env), Hok.
Qed.
End invariant.

(** ** The session as a transition system

    One step is one operation.  A refused store changes nothing and is no step; the
    handlers also write the load flag and the registered profiles in place.  A server that
    starts reads the conclusions of earlier sessions off the disk and hands them to a task of
    its own, which adds them once it holds the session: before the first request or
    after some. *)
Section transitions.
Variable to_string : json -> string.
Variable sha256_hex : string -> string.
Variable debug_str : string -> string.

Definition registered (loaded : bool) (profiles : gmap string VerificationProfile)
    (from : option string) (s : SessionState) : SessionState :=
  mkSession loaded (eva_completed s) (wp_completed s) (functions s) (stale_markers s)
    (globals s) (callgraph_edges s) (callgraph_vertices s) (conclusions s) (project_state s)
    profiles from (seen_receipts s).

(** A function the session knows keeps its conclusion. *)
Definition resumed (loaded : gmap string FunctionVerificationState) (s : SessionState) : SessionState :=
  with_conclusions (conclusions s ∪ loaded) s.

(** A session, the functions whose conclusion came [off_disk] and was not restated since,
    and those whose conclusion came [late], when the session already had conclusions. *)
Record Tracked := mkTracked {
  tracked : SessionState;
  off_disk : gset string;
  late : gset string;
}.

Definition on (f : SessionState -> SessionState) (t : Tracked) : Tracked := mkTracked (f (tracked t)) (off_disk t) (late t).

Inductive session_step : Tracked -> Tracked -> Prop :=
  | step_functions entries t : session_step t (on (update_functions entries) t)
  | step_globals entries t : session_step t (on (update_globals entries) t)
  | step_callgraph graph t : session_step t (on (update_callgraph graph) t)
  | step_invalidate t : session_step t (on invalidate_all t)
  | step_markers markers t : session_step t (on (set_stale_markers markers) t)
  | step_store u t s' touched :
      store_conclusion to_string sha256_hex debug_str u (tracked t) = inl (s', touched) ->
      session_step t (mkTracked s' (if restates u (conclusions (tracked t)) then off_disk t ∖ {[u_function u]} else off_disk t) (late t))
  | step_sandbox_created f count t : session_step t (on (on_sandbox_created f count) t)
  | step_annotation_added f t : session_step t (on (on_annotation_added f) t)
  | step_sandbox_deleted f t : session_step t (on (on_sandbox_deleted f) t)
  | step_project_state write t : session_step t (on (project_state_mut write) t)
  | step_eva_completed t : session_step t (on set_eva_completed t)
  | step_wp_completed t : session_step t (on set_wp_completed t)
  | step_remember sha256 receipt t : session_step t (on (remember_receipt sha256 receipt) t)
  | step_registered loaded profiles from t : session_step t (on (registered loaded profiles from) t)
  | step_resumed loaded t :
      let added := dom loaded ∖ dom (conclusions (tracked t)) in
      session_step t (mkTracked (resumed loaded (tracked t)) (off_disk t ∪ added)
        (if bool_decide (conclusions (tracked t) = ∅) then late t else late t ∪ added)).

Definition started : Tracked := mkTracked default_session ∅ ∅.
Definition reachable (t : Tracked) : Prop := rtc session_step started t.

Lemma reachable_ind (P : Tracked -> Prop) :
  P started -> (forall t t', P t -> session_step t t' -> P t') ->
  forall t, reachable t -> P t.
Proof.
  intros H0 Hs. assert (H : forall t t', rtc session_step t t' -> P t -> P t').
  { induction 1; eauto. }
  intros t Hr. by apply (H started).
Qed.

Abbreviation ok := (conclusions_ok to_string sha256_hex debug_str).
Abbreviation ok1 := (conclusion_ok to_string sha256_hex debug_str).

(** Bookkeeping of a sandbox reads and writes nothing the invariant mentions. *)
Lemma with_sandbox_ok l c env n e count clean annotations deleted :
  ok1 l c env n e -> ok1 l c env n (with_sandbox count clean annotations deleted e).
Proof. intros [? ? ? [? ?] ?]. by destruct e. Qed.

Lemma in_progress_ok l c env n e : ok1 l c env n e -> ok1 l c env n (with_status InProgress e).
Proof.
  intros [? ? ? [? ?] _]. split; [by destruct e..|by apply validate_unverified].
Qed.

Lemma insert_ok l d c env f e :
  ok l d c env -> (f ∉ d -> ok1 l c env f e) ->
  specs e = specs (unwrap_or (c !! f) (empty_conclusion_static f)) -> ok l d (<[f := e]> c) env.
Proof.
  intros Hok He Hs n e' Hd Hn.
  apply (conclusion_ok_ext _ _ _ _ c).
  { intros x _. unfold specs_hash_for_function. destruct (decide (x = f)) as [->|].
    - rewrite lookup_insert_eq. simpl. rewrite Hs. by destruct (c !! f).
    - by rewrite lookup_insert_ne. }
  destruct (decide (n = f)) as [->|].
  - rewrite lookup_insert_eq in Hn. injection Hn as <-. by apply He.
  - rewrite lookup_insert_ne in Hn by done. by apply Hok.
Qed.

Lemma alter_ok l d c env f g :
  ok l d c env -> (forall e, ok1 l c env f e -> ok1 l c env f (g e)) -> (forall e, specs (g e) = specs e) ->
  ok l d (alter g f c) env.
Proof.
  intros Hok Hg Hs. destruct (c !! f) as [e|] eqn:E.
  - replace (alter g f c) with (<[f := g e]> c).
    + apply insert_ok; [done|intros Hf; by apply Hg, Hok|by rewrite Hs, E].
    + apply map_eq. intros n. destruct (decide (n = f)) as [->|].
      * by rewrite lookup_insert_eq, lookup_alter_eq, E.
      * by rewrite lookup_insert_ne, lookup_alter_ne.
  - replace (alter g f c) with c; [done|]. apply map_eq. intros n.
    destruct (decide (n = f)) as [->|]; [by rewrite lookup_alter_eq, E|by rewrite lookup_alter_ne].
Qed.

(** Conclusions off the disk are apart, and whoever recorded a contract that came late is
    not held to it. *)
Lemma resumed_ok l d c env loaded (added := dom loaded ∖ dom c) :
  ok l d c env -> ok (if bool_decide (c = ∅) then l else l ∪ added) (d ∪ added) (c ∪ loaded) env.
Proof.
  intros Hok n e Hd Hn. apply lookup_union_Some_raw in Hn as [Hn|[Hn Hl]].
  2: { destruct Hd. apply elem_of_union_r, elem_of_difference. split; [by eapply elem_of_dom_2|by apply not_elem_of_dom]. }
  rewrite bool_decide_eq_false_2 by (intros ->; by rewrite lookup_empty in Hn).
  assert (Hd' : n ∉ d) by set_solver. destruct (Hok n e Hd' Hn) as [? ? ? [Hnd Hde] ?].
  apply (conclusion_ok_ext _ _ _ _ c).
  { intros x Hx. unfold specs_hash_for_function. destruct (c !! x) as [e'|] eqn:E; [by rewrite (lookup_union_Some_l _ _ _ _ E)|].
    rewrite lookup_union_r by done. destruct (loaded !! x) eqn:El; [|done]. destruct Hx. apply elem_of_union_r, elem_of_difference.
    split; [by eapply elem_of_dom_2|by apply not_elem_of_dom]. }
  split; [done..| |done]. split; [done|]. intros dep Hdep. apply Hde. set_solver.
Qed.

Definition tracked_ok (t : Tracked) : Prop := exists env, ok (late t) (off_disk t) (conclusions (tracked t)) env.

Lemma step_ok t t' : tracked_ok t -> session_step t t' -> tracked_ok t'.
Proof.
  intros [env Hok] Hst. destruct Hst; try (by exists env).
  - eexists. by eapply store_ok.
  - exists env. apply insert_ok; [done| |done]. intros Hf.
    by apply in_progress_ok, with_sandbox_ok, (stored_or_empty_ok _ _ _ _ _ _ _ _ Hok).
  - exists env. apply alter_ok; [done| |done]. intros e. apply with_sandbox_ok.
  - exists env. apply alter_ok; [done| |done]. intros e. apply with_sandbox_ok.
  - exists env. unfold on, remember_receipt. cbn. by destruct (existsb _ _).
  - exists env. by apply resumed_ok.
Qed.

Lemma reachable_ok t : reachable t -> tracked_ok t.
Proof.
  revert t. apply reachable_ind; [|apply step_ok].
  exists "". intros n e _ H. cbn in H. by rewrite lookup_empty in H.
Qed.

(** Receipts: at most the limit, each hash once. *)
Definition receipts_ok (r : list (string * json)) : Prop :=
  length r <= SEEN_RECEIPT_LIMIT /\ NoDup r.*1.

Lemma remember_ok sha256 receipt s :
  receipts_ok (seen_receipts s) -> receipts_ok (seen_receipts (remember_receipt sha256 receipt s)).
Proof.
  intros [Hl Hnd]. unfold remember_receipt. destruct (existsb _ _) eqn:E; [done|].
  rewrite existsb_false in E.
  assert (Hnew : sha256 ∉ (seen_receipts s).*1).
  { intros ([h r] & -> & Hin)%list_elem_of_fmap. apply E in Hin. simpl in Hin.
    by rewrite String.eqb_refl in Hin. }
  set (kept := if (SEEN_RECEIPT_LIMIT <=? length (seen_receipts s))%nat
               then tail (seen_receipts s) else seen_receipts s).
  cbn [with_receipts seen_receipts].
  assert (Hk : length kept < SEEN_RECEIPT_LIMIT /\ sublist kept (seen_receipts s)).
  { unfold kept. destruct (_ <=? _)%nat eqn:Hc; bool_simpl; [|by split].
    destruct (seen_receipts s) as [|x l]; simpl in *; [unfold SEEN_RECEIPT_LIMIT in *; lia|].
    split; [lia|by constructor]. }
  destruct Hk as [Hk Hs]. apply (fmap_sublist fst) in Hs. split.
  - rewrite length_app. simpl. lia.
  - rewrite fmap_app. apply NoDup_app. split_and!; [by eapply sublist_NoDup| |apply NoDup_singleton].
    intros x Hx ->%list_elem_of_singleton. destruct Hnew. by eapply sublist_subseteq in Hs; apply Hs.
Qed.

Lemma step_receipts_ok t t' :
  receipts_ok (seen_receipts (tracked t)) -> session_step t t' -> receipts_ok (seen_receipts (tracked t')).
Proof.
  intros H Hst. destruct Hst as [| | | | |u t s' touched Hstore| | | | | | | | |]; try done.
  - split; [simpl; unfold SEEN_RECEIPT_LIMIT; lia|constructor].
  - revert Hstore. unfold store_conclusion. destruct (validate_verified_conclusion _ _ _ _); [done|].
    by intros [= <- _].
  - by apply remember_ok.
Qed.

(** *** Which conclusions a store names *)

Lemma refresh_environment_unchanged env e e' :
  validate_verified_conclusion to_string sha256_hex debug_str e = None ->
  refresh_environment env e = Some e' -> environment_changed e e' = false -> e' = e.
Proof.
  intros Hv H Hc. unfold environment_changed in Hc. bool_simpl. apply bool_decide_eq_true_1 in Hc.
  destruct (decide (status e' = Verified)) as [Hs|Hs]; [by eapply refresh_environment_verified|].
  unfold refresh_environment in H. destruct (proof_env_hash e) as [r|]; [|done].
  injection H as <-. destruct (r =s env); simpl in *.
  - rewrite Hc. apply with_stale_env_id.
  - unfold verified in *. case_bool_decide as Ev; simpl in Hc.
    + destruct (validate_verified _ _ _ e Hv) as (_ & Hn & _); [by destruct e|]. congruence.
    + rewrite Hc. apply with_stale_env_id.
Qed.

Lemma refresh_dependency_unchanged f h e e' :
  refresh_dependency f h e = Some e' -> dependencies_changed e e' = false -> e' = e.
Proof.
  intros H Hc. unfold dependencies_changed in Hc. bool_simpl. apply bool_decide_eq_true_1 in Hc.
  unfold refresh_dependency in H. destruct (callee_spec_hashes e !! f) as [r|]; [|done].
  injection H as <-. set (deps := refreshed_dependencies _ _ _ _) in *.
  assert (Hd : deps = stale_dependencies e).
  { revert Hc. by destruct (negb _ && _ && _). }
  rewrite bool_decide_eq_true_2 by done. simpl. rewrite Hd. apply with_stale_dependencies_id.
Qed.

Lemma env_pass_touched u e c n :
  n <> u_function u ->
  let acc := (<[u_function u := e]> c, [u_function u]) in
  n ∈ (match u_proof_receipt u with
       | Some receipt => visit_all (u_function u)
           (refresh_environment (proof_environment_hash to_string sha256_hex receipt))
           environment_changed acc
       | None => acc
       end).2 <->
  exists receipt e0 e1, u_proof_receipt u = Some receipt /\ c !! n = Some e0
    /\ refresh_environment (proof_environment_hash to_string sha256_hex receipt) e0 = Some e1
    /\ environment_changed e0 e1 = true.
Proof.
  intros Hn acc. unfold acc. destruct (u_proof_receipt u) as [receipt|].
  - rewrite visit_all_touched. simpl. rewrite lookup_insert_ne, list_elem_of_singleton by done.
    split; [|intros (? & e0 & e1 & [= <-] & ?); right; eauto].
    intros [?|(_ & e0 & e1 & ?)]; [done|]. by exists receipt, e0, e1.
  - simpl. rewrite list_elem_of_singleton. split; [done|]. by intros (? & ? & ? & ? & _).
Qed.

(** A conclusion before a store, after its first pass, and after its second. *)
Definition env_refreshed (u : FunctionConclusionUpdate) (e0 : FunctionVerificationState)
    : FunctionVerificationState :=
  match u_proof_receipt u with
  | Some receipt => refreshed (refresh_environment (proof_environment_hash to_string sha256_hex receipt)) e0
  | None => e0
  end.

Lemma env_refreshed_spec u e0 :
  stale_dependencies (env_refreshed u e0) = stale_dependencies e0
  /\ (env_refreshed u e0 = e0 \/ exists receipt, u_proof_receipt u = Some receipt /\
        refresh_environment (proof_environment_hash to_string sha256_hex receipt) e0
        = Some (env_refreshed u e0)).
Proof.
  unfold env_refreshed, refreshed. destruct (u_proof_receipt u) as [r|]; [|by split; [|left]].
  destruct (refresh_environment _ e0) as [e1|] eqn:E; simpl; [|by split; [|left]].
  split; [|right; by exists r].
  by destruct (refresh_environment_fields _ _ _ E) as (_ & ? & _).
Qed.

Lemma dep_refreshed_spec f h e1 :
  let e2 := refreshed (refresh_dependency f h) e1 in
  stale_proof_environment e2 = stale_proof_environment e1
  /\ (e2 = e1 \/ refresh_dependency f h e1 = Some e2 /\ dependencies_changed e1 e2 = true).
Proof.
  unfold refreshed. destruct (refresh_dependency f h e1) as [e2|] eqn:E; simpl; [|by split; [|left]].
  destruct (refresh_dependency_fields _ _ _ _ E) as (_ & ? & _). split; [done|].
  destruct (dependencies_changed e1 e2) eqn:Hc; [by right|left].
  by apply (refresh_dependency_unchanged f h).
Qed.

Lemma store_touched l d u s s' touched env n :
  ok l d (conclusions s) env -> n ∉ d ->
  store_conclusion to_string sha256_hex debug_str u s = inl (s', touched) ->
  n <> u_function u -> (n ∈ touched <-> conclusions s' !! n <> conclusions s !! n).
Proof.
  intros Hok Hd H Hn. destruct (store_lookup _ _ _ _ _ _ _ H) as [Hv Hl].
  rewrite Hl, decide_False by done. clear Hl. unfold store_conclusion in H. rewrite Hv in H.
  set (e := merge_update _ _ _ u) in *. injection H as _ <-.
  rewrite visit_all_touched, env_pass_touched, env_pass_lookup, decide_False by done.
  unfold specs_hash_for_function. rewrite env_pass_lookup, (decide_True (P := u_function u = u_function u)) by done.
  cbn [fmap option_fmap option_map unwrap_or]. unfold refreshed_by_store.
  set (h := specs_hash to_string sha256_hex (specs e)).
  destruct (conclusions s !! n) as [e0|] eqn:E0; simpl;
    [|split; [by intros [(? & ? & ? & ? & ? & _)|(_ & ? & ? & ? & _)]|done]].
  fold (env_refreshed u e0). destruct (env_refreshed_spec u e0) as [Hdep1 H1].
  destruct (dep_refreshed_spec (u_function u) h (env_refreshed u e0)) as [Henv2 H2].
  set (e1 := env_refreshed u e0) in *.
  set (e2 := refreshed (refresh_dependency (u_function u) h) e1) in *. split.
  - intros [(r & e0' & e1' & Hr & [= <-] & Hre & Hc)|(_ & e1' & e2' & [= <-] & Hre & Hc)] [= Heq].
    + unfold e1, env_refreshed, refreshed in Henv2. rewrite Hr, Hre in Henv2. simpl in Henv2.
      unfold environment_changed in Hc. bool_simpl. apply bool_decide_eq_false_1 in Hc. congruence.
    + unfold dependencies_changed in Hc. bool_simpl. apply bool_decide_eq_false_1 in Hc.
      unfold e2, refreshed in Heq. rewrite Hre in Heq. simpl in Heq. congruence.
  - intros Hne. destruct H2 as [E|H2]; [|right; split; [done|]; by exists e1, e2].
    left. destruct H1 as [H1|(r & Hr & Hre)]; [by destruct Hne; rewrite E, H1|].
    exists r, e0, e1. split_and!; [done..|]. destruct (environment_changed e0 e1) eqn:Ec; [done|].
    destruct Hne. rewrite E. f_equal. by apply (refresh_environment_unchanged _ _ _ (ok_valid _ _ _ _ _ _ _ _ (Hok _ _ Hd E0)) Hre).
Qed.
End transitions.

(** ** Lemmas: profiles *)

Lemma trim_entries_Some entries trimmed :
  trim_entries entries = Some trimmed -> trimmed = map trim entries /\ "" ∉ trimmed.
Proof.
  revert trimmed. induction entries as [|e entries IH]; intros trimmed; simpl.
  - intros [= <-]. split; [done|apply not_elem_of_nil].
  - destruct (is_empty (trim e)) eqn:E; [done|].
    destruct (trim_entries entries) as [t|]; [|done]. intros [= <-].
    destruct (IH t eq_refl) as [-> Hn]. split; [done|].
    rewrite not_elem_of_cons. split; [|done]. intros H. by rewrite <- H in E.
Qed.

(** What a registered profile promises. *)
Definition usable_profile (profile_of_json : json -> VerificationProfile + string) (body : json)
    (p : VerificationProfile) : Prop :=
  exists raw, profile_of_json body = inl raw /\
    p = with_trimmed (map trim (p_functions raw)) (map trim (p_provers raw))
          (map trim (p_build_gates raw)) raw /\
    p_min_goals p <> Some 0%N /\
    ("" ∉ p_functions p) /\ ("" ∉ p_provers p) /\ ("" ∉ p_build_gates p) /\
    (p_functions p <> [] \/ p_sources p <> []).

Lemma parse_profile_inl profile_of_json name body p :
  parse_profile profile_of_json name body = inl p -> usable_profile profile_of_json body p.
Proof.
  unfold parse_profile. destruct (profile_of_json body) as [raw|] eqn:Er; [|done].
  destruct (opt_eqb _ _ _) eqn:Em; [done|].
  destruct (trim_entries (p_functions raw)) as [fs|] eqn:Ef; [|done].
  destruct (trim_entries (p_provers raw)) as [ps|] eqn:Ep; [|done].
  destruct (trim_entries (p_build_gates raw)) as [gs|] eqn:Eg; [|done].
  apply trim_entries_Some in Ef as [-> Hf], Ep as [-> Hp], Eg as [-> Hg].
  destruct (_ && _) eqn:Ene; [done|]. intros [= <-]. exists raw. split_and!; try done.
  - simpl. intros H. by rewrite H in Em.
  - simpl. apply andb_false_iff in Ene as [H|H]; apply bool_decide_eq_false_1 in H; auto.
Qed.

Lemma parse_profiles_inl profile_of_json entries acc profiles :
  parse_profiles profile_of_json entries acc = inl profiles -> NoDup entries.*1 ->
  (forall name body, (name, body) ∈ entries ->
     exists p, profiles !! name = Some p /\ usable_profile profile_of_json body p)
  /\ forall name, name ∉ entries.*1 -> profiles !! name = acc !! name.
Proof.
  revert acc. induction entries as [|[k v] entries IH]; intros acc; csimpl.
  - intros [= <-] _. split; [|done]. by intros ? ? ?%not_elem_of_nil.
  - destruct (parse_profile _ k v) as [p|] eqn:Ep; [|done]. intros H [Hk Hnd]%NoDup_cons.
    destruct (IH _ H Hnd) as [IH1 IH2]. split.
    + intros name body [[= -> ->]|Hin]%elem_of_cons; [|by apply IH1].
      exists p. split; [|by eapply parse_profile_inl].
      rewrite IH2 by done. apply lookup_insert_eq.
    + intros name [Hne Hn]%not_elem_of_cons. rewrite IH2 by done. by apply lookup_insert_ne.
Qed.

(** ** Properties *)

(** What a verified conclusion of a session stands on. *)
Record supported (to_string : json -> string) (sha256_hex : string -> string) (t : Tracked)
    (n : string) (e : FunctionVerificationState) : Prop := mkSupported {
  own_name : function e = n;
  complete_proof : exists summary receipt,
    wp_summary e = Some summary /\ summary_incomplete summary = false /\
    proof_receipt e = Some receipt /\ intact to_string sha256_hex receipt /\
    evidence receipt (total summary) n;
  contracts_current : forall f, f ∈ callees e -> f <> n -> f ∉ late t ->
    callee_spec_hashes e !! f = Some (specs_hash_for_function to_string sha256_hex f (conclusions (tracked t)));
  one_environment : forall n' e', n' ∉ off_disk t -> conclusions (tracked t) !! n' = Some e' -> status e' = Verified ->
    proof_env_hash e' = proof_env_hash e;
}.

(** C17: a verified conclusion of this session is supported now and not only when it was
    stored.  In every session the operations and the conclusions of earlier sessions can
    reach, those off the disk at any time and as the files have them, a verified conclusion
    that did not come off the disk, or was restated since with its callees and its receipt,
    has an intact receipt that is a complete proof of that function by check; every callee's
    contract, the ones that came off the disk after others were stored apart, still hashes
    to what the proof assumed; and every other verified conclusion of this session was
    proved under the same environment. *)
Theorem verified_stays_supported to_string sha256_hex debug_str t n e :
  reachable to_string sha256_hex debug_str t -> n ∉ off_disk t ->
  conclusions (tracked t) !! n = Some e -> status e = Verified ->
  supported to_string sha256_hex t n e.
Proof.
  intros Hr Hd He Hs. destruct (reachable_ok _ _ _ _ Hr) as [env Hok].
  assert (Hcur : forall n' e', n' ∉ off_disk t -> conclusions (tracked t) !! n' = Some e' -> status e' = Verified ->
    proof_env_hash e' = Some env).
  { intros n' e' Hd' He' Hs'. destruct (Hok _ _ Hd' He') as [_ Hh Hst _ Hv].
    destruct (validate_verified _ _ _ _ Hv Hs') as (_ & Hn & _ & sm & r & _ & _ & Hp & _).
    rewrite Hst, Hh, Hp in Hn. rewrite Hh, Hp. simpl in *.
    destruct (_ =s env) eqn:E; bool_simpl; congruence. }
  destruct (Hok _ _ Hd He) as [Hn _ _ [_ Hde] Hv].
  destruct (validate_verified _ _ _ _ Hv Hs) as (Hnil & _ & Hc & sm & r & ? & ? & ? & ? & ?).
  split; [done| | |].
  - exists sm, r. by rewrite <- Hn.
  - intros f Hf Hne Hl. destruct (Hc f Hf) as [h Hh]. rewrite Hh. f_equal.
    destruct (decide (h = specs_hash_for_function to_string sha256_hex f (conclusions (tracked t))))
      as [|Hneq]; [done|].
    destruct (not_elem_of_nil (mkStaleDependency f h
      (specs_hash_for_function to_string sha256_hex f (conclusions (tracked t))))).
    rewrite <- Hnil. by apply Hde.
  - intros n' e' Hd' He' Hs'. by rewrite (Hcur n' e'), (Hcur n e).
Qed.

(** C18: a conclusion knows which of its callees changed.  In every session the operations
    and the conclusions of earlier sessions can reach, the stale dependencies of a
    conclusion that did not come off the disk, or was restated since with its callees and
    its receipt, are exactly the callees, itself and those that came off the disk after
    others were stored apart, whose specifications no longer hash to what it recorded, each
    once and with both hashes. *)
Theorem stale_dependencies_exact to_string sha256_hex debug_str t n e :
  reachable to_string sha256_hex debug_str t -> n ∉ off_disk t ->
  conclusions (tracked t) !! n = Some e ->
  dependencies_exact to_string sha256_hex (late t) (conclusions (tracked t)) n e.
Proof.
  intros Hr Hd He. destruct (reachable_ok _ _ _ _ Hr) as [env Hok]. by destruct (Hok _ _ Hd He).
Qed.

(** The names a store answers are, its own function and what came off the disk apart,
    exactly those of the conclusions it changed, so writing those to disk leaves nothing
    behind. *)
Theorem store_names_what_changed to_string sha256_hex debug_str u t s' touched n :
  reachable to_string sha256_hex debug_str t -> n ∉ off_disk t ->
  store_conclusion to_string sha256_hex debug_str u (tracked t) = inl (s', touched) ->
  n <> u_function u -> (n ∈ touched <-> conclusions s' !! n <> conclusions (tracked t) !! n).
Proof.
  intros Hr Hd. destruct (reachable_ok _ _ _ _ Hr) as [env Hok]. by apply (store_touched _ _ _ _ _ _ _ _ _ env _ Hok).
Qed.

(** A session remembers at most thirty-two receipts, each under its own hash. *)
Theorem seen_receipts_bounded to_string sha256_hex debug_str t :
  reachable to_string sha256_hex debug_str t ->
  length (seen_receipts (tracked t)) <= 32 /\ NoDup (seen_receipts (tracked t)).*1.
Proof.
  revert t. apply (reachable_ind _ _ _ (fun t => receipts_ok (seen_receipts (tracked t)))).
  - split; [simpl; unfold SEEN_RECEIPT_LIMIT; lia|constructor].
  - intros t t'. apply step_receipts_ok.
Qed.

(** A profile map that is accepted registers every target it names, under a
    profile whose names are trimmed and not blank, whose floor on goals checks
    something, and which names a function or a source to be matched by. *)
Theorem parse_verification_profiles_spec profile_of_json m profiles :
  NoDup m.*1 ->
  parse_verification_profiles profile_of_json (JObj m) = inl profiles ->
  m <> [] /\ forall name,
    (forall body, (name, body) ∈ m ->
       exists p, profiles !! name = Some p /\ usable_profile profile_of_json body p)
    /\ (name ∉ m.*1 -> profiles !! name = None).
Proof.
  intros Hnd H. unfold parse_verification_profiles in H. cbn [as_object] in H.
  destruct m as [|e m]; [done|]. destruct (parse_profiles_inl _ _ _ _ H Hnd) as [H1 H2].
  split; [done|]. intros name. split; [apply H1|]. intros Hn. by rewrite H2, lookup_empty.
Qed.

(** ** A session on concrete inputs: [g]'s conclusion comes off the disk; [f], which calls
    [g], is stored as verified; [g]'s contract then changes. *)

Definition demo_annotation : AnnotationEntry :=
  mkAnnotation "en_00000001" None "spec" "\result >= 0" None "proposed_ensures" Generated "" None
    None None None.

Definition demo_summary : WpGoalSummary := mkSummary 1 1 0 0 0 None None None [] [].

Definition demo_verified : FunctionConclusionUpdate :=
  mkUpdate "f" (Some Verified) None (Some demo_summary) None (Some ["g"])
    (Some (written_receipt demo_text (fun s => s) "" (demo_body "valid"))) None None.

Definition demo_contract : FunctionConclusionUpdate :=
  mkUpdate "g" None (Some [demo_annotation]) None None None None None None.

Definition demo_store (u : FunctionConclusionUpdate) (s : SessionState) : SessionState :=
  match store_conclusion demo_text (fun s => s) (fun s => s) u s with
  | inl (s', _) => s'
  | inr _ => s
  end.

Definition demo_disk : gmap string FunctionVerificationState := {["g" := empty_conclusion_static "g"]}.
Definition demo_resumed : Tracked := mkTracked (resumed demo_disk default_session) {["g"]} ∅.
Definition demo_session : Tracked := mkTracked (demo_store demo_verified (tracked demo_resumed)) {["g"]} ∅.
Definition demo_changed : Tracked := mkTracked (demo_store demo_contract (tracked demo_session)) {["g"]} ∅.

Definition demo_conclusion (t : Tracked) : FunctionVerificationState :=
  unwrap_or (conclusions (tracked t) !! "f") (empty_conclusion_static "f").

Abbreviation demo_step := (session_step demo_text (fun s => s) (fun s => s)).
Abbreviation demo_reachable := (reachable demo_text (fun s => s) (fun s => s)).

Lemma demo_resumed_reachable : demo_reachable demo_resumed.
Proof. eapply rtc_once. apply (step_resumed demo_text (fun s => s) (fun s => s) demo_disk started). Qed.

Lemma demo_session_reachable : demo_reachable demo_session.
Proof.
  eapply rtc_r; [apply demo_resumed_reachable|]. refine (step_store demo_text (fun s => s) (fun s => s) demo_verified demo_resumed _ ["f"] _).
  vm_compute. reflexivity.
Qed.

Lemma demo_changed_reachable : demo_reachable demo_changed.
Proof.
  eapply rtc_r; [apply demo_session_reachable|]. refine (step_store demo_text (fun s => s) (fun s => s) demo_contract demo_session _ ["g"; "f"] _).
  vm_compute. reflexivity.
Qed.

Lemma verified_stays_supported_witness :
  supported demo_text (fun s => s) demo_session "f" (demo_conclusion demo_session).
Proof.
  apply (verified_stays_supported demo_text (fun s => s) (fun s => s)).
  - apply demo_session_reachable.
  - by apply (bool_decide_eq_true_1 _).
  - vm_compute. reflexivity.
  - vm_compute. reflexivity.
Defined.

Lemma stale_dependencies_exact_witness :
  dependencies_exact demo_text (fun s => s) ∅ (conclusions (tracked demo_changed)) "f" (demo_conclusion demo_changed).
Proof.
  apply (stale_dependencies_exact demo_text (fun s => s) (fun s => s) demo_changed).
  - apply demo_changed_reachable.
  - by apply (bool_decide_eq_true_1 _).
  - vm_compute. reflexivity.
Defined.

(** A contract that comes off the disk after [f] was stored goes unnoticed: [f] stays
    verified, against a contract its proof did not have. *)
Definition demo_late_disk : gmap string FunctionVerificationState :=
  {["g" := merge_update demo_text (fun s => s) ∅ demo_contract]}.
Definition demo_late : Tracked :=
  mkTracked (resumed demo_late_disk (demo_store demo_verified default_session)) {["g"]} {["g"]}.

Lemma late_contract_unnoticed :
  demo_reachable demo_late /\ status (demo_conclusion demo_late) = Verified /\ stale_dependencies (demo_conclusion demo_late) = []
  /\ callee_spec_hashes (demo_conclusion demo_late) !! "g" <>
     Some (specs_hash_for_function demo_text (fun s => s) "g" (conclusions (tracked demo_late))).
Proof.
  split; [|split_and!; [by vm_compute..|vm_compute; discriminate]].
  eapply rtc_l; [refine (step_store demo_text (fun s => s) (fun s => s) demo_verified started (demo_store demo_verified default_session) ["f"] _); vm_compute; reflexivity|].
  eapply rtc_once. exact (step_resumed demo_text (fun s => s) (fun s => s) demo_late_disk (mkTracked (demo_store demo_verified default_session) ∅ ∅)).
Qed.

(** The change made [f] stale and unverified. *)
Lemma demo_changed_stale :
  status (demo_conclusion demo_changed) = InProgress /\
  map callee (stale_dependencies (demo_conclusion demo_changed)) = ["g"].
Proof. vm_compute. by split. Qed.

Lemma store_names_what_changed_witness :
  "f" ∈ ["g"; "f"] <-> conclusions (tracked demo_changed) !! "f" <> conclusions (tracked demo_session) !! "f".
Proof.
  apply (store_names_what_changed demo_text (fun s => s) (fun s => s) demo_contract demo_session
           (tracked demo_changed) ["g"; "f"]).
  - apply demo_session_reachable.
  - by apply (bool_decide_eq_true_1 _).
  - vm_compute. reflexivity.
  - done.
Defined.

Lemma seen_receipts_bounded_witness :
  length (seen_receipts (tracked demo_session)) <= 32 /\ NoDup (seen_receipts (tracked demo_session)).*1.
Proof.
  apply (seen_receipts_bounded demo_text (fun s => s) (fun s => s)). apply demo_session_reachable.
Defined.

Definition demo_profile : VerificationProfile :=
  mkProfile [] [" elf_phdr_fetch "] None None [] [] [] [] None [] None None [] None None None None None.

Definition demo_profiles : gmap string VerificationProfile :=
  {["elf" := with_trimmed ["elf_phdr_fetch"] [] [] demo_profile]}.

Lemma parse_verification_profiles_spec_witness :
  [("elf", JNull)] <> [] /\ forall name,
    (forall body, (name, body) ∈ [("elf", JNull)] ->
       exists p, demo_profiles !! name = Some p /\ usable_profile (fun _ => inl demo_profile) body p)
    /\ (name ∉ ["elf"] -> demo_profiles !! name = None).
Proof.
  apply (parse_verification_profiles_spec (fun _ => inl demo_profile) [("elf", JNull)]).
  - apply NoDup_singleton.
  - vm_compute. reflexivity.
Defined.
