(* ===== verification/Conclusions.v ===== *)
(** * Storing and loading conclusions (src/src/mcp/conclusions.rs, store.rs)

    Whether a receipt is evidence about a registered target, the handler that
    stores a conclusion, and what a session loads back from disk.  Deserializing the
    caller's JSON and writing a file are parameters. *)

From S2P Require Import Prelude RustStr BTree Json Status Rows Verdicts Targets StableId Receipt Evidence Session.

(** ** Names that become directories *)

Definition is_safe_path_segment (value : string) : bool :=
  negb (is_empty value) && (String.length value <=? 128)%nat
  && sall (fun c => is_ascii_alphanumeric c || Ascii.eqb c "_" || Ascii.eqb c "-") value.

Definition invalid_params (message : string) (data : option json) : McpError := mkMcpError message data.

Definition require_safe_path_segment (value field : string) : option McpError :=
  if is_safe_path_segment value then None
  else Some (invalid_params
    (field +s+ " must be 1-128 characters of [A-Za-z0-9_-]; it becomes a directory name")
    (Some (JObj [("kind", JStr "UnsafePathSegment"); ("field", JStr field); ("value", JStr value)]))).

Definition parse_conclusion_status (s : string) : VerificationStatus + string :=
  if s =s "verified" then inl Verified
  else if s =s "failed" then inl Failed
  else if s =s "unsound" then inl Unsound
  else if s =s "blocked_on_callee" then inl BlockedOnCallee
  else if s =s "in_progress" then inl InProgress
  else inr ("invalid status '" +s+ s
            +s+ "', expected: verified|failed|unsound|blocked_on_callee|in_progress").

(** ** Targets *)

Definition goals_owned_by (goals : list json) (functions : list string) : nat :=
  length (bfilter (fun owner => one_of owner functions) (collect_some goal_owner_name goals)).

(** A run over every function the profile declares. *)
Definition covers_whole_target (profile : VerificationProfile) (receipt : json) : bool :=
  is_some_and
    (fun proved => forallb (fun declared => existsb (fun f => as_str f =?s declared) proved)
                     (p_functions profile))
    (pointer ["wp"; "functions"] receipt ≫= as_array).

(** [sort_unstable] of strings: equal ones are the same. *)
Definition sort_unstable (l : list string) : list string := merge_sort str_le l.

Section evidence_about.
(** The digest of the builtin-models header the build embeds. *)
Variable builtin_models_digest : string.
Variable debug_str : string -> string.

Definition expected_load (profile : VerificationProfile) (rte nostdinc : bool) : json :=
  project_load_identity
    (mkProjectLoadOptions (p_include_paths profile) (p_defines profile) (p_force_includes profile)
       (p_machdep profile) None rte (p_isystem_paths profile) nostdinc
       (opt_eqb Bool.eqb (p_rte_unsigned profile) (Some false))
       (opt_eqb Bool.eqb (p_rte_pointer profile) (Some true))
       (then_some (opt_eqb Bool.eqb (p_builtin_models profile) (Some true)) builtin_models_digest)).

Definition quoted_profile (name : string) : string := "verify_profile " +s+ dq +s+ name +s+ dq.

(** The target's floor on obligations, asked of a receipt that covers it. *)
Definition floor_error (name : string) (profile : VerificationProfile) (receipt : json) : option string :=
  match opt_filter (fun _ => covers_whole_target profile receipt) (p_min_goals profile) with
  | None => None
  | Some min_goals =>
    let goals := unwrap_or (get_arr "goals" receipt) [] in
    let recorded := if receipt_goals_record_owner goals
                    then goals_owned_by goals (p_functions profile) else length goals in
    if (N.of_nat recorded <? min_goals)%N
    then Some (quoted_profile name +s+ " requires at least " +s+ dec_N min_goals
               +s+ " obligations and this receipt records " +s+ dec recorded
               +s+ ", so it is not evidence about that target however many discharged")
    else None
  end.

Definition load_error (name : string) (profile : VerificationProfile) (receipt : json) : option string :=
  match p_rte profile, p_nostdinc profile with
  | Some rte, Some nostdinc =>
    if opt_eqb json_eqb (pointer ["subject"; "project_load"] receipt)
         (Some (expected_load profile rte nostdinc))
    then floor_error name profile receipt
    else Some (quoted_profile name +s+ " declares different project load settings than this receipt, so it is not evidence about that target")
  | _, _ => Some (quoted_profile name +s+ " must state both rte and nostdinc for a receipt to be checked against it")
  end.

Definition sources_of (receipt : json) : list string :=
  match pointer ["subject"; "files"] receipt ≫= as_array with
  | Some files => collect_some (fun file => pointer ["path"] file ≫= as_str) files
  | None => []
  end.

Definition names_function (receipt : json) (function : string) : bool :=
  is_some_and (existsb (fun name => as_str name =?s function))
    (pointer ["wp"; "functions"] receipt ≫= as_array).

Definition model_error (name : string) (profile : VerificationProfile) (receipt : option json)
    : option string :=
  let proved_under := receipt ≫= (fun r => pointer ["wp"; "model"] r ≫= as_str) in
  match p_model profile, proved_under with
  | Some declared, Some used =>
    if negb (declared =s used)
    then Some (quoted_profile name +s+ " declares model " +s+ declared
               +s+ " and this receipt was produced under " +s+ used
               +s+ ", so it is not evidence about that target")
    else None
  | _, _ => None
  end.

Definition sources_error (name : string) (profile : VerificationProfile) (receipt : option json)
    : option string :=
  let proved_over := sort_unstable (unwrap_or (sources_of <$> receipt) []) in
  let declared := sort_unstable (p_sources profile) in
  if negb (bool_decide (declared = [])) && is_some_and (fun _ => true) receipt
     && negb (bool_decide (declared = proved_over))
  then Some (quoted_profile name +s+ " declares sources " +s+ debug_strs debug_str declared
             +s+ " and this receipt was produced over " +s+ debug_strs debug_str proved_over
             +s+ ", so it is not evidence about that target")
  else None.

Definition profile_evidence_error (name : string) (profile : VerificationProfile) (function : string)
    (receipt : option json) : option string :=
  if negb (one_of function (p_functions profile))
  then Some (quoted_profile name +s+ " does not prove " +s+ function
             +s+ ", so a conclusion for it is not evidence about that target")
  else if is_some_and (fun receipt => negb (names_function receipt function)) receipt
  then Some ("this receipt does not prove " +s+ function
             +s+ ", so it is not evidence about " +s+ quoted_profile name)
  else model_error name profile receipt
       <||> sources_error name profile receipt
       <||> (receipt ≫= load_error name profile).
End evidence_about.

(** A registered target by name, or a refusal that says what is registered. *)
Definition unknown_verify_profile (name : string) (registered : gmap string VerificationProfile) : McpError :=
  let known := btree_set (map_to_list registered).*1 in
  invalid_params
    ("no verify_profile named " +s+ dq +s+ name +s+ dq +s+ ". Registered: "
     +s+ (match known with [] => "none" | _ => join ", " known end)
     +s+ ". Register them through reload_project, emitted by the build system that defines the targets, so they cannot drift from the command that decides.") None.

(** ** The handler *)

Record StoreFunctionConclusionParams := mkStoreParams {
  sp_function : string;
  sp_status : option string;
  sp_specs : option (list json);
  sp_notes : option string;
  sp_wp_summary : option json;
  sp_proof_receipt : option json;
  sp_proof_receipt_sha256 : option string;
  sp_verify_profile : option string;
  sp_callees : option (list string);
}.

(** [Option<Result>::transpose]. *)
Definition transpose {A B E} (f : A -> B + E) (o : option A) : option B + E :=
  match o with
  | None => inl None
  | Some a => match f a with inl b => inl (Some b) | inr e => inr e end
  end.

(** [collect::<Result<Vec, _>>]: the first error stops. *)
Fixpoint collect_results {A B E} (f : A -> B + E) (l : list A) : list B + E :=
  match l with
  | [] => inl []
  | a :: l =>
    match f a with
    | inr e => inr e
    | inl b => match collect_results f l with inl bs => inl (b :: bs) | inr e => inr e end
    end
  end.

Section handler.
Variable to_string : json -> string.
Variable sha256_hex : string -> string.
Variable debug_str : string -> string.
Variable builtin_models_digest : string.
Variable annotation_of_json : json -> AnnotationEntry + string.
Variable summary_of_json : json -> WpGoalSummary + string.
(** Writing a conclusion's directory: nothing, or the error. *)
Variable persist_conclusion : string -> FunctionVerificationState -> option string.

Definition given_receipt (params : StoreFunctionConclusionParams) (s : SessionState)
    : option json + McpError :=
  match sp_proof_receipt params, sp_proof_receipt_sha256 params with
  | Some receipt, None => inl (Some receipt)
  | None, Some sha256 =>
    match receipt_body sha256 s with
    | Some receipt => inl (Some receipt)
    | None => inr (invalid_params
        ("no receipt with sha256 " +s+ sha256 +s+ " was produced by this session; pass proof_receipt itself, or re-run run_wp and use the sha256 it returns") None)
    end
  | Some _, Some _ => inr (invalid_params "pass proof_receipt or proof_receipt_sha256, not both" None)
  | None, None => inl None
  end.

(** What the named target, or the stored one a new receipt replaces evidence for,
    makes of the receipt the conclusion will stand on.  The answer is the command
    that decides the target, when the caller named it. *)
Definition checked_profile (f : string) (requested : option string) (receipt : option json)
    (s : SessionState) : option string + McpError :=
  let stored := get_conclusion f s in
  let effective_receipt := receipt <||> (stored ≫= proof_receipt) in
  let evidence_profile := requested <||> (receipt ≫= fun _ => stored ≫= verify_profile) in
  match evidence_profile with
  | None => inl None
  | Some name =>
    match verification_profiles s !! name with
    | None => match requested with
              | None => inl None
              | Some _ => inr (unknown_verify_profile name (verification_profiles s))
              end
    | Some profile =>
      if match p_model profile with None => true | Some _ => false end
         || bool_decide (p_provers profile = [])
         || match p_timeout_seconds profile with None => true | Some _ => false end
         || bool_decide (p_functions profile = [])
      then inr (invalid_params (quoted_profile name +s+ " is missing functions, model, provers, or timeout_seconds, so it cannot be proof evidence") None)
      else match profile_evidence_error builtin_models_digest debug_str name profile f effective_receipt with
           | Some reason => inr (invalid_params reason None)
           | None => inl (match requested with Some _ => p_reproduce profile | None => None end)
           end
    end
  end.

Definition persist_errors (touched : list string) (s : SessionState) : list json :=
  collect_some (fun f =>
    match get_conclusion f s with
    | None => None
    | Some conclusion =>
      (fun e => JObj [("function", JStr f); ("error", JStr e)]) <$> persist_conclusion f conclusion
    end) touched.

Definition stored_answer (f : string) (errors : list json) : json :=
  match errors with
  | [] => JObj [("stored", JStr f)]
  | _ => JObj [("stored", JStr f); ("durable", JBool false); ("persist_errors", JArr errors)]
  end.

Definition conclusion_update (params : StoreFunctionConclusionParams) (s : SessionState)
    : FunctionConclusionUpdate + McpError :=
  match transpose parse_conclusion_status (sp_status params) with
  | inr e => inr (invalid_params e None)
  | inl status =>
    match transpose (collect_results annotation_of_json) (sp_specs params) with
    | inr e => inr (invalid_params ("invalid specs: " +s+ e) None)
    | inl specs =>
      match transpose summary_of_json (sp_wp_summary params) with
      | inr e => inr (invalid_params ("invalid wp_summary: " +s+ e) None)
      | inl summary =>
        match given_receipt params s with
        | inr e => inr e
        | inl receipt =>
          match require_safe_path_segment (sp_function params) "function" with
          | Some e => inr e
          | None =>
            match checked_profile (sp_function params) (sp_verify_profile params) receipt s with
            | inr e => inr e
            | inl reproduce =>
              inl (mkUpdate (sp_function params) status specs summary (sp_notes params)
                     (sp_callees params) receipt (sp_verify_profile params) reproduce)
            end
          end
        end
      end
    end
  end.

(** A refusal leaves the session as it was. *)
Definition store_function_conclusion (params : StoreFunctionConclusionParams) (s : SessionState)
    : SessionState * (json + McpError) :=
  match conclusion_update params s with
  | inr e => (s, inr e)
  | inl update =>
    match store_conclusion to_string sha256_hex debug_str update s with
    | inr e => (s, inr (invalid_params e None))
    | inl (s', touched) => (s', inl (stored_answer (sp_function params) (persist_errors touched s')))
    end
  end.

(** ** Loading *)

(** A conclusion directory's name and its [meta.json], when that reads and parses.
    A verified conclusion whose receipt is no evidence is loaded as in progress. *)
Definition load_conclusion (func : string) (e : FunctionVerificationState) : FunctionVerificationState :=
  if verified e then
    let goal_total := unwrap_or (total <$> wp_summary e) 0%N in
    let reason := match proof_receipt e with
                  | Some receipt =>
                    proof_receipt_evidence_error to_string sha256_hex debug_str receipt goal_total func
                  | None => Some "missing proof_receipt"
                  end in
    match reason with
    | Some _ =>
      mkConclusion (function e) InProgress (specs e) (wp_summary e) (notes e) (callees e)
        (callee_spec_hashes e) (stale_dependencies e) None (verify_profile e) (reproduce e)
        (proof_env_hash e) (stale_proof_environment e) (ast_stmt_count e) (sandbox_clean e)
        (annotation_count e) (sandbox_deleted e)
    | None => e
    end
  else e.

Definition load_dir (out : gmap string FunctionVerificationState)
    (dir : string * option FunctionVerificationState) : gmap string FunctionVerificationState :=
  if is_safe_path_segment dir.1
  then match dir.2 with
       | Some e => <[dir.1 := load_conclusion dir.1 e]> out
       | None => out
       end
  else out.

Definition load_conclusions_from_disk (dirs : option (list (string * option FunctionVerificationState)))
    : gmap string FunctionVerificationState :=
  match dirs with
  | None => ∅
  | Some dirs => fold_left load_dir dirs ∅
  end.
End handler.

(** ** Lemmas *)

Lemma one_of_false s l : one_of s l = false <-> s ∉ l.
Proof. rewrite <- one_of_true. by destruct (one_of s l). Qed.

Lemma names_function_true receipt f :
  names_function receipt f = true <->
  exists names, pointer ["wp"; "functions"] receipt ≫= as_array = Some names /\ JStr f ∈ names.
Proof.
  unfold names_function. rewrite is_some_and_true. split.
  - intros (names & -> & H). exists names. split; [done|]. apply existsb_true in H as (v & Hv & E).
    apply opt_eqb_string_Some in E. destruct v; try done. by injection E as ->.
  - intros (names & -> & H). exists names. split; [done|]. apply existsb_true. exists (JStr f).
    split; [done|]. by apply opt_eqb_string_Some.
Qed.

Lemma sorted_eq_perm l l' : merge_sort str_le l = merge_sort str_le l' <-> l ≡ₚ l'.
Proof.
  split; [|apply merge_sort_str_perm].
  intros H. by rewrite <- (merge_sort_Permutation str_le l), H, merge_sort_Permutation.
Qed.

(** A receipt's goals counted for a target. *)
Definition obligations (profile : VerificationProfile) (receipt : json) : nat :=
  let goals := unwrap_or (get_arr "goals" receipt) [] in
  if receipt_goals_record_owner goals then goals_owned_by goals (p_functions profile) else length goals.

Lemma floor_error_None name profile receipt :
  floor_error name profile receipt = None <->
  forall n, p_min_goals profile = Some n -> covers_whole_target profile receipt = true ->
    (n <= N.of_nat (obligations profile receipt))%N.
Proof.
  unfold floor_error. destruct (p_min_goals profile) as [n|]; simpl; [|by split].
  destruct (covers_whole_target profile receipt); simpl; [|by split].
  fold (obligations profile receipt). destruct (_ <? n)%N eqn:E; split; try done.
  - intros H. specialize (H n eq_refl eq_refl). apply N.ltb_lt in E. lia.
  - intros _ m [= <-] _. apply N.ltb_ge in E. lia.
Qed.

Lemma load_error_None digest name profile receipt :
  load_error digest name profile receipt = None <->
  (exists rte nostdinc load, p_rte profile = Some rte /\ p_nostdinc profile = Some nostdinc /\
     pointer ["subject"; "project_load"] receipt = Some load /\
     json_eqb load (expected_load digest profile rte nostdinc) = true)
  /\ floor_error name profile receipt = None.
Proof.
  unfold load_error. destruct (p_rte profile) as [rte|]; [destruct (p_nostdinc profile) as [nostdinc|]|].
  - destruct (opt_eqb json_eqb _ _) eqn:E.
    + destruct (pointer _ receipt) as [load|]; [|done]. split; [|by intros []].
      intros H. split; [|done]. by exists rte, nostdinc, load.
    + split; [done|]. intros [(r & n & load & [= <-] & [= <-] & Hp & Hl) _].
      rewrite Hp in E. simpl in E. congruence.
  - split; [done|]. intros [(? & ? & ? & ? & ? & _) _]. done.
  - split; [done|]. intros [(? & ? & ? & ? & _) _]. done.
Qed.

Lemma model_error_None name profile receipt :
  model_error name profile (Some receipt) = None <->
  forall declared used, p_model profile = Some declared ->
    pointer ["wp"; "model"] receipt = Some (JStr used) -> declared = used.
Proof.
  unfold model_error. cbn [mbind option_bind].
  destruct (p_model profile) as [d|]; [|by split].
  destruct (pointer ["wp"; "model"] receipt ≫= as_str) as [u|] eqn:Eu.
  - apply bind_as_str in Eu. destruct (d =s u) eqn:E; bool_simpl; simpl; split; try done; [congruence|].
    intros H. by destruct E; apply H.
  - split; [|done]. intros _ ? u _ H. apply bind_as_str in H. congruence.
Qed.

Lemma sources_error_None debug_str name profile receipt :
  sources_error debug_str name profile (Some receipt) = None <->
  p_sources profile = [] \/ p_sources profile ≡ₚ sources_of receipt.
Proof.
  unfold sources_error, sort_unstable. cbn [fmap option_fmap option_map unwrap_or is_some_and].
  rewrite <- sorted_eq_perm.
  assert (Hn : merge_sort str_le (p_sources profile) = [] <-> p_sources profile = []).
  { split; [|by intros ->]. intros H.
    pose proof (merge_sort_Permutation str_le (p_sources profile)) as Hp. rewrite H in Hp.
    by apply Permutation_nil_l in Hp. }
  case_bool_decide as D1; [simpl; split; [left; by apply Hn|done]|]. simpl.
  case_bool_decide as D2; simpl; split; try done; [by right|]. intros [H%Hn|H]; done.
Qed.

Lemma load_fold_other to_string sha256_hex debug_str dirs out func :
  func ∉ dirs.*1 ->
  fold_left (load_dir to_string sha256_hex debug_str) dirs out !! func = out !! func.
Proof.
  revert out. induction dirs as [|[n m] dirs IH]; intros out; csimpl; [done|].
  intros [Hne Hn]%not_elem_of_cons. rewrite IH by done. unfold load_dir. simpl.
  destruct (is_safe_path_segment n); [|done]. destruct m; [|done]. by rewrite lookup_insert_ne.
Qed.

Lemma load_fold to_string sha256_hex debug_str dirs out func e :
  NoDup dirs.*1 -> (func, Some e) ∈ dirs -> is_safe_path_segment func = true ->
  fold_left (load_dir to_string sha256_hex debug_str) dirs out !! func
  = Some (load_conclusion to_string sha256_hex debug_str func e).
Proof.
  intros Hnd Hin Hsafe. revert out Hnd Hin. induction dirs as [|d dirs IH]; intros out; csimpl;
    [by intros _ ?%not_elem_of_nil|].
  intros [Hn Hnd]%NoDup_cons [<-|Hin]%elem_of_cons; [|by apply IH].
  rewrite load_fold_other by done. unfold load_dir. simpl. rewrite Hsafe. apply lookup_insert_eq.
Qed.

(** ** Properties *)

(** A receipt is evidence about a registered target exactly when the target and
    the receipt both prove the function, the receipt's model is the declared one,
    its sources are the declared ones in any order, it was made under the load the
    target states, and, when it covers the whole target, it records at least the
    target's floor of obligations. *)
Theorem profile_evidence_iff digest debug_str name profile function receipt :
  profile_evidence_error digest debug_str name profile function (Some receipt) = None <->
  function ∈ p_functions profile
  /\ (exists names, pointer ["wp"; "functions"] receipt ≫= as_array = Some names /\ JStr function ∈ names)
  /\ (forall declared used, p_model profile = Some declared ->
        pointer ["wp"; "model"] receipt = Some (JStr used) -> declared = used)
  /\ (p_sources profile = [] \/ p_sources profile ≡ₚ sources_of receipt)
  /\ (exists rte nostdinc load, p_rte profile = Some rte /\ p_nostdinc profile = Some nostdinc /\
        pointer ["subject"; "project_load"] receipt = Some load /\
        json_eqb load (expected_load digest profile rte nostdinc) = true)
  /\ (forall n, p_min_goals profile = Some n -> covers_whole_target profile receipt = true ->
        (n <= N.of_nat (obligations profile receipt))%N).
Proof.
  unfold profile_evidence_error. rewrite <- names_function_true, <- one_of_true, <- (floor_error_None name).
  rewrite <- (model_error_None name), <- (sources_error_None debug_str name).
  destruct (one_of function (p_functions profile)); [cbn [negb]|by split; [|intros [? _]]].
  destruct (names_function receipt function) eqn:E; cbn [is_some_and]; rewrite E; cbn [negb];
    [|by split; [|intros (_ & ? & _)]].
  rewrite !or_else_None. change (Some receipt ≫= load_error digest name profile)
    with (load_error digest name profile receipt). rewrite load_error_None. tauto.
Qed.

(** Loading marks a conclusion verified exactly when its directory's name is a
    safe path segment, its file says verified, and its receipt is evidence, for as
    many goals as its summary counts, about the function the directory is named
    after; any other conclusion of a safe directory is loaded unverified.  Nothing
    else the store asks of a verified conclusion is asked here. *)
Theorem load_conclusions_spec to_string sha256_hex debug_str dirs func e :
  NoDup dirs.*1 ->
  (func, Some e) ∈ dirs -> is_safe_path_segment func = true ->
  exists loaded,
    load_conclusions_from_disk to_string sha256_hex debug_str (Some dirs) !! func = Some loaded /\
    (status loaded = Verified <->
     status e = Verified /\ exists receipt, proof_receipt e = Some receipt /\
       proof_receipt_evidence_error to_string sha256_hex debug_str receipt
         (unwrap_or (total <$> wp_summary e) 0%N) func = None) /\
    (status loaded = Verified -> loaded = e).
Proof.
  intros Hnd Hin Hsafe. exists (load_conclusion to_string sha256_hex debug_str func e). split.
  - by apply load_fold.
  - unfold load_conclusion, verified. case_bool_decide as D; [|naive_solver].
    destruct (proof_receipt e) as [receipt|] eqn:Er; [|simpl; naive_solver].
    destruct (proof_receipt_evidence_error _ _ _ _ _ _) eqn:E; simpl; naive_solver.
Qed.

Lemma load_conclusions_spec_witness :
  exists loaded,
    load_conclusions_from_disk demo_text (fun s => s) (fun s => s)
      (Some [("f", Some (demo_conclusion demo_session)); ("../x", None)]) !! "f" = Some loaded /\
    (status loaded = Verified <->
     status (demo_conclusion demo_session) = Verified /\
     exists receipt, proof_receipt (demo_conclusion demo_session) = Some receipt /\
       proof_receipt_evidence_error demo_text (fun s => s) (fun s => s) receipt
         (unwrap_or (total <$> wp_summary (demo_conclusion demo_session)) 0%N) "f" = None) /\
    (status loaded = Verified -> loaded = demo_conclusion demo_session).
Proof.
  apply (load_conclusions_spec demo_text (fun s => s) (fun s => s)
           [("f", Some (demo_conclusion demo_session)); ("../x", None)]).
  - apply NoDup_cons. split; [decide_closed|apply NoDup_singleton].
  - left.
  - reflexivity.
Defined.
