(* ===== verification/Paths.v ===== *)
(** * Paths (src/src/mcp/store.rs)

    Where the server writes, and what a caller may name.  A path is the list of the
    components the standard library reads off its text; what the file system says of a path
    (its real path, whether it exists, who owns it) is an argument. *)

From S2P Require Import Prelude RustStr BTree Json Verdicts Conclusions.
Local Open Scope nat_scope.

(** ** Components *)

Inductive Component := RootDir | CurDir | ParentDir | Normal (name : string).

#[export] Instance Component_eq_dec : EqDecision Component.
Proof. solve_decision. Defined.

Definition part_component (part : string) : Component :=
  if part =s "." then CurDir else if part =s ".." then ParentDir else Normal part.

Definition is_cur_dir (c : Component) : bool := match c with CurDir => true | _ => false end.

(** [Path::components]: empty parts and dots are dropped, but a dot that a relative path
    starts with. *)
Definition components (path : string) : list Component :=
  let parts := map part_component (bfilter (fun part => negb (is_empty part)) (split_char "/" path)) in
  let body := bfilter (fun c => negb (is_cur_dir c)) parts in
  if starts_with "/" path then RootDir :: body
  else match parts with CurDir :: _ => CurDir :: body | _ => body end.

Definition is_absolute (path : list Component) : bool := match path with RootDir :: _ => true | _ => false end.

(** [PathBuf::pop]: the parent, when there is one. *)
Definition pop (path : list Component) : option (list Component) :=
  match last path with None | Some RootDir => None | Some _ => Some (removelast path) end.

Definition push (path : list Component) (c : Component) : list Component :=
  match c with RootDir => [RootDir] | _ => path ++ [c] end.

Definition join_path (root path : list Component) : list Component :=
  if is_absolute path then path
  else match root with [] => path | _ => root ++ bfilter (fun c => negb (is_cur_dir c)) path end.

(** [Path::starts_with] goes by components. *)
Fixpoint path_starts_with (path root : list Component) {struct root} : bool :=
  match root, path with
  | [], _ => true
  | c :: root, d :: path => bool_decide (c = d) && path_starts_with path root
  | _ :: _, [] => false
  end.

(** [Path::ancestors]: the path, its parent, and so on. *)
Fixpoint ancestors_go (fuel : nat) (path : list Component) : list (list Component) :=
  path :: match fuel with
          | O => []
          | S fuel => match pop path with Some parent => ancestors_go fuel parent | None => [] end
          end.
Definition ancestors (path : list Component) : list (list Component) := ancestors_go (length path) path.

Definition component_text (c : Component) : string :=
  match c with RootDir => "" | CurDir => "." | ParentDir => ".." | Normal name => name end.
Definition display (path : list Component) : string :=
  match path with [RootDir] => "/" | _ => join "/" (map component_text path) end.

(** ** Output paths *)

Fixpoint normalize_path (rest normalized : list Component) : option (list Component) :=
  match rest with
  | [] => Some normalized
  | ParentDir :: rest => match pop normalized with Some parent => normalize_path rest parent | None => None end
  | CurDir :: rest => normalize_path rest normalized
  | c :: rest => normalize_path rest (push normalized c)
  end.

Definition refuse (path reason : string) : McpError :=
  invalid_params ("output must stay inside the working directory: " +s+ reason)
    (Some (JObj [("kind", JStr "OutputPathOutsideWorkingDirectory"); ("output", JStr path); ("reason", JStr reason)])).

Section output.
Variable canonicalize : list Component -> list Component + string.
Variable exists_ : list Component -> bool.

Definition real_root_of (root : list Component) : list Component :=
  match canonicalize root with inl real => real | inr _ => root end.

Definition check_symlinks (path : string) (real_root normalized : list Component) : list Component + McpError :=
  match find_first exists_ (ancestors normalized) with
  | None => inr (refuse path "no existing ancestor to check")
  | Some existing =>
    match canonicalize existing with
    | inr error => inr (refuse path ("cannot resolve " +s+ display existing +s+ ": " +s+ error))
    | inl real =>
      if path_starts_with real real_root then inl normalized
      else inr (refuse path "a symlink on the path leaves the working directory")
    end
  end.

Definition resolve_output_path_in (root : list Component) (path : string) : list Component + McpError :=
  let real_root := real_root_of root in
  match normalize_path (join_path real_root (components path)) [] with
  | None => inr (refuse path "path climbs above the filesystem root")
  | Some normalized =>
    if path_starts_with normalized real_root then check_symlinks path real_root normalized
    else inr (refuse path "resolved outside it")
  end.

Definition resolve_output_path (current_dir : list Component + string) (path : string) : list Component + McpError :=
  match current_dir with
  | inr error => inr (invalid_params ("output must stay inside the working directory: cannot read it: " +s+ error) None)
  | inl cwd => resolve_output_path_in cwd path
  end.
End output.

(** ** The state directory *)

Definition join_text (base name : string) : string :=
  if starts_with "/" name || is_empty base then name
  else if ends_with "/" base then base +s+ name
  else base +s+ "/" +s+ name.

Definition conclusion_base_dir (FRAMA_C_MCP_STATE_DIR : option string) : string := unwrap_or FRAMA_C_MCP_STATE_DIR ".frama-c-mcp".
Definition conclusion_dir (base_dir func : string) : string := join_text base_dir func.

Definition dir_or_cwd (dir : string) : string := if is_empty dir then "." else dir.

Definition LONG_TEXT_FIELDS : list (string * option string) :=
  [("semantic_proof", Some ""); ("semiformal_proof", Some ""); ("program_summary", None)].

Definition read_long_texts_as_json (read_to_string : string -> option string) (dir : string) : jmap :=
  fold_left (fun m '(field, when_missing) =>
      match read_to_string (join_text dir (field +s+ ".md")) <||> when_missing with
      | Some content => map_insert field (JStr content) m
      | None => m
      end) LONG_TEXT_FIELDS [].

Definition MANIFEST_COMMENT : string :=
  "The truth of the long text field is in the following .md file (same directory). To see the complete conclusion please call list with kind="
  +s+ dq +s+ "conclusions" +s+ dq +s+ " and function set (automatically assembled from .md)".

(** What [persist_conclusion_at] writes and where, or the error it refuses with. *)
Definition persist_conclusion_at (debug_str : string -> string) (is_file : string -> bool) (base_dir func : string) (value : json)
    : (string * json) + string :=
  if negb (is_safe_path_segment func) then inr ("unsafe function name for a conclusion directory: " +s+ debug_str func)
  else
    let dir := join_text base_dir func in
    let existing := bfilter (fun fname => is_file (join_text dir fname)) (map (fun f => f.1 +s+ ".md") LONG_TEXT_FIELDS) in
    let manifest := JObj [("_comment", JStr MANIFEST_COMMENT); ("files", JArr (map JStr existing))] in
    inl (join_text dir "meta.json",
         match existing with [] => value | _ => map_object (map_insert "_long_text_files" manifest) value end).

(** ** Sandbox directories *)

Definition private_root_path (uid : nat) : string := "/tmp/fcmcp-" +s+ dec uid.

Section sandbox_dirs.
Variable sha256_hex : string -> string.
Variable current_dir : list Component.
Variable uid : nat.

(** The state directory as it is hashed: absolute, one spelling for each directory. *)
Definition owner_of (base_dir : string) : string :=
  take_str 8 (sha256_hex (display (join_path current_dir (components base_dir)))).

Definition sandbox_dir_name (base_dir experiment_id : string) : string := "sb-" +s+ owner_of base_dir +s+ "-" +s+ experiment_id.

Definition expected_sandbox_dir (base_dir experiment_id : string) : string :=
  join_text (private_root_path uid) (sandbox_dir_name base_dir experiment_id).
End sandbox_dirs.

Definition SUN_PATH_MAX : nat := 108.

Definition sandbox_socket_path_error (sandbox_dir : string) : option McpError :=
  let len := String.length (join_text sandbox_dir "frama-c.sock") in
  if SUN_PATH_MAX <? len + 1 then
    Some (invalid_params ("experiment_id is too long for this sandbox's socket path: it would be " +s+ dec len
            +s+ " bytes against a " +s+ dec SUN_PATH_MAX +s+ " byte limit. Use a shorter experiment_id, by about "
            +s+ dec (len + 1 - SUN_PATH_MAX) +s+ " characters.") None)
  else None.

(** ** Private directories *)

Record Stat := mkStat { st_symlink : bool; st_dir : bool; st_uid : nat; st_mode : N }.
Inductive Lstat := Found (s : Stat) | NotFound | LstatError (error : string).
Inductive Made := MadeDir | AlreadyExists | MkdirError (error : string).

Definition mode_private (mode : N) : bool := (N.land mode 63 =? 0)%N.

Definition check_private (euid : nat) (s : Stat) : option string :=
  if st_symlink s then Some "is a symlink, so it names someone else's directory"
  else if negb (st_dir s) then Some "exists and is not a directory"
  else if negb (st_uid s =? euid) then Some "is owned by another user"
  else if negb (mode_private (st_mode s)) then Some "is readable or writable by others"
  else None.

(** Each round looks and, when nothing is there, makes the directory with mode 0700; losing
    the race starts the next round.  [world] is what the rounds find, in order; [None] is
    a run whose rounds are not over. *)
Fixpoint ensure_private_dir (euid : nat) (dir : string) (world : list (Lstat * Made)) : option (option string) :=
  match world with
  | [] => None
  | (look, made) :: world =>
    match look with
    | Found s => Some ((fun why => dir +s+ " " +s+ why) <$> check_private euid s)
    | LstatError error => Some (Some error)
    | NotFound =>
      match made with
      | MadeDir => Some None
      | AlreadyExists => ensure_private_dir euid dir world
      | MkdirError error => Some (Some error)
      end
    end
  end.

(** ** Directories of dead servers *)

Definition parse_u32 (s : string) : option N := from_str_radix digit_val 10 32 s.

(** The process a temporary directory is named after. *)
Definition tmp_dir_owner (name : string) : option N :=
  strip_prefix "tmp-" name ≫= fun rest => split_once "-" rest ≫= fun '(pid, _) => parse_u32 pid.

Definition frama_c_tmp_prefix (pid : N) : string := "tmp-" +s+ dec_N pid +s+ "-".

(** The names [sweep_orphaned_frama_c_tmp_dirs_in] removes; one that is no UTF-8 is [None]. *)
Definition sweep_orphaned_frama_c_tmp_dirs_in (own : N) (process_is_alive : N -> bool) (names : list (option string)) : list string :=
  bfilter (fun name => is_some_and (fun pid => negb ((pid =? own)%N || process_is_alive pid)) (tmp_dir_owner name))
    (collect_some (fun name => name) names).

Definition WRITER_TMP_PREFIX : string := ".frama-c-mcp-write-".
Definition WRITER_TMP_STALE : N := 3600 * 10 ^ 9.

(** The names [sweep_writer_temp_files] removes, given the age of each in nanoseconds when it
    is known. *)
Definition sweep_writer_temp_files (entries : list (option string * option N)) : list string :=
  collect_some (fun '(name, age) =>
    name ≫= fun name => then_some (starts_with WRITER_TMP_PREFIX name && is_some_and (fun age => (WRITER_TMP_STALE <? age)%N) age) name)
    entries.

(** ** Lemmas on components *)

Definition plain_component (c : Component) : bool := match c with RootDir | Normal _ => true | _ => false end.
Definition is_normal (c : Component) : bool := match c with Normal _ => true | _ => false end.

Lemma pop_Some path parent : pop path = Some parent -> exists c, path = parent ++ [c].
Proof.
  unfold pop. destruct (last path) as [c|] eqn:Hl; [|done]. apply last_Some in Hl as [l ->]. intros H.
  exists c. destruct c; simplify_eq; by rewrite removelast_last.
Qed.

Lemma normalize_plain rest : forall normalized q, forallb plain_component normalized = true ->
  normalize_path rest normalized = Some q -> forallb plain_component q = true.
Proof.
  induction rest as [|c rest IH]; intros normalized q Hn; simpl; [by intros [= <-]|].
  assert (Hpush : forall d, plain_component d = true -> forallb plain_component (push normalized d) = true).
  { intros d Hd. destruct d; try done. cbn [push]. by rewrite forallb_app, Hn. }
  destruct c; [by apply IH, Hpush|by apply IH| |by apply IH, Hpush].
  destruct (pop normalized) as [parent|] eqn:Hp; [|done]. apply IH. apply pop_Some in Hp as [c ->].
  rewrite forallb_app in Hn. by apply andb_true_iff in Hn as [? _].
Qed.

Lemma normalize_normal rest : forall normalized, forallb is_normal rest = true -> normalize_path rest normalized = Some (normalized ++ rest).
Proof.
  induction rest as [|c rest IH]; intros normalized H; simpl in *; [by rewrite app_nil_r|].
  apply andb_true_iff in H as [Hc H]. destruct c; try done. cbn [push]. by rewrite IH, <- app_assoc.
Qed.

Lemma path_starts_with_spec path root : path_starts_with path root = true <-> root `prefix_of` path.
Proof.
  revert path. induction root as [|c root IH]; intros path; simpl; [split; [intros _; apply prefix_nil|done]|].
  destruct path as [|d path]; [split; [done|intros [k Hk]; discriminate Hk]|].
  rewrite andb_true_iff, bool_decide_eq_true, IH. split.
  - intros [-> H]. by apply prefix_cons.
  - intros H. split; [by apply prefix_cons_inv_1 in H|by apply prefix_cons_inv_2 in H].
Qed.

Lemma ancestors_prefix fuel : forall path a, a ∈ ancestors_go fuel path -> exists rest, path = a ++ rest.
Proof.
  induction fuel as [|fuel IH]; intros path a; simpl.
  - intros ->%list_elem_of_singleton. exists []. by rewrite app_nil_r.
  - intros [->|H]%elem_of_cons; [exists []; by rewrite app_nil_r|].
    destruct (pop path) as [parent|] eqn:Hp; [|by apply elem_of_nil in H].
    apply IH in H as [rest ->]. apply pop_Some in Hp as [c ->]. exists (rest ++ [c]). by rewrite app_assoc.
Qed.

Lemma ancestors_self path : path ∈ ancestors path.
Proof. unfold ancestors. destruct (length path); simpl; [by apply list_elem_of_singleton|by left]. Qed.

(** The longest existing part of a path below an existing directory is in that directory. *)
Lemma first_existing (exists_ : list Component -> bool) root rest : forallb is_normal rest = true -> exists_ root = true ->
  forall fuel, length rest <= fuel ->
  exists a, find_first exists_ (ancestors_go fuel (root ++ rest)) = Some a /\ exists_ a = true /\ root `prefix_of` a.
Proof.
  intros Hn Hroot. induction rest as [|c rest IH] using rev_ind; intros fuel Hf.
  - rewrite app_nil_r. exists root. destruct fuel; simpl; by rewrite Hroot.
  - rewrite length_app in Hf. simpl in Hf. destruct fuel as [|fuel]; [lia|]. cbn [ancestors_go find_first].
    destruct (exists_ (root ++ rest ++ [c])) eqn:He; [exists (root ++ rest ++ [c]); split_and!; [done|done|by apply prefix_app_r]|].
    rewrite forallb_app in Hn. apply andb_true_iff in Hn as [Hn Hc]. simpl in Hc. rewrite andb_true_r in Hc.
    unfold pop. rewrite app_assoc, last_snoc, removelast_last. destruct c; try done. apply IH; [done|lia].
Qed.

(** ** Theorems *)

Section output_theorems.
Variable canonicalize : list Component -> list Component + string.
Variable exists_ : list Component -> bool.

Lemma prefix_antisym {A} (l k : list A) : l `prefix_of` k -> k `prefix_of` l -> l = k.
Proof. intros [r ->] [t Ht]. rewrite <- app_assoc in Ht. rewrite <- (app_nil_r l) in Ht at 1. apply app_inv_head in Ht. symmetry in Ht. apply app_nil in Ht as [-> _]. by rewrite app_nil_r. Qed.

Lemma prefix_snoc_inv {A} (q l : list A) c : q `prefix_of` l ++ [c] -> q = l ++ [c] \/ q `prefix_of` l.
Proof.
  intros [rest Hr]. destruct rest as [|d rest _] using rev_ind; [left; by rewrite app_nil_r in Hr|right].
  rewrite app_assoc in Hr. apply app_inj_tail in Hr as [-> _]. by exists rest.
Qed.

(** The ancestor that is found is the longest part that exists. *)
Lemma longest_existing (there : list Component -> bool) path existing : find_first there (ancestors path) = Some existing ->
  exists rest, path = existing ++ rest /\ there existing = true
    /\ forall q, q `prefix_of` existing ++ rest -> existing `prefix_of` q -> q <> existing -> there q = false.
Proof.
  unfold ancestors. generalize (length path) as fuel. intros fuel. revert path. induction fuel as [|fuel IH]; intros path; cbn [ancestors_go find_first].
  - destruct (there path) eqn:Ht; [|done]. intros [= <-]. exists []. rewrite app_nil_r. split_and!; [done|done|].
    intros q Hq Hp Hne. destruct Hne. by apply prefix_antisym.
  - destruct (there path) eqn:Ht.
    { intros [= <-]. exists []. rewrite app_nil_r. split_and!; [done|done|]. intros q Hq Hp Hne. destruct Hne. by apply prefix_antisym. }
    destruct (pop path) as [parent|] eqn:Hpop; [|done]. intros H. apply pop_Some in Hpop as [c ->].
    destruct (IH _ H) as (rest & -> & Hex & Hnew). exists (rest ++ [c]). rewrite app_assoc. split_and!; [done|done|].
    intros q Hq Hp Hne. destruct (prefix_snoc_inv _ _ _ Hq) as [->|Hq']; [done|]. by apply Hnew.
Qed.

(** Names that are not there are made in the directory above them, links apart. *)
Lemma made_below (link : list Component -> option (list Component)) (location : list Component -> list Component) existing rest :
  (forall p c, exists_ p = true \/ link p = None -> exists_ (p ++ [c]) = false -> link (p ++ [c]) = None -> location (p ++ [c]) = location p ++ [c]) ->
  exists_ existing = true ->
  (forall q, q `prefix_of` existing ++ rest -> exists_ q = false -> link q = None) ->
  (forall q, q `prefix_of` existing ++ rest -> existing `prefix_of` q -> q <> existing -> exists_ q = false) ->
  location (existing ++ rest) = location existing ++ rest.
Proof.
  intros Hmade Hex. induction rest as [|c rest IH] using rev_ind; intros Hlink Hnew; [by rewrite !app_nil_r|].
  rewrite (app_assoc existing). assert (Hq : exists_ ((existing ++ rest) ++ [c]) = false).
  { apply Hnew; [by rewrite <- app_assoc|by apply prefix_app_r, prefix_app_r|]. intros Heq. apply (f_equal length) in Heq. rewrite !length_app in Heq. cbn in Heq. lia. }
  assert (Hbelow : existing ++ rest `prefix_of` existing ++ rest ++ [c]) by (rewrite app_assoc; by apply prefix_app_r).
  rewrite Hmade; [|destruct (exists_ (existing ++ rest)) eqn:E; [by left|right; by apply Hlink]|done|apply Hlink; [by rewrite <- app_assoc|done]]. rewrite IH; [by rewrite <- app_assoc|..].
  - intros q Hp. apply Hlink. etrans; [exact Hp|]. rewrite app_assoc. by apply prefix_app_r.
  - intros q Hp. apply Hnew. etrans; [exact Hp|]. rewrite app_assoc. by apply prefix_app_r.
Qed.

(** C23: what is written at an accepted path is in the working directory, dangling links
    apart.  On a disk whose real paths are the locations of files, and where a name that is
    not there and is no link is made in the directory above it, a path that is accepted and
    of which no part is a link to nothing has no dots in it, and the file written at it is
    below the real working directory. *)
Theorem output_stays_inside (link : list Component -> option (list Component)) (location : list Component -> list Component)
    root path p (real_root := real_root_of canonicalize root) :
  (forall q real, exists_ q = true -> canonicalize q = inl real -> location q = real) ->
  (forall q c, exists_ q = true \/ link q = None -> exists_ (q ++ [c]) = false -> link (q ++ [c]) = None -> location (q ++ [c]) = location q ++ [c]) ->
  resolve_output_path_in canonicalize exists_ root path = inl p ->
  (forall q, q `prefix_of` p -> exists_ q = false -> link q = None) ->
  forallb plain_component p = true /\ real_root `prefix_of` location p.
Proof.
  intros Hreal Hmade H Hlink. revert H. unfold resolve_output_path_in. fold real_root. destruct (normalize_path _ _) as [normalized|] eqn:Hn; [|done].
  destruct (path_starts_with normalized real_root) eqn:Hp; [|done]. unfold check_symlinks.
  destruct (find_first exists_ (ancestors normalized)) as [existing|] eqn:He; [|done].
  destruct (canonicalize existing) as [real|e] eqn:Hc; [|done]. destruct (path_starts_with real real_root) eqn:Hr; [|done].
  intros [= ->]. apply path_starts_with_spec in Hr. split; [by apply (normalize_plain _ [] _ eq_refl Hn)|].
  destruct (longest_existing _ _ _ He) as (rest & -> & Hex & Hnew).
  rewrite (made_below link location existing rest Hmade Hex Hlink Hnew), (Hreal _ _ Hex Hc). by apply prefix_app_r.
Qed.

(** A relative path of plain names below a real root is kept when nothing that exists is a link. *)
Lemma accepted_plain root path (real_root := real_root_of canonicalize root) :
  forallb is_normal (components path) = true -> is_absolute real_root = true -> forallb is_normal (tail real_root) = true ->
  exists_ real_root = true -> (forall p, exists_ p = true -> canonicalize p = inl p) ->
  resolve_output_path_in canonicalize exists_ root path = inl (real_root ++ components path).
Proof.
  intros Hpath Habs Htail Hex Hcanon. unfold resolve_output_path_in. fold real_root.
  destruct real_root as [|[] dirs] eqn:Hroot; try done. simpl in Htail.
  assert (Hrel : is_absolute (components path) = false) by (destruct (components path) as [|[] ?]; done).
  unfold join_path. rewrite Hrel.
  assert (Hkeep : bfilter (fun c => negb (is_cur_dir c)) (components path) = components path).
  { apply bfilter_all. intros c Hc. rewrite forallb_true in Hpath. specialize (Hpath c Hc). by destruct c. }
  rewrite Hkeep. cbn [app normalize_path push]. rewrite normalize_normal by (rewrite forallb_app, Htail, Hpath; reflexivity). cbn [app].
  assert (Hpre : path_starts_with (RootDir :: dirs ++ components path) (RootDir :: dirs) = true).
  { apply path_starts_with_spec. by exists (components path). }
  rewrite Hpre. unfold check_symlinks, ancestors.
  destruct (first_existing exists_ (RootDir :: dirs) (components path) Hpath Hex (length (RootDir :: dirs ++ components path)))
    as (e & He & Hee & Hin); [simpl; rewrite length_app; lia|].
  cbn [app] in He. rewrite He, (Hcanon e Hee). apply path_starts_with_spec in Hin. by rewrite Hin.
Qed.

(** The documented use is accepted.  A relative path of plain names below a working
    directory without symbolic links is the file of that name in it, whether or not its
    directories exist yet. *)
Theorem output_accepted root path (real_root := real_root_of canonicalize root) :
  forallb is_normal (components path) = true -> is_absolute real_root = true -> forallb is_normal (tail real_root) = true ->
  exists_ real_root = true -> (forall p, exists_ p = true -> canonicalize p = inl p) ->
  resolve_output_path_in canonicalize exists_ root path = inl (real_root ++ components path).
Proof. apply accepted_plain. Qed.

(** A dangling link leaves the working directory.  A path whose last name is a link to a
    file that does not exist yet is accepted, wherever that file is: the existence test
    follows the link, finds nothing, and only the directory above is resolved.  The write
    that follows creates the file the link names. *)
Theorem dangling_link_accepted link root name target (real_root := real_root_of canonicalize root) :
  components name = [Normal name] -> is_absolute real_root = true -> forallb is_normal (tail real_root) = true ->
  exists_ real_root = true -> (forall p, exists_ p = true -> canonicalize p = inl p) ->
  (forall p t, link p = Some t -> exists_ p = exists_ t) ->
  link (real_root ++ [Normal name]) = Some target -> exists_ target = false -> path_starts_with target real_root = false ->
  exists p, resolve_output_path_in canonicalize exists_ root name = inl p /\ link p = Some target
       /\ find_first exists_ (ancestors p) = Some real_root /\ path_starts_with target real_root = false.
Proof.
  intros Hname Habs Htail Hex Hcanon Hlink Htarget Hnone Hout. exists (real_root ++ [Normal name]). split_and!; [|done| |done].
  - rewrite <- Hname. apply accepted_plain; try done. by rewrite Hname.
  - unfold ancestors. rewrite length_app, Nat.add_comm. cbn [length Nat.add ancestors_go find_first]. rewrite (Hlink _ _ Htarget), Hnone.
    unfold pop. rewrite last_snoc, removelast_last. destruct (length real_root); cbn; by rewrite Hex.
Qed.
End output_theorems.

(** ** Sandbox directories *)

Lemma safe_free value : is_safe_path_segment value = true -> free_of "/" value = true.
Proof.
  unfold is_safe_path_segment. intros [_ H]%andb_true_iff. revert H. apply sall_impl. intros c Hc.
  destruct (Ascii.eqb_spec c "/") as [->|]; done.
Qed.

Lemma take_str_length n s : n <= String.length s -> String.length (take_str n s) = n.
Proof. apply length_take_str. Qed.

Lemma ends_with_slash_free s : free_of "/" s = true -> ends_with "/" s = false.
Proof.
  unfold free_of. induction s as [|c s IH]; [done|]. cbn [sall ends_with]. intros [Hc Hs]%andb_true_iff. rewrite IH by done.
  rewrite orb_false_r. apply String.eqb_neq. intros [= <- _]. done.
Qed.

(** A text with a last name in it does not end in a slash. *)
Lemma ends_with_free a name : free_of "/" name = true -> name <> "" -> ends_with "/" (a +s+ name) = false.
Proof.
  intros Hf Hne. induction a as [|b a IH]; [by apply ends_with_slash_free|]. cbn [ends_with String.append]. rewrite IH, orb_false_r.
  apply String.eqb_neq. intros [= _ Heq]. by destruct a.
Qed.

Section sandbox_theorems.
Context (sha256_hex : string -> string) (current_dir : list Component) (uid : nat).
(** A digest is 64 hexadecimal digits. *)
Hypothesis sha256_digits : forall text, String.length (sha256_hex text) = 64 /\ sall is_ascii_hexdigit (sha256_hex text) = true.
Notation expected := (expected_sandbox_dir sha256_hex current_dir uid).
Notation dir_name := (sandbox_dir_name sha256_hex current_dir).

Lemma sall_take f n s : sall f s = true -> sall f (take_str n s) = true.
Proof.
  revert n. induction s as [|c s IH]; intros [|n] H; try done. simpl in *. apply andb_true_iff in H as [Hc H]. by rewrite Hc, IH.
Qed.

Lemma owner_shape base_dir : String.length (owner_of sha256_hex current_dir base_dir) = 8
  /\ free_of "/" (owner_of sha256_hex current_dir base_dir) = true.
Proof.
  unfold owner_of. destruct (sha256_digits (display (join_path current_dir (components base_dir)))) as [Hl Hd].
  split; [apply length_take_str; lia|]. apply (sall_take _ 8) in Hd. revert Hd. apply sall_impl. intros c Hc.
  destruct (Ascii.eqb_spec c "/") as [->|]; done.
Qed.

Lemma dir_name_free base_dir id : is_safe_path_segment id = true -> free_of "/" (dir_name base_dir id) = true.
Proof.
  intros Hid. unfold sandbox_dir_name. rewrite !free_of_app. destruct (owner_shape base_dir) as [_ Ho]. rewrite Ho. by rewrite (safe_free id Hid).
Qed.

Lemma expected_text base_dir id : expected base_dir id = "/tmp/fcmcp-" +s+ dec uid +s+ "/" +s+ dir_name base_dir id.
Proof.
  unfold expected_sandbox_dir, private_root_path, join_text. change (starts_with "/" (dir_name base_dir id)) with false. cbn [orb].
  change (is_empty ("/tmp/fcmcp-" +s+ dec uid)) with false.
  assert (ends_with "/" ("/tmp/fcmcp-" +s+ dec uid) = false) as ->.
  { apply ends_with_free; [by apply dec_free|]. destruct (pretty_digits (N.of_nat uid)) as (_ & _ & c & r & Hc & _).
    unfold dec. change (pretty uid) with (pretty (N.of_nat uid)). by rewrite Hc. }
  by rewrite app_str_assoc.
Qed.

Lemma expected_end base_dir id : is_safe_path_segment id = true -> ends_with "/" (expected base_dir id) = false.
Proof. intros Hid. rewrite expected_text, <- !app_str_assoc. apply ends_with_free; [by apply dir_name_free|by unfold sandbox_dir_name]. Qed.

Lemma app_same_length (a b x y : string) : String.length a = String.length b -> a +s+ x = b +s+ y -> a = b /\ x = y.
Proof.
  revert b. induction a as [|c a IH]; intros [|d b] Hl; simpl in *; try done. intros [= -> H].
  apply IH in H as [-> ->]; [done|lia].
Qed.

Lemma owner_inj o o' id id' : o +s+ "-" +s+ id = o' +s+ "-" +s+ id' -> String.length o = String.length o' -> o = o' /\ id = id'.
Proof. intros H Hl. apply app_same_length in H as [-> H]; [|done]. by injection H as ->. Qed.

(** Every sandbox has a directory of its own.  The directory of a safe id is one name
    below the private root; it tells the state directory's owner and the id apart from
    every other; its socket is in it. *)
Theorem sandbox_dirs_distinct base_dir id : is_safe_path_segment id = true ->
  components (expected base_dir id) = [RootDir; Normal "tmp"; Normal ("fcmcp-" +s+ dec uid); Normal (dir_name base_dir id)]
  /\ components (join_text (expected base_dir id) "frama-c.sock") = components (expected base_dir id) ++ [Normal "frama-c.sock"]
  /\ (forall base_dir' id', expected base_dir id = expected base_dir' id' ->
        owner_of sha256_hex current_dir base_dir = owner_of sha256_hex current_dir base_dir' /\ id = id').
Proof.
  intros Hid. pose proof (dir_name_free base_dir id Hid) as Hfree.
  assert (Hu : free_of "/" ("fcmcp-" +s+ dec uid) = true) by (rewrite free_of_app, dec_free by done; done).
  assert (Hsplit : forall rest, split_char "/" ("/tmp/fcmcp-" +s+ dec uid +s+ "/" +s+ rest) = "" :: "tmp" :: ("fcmcp-" +s+ dec uid) :: split_char "/" rest).
  { intros rest.
    change ("/tmp/fcmcp-" +s+ dec uid +s+ "/" +s+ rest) with ("" +s+ String "/" ("tmp" +s+ String "/" ("fcmcp-" +s+ dec uid +s+ String "/" rest))).
    rewrite !split_char_sep by done. rewrite <- app_str_assoc. by rewrite split_char_sep. }
  assert (Hend : ends_with "/" (expected base_dir id) = false).
  { by apply expected_end. }
  split_and!.
  - rewrite expected_text. unfold components. rewrite Hsplit, split_char_free by done. reflexivity.
  - unfold join_text. rewrite Hend, expected_text. change (starts_with "/" "frama-c.sock") with false. cbn [orb].
    change (is_empty ("/tmp/fcmcp-" +s+ dec uid +s+ "/" +s+ dir_name base_dir id)) with false. cbn iota.
    unfold components. rewrite !app_str_assoc, !Hsplit. rewrite (split_char_free "/" (dir_name base_dir id)) by done.
    assert (split_char "/" (dir_name base_dir id +s+ "/" +s+ "frama-c.sock") = [dir_name base_dir id; "frama-c.sock"]) as ->.
    { apply (split_char_sep "/" (dir_name base_dir id) "frama-c.sock" Hfree). }
    reflexivity.
  - intros base_dir' id' Heq. rewrite !expected_text in Heq. apply app_str_cancel in Heq. apply app_str_cancel in Heq.
    injection Heq as Heq. apply owner_inj in Heq; [done|]. by rewrite !(proj1 (owner_shape _)).
Qed.

(** The socket's address is checked exactly.  The directory of an id is accepted exactly
    when its socket's path and the terminator fit in the address, and a refused id is
    accepted when it is made shorter by the number of characters the message names, and not
    when by fewer. *)
Theorem socket_advice_exact base_dir id (len := String.length (join_text (expected base_dir id) "frama-c.sock"))
    (excess := len + 1 - SUN_PATH_MAX) :
  (sandbox_socket_path_error (expected base_dir id) = None <-> len + 1 <= SUN_PATH_MAX)
  /\ (forall id', String.length id' < String.length id -> is_safe_path_segment id = true -> is_safe_path_segment id' = true ->
        sandbox_socket_path_error (expected base_dir id) <> None ->
        (sandbox_socket_path_error (expected base_dir id') = None <-> excess <= String.length id - String.length id')).
Proof.
  assert (Hexact : forall dir, sandbox_socket_path_error dir = None <-> String.length (join_text dir "frama-c.sock") + 1 <= SUN_PATH_MAX).
  { intros dir. unfold sandbox_socket_path_error. destruct (SUN_PATH_MAX <? _) eqn:H; bool_simpl; split; try done; lia. }
  assert (Hlen : forall i, is_safe_path_segment i = true ->
            String.length (join_text (expected base_dir i) "frama-c.sock") = String.length ("/tmp/fcmcp-" +s+ dec uid +s+ "/sb-") + 8 + 1 + String.length i + 13).
  { intros i Hi. unfold join_text. assert (ends_with "/" (expected base_dir i) = false) as ->.
    { by apply expected_end. }
    rewrite expected_text. change (starts_with "/" "frama-c.sock") with false. cbn [orb].
    change (is_empty ("/tmp/fcmcp-" +s+ dec uid +s+ "/" +s+ dir_name base_dir i)) with false. cbn iota.
    pose proof (owner_shape base_dir) as [Ho _]. unfold sandbox_dir_name. rewrite !length_app_str, Ho. change (String.length "frama-c.sock") with 12.
    change (String.length "sb-") with 3. change (String.length "/") with 1. change (String.length "-") with 1. change (String.length "/sb-") with 4. lia. }
  split; [apply Hexact|]. intros id' Hshort Hid Hid' Herr. rewrite Hexact in Herr |- *. fold len in Herr.
  assert (len = String.length (join_text (expected base_dir id) "frama-c.sock")) as Hl by done. rewrite Hlen in Hl by done. rewrite Hlen by done.
  unfold excess. lia.
Qed.
End sandbox_theorems.

(** ** Private directories and orphans *)

Lemma mode_private_spec mode : mode_private mode = true <-> (forall bit, (bit < 6)%N -> N.testbit mode bit = false).
Proof.
  unfold mode_private. rewrite N.eqb_eq. split.
  - intros H bit Hb. assert (N.testbit (N.land mode 63) bit = false) as Ht by (rewrite H; apply N.bits_0).
    rewrite N.land_spec in Ht. change 63%N with (N.ones 6) in Ht. by rewrite N.ones_spec_low, andb_true_r in Ht by done.
  - intros H. apply N.bits_inj_iff. intros bit. rewrite N.bits_0, N.land_spec. change 63%N with (N.ones 6).
    destruct (bit <? 6)%N eqn:Hb; [apply N.ltb_lt in Hb; by rewrite H|].
    apply N.ltb_ge in Hb. by rewrite N.ones_spec_high, andb_false_r.
Qed.

Lemma check_private_spec euid s : check_private euid s = None <->
  st_symlink s = false /\ st_dir s = true /\ st_uid s = euid /\ mode_private (st_mode s) = true.
Proof.
  unfold check_private. destruct (st_symlink s); [by intuition|]. destruct (st_dir s); cbn [negb]; [|by intuition].
  destruct (st_uid s =? euid) eqn:Hu; cbn [negb]; bool_simpl; [|by intuition].
  destruct (mode_private (st_mode s)); cbn [negb]; by intuition.
Qed.

(** A directory is used only when it is private.  When the call succeeds, either its last
    round made the directory, or it found a real directory, not a link, that this user owns
    and that has no permission for the group or for others, after rounds that each lost a
    race; and a call that is not decided has lost the race in every round. *)
Theorem private_or_refused euid dir world :
  (ensure_private_dir euid dir world = Some None ->
     exists before last after, world = before ++ last :: after /\ Forall (fun r => r = (NotFound, AlreadyExists)) before
       /\ (last = (NotFound, MadeDir)
           \/ exists s made, last = (Found s, made) /\ st_symlink s = false /\ st_dir s = true /\ st_uid s = euid
                /\ forall bit, (bit < 6)%N -> N.testbit (st_mode s) bit = false))
  /\ (ensure_private_dir euid dir world = None <-> Forall (fun r => r = (NotFound, AlreadyExists)) world).
Proof.
  induction world as [|[look made] world [IH1 IH2]]; cbn [ensure_private_dir]; [by split|].
  destruct look as [s| |e]; [|destruct made as [| |e]|].
  - split; [|split; [done|by inversion 1]]. intros H. exists [], (Found s, made), world. split_and!; [done|done|]. right.
    exists s, made. destruct (check_private euid s) eqn:Hc; [done|]. apply check_private_spec in Hc as (H1 & H2 & H3 & H4).
    by rewrite mode_private_spec in H4.
  - split; [|split; [done|by inversion 1]]. intros _. exists [], (NotFound, MadeDir), world. split_and!; [done|done|by left].
  - split.
    + intros H. apply IH1 in H as (before & last & after & -> & Hb & Hl).
      exists ((NotFound, AlreadyExists) :: before), last, after. split_and!; [done|by constructor|done].
    + rewrite IH2. split; [by constructor|by inversion 1].
  - split; [done|]. split; [done|by inversion 1].
  - split; [done|]. split; [done|by inversion 1].
Qed.

Lemma dec_N_parse pid : (pid < 2 ^ 32)%N -> parse_u32 (dec_N pid) = Some pid.
Proof.
  intros Hp. destruct (pretty_digits pid) as (Hv & _ & c & s & Hs & Hc). unfold parse_u32, from_str_radix, dec_N.
  rewrite Hs in Hv |- *. destruct (Ascii.eqb_spec c "+") as [->|_]; [done|]. cbn [is_empty]. rewrite Hv.
  by apply N.ltb_lt in Hp as ->.
Qed.

Lemma tmp_dir_owner_prefix pid suffix : (pid < 2 ^ 32)%N -> tmp_dir_owner (frama_c_tmp_prefix pid +s+ suffix) = Some pid.
Proof.
  intros Hp. unfold tmp_dir_owner, frama_c_tmp_prefix.
  assert (strip_prefix "tmp-" (("tmp-" +s+ dec_N pid +s+ "-") +s+ suffix) = Some (dec_N pid +s+ String "-" suffix)) as ->
    by (cbn; by rewrite app_str_assoc).
  cbn [mbind option_bind].
  rewrite split_once_free; [by apply dec_N_parse|]. destruct (pretty_digits pid) as (_ & Hd & _). revert Hd. apply sall_impl.
  intros d Hd. destruct (Ascii.eqb_spec d "-") as [->|]; done.
Qed.

(** The sweep removes directories of dead servers only.  A removed name is in the listing
    and belongs to a process that is neither this one nor alive; the directory a server
    makes, whatever its suffix, is removed exactly when that server is another one and
    dead, so no running server loses its own. *)
Theorem sweep_spares_the_living own alive names :
  (forall name, name ∈ sweep_orphaned_frama_c_tmp_dirs_in own alive names ->
     Some name ∈ names /\ exists pid, tmp_dir_owner name = Some pid /\ pid <> own /\ alive pid = false)
  /\ (forall pid suffix, (pid < 2 ^ 32)%N -> Some (frama_c_tmp_prefix pid +s+ suffix) ∈ names ->
        (frama_c_tmp_prefix pid +s+ suffix ∈ sweep_orphaned_frama_c_tmp_dirs_in own alive names <-> pid <> own /\ alive pid = false)).
Proof.
  unfold sweep_orphaned_frama_c_tmp_dirs_in. split.
  - intros name H. apply elem_of_bfilter in H as [Hin Ho]. apply elem_of_collect_some in Hin as ([n|] & Hn & [= ->]); split; [done|].
    destruct (tmp_dir_owner name) as [pid|]; [|done]. exists pid. cbn [is_some_and] in Ho.
    rewrite negb_true_iff, orb_false_iff, N.eqb_neq in Ho. by destruct Ho.
  - intros pid suffix Hp Hin. rewrite elem_of_bfilter, (tmp_dir_owner_prefix pid suffix Hp). cbn [is_some_and].
    rewrite negb_true_iff, orb_false_iff, N.eqb_neq, elem_of_collect_some. split; [tauto|]. intros [? ?]. split; [|done].
    by exists (Some (frama_c_tmp_prefix pid +s+ suffix)).
Qed.

(** ** Witnesses

    One tree: the directory [/work], the directory [/work/out], and, in the last case, a link
    in [/work] to a file of [/tmp] that is not there. *)
Definition tree : list (list Component) :=
  [[RootDir]; [RootDir; Normal "work"]; [RootDir; Normal "work"; Normal "out"]; [RootDir; Normal "tmp"]].
Definition in_tree (p : list Component) : bool := bool_decide (p ∈ tree).
Definition tree_real (p : list Component) : list Component + string := if in_tree p then inl p else inr "not found".
Definition tree_link (p : list Component) : option (list Component) :=
  then_some (bool_decide (p = [RootDir; Normal "work"; Normal "latest"])) [RootDir; Normal "tmp"; Normal "elsewhere"].

Lemma tree_real_plain p : in_tree p = true -> tree_real p = inl p.
Proof. unfold tree_real. by intros ->. Qed.

Lemma tree_link_followed p t : tree_link p = Some t -> in_tree p = in_tree t.
Proof. unfold tree_link, then_some. case_bool_decide as Hp; [|done]. intros [= <-]. subst p. vm_compute. reflexivity. Qed.

Definition digest_64 (_ : string) : string := "00112233445566778899aabbccddeeff00112233445566778899aabbccddeeff".
Lemma digest_64_digits text : String.length (digest_64 text) = 64 /\ sall is_ascii_hexdigit (digest_64 text) = true.
Proof. by split. Qed.

(** Where a file written at a path of the tree is. *)
Definition tree_location (p : list Component) : list Component := unwrap_or (tree_link p) p.

Lemma output_stays_inside_witness :
  let p := [RootDir; Normal "work"; Normal "out"; Normal "a.c"] in
  resolve_output_path_in tree_real in_tree [RootDir; Normal "work"] "out/../out/./a.c" = inl p
  /\ forallb plain_component p = true /\ [RootDir; Normal "work"] `prefix_of` tree_location p.
Proof.
  intros p. assert (H : resolve_output_path_in tree_real in_tree [RootDir; Normal "work"] "out/../out/./a.c" = inl p) by (vm_compute; reflexivity).
  split; [exact H|]. refine (output_stays_inside tree_real in_tree tree_link tree_location [RootDir; Normal "work"] _ p _ _ H _).
  - intros q real Hin Hreal. rewrite (tree_real_plain q Hin) in Hreal. injection Hreal as <-. unfold tree_location.
    destruct (tree_link q) as [t|] eqn:E; [|reflexivity]. exfalso. unfold tree_link, then_some in E. case_bool_decide as Hq; [|discriminate E].
    subst q. vm_compute in Hin. discriminate Hin.
  - intros q c Hq _ Hn. unfold tree_location. rewrite Hn. cbn. destruct (tree_link q) as [t|] eqn:E; [|reflexivity]. exfalso.
    unfold tree_link, then_some in E. case_bool_decide as Hl; [|discriminate E]. destruct Hq as [Hq|Hq]; [|discriminate Hq].
    subst q. vm_compute in Hq. discriminate Hq.
  - intros q [rest Hq] _. unfold tree_link, then_some. case_bool_decide as Hp; [|reflexivity]. subst q. discriminate Hq.
Defined.

Lemma output_accepted_witness :
  resolve_output_path_in tree_real in_tree [RootDir; Normal "work"] "new/a.c" = inl [RootDir; Normal "work"; Normal "new"; Normal "a.c"].
Proof. refine (output_accepted tree_real in_tree [RootDir; Normal "work"] "new/a.c" _ _ _ _ tree_real_plain); vm_compute; reflexivity. Defined.

Lemma dangling_link_accepted_witness : exists p,
  resolve_output_path_in tree_real in_tree [RootDir; Normal "work"] "latest" = inl p
  /\ tree_link p = Some [RootDir; Normal "tmp"; Normal "elsewhere"]
  /\ find_first in_tree (ancestors p) = Some [RootDir; Normal "work"]
  /\ path_starts_with [RootDir; Normal "tmp"; Normal "elsewhere"] [RootDir; Normal "work"] = false.
Proof.
  refine (dangling_link_accepted tree_real in_tree tree_link [RootDir; Normal "work"] "latest" [RootDir; Normal "tmp"; Normal "elsewhere"]
            _ _ _ _ tree_real_plain tree_link_followed _ _ _); vm_compute; reflexivity.
Defined.

Lemma sandbox_dirs_distinct_witness :
  is_safe_path_segment "exp-1" = true
  /\ components (expected_sandbox_dir digest_64 [RootDir; Normal "work"] 1000 ".frama-c-mcp" "exp-1")
     = [RootDir; Normal "tmp"; Normal "fcmcp-1000"; Normal "sb-00112233-exp-1"].
Proof.
  split; [reflexivity|].
  exact (proj1 (sandbox_dirs_distinct digest_64 [RootDir; Normal "work"] 1000 digest_64_digits ".frama-c-mcp" "exp-1" eq_refl)).
Defined.

Lemma socket_advice_exact_witness (base := ".frama-c-mcp") (dir := expected_sandbox_dir digest_64 [RootDir; Normal "work"] 1000) :
  let id := "a-very-long-experiment-identifier-that-does-not-fit-in-a-socket-address-at-all-ever" in
  sandbox_socket_path_error (dir base id) <> None
  /\ (sandbox_socket_path_error (dir base "exp") = None
       <-> String.length (join_text (dir base id) "frama-c.sock") + 1 - SUN_PATH_MAX <= String.length id - 3).
Proof.
  intros id. assert (H : sandbox_socket_path_error (dir base id) <> None) by (vm_compute; discriminate). split; [exact H|].
  refine (proj2 (socket_advice_exact digest_64 [RootDir; Normal "work"] 1000 digest_64_digits base id) "exp" _ eq_refl eq_refl H).
  apply Nat.ltb_lt. reflexivity.
Defined.
