(* ===== verification/Coverage.v ===== *)
(** * Proof coverage (src/src/mcp/coverage.rs)

    How much of a target is proved, by conclusions that are evidence now: about this
    program, not stale, and resting on no callee that is itself uncovered.  The
    digest of a file as it is now is a parameter. *)

From S2P Require Import Prelude RustStr BTree Json Status Verdicts StableId Receipt Evidence Session Conclusions.

Definition verification_status_name (e : FunctionVerificationState) : string :=
  match status e with
  | InProgress => "in_progress"
  | Verified => "verified"
  | Failed => "failed"
  | Unsound => "unsound"
  | BlockedOnCallee => "blocked_on_callee"
  end.

Definition percent (numerator denominator : nat) : json :=
  JNum (NFloat (if (denominator =? 0)%nat then f64_of_Z 0
                else f64_div (f64_mul (f64_of_Z (Z.of_nat numerator)) (f64_of_Z 100))
                       (f64_of_Z (Z.of_nat denominator)))).

(** ** Sources that moved *)

Record SourceDrift := mkDrift {
  changed : list string;
  unchecked : list string;
  unnamed : nat;
}.

Definition no_drift : SourceDrift := mkDrift [] [] 0.

Definition is_stale (d : SourceDrift) : bool := negb (bool_decide (changed d = [])).

(** A relative path of one component names no particular file. *)
Definition bare_name (path : string) : bool :=
  negb (starts_with "/" path) && (length (components path) =? 1)%nat.

Section coverage.
(** A readable regular file's digest; the report hashes a path once. *)
Variable current : string -> option string.
Variable debug_str : string -> string.
Variable builtin_models_digest : string.

Definition drift_entry (drift : SourceDrift) (entry : json) : SourceDrift :=
  match get_str "path" entry with
  | None => mkDrift (changed drift) (unchecked drift) (S (unnamed drift))
  | Some path =>
    let skip_path := mkDrift (changed drift) (unchecked drift ++ [path]) (unnamed drift) in
    match get_str "sha256" entry with
    | None => skip_path
    | Some recorded =>
      if bare_name path then skip_path
      else match current path with
           | Some now => if now =s recorded then drift
                         else mkDrift (changed drift ++ [path]) (unchecked drift) (unnamed drift)
           | None => skip_path
           end
    end
  end.

Definition receipt_source_drift (receipt : json) : SourceDrift :=
  fold_left drift_entry
    (unwrap_or (pointer ["subject"; "files"] receipt ≫= as_array) []) no_drift.

(** ** Whether a conclusion is evidence now *)

Record LoadedProject := mkLoadedProject { files : list string; load : json }.

Definition receipt_matches_project (receipt : json) (loaded : option LoadedProject) : bool :=
  match loaded with
  | None => true
  | Some loaded =>
    if negb (opt_eqb json_eqb (pointer ["subject"; "project_load"] receipt) (Some (load loaded)))
    then false
    else
      let proved_over : gset string :=
        list_to_set (unwrap_or (collect_some (get_str "path")
          <$> (pointer ["subject"; "files"] receipt ≫= as_array)) []) in
      let now : gset string := list_to_set (map receipt_source_path (files loaded)) in
      negb (bool_decide (proved_over = ∅)) && bool_decide (proved_over = now)
  end.

Definition receipt_names_function (receipt : json) (function : string) : bool :=
  names_function receipt function.

(** The last questions, asked of a verified conclusion with a receipt. *)
Definition receipt_reason (e : FunctionVerificationState) (drift : SourceDrift) : option string :=
  match proof_receipt e with
  | None => Some "missing_proof_receipt"
  | Some receipt =>
    if is_stale drift then Some "stale_source"
    else if is_some_and (fun prop => negb (is_null prop)) (pointer ["wp"; "prop"; "effective"] receipt)
    then Some "proved_under_a_goal_filter"
    else if receipt_names_function receipt (function e) then None
    else Some "receipt_does_not_prove_function"
  end.

Definition target_reason (e : FunctionVerificationState)
    (target : option (string * VerificationProfile)) : option string :=
  match target with
  | None => None
  | Some (name, profile) =>
    if negb (verify_profile e =?s name) then Some "different_verify_profile"
    else (fun _ => "profile_evidence_mismatch") <$>
         profile_evidence_error builtin_models_digest debug_str name profile (function e) (proof_receipt e)
  end.

(** The first question with an answer is the reason. *)
Definition row_reason (e : FunctionVerificationState)
    (target : option (string * VerificationProfile)) (drift : SourceDrift)
    (loaded : option LoadedProject) : option string :=
  target_reason e target
  <||> (if is_some_and (fun receipt => negb (receipt_matches_project receipt loaded)) (proof_receipt e)
        then Some "different_project" else None)
  <||> (if negb (bool_decide (stale_dependencies e = [])) then Some "stale_dependencies" else None)
  <||> (match stale_proof_environment e with
        | Some _ => Some "stale_proof_environment"
        | None => None
        end)
  <||> (if negb (verified e) then Some (verification_status_name e) else None)
  <||> receipt_reason e drift.

(** ** Rows *)

Record Row := mkRow {
  row_function : string;
  row_status : string;
  reason : option string;
  receipt_sha256 : option string;
  changed_sources : list string;
  changed_source_count : nat;
  unchecked_sources : list string;
  unnamed_sources : nat;
  blocking_callees : list string;
  row_callees : list string;
  in_scope_receipt : option json;
}.

Definition not_started (function why : string) : Row :=
  mkRow function "not_started" (Some why) None [] 0 [] 0 [] [] None.

Definition entry_sha256 (e : FunctionVerificationState) : option string :=
  proof_receipt e ≫= get_str "sha256".

Definition undefined_row (function : string) (stored : option FunctionVerificationState) : Row :=
  mkRow function (unwrap_or (verification_status_name <$> stored) "not_started")
    (Some "not_defined_in_project") (stored ≫= entry_sha256) [] 0 [] 0 [] [] None.

Definition conclusion_row (f : string) (e : FunctionVerificationState)
    (target : option (string * VerificationProfile)) (loaded : option LoadedProject) : Row :=
  let drift := unwrap_or (receipt_source_drift <$> proof_receipt e) no_drift in
  let why := row_reason e target drift loaded in
  let in_scope := opt_filter (fun receipt =>
      negb (why =?s "different_verify_profile") && negb (why =?s "profile_evidence_mismatch")
      && receipt_names_function receipt (function e) && receipt_matches_project receipt loaded)
    (proof_receipt e) in
  mkRow f (verification_status_name e) why (entry_sha256 e) (changed drift) (length (changed drift))
    (unchecked drift) (unnamed drift) [] (callees e) in_scope.

Definition target_row (defined : gset string) (conclusions : gmap string FunctionVerificationState)
    (target : option (string * VerificationProfile)) (loaded : option LoadedProject) (f : string) : Row :=
  if negb (bool_decide (f ∈ defined)) then undefined_row f (conclusions !! f)
  else match conclusions !! f with
       | None => not_started f "missing_conclusion"
       | Some e => conclusion_row f e target loaded
       end.
End coverage.

(** ** Resting on what is not covered *)

Definition with_blocking (blocking : list string) (r : Row) : Row :=
  mkRow (row_function r) (row_status r) (Some "unverified_callee") (receipt_sha256 r)
    (changed_sources r) (changed_source_count r) (unchecked_sources r) (unnamed_sources r)
    blocking (row_callees r) (in_scope_receipt r).

Definition is_covered (r : Row) : bool := match reason r with None => true | Some _ => false end.

Definition blocking_of (uncovered : gset string) (r : Row) : list string :=
  bfilter (fun callee => bool_decide (callee ∈ uncovered)) (row_callees r).

(** The rows a round takes out of the covered ones. *)
Definition newly (uncovered : gset string) (r : Row) : bool :=
  is_covered r && negb (bool_decide (blocking_of uncovered r = [])).

Definition block_row (uncovered : gset string) (r : Row) : Row :=
  if newly uncovered r then with_blocking (blocking_of uncovered r) r else r.

(** The loop; each round that is not the last covers one row less. *)
Fixpoint propagate_loop (fuel : nat) (rows : list Row) (uncovered : gset string) : option (list Row) :=
  match fuel with
  | O => None
  | S fuel =>
    match bfilter (newly uncovered) rows with
    | [] => Some rows
    | new => propagate_loop fuel (map (block_row uncovered) rows)
               (list_to_set (map row_function new) ∪ uncovered)
    end
  end.

Definition uncovered_names (rows : list Row) : gset string :=
  list_to_set (map row_function (bfilter (fun r => negb (is_covered r)) rows)).

(** The loop with rounds enough; [propagate_total] below shows they are. *)
Definition propagate_unverified_callees (rows : list Row) : list Row :=
  unwrap_or (propagate_loop (S (length rows)) rows (uncovered_names rows)) rows.

(** ** The report *)

(** Receipts in scope, one per digest, or per function without one. *)
Definition receipt_key (r : Row) : string :=
  match receipt_sha256 r with
  | Some digest => "sha256:" +s+ digest
  | None => "function:" +s+ row_function r
  end.

Definition add_receipt (m : gmap string json) (r : Row) : gmap string json :=
  match in_scope_receipt r with
  | None => m
  | Some receipt => match m !! receipt_key r with
                    | Some _ => m
                    | None => <[receipt_key r := receipt]> m
                    end
  end.

Definition unique_receipts (rows : list Row) : gmap string json := fold_left add_receipt rows ∅.

(** The goals of the denominator. *)
Definition measured_goals (rows : list Row) : list json :=
  flat_map (fun receipt => unwrap_or (get_arr "goals" receipt) []) (map_to_list (unique_receipts rows)).*2.

Definition goal_status (goal : json) : string :=
  normalize_frama_c_status (unwrap_or (get_str "status" goal) "unknown").

Definition replayed (answer : bool) (goal : json) : bool :=
  receipt_goal_is_progress goal && opt_eqb Bool.eqb (goal_is_from_cache goal) (Some answer).

Inductive Detail := Summary | Full.
Definition is_full (d : Detail) : bool := match d with Full => true | Summary => false end.

Definition row_json (r : Row) : json :=
  JObj [("function", JStr (row_function r)); ("covered", JBool (is_covered r));
        ("status", JStr (row_status r)); ("reason", jopt JStr (reason r));
        ("blocking_callees", jstrings (blocking_callees r));
        ("changed_source_count", jnat (changed_source_count r));
        ("unchecked_source_count", jnat (length (unchecked_sources r) + unnamed_sources r));
        ("proof_receipt_sha256", jopt JStr (receipt_sha256 r))].

Definition LIMITATIONS : list string :=
  ["WP coverage is over obligations generated by the loaded ACSL, RTE, and WP configuration; omitted requirements are outside this denominator.";
   "Goal counts are deduplicated by proof receipt because one WP run can be stored as evidence for several functions.";
   "A source file a receipt named but that cannot be read now is counted under unchecked_sources rather than judged, so evidence from a deleted sandbox is reported as unverifiable rather than as unchanged.";
   "Functions this project declares without defining are listed under scope.declared_not_defined and are outside both denominators.";
   "WP only. EVA alarms are not read here, so a complete verdict is a statement about proof obligations rather than about every analysis this server can run.";
   "A target's own command may run checks this server does not, such as a floor on obligations generated or a separate script over the same sources. A profile declares them under build_gates and coverage does not run them, so complete here is not the build's verdict. The list is the profile author's declaration rather than anything this server can verify, so an empty one means none were declared, not that none exist.";
   "Whether a covered function declares an assigns clause is not checked, because the conclusion's specs are supplied by the caller and may be absent for a function that has one."].

Definition complete (targets : list string) (rows : list Row) (goals : list json) : bool :=
  negb (bool_decide (targets = [])) && (count_if is_covered rows =? length targets)%nat
  && (count_if receipt_goal_is_progress goals =? length goals)%nat && (0 <? length goals)%nat.

Definition coverage_rows (current : string -> option string) (debug_str : string -> string)
    (builtin_models_digest : string) (targets : list string) (defined : gset string)
    (loaded : option LoadedProject) (conclusions : gmap string FunctionVerificationState)
    (target : option (string * VerificationProfile)) : list Row :=
  propagate_unverified_callees
    (map (target_row current debug_str builtin_models_digest defined conclusions target loaded) targets).

Definition proof_coverage_report (current : string -> option string) (debug_str : string -> string)
    (builtin_models_digest : string) (targets0 declared_only0 : list string) (defined : gset string)
    (loaded : option LoadedProject) (conclusions : gmap string FunctionVerificationState)
    (target : option (string * VerificationProfile)) (detail : Detail) : json :=
  let targets := btree_set targets0 in
  let declared_only := btree_set declared_only0 in
  let undefined_targets : gset string :=
    list_to_set (bfilter (fun name => negb (bool_decide (name ∈ defined))) targets) in
  let declared_elsewhere :=
    bfilter (fun name => negb (bool_decide (name ∈ undefined_targets))) declared_only in
  let rows := coverage_rows current debug_str builtin_models_digest targets defined loaded conclusions target in
  let goals := measured_goals rows in
  let statuses := map goal_status goals in
  let valid_functions := count_if is_covered rows in
  let valid_goals := count_if receipt_goal_is_progress goals in
  let json_rows := map row_json (bfilter (fun r => is_full detail || negb (is_covered r)) rows) in
  JObj
    [("schema", JStr "frama-c-mcp.proof-coverage.v1");
     ("verdict", JStr (if complete targets rows goals then "complete" else "incomplete"));
     ("scope", JObj [("verify_profile", jopt JStr (fst <$> target));
                     ("source", JStr (match target with
                                      | Some _ => "verify_profile"
                                      | None => "loaded_defined_functions"
                                      end));
                     ("declared_not_defined", jstrings declared_elsewhere)]);
     ("function_coverage", JObj [("valid", jnat valid_functions); ("total", jnat (length targets));
                                 ("percent", percent valid_functions (length targets))]);
     ("goal_coverage", JObj [("valid", jnat valid_goals); ("total", jnat (length goals));
                             ("percent", percent valid_goals (length goals));
                             ("by_status", JObj (map (fun st => (st, jnat (count_if (String.eqb st) statuses)))
                                                   (btree_set statuses)));
                             ("fresh_valid", jnat (count_if (replayed false) goals));
                             ("cached_valid", jnat (count_if (replayed true) goals));
                             ("unique_receipts", jnat (size (unique_receipts rows)))]);
     ("functions", JArr json_rows);
     ("functions_omitted", jnat (length rows - length json_rows));
     ("changed_sources", jstrings (btree_set (flat_map changed_sources rows)));
     ("unchecked_sources", jstrings (btree_set (flat_map unchecked_sources rows)));
     ("unnamed_sources", jnat (list_sum (map unnamed_sources rows)));
     ("limitations", jstrings LIMITATIONS)].

(** The handler's denominators: the profile's functions, or every defined one. *)
Definition proof_coverage (current : string -> option string) (debug_str : string -> string)
    (builtin_models_digest : string) (profile_name : option string) (detail : option Detail)
    (loaded : option LoadedProject) (s : SessionState) : json + McpError :=
  let infos := (map_to_list (functions s)).*2 in
  let report target :=
    let defined := map fi_name (bfilter fi_defined infos) in
    let wanted name := match target with
                       | Some (_, profile) => one_of name (p_functions profile)
                       | None => true
                       end in
    let declared_only := bfilter wanted (map fi_name (bfilter (fun f => negb (fi_defined f)) infos)) in
    let targets := match target with Some (_, profile) => p_functions profile | None => defined end in
    inl (proof_coverage_report current debug_str builtin_models_digest targets declared_only
           (list_to_set defined) loaded (conclusions s) target (unwrap_or detail Summary)) in
  match profile_name with
  | None => report None
  | Some name =>
    match verification_profiles s !! name with
    | None => inr (unknown_verify_profile name (verification_profiles s))
    | Some profile =>
      if bool_decide (p_functions profile = [])
      then inr (invalid_params ("verify_profile " +s+ debug_str name
                                +s+ " declares no functions to measure") None)
      else report (Some (name, profile))
    end
  end.

(** ** Lemmas: propagation *)

(** A row that rests on an uncovered one, over any number of calls. *)
Inductive unsupported (rows : list Row) : Row -> Prop :=
  | unsupported_itself r : r ∈ rows -> is_covered r = false -> unsupported rows r
  | unsupported_callee r r' :
      r ∈ rows -> r' ∈ rows -> row_function r' ∈ row_callees r -> unsupported rows r' ->
      unsupported rows r.

(** A row on its way through the rounds. *)
Record carried (rows : list Row) (r0 r : Row) : Prop := mkCarried {
  same_function : row_function r = row_function r0;
  same_callees : row_callees r = row_callees r0;
  still_uncovered : is_covered r0 = false -> is_covered r = false;
  uncovered_why : is_covered r = false -> unsupported rows r0;
  covered_same : is_covered r = true -> r = r0;
}.

Lemma elem_of_uncovered_names c rows :
  c ∈ uncovered_names rows <-> exists r, r ∈ rows /\ is_covered r = false /\ row_function r = c.
Proof.
  unfold uncovered_names. rewrite elem_of_list_to_set.
  change (map row_function) with (fmap (M := list) row_function). rewrite list_elem_of_fmap. split.
  - intros (r & -> & [Hr Hc]%elem_of_bfilter). apply negb_true_iff in Hc. by exists r.
  - intros (r & Hr & Hc & <-). exists r. split; [done|]. apply elem_of_bfilter. by rewrite Hc.
Qed.

Lemma newly_true uncovered r :
  newly uncovered r = true <->
  is_covered r = true /\ exists c, c ∈ row_callees r /\ c ∈ uncovered.
Proof.
  unfold newly, blocking_of. rewrite andb_true_iff, negb_true_iff, bool_decide_eq_false.
  split; intros [Hc Hb]; (split; [done|]).
  - destruct (bfilter _ _) as [|c l] eqn:E; [done|]. exists c.
    assert (Hin : c ∈ c :: l) by left. rewrite <- E in Hin.
    apply elem_of_bfilter in Hin as [? ?%bool_decide_eq_true_1]. done.
  - destruct Hb as (c & Hin & Hu). intros E. rewrite bfilter_nil in E. apply E in Hin.
    by rewrite bool_decide_eq_true_2 in Hin.
Qed.

Lemma block_row_covered uncovered r :
  is_covered (block_row uncovered r) = is_covered r && negb (newly uncovered r).
Proof. unfold block_row. destruct (newly uncovered r) eqn:E; simpl; [by rewrite andb_false_r|by rewrite andb_true_r]. Qed.

Lemma block_row_same uncovered r :
  row_function (block_row uncovered r) = row_function r
  /\ row_callees (block_row uncovered r) = row_callees r.
Proof. unfold block_row. by destruct (newly uncovered r). Qed.

Lemma uncovered_names_round rows :
  let unc := uncovered_names rows in
  list_to_set (map row_function (bfilter (newly unc) rows)) ∪ unc
  = uncovered_names (map (block_row unc) rows).
Proof.
  intros unc. apply set_eq. intros c. rewrite elem_of_union, elem_of_list_to_set.
  unfold unc at 2. rewrite !elem_of_uncovered_names.
  change (map row_function) with (fmap (M := list) row_function).
  change (map (block_row unc) rows) with (block_row unc <$> rows). rewrite list_elem_of_fmap. split.
  - intros [(r & -> & [Hr Hn]%elem_of_bfilter)|(r & Hr & Hc & <-)]; exists (block_row unc r);
      (split_and!; [by apply list_elem_of_fmap_2|rewrite block_row_covered|apply block_row_same]).
    + by rewrite Hn, andb_false_r.
    + by rewrite Hc.
  - intros (r' & (r & -> & Hr)%list_elem_of_fmap & Hc & <-).
    rewrite (proj1 (block_row_same _ _)). rewrite block_row_covered in Hc.
    destruct (newly unc r) eqn:En; [left|right].
    + exists r. split; [done|]. by apply elem_of_bfilter.
    + rewrite andb_true_r in Hc. by exists r.
Qed.

Lemma covered_decreases rows unc :
  bfilter (newly unc) rows <> [] ->
  count_if is_covered (map (block_row unc) rows) < count_if is_covered rows.
Proof.
  assert (Hle : forall l, count_if is_covered (map (block_row unc) l) <= count_if is_covered l).
  { unfold count_if. induction l as [|r l IH]; simpl; [done|].
    rewrite block_row_covered. destruct (is_covered r), (newly unc r); simpl; lia. }
  unfold count_if in *. induction rows as [|r rows IH]; simpl; [done|].
  rewrite block_row_covered. intros Hne. specialize (Hle rows).
  destruct (newly unc r) eqn:En.
  - apply newly_true in En as [-> _]. simpl. lia.
  - specialize (IH Hne). destruct (is_covered r); simpl; lia.
Qed.

(** One round carries rows on: a row it uncovers has an uncovered callee. *)
Lemma carried_round rows0 rows :
  Forall2 (carried rows0) rows0 rows ->
  Forall2 (carried rows0) rows0 (map (block_row (uncovered_names rows)) rows).
Proof.
  intros H. set (unc := uncovered_names rows).
  assert (Hunc : forall c, c ∈ unc -> exists r0, r0 ∈ rows0 /\ row_function r0 = c /\ unsupported rows0 r0).
  { intros c (r & Hr & Hc & <-)%elem_of_uncovered_names.
    apply list_elem_of_lookup in Hr as [i Hi].
    destruct (Forall2_lookup_r _ _ _ _ _ H Hi) as (r0 & Hi0 & [Hf _ _ Hw _]).
    exists r0. split_and!; [by eapply list_elem_of_lookup_2|done|by apply Hw]. }
  change (map (block_row unc) rows) with (block_row unc <$> rows).
  apply Forall2_fmap_r. apply Forall2_same_length_lookup. apply Forall2_same_length_lookup in H as [Hl H].
  split; [done|]. intros i r0 r Hi0 Hi. destruct (H i r0 r Hi0 Hi) as [Hf Hcs Hs Hw Hsame].
  destruct (block_row_same unc r) as [Hbf Hbc]. split.
  - congruence.
  - congruence.
  - intros Hc. rewrite block_row_covered. by rewrite Hs.
  - rewrite block_row_covered. intros Hc. destruct (newly unc r) eqn:En;
      [|apply Hw; by rewrite andb_true_r in Hc].
    apply newly_true in En as [_ (c & Hc1 & Hc2)]. rewrite Hcs in Hc1.
    destruct (Hunc c Hc2) as (r1 & ? & <- & ?). eapply unsupported_callee; [|done..].
    by eapply list_elem_of_lookup_2.
  - rewrite block_row_covered. unfold block_row. destruct (newly unc r); [by rewrite andb_false_r|].
    rewrite andb_true_r. done.
Qed.

Lemma propagate_loop_spec fuel rows0 rows :
  count_if is_covered rows < fuel -> Forall2 (carried rows0) rows0 rows ->
  exists rows', propagate_loop fuel rows (uncovered_names rows) = Some rows'
    /\ Forall2 (carried rows0) rows0 rows'
    /\ forall r c, r ∈ rows' -> is_covered r = true -> c ∈ row_callees r -> c ∉ uncovered_names rows'.
Proof.
  revert rows. induction fuel as [|fuel IH]; intros rows Hfuel Hcar; [lia|]. cbn [propagate_loop].
  destruct (bfilter (newly (uncovered_names rows)) rows) as [|n new] eqn:En.
  - exists rows. split_and!; [done..|]. intros r c Hr Hc Hin Hu. rewrite bfilter_nil in En.
    apply En in Hr. apply not_true_iff_false in Hr. apply Hr, newly_true. eauto.
  - assert (Hdec : bfilter (newly (uncovered_names rows)) rows <> []) by by rewrite En.
    rewrite <- En, uncovered_names_round. apply IH; [|by apply carried_round].
    apply covered_decreases in Hdec. lia.
Qed.

Lemma carried_refl rows : Forall2 (carried rows) rows rows.
Proof.
  apply Forall2_same_length_lookup. split; [done|]. intros i x y Hx Hy. simplify_eq.
  split; try done. intros Hc. apply unsupported_itself; [by eapply list_elem_of_lookup_2|done].
Qed.

Lemma propagate_total rows :
  exists rows', propagate_loop (S (length rows)) rows (uncovered_names rows) = Some rows'
    /\ propagate_unverified_callees rows = rows'
    /\ Forall2 (carried rows) rows rows'
    /\ forall r c, r ∈ rows' -> is_covered r = true -> c ∈ row_callees r -> c ∉ uncovered_names rows'.
Proof.
  destruct (propagate_loop_spec (S (length rows)) rows rows) as (rows' & E & H); [|apply carried_refl|].
  - unfold count_if. pose proof (length_bfilter_le is_covered rows). lia.
  - exists rows'. unfold propagate_unverified_callees. by rewrite E.
Qed.

(** The rows that end uncovered are exactly those that rest on an uncovered one. *)
Lemma propagate_unsupported rows i r0 r :
  rows !! i = Some r0 -> propagate_unverified_callees rows !! i = Some r ->
  (is_covered r = false <-> unsupported rows r0).
Proof.
  destruct (propagate_total rows) as (rows' & _ & -> & Hcar & Hstable). intros Hi0 Hi.
  split; [by apply (Forall2_lookup_lr _ _ _ _ _ _ Hcar Hi0 Hi)|].
  intros Hu. revert i r Hi0 Hi. induction Hu as [r0 Hin Hc|r0 r1 Hin Hin1 Hcall Hu IH]; intros i r Hi0 Hi.
  - by apply (Forall2_lookup_lr _ _ _ _ _ _ Hcar Hi0 Hi).
  - destruct (is_covered r) eqn:Ec; [exfalso|done].
    destruct (Forall2_lookup_lr _ _ _ _ _ _ Hcar Hi0 Hi) as [_ Hcs _ _ _].
    apply list_elem_of_lookup in Hin1 as [j Hj].
    destruct (Forall2_lookup_l _ _ _ _ _ Hcar Hj) as (r1' & Hj' & [Hf _ _ _ _]).
    apply (Hstable r (row_function r1)); [by eapply list_elem_of_lookup_2|done|by rewrite Hcs|].
    apply elem_of_uncovered_names. exists r1'. split_and!; [by eapply list_elem_of_lookup_2| |done].
    by eapply IH.
Qed.

(** ** Lemmas: the verdict *)

Lemma count_if_every {A} (f : A -> bool) l : count_if f l = length l -> forall a, a ∈ l -> f a = true.
Proof. intros H. apply forallb_true, count_if_all. lia. Qed.

(** A conclusion that is evidence now. *)
Record current_evidence (current : string -> option string) (debug_str : string -> string)
    (digest : string) (target : option (string * VerificationProfile)) (loaded : option LoadedProject)
    (e : FunctionVerificationState) (receipt : json) : Prop := mkCurrentEvidence {
  ce_verified : status e = Verified;
  ce_receipt : proof_receipt e = Some receipt;
  ce_callees : stale_dependencies e = [];
  ce_environment : stale_proof_environment e = None;
  ce_project : receipt_matches_project receipt loaded = true;
  ce_sources : changed (receipt_source_drift current receipt) = [];
  ce_goals : forall prop, pointer ["wp"; "prop"; "effective"] receipt = Some prop -> prop = JNull;
  ce_function : names_function receipt (function e) = true;
  ce_target : forall name profile, target = Some (name, profile) ->
    verify_profile e = Some name /\
    profile_evidence_error digest debug_str name profile (function e) (Some receipt) = None;
}.

Lemma row_reason_None current debug_str digest e target loaded :
  row_reason debug_str digest e target
    (unwrap_or (receipt_source_drift current <$> proof_receipt e) no_drift) loaded = None ->
  exists receipt, current_evidence current debug_str digest target loaded e receipt.
Proof.
  unfold row_reason. rewrite !or_else_None. intros (((((Ht & Hp) & Hd) & He) & Hv) & Hr).
  unfold receipt_reason in Hr. destruct (proof_receipt e) as [receipt|] eqn:Er; [|done].
  simpl in Hp, Hr. exists receipt.
  destruct (is_stale _) eqn:Hs; [done|]. destruct (is_some_and _ _) eqn:Hn; [done|].
  destruct (receipt_names_function _ _) eqn:Hf; [|done].
  split; try done.
  - unfold verified in Hv. by case_bool_decide.
  - by case_bool_decide.
  - by destruct (stale_proof_environment e).
  - by destruct (receipt_matches_project receipt loaded).
  - unfold is_stale in Hs. apply negb_false_iff, bool_decide_eq_true_1 in Hs. done.
  - intros prop Hprop. rewrite is_some_and_false in Hn. apply Hn in Hprop. by destruct prop.
  - intros name profile ->. simpl in Ht. rewrite Er in Ht.
    destruct (verify_profile e =?s name) eqn:Ev; [|done]. apply opt_eqb_string_Some in Ev.
    split; [done|]. by destruct (profile_evidence_error _ _ _ _ _ _).
Qed.

Lemma covered_target current debug_str digest targets defined loaded c target f i :
  targets !! i = Some f ->
  (forall r, r ∈ coverage_rows current debug_str digest targets defined loaded c target ->
     is_covered r = true) ->
  f ∈ defined /\ exists e receipt,
    c !! f = Some e /\ current_evidence current debug_str digest target loaded e receipt.
Proof.
  intros Hi Hall. unfold coverage_rows in Hall.
  set (rows := map (target_row current debug_str digest defined c target loaded) targets) in *.
  destruct (propagate_total rows) as (rows' & _ & E & Hcar & _). rewrite E in Hall.
  assert (Hi0 : rows !! i = Some (target_row current debug_str digest defined c target loaded f)).
  { unfold rows. change (map ?g ?l) with (g <$> l). by rewrite list_lookup_fmap, Hi. }
  destruct (Forall2_lookup_l _ _ _ _ _ Hcar Hi0) as (r & Hr & Hc).
  assert (Hcov : is_covered r = true) by (apply Hall; by eapply list_elem_of_lookup_2).
  assert (Hrow := covered_same _ _ _ Hc Hcov). rewrite Hrow in Hcov. unfold target_row in Hcov.
  case_bool_decide as D; [|done]. split; [done|]. simpl in Hcov.
  destruct (c !! f) as [e|]; [|done]. simpl in Hcov. unfold is_covered in Hcov. simpl in Hcov.
  destruct (row_reason _ _ _ _ _ _) eqn:Er; [done|].
  apply row_reason_None in Er as [receipt H]. by exists e, receipt.
Qed.

(** ** Properties *)

(** Losing coverage spreads to callers and no further: after propagation a row is
    uncovered exactly when it was, or when it reaches an uncovered row of the report
    through calls of any depth; the others are left as they were.  Propagation ends
    on every report. *)
Theorem propagation_exact rows i r0 :
  rows !! i = Some r0 ->
  propagate_loop (S (length rows)) rows (uncovered_names rows) = Some (propagate_unverified_callees rows)
  /\ exists r, propagate_unverified_callees rows !! i = Some r
     /\ (is_covered r = false <-> unsupported rows r0) /\ (is_covered r = true -> r = r0).
Proof.
  intros Hi0. destruct (propagate_total rows) as (rows' & E & E' & Hcar & _). rewrite E'.
  split; [done|]. destruct (Forall2_lookup_l _ _ _ _ _ Hcar Hi0) as (r & Hr & Hc).
  exists r. split_and!; [done| |by apply Hc].
  apply (propagate_unsupported rows i); [done|by rewrite E'].
Qed.

Definition demo_row (f : string) (why : option string) (calls : list string) : Row :=
  mkRow f "verified" why None [] 0 [] 0 [] calls None.

Definition demo_rows : list Row :=
  [demo_row "main" None ["mid"]; demo_row "mid" None ["leaf"]; demo_row "leaf" (Some "failed") [];
   demo_row "other" None []].

Lemma propagation_exact_witness :
  propagate_loop (S (length demo_rows)) demo_rows (uncovered_names demo_rows)
    = Some (propagate_unverified_callees demo_rows)
  /\ exists r, propagate_unverified_callees demo_rows !! 0 = Some r
     /\ (is_covered r = false <-> unsupported demo_rows (demo_row "main" None ["mid"]))
     /\ (is_covered r = true -> r = demo_row "main" None ["mid"]).
Proof. apply (propagation_exact demo_rows 0). reflexivity. Defined.

Lemma demo_rows_covered : map is_covered (propagate_unverified_callees demo_rows) = [false; false; false; true].
Proof. vm_compute. reflexivity. Qed.

(** A report answers complete only when every target is defined in the project
    and has a verified conclusion that is evidence now, stale in no way, over the
    loaded program and its sources as they are, not narrowed to chosen properties,
    for the named profile when there is one; and when every goal of the receipts it
    counts is discharged and there is at least one. *)
Theorem complete_coverage_sound current debug_str digest targets declared defined loaded c target detail :
  get_str "verdict" (proof_coverage_report current debug_str digest targets declared defined loaded c
                       target detail) = Some "complete" ->
  targets <> []
  /\ (forall f, f ∈ targets -> f ∈ defined /\ exists e receipt,
        c !! f = Some e /\ current_evidence current debug_str digest target loaded e receipt)
  /\ let goals := measured_goals (coverage_rows current debug_str digest (btree_set targets) defined
                                    loaded c target) in
     goals <> [] /\ forall goal, goal ∈ goals -> receipt_goal_is_progress goal = true.
Proof.
  unfold proof_coverage_report. cbv zeta. set (rows := coverage_rows _ _ _ _ _ _ _ _).
  set (goals := measured_goals rows). unfold get_str, get. cbn [map_get String.eqb Ascii.eqb Bool.eqb].
  destruct (complete (btree_set targets) rows goals) eqn:E; [intros _|done].
  unfold complete in E. rewrite !andb_true_iff, negb_true_iff, !Nat.eqb_eq, Nat.ltb_lt in E.
  destruct E as (((Hne & Hrows) & Hgoals) & Hpos). apply bool_decide_eq_false_1 in Hne.
  assert (Hlen : length rows = length (btree_set targets)).
  { unfold rows, coverage_rows. set (rows0 := map _ (btree_set targets)).
    destruct (propagate_total rows0) as (rows' & _ & -> & Hcar & _).
    rewrite <- (Forall2_length _ _ _ Hcar). unfold rows0. by rewrite length_map. }
  rewrite <- Hlen in Hrows. split_and!.
  - intros ->. by destruct Hne.
  - intros f Hf. apply elem_of_btree_set, list_elem_of_lookup in Hf as [i Hi].
    apply (covered_target _ _ _ (btree_set targets) _ _ _ _ _ i); [done|]. by apply count_if_every.
  - intros H. fold goals in Hpos. rewrite H in Hpos. simpl in Hpos. lia.
  - by apply count_if_every.
Qed.

Definition demo_current (path : string) : option string :=
  if path =s "/p/f.c" then Some "ab" else None.

Definition demo_coverage_body : ProofReceiptBody :=
  mkProofReceiptBody "check" [JObj [("path", JStr "/p/f.c"); ("sha256", JStr "ab")]] (JObj []) (JStr "d")
    JNull (JObj []) (JObj []) (JObj [("functions", JArr [JStr "f"])]) (JObj [])
    [demo_receipt_goal "valid"] "wp" (JObj [("verdict", JStr "proved")]).

Definition demo_coverage_session : SessionState :=
  demo_store (mkUpdate "f" (Some Verified) None (Some demo_summary) None (Some [])
    (Some (written_receipt demo_text (fun s => s) "" demo_coverage_body)) None None) default_session.

Lemma complete_coverage_sound_witness :
  ["f"] <> []
  /\ (forall f, f ∈ ["f"] -> f ∈ ({["f"]} : gset string) /\ exists e receipt,
        conclusions demo_coverage_session !! f = Some e /\
        current_evidence demo_current (fun s => s) "" None
          (Some (mkLoadedProject ["/p/f.c"] (JObj []))) e receipt)
  /\ let goals := measured_goals (coverage_rows demo_current (fun s => s) "" (btree_set ["f"]) {["f"]}
                    (Some (mkLoadedProject ["/p/f.c"] (JObj []))) (conclusions demo_coverage_session) None) in
     goals <> [] /\ forall goal, goal ∈ goals -> receipt_goal_is_progress goal = true.
Proof.
  apply (complete_coverage_sound _ _ _ ["f"] [] _ _ _ _ Full). vm_compute. reflexivity.
Defined.
