(* ===== verification/GoalDiff.v ===== *)
(** * Comparing two runs (src/src/mcp/analysis.rs)

    What changed between the goals of a remembered receipt and those of a new one,
    matched by stable id, occurrence by occurrence. *)

From S2P Require Import Prelude RustStr BTree Json Status Verdicts Receipt.
From Stdlib Require Import SpecFloat.

Definition status_of (goal : json) : string := unwrap_or (get_str "status" goal) "unknown".

Definition fraction (numerator denominator : spec_float) : json := JNum (NFloat (f64_div numerator denominator)).

Definition progress (goals : list json) : json :=
  let proved := count_if receipt_goal_is_progress goals in
  JObj [("proved", jnat proved); ("total", jnat (length goals));
        ("fraction", match goals with
                     | [] => JNum (NFloat (f64_of_Z 0))
                     | _ => fraction (f64_of_Z (Z.of_nat proved)) (f64_of_Z (Z.of_nat (length goals)))
                     end)].

(** Each id's goals, in the order the receipt has them. *)
Definition add_goal (m : gmap string (list json)) (goal : json) : gmap string (list json) :=
  match get_str "stable_goal_id" goal with
  | Some id => <[id := unwrap_or (m !! id) [] ++ [goal]]> m
  | None => m
  end.

Definition goals_by_id (previous : list json) : gmap string (list json) := fold_left add_goal previous ∅.

(** How badly a candidate fits; the smallest wins, the first of equals. *)
Definition mismatch (now : string) (now_proved : bool) (candidate : json) : nat :=
  (if Bool.eqb (receipt_goal_is_progress candidate) now_proved then 0 else 2)
  + (if status_of candidate =s now then 0 else 1).

(** [enumerate().min_by_key(..)] and [remove]: the first best candidate and the
    others in their order. *)
Fixpoint take_best (key : json -> nat) (candidates : list json) : option (json * list json) :=
  match candidates with
  | [] => None
  | c :: rest =>
    match take_best key rest with
    | None => Some (c, rest)
    | Some (best, others) => if (key c <=? key best)%nat then Some (c, rest) else Some (best, c :: others)
    end
  end.

Record Diff := mkDiff {
  before : gmap string (list json);
  newly_proved : list json;
  newly_unproved : list json;
  status_changed : list json;
  appeared : list json;
  unchanged_count : nat;
  shared_total : nat;
  shared_proved_now : nat;
  shared_proved_before : nat;
}.

Definition diff_row (id now : string) (now_proved : bool) (earlier : option json) : json :=
  JObj [("stable_goal_id", JStr id); ("status", JStr now);
        ("was", jopt JStr (status_of <$> earlier));
        ("discharged", JBool now_proved);
        ("was_discharged", jopt JBool (receipt_goal_is_progress <$> earlier))].

Definition b2n (b : bool) : nat := if b then 1 else 0.

(** A goal with an earlier occurrence. *)
Definition shared_goal (d : Diff) (rest : gmap string (list json)) (row : json) (now : string)
    (now_proved : bool) (earlier : json) : Diff :=
  let was_proved := receipt_goal_is_progress earlier in
  let same_side := Bool.eqb now_proved was_proved in
  let same_status := status_of earlier =s now in
  mkDiff rest
    (if negb same_side && now_proved then newly_proved d ++ [row] else newly_proved d)
    (if negb same_side && negb now_proved then newly_unproved d ++ [row] else newly_unproved d)
    (if same_side && negb same_status then status_changed d ++ [row] else status_changed d)
    (appeared d)
    (if same_side && same_status then S (unchanged_count d) else unchanged_count d)
    (S (shared_total d)) (shared_proved_now d + b2n now_proved) (shared_proved_before d + b2n was_proved).

Definition new_goal (d : Diff) (row : json) : Diff :=
  mkDiff (before d) (newly_proved d) (newly_unproved d) (status_changed d) (appeared d ++ [row])
    (unchanged_count d) (shared_total d) (shared_proved_now d) (shared_proved_before d).

Definition diff_step (d : Diff) (goal : json) : Diff :=
  match get_str "stable_goal_id" goal with
  | None => d
  | Some id =>
    let now := status_of goal in
    let now_proved := receipt_goal_is_progress goal in
    match before d !! id ≫= take_best (mismatch now now_proved) with
    | None => new_goal d (diff_row id now now_proved None)
    | Some (earlier, others) =>
      shared_goal d (<[id := others]> (before d)) (diff_row id now now_proved (Some earlier))
        now now_proved earlier
    end
  end.

Definition compare_goals (previous current : list json) : Diff :=
  fold_left diff_step current (mkDiff (goals_by_id previous) [] [] [] [] 0 0 0 0).

(** What is left of the earlier run, in the order of the ids. *)
Definition left_over (d : Diff) : list (string * json) :=
  flat_map (fun id => map (pair id) (unwrap_or (before d !! id) []))
    (btree_set (map_to_list (before d)).*1).

Definition disappeared (d : Diff) : list json :=
  map (fun e => JObj [("stable_goal_id", JStr e.1); ("was", JStr (status_of e.2));
                      ("was_discharged", JBool (receipt_goal_is_progress e.2))]) (left_over d).

Definition proof_goal_diff (since : string) (previous current : list json) : json :=
  let d := compare_goals previous current in
  let comparable := (shared_total d =? length previous)%nat && (shared_total d =? length current)%nat in
  let fraction_delta :=
    if (shared_total d =? 0)%nat then JNum (NFloat (f64_of_Z 0))
    else fraction (f64_sub (f64_of_Z (Z.of_nat (shared_proved_now d)))
                           (f64_of_Z (Z.of_nat (shared_proved_before d))))
           (f64_of_Z (Z.of_nat (shared_total d))) in
  JObj [("since", JStr since);
        ("progress", JObj [("comparable", JBool comparable); ("fraction_delta", fraction_delta);
                           ("shared_total", jnat (shared_total d)); ("before", progress previous);
                           ("current", progress current)]);
        ("newly_proved", JArr (newly_proved d)); ("newly_unproved", JArr (newly_unproved d));
        ("status_changed", JArr (status_changed d)); ("appeared", JArr (appeared d));
        ("disappeared", JArr (disappeared d)); ("unchanged_count", jnat (unchanged_count d))].

(** ** Lemmas: the best candidate *)

Lemma take_best_None key l : take_best key l = None <-> l = [].
Proof.
  destruct l as [|c l]; simpl; [done|]. destruct (take_best key l) as [[b o]|]; [|done].
  by destruct (_ <=? _)%nat.
Qed.

Lemma take_best_Some key l best others :
  take_best key l = Some (best, others) ->
  best :: others ≡ₚ l /\ forall c, c ∈ l -> key best <= key c.
Proof.
  revert best others. induction l as [|x l IH]; intros best others; simpl; [done|].
  destruct (take_best key l) as [[b o]|] eqn:E.
  - destruct (IH _ _ eq_refl) as [Hp Hmin]. destruct (key x <=? key b)%nat eqn:Hk; bool_simpl.
    + intros [= <- <-]. split; [done|]. intros c [->|Hc]%elem_of_cons; [done|].
      specialize (Hmin c Hc). lia.
    + intros [= <- <-]. split; [rewrite <- Hp; apply perm_swap|].
      intros c [->|Hc]%elem_of_cons; [lia|by apply Hmin].
  - apply take_best_None in E as ->. intros [= <- <-]. split; [done|].
    by intros c ->%list_elem_of_singleton.
Qed.

(** ** Lemmas: grouping *)

Definition has_id (id : string) (goal : json) : bool := get_str "stable_goal_id" goal =?s id.

Lemma add_goals_lookup previous m id :
  unwrap_or (fold_left add_goal previous m !! id) [] = unwrap_or (m !! id) [] ++ bfilter (has_id id) previous.
Proof.
  revert m. induction previous as [|g previous IH]; intros m; simpl; [by rewrite app_nil_r|].
  rewrite IH. unfold has_id at 2, add_goal.
  destruct (get_str "stable_goal_id" g) as [i|] eqn:E; simpl; [|done].
  destruct (i =s id) eqn:Ei; bool_simpl.
  - subst. rewrite lookup_insert_eq. simpl. by rewrite <- app_assoc.
  - by rewrite lookup_insert_ne.
Qed.

Lemma goals_by_id_lookup previous id :
  unwrap_or (goals_by_id previous !! id) [] = bfilter (has_id id) previous.
Proof. unfold goals_by_id. by rewrite add_goals_lookup, lookup_empty. Qed.

(** ** Lemmas: accounting *)

Definition identified (goals : list json) : nat :=
  count_if (fun g => match get_str "stable_goal_id" g with Some _ => true | None => false end) goals.

(** How many earlier goals are still unmatched. *)
Definition remaining (m : gmap string (list json)) : nat :=
  list_sum (map (fun e => length e.2) (map_to_list m)).

Lemma list_sum_perm l l' : l ≡ₚ l' -> list_sum l = list_sum l'.
Proof. induction 1; simpl; lia. Qed.

Lemma remaining_insert m id c : remaining (<[id := c]> m) = length c + remaining (delete id m).
Proof.
  unfold remaining. rewrite <- insert_delete_eq.
  rewrite (list_sum_perm _ _ (fmap_Permutation (fun e : string * list json => length e.2) _ _
    (map_to_list_insert (delete id m) id c (lookup_delete_eq _ _)))).
  done.
Qed.

Lemma remaining_lookup m id c : m !! id = Some c -> remaining m = length c + remaining (delete id m).
Proof. intros H. rewrite <- remaining_insert. by rewrite insert_id. Qed.

Lemma remaining_add_goals previous m :
  remaining (fold_left add_goal previous m) = remaining m + identified previous.
Proof.
  unfold identified, count_if. revert m. induction previous as [|g previous IH]; intros m; simpl; [lia|].
  rewrite IH. unfold add_goal. destruct (get_str "stable_goal_id" g) as [id|]; simpl; [|done].
  rewrite remaining_insert, length_app. simpl. destruct (m !! id) as [c|] eqn:E; simpl.
  - rewrite (remaining_lookup _ _ _ E). lia.
  - rewrite delete_id by done. lia.
Qed.

Lemma flat_map_perm {A B} (f : A -> list B) l l' : l ≡ₚ l' -> flat_map f l ≡ₚ flat_map f l'.
Proof.
  induction 1; simpl; [done|by apply Permutation_app_head| |by etrans].
  rewrite !app_assoc. by rewrite (Permutation_app_comm (f y)).
Qed.

Lemma length_left_over d : length (left_over d) = remaining (before d).
Proof.
  unfold left_over, remaining.
  assert (Hp : btree_set (map_to_list (before d)).*1 ≡ₚ (map_to_list (before d)).*1).
  { apply NoDup_Permutation; [apply StronglySorted_str_lt_NoDup, sorted_btree_set
      |apply NoDup_fst_map_to_list|intros x; apply elem_of_btree_set]. }
  rewrite (Permutation_length (flat_map_perm _ _ _ Hp)). clear Hp.
  assert (Hl : forall e, e ∈ map_to_list (before d) -> before d !! e.1 = Some e.2)
    by (intros [k v] H; by apply elem_of_map_to_list).
  induction (map_to_list (before d)) as [|[k v] l IH]; csimpl; [done|].
  rewrite length_app, length_map, IH; [|intros e He; apply Hl; by right].
  assert (Hk := Hl (k, v) (list_elem_of_here _ _)). simpl in Hk. by rewrite Hk.
Qed.

(** What every step keeps. *)
Record accounted (goals : nat) (earlier : nat) (d : Diff) : Prop := mkAccounted {
  acc_shared : length (newly_proved d) + length (newly_unproved d) + length (status_changed d)
               + unchanged_count d = shared_total d;
  acc_current : shared_total d + length (appeared d) = goals;
  acc_before : shared_total d + remaining (before d) = earlier;
  acc_proved : shared_proved_now d + length (newly_unproved d)
               = shared_proved_before d + length (newly_proved d);
}.

Lemma diff_step_accounted n earlier d goal :
  accounted n earlier d ->
  accounted (n + match get_str "stable_goal_id" goal with Some _ => 1 | None => 0 end) earlier (diff_step d goal).
Proof.
  intros [Hs Hc Hb Hp]. unfold diff_step. destruct (get_str "stable_goal_id" goal) as [id|];
    [|rewrite Nat.add_0_r; by split].
  destruct (before d !! id) as [cands|] eqn:E; simpl.
  - destruct (take_best _ cands) as [[e others]|] eqn:Et.
    + apply take_best_Some in Et as [Hperm _]. apply Permutation_length in Hperm. simpl in Hperm.
      pose proof (remaining_lookup _ _ _ E) as Hr. unfold shared_goal.
      destruct (receipt_goal_is_progress goal), (receipt_goal_is_progress e), (status_of e =s status_of goal);
        simpl; split; simpl; rewrite ?length_app, ?remaining_insert; simpl; lia.
    + unfold new_goal. split; simpl; rewrite ?length_app; simpl; lia.
  - unfold new_goal. split; simpl; rewrite ?length_app; simpl; lia.
Qed.

Lemma compare_goals_accounted previous current :
  accounted (identified current) (identified previous) (compare_goals previous current).
Proof.
  unfold compare_goals.
  assert (H : forall n d, accounted n (identified previous) d ->
    accounted (n + identified current) (identified previous) (fold_left diff_step current d)).
  { unfold identified at 2, count_if. induction current as [|g current IH]; intros n d H; simpl;
      [by rewrite Nat.add_0_r|].
    apply (diff_step_accounted _ _ _ g) in H. apply IH in H. revert H.
    destruct (get_str "stable_goal_id" g); simpl; by rewrite <- Nat.add_assoc. }
  apply (H 0). split; simpl; [done|done| |done].
  unfold goals_by_id. rewrite remaining_add_goals. unfold remaining. by rewrite map_to_list_empty.
Qed.

(** ** Lemmas: reordering *)

Definition judged (goal : json) : string * bool := (status_of goal, receipt_goal_is_progress goal).

(** Goal for goal, what is left of the earlier run answers as what is to come. *)
Definition balanced (m : gmap string (list json)) (current : list json) : Prop :=
  forall id, map judged (unwrap_or (m !! id) []) ≡ₚ map judged (bfilter (has_id id) current).

Record quiet (d : Diff) : Prop := mkQuiet {
  quiet_proved : newly_proved d = [];
  quiet_unproved : newly_unproved d = [];
  quiet_status : status_changed d = [];
  quiet_appeared : appeared d = [];
}.

Lemma mismatch_zero goal c :
  mismatch (status_of goal) (receipt_goal_is_progress goal) c = 0 <-> judged c = judged goal.
Proof.
  unfold mismatch, judged. destruct (status_of c =s status_of goal) eqn:E; bool_simpl;
    destruct (receipt_goal_is_progress c), (receipt_goal_is_progress goal); simpl;
    split; try done; try (by rewrite E); try congruence.
Qed.

Lemma diff_step_quiet d goal current :
  balanced (before d) (goal :: current) -> quiet d ->
  balanced (before (diff_step d goal)) current /\ quiet (diff_step d goal).
Proof.
  intros Hb Hq. unfold diff_step. destruct (get_str "stable_goal_id" goal) as [id|] eqn:Eid.
  - assert (Hid : has_id id goal = true) by (unfold has_id; by apply opt_eqb_string_Some).
    pose proof (Hb id) as Hp. simpl in Hp. rewrite Hid in Hp. simpl in Hp.
    assert (Hin : judged goal ∈ map judged (unwrap_or (before d !! id) [])) by (rewrite Hp; left).
    change (map judged) with (fmap (M := list) judged) in Hin.
    apply list_elem_of_fmap in Hin as (c & Hj & Hc).
    destruct (before d !! id) as [cands|] eqn:E; simpl in Hc, Hp; [|by apply not_elem_of_nil in Hc].
    simpl. destruct (take_best _ cands) as [[e others]|] eqn:Et;
      [|apply take_best_None in Et; subst; by apply not_elem_of_nil in Hc].
    apply take_best_Some in Et as [Hperm Hmin]. specialize (Hmin c Hc).
    rewrite (proj2 (mismatch_zero goal c)) in Hmin by done.
    assert (He : judged e = judged goal) by (apply mismatch_zero; lia). split.
    + intros i. unfold shared_goal. simpl. destruct (decide (i = id)) as [->|Hne].
      * rewrite lookup_insert_eq. simpl. apply (Permutation_cons_inv (a := judged goal)).
        rewrite <- Hp, <- Hperm. simpl. by rewrite He.
      * rewrite lookup_insert_ne by done. rewrite Hb. simpl.
        destruct (has_id i goal) eqn:Ei; [|done]. unfold has_id in Ei.
        apply opt_eqb_string_Some in Ei. congruence.
    + injection He as Hs Hg. destruct Hq. unfold shared_goal.
      rewrite Hs, Hg, String.eqb_refl, Bool.eqb_reflx. by split.
  - split; [|done]. intros i. rewrite Hb. simpl. unfold has_id at 1. by rewrite Eid.
Qed.

Lemma steps_quiet current d :
  balanced (before d) current -> quiet d ->
  balanced (before (fold_left diff_step current d)) [] /\ quiet (fold_left diff_step current d).
Proof.
  revert d. induction current as [|g current IH]; intros d Hb Hq; simpl; [done|].
  destruct (diff_step_quiet _ _ _ Hb Hq). by apply IH.
Qed.

Lemma balanced_nil_left_over d : balanced (before d) [] -> left_over d = [].
Proof.
  intros Hb. unfold left_over. induction (btree_set _) as [|id l IH]; simpl; [done|]. rewrite IH.
  specialize (Hb id). simpl in Hb. symmetry in Hb. apply Permutation_nil_l in Hb.
  by destruct (unwrap_or (before d !! id) []).
Qed.

(** The lists of a comparison. *)
Definition TRANSITIONS : list string :=
  ["newly_proved"; "newly_unproved"; "status_changed"; "appeared"; "disappeared"].

(** ** Properties *)

(** A comparison accounts for every goal that has an id.  Each current one is
    newly proved, newly unproved, of another status, unchanged or new; each earlier
    one is matched or listed as gone; and the shared goals discharged now are those
    discharged before, plus the newly proved, less the newly unproved. *)
Theorem goal_diff_accounts previous current :
  let d := compare_goals previous current in
  length (newly_proved d) + length (newly_unproved d) + length (status_changed d)
    + unchanged_count d + length (appeared d) = identified current
  /\ shared_total d + length (disappeared d) = identified previous
  /\ shared_proved_now d + length (newly_unproved d)
     = shared_proved_before d + length (newly_proved d).
Proof.
  intros d. destruct (compare_goals_accounted previous current) as [Hs Hc Hb Hp]. fold d in Hs, Hc, Hb, Hp.
  unfold disappeared. rewrite length_map, length_left_over. lia.
Qed.

(** Reordering a receipt's goals, repeated ids included, manufactures no
    transition: compared with any permutation of itself a run has nothing newly
    proved, newly unproved, changed, new or gone. *)
Theorem reordered_goals_unchanged since previous current :
  current ≡ₚ previous ->
  Forall (fun k => get_arr k (proof_goal_diff since previous current) = Some []) TRANSITIONS.
Proof.
  intros Hp. destruct (steps_quiet current (mkDiff (goals_by_id previous) [] [] [] [] 0 0 0 0))
    as [Hb [Q1 Q2 Q3 Q4]]; [|done|].
  - intros id. simpl. rewrite goals_by_id_lookup.
    apply (fmap_Permutation judged). symmetry. by apply bfilter_perm.
  - fold (compare_goals previous current) in *. apply balanced_nil_left_over in Hb.
    unfold proof_goal_diff, disappeared. cbv zeta. rewrite Hb, Q1, Q2, Q3, Q4.
    repeat constructor.
Qed.

Definition demo_diff_goal (id status : string) : json :=
  JObj [("stable_goal_id", JStr id); ("status", JStr status); ("vacuously_proved", JBool false)].

Lemma reordered_goals_unchanged_witness :
  Forall (fun k => get_arr k (proof_goal_diff "h"
      [demo_diff_goal "a" "valid"; demo_diff_goal "a" "timeout"]
      [demo_diff_goal "a" "timeout"; demo_diff_goal "a" "valid"]) = Some []) TRANSITIONS.
Proof. apply reordered_goals_unchanged. apply Permutation_swap. Defined.
