(* ===== verification/Graph.v ===== *)
(** * Directed graphs and their strongly connected components

    The server orders a project's functions, and finds recursion and cycles in a lock
    order, with the crate petgraph.  [GraphOps] is
    what it calls of that crate and [GraphLaws] what its documentation promises of
    those calls; the components of a graph are specified for any type of node
    ([scc_partition]), so that the same words speak of node indices and of function
    names.  [list_graph] is a small implementation, with Warshall's closure, for
    which the laws are proved: they can be met, and examples can be run. *)

From S2P Require Import Prelude.
Local Open Scope nat_scope.

(** ** Strongly connected components *)

Definition mutual {A} (E : A -> A -> Prop) (u v : A) : Prop := rtc E u v /\ rtc E v u.

Record scc_partition {A} (nodes : list A) (E : A -> A -> Prop) (comps : list (list A)) : Prop := {
  scc_nodes : concat comps ≡ₚ nodes;
  scc_nonempty : forall c, c ∈ comps -> c <> [];
  scc_mutual : forall c u v, c ∈ comps -> u ∈ c -> v ∈ nodes -> (v ∈ c <-> mutual E u v);
}.

(** The arcs between components. *)
Definition quotient {A} (E : A -> A -> Prop) (comps : list (list A)) (i j : nat) : Prop :=
  i <> j /\ exists ci cj u v, comps !! i = Some ci /\ comps !! j = Some cj /\ u ∈ ci /\ v ∈ cj /\ E u v.

(** ** What is called of petgraph *)

Inductive Direction := Outgoing | Incoming.

Class GraphOps := {
  graph : Type -> Type;
  new_graph : forall N, graph N;
  add_node : forall N, N -> graph N -> graph N * nat;
  add_edge : forall N, nat -> nat -> graph N -> graph N;
  node_weights : forall N, graph N -> list N;
  edge_references : forall N, graph N -> list (nat * nat);
  contains_edge : forall N, graph N -> nat -> nat -> bool;
  neighbors_directed : forall N, graph N -> nat -> Direction -> list nat;
  tarjan_scc : forall N, graph N -> list (list nat);
  kosaraju_scc : forall N, graph N -> list (list nat);
  condensation : forall N, graph N -> bool -> graph (list N);
}.
Arguments new_graph {_ _}.
Arguments add_node {_ _}.
Arguments add_edge {_ _}.
Arguments node_weights {_ _}.
Arguments edge_references {_ _}.
Arguments contains_edge {_ _}.
Arguments neighbors_directed {_ _}.
Arguments tarjan_scc {_ _}.
Arguments kosaraju_scc {_ _}.
Arguments condensation {_ _}.

Section views.
Context `{GraphOps}.

(** Indices count from 0 and nodes are never removed. *)
Definition node_count {N} (g : graph N) : nat := length (node_weights g).
Definition node_indices {N} (g : graph N) : list nat := seq 0 (node_count g).

(** [graph\[n\]]: no weight, no answer (the crate panics). *)
Definition weight {N} (g : graph N) (n : nat) : option N := node_weights g !! n.

Definition arc {N} (g : graph N) (u v : nat) : Prop := (u, v) ∈ edge_references g.
Definition in_range {N} (g : graph N) : Prop :=
  forall u v, arc g u v -> u < node_count g /\ v < node_count g.

Definition arcs_from (u : nat) (es : list (nat * nat)) : list nat := (filter (fun e => e.1 = u) es).*2.
Definition arcs_to (v : nat) (es : list (nat * nat)) : list nat := (filter (fun e => e.2 = v) es).*1.
End views.

Class GraphLaws `{GraphOps} : Prop := {
  new_graph_weights N : node_weights (@new_graph _ N) = [];
  new_graph_edges N : edge_references (@new_graph _ N) = [];
  add_node_weights N (w : N) g : node_weights (add_node w g).1 = node_weights g ++ [w];
  add_node_edges N (w : N) g : edge_references (add_node w g).1 = edge_references g;
  add_node_index N (w : N) g : (add_node w g).2 = node_count g;
  add_edge_weights N u v (g : graph N) : node_weights (add_edge u v g) = node_weights g;
  add_edge_edges N u v (g : graph N) : u < node_count g -> v < node_count g ->
    edge_references (add_edge u v g) = edge_references g ++ [(u, v)];
  contains_edge_spec N (g : graph N) u v : contains_edge g u v = true <-> arc g u v;
  neighbors_outgoing N (g : graph N) u : neighbors_directed g u Outgoing ≡ₚ arcs_from u (edge_references g);
  neighbors_incoming N (g : graph N) v : neighbors_directed g v Incoming ≡ₚ arcs_to v (edge_references g);
  tarjan_scc_spec N (g : graph N) : in_range g -> scc_partition (node_indices g) (arc g) (tarjan_scc g);
  kosaraju_scc_spec N (g : graph N) : in_range g -> scc_partition (node_indices g) (arc g) (kosaraju_scc g);
  condensation_spec N (g : graph N) : in_range g -> exists comps,
    scc_partition (node_indices g) (arc g) comps /\
    Forall2 (fun c names => mapM (weight g) c = Some names) comps (node_weights (condensation g true)) /\
    NoDup (edge_references (condensation g true)) /\
    forall i j, arc (condensation g true) i j <-> quotient (arc g) comps i j;
}.

(** ** A small implementation *)

Record ListGraph (N : Type) := mkListGraph { lg_weights : list N; lg_edges : list (nat * nat) }.
Arguments mkListGraph {N}.
Arguments lg_weights {N}.
Arguments lg_edges {N}.

Section warshall.
Variable es : list (nat * nat).

(** [warshall k u v]: a path from [u] to [v] with only nodes below [k] between. *)
Fixpoint warshall (k u v : nat) : bool :=
  match k with
  | O => bool_decide (u = v) || bool_decide ((u, v) ∈ es)
  | S k => warshall k u v || (warshall k u k && warshall k k v)
  end.
End warshall.

Definition lg_reach {N} (g : ListGraph N) : nat -> nat -> bool :=
  warshall (lg_edges g) (length (lg_weights g)).
Definition lg_component {N} (g : ListGraph N) (u : nat) : list nat :=
  bfilter (fun v => lg_reach g u v && lg_reach g v u) (seq 0 (length (lg_weights g))).
Definition lg_components {N} (g : ListGraph N) : list (list nat) :=
  collect_some (fun u => let c := lg_component g u in
    then_some (bool_decide (head c = Some u)) c) (seq 0 (length (lg_weights g))).

Definition lg_joined {N} (g : ListGraph N) (comps : list (list nat)) (e : nat * nat) : bool :=
  negb (e.1 =? e.2) && existsb (fun a =>
    bool_decide (a.1 ∈ unwrap_or (comps !! e.1) []) && bool_decide (a.2 ∈ unwrap_or (comps !! e.2) []))
    (lg_edges g).

Definition lg_condensation {N} (g : ListGraph N) : ListGraph (list N) :=
  let comps := lg_components g in
  mkListGraph (map (collect_some (fun u => lg_weights g !! u)) comps)
    (remove_dups (bfilter (lg_joined g comps)
       (list_prod (seq 0 (length comps)) (seq 0 (length comps))))).

Definition list_graph : GraphOps := {|
  graph := ListGraph;
  new_graph N := mkListGraph [] [];
  add_node N w g := (mkListGraph (lg_weights g ++ [w]) (lg_edges g), length (lg_weights g));
  add_edge N u v g := mkListGraph (lg_weights g) (lg_edges g ++ [(u, v)]);
  node_weights N := lg_weights;
  edge_references N := lg_edges;
  contains_edge N g u v := bool_decide ((u, v) ∈ lg_edges g);
  neighbors_directed N g u d :=
    match d with Outgoing => arcs_from u (lg_edges g) | Incoming => arcs_to u (lg_edges g) end;
  tarjan_scc N := lg_components;
  kosaraju_scc N := lg_components;
  condensation N g _ := lg_condensation g;
|}.

(** ** Lemmas: components *)

Lemma mutual_refl {A} (E : A -> A -> Prop) u : mutual E u u.
Proof. split; apply rtc_refl. Qed.

Lemma mutual_sym {A} (E : A -> A -> Prop) u v : mutual E u v -> mutual E v u.
Proof. by intros [? ?]. Qed.

Lemma mutual_trans {A} (E : A -> A -> Prop) u v w : mutual E u v -> mutual E v w -> mutual E u w.
Proof. intros [? ?] [? ?]. split; by eapply rtc_trans. Qed.

Lemma concat_index_unique {A} (l : list (list A)) i j a b x :
  NoDup (concat l) -> l !! i = Some a -> l !! j = Some b -> x ∈ a -> x ∈ b -> i = j.
Proof.
  revert i j. induction l as [|c l IH]; intros i j Hnd Hi Hj Ha Hb; [done|].
  simpl in Hnd. apply NoDup_app in Hnd as (_ & Hd & Hnd).
  assert (Hin : forall k d, l !! k = Some d -> x ∈ d -> x ∈ concat l).
  { intros k d Hk Hd'. apply list_elem_of_In, in_concat. exists d.
    rewrite <- !list_elem_of_In. split; [by eapply list_elem_of_lookup_2|done]. }
  destruct i as [|i], j as [|j]; simpl in *; [done| | |f_equal; by eapply IH].
  - injection Hi as <-. exfalso. by eapply Hd; [|eapply Hin].
  - injection Hj as <-. exfalso. by eapply Hd; [|eapply Hin].
Qed.

Section partition.
Context {A : Type} (nodes : list A) (E : A -> A -> Prop) (comps : list (list A)).
Hypothesis Hp : scc_partition nodes E comps.
Hypothesis Hnd : NoDup nodes.

Lemma partition_NoDup : NoDup (concat comps).
Proof. by rewrite (scc_nodes _ _ _ Hp). Qed.

Lemma partition_in i c x : comps !! i = Some c -> x ∈ c -> x ∈ nodes.
Proof.
  intros Hc Hx. rewrite <- (scc_nodes _ _ _ Hp). apply list_elem_of_In, in_concat.
  exists c. rewrite <- !list_elem_of_In. split; [by eapply list_elem_of_lookup_2|done].
Qed.

Lemma partition_has x : x ∈ nodes -> exists i c, comps !! i = Some c /\ x ∈ c.
Proof.
  intros Hx. rewrite <- (scc_nodes _ _ _ Hp) in Hx. apply list_elem_of_In, in_concat in Hx as (c & Hc & Hx).
  apply list_elem_of_In, list_elem_of_lookup in Hc as [i Hi]. exists i, c. by rewrite list_elem_of_In.
Qed.

Lemma partition_mutual i j ci cj u v :
  comps !! i = Some ci -> comps !! j = Some cj -> u ∈ ci -> v ∈ cj -> (i = j <-> mutual E u v).
Proof.
  intros Hi Hj Hu Hv.
  rewrite <- (scc_mutual _ _ _ Hp ci u v); [|by eapply list_elem_of_lookup_2|done|by eapply partition_in].
  split; [intros ->; congruence|]. intros Hv'. eapply concat_index_unique; eauto using partition_NoDup.
Qed.

Lemma partition_elem_of i c : comps !! i = Some c -> NoDup c.
Proof.
  intros Hc. apply list_elem_of_lookup_2 in Hc. apply list_elem_of_In, in_split in Hc as (l1 & l2 & Hl).
  pose proof partition_NoDup as Hd. rewrite Hl, concat_app in Hd. simpl in Hd.
  apply NoDup_app in Hd as (_ & _ & Hd). by apply NoDup_app in Hd as (Hd & _ & _).
Qed.

(** A component is a cycle when it has two nodes, or one with an arc to itself. *)
Lemma partition_cycle i c u : (forall x y, E x y -> x ∈ nodes /\ y ∈ nodes) ->
  comps !! i = Some c -> u ∈ c -> (2 <= length c \/ E u u <-> tc E u u).
Proof.
  intros HE Hc Hu. split.
  - intros [Hl|Hs]; [|by apply tc_once].
    assert (exists v, v ∈ c /\ v <> u) as (v & Hv & Hne).
    { pose proof (partition_elem_of i c Hc) as Hd. destruct c as [|x [|y c]]; simpl in Hl; [lia|lia|].
      apply NoDup_cons in Hd as [Hxy _]. pose proof Hu as [->|Hu']%elem_of_cons.
      - exists y. split; [right; left|]. intros ->. apply Hxy. left.
      - exists x. split; [left|]. by intros ->. }
    destruct (proj1 (partition_mutual i i c c u v Hc Hc Hu Hv) eq_refl) as [Huv Hvu].
    apply rtc_tc in Huv as [->|Huv]; [done|]. by eapply tc_rtc_r.
  - intros Ht. destruct (decide (2 <= length c)) as [?|Hl]; [by left|]. right.
    assert (exists k, E u k /\ rtc E k u) as (k & Huk & Hku).
    { inversion Ht; subst; eauto using rtc_refl, tc_rtc. }
    assert (Hk : k ∈ c).
    { apply (scc_mutual _ _ _ Hp c u k); [by eapply list_elem_of_lookup_2|done|by apply (HE u k)|].
      split; [by apply rtc_once|done]. }
    destruct c as [|x [|y c]]; simpl in Hl; [by inversion Hu| |lia].
    apply list_elem_of_singleton in Hu, Hk. congruence.
Qed.

(** A path of components is a path between any two of their nodes. *)
Lemma quotient_path i j ci cj u v :
  tc (quotient E comps) i j -> comps !! i = Some ci -> comps !! j = Some cj -> u ∈ ci -> v ∈ cj ->
  rtc E u v.
Proof.
  intros Hij. revert ci u. induction Hij as [i j Hq|i k j Hq _ IH]; intros ci u Hi Hj Hu Hv;
    destruct Hq as (_ & di & dj & x & y & Hdi & Hdj & Hx & Hy & Hxy); simplify_eq.
  - destruct (proj1 (partition_mutual i i di di u x Hdi Hdi Hu Hx) eq_refl) as [Hux _].
    destruct (proj1 (partition_mutual j j dj dj y v Hdj Hdj Hy Hv) eq_refl) as [Hyv _].
    eapply rtc_trans; [done|]. by eapply rtc_l.
  - destruct (proj1 (partition_mutual i i di di u x Hdi Hdi Hu Hx) eq_refl) as [Hux _].
    eapply rtc_trans; [done|]. eapply rtc_l; [done|]. by eapply IH.
Qed.

Lemma quotient_acyclic i : ~ tc (quotient E comps) i i.
Proof.
  intros Hc. assert (Hstep : exists k, quotient E comps i k /\ (k = i \/ tc (quotient E comps) k i)).
  { inversion Hc; subst; eauto. }
  destruct Hstep as (k & Hq & [->|Hk]); [by destruct Hq|].
  pose proof Hq as (Hne & ci & ck & u & v & Hi & Hk' & Hu & Hv & _).
  apply Hne. apply (partition_mutual i k ci ck u v Hi Hk' Hu Hv). split.
  - eapply (quotient_path i k); eauto using tc_once.
  - eapply (quotient_path k i); eauto.
Qed.

Lemma quotient_in_range i j : quotient E comps i j -> i < length comps /\ j < length comps.
Proof. intros (_ & ci & cj & _ & _ & Hi & Hj & _). eauto using lookup_lt_Some. Qed.

(** Calling out of a component ends: the arcs between components are well-founded. *)
Lemma quotient_sn i : sn (quotient E comps) i.
Proof.
  apply tc_finite_sn.
  - intros j Hj. by apply (quotient_acyclic j).
  - exists (seq 0 (length comps)). intros j Hj. apply elem_of_seq.
    assert (exists k, quotient E comps k j) as [k Hk].
    { apply tc_nsteps in Hj as ([|n] & Hn & Hs); [lia|]. apply nsteps_inv_r in Hs as (k & _ & Hk). eauto. }
    apply quotient_in_range in Hk. lia.
Qed.
End partition.

(** ** Lemmas: the small implementation meets the laws *)

Section closure.
Variable es : list (nat * nat).
Let E (u v : nat) : Prop := (u, v) ∈ es.

Lemma warshall_sound k u v : warshall es k u v = true -> rtc E u v.
Proof.
  revert u v. induction k as [|k IH]; intros u v; simpl; rewrite ?orb_true_iff, ?andb_true_iff.
  - rewrite !bool_decide_eq_true. intros [->|H]; [apply rtc_refl|by apply rtc_once].
  - intros [H|[H1 H2]]; [by apply IH|]. eapply rtc_trans; by apply IH.
Qed.

Lemma warshall_mono k u v : warshall es 0 u v = true -> warshall es k u v = true.
Proof. induction k as [|k IH]; [done|]. intros H. simpl. by rewrite (IH H). Qed.

Lemma warshall_trans k m u v :
  m < k -> warshall es k u m = true -> warshall es k m v = true -> warshall es k u v = true.
Proof.
  revert m u v. induction k as [|k IH]; intros m u v Hm; [lia|]. simpl.
  rewrite !orb_true_iff, !andb_true_iff. destruct (decide (m = k)) as [->|Hne].
  - intros [?|[? ?]] [?|[? ?]]; tauto.
  - assert (Hk : m < k) by lia.
    intros [H1|[H1 H1']] [H2|[H2 H2']]; [left|right; split..].
    + by apply (IH m).
    + by apply (IH m).
    + done.
    + done.
    + by apply (IH m).
    + done.
    + done.
Qed.

Lemma warshall_complete n u v :
  (forall a b, E a b -> a < n /\ b < n) -> rtc E u v -> warshall es n u v = true.
Proof.
  intros Hr. induction 1 as [u|u m v Hum _ IH].
  - apply warshall_mono. simpl. by rewrite bool_decide_true.
  - apply (warshall_trans n m); [by apply (Hr u m)| |done].
    apply warshall_mono. simpl. rewrite (bool_decide_true ((u, m) ∈ es)) by done. apply orb_true_r.
Qed.
End closure.

Lemma NoDup_concat_collect {A B} (f : A -> option (list B)) (l : list A) :
  NoDup l -> (forall a c, f a = Some c -> NoDup c) ->
  (forall a b c d x, f a = Some c -> f b = Some d -> x ∈ c -> x ∈ d -> a = b) ->
  NoDup (concat (collect_some f l)).
Proof.
  intros Hl Hc Hd. induction Hl as [|a l Ha Hl IH]; simpl; [constructor|].
  destruct (f a) as [c|] eqn:Hf; simpl; [|done]. apply NoDup_app. split_and!; [by eapply Hc| |done].
  intros x Hx Hx'. apply list_elem_of_In, in_concat in Hx' as (d & Hd' & Hx').
  apply list_elem_of_In, elem_of_collect_some in Hd' as (b & Hb & Hfb).
  apply Ha. rewrite list_elem_of_In in *. by rewrite (Hd a b c d x) by (done || by apply list_elem_of_In).
Qed.

Section components.
Context {N : Type} (g : ListGraph N).
Let n := length (lg_weights g).
Let E (u v : nat) : Prop := (u, v) ∈ lg_edges g.
Hypothesis Hr : forall u v, E u v -> u < n /\ v < n.

Lemma lg_reach_spec u v : lg_reach g u v = true <-> rtc E u v.
Proof. split; [apply warshall_sound|by apply warshall_complete]. Qed.

Lemma lg_component_spec u v : v ∈ lg_component g u <-> v < n /\ mutual E u v.
Proof.
  unfold lg_component. rewrite elem_of_bfilter, elem_of_seq, andb_true_iff, !lg_reach_spec.
  unfold mutual. intuition lia.
Qed.

Lemma lg_component_eq u v : mutual E u v -> lg_component g u = lg_component g v.
Proof.
  intros Huv. unfold lg_component. induction (seq 0 _) as [|w l IH]; simpl; [done|].
  rewrite IH. replace (lg_reach g u w && lg_reach g w u) with (lg_reach g v w && lg_reach g w v); [done|].
  apply eq_true_iff_eq. rewrite !andb_true_iff, !lg_reach_spec. fold (mutual E v w) (mutual E u w).
  split; eauto using mutual_trans, mutual_sym.
Qed.

Lemma elem_of_lg_components c :
  c ∈ lg_components g <-> exists u, u < n /\ c = lg_component g u /\ head c = Some u.
Proof.
  unfold lg_components. rewrite elem_of_collect_some. setoid_rewrite elem_of_seq.
  setoid_rewrite then_some_Some. setoid_rewrite bool_decide_eq_true.
  split; [intros (u & Hu & ? & <-)|intros (u & Hu & -> & ?)]; exists u; repeat split; done || lia.
Qed.

Lemma lg_components_NoDup : NoDup (concat (lg_components g)).
Proof.
  apply NoDup_concat_collect; [apply NoDup_seq| |].
  - intros u c (_ & <-)%then_some_Some. unfold lg_component.
    eapply sublist_NoDup; [apply (NoDup_seq 0)|apply bfilter_sublist].
  - intros u v c d x (Hu & <-)%then_some_Some (Hv & <-)%then_some_Some.
    apply bool_decide_eq_true in Hu, Hv. intros [_ Hx]%lg_component_spec [_ Hx']%lg_component_spec.
    rewrite (lg_component_eq u v) in Hu by eauto using mutual_trans, mutual_sym. congruence.
Qed.

Lemma lg_components_spec : scc_partition (seq 0 n) E (lg_components g).
Proof.
  split.
  - apply NoDup_Permutation; [apply lg_components_NoDup|apply NoDup_seq|].
    intros v. rewrite elem_of_seq, list_elem_of_In, in_concat. setoid_rewrite <- list_elem_of_In.
    setoid_rewrite elem_of_lg_components. split.
    + intros (c & (u & _ & -> & _) & [? _]%lg_component_spec). lia.
    + intros Hv. assert (Hin : v ∈ lg_component g v) by (apply lg_component_spec; split; [lia|apply mutual_refl]).
      exists (lg_component g v). split; [|done]. destruct (lg_component g v) as [|u c] eqn:Hc; [by inversion Hin|].
      assert (Hu : u ∈ lg_component g v) by (rewrite Hc; left). apply lg_component_spec in Hu as [Hu Hm].
      exists u. split_and!; [done| |done]. by rewrite <- Hc, (lg_component_eq v u).
  - intros c (u & _ & _ & Hh)%elem_of_lg_components ->. done.
  - intros c u v (w & _ & -> & _)%elem_of_lg_components [Hu Hwu]%lg_component_spec Hv%elem_of_seq.
    rewrite lg_component_spec. split; [intros [_ ?]|intros ?; split; [lia|]]; eauto using mutual_trans, mutual_sym.
Qed.

Lemma lg_condensation_arc i j :
  (i, j) ∈ lg_edges (lg_condensation g) <-> quotient E (lg_components g) i j.
Proof.
  unfold lg_condensation, quotient. simpl.
  rewrite elem_of_remove_dups, elem_of_bfilter, list_elem_of_In, in_prod_iff, <- !list_elem_of_In, !elem_of_seq.
  unfold lg_joined. simpl. rewrite andb_true_iff, negb_true_iff, Nat.eqb_neq, existsb_true.
  split.
  - intros ((Hi & Hj) & Hne & [u v] & Huv & H). split; [done|].
    destruct (lookup_lt_is_Some_2 (lg_components g) i) as [ci Hci]; [lia|].
    destruct (lookup_lt_is_Some_2 (lg_components g) j) as [cj Hcj]; [lia|].
    rewrite Hci, Hcj in H. simpl in H. rewrite andb_true_iff, !bool_decide_eq_true in H.
    exists ci, cj, u, v. tauto.
  - intros (Hne & ci & cj & u & v & Hi & Hj & Hu & Hv & Huv).
    apply lookup_lt_Some in Hi as Hi'. apply lookup_lt_Some in Hj as Hj'.
    split; [lia|]. split; [done|]. exists (u, v). split; [done|]. simpl. rewrite Hi, Hj. simpl.
    by rewrite andb_true_iff, !bool_decide_eq_true.
Qed.
End components.

#[export] Instance list_graph_laws : @GraphLaws list_graph.
Proof.
  split; try done.
  - intros N g u v. apply bool_decide_eq_true.
  - intros N g Hr. by apply lg_components_spec.
  - intros N g Hr. by apply lg_components_spec.
  - intros N g Hr. exists (lg_components g). split_and!.
    + by apply lg_components_spec.
    + simpl. apply Forall2_fmap_r, Forall_Forall2_diag, Forall_forall.
      intros c Hin. apply elem_of_lg_components in Hin as (u & _ & -> & _).
      assert (Hc : forall v, v ∈ lg_component g u -> is_Some (lg_weights g !! v)).
      { intros v Hv. apply (lg_component_spec g Hr) in Hv as [Hv _]. by apply lookup_lt_is_Some. }
      unfold weight. simpl. induction (lg_component g u) as [|v c IH]; simpl; [done|].
      destruct (Hc v) as [w ->]; [left|]. simpl. rewrite IH; [done|]. intros x Hx. apply Hc. by right.
    + apply NoDup_remove_dups.
    + intros i j. by apply lg_condensation_arc.
Qed.

(** A partition stays one when its components and their members are reordered. *)
Lemma scc_partition_perm {A} (nodes : list A) (E : A -> A -> Prop) comps comps1 comps2 :
  Forall2 Permutation comps comps1 -> comps1 ≡ₚ comps2 ->
  scc_partition nodes E comps -> scc_partition nodes E comps2.
Proof.
  intros H1 H2 Hp.
  assert (Hin : forall c2, c2 ∈ comps2 -> exists c, c ∈ comps /\ c ≡ₚ c2).
  { intros c2 Hc2. rewrite <- H2 in Hc2. apply list_elem_of_lookup in Hc2 as [i Hi].
    destruct (Forall2_lookup_r _ _ _ _ _ H1 Hi) as (c & Hc & Hcc). exists c. split; [|done].
    by eapply list_elem_of_lookup_2. }
  split.
  - rewrite <- H2, <- (scc_nodes _ _ _ Hp). clear -H1. induction H1 as [|x y l l' Hxy _ IH]; simpl; [done|].
    by rewrite Hxy, IH.
  - intros c2 (c & Hc & Hcc)%Hin ->. apply Permutation_nil_r in Hcc. by apply (scc_nonempty _ _ _ Hp c).
  - intros c2 u v (c & Hc & Hcc)%Hin. rewrite <- Hcc. by apply (scc_mutual _ _ _ Hp c).
Qed.

(** ** Lemmas: from node indices to node weights *)

Lemma omap_lookup_seq {A} (l : list A) : omap (fun i => l !! i) (seq 0 (length l)) = l.
Proof.
  induction l as [|x l IH]; [done|].
  assert (H : forall k : list nat, omap (M := list) (fun i => (x :: l) !! i) (S <$> k) = omap (fun i => l !! i) k).
  { induction k as [|i k IHk]; [done|]. simpl. destruct (l !! i); [f_equal|]; exact IHk. }
  simpl. f_equal. rewrite <- IH at 2. rewrite <- H, fmap_S_seq. done.
Qed.

Lemma mapM_omap {A B} (f : A -> option B) l k : mapM f l = Some k -> omap f l = k.
Proof.
  revert k. induction l as [|x l IH]; intros k; simpl; [by intros [= <-]|].
  destruct (f x) as [y|]; simpl; [|done]. destruct (mapM f l) as [k'|]; simpl; [|done].
  intros [= <-]. f_equal. by apply IH.
Qed.

Section labels.
Context {A : Type} (W : list A) (R : nat -> nat -> Prop) (S : A -> A -> Prop).
Hypothesis HW : NoDup W.
Hypothesis HR : forall u v, R u v <-> exists a b, W !! u = Some a /\ W !! v = Some b /\ S a b.
Hypothesis HS : forall a b, S a b -> a ∈ W /\ b ∈ W.

Lemma labels_path u v a b : W !! u = Some a -> W !! v = Some b -> (rtc R u v <-> rtc S a b).
Proof.
  intros Hu Hv. split.
  - intros Hp. revert a Hu. induction Hp as [u|u k v Huk _ IH]; intros a Hu; [simplify_eq; apply rtc_refl|].
    apply HR in Huk as (a' & c & Ha & Hc & Hac). simplify_eq. eapply rtc_l; eauto.
  - intros Hp. revert u Hu. induction Hp as [a|a c b Hac _ IH]; intros u Hu.
    + rewrite (NoDup_lookup W u v a) by done. apply rtc_refl.
    + destruct (HS a c Hac) as [_ [k Hk]%list_elem_of_lookup]. eapply rtc_l; [apply HR; eauto|]. by apply IH.
Qed.

Lemma labels_mutual u v a b : W !! u = Some a -> W !! v = Some b -> (mutual R u v <-> mutual S a b).
Proof. intros Hu Hv. unfold mutual. by rewrite (labels_path u v a b), (labels_path v u b a). Qed.

Context (comps : list (list nat)) (ns : list (list A)).
Hypothesis Hns : Forall2 (fun c names => mapM (fun u => W !! u) c = Some names) comps ns.

Lemma labels_lookup i c names : comps !! i = Some c -> ns !! i = Some names ->
  mapM (fun u => W !! u) c = Some names.
Proof. intros Hc Hn. by apply (Forall2_lookup_lr _ _ _ _ _ _ Hns Hc Hn). Qed.

Lemma labels_elem i c names a : comps !! i = Some c -> ns !! i = Some names ->
  (a ∈ names <-> exists u, u ∈ c /\ W !! u = Some a).
Proof.
  intros Hc Hn. pose proof (labels_lookup i c names Hc Hn) as Hm.
  rewrite <- (mapM_omap _ _ _ Hm). apply list_elem_of_omap.
Qed.

Lemma labels_elem_index i c names u a : W !! u = Some a -> comps !! i = Some c -> ns !! i = Some names ->
  (a ∈ names <-> u ∈ c).
Proof.
  intros Hu Hc Hn. rewrite (labels_elem i c names a Hc Hn). split; [|by exists u].
  intros (v & Hv & Hva). by rewrite (NoDup_lookup W u v a).
Qed.

Lemma labels_concat : concat ns = omap (fun u => W !! u) (concat comps).
Proof.
  clear HW HR HS. induction Hns as [|c names cs nss Hc Hcs IH]; simpl; [done|].
  rewrite omap_app, (mapM_omap _ _ _ Hc). f_equal. by apply IH.
Qed.

Lemma labels_partition : scc_partition (seq 0 (length W)) R comps -> scc_partition W S ns.
Proof.
  intros Hp. split.
  - rewrite <- (omap_lookup_seq W), <- (scc_nodes _ _ _ Hp), labels_concat. done.
  - intros names [i Hi]%list_elem_of_lookup ->.
    destruct (Forall2_lookup_r _ _ _ _ _ Hns Hi) as (c & Hc & Hm).
    apply (scc_nonempty _ _ _ Hp c); [by eapply list_elem_of_lookup_2|].
    apply length_mapM in Hm. by apply nil_length_inv.
  - intros names a b [i Hi]%list_elem_of_lookup Ha [v Hv]%list_elem_of_lookup.
    destruct (Forall2_lookup_r _ _ _ _ _ Hns Hi) as (c & Hc & Hm).
    apply (labels_elem i c names a Hc Hi) in Ha as (u & Hu & Hua).
    rewrite (labels_elem_index i c names v b Hv Hc Hi), <- (labels_mutual u v a b Hua Hv).
    apply (scc_mutual _ _ _ Hp); [by eapply list_elem_of_lookup_2|done|].
    apply elem_of_seq. apply lookup_lt_Some in Hv. lia.
Qed.

Lemma labels_quotient i j : quotient R comps i j <-> quotient S ns i j.
Proof.
  unfold quotient. split; intros (Hne & H); (split; [done|]).
  - destruct H as (ci & cj & u & v & Hi & Hj & Hu & Hv & Huv).
    apply HR in Huv as (a & b & Ha & Hb & Hab).
    destruct (Forall2_lookup_l _ _ _ _ _ Hns Hi) as (ni & Hni & _).
    destruct (Forall2_lookup_l _ _ _ _ _ Hns Hj) as (nj & Hnj & _).
    exists ni, nj, a, b. split_and!; try done.
    + by apply (labels_elem_index i ci ni u a).
    + by apply (labels_elem_index j cj nj v b).
  - destruct H as (ni & nj & a & b & Hi & Hj & Ha & Hb & Hab).
    destruct (Forall2_lookup_r _ _ _ _ _ Hns Hi) as (ci & Hci & _).
    destruct (Forall2_lookup_r _ _ _ _ _ Hns Hj) as (cj & Hcj & _).
    apply (labels_elem i ci ni a Hci Hi) in Ha as (u & Hu & Hua).
    apply (labels_elem j cj nj b Hcj Hj) in Hb as (v & Hv & Hvb).
    exists ci, cj, u, v. split_and!; try done. apply HR. eauto.
Qed.
End labels.
