(* ===== verification/Topo.v ===== *)
(** * The verification order (src/topo.rs)

    Callees before callers: components of the call graph, condensed, in layers from
    the leaves up; the flat order over the functions that have a body; and the
    functions whose callees are all verified.  The graph library is the interface of
    [Graph].  [None] stands for a panic, an index out of range or a subtraction
    below zero, and for a layering loop that did not end; the theorems show that
    none of these happens. *)

From S2P Require Import Prelude RustStr BTree Verdicts Session Graph.
Local Open Scope nat_scope.

Record Level := mkLevel { level : nat; groups : list SccGroup }.

Record ReadyFunc := mkReady {
  rf_function : string;
  rf_scc_id : option N;
  rf_is_cycle : bool;
  rf_scc_members : list string;
}.

Section order.
Context `{GraphOps}.

(** ** The graph *)

Definition graph_node (st : graph string * gmap string nat) (v : string) : graph string * gmap string nat :=
  match st.2 !! v with
  | Some _ => st
  | None => let '(g, n) := add_node v st.1 in (g, <[v := n]> st.2)
  end.

Definition graph_edge (m : gmap string nat) (g : graph string) (e : string * string) : graph string :=
  match m !! e.1, m !! e.2 with
  | Some c, Some d => add_edge c d g
  | _, _ => g
  end.

Definition build_graph (vertices : list string) (edges : list (string * string)) :
    graph string * gmap string nat :=
  let '(g, name_to_node) := fold_left graph_node vertices (new_graph, ∅) in
  (fold_left (graph_edge name_to_node) edges g, name_to_node).

(** ** Kahn's layering *)

(** The filter's closure: the caller loses one outstanding callee and is ready when
    it was the last. *)
Definition lose_callee (st : option (list nat * list nat)) (caller : nat) : option (list nat * list nat) :=
  match st with
  | Some (out_degree, next_ready) =>
    match out_degree !! caller with
    | Some (S d) =>
      Some (<[caller := d]> out_degree, if (d =? 0)%nat then next_ready ++ [caller] else next_ready)
    | _ => None
    end
  | None => None
  end.

Definition next_layer (condensed : graph (list string)) (ready out_degree : list nat) :
    option (list nat * list nat) :=
  fold_left (fun st g => fold_left lose_callee (neighbors_directed condensed g Incoming) st)
    ready (Some (out_degree, [])).

Definition set_level (current_level : nat) (levels_map : option (list nat)) (g : nat) : option (list nat) :=
  match levels_map with
  | Some m => then_some (g <? length m)%nat (<[g := current_level]> m)
  | None => None
  end.

(** [while !ready.is_empty()]. *)
Fixpoint kahn (fuel : nat) (condensed : graph (list string)) (ready levels_map out_degree : list nat)
    (current_level : nat) : option (list nat) :=
  match ready, fuel with
  | [], _ => Some levels_map
  | _, O => None
  | _, S fuel =>
    match fold_left (set_level current_level) ready (Some levels_map),
          next_layer condensed ready out_degree with
    | Some levels_map, Some (out_degree, next_ready) =>
      kahn fuel condensed next_ready levels_map out_degree (S current_level)
    | _, _ => None
    end
  end.

(** ** The levels *)

Definition sort_names (names : list string) : list string := merge_sort str_le names.

Definition scc_group (self_loop_names : list string) (condensed : graph (list string))
    (levels_map : list nat) (i : nat) : option SccGroup :=
  match weight condensed i, levels_map !! i with
  | Some names, Some l =>
    let members := sort_names names in
    let is_cycle := (2 <=? length members)%nat ||
      ((length members =? 1)%nat && bool_decide (nth 0 members "" ∈ self_loop_names)) in
    Some (mkSccGroup (as_u32 i) members l is_cycle)
  | _, _ => None
  end.

(** The order of [sort_by_key(|g| (g.level, g.id))]. *)
Definition group_le (a b : SccGroup) : Prop :=
  scc_level a < scc_level b \/ (scc_level a = scc_level b /\ (scc_id a <= scc_id b)%N).
#[export] Instance group_le_dec a b : Decision (group_le a b).
Proof. unfold group_le. apply _. Defined.

Definition renumber (gs : list SccGroup) : list SccGroup :=
  imap (fun new_id g => mkSccGroup (as_u32 new_id) (members g) (scc_level g) (is_cycle g)) gs.

(** [levels\[lvl\].groups.push(g)]. *)
Definition push_group (levels : option (list Level)) (g : SccGroup) : option (list Level) :=
  match levels with
  | Some ls =>
    match ls !! scc_level g with
    | Some l => Some (<[scc_level g := mkLevel (level l) (groups l ++ [g])]> ls)
    | None => None
    end
  | None => None
  end.

Definition compute_topological_order (vertices : list string) (edges : list (string * string)) :
    option (list Level) :=
  let g := (build_graph vertices edges).1 in
  if (node_count g =? 0)%nat then Some []
  else
    match mapM (weight g) (bfilter (fun n => contains_edge g n n) (node_indices g)) with
    | None => None
    | Some self_loop_names =>
      let condensed := condensation g true in
      let n_groups := node_count condensed in
      let out_degree :=
        map (fun i => length (neighbors_directed condensed i Outgoing)) (seq 0 n_groups) in
      let ready := bfilter (fun i => bool_decide (out_degree !! i = Some 0)) (seq 0 n_groups) in
      match kahn n_groups condensed ready (replicate n_groups 0) out_degree 0 with
      | None => None
      | Some levels_map =>
        match mapM (scc_group self_loop_names condensed levels_map) (seq 0 n_groups) with
        | None => None
        | Some gs =>
          let gs := renumber (merge_sort group_le gs) in
          let max_level := max_list levels_map in
          fold_left push_group gs (Some (map (fun l => mkLevel l []) (seq 0 (S max_level))))
        end
      end
    end.

(** ** The flat order *)

Definition defined_group (defined : gset string) (lvl : nat) (group : SccGroup) : option SccGroup :=
  match bfilter (fun m => bool_decide (m ∈ defined)) (members group) with
  | [] => None
  | ms => Some (mkSccGroup (scc_id group) ms lvl (is_cycle group))
  end.

Definition flatten_levels_to_vo_scc (levels : list Level) (defined : gset string) :
    list string * list SccGroup :=
  let gs := flat_map (fun l => collect_some (defined_group defined (level l)) (groups l)) levels in
  (flat_map members gs, gs).

(** ** Ready functions *)

(** One component of [tarjan_scc]: its sorted names and whether it is a cycle. *)
Definition scc_row (g : graph string) (scc : list nat) : option (list string * bool) :=
  match mapM (weight g) scc with
  | Some names =>
    let is_cycle := (2 <=? length scc)%nat ||
      match scc with [n] => contains_edge g n n | _ => false end in
    Some (sort_names names, is_cycle)
  | None => None
  end.

Definition scc_index (rows : list (list string * bool)) : gmap string nat :=
  fold_left (fun m row => fold_left (fun m nm => <[nm := row.1]> m) row.2.1 m) (imap pair rows) ∅.

(** A callee that does not hold its caller back. *)
Definition callee_ok (scc_of : gmap string nat) (rows : list (list string * bool))
    (done : list string) (f_scc : nat) (f_cycle : bool) (c : string) : bool :=
  (bool_decide (scc_of !! c = Some f_scc) && f_cycle) || bool_decide (c ∈ done).

(** One vertex of the loop: a panic, nothing, or an entry. *)
Definition ready_function (g : graph string) (name_to_node scc_of : gmap string nat)
    (rows : list (list string * bool)) (done in_progress : list string) (v : string) :
    option (option ReadyFunc) :=
  if bool_decide (v ∈ done) || bool_decide (v ∈ in_progress) then Some None
  else
    match name_to_node !! v, scc_of !! v with
    | Some f_node, Some f_scc =>
      match rows !! f_scc, mapM (weight g) (neighbors_directed g f_node Outgoing) with
      | Some (ms, cyc), Some callees =>
        Some (then_some (forallb (callee_ok scc_of rows done f_scc cyc) callees)
          (mkReady v (then_some cyc (as_u32 f_scc)) cyc (if cyc then ms else [v])))
      | _, _ => None
      end
    | _, _ => None
    end.

Definition ready_le (a b : ReadyFunc) : Prop := str_le (rf_function a) (rf_function b).
#[export] Instance ready_le_dec a b : Decision (ready_le a b).
Proof. unfold ready_le. apply _. Defined.

Definition compute_ready_functions (vertices : list string) (edges : list (string * string))
    (done in_progress : list string) : option (list ReadyFunc) :=
  let '(g, name_to_node) := build_graph vertices edges in
  match mapM (scc_row g) (tarjan_scc g) with
  | None => None
  | Some rows =>
    match mapM (ready_function g name_to_node (scc_index rows) rows done in_progress) vertices with
    | None => None
    | Some out => Some (merge_sort ready_le (collect_some (fun o => o) out))
    end
  end.

(** ** The tools *)

(** The handlers of the two tools, after the call graph was fetched. *)
Definition compute_topological_order_tool (s : SessionState) :
    option (SessionState * (list string * list SccGroup)) :=
  let '(vertices, edges) := callgraph_by_name s in
  let defined : gset string := list_to_set (bfilter (fun name =>
    match functions s !! name with Some f => fi_defined f | None => false end)
    (map_to_list (functions s)).*1) in
  match compute_topological_order vertices edges with
  | None => None
  | Some levels =>
    let '(verification_order, gs) := flatten_levels_to_vo_scc levels defined in
    Some (project_state_mut (fun ps => mkProjectState (project_source_files ps) verification_order gs) s,
          (verification_order, gs))
  end.

Definition get_ready_functions (done in_progress : list string) (s : SessionState) :
    option (list ReadyFunc) :=
  let '(vertices, edges) := callgraph_by_name s in
  compute_ready_functions vertices edges done in_progress.
End order.

(** ** What the order means *)

(** A call between two functions of the call graph; an edge naming an undeclared
    function is none. *)
Definition calls (vertices : list string) (edges : list (string * string)) (f g : string) : Prop :=
  f ∈ vertices /\ g ∈ vertices /\ (f, g) ∈ edges.

(** [f] and [g] call each other, directly or through others; or are the same. *)
Definition same_cycle (vertices : list string) (edges : list (string * string)) : string -> string -> Prop :=
  mutual (calls vertices edges).

Definition all_groups (levels : list Level) : list SccGroup := flat_map groups levels.

(** Levels of groups: what a caller of the order relies on. *)
Record callees_first (vertices : list string) (edges : list (string * string)) (levels : list Level) : Prop := {
  cf_functions : NoDup (flat_map members (all_groups levels)) /\
    forall f, f ∈ flat_map members (all_groups levels) <-> f ∈ vertices;
  cf_groups : forall g f f', g ∈ all_groups levels -> f ∈ members g -> f' ∈ vertices ->
    (f' ∈ members g <-> same_cycle vertices edges f f');
  cf_cycle : forall g f, g ∈ all_groups levels -> f ∈ members g ->
    (is_cycle g = true <-> tc (calls vertices edges) f f);
  cf_calls : forall g g' f f', g ∈ all_groups levels -> g' ∈ all_groups levels ->
    f ∈ members g -> f' ∈ members g' -> calls vertices edges f f' -> g = g' \/ scc_level g' < scc_level g;
  cf_lowest : forall g, g ∈ all_groups levels -> scc_level g = 0 \/ exists g' f f', g' ∈ all_groups levels /\
    f ∈ members g /\ f' ∈ members g' /\ calls vertices edges f f' /\ S (scc_level g') = scc_level g;
  cf_levels : forall i l, levels !! i = Some l ->
    level l = i /\ groups l <> [] /\ forall g, g ∈ groups l -> scc_level g = i /\ members g <> [];
  cf_sorted : forall g, g ∈ all_groups levels -> StronglySorted str_le (members g);
  cf_ids : map scc_id (all_groups levels) = map as_u32 (seq 0 (length (all_groups levels)));
}.

(** ** Lemmas: the graph of a call graph *)

Section lemmas.
Context `{GraphLaws}.

(** The names of the nodes are distinct and the map inverts them. *)
Definition named (st : graph string * gmap string nat) : Prop :=
  NoDup (node_weights st.1) /\ (forall v i, st.2 !! v = Some i <-> weight st.1 i = Some v) /\
  edge_references st.1 = [].

Lemma graph_node_named st v :
  named st -> named (graph_node st v) /\
  (forall w, w ∈ node_weights (graph_node st v).1 <-> w ∈ node_weights st.1 \/ w = v).
Proof.
  destruct st as [g m]. intros (Hnd & Hm & He). unfold graph_node. simpl in *.
  destruct (m !! v) as [i|] eqn:Hv.
  { split; [done|]. intros w. split; [by left|]. intros [?| ->]; [done|].
    apply Hm in Hv. by eapply list_elem_of_lookup_2. }
  destruct (add_node v g) as [g' n] eqn:Ha.
  pose proof (add_node_weights _ v g) as Hw. pose proof (add_node_edges _ v g) as He'.
  pose proof (add_node_index _ v g) as Hn. rewrite Ha in Hw, He', Hn. simpl in *. subst n.
  assert (Hnew : v ∉ node_weights g).
  { intros [i Hi]%list_elem_of_lookup. apply Hm in Hi. congruence. }
  split; [|intros w; rewrite Hw; set_solver]. split_and!; simpl.
  - rewrite Hw. apply NoDup_app. split_and!; [done|set_solver|apply NoDup_singleton].
  - intros w i. unfold weight. rewrite Hw, lookup_insert_Some. unfold weight, node_count in *.
    rewrite lookup_snoc_Some, Hm. split.
    + intros [[<- <-]|[? Hi]]; [right; done|left]. split; [by eapply lookup_lt_Some|done].
    + intros [[? Hi]|[-> ->]]; [right|by left]. split; [|done]. intros <-. by apply Hnew, (list_elem_of_lookup_2 _ i).
  - by rewrite He'.
Qed.

Lemma graph_nodes_named vertices st :
  named st -> named (fold_left graph_node vertices st) /\
  (forall w, w ∈ node_weights (fold_left graph_node vertices st).1 <-> w ∈ node_weights st.1 \/ w ∈ vertices).
Proof.
  revert st. induction vertices as [|v vs IH]; intros st Hst; simpl; [split; [done|set_solver]|].
  destruct (graph_node_named st v Hst) as [Hst' Hw]. destruct (IH _ Hst') as [? Hw'].
  split; [done|]. intros w. rewrite Hw', Hw. set_solver.
Qed.

(** The edges become arcs between the nodes of their ends. *)
Lemma graph_edges_spec m edges g :
  (forall v i, m !! v = Some i -> i < node_count g) ->
  node_weights (fold_left (graph_edge m) edges g) = node_weights g /\
  forall u v, arc (fold_left (graph_edge m) edges g) u v <->
    arc g u v \/ exists a b, m !! a = Some u /\ m !! b = Some v /\ (a, b) ∈ edges.
Proof.
  revert g. induction edges as [|[a b] es IH]; intros g Hm; simpl; [set_solver|].
  assert (Hstep : node_weights (graph_edge m g (a, b)) = node_weights g /\
    forall u v, arc (graph_edge m g (a, b)) u v <-> arc g u v \/ (m !! a = Some u /\ m !! b = Some v)).
  { unfold graph_edge, arc. simpl. destruct (m !! a) as [c|] eqn:Ha; [|naive_solver].
    destruct (m !! b) as [d|] eqn:Hb; [|naive_solver]. rewrite add_edge_weights. split; [done|].
    intros u v. rewrite add_edge_edges by eauto. rewrite elem_of_app, list_elem_of_singleton. naive_solver. }
  destruct Hstep as [Hw Ha].
  destruct (IH (graph_edge m g (a, b))) as [Hw' Ha'].
  { unfold node_count. by rewrite Hw. }
  split; [congruence|]. intros u v. rewrite Ha', Ha. setoid_rewrite elem_of_cons. naive_solver.
Qed.

Section built.
Context (vertices : list string) (edges : list (string * string)).
Let g := (build_graph vertices edges).1.
Let m := (build_graph vertices edges).2.
Let W := node_weights g.

Lemma build_graph_spec :
  NoDup W /\ (forall f, f ∈ W <-> f ∈ vertices) /\ (forall f i, m !! f = Some i <-> W !! i = Some f) /\
  (forall u v, arc g u v <-> exists a b, W !! u = Some a /\ W !! v = Some b /\ calls vertices edges a b).
Proof.
  destruct (graph_nodes_named vertices (new_graph, ∅)) as ((Hnd & Hm & He) & Hw).
  { split_and!; simpl; [rewrite new_graph_weights; constructor| |by rewrite new_graph_edges].
    intros v i. unfold weight. by rewrite new_graph_weights, lookup_empty, lookup_nil. }
  simpl in Hw. rewrite new_graph_weights in Hw.
  unfold W, m, g, build_graph. destruct (fold_left graph_node vertices (new_graph, ∅)) as [g0 m0]. simpl in *.
  destruct (graph_edges_spec m0 edges g0) as [Hw' Ha].
  { intros v i Hv%Hm. by eapply lookup_lt_Some. }
  rewrite Hw'. unfold weight in Hm.
  assert (Hv : forall f, f ∈ node_weights g0 <-> f ∈ vertices) by (intros f; rewrite Hw; set_solver).
  split_and!; [done|done|done|]. intros u v. rewrite Ha. unfold arc, calls. rewrite He.
  setoid_rewrite Hm. setoid_rewrite <- Hv. split.
  - intros [Hn|(a & b & Hu & Hv' & Hab)]; [by inversion Hn|]. exists a, b.
    split_and!; [done|done| | |done]; by eapply list_elem_of_lookup_2.
  - intros (a & b & Hu & Hv' & _ & _ & Hab). right. eauto.
Qed.

Lemma calls_declared a b : calls vertices edges a b -> a ∈ W /\ b ∈ W.
Proof. destruct build_graph_spec as (_ & HW & _). rewrite !HW. by intros (? & ? & _). Qed.

Lemma build_graph_in_range : in_range g.
Proof.
  destruct build_graph_spec as (_ & _ & _ & Ha). intros u v (a & b & Hu & Hv & _)%Ha.
  unfold node_count. eauto using lookup_lt_Some.
Qed.

(** A partition of the indices is one of the functions. *)
Lemma functions_partition comps ns :
  scc_partition (node_indices g) (arc g) comps ->
  Forall2 (fun c names => mapM (weight g) c = Some names) comps ns ->
  scc_partition W (calls vertices edges) ns /\
  (forall i c names, comps !! i = Some c -> ns !! i = Some names -> length c = length names) /\
  forall i j, quotient (arc g) comps i j <-> quotient (calls vertices edges) ns i j.
Proof.
  intros Hp Hns. destruct build_graph_spec as (Hnd & _ & _ & Ha).
  split_and!.
  - by apply (labels_partition W (arc g) (calls vertices edges) Hnd Ha calls_declared comps ns Hns).
  - intros i c names Hc Hn. eapply length_mapM, (Forall2_lookup_lr _ _ _ _ _ _ Hns Hc Hn).
  - by apply (labels_quotient W (arc g) (calls vertices edges) Hnd Ha comps ns Hns).
Qed.

Lemma self_arc f i : W !! i = Some f -> (contains_edge g i i = true <-> calls vertices edges f f).
Proof.
  intros Hi. rewrite contains_edge_spec. destruct build_graph_spec as (_ & _ & _ & Ha). rewrite Ha.
  split; [|eauto]. intros (a & b & ? & ? & ?). by simplify_eq.
Qed.
End built.
End lemmas.

(** ** Lemmas: one layer *)

Definition occ (i : nat) (l : list nat) : nat := length (filter (fun j => j = i) l).

#[export] Instance occ_perm i : Proper ((≡ₚ) ==> (=)) (occ i).
Proof. intros l l' Hl. unfold occ. by rewrite Hl. Qed.

Lemma occ_cons i j l : occ i (j :: l) = (if decide (j = i) then S (occ i l) else occ i l).
Proof. unfold occ. rewrite filter_cons. by case_decide. Qed.

Lemma occ_app i l l' : occ i (l ++ l') = occ i l + occ i l'.
Proof. unfold occ. by rewrite filter_app, length_app. Qed.

Lemma occ_pos i l : 0 < occ i l <-> i ∈ l.
Proof.
  induction l as [|j l IH]; [unfold occ; simpl; split; [lia|set_solver]|]. rewrite occ_cons, elem_of_cons, <- IH.
  case_decide; intuition (congruence || lia).
Qed.

Lemma lose_callees_spec decs deg next :
  (forall i, i ∈ decs -> exists d, deg !! i = Some d /\ occ i decs <= d) ->
  exists deg' new, fold_left lose_callee decs (Some (deg, next)) = Some (deg', next ++ new) /\
    length deg' = length deg /\ (forall i d, deg !! i = Some d -> deg' !! i = Some (d - occ i decs)) /\
    NoDup new /\ (forall i, i ∈ new <-> i ∈ decs /\ deg !! i = Some (occ i decs)).
Proof.
  revert deg next. induction decs as [|c decs IH]; intros deg next Hd; simpl.
  { exists deg, []. rewrite app_nil_r. split_and!; try done; [|constructor|set_solver].
    intros i d ->. f_equal. unfold occ. simpl. lia. }
  destruct (Hd c) as (d & Hc & Hocc); [left|]. rewrite occ_cons, decide_True in Hocc by done.
  destruct d as [|d]; [lia|]. rewrite Hc.
  set (next1 := if (d =? 0)%nat then next ++ [c] else next).
  destruct (IH (<[c := d]> deg) next1) as (deg' & new & -> & Hl & Hdeg & Hnd & Hnew).
  { intros i Hi. destruct (decide (c = i)) as [<-|Hne].
    - exists d. rewrite list_lookup_insert_eq by (by eapply lookup_lt_Some). split; [done|lia].
    - destruct (Hd i) as (d' & Hd' & Ho); [by right|]. exists d'. rewrite occ_cons, decide_False in Ho by done.
      by rewrite list_lookup_insert_ne. }
  assert (Hlook : forall i, <[c := d]> deg !! i = if decide (c = i) then Some d else deg !! i).
  { intros i. case_decide as Hi; [subst; apply list_lookup_insert_eq; by eapply lookup_lt_Some|].
    by apply list_lookup_insert_ne. }
  assert (Hdeg1 : forall i d0, deg !! i = Some d0 -> deg' !! i = Some (d0 - occ i (c :: decs))).
  { intros i d0 Hi. rewrite occ_cons. case_decide as Hci; [subst i|].
    - rewrite Hc in Hi. injection Hi as <-. rewrite (Hdeg c d); [done|by rewrite Hlook, decide_True].
    - apply Hdeg. by rewrite Hlook, decide_False. }
  assert (Hin : forall i, i ∈ new <-> i ∈ decs /\
    (if decide (c = i) then Some d else deg !! i) = Some (occ i decs)).
  { intros i. by rewrite Hnew, Hlook. }
  rewrite length_insert in Hl. exists deg'. unfold next1.
  destruct (d =? 0)%nat eqn:Hz; bool_simpl.
  - subst d. assert (Hcd : c ∉ decs) by (rewrite <- occ_pos; lia).
    exists (c :: new). rewrite <- app_assoc. split_and!; [done|done|done| |].
    + constructor; [by rewrite Hin; intros [? _]|done].
    + intros i. rewrite !elem_of_cons, Hin, occ_cons. destruct (decide (c = i)) as [<-|Hne].
      * rewrite Hc. assert (occ c decs = 0) as -> by lia. tauto.
      * intuition congruence.
  - exists new. split_and!; try done. intros i. rewrite Hin, elem_of_cons, occ_cons.
    destruct (decide (c = i)) as [<-|Hne]; [|intuition congruence].
    rewrite Hc. pose proof (occ_pos c decs) as Hp. split.
    + intros [? [= ->]]. split; [by left|done].
    + intros [_ [= ->]]. split; [apply Hp; lia|done].
Qed.

Lemma set_levels_spec cur ready lm :
  (forall i, i ∈ ready -> i < length lm) ->
  exists lm', fold_left (set_level cur) ready (Some lm) = Some lm' /\ length lm' = length lm /\
    forall i, lm' !! i = if decide (i ∈ ready) then Some cur else lm !! i.
Proof.
  revert lm. induction ready as [|g ready IH]; intros lm Hlt; simpl; [by exists lm|].
  assert (Hg : g < length lm) by (apply Hlt; left).
  rewrite (proj2 (Nat.ltb_lt _ _) Hg). simpl.
  destruct (IH (<[g := cur]> lm)) as (lm' & -> & Hl & Hlook).
  { intros i Hi. rewrite length_insert. apply Hlt. by right. }
  exists lm'. rewrite length_insert in Hl. split_and!; [done|done|]. intros i. rewrite Hlook.
  destruct (decide (i = g)) as [->|Hne].
  - rewrite (decide_True (P := g ∈ g :: ready)) by left. case_decide; [done|]. by apply list_lookup_insert_eq.
  - rewrite list_lookup_insert_ne by done. destruct (decide (i ∈ ready)) as [?|?].
    + by rewrite decide_True by (by right).
    + rewrite decide_False; [done|]. by rewrite elem_of_cons; intros [?|?].
Qed.

Lemma fold_left_flat_map {A B C} (f : A -> B -> A) (g : C -> list B) l a :
  fold_left (fun st c => fold_left f (g c) st) l a = fold_left f (flat_map g l) a.
Proof. revert a. induction l as [|c l IH]; intros a; simpl; [done|]. by rewrite IH, fold_left_app. Qed.

(** ** Lemmas: the layering loop *)

Lemma occ_NoDup i l : NoDup l -> occ i l = if decide (i ∈ l) then 1 else 0.
Proof.
  induction 1 as [|j l Hj Hl IH]; [done|]. rewrite occ_cons, IH.
  destruct (decide (j = i)) as [->|Hne].
  - by rewrite decide_False, decide_True by (done || left).
  - destruct (decide (i ∈ l)); [rewrite decide_True by (by right)|rewrite decide_False]; [done..|].
    by intros [?|?]%elem_of_cons.
Qed.

Lemma elem_of_arcs_from u v es : v ∈ arcs_from u es <-> (u, v) ∈ es.
Proof.
  unfold arcs_from. rewrite list_elem_of_fmap. setoid_rewrite list_elem_of_filter. split.
  - intros ([a b] & -> & <- & Hab). done.
  - intros Huv. by exists (u, v).
Qed.

Lemma elem_of_arcs_to u v es : u ∈ arcs_to v es <-> (u, v) ∈ es.
Proof.
  unfold arcs_to. rewrite list_elem_of_fmap. setoid_rewrite list_elem_of_filter. split.
  - intros ([a b] & -> & <- & Hab). done.
  - intros Huv. by exists (u, v).
Qed.

Lemma NoDup_arcs_from u es : NoDup es -> NoDup (arcs_from u es).
Proof.
  intros Hnd. apply NoDup_fmap_2_strong; [|by apply NoDup_filter].
  intros [a b] [c d] [Ha _]%list_elem_of_filter [Hc _]%list_elem_of_filter. simpl in *. congruence.
Qed.

Lemma NoDup_arcs_to v es : NoDup es -> NoDup (arcs_to v es).
Proof.
  intros Hnd. apply NoDup_fmap_2_strong; [|by apply NoDup_filter].
  intros [a b] [c d] [Ha _]%list_elem_of_filter [Hc _]%list_elem_of_filter. simpl in *. congruence.
Qed.

Section layering.
Context `{GraphLaws} (C : graph (list string)).
Let n := node_count C.
Let es := edge_references C.
Hypothesis Hnd : NoDup es.
Hypothesis Hrange : in_range C.
Hypothesis Hsn : forall i, sn (arc C) i.

(** The callees of [i] not in [D]: those that are outstanding. *)
Definition outstanding (D : list nat) (i : nat) : list nat := filter (fun j => j ∉ D) (arcs_from i es).

Lemma outstanding_nil D i : length (outstanding D i) = 0 <-> forall j, arc C i j -> j ∈ D.
Proof.
  rewrite length_zero_iff_nil. unfold outstanding. split.
  - intros Hf j Hj. destruct (decide (j ∈ D)) as [?|HD]; [done|].
    by destruct (filter_nil_not_elem_of _ _ j Hf HD); apply elem_of_arcs_from.
  - intros Hd. apply elem_of_nil_inv. intros j [HD Hj%elem_of_arcs_from]%list_elem_of_filter. by apply HD, Hd.
Qed.

Lemma outstanding_app D ready i : NoDup ready -> (forall j, j ∈ ready -> j ∉ D) ->
  length (outstanding D i) =
  length (outstanding (D ++ ready) i) + occ i (flat_map (fun g => neighbors_directed C g Incoming) ready).
Proof.
  intros Hr Hd.
  assert (occ i (flat_map (fun g => neighbors_directed C g Incoming) ready) =
    length (filter (fun j => (i, j) ∈ es) ready)) as ->.
  { clear Hd. induction Hr as [|j l _ _ IH]; [done|]. simpl. rewrite occ_app, IH, filter_cons.
    rewrite (neighbors_incoming _ C j).
    rewrite occ_NoDup by (by apply NoDup_arcs_to).
    destruct (decide ((i, j) ∈ es)) as [Hi|Hi].
    - by rewrite decide_True by (by apply elem_of_arcs_to).
    - rewrite decide_False; [done|]. by rewrite elem_of_arcs_to. }
  rewrite <- length_app. apply Permutation_length. unfold outstanding.
  assert (Hs : NoDup (arcs_from i es)) by (by apply NoDup_arcs_from).
  apply NoDup_Permutation.
  - by apply NoDup_filter.
  - apply NoDup_app. split_and!; [by apply NoDup_filter| |by apply NoDup_filter].
    intros j Hj Hj'. rewrite !list_elem_of_filter, elem_of_app in *. tauto.
  - intros j. rewrite elem_of_app, !list_elem_of_filter, elem_of_app, elem_of_arcs_from.
    specialize (Hd j). destruct (decide (j ∈ ready)); tauto.
Qed.

(** Before a layer: [D] has its levels, [ready] is next. *)
Record layered (D ready lm deg : list nat) (cur : nat) : Prop := {
  ly_nodup : NoDup (D ++ ready);
  ly_range : forall i, i ∈ D ++ ready -> i < n;
  ly_lengths : length lm = n /\ length deg = n;
  ly_deg : forall i, i < n -> deg !! i = Some (length (outstanding D i));
  ly_ready : forall i, i < n -> (i ∈ D ++ ready <-> forall j, arc C i j -> j ∈ D);
  ly_low : forall i, i ∈ D -> exists l, lm !! i = Some l /\ l < cur /\
    (forall j, arc C i j -> j ∈ D /\ exists k, lm !! j = Some k /\ k < l) /\
    (l = 0 \/ exists j, arc C i j /\ lm !! j = Some (pred l));
  ly_front : forall i, i ∈ ready -> cur = 0 \/ exists j, arc C i j /\ j ∈ D /\ lm !! j = Some (pred cur);
}.

Lemma layered_bound D ready lm deg cur : layered D ready lm deg cur -> length D + length ready <= n.
Proof.
  intros Hl. rewrite <- length_app, <- (length_seq n 0). apply NoDup_incl_length.
  - apply NoDup_ListNoDup, (ly_nodup _ _ _ _ _ Hl).
  - intros i Hi. apply list_elem_of_In, elem_of_seq. apply list_elem_of_In in Hi.
    pose proof (ly_range _ _ _ _ _ Hl i Hi). lia.
Qed.

(** The layer that is ready gets its level; the next one is what it was the last to
    hold back. *)
Lemma layered_levels D ready lm deg cur (lm' : list nat) i :
  layered D ready lm deg cur ->
  (forall i, lm' !! i = if decide (i ∈ ready) then Some cur else lm !! i) ->
  i ∈ D ++ ready -> exists l, lm' !! i = Some l /\ l < S cur /\
    (forall j, arc C i j -> j ∈ D ++ ready /\ exists k, lm' !! j = Some k /\ k < l) /\
    (l = 0 \/ exists j, arc C i j /\ lm' !! j = Some (pred l)).
Proof.
  intros Hl Hlm Hi. destruct (NoDup_app D ready) as [(_ & Hdis & _) _]; [apply (ly_nodup _ _ _ _ _ Hl)|].
  assert (Hold : forall j, j ∈ D -> lm' !! j = lm !! j).
  { intros j Hj. rewrite Hlm, decide_False; [done|]. by apply Hdis. }
  apply elem_of_app in Hi as [Hi|Hi].
  - destruct (ly_low _ _ _ _ _ Hl i Hi) as (l & Hil & Hlt & Hc & Ht). exists l.
    rewrite (Hold i Hi). split_and!; [done|lia| |].
    + intros j Hj. destruct (Hc j Hj) as [HjD (k & Hk & Hkl)]. rewrite elem_of_app.
      split; [by left|]. exists k. by rewrite (Hold j HjD).
    + destruct Ht as [?|(j & Hj & Hjl)]; [by left|]. right. exists j. split; [done|].
      by rewrite (Hold j (proj1 (Hc j Hj))).
  - exists cur. rewrite Hlm, decide_True by done. split_and!; [done|lia| |].
    + intros j Hj. assert (HjD : j ∈ D).
      { eapply (ly_ready _ _ _ _ _ Hl i); [by apply (ly_range _ _ _ _ _ Hl), elem_of_app; right| |done].
        apply elem_of_app. by right. }
      destruct (ly_low _ _ _ _ _ Hl j HjD) as (k & Hk & Hlt & _). rewrite elem_of_app.
      split; [by left|]. exists k. by rewrite (Hold j HjD).
    + destruct (ly_front _ _ _ _ _ Hl i Hi) as [?|(j & Hj & HjD & Hjl)]; [by left|].
      right. exists j. by rewrite (Hold j HjD).
Qed.

Lemma layered_step D ready lm deg cur :
  layered D ready lm deg cur -> exists lm' deg' ready',
    fold_left (set_level cur) ready (Some lm) = Some lm' /\
    next_layer C ready deg = Some (deg', ready') /\ layered (D ++ ready) ready' lm' deg' (S cur).
Proof.
  intros Hl. pose proof (ly_range _ _ _ _ _ Hl) as Hrg. pose proof (ly_lengths _ _ _ _ _ Hl) as [Hlm Hdg].
  destruct (NoDup_app D ready) as [(_ & Hdis & Hndr) _]; [apply (ly_nodup _ _ _ _ _ Hl)|].
  destruct (set_levels_spec cur ready lm) as (lm' & Hset & Hlen & Hlook).
  { intros i Hi. rewrite Hlm. apply Hrg, elem_of_app. by right. }
  set (decs := flat_map (fun g => neighbors_directed C g Incoming) ready).
  assert (Hdecs : forall i, i ∈ decs -> i < n /\ exists j, arc C i j /\ j ∈ ready).
  { intros i Hi. unfold decs in Hi. apply list_elem_of_In, in_flat_map in Hi as (j & Hj & Hi).
    apply list_elem_of_In in Hi, Hj. rewrite (neighbors_incoming _ C j), elem_of_arcs_to in Hi.
    split; [apply (Hrange i j Hi)|eauto]. }
  assert (Hout : forall i, length (outstanding D i) = length (outstanding (D ++ ready) i) + occ i decs).
  { intros i. apply outstanding_app; [done|]. intros j Hj Hj'. by eapply Hdis. }
  destruct (lose_callees_spec decs deg []) as (deg' & ready' & Hfold & Hdl & Hdeg & Hndn & Hnew).
  { intros i [Hi _]%Hdecs. rewrite (ly_deg _ _ _ _ _ Hl i Hi). eexists. split; [done|]. rewrite Hout. lia. }
  exists lm', deg', ready'. split; [done|]. split.
  { unfold next_layer. by rewrite fold_left_flat_map. }
  assert (Hnew' : forall i, i ∈ ready' <-> i ∈ decs /\ length (outstanding (D ++ ready) i) = 0).
  { intros i. rewrite Hnew. destruct (decide (i ∈ decs)) as [Hi|Hi]; [|tauto].
    rewrite (ly_deg _ _ _ _ _ Hl i (proj1 (Hdecs i Hi))), Hout.
    split; (intros [_ Ho]; split; [done|]); [injection Ho as Ho; lia|f_equal; lia]. }
  assert (Hfresh : forall i, i ∈ D ++ ready -> i ∉ ready').
  { intros i Hi [Hd _]%Hnew'. destruct (Hdecs i Hd) as (Hin & j & Hj & Hjr).
    apply (Hdis j); [|done]. by eapply (ly_ready _ _ _ _ _ Hl i). }
  split.
  - apply NoDup_app. split_and!; [apply (ly_nodup _ _ _ _ _ Hl)|done|done].
  - intros i [Hi|Hi]%elem_of_app; [by apply Hrg|]. by apply Hnew' in Hi as [[? _]%Hdecs _].
  - split; congruence.
  - intros i Hi. rewrite (Hdeg i _ (ly_deg _ _ _ _ _ Hl i Hi)). f_equal. rewrite Hout. lia.
  - intros i Hi. rewrite <- outstanding_nil, elem_of_app, Hnew', (ly_ready _ _ _ _ _ Hl i Hi),
      <- outstanding_nil, Hout. destruct (decide (i ∈ decs)) as [Hd|Hd].
    + apply occ_pos in Hd as Ho. intuition lia.
    + assert (~ 0 < occ i decs) by (by rewrite occ_pos). intuition lia.
  - intros i Hi. by apply (layered_levels D ready lm deg cur).
  - intros i [Hd _]%Hnew'. destruct (Hdecs i Hd) as (_ & j & Hj & Hjr). right. exists j.
    rewrite Hlook, decide_True by done. split_and!; [done| |done]. apply elem_of_app. by right.
Qed.

Lemma kahn_layered fuel D ready lm deg cur :
  layered D ready lm deg cur -> n <= fuel + length D ->
  exists D' lm' deg' cur', kahn fuel C ready lm deg cur = Some lm' /\ layered D' [] lm' deg' cur'.
Proof.
  revert D ready lm deg cur. induction fuel as [|fuel IH]; intros D ready lm deg cur Hl Hf;
    pose proof (layered_bound _ _ _ _ _ Hl) as Hb; (destruct ready as [|g ready];
      [exists D, lm, deg, cur; by destruct fuel + done|]); simpl in Hb; [lia|].
  destruct (layered_step _ _ _ _ _ Hl) as (lm' & deg' & ready' & Hs & Hn & Hl').
  destruct (IH _ _ _ _ _ Hl') as (D' & lm'' & deg'' & cur'' & Hk & Hl'').
  { rewrite length_app. simpl. lia. }
  exists D', lm'', deg'', cur''. split; [|done]. simpl kahn. unfold next_layer in *. simpl in Hs, Hn.
  unfold next_layer. simpl. by rewrite Hs, Hn.
Qed.

Lemma layered_all D lm deg cur : layered D [] lm deg cur -> forall i, i < n -> i ∈ D.
Proof.
  intros Hl i. induction (Hsn i) as [i _ IH]. intros Hi.
  rewrite <- (app_nil_r D). apply (ly_ready _ _ _ _ _ Hl i Hi). intros j Hj. apply IH; [done|].
  apply (Hrange i j Hj).
Qed.

Definition first_degrees : list nat := map (fun i => length (neighbors_directed C i Outgoing)) (seq 0 n).
Definition first_ready : list nat := bfilter (fun i => bool_decide (first_degrees !! i = Some 0)) (seq 0 n).

Lemma first_layered : layered [] first_ready (replicate n 0) first_degrees 0.
Proof.
  assert (Hdeg : forall i, i < n -> first_degrees !! i = Some (length (outstanding [] i))).
  { intros i Hi. unfold first_degrees. rewrite list_lookup_fmap, lookup_seq_lt by done. simpl. f_equal.
    rewrite (neighbors_outgoing _ C i). unfold outstanding. f_equal. fold es.
    induction (arcs_from i es) as [|j l IH]; [done|]. rewrite filter_cons, decide_True by set_solver. by f_equal. }
  assert (Hready : forall i, i ∈ first_ready <-> i < n /\ length (outstanding [] i) = 0).
  { intros i. unfold first_ready. rewrite elem_of_bfilter, elem_of_seq, bool_decide_eq_true. split.
    - intros [Hi Hd]. rewrite Hdeg in Hd by lia. injection Hd as Hd. split; [lia|done].
    - intros [Hi Hd]. rewrite Hdeg, Hd by done. split; [lia|done]. }
  split; simpl.
  - eapply sublist_NoDup; [apply (NoDup_seq 0 n)|apply bfilter_sublist].
  - intros i Hi. by apply Hready.
  - unfold first_degrees. by rewrite length_replicate, length_map, length_seq.
  - done.
  - intros i Hi. rewrite Hready, outstanding_nil. tauto.
  - intros i Hi. by inversion Hi.
  - intros i _. by left.
Qed.

(** The loop ends within as many rounds as there are groups, without a panic; a group
    is one level above the highest it calls. *)
Lemma kahn_spec : exists lm, kahn n C first_ready (replicate n 0) first_degrees 0 = Some lm /\
  length lm = n /\ forall i l, lm !! i = Some l ->
    (forall j, arc C i j -> exists k, lm !! j = Some k /\ k < l) /\
    (l = 0 \/ exists j, arc C i j /\ lm !! j = Some (pred l)).
Proof.
  destruct (kahn_layered n [] _ _ _ _ first_layered) as (D & lm & deg & cur & Hk & Hl); [simpl; lia|].
  destruct (ly_lengths _ _ _ _ _ Hl) as [Hlen _]. exists lm. split_and!; [done|done|].
  intros i l Hi. assert (HiD : i ∈ D).
  { eapply layered_all; [done|]. rewrite <- Hlen. by eapply lookup_lt_Some. }
  destruct (ly_low _ _ _ _ _ Hl i HiD) as (l' & Hi' & _ & Hc & Ht). simplify_eq.
  split; [|done]. intros j Hj. by destruct (Hc j Hj) as [_ ?].
Qed.
End layering.

(** ** Lemmas: placing the groups on their levels *)

#[export] Instance group_le_trans : Transitive group_le.
Proof. intros a b c. unfold group_le. lia. Qed.
#[export] Instance group_le_total : Total group_le.
Proof. intros a b. unfold group_le. lia. Qed.

Lemma sort_names_perm l : sort_names l ≡ₚ l.
Proof. apply merge_sort_Permutation. Qed.

Lemma sort_names_sorted l : StronglySorted str_le (sort_names l).
Proof. apply StronglySorted_merge_sort; apply _. Qed.

Definition on_level (l : nat) (gs : list SccGroup) : list SccGroup :=
  bfilter (fun g => (scc_level g =? l)%nat) gs.
Definition placed (k : nat) (gs : list SccGroup) : list Level :=
  map (fun l => mkLevel l (on_level l gs)) (seq 0 k).

Lemma placed_lookup k gs i l : placed k gs !! i = Some l <-> i < k /\ l = mkLevel i (on_level i gs).
Proof.
  unfold placed. rewrite list_lookup_fmap, fmap_Some. setoid_rewrite lookup_seq. split.
  - intros (j & [-> ?] & ->). done.
  - intros [? ->]. by exists i.
Qed.

Lemma push_groups k gs done_gs : (forall g, g ∈ gs -> scc_level g < k) ->
  fold_left push_group gs (Some (placed k done_gs)) = Some (placed k (done_gs ++ gs)).
Proof.
  revert done_gs. induction gs as [|g gs IH]; intros dg Hk; simpl; [by rewrite app_nil_r|].
  assert (Hg : scc_level g < k) by (apply Hk; left).
  assert (placed k dg !! scc_level g = Some (mkLevel (scc_level g) (on_level (scc_level g) dg))) as ->
    by (by apply placed_lookup). simpl.
  replace (<[scc_level g := _]> (placed k dg)) with (placed k (dg ++ [g])).
  { rewrite IH by (intros; apply Hk; by right). by rewrite <- app_assoc. }
  apply list_eq. intros i. destruct (decide (i = scc_level g)) as [->|Hne].
  - rewrite list_lookup_insert_eq by (unfold placed; by rewrite length_map, length_seq).
    apply placed_lookup. split; [done|]. f_equal. unfold on_level. rewrite bfilter_app. simpl.
    by rewrite Nat.eqb_refl.
  - rewrite list_lookup_insert_ne by done. unfold placed. rewrite !list_lookup_fmap.
    destruct (seq 0 k !! i) as [j|] eqn:Hj; [|done]. simpl. do 2 f_equal.
    apply lookup_seq in Hj as [-> _]. unfold on_level. rewrite bfilter_app. simpl.
    rewrite (proj2 (Nat.eqb_neq _ _)) by done. by rewrite app_nil_r.
Qed.

Lemma flat_map_empty {A B} (f : A -> list B) l : (forall x, x ∈ l -> f x = []) -> flat_map f l = [].
Proof. induction l as [|x l IH]; intros Hf; simpl; [done|]. rewrite Hf, IH; [done| |left]. intros y Hy. apply Hf. by right. Qed.

Lemma flat_map_ext_in {A B} (f g : A -> list B) l : (forall x, x ∈ l -> f x = g x) -> flat_map f l = flat_map g l.
Proof. induction l as [|x l IH]; intros Hf; simpl; [done|]. rewrite Hf, IH; [done| |left]. intros y Hy. apply Hf. by right. Qed.

(** Groups sorted by level are read back in order, level by level. *)
Lemma placed_groups a k gs : StronglySorted le (map scc_level gs) ->
  (forall g, g ∈ gs -> a <= scc_level g < a + k) ->
  flat_map (fun l => on_level l gs) (seq a k) = gs.
Proof.
  revert a k. induction gs as [|g gs IH]; intros a k Hs Hr.
  { apply flat_map_empty. done. }
  simpl in Hs. apply StronglySorted_inv in Hs as [Hs Hle]. rewrite Forall_forall in Hle.
  assert (Hge : forall g', g' ∈ gs -> scc_level g <= scc_level g').
  { intros g' Hg'. apply Hle. apply list_elem_of_fmap. eauto. }
  assert (Hg : a <= scc_level g < a + k) by (apply Hr; left).
  transitivity (g :: flat_map (fun l => on_level l gs) (seq a k));
    [|f_equal; apply IH; [done|]; intros g' Hg'; apply Hr; by right].
  replace k with ((scc_level g - a) + S (a + k - S (scc_level g))) by lia.
  rewrite seq_app, !flat_map_app. replace (a + (scc_level g - a)) with (scc_level g) by lia. simpl.
  rewrite !(flat_map_empty _ (seq a _)).
  - simpl. unfold on_level at 1. simpl. rewrite Nat.eqb_refl. fold (on_level (scc_level g) gs).
    rewrite <- app_comm_cons. do 2 f_equal.
    apply flat_map_ext_in. intros l Hl%elem_of_seq. unfold on_level. simpl.
    by rewrite (proj2 (Nat.eqb_neq _ _)) by lia.
  - intros l Hl%elem_of_seq. apply bfilter_nil. intros g' Hg'. apply Nat.eqb_neq. specialize (Hge g' Hg'). lia.
  - intros l Hl%elem_of_seq. apply bfilter_nil. intros g' [->|Hg']%elem_of_cons; apply Nat.eqb_neq; [lia|].
    specialize (Hge g' Hg'). lia.
Qed.

Lemma all_groups_placed k gs : StronglySorted le (map scc_level gs) ->
  (forall g, g ∈ gs -> scc_level g < k) -> all_groups (placed k gs) = gs.
Proof.
  intros Hs Hk. etransitivity; [|apply (placed_groups 0 k gs); [done|intros g Hg; specialize (Hk g Hg); lia]].
  unfold all_groups, placed. rewrite flat_map_concat_map, map_map, <- flat_map_concat_map. done.
Qed.

(** Sorting and renumbering keep everything but the ids. *)
Lemma renumber_map {A} (f : SccGroup -> A) gs :
  (forall i g, f (mkSccGroup i (members g) (scc_level g) (is_cycle g)) = f g) -> map f (renumber gs) = map f gs.
Proof.
  intros Hf. unfold renumber. rewrite fmap_imap. apply list_eq. intros i.
  rewrite list_lookup_imap, list_lookup_fmap. destruct (gs !! i); simpl; [|done]. by rewrite Hf.
Qed.

Lemma renumber_elem g gs : g ∈ renumber gs -> exists g0, g0 ∈ gs /\
  members g = members g0 /\ scc_level g = scc_level g0 /\ is_cycle g = is_cycle g0.
Proof.
  unfold renumber. intros [i Hi]%list_elem_of_lookup. rewrite list_lookup_imap in Hi.
  apply fmap_Some in Hi as (g0 & Hg0 & ->). exists g0. split; [by eapply list_elem_of_lookup_2|done].
Qed.

Lemma renumber_has g0 gs : g0 ∈ gs -> exists g, g ∈ renumber gs /\
  members g = members g0 /\ scc_level g = scc_level g0 /\ is_cycle g = is_cycle g0.
Proof.
  intros [i Hi]%list_elem_of_lookup.
  exists (mkSccGroup (as_u32 i) (members g0) (scc_level g0) (is_cycle g0)). split; [|done].
  apply list_elem_of_lookup. exists i. unfold renumber. rewrite list_lookup_imap, Hi. done.
Qed.

Lemma renumber_ids gs : map scc_id (renumber gs) = map as_u32 (seq 0 (length gs)).
Proof.
  apply list_eq. intros i. unfold renumber.
  rewrite !list_lookup_fmap, list_lookup_imap. destruct (decide (i < length gs)) as [Hi|Hi].
  - rewrite lookup_seq_lt by done. by destruct (lookup_lt_is_Some_2 gs i Hi) as [g ->].
  - by rewrite lookup_seq_ge, lookup_ge_None_2 by lia.
Qed.

(** ** Lemmas: the whole computation *)

Section computed.
Context `{GraphLaws} (vertices : list string) (edges : list (string * string)).
Let g := (build_graph vertices edges).1.
Let C := condensation g true.
Let W := node_weights g.
Let ns := node_weights C.
Let R := calls vertices edges.

Lemma condensed_spec : scc_partition W R ns /\ NoDup W /\ NoDup (edge_references C) /\ in_range C /\
  (forall i, sn (arc C) i) /\ (forall i j, arc C i j <-> quotient R ns i j).
Proof.
  destruct (condensation_spec _ g) as (comps & Hp & Hns & Hnd & Ha); [apply build_graph_in_range|].
  destruct (functions_partition vertices edges comps ns Hp Hns) as (Hpn & _ & Hq).
  destruct (build_graph_spec vertices edges) as (HW & _).
  assert (Harc : forall i j, arc C i j <-> quotient R ns i j).
  { intros i j. etransitivity; [apply Ha|apply Hq]. }
  split_and!; [done|done|done| | |done].
  - intros i j Hij%Harc. by apply quotient_in_range in Hij.
  - intros i. assert (Hs : sn (quotient R ns) i) by (by eapply quotient_sn).
    induction Hs as [i _ IH]. constructor. intros j Hj%Harc. by apply IH.
Qed.

Lemma self_loop_names_spec : exists names,
  mapM (weight g) (bfilter (fun n => contains_edge g n n) (node_indices g)) = Some names /\
  forall f, f ∈ names <-> R f f.
Proof.
  destruct (mapM_is_Some_2 (weight g) (bfilter (fun n => contains_edge g n n) (node_indices g))) as [names Hn].
  { apply Forall_forall. intros i [Hi _]%elem_of_bfilter. apply elem_of_seq in Hi.
    apply lookup_lt_is_Some. unfold node_count in Hi. lia. }
  exists names. split; [done|]. intros f. rewrite <- (mapM_omap _ _ _ Hn), list_elem_of_omap.
  setoid_rewrite elem_of_bfilter. setoid_rewrite elem_of_seq. split.
  - intros (i & [_ Hi] & Hf). by apply (self_arc vertices edges f i).
  - intros Hf. assert (f ∈ W) as [i Hi]%list_elem_of_lookup by (by eapply (calls_declared vertices edges)).
    exists i. split; [|done]. apply lookup_lt_Some in Hi as Hlt. split; [split; [lia|done]|].
    by apply (self_arc vertices edges f i).
Qed.

Section leveled.
Context (self : list string) (lm : list nat).
Hypothesis Hself : forall f, f ∈ self <-> R f f.
Hypothesis Hlen : length lm = node_count C.

(** What a group holds, before and after it gets its final id. *)
Definition describes (i : nat) (grp : SccGroup) : Prop := exists names l,
  ns !! i = Some names /\ lm !! i = Some l /\ members grp = sort_names names /\ scc_level grp = l /\
  (is_cycle grp = true <-> 2 <= length names \/ exists f, names = [f] /\ R f f).

Lemma scc_group_spec i : i < node_count C ->
  exists grp, scc_group self C lm i = Some grp /\ describes i grp.
Proof.
  intros Hi. destruct (lookup_lt_is_Some_2 ns i Hi) as [names Hn].
  destruct (lookup_lt_is_Some_2 lm i) as [l Hl]; [by rewrite Hlen|].
  unfold scc_group, weight. fold ns. rewrite Hn, Hl. eexists. split; [done|].
  exists names, l. cbn [members scc_level is_cycle]. split_and!; try done.
  assert (Hlen' : length (sort_names names) = length names) by (by rewrite sort_names_perm).
  rewrite Hlen', orb_true_iff, andb_true_iff, Nat.leb_le, Nat.eqb_eq, bool_decide_eq_true, Hself.
  apply or_iff_compat_l.
  destruct names as [|f [|f' names]]; [split; [by intros [? _]|by intros (? & ? & _)]| |
    split; [by intros [? _]|by intros (? & ? & _)]].
  change (sort_names [f]) with [f]. split; [intros [_ ?]; by exists f|intros (f' & [= ->] & ?); done].
Qed.

Lemma scc_groups_spec : exists gs, mapM (scc_group self C lm) (seq 0 (node_count C)) = Some gs /\
  Forall2 describes (seq 0 (node_count C)) gs.
Proof.
  destruct (mapM_is_Some_2 (scc_group self C lm) (seq 0 (node_count C))) as [gs Hgs].
  { apply Forall_forall. intros i Hi%elem_of_seq. destruct (scc_group_spec i) as (grp & Hg & _); [lia|]. by exists grp. }
  exists gs. split; [done|]. apply mapM_Some in Hgs. apply Forall2_same_length_lookup.
  split; [by eapply Forall2_length|]. intros k i grp Hk Hgrp.
  pose proof (Forall2_lookup_lr _ _ _ _ _ _ Hgs Hk Hgrp) as Hg. apply lookup_seq in Hk as [-> Hk].
  destruct (scc_group_spec (0 + k)) as (grp' & Hg' & Hd); [done|]. congruence.
Qed.

Lemma described_members gs k : Forall2 describes (seq k (length gs)) gs -> k + length gs = length ns ->
  flat_map members gs ≡ₚ concat (drop k ns).
Proof.
  revert k. induction gs as [|grp gs IH]; intros k Hd Hk; simpl in *.
  { by rewrite drop_ge by lia. }
  apply Forall2_cons in Hd as [(names & l & Hn & _ & Hm & _) Hd].
  rewrite (drop_S ns names k Hn). simpl. rewrite Hm, sort_names_perm. f_equiv. apply IH; [done|lia].
Qed.

(** The levels grow along the arcs by one from the highest callee. *)
Hypothesis Hlevels : forall i l, lm !! i = Some l ->
  (forall j, arc C i j -> exists k, lm !! j = Some k /\ k < l) /\
  (l = 0 \/ exists j, arc C i j /\ lm !! j = Some (pred l)).

Lemma level_inhabited d l i : lm !! i = Some (l + d) -> exists j, lm !! j = Some l.
Proof.
  revert i. induction d as [|d IH]; intros i Hi; [rewrite Nat.add_0_r in Hi; by exists i|].
  destruct (Hlevels i _ Hi) as [_ [?|(j & _ & Hj)]]; [lia|]. apply (IH j). by rewrite Hj; f_equal; lia.
Qed.

Context (gs : list SccGroup).
Hypothesis Hgs : forall grp, grp ∈ gs -> exists i, describes i grp.
Hypothesis Hall : forall i, i < node_count C -> exists grp, grp ∈ gs /\ describes i grp.
Hypothesis Hmem : flat_map members gs ≡ₚ concat ns.

Lemma described_elem i grp names f : describes i grp -> ns !! i = Some names ->
  (f ∈ members grp <-> f ∈ names).
Proof. intros (names' & l & Hn & _ & Hm & _) Hn'. simplify_eq. by rewrite Hm, sort_names_perm. Qed.

Lemma described_level i grp : describes i grp -> lm !! i = Some (scc_level grp).
Proof. by intros (names & l & _ & Hl & _ & -> & _). Qed.

Lemma group_of_member a b f : a ∈ gs -> b ∈ gs -> f ∈ members a -> f ∈ members b -> a = b.
Proof.
  intros [i Hi]%list_elem_of_lookup [j Hj]%list_elem_of_lookup Ha Hb.
  assert (i = j) as ->; [|congruence].
  apply (concat_index_unique (map members gs) i j (members a) (members b) f); try done.
  - rewrite <- flat_map_concat_map, Hmem. destruct condensed_spec as (Hp & HW & _).
    by apply (partition_NoDup _ _ _ Hp).
  - by rewrite list_lookup_fmap, Hi.
  - by rewrite list_lookup_fmap, Hj.
Qed.

Lemma described_calls a b f f' : a ∈ gs -> b ∈ gs -> f ∈ members a -> f' ∈ members b -> R f f' ->
  a = b \/ scc_level b < scc_level a.
Proof.
  intros Ha Hb Hf Hf' Hc. destruct (Hgs a Ha) as [i Hi], (Hgs b Hb) as [j Hj].
  destruct condensed_spec as (Hp & HW & _ & _ & _ & Harc).
  pose proof Hi as (ni & li & Hni & _). pose proof Hj as (nj & lj & Hnj & _).
  apply (described_elem i a ni f Hi Hni) in Hf as Hfi. apply (described_elem j b nj f' Hj Hnj) in Hf' as Hfj.
  destruct (decide (i = j)) as [->|Hne].
  - left. simplify_eq. apply (group_of_member a b f); [done..|]. by eapply described_elem.
  - right. destruct (Hlevels i _ (described_level i a Hi)) as [Hlow _].
    destruct (Hlow j) as (k & Hk & Hlt); [apply Harc; split; [done|]; by exists ni, nj, f, f'|].
    rewrite (described_level j b Hj) in Hk. by simplify_eq.
Qed.

Lemma described_lowest a : a ∈ gs -> scc_level a = 0 \/ exists b f f', b ∈ gs /\
  f ∈ members a /\ f' ∈ members b /\ R f f' /\ S (scc_level b) = scc_level a.
Proof.
  intros Ha. destruct (Hgs a Ha) as [i Hi]. destruct (decide (scc_level a = 0)) as [?|Hne]; [by left|right].
  destruct (Hlevels i _ (described_level i a Hi)) as [_ [?|(j & Hj & Hl)]]; [done|].
  destruct condensed_spec as (_ & _ & _ & Hrange & _ & Harc).
  destruct (Hall j) as (b & Hb & Hjb); [apply (Hrange i j Hj)|].
  apply Harc in Hj as (_ & ni & nj & f & f' & Hni & Hnj & Hf & Hf' & Hc).
  exists b, f, f'. rewrite (described_level j b Hjb) in Hl. injection Hl as Hl.
  split_and!; [done| | |done|lia].
  - by apply (described_elem i a ni).
  - by apply (described_elem j b nj).
Qed.

Lemma described_groups a f f' : a ∈ gs -> f ∈ members a -> f' ∈ vertices ->
  (f' ∈ members a <-> mutual R f f').
Proof.
  intros Ha Hf Hf'. destruct (Hgs a Ha) as [i Hi]. pose proof Hi as (ni & li & Hni & _).
  destruct condensed_spec as (Hp & _). destruct (build_graph_spec vertices edges) as (_ & HW & _).
  rewrite (described_elem i a ni f' Hi Hni). apply (scc_mutual _ _ _ Hp).
  - by eapply list_elem_of_lookup_2.
  - by apply (described_elem i a ni).
  - by apply HW.
Qed.

Lemma described_cycle a f : a ∈ gs -> f ∈ members a -> (is_cycle a = true <-> tc R f f).
Proof.
  intros Ha Hf. destruct (Hgs a Ha) as [i Hi]. pose proof Hi as (ni & li & Hni & _ & _ & _ & Hc).
  destruct condensed_spec as (Hp & HW & _). apply (described_elem i a ni f Hi Hni) in Hf.
  rewrite Hc, <- (partition_cycle _ _ _ Hp HW i ni f (calls_declared vertices edges) Hni Hf).
  split; (intros [?|Hs]; [by left|]).
  - destruct Hs as (f' & -> & Hs). apply list_elem_of_singleton in Hf as ->. by right.
  - destruct ni as [|x [|y ni]]; [by inversion Hf| |left; simpl; lia].
    apply list_elem_of_singleton in Hf as ->. right. by exists x.
Qed.

Lemma described_callees_first : gs <> [] -> StronglySorted le (map scc_level gs) ->
  map scc_id gs = map as_u32 (seq 0 (length gs)) ->
  callees_first vertices edges (placed (S (max_list lm)) gs).
Proof.
  intros Hne Hs Hids. destruct condensed_spec as (Hp & HW & _).
  destruct (build_graph_spec vertices edges) as (_ & Hdecl & _).
  assert (Hmax : forall a, a ∈ gs -> scc_level a < S (max_list lm)).
  { intros a Ha. destruct (Hgs a Ha) as [i Hi]. apply described_level in Hi.
    pose proof (max_list_elem_of_le (scc_level a) lm (list_elem_of_lookup_2 _ _ _ Hi)). lia. }
  split; rewrite ?(all_groups_placed (S (max_list lm)) gs Hs Hmax).
  - rewrite Hmem. split; [by apply (partition_NoDup _ _ _ Hp)|]. intros f.
    rewrite Hmem, (scc_nodes _ _ _ Hp). apply Hdecl.
  - apply described_groups.
  - apply described_cycle.
  - apply described_calls.
  - apply described_lowest.
  - intros i l [Hi ->]%placed_lookup. simpl. split_and!; [done| |].
    + assert (Hlm : lm <> []).
      { intros Hlm. destruct gs as [|a gs']; [done|]. destruct (Hgs a) as [j Hj]; [left|].
        apply described_level in Hj. by rewrite Hlm in Hj. }
      pose proof (max_list_elem_of lm Hlm) as [j Hj]%list_elem_of_lookup.
      destruct (level_inhabited (max_list lm - i) i j) as [j' Hj']; [rewrite Hj; f_equal; lia|].
      destruct (Hall j') as (a & Ha & Hja); [rewrite <- Hlen; by eapply lookup_lt_Some|].
      apply described_level in Hja. rewrite Hj' in Hja. injection Hja as ->.
      intros Hnil. eapply bfilter_nil in Hnil; [|exact Ha]. by rewrite Nat.eqb_refl in Hnil.
    + intros a [Ha Hl]%elem_of_bfilter. bool_simpl. split; [done|]. destruct (Hgs a Ha) as (j & names & l & Hn & _ & Hm & _).
      intros He. apply (scc_nonempty _ _ _ Hp names); [by eapply list_elem_of_lookup_2|].
      apply Permutation_nil. by rewrite <- He, Hm, sort_names_perm.
  - intros a Ha. destruct (Hgs a Ha) as (j & names & l & _ & _ & -> & _). apply sort_names_sorted.
  - done.
Qed.
End leveled.
End computed.

Section main.
Context `{GraphLaws}.

Lemma computed_levels vertices edges : node_count (build_graph vertices edges).1 <> 0 ->
  exists gs lm, compute_topological_order vertices edges =
    fold_left push_group gs (Some (map (fun l => mkLevel l []) (seq 0 (S (max_list lm))))) /\
  (forall g, g ∈ gs -> scc_level g < S (max_list lm)) /\
  callees_first vertices edges (placed (S (max_list lm)) gs).
Proof.
  intros Hne. pose (C := condensation (build_graph vertices edges).1 true).
  destruct (condensed_spec vertices edges) as (Hp & HW & HndC & Hrange & Hsn & _).
  destruct (self_loop_names_spec vertices edges) as (self & Hs & Hself).
  destruct (kahn_spec C HndC Hrange Hsn) as (lm & Hk & Hlen & Hlv).
  destruct (scc_groups_spec vertices edges self lm Hself Hlen) as (gs & Hg & Hd).
  set (sorted := merge_sort group_le gs). exists (renumber sorted), lm.
  assert (Hperm : sorted ≡ₚ gs) by apply merge_sort_Permutation.
  assert (Hdesc : forall grp, grp ∈ renumber sorted -> exists i, describes vertices edges lm i grp).
  { intros grp (g0 & Hg0 & Hm & Hl & Hc)%renumber_elem. rewrite Hperm in Hg0.
    apply list_elem_of_lookup in Hg0 as [k Hk0]. destruct (Forall2_lookup_r _ _ _ _ _ Hd Hk0) as (i & _ & Hi).
    exists i. unfold describes. by rewrite Hm, Hl, Hc. }
  assert (Hall : forall i, i < node_count C -> exists grp, grp ∈ renumber sorted /\ describes vertices edges lm i grp).
  { intros i Hi. destruct (Forall2_lookup_l _ _ _ i i Hd) as (g0 & Hg0 & Hd0); [by apply lookup_seq|].
    destruct (renumber_has g0 sorted) as (grp & Hin & Hm & Hl & Hc).
    { rewrite Hperm. by eapply list_elem_of_lookup_2. }
    exists grp. split; [done|]. unfold describes. by rewrite Hm, Hl, Hc. }
  assert (Hmem : flat_map members (renumber sorted) ≡ₚ concat (node_weights C)).
  { rewrite flat_map_concat_map, (renumber_map members) by done. rewrite <- flat_map_concat_map, Hperm.
    pose proof (Forall2_length _ _ _ Hd) as Hl. rewrite length_seq in Hl.  rewrite Hl in Hd.
    apply (described_members vertices edges lm Hlen gs 0 Hd). exact (eq_sym Hl). }
  split; [|split].
  - unfold compute_topological_order. rewrite (proj2 (Nat.eqb_neq _ _) Hne), Hs.
    unfold first_ready, first_degrees, C in Hk. by rewrite Hk, Hg.
  - intros grp Hin. destruct (Hdesc grp Hin) as [i Hi]. apply described_level in Hi.
    pose proof (max_list_elem_of_le (scc_level grp) lm (list_elem_of_lookup_2 _ _ _ Hi)). lia.
  - apply described_callees_first; try done.
    + intros Hnil. apply Hne. rewrite Hnil in Hmem. simpl in Hmem.
      unfold node_count. apply length_zero_iff_nil, Permutation_nil. rewrite <- (scc_nodes _ _ _ Hp). exact Hmem.
    + rewrite (renumber_map scc_level) by done.
      apply (StronglySorted_fmap scc_level group_le le); [unfold group_le; lia|].
      apply StronglySorted_merge_sort; apply _.
    + rewrite renumber_ids. unfold renumber. by rewrite length_imap.
Qed.

Lemma order_computed vertices edges :
  exists levels, compute_topological_order vertices edges = Some levels /\
    callees_first vertices edges levels.
Proof.
  destruct (decide (node_count (build_graph vertices edges).1 = 0)) as [Hz|Hne].
  - exists []. unfold compute_topological_order. rewrite Hz. split; [done|].
    apply length_zero_iff_nil in Hz. destruct (build_graph_spec vertices edges) as (_ & HW & _).
    split; simpl; try done; [|by intros; set_solver..].
    split; [constructor|]. intros f. rewrite <- HW, Hz. done.
  - destruct (computed_levels vertices edges Hne) as (gs & lm & -> & Hlt & Hcf).
    exists (placed (S (max_list lm)) gs). split; [|done].
    exact (push_groups (S (max_list lm)) gs [] Hlt).
Qed.
End main.

(** ** Lemmas: the flat order *)

Lemma bfilter_flat_map {A B} (p : B -> bool) (f : A -> list B) l :
  bfilter p (flat_map f l) = flat_map (fun a => bfilter p (f a)) l.
Proof. induction l as [|a l IH]; simpl; [done|]. by rewrite bfilter_app, IH. Qed.

Lemma bfilter_split {A} (p : A -> bool) l l1 x l2 : bfilter p l = l1 ++ x :: l2 ->
  exists k1 k2, l = k1 ++ x :: k2 /\ l1 = bfilter p k1 /\ p x = true.
Proof.
  revert l1. induction l as [|y l IH]; intros l1; simpl; [by destruct l1|].
  destruct (p y) eqn:Hy.
  - destruct l1 as [|z l1]; simpl; intros [= -> Hl]; [by exists [], l|].
    destruct (IH l1 Hl) as (k1 & k2 & -> & -> & Hx). exists (z :: k1), k2. simpl. by rewrite Hy.
  - intros Hl. destruct (IH l1 Hl) as (k1 & k2 & -> & -> & Hx). exists (y :: k1), k2. simpl. by rewrite Hy.
Qed.

Lemma flattened levels defined :
  (flatten_levels_to_vo_scc levels defined).1 =
  bfilter (fun f => bool_decide (f ∈ defined)) (flat_map members (all_groups levels)).
Proof.
  unfold flatten_levels_to_vo_scc, all_groups. simpl.
  induction levels as [|l levels IH]; simpl; [done|]. rewrite !flat_map_app, bfilter_app, IH. f_equal.
  rewrite bfilter_flat_map. induction (groups l) as [|g gs IHg]; simpl; [done|]. rewrite <- IHg.
  unfold defined_group at 1. by destruct (bfilter _ (members g)).
Qed.

Lemma levels_sorted a levels :
  (forall i l, levels !! i = Some l -> forall g, g ∈ groups l -> scc_level g = a + i) ->
  StronglySorted le (map scc_level (all_groups levels)).
Proof.
  revert a. induction levels as [|l levels IH]; intros a Hl; simpl; [constructor|].
  assert (Hrest : forall g, g ∈ all_groups levels -> a < scc_level g).
  { intros g Hg. unfold all_groups in Hg. apply list_elem_of_In, in_flat_map in Hg as (l' & Hl' & Hg).
    apply list_elem_of_In, list_elem_of_lookup in Hl' as [i Hi]. apply list_elem_of_In in Hg.
    rewrite (Hl (S i) l' Hi g Hg). lia. }
  pose proof (Hl 0 l eq_refl) as Hhead.
  assert (Htail : StronglySorted le (map scc_level (all_groups levels))).
  { apply (IH (S a)). intros i l' Hi g Hg. rewrite (Hl (S i) l' Hi g Hg). lia. }
  induction (groups l) as [|g gs IHg]; simpl; [done|]. constructor.
  - apply IHg. intros g' Hg'. apply Hhead. by right.
  - apply Forall_forall. intros x (g' & -> & Hg')%list_elem_of_fmap. rewrite (Hhead g) by left.
    apply elem_of_app in Hg' as [Hg'|Hg']; [rewrite (Hhead g') by (by right); lia|].
    specialize (Hrest g' Hg'). lia.
Qed.

(** What stands after a function in the flat order is not on a lower level. *)
Lemma flat_levels gs l1 f l2 h : StronglySorted le (map scc_level gs) ->
  flat_map members gs = l1 ++ f :: l2 -> h ∈ l2 ->
  exists a b, a ∈ gs /\ b ∈ gs /\ f ∈ members a /\ h ∈ members b /\ scc_level a <= scc_level b.
Proof.
  revert l1. induction gs as [|g gs IH]; intros l1 Hs Hl Hh; simpl in *; [by destruct l1|].
  apply StronglySorted_inv in Hs as [Hs Hle]. rewrite Forall_forall in Hle.
  apply app_eq_inv in Hl as [([|x k] & Hg & Hk)|(k & -> & Hk)]; simpl in *.
  - destruct (IH [] Hs (eq_sym Hk) Hh) as (a & b & Hab). exists a, b. rewrite !elem_of_cons. tauto.
  - injection Hk as <- ->. exists g. assert (f ∈ members g) by (rewrite Hg; set_solver).
    apply elem_of_app in Hh as [Hh|Hh].
    + exists g. split_and!; try done; [left|left|]. rewrite Hg. set_solver.
    + apply list_elem_of_In, in_flat_map in Hh as (b & Hb & Hh). apply list_elem_of_In in Hb, Hh.
      exists b. split_and!; try done; [left|by right|]. apply Hle, list_elem_of_fmap. eauto.
  - destruct (IH k Hs Hk Hh) as (a & b & Hab). exists a, b. rewrite !elem_of_cons. tauto.
Qed.

Section flat.
Context (vertices : list string) (edges : list (string * string)) (levels : list Level).
Hypothesis Hcf : callees_first vertices edges levels.

Lemma member_of_group f : f ∈ vertices -> exists a, a ∈ all_groups levels /\ f ∈ members a.
Proof.
  intros Hf. apply (cf_functions _ _ _ Hcf) in Hf. apply list_elem_of_In, in_flat_map in Hf as (a & Ha & Hf).
  exists a. by rewrite !list_elem_of_In.
Qed.

Lemma group_unique a b f : a ∈ all_groups levels -> b ∈ all_groups levels ->
  f ∈ members a -> f ∈ members b -> a = b.
Proof.
  intros [i Hi]%list_elem_of_lookup [j Hj]%list_elem_of_lookup Ha Hb.
  assert (i = j) as ->; [|congruence].
  apply (concat_index_unique (map members (all_groups levels)) i j (members a) (members b) f); try done.
  - rewrite <- flat_map_concat_map. apply (cf_functions _ _ _ Hcf).
  - by rewrite list_lookup_fmap, Hi.
  - by rewrite list_lookup_fmap, Hj.
Qed.

(** Levels do not grow along a path, and stay only within a group. *)
Lemma path_levels f h a b : rtc (calls vertices edges) f h -> a ∈ all_groups levels -> b ∈ all_groups levels ->
  f ∈ members a -> h ∈ members b -> a = b \/ scc_level b < scc_level a.
Proof.
  intros Hp. revert a. induction Hp as [f|f k h Hc _ IH]; intros a Ha Hb Hf Hh.
  { left. by apply (group_unique a b f). }
  destruct (member_of_group k) as (c & Hcin & Hk); [apply Hc|].
  destruct (cf_calls _ _ _ Hcf a c f k Ha Hcin Hf Hk Hc) as [->|Hlt], (IH c Hcin Hb Hk Hh) as [->|Hlt']; auto.
  right. lia.
Qed.

Lemma flat_order l1 f l2 h : flat_map members (all_groups levels) = l1 ++ f :: l2 ->
  rtc (calls vertices edges) f h -> h ∈ vertices -> same_cycle vertices edges f h \/ h ∈ l1.
Proof.
  intros Hl Hp Hh. destruct (cf_functions _ _ _ Hcf) as [_ Hdecl].
  assert (Hf : f ∈ vertices) by (apply Hdecl; rewrite Hl; set_solver).
  destruct (member_of_group f Hf) as (a & Ha & Hfa), (member_of_group h Hh) as (b & Hb & Hhb).
  destruct (path_levels f h a b Hp Ha Hb Hfa Hhb) as [->|Hlt].
  { left. by apply (cf_groups _ _ _ Hcf b f h). }
  right. apply Hdecl in Hh. rewrite Hl, elem_of_app, elem_of_cons in Hh.
  destruct Hh as [?|[->|Hh]]; [done| |].
  - rewrite (group_unique a b f Ha Hb Hfa Hhb) in Hlt. lia.
  - exfalso. assert (Hs : StronglySorted le (map scc_level (all_groups levels))).
    { apply (levels_sorted 0). intros i l Hi. apply (cf_levels _ _ _ Hcf i l Hi). }
    destruct (flat_levels _ l1 f l2 h Hs Hl Hh) as (a' & b' & Ha' & Hb' & Hfa' & Hhb' & Hle).
    rewrite (group_unique a' a f Ha' Ha Hfa' Hfa), (group_unique b' b h Hb' Hb Hhb' Hhb) in Hle. lia.
Qed.

(** The order over the functions of [defined]. *)
Lemma flatten_spec defined : let vo := (flatten_levels_to_vo_scc levels defined).1 in
  NoDup vo /\ (forall f, f ∈ vo <-> f ∈ vertices /\ f ∈ defined) /\
  forall l1 f l2 h, vo = l1 ++ f :: l2 -> rtc (calls vertices edges) f h -> h ∈ vertices -> h ∈ defined ->
    same_cycle vertices edges f h \/ h ∈ l1.
Proof.
  rewrite flattened. simpl. destruct (cf_functions _ _ _ Hcf) as [Hnd Hdecl]. split_and!.
  - eapply sublist_NoDup; [exact Hnd|apply bfilter_sublist].
  - intros f. by rewrite elem_of_bfilter, bool_decide_eq_true, Hdecl.
  - intros l1 f l2 h Hl Hp Hh Hd. destruct (bfilter_split _ _ _ _ _ Hl) as (k1 & k2 & Hk & -> & _).
    destruct (flat_order k1 f k2 h Hk Hp Hh) as [?|?]; [by left|right].
    by rewrite elem_of_bfilter, bool_decide_eq_true.
Qed.
End flat.

(** ** Lemmas: ready functions *)

Lemma insert_all_lookup (i : nat) (l : list string) (m : gmap string nat) (f : string) :
  fold_left (fun m nm => <[nm := i]> m) l m !! f = if decide (f ∈ l) then Some i else m !! f.
Proof.
  revert m. induction l as [|x l IH]; intros m; simpl; [done|]. rewrite IH.
  destruct (decide (f ∈ l)) as [Hl|Hl]; [by rewrite decide_True by (by right)|].
  destruct (decide (f = x)) as [->|Hne].
  - rewrite decide_True by left. apply lookup_insert_eq.
  - rewrite lookup_insert_ne by done. rewrite decide_False; [done|]. by intros [?|?]%elem_of_cons.
Qed.

Lemma scc_index_lookup rows f i :
  (forall i j a b, rows !! i = Some a -> rows !! j = Some b -> f ∈ a.1 -> f ∈ b.1 -> i = j) ->
  (scc_index rows !! f = Some i <-> exists row, rows !! i = Some row /\ f ∈ row.1).
Proof.
  unfold scc_index. revert i. induction rows as [|row rows IH] using rev_ind; intros i Hu.
  { simpl. rewrite lookup_empty. split; [done|]. by intros (? & ? & _). }
  rewrite imap_app, fold_left_app. simpl. rewrite Nat.add_0_r, insert_all_lookup.
  setoid_rewrite lookup_snoc_Some. destruct (decide (f ∈ row.1)) as [Hf|Hf].
  - split.
    + intros [= <-]. exists row. split; [by right|done].
    + intros (row' & Hi & Hf'). f_equal. apply (Hu (length rows) i row row'); try done.
      * apply lookup_snoc_Some. by right.
      * by apply lookup_snoc_Some.
  - rewrite IH.
    + split; intros (row' & Hi & Hf'); exists row'; (split; [|done]); [left; split; [by eapply lookup_lt_Some|done]|].
      destruct Hi as [[_ ?]|[_ <-]]; done.
    + intros j k a b Ha Hb. apply Hu; apply lookup_snoc_Some; left; (split; [by eapply lookup_lt_Some|done]).
Qed.

Section ready.
Context `{GraphLaws} (vertices : list string) (edges : list (string * string)).
Let g := (build_graph vertices edges).1.
Let m := (build_graph vertices edges).2.
Let W := node_weights g.
Let R := calls vertices edges.

(** A row per component: its functions, and whether they are recursive. *)
Definition good_row (ns : list (list string)) (i : nat) (row : list string * bool) : Prop :=
  exists names, ns !! i = Some names /\ row.1 = sort_names names /\
    forall f, f ∈ names -> (row.2 = true <-> tc R f f).

Lemma scc_rows_spec : exists rows ns, mapM (scc_row g) (tarjan_scc g) = Some rows /\
  scc_partition W R ns /\ length rows = length ns /\ forall i row, rows !! i = Some row -> good_row ns i row.
Proof.
  pose proof (tarjan_scc_spec _ g (build_graph_in_range vertices edges)) as Hp.
  destruct (build_graph_spec vertices edges) as (HW & _).
  assert (Hs : forall c, c ∈ tarjan_scc g -> is_Some (mapM (weight g) c)).
  { intros c [i Hc]%list_elem_of_lookup. apply mapM_is_Some, Forall_forall. intros u Hu.
    apply (partition_in _ _ _ Hp i c u Hc) in Hu. apply elem_of_seq in Hu. apply lookup_lt_is_Some.
    unfold node_count in Hu. lia. }
  destruct (mapM_is_Some_2 (mapM (weight g)) (tarjan_scc g)) as [ns Hns]; [by apply Forall_forall|].
  apply mapM_Some in Hns. destruct (functions_partition vertices edges _ ns Hp Hns) as (Hpn & Hlen & _).
  destruct (mapM_is_Some_2 (scc_row g) (tarjan_scc g)) as [rows Hrows].
  { apply Forall_forall. intros c [names Hc]%Hs. unfold compose, scc_row. rewrite Hc. by eexists. }
  exists rows, ns. split_and!; [done|done| |].
  { rewrite <- (length_mapM _ _ _ Hrows). by eapply Forall2_length. }
  apply mapM_Some in Hrows. intros i row Hi.
  destruct (Forall2_lookup_r _ _ _ _ _ Hrows Hi) as (c & Hc & Hrow).
  destruct (Forall2_lookup_l _ _ _ _ _ Hns Hc) as (names & Hn & Hm).
  exists names. split; [done|]. unfold scc_row in Hrow. rewrite Hm in Hrow. apply (inj Some) in Hrow as <-.
  split; [done|]. intros f Hf. cbn [snd].
  transitivity (2 <= length names \/ calls vertices edges f f);
    [|by apply (partition_cycle _ _ _ Hpn HW i names f (calls_declared vertices edges))].
  rewrite orb_true_iff, Nat.leb_le, <- (Hlen i c names Hc Hn).
  pose proof (Hlen i c names Hc Hn) as Hl.
  destruct c as [|u [|v c]]; [by destruct names; [inversion Hf|]| |split; intros _; left; simpl; lia].
  apply or_iff_compat_l. simpl in Hm. destruct (weight g u) as [w|] eqn:Hw; [|done].
  injection Hm as <-.
  apply list_elem_of_singleton in Hf as ->. by apply (self_arc vertices edges w u).
Qed.

(** What an entry says of its function. *)
Definition good_entry (r : ReadyFunc) : Prop :=
  (rf_is_cycle r = true <-> tc R (rf_function r) (rf_function r)) /\
  (is_Some (rf_scc_id r) <-> rf_is_cycle r = true) /\
  StronglySorted str_le (rf_scc_members r) /\ NoDup (rf_scc_members r) /\
  forall f, f ∈ rf_scc_members r <-> f ∈ vertices /\ mutual R (rf_function r) f.

Context (rows : list (list string * bool)) (ns : list (list string)).
Hypothesis Hp : scc_partition W R ns.
Hypothesis Hlen : length rows = length ns.
Hypothesis Hrows : forall i row, rows !! i = Some row -> good_row ns i row.

Lemma scc_of_spec f i : scc_index rows !! f = Some i <-> exists names, ns !! i = Some names /\ f ∈ names.
Proof.
  destruct (build_graph_spec vertices edges) as (HW & _).
  rewrite scc_index_lookup.
  - split.
    + intros (row & Hi & Hf). destruct (Hrows i row Hi) as (names & Hn & Hs & _). exists names.
      split; [done|]. by rewrite Hs, (sort_names_perm names) in Hf.
    + intros (names & Hn & Hf). destruct (lookup_lt_is_Some_2 rows i) as [row Hi].
      { rewrite Hlen. by eapply lookup_lt_Some. }
      exists row. split; [done|]. destruct (Hrows i row Hi) as (names' & Hn' & Hs & _). simplify_eq.
      by rewrite Hs, sort_names_perm.
  - intros i' j a b Ha Hb Hfa Hfb.
    destruct (Hrows _ _ Ha) as (na & Hna & Hsa & _), (Hrows _ _ Hb) as (nb & Hnb & Hsb & _).
    rewrite Hsa, sort_names_perm in Hfa. rewrite Hsb, sort_names_perm in Hfb.
    by apply (concat_index_unique ns i' j na nb f (partition_NoDup _ _ _ Hp HW)).
Qed.

Lemma callee_ok_spec done_list i names cyc f c :
  ns !! i = Some names -> f ∈ names -> (cyc = true <-> tc R f f) -> R f c ->
  (callee_ok (scc_index rows) rows done_list i cyc c = true <-> mutual R f c \/ c ∈ done_list).
Proof.
  intros Hn Hf Hcyc Hc. destruct (build_graph_spec vertices edges) as (_ & HW & _).
  unfold callee_ok. rewrite orb_true_iff, andb_true_iff, !bool_decide_eq_true, scc_of_spec.
  assert (Hcn : c ∈ names <-> mutual R f c).
  { apply (scc_mutual _ _ _ Hp); [by eapply list_elem_of_lookup_2|done|]. apply HW, Hc. }
  split; (intros [Ho|?]; [left|by right]).
  - destruct Ho as [(names' & Hn' & Hin) _]. simplify_eq. by apply Hcn.
  - split; [exists names; split; [done|by apply Hcn]|]. apply Hcyc. eapply tc_rtc_r; [by apply tc_once|apply Ho].
Qed.

Lemma row_entry i names f cyc : ns !! i = Some names -> f ∈ names ->
  (forall f', f' ∈ names -> (cyc = true <-> tc R f' f')) ->
  good_entry (mkReady f (then_some cyc (as_u32 i)) cyc (if cyc then sort_names names else [f])).
Proof.
  intros Hn Hfn Hcyc. destruct (build_graph_spec vertices edges) as (HND & HW & _).
  split_and!; cbn [rf_function rf_scc_id rf_is_cycle rf_scc_members].
  - by apply Hcyc.
  - destruct cyc; simpl; split; [done|by eexists|by intros [? ?]|done].
  - destruct cyc; [apply sort_names_sorted|by repeat constructor].
  - destruct cyc; [|apply NoDup_singleton]. rewrite sort_names_perm.
      by apply (partition_elem_of _ _ _ Hp HND i).
  - intros c. assert (Hc : c ∈ names <-> c ∈ vertices /\ mutual R f c).
    { split.
      - intros Hc. split; [apply HW; by eapply (partition_in _ _ _ Hp)|].
          by apply (partition_mutual _ _ _ Hp HND i i names names f c).
      - intros [Hc Hm']. apply (scc_mutual _ _ _ Hp names f c); [by eapply list_elem_of_lookup_2|done|by apply HW|done]. }
    rewrite <- Hc. destruct cyc; [by rewrite sort_names_perm|].
    rewrite list_elem_of_singleton. split; [by intros ->|]. intros Hcn.
    destruct (decide (c = f)) as [?|Hne]; [done|]. exfalso.
    apply Hc in Hcn as [_ [Hfc Hcf]]. apply rtc_tc in Hfc as [?|Hfc]; [done|].
    assert (false = true) by (apply (Hcyc f Hfn); by eapply tc_rtc_r). done.
Qed.

(** A function that is neither done nor running has an entry unless some callee
    holds it back. *)
Lemma ready_function_spec done_list in_progress f :
  f ∈ vertices -> f ∉ done_list -> f ∉ in_progress -> exists ok r,
  ready_function g m (scc_index rows) rows done_list in_progress f = Some (then_some ok r) /\
  rf_function r = f /\ good_entry r /\
  if ok : bool then forall c, R f c -> mutual R f c \/ c ∈ done_list
  else exists c, R f c /\ ~ (mutual R f c \/ c ∈ done_list).
Proof.
  intros Hf Hd Hi. destruct (build_graph_spec vertices edges) as (HND & HW & Hm & Harc).
  apply HW in Hf as HfW. pose proof HfW as [u Hu]%list_elem_of_lookup. apply Hm in Hu as Hmu. change (m !! f = Some u) in Hmu.
  destruct (partition_has _ _ _ Hp f HfW) as (i & names & Hn & Hfn).
  assert (Hscc : scc_index rows !! f = Some i) by (apply scc_of_spec; eauto).
  destruct (lookup_lt_is_Some_2 rows i) as [[ms cyc] Hrow]; [rewrite Hlen; by eapply lookup_lt_Some|].
  destruct (Hrows i _ Hrow) as (names' & Hn' & Hms & Hcyc).
  cbn [fst snd] in Hms, Hcyc. assert (names' = names) as -> by congruence. subst ms. clear Hn'.
  destruct (mapM_is_Some_2 (weight g) (neighbors_directed g u Outgoing)) as [cs Hcs].
  { apply Forall_forall. intros v Hv. rewrite (neighbors_outgoing _ g u), elem_of_arcs_from in Hv.
    apply lookup_lt_is_Some. apply (build_graph_in_range vertices edges u v Hv). }
  assert (Hcallees : forall c, c ∈ cs <-> R f c).
  { intros c. rewrite <- (mapM_omap _ _ _ Hcs), list_elem_of_omap. split.
    - intros (v & Hv & Hc). rewrite (neighbors_outgoing _ g u), elem_of_arcs_from in Hv.
      apply Harc in Hv as (a & b & Ha & Hb & Hab).
      pose proof (eq_trans (eq_sym Ha) Hu) as [= ->]. by pose proof (eq_trans (eq_sym Hb) Hc) as [= ->].
    - intros Hc. destruct (calls_declared vertices edges f c Hc) as [_ [v Hv]%list_elem_of_lookup].
      exists v. split; [|done]. rewrite (neighbors_outgoing _ g u), elem_of_arcs_from. apply Harc. eauto. }
  set (ok := forallb (callee_ok (scc_index rows) rows done_list i cyc) cs).
  exists ok, (mkReady f (then_some cyc (as_u32 i)) cyc (if cyc then sort_names names else [f])).
  split_and!.
  - unfold ready_function. rewrite !bool_decide_false by done. simpl. by rewrite Hmu, Hscc, Hrow, Hcs.
  - done.
  - by apply row_entry.
  - assert (Hok : forall c, R f c ->
      (callee_ok (scc_index rows) rows done_list i cyc c = true <-> mutual R f c \/ c ∈ done_list)).
    { intros c. apply callee_ok_spec with names; [done|done|by apply Hcyc]. }
    destruct ok eqn:Heq; unfold ok in Heq.
    + rewrite forallb_true in Heq. intros c Hc. by apply Hok, Heq, Hcallees.
    + apply forallb_false in Heq as (c & Hc & Hno). apply Hcallees in Hc. exists c. split; [done|].
      rewrite <- Hok by done. by rewrite Hno.
Qed.
End ready.

Section ready_list.
Context `{GraphLaws} (vertices : list string) (edges : list (string * string)).
Context (done_list in_progress : list string).

Definition blocked (f : string) : Prop :=
  exists c, calls vertices edges f c /\ ~ (same_cycle vertices edges f c \/ c ∈ done_list).

(** The list is computed; what is and what is not on it. *)
Lemma ready_list_spec : exists out, compute_ready_functions vertices edges done_list in_progress = Some out /\
  StronglySorted ready_le out /\
  (forall r, r ∈ out -> rf_function r ∈ vertices /\ rf_function r ∉ done_list /\ rf_function r ∉ in_progress /\
    good_entry vertices edges r /\
    forall c, calls vertices edges (rf_function r) c -> same_cycle vertices edges (rf_function r) c \/ c ∈ done_list) /\
  forall f, f ∈ vertices -> f ∉ done_list -> f ∉ in_progress ->
    (exists r, r ∈ out /\ rf_function r = f) \/ blocked f.
Proof.
  destruct (scc_rows_spec vertices edges) as (rows & ns & Hrows & Hp & Hlen & Hgood).
  pose proof (ready_function_spec vertices edges rows ns Hp Hlen Hgood done_list in_progress) as Hready.
  unfold compute_ready_functions. destruct (build_graph vertices edges) as [g m] eqn:Hb. simpl in *.
  rewrite Hrows. set (F := ready_function g m (scc_index rows) rows done_list in_progress) in *.
  assert (Hskip : forall f, f ∈ done_list \/ f ∈ in_progress -> F f = Some None).
  { intros f Hf. unfold F, ready_function.
    assert ((bool_decide (f ∈ done_list) || bool_decide (f ∈ in_progress)) = true) as ->; [|done].
    rewrite orb_true_iff, !bool_decide_eq_true. done. }
  destruct (mapM_is_Some_2 F vertices) as [os Hos].
  { apply Forall_forall. intros f Hf. unfold compose. destruct (decide (f ∈ done_list)); [rewrite Hskip by auto; by eexists|].
    destruct (decide (f ∈ in_progress)); [rewrite Hskip by auto; by eexists|].
    destruct (Hready f) as (ok & r & HF & _); [done..|]. rewrite HF. by eexists. }
  rewrite Hos. eexists. split; [done|].
  assert (Hin : forall r, r ∈ merge_sort ready_le (collect_some (fun o => o) os) <->
    exists f, f ∈ vertices /\ F f = Some (Some r)).
  { intros r. rewrite (merge_sort_Permutation ready_le), elem_of_collect_some. apply mapM_Some in Hos. split.
    - intros (o & [i Ho]%list_elem_of_lookup & ->). destruct (Forall2_lookup_r _ _ _ _ _ Hos Ho) as (f & Hf & HF).
      exists f. split; [by eapply list_elem_of_lookup_2|done].
    - intros (f & [i Hf]%list_elem_of_lookup & HF). exists (Some r). split; [|done].
      destruct (Forall2_lookup_l _ _ _ _ _ Hos Hf) as (o & Ho & HF'). rewrite HF in HF'. injection HF' as <-.
      by eapply list_elem_of_lookup_2. }
  split_and!.
  - apply StronglySorted_merge_sort.
    + intros a b c. apply (transitivity (R := str_le)).
    + intros a b. exact (base.total str_le (rf_function a) (rf_function b)).
  - intros r (f & Hf & HF)%Hin. destruct (decide (f ∈ done_list)) as [Hd|Hd]; [rewrite Hskip in HF by auto; done|].
    destruct (decide (f ∈ in_progress)) as [Hi|Hi]; [rewrite Hskip in HF by auto; done|].
    destruct (Hready f Hf Hd Hi) as (ok & r' & HF' & <- & Hg & Hok). fold F in HF'. rewrite HF in HF'.
    injection HF' as HF'. symmetry in HF'. apply then_some_Some in HF' as [-> ->]. done.
  - intros f Hf Hd Hi. destruct (Hready f Hf Hd Hi) as (ok & r & HF & Hrf & _ & Hok).
    destruct ok; [left|by right]. exists r. split; [|done]. apply Hin. exists f. by split.
Qed.
End ready_list.

(** Going down to a callee that holds its caller back ends at a ready function. *)
Lemma ready_progress `{GraphLaws} vertices edges done_list in_progress f :
  f ∈ vertices -> f ∉ done_list ->
  (forall h, rtc (calls vertices edges) f h -> h ∉ done_list -> h ∉ in_progress) ->
  exists out r, compute_ready_functions vertices edges done_list in_progress = Some out /\
    r ∈ out /\ rtc (calls vertices edges) f (rf_function r).
Proof.
  intros Hf Hd Hrun. destruct (order_computed vertices edges) as (levels & _ & Hcf).
  destruct (ready_list_spec vertices edges done_list in_progress) as (out & Hout & _ & _ & Hready).
  exists out. cut (exists r, r ∈ out /\ rtc (calls vertices edges) f (rf_function r)).
  { intros (r & ? & ?). by exists r. }
  destruct (member_of_group _ _ _ Hcf f Hf) as (a & Ha & Hfa).
  remember (scc_level a) as n eqn:Hn. revert f a Hf Hd Hrun Ha Hfa Hn.
  induction n as [n IH] using lt_wf_ind. intros f a Hf Hd Hrun Ha Hfa ->.
  destruct (Hready f Hf Hd) as [(r & Hr & <-)|(c & Hc & Hno)]; [by apply Hrun| |].
  { exists r. by split. }
  assert (Hcv : c ∈ vertices) by apply Hc. destruct (member_of_group _ _ _ Hcf c Hcv) as (b & Hb & Hcb).
  destruct (cf_calls _ _ _ Hcf a b f c Ha Hb Hfa Hcb Hc) as [->|Hlt].
  { destruct Hno. left. by apply (cf_groups _ _ _ Hcf b f c). }
  destruct (IH (scc_level b) Hlt c b) as (r & Hr & Hp); try done.
  - intros Hcd. by apply Hno; right.
  - intros h Hh. apply Hrun. by eapply rtc_l.
  - exists r. split; [done|]. by eapply rtc_l.
Qed.

(** The stored order has only functions with a body. *)
Lemma tool_order_defined `{GraphOps} s s' order f : compute_topological_order_tool s = Some (s', order) ->
  f ∈ order.1 -> exists i, functions s !! f = Some i /\ fi_defined i = true.
Proof.
  unfold compute_topological_order_tool. destruct (callgraph_by_name s) as [vertices edges].
  destruct (compute_topological_order vertices edges) as [levels|]; [|done].
  set (defined := list_to_set _ : gset string). intros Ht Hf.
  assert (Hd : f ∈ (flatten_levels_to_vo_scc levels defined).1).
  { destruct (flatten_levels_to_vo_scc levels defined) as [vo gs]. by injection Ht as _ <-. }
  rewrite flattened, elem_of_bfilter, bool_decide_eq_true in Hd. destruct Hd as [_ Hd].
  unfold defined in Hd. apply elem_of_list_to_set, elem_of_bfilter in Hd as [_ Hd].
  destruct (functions s !! f) as [i|]; [|done]. by exists i.
Qed.

(** * Properties *)

Section properties.
Context `{GraphLaws}.

(** C30: The order is computed for every call graph, without a panic and within the
    loop's bound.  Each declared function is in one group; two functions share a
    group exactly when they call each other; a group is marked a cycle exactly when
    its functions are recursive; a call goes to the same group or to a lower level,
    and a group is just one above its highest callee; ids count up along the levels. *)
Theorem topological_order_spec vertices edges :
  exists levels, compute_topological_order vertices edges = Some levels /\
    callees_first vertices edges levels.
Proof. apply order_computed. Qed.

(** The tool always stores an order, and nothing else: each function of the call
    graph that has a body is in it exactly once, after every function with a body
    that it reaches through calls and that does not reach it back; the order is the
    groups' members, one group after the other. *)
Theorem verification_order_stored s : exists ps,
  let calls := calls (callgraph_by_name s).1 (callgraph_by_name s).2 in
  let vo := verification_order ps in
  compute_topological_order_tool s = Some (project_state_mut (fun _ => ps) s, (vo, scc_groups ps)) /\
  project_source_files ps = unwrap_or (project_source_files <$> project_state s) [] /\
  vo = flat_map members (scc_groups ps) /\ NoDup vo /\
  (forall f, f ∈ vo <-> f ∈ (callgraph_by_name s).1 /\ exists i, functions s !! f = Some i /\ fi_defined i = true) /\
  forall l1 f l2 h, vo = l1 ++ f :: l2 -> rtc calls f h -> h ∈ vo -> mutual calls f h \/ h ∈ l1.
Proof.
  unfold compute_topological_order_tool. destruct (callgraph_by_name s) as [vertices edges]. cbn [fst snd].
  destruct (order_computed vertices edges) as (levels & -> & Hcf).
  set (defined := list_to_set _ : gset string).
  assert (Hdef : forall f, f ∈ defined <-> exists i, functions s !! f = Some i /\ fi_defined i = true).
  { intros f. unfold defined. rewrite elem_of_list_to_set, elem_of_bfilter, list_elem_of_fmap. split.
    - intros [_ Hd]. destruct (functions s !! f) as [i|]; [|done]. by exists i.
    - intros (i & Hi & Hd). rewrite Hi. split; [|done]. exists (f, i). by rewrite elem_of_map_to_list. }
  destruct (flatten_spec vertices edges levels Hcf defined) as (Hnd & Hin & Hord).
  destruct (flatten_levels_to_vo_scc levels defined) as [vo gs] eqn:Hfl.
  exists (mkProjectState (unwrap_or (project_source_files <$> project_state s) []) vo gs). cbn [fst snd verification_order scc_groups project_source_files] in *.
  split_and!; [|done| |done| |].
  - unfold project_state_mut. by destruct (project_state s).
  - unfold flatten_levels_to_vo_scc in Hfl. by injection Hfl as <- <-.
  - intros f. by rewrite Hin, Hdef.
  - intros l1 f l2 h Hl Hp [Hh Hd]%Hin. by apply (Hord l1 f l2 h).
Qed.

(** The functions offered next are exactly those declared, neither done nor
    running, all of whose callees are done or in the same recursion; each with the
    right mark for recursion and the sorted functions it recurses with. *)
Theorem ready_functions_spec vertices edges done_list in_progress : exists out,
  compute_ready_functions vertices edges done_list in_progress = Some out /\
  StronglySorted ready_le out /\ (forall r, r ∈ out -> good_entry vertices edges r) /\
  forall f, f ∈ map rf_function out <-> f ∈ vertices /\ f ∉ done_list /\ f ∉ in_progress /\
    forall c, calls vertices edges f c -> same_cycle vertices edges f c \/ c ∈ done_list.
Proof.
  destruct (ready_list_spec vertices edges done_list in_progress) as (out & Hout & Hs & Hr & Hf).
  exists out. split_and!; [done|done|by intros r Hin; apply Hr|].
  intros f. rewrite list_elem_of_fmap. split.
  - intros (r & -> & Hin). destruct (Hr r Hin) as (? & ? & ? & _ & ?). done.
  - intros (Hv & Hd & Hi & Hc). destruct (Hf f Hv Hd Hi) as [(r & Hin & <-)|(c & Hfc & Hno)]; [by exists r|].
    by destruct Hno; apply Hc.
Qed.

(** Work never runs dry: below every function that is not done, when nothing
    below it is running, some function is ready. *)
Theorem ready_functions_progress vertices edges done_list in_progress f :
  f ∈ vertices -> f ∉ done_list ->
  (forall h, rtc (calls vertices edges) f h -> h ∉ done_list -> h ∉ in_progress) ->
  exists out r, compute_ready_functions vertices edges done_list in_progress = Some out /\
    r ∈ out /\ rtc (calls vertices edges) f (rf_function r).
Proof. apply ready_progress. Qed.
End properties.

(** ** Witnesses *)

(** A program whose parser and evaluator call each other. *)
Definition demo_vertices : list string := ["main"; "parse"; "eval"; "log"; "printf"].
Definition demo_edges : list (string * string) :=
  [("main", "parse"); ("main", "log"); ("parse", "eval"); ("eval", "parse"); ("eval", "log");
   ("log", "printf"); ("log", "exit")].

Definition demo_levels : list Level :=
  [mkLevel 0 [mkSccGroup 0 ["printf"] 0 false]; mkLevel 1 [mkSccGroup 1 ["log"] 1 false];
   mkLevel 2 [mkSccGroup 2 ["eval"; "parse"] 2 true]; mkLevel 3 [mkSccGroup 3 ["main"] 3 false]].

Lemma topological_order_witness :
  @compute_topological_order list_graph demo_vertices demo_edges = Some demo_levels /\
  exists levels, @compute_topological_order list_graph demo_vertices demo_edges = Some levels /\
    callees_first demo_vertices demo_edges levels.
Proof.
  split; [vm_compute; reflexivity|].
  exact (@topological_order_spec list_graph list_graph_laws demo_vertices demo_edges).
Defined.

Definition demo_function (defined : bool) (name : string) : string * FunctionInfo :=
  (name, mkFunctionInfo name "" "" "" "demo.c" 1 defined).

Definition demo_session : SessionState :=
  mkSession true false false
    (list_to_map (demo_function false "printf" :: map (demo_function true) ["main"; "parse"; "eval"; "log"]))
    ∅ ∅ (map (fun e => mkCallEdge e.1 e.2 "") demo_edges) (map (fun v => mkCallVertex v v) demo_vertices)
    ∅ None ∅ None [].

Lemma verification_order_witness :
  option_map (fun r => r.2.1) (@compute_topological_order_tool list_graph demo_session) =
    Some ["log"; "eval"; "parse"; "main"] /\
  exists ps,
    let calls := calls (callgraph_by_name demo_session).1 (callgraph_by_name demo_session).2 in
    let vo := verification_order ps in
    @compute_topological_order_tool list_graph demo_session =
      Some (project_state_mut (fun _ => ps) demo_session, (vo, scc_groups ps)) /\
    project_source_files ps = unwrap_or (project_source_files <$> project_state demo_session) [] /\
    vo = flat_map members (scc_groups ps) /\ NoDup vo /\
    (forall f, f ∈ vo <-> f ∈ (callgraph_by_name demo_session).1 /\
      exists i, functions demo_session !! f = Some i /\ fi_defined i = true) /\
    forall l1 f l2 h, vo = l1 ++ f :: l2 -> rtc calls f h -> h ∈ vo -> mutual calls f h \/ h ∈ l1.
Proof.
  split; [vm_compute; reflexivity|].
  exact (@verification_order_stored list_graph list_graph_laws demo_session).
Defined.

Definition demo_ready : list ReadyFunc :=
  [mkReady "eval" (Some 1%N) true ["eval"; "parse"]; mkReady "parse" (Some 1%N) true ["eval"; "parse"]].

Lemma ready_functions_witness :
  @compute_ready_functions list_graph demo_vertices demo_edges ["log"; "printf"] [] = Some demo_ready /\
  exists out, @compute_ready_functions list_graph demo_vertices demo_edges ["log"; "printf"] [] = Some out /\
    StronglySorted ready_le out /\ (forall r, r ∈ out -> good_entry demo_vertices demo_edges r) /\
    forall f, f ∈ map rf_function out <->
      f ∈ demo_vertices /\ f ∉ ["log"; "printf"] /\ f ∉ [] /\
      forall c, calls demo_vertices demo_edges f c ->
        same_cycle demo_vertices demo_edges f c \/ c ∈ ["log"; "printf"].
Proof.
  split; [vm_compute; reflexivity|].
  exact (@ready_functions_spec list_graph list_graph_laws demo_vertices demo_edges ["log"; "printf"] []).
Defined.

Lemma ready_progress_witness : exists out r,
  @compute_ready_functions list_graph demo_vertices demo_edges ["printf"] [] = Some out /\
  r ∈ out /\ rtc (calls demo_vertices demo_edges) "main" (rf_function r).
Proof.
  apply (@ready_functions_progress list_graph list_graph_laws demo_vertices demo_edges ["printf"] [] "main").
  - decide_closed.
  - decide_closed.
  - intros h _ _ Hh. inversion Hh.
Defined.
