(* ===== verification/Contracts.v ===== *)
(** * What a contract leaves unsaid (src/src/mcp/contracts.rs)

    Two lints read the printed text of a contract: a written location no
    postcondition mentions, and a result that a small range bounds and nothing ties to
    the inputs.  Offsets are byte offsets; every character the scanners stop at is
    ASCII, so a byte of a longer character is a separator as the character is. *)

From S2P Require Import Prelude RustStr BTree Json Pins.
Local Open Scope Z_scope.

(** ** Machine integers

    An [i64] sum in a release build wraps; a debug build panics where it wraps. *)
Definition i64_wrap (z : Z) : Z := (z + 2 ^ 63) mod 2 ^ 64 - 2 ^ 63.

(** [str::parse::<i64>]: one optional sign, then at least one digit. *)
Definition parse_i64 (s : string) : option Z :=
  let value neg body :=
    if is_empty body then None
    else match digits_val digit_val 10 0 body with
         | Some n => opt_filter in_i64 (Some (if neg : bool then - Z.of_N n else Z.of_N n))
         | None => None
         end in
  match s with
  | String c rest =>
    if Ascii.eqb c "-" then value true rest
    else if Ascii.eqb c "+" then value false rest else value false s
  | "" => None
  end.

(** [s.chars().next_back()], where only an ASCII answer matters. *)
Fixpoint last_byte (s : string) : option ascii :=
  match s with
  | "" => None
  | String c "" => Some c
  | String _ s => last_byte s
  end.

(** [s.rfind(f)] for a predicate all continuation bytes satisfy alike: the offset
    after the last character that satisfies it, less one byte. *)
Fixpoint rfind_byte (f : ascii -> bool) (s : string) : option nat :=
  match s with
  | "" => None
  | String c s =>
    match rfind_byte f s with
    | Some i => Some (S i)
    | None => if f c then Some O else None
    end
  end.

(** ** Tokens *)

Definition digit_first (s : string) : bool :=
  match s with String c _ => is_ascii_digit c | "" => false end.

Fixpoint acsl_tokens (current : string) (text : string) : list string :=
  let flush rest := if is_empty current then rest else current :: rest in
  match text with
  | "" => flush []
  | String c text =>
    if ident_char c then acsl_tokens (current +s+ String c "") text
    else flush (acsl_tokens "" text)
  end.

Definition acsl_identifiers (text : string) : list string :=
  bfilter (fun token => negb (digit_first token)) (acsl_tokens "" text).

Definition assigns_target_leaf (target : string) : option string :=
  let cut := match find "[" target, find ".." target with
             | Some a, Some b => Some (Nat.min a b)
             | a, b => a <||> b
             end in
  let base := match cut with Some cut => take_str cut target | None => target end in
  last (acsl_identifiers base) <||> last (acsl_identifiers target).

(** [before] is the character before the token that is being read. *)
Fixpoint applied_from (prev before : ascii) (current : string) (text : string) : list string :=
  match text with
  | "" => []
  | String c text =>
    if ident_char c then
      applied_from c (if is_empty current then prev else before) (current +s+ String c "") text
    else
      let rest := applied_from c before "" text in
      if negb (is_empty current) && Ascii.eqb c "(" && negb (Ascii.eqb before "\")
         && negb (digit_first current)
      then current :: rest else rest
  end.

Definition applied_logic_names (text : string) : list string :=
  btree_set (applied_from zero zero "" text).

(** ** Locations nothing constrains *)

Definition predicate_text_of (entry : json) : option string := entry .? "predicate" ≫= get_str "text".

Definition contract_of (context : json) : option json :=
  opt_filter (fun contract => negb (bool_decide (get_bool "empty" contract = Some true)))
    (context .? "function" ≫= get "contract").

Definition assigns_targets (contract : json) : list json :=
  let assigns := contract .? "assigns" in
  if assigns ≫= get_str "kind" =?s "list" then unwrap_or (assigns ≫= get_arr "assigns") [] else [].

Definition post_texts (contract : json) : list string :=
  collect_some predicate_text_of (unwrap_or (get_arr "ensures" contract) []).

Definition target_leaf (entry : json) (target : string) : option string :=
  get_str "leaf" entry <||> assigns_target_leaf target.

Definition unconstrained_finding (function target leaf unexpanded : string) : json :=
  JObj [("id", JStr ("unconstrained-assigns:" +s+ function +s+ ":" +s+ target));
        ("severity", JStr "medium");
        ("category", JStr "unconstrained_assigns");
        ("function", JStr function);
        ("assigns_target", JStr target);
        ("message", JStr (function +s+ " assigns " +s+ target +s+ ", and no postcondition mentions " +s+ leaf
           +s+ ", so proving this function leaves the written value unconstrained."));
        ("suggested_fix", JStr ("Add an ensures relating " +s+ target +s+ " to the value callers are meant to "
           +s+ "rely on, or drop it from assigns if they are not."));
        ("evidence", JArr [JObj [("field", JStr "contract.assigns.target"); ("value", JStr target)];
                           JObj [("field", JStr "postconditions_not_expanded"); ("value", JStr unexpanded)]])].

Definition target_finding (function : string) (posts : list string) (entry : json) : option json :=
  target ← get_str "target" entry;
  leaf ← target_leaf entry target;
  then_some (negb (bool_decide (leaf ∈ flat_map acsl_identifiers posts)))
    (unconstrained_finding function target leaf (join ", " (btree_set (flat_map applied_logic_names posts)))).

Definition unconstrained_assigns_findings (function : string) (context : json) : list json :=
  match contract_of context with
  | None => []
  | Some contract =>
    let posts := post_texts contract in
    if bool_decide (posts = []) then []
    else collect_some (target_finding function posts) (assigns_targets contract)
  end.

(** ** Spelling *)

Fixpoint normalize_go (fuel : nat) (text : string) : string :=
  match fuel with
  | O => text
  | S fuel =>
    match find_map (fun '(unicode, ascii) => (fun rest => (ascii, rest)) <$> strip_prefix unicode text)
            ACSL_UNICODE_OPERATORS with
    | Some (ascii, rest) => " " +s+ ascii +s+ " " +s+ normalize_go fuel rest
    | None =>
      match ws_char text with
      | Some rest => " " +s+ normalize_go fuel rest
      | None => match text with "" => "" | String c rest => String c (normalize_go fuel rest) end
      end
    end
  end.

Definition strip_label (text : string) : string :=
  match find ":" text with
  | Some i =>
    let label := take_str i text in
    if sall ident_char label && negb (is_empty label) then skip (S i) text else text
  | None => text
  end.

Definition acsl_normalize (text : string) : string :=
  let body := strip_label text in
  join " " (split_whitespace (normalize_go (String.length body) body)).

(** ** Literals beside an operator *)

Definition literal_stands_alone (head : string) (start : nat) : bool :=
  is_none_or (fun c => negb (ident_char c) && negb (bool_decide (c ∈ [")"; "]"; "+"; "-"; "*"; "/"; "%"]%char)))
    (last_byte (trim_end (take_str start head))).

Definition glued_minus (head : string) (i : nat) : bool :=
  starts_with "-" (skip i head)
  && is_none_or (fun c => negb (is_ascii_alphanumeric c) && negb (Ascii.eqb c ")")) (last_byte (take_str i head)).

Definition int_literal_before (text : string) (at_ : nat) : option Z :=
  let head := trim_end (take_str at_ text) in
  let start := match rfind_byte (fun c => negb (is_ascii_digit c)) head with
               | Some i => if glued_minus head i then i else S i
               | None => O
               end in
  if literal_stands_alone head start then parse_i64 (skip start head) else None.

Definition literal_prefix (tail : string) : string :=
  match tail with
  | String c rest =>
    if is_ascii_digit c || Ascii.eqb c "-" then String c (take_while is_ascii_digit rest) else ""
  | "" => ""
  end.

Definition int_literal_after (text : string) (at_ : nat) : option Z :=
  parse_i64 (literal_prefix (trim_start (skip at_ text))).

(** ** The range of the result *)

Definition unconditional_postcondition (entry : json) : bool :=
  is_none_or (fun kind => kind =s "ensures") (get_str "kind" entry)
  && is_none_or (fun behavior => behavior =s "default!") (get_str "behavior" entry).

(** Operator, strictness, and whether a literal to the left is a lower bound; the
    operator's length is the code's second column. *)
Definition COMPARISONS : list (string * Z * bool) :=
  [("<=", 0, true); ("<", 1, true); (">=", 0, false); (">", 1, false)].

(** The low and the high bound. *)
Definition bounds : Type := option Z * option Z.

Definition tighten (literal strict_by : Z) (is_low : bool) (bound : option Z) : option Z :=
  let value := i64_wrap (if is_low then literal + strict_by else literal - strict_by) in
  Some (match bound with
        | Some current => if is_low then Z.max current value else Z.min current value
        | None => value
        end).

Definition bound_of (is_low : bool) (f : option Z -> option Z) (b : bounds) : bounds :=
  if is_low then (f b.1, b.2) else (b.1, f b.2).

Definition tighten_by (literal : option Z) (strict_by : Z) (is_low : bool) (b : bounds) : bounds :=
  match literal with
  | Some v => bound_of is_low (tighten v strict_by is_low) b
  | None => b
  end.

(** Where the result is named. *)
Definition RESULT : string := "\result".

Fixpoint results_from (fuel from : nat) (text : string) : list nat :=
  match fuel with
  | O => []
  | S fuel =>
    match find RESULT (skip from text) with
    | None => []
    | Some rel => (from + rel)%nat :: results_from fuel (from + rel + 7) text
    end
  end.
Definition results_in (text : string) : list nat := results_from (String.length text) 0 text.

(** The text before an occurrence, the text after it, and where that starts. *)
Definition left_of (text : string) (at_ : nat) : string := trim_end (take_str at_ text).
Definition right_of (text : string) (at_ : nat) : string := trim_start (skip (at_ + 7) text).
Definition right_at (text : string) (at_ : nat) : nat :=
  (at_ + 7 + (String.length (skip (at_ + 7) text) - String.length (right_of text at_)))%nat.

Definition lax_prefix (op rhs : string) : bool :=
  (String.length op =? 1)%nat && (match String.get 1 rhs with Some c => Ascii.eqb c "=" | None => false end).

Definition read_comparison (text : string) (at_ : nat) (b : bounds) (row : string * Z * bool) : bounds :=
  let '(op, strict_by, left_is_low) := row in
  let lhs := left_of text at_ in
  let rhs := right_of text at_ in
  let before := if ends_with op lhs then int_literal_before text (String.length lhs - String.length op) else None in
  let after := if starts_with op rhs && negb (lax_prefix op rhs)
               then int_literal_after text (right_at text at_ + String.length op) else None in
  tighten_by after strict_by (negb left_is_low) (tighten_by before strict_by left_is_low b).

Definition read_bounds (text : string) (b : bounds) (at_ : nat) : bounds :=
  fold_left (read_comparison text at_) COMPARISONS b.

Definition bounds_in (b : bounds) (text : string) : bounds := fold_left (read_bounds text) (results_in text) b.

Definition result_range (texts : list string) : option (Z * Z) :=
  match fold_left bounds_in texts (None, None) with
  | (Some l, Some h) => then_some (l <=? h) (l, h)
  | _ => None
  end.

(** ** The values that are determined *)

Definition read_equality (text : string) (out : gset Z) (at_ : nat) : gset Z :=
  let rhs := right_of text at_ in
  let lhs := left_of text at_ in
  let on_the_right :=
    if is_some_and (fun rest => negb (starts_with ">" rest)) (strip_prefix "==" rhs)
    then int_literal_after text (right_at text at_ + 2) else None in
  let on_the_left := if ends_with "==" lhs then int_literal_before text (String.length lhs - 2) else None in
  let add v := match v with Some v => {[v]} | None => ∅ : gset Z end in
  out ∪ add on_the_right ∪ add on_the_left.

Definition determined_in (out : gset Z) (text : string) : gset Z :=
  if contains "<==>" text then fold_left (read_equality text) (results_in text) out else out.

Definition result_values_determined (texts : list string) : gset Z := fold_left determined_in texts ∅.

(** ** The lint *)

Definition MAX_ENUMERABLE : Z := 8.

Definition unconditional_texts (contract : json) : list string :=
  map acsl_normalize
    (collect_some predicate_text_of (bfilter unconditional_postcondition (unwrap_or (get_arr "ensures" contract) []))).

(** The values of the range [low..=high] that are not determined, in order. *)
Definition undetermined_values (low high : Z) (determined : gset Z) : list Z :=
  bfilter (fun v => negb (bool_decide (v ∈ determined))) (seqZ low (high - low + 1)).

Definition show_all (l : list Z) : string := join ", " (map pretty l).

Definition result_finding (function : string) (low high : Z) (determined : gset Z) (listed : string) : json :=
  let range := (pretty low : string) +s+ ".." +s+ pretty high in
  JObj [("id", JStr ("result-unconstrained:" +s+ function));
        ("severity", JStr "medium");
        ("category", JStr "result_unconstrained");
        ("function", JStr function);
        ("result_range", JStr range);
        ("undetermined_results", JStr listed);
        ("message", JStr (function +s+ " bounds its result to " +s+ range +s+ " but never says which "
           +s+ "input yields " +s+ listed +s+ ", so proving it does not pin down what it returns."));
        ("suggested_fix", JStr ("Characterize the remaining results, one ensures per value in the form "
           +s+ "\result == V <==> <condition on the parameters>."));
        ("evidence", JArr [JObj [("field", JStr "result_values_determined");
           ("value", JStr (show_all (merge_sort Z.le (elements determined))))]])].

(** The range whose values are listed, when it is taken to be small enough. *)
Definition enumerated_range (texts : list string) : option (Z * Z) :=
  opt_filter (fun range => i64_wrap (i64_wrap (range.2 - range.1) + 1) <=? MAX_ENUMERABLE) (result_range texts).

Definition result_unconstrained_findings (function : string) (context : json) : list json :=
  match contract_of context with
  | None => []
  | Some contract =>
    let texts := unconditional_texts contract in
    match enumerated_range texts with
    | None => []
    | Some (low, high) =>
      let determined := result_values_determined texts in
      let undetermined := undetermined_values low high determined in
      if (length undetermined <? 2)%nat then []
      else [result_finding function low high determined (show_all undetermined)]
    end
  end.

(** ** Lemmas: numbers in text *)

Lemma digits_val_app (a b : string) acc :
  digits_val digit_val 10 acc (a +s+ b)
  = match digits_val digit_val 10 acc a with Some n => digits_val digit_val 10 n b | None => None end.
Proof. revert acc. induction a as [|c a IH]; intros acc; simpl; [done|]. destruct (digit_val c); [apply IH|done]. Qed.

Definition digits_of (z : Z) : string := pretty (Z.to_N (Z.abs z)).

Lemma pretty_Z_shape (z : Z) : (pretty z : string) = (if z <? 0 then "-" else "") +s+ digits_of z.
Proof. destruct z; reflexivity. Qed.

Lemma parse_pretty (z : Z) : in_i64 z = true -> parse_i64 (pretty z) = Some z.
Proof.
  intros Hz. rewrite pretty_Z_shape. unfold digits_of.
  destruct (pretty_digits (Z.to_N (Z.abs z))) as (Hv & _ & c & s & E & Hc). rewrite E in *.
  destruct (Z.ltb_spec z 0) as [Hlt|Hge].
  - change (parse_i64 (String "-" (String c s)) = Some z). unfold parse_i64. simpl Ascii.eqb. cbv iota. cbn [is_empty].
    rewrite Hv. replace (- Z.of_N (Z.to_N (Z.abs z))) with z by lia. simpl. by rewrite Hz.
  - cbn [String.append]. unfold parse_i64.
    assert (Ascii.eqb c "-" = false /\ Ascii.eqb c "+" = false) as [-> ->].
    { split; destruct (Ascii.eqb_spec c "-"), (Ascii.eqb_spec c "+"); by subst. }
    cbn [is_empty]. rewrite Hv. replace (Z.of_N (Z.to_N (Z.abs z))) with z by lia. simpl. by rewrite Hz.
Qed.

(** ** Contracts as Frama-C prints them

    A clause is a line of words: a comparison of the result with a literal on one side
    or on both, or the condition of one value.  Frama-C prints the operators in
    Unicode; [acsl_normalize] reads them back. *)

Inductive cmp := CLe | CLt | CGe | CGt.

Definition holds_cmp (c : cmp) (a b : Z) : Prop :=
  match c with CLe => a <= b | CLt => a < b | CGe => a >= b | CGt => a > b end.
Definition ascii_op (c : cmp) : string := match c with CLe => "<=" | CLt => "<" | CGe => ">=" | CGt => ">" end.
Definition printed_op (c : cmp) : string := match c with CLe => "≤" | CLt => "<" | CGe => "≥" | CGt => ">" end.

Inductive Clause :=
  | CBound (left : option (Z * cmp)) (right : option (cmp * Z))
  | CIff (v : Z) (condition : list string).

(** The words of a clause, with the operators spelled by [op], [eq] and [iff]. *)
Definition clause_words (op : cmp -> string) (eq iff : string) (c : Clause) : list string :=
  match c with
  | CBound l r =>
    (match l with Some (v, o) => [(pretty v : string); op o] | None => [] end)
    ++ RESULT :: (match r with Some (o, v) => [op o; (pretty v : string)] | None => [] end)
  | CIff v condition => RESULT :: eq :: (pretty v : string) :: iff :: condition
  end.
Definition printed (c : Clause) : string := join " " (clause_words printed_op "≡" "⇔" c).
Definition spelled (c : Clause) : string := join " " (clause_words ascii_op "==" "<==>" c).

(** What a clause says of the result. *)
Definition holds (c : Clause) (r : Z) : Prop :=
  match c with
  | CBound l rt =>
    (match l with Some (v, o) => holds_cmp o v r | None => True end)
    /\ (match rt with Some (o, v) => holds_cmp o r v | None => True end)
  | CIff _ _ => True
  end.

Definition literal_ok (v : Z) : Prop := - 2 ^ 61 <= v < 2 ^ 61.

(** A word of a condition names no result and is no label. *)
Definition condition_word (w : string) : bool :=
  is_word w && sall (fun c => negb (Ascii.eqb c "\") && negb (Ascii.eqb c ":")) w.

Definition clause_ok (c : Clause) : Prop :=
  match c with
  | CBound l r => from_option (fun p => literal_ok p.1) True l /\ from_option (fun p => literal_ok p.2) True r
  | CIff v condition => literal_ok v /\ forallb condition_word condition = true
  end.

(** ** Lemmas: normalizing printed words *)

Lemma operators_nonempty u a : (u, a) ∈ ACSL_UNICODE_OPERATORS -> (0 < String.length u)%nat.
Proof.
  intros Hin. repeat (apply elem_of_cons in Hin as [[= -> ->]|Hin]; [simpl; lia|]). by apply elem_of_nil in Hin.
Qed.

Lemma normalize_enough s : forall fuel fuel', (String.length s <= fuel)%nat -> (String.length s <= fuel')%nat ->
  normalize_go fuel s = normalize_go fuel' s.
Proof.
  induction (Nat.lt_wf_0_projected String.length s) as [s _ IH].
  intros [|fuel] [|fuel'] H H'; try (destruct s; [done|simpl in *; lia]).
  cbn [normalize_go]. destruct (find_map _ ACSL_UNICODE_OPERATORS) as [[a rest]|] eqn:E.
  - do 3 f_equal. apply find_map_Some in E as ([u a'] & Hin & E). apply fmap_Some in E as (rest' & E & [= -> ->]).
    apply strip_prefix_Some in E as ->. rewrite length_app_str in *.
    assert (0 < String.length u)%nat by (eapply operators_nonempty; eauto).
    apply IH; rewrite ?length_app_str; lia.
  - destruct (ws_char s) as [rest|] eqn:Ew.
    + apply ws_char_length in Ew. f_equal. apply IH; lia.
    + destruct s as [|c s]; [done|]. simpl in *. f_equal. apply IH; simpl; lia.
Qed.

Definition normalize (s : string) : string := normalize_go (String.length s) s.

Lemma not_an_operator c s : (byte_val c < 128)%N ->
  find_map (fun '(unicode, ascii) => (fun rest => (ascii, rest)) <$> strip_prefix unicode (String c s))
    ACSL_UNICODE_OPERATORS = None.
Proof.
  intros Hc. apply find_map_None. intros [u a] Hin. rewrite fmap_None. destruct (strip_prefix u _) eqn:E; [|done].
  apply strip_prefix_Some in E. exfalso.
  repeat (apply elem_of_cons in Hin as [[= -> ->]|Hin]; [simpl in E; injection E as -> _; cbv in Hc; discriminate|]).
  by apply elem_of_nil in Hin.
Qed.

Lemma graphic_ascii c : graphic c = true -> (byte_val c < 128)%N.
Proof. unfold graphic, in_range. rewrite andb_true_iff, !N.leb_le. lia. Qed.

Lemma normalize_word w s : sall graphic w = true -> normalize (w +s+ s) = w +s+ normalize s.
Proof.
  induction w as [|c w IH]; intros Hw; [done|]. cbn [sall] in Hw. apply andb_true_iff in Hw as [Hc Hw].
  change ((String c w) +s+ s) with (String c (w +s+ s)). unfold normalize. cbn [String.length normalize_go].
  rewrite not_an_operator, graphic_not_ws by (done || by apply graphic_ascii). simpl. f_equal. by apply IH.
Qed.

Lemma normalize_blank s : normalize (String " " s) = String " " (normalize s).
Proof. unfold normalize. cbn [String.length normalize_go]. by rewrite not_an_operator. Qed.

Lemma normalize_go_op u a s k : (u, a) ∈ ACSL_UNICODE_OPERATORS ->
  normalize_go (S k) (u +s+ s) = " " +s+ a +s+ " " +s+ normalize_go k s.
Proof.
  intros Hin. repeat (apply elem_of_cons in Hin as [[= -> ->]|Hin]; [reflexivity|]).
  by apply elem_of_nil in Hin.
Qed.

Lemma normalize_op u a s : (u, a) ∈ ACSL_UNICODE_OPERATORS -> normalize (u +s+ s) = " " +s+ a +s+ " " +s+ normalize s.
Proof.
  intros Hin. unfold normalize. rewrite length_app_str. pose proof (operators_nonempty _ _ Hin) as Hu.
  destruct (String.length u) as [|n]; [lia|]. rewrite Nat.add_succ_l.
  rewrite (normalize_go_op u a s _ Hin). do 3 f_equal. apply normalize_enough; lia.
Qed.

(** Printed words and the words they are read as. *)
Definition reads_as (u a : string) : Prop :=
  is_word a = true /\ (u = a \/ (u, a) ∈ ACSL_UNICODE_OPERATORS).

Lemma word_sall w : is_word w = true -> sall graphic w = true.
Proof. unfold is_word. by intros [_ ?]%andb_true_iff. Qed.

Lemma normalize_words us ws : Forall2 reads_as us ws -> split_whitespace (normalize (join " " us)) = ws.
Proof.
  induction 1 as [|u w us ws [Hw Hu] Hall IH]; [done|].
  assert (Hrest : forall rest, split_whitespace (normalize rest) = ws ->
    split_whitespace (normalize (u +s+ String " " rest)) = w :: ws).
  { intros rest Hr. destruct Hu as [->|Hu].
    - rewrite normalize_word, normalize_blank by by apply word_sall.
      by rewrite (proj1 (split_whitespace_word _ _ Hw)), Hr.
    - rewrite (normalize_op _ _ _ Hu), normalize_blank. simpl. rewrite split_whitespace_blank.
      rewrite (proj1 (split_whitespace_word _ _ Hw)). by rewrite split_whitespace_blank, Hr. }
  destruct Hall as [|u' w' us ws Hu' Hall].
  - simpl. destruct Hu as [->|Hu].
    + rewrite <- (app_str_nil_r w) at 1. rewrite normalize_word by by apply word_sall.
      rewrite app_str_nil_r. by apply split_whitespace_word.
    + rewrite <- (app_str_nil_r u), (normalize_op _ _ _ Hu). simpl. rewrite split_whitespace_blank.
      by rewrite (proj1 (split_whitespace_word _ _ Hw)).
  - apply (Hrest _ IH).
Qed.

(** ** Lemmas: where a clause names the result *)

Lemma sall_join f ws : f " "%char = true -> forallb (sall f) ws = true -> sall f (join " " ws) = true.
Proof.
  intros Hb. induction ws as [|w ws IH]; simpl; [done|]. rewrite andb_true_iff. intros [Hw Hws].
  destruct ws as [|w' ws]; [done|]. change (String.concat " " (w :: w' :: ws)) with (w +s+ String " " (join " " (w' :: ws))).
  rewrite sall_app, Hw. simpl. rewrite Hb. by apply IH.
Qed.

Lemma find_free c needle s : free_of c s = true -> find (String c needle) s = None.
Proof.
  unfold find, free_of. induction s as [|d s IH]; simpl; [done|]. rewrite andb_true_iff, negb_true_iff, Ascii.eqb_neq.
  intros [Hne Hs]. destruct (ascii_dec c d) as [->|_]; [done|]. by rewrite IH.
Qed.

Lemma prefix_app p s : String.prefix p (p +s+ s) = true.
Proof. induction p as [|c p IH]; simpl; [by destruct s|]. by destruct (ascii_dec c c). Qed.

Lemma find_after c needle a b : free_of c a = true ->
  find (String c needle) (a +s+ String c needle +s+ b) = Some (String.length a).
Proof.
  unfold find, free_of. intros Ha. induction a as [|d a IH].
  - change ("" +s+ String c needle +s+ b) with (String c (needle +s+ b)). cbn [String.index].
    change (String c (needle +s+ b)) with (String c needle +s+ b). by rewrite prefix_app.
  - simpl in Ha. apply andb_true_iff in Ha as [Hne Ha]. apply negb_true_iff, Ascii.eqb_neq in Hne.
    specialize (IH Ha). set (t := String c needle +s+ b) in *.
    cbn [String.append String.index String.prefix String.length]. destruct (ascii_dec c d) as [->|_]; [done|]. by rewrite IH.
Qed.

(** A text that names the result once. *)
Lemma results_in_once left right : free_of "\" left = true -> free_of "\" right = true ->
  results_in (left +s+ RESULT +s+ right) = [String.length left].
Proof.
  intros Hl Hr. unfold results_in.
  assert (Hf : exists n, String.length (left +s+ RESULT +s+ right) = S (S n)).
  { exists (String.length left + 5 + String.length right)%nat. rewrite !length_app_str. simpl. lia. }
  destruct Hf as [n ->]. cbn [results_from skip]. unfold RESULT at 1. rewrite (find_after "\" "result" _ _ Hl).
  rewrite Nat.add_0_l. cbn [results_from].
  assert (skip (String.length left + 7) (left +s+ RESULT +s+ right) = right) as ->.
  { rewrite <- app_str_assoc. replace (String.length left + 7)%nat with (String.length (left +s+ RESULT)).
    - by rewrite skip_exact.
    - by rewrite length_app_str. }
  unfold RESULT. by rewrite find_free.
Qed.

Lemma pretty_word (z : Z) : is_word (pretty z) = true /\ sall (fun c => is_ascii_digit c || Ascii.eqb c "-") (pretty z) = true.
Proof.
  rewrite pretty_Z_shape. unfold digits_of. destruct (pretty_digits (Z.to_N (Z.abs z))) as (_ & Hd & c & s & E & _).
  assert (Hg : sall graphic (pretty (Z.to_N (Z.abs z))) = true).
  { revert Hd. apply sall_impl. intros d. unfold is_ascii_digit, graphic, in_range.
    rewrite !andb_true_iff, !N.leb_le. lia. }
  assert (Hi : sall (fun c => is_ascii_digit c || Ascii.eqb c "-") (pretty (Z.to_N (Z.abs z))) = true).
  { revert Hd. apply sall_impl. intros d ->. done. }
  destruct (z <? 0); unfold is_word; cbn [String.append]; rewrite E in *; split; simpl in *; by rewrite ?Hg, ?Hi.
Qed.

Lemma pretty_free c (z : Z) : is_ascii_digit c || Ascii.eqb c "-" = false -> free_of c (pretty z) = true.
Proof.
  intros Hc. destruct (pretty_word z) as [_ H]. revert H. apply sall_impl. intros d Hd.
  destruct (Ascii.eqb_spec d c) as [->|]; [congruence|done].
Qed.

(** ** Lemmas: normalizing a clause *)

Definition label_ok (label : string) : bool := negb (is_empty label) && sall ident_char label.

(** A clause as Frama-C prints it, after its label when it has one. *)
Definition labelled (label : option string) (c : Clause) : string :=
  match label with Some l => l +s+ ":" +s+ " " +s+ printed c | None => printed c end.

Lemma condition_word_ok w : condition_word w = true ->
  is_word w = true /\ free_of "\" w = true /\ free_of ":" w = true.
Proof.
  unfold condition_word. intros [Hw H]%andb_true_iff. split; [done|].
  split; revert H; apply sall_impl; by intros c [? ?]%andb_true_iff.
Qed.

Lemma words_read c : clause_ok c -> Forall2 reads_as (clause_words printed_op "≡" "⇔" c) (clause_words ascii_op "==" "<==>" c).
Proof.
  assert (Hv : forall z : Z, reads_as (pretty z) (pretty z)) by (intros z; split; [apply pretty_word|by left]).
  assert (Ho : forall o, reads_as (printed_op o) (ascii_op o)) by (intros []; split; try done; try (by left); right; set_solver).
  assert (Hr : reads_as RESULT RESULT) by (split; [done|by left]).
  intros Hc. destruct c as [l r|v condition]; simpl.
  - destruct l as [[v o]|], r as [[o' v']|]; simpl; repeat (apply Forall2_cons_2; [auto|]); apply Forall2_nil_2.
  - destruct Hc as [_ Hc]. apply Forall2_cons_2; [done|]. apply Forall2_cons_2; [split; [done|right; set_solver]|].
    apply Forall2_cons_2; [done|]. apply Forall2_cons_2; [split; [done|right; set_solver]|].
    induction condition as [|w condition IH]; [done|]. simpl in Hc. apply andb_true_iff in Hc as [Hw Hc].
    constructor; [|by apply IH]. split; [by apply condition_word_ok|by left].
Qed.

Lemma clause_free_of_colon c : clause_ok c -> free_of ":" (printed c) = true.
Proof.
  assert (Hp : forall z : Z, sall (fun d => negb (Ascii.eqb d ":")) (pretty z) = true) by (intros z; by apply pretty_free).
  intros Hc. apply sall_join; [done|]. destruct c as [l r|v condition]; simpl.
  - destruct l as [[v []]|], r as [[[] v']|]; simpl; rewrite ?Hp; done.
  - rewrite Hp. simpl. destruct Hc as [_ Hc]. revert Hc. rewrite !forallb_forall.
    intros H w Hw. by apply condition_word_ok, H.
Qed.

Lemma ident_free_of_colon label : sall ident_char label = true -> free_of ":" label = true.
Proof. apply sall_impl. intros c Hc. destruct (Ascii.eqb_spec c ":") as [->|]; done. Qed.

Lemma normalize_clause label c : from_option label_ok true label = true -> clause_ok c ->
  acsl_normalize (labelled label c) = spelled c.
Proof.
  intros Hl Hc. pose proof (normalize_words _ _ (words_read c Hc)) as Hw. fold (printed c) in Hw.
  unfold acsl_normalize. destruct label as [l|]; cbn [from_option labelled] in *.
  - apply andb_true_iff in Hl as [He Hl]. unfold strip_label.
    change (l +s+ ":" +s+ " " +s+ printed c) with (l +s+ ":" +s+ (" " +s+ printed c)).
    rewrite (find_after ":" "" l (" " +s+ printed c)) by by apply ident_free_of_colon.
    rewrite take_str_exact, Hl, He. cbn [andb].
    replace (skip (S (String.length l)) (l +s+ ":" +s+ (" " +s+ printed c))) with (String " " (printed c)).
    + fold (normalize (String " " (printed c))). by rewrite normalize_blank, split_whitespace_blank, Hw.
    + rewrite <- app_str_assoc. replace (S (String.length l)) with (String.length (l +s+ ":")) by (rewrite length_app_str; simpl; lia).
      by rewrite skip_exact.
  - unfold strip_label. rewrite (find_free ":" "") by by apply clause_free_of_colon.
    fold (normalize (printed c)). by rewrite Hw.
Qed.

(** ** Lemmas: reading a comparison *)

Lemma trim_end_blank w t : is_word w = true -> trim_end (String " " (w +s+ t)) = String " " (trim_end (w +s+ t)).
Proof.
  intros Hw. cbn [trim_end]. assert (all_ws (String " " (w +s+ t)) = false) as ->; [|done].
  unfold all_ws. rewrite trim_start_blank, trim_start_word by done. by destruct w.
Qed.

Lemma op_word o : is_word (ascii_op o) = true.
Proof. by destruct o. Qed.

Definition left_part (l : option (Z * cmp)) : string :=
  match l with Some (v, o) => (pretty v : string) +s+ " " +s+ ascii_op o +s+ " " | None => "" end.
Definition right_part (r : option (cmp * Z)) (tail : string) : string :=
  match r with Some (o, v) => " " +s+ ascii_op o +s+ " " +s+ (pretty v : string) | None => tail end.

Lemma spelled_bound l r : spelled (CBound l r) = left_part l +s+ RESULT +s+ right_part r "".
Proof.
  unfold spelled, clause_words, left_part, right_part.
  destruct l as [[v o]|], r as [[o' v']|]; do 2 (simpl; rewrite ?app_str_assoc); reflexivity.
Qed.

Section at_result.
Context (left right : string).
Abbreviation text := (left +s+ RESULT +s+ right).

Lemma left_of_at : left_of text (String.length left) = trim_end left.
Proof. unfold left_of. by rewrite take_str_exact. Qed.

Lemma after_result : skip (String.length left + 7) text = right.
Proof.
  rewrite <- app_str_assoc. replace (String.length left + 7)%nat with (String.length (left +s+ RESULT))
    by (by rewrite length_app_str). by rewrite skip_exact.
Qed.

Lemma right_of_at : right_of text (String.length left) = trim_start right.
Proof. unfold right_of. by rewrite after_result. Qed.
End at_result.

Lemma ends_with_tail p s t : (String.length p <= String.length t)%nat -> ends_with p (s +s+ t) = ends_with p t.
Proof.
  intros H. induction s as [|c s IH]; [done|]. change ((String c s) +s+ t) with (String c (s +s+ t)).
  cbn [ends_with]. rewrite IH. destruct (String.eqb_spec p (String c (s +s+ t))) as [->|]; [|done].
  exfalso. simpl in H. rewrite length_app_str in H. lia.
Qed.

Lemma rfind_digits s : sall is_ascii_digit s = true -> rfind_byte (fun c => negb (is_ascii_digit c)) s = None.
Proof. induction s as [|c s IH]; simpl; [done|]. intros [Hc Hs]%andb_true_iff. by rewrite (IH Hs), Hc. Qed.

Lemma literal_before_pretty (v : Z) rest : literal_ok v ->
  int_literal_before ((pretty v : string) +s+ " " +s+ rest) (S (String.length (pretty v))) = Some v.
Proof.
  intros Hv. unfold int_literal_before.
  replace (take_str (S (String.length (pretty v))) ((pretty v : string) +s+ " " +s+ rest)) with ((pretty v : string) +s+ " ").
  2:{ rewrite <- app_str_assoc. replace (S (String.length (pretty v))) with (String.length ((pretty v : string) +s+ " "))
        by (rewrite length_app_str; simpl; lia). by rewrite take_str_exact. }
  rewrite trim_end_word, app_str_nil_r by (apply word_sall, pretty_word).
  assert (match rfind_byte (fun c => negb (is_ascii_digit c)) (pretty v) with
          | Some i => if glued_minus (pretty v) i then i else S i | None => O end = O) as ->.
  { rewrite pretty_Z_shape. unfold digits_of. destruct (pretty_digits (Z.to_N (Z.abs v))) as (_ & Hd & _).
    apply rfind_digits in Hd. set (d := pretty _) in *. clearbody d. destruct (v <? 0).
    - change ("-" +s+ d) with (String "-" d). cbn [rfind_byte]. rewrite Hd. by destruct d.
    - change ("" +s+ d) with d. by rewrite Hd. }
  simpl. apply parse_pretty. unfold in_i64, literal_ok in *. rewrite andb_true_iff, Z.leb_le, Z.ltb_lt. lia.
Qed.

Lemma literal_after_pretty (v : Z) before rest : literal_ok v ->
  match rest with String c _ => is_ascii_digit c = false | "" => True end ->
  int_literal_after (before +s+ " " +s+ (pretty v : string) +s+ rest) (String.length before) = Some v.
Proof.
  intros Hv Hr. unfold int_literal_after. rewrite skip_exact. change (" " +s+ ?s) with (String " " s).
  rewrite trim_start_blank, trim_start_word by apply pretty_word.
  assert (literal_prefix ((pretty v : string) +s+ rest) = pretty v) as ->.
  { rewrite pretty_Z_shape. unfold digits_of. destruct (pretty_digits (Z.to_N (Z.abs v))) as (_ & Hd & c & s & E & Hc).
    rewrite E in *. simpl in Hd. apply andb_true_iff in Hd as [_ Hd].
    destruct (v <? 0); cbn [String.append literal_prefix].
    - simpl. rewrite Hc. f_equal. f_equal. by apply take_while_run.
    - rewrite Hc. simpl. f_equal. by apply take_while_run. }
  apply parse_pretty. unfold in_i64, literal_ok in *. rewrite andb_true_iff, Z.leb_le, Z.ltb_lt. lia.
Qed.

(** ** Lemmas: the bounds a clause sets *)

Definition strictness (o : cmp) : Z := match o with CLt | CGt => 1 | _ => 0 end.
Definition left_is_low (o : cmp) : bool := match o with CLe | CLt => true | _ => false end.
Definition cmp_eqb (o o' : cmp) : bool :=
  match o, o' with CLe, CLe | CLt, CLt | CGe, CGe | CGt, CGt => true | _, _ => false end.

Definition row (o : cmp) : string * Z * bool := (ascii_op o, strictness o, left_is_low o).

Lemma comparisons_rows : COMPARISONS = map row [CLe; CLt; CGe; CGt].
Proof. done. Qed.

(** What [b] admits. *)
Definition admits (b : bounds) (r : Z) : Prop :=
  from_option (fun l => l <= r) True b.1 /\ from_option (fun h => r <= h) True b.2.

Lemma wrap_small z : - 2 ^ 63 <= z < 2 ^ 63 -> i64_wrap z = z.
Proof. intros H. unfold i64_wrap. rewrite Z.mod_small; lia. Qed.

Lemma tighten_admits literal strict_by low b r : literal_ok literal -> 0 <= strict_by <= 1 ->
  admits (tighten_by (Some literal) strict_by low b) r
  <-> admits b r /\ (if low then literal + strict_by <= r else r <= literal - strict_by).
Proof.
  unfold literal_ok. intros Hl Hs. destruct b as [bl bh]. unfold tighten_by, bound_of, tighten, admits.
  destruct low, bl, bh; cbn [fst snd from_option]; rewrite wrap_small by lia; lia.
Qed.

(** The literal of a clause on the side of an operator. *)
Definition left_literal (l : option (Z * cmp)) (o : cmp) : option Z :=
  match l with Some (v, o') => then_some (cmp_eqb o o') v | None => None end.
Definition right_literal (r : option (cmp * Z)) (o : cmp) : option Z :=
  match r with Some (o', v) => then_some (cmp_eqb o o') v | None => None end.

Definition no_comparison (tail : string) : bool :=
  match tail with String a (String b _) => Ascii.eqb a " " && Ascii.eqb b "=" | _ => is_empty tail end.

Lemma left_part_end v o : trim_end (left_part (Some (v, o))) = (pretty v : string) +s+ " " +s+ ascii_op o.
Proof.
  unfold left_part. rewrite trim_end_word by apply word_sall, pretty_word. f_equal.
  change (" " +s+ ?s) with (String " " s). rewrite trim_end_blank by apply op_word.
  by rewrite trim_end_word, app_str_nil_r by apply word_sall, op_word.
Qed.

Lemma read_left l r tail o : from_option (fun p => literal_ok p.1) True l ->
  let text := left_part l +s+ RESULT +s+ right_part r tail in
  let lhs := left_of text (String.length (left_part l)) in
  (if ends_with (ascii_op o) lhs then int_literal_before text (String.length lhs - String.length (ascii_op o)) else None)
  = left_literal l o.
Proof.
  intros Hl. cbv zeta. rewrite left_of_at. destruct l as [[v o']|]; [|by destruct o].
  rewrite left_part_end. simpl in Hl. change (" " +s+ ascii_op o') with (String " " (ascii_op o')).
  rewrite ends_with_tail by (destruct o, o'; simpl; lia).
  destruct (cmp_eqb o o') eqn:E.
  - assert (o' = o) as -> by (by destruct o, o'). cbn [left_literal]. rewrite E. cbn [then_some].
    assert (ends_with (ascii_op o) (String " " (ascii_op o)) = true) as -> by (by destruct o).
    rewrite length_app_str. cbn [String.length].
    replace (String.length (pretty v) + S (String.length (ascii_op o)) - String.length (ascii_op o))%nat
      with (S (String.length (pretty v))) by lia.
    cbn [left_part]. rewrite !app_str_assoc. by apply literal_before_pretty.
  - cbn [left_literal]. rewrite E. by destruct o, o'.
Qed.

Lemma right_part_start o v tail : trim_start (right_part (Some (o, v)) tail) = ascii_op o +s+ " " +s+ (pretty v : string).
Proof.
  unfold right_part. change (" " +s+ ?s) with (String " " s). rewrite trim_start_blank.
  by rewrite trim_start_word by apply op_word.
Qed.

Lemma read_right l r tail o : from_option (fun p => literal_ok p.2) True r -> no_comparison tail = true ->
  let text := left_part l +s+ RESULT +s+ right_part r tail in
  let at_ := String.length (left_part l) in
  let rhs := right_of text at_ in
  (if starts_with (ascii_op o) rhs && negb (lax_prefix (ascii_op o) rhs)
   then int_literal_after text (right_at text at_ + String.length (ascii_op o)) else None)
  = right_literal r o.
Proof.
  intros Hr Ht. cbv zeta. rewrite right_of_at. destruct r as [[o' v]|].
  - rewrite right_part_start. destruct (cmp_eqb o o') eqn:E.
    + assert (o' = o) as -> by (by destruct o, o'). simpl right_literal. rewrite E. cbn [then_some].
      assert (starts_with (ascii_op o) (ascii_op o +s+ " " +s+ (pretty v : string))
        && negb (lax_prefix (ascii_op o) (ascii_op o +s+ " " +s+ (pretty v : string))) = true) as ->
        by (destruct o; reflexivity).
      unfold right_at. rewrite right_of_at, after_result, right_part_start. unfold right_part.
      replace (String.length (left_part l) + 7 + (String.length (" " +s+ ascii_op o +s+ " " +s+ (pretty v : string))
                 - String.length (ascii_op o +s+ " " +s+ (pretty v : string))) + String.length (ascii_op o))%nat
        with (String.length (left_part l +s+ RESULT +s+ " " +s+ ascii_op o)).
      * replace (left_part l +s+ RESULT +s+ " " +s+ ascii_op o +s+ " " +s+ (pretty v : string))
          with ((left_part l +s+ RESULT +s+ " " +s+ ascii_op o) +s+ " " +s+ (pretty v : string) +s+ "").
        -- by apply literal_after_pretty.
        -- rewrite app_str_nil_r, !app_str_assoc. done.
      * rewrite !length_app_str. simpl. lia.
    + simpl. rewrite E. destruct o, o'; try discriminate E; reflexivity.
  - unfold right_part. destruct tail as [|a [|b tail]]; [by destruct o|done|].
    simpl in Ht. apply andb_true_iff in Ht as [->%Ascii.eqb_eq ->%Ascii.eqb_eq].
    rewrite trim_start_blank. change (String "=" tail) with ("=" +s+ tail). rewrite trim_start_word by done. by destruct o.
Qed.

Lemma read_comparison_clause l r tail b o :
  from_option (fun p => literal_ok p.1) True l -> from_option (fun p => literal_ok p.2) True r ->
  no_comparison tail = true ->
  read_comparison (left_part l +s+ RESULT +s+ right_part r tail) (String.length (left_part l)) b (row o)
  = tighten_by (right_literal r o) (strictness o) (negb (left_is_low o))
      (tighten_by (left_literal l o) (strictness o) (left_is_low o) b).
Proof.
  intros Hl Hr Ht. unfold read_comparison, row. cbv zeta.
  rewrite (read_left l r tail o Hl). by rewrite (read_right l r tail o Hr Ht).
Qed.

Lemma tighten_option_admits x strict_by low b r : from_option literal_ok True x -> 0 <= strict_by <= 1 ->
  admits (tighten_by x strict_by low b) r
  <-> admits b r /\ from_option (fun v => if low then v + strict_by <= r else r <= v - strict_by) True x.
Proof. intros Hx Hs. destruct x as [v|]; [by apply tighten_admits|]. simpl. tauto. Qed.

Lemma literal_of_ok l r o :
  from_option (fun p => literal_ok p.1) True l -> from_option (fun p => literal_ok p.2) True r ->
  from_option literal_ok True (left_literal l o) /\ from_option literal_ok True (right_literal r o).
Proof.
  intros Hl Hr. split; [destruct l as [[v o']|]|destruct r as [[o' v]|]]; try done; simpl; by destruct (cmp_eqb o o').
Qed.

Lemma read_bounds_clause l r tail b x :
  from_option (fun p => literal_ok p.1) True l -> from_option (fun p => literal_ok p.2) True r ->
  no_comparison tail = true ->
  admits (read_bounds (left_part l +s+ RESULT +s+ right_part r tail) b (String.length (left_part l))) x
  <-> admits b x /\ holds (CBound l r) x.
Proof.
  intros Hl Hr Ht. unfold read_bounds. rewrite comparisons_rows. cbn [map fold_left].
  rewrite !read_comparison_clause by done.
  assert (Hs : forall o, 0 <= strictness o <= 1) by (by intros []).
  assert (Hll : forall o, from_option literal_ok True (left_literal l o)) by (intros o; by apply (literal_of_ok l r o)).
  assert (Hlr : forall o, from_option literal_ok True (right_literal r o)) by (intros o; by apply (literal_of_ok l r o)).
  rewrite !tighten_option_admits by (apply Hs || apply Hll || apply Hlr).
  cbn [holds]. destruct l as [[v []]|], r as [[[] v']|]; simpl; intuition lia.
Qed.

Lemma left_part_free l : free_of "\" (left_part l) = true.
Proof.
  destruct l as [[v o]|]; [|done]. unfold left_part, free_of. rewrite sall_app. fold (free_of "\" (pretty v)).
  rewrite pretty_free by done. by destruct o.
Qed.

Lemma right_part_free r tail : free_of "\" tail = true -> free_of "\" (right_part r tail) = true.
Proof.
  intros Ht. destruct r as [[o v]|]; [|done]. unfold right_part, free_of. rewrite !sall_app.
  fold (free_of "\" (pretty v)). rewrite pretty_free by done. by destruct o.
Qed.

(** A condition's clause as a text that names the result once. *)
Definition iff_tail (v : Z) (condition : list string) : string :=
  " ==" +s+ " " +s+ (pretty v : string) +s+ join " " ("" :: "<==>" :: condition).

Lemma spelled_iff v condition : spelled (CIff v condition) = left_part None +s+ RESULT +s+ right_part None (iff_tail v condition).
Proof. reflexivity. Qed.

Lemma iff_tail_ok v condition : forallb condition_word condition = true ->
  free_of "\" (iff_tail v condition) = true /\ no_comparison (iff_tail v condition) = true.
Proof.
  intros Hc. split; [|done]. unfold iff_tail, free_of. rewrite !sall_app. fold (free_of "\" (pretty v)).
  rewrite pretty_free by done. rewrite sall_join; [done|done|]. simpl. revert Hc. rewrite !forallb_forall.
  intros H w Hw. by apply condition_word_ok, H.
Qed.

Lemma bounds_in_clause c b x : clause_ok c -> admits (bounds_in b (spelled c)) x <-> admits b x /\ holds c x.
Proof.
  intros Hc. unfold bounds_in. destruct c as [l r|v condition].
  - destruct Hc as [Hl Hr]. rewrite spelled_bound, results_in_once by (apply left_part_free || by apply right_part_free).
    simpl. by apply read_bounds_clause.
  - destruct Hc as [_ Hc]. rewrite spelled_iff, results_in_once by (done || by apply iff_tail_ok).
    cbn [fold_left]. rewrite (read_bounds_clause None None) by (done || by apply iff_tail_ok). simpl. tauto.
Qed.

Lemma bounds_of_clauses cs b x : Forall clause_ok cs ->
  admits (fold_left bounds_in (map spelled cs) b) x <-> admits b x /\ Forall (fun c => holds c x) cs.
Proof.
  intros Hcs. revert b. induction Hcs as [|c cs Hc Hcs IH]; intros b; simpl.
  - rewrite Forall_nil. tauto.
  - rewrite IH, (bounds_in_clause _ _ _ Hc), Forall_cons. tauto.
Qed.

(** The range read off the clauses is the set of results they allow. *)
Lemma result_range_exact cs l h : Forall clause_ok cs ->
  result_range (map spelled cs) = Some (l, h) <-> l <= h /\ forall x, Forall (fun c => holds c x) cs <-> l <= x <= h.
Proof.
  intros Hcs. unfold result_range.
  assert (Ha : forall x, admits (fold_left bounds_in (map spelled cs) (None, None)) x <-> Forall (fun c => holds c x) cs).
  { intros x. rewrite bounds_of_clauses by done. unfold admits. simpl. tauto. }
  destruct (fold_left bounds_in _ _) as [[bl|] [bh|]]; unfold admits in Ha; simpl in Ha.
  - unfold then_some. destruct (Z.leb_spec bl bh) as [Hle|Hgt].
    + split; [intros [= <- <-]; split; [done|]; intros x; by rewrite <- Ha|]. intros [Hlh Hx].
      assert (bl = l /\ bh = h) as [-> ->]; [|done].
      pose proof (proj2 (Ha bl)). pose proof (proj2 (Ha bh)). setoid_rewrite Hx in Ha.
      pose proof (Ha l). pose proof (Ha h). pose proof (Ha bl). pose proof (Ha bh). lia.
    + split; [done|]. intros [Hlh Hx]. setoid_rewrite Hx in Ha. pose proof (Ha l). lia.
  - split; [done|]. intros [Hlh Hx]. setoid_rewrite Hx in Ha. pose proof (Ha (Z.max bl (h + 1))). lia.
  - split; [done|]. intros [Hlh Hx]. setoid_rewrite Hx in Ha. pose proof (Ha (Z.min bh (l - 1))). lia.
  - split; [done|]. intros [Hlh Hx]. setoid_rewrite Hx in Ha. pose proof (Ha (l - 1)). lia.
Qed.

(** ** Lemmas: the values a clause determines *)

Lemma prefix_stops n a b : free_of " " n = true -> String.prefix n (a +s+ String " " b) = String.prefix n a.
Proof.
  revert a. induction n as [|c n IH]; intros [|d a] Hn; try done; simpl in Hn; apply andb_true_iff in Hn as [Hc Hn].
  - simpl. destruct (ascii_dec c " ") as [->|]; done.
  - cbn [String.append String.prefix]. destruct (ascii_dec c d); [by apply IH|done].
Qed.

Lemma contains_split n a b : free_of " " n = true -> is_empty n = false ->
  contains n (a +s+ String " " b) = contains n a || contains n b.
Proof.
  intros Hn He. induction a as [|c a IH].
  - cbn [String.append contains]. unfold starts_with at 1. change (String " " b) with ("" +s+ String " " b).
    rewrite prefix_stops by done. destruct n as [|d n]; [done|]. done.
  - change ((String c a) +s+ String " " b) with (String c (a +s+ String " " b)). cbn [contains]. rewrite IH, orb_assoc.
    do 2 f_equal. unfold starts_with. change (String c (a +s+ String " " b)) with ((String c a) +s+ String " " b).
    by apply prefix_stops.
Qed.

Lemma contains_words n ws : free_of " " n = true -> is_empty n = false ->
  contains n (join " " ws) = existsb (contains n) ws.
Proof.
  intros Hn He. assert (Hz : contains n "" = false) by (by destruct n).
  induction ws as [|w ws IH]; [done|]. destruct ws as [|w' ws]; [by simpl; rewrite orb_false_r|].
  change (join " " (w :: w' :: ws)) with (w +s+ String " " (join " " (w' :: ws))).
  by rewrite contains_split, IH.
Qed.

Lemma contains_free c n s : free_of c s = true -> contains (String c n) s = false.
Proof.
  unfold free_of. induction s as [|d s IH]; [done|]. simpl. intros [Hc Hs]%andb_true_iff. rewrite (IH Hs), orb_false_r.
  apply negb_true_iff, Ascii.eqb_neq in Hc. unfold starts_with. simpl. by destruct (ascii_dec c d) as [->|].
Qed.

Lemma bound_no_iff l r : contains "<==>" (spelled (CBound l r)) = false.
Proof.
  unfold spelled. rewrite contains_words by done.
  assert (Hp : forall v : Z, contains "<==>" (pretty v) = false) by (intros v; by apply contains_free, pretty_free).
  destruct l as [[v []]|], r as [[[] v']|]; simpl; rewrite ?Hp; done.
Qed.

Lemma determined_in_clause c out : clause_ok c ->
  determined_in out (spelled c) = match c with CIff v _ => out ∪ {[v]} | _ => out end.
Proof.
  intros Hc. unfold determined_in. destruct c as [l r|v condition]; [by rewrite bound_no_iff|].
  destruct Hc as [Hv Hc]. destruct (iff_tail_ok v _ Hc) as [Hf _].
  assert (contains "<==>" (spelled (CIff v condition)) = true) as ->.
  { unfold spelled. rewrite contains_words by done. simpl. by rewrite !orb_true_r. }
  rewrite spelled_iff, results_in_once by done. cbn [fold_left]. unfold read_equality. cbv zeta.
  rewrite right_of_at, left_of_at. cbn [left_part right_part].
  assert (Hs : trim_start (iff_tail v condition) = "==" +s+ " " +s+ (pretty v : string) +s+ join " " ("" :: "<==>" :: condition)).
  { unfold iff_tail. change (" ==" +s+ ?s) with (String " " ("==" +s+ s)). by rewrite trim_start_blank, trim_start_word. }
  rewrite Hs, strip_prefix_app. cbn [is_some_and]. change (trim_end "") with "".
  unfold right_at. pose proof (right_of_at "" (iff_tail v condition)) as Hr. pose proof (after_result "" (iff_tail v condition)) as Ha.
  cbn [String.length] in Hr, Ha |- *. rewrite Hr, Ha, Hs.
  replace (0 + 7 + (String.length (iff_tail v condition)
     - String.length ("==" +s+ " " +s+ (pretty v : string) +s+ join " " ("" :: "<==>" :: condition))) + 2)%nat
    with (String.length (RESULT +s+ " ==")) by (unfold iff_tail; rewrite !length_app_str; simpl; lia).
  change ("" +s+ ?s) with s. unfold iff_tail.
  rewrite <- (app_str_assoc RESULT). rewrite (literal_after_pretty v (RESULT +s+ " ==")) by done. set_solver.
Qed.

Definition pinned (cs : list Clause) (v : Z) : Prop := exists condition, CIff v condition ∈ cs.

Lemma determined_exact cs v : Forall clause_ok cs -> v ∈ result_values_determined (map spelled cs) <-> pinned cs v.
Proof.
  intros Hcs. unfold result_values_determined.
  assert (forall out, v ∈ fold_left determined_in (map spelled cs) out <-> v ∈ out \/ pinned cs v) as ->; [|set_solver].
  unfold pinned. induction Hcs as [|c cs Hc Hcs IH]; intros out; simpl; [set_solver|].
  rewrite IH, (determined_in_clause _ _ Hc). setoid_rewrite elem_of_cons.
  destruct c as [l r|v' condition]; [naive_solver|]. rewrite elem_of_union, elem_of_singleton. naive_solver.
Qed.

(** ** The theorems on contracts *)

(** A contract whose default behavior ensures the clauses, as the plug-in sends it. *)
Definition clause_entry (c : option string * Clause) : json :=
  JObj [("kind", JStr "ensures"); ("behavior", JStr "default!");
        ("predicate", JObj [("text", JStr (labelled c.1 c.2))])].
Definition contract_with (cs : list (option string * Clause)) : json :=
  JObj [("function", JObj [("contract", JObj [("ensures", JArr (map clause_entry cs))])])].

Definition entry_ok (c : option string * Clause) : Prop := from_option label_ok true c.1 = true /\ clause_ok c.2.

Lemma contract_with_texts cs : Forall entry_ok cs ->
  exists contract, contract_of (contract_with cs) = Some contract /\ unconditional_texts contract = map spelled (map snd cs).
Proof.
  intros Hcs. eexists. split; [reflexivity|]. unfold unconditional_texts. cbn.
  induction Hcs as [|c cs [Hl Hc] Hcs IH]; [done|]. cbn. rewrite IH. f_equal. by apply normalize_clause.
Qed.

Lemma two_elements {A} (l : list A) : NoDup l -> (2 <= length l)%nat <-> exists a b, a <> b /\ a ∈ l /\ b ∈ l.
Proof.
  intros Hl. split.
  - destruct l as [|a [|b l]]; simpl; try lia. intros _. apply NoDup_cons in Hl as [Ha _]. exists a, b. set_solver.
  - intros (a & b & Hne & Ha & Hb). destruct l as [|x [|y l]]; simpl; [set_solver..|lia].
Qed.

(** The bounds stay among the literals. *)
Definition small (b : bounds) : Prop :=
  from_option (fun l => - 2 ^ 61 <= l) True b.1 /\ from_option (fun h => h <= 2 ^ 61) True b.2.

Lemma tighten_small x s low b : from_option literal_ok True x -> 0 <= s <= 1 -> small b -> small (tighten_by x s low b).
Proof.
  intros Hx Hs. destruct x as [v|]; [|done]. unfold small, tighten_by, bound_of, tighten. simpl in Hx. unfold literal_ok in Hx.
  destruct b as [[bl|] [bh|]], low; cbn [fst snd from_option]; rewrite wrap_small by lia; lia.
Qed.

Lemma read_bounds_small l r tail b :
  from_option (fun p => literal_ok p.1) True l -> from_option (fun p => literal_ok p.2) True r ->
  no_comparison tail = true -> small b ->
  small (read_bounds (left_part l +s+ RESULT +s+ right_part r tail) b (String.length (left_part l))).
Proof.
  intros Hl Hr Ht Hb. unfold read_bounds. rewrite comparisons_rows. cbn [map fold_left].
  rewrite !read_comparison_clause by done.
  assert (Hs : forall o, 0 <= strictness o <= 1) by (by intros []).
  repeat (apply tighten_small; [by apply (literal_of_ok l r)|apply Hs|]). done.
Qed.

Lemma bounds_in_small c b : clause_ok c -> small b -> small (bounds_in b (spelled c)).
Proof.
  intros Hc Hb. unfold bounds_in. destruct c as [l r|v condition].
  - destruct Hc. rewrite spelled_bound, results_in_once by (apply left_part_free || by apply right_part_free).
    by apply read_bounds_small.
  - destruct Hc as [_ Hc]. destruct (iff_tail_ok v _ Hc). rewrite spelled_iff, results_in_once by done.
    by apply (read_bounds_small None None).
Qed.

Lemma bounded_by_literals cs l h : Forall clause_ok cs -> result_range (map spelled cs) = Some (l, h) ->
  - 2 ^ 61 <= l /\ h <= 2 ^ 61.
Proof.
  intros Hcs H. unfold result_range in H.
  assert (Hb : forall b, small b -> small (fold_left bounds_in (map spelled cs) b)).
  { clear H. induction Hcs as [|c cs Hc Hcs IH]; intros b Hb; [done|]. by apply IH, bounds_in_small. }
  specialize (Hb (None, None) (conj I I)).
  destruct (fold_left bounds_in _ _) as [[bl|] [bh|]]; try done. unfold small in Hb. simpl in *. unfold then_some in H.
  destruct (bl <=? bh); [|done]. by injection H as <- <-.
Qed.

Lemma enumerated_exact cs l h : Forall clause_ok cs ->
  enumerated_range (map spelled cs) = Some (l, h)
  <-> l <= h /\ (forall x, Forall (fun c => holds c x) cs <-> l <= x <= h) /\ h - l < MAX_ENUMERABLE.
Proof.
  intros Hcs. pose proof (result_range_exact cs l h Hcs) as Hx. unfold enumerated_range.
  destruct (result_range (map spelled cs)) as [[l' h']|] eqn:E; [|split; [done|intros (? & ? & _); by apply Hx]].
  pose proof (bounded_by_literals _ _ _ Hcs E) as [H1 H2]. pose proof (proj1 (result_range_exact _ _ _ Hcs) E) as [Hle _].
  simpl. rewrite !wrap_small by (rewrite ?wrap_small; lia). unfold MAX_ENUMERABLE.
  destruct (Z.leb_spec (h' - l' + 1) 8) as [Hs|Hs]; split.
  - intros [= -> ->]. destruct (proj1 Hx eq_refl). split_and!; [done|done|lia].
  - intros (H3 & H4 & _). by apply Hx.
  - done.
  - intros (H3 & H4 & H5). pose proof (proj2 Hx (conj H3 H4)) as H. injection H as -> ->. lia.
Qed.

Lemma elem_of_undetermined l h det v : v ∈ undetermined_values l h det <-> l <= v <= h /\ v ∉ det.
Proof.
  unfold undetermined_values. rewrite elem_of_bfilter, elem_of_seqZ, negb_true_iff, bool_decide_eq_false. intuition lia.
Qed.

Lemma undetermined_nodup l h det : NoDup (undetermined_values l h det).
Proof. eapply sublist_NoDup; [apply NoDup_seqZ|apply bfilter_sublist]. Qed.

(** The lint on results is exact for contracts of comparisons and conditions, in
    Frama-C's spelling and under any labels: it reports once, and only when the results
    the contract allows are a range of at most eight values two of which no condition
    ties to the inputs; and it names the range and those values. *)
Theorem result_lint_exact (function : string) (cs : list (option string * Clause)) (j : json) :
  Forall entry_ok cs ->
  j ∈ result_unconstrained_findings function (contract_with cs) <->
  exists l h det, (forall v, v ∈ det <-> pinned (map snd cs) v)
    /\ l <= h < l + MAX_ENUMERABLE
    /\ (forall x, Forall (fun c => holds c x) (map snd cs) <-> l <= x <= h)
    /\ (exists a b, a <> b /\ l <= a <= h /\ l <= b <= h /\ ~ pinned (map snd cs) a /\ ~ pinned (map snd cs) b)
    /\ j = result_finding function l h det (show_all (undetermined_values l h det)).
Proof.
  intros Hcs. destruct (contract_with_texts cs Hcs) as (contract & Hc & Ht).
  assert (Hok : Forall clause_ok (map snd cs)) by (apply Forall_map; eapply Forall_impl; [exact Hcs|]; by intros c []).
  unfold result_unconstrained_findings. rewrite Hc, Ht. clear Hc Ht.
  set (det0 := result_values_determined (map spelled (map snd cs))).
  assert (Hdet : forall v, v ∈ det0 <-> pinned (map snd cs) v) by (intros v; by apply determined_exact).
  clearbody det0. transitivity (exists l h, enumerated_range (map spelled (map snd cs)) = Some (l, h)
    /\ (2 <= length (undetermined_values l h det0))%nat
    /\ j = result_finding function l h det0 (show_all (undetermined_values l h det0))).
  { destruct (enumerated_range _) as [[l h]|]; [|split; [by intros ?%elem_of_nil|by intros (? & ? & ? & _)]].
    destruct (Nat.ltb_spec (length (undetermined_values l h det0)) 2) as [Hlt|Hge].
    - split; [by intros ?%elem_of_nil|]. intros (l' & h' & [= <- <-] & H & _). lia.
    - rewrite list_elem_of_singleton. split; [intros ->; by exists l, h|]. by intros (l' & h' & [= <- <-] & _ & H). }
  setoid_rewrite (enumerated_exact _ _ _ Hok). setoid_rewrite (two_elements _ (undetermined_nodup _ _ _)).
  setoid_rewrite elem_of_undetermined. split.
  - intros (l & h & (H1 & H2 & H3) & (a & b & Hne & [Ha1 Ha2] & [Hb1 Hb2]) & ->). exists l, h, det0.
    rewrite Hdet in Ha2, Hb2. split_and!; try done; [lia|]. by exists a, b.
  - intros (l & h & det & Hd & H1 & H2 & (a & b & Hne & Ha1 & Hb1 & Ha2 & Hb2) & ->).
    assert (det = det0) as -> by (apply set_eq; intros v; by rewrite Hd, Hdet). exists l, h. split_and!; try done; try lia.
    exists a, b. by rewrite !Hdet.
Qed.

Lemma result_lint_witness :
  result_unconstrained_findings "cmp" (contract_with
    [(Some "range", CBound (Some (-1, CLe)) (Some (CLe, 1))); (None, CIff 0 ["a"; "=="; "b"])])
  = [result_finding "cmp" (-1) 1 {[0]} "-1, 1"]
  /\ exists l h det, l <= h < l + MAX_ENUMERABLE
       /\ result_finding "cmp" (-1) 1 {[0]} "-1, 1" = result_finding "cmp" l h det (show_all (undetermined_values l h det)).
Proof.
  assert (Hr : result_unconstrained_findings "cmp" (contract_with
    [(Some "range", CBound (Some (-1, CLe)) (Some (CLe, 1))); (None, CIff 0 ["a"; "=="; "b"])])
    = [result_finding "cmp" (-1) 1 {[0]} "-1, 1"]) by (vm_compute; reflexivity).
  split; [exact Hr|].
  assert (Hin : result_finding "cmp" (-1) 1 {[0]} "-1, 1" ∈ result_unconstrained_findings "cmp" (contract_with
    [(Some "range", CBound (Some (-1, CLe)) (Some (CLe, 1))); (None, CIff 0 ["a"; "=="; "b"])])) by (rewrite Hr; left).
  apply result_lint_exact in Hin as (l & h & det & _ & H1 & _ & _ & H2).
  - exists l, h, det. by split.
  - repeat constructor; unfold literal_ok; simpl; lia.
Defined.

Lemma full_range_length l h : l <= h -> Z.of_nat (length (undetermined_values l h ∅)) = h - l + 1.
Proof.
  intros H. unfold undetermined_values. rewrite bfilter_all; [|intros v _; by rewrite bool_decide_eq_false_2 by set_solver].
  rewrite length_seqZ. lia.
Qed.

(** Three texts the lints misread.  A bound under an implication is taken for a
    bound on every result, so a contract that leaves the result open for some inputs
    is said to bound it.  A contract that states the whole range of its type passes the
    test for a small range, whose difference wraps, and all of its values are listed.
    The location of a range behind a pointer is taken to be the name of the range's
    lower bound. *)
Theorem contract_text_misread :
  result_range [acsl_normalize "x < 0 ⇒ -1 ≤ \result ≤ 1"] = Some (-1, 1)
  /\ enumerated_range [acsl_normalize "-9223372036854775808 ≤ \result ≤ 9223372036854775807"] = Some (- 2 ^ 63, 2 ^ 63 - 1)
  /\ Z.of_nat (length (undetermined_values (- 2 ^ 63) (2 ^ 63 - 1) ∅)) = 2 ^ 64
  /\ assigns_target_leaf "*(buf + (lo .. hi))" = Some "lo".
Proof.
  split_and!; [vm_compute; reflexivity|vm_compute; reflexivity| |vm_compute; reflexivity]. by rewrite full_range_length.
Qed.

(** ** Lemmas: whole tokens *)

Lemma app_str_eq_inv (a b c d : string) : a +s+ b = c +s+ d ->
  (exists k, a = c +s+ k /\ d = k +s+ b) \/ (exists k, c = a +s+ k /\ b = k +s+ d).
Proof.
  revert c. induction a as [|x a IH]; intros [|y c] H; simpl in H.
  - left. by exists "".
  - right. by exists (String y c).
  - left. by exists (String x a).
  - injection H as -> H. destruct (IH _ H) as [(k & -> & ->)|(k & -> & ->)]; [left|right]; by exists k.
Qed.

(** A maximal run of identifier characters. *)
Definition stops_left (a : string) : bool := is_none_or (fun c => negb (ident_char c)) (last_byte a).
Definition stops_right (b : string) : bool := match b with String c _ => negb (ident_char c) | "" => true end.
Definition run_in (t text : string) : Prop :=
  t <> "" /\ sall ident_char t = true /\ exists a b, text = a +s+ t +s+ b /\ stops_left a = true /\ stops_right b = true.

Lemma last_byte_app a b : b <> "" -> last_byte (a +s+ b) = last_byte b.
Proof.
  intros Hb. induction a as [|c a IH]; [done|]. change ((String c a) +s+ b) with (String c (a +s+ b)).
  destruct (a +s+ b) as [|d s] eqn:E; [|by rewrite <- IH]. destruct a; simpl in E; [by subst|done].
Qed.

Lemma ident_stops a : sall ident_char a = true -> stops_left a = true -> a = "".
Proof.
  induction a as [|c a IH]; [done|]. intros [Hc Ha]%andb_true_iff H. exfalso.
  destruct a as [|d a]; [by unfold stops_left in H; simpl in H; rewrite Hc in H|].
  assert (String d a = "") as [=]. by apply IH.
Qed.

Lemma run_in_idents t cur : sall ident_char cur = true -> run_in t cur <-> t = cur /\ cur <> "".
Proof.
  intros Hc. split.
  - intros (Ht & Hi & a & b & -> & Ha & Hb). rewrite !sall_app in Hc. apply andb_true_iff in Hc as [H1 [_ H2]%andb_true_iff].
    rewrite (ident_stops a) in * by done. destruct b as [|c b]; [by rewrite app_str_nil_r|].
    simpl in H2, Hb. by destruct (ident_char c).
  - intros [-> Hne]. split_and!; try done. exists "", "". by rewrite app_str_nil_r.
Qed.

Lemma run_in_split t cur c text : sall ident_char cur = true -> ident_char c = false ->
  run_in t (cur +s+ String c text) <-> (t = cur /\ cur <> "") \/ run_in t text.
Proof.
  intros Hcur Hc. rewrite <- (run_in_idents t cur Hcur). split.
  - intros (Ht & Hi & a & b & E & Ha & Hb). symmetry in E.
    apply app_str_eq_inv in E as [(k & -> & E)|(k & E & E2)].
    + destruct k as [|c' k]; simpl in E; [destruct t as [|t0 t]; [done|]|].
      * injection E as <- _. simpl in Hi. by rewrite Hc in Hi.
      * injection E as <- ->. right. split_and!; try done. exists k, b. split_and!; try done.
        destruct k as [|x k]; [done|]. revert Ha. unfold stops_left.
        change (cur +s+ String c (String x k)) with (cur +s+ String c "" +s+ String x k).
        rewrite <- app_str_assoc. by rewrite last_byte_app.
    + subst cur. rewrite sall_app in Hcur. apply andb_true_iff in Hcur as [H1 H2].
      rewrite (ident_stops a H1 Ha). left. split_and!; try done.
      apply app_str_eq_inv in E2 as [(k' & -> & E2)|(k' & -> & ->)].
      * destruct k' as [|x k']; [exists "", ""; by rewrite !app_str_nil_r|]. simpl in E2. injection E2 as <- _.
        rewrite sall_app in Hi. apply andb_true_iff in Hi as [_ Hi]. simpl in Hi. by rewrite Hc in Hi.
      * destruct k' as [|x k']; [exists "", ""; by rewrite !app_str_nil_r|]. exfalso.
        rewrite sall_app in H2. simpl in H2, Hb. destruct (ident_char x); [done|]. by rewrite andb_false_r in H2.
  - intros [(Ht & Hi & a & b & -> & Ha & Hb)|(Ht & Hi & a & b & -> & Ha & Hb)]; split_and!; try done.
    + exists a, (b +s+ String c text). rewrite !app_str_assoc. split_and!; try done. destruct b; simpl in *; [by rewrite Hc|done].
    + exists (cur +s+ String c a), b. rewrite !app_str_assoc. split_and!; try done. unfold stops_left in *.
      destruct a as [|x a]; [rewrite last_byte_app by done; simpl; by rewrite Hc|].
      change (cur +s+ String c (String x a)) with (cur +s+ String c "" +s+ String x a).
      rewrite <- app_str_assoc. by rewrite last_byte_app.
Qed.

Lemma acsl_tokens_spec t text : forall cur, sall ident_char cur = true -> t ∈ acsl_tokens cur text <-> run_in t (cur +s+ text).
Proof.
  induction text as [|c text IH]; intros cur Hcur; simpl.
  - rewrite app_str_nil_r, run_in_idents by done. destruct cur as [|d cur]; simpl.
    + split; [by intros ?%elem_of_nil|by intros []].
    + rewrite list_elem_of_singleton. naive_solver.
  - destruct (ident_char c) eqn:E.
    + rewrite IH, app_str_assoc; [done|]. rewrite sall_app, Hcur. simpl. by rewrite E.
    + rewrite run_in_split by done. destruct cur as [|d cur]; simpl.
      * rewrite (IH ""); [|done]. simpl. naive_solver.
      * rewrite elem_of_cons, (IH ""); [|done]. simpl. naive_solver.
Qed.

(** The name [t] stands in [text] as a whole token. *)
Definition mentions (text t : string) : Prop := run_in t text /\ digit_first t = false.

Lemma acsl_identifiers_spec t text : t ∈ acsl_identifiers text <-> mentions text t.
Proof. unfold acsl_identifiers, mentions. by rewrite elem_of_bfilter, negb_true_iff, acsl_tokens_spec. Qed.

(** The lint on assigned locations reports a target exactly when there are
    postconditions and the target's last component, the one the plug-in resolved or the
    one read off its text, is a whole token of none of them. *)
Theorem assigns_lint_spec (function : string) (context j : json) :
  j ∈ unconstrained_assigns_findings function context <->
  exists contract entry target leaf,
    contract_of context = Some contract /\ post_texts contract <> []
    /\ entry ∈ assigns_targets contract /\ get_str "target" entry = Some target
    /\ target_leaf entry target = Some leaf
    /\ (forall text, text ∈ post_texts contract -> ~ mentions text leaf)
    /\ j = unconstrained_finding function target leaf
             (join ", " (btree_set (flat_map applied_logic_names (post_texts contract)))).
Proof.
  unfold unconstrained_assigns_findings. destruct (contract_of context) as [contract|]; [|split; [by intros ?%elem_of_nil|naive_solver]].
  case_bool_decide as Hp; [split; [by intros ?%elem_of_nil|naive_solver]|].
  rewrite elem_of_collect_some. unfold target_finding.
  assert (Hm : forall leaf, leaf ∉ flat_map acsl_identifiers (post_texts contract) <->
    forall text, text ∈ post_texts contract -> ~ mentions text leaf).
  { intros leaf. rewrite list_elem_of_In, in_flat_map. setoid_rewrite <- list_elem_of_In.
    setoid_rewrite acsl_identifiers_spec. naive_solver. }
  split.
  - intros (entry & Hin & H). apply bind_Some in H as (target & Ht & H). apply bind_Some in H as (leaf & Hl & H).
    unfold then_some in H. case_bool_decide as Hd; [done|]. injection H as <-.
    exists contract, entry, target, leaf. rewrite <- Hm. by split_and!.
  - intros (contract' & entry & target & leaf & [= <-] & _ & Hin & Ht & Hl & Hn & ->). exists entry. split; [done|].
    rewrite Ht. cbn. rewrite Hl. cbn. rewrite <- Hm in Hn. by rewrite bool_decide_eq_false_2.
Qed.
