(* ===== verification/Propose.v ===== *)
(** * Annotations the code determines (src/src/mcp/propose.rs)

    A proposal is a frame read off the effects of a loop or of a function.  The three
    requests that fetch the effects and the annotations, and the dry run that checks
    the proposals, are arguments: [inject] answers the dry run's payload. *)

From S2P Require Import Prelude RustStr BTree Json Contracts.
Local Open Scope nat_scope.

(** ** Frames *)

Inductive Frame := Writes (targets : list string) | Unknown (reason : string).

Definition no_assigns_reason (name : string) : string :=
  name +s+ " states no finite assigns, so what this writes through it is unknown."
  +s+ "                  Give " +s+ name +s+ " an assigns clause first, then ask again.".

Definition callee_name (callee : json) : string := unwrap_or (get_str "function" callee) "a callee".
Definition states_assigns (callee : json) : bool :=
  unwrap_or (callee .? "assigns" ≫= get_str "kind") "any" =s "list".
Definition callee_targets (callee : json) : list string :=
  collect_some (get_str "target") (unwrap_or (callee .? "assigns" ≫= get_arr "assigns") []).

(** The loop of [extend_with_callee_assigns]. *)
Fixpoint extend_from (callees : list json) (targets : list string) : list string * option string :=
  match callees with
  | [] => (targets, None)
  | callee :: callees =>
    if states_assigns callee then extend_from callees (targets ++ callee_targets callee)
    else (targets, Some (no_assigns_reason (callee_name callee)))
  end.

Definition callees_of (effects : json) : list json := unwrap_or (get_arr "callee_assigns" effects) [].

Definition extend_with_callee_assigns (targets : list string) (effects : json) : list string * option string :=
  extend_from (callees_of effects) targets.

(** A write its callers can observe. *)
Definition visible_target (write : json) : option string :=
  target ← get_str "target" write;
  base ← get_str "base" write;
  then_some (bool_decide (get_bool "global" write = Some true) || is_empty base) target.

Definition unresolved_effects (writes : json) : option (list json) :=
  opt_filter (fun entries => negb (bool_decide (entries = []))) (get_arr "unresolved" writes).

Definition unresolved_reason (unresolved : list json) : string :=
  "This function contains " +s+ join " and " (collect_some (get_str "kind") unresolved)
  +s+ " that the effect analysis cannot enumerate, so what it writes is unknown. Name the frame by hand, or "
  +s+ "give the indirect target a contract the caller can see.".

Definition function_frame (writes : json) : Frame :=
  let '(targets, reason) :=
    extend_with_callee_assigns (collect_some visible_target (unwrap_or (get_arr "writes" writes) [])) writes in
  match reason with
  | Some reason => Unknown reason
  | None =>
    match unresolved_effects writes with
    | Some unresolved => Unknown (unresolved_reason unresolved)
    | None => Writes (btree_set targets)
    end
  end.

(** ** What is annotated already *)

Definition already_annotated (annotations : json) (kind : string) (kinstr_marker : option string) : bool :=
  existsb (fun annotation => bool_decide (get_str "kind" annotation = Some kind)
                             && bool_decide (get_str "kinstr_marker" annotation = kinstr_marker))
    (array_or_empty annotations).

Definition ensures_text (annotations : json) : string :=
  join " " (collect_some (get_str "predicate")
    (bfilter (fun annotation => get_str "kind" annotation =?s "ensures") (array_or_empty annotations))).

(** ** Loops

    A pair of what is proposed and what is not. *)
Definition proposed : Type := list json * list json.
Definition add_proposal (j : json) (p : proposed) : proposed := (p.1 ++ [j], p.2).
Definition add_refusal (j : json) (p : proposed) : proposed := (p.1, p.2 ++ [j]).

Definition loop_proposal (stmt_id : Z) (targets : list string) : json :=
  JObj [("kind", JStr "loop"); ("stmt_id", jZ stmt_id);
        ("assigns", JArr [JObj [("acsl", JStr (join ", " targets))]]);
        ("invariants", JArr []);
        ("confidence", JStr "derived");
        ("derived_from", JStr "getLoopEffects.modified_vars and callee_assigns");
        ("rationale", JStr ("Every location this loop body writes, and nothing else. WP loses each fact it "
           +s+ "holds about a location the loop writes without listing."))].

Definition invariant_refusal (stmt_id : Z) : json :=
  JObj [("kind", JStr "loop_invariant"); ("stmt_id", jZ stmt_id);
        ("reason", JStr ("A loop invariant states what the body maintains, which the AST does not determine. "
           +s+ "Two are usually needed: the bound on the induction variable, readable off the loop guard, and "
           +s+ "the relation between the accumulator and what it accumulates."))].

Definition loop_refusal (stmt_id : Z) (reason : string) : json :=
  JObj [("kind", JStr "loop_assigns"); ("stmt_id", jZ stmt_id); ("reason", JStr reason)].

Definition modified_vars (loop_effect : json) : list string :=
  collect_some as_str (unwrap_or (get_arr "modified_vars" loop_effect) []).

Definition loop_frame (annotations : json) (p : proposed) (loop_effect : json) : proposed :=
  match loop_effect .? "stmt_id" ≫= as_i64 with
  | None => p
  | Some stmt_id =>
    let marker := "#k" +s+ (pretty stmt_id : string) in
    let '(targets, reason) := extend_with_callee_assigns (modified_vars loop_effect) loop_effect in
    match reason with
    | Some reason => add_refusal (loop_refusal stmt_id reason) p
    | None =>
      let targets := btree_set targets in
      if bool_decide (targets = []) then p
      else if already_annotated annotations "assigns" (Some marker) then p
      else
        let p := add_proposal (loop_proposal stmt_id targets) p in
        if already_annotated annotations "loop_invariant" (Some marker) then p
        else add_refusal (invariant_refusal stmt_id) p
    end
  end.

Definition loop_frames (loops annotations : json) (p : proposed) : proposed :=
  fold_left (loop_frame annotations) (array_or_empty loops) p.

(** ** Postconditions that are missing *)

Definition ensures_refusal (target : string) : json :=
  JObj [("kind", JStr "ensures"); ("about", JStr target);
        ("reason", JStr ("The contract assigns " +s+ target +s+ " and no postcondition mentions it, so proving "
           +s+ "this function says nothing about the value written there. What it should say is a property of "
           +s+ "the code, not of the AST."))].

Definition clause_targets (predicate : string) : list string :=
  collect_some assigns_target_leaf (split_char "," (trim_end_char ";" (trim_start_matches "assigns" predicate))).

Definition annotation_gaps (constrained : list string) (annotation : json) : list json :=
  if negb (get_str "kind" annotation =?s "assigns") then []
  else match annotation .? "kinstr_marker" with
       | Some _ => []
       | None =>
         match get_str "predicate" annotation with
         | None => []
         | Some predicate =>
           map ensures_refusal (bfilter (fun target => negb ((target =s "nothing") || bool_decide (target ∈ constrained)))
                                  (clause_targets predicate))
         end
       end.

Definition ensures_gaps (annotations : json) (not_proposed : list json) : list json :=
  not_proposed
  ++ flat_map (annotation_gaps (acsl_identifiers (ensures_text annotations))) (array_or_empty annotations).

(** ** The dry run *)

Definition normalize_clause_text (text : string) : string := join " " (split_whitespace text).

Definition expected_clause_text (proposal : json) : option string :=
  kind ← get_str "kind" proposal;
  if kind =s "assigns" then normalize_clause_text <$> get_str "acsl" proposal
  else if kind =s "loop" then
    assigns ← get_arr "assigns" proposal;
    first ← head assigns;
    targets ← get_str "acsl" first;
    Some (normalize_clause_text ("loop assigns " +s+ targets +s+ ";"))
  else None.

(** The first clause of this text that is not claimed, and what is left. *)
Fixpoint claim (wanted : string) (unclaimed : list (option json)) : option json * list (option json) :=
  match unclaimed with
  | [] => (None, [])
  | clause :: unclaimed =>
    if is_some_and (fun c => is_some_and (fun text => normalize_clause_text text =s wanted) (get_str "acsl_text" c)) clause
    then (clause, None :: unclaimed)
    else let '(found, rest) := claim wanted unclaimed in (found, clause :: rest)
  end.

Definition verdict_of (clause : option json) : json :=
  match clause with
  | Some clause =>
    JObj [("type_checks", field "valid" clause); ("as_written", field "acsl_text" clause);
          ("error", field "frama_c_error" clause)]
  | None =>
    JObj [("type_checks", JBool false); ("as_written", JNull);
          ("error", JStr "this proposal planned no clause at all")]
  end.

Fixpoint verdicts (proposals : list json) (unclaimed : list (option json)) : list json :=
  match proposals with
  | [] => []
  | proposal :: proposals =>
    let '(clause, unclaimed) :=
      match expected_clause_text proposal with
      | Some text => claim text unclaimed
      | None => (None, unclaimed)
      end in
    verdict_of clause :: verdicts proposals unclaimed
  end.

Definition dry_run_proposals (inject : list json -> option json) (proposals : list json) : option (list json) :=
  match proposals with
  | [] => None
  | _ =>
    payload ← inject proposals;
    clauses ← get_arr "clauses" payload;
    Some (verdicts proposals (map Some clauses))
  end.

(** ** The tool *)

Definition frame_proposal (targets : list string) : json :=
  let clause := match targets with [] => "\nothing" | _ => join ", " targets end in
  JObj [("kind", JStr "assigns"); ("acsl", JStr ("assigns " +s+ clause +s+ ";"));
        ("confidence", JStr "derived");
        ("derived_from", JStr "getWriteEffects: globals, writes through parameters, and callee assigns");
        ("rationale", JStr ("The locations this function writes that its callers can observe. A function with no "
           +s+ "assigns clause is taken to write anything, so every caller loses what it knew."))].

Definition frame_refusal (reason : string) : json := JObj [("kind", JStr "assigns"); ("reason", JStr reason)].

Definition function_frames (writes annotations : json) (p : proposed) : proposed :=
  if already_annotated annotations "assigns" None then p
  else match function_frame writes with
       | Writes targets => add_proposal (frame_proposal targets) p
       | Unknown reason => add_refusal (frame_refusal reason) p
       end.

Definition with_verdict (proposal clause : json) : json := map_object (map_insert "validated" clause) proposal.
Definition type_checks (proposal : json) : bool := eq_bool (idx "type_checks" (idx "validated" proposal)) true.

Definition would_have_been (proposal : json) : json :=
  unwrap_or (proposal .? "acsl") (field "assigns" proposal).

Definition rejection (to_string : json -> string) (proposal : json) : json :=
  JObj [("kind", field "kind" proposal); ("would_have_been", would_have_been proposal);
        ("reason", JStr ("The locations are right and the clause does not type-check here: "
           +s+ to_string (idx "error" (idx "validated" proposal))
           +s+ ". A frame naming something the contract cannot see, a loop index for instance, has to be restated "
           +s+ "as a range over what the caller can name."))].

Definition unchecked (proposal : json) : json :=
  JObj [("kind", field "kind" proposal); ("would_have_been", would_have_been proposal);
        ("reason", JStr ("The dry run could not be made, so nothing here is checked. The injector remaps loop ids "
           +s+ "by position and refuses a count that does not match, which is what a partly annotated set of "
           +s+ "loops produces."))].

Definition after_dry_run (to_string : json -> string) (inject : list json -> option json) (p : proposed) : proposed :=
  match dry_run_proposals inject p.1 with
  | Some clauses =>
    let checked := zip_with with_verdict p.1 clauses in
    (bfilter type_checks checked, p.2 ++ map (rejection to_string) (bfilter (fun j => negb (type_checks j)) checked))
  | None => ([], p.2 ++ map unchecked p.1)
  end.

(** What is proposed before the dry run, and what is not. *)
Definition gather (loops writes annotations : json) : proposed :=
  let p := function_frames writes annotations (loop_frames loops annotations ([], [])) in
  (p.1, ensures_gaps annotations p.2).

Definition propose_annotations_payload (to_string : json -> string) (inject : list json -> option json)
    (function : string) (loops writes annotations : json) : json :=
  let '(proposals, not_proposed) := after_dry_run to_string inject (gather loops writes annotations) in
  JObj [("function", JStr function); ("proposals", JArr proposals); ("not_proposed", JArr not_proposed);
        ("how_to_apply", JObj
          [("tool", JStr "inject_all_annotations");
           ("args", JObj [("function", JStr function); ("dry_run", JBool true); ("annotations", JStr "the proposals array")]);
           ("note", JStr ("Dry-run first. Every proposal here is derived from the AST rather than from the proof, so "
              +s+ "it is a starting frame, not a contract: the clauses that make a proof go through are the ones "
              +s+ "under not_proposed."))])].

(** ** Lemmas: frames *)

Lemma extend_from_spec callees targets :
  (forallb states_assigns callees = true ->
   extend_from callees targets = (targets ++ flat_map callee_targets callees, None))
  /\ (forallb states_assigns callees = false -> is_Some (extend_from callees targets).2).
Proof.
  revert targets. induction callees as [|c callees IH]; intros targets; simpl; [by rewrite app_nil_r|].
  destruct (states_assigns c); simpl; [|by split; [|eexists]].
  destruct (IH (targets ++ callee_targets c)) as [H1 H2]. split; [|done]. intros H. by rewrite H1, app_assoc.
Qed.

Definition writes_of (effects : json) : list json := unwrap_or (get_arr "writes" effects) [].

(** What a frame of these effects has to list. *)
Definition written (effects : json) (t : string) : Prop :=
  (exists write, write ∈ writes_of effects /\ visible_target write = Some t)
  \/ exists callee, callee ∈ callees_of effects /\ t ∈ callee_targets callee.

Lemma elem_of_frame effects (own : list string) t :
  t ∈ btree_set (own ++ flat_map callee_targets (callees_of effects))
  <-> t ∈ own \/ exists callee, callee ∈ callees_of effects /\ t ∈ callee_targets callee.
Proof.
  rewrite elem_of_btree_set, elem_of_app, !list_elem_of_In, in_flat_map. by setoid_rewrite <- list_elem_of_In.
Qed.

(** A function's frame fails closed.  One is proposed exactly when every callee
    states a finite assigns and the effect analysis left nothing unresolved; it then
    lists every write a caller can observe and every location a callee may assign, and
    nothing else, once each and in order. *)
Theorem function_frame_spec (effects : json) :
  ((exists targets, function_frame effects = Writes targets)
   <-> forallb states_assigns (callees_of effects) = true /\ unresolved_effects effects = None)
  /\ forall targets, function_frame effects = Writes targets ->
       StronglySorted str_lt targets /\ forall t, t ∈ targets <-> written effects t.
Proof.
  unfold function_frame, extend_with_callee_assigns. fold (writes_of effects).
  destruct (extend_from_spec (callees_of effects) (collect_some visible_target (writes_of effects))) as [H1 H2].
  destruct (forallb states_assigns (callees_of effects)).
  - rewrite H1 by done. destruct (unresolved_effects effects) as [u|].
    + split; [split; [by intros []|by intros []]|done].
    + split; [split; [done|by eexists]|]. intros targets [= <-]. split; [apply sorted_btree_set|].
      intros t. rewrite elem_of_frame, elem_of_collect_some. done.
  - destruct (H2 eq_refl) as [reason Hr]. destruct (extend_from _ _) as [ts r]. simpl in Hr. subst r.
    split; [split; [by intros []|by intros []]|done].
Qed.

Lemma function_frame_witness :
  let effects := JObj [("writes", JArr [JObj [("target", JStr "*p"); ("base", JStr ""); ("global", JBool false)];
                                        JObj [("target", JStr "i"); ("base", JStr "i"); ("global", JBool false)]]);
                       ("callee_assigns", JArr [JObj [("function", JStr "g"); ("assigns", JObj
                          [("kind", JStr "list"); ("assigns", JArr [JObj [("target", JStr "G")]])])]])] in
  function_frame effects = Writes ["*p"; "G"] /\ StronglySorted str_lt ["*p"; "G"]
  /\ forall t, t ∈ ["*p"; "G"] <-> written effects t.
Proof.
  intros effects. assert (H : function_frame effects = Writes ["*p"; "G"]) by (vm_compute; reflexivity).
  split; [exact H|]. exact (proj2 (function_frame_spec effects) _ H).
Defined.

(** ** Lemmas: loops *)

Lemma get_insert_ne k k' v j : k <> k' -> get k (map_object (map_insert k' v) j) = get k j.
Proof. intros H. destruct j; try done. simpl. by apply map_get_insert_ne. Qed.

Lemma extend_ignores k v targets effects : k <> "callee_assigns" ->
  extend_with_callee_assigns targets (map_object (map_insert k v) effects) = extend_with_callee_assigns targets effects.
Proof. intros H. unfold extend_with_callee_assigns, callees_of, get_arr. by rewrite get_insert_ne by congruence. Qed.

Lemma loop_ignores_unresolved annotations p loop_effect u :
  loop_frame annotations p (map_object (map_insert "unresolved" u) loop_effect) = loop_frame annotations p loop_effect.
Proof.
  unfold loop_frame, modified_vars, get_arr. rewrite !get_insert_ne by done.
  destruct (loop_effect .? "stmt_id" ≫= as_i64) as [stmt_id|]; [|done]. by rewrite extend_ignores.
Qed.

(** A loop's frame does not fail closed.  Whatever the effects of a loop say is
    unresolved, a call through a pointer or inline assembly, changes nothing of what is
    proposed for it; from the very effects for which no frame of a function is
    proposed, a frame of a loop is. *)
Theorem loop_frame_open (loops : list json) (annotations : json) (p : proposed) (u : json) :
  loop_frames (JArr (map (map_object (map_insert "unresolved" u)) loops)) annotations p = loop_frames (JArr loops) annotations p
  /\ let effects := JObj [("stmt_id", jZ 4); ("modified_vars", JArr [JStr "i"]);
                          ("unresolved", JArr [JObj [("kind", JStr "indirect_call")]])] in
     loop_frames (JArr [effects]) JNull ([], []) = ([loop_proposal 4 ["i"]], [invariant_refusal 4])
     /\ exists reason, function_frame effects = Unknown reason.
Proof.
  split; [|split; [vm_compute; reflexivity|by eexists]]. unfold loop_frames. simpl. revert p.
  induction loops as [|l loops IH]; intros p; simpl; [done|]. by rewrite loop_ignores_unresolved.
Qed.

(** ** Lemmas: the dry run *)

(** A clause of this text that the dry run says is valid. *)
Definition clause_for (clauses : list json) (proposal : json) (at_ : nat) : Prop :=
  exists clause text, clauses !! at_ = Some clause /\ get_str "acsl_text" clause = Some text
    /\ expected_clause_text proposal = Some (normalize_clause_text text)
    /\ eq_bool (field "valid" clause) true = true.

(** What is left of [clauses] in [unclaimed]: each entry is its clause or claimed. *)
Definition left_of_clauses (clauses : list json) (unclaimed : list (option json)) : Prop :=
  forall i clause, unclaimed !! i = Some (Some clause) -> clauses !! i = Some clause.

Lemma claim_spec wanted unclaimed : let '(found, rest) := claim wanted unclaimed in
  match found with
  | Some clause => exists i text, unclaimed !! i = Some (Some clause) /\ get_str "acsl_text" clause = Some text
                     /\ normalize_clause_text text = wanted /\ rest = <[i := None]> unclaimed
  | None => rest = unclaimed
  end.
Proof.
  induction unclaimed as [|[c|] unclaimed IH]; simpl; [done| |].
  - destruct (get_str "acsl_text" c) as [text|] eqn:Et; simpl.
    + destruct (String.eqb_spec (normalize_clause_text text) wanted) as [He|_]; [by exists 0, text|].
      destruct (claim wanted unclaimed) as [[clause|] rest]; [|by subst].
      destruct IH as (i & text' & H1 & H2 & H3 & ->). by exists (S i), text'.
    + destruct (claim wanted unclaimed) as [[clause|] rest]; [|by subst].
      destruct IH as (i & text' & H1 & H2 & H3 & ->). by exists (S i), text'.
  - destruct (claim wanted unclaimed) as [[clause|] rest]; [|by subst].
    destruct IH as (i & text' & H1 & H2 & H3 & ->). by exists (S i), text'.
Qed.

Lemma verdict_type_checks m clause : type_checks (with_verdict (JObj m) (verdict_of clause)) = true ->
  exists c, clause = Some c /\ eq_bool (field "valid" c) true = true.
Proof.
  unfold type_checks, with_verdict, idx. simpl. rewrite map_get_insert. simpl.
  destruct clause as [c|]; simpl; [by exists c|done].
Qed.

Definition claim_for (proposal : json) (unclaimed : list (option json)) : option json * list (option json) :=
  match expected_clause_text proposal with Some text => claim text unclaimed | None => (None, unclaimed) end.

Lemma claim_for_spec clauses proposal unclaimed : left_of_clauses clauses unclaimed ->
  let '(found, rest) := claim_for proposal unclaimed in
  left_of_clauses clauses rest
  /\ (forall i c, rest !! i = Some (Some c) -> unclaimed !! i = Some (Some c))
  /\ forall c, found = Some c -> exists i text, unclaimed !! i = Some (Some c) /\ get_str "acsl_text" c = Some text
       /\ expected_clause_text proposal = Some (normalize_clause_text text)
       /\ forall c', rest !! i <> Some (Some c').
Proof.
  intros Hl. unfold claim_for. destruct (expected_clause_text proposal) as [wanted|]; [|by split_and!].
  pose proof (claim_spec wanted unclaimed) as Hc. destruct (claim wanted unclaimed) as [[c|] rest]; [|by subst].
  destruct Hc as (i & text & H1 & H2 & H3 & ->).
  assert (Hin : forall k c', <[i := None]> unclaimed !! k = Some (Some c') -> unclaimed !! k = Some (Some c') /\ k <> i).
  { intros k c' Hk. destruct (decide (k = i)) as [->|Hne]; [|by rewrite list_lookup_insert_ne in Hk].
    rewrite list_lookup_insert_eq in Hk by (by eapply lookup_lt_Some). done. }
  split_and!; [intros k c' [Hk _]%Hin; by apply Hl|by intros k c' [Hk _]%Hin|].
  intros c' [= <-]. exists i, text. rewrite <- H3. split_and!; try done. intros c' [_ Hk]%Hin. done.
Qed.

Lemma verdicts_cons proposal proposals unclaimed :
  verdicts (proposal :: proposals) unclaimed
  = verdict_of (claim_for proposal unclaimed).1 :: verdicts proposals (claim_for proposal unclaimed).2.
Proof. simpl. unfold claim_for. destruct (expected_clause_text proposal); [|done]. by destruct (claim _ _). Qed.

(** A kept proposal with the position of the clause that speaks for it. *)
Definition kept_by (clauses proposals : list json) (j : json) (at_ : nat) : Prop :=
  exists proposal, proposal ∈ proposals /\ clause_for clauses proposal at_
    /\ j = with_verdict proposal (verdict_of (clauses !! at_)).

Lemma verdicts_kept clauses proposals unclaimed :
  Forall (fun j => is_object j = true) proposals -> left_of_clauses clauses unclaimed ->
  exists positions, NoDup positions
    /\ Forall2 (fun j i => kept_by clauses proposals j i /\ exists c, unclaimed !! i = Some (Some c))
         (bfilter type_checks (zip_with with_verdict proposals (verdicts proposals unclaimed))) positions.
Proof.
  intros Hobj. revert unclaimed. induction Hobj as [|proposal proposals Ho Hobj IH]; intros unclaimed Hl.
  { exists []. split; constructor. }
  rewrite verdicts_cons. pose proof (claim_for_spec clauses proposal unclaimed Hl) as Hstep.
  destruct (claim_for proposal unclaimed) as [found rest]. destruct Hstep as (Hl' & Hsub & Hf). cbn [fst snd zip_with bfilter].
  destruct (IH rest Hl') as (positions & Hnd & Hall).
  assert (Hall' : Forall2 (fun j i => kept_by clauses (proposal :: proposals) j i /\ exists c, unclaimed !! i = Some (Some c))
    (bfilter type_checks (zip_with with_verdict proposals (verdicts proposals rest))) positions).
  { eapply Forall2_impl; [exact Hall|]. intros j i [(q & Hq & H) [c Hc]].
    split; [exists q; split; [by right|done]|exists c; by apply Hsub]. }
  destruct (type_checks (with_verdict proposal (verdict_of found))) eqn:Et; [|by exists positions].
  destruct proposal as [| | | | |m]; try done.
  apply verdict_type_checks in Et as (c & -> & Hv). destruct (Hf c eq_refl) as (i & text & H1 & H2 & H3 & H4).
  exists (i :: positions). split.
  - apply NoDup_cons. split; [|done]. intros Hi. apply list_elem_of_lookup in Hi as [k Hk].
    destruct (Forall2_lookup_r _ _ _ _ _ Hall Hk) as (q & _ & _ & c' & Hc'). by apply (H4 c').
  - constructor; [|done]. split; [|by exists c]. apply Hl in H1. exists (JObj m). split; [left|].
    split; [by exists c, text|by rewrite H1].
Qed.

Lemma loop_frame_objects annotations p loop_effect :
  Forall (fun j => is_object j = true) p.1 -> Forall (fun j => is_object j = true) (loop_frame annotations p loop_effect).1.
Proof.
  intros Hp. unfold loop_frame. destruct (_ ≫= as_i64); [|done]. destruct (extend_with_callee_assigns _ _) as [ts [r|]]; [done|].
  destruct (bool_decide _); [done|]. destruct (already_annotated _ _ _); [done|].
  destruct (already_annotated _ _ _); simpl; apply Forall_app; split; try done; by repeat constructor.
Qed.

Lemma gather_objects loops writes annotations : Forall (fun j => is_object j = true) (gather loops writes annotations).1.
Proof.
  assert (Hl : forall ls p, Forall (fun j => is_object j = true) p.1 ->
    Forall (fun j => is_object j = true) (fold_left (loop_frame annotations) ls p).1).
  { induction ls as [|l ls IH]; intros p Hp; [done|]. simpl. by apply IH, loop_frame_objects. }
  specialize (Hl (array_or_empty loops) ([], []) (Forall_nil_2 _)). unfold gather, function_frames, loop_frames. simpl.
  destruct (already_annotated _ _ _); [done|]. destruct (function_frame writes); [|done].
  simpl. apply Forall_app. split; [done|]. by repeat constructor.
Qed.

Lemma bfilter_partition {A} (f : A -> bool) l :
  length (bfilter f l) + length (bfilter (fun x => negb (f x)) l) = length l.
Proof. induction l as [|x l IH]; simpl; [done|]. destruct (f x); simpl; lia. Qed.

Lemma length_verdicts proposals unclaimed : length (verdicts proposals unclaimed) = length proposals.
Proof. revert unclaimed. induction proposals as [|p ps IH]; intros u; [done|]. rewrite verdicts_cons. simpl. by rewrite IH. Qed.

(** Nothing unchecked is offered and nothing is lost.  Each offered proposal was
    dry-run and is backed by a clause that Frama-C found valid and whose text is the
    proposal's, no clause backing two; every other one is listed as not proposed, so
    without an answer to the dry run nothing is offered. *)
Theorem proposals_checked (to_string : json -> string) (inject : list json -> option json) (function : string)
    (loops writes annotations : json) :
  let p := gather loops writes annotations in
  let out := propose_annotations_payload to_string inject function loops writes annotations in
  exists kept refused,
    get_arr "proposals" out = Some kept /\ get_arr "not_proposed" out = Some (p.2 ++ refused)
    /\ length kept + length refused = length p.1
    /\ (kept = []
        \/ exists payload clauses positions,
             inject p.1 = Some payload /\ get_arr "clauses" payload = Some clauses
             /\ NoDup positions /\ Forall2 (kept_by clauses p.1) kept positions).
Proof.
  intros p out. unfold out, propose_annotations_payload, after_dry_run. fold p.
  destruct (dry_run_proposals inject p.1) as [vs|] eqn:Ed; simpl.
  - unfold dry_run_proposals in Ed. destruct p.1 as [|q qs] eqn:Ep; [done|]. rewrite <- Ep in *.
    apply bind_Some in Ed as (payload & Hi & Ed). apply bind_Some in Ed as (clauses & Hc & [= <-]).
    set (checked := zip_with with_verdict p.1 (verdicts p.1 (map Some clauses))).
    exists (bfilter type_checks checked), (map (rejection to_string) (bfilter (fun j => negb (type_checks j)) checked)).
    split_and!; [done|done| |].
    + rewrite length_map, bfilter_partition. unfold checked. rewrite length_zip_with, length_verdicts. apply Nat.min_id.
    + right. destruct (verdicts_kept clauses p.1 (map Some clauses)) as (positions & Hnd & Hall).
      * apply gather_objects.
      * intros i c H. rewrite list_lookup_fmap in H. destruct (clauses !! i); simpl in H; congruence.
      * exists payload, clauses, positions. split_and!; try done. eapply Forall2_impl; [exact Hall|]. by intros j i [].
  - exists [], (map unchecked p.1). split_and!; [done|done|by rewrite length_map|by left].
Qed.
