(* ===== verification/Acsl.v ===== *)
(** * ACSL clauses as text (src/src/mcp/acsl.rs)

    A proposed clause becomes the text Frama-C accepts, with the place it came from, and
    goes into a plan; a clause that names an undeclared behavior becomes a failure and
    planning goes on.  The two label patterns are the regex crate's and are the arguments
    [strip_labels] of the functions that use them. *)

From S2P Require Import Prelude RustStr BTree Json Pins.
Local Open Scope nat_scope.

(** ** Failures (types.rs) *)

Inductive FailureType := SyntaxError | ProposedSelfReferential | ProposedLocalVarInFunspec | ProposedError.

#[export] Instance FailureType_eq_dec : EqDecision FailureType.
Proof. solve_decision. Defined.

Definition classify_failure (error : string) : FailureType :=
  let lower := to_lowercase error in
  if contains "function local" lower then ProposedLocalVarInFunspec
  else if existsb (fun needle => contains needle lower)
            ["unbound"; "no such"; "not found"; "unknown identifier"; "undeclared type"; "reference to unknown"; "cannot find"]
  then ProposedSelfReferential
  else if existsb (fun needle => contains needle lower) ["syntax error"; "parse error"; "unexpected"; "lexeme"]
  then SyntaxError
  else ProposedError.

Record InjectionFailure := mkInjectionFailure {
  if_type : FailureType;
  if_path : string;
  if_acsl : string;
  if_error : string;
}.

Record InjectionPlanEntry := mkPlanEntry {
  pe_acsl_text : string;
  pe_kind : string;
  pe_derived_from : string;
  pe_stmt_id : option Z;
  pe_purpose : string;
  pe_user_label : option string;
}.

(** What is being built: the plan and the failures met on the way. *)
Definition Planning : Type := list InjectionPlanEntry * list InjectionFailure.
Definition plan_push (p : Planning) (e : InjectionPlanEntry) : Planning := (p.1 ++ [e], p.2).
Definition plan_fail (p : Planning) (f : InjectionFailure) : Planning := (p.1, p.2 ++ [f]).

(** ** Text *)

(** [trim_end_matches] of a set of ASCII characters. *)
Fixpoint trim_end_where (f : ascii -> bool) (s : string) : string :=
  match s with
  | "" => ""
  | String d s' => if sall f s then "" else String d (trim_end_where f s')
  end.

Definition normalize_acsl (text : string) : string := trim (trim_end_char ";" (trim text)) +s+ ";".

Definition blank (c : ascii) : bool := in_range 9 10 c || in_range 13 13 c || in_range 32 32 c.

Definition starts_declaration (keyword body : string) : bool :=
  is_some_and (fun rest => match rest with String c _ => blank c || Ascii.eqb c "{" | "" => false end)
    (strip_prefix keyword body).

Definition normalize_global_acsl (text : string) : string :=
  let body := trim_end_where (fun c => Ascii.eqb c ";" || blank c) (trim text) in
  if ends_with "}" body && existsb (fun keyword => starts_declaration keyword body) ["axiomatic"; "module"; "inductive"]
  then body else normalize_acsl text.

Definition Behaviors : Type := gmap string (list string).
Definition lookup_behavior_assumes (behaviors : Behaviors) (name : string) : option (list string) := behaviors !! name.

Definition starts_with_whitespace (s : string) : bool := match ws_char s with Some _ => true | None => false end.

Definition strip_leading_keyword (body keyword : string) : string :=
  let t := trim body in
  match strip_prefix keyword t with
  | Some rest => if is_empty rest || starts_with_whitespace rest then trim rest else t
  | None => t
  end.

(** The body of a clause: no keyword before it, no terminator after it. *)
Definition clean_body (keyword body : string) : string :=
  trim (trim_end_char ";" (strip_leading_keyword (trim (trim_end_char ";" (trim body))) keyword)).

Definition clause (keyword body : string) : string := keyword +s+ " " +s+ clean_body keyword body +s+ ";".

Definition undeclared (behavior path : string) : string :=
  "behavior '" +s+ behavior +s+ "' referenced at " +s+ path +s+ " but not declared in proposed_behaviors".

Definition assumes_text (assume : string) : string := " assumes " +s+ trim (trim_end_char ";" (trim assume)) +s+ ";".

Definition wrap_funspec_clause (keyword body : string) (behavior : option string) (behaviors : Behaviors)
    (proposed_path : string) : string + string :=
  match behavior with
  | None => inl (clause keyword body)
  | Some name =>
    match lookup_behavior_assumes behaviors name with
    | None => inr (undeclared name proposed_path)
    | Some assumes =>
      inl ("behavior " +s+ name +s+ ":" +s+ join "" (map assumes_text assumes) +s+ " " +s+ clause keyword body)
    end
  end.

Definition wrap_loop_clause (keyword body : string) (behavior : option string) (behaviors : Behaviors)
    (proposed_path : string) : string + string :=
  match behavior with
  | None => inl (clause keyword body)
  | Some name =>
    match lookup_behavior_assumes behaviors name with
    | None => inr (undeclared name proposed_path)
    | Some _ => inl ("for " +s+ name +s+ ": " +s+ clause keyword body)
    end
  end.

Definition wrap_assert_clause (acsl : string) : string :=
  normalize_acsl ("assert " +s+ trim (strip_leading_keyword acsl "assert")).

Definition planning_failure (path acsl msg : string) : InjectionFailure :=
  mkInjectionFailure (classify_failure msg) path acsl msg.

(** ** Planning *)

Definition str_or (key fallback : string) (v : json) : string := unwrap_or (get_str key v) fallback.

(** The text of an entry that may also be a bare string. *)
Definition acsl_of (value : json) : string := unwrap_or (get_str "acsl" value <||> as_str value) "".
Definition blank_text (s : string) : bool := is_empty (trim s).

Definition indexed (path : string) (i : nat) : string := path +s+ "[" +s+ dec i +s+ "]".

Definition push_single_funspec_clause (keyword path purpose : string) (value : option json) (behaviors : Behaviors)
    (p : Planning) : Planning :=
  match value with
  | None => p
  | Some value =>
    let acsl_text := acsl_of value in
    if blank_text acsl_text then p
    else
      match wrap_funspec_clause keyword acsl_text None behaviors path with
      | inl acsl_norm => plan_push p (mkPlanEntry acsl_norm "spec" path None (str_or "purpose" purpose value) (Some keyword))
      | inr msg => plan_fail p (planning_failure path acsl_text msg)
      end
  end.

(** A loop over the entries of a field, with their positions. *)
Fixpoint plan_entries (step : nat -> json -> Planning -> Planning) (i : nat) (entries : list json) (p : Planning) : Planning :=
  match entries with
  | [] => p
  | v :: entries => plan_entries step (S i) entries (step i v p)
  end.
Definition plan_field (step : nat -> json -> Planning -> Planning) (entries : option (list json)) (p : Planning) : Planning :=
  match entries with None => p | Some entries => plan_entries step 0 entries p end.

Definition behavior_group (keyword path : string) (behaviors : Behaviors) (i : nat) (value : json) (p : Planning) : Planning :=
  let proposed_path := indexed path i in
  let names := collect_some as_str (array_or_empty value) in
  match find_first (fun name => bool_decide (behaviors !! name = None)) names with
  | Some missing => plan_fail p (mkInjectionFailure ProposedError proposed_path "" (undeclared missing path))
  | None =>
    let acsl_text :=
      match names with
      | [] => keyword +s+ " behaviors;"
      | _ => keyword +s+ " behaviors " +s+ join ", " names +s+ ";"
      end in
    plan_push p (mkPlanEntry acsl_text "spec" proposed_path None (keyword +s+ " behavior group") (Some (keyword +s+ "_behaviors")))
  end.

Definition push_behavior_group_clauses (keyword path : string) (groups : option (list json)) (behaviors : Behaviors)
    : Planning -> Planning :=
  plan_field (behavior_group keyword path behaviors) groups.

Definition plan_global (i : nat) (v : json) (p : Planning) : Planning :=
  let acsl_text := acsl_of v in
  if blank_text acsl_text then p
  else plan_push p (mkPlanEntry (normalize_global_acsl acsl_text) "global" (indexed "proposed_globals" i) None
                      (str_or "purpose" "global_acsl" v) None).
Definition plan_globals : option (list json) -> Planning -> Planning := plan_field plan_global.

(** The label of an entry: its own, the behavior's, or one from the position. *)
Definition label_of (v : json) (behavior_label fallback : string) : string :=
  unwrap_or (get_str "user_label" v <||> ((fun b => "beh_" +s+ b +s+ behavior_label) <$> get_str "behavior" v)) fallback.

(** [chars().take(n)]. *)
Fixpoint take_chars (n : nat) (s : string) : string :=
  match s with
  | "" => ""
  | String c s =>
    if in_range 128 191 c then String c (take_chars n s)
    else match n with O => "" | S n => String c (take_chars n s) end
  end.

Definition plan_wrapped (wrapped : string + string) (path acsl purpose label : string) (p : Planning) : Planning :=
  match wrapped with
  | inl text => plan_push p (mkPlanEntry text "spec" path None purpose (Some label))
  | inr msg => plan_fail p (planning_failure path acsl msg)
  end.

Definition plan_require (behaviors : Behaviors) (i : nat) (v : json) (p : Planning) : Planning :=
  let acsl_text := str_or "acsl" "" v in
  let path := indexed "proposed_requires" i in
  plan_wrapped (wrap_funspec_clause "requires" acsl_text (get_str "behavior" v) behaviors path) path acsl_text
    (str_or "necessity" "" v) (label_of v "" ("Req" +s+ dec i)) p.
Definition plan_requires (reqs : option (list json)) (behaviors : Behaviors) : Planning -> Planning :=
  plan_field (plan_require behaviors) reqs.

Definition plan_ensure (behaviors : Behaviors) (i : nat) (v : json) (p : Planning) : Planning :=
  let acsl_body := str_or "acsl" "" v in
  let from := str_or "from" "" v in
  let path := indexed "proposed_ensures" i in
  plan_wrapped (wrap_funspec_clause "ensures" acsl_body (get_str "behavior" v) behaviors path) path acsl_body
    (if negb (is_empty from) then from else take_chars 80 acsl_body) (label_of v "" ("Ens" +s+ dec i)) p.
Definition plan_ensures (ensures_list : option (list json)) (behaviors : Behaviors) : Planning -> Planning :=
  plan_field (plan_ensure behaviors) ensures_list.

Definition map_left (f : string -> string) (r : string + string) : string + string :=
  match r with inl a => inl (f a) | inr e => inr e end.

Definition plan_assign (behaviors : Behaviors) (i : nat) (v : json) (p : Planning) : Planning :=
  let acsl_body := str_or "acsl" "" v in
  if blank_text acsl_body then p
  else
    let path := indexed "proposed_assigns" i in
    plan_wrapped (map_left normalize_acsl (wrap_funspec_clause "assigns" acsl_body (get_str "behavior" v) behaviors path))
      path acsl_body "Function-level modifies clause" (label_of v "_assigns" ("assigns_" +s+ dec i)) p.
Definition plan_assigns (assigns_list : option (list json)) (behaviors : Behaviors) : Planning -> Planning :=
  plan_field (plan_assign behaviors) assigns_list.

Definition plan_assert (i : nat) (v : json) (p : Planning) : Planning :=
  let path := indexed "proposed_asserts" i in
  let acsl_body := str_or "acsl" "" v in
  if blank_text acsl_body then p
  else
    match v .? "stmt_id" ≫= as_i64 with
    | None => plan_fail p (mkInjectionFailure ProposedError path acsl_body "proposed_asserts entry requires integer stmt_id")
    | Some stmt_id =>
      plan_push p (mkPlanEntry (wrap_assert_clause acsl_body) "annot" path (Some stmt_id)
        (str_or "purpose" "statement assertion" v) (Some (str_or "user_label" ("Assert" +s+ dec i) v)))
    end.
Definition plan_asserts : option (list json) -> Planning -> Planning := plan_field plan_assert.

(** *** Loops *)

(** One outcome of a loop's expansion: an entry, or the path and the reason. *)
Definition LoopOutcome : Type := InjectionPlanEntry + (string * string).

Definition loop_path (i : nat) (clause_path : string) : string := indexed "proposed_loop_annots" i +s+ "." +s+ clause_path.

Definition loop_outcome (wrapped : string + string) (path : string) (stmt_id : option Z) (purpose label : string) : LoopOutcome :=
  match wrapped with
  | inl acsl_text => inl (mkPlanEntry acsl_text "annot" path stmt_id purpose (Some label))
  | inr msg => inr (path, msg)
  end.

Definition under_score (s : string) : string := smap (fun c => if Ascii.eqb c " " then "_"%char else c) s.

Definition loop_invariant (i : nat) (stmt_id : option Z) (loop_label : string) (behaviors : Behaviors) (j : nat) (inv : json)
    : list LoopOutcome :=
  let path := loop_path i (indexed "invariants" j) in
  [loop_outcome (wrap_loop_clause "loop invariant" (str_or "acsl" "" inv) (get_str "behavior" inv) behaviors path) path stmt_id
     (loop_label +s+ " invariant " +s+ dec j) (str_or "user_label" ("Inv" +s+ dec j) inv)].

Definition loop_assign (i : nat) (stmt_id : option Z) (loop_label : string) (behaviors : Behaviors) (j : nat) (la : json)
    : list LoopOutcome :=
  let body := str_or "acsl" "" la in
  if blank_text body then []
  else
    let path := loop_path i (indexed "assigns" j) in
    [loop_outcome (wrap_loop_clause "loop assigns" body (get_str "behavior" la) behaviors path) path stmt_id
       (loop_label +s+ " assigns " +s+ dec j) ("loop_" +s+ under_score loop_label +s+ "_assigns_" +s+ dec j)].

Definition loop_variant (annot : json) (i : nat) (stmt_id : option Z) (loop_label : string) (behaviors : Behaviors)
    : list LoopOutcome :=
  match opt_filter (fun body => negb (blank_text body)) (annot .? "variant" ≫= get_str "acsl") with
  | None => []
  | Some body =>
    let path := loop_path i "variant" in
    [loop_outcome (wrap_loop_clause "loop variant" body (get_str "behavior" (field "variant" annot)) behaviors path) path stmt_id
       (loop_label +s+ " variant") ("loop_" +s+ under_score loop_label +s+ "_variant")]
  end.

(** [iter().enumerate()] and [flat_map]. *)
Fixpoint flat_mapi {A B} (f : nat -> A -> list B) (i : nat) (l : list A) : list B :=
  match l with [] => [] | a :: l => f i a ++ flat_mapi f (S i) l end.

Definition loop_annots_to_acsl (annot : json) (i : nat) (behaviors : Behaviors) : list LoopOutcome :=
  let stmt_id := annot .? "stmt_id" ≫= as_i64 in
  let loop_label := str_or "loop_label" "" annot in
  flat_mapi (loop_invariant i stmt_id loop_label behaviors) 0 (unwrap_or (get_arr "invariants" annot) [])
  ++ flat_mapi (loop_assign i stmt_id loop_label behaviors) 0 (unwrap_or (get_arr "assigns" annot) [])
  ++ loop_variant annot i stmt_id loop_label behaviors.

(** ** Kinds and comparison *)

Definition acsl_kind_to_ast_kind (acsl : string) : string :=
  let lower := to_lowercase (trim acsl) in
  if existsb (fun keyword => starts_with keyword lower) ["loop invariant"; "loop assigns"; "loop variant"; "assert"]
  then "annot" else "spec".

Section labels.
Variable strip_labels : string -> string.

Definition normalize_for_comparison (acsl : string) : string :=
  trim (unwrap_or (head (split_char ";" (strip_labels acsl))) (strip_labels acsl)).

Definition normalize_annotation_equivalence (acsl : string) : string :=
  join " " (split_whitespace (ascii_acsl_operators (strip_labels acsl))).

Definition annotation_kind (item : json) : string :=
  match item .? "sid" ≫= as_i64 with
  | Some sid => if (sid =? -1)%Z then "spec" else "annot"
  | None => "unknown"
  end.

Definition canonical_extracted_annotations (value : json) : list string :=
  let payload := unwrap_or (value .? "result") value in
  let global item := (fun acsl => "global:" +s+ normalize_annotation_equivalence acsl) <$> get_str "acsl" item in
  let annotation item := (fun acsl => annotation_kind item +s+ ":" +s+ normalize_annotation_equivalence acsl) <$> get_str "acsl" item in
  merge_sort str_le
    (collect_some global (unwrap_or (get_arr "globals" payload) [])
     ++ collect_some annotation (unwrap_or (get_arr "annotations" payload) [])).
End labels.

(** ** What a plan accounts for *)

(** The places of a plan's entries and failures. *)
Definition accounts (p : Planning) (places : list string) : Prop :=
  map pe_derived_from p.1 ++ map if_path p.2 ≡ₚ places
  /\ sublist (map pe_derived_from p.1) places /\ sublist (map if_path p.2) places.

(** A planning step that accounts for these places, and keeps what was planned. *)
Definition adds (step : Planning -> Planning) (places : list string) : Prop :=
  forall p, exists entries failures, step p = (p.1 ++ entries, p.2 ++ failures) /\ accounts (entries, failures) places.

(** The places a field is expected to account for, read off its entries. *)
Definition place_all (field : string) (i : nat) (_ : json) : list string := [indexed field i].
Definition place_text (text : json -> string) (field : string) (i : nat) (v : json) : list string :=
  if blank_text (text v) then [] else [indexed field i].
Definition place_single (field : string) (value : option json) : list string :=
  match value with Some v => if blank_text (acsl_of v) then [] else [field] | None => [] end.
Definition place_loop (i : nat) (annot : json) : list string :=
  flat_mapi (fun j (_ : json) => [loop_path i (indexed "invariants" j)]) 0 (unwrap_or (get_arr "invariants" annot) [])
  ++ flat_mapi (fun j la => if blank_text (str_or "acsl" "" la) then [] else [loop_path i (indexed "assigns" j)]) 0
       (unwrap_or (get_arr "assigns" annot) [])
  ++ match opt_filter (fun body => negb (blank_text body)) (annot .? "variant" ≫= get_str "acsl") with
     | Some _ => [loop_path i "variant"]
     | None => []
     end.

(** ** Lemmas on plans *)

Lemma accounts_nil : accounts ([], []) [].
Proof. split_and!; by simpl. Qed.

Lemma accounts_app e f l e' f' l' : accounts (e, f) l -> accounts (e', f') l' -> accounts (e ++ e', f ++ f') (l ++ l').
Proof.
  unfold accounts. simpl. intros (H1 & H2 & H3) (H1' & H2' & H3'). rewrite !map_app. split_and!.
  - rewrite <- H1, <- H1'. solve_Permutation.
  - by apply sublist_app.
  - by apply sublist_app.
Qed.

Lemma accounts_entry e : accounts ([e], []) [pe_derived_from e].
Proof. split_and!; simpl; [done|done|apply sublist_nil_l]. Qed.

Lemma accounts_failure f : accounts ([], [f]) [if_path f].
Proof. split_and!; simpl; [done|apply sublist_nil_l|done]. Qed.

Lemma accounts_cons_entry e entries failures l : accounts (entries, failures) l ->
  accounts (e :: entries, failures) (pe_derived_from e :: l).
Proof. apply (accounts_app [e] [] [_]), accounts_entry. Qed.

Lemma accounts_cons_failure f entries failures l : accounts (entries, failures) l ->
  accounts (entries, f :: failures) (if_path f :: l).
Proof. apply (accounts_app [] [f] [_]), accounts_failure. Qed.

Lemma adds_none : adds (fun p => p) [].
Proof. intros p. exists [], []. rewrite !app_nil_r. split; [by destruct p|apply accounts_nil]. Qed.

Lemma adds_push e : adds (fun p => plan_push p e) [pe_derived_from e].
Proof. intros p. exists [e], []. rewrite app_nil_r. split; [done|apply accounts_entry]. Qed.

Lemma adds_fail f : adds (fun p => plan_fail p f) [if_path f].
Proof. intros p. exists [], [f]. rewrite app_nil_r. split; [done|apply accounts_failure]. Qed.

Lemma adds_then f g l k : adds f l -> adds g k -> adds (fun p => g (f p)) (l ++ k).
Proof.
  intros Hf Hg p. destruct (Hf p) as (e & fl & -> & Ha), (Hg (p.1 ++ e, p.2 ++ fl)) as (e' & fl' & -> & Ha').
  exists (e ++ e'), (fl ++ fl'). rewrite !app_assoc. split; [done|by apply accounts_app].
Qed.

Lemma adds_entries step place entries : (forall i v, adds (step i v) (place i v)) ->
  forall i, adds (plan_entries step i entries) (flat_mapi place i entries).
Proof. intros H. induction entries as [|v entries IH]; intros i; simpl; [apply adds_none|by apply adds_then]. Qed.

Lemma adds_field step place entries : (forall i v, adds (step i v) (place i v)) ->
  adds (plan_field step entries) (flat_mapi place 0 (unwrap_or entries [])).
Proof. intros H. destruct entries as [entries|]; [by apply adds_entries|apply adds_none]. Qed.

Lemma adds_wrapped wrapped path acsl purpose label : adds (plan_wrapped wrapped path acsl purpose label) [path].
Proof. destruct wrapped; [apply (adds_push (mkPlanEntry _ _ path _ _ _))|apply (adds_fail (planning_failure path _ _))]. Qed.

Lemma adds_single keyword path purpose value behaviors :
  adds (push_single_funspec_clause keyword path purpose value behaviors) (place_single path value).
Proof.
  unfold push_single_funspec_clause, place_single. destruct value as [v|]; [|apply adds_none].
  destruct (blank_text _); [apply adds_none|].
  apply (adds_push (mkPlanEntry _ _ path _ _ _)).
Qed.

Lemma adds_group keyword path behaviors i v : adds (behavior_group keyword path behaviors i v) (place_all path i v).
Proof.
  unfold behavior_group. destruct (find_first _ _) as [missing|].
  - apply (adds_fail (mkInjectionFailure _ (indexed path i) _ _)).
  - apply (adds_push (mkPlanEntry _ _ (indexed path i) _ _ _)).
Qed.

Lemma adds_global i v : adds (plan_global i v) (place_text acsl_of "proposed_globals" i v).
Proof.
  unfold plan_global, place_text. destruct (blank_text _); [apply adds_none|].
  apply (adds_push (mkPlanEntry _ _ (indexed "proposed_globals" i) _ _ _)).
Qed.

Lemma adds_assign behaviors i v : adds (plan_assign behaviors i v) (place_text (str_or "acsl" "") "proposed_assigns" i v).
Proof. unfold plan_assign, place_text. destruct (blank_text _); [apply adds_none|apply adds_wrapped]. Qed.

Lemma adds_assert i v : adds (plan_assert i v) (place_text (str_or "acsl" "") "proposed_asserts" i v).
Proof.
  unfold plan_assert, place_text. destruct (blank_text _); [apply adds_none|]. destruct (_ ≫= as_i64).
  - apply (adds_push (mkPlanEntry _ _ (indexed "proposed_asserts" i) _ _ _)).
  - apply (adds_fail (mkInjectionFailure _ (indexed "proposed_asserts" i) _ _)).
Qed.

Definition outcome_path (o : LoopOutcome) : string := match o with inl e => pe_derived_from e | inr (path, _) => path end.

Lemma map_flat_mapi {A B C} (f : B -> C) (g : nat -> A -> list B) l : forall i,
  map f (flat_mapi g i l) = flat_mapi (fun i a => map f (g i a)) i l.
Proof. induction l as [|a l IH]; intros i; simpl; [done|]. by rewrite map_app, IH. Qed.

Lemma flat_mapi_ext {A B} (f g : nat -> A -> list B) l : (forall i a, f i a = g i a) -> forall i, flat_mapi f i l = flat_mapi g i l.
Proof. intros H. induction l as [|a l IH]; intros i; simpl; [done|]. by rewrite H, IH. Qed.

Lemma outcome_path_loop wrapped path stmt_id purpose label : outcome_path (loop_outcome wrapped path stmt_id purpose label) = path.
Proof. by destruct wrapped. Qed.

Lemma loop_outcome_paths annot i behaviors : map outcome_path (loop_annots_to_acsl annot i behaviors) = place_loop i annot.
Proof.
  unfold loop_annots_to_acsl, place_loop. rewrite !map_app, !map_flat_mapi. f_equal; [|f_equal].
  - apply flat_mapi_ext. intros j v. simpl. by rewrite outcome_path_loop.
  - apply flat_mapi_ext. intros j v. unfold loop_assign. destruct (blank_text _); simpl; [done|]. by rewrite outcome_path_loop.
  - unfold loop_variant. destruct (opt_filter _ _); simpl; [|done]. by rewrite outcome_path_loop.
Qed.

(** *** The places of different entries differ *)

Lemma elem_of_flat_mapi {A B} (f : nat -> A -> list B) l x : forall i, x ∈ flat_mapi f i l -> exists j a, l !! j = Some a /\ x ∈ f (i + j) a.
Proof.
  induction l as [|a l IH]; intros i; simpl; [by intros ?%elem_of_nil|].
  intros [Hx|Hx]%elem_of_app; [exists 0, a; by rewrite Nat.add_0_r|].
  apply IH in Hx as (j & b & Hj & Hx). exists (S j), b. by rewrite Nat.add_succ_r.
Qed.

Lemma NoDup_flat_mapi {A B} (f : nat -> A -> list B) l : (forall i a, NoDup (f i a)) ->
  (forall i a j b x, x ∈ f i a -> x ∈ f j b -> i = j) -> forall i, NoDup (flat_mapi f i l).
Proof.
  intros Hn Hd. induction l as [|a l IH]; intros i; simpl; [apply NoDup_nil_2|].
  apply NoDup_app. split_and!; [done| |done].
  intros x Hx Hr. apply elem_of_flat_mapi in Hr as (j & b & _ & Hr). specialize (Hd _ _ _ _ _ Hx Hr). lia.
Qed.

Lemma indexed_inj f g i j rest rest' : free_of "[" f = true -> free_of "[" g = true ->
  indexed f i +s+ rest = indexed g j +s+ rest' -> f = g /\ i = j /\ rest = rest'.
Proof.
  intros Hf Hg Heq. unfold indexed in Heq. rewrite !app_str_assoc in Heq.
  apply separated_inj in Heq as [-> Heq]; [|done..].
  apply separated_inj in Heq as [Heq ->]; [|by apply dec_free..]. by apply dec_inj in Heq.
Qed.

Lemma indexed_inj_same f g i j : free_of "[" f = true -> free_of "[" g = true -> indexed f i = indexed g j -> f = g /\ i = j.
Proof.
  intros Hf Hg Heq. destruct (indexed_inj f g i j "" "" Hf Hg) as (? & ? & _); [|done]. by rewrite Heq.
Qed.

Lemma NoDup_place_all field l : free_of "[" field = true -> NoDup (flat_mapi (place_all field) 0 l).
Proof.
  intros Hf. apply NoDup_flat_mapi; [intros; apply NoDup_singleton|].
  intros i a j b x ->%list_elem_of_singleton H%list_elem_of_singleton. by apply indexed_inj_same in H as [_ ?].
Qed.

Lemma NoDup_place_text text field l : free_of "[" field = true -> NoDup (flat_mapi (place_text text field) 0 l).
Proof.
  intros Hf. apply NoDup_flat_mapi; [intros i a; unfold place_text; case_match; [apply NoDup_nil_2|apply NoDup_singleton]|].
  unfold place_text. intros i a j b x Hx Hy. do 2 case_match; try by apply elem_of_nil in Hx || apply elem_of_nil in Hy.
  apply list_elem_of_singleton in Hx, Hy. subst. by apply indexed_inj_same in Hy as [_ ?].
Qed.

Lemma loop_path_inj i j a b : loop_path i a = loop_path j b -> i = j /\ a = b.
Proof. intros H. apply indexed_inj in H as (_ & -> & H); [|done..]. by injection H as ->. Qed.

Lemma indexed_not_free f i : free_of "[" (indexed f i) = false.
Proof. unfold indexed. by rewrite !free_of_app, andb_false_intro2. Qed.

Lemma elem_of_place_loop i annot x : x ∈ place_loop i annot -> exists rest, x = loop_path i rest.
Proof.
  unfold place_loop. rewrite !elem_of_app. intros [H|[H|H]].
  - apply elem_of_flat_mapi in H as (j & v & _ & ->%list_elem_of_singleton). eauto.
  - apply elem_of_flat_mapi in H as (j & v & _ & H). case_match; [by apply elem_of_nil in H|].
    apply list_elem_of_singleton in H as ->. eauto.
  - case_match; [apply list_elem_of_singleton in H as ->; eauto|by apply elem_of_nil in H].
Qed.

Lemma NoDup_place_loop i annot : NoDup (place_loop i annot).
Proof.
  assert (Hsome : forall (P : json -> bool) name j v x,
    x ∈ (if P v then [] else [loop_path i (indexed name j)]) -> x = loop_path i (indexed name j)).
  { intros P name j v x. destruct (P v); [by intros ?%elem_of_nil|by intros ?%list_elem_of_singleton]. }
  unfold place_loop. apply NoDup_app. split_and!; [| |apply NoDup_app; split_and!].
  - apply NoDup_flat_mapi; [intros; apply NoDup_singleton|].
    intros j v k w x ->%list_elem_of_singleton H%list_elem_of_singleton.
    apply loop_path_inj in H as [_ H]. by apply indexed_inj_same in H as [_ ?].
  - intros x Hx. apply elem_of_flat_mapi in Hx as (j & v & _ & ->%list_elem_of_singleton). intros [H|H]%elem_of_app.
    + apply elem_of_flat_mapi in H as (k & w & _ & H). apply (Hsome (fun la => blank_text (str_or "acsl" "" la))) in H.
      apply loop_path_inj in H as [_ H]. by apply indexed_inj_same in H as [? _].
    + case_match; [|by apply elem_of_nil in H]. apply list_elem_of_singleton, loop_path_inj in H as [_ H].
      pose proof (indexed_not_free "invariants" (0 + j)) as Hf. by rewrite H in Hf.
  - apply NoDup_flat_mapi; [intros j v; case_match; [apply NoDup_nil_2|apply NoDup_singleton]|].
    intros j v k w x Hx Hy. apply (Hsome (fun la => blank_text (str_or "acsl" "" la))) in Hx, Hy. subst.
    apply loop_path_inj in Hy as [_ H]. by apply indexed_inj_same in H as [_ ?].
  - intros x Hx H. apply elem_of_flat_mapi in Hx as (j & v & _ & Hx). apply (Hsome (fun la => blank_text (str_or "acsl" "" la))) in Hx as ->.
    case_match; [|by apply elem_of_nil in H]. apply list_elem_of_singleton, loop_path_inj in H as [_ H].
    pose proof (indexed_not_free "assigns" (0 + j)) as Hf. by rewrite H in Hf.
  - case_match; [apply NoDup_singleton|apply NoDup_nil_2].
Qed.

Lemma NoDup_place_loops l : NoDup (flat_mapi place_loop 0 l).
Proof.
  apply NoDup_flat_mapi; [intros; apply NoDup_place_loop|].
  intros i a j b x [r ->]%elem_of_place_loop [r' H]%elem_of_place_loop. by apply loop_path_inj in H as [-> _].
Qed.

(** ** Lemmas on kinds *)

(** The kind is read off the first word, which survives trimming and lower case. *)
Lemma kind_word w rest : sall graphic w = true -> sall lower_ascii w = true -> w <> "" ->
  acsl_kind_to_ast_kind (w +s+ rest)
  = if existsb (fun keyword => starts_with keyword (w +s+ to_lowercase (trim_end rest)))
         ["loop invariant"; "loop assigns"; "loop variant"; "assert"] then "annot" else "spec".
Proof. intros Hg Hl Hne. unfold acsl_kind_to_ast_kind. by rewrite trim_word, to_lowercase_lower. Qed.

Definition FUNSPEC_KEYWORDS : list string := ["requires"; "ensures"; "assigns"; "terminates"; "decreases"; "exits"].
Definition LOOP_KEYWORDS : list string := ["loop invariant"; "loop assigns"; "loop variant"].

(** The texts of a function's clauses start with one of these words. *)
Definition spec_word (w : string) : Prop := w ∈ FUNSPEC_KEYWORDS ++ ["behavior"; "complete"; "disjoint"; "for"].

Lemma spec_word_kind w rest : spec_word w -> acsl_kind_to_ast_kind (w +s+ rest) = "spec".
Proof.
  unfold spec_word. intros Hw. apply list_elem_of_In in Hw. simpl in Hw.
  repeat (destruct Hw as [<-|Hw]; [by rewrite kind_word|]). done.
Qed.

Lemma assert_kind rest : acsl_kind_to_ast_kind ("assert" +s+ rest) = "annot".
Proof.
  rewrite kind_word by done. match goal with |- context [existsb ?f ?l] => assert (existsb f l = true) as -> end; [|done].
  apply existsb_true. exists "assert". split; [by decide_closed|apply starts_with_app].
Qed.

Lemma normalize_acsl_word w rest : sall graphic w = true -> w <> "" -> free_of ";" w = true ->
  exists rest', normalize_acsl (w +s+ rest) = w +s+ rest'.
Proof.
  intros Hg Hne Hs. unfold normalize_acsl. rewrite trim_word by done.
  assert (Ht : exists r, trim_end_char ";" (w +s+ trim_end rest) = w +s+ r).
  { clear Hg Hne. generalize (trim_end rest) as t. intros t. induction w as [|c w IH]; [by eexists|].
    unfold free_of in *. cbn [sall] in Hs. apply andb_true_iff in Hs as [Hc Hs]. destruct (IH Hs) as [r Hr].
    exists r. change (String c w +s+ t) with (String c (w +s+ t)). cbn [trim_end_char sall].
    assert (Ascii.eqb ";" c = false) as ->; [|cbn [andb]; by rewrite Hr].
    apply negb_true_iff in Hc. rewrite Ascii.eqb_neq in Hc |- *. congruence. }
  destruct Ht as [r ->]. rewrite trim_word, app_str_assoc by done. by eexists.
Qed.

Lemma wrap_funspec_word keyword body behavior behaviors path text : keyword ∈ FUNSPEC_KEYWORDS ->
  wrap_funspec_clause keyword body behavior behaviors path = inl text -> exists w rest, spec_word w /\ text = w +s+ rest.
Proof.
  intros Hk. unfold wrap_funspec_clause, clause. destruct behavior as [name|].
  - destruct (lookup_behavior_assumes behaviors name); [|done]. intros [= <-]. exists "behavior". eexists.
    split; [|done]. by decide_closed.
  - intros [= <-]. exists keyword. eexists. split; [|done]. apply elem_of_app. by left.
Qed.

(** A loop clause starts with its keyword, or with the behavior it is for. *)
Lemma loop_clause_kind keyword body behavior behaviors path text : keyword ∈ LOOP_KEYWORDS ->
  wrap_loop_clause keyword body behavior behaviors path = inl text ->
  match behavior with
  | None => acsl_kind_to_ast_kind text = "annot"
  | Some name => acsl_kind_to_ast_kind text = "spec" /\ exists rest, text = "for " +s+ name +s+ ": " +s+ keyword +s+ " " +s+ rest
  end.
Proof.
  intros Hk. unfold wrap_loop_clause, clause. destruct behavior as [name|].
  - destruct (lookup_behavior_assumes behaviors name); [|done]. intros [= <-]. split; [|by eexists].
    apply (spec_word_kind "for"). by decide_closed.
  - generalize (clean_body keyword body) as b. intros b Heq.
    assert (text = keyword +s+ " " +s+ b +s+ ";") as -> by congruence. clear Heq.
    assert (Hc : exists r, keyword = "loop" +s+ r /\ sall lower_ascii r = true).
    { apply list_elem_of_In in Hk. simpl in Hk. destruct Hk as [<-|[<-|[<-|[]]]]; by eexists. }
    destruct Hc as (r & Hr & Hl). unfold acsl_kind_to_ast_kind.
    assert (trim (keyword +s+ " " +s+ b +s+ ";") = keyword +s+ " " +s+ b +s+ ";") as ->.
    { rewrite Hr, !app_str_assoc, <- (app_str_assoc r), <- (app_str_assoc (r +s+ " ")). by rewrite (trim_closed "loop"). }
    rewrite Hr, !app_str_assoc, (to_lowercase_lower "loop"), (to_lowercase_lower r), <- app_str_assoc, <- Hr by done.
    assert (Hst : existsb (fun k => starts_with k (keyword +s+ to_lowercase (" " +s+ b +s+ ";")))
              ["loop invariant"; "loop assigns"; "loop variant"; "assert"] = true); [|by rewrite Hst].
    apply existsb_true. exists keyword. split; [|apply starts_with_app].
    revert Hk. clear. unfold LOOP_KEYWORDS. set_solver.
Qed.
