(* ===== verification/Tagged.v ===== *)
(** * Annotations tagged by kind (src/src/mcp/annotations.rs, the first half)

    A caller sends one array whose entries carry their kind.  It is fanned out into the
    fields the injector works in, and the place each entry went is kept, so that every
    diagnostic can be put back in the caller's terms. *)

From S2P Require Import Prelude RustStr BTree Json Verdicts Conclusions Acsl.
Local Open Scope nat_scope.

(** ** Ghost kinds (types.rs) *)

Inductive GhostKind := GhostGlobal | GhostFormal | GhostLemmaFunction | GhostLoop | GhostStmt.

Definition from_tag (tag : string) : option GhostKind :=
  if tag =s "ghost_global" then Some GhostGlobal
  else if tag =s "ghost_formal" then Some GhostFormal
  else if tag =s "ghost_lemma_function" then Some GhostLemmaFunction
  else if tag =s "ghost_loop" then Some GhostLoop
  else if tag =s "ghost_stmt" then Some GhostStmt
  else None.

Definition ghost_name (kind : GhostKind) : string :=
  match kind with
  | GhostGlobal => "ghost_global"
  | GhostFormal => "ghost_formal"
  | GhostLemmaFunction => "ghost_lemma_function"
  | GhostLoop => "ghost_loop"
  | GhostStmt => "ghost_stmt"
  end.

(** ** Parameters of a call

    The optional [proposed_*] fields are kept by their names: those that hold a list, and
    those that hold one clause. *)
Record InjectAllAnnotationsParams := mkParams {
  ip_function : option string;
  ip_sandbox_name : option string;
  ip_annotations : option (list json);
  ip_lists : gmap string (list json);
  ip_singles : gmap string json;
  ip_dry_run : bool;
}.

Definition with_fields (p : InjectAllAnnotationsParams) (lists : gmap string (list json)) (singles : gmap string json)
    : InjectAllAnnotationsParams :=
  mkParams (ip_function p) (ip_sandbox_name p) None lists singles (ip_dry_run p).

(** ** Expansion *)

Inductive AnnotationSlot := SList (field : string) | SSingle (field : string).

(** The slot of a clause kind, and whether the kind names a group of behaviors. *)
Definition clause_slot (kind : string) : option (AnnotationSlot * bool) :=
  find_map (fun '(k, slot) => then_some (k =s kind) slot)
    [("global", (SList "proposed_globals", false)); ("behavior", (SList "proposed_behaviors", false));
     ("requires", (SList "proposed_requires", false)); ("ensures", (SList "proposed_ensures", false));
     ("assigns", (SList "proposed_assigns", false)); ("assert", (SList "proposed_asserts", false));
     ("loop", (SList "proposed_loop_annots", false)); ("terminates", (SSingle "proposed_terminates", false));
     ("exits", (SSingle "proposed_exits", false)); ("decreases", (SSingle "proposed_decreases", false));
     ("complete_behaviors", (SList "proposed_complete_behaviors", true));
     ("disjoint_behaviors", (SList "proposed_disjoint_behaviors", true))].

Definition EXPECTED_KINDS : list string :=
  ["global"; "behavior"; "requires"; "ensures"; "assigns"; "assert"; "loop"; "complete_behaviors"; "disjoint_behaviors";
   "terminates"; "exits"; "decreases"; "ghost_global"; "ghost_formal"; "ghost_lemma_function"; "ghost_loop"; "ghost_stmt"].

Definition annotation_path (index : nat) : string := indexed "annotations" index.

Definition is_string (v : json) : bool := match v with JStr _ => true | _ => false end.

Definition behavior_group_names (index : nat) (kind : string) (names : option json) : json + McpError :=
  match names with
  | None =>
    inr (invalid_params (annotation_path index +s+ ": " +s+ kind +s+ " needs a behaviors array, e.g. {" +s+ dq +s+ "kind" +s+ dq
      +s+ ": " +s+ dq +s+ kind +s+ dq +s+ ", " +s+ dq +s+ "behaviors" +s+ dq +s+ ": [" +s+ dq +s+ "pos" +s+ dq +s+ ", " +s+ dq
      +s+ "neg" +s+ dq +s+ "]}") None)
  | Some names =>
    if is_some_and (fun items => negb (bool_decide (items = [])) && forallb is_string items) (as_array names)
    then inl names
    else inr (invalid_params (annotation_path index +s+ ": " +s+ kind +s+ " behaviors must be a non-empty array of names") None)
  end.

(** What the entries seen so far have filled. *)
Record Expansion := mkExpansion {
  ex_lists : gmap string (list json);
  ex_singles : gmap string json;
  ex_ghosts : list (nat * GhostKind * json);
  ex_origin : gmap string nat;
}.

Definition fill_list (field : string) (index : nat) (value : json) (x : Expansion) : Expansion :=
  let list := unwrap_or (ex_lists x !! field) [] in
  mkExpansion (<[field := list ++ [value]]> (ex_lists x)) (ex_singles x) (ex_ghosts x)
    (<[indexed field (length list) := index]> (ex_origin x)).

Definition fill_single (field : string) (index : nat) (value : json) (x : Expansion) : Expansion :=
  mkExpansion (ex_lists x) (<[field := value]> (ex_singles x)) (ex_ghosts x) (<[field := index]> (ex_origin x)).

Definition add_ghost (ghost : nat * GhostKind * json) (x : Expansion) : Expansion :=
  mkExpansion (ex_lists x) (ex_singles x) (ex_ghosts x ++ [ghost]) (ex_origin x).

Section expansion.
Variable debug_str : string -> string.

Definition unknown_kind (index : nat) (other : string) : McpError :=
  invalid_params (annotation_path index +s+ " has unknown kind " +s+ debug_str other)
    (Some (JObj [("kind", JStr "UnknownAnnotationKind"); ("index", jnat index); ("given", JStr other);
                 ("expected", JArr (map JStr EXPECTED_KINDS))])).

(** [object.remove("behaviors").or_else(|| object.remove("names"))] *)
Definition take_group_names (object : jmap) : option json * jmap :=
  match map_get "behaviors" object with
  | Some names => (Some names, map_remove "behaviors" object)
  | None => (map_get "names" object, map_remove "names" object)
  end.

Definition fill_slot (slot : AnnotationSlot) (kind : string) (index : nat) (value : json) (x : Expansion)
    : Expansion + McpError :=
  match slot with
  | SList field => inl (fill_list field index value x)
  | SSingle field =>
    match ex_singles x !! field with
    | Some _ => inr (invalid_params (annotation_path index +s+ ": " +s+ kind +s+ " may appear at most once") None)
    | None => inl (fill_single field index value x)
    end
  end.

Definition expand_entry (index : nat) (entry : json) (x : Expansion) : Expansion + McpError :=
  match entry with
  | JObj object =>
    match map_get "kind" object ≫= as_str with
    | None => inr (invalid_params (annotation_path index +s+ " is missing kind") None)
    | Some kind =>
      let '(group_names, object) := take_group_names (map_remove "kind" object) in
      match from_tag kind with
      | Some ghost => inl (add_ghost (index, ghost, JObj object) x)
      | None =>
        match clause_slot kind with
        | None => inr (unknown_kind index kind)
        | Some (slot, group) =>
          match (if group : bool then behavior_group_names index kind group_names else inl (JObj object)) with
          | inr error => inr error
          | inl value => fill_slot slot kind index value x
          end
        end
      end
    end
  | _ => inr (invalid_params (annotation_path index +s+ " must be an object") None)
  end.

Fixpoint expand_entries (index : nat) (entries : list json) (x : Expansion) : Expansion + McpError :=
  match entries with
  | [] => inl x
  | entry :: entries =>
    match expand_entry index entry x with
    | inl x => expand_entries (S index) entries x
    | inr error => inr error
    end
  end.

Definition expand_tagged_annotations (params : InjectAllAnnotationsParams)
    : (InjectAllAnnotationsParams * list (nat * GhostKind * json) * gmap string nat) + McpError :=
  match ip_annotations params with
  | None => inl (params, [], ∅)
  | Some entries =>
    match expand_entries 0 entries (mkExpansion (ip_lists params) (ip_singles params) [] ∅) with
    | inl x => inl (with_fields params (ex_lists x) (ex_singles x), ex_ghosts x, ex_origin x)
    | inr error => inr error
    end
  end.
End expansion.

(** ** Putting diagnostics in the caller's terms *)

Definition relabel_path (path : string) (origin : gmap string nat) : option (string * nat) :=
  match origin !! path with
  | Some index => Some (annotation_path index, index)
  | None =>
    match split_once "." path with
    | None => None
    | Some (head, rest) =>
      match origin !! head with
      | Some index => Some (annotation_path index +s+ "." +s+ rest, index)
      | None => None
      end
    end
  end.

Definition FIELD_KINDS : list (string * string) :=
  [("proposed_complete_behaviors", "complete_behaviors"); ("proposed_disjoint_behaviors", "disjoint_behaviors");
   ("proposed_loop_annots", "loop"); ("proposed_behaviors", "behavior"); ("proposed_requires", "requires");
   ("proposed_ensures", "ensures"); ("proposed_assigns", "assigns"); ("proposed_asserts", "assert");
   ("proposed_globals", "global")].

(** One replacement in the text built so far, and whether any was made. *)
Definition replace_in (pattern to : string) (acc : string * bool) : string * bool :=
  if contains pattern acc.1 then (replace pattern to acc.1, true) else acc.

Definition longer_key (a b : string * nat) : bool := String.length b.1 <=? String.length a.1.

Definition relabel_message (text : string) (origin : gmap string nat) : option string :=
  let keys := sort_by longer_key (map_to_list origin) in
  let acc := fold_left (fun acc '(key, index) => replace_in key (annotation_path index) acc) keys (text, false) in
  let acc := fold_left (fun acc '(field, kind) =>
      replace_in field ("annotations entries with kind " +s+ dq +s+ kind +s+ dq) acc) FIELD_KINDS acc in
  then_some acc.2 acc.1.

Definition is_path_key (key : string) : bool := (key =s "derived_from") || (key =s "proposed_path").
Definition is_message_key (key : string) : bool := (key =s "frama_c_error") || (key =s "message").

(** The child of a key, once: [relabelled] is what the recursion makes of it. *)
Definition relabel_child (origin : gmap string nat) (key : string) (child relabelled : json) : json :=
  if key =s "successful" then child
  else if is_path_key key then
    match as_str child ≫= fun path => relabel_path path origin with
    | Some (path, _) => JStr path
    | None => relabelled
    end
  else if is_message_key key then
    match as_str child ≫= fun text => relabel_message text origin with
    | Some text => JStr text
    | None => relabelled
    end
  else relabelled.

(** The index of the last path relabelled among an object's entries. *)
Definition relabelled_index (origin : gmap string nat) (map : jmap) : option nat :=
  fold_left (fun index '(key, child) =>
      if is_path_key key
      then match as_str child ≫= fun path => relabel_path path origin with Some (_, i) => Some i | None => index end
      else index) map None.

Definition set_index (index : option nat) (map : jmap) : jmap :=
  match index with
  | Some index => if map_contains_key "index" map then map_insert "index" (jnat index) map else map
  | None => map
  end.

Fixpoint relabel_walk (origin : gmap string nat) (value : json) : json :=
  match value with
  | JObj m =>
    JObj (set_index (relabelled_index origin m)
            (map (fun e => (e.1, relabel_child origin e.1 e.2 (relabel_walk origin e.2))) m))
  | JArr items => JArr (map (relabel_walk origin) items)
  | _ => value
  end.

Definition relabel_origins (value : json) (origin : gmap string nat) : json :=
  if bool_decide (origin = ∅) then value else relabel_walk origin value.

Definition relabel_mcp_error (error : McpError) (origin : gmap string nat) : McpError :=
  match relabel_message (err_message error) origin with
  | Some message => invalid_params message (err_data error)
  | None => error
  end.

(** ** What an expansion promises *)

Definition slot_field (slot : AnnotationSlot) : string := match slot with SList field | SSingle field => field end.

Definition entry_kind (entry : json) : option string :=
  match entry with JObj object => map_get "kind" object ≫= as_str | _ => None end.

(** Entry [k] is a clause of the slot's kind, and [value] is what it holds. *)
Definition fills (entries : list json) (k : nat) (slot : AnnotationSlot) (value : json) : Prop :=
  exists object kind group, entries !! k = Some (JObj object) /\ entry_kind (JObj object) = Some kind
    /\ from_tag kind = None /\ clause_slot kind = Some (slot, group)
    /\ let '(names, object) := take_group_names (map_remove "kind" object) in
       if group : bool then names = Some value else value = JObj object.

Definition ghost_of (k : nat) (entry : json) : list (nat * GhostKind * json) :=
  match entry, entry_kind entry ≫= from_tag with
  | JObj object, Some ghost => [(k, ghost, JObj (take_group_names (map_remove "kind" object)).2)]
  | _, _ => []
  end.

Definition at_field (lists : gmap string (list json)) (field : string) : list json := unwrap_or (lists !! field) [].

(** The first [n] entries went where [x] says, and nothing else went anywhere. *)
Record expanded (lists : gmap string (list json)) (singles : gmap string json) (entries : list json) (n : nat) (x : Expansion)
    : Prop := {
  ed_before : forall f, at_field lists f `prefix_of` at_field (ex_lists x) f;
  ed_list : forall f j v, at_field (ex_lists x) f !! j = Some v -> length (at_field lists f) <= j ->
    exists k, k < n /\ fills entries k (SList f) v /\ ex_origin x !! indexed f j = Some k;
  ed_single : forall f v, ex_singles x !! f = Some v -> singles !! f = Some v \/
    exists k, k < n /\ fills entries k (SSingle f) v /\ ex_origin x !! f = Some k;
  ed_origin : forall p k, ex_origin x !! p = Some k -> k < n /\
    ((exists f j v, p = indexed f j /\ at_field (ex_lists x) f !! j = Some v /\ fills entries k (SList f) v)
     \/ exists v, ex_singles x !! p = Some v /\ fills entries k (SSingle p) v);
  ed_inj : forall p q k, ex_origin x !! p = Some k -> ex_origin x !! q = Some k -> p = q;
  ed_ghosts : ex_ghosts x = flat_mapi ghost_of 0 (take n entries);
  ed_all : forall k, k < n -> (exists p, ex_origin x !! p = Some k) \/ exists ghost object, (k, ghost, object) ∈ ex_ghosts x;
}.

(** ** Lemmas on slots *)

Lemma clause_slot_free kind slot group : clause_slot kind = Some (slot, group) ->
  free_of "[" (slot_field slot) = true /\ free_of "." (slot_field slot) = true.
Proof.
  unfold clause_slot. simpl.
  repeat (match goal with |- context [then_some ?b _] => destruct b end; simpl; [by intros [= <- _]|]). done.
Qed.

Lemma fills_free entries k slot v : fills entries k slot v ->
  free_of "[" (slot_field slot) = true /\ free_of "." (slot_field slot) = true.
Proof. intros (object & kind & group & _ & _ & _ & Hs & _). by eapply clause_slot_free. Qed.

Lemma fill_list_at f index v x g :
  at_field (ex_lists (fill_list f index v x)) g = at_field (ex_lists x) g ++ (if decide (f = g) then [v] else []).
Proof.
  unfold at_field, fill_list. simpl. destruct (decide (f = g)) as [->|Hne]; [by rewrite lookup_insert_eq|].
  by rewrite lookup_insert_ne, app_nil_r.
Qed.

(** ** Lemmas on expansions *)

Section expanded.
Context {lists : gmap string (list json)} {singles : gmap string json} {entries : list json}.
Notation inv := (expanded lists singles entries).

Lemma expanded_start origin : origin = ∅ -> inv 0 (mkExpansion lists singles [] origin).
Proof.
  intros ->. split; simpl; try done; try lia.
  - intros f j v Hv Hj. apply lookup_lt_Some in Hv. lia.
  - by left.
Qed.

(** Nothing is at the next place of a field. *)
Lemma next_place_fresh n x f : inv n x -> free_of "[" f = true -> ex_origin x !! indexed f (length (at_field (ex_lists x) f)) = None.
Proof.
  intros Hx Hf. apply eq_None_not_Some. intros [k Hk]. apply (ed_origin _ _ _ _ _ Hx) in Hk as [_ [(g & j & v & Heq & Hv & Hfill)|(v & Hv & Hfill)]].
  - apply indexed_inj_same in Heq as [<- <-]; [|done|by eapply (fills_free _ _ (SList g))].
    apply lookup_lt_Some in Hv. lia.
  - apply fills_free in Hfill as [Hb _]. simpl in Hb. by rewrite indexed_not_free in Hb.
Qed.

Lemma origin_below n x p : inv n x -> ex_origin x !! p <> Some n.
Proof. intros Hx Hp. apply (ed_origin _ _ _ _ _ Hx) in Hp as [? _]. lia. Qed.

Lemma ghosts_snoc l entry : forall i, flat_mapi ghost_of i (l ++ [entry]) = flat_mapi ghost_of i l ++ ghost_of (i + length l) entry.
Proof.
  induction l as [|a l IH]; intros i; simpl; [by rewrite app_nil_r, Nat.add_0_r|]. by rewrite IH, app_assoc, Nat.add_succ_r.
Qed.

Lemma ghosts_step n entry x : inv n x -> entries !! n = Some entry ->
  flat_mapi ghost_of 0 (take (S n) entries) = ex_ghosts x ++ ghost_of n entry.
Proof.
  intros Hx He. rewrite (ed_ghosts _ _ _ _ _ Hx), (take_S_r _ _ _ He), ghosts_snoc, length_take.
  apply lookup_lt_Some in He. by rewrite Nat.min_l by lia.
Qed.

Lemma fills_no_ghost n entry slot v : entries !! n = Some entry -> fills entries n slot v -> ghost_of n entry = [].
Proof.
  intros He (object & kind & group & Ho & Hk & Hg & _). rewrite He in Ho. injection Ho as ->.
  unfold ghost_of. rewrite Hk. simpl. by rewrite Hg.
Qed.

Lemma expanded_fill_list n entry x f v : inv n x -> entries !! n = Some entry -> fills entries n (SList f) v ->
  inv (S n) (fill_list f n v x).
Proof.
  intros Hx He Hfill. pose proof (fills_free _ _ _ _ Hfill) as [Hf _]. simpl in Hf.
  assert (Horigin : ex_origin (fill_list f n v x) = <[indexed f (length (at_field (ex_lists x) f)) := n]> (ex_origin x)) by done.
  set (new := indexed f (length (at_field (ex_lists x) f))).
  assert (Hfresh : ex_origin x !! new = None) by by eapply next_place_fresh.
  assert (Hkeep : forall p k, ex_origin x !! p = Some k -> ex_origin (fill_list f n v x) !! p = Some k).
  { intros p k Hp. rewrite Horigin. fold new. rewrite lookup_insert_ne; [done|]. congruence. }
  assert (Hnew : ex_origin (fill_list f n v x) !! new = Some n) by (rewrite Horigin; apply lookup_insert_eq).
  split.
  - intros g. rewrite fill_list_at. apply prefix_app_r, (ed_before _ _ _ _ _ Hx).
  - intros g j w. rewrite fill_list_at. intros [Hj|[Hj Hw]]%lookup_app_Some Hle.
    + destruct (ed_list _ _ _ _ _ Hx g j w Hj Hle) as (k & Hk & Hfl & Ho). exists k. split_and!; [lia|done|by apply Hkeep].
    + destruct (decide (f = g)) as [<-|]; [|done]. apply list_lookup_singleton_Some in Hw as [Hj0 ->].
      exists n. split_and!; [lia|done|]. replace j with (length (at_field (ex_lists x) f)) by lia. done.
  - intros g w Hw. destruct (ed_single _ _ _ _ _ Hx g w Hw) as [?|(k & Hk & Hfl & Ho)]; [by left|right].
    exists k. split_and!; [lia|done|by apply Hkeep].
  - intros p k. destruct (decide (p = new)) as [->|Hne].
    + rewrite Hnew. intros [= <-]. split; [lia|left]. exists f, (length (at_field (ex_lists x) f)), v.
      split_and!; [done| |done]. rewrite fill_list_at, decide_True by done. by rewrite list_lookup_middle.
    + rewrite Horigin. fold new. rewrite lookup_insert_ne by done. intros Ho.
      destruct (ed_origin _ _ _ _ _ Hx p k Ho) as [Hk [(g & j & w & -> & Hw & Hfl)|Hs]]; (split; [lia|]); [left|by right].
      exists g, j, w. split_and!; [done| |done]. rewrite fill_list_at. by apply lookup_app_l_Some.
  - intros p q k. rewrite Horigin. fold new. rewrite !lookup_insert_Some.
    intros [[<- <-]|[_ Hp]] [[<- Hq]|[_ Hq]]; try done; [| |by eapply (ed_inj _ _ _ _ _ Hx)].
    + by apply (origin_below _ _ q Hx) in Hq.
    + subst k. by apply (origin_below _ _ p Hx) in Hp.
  - simpl. by rewrite (ghosts_step n entry x), (fills_no_ghost n entry (SList f) v), app_nil_r.
  - intros k Hk. destruct (decide (k = n)) as [->|Hne]; [left; by exists new|].
    destruct (ed_all _ _ _ _ _ Hx k ltac:(lia)) as [[p Hp]|?]; [left|by right]. exists p. by apply Hkeep.
Qed.

Lemma expanded_fill_single n entry x f v : inv n x -> entries !! n = Some entry -> fills entries n (SSingle f) v ->
  ex_singles x !! f = None -> inv (S n) (fill_single f n v x).
Proof.
  intros Hx He Hfill Hnone. pose proof (fills_free _ _ _ _ Hfill) as [Hf _]. simpl in Hf.
  assert (Hfresh : ex_origin x !! f = None).
  { apply eq_None_not_Some. intros [k Hk]. apply (ed_origin _ _ _ _ _ Hx) in Hk as [_ [(g & j & w & -> & _)|(w & Hw & _)]].
    - by rewrite indexed_not_free in Hf.
    - by rewrite Hnone in Hw. }
  assert (Hkeep : forall p k, ex_origin x !! p = Some k -> ex_origin (fill_single f n v x) !! p = Some k).
  { intros p k Hp. simpl. rewrite lookup_insert_ne; [done|]. intros <-. by rewrite Hfresh in Hp. }
  split.
  - apply (ed_before _ _ _ _ _ Hx).
  - intros g j w Hw Hle. destruct (ed_list _ _ _ _ _ Hx g j w Hw Hle) as (k & Hk & Hfl & Ho).
    exists k. split_and!; [lia|done|by apply Hkeep].
  - intros g w. simpl. rewrite lookup_insert_Some. intros [[<- <-]|[_ Hw]].
    + right. exists n. split_and!; [lia|done|apply lookup_insert_eq].
    + destruct (ed_single _ _ _ _ _ Hx g w Hw) as [?|(k & Hk & Hfl & Ho)]; [by left|right].
      exists k. split_and!; [lia|done|by apply Hkeep].
  - intros p k. simpl. rewrite lookup_insert_Some. intros [[<- <-]|[Hne Hp]].
    + split; [lia|right]. exists v. split; [apply lookup_insert_eq|done].
    + destruct (ed_origin _ _ _ _ _ Hx p k Hp) as [Hk [Hl|(w & Hw & Hfl)]]; (split; [lia|]); [by left|right].
      exists w. by rewrite lookup_insert_ne.
  - intros p q k. simpl. rewrite !lookup_insert_Some.
    intros [[<- <-]|[_ Hp]] [[<- Hq]|[_ Hq]]; try done; [| |by eapply (ed_inj _ _ _ _ _ Hx)].
    + by apply (origin_below _ _ q Hx) in Hq.
    + subst k. by apply (origin_below _ _ p Hx) in Hp.
  - simpl. by rewrite (ghosts_step n entry x), (fills_no_ghost n entry (SSingle f) v), app_nil_r.
  - intros k Hk. destruct (decide (k = n)) as [->|Hne]; [left; exists f; apply lookup_insert_eq|].
    destruct (ed_all _ _ _ _ _ Hx k ltac:(lia)) as [[p Hp]|?]; [left|by right]. exists p. by apply Hkeep.
Qed.

Lemma expanded_add_ghost n entry x ghost object : inv n x -> entries !! n = Some entry ->
  ghost_of n entry = [(n, ghost, object)] -> inv (S n) (add_ghost (n, ghost, object) x).
Proof.
  intros Hx He Hg. split; simpl.
  - apply (ed_before _ _ _ _ _ Hx).
  - intros g j w Hw Hle. destruct (ed_list _ _ _ _ _ Hx g j w Hw Hle) as (k & Hk & H). exists k. split; [lia|done].
  - intros g w Hw. destruct (ed_single _ _ _ _ _ Hx g w Hw) as [?|(k & Hk & H)]; [by left|right]. exists k. split; [lia|done].
  - intros p k Hp. destruct (ed_origin _ _ _ _ _ Hx p k Hp) as [Hk H]. split; [lia|done].
  - apply (ed_inj _ _ _ _ _ Hx).
  - by rewrite (ghosts_step n entry x), Hg.
  - intros k Hk. setoid_rewrite elem_of_app. destruct (decide (k = n)) as [->|Hne].
    + right. exists ghost, object. right. by apply list_elem_of_singleton.
    + destruct (ed_all _ _ _ _ _ Hx k ltac:(lia)) as [?|(g & o & Ho)]; [by left|right]. exists g, o. by left.
Qed.

Lemma expanded_entry debug_str n entry x x' : inv n x -> entries !! n = Some entry ->
  expand_entry debug_str n entry x = inl x' -> inv (S n) x'.
Proof.
  intros Hx He. destruct entry as [| | | | |object]; try discriminate. unfold expand_entry.
  destruct (map_get "kind" object ≫= as_str) as [kind|] eqn:Hkind; [|discriminate].
  destruct (take_group_names (map_remove "kind" object)) as [names rest] eqn:Hnames.
  destruct (from_tag kind) as [ghost|] eqn:Hghost.
  { intros [= <-]. eapply expanded_add_ghost; [done..|]. unfold ghost_of, entry_kind. rewrite Hkind. simpl. by rewrite Hghost, Hnames. }
  destruct (clause_slot kind) as [[slot group]|] eqn:Hslot; [|discriminate].
  destruct (if group then behavior_group_names n kind names else inl (JObj rest)) as [v|e] eqn:Hv; [|discriminate].
  assert (Hfill : fills entries n slot v).
  { exists object, kind, group. split_and!; [done..|]. rewrite Hnames. destruct group; [|congruence].
    unfold behavior_group_names in Hv. destruct names as [names|]; [|discriminate].
    destruct (is_some_and _ _); [congruence|discriminate]. }
  unfold fill_slot. destruct slot as [f|f].
  - intros [= <-]. by eapply expanded_fill_list.
  - destruct (ex_singles x !! f) eqn:Hnone; [discriminate|]. intros [= <-]. by eapply expanded_fill_single.
Qed.

Lemma expanded_entries debug_str rest : forall n x x', inv n x -> (forall i, entries !! (n + i) = rest !! i) ->
  expand_entries debug_str n rest x = inl x' -> inv (n + length rest) x'.
Proof.
  induction rest as [|entry rest IH]; intros n x x' Hx Hrest; simpl; [by intros [= <-]; rewrite Nat.add_0_r|].
  destruct (expand_entry debug_str n entry x) as [x1|e] eqn:Hstep; [|discriminate]. intros H.
  replace (n + S (length rest)) with (S n + length rest) by lia. eapply IH; [|intros i|exact H].
  - eapply expanded_entry; [done| |done]. by rewrite <- (Nat.add_0_r n), Hrest.
  - etrans; [|apply (Hrest (S i))]. f_equal. lia.
Qed.
End expanded.

Lemma expansion_inv debug_str params entries params' ghosts origin : ip_annotations params = Some entries ->
  expand_tagged_annotations debug_str params = inl (params', ghosts, origin) ->
  expanded (ip_lists params) (ip_singles params) entries (length entries)
    (mkExpansion (ip_lists params') (ip_singles params') ghosts origin).
Proof.
  unfold expand_tagged_annotations. intros -> H.
  destruct (expand_entries _ _ _ _) as [x|e] eqn:Hx; [|discriminate]. injection H as <- <- <-.
  assert (He := expanded_entries debug_str entries 0 _ x (expanded_start ∅ eq_refl) (fun i => eq_refl) Hx).
  simpl in *. by destruct x.
Qed.

(** *** Which entry is the [j]-th of a field *)

#[export] Instance AnnotationSlot_eq_dec : EqDecision AnnotationSlot.
Proof. solve_decision. Defined.

(** The field an entry is a clause of; a ghost is of none. *)
Definition kind_slot (entry : json) : option AnnotationSlot :=
  entry_kind entry ≫= fun kind => match from_tag kind with Some _ => None | None => fst <$> clause_slot kind end.

Definition rank (field : string) (before : list json) : nat := count_if (fun entry => bool_decide (kind_slot entry = Some (SList field))) before.

Lemma rank_snoc field before entry : rank field (before ++ [entry]) = rank field before + (if bool_decide (kind_slot entry = Some (SList field)) then 1 else 0).
Proof. unfold rank, count_if. rewrite bfilter_app, length_app. cbn. by destruct (bool_decide _). Qed.

(** After [n] entries each field is as long as the entries of its kind make it, and the
    [j]-th of them is at its [j]-th place. *)
Record ranked (lists : gmap string (list json)) (entries : list json) (n : nat) (x : Expansion) : Prop := {
  rk_length : forall f, length (at_field (ex_lists x) f) = length (at_field lists f) + rank f (take n entries);
  rk_origin : forall f j k, free_of "[" f = true -> ex_origin x !! indexed f j = Some k ->
    j = length (at_field lists f) + rank f (take k entries);
}.

Lemma expand_entry_cases debug_str index entry x x' : expand_entry debug_str index entry x = inl x' ->
  (exists ghost, x' = add_ghost ghost x /\ kind_slot entry = None)
  \/ exists slot value, kind_slot entry = Some slot /\ free_of "[" (slot_field slot) = true
       /\ x' = match slot with SList f => fill_list f index value x | SSingle f => fill_single f index value x end.
Proof.
  destruct entry as [| | | | |object]; try done. unfold expand_entry, kind_slot. cbn [entry_kind].
  destruct (map_get "kind" object ≫= as_str) as [kind|]; [|done].
  cbn [mbind option_bind]. destruct (take_group_names _) as [names rest].
  destruct (from_tag kind) as [ghost|]; [intros [= <-]; left; by eexists|].
  destruct (clause_slot kind) as [[slot group]|] eqn:Hs; [|done].
  apply clause_slot_free in Hs as [Hf _]. destruct (if group then behavior_group_names index kind names else inl (JObj rest)) as [value|]; [|done]. unfold fill_slot.
  intros Hfill. right. exists slot, value. split; [done|]. split; [exact Hf|].
  destruct slot as [f|f]; [|destruct (ex_singles x !! f); [done|]]; by injection Hfill as <-.
Qed.

Lemma ranked_entry debug_str lists entries n entry x x' : ranked lists entries n x -> entries !! n = Some entry ->
  expand_entry debug_str n entry x = inl x' -> ranked lists entries (S n) x'.
Proof.
  intros [Hl Ho] He Hx. apply expand_entry_cases in Hx as [(ghost & -> & Hk)|(slot & value & Hk & Hf & ->)].
  - split; [|exact Ho]. intros f. rewrite (take_S_r _ _ _ He), rank_snoc, Hk. cbn. by rewrite Nat.add_0_r.
  - destruct slot as [f|f]; split.
    + intros g. rewrite fill_list_at, length_app, Hl, (take_S_r _ _ _ He), rank_snoc, Hk.
      destruct (decide (f = g)) as [->|Hne]; [rewrite bool_decide_eq_true_2 by done|rewrite bool_decide_eq_false_2 by congruence]; cbn; lia.
    + intros g j k Hg. cbn. rewrite lookup_insert_Some. intros [[Heq <-]|[_ Hk']]; [|by apply Ho].
      apply indexed_inj_same in Heq as [<- <-]; [|done..]. apply Hl.
    + intros g. rewrite (take_S_r _ _ _ He), rank_snoc, Hk, bool_decide_eq_false_2 by done. cbn. by rewrite Hl, Nat.add_0_r.
    + intros g j k Hg. cbn. rewrite lookup_insert_Some. intros [[Heq _]|[_ Hk']]; [|by apply Ho].
      exfalso. cbn in Hf. by rewrite Heq, indexed_not_free in Hf.
Qed.

Lemma ranked_entries debug_str lists entries rest : forall n x x', ranked lists entries n x -> (forall i, entries !! (n + i) = rest !! i) ->
  expand_entries debug_str n rest x = inl x' -> ranked lists entries (n + length rest) x'.
Proof.
  induction rest as [|entry rest IH]; intros n x x' Hx Hrest; simpl; [by intros [= <-]; rewrite Nat.add_0_r|].
  destruct (expand_entry debug_str n entry x) as [x1|e] eqn:Hstep; [|discriminate]. intros H.
  replace (n + S (length rest)) with (S n + length rest) by lia. eapply IH; [|intros i|exact H].
  - eapply ranked_entry; [done| |done]. by rewrite <- (Nat.add_0_r n), Hrest.
  - etrans; [|apply (Hrest (S i))]. f_equal. lia.
Qed.

Lemma expansion_ranked debug_str params entries params' ghosts origin : ip_annotations params = Some entries ->
  expand_tagged_annotations debug_str params = inl (params', ghosts, origin) ->
  ranked (ip_lists params) entries (length entries) (mkExpansion (ip_lists params') (ip_singles params') ghosts origin).
Proof.
  unfold expand_tagged_annotations. intros -> H.
  destruct (expand_entries _ _ _ _) as [x|e] eqn:Hx; [|discriminate]. injection H as <- <- <-.
  assert (Hstart : ranked (ip_lists params) entries 0 (mkExpansion (ip_lists params) (ip_singles params) [] ∅))
    by (split; [intros f; by rewrite Nat.add_0_r|done]).
  assert (He := ranked_entries debug_str _ _ entries 0 _ x Hstart (fun i => eq_refl) Hx). simpl in He. by destruct x.
Qed.

Lemma fills_slot entries k slot v : fills entries k slot v -> exists entry, entries !! k = Some entry /\ kind_slot entry = Some slot.
Proof.
  intros (object & kind & group & Ho & Hk & Ht & Hs & _). exists (JObj object). split; [done|]. unfold kind_slot. rewrite Hk. cbn [mbind option_bind]. by rewrite Ht, Hs.
Qed.

Lemma ghost_of_place k entry i ghost object : (i, ghost, object) ∈ ghost_of k entry -> i = k /\ entry_kind entry ≫= from_tag = Some ghost.
Proof.
  unfold ghost_of. destruct entry; try by intros ?%elem_of_nil.
  destruct (entry_kind _ ≫= from_tag); [|by intros ?%elem_of_nil]. intros ?%list_elem_of_singleton. by simplify_eq.
Qed.

(** A clause entry is in the list of its kind. *)
Lemma expanded_placed lists singles entries x k entry kind f group : expanded lists singles entries (length entries) x ->
  entries !! k = Some entry -> entry_kind entry = Some kind -> from_tag kind = None -> clause_slot kind = Some (SList f, group) ->
  at_field (ex_lists x) f <> [].
Proof.
  intros Hx Hk Hkind Htag Hslot.
  assert (Hsame : forall slot v, fills entries k slot v -> slot = SList f).
  { intros slot v (object & kind' & group' & Ho & Hkind' & _ & Hslot' & _). rewrite Hk in Ho. injection Ho as ->. congruence. }
  destruct (ed_all _ _ _ _ _ Hx k) as [[p Hp]|(ghost & object & Hg)]; [by eapply lookup_lt_Some| |].
  - destruct (ed_origin _ _ _ _ _ Hx p k Hp) as [_ [(g & j & v & _ & Hv & Hfl)|(v & _ & Hfl)]]; apply Hsame in Hfl as Hs;
      [|discriminate]. injection Hs as ->. intros Hnil. by rewrite Hnil in Hv.
  - rewrite (ed_ghosts _ _ _ _ _ Hx), firstn_all in Hg. apply elem_of_flat_mapi in Hg as (j & e & Hj & Hg).
    apply ghost_of_place in Hg as [Hkj Hg]. simpl in Hkj. subst j. rewrite Hk in Hj. injection Hj as <-.
    rewrite Hkind in Hg. simpl in Hg. congruence.
Qed.

(** ** Lemmas on paths *)

Lemma origin_free lists singles entries n x p k : expanded lists singles entries n x -> ex_origin x !! p = Some k -> free_of "." p = true.
Proof.
  intros Hx Hp. destruct (ed_origin _ _ _ _ _ Hx p k Hp) as [_ [(f & j & v & -> & _ & Hfl)|(v & _ & Hfl)]];
    apply fills_free in Hfl as [_ Hfl]; simpl in Hfl; [|done].
  unfold indexed. rewrite !free_of_app, Hfl. simpl. by rewrite dec_free.
Qed.

Lemma relabel_here path origin k : origin !! path = Some k -> relabel_path path origin = Some (annotation_path k, k).
Proof. unfold relabel_path. by intros ->. Qed.

Lemma relabel_below path rest origin k : (forall p i, origin !! p = Some i -> free_of "." p = true) ->
  origin !! path = Some k -> relabel_path (path +s+ "." +s+ rest) origin = Some (annotation_path k +s+ "." +s+ rest, k).
Proof.
  intros Hfree Hk. unfold relabel_path. assert (origin !! (path +s+ "." +s+ rest) = None) as ->.
  { apply eq_None_not_Some. intros [i Hi]. apply Hfree in Hi. by rewrite !free_of_app, andb_false_r in Hi. }
  change ("." +s+ rest) with (String "." rest). rewrite split_once_free by by eapply Hfree. by rewrite Hk.
Qed.

(** ** Theorems *)

(** Fanning out one tagged array is exact.  The lists the caller also gave stay in front;
    every further value of a list, and every single clause the caller did not give, is one
    entry of the array, of that field's kind and with the kind taken off, and its place,
    with whatever follows it after a dot, is put back as that entry's place; the ghost
    entries are the others, in order; and each entry has one place or is a ghost. *)
Theorem expansion_exact debug_str params entries params' ghosts origin :
  ip_annotations params = Some entries -> expand_tagged_annotations debug_str params = inl (params', ghosts, origin) ->
  (forall f, at_field (ip_lists params) f `prefix_of` at_field (ip_lists params') f)
  /\ (forall f j v, at_field (ip_lists params') f !! j = Some v -> length (at_field (ip_lists params) f) <= j ->
        exists k, fills entries k (SList f) v /\ relabel_path (indexed f j) origin = Some (annotation_path k, k)
          /\ forall rest, relabel_path (indexed f j +s+ "." +s+ rest) origin = Some (annotation_path k +s+ "." +s+ rest, k))
  /\ (forall f v, ip_singles params' !! f = Some v -> ip_singles params !! f = Some v \/
        exists k, fills entries k (SSingle f) v /\ relabel_path f origin = Some (annotation_path k, k))
  /\ ghosts = flat_mapi ghost_of 0 entries
  /\ (forall k, k < length entries -> (exists ! p, origin !! p = Some k) \/ exists ghost object, (k, ghost, object) ∈ ghosts).
Proof.
  intros He Hx. apply (expansion_inv _ _ _ _ _ _ He) in Hx.
  assert (Hfree : forall p i, origin !! p = Some i -> free_of "." p = true) by (intros p i; by eapply (origin_free _ _ _ _ _ p i Hx)).
  split_and!.
  - apply (ed_before _ _ _ _ _ Hx).
  - intros f j v Hv Hj. destruct (ed_list _ _ _ _ _ Hx f j v Hv Hj) as (k & _ & Hfl & Ho).
    exists k. split_and!; [done|by apply relabel_here|intros rest; by apply relabel_below].
  - intros f v Hv. destruct (ed_single _ _ _ _ _ Hx f v Hv) as [?|(k & _ & Hfl & Ho)]; [by left|right].
    exists k. split; [done|by apply relabel_here].
  - pose proof (ed_ghosts _ _ _ _ _ Hx) as Hg. by rewrite firstn_all in Hg.
  - intros k Hk. destruct (ed_all _ _ _ _ _ Hx k Hk) as [[p Hp]|?]; [left|by right].
    exists p. split; [done|]. intros q Hq. by eapply (ed_inj _ _ _ _ _ Hx).
Qed.

(** Two clauses, one of them of a group, and a ghost global. *)
Definition tagged_call : InjectAllAnnotationsParams :=
  let entry kind fields := JObj (("kind", JStr kind) :: fields) in
  mkParams (Some "f") None
    (Some [entry "loop" [("stmt_id", jnat 4)]; entry "ghost_global" [("name", JStr "g")];
           entry "complete_behaviors" [("behaviors", JArr [JStr "pos"])]; entry "loop" [("stmt_id", jnat 9)]])
    ∅ ∅ true.

Lemma expansion_exact_witness :
  exists params' ghosts origin, expand_tagged_annotations (fun s => s) tagged_call = inl (params', ghosts, origin)
    /\ (collect_some (fun v => v .? "stmt_id" ≫= as_i64) (at_field (ip_lists params') "proposed_loop_annots") = [4; 9]%Z
        /\ relabel_path "proposed_loop_annots[1].variant" origin = Some ("annotations[3].variant", 3)
        /\ map (fun g => g.1.1) ghosts = [1])
    /\ ghosts = flat_mapi ghost_of 0 (unwrap_or (ip_annotations tagged_call) []).
Proof.
  assert (Hc : match expand_tagged_annotations (fun s => s) tagged_call with
          | inl (params', ghosts, origin) => bool_decide
              (collect_some (fun v => v .? "stmt_id" ≫= as_i64) (at_field (ip_lists params') "proposed_loop_annots") = [4; 9]%Z
               /\ relabel_path "proposed_loop_annots[1].variant" origin = Some ("annotations[3].variant", 3)
               /\ map (fun g => g.1.1) ghosts = [1])
          | inr _ => false
          end = true) by (vm_compute; reflexivity).
  destruct (expand_tagged_annotations (fun s => s) tagged_call) as [[[params' ghosts] origin]|e] eqn:Hx; [|discriminate].
  destruct (expansion_exact _ tagged_call _ _ _ _ eq_refl Hx) as (_ & _ & _ & Hghosts & _).
  exists params', ghosts, origin. split; [reflexivity|]. split; [exact (bool_decide_eq_true_1 _ Hc)|exact Hghosts].
Defined.
