(* ===== verification/Injection.v ===== *)
(** * Injecting annotations (src/src/mcp/annotations.rs, the second half)

    The call of the tool: its target, the gate in front of the main project, the ghost
    entries, the plan and its execution or dry run, and the comparison with a sandbox.
    The plug-in is a state [W] with two operations: [get] reads, [exec] may change it.
    The resolution of a target to an instance, the session's count of annotations, fresh
    labels and the texts of errors are parameters. *)

From S2P Require Import Prelude RustStr BTree Json Verdicts Conclusions Acsl Tagged.
Local Open Scope nat_scope.

(** ** Planning *)

(** [behavior_assumes_table]: a later declaration of a name replaces an earlier one. *)
Definition declare_behavior (behaviors : Behaviors) (v : json) : Behaviors :=
  match get_str "name" v with
  | Some name =>
    if is_empty name then behaviors
    else <[name := collect_some as_str (unwrap_or (get_arr "assumes" v) [])]> behaviors
  | None => behaviors
  end.

Definition behavior_assumes_table (proposed_behaviors : option (list json)) : Behaviors :=
  fold_left declare_behavior (unwrap_or proposed_behaviors []) ∅.

Definition add_loop_outcome (p : Planning) (outcome : LoopOutcome) : Planning :=
  match outcome with
  | inl entry => plan_push p entry
  | inr (path, msg) => plan_fail p (mkInjectionFailure (classify_failure msg) path "" msg)
  end.

Definition plan_loops (loop_annots : option (list json)) (behaviors : Behaviors) (p : Planning) : Planning :=
  fold_left add_loop_outcome
    (flat_mapi (fun i v => loop_annots_to_acsl v i behaviors) 0 (unwrap_or loop_annots [])) p.

(** The clause arrays of a call, by the names of their fields. *)
Record ClauseInputs := mkInputs { in_lists : gmap string (list json); in_singles : gmap string json }.

Definition build_injection_plan (inputs : ClauseInputs) (behaviors : Behaviors) : Planning :=
  let list field := in_lists inputs !! field in
  let single field := in_singles inputs !! field in
  let p := plan_globals (list "proposed_globals") ([], []) in
  let p := plan_requires (list "proposed_requires") behaviors p in
  let p := push_single_funspec_clause "terminates" "proposed_terminates" "termination clause" (single "proposed_terminates") behaviors p in
  let p := push_single_funspec_clause "decreases" "proposed_decreases" "decreases clause" (single "proposed_decreases") behaviors p in
  let p := push_single_funspec_clause "exits" "proposed_exits" "exit clause" (single "proposed_exits") behaviors p in
  let p := plan_ensures (list "proposed_ensures") behaviors p in
  let p := plan_assigns (list "proposed_assigns") behaviors p in
  let p := push_behavior_group_clauses "complete" "proposed_complete_behaviors" (list "proposed_complete_behaviors") behaviors p in
  let p := push_behavior_group_clauses "disjoint" "proposed_disjoint_behaviors" (list "proposed_disjoint_behaviors") behaviors p in
  let p := plan_asserts (list "proposed_asserts") p in
  plan_loops (list "proposed_loop_annots") behaviors p.

(** ** Loops of the main function *)

Definition is_loop (m : jmap) : bool := (map_get "kind" m ≫= as_str) =?s "loop".
Definition ORDERED : list string := ["cond"; "then_body"; "else_body"].

(** The children of a node, an [if]'s in source order; the recursion is on the value, so
    the ids below each child are computed first and then put in that order. *)
Definition in_source_order (below : list (string * list Z)) : list Z :=
  let at_key key := unwrap_or (snd <$> find_first (fun e => e.1 =s key) below) [] in
  if is_some_and (fun _ => true) (find_first (fun e => e.1 =s "then_body") below)
     && is_some_and (fun _ => true) (find_first (fun e => e.1 =s "else_body") below)
  then concat (map at_key ORDERED)
       ++ concat (map snd (bfilter (fun e => negb (existsb (String.eqb e.1) ORDERED)) below))
  else concat (map snd below).

Fixpoint collect_loop_sids (node : json) : list Z :=
  match node with
  | JObj m =>
    (if is_loop m then match map_get "sid" m ≫= as_i64 with Some sid => [sid] | None => [] end else [])
    ++ in_source_order (map (fun e => (e.1, collect_loop_sids e.2)) m)
  | JArr arr => concat (map collect_loop_sids arr)
  | _ => []
  end.

Definition set_stmt_id (sid : Z) (l : json) : json := map_object (map_insert "stmt_id" (JNum (NInt sid))) l.

Definition cannot_map (function : string) (main proposed : nat) : McpError :=
  invalid_params ("main function '" +s+ function +s+ "' has " +s+ dec main +s+ " loop(s) but proposed_loop_annots has "
    +s+ dec proposed +s+ "; cannot map loop sids (O3)") None.

Definition remap_loop_sids (function : string) (main_loop_sids : list Z) (loops : list json) : list json + McpError :=
  if forallb (fun annotation => is_some_and (fun sid => bool_decide (sid ∈ main_loop_sids))
                (annotation .? "stmt_id" ≫= as_i64)) loops
  then inl loops
  else if negb (length main_loop_sids =? length loops) then inr (cannot_map function (length main_loop_sids) (length loops))
  else inl (zip_with set_stmt_id main_loop_sids loops).

(** ** Responses (types.rs) *)

Record InjectedAnnotationEntry := mkInjected { inj_hash_label : string; inj_entry : InjectionPlanEntry }.
Record GhostResult := mkGhostResult { gr_index : nat; gr_kind : string; gr_result : json }.

Definition failure_type_name (t : FailureType) : string :=
  match t with
  | SyntaxError => "syntax_error"
  | ProposedSelfReferential => "proposed_self_referential"
  | ProposedLocalVarInFunspec => "proposed_local_var_in_funspec"
  | ProposedError => "proposed_error"
  end.

Definition failure_json (f : InjectionFailure) : json :=
  JObj [("type", JStr (failure_type_name (if_type f))); ("proposed_path", JStr (if_path f));
        ("acsl_text", JStr (if_acsl f)); ("frama_c_error", JStr (if_error f))].

Definition injected_json (a : InjectedAnnotationEntry) : json :=
  let e := inj_entry a in
  JObj [("hash_label", JStr (inj_hash_label a)); ("user_label", jopt JStr (pe_user_label e)); ("kind", JStr (pe_kind e));
        ("acsl", JStr (pe_acsl_text e)); ("stmt_id", jopt jZ (pe_stmt_id e)); ("derived_from", JStr (pe_derived_from e));
        ("source", JStr "generated"); ("purpose", JStr (pe_purpose e)); ("proof_target", JNull); ("wp_status", JNull);
        ("wp_time_ms", JNull); ("wp_prover", JNull)].

Definition ghost_json (g : GhostResult) : json :=
  JObj [("index", jnat (gr_index g)); ("kind", JStr (gr_kind g)); ("result", gr_result g)].

Definition injection_summary (total successful failed : nat) : json :=
  JObj [("total_attempted", jnat total); ("successful_count", jnat successful); ("failure_count", jnat failed)].

(** A field serde skips when the list is empty. *)
Definition ghosts_field (ghosts : list GhostResult) : jmap :=
  match ghosts with [] => [] | _ => [("ghosts", JArr (map ghost_json ghosts))] end.

Definition compute_status (failures : list InjectionFailure) : string :=
  match failures with
  | [] => "success"
  | _ => if forallb (fun f => bool_decide (if_type f = SyntaxError)) failures then "partial" else "proposed_error"
  end.

(** *** Dry run *)

Record ValidationClause := mkValidation {
  vc_valid : bool;
  vc_path : string;
  vc_function : string;
  vc_kind : string;
  vc_stmt_id : option Z;
  vc_acsl : string;
  vc_user_label : option string;
  vc_purpose : string;
  vc_failure : option (FailureType * string);
}.

(** [proposed_path_index]: the number in the first brackets. *)
Definition proposed_path_index (path : string) : option N :=
  find "[" path ≫= fun open =>
  let inside := skip (open + 1) path in
  find "]" inside ≫= fun close => parse_u64 (take_str close inside).

Definition validation_json (c : ValidationClause) : json :=
  JObj [("valid", JBool (vc_valid c)); ("proposed_path", JStr (vc_path c)); ("index", jopt jN (proposed_path_index (vc_path c)));
        ("insertion_target", JObj [("function", JStr (vc_function c)); ("kind", JStr (vc_kind c)); ("stmt_id", jopt jZ (vc_stmt_id c))]);
        ("acsl_text", JStr (vc_acsl c)); ("user_label", jopt JStr (vc_user_label c)); ("purpose", JStr (vc_purpose c));
        ("type", jopt (fun f => JStr (failure_type_name f.1)) (vc_failure c));
        ("frama_c_error", jopt (fun f => JStr f.2) (vc_failure c))].

Definition validation_result_is_valid (validation : json) : bool :=
  unwrap_or (get_bool "valid" validation <||> (validation .? "result" ≫= get_bool "valid")) false.
Definition validation_result_error (validation : json) : option string :=
  get_str "error" validation <||> (validation .? "result" ≫= get_str "error").

Definition early_clause (function : string) (f : InjectionFailure) : ValidationClause :=
  mkValidation false (if_path f) function "unknown" None (if_acsl f) None "" (Some (if_type f, if_error f)).

(** The kind a clause is sent with: read off its text, but for a global. *)
Definition sent_kind (entry : InjectionPlanEntry) : string :=
  if pe_kind entry =s "global" then "global" else acsl_kind_to_ast_kind (pe_acsl_text entry).

Definition stmt_field (entry : InjectionPlanEntry) : jmap :=
  match pe_stmt_id entry with Some stmt => [("stmt", jZ stmt)] | None => [] end.

Definition validation_request (function : string) (entry : InjectionPlanEntry) : json :=
  JObj ([("function", JStr function); ("kind", JStr (sent_kind entry)); ("acsl", JStr (pe_acsl_text entry))] ++ stmt_field entry).

Definition validated (function : string) (entry : InjectionPlanEntry) (failure : option (FailureType * string)) : ValidationClause :=
  mkValidation (bool_decide (failure = None)) (pe_derived_from entry) function (sent_kind entry) (pe_stmt_id entry)
    (pe_acsl_text entry) (pe_user_label entry) (pe_purpose entry) failure.

Definition verdict_on (validation : json) : option (FailureType * string) :=
  if validation_result_is_valid validation then None
  else
    let error_msg := unwrap_or (validation_result_error validation) "unknown validation error" in
    Some (classify_failure error_msg, error_msg).

Definition failure_of (c : ValidationClause) : option InjectionFailure :=
  (fun f => mkInjectionFailure f.1 (vc_path c) (vc_acsl c) f.2) <$> vc_failure c.

Definition dry_run_json (clauses : list ValidationClause) (failures : list InjectionFailure) (ghosts : list GhostResult) : json :=
  JObj ([("status", JStr (compute_status failures)); ("dry_run", JBool true);
         ("clauses", JArr (map validation_json clauses)); ("failures", JArr (map failure_json failures))]
        ++ ghosts_field ghosts
        ++ (if bool_decide (ghosts = []) then [] else [("ghosts_not_applied", JBool true)])
        ++ [("summary", injection_summary (length clauses) (count_if vc_valid clauses) (length failures))]).

(** ** Ghost entries *)

Definition ghost_succeeded (result : json) : bool := unwrap_or (get_bool "success" result) false.

Definition ghost_request_failure (index : nat) (kind : GhostKind) (error : string) : InjectionFailure :=
  mkInjectionFailure ProposedError (annotation_path index) (ghost_name kind) error.

(** Deserializing an entry: a text or a statement that must be there, and a text that may
    be absent or null. *)
Definition need_str (key : string) (entry : json) : option jmap := (fun s => [(key, JStr s)]) <$> get_str key entry.
Definition need_stmt (entry : json) : option jmap := (fun n => [("stmt", jZ n)]) <$> (entry .? "stmt" ≫= as_i64).
Definition may_str (key : string) (entry : json) : option jmap :=
  match entry .? key with
  | None | Some JNull => Some []
  | Some (JStr s) => Some [(key, JStr s)]
  | Some _ => None
  end.

Fixpoint all_fields (fields : list (option jmap)) : option jmap :=
  match fields with
  | [] => Some []
  | f :: fields => f ≫= fun m => (fun m' => m ++ m') <$> all_fields fields
  end.

Definition needs (keys : list string) (entry : json) : list (option jmap) := map (fun key => need_str key entry) keys.
Definition may (keys : list string) (entry : json) : list (option jmap) := map (fun key => may_str key entry) keys.

Definition ghost_fields (kind : GhostKind) (entry : json) : option jmap :=
  all_fields
    match kind with
    | GhostGlobal => needs ["name"] entry ++ may ["type"; "expr"] entry
    | GhostFormal => needs ["name"] entry ++ may ["type"; "where"] entry
    | GhostLemmaFunction => needs ["name"; "param"; "requires"; "decreases"; "assigns"; "ensures"] entry ++ may ["param_type"] entry
    | GhostLoop =>
      need_stmt entry :: needs ["name"; "stop"; "invariant"; "assigns"; "variant"] entry ++ may ["type"; "init"; "step"; "assert"] entry
    | GhostStmt => need_stmt entry :: needs ["op"; "name"; "expr"] entry ++ may ["type"] entry
    end.

Definition ghost_request_name (kind : GhostKind) : string :=
  match kind with
  | GhostGlobal => "plugins.ast-utils.execInsertGhostGlobal"
  | GhostFormal => "plugins.ast-utils.execInsertGhostFormal"
  | GhostLemmaFunction => "plugins.ast-utils.execInsertGhostLemmaFunction"
  | GhostLoop => "plugins.ast-utils.execInsertGhostLoop"
  | GhostStmt => "plugins.ast-utils.execInsertGhostStmt"
  end.

(** A ghost global and a lemma function belong to a project and not to a function. *)
Definition of_project (kind : GhostKind) : bool :=
  match kind with GhostGlobal | GhostLemmaFunction => true | _ => false end.

Record Resolved := mkResolved { r_function : string; r_experiment : option string }.
Record GhostRequest := mkGhostRequest { gq_resolved : option Resolved; gq_request : string; gq_data : json }.

Definition ghost_only_response (dry_run : bool) (attempted : nat) (ghosts : list GhostResult)
    (failures : list InjectionFailure) : json :=
  JObj [("status", JStr "proposed_error"); ("dry_run", JBool dry_run); ("clauses_attempted", JBool false);
        ("ghosts", JArr (map ghost_json ghosts)); ("failures", JArr (map failure_json failures));
        ("summary", injection_summary attempted (count_if (fun g => ghost_succeeded (gr_result g)) ghosts) (length failures))].

Definition payload_of (result : json) : json := unwrap_or (opt_filter is_object (result .? "result")) result.

(** ** Labels and answers (server.rs) *)

Definition generate_hash_label (kind hex : string) : string :=
  unwrap_or (find_map (fun '(k, prefix) => then_some (k =s kind) prefix)
    [("requires", "re"); ("ensures", "en"); ("assigns", "as"); ("loop_invariant", "li"); ("loop_assigns", "la");
     ("loop_variant", "lv"); ("assert", "at")]) "an" +s+ "_" +s+ hex.

Definition full_label (hash_label : string) (user_label : option string) : string :=
  match user_label with Some ul => hash_label +s+ "_" +s+ ul | None => hash_label end.

Definition parse_plugin_success (result : json) : bool :=
  unwrap_or (as_bool (field "success" (field "result" result))) false.
Definition parse_plugin_error (result : json) : option string := as_str (field "error" (field "result" result)).

Definition source_excerpt (source : string) : string := take_chars 4000 source.

(** ** The call *)

Definition carries_contract (params : InjectAllAnnotationsParams) : bool :=
  existsb (fun field => is_some_and (fun l => negb (bool_decide (l = []))) (ip_lists params !! field))
    ["proposed_requires"; "proposed_ensures"].

Definition CONTRACT_REFUSED : McpError :=
  invalid_params ("requires and ensures cannot be injected into the main project: a function "
    +s+ "contract is a reviewed, version-controlled asset. Try the clause in a "
    +s+ "sandbox with create_sandbox, and have a human write the one that works "
    +s+ "into the C source. Invariants, asserts, assigns, ghost code and lemmas "
    +s+ "are unaffected.") None.

Definition call_target (params : InjectAllAnnotationsParams) : string + McpError :=
  match ip_function params, ip_sandbox_name params with
  | Some function, Some sandbox_name =>
    if contains ":" function && negb (function =s sandbox_name)
    then inr (invalid_params "function and sandbox_name must match when function is sandbox-prefixed" None)
    else inl function
  | Some function, None => inl function
  | None, Some sandbox_name => inl sandbox_name
  | None, None => inr (invalid_params "function or sandbox_name is required" None)
  end.

Section calls.
Context {W E : Type}.
Variable error_text : E -> string.
Variable to_mcp : E -> McpError.
Variable mcp_text : McpError -> string.
Variable resolve : string -> Resolved + McpError.
Variable get_request : W -> option string -> string -> json -> json + E.
Variable exec_request : W -> option string -> string -> json -> (json + E) * W.
Variable print_source : W -> option string -> string + E.
Variable annotation_changed : W -> string -> W.
Variable fresh_hex : W -> string * W.
Variable serde_error : GhostKind -> json -> string.
Variable strip_labels strip_equivalence_labels : string -> string.
Variable debug_str : string -> string.

(** *** Ghost entries *)

Definition resolve_optional_sandbox (sandbox_name : option string) : option Resolved + McpError :=
  match sandbox_name with
  | None => inl None
  | Some sandbox_name =>
    match resolve sandbox_name with
    | inr error => inr error
    | inl resolved =>
      match r_experiment resolved with
      | None => inr (invalid_params "sandbox_name must include experiment_id prefix" None)
      | Some _ => inl (Some resolved)
      end
    end
  end.

Definition ghost_request (index : nat) (kind : GhostKind) (target : string) (sandbox : option string) (entry : json)
    : GhostRequest + InjectionFailure :=
  match ghost_fields kind entry with
  | None => inr (ghost_request_failure index kind (ghost_name kind +s+ ": " +s+ serde_error kind entry))
  | Some fields =>
    if of_project kind then
      match resolve_optional_sandbox sandbox with
      | inr error => inr (ghost_request_failure index kind (mcp_text error))
      | inl resolved => inl (mkGhostRequest resolved (ghost_request_name kind) (JObj fields))
      end
    else
      match resolve target with
      | inr error => inr (ghost_request_failure index kind (mcp_text error))
      | inl resolved =>
        inl (mkGhostRequest (Some resolved) (ghost_request_name kind) (JObj (("function", JStr (r_function resolved)) :: fields)))
      end
  end.

Definition note_changed (w : W) (resolved : Resolved) : W :=
  match r_experiment resolved with Some experiment => annotation_changed w experiment | None => w end.

Definition exec_ghost (w : W) (ghost : GhostRequest) (dry_run : bool) : (json + McpError) * W :=
  if dry_run then
    (inl (JObj [("success", JBool true); ("dry_run", JBool true); ("request", JStr (gq_request ghost)); ("data", gq_data ghost)]), w)
  else
    let '(answer, w) := exec_request w (gq_resolved ghost ≫= r_experiment) (gq_request ghost) (gq_data ghost) in
    match answer with
    | inr error => (inr (to_mcp error), w)
    | inl result =>
      let payload := payload_of result in
      let w := if ghost_succeeded payload
               then match gq_resolved ghost with Some resolved => note_changed w resolved | None => w end
               else w in
      (inl payload, w)
    end.

Definition ghost_outcome (w : W) (target : string) (dry_run : bool) (ghost : nat * GhostKind * json)
    : (json + InjectionFailure) * W :=
  let '(index, kind, entry) := ghost in
  match ghost_request index kind target (then_some (contains ":" target) target) entry with
  | inr failure => (inr failure, w)
  | inl request =>
    let '(answer, w) := exec_ghost w request dry_run in
    match answer with
    | inr error => (inr (ghost_request_failure index kind (mcp_text error)), w)
    | inl result => (inl result, w)
    end
  end.

(** A refusal inside a successful request is in both lists. *)
Definition refusal (ghost : nat * GhostKind * json) (result : json) : list InjectionFailure :=
  if ghost_succeeded result then []
  else [ghost_request_failure ghost.1.1 ghost.1.2 (unwrap_or (get_str "error" result) "ghost insertion refused")].

Fixpoint apply_ghost_entries (w : W) (target : string) (dry_run : bool) (ghosts : list (nat * GhostKind * json))
    : list GhostResult * list InjectionFailure * W :=
  match ghosts with
  | [] => ([], [], w)
  | ghost :: ghosts =>
    let '(outcome, w) := ghost_outcome w target dry_run ghost in
    let '(results, failures, w) := apply_ghost_entries w target dry_run ghosts in
    match outcome with
    | inr failure => (results, failure :: failures, w)
    | inl result =>
      (mkGhostResult ghost.1.1 (ghost_name ghost.1.2) result :: results, refusal ghost result ++ failures, w)
    end
  end.

(** *** Dry run *)

Fixpoint validate_plan (w : W) (resolved : Resolved) (plan : list InjectionPlanEntry) : list ValidationClause + McpError :=
  match plan with
  | [] => inl []
  | entry :: plan =>
    match get_request w (r_experiment resolved) "plugins.ast-utils.getAcslValidation" (validation_request (r_function resolved) entry) with
    | inr error => inr (to_mcp error)
    | inl validation =>
      match validate_plan w resolved plan with
      | inr error => inr error
      | inl clauses => inl (validated (r_function resolved) entry (verdict_on validation) :: clauses)
      end
    end
  end.

Definition dry_run_validation (w : W) (resolved : Resolved) (plan : list InjectionPlanEntry)
    (early_failures : list InjectionFailure) (ghosts : list GhostResult) (origin : gmap string nat) : json + McpError :=
  match validate_plan w resolved plan with
  | inr error => inr error
  | inl checked =>
    let clauses := map (early_clause (r_function resolved)) early_failures ++ checked in
    inl (relabel_origins (dry_run_json clauses (early_failures ++ collect_some failure_of checked) ghosts) origin)
  end.

(** *** Execution *)

Definition existing_annotation_texts (w : W) (resolved : Resolved) : gset string :=
  match get_request w (r_experiment resolved) "kernel.properties.fetchStatus" (JObj [("function", JStr (r_function resolved))]) with
  | inl props => list_to_set (map (normalize_for_comparison strip_labels) (collect_some (get_str "acsl") (array_or_empty props)))
  | inr _ => ∅
  end.

Definition add_annotation_impl (w : W) (target_function : string) (entry : InjectionPlanEntry) : (json * string + McpError) * W :=
  match resolve target_function with
  | inr error => (inr error, w)
  | inl resolved =>
    let '(hex, w) := fresh_hex w in
    let kind := acsl_kind_to_ast_kind (pe_acsl_text entry) in
    let hash_label := generate_hash_label kind hex in
    let data := JObj ([("function", JStr (r_function resolved)); ("kind", JStr kind); ("acsl", JStr (pe_acsl_text entry));
                       ("label", JStr (full_label hash_label (pe_user_label entry)))] ++ stmt_field entry) in
    let '(answer, w) := exec_request w (r_experiment resolved) "plugins.ast-utils.execAddAnnotation" data in
    match answer with
    | inr error => (inr (to_mcp error), w)
    | inl result => (inl (map_object (map_insert "hash_label" (JStr hash_label)) result, hash_label), w)
    end
  end.

(** The request of one entry: its answer and its label, or the error of the request. *)
Definition send_entry (w : W) (resolved : Resolved) (target_function : string) (entry : InjectionPlanEntry)
    : (json * string + string) * W :=
  if pe_kind entry =s "global" then
    let '(answer, w) := exec_request w (r_experiment resolved) "plugins.ast-utils.execAddGlobalAcsl"
                          (JObj [("acsl", JStr (pe_acsl_text entry))]) in
    match answer with inl result => (inl (result, "global"), w) | inr e => (inr (error_text e), w) end
  else
    let '(answer, w) := add_annotation_impl w target_function entry in
    match answer with inl result => (inl result, w) | inr e => (inr (err_message e), w) end.

Definition entry_outcome (entry : InjectionPlanEntry) (answer : json * string + string) : InjectedAnnotationEntry + InjectionFailure :=
  match answer with
  | inr error => inr (mkInjectionFailure ProposedError (pe_derived_from entry) (pe_acsl_text entry) error)
  | inl (result, used_hash) =>
    if parse_plugin_success result then inl (mkInjected used_hash entry)
    else
      let error_msg := unwrap_or (parse_plugin_error result) "unknown error" in
      inr (mkInjectionFailure (classify_failure error_msg) (pe_derived_from entry) (pe_acsl_text entry) error_msg)
  end.

Definition already_there (existing_acsl : gset string) (entry : InjectionPlanEntry) : bool :=
  bool_decide (normalize_for_comparison strip_labels (pe_acsl_text entry) ∈ existing_acsl).

Fixpoint execute_injection_plan (w : W) (resolved : Resolved) (target_function : string) (existing_acsl : gset string)
    (plan : list InjectionPlanEntry) (successful : list InjectedAnnotationEntry) (failures : list InjectionFailure)
    : list InjectedAnnotationEntry * list InjectionFailure * W :=
  match plan with
  | [] => (successful, failures, w)
  | entry :: plan =>
    if already_there existing_acsl entry then
      execute_injection_plan w resolved target_function existing_acsl plan (successful ++ [mkInjected "existing" entry]) failures
    else
      let '(answer, w) := send_entry w resolved target_function entry in
      match entry_outcome entry answer with
      | inl injected => execute_injection_plan w resolved target_function existing_acsl plan (successful ++ [injected]) failures
      | inr failure => execute_injection_plan w resolved target_function existing_acsl plan successful (failures ++ [failure])
      end
  end.

(** *** Equivalence with a sandbox *)

Definition resolve_equivalence_sandbox (equivalence_sandbox : option string) (resolved : Resolved)
    : option (string * Resolved) + McpError :=
  match equivalence_sandbox with
  | None => inl None
  | Some sandbox_name =>
    match resolve sandbox_name with
    | inr error => inr error
    | inl sandbox =>
      if bool_decide (r_experiment sandbox = None)
      then inr (invalid_params "sandbox_name must include experiment_id prefix (e.g. 'exp42:func')" None)
      else if negb (r_function sandbox =s r_function resolved)
      then inr (invalid_params ("sandbox_name '" +s+ sandbox_name +s+ "' targets function '" +s+ r_function sandbox
                 +s+ "', expected '" +s+ r_function resolved +s+ "'") None)
      else inl (Some (sandbox_name, sandbox))
    end
  end.

Definition fetch_extracted_annotations (w : W) (resolved : Resolved) : list string + McpError :=
  match get_request w (r_experiment resolved) "plugins.ast-utils.execExtractAnnotations" (JStr (r_function resolved)) with
  | inl value => inl (canonical_extracted_annotations strip_equivalence_labels value)
  | inr error => inr (to_mcp error)
  end.

Definition equivalence_json (sandbox_name : string) (main : Resolved) (expected actual : list string)
    (excerpts : option (string * string)) : json :=
  let matched := bool_decide (expected = actual) in
  JObj ([("status", JStr (if matched then "match" else "mismatch")); ("sandbox_name", JStr sandbox_name);
         ("function", JStr (r_function main)); ("matched_count", jnat (if matched then length actual else 0));
         ("mismatches", JArr (if matched then [] else
            [JObj [("kind", JStr "annotations"); ("expected", JArr (map JStr expected)); ("actual", JArr (map JStr actual))]]))]
        ++ match excerpts with
           | Some (sandbox, main) => [("sandbox_source_excerpt", JStr sandbox); ("main_source_excerpt", JStr main)]
           | None => []
           end).

Definition compare_annotation_equivalence (w : W) (sandbox_name : string) (sandbox main : Resolved) : (bool * json) + McpError :=
  match fetch_extracted_annotations w sandbox with
  | inr error => inr error
  | inl expected =>
    match fetch_extracted_annotations w main with
    | inr error => inr error
    | inl actual =>
      if bool_decide (expected = actual) then inl (true, equivalence_json sandbox_name main expected actual None)
      else
        match print_source w (r_experiment sandbox) with
        | inr error => inr (to_mcp error)
        | inl sandbox_source =>
          match print_source w (r_experiment main) with
          | inr error => inr (to_mcp error)
          | inl main_source =>
            inl (false, equivalence_json sandbox_name main expected actual
                          (Some (source_excerpt sandbox_source, source_excerpt main_source)))
          end
        end
    end
  end.

(** *** The whole call *)

Definition injection_json (status : string) (successful : list InjectedAnnotationEntry) (failures : list InjectionFailure)
    (ghosts : list GhostResult) (equivalence : option json) : json :=
  JObj ([("status", JStr status); ("successful", JArr (map injected_json successful)); ("failures", JArr (map failure_json failures))]
        ++ ghosts_field ghosts
        ++ [("summary", injection_summary (length successful + length failures) (length successful) (length failures))]
        ++ match equivalence with Some e => [("equivalence", e)] | None => [] end).

Definition remap_loop_sids_to_main (w : W) (resolved : Resolved) (loops : option (list json)) : option (list json) + McpError :=
  match loops with
  | None | Some [] => inl loops
  | Some loops =>
    match get_request w (r_experiment resolved) "plugins.ast-utils.getFunctionAst" (JStr (r_function resolved)) with
    | inr error => inr (to_mcp error)
    | inl ast =>
      match remap_loop_sids (r_function resolved) (collect_loop_sids ast) loops with
      | inl loops => inl (Some loops)
      | inr error => inr error
      end
    end
  end.

Definition remapped_lists (w : W) (target : string) (resolved : Resolved) (lists : gmap string (list json))
    : gmap string (list json) + McpError :=
  if contains ":" target then inl lists
  else
    match remap_loop_sids_to_main w resolved (lists !! "proposed_loop_annots") with
    | inr error => inr error
    | inl None => inl lists
    | inl (Some loops) => inl (<["proposed_loop_annots" := loops]> lists)
    end.

Definition equivalence_check (w : W) (status : string) (sandbox : option (string * Resolved)) (main : Resolved)
    : (string * option json) + McpError :=
  if status =s "success" then
    match sandbox with
    | Some (sandbox_name, sandbox) =>
      match compare_annotation_equivalence w sandbox_name sandbox main with
      | inr error => inr error
      | inl (matched, check) => inl (if matched : bool then status else "equivalence_mismatch", Some check)
      end
    | None => inl (status, None)
    end
  else inl (status, None).

Definition inject_all_impl (w : W) (target : string) (params : InjectAllAnnotationsParams) (origin : gmap string nat)
    (equivalence_sandbox : option string) (ghosts : list GhostResult) : (json + McpError) * W :=
  match resolve target with
  | inr error => (inr error, w)
  | inl resolved =>
    match resolve_equivalence_sandbox equivalence_sandbox resolved with
    | inr error => (inr error, w)
    | inl sandbox =>
      match remapped_lists w target resolved (ip_lists params) with
      | inr error => (inr error, w)
      | inl lists =>
        let behaviors := behavior_assumes_table (lists !! "proposed_behaviors") in
        let '(plan, early_failures) := build_injection_plan (mkInputs lists (ip_singles params)) behaviors in
        if ip_dry_run params then (dry_run_validation w resolved plan early_failures ghosts origin, w)
        else
          let existing_acsl := existing_annotation_texts w resolved in
          let '(successful, failures, w) := execute_injection_plan w resolved target existing_acsl plan [] early_failures in
          match equivalence_check w (compute_status failures) sandbox resolved with
          | inr error => (inr error, w)
          | inl (status, equivalence) =>
            let w := note_changed w resolved in
            (inl (relabel_origins (injection_json status successful failures ghosts equivalence) origin), w)
          end
      end
    end
  end.

Definition inject_all_annotations (w : W) (params : InjectAllAnnotationsParams) : (json + McpError) * W :=
  match call_target params with
  | inr error => (inr error, w)
  | inl target =>
    let require_sandbox := contains ":" target in
    let equivalence_sandbox := if negb (ip_dry_run params) && negb require_sandbox then ip_sandbox_name params else None in
    match expand_tagged_annotations debug_str params with
    | inr error => (inr error, w)
    | inl (params, ghosts, origin) =>
      if negb require_sandbox && carries_contract params then (inr CONTRACT_REFUSED, w)
      else
        let '(ghost_results, ghost_failures, w) := apply_ghost_entries w target (ip_dry_run params) ghosts in
        match ghost_failures with
        | _ :: _ => (inl (ghost_only_response (ip_dry_run params) (length ghosts) ghost_results ghost_failures), w)
        | [] =>
          match inject_all_impl w target params origin equivalence_sandbox ghost_results with
          | (inl response, w) => (inl response, w)
          | (inr error, w) => (inr (relabel_mcp_error error origin), w)
          end
        end
    end
  end.

(** ** What a call accounts for *)

(** The field a place belongs to. *)
Definition field_of (path : string) : string := take_while (fun c => negb (Ascii.eqb c "[")) path.

(** The places of the fields in the order they are planned: every entry has one, but an
    entry whose clause is blank, and a loop annotation has one for each clause in it. *)
Definition planned_fields (inputs : ClauseInputs) : list (string * list string) :=
  let all field := (field, flat_mapi (place_all field) 0 (unwrap_or (in_lists inputs !! field) [])) in
  let texts text field := (field, flat_mapi (place_text text field) 0 (unwrap_or (in_lists inputs !! field) [])) in
  let single field := (field, place_single field (in_singles inputs !! field)) in
  [texts acsl_of "proposed_globals"; all "proposed_requires"; single "proposed_terminates"; single "proposed_decreases";
   single "proposed_exits"; all "proposed_ensures"; texts (str_or "acsl" "") "proposed_assigns";
   all "proposed_complete_behaviors"; all "proposed_disjoint_behaviors"; texts (str_or "acsl" "") "proposed_asserts";
   ("proposed_loop_annots", flat_mapi place_loop 0 (unwrap_or (in_lists inputs !! "proposed_loop_annots") []))].

Definition planned_places (inputs : ClauseInputs) : list string := concat (map snd (planned_fields inputs)).

(** ** Lemmas on plans *)

Lemma field_of_free f rest : free_of "[" f = true -> field_of (f +s+ String "[" rest) = f.
Proof. unfold field_of, free_of. induction f as [|c f IH]; simpl; [done|]. intros [-> Hf]%andb_true_iff. by rewrite IH. Qed.

Lemma field_of_indexed f i rest : free_of "[" f = true -> field_of (indexed f i +s+ rest) = f.
Proof. intros Hf. unfold indexed. rewrite !app_str_assoc. by apply field_of_free. Qed.

Lemma field_of_indexed_end f i : free_of "[" f = true -> field_of (indexed f i) = f.
Proof. intros Hf. rewrite <- (app_str_nil_r (indexed f i)). by apply field_of_indexed. Qed.

Lemma adds_loops outcomes : adds (fold_left add_loop_outcome outcomes) (map outcome_path outcomes).
Proof.
  induction outcomes as [|o outcomes IH]; [apply adds_none|].
  change (map outcome_path (o :: outcomes)) with ([outcome_path o] ++ map outcome_path outcomes).
  apply (adds_then (fun p => add_loop_outcome p o)); [|done].
  destruct o as [e|[path msg]]; [apply adds_push|apply (adds_fail (mkInjectionFailure _ path _ _))].
Qed.

Lemma adds_plan_loops loops behaviors : adds (plan_loops loops behaviors) (flat_mapi place_loop 0 (unwrap_or loops [])).
Proof.
  set (outcomes := flat_mapi (fun i v => loop_annots_to_acsl v i behaviors) 0 (unwrap_or loops [])).
  assert (flat_mapi place_loop 0 (unwrap_or loops []) = map outcome_path outcomes) as ->; [|apply adds_loops].
  unfold outcomes. rewrite map_flat_mapi. apply flat_mapi_ext. intros i a. symmetry. apply loop_outcome_paths.
Qed.

Lemma adds_steps steps places : Forall2 adds steps places ->
  adds (fun p => fold_left (fun p step => step p) steps p) (concat places).
Proof.
  induction 1 as [|step l steps places Hs _ IH]; simpl; [apply adds_none|].
  by apply (adds_then step (fun p => fold_left (fun p step => step p) steps p)).
Qed.

(** The steps of [build_injection_plan], in its order. *)
Definition planning_steps (inputs : ClauseInputs) (behaviors : Behaviors) : list (Planning -> Planning) :=
  let list field := in_lists inputs !! field in
  let single keyword field purpose := push_single_funspec_clause keyword field purpose (in_singles inputs !! field) behaviors in
  [plan_globals (list "proposed_globals"); plan_requires (list "proposed_requires") behaviors;
   single "terminates" "proposed_terminates" "termination clause"; single "decreases" "proposed_decreases" "decreases clause";
   single "exits" "proposed_exits" "exit clause"; plan_ensures (list "proposed_ensures") behaviors;
   plan_assigns (list "proposed_assigns") behaviors;
   push_behavior_group_clauses "complete" "proposed_complete_behaviors" (list "proposed_complete_behaviors") behaviors;
   push_behavior_group_clauses "disjoint" "proposed_disjoint_behaviors" (list "proposed_disjoint_behaviors") behaviors;
   plan_asserts (list "proposed_asserts"); plan_loops (list "proposed_loop_annots") behaviors].

Lemma plan_adds inputs behaviors : accounts (build_injection_plan inputs behaviors) (planned_places inputs).
Proof.
  assert (Hs : Forall2 adds (planning_steps inputs behaviors) (map snd (planned_fields inputs))).
  { repeat apply Forall2_cons_2; try apply adds_single; try apply adds_plan_loops; try apply Forall2_nil_2;
      apply adds_field; intros i v; auto using adds_global, adds_wrapped, adds_assign, adds_assert, adds_group;
      apply adds_wrapped. }
  destruct (adds_steps _ _ Hs ([], [])) as (e & f & Heq & Ha).
  change (build_injection_plan inputs behaviors) with
    (fold_left (fun p (step : Planning -> Planning) => step p) (planning_steps inputs behaviors) ([], [])).
  by rewrite Heq.
Qed.

Lemma indexed_field (place : nat -> json -> list string) field l : (forall i v x, x ∈ place i v -> exists rest, x = indexed field i +s+ rest) ->
  free_of "[" field = true -> forall x, x ∈ flat_mapi place 0 l -> field_of x = field.
Proof.
  intros Hp Hf x Hx. apply elem_of_flat_mapi in Hx as (j & v & _ & Hx). apply Hp in Hx as [rest ->].
  by apply field_of_indexed.
Qed.

Lemma place_all_field field l x : free_of "[" field = true -> x ∈ flat_mapi (place_all field) 0 l -> field_of x = field.
Proof.
  intros Hf. apply indexed_field; [|done]. intros i v y ->%list_elem_of_singleton. exists "". by rewrite app_str_nil_r.
Qed.

Lemma place_text_field text field l x : free_of "[" field = true -> x ∈ flat_mapi (place_text text field) 0 l -> field_of x = field.
Proof.
  intros Hf. apply indexed_field; [|done]. intros i v y. unfold place_text. case_match; [by intros ?%elem_of_nil|].
  intros ->%list_elem_of_singleton. exists "". by rewrite app_str_nil_r.
Qed.

Lemma place_loops_field l x : x ∈ flat_mapi place_loop 0 l -> field_of x = "proposed_loop_annots".
Proof. apply indexed_field; [|done]. intros i v y [rest ->]%elem_of_place_loop. by eexists. Qed.

Lemma place_single_field field v x : free_of "[" field = true -> x ∈ place_single field v -> field_of x = field.
Proof.
  intros Hf. unfold place_single. repeat case_match; try by intros ?%elem_of_nil. intros ->%list_elem_of_singleton.
  clear -Hf. unfold field_of, free_of in *. induction field as [|c f IH]; simpl in *; [done|].
  apply andb_true_iff in Hf as [-> Hf]. by rewrite IH.
Qed.

Lemma NoDup_place_single field v : NoDup (place_single field v).
Proof. unfold place_single. repeat case_match; try apply NoDup_nil_2. apply NoDup_singleton. Qed.

Lemma field_places inputs : Forall (fun e => NoDup e.2 /\ forall x, x ∈ e.2 -> field_of x = e.1) (planned_fields inputs).
Proof.
  unfold planned_fields. repeat apply Forall_cons_2; try apply Forall_nil_2; split; simpl;
    first [by apply NoDup_place_all | by apply NoDup_place_text | by apply NoDup_place_single | by apply NoDup_place_loops
          | intros x Hx; first [by eapply place_all_field in Hx | by eapply place_text_field in Hx
                               | by eapply place_single_field in Hx | by eapply place_loops_field in Hx]].
Qed.

Lemma NoDup_fields (fields : list (string * list string)) : NoDup (map fst fields) ->
  Forall (fun e => NoDup e.2 /\ forall x, x ∈ e.2 -> field_of x = e.1) fields -> NoDup (concat (map snd fields)).
Proof.
  induction fields as [|[f places] fields IH]; simpl; [intros; apply NoDup_nil_2|].
  intros [Hf Hn]%NoDup_cons [[Hp Hof] Hall]%Forall_cons. apply NoDup_app. split_and!; [done| |by apply IH].
  intros x Hx Hy. apply Hof in Hx. simpl in Hx. subst f. apply Hf. apply list_elem_of_In, in_concat in Hy as (l & Hl & Hy).
  apply in_map_iff in Hl as ([g l'] & <- & Hl). apply list_elem_of_In in Hl, Hy. rewrite Forall_forall in Hall.
  destruct (Hall _ Hl) as [_ Hg]. rewrite (Hg x Hy). apply list_elem_of_fmap. by exists (g, l').
Qed.

(** *** Kinds *)

(** A planned clause is sent with the kind it was planned with, or is a loop clause of a
    behavior, planned as an annotation and sent as a clause of the function. *)
Definition loop_of_behavior (e : InjectionPlanEntry) : Prop :=
  pe_kind e = "annot" /\ sent_kind e = "spec" /\ exists name rest, pe_acsl_text e = "for " +s+ name +s+ ": loop " +s+ rest.
Definition sent_as_planned (e : InjectionPlanEntry) : Prop := sent_kind e = pe_kind e \/ loop_of_behavior e.

Definition keeps (step : Planning -> Planning) : Prop := forall p, Forall sent_as_planned p.1 -> Forall sent_as_planned (step p).1.

Lemma keeps_none : keeps (fun p => p).
Proof. by intros p. Qed.

Lemma keeps_push e : sent_as_planned e -> keeps (fun p => plan_push p e).
Proof. intros He p Hp. apply Forall_app. split; [done|by apply Forall_singleton]. Qed.

Lemma keeps_fail f : keeps (fun p => plan_fail p f).
Proof. by intros p. Qed.

Lemma keeps_entries step entries : (forall i v, keeps (step i v)) -> forall i, keeps (plan_entries step i entries).
Proof. intros H. induction entries as [|v entries IH]; intros i p Hp; [done|]. by apply IH, H. Qed.

Lemma keeps_field step entries : (forall i v, keeps (step i v)) -> keeps (plan_field step entries).
Proof. intros H. destruct entries; [by apply keeps_entries|apply keeps_none]. Qed.

Lemma sent_spec text path stmt purpose label : acsl_kind_to_ast_kind text = "spec" ->
  sent_as_planned (mkPlanEntry text "spec" path stmt purpose label).
Proof. intros H. by left. Qed.

Lemma sent_spec_word w rest path stmt purpose label : spec_word w ->
  sent_as_planned (mkPlanEntry (w +s+ rest) "spec" path stmt purpose label).
Proof. intros H. by apply sent_spec, spec_word_kind. Qed.

Lemma keeps_wrapped wrapped path acsl purpose label :
  (forall text, wrapped = inl text -> exists w rest, spec_word w /\ text = w +s+ rest) -> keeps (plan_wrapped wrapped path acsl purpose label).
Proof.
  intros H. destruct wrapped as [text|msg]; [|apply keeps_fail]. destruct (H text eq_refl) as (w & rest & Hw & ->).
  apply (keeps_push (mkPlanEntry _ _ _ _ _ _)). by apply sent_spec_word.
Qed.

Lemma keeps_clause keyword body behavior behaviors path acsl purpose label : keyword ∈ FUNSPEC_KEYWORDS ->
  keeps (plan_wrapped (wrap_funspec_clause keyword body behavior behaviors path) path acsl purpose label).
Proof. intros Hk. apply keeps_wrapped. intros text. by apply wrap_funspec_word. Qed.

Lemma spec_word_plain w : spec_word w -> sall graphic w = true /\ w <> "" /\ free_of ";" w = true.
Proof.
  unfold spec_word. intros Hw. apply list_elem_of_In in Hw. simpl in Hw.
  repeat (destruct Hw as [<-|Hw]; [done|]). done.
Qed.

Lemma keeps_assign behaviors i v : keeps (plan_assign behaviors i v).
Proof.
  unfold plan_assign. destruct (blank_text _); [apply keeps_none|]. apply keeps_wrapped. intros text.
  destruct (wrap_funspec_clause _ _ _ _ _) as [t|] eqn:Hw; [|done]. intros [= <-].
  apply wrap_funspec_word in Hw as (w & rest & Hw & ->); [|by decide_closed].
  destruct (spec_word_plain w Hw) as (Hg & Hne & Hs). destruct (normalize_acsl_word w rest Hg Hne Hs) as [r ->]. by exists w, r.
Qed.

Lemma keeps_assert i v : keeps (plan_assert i v).
Proof.
  unfold plan_assert. destruct (blank_text _); [apply keeps_none|]. destruct (_ ≫= as_i64); [|apply keeps_fail].
  apply (keeps_push (mkPlanEntry _ _ _ _ _ _)). left.
  assert (Hr : exists r, wrap_assert_clause (str_or "acsl" "" v) = "assert" +s+ r) 
    by by apply (normalize_acsl_word "assert" (String " " (trim (strip_leading_keyword (str_or "acsl" "" v) "assert")))).
  destruct Hr as [r Hr]. unfold sent_kind. cbn [pe_kind pe_acsl_text String.eqb]. rewrite Hr. apply assert_kind.
Qed.

Lemma keeps_single keyword path purpose value behaviors : keyword ∈ FUNSPEC_KEYWORDS ->
  keeps (push_single_funspec_clause keyword path purpose value behaviors).
Proof.
  intros Hk. unfold push_single_funspec_clause. destruct value as [v|]; [|apply keeps_none].
  destruct (blank_text _); [apply keeps_none|]. apply (keeps_push (mkPlanEntry _ _ _ _ _ _)).
  apply sent_spec_word. apply elem_of_app. by left.
Qed.

Lemma keeps_group keyword path behaviors i v : spec_word keyword -> keeps (behavior_group keyword path behaviors i v).
Proof.
  intros Hk. unfold behavior_group. destruct (find_first _ _); [apply keeps_fail|].
  apply (keeps_push (mkPlanEntry _ _ _ _ _ _)). destruct (collect_some _ _); by apply sent_spec_word.
Qed.

Lemma loop_outcome_sent keyword body behavior behaviors cpath path stmt purpose label e : keyword ∈ LOOP_KEYWORDS ->
  loop_outcome (wrap_loop_clause keyword body behavior behaviors cpath) path stmt purpose label = inl e -> sent_as_planned e.
Proof.
  intros Hk. destruct (wrap_loop_clause _ _ _ _ _) as [text|] eqn:Hw; [|done]. intros [= <-].
  apply loop_clause_kind in Hw; [|done]. destruct behavior as [name|]; [right|by left].
  destruct Hw as [Hs [rest ->]]. split_and!; [done|done|]. exists name.
  apply list_elem_of_In in Hk. simpl in Hk. destruct Hk as [<-|[<-|[<-|[]]]]; by eexists.
Qed.

Lemma loops_sent annot i behaviors e : inl e ∈ loop_annots_to_acsl annot i behaviors -> sent_as_planned e.
Proof.
  unfold loop_annots_to_acsl. rewrite !elem_of_app. intros [H|[H|H]].
  - apply elem_of_flat_mapi in H as (j & v & _ & H%list_elem_of_singleton). symmetry in H.
    eapply (loop_outcome_sent "loop invariant"); [by decide_closed|exact H].
  - apply elem_of_flat_mapi in H as (j & v & _ & H). unfold loop_assign in H. destruct (blank_text _); [by apply elem_of_nil in H|].
    apply list_elem_of_singleton in H. symmetry in H. eapply (loop_outcome_sent "loop assigns"); [by decide_closed|exact H].
  - unfold loop_variant in H. destruct (opt_filter _ _); [|by apply elem_of_nil in H].
    apply list_elem_of_singleton in H. symmetry in H. eapply (loop_outcome_sent "loop variant"); [by decide_closed|exact H].
Qed.

Lemma keeps_loops loops behaviors : keeps (plan_loops loops behaviors).
Proof.
  unfold plan_loops. assert (Hall : forall e, inl e ∈ flat_mapi (fun i v => loop_annots_to_acsl v i behaviors) 0 (unwrap_or loops []) -> sent_as_planned e).
  { intros e He. apply elem_of_flat_mapi in He as (j & v & _ & He). by eapply loops_sent. }
  intros p. revert p Hall. induction (flat_mapi _ _ _) as [|o outcomes IH]; intros p Hall Hp; [done|]. apply IH.
  - intros e He. apply Hall. by right.
  - destruct o as [e|[path msg]]; [apply keeps_push; [apply Hall; by left|done]|done].
Qed.

Lemma keeps_global i v : keeps (plan_global i v).
Proof. unfold plan_global. destruct (blank_text _); [apply keeps_none|]. apply (keeps_push (mkPlanEntry _ _ _ _ _ _)). by left. Qed.

Lemma plan_keeps inputs behaviors : Forall sent_as_planned (build_injection_plan inputs behaviors).1.
Proof.
  assert (Hs : Forall keeps (planning_steps inputs behaviors)).
  { repeat apply Forall_cons_2; try apply Forall_nil_2; try apply keeps_loops;
      try (apply keeps_single; by decide_closed); apply keeps_field; intros i v;
      first [apply keeps_global | apply keeps_assign | apply keeps_assert | apply keeps_clause; by decide_closed
            | apply keeps_group; by decide_closed]. }
  change (build_injection_plan inputs behaviors) with
    (fold_left (fun p (step : Planning -> Planning) => step p) (planning_steps inputs behaviors) ([], [])).
  assert (Hp : Forall sent_as_planned (([], []) : Planning).1) by apply Forall_nil_2.
  revert Hp. generalize (([], []) : Planning) as p. induction Hs as [|step steps Hstep _ IH]; intros p Hp; [done|].
  apply IH. by apply Hstep.
Qed.

(** ** Theorems *)

(** Planning loses no clause and names none twice.  Every clause of the call that is
    not blank becomes exactly one entry of the plan or exactly one failure, under the place
    it came from; both lists keep the order of the fields and of the caller's arrays; and
    no two clauses share a place. *)
Theorem plan_accounts inputs behaviors (plan := build_injection_plan inputs behaviors) :
  map pe_derived_from plan.1 ++ map if_path plan.2 ≡ₚ planned_places inputs
  /\ sublist (map pe_derived_from plan.1) (planned_places inputs)
  /\ sublist (map if_path plan.2) (planned_places inputs)
  /\ NoDup (planned_places inputs).
Proof.
  destruct (plan_adds inputs behaviors) as (H1 & H2 & H3). split_and!; [done..|].
  apply NoDup_fields, field_places. by decide_closed.
Qed.

(** What a planned clause is sent as.  Every entry is sent with the kind it was planned
    with, but the clauses of a loop that are for a behavior: these are planned as
    annotations of their statement and sent as clauses of the function's contract, and
    every such clause of a declared behavior is. *)
Theorem sent_kinds inputs behaviors :
  (forall e, e ∈ (build_injection_plan inputs behaviors).1 -> sent_kind e = pe_kind e \/ loop_of_behavior e)
  /\ (forall annot i j inv name, unwrap_or (get_arr "invariants" annot) [] !! j = Some inv -> get_str "behavior" inv = Some name ->
        behaviors !! name <> None ->
        exists e, inl e ∈ loop_annots_to_acsl annot i behaviors /\ pe_derived_from e = loop_path i (indexed "invariants" j)
          /\ loop_of_behavior e).
Proof.
  split.
  - intros e He. pose proof (plan_keeps inputs behaviors) as H. rewrite Forall_forall in H. by apply H.
  - intros annot i j inv name Hj Hname Hb. unfold loop_annots_to_acsl, loop_invariant.
    assert (Hin : forall (f : nat -> json -> list LoopOutcome) l k, l !! j = Some inv -> forall o, o ∈ f (k + j) inv -> o ∈ flat_mapi f k l).
    { clear. intros f l. revert j. induction l as [|a l IH]; intros j k Hj o Ho; [done|]. simpl. apply elem_of_app.
      destruct j as [|j]; [left; injection Hj as ->; by rewrite Nat.add_0_r in Ho|right].
      apply (IH j (S k) Hj). by rewrite Nat.add_succ_r in Ho. }
    set (stmt_id := annot .? "stmt_id" ≫= as_i64). set (label := str_or "loop_label" "" annot).
    destruct (wrap_loop_clause "loop invariant" (str_or "acsl" "" inv) (get_str "behavior" inv) behaviors (loop_path i (indexed "invariants" j)))
      as [text|] eqn:Hw.
    2:{ unfold wrap_loop_clause in Hw. rewrite Hname in Hw. unfold lookup_behavior_assumes in Hw. by destruct (behaviors !! name). }
    set (e := mkPlanEntry text "annot" (loop_path i (indexed "invariants" j)) stmt_id
                (label +s+ " invariant " +s+ dec j) (Some (str_or "user_label" ("Inv" +s+ dec j) inv))).
    exists e. split_and!; [|done|].
    + apply elem_of_app. left. apply (Hin _ _ 0 Hj). simpl. rewrite Hw. by apply list_elem_of_singleton.
    + rewrite Hname in Hw. apply loop_clause_kind in Hw as [Hs [rest Ht]]; [|by decide_closed].
      split_and!; [done|done|]. exists name. eexists. exact Ht.
Qed.

(** *** Execution *)

Lemma entry_outcome_place entry answer :
  match entry_outcome entry answer with
  | inl injected => inj_entry injected = entry
  | inr failure => if_path failure = pe_derived_from entry
  end.
Proof. unfold entry_outcome. destruct answer as [[result hash]|e]; [|done]. by destruct (parse_plugin_success result). Qed.

Lemma generated_not_existing kind hex : generate_hash_label kind hex <> "existing".
Proof.
  unfold generate_hash_label. simpl.
  repeat (match goal with |- context [then_some ?b _] => destruct b end; simpl; [discriminate|]). discriminate.
Qed.

Lemma sent_label w resolved target entry result hash w' :
  send_entry w resolved target entry = (inl (result, hash), w') -> hash <> "existing".
Proof.
  unfold send_entry. destruct (pe_kind entry =s "global").
  - destruct (exec_request _ _ _ _) as [[r|e] w1]; intros H; by simplify_eq.
  - unfold add_annotation_impl. destruct (resolve target) as [r|e]; [|intros H; by simplify_eq].
    destruct (fresh_hex w) as [hex w1], (exec_request _ _ _ _) as [[a|e] w2]; intros H; simplify_eq.
    apply generated_not_existing.
Qed.

(** Execution with what it starts from factored out. *)
Lemma execute_from w resolved target existing plan : forall successful failures,
  let run := execute_injection_plan w resolved target existing plan [] [] in
  execute_injection_plan w resolved target existing plan successful failures
  = (successful ++ run.1.1, failures ++ run.1.2, run.2).
Proof.
  revert w. induction plan as [|entry plan IH]; intros w successful failures; simpl; [by rewrite !app_nil_r|].
  destruct (already_there existing entry); [rewrite IH, (IH w [_] []); simpl; by rewrite <- app_assoc|].
  destruct (send_entry w resolved target entry) as [answer w1]. destruct (entry_outcome entry answer) as [i|f].
  - rewrite IH, (IH w1 [i] []). simpl. by rewrite <- app_assoc.
  - rewrite IH, (IH w1 [] [f]). simpl. by rewrite <- app_assoc.
Qed.

Lemma execute_cons w resolved target existing entry plan :
  execute_injection_plan w resolved target existing (entry :: plan) [] []
  = if already_there existing entry then
      let run := execute_injection_plan w resolved target existing plan [] [] in
      (mkInjected "existing" entry :: run.1.1, run.1.2, run.2)
    else
      let '(answer, w) := send_entry w resolved target entry in
      let run := execute_injection_plan w resolved target existing plan [] [] in
      match entry_outcome entry answer with
      | inl injected => (injected :: run.1.1, run.1.2, run.2)
      | inr failure => (run.1.1, failure :: run.1.2, run.2)
      end.
Proof.
  simpl. destruct (already_there existing entry); [by rewrite execute_from|].
  destruct (send_entry w resolved target entry) as [answer w1]. by destruct (entry_outcome entry answer); rewrite execute_from.
Qed.

Definition sent_entries (existing : gset string) (plan : list InjectionPlanEntry) : list InjectionPlanEntry :=
  bfilter (fun entry => negb (already_there existing entry)) plan.

Lemma execute_sent w resolved target existing plan :
  let run := execute_injection_plan w resolved target existing plan [] [] in
  let sent := execute_injection_plan w resolved target existing (sent_entries existing plan) [] [] in
  run.1.2 = sent.1.2 /\ run.2 = sent.2 /\ bfilter (fun a => negb (inj_hash_label a =s "existing")) run.1.1 = sent.1.1
  /\ bfilter (fun a => inj_hash_label a =s "existing") run.1.1
     = map (mkInjected "existing") (bfilter (already_there existing) plan).
Proof.
  revert w. induction plan as [|entry plan IH]; intros w; [done|]. unfold sent_entries. cbn zeta. cbn [bfilter].
  fold (sent_entries existing plan). destruct (already_there existing entry) eqn:He; cbn [negb].
  - rewrite execute_cons, He. destruct (IH w) as (H1 & H2 & H3 & H4). simpl. split_and!; congruence.
  - rewrite !execute_cons, He. destruct (send_entry w resolved target entry) as [answer w1] eqn:Hs.
    destruct (IH w1) as (H1 & H2 & H3 & H4).
    destruct (entry_outcome entry answer) as [i|f] eqn:Ho; simpl; [|split_and!; congruence].
    assert (Hne : inj_hash_label i =s "existing" = false).
    { apply String.eqb_neq. destruct answer as [[result hash]|e]; [|discriminate]. apply sent_label in Hs.
      simpl in Ho. destruct (parse_plugin_success result); [|discriminate]. by injection Ho as <-. }
    rewrite Hne. simpl. split_and!; congruence.
Qed.

Lemma execute_accounts w resolved target existing plan :
  let run := execute_injection_plan w resolved target existing plan [] [] in
  accounts (map inj_entry run.1.1, run.1.2) (map pe_derived_from plan).
Proof.
  revert w. induction plan as [|entry plan IH]; intros w; [apply accounts_nil|]. rewrite execute_cons.
  cbn [map]. destruct (already_there existing entry); [by apply accounts_cons_entry|].
  destruct (send_entry w resolved target entry) as [answer w1]. pose proof (entry_outcome_place entry answer) as Hp.
  destruct (entry_outcome entry answer) as [i|f]; simpl; rewrite <- Hp; [by apply accounts_cons_entry|by apply accounts_cons_failure].
Qed.

(** Execution accounts for the plan.  The failures found while planning come first; each
    entry of the plan is then reported exactly once, in the plan's order, as injected or
    as failed; an entry whose text is already there is reported under the label
    "existing" and nothing is sent for it: the world, the other answers and the failures are
    those of executing the rest. *)
Theorem execution_accounts w resolved target existing plan early
    (run := execute_injection_plan w resolved target existing plan [] early)
    (sent := execute_injection_plan w resolved target existing (sent_entries existing plan) [] early) :
  (exists failures, run.1.2 = early ++ failures
     /\ map pe_derived_from (map inj_entry run.1.1) ++ map if_path failures ≡ₚ map pe_derived_from plan
     /\ sublist (map if_path failures) (map pe_derived_from plan))
  /\ sublist (map pe_derived_from (map inj_entry run.1.1)) (map pe_derived_from plan)
  /\ bfilter (fun a => inj_hash_label a =s "existing") run.1.1 = map (mkInjected "existing") (bfilter (already_there existing) plan)
  /\ bfilter (fun a => negb (inj_hash_label a =s "existing")) run.1.1 = sent.1.1
  /\ run.1.2 = sent.1.2 /\ run.2 = sent.2.
Proof.
  unfold run, sent. rewrite !(execute_from _ _ _ _ _ [] early). simpl.
  destruct (execute_sent w resolved target existing plan) as (H1 & H2 & H3 & H4).
  destruct (execute_accounts w resolved target existing plan) as (A1 & A2 & A3).
  split_and!; [by eexists|done|done|done|by rewrite H1|done].
Qed.
(** *** Places *)

Lemma length_remapped w target resolved lists lists' f : remapped_lists w target resolved lists = inl lists' ->
  length (at_field lists' f) = length (at_field lists f).
Proof.
  unfold remapped_lists. destruct (contains ":" target); [by intros [= ->]|].
  destruct (remap_loop_sids_to_main w resolved (lists !! "proposed_loop_annots")) as [[loops|]|e] eqn:Hr; intros [= <-]; [|done].
  unfold at_field. destruct (decide (f = "proposed_loop_annots")) as [->|Hne]; [|by rewrite lookup_insert_ne].
  rewrite lookup_insert_eq. simpl. revert Hr. unfold remap_loop_sids_to_main.
  destruct (lists !! "proposed_loop_annots") as [[|l ls]|]; [by intros [= <-]| |done].
  destruct (get_request _ _ _ _) as [ast|e]; [|done]. unfold remap_loop_sids.
  destruct (forallb _ _); [by intros [= <-]|]. destruct (negb _) eqn:Hl; [done|]. intros [= <-]. bool_simpl.
  simpl unwrap_or. rewrite length_zip_with. simpl in *. lia.
Qed.

(** The place of the [j]-th clause of a field, or one below it, is put back as the place of
    the [j]-th entry of the caller's array that is a clause of that field, or as the same
    one below that; a single clause's is put back as its entry's. *)
Inductive callers_place (entries : list json) (origin : gmap string nat) : string -> Prop :=
| callers_in_list k entry f rest : entries !! k = Some entry -> kind_slot entry = Some (SList f) ->
    rest = "" \/ (exists below, rest = "." +s+ below) ->
    relabel_path (indexed f (rank f (take k entries)) +s+ rest) origin = Some (annotation_path k +s+ rest, k) ->
    callers_place entries origin (indexed f (rank f (take k entries)) +s+ rest)
| callers_alone k entry f : entries !! k = Some entry -> kind_slot entry = Some (SSingle f) ->
    relabel_path f origin = Some (annotation_path k, k) -> callers_place entries origin f.

Section places.
Context {params params' : InjectAllAnnotationsParams} {entries : list json} {ghosts : list (nat * GhostKind * json)}
  {origin : gmap string nat} {lists : gmap string (list json)}.
Hypothesis Hentries : ip_annotations params = Some entries.
Hypothesis Hlists : ip_lists params = ∅.
Hypothesis Hsingles : ip_singles params = ∅.
Hypothesis Hexpand : expand_tagged_annotations debug_str params = inl (params', ghosts, origin).
Hypothesis Hlength : forall f, length (at_field lists f) = length (at_field (ip_lists params') f).

Lemma expanded_call : expanded ∅ ∅ entries (length entries) (mkExpansion (ip_lists params') (ip_singles params') ghosts origin).
Proof. rewrite <- Hlists, <- Hsingles. by eapply expansion_inv. Qed.

Lemma ranked_call : ranked ∅ entries (length entries) (mkExpansion (ip_lists params') (ip_singles params') ghosts origin).
Proof. rewrite <- Hlists. by eapply expansion_ranked. Qed.

Lemma origin_list f j v : at_field lists f !! j = Some v ->
  exists k w, fills entries k (SList f) w /\ origin !! indexed f j = Some k.
Proof.
  intros Hv. apply lookup_lt_Some in Hv. rewrite Hlength in Hv.
  apply lookup_lt_is_Some_2 in Hv as [w Hw].
  destruct (ed_list _ _ _ _ _ expanded_call f j w Hw (Nat.le_0_l _)) as (k & _ & Hfl & Ho). by exists k, w.
Qed.

Lemma callers_list f j v rest : at_field lists f !! j = Some v -> rest = "" \/ (exists r, rest = "." +s+ r) ->
  callers_place entries origin (indexed f j +s+ rest).
Proof.
  intros Hv Hrest. destruct (origin_list f j v Hv) as (k & w & Hfl & Ho). pose proof (fills_free _ _ _ _ Hfl) as [Hf _].
  pose proof (rk_origin _ _ _ _ ranked_call f j k Hf Ho) as Hj. unfold at_field in Hj. rewrite lookup_empty in Hj. cbn in Hj. subst j.
  destruct (fills_slot _ _ _ _ Hfl) as (entry & He & Hs). eapply callers_in_list; [done..|]. destruct Hrest as [->|[r ->]].
  - rewrite !app_str_nil_r. by apply relabel_here.
  - apply relabel_below; [|done]. intros p i. apply (origin_free _ _ _ _ _ _ _ expanded_call).
Qed.

Lemma callers_field (place : nat -> json -> list string) f p :
  (forall i v x, x ∈ place i v -> x = indexed f i \/ exists r, x = indexed f i +s+ ("." +s+ r)) ->
  p ∈ flat_mapi place 0 (at_field lists f) -> callers_place entries origin p.
Proof.
  intros Hplace Hp. apply elem_of_flat_mapi in Hp as (j & v & Hv & Hp). simpl in Hp. apply Hplace in Hp as [->|[r ->]].
  - rewrite <- (app_str_nil_r (indexed f j)). eapply callers_list; [done|by left].
  - eapply callers_list; [done|right; by exists r].
Qed.

Lemma callers_all f p : p ∈ flat_mapi (place_all f) 0 (at_field lists f) -> callers_place entries origin p.
Proof. apply callers_field. intros i v x ->%list_elem_of_singleton. by left. Qed.

Lemma callers_text text f p : p ∈ flat_mapi (place_text text f) 0 (at_field lists f) -> callers_place entries origin p.
Proof.
  apply callers_field. intros i v x. unfold place_text. case_match; [by intros ?%elem_of_nil|].
  intros ->%list_elem_of_singleton. by left.
Qed.

Lemma callers_loops p : p ∈ flat_mapi place_loop 0 (at_field lists "proposed_loop_annots") -> callers_place entries origin p.
Proof. apply callers_field. intros i v x [r ->]%elem_of_place_loop. right. by exists r. Qed.

Lemma callers_single f p : p ∈ place_single f (ip_singles params' !! f) -> callers_place entries origin p.
Proof.
  unfold place_single. destruct (ip_singles params' !! f) as [v|] eqn:Hv; [|by intros ?%elem_of_nil].
  destruct (blank_text _); [by intros ?%elem_of_nil|]. intros ->%list_elem_of_singleton.
  destruct (ed_single _ _ _ _ _ expanded_call f v Hv) as [?|(k & _ & Hfl & Ho)]; [done|].
  destruct (fills_slot _ _ _ _ Hfl) as (entry & He & Hs). eapply callers_alone; [done..|by apply relabel_here].
Qed.

Lemma callers_planned p : p ∈ planned_places (mkInputs lists (ip_singles params')) -> callers_place entries origin p.
Proof.
  unfold planned_places, planned_fields. simpl. rewrite !elem_of_app.
  repeat (intros [H|H]; [revert H; first [apply callers_all | apply callers_text | apply callers_single]|revert H]).
  intros [H|H%elem_of_nil]; [by apply callers_loops|done].
Qed.
End places.

(** C22: every place a planned clause or an early failure names is the caller's.  For a call
    made of tagged annotations only, after the ids of its loops were mapped, the place of
    each entry of the plan and of each failure found while planning is put back exactly: the
    [j]-th place of a field, with whatever follows it after a dot, as the entry of the
    caller's array that is the [j]-th of the field's kind there, with the same following,
    and the place of a single clause as the entry of its kind. *)
Theorem places_are_the_callers w target resolved params entries params' ghosts origin lists :
  ip_annotations params = Some entries -> ip_lists params = ∅ -> ip_singles params = ∅ ->
  expand_tagged_annotations debug_str params = inl (params', ghosts, origin) ->
  remapped_lists w target resolved (ip_lists params') = inl lists ->
  let plan := build_injection_plan (mkInputs lists (ip_singles params')) (behavior_assumes_table (lists !! "proposed_behaviors")) in
  forall p, p ∈ map pe_derived_from plan.1 ++ map if_path plan.2 -> callers_place entries origin p.
Proof.
  intros He Hl Hs Hx Hr plan p Hp. destruct (plan_adds (mkInputs lists (ip_singles params')) (behavior_assumes_table (lists !! "proposed_behaviors"))) as (Hperm & _).
  eapply callers_planned; [exact He|exact Hl|exact Hs|exact Hx| |rewrite <- Hperm; exact Hp].
  intros f. by eapply length_remapped.
Qed.

(** *** The call *)

Lemma exec_ghost_dry w request : (exec_ghost w request true).2 = w /\ exists result, (exec_ghost w request true).1 = inl result.
Proof. split; [done|by eexists]. Qed.

Lemma ghosts_dry w target ghosts : (apply_ghost_entries w target true ghosts).2 = w.
Proof.
  revert w. induction ghosts as [|[[i kind] entry] ghosts IH]; intros w; [done|]. simpl. unfold ghost_outcome.
  destruct (ghost_request i kind target _ entry) as [request|f]; simpl;
    specialize (IH w); destruct (apply_ghost_entries w target true ghosts) as [[r fl] w']; done.
Qed.

Lemma ghost_request_place i kind target sandbox entry f : ghost_request i kind target sandbox entry = inr f -> if_path f = annotation_path i.
Proof.
  unfold ghost_request. destruct (ghost_fields kind entry); [|by intros [= <-]]. destruct (of_project kind).
  - destruct (resolve_optional_sandbox sandbox); by intros [= <-].
  - destruct (resolve target); by intros [= <-].
Qed.

Lemma ghost_outcome_place w target dry i kind entry f w' :
  ghost_outcome w target dry (i, kind, entry) = (inr f, w') -> if_path f = annotation_path i.
Proof.
  unfold ghost_outcome. destruct (ghost_request i kind target _ entry) as [request|g] eqn:Hr.
  - destruct (exec_ghost w request dry) as [[r|e] w1]; by intros [= <- <-].
  - intros [= <- <-]. by eapply ghost_request_place.
Qed.

Lemma ghosts_accounted w target dry ghosts :
  let run := apply_ghost_entries w target dry ghosts in
  count_if (fun g => ghost_succeeded (gr_result g)) run.1.1 + length run.1.2 = length ghosts
  /\ sublist (map if_path run.1.2) (map (fun g => annotation_path g.1.1) ghosts)
  /\ sublist (map (fun g => (gr_index g, gr_kind g)) run.1.1) (map (fun g => (g.1.1, ghost_name g.1.2)) ghosts).
Proof.
  revert w. induction ghosts as [|[[i kind] entry] ghosts IH]; intros w; [done|]. cbn [apply_ghost_entries].
  assert (Hf : forall f w1, ghost_outcome w target dry (i, kind, entry) = (inr f, w1) -> if_path f = annotation_path i).
  { intros f w1. apply ghost_outcome_place. }
  destruct (ghost_outcome w target dry (i, kind, entry)) as [[result|f] w1] eqn:Ho; specialize (IH w1);
    destruct (apply_ghost_entries w1 target dry ghosts) as [[r fl] w2]; simpl in *; destruct IH as (H1 & H2 & H3).
  - unfold refusal, count_if in *. simpl. destruct (ghost_succeeded result); simpl.
    + split_and!; [lia|by constructor|by constructor].
    + split_and!; [lia|by constructor|by constructor].
  - rewrite (Hf f w1 eq_refl). split_and!; [lia|by constructor|by constructor].
Qed.

(** The call carries a requires or an ensures, as a field of its own or as a tagged entry. *)
Definition asks_contract (params : InjectAllAnnotationsParams) : Prop :=
  carries_contract params = true
  \/ exists entries entry kind, ip_annotations params = Some entries /\ entry ∈ entries
       /\ entry_kind entry = Some kind /\ (kind = "requires" \/ kind = "ensures").

Lemma carries_at params : carries_contract params = true <->
  at_field (ip_lists params) "proposed_requires" <> [] \/ at_field (ip_lists params) "proposed_ensures" <> [].
Proof.
  unfold carries_contract, at_field. simpl. rewrite orb_false_r, orb_true_iff.
  assert (Hf : forall l : option (list json), is_some_and (fun l => negb (bool_decide (l = []))) l = true <-> unwrap_or l [] <> []).
  { intros [[|v l]|]; simpl; by split. }
  by rewrite !Hf.
Qed.

Lemma expansion_carries params params' ghosts origin : asks_contract params ->
  expand_tagged_annotations debug_str params = inl (params', ghosts, origin) -> carries_contract params' = true.
Proof.
  destruct (ip_annotations params) as [entries|] eqn:He.
  2:{ unfold expand_tagged_annotations. rewrite He. intros [Hc|(es & e & kind & Hes & _)] Hx; simplify_eq; done. }
  intros Hask Hx. apply (expansion_inv _ _ _ _ _ _ He) in Hx. apply carries_at. destruct Hask as [Hc|(es & e & kind & Hes & Hin & Hkind & Hk)].
  - apply carries_at in Hc. assert (Hpre : forall f, at_field (ip_lists params) f <> [] -> at_field (ip_lists params') f <> []).
    { intros f Hne Hnil. pose proof (ed_before _ _ _ _ _ Hx f) as Hp. simpl in Hp. rewrite Hnil in Hp. by apply prefix_nil_inv in Hp. }
    destruct Hc as [Hc|Hc]; [left|right]; by apply Hpre.
  - rewrite He in Hes. injection Hes as <-. apply list_elem_of_lookup in Hin as [k Hin].
    destruct Hk as [->| ->]; [left|right]; by eapply (expanded_placed _ _ _ _ _ _ _ _ _ Hx Hin Hkind eq_refl).
Qed.

(** C21: the main project's contracts are out of reach by name.  A call on a target that is no
    sandbox and that carries a requires or an ensures, in a field of its own or as a tagged
    entry, is an error and leaves the world as it was: neither its ghost entries nor its
    other clauses are sent; when its array can be expanded, the error is the refusal. *)
Theorem contract_gate w params target : call_target params = inl target -> contains ":" target = false -> asks_contract params ->
  exists error, inject_all_annotations w params = (inr error, w)
    /\ (forall expansion, expand_tagged_annotations debug_str params = inl expansion -> error = CONTRACT_REFUSED).
Proof.
  intros Ht Hm Hask. unfold inject_all_annotations. rewrite Ht, Hm.
  destruct (expand_tagged_annotations debug_str params) as [[[params' ghosts] origin]|e] eqn:Hx; [|by exists e].
  rewrite (expansion_carries _ _ _ _ Hask Hx). by exists CONTRACT_REFUSED.
Qed.

Lemma expand_dry params params' ghosts origin : expand_tagged_annotations debug_str params = inl (params', ghosts, origin) ->
  ip_dry_run params' = ip_dry_run params.
Proof.
  unfold expand_tagged_annotations. destruct (ip_annotations params); [|by intros [= <- _ _]].
  destruct (expand_entries _ _ _ _); [by intros [= <- _ _]|done].
Qed.

(** A dry run changes nothing: whatever the call carries and whatever the plug-in
    answers, the world after it is the world before it. *)
Theorem dry_run_pure w params : ip_dry_run params = true -> (inject_all_annotations w params).2 = w.
Proof.
  intros Hdry. unfold inject_all_annotations. destruct (call_target params) as [target|e]; [|done].
  destruct (expand_tagged_annotations debug_str params) as [[[params' ghosts] origin]|e] eqn:Hx; [|done].
  destruct (_ && _); [done|]. rewrite (expand_dry _ _ _ _ Hx), Hdry.
  pose proof (ghosts_dry w target ghosts) as Hg. destruct (apply_ghost_entries w target true ghosts) as [[r f] w1]. simpl in Hg. subst w1.
  destruct f; [|done]. unfold inject_all_impl. rewrite (expand_dry _ _ _ _ Hx), Hdry.
  destruct (resolve target) as [resolved|e]; [|done]. destruct (resolve_equivalence_sandbox _ resolved) as [sandbox|e]; [|done].
  destruct (remapped_lists _ _ _ _) as [lists|e]; [|done]. destruct (build_injection_plan _ _) as [plan early].
  by destruct (dry_run_validation _ _ _ _ _ _).
Qed.

(** Ghost entries go first and clauses only after all of them.  Of the ghost entries each
    is one success or one failure, in the caller's order; when any failed, no clause is
    planned or sent: the world is the one the ghost entries left and the answer says what
    failed; otherwise every entry succeeded and the clauses run in that world, with all
    results. *)
Theorem ghosts_first w params target params' ghosts origin
    (run := apply_ghost_entries w target (ip_dry_run params') ghosts) :
  call_target params = inl target -> expand_tagged_annotations debug_str params = inl (params', ghosts, origin) ->
  negb (contains ":" target) && carries_contract params' = false ->
  count_if (fun g => ghost_succeeded (gr_result g)) run.1.1 + length run.1.2 = length ghosts
  /\ sublist (map if_path run.1.2) (map (fun g => annotation_path g.1.1) ghosts)
  /\ (run.1.2 <> [] ->
       inject_all_annotations w params = (inl (ghost_only_response (ip_dry_run params') (length ghosts) run.1.1 run.1.2), run.2))
  /\ (run.1.2 = [] -> map gr_index run.1.1 = map (fun g => g.1.1) ghosts
       /\ forallb (fun g => ghost_succeeded (gr_result g)) run.1.1 = true
       /\ (inject_all_annotations w params).2 = (inject_all_impl run.2 target params' origin
              (if negb (ip_dry_run params) && negb (contains ":" target) then ip_sandbox_name params else None) run.1.1).2).
Proof.
  intros Ht Hx Hgate. destruct (ghosts_accounted w target (ip_dry_run params') ghosts) as (H1 & H2 & H3). fold run in H1, H2, H3.
  split_and!; [done|done| |].
  - intros Hne. unfold inject_all_annotations. rewrite Ht, Hx, Hgate. fold run. destruct run as [[r f] w1]. by destruct f.
  - intros Hnil. rewrite Hnil in H1. simpl in H1. rewrite Nat.add_0_r in H1.
    pose proof (sublist_length _ _ H3) as Hl. rewrite !length_map in Hl.
    assert (Hind : map (fun g => (gr_index g, gr_kind g)) run.1.1 = map (fun g => (g.1.1, ghost_name g.1.2)) ghosts).
    { apply sublist_same_length; [done|]. rewrite !length_map. pose proof (length_bfilter_le (fun g => ghost_succeeded (gr_result g)) run.1.1).
      unfold count_if in H1. lia. }
    split_and!.
    + apply (f_equal (map fst)) in Hind. rewrite !map_map in Hind. exact Hind.
    + apply count_if_all. lia.
    + unfold inject_all_annotations. rewrite Ht, Hx, Hgate. fold run. destruct run as [[r f] w1]. simpl in Hnil |- *. subst f.
      by destruct (inject_all_impl _ _ _ _ _ _) as [[response|e] w2].
Qed.

(** One assigns clause on a function of the main project. *)
Definition assigns_call (function body : string) : InjectAllAnnotationsParams :=
  mkParams (Some function) None (Some [JObj [("kind", JStr "assigns"); ("acsl", JStr body)]]) ∅ ∅ false.

Definition assigns_entry (body : string) : InjectionPlanEntry :=
  mkPlanEntry (normalize_acsl (clause "assigns" body)) "spec" "proposed_assigns[0]" None "Function-level modifies clause" (Some "assigns_0").

Lemma assigns_expanded function body :
  expand_tagged_annotations debug_str (assigns_call function body)
  = inl (with_fields (assigns_call function body) (<["proposed_assigns" := [JObj [("acsl", JStr body)]]]> ∅) ∅, [],
         <["proposed_assigns[0]" := 0]> ∅).
Proof. reflexivity. Qed.

Lemma assigns_planned body : blank_text body = false ->
  let lists : gmap string (list json) := <["proposed_assigns" := [JObj [("acsl", JStr body)]]]> ∅ in
  build_injection_plan (mkInputs lists ∅) (behavior_assumes_table (lists !! "proposed_behaviors")) = ([assigns_entry body], []).
Proof.
  intros Hb lists. transitivity (plan_assigns (Some [JObj [("acsl", JStr body)]]) ∅ ([], [])); [reflexivity|].
  unfold plan_assigns, plan_field. cbn [plan_entries]. unfold plan_assign. change (str_or "acsl" "" (JObj [("acsl", JStr body)])) with body.
  rewrite Hb. reflexivity.
Qed.

Lemma assigns_sent body : sent_kind (assigns_entry body) = "spec" /\ acsl_kind_to_ast_kind (normalize_acsl (clause "assigns" body)) = "spec".
Proof.
  unfold clause. destruct (normalize_acsl_word "assigns" (String " " (clean_body "assigns" body +s+ ";"))) as [r Hr]; [done..|].
  assert (H : acsl_kind_to_ast_kind (normalize_acsl (clause "assigns" body)) = "spec").
  { unfold clause. change ("assigns" +s+ " " +s+ ?x) with ("assigns" +s+ String " " x). rewrite Hr. apply (spec_word_kind "assigns"). by decide_closed. }
  by split.
Qed.
Lemma equivalence_none w status main : equivalence_check w status None main = inl (status, None).
Proof. unfold equivalence_check. by destruct (status =s "success"). Qed.

(** The refusal goes by the kind of an entry and not by its text.  On the main project an
    assigns clause whose text is not there yet is sent as it reads, as a clause of the
    function's contract; and a text may hold more than its own clause: this one carries an
    ensures that the same call would refuse as an entry. *)
Theorem contract_in_a_clause w function body (main := mkResolved function None) :
  contains ":" function = false -> resolve function = inl main -> blank_text body = false ->
  already_there (existing_annotation_texts w main) (assigns_entry body) = false ->
  (let '(hex, w') := fresh_hex w in
   (inject_all_annotations w (assigns_call function body)).2
   = (exec_request w' None "plugins.ast-utils.execAddAnnotation"
        (JObj [("function", JStr function); ("kind", JStr "spec"); ("acsl", JStr (pe_acsl_text (assigns_entry body)));
               ("label", JStr (full_label (generate_hash_label "spec" hex) (Some "assigns_0")))])).2)
  /\ pe_acsl_text (assigns_entry "\nothing; ensures \false") = "assigns \nothing; ensures \false;"
  /\ inject_all_annotations w (mkParams (Some function) None (Some [JObj [("kind", JStr "ensures"); ("acsl", JStr "\false")]]) ∅ ∅ false)
     = (inr CONTRACT_REFUSED, w).
Proof.
  intros Hmain Hres Hb Hnew. split_and!.
  2:{ reflexivity. }
  2:{ unfold inject_all_annotations. cbn [call_target ip_function ip_sandbox_name]. rewrite Hmain. reflexivity. }
  destruct (assigns_sent body) as [_ Hkind]. destruct (fresh_hex w) as [hex w'] eqn:Hhex.
  unfold inject_all_annotations. cbn [call_target assigns_call ip_function ip_sandbox_name]. fold (assigns_call function body).
  rewrite assigns_expanded, Hmain. set (lists := <["proposed_assigns":=[JObj [("acsl", JStr body)]]]> ∅ : gmap string (list json)).
  assert (carries_contract (with_fields (assigns_call function body) lists ∅) = false) as -> by reflexivity.
  cbn [negb andb apply_ghost_entries ip_dry_run with_fields assigns_call]. unfold inject_all_impl. rewrite Hres.
  cbn [resolve_equivalence_sandbox with_fields assigns_call ip_lists ip_singles ip_dry_run].
  assert (remapped_lists w function main lists = inl lists) as -> by (unfold remapped_lists; rewrite Hmain; reflexivity).
  pose proof (assigns_planned body Hb) as Hplan. cbn zeta in Hplan. fold lists in Hplan. rewrite Hplan. clear Hplan.
  rewrite execute_cons, Hnew. unfold send_entry, add_annotation_impl.
  cbn [pe_kind assigns_entry]. rewrite Hres, Hhex. cbn [String.eqb Ascii.eqb Bool.eqb pe_acsl_text pe_user_label assigns_entry]. rewrite Hkind.
  cbn [r_function r_experiment main stmt_field pe_stmt_id app].
  destruct (exec_request w' None _ _) as [[result|e] w2];
    (destruct (entry_outcome _ _) as [i|f]; cbn [execute_injection_plan fst snd]; by rewrite equivalence_none).
Qed.
End calls.

(** *** Loops *)

Lemma set_stmt_id_spec sid m : in_i64 sid = true -> exists m', set_stmt_id sid (JObj m) = JObj m'
  /\ map_get "stmt_id" m' ≫= as_i64 = Some sid /\ forall key, key <> "stmt_id" -> map_get key m' = map_get key m.
Proof.
  intros Hs. exists (map_insert "stmt_id" (JNum (NInt sid)) m). split_and!; [done| |].
  - rewrite map_get_insert. simpl. by rewrite Hs.
  - intros key Hne. by rewrite map_get_insert_ne.
Qed.

(** How the ids of a sandbox's loops become those of the main function.  When every id is
    one of the main function's, all are kept; otherwise the counts must agree, and the
    annotation at each position of the caller's array gets the id at that position of the
    main function, whatever loop it was for and whatever id it had, and nothing else of
    it changes. *)
Theorem remap_loop_sids_spec function (main : list Z) loops
    (own := forallb (fun l => is_some_and (fun sid => bool_decide (sid ∈ main)) (l .? "stmt_id" ≫= as_i64)) loops) :
  (own = true -> remap_loop_sids function main loops = inl loops)
  /\ (own = false -> length main <> length loops ->
       remap_loop_sids function main loops = inr (cannot_map function (length main) (length loops)))
  /\ (own = false -> length main = length loops -> exists loops', remap_loop_sids function main loops = inl loops'
       /\ length loops' = length loops
       /\ forall j sid m, main !! j = Some sid -> in_i64 sid = true -> loops !! j = Some (JObj m) ->
            exists m', loops' !! j = Some (JObj m') /\ map_get "stmt_id" m' ≫= as_i64 = Some sid
              /\ forall key, key <> "stmt_id" -> map_get key m' = map_get key m).
Proof.
  unfold remap_loop_sids. fold own. split_and!.
  - by intros ->.
  - intros -> Hne. apply Nat.eqb_neq in Hne. by rewrite Hne.
  - intros -> Heq. rewrite Heq, Nat.eqb_refl. exists (zip_with set_stmt_id main loops). split_and!; [done|rewrite length_zip_with; lia|].
    intros j sid m Hj Hs Hm. destruct (set_stmt_id_spec sid m Hs) as (m' & Hm' & H). exists m'. split; [|done].
    apply lookup_zip_with_Some. by exists sid, (JObj m).
Qed.

(** ** Witnesses *)

(** A plug-in that keeps the data of the requests that change it, answers no property, and
    refuses ghost loops. *)
Definition demo_exec (w : list json) (_ : option string) (request : string) (data : json) : (json + string) * list json :=
  (inl (JObj [("result", JObj [("success", JBool (negb (request =s "plugins.ast-utils.execInsertGhostLoop")))])]), w ++ [data]).
Definition demo_get (_ : list json) (_ : option string) (_ : string) (_ : json) : json + string := inl (JArr []).
Definition demo_resolve (name : string) : Resolved + McpError := inl (mkResolved name None).
Definition demo_inject : list json -> InjectAllAnnotationsParams -> (json + McpError) * list json :=
  inject_all_annotations (fun e => e) (fun e => invalid_params e None) err_message demo_resolve demo_get demo_exec
    (fun _ _ => inl "") (fun w _ => w) (fun w => ("00", w)) (fun _ _ => "") (fun s => s) (fun s => s) (fun s => s).

Definition call_of (entries : list (string * list (string * json))) (dry_run : bool) : InjectAllAnnotationsParams :=
  mkParams (Some "f") None (Some (map (fun e => JObj (("kind", JStr e.1) :: e.2)) entries)) ∅ ∅ dry_run.

Lemma contract_gate_witness :
  exists error, demo_inject [] (call_of [("assert", [("acsl", JStr "1"); ("stmt_id", jnat 3)]); ("ensures", [("acsl", JStr "1")])] false)
    = (inr error, []).
Proof.
  edestruct (contract_gate (fun e : string => e) (fun e => invalid_params e None) err_message demo_resolve demo_get demo_exec
    (fun _ _ => inl "") (fun w _ => w) (fun w => ("00", w)) (fun _ _ => "") (fun s => s) (fun s => s) (fun s => s)
    [] (call_of [("assert", [("acsl", JStr "1"); ("stmt_id", jnat 3)]); ("ensures", [("acsl", JStr "1")])] false) "f")
    as (error & H & _).
  - reflexivity.
  - reflexivity.
  - right. eexists _, (JObj [("kind", JStr "ensures"); ("acsl", JStr "1")]), "ensures". split; [reflexivity|].
    split; [apply list_elem_of_In; right; left; reflexivity|]. split; [reflexivity|right; reflexivity].
  - exists error. exact H.
Defined.

Lemma dry_run_pure_witness :
  (demo_inject [] (call_of [("ghost_global", [("name", JStr "g")]); ("assert", [("acsl", JStr "1"); ("stmt_id", jnat 3)])] true)).2 = []
  /\ (demo_inject [] (call_of [("ghost_global", [("name", JStr "g")]); ("assert", [("acsl", JStr "1"); ("stmt_id", jnat 3)])] false)).2
     <> [].
Proof. split; [apply dry_run_pure; reflexivity|vm_compute; discriminate]. Defined.

(** The ghost loop is refused, so the assert behind it is not sent. *)
Definition refused_ghost : InjectAllAnnotationsParams :=
  call_of [("assert", [("acsl", JStr "1"); ("stmt_id", jnat 3)]);
           ("ghost_loop", [("stmt", jnat 3); ("name", JStr "i"); ("stop", JStr "9"); ("invariant", JStr "1"); ("assigns", JStr "i");
                           ("variant", JStr "9 - i")])] false.

Lemma ghosts_first_witness :
  exists params' ghosts origin,
    expand_tagged_annotations (fun s => s) refused_ghost = inl (params', ghosts, origin)
    /\ length (demo_inject [] refused_ghost).2 = 1
    /\ demo_inject [] refused_ghost
       = (let run := apply_ghost_entries (fun e => invalid_params e None) err_message demo_resolve demo_exec (fun w _ => w)
                       (fun _ _ => "") [] "f" false ghosts in
          (inl (ghost_only_response false (length ghosts) run.1.1 run.1.2), run.2)).
Proof.
  destruct (expand_tagged_annotations (fun s => s) refused_ghost) as [[[params' ghosts] origin]|e] eqn:Hx.
  2:{ assert (is_some_and (fun _ => true) (match expand_tagged_annotations (fun s => s) refused_ghost with inl x => Some x | inr _ => None end) = true)
        as Hc by (vm_compute; reflexivity). rewrite Hx in Hc. discriminate. }
  exists params', ghosts, origin. split; [reflexivity|]. split; [vm_compute; reflexivity|].
  assert (Hp : match expand_tagged_annotations (fun s => s) refused_ghost with
          | inl (params', ghosts, origin) => carries_contract params' = false /\ ip_dry_run params' = false
              /\ (apply_ghost_entries (fun e : string => invalid_params e None) err_message demo_resolve demo_exec (fun w _ => w)
                       (fun _ _ => "") [] "f" false ghosts).1.2 <> []
          | inr _ => False
          end) by (vm_compute; split; [reflexivity|split; [reflexivity|discriminate]]).
  rewrite Hx in Hp. destruct Hp as (Hc & Hd & Hne).
  destruct (ghosts_first (fun e : string => e) (fun e => invalid_params e None) err_message demo_resolve demo_get demo_exec
    (fun _ _ => inl "") (fun w _ => w) (fun w => ("00", w)) (fun _ _ => "") (fun s => s) (fun s => s) (fun s => s)
    [] refused_ghost "f" params' ghosts origin eq_refl Hx) as (_ & _ & Hstop & _); [rewrite Hc; reflexivity|].
  rewrite Hd in Hstop. exact (Hstop Hne).
Defined.

Lemma contract_in_a_clause_witness :
  (demo_inject [] (assigns_call "f" "\nothing; ensures \false")).2
  = [JObj [("function", JStr "f"); ("kind", JStr "spec"); ("acsl", JStr "assigns \nothing; ensures \false;");
           ("label", JStr "an_00_assigns_0")]].
Proof.
  destruct (contract_in_a_clause (fun e : string => e) (fun e => invalid_params e None) err_message demo_resolve demo_get demo_exec
    (fun _ _ => inl "") (fun w _ => w) (fun w => ("00", w)) (fun _ _ => "") (fun s => s) (fun s => s) (fun s => s)
    [] "f" "\nothing; ensures \false") as (H & _); [reflexivity..|]. exact H.
Defined.

(** A clause of a loop and a blank one. *)
Definition loop_call : InjectAllAnnotationsParams :=
  call_of [("assigns", [("acsl", JStr " ")]);
           ("loop", [("stmt_id", jnat 4); ("invariants", JArr [JObj [("acsl", JStr "i <= n")]])])] false.

Lemma places_are_the_callers_witness :
  match expand_tagged_annotations (fun s => s) loop_call with
  | inl (params', _, origin) =>
    (build_injection_plan (mkInputs (ip_lists params') (ip_singles params')) ∅).1
    = [mkPlanEntry "loop invariant i <= n;" "annot" "proposed_loop_annots[0].invariants[0]" (Some 4%Z) " invariant 0" (Some "Inv0")]
    /\ callers_place (unwrap_or (ip_annotations loop_call) []) origin "proposed_loop_annots[0].invariants[0]"
  | inr _ => False
  end.
Proof.
  destruct (expand_tagged_annotations (fun s => s) loop_call) as [[[params' ghosts] origin]|e] eqn:Hx.
  2:{ assert (is_some_and (fun _ => true) (match expand_tagged_annotations (fun s => s) loop_call with inl x => Some x | inr _ => None end) = true)
        as Hc by (vm_compute; reflexivity). rewrite Hx in Hc. discriminate. }
  assert (Hp : match expand_tagged_annotations (fun s => s) loop_call with
          | inl (params', ghosts, origin) => (build_injection_plan (mkInputs (ip_lists params') (ip_singles params')) ∅).1
    = [mkPlanEntry "loop invariant i <= n;" "annot" "proposed_loop_annots[0].invariants[0]" (Some 4%Z) " invariant 0" (Some "Inv0")]
              /\ behavior_assumes_table (ip_lists params' !! "proposed_behaviors") = ∅
          | inr _ => False
          end) by (vm_compute; split; reflexivity).
  rewrite Hx in Hp. destruct Hp as [Hplan Hb]. split; [exact Hplan|].
  eapply (places_are_the_callers (fun e => invalid_params e None) demo_get (fun s => s) [] "a:f" (mkResolved "f" None) loop_call _
    params' ghosts origin (ip_lists params')); [reflexivity..|exact Hx|reflexivity|].
  rewrite Hb, Hplan. apply elem_of_app. left. apply list_elem_of_In. left. reflexivity.
Defined.
