(* ===== verification/WpOutput.v ===== *)
(** * What the external tools printed (src/src/mcp/wpout.rs)

    The printed goals of WP, the files Why3 leaves behind and E-ACSL's report of a
    violation are text, read line by line.  The location pattern of a violation is the
    regex crate's and is an argument; a directory is the list of the names in it. *)

From S2P Require Import Prelude RustStr BTree Json.
Local Open Scope nat_scope.

(** [split(needle).next()]: the text before the first needle, or all of it. *)
Definition split_first (needle s : string) : string := match split_once needle s with Some (l, _) => l | None => s end.

(** ** The totals of a run *)

Definition proved_goals_line (line : string) : option (option N * option N) :=
  split_once "Proved goals:" line ≫= fun '(_, rest) =>
  (fun '(proved, total) => (parse_u64 (trim proved), head (split_whitespace total) ≫= parse_u64)) <$> split_once "/" rest.

Definition parse_proved_goals (output : string) : option N * option N :=
  unwrap_or (find_map proved_goals_line (rev (lines output))) (None, None).

(** ** Violations at run time *)

Definition runtime_check_coverage_warning : string := "Runtime checks cover only executed paths and do not validate assigns clauses.".

Definition e_acsl_runtime_boundaries : json :=
  JObj [("coverage_warning", JStr runtime_check_coverage_warning);
        ("assigns_clauses", JStr "E-ACSL does not prove assigns clauses; use WP for frame conditions.");
        ("integer_arithmetic", JStr "ACSL integer arithmetic is checked with unbounded GMP semantics.");
        ("executed_paths_only", JStr "A clean run covers only the paths executed by this driver.")].

Inductive Section_ := InNothing | InPredicate | InValues.

Record Violation := mkViolation {
  vi_function : option string;
  vi_file : option string;
  vi_line : option N;
  vi_kind : option string;
  vi_predicate : list string;
  vi_values : list string;
  vi_section : Section_;
}.

Definition in_section (s : Section_) (v : Violation) : Violation :=
  mkViolation (vi_function v) (vi_file v) (vi_line v) (vi_kind v) (vi_predicate v) (vi_values v) s.

Definition violation_text (trimmed : string) (v : Violation) : Violation :=
  match vi_section v with
  | InPredicate =>
    if is_empty trimmed then v
    else mkViolation (vi_function v) (vi_file v) (vi_line v) (vi_kind v) (vi_predicate v ++ [trim_end_char "." trimmed]) (vi_values v) InPredicate
  | InValues =>
    if starts_with "- " trimmed
    then mkViolation (vi_function v) (vi_file v) (vi_line v) (vi_kind v) (vi_predicate v) (vi_values v ++ [trim_start_matches "- " trimmed]) InValues
    else v
  | InNothing => v
  end.

Section violation.
Variable location : string -> option (string * string * string).

Definition violation_line (v : Violation) (raw_line : string) : Violation :=
  let trimmed := trim raw_line in
  match split_once ": In function '" trimmed with
  | Some (path, rest) =>
    mkViolation (strip_suffix "'" rest) (Some path) (vi_line v) (vi_kind v) (vi_predicate v) (vi_values v) (vi_section v)
  | None =>
    match location trimmed with
    | Some (file, line, kind) =>
      mkViolation (vi_function v) (Some file) (parse_u64 line) (Some kind) (vi_predicate v) (vi_values v) InNothing
    | None =>
      if trimmed =s "The failing predicate is:" then in_section InPredicate v
      else if trimmed =s "With values at failure point:" then in_section InValues v
      else violation_text trimmed v
    end
  end.

Definition parse_e_acsl_violation (output : string) : json :=
  let v := fold_left violation_line (lines output) (mkViolation None None None None [] [] InNothing) in
  JObj [("function", jopt JStr (vi_function v)); ("file", jopt JStr (vi_file v)); ("line", jopt jN (vi_line v));
        ("kind", jopt JStr (vi_kind v)); ("predicate", JStr (join (String nl "") (vi_predicate v)));
        ("values", JArr (map JStr (vi_values v)))].
End violation.

(** ** Files of Why3 *)

Definition why3_dump_file_name (file_name : string) : bool :=
  let extension := match rsplit_once "." file_name with Some (_, r) => r | None => file_name end in
  contains "_Why3_" file_name && existsb (String.eqb extension) ["why"; "psmt2"; "smt2"].

Definition why3_dump_goal_id (file_name : string) : string :=
  let prefix := split_first "_Why3_" file_name in
  if starts_with "typed_" prefix then prefix else "typed_" +s+ prefix.

Section dumps.
Variable path_of : string -> string.
Variable size_of : string -> option N.
Variable read_to_string : string -> option string.

Definition dump_json (max_bytes : N) (file_name : string) : option json :=
  (fun size_bytes =>
     JObj [("file_name", JStr file_name); ("path", JStr (path_of file_name)); ("goal_id", JStr (why3_dump_goal_id file_name));
           ("size_bytes", jN size_bytes); ("truncated", JBool (max_bytes <? size_bytes)%N);
           ("content", if (size_bytes <=? max_bytes)%N then jopt JStr (read_to_string (path_of file_name)) else JNull)])
  <$> size_of (path_of file_name).

(** The names of the directory, [None] for one that is no UTF-8. *)
Definition collect_why3_dump_files (entries : option (list (option string))) (max_files : nat) (max_bytes : N) : list json * nat :=
  match entries with
  | None => ([], 0)
  | Some entries =>
    let dumps := merge_sort str_le (bfilter why3_dump_file_name (collect_some (fun name => name) entries)) in
    let kept := collect_some (dump_json max_bytes) (take max_files dumps) in
    (kept, length dumps - length kept)
  end.
End dumps.

(** ** Printed goals *)

Definition wp_print_kind (title : string) : string :=
  let text := to_ascii_lowercase title in
  let has needle := contains needle text in
  if has "pre-condition" then "requires"
  else if has "post-condition" then "ensures"
  else if has "assertion" then "assert"
  else if has "loop assigns" then "loop_assigns"
  else if has "assigns" then "assigns"
  else if has "invariant" then "loop_invariant"
  else if has "variant" then "loop_variant"
  else if has "complete behaviors" || has "disjoint behaviors" then "behavior"
  else if has "termination-condition" then "termination"
  else if has "exit-condition" then "exit"
  else "unknown".

(** [collect_after]: the numbers after each needle, and what is left of the text. *)
Fixpoint collect_after (fuel : nat) (needle rest : string) : list N * string :=
  match fuel with
  | O => ([], rest)
  | S fuel =>
    match find needle rest with
    | None => ([], rest)
    | Some index =>
      let rest := skip (index + String.length needle) rest in
      let '(numbers, unread) := collect_after fuel needle rest in
      (match parse_u64 (take_while is_ascii_digit rest) with Some line => line :: numbers | None => numbers end, unread)
    end
  end.

Definition wp_print_match_line (title : string) : option N :=
  let '(lines, rest) := collect_after (S (String.length title)) "line " title in
  let '(more, _) := collect_after (S (String.length rest)) "lines " rest in
  last (lines ++ more).

Definition SECTION_LABELS : list string := ["Heap"; "Pre-condition"; "Invariant"; "Then"; "Else"; "Residual"].

Definition section_json (label text : string) : json := JObj [("label", JStr label); ("text", JStr text)].

Definition section_of (trimmed label : string) : option json :=
  if (trimmed =s "(* " +s+ label +s+ " *)") || (trimmed =s label +s+ " {") then Some (section_json label "")
  else (fun text => section_json label (trim text)) <$> strip_prefix (label +s+ ":") trimmed.

Definition wp_print_sections (hypotheses : list string) : list json :=
  collect_some (fun line => find_map (section_of (trim line)) SECTION_LABELS) hypotheses.

(** The hypotheses and the conclusion in the body of a goal. *)
Fixpoint block_parts (in_conclusion : bool) (body : list string) : list string * list string :=
  match body with
  | [] => ([], [])
  | line :: body =>
    let trimmed := trim line in
    if starts_with "Prover " trimmed || starts_with "[wp" trimmed then ([], [])
    else
      match strip_prefix "Prove:" trimmed with
      | Some rest => let '(hypotheses, conclusion) := block_parts true body in (hypotheses, trim rest :: conclusion)
      | None =>
        let '(hypotheses, conclusion) := block_parts in_conclusion body in
        if is_empty trimmed then (hypotheses, conclusion)
        else if in_conclusion then (hypotheses, trimmed :: conclusion)
        else (line :: hypotheses, conclusion)
      end
  end.

Definition Block : Type := string * string * list string.

Definition wp_print_block_json (block : Block) : json :=
  let '(function, title, body) := block in
  let '(hypotheses, conclusion) := block_parts false body in
  JObj [("function", JStr function); ("title", JStr title); ("kind", JStr (wp_print_kind title));
        ("source_line", jopt jN (wp_print_match_line title)); ("hypotheses", JArr (map JStr hypotheses));
        ("sections", JArr (wp_print_sections hypotheses)); ("conclusion", JStr (trim (join (String nl "") conclusion)))].

(** The reader: the blocks so far, the function, the block that is open and the title that
    is not closed yet. *)
Record Reader := mkReader {
  rd_blocks : list Block;
  rd_function : string;
  rd_current : option Block;
  rd_pending : option (string * string);
}.

(** What is open ends here: a title that was never closed is a block of its own. *)
Definition flush (r : Reader) : Reader :=
  let current := match rd_pending r with Some (function, title) => Some (function, title, []) | None => rd_current r end in
  mkReader (rd_blocks r ++ option_list current) (rd_function r) None None.

Definition read_function (rest : string) (r : Reader) : Reader :=
  let r := flush r in mkReader (rd_blocks r) (trim (split_first " with behavior " rest)) None None.

Definition read_goal (trimmed rest : string) (r : Reader) : Reader :=
  let r := flush r in
  let title := trim (trim_end_char ":" rest) in
  if ends_with ":" trimmed then mkReader (rd_blocks r) (rd_function r) (Some (rd_function r, title, [])) None
  else mkReader (rd_blocks r) (rd_function r) None (Some (rd_function r, title)).

(** A folded title goes on until a line that ends in a colon. *)
Definition read_title (trimmed function title : string) (r : Reader) : Reader :=
  let '(title, title_ends_here) :=
    if trimmed =s ":" then (title, true)
    else if is_empty trimmed then (title, false)
    else (title +s+ " " +s+ trim (trim_end_char ":" trimmed), ends_with ":" trimmed) in
  if title_ends_here : bool then mkReader (rd_blocks r) (rd_function r) (Some (function, title, [])) None
  else mkReader (rd_blocks r) (rd_function r) (rd_current r) (Some (function, title)).

Definition separator (trimmed : string) : bool := (trimmed =s ":") || sall (Ascii.eqb "-") trimmed.

Definition read_body (line trimmed : string) (r : Reader) : Reader :=
  match rd_current r with
  | Some (function, title, body) =>
    if separator trimmed then r else mkReader (rd_blocks r) (rd_function r) (Some (function, title, body ++ [line])) (rd_pending r)
  | None => r
  end.

Definition read_line (r : Reader) (line : string) : Reader :=
  let trimmed := trim line in
  match strip_prefix "Function " trimmed with
  | Some rest => read_function rest r
  | None =>
    match strip_prefix "Goal " trimmed with
    | Some rest => read_goal trimmed rest r
    | None =>
      match rd_pending r with
      | Some (function, title) => read_title trimmed function title r
      | None => read_body line trimmed r
      end
    end
  end.

(** At the end an open title takes what body there is. *)
Definition finish (r : Reader) : list Block :=
  let current := match rd_pending r with
                 | Some (function, title) => Some (function, title, unwrap_or (snd <$> rd_current r) [])
                 | None => rd_current r
                 end in
  rd_blocks r ++ option_list current.

Definition read_blocks (lines : list string) : list Block := finish (fold_left read_line lines (mkReader [] "" None None)).

Definition parse_wp_print_blocks (output : string) : list json := map wp_print_block_json (read_blocks (lines output)).

Definition wp_output_warnings (stdout stderr : string) : list string :=
  bfilter (fun line => negb (is_empty line) && negb (contains "Missing RTE guards" line))
    (map trim (bfilter (fun line => contains "Warning:" line
                                  || contains "Allocation, initialization and danglingness not yet implemented" line)
       (lines stdout ++ lines stderr))).

(** ** Attaching what was read to goals *)

Definition clause_of_vc (vc : json) : option json := vc .? "related_acsl_clause" <||> vc .? "clause".

Definition clause_kind_of (kind : string) : string :=
  if existsb (String.eqb kind) ["requires"; "ensures"; "assigns"; "loop_invariant"; "loop_assigns"; "loop_variant"] then kind
  else if existsb (String.eqb kind) ["complete"; "disjoint"; "behavior"] then "behavior"
  else if existsb (String.eqb kind) ["assert"; "assertion"] then "assert"
  else "unknown".

Definition vc_wp_print_kind (vc : json) : string :=
  if is_some_and (fun goal_kind => (goal_kind =s "user_assert") || starts_with "rte_" goal_kind) (get_str "goal_kind" vc) then "assert"
  else unwrap_or (clause_kind_of <$> (clause_of_vc vc ≫= get_str "kind")) "unknown".

Definition vc_source_line (vc : json) : option N :=
  (vc .? "source_location" ≫= get_u64 "line") <||> (clause_of_vc vc ≫= fun clause => clause .? "loc" ≫= get_u64 "line").

Definition block_candidates (blocks : list json) (vc : json) (function : string) : list json :=
  let same_kind := bfilter (fun block => (get_str "function" block =?s function) && (get_str "kind" block =?s vc_wp_print_kind vc)) blocks in
  match vc_source_line vc with
  | Some line => bfilter (fun block => bool_decide (get_u64 "source_line" block = Some line)) same_kind
  | None => same_kind
  end.

Definition attach_wp_print_block (blocks : list json) (vc : json) : json :=
  match get_str "function" vc with
  | None => vc
  | Some function =>
    match block_candidates blocks vc function with
    | [block] => map_object (map_insert "wp_print" block) vc
    | _ => vc
    end
  end.

Definition attach_wp_print_blocks (vcs blocks : list json) : list json := map (attach_wp_print_block blocks) vcs.

Definition dump_ids (vc : json) : list string :=
  concat (map (fun id => [id; trim_start_matches "typed_" id]) (collect_some (fun field => get_str field vc) ["wpo_id"; "wpo"; "stable_goal_id"])).

Definition dump_matches (ids : list string) (dump : json) : bool :=
  is_some_and (fun goal_id => existsb (fun id => (id =s goal_id) || (id =s trim_start_matches "typed_" goal_id)) ids) (get_str "goal_id" dump).

Definition attach_why3_dump (dumps : list json) (vc : json) : json :=
  match bfilter (dump_matches (dump_ids vc)) dumps with
  | [] => vc
  | matches => map_object (map_insert "why3_dumps" (JArr matches)) vc
  end.

Definition attach_why3_dumps (vcs dumps : list json) : list json := map (attach_why3_dump dumps) vcs.

(** ** What WP prints *)

(** A text that starts and ends in a graphic character. *)
Definition last_graphic (s : string) : Prop := exists body c, s = body +s+ String c "" /\ graphic c = true.
Definition tidy (s : string) : Prop := last_graphic s /\ exists c rest, s = String c rest /\ graphic c = true.

(** The lines of a title, and the hypotheses, conclusion and prover lines of a goal. *)
Record PrintedGoal := mkPrinted {
  pg_title : list string;
  pg_hypotheses : list string;
  pg_conclusion : string * list string;
  pg_provers : list string;
}.

Fixpoint close_title (title : list string) : list string :=
  match title with
  | [] => []
  | [line] => [line +s+ ":"]
  | line :: title => line :: close_title title
  end.

Definition printed_body (g : PrintedGoal) : list string :=
  pg_hypotheses g ++ ("Prove: " +s+ (pg_conclusion g).1) :: (pg_conclusion g).2 ++ pg_provers g.

Definition printed_goal (g : PrintedGoal) : list string :=
  match close_title (pg_title g) with
  | [] => []
  | first :: more => ("Goal " +s+ first) :: more
  end ++ printed_body g.

Definition printed_function (f : string * list PrintedGoal) : list string := ("Function " +s+ f.1) :: concat (map printed_goal f.2).

Definition plain (line : string) : Prop :=
  strip_prefix "Function " (trim line) = None /\ strip_prefix "Goal " (trim line) = None /\ separator (trim line) = false.

Definition prover_line (line : string) : bool := starts_with "Prover " (trim line) || starts_with "[wp" (trim line).
Definition said (line : string) : Prop := plain line /\ prover_line line = false /\ strip_prefix "Prove:" (trim line) = None.

Definition title_ok (line : string) : Prop :=
  tidy line /\ ends_with ":" line = false /\ strip_prefix "Function " line = None /\ strip_prefix "Goal " line = None
  /\ trim_end_char ":" line = line.

Record printed_ok (g : PrintedGoal) : Prop := {
  po_title : pg_title g <> [] /\ Forall title_ok (pg_title g);
  po_hypotheses : Forall said (pg_hypotheses g);
  po_conclusion : tidy (pg_conclusion g).1 /\ Forall (fun line => said line /\ tidy line) (pg_conclusion g).2;
  po_provers : Forall plain (pg_provers g) /\ is_none_or prover_line (head (pg_provers g)) = true;
}.

Definition function_ok (f : string) : Prop := tidy f /\ split_once " with behavior " f = None.

Definition printed_block (function : string) (g : PrintedGoal) : Block := (function, join " " (pg_title g), printed_body g).

(** ** Lemmas on lines *)

Lemma tidy_trim s : tidy s -> trim s = s.
Proof.
  intros [(body & c & Hs & Hc) (d & rest & Hd & Hdg)]. destruct body as [|b body].
  - simpl in Hs. rewrite Hs. unfold trim. change (String c "") with ("" +s+ String c ""). rewrite trim_end_last by done.
    rewrite <- (app_str_nil_r ("" +s+ String c "")) at 1. change ("" +s+ String c "") with (String c "").
    rewrite trim_start_graphic; [by rewrite app_str_nil_r| |done]. simpl. by rewrite Hc.
  - rewrite Hs in Hd. injection Hd as -> <-. rewrite Hs.
    change (String d body +s+ String c "") with ((String d "") +s+ body +s+ String c ""). apply trim_closed; [|done|done].
    simpl. by rewrite Hdg.
Qed.

Lemma tidy_prefixed w s : sall graphic w = true -> w <> "" -> last_graphic s -> trim (w +s+ " " +s+ s) = w +s+ " " +s+ s.
Proof.
  intros Hw Hne (body & c & -> & Hc). change (" " +s+ body +s+ String c "") with (String " " body +s+ String c "").
  by apply trim_closed.
Qed.

Lemma last_graphic_app a s : last_graphic s -> last_graphic (a +s+ s).
Proof. intros (body & c & -> & Hc). exists (a +s+ body), c. by rewrite app_str_assoc. Qed.

Lemma last_graphic_colon s : last_graphic (s +s+ ":").
Proof. by exists s, ":"%char. Qed.

Lemma tidy_colon s : tidy s -> tidy (s +s+ ":").
Proof. intros [_ (c & rest & -> & Hc)]. split; [apply last_graphic_colon|]. by exists c, (rest +s+ ":"). Qed.

Lemma ends_with_colon s : ends_with ":" (s +s+ ":") = true.
Proof. induction s as [|c s IH]; [done|]. cbn [ends_with String.append]. by rewrite IH, orb_true_r. Qed.

Lemma trim_end_colon s : trim_end_char ":" s = s -> trim_end_char ":" (s +s+ ":") = s.
Proof.
  induction s as [|c s IH]; [done|]. cbn [trim_end_char String.append]. intros H.
  assert (Hall : sall (Ascii.eqb ":") (String c s) = false) by (destruct (sall (Ascii.eqb ":") (String c s)); done).
  rewrite Hall in H. injection H as H. change (String c (s +s+ ":")) with (String c s +s+ ":"). rewrite sall_app, Hall. simpl. by rewrite IH.
Qed.

Lemma strip_prefix_colon p s : strip_prefix p s = None -> free_of ":" p = true -> strip_prefix p (s +s+ ":") = None.
Proof.
  revert s. induction p as [|a p IH]; intros s H Hp; [done|]. unfold free_of in Hp. cbn [sall] in Hp.
  apply andb_true_iff in Hp as [Ha Hp]. apply negb_true_iff in Ha. destruct s as [|b s]; cbn in *; [by rewrite Ha|].
  destruct (Ascii.eqb a b); [|done]. by apply IH.
Qed.

(** ** Lemmas on the reader *)

Lemma title_line_read t function title blocks name : title_ok t ->
  read_line (mkReader blocks name None (Some (function, title))) t = mkReader blocks name None (Some (function, title +s+ " " +s+ t)).
Proof.
  intros (Ht & Hc & Hf & Hg & He). unfold read_line. rewrite (tidy_trim t Ht), Hf, Hg. unfold read_title.
  destruct (String.eqb_spec t ":") as [->|_]; [done|]. destruct t as [|c t]; [by destruct Ht as [_ (? & ? & ? & _)]|].
  cbn [is_empty rd_blocks rd_function rd_current]. by rewrite He, Hc, (tidy_trim _ Ht).
Qed.

Lemma title_end_read t function title blocks name : title_ok t ->
  read_line (mkReader blocks name None (Some (function, title))) (t +s+ ":") = mkReader blocks name (Some (function, title +s+ " " +s+ t, [])) None.
Proof.
  intros (Ht & _ & Hf & Hg & He). unfold read_line. rewrite (tidy_trim (t +s+ ":")) by by apply tidy_colon.
  rewrite !strip_prefix_colon by done. unfold read_title.
  destruct Ht as [Hl (c & rest & -> & Hc)]. cbn [is_empty String.append]. change (String c (rest +s+ ":")) with (String c rest +s+ ":").
  destruct (String.eqb_spec (String c rest +s+ ":") ":") as [Heq|_]; [by destruct rest|].
  rewrite trim_end_colon, ends_with_colon, tidy_trim by first [done | split; [done|by exists c, rest]]. done.
Qed.

Lemma title_read ts : forall function title blocks name, ts <> [] -> Forall title_ok ts ->
  fold_left read_line (close_title ts) (mkReader blocks name None (Some (function, title)))
  = mkReader blocks name (Some (function, title +s+ " " +s+ join " " ts, [])) None.
Proof.
  induction ts as [|t ts IH]; intros function title blocks name Hne Hok; [done|].
  apply Forall_cons in Hok as [Ht Hok]. destruct ts as [|t' ts]; [simpl; by rewrite title_end_read|].
  cbn [close_title fold_left]. rewrite title_line_read by done. rewrite IH by done.
  change (join " " (t :: t' :: ts)) with (t +s+ " " +s+ join " " (t' :: ts)). by rewrite !app_str_assoc.
Qed.

Lemma body_read body : forall blocks name function title read, Forall plain body ->
  fold_left read_line body (mkReader blocks name (Some (function, title, read)) None)
  = mkReader blocks name (Some (function, title, read ++ body)) None.
Proof.
  induction body as [|line body IH]; intros blocks name function title read Hok; simpl; [by rewrite app_nil_r|].
  apply Forall_cons in Hok as [(Hf & Hg & Hs) Hok]. unfold read_line at 2. rewrite Hf, Hg. cbn [rd_pending].
  unfold read_body. rewrite Hs. cbn [rd_current rd_blocks rd_function rd_pending]. rewrite IH by done. by rewrite <- app_assoc.
Qed.

Lemma said_plain line : said line -> plain line.
Proof. by intros [? _]. Qed.

Lemma prove_plain rest : last_graphic rest -> plain ("Prove: " +s+ rest).
Proof. intros H. unfold plain. change ("Prove: " +s+ rest) with ("Prove:" +s+ " " +s+ rest). rewrite tidy_prefixed by done. by split_and!. Qed.

Lemma printed_body_plain g : printed_ok g -> Forall plain (printed_body g).
Proof.
  intros [_ Hh [[Hc _] Hm] [Hp _]]. unfold printed_body. apply Forall_app. split.
  - eapply Forall_impl; [exact Hh|apply said_plain].
  - apply Forall_cons. split; [by apply prove_plain|]. apply Forall_app. split; [|done].
    eapply Forall_impl; [exact Hm|]. intros line [Hl _]. by apply said_plain.
Qed.

Lemma ends_with_colon_app a t : t <> "" -> ends_with ":" (a +s+ t) = ends_with ":" t.
Proof.
  intros Ht. induction a as [|c a IH]; [done|]. cbn [ends_with String.append]. rewrite IH.
  destruct (String.eqb_spec ":" (String c (a +s+ t))) as [Heq|_]; [|done]. injection Heq as _ Heq. by destruct a, t.
Qed.

Lemma tidy_nonempty t : tidy t -> t <> "".
Proof. by intros [_ (c & rest & -> & _)]. Qed.

(** A goal line starts a block, whose title is closed on the line or open. *)
Lemma goal_line t r : title_ok t ->
  read_line r ("Goal " +s+ t +s+ ":") = mkReader (rd_blocks (flush r)) (rd_function r) (Some (rd_function r, t, [])) None
  /\ read_line r ("Goal " +s+ t) = mkReader (rd_blocks (flush r)) (rd_function r) None (Some (rd_function r, t)).
Proof.
  intros (Ht & Hcol & _ & _ & He). pose proof (tidy_nonempty t Ht) as Hne. unfold read_line.
  change ("Goal " +s+ t +s+ ":") with ("Goal" +s+ " " +s+ (t +s+ ":")). change ("Goal " +s+ t) with ("Goal" +s+ " " +s+ t).
  rewrite !tidy_prefixed by first [done | apply last_graphic_colon | apply Ht].
  change ("Goal" +s+ " " +s+ (t +s+ ":")) with ("Goal " +s+ (t +s+ ":")). change ("Goal" +s+ " " +s+ t) with ("Goal " +s+ t).
  assert (Hf : forall u, strip_prefix "Function " ("Goal " +s+ u) = None) by done. rewrite !Hf, !strip_prefix_app. unfold read_goal.
  rewrite (ends_with_colon_app "Goal " (t +s+ ":")) by (by destruct t). rewrite (ends_with_colon_app "Goal " t) by done. rewrite ends_with_colon, Hcol, trim_end_colon, He, (tidy_trim t Ht) by done.
  done.
Qed.

Lemma function_line f r : function_ok f -> read_line r ("Function " +s+ f) = mkReader (rd_blocks (flush r)) f None None.
Proof.
  intros [Hf Hb]. unfold read_line. change ("Function " +s+ f) with ("Function" +s+ " " +s+ f). rewrite tidy_prefixed by (done || apply Hf).
  change ("Function" +s+ " " +s+ f) with ("Function " +s+ f). rewrite strip_prefix_app. unfold read_function, split_first.
  by rewrite Hb, (tidy_trim f Hf).
Qed.

Lemma goal_read g r : printed_ok g ->
  fold_left read_line (printed_goal g) r
  = mkReader (rd_blocks (flush r)) (rd_function r) (Some (printed_block (rd_function r) g)) None.
Proof.
  intros Hg. destruct (po_title _ Hg) as [Hne Hok]. pose proof (printed_body_plain g Hg) as Hbody.
  unfold printed_goal, printed_block. rewrite fold_left_app. destruct (pg_title g) as [|t ts]; [done|].
  apply Forall_cons in Hok as [Ht Hok]. destruct (goal_line t r Ht) as [Hclosed Hopen]. destruct ts as [|t' ts].
  - cbn [close_title fold_left]. rewrite Hclosed, body_read by done. done.
  - change (close_title (t :: t' :: ts)) with (t :: close_title (t' :: ts)). cbn [fold_left]. rewrite Hopen, title_read, body_read by done. done.
Qed.

Lemma flush_blocks r : rd_pending r = None -> rd_blocks (flush r) = rd_blocks r ++ option_list (rd_current r).
Proof. unfold flush. by intros ->. Qed.

Lemma goals_read goals : forall r, rd_pending r = None -> Forall printed_ok goals ->
  let r' := fold_left read_line (concat (map printed_goal goals)) r in
  rd_blocks (flush r') = rd_blocks (flush r) ++ map (printed_block (rd_function r)) goals /\ rd_pending r' = None.
Proof.
  induction goals as [|g goals IH]; intros r Hr Hok; cbn zeta; [cbn; by rewrite app_nil_r|].
  cbn [map concat].
  apply Forall_cons in Hok as [Hg Hok]. rewrite fold_left_app, goal_read by done.
  destruct (IH (mkReader (rd_blocks (flush r)) (rd_function r) (Some (printed_block (rd_function r) g)) None) eq_refl Hok) as [-> ->].
  split; [|done]. rewrite flush_blocks by done. simpl. by rewrite <- app_assoc.
Qed.

Definition printed_blocks (listing : list (string * list PrintedGoal)) : list Block :=
  concat (map (fun f => map (printed_block f.1) f.2) listing).

Lemma listing_read listing : forall r, rd_pending r = None -> Forall (fun f => function_ok f.1 /\ Forall printed_ok f.2) listing ->
  let r' := fold_left read_line (concat (map printed_function listing)) r in
  rd_blocks (flush r') = rd_blocks (flush r) ++ printed_blocks listing /\ rd_pending r' = None.
Proof.
  induction listing as [|[f goals] listing IH]; intros r Hr Hok; cbn zeta; [cbn; by rewrite app_nil_r|].
  cbn [map concat].
  apply Forall_cons in Hok as [[Hf Hg] Hok]. simpl in Hf, Hg. rewrite fold_left_app.
  change (fold_left read_line (printed_function (f, goals)) r) with
    (fold_left read_line (concat (map printed_goal goals)) (read_line r ("Function " +s+ f))).
  rewrite function_line by done.
  destruct (goals_read goals (mkReader (rd_blocks (flush r)) f None None) eq_refl Hg) as [Hb Hp].
  destruct (IH _ Hp Hok) as [-> ->]. split; [|done]. rewrite Hb.
  rewrite (flush_blocks (mkReader _ _ _ _)) by done. cbn [rd_blocks rd_current option_list rd_function].
  rewrite app_nil_r, <- app_assoc. done.
Qed.

(** ** Lemmas on bodies *)

Lemma provers_end provers : is_none_or prover_line (head provers) = true -> forall b, block_parts b provers = ([], []).
Proof. unfold prover_line. destruct provers as [|line provers]; simpl; [done|]. intros H b. by rewrite H. Qed.

Lemma conclusion_parts more provers : is_none_or prover_line (head provers) = true ->
  Forall (fun line => said line /\ tidy line) more -> block_parts true (more ++ provers) = ([], more).
Proof.
  intros Hp. induction more as [|line more IH]; intros Hok; [by apply provers_end|].
  apply Forall_cons in Hok as [[(_ & Hpr & Hprove) Ht] Hok]. cbn [block_parts app]. rewrite (tidy_trim line Ht) in *.
  unfold prover_line in Hpr. rewrite (tidy_trim line Ht) in Hpr. rewrite Hpr, Hprove, IH by done.
  by destruct Ht as [_ (c & rest & -> & _)].
Qed.

Lemma separator_empty s : is_empty s = true -> separator s = true.
Proof. by destruct s. Qed.

Lemma trim_blank_tidy s : tidy s -> trim (" " +s+ s) = s.
Proof.
  intros Ht. pose proof (tidy_trim s Ht) as Hs. destruct Ht as [(body & c & -> & Hc) _]. unfold trim in *.
  change (" " +s+ body +s+ String c "") with (String " " body +s+ String c ""). rewrite trim_end_last in * by done.
  change (String " " body +s+ String c "") with (String " " (body +s+ String c "")). by rewrite trim_start_blank.
Qed.

Lemma body_parts g : printed_ok g ->
  block_parts false (printed_body g) = (pg_hypotheses g, (pg_conclusion g).1 :: (pg_conclusion g).2).
Proof.
  intros [_ Hh [Hc Hm] [_ Hp]]. unfold printed_body. induction (pg_hypotheses g) as [|line hs IH].
  - cbn [app block_parts]. change ("Prove: " +s+ (pg_conclusion g).1) with ("Prove:" +s+ " " +s+ (pg_conclusion g).1).
    rewrite tidy_prefixed by (done || apply Hc). rewrite strip_prefix_app.
    assert (Hst : forall u, starts_with "Prover " ("Prove:" +s+ u) || starts_with "[wp" ("Prove:" +s+ u) = false) by done.
    rewrite Hst, conclusion_parts by done. by rewrite trim_blank_tidy.
  - apply Forall_cons in Hh as [((_ & _ & Hsep) & Hpr & Hprove) Hh]. cbn [app block_parts]. unfold prover_line in Hpr.
    rewrite Hpr, Hprove, IH by done. destruct (is_empty (trim line)) eqn:He; [|done].
    by rewrite separator_empty in Hsep.
Qed.

(** ** Theorems *)

(** The printed goals are read back.  For a listing of functions and goals in WP's shape,
    with titles folded over any number of lines, each goal is one block, in order, under
    its function, with the title on one line, the lines before "Prove:" as hypotheses and
    those after it, up to the lines of the provers, as conclusion. *)
Theorem printed_goals_read output listing : Forall (fun f => function_ok f.1 /\ Forall printed_ok f.2) listing ->
  lines output = concat (map printed_function listing) ->
  parse_wp_print_blocks output = map wp_print_block_json (printed_blocks listing)
  /\ Forall (fun f => Forall (fun g => let block := wp_print_block_json (printed_block f.1 g) in
        get_str "function" block = Some f.1 /\ get_str "title" block = Some (join " " (pg_title g))
        /\ get_arr "hypotheses" block = Some (map JStr (pg_hypotheses g))
        /\ get_str "conclusion" block = Some (trim (join (String nl "") ((pg_conclusion g).1 :: (pg_conclusion g).2)))) f.2) listing.
Proof.
  intros Hok Hl. split.
  - unfold parse_wp_print_blocks, read_blocks. rewrite Hl. f_equal.
    destruct (listing_read listing (mkReader [] "" None None) eq_refl Hok) as [Hb Hp].
    destruct (fold_left _ _ _) as [blocks f current pending]. simpl in Hp. subst pending. rewrite flush_blocks in Hb by done. exact Hb.
  - eapply Forall_impl; [exact Hok|]. intros [f goals] [_ Hg]. eapply Forall_impl; [exact Hg|]. intros g Hgo.
    unfold wp_print_block_json, printed_block. cbn zeta beta iota. rewrite body_parts by done. done.
Qed.

Lemma dump_names path_of size_of read max_bytes names :
  sublist (collect_some (get_str "file_name") (collect_some (dump_json path_of size_of read max_bytes) names)) names.
Proof.
  induction names as [|name names IH]; simpl; [constructor|]. unfold dump_json at 1.
  destruct (size_of (path_of name)); simpl; by constructor.
Qed.

(** Which files of a proof are shown does not depend on the directory.  Two listings with
    the same names in any order give the same answer; the files shown are the first by
    name, at most [max_files] of them; and what is shown and what is counted as left out add
    up to what the directory holds. *)
Theorem dumps_deterministic path_of size_of read entries entries' max_files max_bytes
    (dumps := collect_why3_dump_files path_of size_of read) (names := bfilter why3_dump_file_name (collect_some (fun name => name) entries)) :
  (entries ≡ₚ entries' -> dumps (Some entries) max_files max_bytes = dumps (Some entries') max_files max_bytes)
  /\ length (dumps (Some entries) max_files max_bytes).1 <= max_files
  /\ length (dumps (Some entries) max_files max_bytes).1 + (dumps (Some entries) max_files max_bytes).2 = length names
  /\ sublist (collect_some (get_str "file_name") (dumps (Some entries) max_files max_bytes).1) (take max_files (merge_sort str_le names)).
Proof.
  unfold dumps, collect_why3_dump_files. fold names. split_and!.
  - intros Hp. unfold names. rewrite (merge_sort_str_perm _ (bfilter why3_dump_file_name (collect_some (fun name => name) entries'))); [done|].
    by apply bfilter_perm, collect_some_perm.
  - cbn [fst]. rewrite length_collect_some, length_take. lia.
  - cbn [fst snd]. pose proof (length_collect_some (dump_json path_of size_of read max_bytes) (take max_files (merge_sort str_le names))) as H.
    rewrite length_take in H. pose proof (Permutation_length (merge_sort_Permutation str_le names)). lia.
  - apply dump_names.
Qed.

(** The kind of a goal is searched in its whole title, the names of clauses included.  A
    title that holds "assigns" anywhere, and no word that is searched before it, is an assigns
    clause, so the printed goal of an invariant with such a name is offered to no invariant. *)
Theorem title_names_read_as_kinds title function body (text := to_ascii_lowercase title)
    (block := wp_print_block_json (function, title, body)) :
  contains "assigns" text = true -> contains "pre-condition" text = false -> contains "post-condition" text = false ->
  contains "assertion" text = false ->
  (get_str "kind" block = Some "assigns" \/ get_str "kind" block = Some "loop_assigns")
  /\ (forall vc blocks, vc_wp_print_kind vc = "loop_invariant" -> block ∉ block_candidates blocks vc function)
  /\ get_str "kind" (wp_print_block_json ("f", "Preservation of Invariant 'assigns_bound' (file f.c, line 9)", [])) = Some "assigns".
Proof.
  intros Ha Hpre Hpost Has. assert (Hk : get_str "kind" block = Some "assigns" \/ get_str "kind" block = Some "loop_assigns").
  { unfold block, wp_print_block_json. destruct (block_parts false body) as [h c]. unfold get_str. cbn.
    unfold wp_print_kind. fold text. rewrite Hpre, Hpost, Has, Ha. destruct (contains "loop assigns" text); auto. }
  split_and!; [done| |vm_compute; reflexivity].
  intros vc blocks Hvc Hin. assert (Hf : get_str "kind" block =?s vc_wp_print_kind vc = true).
  { unfold block_candidates in Hin. destruct (vc_source_line vc); repeat apply elem_of_bfilter in Hin as [Hin ?]; bool_simpl; done. }
  rewrite Hvc in Hf. destruct Hk as [Hk|Hk]; rewrite Hk in Hf; discriminate.
Qed.

(** ** Witnesses *)

Definition sample_listing : list (string * list PrintedGoal) :=
  [("f", [mkPrinted ["Post-condition (file f.c,"; "line 3) in 'f'"] ["Assume {"; "  Type: is_sint32(x)."; "}"] ("x = 1.", []) ["Prover Qed returns Valid"]]);
   ("g", [mkPrinted ["Assertion 'a' (file g.c, line 8)"] [] ("a <= b", ["b <= c."]) []])].

Definition sample_output : string := join (String nl "") (concat (map printed_function sample_listing)).

Lemma tidy_check s : match s with String c _ => graphic c | "" => false end = true ->
  forall body c, s = body +s+ String c "" -> graphic c = true -> tidy s.
Proof. intros Hs body c Heq Hc. split; [by exists body, c|]. destruct s as [|d s]; [done|]. by exists d, s. Qed.

Lemma printed_goals_read_witness :
  length (parse_wp_print_blocks sample_output) = 2
  /\ parse_wp_print_blocks sample_output = map wp_print_block_json (printed_blocks sample_listing).
Proof.
  assert (Hsaid : forall line, bool_decide (strip_prefix "Function " (trim line) = None) && bool_decide (strip_prefix "Goal " (trim line) = None)
            && negb (separator (trim line)) && negb (prover_line line) && bool_decide (strip_prefix "Prove:" (trim line) = None) = true -> said line).
  { intros line H. bool_simpl. repeat match goal with H : bool_decide _ = true |- _ => apply bool_decide_eq_true_1 in H end.
    split; [split; [assumption|split; assumption]|split; assumption]. }
  assert (Hok : Forall (fun f => function_ok f.1 /\ Forall printed_ok f.2) sample_listing).
  { apply Forall_cons. split; [split; [split|]|apply Forall_cons; split; [split; [split|]|apply Forall_nil; exact I]].
    - eapply tidy_check; [reflexivity|exact (eq_refl ("" +s+ "f"))|reflexivity].
    - reflexivity.
    - apply Forall_cons. split; [|apply Forall_nil; exact I]. split; simpl.
      + split; [discriminate|]. apply Forall_cons. split.
        { split; [eapply tidy_check; [reflexivity|exact (eq_refl ("Post-condition (file f.c" +s+ ","))|reflexivity]|split; [reflexivity|split; [reflexivity|split; reflexivity]]]. }
        apply Forall_cons. split; [|apply Forall_nil; exact I].
        split; [eapply tidy_check; [reflexivity|exact (eq_refl ("line 3) in 'f" +s+ "'"))|reflexivity]|split; [reflexivity|split; [reflexivity|split; reflexivity]]].
      + repeat (apply Forall_cons; split; [apply Hsaid; vm_compute; reflexivity|]). apply Forall_nil. exact I.
      + split; [eapply tidy_check; [reflexivity|exact (eq_refl ("x = 1" +s+ "."))|reflexivity]|apply Forall_nil; exact I].
      + split; [|reflexivity]. apply Forall_cons. split; [|apply Forall_nil; exact I].
        split; [reflexivity|split; reflexivity].
    - eapply tidy_check; [reflexivity|exact (eq_refl ("" +s+ "g"))|reflexivity].
    - reflexivity.
    - apply Forall_cons. split; [|apply Forall_nil; exact I]. split; simpl.
      + split; [discriminate|]. apply Forall_cons. split; [|apply Forall_nil; exact I].
        split; [eapply tidy_check; [reflexivity|exact (eq_refl ("Assertion 'a' (file g.c, line 8" +s+ ")"))|reflexivity]|split; [reflexivity|split; [reflexivity|split; reflexivity]]].
      + apply Forall_nil. exact I.
      + split; [eapply tidy_check; [reflexivity|exact (eq_refl ("a <= " +s+ "b"))|reflexivity]|].
        apply Forall_cons. split; [|apply Forall_nil; exact I]. split; [apply Hsaid; vm_compute; reflexivity|].
        eapply tidy_check; [reflexivity|exact (eq_refl ("b <= c" +s+ "."))|reflexivity].
      + split; [apply Forall_nil; exact I|reflexivity]. }
  split; [vm_compute; reflexivity|]. apply (printed_goals_read sample_output sample_listing Hok). vm_compute. reflexivity.
Defined.

Lemma title_names_read_as_kinds_witness :
  let block := wp_print_block_json ("f", "Preservation of Invariant 'assigns_bound' (file f.c, line 9)", []) in
  let vc := JObj [("function", JStr "f"); ("clause", JObj [("kind", JStr "loop_invariant")])] in
  block ∉ block_candidates [block] vc "f" /\ attach_wp_print_blocks [vc] [block] = [vc].
Proof.
  split; [|vm_compute; reflexivity].
  apply (title_names_read_as_kinds "Preservation of Invariant 'assigns_bound' (file f.c, line 9)" "f" []); vm_compute; reflexivity.
Defined.
