(* ===== verification/WpTriage.v ===== *)
(** * Why a goal timed out (src/src/mcp/wpclass.rs, the triage)

    How much of a run was measured rather than replayed, what the host's load allows to
    conclude, and the verdict on a timeout, read off one goal, off a report or off the
    scheduler's payload.  Reading the host's load is a parameter of the callers:
    [HostLoad] is what its reading is taken for. *)

From S2P Require Import Prelude RustStr BTree Json Status StableId.
From Stdlib Require Import SpecFloat.
Local Open Scope nat_scope.

(** ** The host's load *)

Inductive HostLoad := Unavailable | Unreadable | Load (per_cpu : spec_float).

Definition HOST_SATURATED_LOAD_PER_CPU : spec_float := f64_of_Z 1.

(** [f64::is_finite]. *)
Definition is_finite (f : spec_float) : bool :=
  match f with S754_zero _ | S754_finite _ _ _ => true | _ => false end.

Definition from_reading (load_per_cpu : option spec_float) : HostLoad :=
  match load_per_cpu with
  | None => Unavailable
  | Some load => if negb (is_finite load) || SFltb load (f64_of_Z 0) then Unreadable else Load load
  end.

Definition saturated (load : spec_float) : bool := SFltb HOST_SATURATED_LOAD_PER_CPU load.

Definition category (h : HostLoad) : string :=
  match h with
  | Unavailable => "unavailable"
  | Unreadable => "unreadable"
  | Load load => if saturated load then "saturated" else "quiet"
  end.

Definition per_cpu (h : HostLoad) : option spec_float :=
  match h with Load load => Some load | _ => None end.

Definition SATURATED_CAVEAT : string :=
  "Goals reached the prover budget on an oversubscribed host, where a wall-clock "
  +s+ "budget expires whatever a goal's difficulty. This run says nothing about whether "
  +s+ "they are provable. Re-run on an idle machine before drawing any conclusion; "
  +s+ "retry_unproved only grinds twice as long.".

Definition UNREAD_CAVEAT : string :=
  "Goals reached the prover budget, and host load could not be read, so an "
  +s+ "oversubscribed machine cannot be ruled out as the cause. Treat this as unclassified "
  +s+ "rather than as evidence the goals are unprovable; re-run where the load is readable.".

Definition timeout_caveat (h : HostLoad) : option string :=
  match h with
  | Load load => then_some (saturated load) SATURATED_CAVEAT
  | _ => Some UNREAD_CAVEAT
  end.

(** ** What a run measured *)

Record RunMeasurement := mkMeasurement {
  rm_goals : nat;
  rm_replayed : nat;
  rm_replayed_unknown : nat;
  rm_unproved : nat;
  rm_unproved_replayed : nat;
  rm_timed_out : nat;
  rm_timed_out_replayed : nat;
}.

Definition every_timed_out_goal_was_replayed (m : RunMeasurement) : bool :=
  (0 <? rm_timed_out m) && (rm_timed_out_replayed m =? rm_timed_out m).

Definition to_json (m : RunMeasurement) : json :=
  JObj [("goals", jnat (rm_goals m)); ("replayed", jnat (rm_replayed m));
        ("replayed_unknown", jnat (rm_replayed_unknown m)); ("unproved", jnat (rm_unproved m));
        ("unproved_replayed", jnat (rm_unproved_replayed m)); ("timed_out", jnat (rm_timed_out m));
        ("timed_out_replayed", jnat (rm_timed_out_replayed m));
        ("every_timed_out_goal_was_replayed", JBool (every_timed_out_goal_was_replayed m))].

Definition one_if (b : bool) : nat := if b then 1 else 0.

Definition measure_goal (m : RunMeasurement) (goal : json) : RunMeasurement :=
  let unproved := negb (own_status_is_proved goal) in
  let timed_out := own_status_is_timeout goal in
  let provenance := goal_is_from_cache goal in
  let cached := bool_decide (provenance = Some true) in
  mkMeasurement (rm_goals m) (rm_replayed m + one_if cached)
    (rm_replayed_unknown m + one_if (bool_decide (provenance = None)))
    (rm_unproved m + one_if unproved) (rm_unproved_replayed m + one_if (unproved && cached))
    (rm_timed_out m + one_if timed_out) (rm_timed_out_replayed m + one_if (timed_out && cached)).

Definition run_measurement (goals : list json) : RunMeasurement :=
  fold_left measure_goal goals (mkMeasurement (length goals) 0 0 0 0 0 0).

(** ** The verdict on a timeout *)

Definition wp_timeout_triage (kind : string) (retry_with_higher_prover_timeout : bool) (confidence reason : string)
    (evidence : json) : json :=
  JObj [("kind", JStr kind); ("retry_with_higher_prover_timeout", JBool retry_with_higher_prover_timeout);
        ("confidence", JStr confidence); ("reason", JStr reason); ("evidence", evidence)].

Definition evidence_field (field : string) (value : json) : json := JObj [("field", JStr field); ("value", value)].

Definition wp_timeout_triage_none : json :=
  wp_timeout_triage "none" false "high"
    ("No timeout, cancellation, rejection, or delayed WP status evidence was found.") (JArr []).

Definition REPLAYED_GOAL_REASON : string :=
  "This goal's verdict came back from WP's cache rather than being attempted on this "
  +s+ "run, so nothing here measured it. WP's cache defaults to Update and stores timeout "
  +s+ "verdicts too. Re-run with cache: "
  +s+ dq
  +s+ "None"
  +s+ dq
  +s+ " before treating it as a property of the goal.".

Definition REPLAYED_RUN_REASON : string :=
  "Every timed-out goal in this run came back from WP's cache rather than being "
  +s+ "attempted, so this run measured nothing about them. WP's cache defaults to Update "
  +s+ "and stores timeout verdicts too. Re-run with cache: "
  +s+ dq
  +s+ "None"
  +s+ dq
  +s+ " before drawing any conclusion.".

Definition replayed_goal_triage (kind : string) : json :=
  wp_timeout_triage kind false "low" REPLAYED_GOAL_REASON (JArr [evidence_field "from_cache" (JBool true)]).

(** The status a goal carries and the one it normalizes to. *)
Definition goal_status (goal : json) : string := unwrap_or (consolidated_status goal) "unknown".
Definition goal_raw_status (goal : json) : string := unwrap_or (raw_status goal) (goal_status goal).
Definition goal_timed_out (goal : json) : bool :=
  status_is_timeout (goal_status goal) || status_is_timeout (goal_raw_status goal).

Definition status_evidence (goal : json) : list json :=
  [evidence_field "normalized_status" (JStr (goal_status goal)); evidence_field "raw_status" (JStr (goal_raw_status goal))].

Definition status_pending (goal : json) : bool :=
  ((goal_status goal =s "noresult") || (goal_status goal =s "unknown"))
  && is_some_and (fun raw => (raw =s "NORESULT") || (raw =s "Never_tried")) (raw_status goal).

Definition wp_timeout_triage_from_goal (goal : json) : json :=
  if goal_timed_out goal then
    match goal_is_from_cache goal with
    | Some true => replayed_goal_triage "prover_timeout"
    | None =>
      wp_timeout_triage "prover_timeout" false "low"
        ("WP reports a prover timeout, but cache provenance is unavailable; refresh the goal "
        +s+ "before changing the timeout.")
        (JArr (evidence_field "from_cache" JNull :: status_evidence goal))
    | Some false =>
      wp_timeout_triage "prover_timeout" true "high"
        ("The WP goal itself reports a prover timeout; a higher prover timeout may help.")
        (JArr (status_evidence goal))
    end
  else if status_pending goal then
    wp_timeout_triage "status_propagation_delay" false "medium"
      ("WP has no final prover timeout status yet; refresh goals before changing timeout.")
      (JArr (status_evidence goal))
  else if bool_decide (goal_is_from_cache goal = Some true) then replayed_goal_triage "none"
  else wp_timeout_triage_none.

Definition prover_timeout_triage (goals_at_timeout : nat) (triggers : list json) (host_load : HostLoad)
    (measurement : option RunMeasurement) : json :=
  let all_replayed := is_some_and every_timed_out_goal_was_replayed measurement in
  let evidence :=
    JArr [evidence_field "goals_at_timeout" (jnat goals_at_timeout); evidence_field "triggers" (JArr triggers);
          evidence_field "every_timed_out_goal_was_replayed" (JBool all_replayed);
          evidence_field "host_load" (JStr (category host_load))] in
  let withdrawn := collect_some id [then_some all_replayed REPLAYED_RUN_REASON; timeout_caveat host_load] in
  match withdrawn with
  | [] =>
    wp_timeout_triage "prover_timeout" false "high"
      ("Goals reached the prover budget without a verdict. That does not mean they need "
      +s+ "more time: an unprovable goal grinds to the budget too. Use retry_unproved to see "
      +s+ "whether any flip at double the budget.") evidence
  | _ => wp_timeout_triage "prover_timeout" false "low" (join " " withdrawn) evidence
  end.

Section tasks.
(** [Value::to_string]. *)
Variable to_string : json -> string.

Definition wp_timeout_triage_from_tasks (tasks : json) : json :=
  let text := to_ascii_lowercase (to_string tasks) in
  if contains "timeout" text then
    wp_timeout_triage "mcp_server_timeout" false "low"
      ("The WP task payload mentions timeout, but no goal-level prover timeout was observed.")
      (JArr [evidence_field "tasks" tasks])
  else if contains "killed" text || contains "cancel" text then
    wp_timeout_triage "cancelled_task" false "medium"
      ("The WP task was cancelled or killed; increasing prover timeout is not the direct "
      +s+ "fix.")
      (JArr [evidence_field "tasks" tasks])
  else if contains "reject" text then
    wp_timeout_triage "rejected_task" false "medium"
      ("Frama-C rejected a WP task request; inspect capabilities or request order.")
      (JArr [evidence_field "tasks" tasks])
  else wp_timeout_triage_none.

Definition timeout_findings (report : option json) : list json :=
  bfilter (fun f => get_str "category" f =?s "timeout") (unwrap_or (report ≫= get_arr "findings") []).

Definition wp_timeout_triage_from_tasks_and_report (tasks : json) (report : option json)
    (measurement : option RunMeasurement) (host_load : HostLoad) : json :=
  let from_tasks := wp_timeout_triage_from_tasks tasks in
  if negb (get_str "kind" from_tasks =?s "none") then from_tasks
  else match timeout_findings report with
       | [] => from_tasks
       | timed_out =>
         prover_timeout_triage (length timed_out) (collect_some (get "trigger") timed_out) host_load measurement
       end.
End tasks.

(** ** Lemmas *)

Definition replayed (goal : json) : bool := bool_decide (goal_is_from_cache goal = Some true).
Definition unattributed (goal : json) : bool := bool_decide (goal_is_from_cache goal = None).

Lemma one_if_count {A} (f : A -> bool) a l : count_if f (a :: l) = one_if (f a) + count_if f l.
Proof. unfold count_if; simpl; destruct (f a); reflexivity. Qed.

(** The pass over the goals adds, to each counter, the goals that satisfy its test. *)
Lemma measure_counts goals m :
  fold_left measure_goal goals m =
  mkMeasurement (rm_goals m) (rm_replayed m + count_if replayed goals)
    (rm_replayed_unknown m + count_if unattributed goals)
    (rm_unproved m + count_if (fun g => negb (own_status_is_proved g)) goals)
    (rm_unproved_replayed m + count_if (fun g => negb (own_status_is_proved g) && replayed g) goals)
    (rm_timed_out m + count_if own_status_is_timeout goals)
    (rm_timed_out_replayed m + count_if (fun g => own_status_is_timeout g && replayed g) goals).
Proof.
  revert m; induction goals as [|g goals IH]; intros m.
  - cbn [fold_left]. unfold count_if; simpl. rewrite !Nat.add_0_r. destruct m; reflexivity.
  - cbn [fold_left]. rewrite IH, !one_if_count. cbn. fold (replayed g) (unattributed g).
    f_equal; lia.
Qed.

Lemma count_if_and_le {A} (f g : A -> bool) l : count_if (fun a => f a && g a) l <= count_if f l.
Proof. induction l as [|a l IH]; [auto|]. rewrite !one_if_count. destruct (f a), (g a); simpl; lia. Qed.

Lemma count_if_disjoint {A} (f g : A -> bool) l :
  (forall a, f a && g a = false) -> count_if f l + count_if g l <= length l.
Proof.
  intros Hdisjoint; induction l as [|a l IH]; [auto|]. rewrite !one_if_count. simpl.
  specialize (Hdisjoint a). destruct (f a), (g a); simpl in *; try discriminate; lia.
Qed.

Lemma count_if_positive {A} (f : A -> bool) l : 0 < count_if f l <-> exists a, a ∈ l /\ f a = true.
Proof.
  unfold count_if. split.
  - intros Hpos. destruct (bfilter f l) as [|a l'] eqn:Hl; [simpl in Hpos; lia|].
    exists a. apply elem_of_bfilter. rewrite Hl. left.
  - intros (a & Ha). apply elem_of_bfilter in Ha. destruct (bfilter f l); [inversion Ha | simpl; lia].
Qed.

(** Counting a conjunction loses nothing exactly where the first test implies the second. *)
Lemma count_if_and_eq {A} (f g : A -> bool) l :
  count_if (fun a => f a && g a) l = count_if f l <-> forall a, a ∈ l -> f a = true -> g a = true.
Proof.
  induction l as [|a l IH].
  { split; [intros _ a Ha; inversion Ha | auto]. }
  rewrite !one_if_count. pose proof (count_if_and_le f g l).
  split.
  - intros Heq b Hb Hf. apply elem_of_cons in Hb as [->|Hb].
    + rewrite Hf in Heq. destruct (g a); [reflexivity | simpl in Heq; lia].
    + apply IH; [|assumption..]. destruct (f a), (g a); simpl in Heq; lia.
  - intros Himp. assert (count_if (fun a => f a && g a) l = count_if f l) as ->.
    { apply IH. intros b Hb. apply Himp. right. assumption. }
    destruct (f a) eqn:Hf; [|reflexivity]. rewrite (Himp a); [reflexivity | left | assumption].
Qed.

Lemma replayed_attributed goal : replayed goal && unattributed goal = false.
Proof. unfold replayed, unattributed. destruct (goal_is_from_cache goal) as [[]|]; reflexivity. Qed.

Lemma replayed_Some goal : replayed goal = true <-> goal_is_from_cache goal = Some true.
Proof. unfold replayed. apply bool_decide_eq_true. Qed.

(** A report's verdict never advises more prover time. *)
Lemma report_never_advises to_string tasks report measurement host :
  get_bool "retry_with_higher_prover_timeout"
    (wp_timeout_triage_from_tasks_and_report to_string tasks report measurement host) = Some false.
Proof.
  assert (get_bool "retry_with_higher_prover_timeout" (wp_timeout_triage_from_tasks to_string tasks) = Some false) as Htasks.
  { unfold wp_timeout_triage_from_tasks. repeat case_match; reflexivity. }
  unfold wp_timeout_triage_from_tasks_and_report, prover_timeout_triage.
  destruct (negb _); [assumption|]. destruct (timeout_findings report); [assumption|].
  destruct (collect_some id _); reflexivity.
Qed.

(** ** Theorems *)

(** What a run measured.  One pass counts every goal: those replayed and those of
    unknown provenance are disjoint and within the goals, the replayed among the unproved
    and among the timed-out are within them, and "every timed-out goal was replayed" is
    claimed exactly when some goal timed out and each that did came from the cache -- one
    timed-out goal that was attempted, or one whose provenance is unknown, withdraws it. *)
Theorem run_measurement_spec goals (m := run_measurement goals) :
  rm_goals m = length goals
  /\ rm_replayed m + rm_replayed_unknown m <= rm_goals m
  /\ rm_unproved_replayed m <= rm_unproved m
  /\ rm_timed_out_replayed m <= rm_timed_out m
  /\ rm_timed_out m <= rm_goals m
  /\ (every_timed_out_goal_was_replayed m = true
      <-> (exists g, g ∈ goals /\ own_status_is_timeout g = true)
          /\ forall g, g ∈ goals -> own_status_is_timeout g = true -> goal_is_from_cache g = Some true).
Proof.
  subst m. unfold run_measurement, every_timed_out_goal_was_replayed. rewrite measure_counts.
  cbn -[Nat.ltb Nat.eqb]. split_and!.
  - reflexivity.
  - apply count_if_disjoint, replayed_attributed.
  - apply count_if_and_le.
  - apply count_if_and_le.
  - apply length_bfilter_le.
  - rewrite andb_true_iff, Nat.ltb_lt, Nat.eqb_eq, count_if_and_eq, count_if_positive.
    split; intros [Hsome Hall]; (split; [assumption|]); intros g Hg Ht; apply replayed_Some; auto.
Qed.

(** The verdict on a report's timeouts is confident exactly when nothing excuses them:
    some timed-out goal was attempted on this run (or none is known to be replayed), and the
    host's load was read and is not saturated.  A load that is not a number, infinite or
    negative is never taken for one, and the verdict depends on the load only through its
    category, so a recorded verdict does not change with the load's value. *)
Theorem prover_timeout_triage_confidence n triggers host measurement (t := prover_timeout_triage n triggers host measurement) :
  get_str "kind" t = Some "prover_timeout"
  /\ (get_str "confidence" t = Some "high"
      <-> is_some_and every_timed_out_goal_was_replayed measurement = false
          /\ exists load, host = Load load /\ saturated load = false)
  /\ (get_str "confidence" t = Some "high" \/ get_str "confidence" t = Some "low")
  /\ (forall host', category host' = category host -> prover_timeout_triage n triggers host' measurement = t)
  /\ (forall reading load, from_reading reading = Load load ->
        reading = Some load /\ is_finite load = true /\ SFltb load (f64_of_Z 0) = false).
Proof.
  subst t. unfold prover_timeout_triage.
  assert (forall h h', category h = category h' -> timeout_caveat h = timeout_caveat h') as Hcaveat.
  { intros [| |l] [| |l'] Heq; cbn in *; try reflexivity; try discriminate;
      repeat destruct (saturated _); congruence. }
  split_and!.
  - destruct (collect_some id _); reflexivity.
  - split.
    + intros Hconf. destruct (is_some_and _ measurement); [discriminate Hconf|]. split; [reflexivity|].
      destruct host as [| |load]; [discriminate Hconf..|]. exists load; split; [reflexivity|].
      cbn in Hconf. destruct (saturated load); [discriminate Hconf | reflexivity].
    + intros [-> (load & -> & Hload)]. cbn. rewrite Hload. reflexivity.
  - destruct (collect_some id _); [left | right]; reflexivity.
  - intros host' Heq. rewrite Heq, (Hcaveat _ _ Heq). reflexivity.
  - intros reading load H. unfold from_reading in H. destruct reading as [f|]; [|discriminate].
    destruct (is_finite f) eqn:Hf, (SFltb f (f64_of_Z 0)) eqn:Hn; cbn in H; rewrite ?Hf, ?Hn in H;
      simpl in H; try discriminate.
    injection H as <-. rewrite Hf, Hn. auto.
Qed.

(** When more prover time is advised for a goal.  The goal's own verdict advises it
    exactly when the goal timed out, by its normalized or its raw status, and is known to
    have been attempted on this run; a timeout replayed from the cache, or of unknown
    provenance, is reported with low confidence and no such advice.  A report's verdict and
    the scheduler's payload never advise it. *)
Theorem higher_timeout_advised goal :
  (get_bool "retry_with_higher_prover_timeout" (wp_timeout_triage_from_goal goal) = Some true
   <-> goal_timed_out goal = true /\ goal_is_from_cache goal = Some false)
  /\ (goal_timed_out goal = true -> goal_is_from_cache goal <> Some false ->
        get_str "confidence" (wp_timeout_triage_from_goal goal) = Some "low")
  /\ (get_str "kind" (wp_timeout_triage_from_goal goal) = Some "prover_timeout" <-> goal_timed_out goal = true)
  /\ (forall to_string tasks report measurement host,
        get_bool "retry_with_higher_prover_timeout"
          (wp_timeout_triage_from_tasks_and_report to_string tasks report measurement host) = Some false).
Proof.
  split; [|split; [|split; [|intros; apply report_never_advises]]]; unfold wp_timeout_triage_from_goal;
    (destruct (goal_timed_out goal);
     [ destruct (goal_is_from_cache goal) as [[]|]; cbn; intuition congruence
     | destruct (status_pending goal); [|destruct (bool_decide _)]; cbn; intuition congruence ]).
Qed.
