(* ===== verification/WpFailure.v ===== *)
(** * What a failed goal means (src/src/mcp/wpclass.rs, the classification)

    A goal that is not proved is put in a category, with a confidence and a fix; the
    category decides what a caller is told to do next.  Findings become a report, and a
    classification is split into what is the goal's own and what it shares with all
    goals of its category and kind.  The rendering of a value, the label pattern and
    SHA-256 are the section's parameters, as in [StableId]. *)

From S2P Require Import Prelude RustStr BTree Json Status Rows Verdicts Targets StableId WpTriage WpOutput.
Local Open Scope nat_scope.

(** ** The fixes *)

Definition fix_termination_unproved : string :=
  "This is the function's terminates obligation, which Frama-C 33 generates for the "
  +s+ "default "
  +s+ dq
  +s+ "terminates \true"
  +s+ dq
  +s+ " as if it were written, and a longer timeout will not close it. One of three things "
  +s+ "is missing: a loop variant on a loop in the body, a decreases clause on a recursive "
  +s+ "function (WP warns "
  +s+ dq
  +s+ "Missing decreases clause"
  +s+ dq
  +s+ "), or a terminates clause on a callee that may not return. Add the measure, or "
  +s+ "state the condition under which the function terminates as its own terminates "
  +s+ "clause.".

Definition fix_timeout_rte : string :=
  "Set retry_unproved to tell a slow goal from an unprovable one: it re-runs at double "
  +s+ "the budget and reports which flip. If none flip, more time is not the fix. This one "
  +s+ "is a runtime-error check, so read the goal's own predicate rather than its name: "
  +s+ "the name's trailing number counts siblings from one statement and names none of "
  +s+ "them, while the predicate says which access is open. context {want: ["
  +s+ dq
  +s+ "rte_obligations"
  +s+ dq
  +s+ "]} adds the drafted requires, which no goal carries, and is the fallback when this "
  +s+ "goal carries no predicate either.".

Definition fix_timeout : string :=
  "Set retry_unproved to tell a slow goal from an unprovable one: it re-runs at double "
  +s+ "the budget and reports which flip. If none flip, more time is not the fix -- read "
  +s+ "the VC and supply the missing fact.".

Definition fix_missing_prover : string :=
  "Inspect capabilities and prover setup before changing annotations.".

Definition fix_missing_why3_config : string :=
  "Run self_check and configure Why3 provers before changing annotations.".

Definition fix_request_rejected : string :=
  "Run self_check and inspect Frama-C request compatibility before changing "
  +s+ "annotations.".

Definition fix_internal_error : string :=
  "No prover returned a verdict, so this is not evidence that the C code or ACSL is "
  +s+ "wrong. A goal record says only FAILED; the reason is on the message stream, which "
  +s+ "check reports as wp_backend_diagnosis and context {want: ["
  +s+ dq
  +s+ "messages"
  +s+ dq
  +s+ "]} returns directly. If that names a Why3 anomaly, try the other memory model "
  +s+ "before touching the annotation: on Frama-C 33 a pointer cast reaching the goal "
  +s+ "aborts Why3 under Typed+nocast and proves under Typed+cast.".

Definition fix_rte : string :=
  "The obligation is a runtime-error check, so the fix is a fact the caller must "
  +s+ "guarantee or the code must establish: the requires that rules the value out, an "
  +s+ "assert that carries the fact to this point, or a loop invariant that keeps the "
  +s+ "index in range. Strengthening the postcondition will not close it. Read the goal's "
  +s+ "own predicate to choose which: the goal usually carries one, and the open access "
  +s+ "then reads as \valid(p + i) directly. Do not work from the goal name, which cannot "
  +s+ "distinguish siblings: the trailing number in mem_access_7 counts checks generated "
  +s+ "from one statement and names none of them. Guessing an invariant from the name "
  +s+ "costs a proof run per guess and does not converge. context {want: ["
  +s+ dq
  +s+ "rte_obligations"
  +s+ dq
  +s+ "]} covers both gaps: it drafts the requires, which no goal carries, and it is the "
  +s+ "fallback for the goals whose property row supplied no predicate to copy.".

Definition fix_unsupported_predicate : string :=
  "Two different faults share this branch. If the name is unbound, it has no "
  +s+ "definition in scope: declare the predicate or logic function, or include the header "
  +s+ "that does. If WP could not encode the construct, replace it with one the memory "
  +s+ "model handles: a quantifier over an integer range rather than over a set, an "
  +s+ "explicit valid_read over the range you index, or a named predicate whose definition "
  +s+ "is first-order. Under Typed+nocast a pointer cast is the usual culprit.".

Definition fix_callee_requires_too_strict : string :=
  "The callee's requires is not established at this call. Either the caller carries "
  +s+ "the fact to the call site, as its own requires or an assert before the call, or the "
  +s+ "callee asks for more than it needs and its requires should be weakened.".

Definition fix_incomplete_behavior_partition : string :=
  "The behaviors do not cover the input space the way the clauses claim. Add the "
  +s+ "behavior for the case nothing assumes, or drop the complete behaviors clause that "
  +s+ "promises a partition the assumes do not form. Disjointness fails the other way: two "
  +s+ "assumes overlap and one has to be narrowed.".

Definition fix_callee_contract_too_weak : string :=
  "The callee's ensures does not say enough for the caller's goal. Strengthen the "
  +s+ "callee contract to state what it actually establishes and re-prove the callee; "
  +s+ "assuming the fact in the caller would be assuming what nothing checks.".

Definition fix_weak_loop_assigns : string :=
  "The loop writes something its assigns does not list, so WP cannot tell what "
  +s+ "survives the loop. List every location the body writes, the induction variable "
  +s+ "included, and nothing more. Both directions cost: WP havocs everything the clause "
  +s+ "lists, so a location named but not written loses its facts across the loop just as "
  +s+ "one written but not named does.".

Definition fix_weak_loop_variant : string :=
  "The variant must be an integer expression that stays non-negative and strictly "
  +s+ "decreases on every iteration. Both halves fail the same way here: an expression "
  +s+ "that can go negative, and one that decreases on only some paths through the body.".

Definition fix_weak_loop_invariant : string :=
  "A loop invariant has to hold on entry and survive the body, and the two fail "
  +s+ "differently. Failing on entry means it claims something the code has not done yet. "
  +s+ "Failing on preservation means it is too weak to imply itself after one iteration, "
  +s+ "and it usually needs the missing conjunct about what the body just did.".

Definition fix_bad_assigns : string :=
  "The assigns clause and the code disagree about what is written. Either the function "
  +s+ "writes a location the clause omits, which loses every fact about it, or the clause "
  +s+ "lists one the function leaves alone, which weakens every caller for nothing.".

Definition fix_weak_ensures : string :=
  "The postcondition does not follow from what the body establishes. Work back from "
  +s+ "the VC: either the code does not achieve the claim, or the facts that would prove "
  +s+ "it were lost at a loop boundary or a call, and the invariant or the callee contract "
  +s+ "is where they have to be reinstated.".

Definition fix_missing_requires : string :=
  "The proof needs a fact no caller is obliged to supply. Add it as a requires so "
  +s+ "callers carry the obligation, or establish it in the body if the function can. "
  +s+ "Assuming it silently is the one option that proves nothing.".

Definition fix_prover_unknown : string := "Inspect the VC details before changing annotations.".

(** ** Categories *)

Definition text_part (c : ascii) : bool := is_ascii_alphanumeric c.

(** [text.split(|ch| !ch.is_ascii_alphanumeric())]: the parts between the characters
    that are not; a byte of a longer character splits as the character does. *)
Fixpoint split_parts (text : string) : list string :=
  match text with
  | "" => [""]
  | String c text =>
    if text_part c then
      match split_parts text with
      | part :: parts => String c part :: parts
      | [] => [String c ""]
      end
    else "" :: split_parts text
  end.

Definition text_has_word (text word : string) : bool := existsb (String.eqb word) (split_parts text).

(** A category, its confidence, its fix, and the evidence for it. *)
Record Reason := mkReason { r_category : string; r_confidence : string; r_fix : string; r_evidence : list json }.

Definition names_missing_prover (text : string) : bool :=
  contains "prover" text && any_contains ["not found"; "unknown"; "missing"; "not available"] text.
Definition names_why3_config (text : string) : bool :=
  contains "why3" text && any_contains ["config"; "configuration"; "not configured"; "no prover"; "not found"] text.

Definition classify_failure_reason (normalized_status raw_status goal_kind name text : string) (from_cache : bool) : Reason :=
  let timed_out := status_is_timeout normalized_status || status_is_timeout raw_status in
  let rte := starts_with "rte_" goal_kind in
  let on_kind := [evidence_field "goal_kind" (JStr goal_kind)] in
  let on_status := [evidence_field "normalized_status" (JStr normalized_status)] in
  let on_text := [evidence_field "goal_text" (JStr name)] in
  let reason :=
    if (goal_kind =s "terminates") && timed_out
    then mkReason "termination_unproved" "high" fix_termination_unproved on_kind
    else if timed_out then mkReason "timeout" "high" (if rte then fix_timeout_rte else fix_timeout) on_status
    else if names_missing_prover text then mkReason "missing_prover" "high" fix_missing_prover on_text
    else if names_why3_config text then mkReason "missing_why3_config" "high" fix_missing_why3_config on_text
    else if contains "rejected" text || contains "reject" text
    then mkReason "request_rejected" "high" fix_request_rejected on_text
    else if (normalized_status =s "failed")
            || any_contains ["internal"; "exception"; "rejected"; "server error"; "plugin error"] text
    then mkReason "internal_error" "high" fix_internal_error on_status
    else if rte then mkReason "rte" "high" fix_rte on_kind
    else if any_contains ["unsupported"; "unbound"; "unknown predicate"; "unknown logic"] text
    then mkReason "unsupported_predicate" "medium" fix_unsupported_predicate on_text
    else if contains "call" text && contains "requires" text
    then mkReason "callee_requires_too_strict" "high" fix_callee_requires_too_strict on_text
    else if contains "behavior" text && any_contains ["complete"; "disjoint"; "partition"] text
    then mkReason "incomplete_behavior_partition" "medium" fix_incomplete_behavior_partition on_text
    else if any_contains ["call"; "callee"] text && any_contains ["ensures"; "post"] text
    then mkReason "callee_contract_too_weak" "medium" fix_callee_contract_too_weak on_text
    else if contains "loop" text && any_contains ["assigns"; "frame"] text
    then mkReason "weak_loop_assigns" "medium" fix_weak_loop_assigns on_text
    else if contains "loop" text && text_has_word text "variant"
    then mkReason "weak_loop_variant" "medium" fix_weak_loop_variant on_text
    else if contains "loop" text && contains "invariant" text
    then mkReason "weak_loop_invariant" "medium" fix_weak_loop_invariant on_text
    else if any_contains ["assigns"; "frame"] text then mkReason "bad_assigns" "medium" fix_bad_assigns on_text
    else if any_contains ["post"; "ensures"] text then mkReason "weak_ensures" "medium" fix_weak_ensures on_text
    else if any_contains ["precondition"; "requires"] text
    then mkReason "missing_requires" "medium" fix_missing_requires on_text
    else mkReason "prover_unknown" "low" fix_prover_unknown on_status in
  if from_cache
  then mkReason (r_category reason) "low" (r_fix reason) (r_evidence reason ++ [evidence_field "from_cache" (JBool true)])
  else reason.

Definition wp_failure_kind (category triage_kind : string) : string :=
  if triage_kind =s "prover_timeout" then "prover_timeout"
  else if triage_kind =s "mcp_server_timeout" then "mcp_timeout"
  else if triage_kind =s "rejected_task" then "request_rejected"
  else if triage_kind =s "cancelled_task" then "request_cancelled"
  else if triage_kind =s "status_propagation_delay" then "status_pending"
  else if category =s "timeout" then "prover_timeout"
  else if category =s "internal_error" then "frama_c_internal"
  else if category =s "missing_prover" then "missing_prover"
  else if category =s "missing_why3_config" then "missing_why3_config"
  else if category =s "request_rejected" then "request_rejected"
  else "proof_obligation".

(** ** Whether running the program helps *)

Definition one_of_strings (names : list string) (s : string) : bool := existsb (String.eqb s) names.

Definition runtime_checkable_claim (category goal_kind : string) : bool :=
  one_of_strings ["missing_requires"; "callee_requires_too_strict"; "weak_ensures"; "weak_loop_invariant"; "rte"] category
  || (goal_kind =s "user_assert") || starts_with "rte_" goal_kind.

Definition E_ACSL_WRAPPERS : list string := ["e-acsl-gcc"; "e-acsl-gcc.sh"].
Definition runtime_check_suggestion (category goal_kind : string) : json :=
  if negb (runtime_checkable_claim category goal_kind) then JNull
  else JObj [("kind", JStr "external_manual_e_acsl");
             ("reason", JStr ("WP did not prove this claim; an external E-ACSL run may gather executed-path evidence "
                +s+ "about code, specification, or prover-strength issues."));
             ("availability", JObj [("tool", JStr "self_check"); ("field", JStr "capabilities.e_acsl.available")]);
             ("manual_tools", JArr (map JStr E_ACSL_WRAPPERS));
             ("coverage_warning", JStr runtime_check_coverage_warning)].

Definition backend_category (category : string) : bool :=
  one_of_strings ["missing_prover"; "missing_why3_config"; "request_rejected"; "internal_error"] category.

Definition semantic_json (kind plain_language next_tool : string) (suggestion : json) : json :=
  JObj [("kind", JStr kind); ("plain_language", JStr plain_language); ("next_tool", JStr next_tool);
        ("runtime_check_suggestion", suggestion)].

Definition semantic_wp_verdict (category : string) (suggestion : json) : json :=
  if backend_category category then
    semantic_json "backend_unavailable"
      ("WP was blocked by prover, request, or Frama-C setup; no code verdict is available until that is fixed.")
      "self_check" suggestion
  else if negb (is_null suggestion) then
    semantic_json "needs_e_acsl_counterexample"
      ("WP alone cannot prove whether the specification is too weak, the specification is wrong, or the code really "
       +s+ "violates the property; collect an E-ACSL counterexample before reporting an implementation defect.")
      "self_check" suggestion
  else if category =s "prover_unknown" then
    semantic_json "specification_too_weak"
      "WP did not provide enough semantic evidence; inspect the VC before changing code or ACSL."
      "get_wp_goals" suggestion
  else if one_of_strings ["unsupported_predicate"; "incomplete_behavior_partition"] category then
    semantic_json "specification_wrong"
      ("The ACSL shape is likely wrong for this proof obligation; correct the unsupported predicate or behavior split.")
      "get_wp_goals" suggestion
  else
    semantic_json "specification_too_weak"
      "The ACSL facts visible to WP are likely too weak for this proof obligation." "get_wp_goals" suggestion.

(** ** Findings *)

Definition proofread_why_problem (category goal_kind : string) : string :=
  if category =s "rte" then
    "The runtime-error obligation is still open. When the goal carries a predicate, that "
    +s+ "names which check it is; when it carries none, context {want: ["
    +s+ dq
    +s+ "rte_obligations"
    +s+ dq
    +s+ "]} is where to look."
  else
  if category =s "timeout" then
    "The prover timed out before proving this obligation."
  else
  if category =s "internal_error" then
    "Frama-C or WP reported an internal failure for this obligation."
  else
  if category =s "unsupported_predicate" then
    "The proof uses logic that WP could not handle."
  else
  if category =s "callee_requires_too_strict" then
    "The caller has not established the callee precondition."
  else
  if category =s "callee_contract_too_weak" then
    "The callee contract does not expose enough postcondition information."
  else
  if category =s "incomplete_behavior_partition" then
    "WP reported an open behavior partition obligation."
  else
  if category =s "weak_loop_assigns" then
    "The loop frame does not cover the writes WP must reason about."
  else
  if category =s "weak_loop_variant" then
    "The loop termination variant is still unproved."
  else
  if category =s "termination_unproved" then
    "The function's termination obligation is still unproved."
  else
  if category =s "weak_loop_invariant" then
    "The loop invariant does not establish or preserve the needed property."
  else
  if category =s "bad_assigns" then
    "The assigns frame does not match the writes WP observes."
  else
  if category =s "weak_ensures" then
    "The postcondition is still unproved for this function."
  else
  if category =s "missing_requires" then
    "The precondition is too weak for this proof obligation."
  else
  if starts_with "rte_" goal_kind then "The runtime-error obligation is still open."
  else "WP did not prove this obligation.".

Definition finding_str (finding : json) (key fallback : string) : string := unwrap_or (get_str key finding) fallback.

Definition finding_line (finding : json) : string :=
  match get_u64 "line" finding with Some line => dec_N line | None => "?" end.

Definition proofread_finding_markdown (finding : json) : string :=
  let severity := finding_str finding "severity" "info" in
  let file := finding_str finding "file" "unknown" in
  let line := finding_line finding in
  let function := finding_str finding "function" "" in
  let kind := finding_str finding "clause_or_goal_kind" "wp_goal" in
  let why := finding_str finding "why_problem" "WP did not prove this obligation." in
  let fix_ := finding_str finding "suggested_fix" "Inspect the proof obligation." in
  "- " +s+ severity +s+ " " +s+ file +s+ ":" +s+ line +s+ " " +s+ function +s+ " " +s+ kind +s+ ": " +s+ why
  +s+ " Suggested fix: " +s+ fix_.

Definition proofread_finding_ref (finding : json) : json :=
  JObj [("id", field "id" finding); ("severity", field "severity" finding); ("category", field "category" finding);
        ("file", field "file" finding); ("line", field "line" finding)].

Definition proofread_action_reason (finding : json) (fallback : string) : string :=
  finding_str finding "file" "unknown" +s+ ":" +s+ finding_line finding +s+ ": "
  +s+ finding_str finding "suggested_fix" fallback.

Definition proofread_severity_rank (severity : string) : nat :=
  if severity =s "critical" then 4 else if severity =s "high" then 3 else if severity =s "medium" then 2
  else if severity =s "low" then 1 else 0.

(** *** Reports

    What the findings are ordered by: the rank from the highest, then file, line and
    column, an absent number last. *)
Definition u64_max : N := (2 ^ 64 - 1)%N.
Definition severity_of (f : json) : nat := proofread_severity_rank (finding_str f "severity" "info").
Definition position_of (key : string) (f : json) : N := unwrap_or (get_u64 key f) u64_max.

Definition finding_leb (a b : json) : bool :=
  if severity_of a =? severity_of b then
    if finding_str a "file" "" =s finding_str b "file" "" then
      if (position_of "line" a =? position_of "line" b)%N then (position_of "column" a <=? position_of "column" b)%N
      else (position_of "line" a <=? position_of "line" b)%N
    else String.leb (finding_str a "file" "") (finding_str b "file" "")
  else severity_of b <=? severity_of a.

(** [findings.retain] with the set of the ids seen. *)
Fixpoint first_of_id (seen : gset string) (findings : list json) : list json :=
  match findings with
  | [] => []
  | f :: findings =>
    match get_str "id" f with
    | Some id =>
      if bool_decide (id ∈ seen) then first_of_id seen findings else f :: first_of_id ({[id]} ∪ seen) findings
    | None => f :: first_of_id seen findings
    end
  end.

Definition reported (findings : list json) : list json := first_of_id ∅ (sort_by finding_leb findings).

Definition markdown_of (findings : list json) : string := join (String nl "") (map proofread_finding_markdown findings).

Definition proofread_report_with_basis (findings : list json) (basis : string) : json :=
  let findings := reported findings in
  let top := head findings in
  JObj [("summary", JObj [("finding_count", jnat (length findings));
                          ("max_severity", unwrap_or (top ≫= get "severity") (JStr "info"));
                          ("most_severe_finding_id", unwrap_or (top ≫= get "id") JNull)]);
        ("basis", JStr basis); ("findings", JArr findings); ("markdown", JStr (markdown_of findings))].

Definition proofread_report (findings : list json) : json := proofread_report_with_basis findings "wp_goal_metadata_only".

(** The first finding of a report. *)
Definition top_finding_of (report : json) : option json := get_arr "findings" report ≫= fun findings => head findings.

(** *** Advice that the run has already tried *)

Definition RETRIED_FIX : string :=
  "This run already retried the goal at double the prover timeout and it did not flip, so time is not what it is "
  +s+ "short of. Read the VC, or supply the contract the obligation needs.".

Definition retry_failed (timeout_retry : json) : bool :=
  unwrap_or (get_bool "attempted" timeout_retry) false
  && is_some_and (fun flipped => bool_decide (flipped = [])) (get_arr "flipped" timeout_retry).

Definition is_timeout_finding (finding : json) : bool := (get_str "category" finding =?s "timeout") && is_object finding.

(** [get_mut("evidence")] and [push]. *)
Definition push_retry_evidence (m : jmap) : jmap :=
  match map_get "evidence" m with
  | Some (JArr evidence) =>
    map_insert "evidence" (JArr (evidence ++ [evidence_field "timeout_retry"
       (JStr "retried at double the timeout, still unproved")])) m
  | _ => m
  end.

Definition drop_retry_advice (finding : json) : json :=
  if is_timeout_finding finding
  then map_object (fun m => push_retry_evidence (map_insert "suggested_fix" (JStr RETRIED_FIX) m)) finding
  else finding.

Definition proofread_drop_stale_retry_advice (report timeout_retry : json) : json :=
  if negb (retry_failed timeout_retry) then report
  else match get_arr "findings" report with
       | None => report
       | Some findings =>
         if existsb is_timeout_finding findings then
           let findings := map drop_retry_advice findings in
           map_object (fun m => map_insert "markdown" (JStr (markdown_of findings))
                                  (map_insert "findings" (JArr findings) m)) report
         else report
       end.

(** ** A goal's classification *)

Section classification.
Variable hash_label_in : string -> option string.
Variable to_string : json -> string.
Variable sha256_hex : string -> string.

Record WpFailure := mkFailure {
  wf_function : option string;
  wf_category : string;
  wf_confidence : string;
  wf_reason : string;
  wf_evidence : list json;
  wf_goal_kind : string;
  wf_raw_status : string;
  wf_normalized_status : string;
}.

Definition proofread_finding_from_wp_failure (goal : json) (failure : WpFailure) : json :=
  let loc := goal .? "source_location" <||> goal .? "source" <||> goal .? "loc" in
  let file := unwrap_or ((loc ≫= fun loc => loc .? "file" <||> loc .? "base") ≫= as_str) "unknown" in
  let line := loc ≫= get_u64 "line" in
  let column := (loc ≫= fun loc => loc .? "column" <||> loc .? "col") ≫= as_u64 in
  let trigger := unwrap_or ((goal .? "name" <||> goal .? "stable_goal_id" <||> goal .? "property"
                             <||> goal .? "property_marker") ≫= as_str) "wp_goal" in
  let severity := if one_of_strings ["high"; "medium"; "low"] (wf_confidence failure) then wf_confidence failure else "info" in
  let stable_id := unwrap_or (get_str "stable_goal_id" goal)
                     (stable_goal_id_for to_string sha256_hex goal (wf_goal_kind failure) (wf_function failure)) in
  let owner := unwrap_or (goal_owner_name goal <||> wf_function failure) "" in
  JObj [("id", JStr ("wp_failure:" +s+ stable_id +s+ ":" +s+ wf_category failure)); ("severity", JStr severity);
        ("category", JStr (wf_category failure)); ("confidence", JStr (wf_confidence failure)); ("file", JStr file);
        ("line", jopt jN line); ("column", jopt jN column); ("function", JStr owner);
        ("clause_or_goal_kind", JStr (wf_goal_kind failure)); ("trigger", JStr trigger);
        ("current_behavior", JStr ("WP status is " +s+ wf_raw_status failure +s+ " (normalized: "
                                   +s+ wf_normalized_status failure +s+ ")."));
        ("why_problem", JStr (proofread_why_problem (wf_category failure) (wf_goal_kind failure)));
        ("suggested_fix", JStr (wf_reason failure)); ("evidence", JArr (wf_evidence failure))].

(** What the classification reads of a goal. *)
Definition goal_kind_of (goal : json) : string :=
  match get_str "goal_kind" goal with Some kind => kind | None => (classify_wp_goal hash_label_in goal).1 end.

Definition goal_name_of (goal : json) : string := unwrap_or (get_str "name" goal) "".

Definition goal_text (goal : json) : string :=
  let property := unwrap_or ((goal .? "property" <||> goal .? "property_marker" <||> goal .? "wpo") ≫= as_str) "" in
  to_ascii_lowercase (goal_name_of goal +s+ " " +s+ property +s+ " " +s+ to_string goal).

Definition reason_of (goal : json) : Reason :=
  classify_failure_reason (goal_status goal) (goal_raw_status goal) (goal_kind_of goal) (goal_name_of goal) (goal_text goal)
    (bool_decide (goal_is_from_cache goal = Some true)).

Definition failure_kind_of (goal : json) : string :=
  wp_failure_kind (r_category (reason_of goal)) (unwrap_or (get_str "kind" (wp_timeout_triage_from_goal goal)) "none").

Definition next_tool (failure_kind : string) (function : option string) (action_reason : string) : json :=
  if one_of_strings ["missing_prover"; "missing_why3_config"; "request_rejected"; "frama_c_internal"] failure_kind then
    JObj [("tool", JStr "self_check"); ("args", JObj []); ("reason", JStr action_reason)]
  else
    match function with
    | None => JObj [("tool", JStr "get_wp_goals"); ("args", JObj []); ("reason", JStr action_reason)]
    | Some function =>
      JObj [("tool", JStr "get_wp_goals");
            ("args", JObj [("want", JArr [JStr "vc"]); ("function", JStr function)]); ("reason", JStr action_reason)]
    end.

Definition with_suggestion (suggestion : json) (m : jmap) : jmap :=
  if is_null suggestion then m else map_insert "runtime_check_suggestion" suggestion m.

Definition classify_wp_failure_from_goal (goal : json) (function : option string) : json :=
  let reason := reason_of goal in
  let category := r_category reason in
  let goal_kind := goal_kind_of goal in
  let failure_kind := failure_kind_of goal in
  let finding := proofread_finding_from_wp_failure goal
    (mkFailure function category (r_confidence reason) (r_fix reason) (r_evidence reason) goal_kind
       (goal_raw_status goal) (goal_status goal)) in
  let report := proofread_report [finding] in
  let top_finding := unwrap_or (top_finding_of report) JNull in
  let action_reason := proofread_action_reason top_finding (r_fix reason) in
  let suggestion := runtime_check_suggestion category goal_kind in
  let next_action := map_object (fun m =>
      with_suggestion suggestion
        (map_insert "finding" (proofread_finding_ref top_finding)
          (map_insert "confidence" (JStr (r_confidence reason)) (map_insert "blockers" (JArr []) m))))
    (next_tool failure_kind function action_reason) in
  JObj [("category", JStr category); ("failure_kind", JStr failure_kind); ("confidence", JStr (r_confidence reason));
        ("status", JStr (goal_raw_status goal)); ("normalized_status", JStr (goal_status goal));
        ("goal_kind", JStr goal_kind); ("evidence", JArr (r_evidence reason)); ("next_action", next_action);
        ("wp_timeout_triage", wp_timeout_triage_from_goal goal); ("proofread_report", report);
        ("runtime_check_suggestion", suggestion); ("semantic_verdict", semantic_wp_verdict category suggestion)].

(** ** What goals share *)

Definition advice_key (classification : json) : string :=
  finding_str classification "category" "" +s+ ":" +s+ finding_str classification "goal_kind" "".

Definition advice_of (classification : json) : json :=
  JObj [("category", field "category" classification); ("goal_kind", field "goal_kind" classification);
        ("why_problem", JStr (proofread_why_problem (finding_str classification "category" "")
                                (finding_str classification "goal_kind" "")));
        ("suggested_fix", unwrap_or (top_finding_of (field "proofread_report" classification) ≫= get "suggested_fix") JNull);
        ("runtime_check_suggestion", field "runtime_check_suggestion" classification);
        ("semantic_verdict", field "semantic_verdict" classification)].

Definition per_goal_of (classification : json) : json :=
  JObj [("category", field "category" classification); ("failure_kind", field "failure_kind" classification);
        ("confidence", field "confidence" classification); ("status", field "status" classification);
        ("normalized_status", field "normalized_status" classification); ("goal_kind", field "goal_kind" classification);
        ("evidence", field "evidence" classification);
        ("next_action", map_object (map_remove "runtime_check_suggestion") (field "next_action" classification));
        ("wp_timeout_triage", field "wp_timeout_triage" classification); ("advice_key", JStr (advice_key classification))].

Definition split_goal_classification (classification : json) : json * string * json :=
  (per_goal_of classification, advice_key classification, advice_of classification).

Definition goal_classification_with_own_advice (goal : json) (function : option string) : json :=
  let '(per_goal, _, advice) := split_goal_classification (classify_wp_failure_from_goal goal function) in
  map_object (map_insert "advice" advice) per_goal.
End classification.

(** ** Lemmas on categories *)

(** Each category with its fix; only a timeout's depends on the goal's kind. *)
Definition FIXES (rte : bool) : list (string * string) :=
  [("termination_unproved", fix_termination_unproved);
   ("timeout", if rte then fix_timeout_rte else fix_timeout);
   ("missing_prover", fix_missing_prover); ("missing_why3_config", fix_missing_why3_config);
   ("request_rejected", fix_request_rejected); ("internal_error", fix_internal_error); ("rte", fix_rte);
   ("unsupported_predicate", fix_unsupported_predicate);
   ("callee_requires_too_strict", fix_callee_requires_too_strict);
   ("incomplete_behavior_partition", fix_incomplete_behavior_partition);
   ("callee_contract_too_weak", fix_callee_contract_too_weak); ("weak_loop_assigns", fix_weak_loop_assigns);
   ("weak_loop_variant", fix_weak_loop_variant); ("weak_loop_invariant", fix_weak_loop_invariant);
   ("bad_assigns", fix_bad_assigns); ("weak_ensures", fix_weak_ensures);
   ("missing_requires", fix_missing_requires); ("prover_unknown", fix_prover_unknown)].

Definition CATEGORIES : list string := (FIXES false).*1.

Definition fix_for (category goal_kind : string) : string :=
  unwrap_or (find_map (fun '(c, advice) => then_some (c =s category) advice) (FIXES (starts_with "rte_" goal_kind))) "".

Definition timeout_category (category : string) : bool := one_of_strings ["termination_unproved"; "timeout"] category.

(** The branches, read once: the category is one of the list, the fix is the category's,
    and the two timeout categories are exactly the timed-out goals'. *)
Lemma classify_cases ns rs kind name text cached
    (r := classify_failure_reason ns rs kind name text cached) :
  one_of_strings CATEGORIES (r_category r) = true
  /\ r_fix r = fix_for (r_category r) kind
  /\ timeout_category (r_category r) = status_is_timeout ns || status_is_timeout rs
  /\ (cached = true -> r_confidence r = "low")
  /\ (cached = false -> r_confidence r = "low" -> r_category r = "prover_unknown").
Proof.
  subst r. unfold classify_failure_reason, fix_for, timeout_category.
  destruct (status_is_timeout ns || status_is_timeout rs), (starts_with "rte_" kind);
    rewrite ?andb_true_r, ?andb_false_r;
    repeat match goal with |- context [if ?b then mkReason _ _ _ _ else _] => destruct b end;
    split_and!;
    first [reflexivity | discriminate | intros; reflexivity | intros _ Hlow; discriminate Hlow].
Qed.

Lemma known_category goal_hash to_string goal : one_of_strings CATEGORIES (r_category (reason_of goal_hash to_string goal)) = true.
Proof. apply classify_cases. Qed.

Lemma one_of_elem names s : one_of_strings names s = true -> s ∈ names.
Proof.
  intros H. unfold one_of_strings in H. apply existsb_true in H as (n & Hn & He).
  apply String.eqb_eq in He. congruence.
Qed.

(** Two prefixes without the separator are equal when what they prefix is. *)
Lemma category_no_colon c : one_of_strings CATEGORIES c = true -> sall (fun d => negb (Ascii.eqb d ":")) c = true.
Proof.
  intros H. apply one_of_elem in H. revert c H. apply Forall_forall.
  repeat constructor.
Qed.

(** ** Lemmas on reports *)

Lemma reported_single f : reported [f] = [f].
Proof. unfold reported. simpl. destruct (get_str "id" f); [|reflexivity]. reflexivity. Qed.

Lemma finding_leb_total a b : finding_leb a b = true \/ finding_leb b a = true.
Proof.
  unfold finding_leb. rewrite (Nat.eqb_sym (severity_of b)), (String.eqb_sym (finding_str b "file" "")),
    (N.eqb_sym (position_of "line" b)).
  destruct (severity_of a =? severity_of b) eqn:Hs; [|rewrite !Nat.leb_le; lia].
  destruct (finding_str a "file" "" =s finding_str b "file" "") eqn:Hf; [|apply (total str_le)].
  destruct (position_of "line" a =? position_of "line" b)%N; rewrite !N.leb_le; lia.
Qed.

Lemma finding_leb_trans a b c : finding_leb a b = true -> finding_leb b c = true -> finding_leb a c = true.
Proof.
  unfold finding_leb. intros Hab Hbc.
  destruct (Nat.eqb_spec (severity_of a) (severity_of b)) as [Eab|Eab];
    destruct (Nat.eqb_spec (severity_of b) (severity_of c)) as [Ebc|Ebc];
    destruct (Nat.eqb_spec (severity_of a) (severity_of c)) as [Eac|Eac]; rewrite ?Nat.leb_le in *; try lia.
  clear Eab Ebc Eac.
  destruct (String.eqb_spec (finding_str a "file" "") (finding_str b "file" "")) as [Fab|Fab].
  - rewrite Fab. destruct (_ =s _); [|assumption].
    destruct (N.eqb_spec (position_of "line" a) (position_of "line" b));
      destruct (N.eqb_spec (position_of "line" b) (position_of "line" c));
      destruct (N.eqb_spec (position_of "line" a) (position_of "line" c)); rewrite ?N.leb_le in *; lia.
  - destruct (String.eqb_spec (finding_str b "file" "") (finding_str c "file" "")) as [Fbc|Fbc].
    + rewrite <- Fbc. apply String.eqb_neq in Fab. rewrite Fab. assumption.
    + destruct (String.eqb_spec (finding_str a "file" "") (finding_str c "file" "")) as [Fac|Fac].
      * rewrite <- Fac in Hbc. elim Fab. apply (anti_symm str_le); assumption.
      * apply (transitivity (R := str_le) (y := finding_str b "file" "")); assumption.
Qed.

Lemma reported_sorted findings : StronglySorted (in_order finding_leb) (sort_by finding_leb findings).
Proof. apply sort_by_StronglySorted; [apply finding_leb_total | apply finding_leb_trans]. Qed.

Lemma StronglySorted_sublist {A} (R : A -> A -> Prop) l k : sublist l k -> StronglySorted R k -> StronglySorted R l.
Proof.
  induction 1 as [|x l k Hlk IH|x l k Hlk IH]; intros Hk; [constructor| |];
    apply StronglySorted_inv in Hk as [Hk Hx]; [|auto].
  constructor; [auto|]. rewrite Forall_forall in *. intros y Hy. apply Hx. apply (elem_of_sublist _ _ y Hy Hlk).
Qed.

Lemma first_of_id_sublist seen findings : sublist (first_of_id seen findings) findings.
Proof.
  revert seen; induction findings as [|f findings IH]; intros seen; simpl; [constructor|].
  destruct (get_str "id" f) as [id|]; [destruct (bool_decide _)|]; constructor; apply IH.
Qed.

Lemma first_of_id_fresh seen findings id :
  id ∈ seen -> id ∉ collect_some (get_str "id") (first_of_id seen findings).
Proof.
  revert seen; induction findings as [|f findings IH]; intros seen Hid; simpl; [apply not_elem_of_nil|].
  destruct (get_str "id" f) as [id'|] eqn:Hf.
  - case_bool_decide; [auto|]. simpl. rewrite Hf. rewrite not_elem_of_cons. split; [set_solver|]. apply IH. set_solver.
  - simpl. rewrite Hf. auto.
Qed.

Lemma first_of_id_NoDup seen findings : NoDup (collect_some (get_str "id") (first_of_id seen findings)).
Proof.
  revert seen; induction findings as [|f findings IH]; intros seen; simpl; [constructor|].
  destruct (get_str "id" f) as [id'|] eqn:Hf.
  - case_bool_decide; [auto|]. simpl. rewrite Hf. constructor; [|auto]. apply first_of_id_fresh. set_solver.
  - simpl. rewrite Hf. auto.
Qed.

(** What is dropped has, before it in the order, a kept finding of its id. *)
Lemma first_of_id_best le seen findings f :
  StronglySorted le findings -> (forall x, le x x) -> f ∈ findings ->
  (exists g, g ∈ first_of_id seen findings /\ le g f /\ (g = f \/ get_str "id" g = get_str "id" f /\ get_str "id" f <> None))
  \/ exists id, get_str "id" f = Some id /\ id ∈ seen.
Proof.
  intros Hsorted Hrefl. revert seen; induction Hsorted as [|g findings Hsorted IH Hall]; intros seen Hf; [inversion Hf|].
  apply elem_of_cons in Hf as [->|Hf]; simpl.
  - destruct (get_str "id" g) as [id|] eqn:Hg; [case_bool_decide; [right; eauto|]|]; left; exists g; set_solver.
  - rewrite Forall_forall in Hall. specialize (Hall f Hf).
    destruct (get_str "id" g) as [id|] eqn:Hg; [case_bool_decide|].
    + destruct (IH seen Hf) as [?|?]; auto.
    + destruct (IH ({[id]} ∪ seen) Hf) as [(g' & Hg' & Hle & Hid)|(id' & Hid' & Hin)].
      * left. exists g'. split; [right; assumption|auto].
      * apply elem_of_union in Hin as [Hin|Hin]; [|right; eauto].
        apply elem_of_singleton in Hin as ->. left. exists g. split; [left|]. split; [assumption|].
        right. rewrite Hid'. split; [assumption|discriminate].
    + destruct (IH seen Hf) as [(g' & Hg' & Hrest)|?]; [|auto]. left. exists g'. split; [right; assumption|assumption].
Qed.

(** ** Theorems *)

(** A report of findings.  The reported findings are in order -- the highest severity
    first, then file, line and column, what is absent last -- no id is reported twice, and
    nothing is lost: a finding given is reported itself, or a finding of its id that does
    not come after it is; one without an id is always reported.  The summary is of the first. *)
Theorem report_spec findings basis (out := reported findings) (report := proofread_report_with_basis findings basis) :
  StronglySorted (in_order finding_leb) out
  /\ NoDup (collect_some (get_str "id") out)
  /\ (forall f, f ∈ out -> f ∈ findings)
  /\ (forall f, f ∈ findings -> exists g, g ∈ out /\ finding_leb g f = true
        /\ (g = f \/ get_str "id" g = get_str "id" f /\ get_str "id" f <> None))
  /\ get_arr "findings" report = Some out
  /\ get_u64 "finding_count" (field "summary" report) = Some (N.of_nat (length out)).
Proof.
  subst out report. pose proof (first_of_id_sublist ∅ (sort_by finding_leb findings)) as Hsub.
  split_and!.
  - apply (StronglySorted_sublist _ _ _ Hsub), reported_sorted.
  - apply first_of_id_NoDup.
  - intros f Hf. rewrite <- (sort_by_perm finding_leb findings). apply (elem_of_sublist _ _ f Hf Hsub).
  - intros f Hf. destruct (first_of_id_best (in_order finding_leb) ∅ (sort_by finding_leb findings) f)
      as [?|(id & _ & Hin)]; [apply reported_sorted | | rewrite sort_by_perm; assumption | assumption | set_solver].
    intros x. destruct (finding_leb_total x x); assumption.
  - reflexivity.
  - unfold proofread_report_with_basis. change (as_u64 (jnat (length (reported findings))) = Some (N.of_nat (length (reported findings)))).
    unfold jnat, as_u64. rewrite (proj2 (Z.leb_le 0 _)) by apply Nat2Z.is_nonneg.
    rewrite <- nat_N_Z, N2Z.id. reflexivity.
Qed.

Lemma drop_retry_advice_timeout f :
  is_timeout_finding f = true -> get_str "suggested_fix" (drop_retry_advice f) = Some RETRIED_FIX.
Proof.
  intros Hf. unfold drop_retry_advice. rewrite Hf. unfold is_timeout_finding in Hf.
  apply andb_true_iff in Hf as [_ Hf]. destruct f as [| | | | |m]; try discriminate. clear Hf.
  unfold get_str. simpl. unfold push_retry_evidence.
  repeat case_match; rewrite ?(map_get_insert_ne "suggested_fix" "evidence") by discriminate;
    rewrite map_get_insert; reflexivity.
Qed.

(** Advice the run has already followed.  A report is rewritten only when the retry was
    made and nothing flipped.  Then its timeout findings, and no other, are told that time is
    not what they are short of, the markdown is rendered anew from them, and the rest of the
    report stays as it is. *)
Theorem stale_retry_dropped report timeout_retry fs (out := proofread_drop_stale_retry_advice report timeout_retry) :
  get_arr "findings" report = Some fs ->
  (retry_failed timeout_retry = false -> out = report)
  /\ (retry_failed timeout_retry = true ->
        exists fs', get_arr "findings" out = Some fs' /\ length fs' = length fs
        /\ (existsb is_timeout_finding fs = true -> get_str "markdown" out = Some (markdown_of fs'))
        /\ forall i f, fs !! i = Some f -> exists f', fs' !! i = Some f'
              /\ if is_timeout_finding f then get_str "suggested_fix" f' = Some RETRIED_FIX else f' = f)
  /\ (forall key, key <> "findings" -> key <> "markdown" -> get key out = get key report).
Proof.
  intros Hfs. subst out. unfold proofread_drop_stale_retry_advice. rewrite Hfs.
  assert (exists m, report = JObj m) as [m ->].
  { destruct report; try discriminate Hfs. eauto. }
  destruct (retry_failed timeout_retry); simpl negb; cbv iota; [|split_and!; [reflexivity|discriminate|reflexivity]].
  destruct (existsb is_timeout_finding fs) eqn:Hany; split_and!; try discriminate.
  - intros _. exists (map drop_retry_advice fs). unfold get_arr, get_str. simpl. split_and!.
    + rewrite (map_get_insert_ne "findings" "markdown") by discriminate. rewrite map_get_insert. reflexivity.
    + apply length_map.
    + intros _. rewrite map_get_insert. reflexivity.
    + intros i f Hf. exists (drop_retry_advice f). split; [rewrite list_lookup_fmap, Hf; reflexivity|].
      destruct (is_timeout_finding f) eqn:Ht; [apply drop_retry_advice_timeout; assumption|].
      unfold drop_retry_advice. rewrite Ht. reflexivity.
  - intros key H1 H2. simpl. rewrite !map_get_insert_ne by assumption. reflexivity.
  - intros _. exists fs. split_and!; [assumption|reflexivity|discriminate|].
    intros i f Hf. exists f. split; [assumption|]. rewrite existsb_false in Hany.
    rewrite (Hany f); [reflexivity|]. apply list_elem_of_lookup. eauto.
  - reflexivity.
Qed.

Section theorems.
Context (hash_label_in : string -> option string) (to_string : json -> string) (sha256_hex : string -> string).

Abbreviation classify := (classify_wp_failure_from_goal hash_label_in to_string sha256_hex).
Abbreviation reason := (reason_of hash_label_in to_string).
Abbreviation kind_of := (goal_kind_of hash_label_in).

(** What a category and a kind settle. *)
Definition advice_for (category goal_kind : string) : json :=
  JObj [("category", JStr category); ("goal_kind", JStr goal_kind);
        ("why_problem", JStr (proofread_why_problem category goal_kind));
        ("suggested_fix", JStr (fix_for category goal_kind));
        ("runtime_check_suggestion", runtime_check_suggestion category goal_kind);
        ("semantic_verdict", semantic_wp_verdict category (runtime_check_suggestion category goal_kind))].

Lemma advice_key_classify goal function :
  advice_key (classify goal function) = r_category (reason goal) +s+ ":" +s+ kind_of goal.
Proof. reflexivity. Qed.

(** What the branches decide, of a goal. *)
Lemma reason_facts goal (r := reason goal) :
  r_fix r = fix_for (r_category r) (kind_of goal)
  /\ timeout_category (r_category r) = goal_timed_out goal
  /\ (goal_is_from_cache goal = Some true -> r_confidence r = "low")
  /\ (goal_is_from_cache goal <> Some true -> r_confidence r = "low" -> r_category r = "prover_unknown").
Proof.
  destruct (classify_cases (goal_status goal) (goal_raw_status goal) (kind_of goal) (goal_name_of goal)
    (goal_text to_string goal) (bool_decide (goal_is_from_cache goal = Some true))) as (_ & Hfix & Htime & Hlow & Hnot).
  fold (reason goal) in *. subst r. split_and!; [assumption..| |].
  - intros Hc. apply Hlow, bool_decide_eq_true. assumption.
  - intros Hc. apply Hnot, bool_decide_eq_false. assumption.
Qed.

Lemma advice_of_classify goal function :
  advice_of (classify goal function) = advice_for (r_category (reason goal)) (kind_of goal).
Proof.
  unfold advice_for. rewrite <- (proj1 (reason_facts goal)).
  unfold advice_of, classify_wp_failure_from_goal, proofread_report, proofread_report_with_basis.
  rewrite reported_single. reflexivity.
Qed.

Lemma same_key_same_advice goal goal' function function' :
  advice_key (classify goal function) = advice_key (classify goal' function') ->
  advice_of (classify goal function) = advice_of (classify goal' function').
Proof.
  rewrite !advice_key_classify, !advice_of_classify. intros Heq.
  by apply separated_inj in Heq as [-> ->]; auto; apply category_no_colon, known_category.
Qed.

(** Advice is shared soundly.  Goals are split from the advice of their category and
    kind, which is sent once and named by a key: two goals with one key have the same
    category and kind, and their advice is the same value -- so a goal that names a key is
    answered by whichever goal carries it. *)
Theorem advice_shared goal goal' function function' :
  advice_key (classify goal function) = advice_key (classify goal' function') ->
  r_category (reason goal) = r_category (reason goal')
  /\ kind_of goal = kind_of goal'
  /\ advice_of (classify goal function) = advice_of (classify goal' function').
Proof.
  rewrite !advice_key_classify, !advice_of_classify. intros Heq.
  apply separated_inj in Heq as [-> ->]; auto; apply category_no_colon, known_category.
Qed.

(** What is read before a goal's text.  The category is a timeout's exactly when the
    goal timed out, whatever its text says, and a replayed goal is classified with low
    confidence; otherwise only an unclassified goal is. *)
Theorem timeout_before_text goal function (c := classify goal function) :
  (goal_timed_out goal = true <-> get_str "category" c = Some "timeout" \/ get_str "category" c = Some "termination_unproved")
  /\ (goal_timed_out goal = true -> get_str "failure_kind" c = Some "prover_timeout")
  /\ (goal_is_from_cache goal = Some true -> get_str "confidence" c = Some "low")
  /\ (goal_is_from_cache goal <> Some true -> get_str "confidence" c = Some "low" ->
        get_str "category" c = Some "prover_unknown").
Proof.
  destruct (reason_facts goal) as (_ & Htime & Hlow & Hnot).
  change (get_str "category" c) with (Some (r_category (reason goal))).
  change (get_str "confidence" c) with (Some (r_confidence (reason goal))).
  change (get_str "failure_kind" c) with (Some (failure_kind_of hash_label_in to_string goal)).
  split_and!.
  - rewrite <- Htime. unfold timeout_category, one_of_strings. simpl.
    rewrite orb_false_r, orb_true_iff, !String.eqb_eq. intuition congruence.
  - intros Ht. unfold failure_kind_of.
    destruct (higher_timeout_advised goal) as (_ & _ & Hkind & _). apply Hkind in Ht. rewrite Ht. reflexivity.
  - intros Hc. f_equal. auto.
  - intros Hc [= Hl]. f_equal. auto.
Qed.

(** A name is read as a diagnosis.  A goal that did not time out and whose name holds
    the letters of "reject" -- of a function [reject_packet], say -- is put under a setup
    failure: its verdict is that WP was blocked by the setup, whatever its status, because
    the whole goal is searched and not only the part WP derives from the property. *)
Theorem name_read_as_rejection goal function :
  contains "reject" (to_ascii_lowercase (goal_name_of goal)) = true ->
  goal_timed_out goal = false ->
  backend_category (r_category (reason goal)) = true
  /\ get_str "kind" (field "semantic_verdict" (classify goal function)) = Some "backend_unavailable".
Proof.
  intros Hname Ht.
  assert (backend_category (r_category (reason goal)) = true) as Hbackend.
  { assert (contains "reject" (goal_text to_string goal) = true) as Htext.
    { unfold goal_text. rewrite lowercase_app. apply contains_longer. assumption. }
    unfold reason_of, classify_failure_reason. fold (goal_timed_out goal).
    rewrite Ht, Htext, andb_false_r, orb_true_r. repeat case_match; reflexivity. }
  split; [assumption|].
  change (field "semantic_verdict" (classify goal function)) with
    (semantic_wp_verdict (r_category (reason goal)) (runtime_check_suggestion (r_category (reason goal)) (kind_of goal))).
  unfold semantic_wp_verdict. rewrite Hbackend. reflexivity.
Qed.

Lemma triage_kind goal :
  get_str "kind" (wp_timeout_triage_from_goal goal) =
  Some (if goal_timed_out goal then "prover_timeout" else if status_pending goal then "status_propagation_delay" else "none").
Proof.
  unfold wp_timeout_triage_from_goal. repeat case_match; reflexivity.
Qed.

Abbreviation failure_kind := (failure_kind_of hash_label_in to_string).

(** What is added to the next action leaves the call itself alone. *)
Lemma next_action_call goal function action_reason :
  let call := next_tool (failure_kind goal) function action_reason in
  get_str "tool" (field "next_action" (classify goal function)) = get_str "tool" call
  /\ field "args" (field "next_action" (classify goal function)) = field "args" call.
Proof.
  cbv zeta. unfold classify_wp_failure_from_goal, field at 1 3.
  cbn [get map_get String.eqb Ascii.eqb Bool.eqb unwrap_or]. unfold next_tool, with_suggestion.
  destruct (one_of_strings _ (failure_kind goal)); [|destruct function]; destruct (is_null _); split; reflexivity.
Qed.

Lemma backend_not_timeout c : timeout_category c = true -> backend_category c = false.
Proof. intros H. apply one_of_elem in H. revert c H. apply Forall_forall. repeat constructor. Qed.

Definition toolchain_kind : string -> bool :=
  one_of_strings ["missing_prover"; "missing_why3_config"; "request_rejected"; "frama_c_internal"].

Lemma toolchain_backend c : one_of_strings CATEGORIES c = true -> toolchain_kind (wp_failure_kind c "none") = backend_category c.
Proof. intros H. apply one_of_elem in H. revert c H. apply Forall_forall. repeat constructor. Qed.

Lemma toolchain_kind_goal goal :
  toolchain_kind (failure_kind goal) = backend_category (r_category (reason goal)) && negb (status_pending goal).
Proof.
  unfold failure_kind_of. rewrite triage_kind. simpl unwrap_or.
  destruct (reason_facts goal) as (_ & Htime & _).
  destruct (goal_timed_out goal) eqn:Ht; [|destruct (status_pending goal)].
  - rewrite backend_not_timeout by assumption. reflexivity.
  - rewrite andb_false_r. reflexivity.
  - rewrite andb_true_r. apply toolchain_backend, known_category.
Qed.

Lemma semantic_next_tool category suggestion :
  get_str "next_tool" (semantic_wp_verdict category suggestion) =
  Some (if backend_category category || negb (is_null suggestion) then "self_check" else "get_wp_goals")
  /\ (get_str "kind" (semantic_wp_verdict category suggestion) = Some "backend_unavailable" <-> backend_category category = true).
Proof.
  unfold semantic_wp_verdict. destruct (backend_category category); [split; [|split]; reflexivity|].
  destruct (is_null suggestion); [|split; [reflexivity | split; discriminate]].
  destruct (category =s "prover_unknown"); [|destruct (one_of_strings _ category)];
    (split; [reflexivity | split; discriminate]).
Qed.

(** Where a failure sends the caller.  The next action is [self_check] exactly for the
    setup categories of a goal whose status is final, and otherwise asks for the goals of
    the named function; the verdict beside it names [self_check] for the setup categories
    and also for every claim a run of the program could refute, so the two disagree on such
    a claim and on a setup category of a goal without a final status. *)
Theorem failure_routing goal function (c := classify goal function) (category := r_category (reason goal)) :
  (get_str "tool" (field "next_action" c) = Some "self_check" <->
     backend_category category = true /\ status_pending goal = false)
  /\ (get_str "tool" (field "next_action" c) <> Some "self_check" ->
        get_str "tool" (field "next_action" c) = Some "get_wp_goals"
        /\ get_str "function" (field "args" (field "next_action" c)) = function)
  /\ (get_str "next_tool" (field "semantic_verdict" c) = Some "self_check" <->
        backend_category category = true \/ runtime_checkable_claim category (kind_of goal) = true)
  /\ (get_str "kind" (field "semantic_verdict" c) = Some "backend_unavailable" <-> backend_category category = true).
Proof.
  change (field "semantic_verdict" c) with (semantic_wp_verdict category (runtime_check_suggestion category (kind_of goal))).
  destruct (semantic_next_tool category (runtime_check_suggestion category (kind_of goal))) as [Hnext Hkind].
  destruct (next_action_call goal function "") as [Htool Hargs]. fold c in Htool, Hargs.
  pose proof (toolchain_kind_goal goal) as Hroute. fold category in Hroute.
  rewrite Htool, Hargs, Hnext. unfold next_tool. fold (toolchain_kind (failure_kind goal)). rewrite Hroute.
  split_and!; [| | |assumption].
  - rewrite <- (negb_true_iff (status_pending goal)), <- andb_true_iff.
    destruct (backend_category category && _); [intuition|]. destruct function; split; discriminate.
  - destruct (backend_category category && _); [intuition|]. destruct function; auto.
  - unfold runtime_check_suggestion. destruct (backend_category category), (runtime_checkable_claim category (kind_of goal));
      simpl; intuition congruence.
Qed.
End theorems.

(** ** Witnesses *)

(** Two goals of unlike names that fail alike. *)
Definition demo_goal (name status : string) : json :=
  JObj [("name", JStr name); ("goal_kind", JStr "spec"); ("status", JStr status)].

Lemma advice_shared_witness :
  let classify := classify_wp_failure_from_goal (fun _ => None) (fun _ => "") (fun text => text) in
  let a := demo_goal "typed_f_ensures" "UNKNOWN" in
  let b := demo_goal "typed_g_ensures_2" "NORESULT" in
  advice_key (classify a None) = advice_key (classify b (Some "g"))
  /\ advice_of (classify a None) = advice_of (classify b (Some "g")).
Proof.
  cbv zeta. split; [vm_compute; reflexivity|].
  apply (advice_shared (fun _ => None) (fun _ => "") (fun text => text)). vm_compute. reflexivity.
Defined.

Lemma name_read_as_rejection_witness :
  get_str "kind" (field "semantic_verdict" (classify_wp_failure_from_goal (fun _ => None) (fun _ => "")
    (fun text => text) (demo_goal "typed_reject_packet_ensures" "UNKNOWN") (Some "reject_packet")))
  = Some "backend_unavailable".
Proof.
  apply (name_read_as_rejection (fun _ => None) (fun _ => "") (fun text => text)
    (demo_goal "typed_reject_packet_ensures" "UNKNOWN") (Some "reject_packet")); vm_compute; reflexivity.
Defined.

Lemma stale_retry_dropped_witness :
  let report := proofread_report [JObj [("id", JStr "a"); ("category", JStr "timeout")]] in
  let retry := JObj [("attempted", JBool true); ("flipped", JArr [])] in
  exists fs', get_arr "findings" (proofread_drop_stale_retry_advice report retry) = Some fs'
    /\ map (get_str "suggested_fix") fs' = [Some RETRIED_FIX].
Proof.
  cbv zeta.
  destruct (stale_retry_dropped (proofread_report [JObj [("id", JStr "a"); ("category", JStr "timeout")]])
    (JObj [("attempted", JBool true); ("flipped", JArr [])]) [JObj [("id", JStr "a"); ("category", JStr "timeout")]]
    eq_refl) as (_ & Hdrop & _).
  destruct (Hdrop eq_refl) as ([|f' [|]] & Hfs & Hlen & _ & Hall); try discriminate Hlen.
  destruct (Hall 0 _ eq_refl) as (f & [= <-] & Hfix). exists [f']. split; [assumption|].
  simpl. f_equal. apply Hfix.
Defined.
