(* ===== verification/WpMessages.v ===== *)
(** * What WP says beside its verdicts (the end of src/src/mcp/wpclass.rs)

    The message stream names what a goal record cannot carry: that Why3 aborted, and the
    memory-model hypotheses WP assumed.  The scheduler's payload is searched for goals of
    a status.  The rendering of a value is a parameter, and so is the table of letters and
    digits outside ASCII ([wide_alphanumeric], on a character's bytes). *)

From S2P Require Import Prelude RustStr BTree Json Status StableId WpTriage WpFailure.
Local Open Scope nat_scope.

(** ** The backend's abort *)

Definition why3_aborted (text : string) : bool :=
  contains "why3" text && any_contains ["anomaly"; "invalid_argument"; "internal error"; "fatal error"] text.

Definition ANOMALY_SAMPLE : nat := 5.

Record Stream := mkStream { anomalies : list json; anomaly_count : nat; cast_lines : list json; cast_warned : bool }.

Definition message_text (message : json) : string := to_ascii_lowercase (finding_str message "message" "").

Definition note_abort (message : json) (s : Stream) : Stream :=
  if why3_aborted (message_text message) then
    mkStream (if length (anomalies s) <? ANOMALY_SAMPLE then anomalies s ++ [field "message" message] else anomalies s)
      (S (anomaly_count s)) (cast_lines s) (cast_warned s)
  else s.

Definition note_cast (message : json) (s : Stream) : Stream :=
  if contains "cast with incompatible pointer" (message_text message) then
    mkStream (anomalies s) (anomaly_count s)
      (match pointer ["source"; "line"] message with
       | Some line => if existsb (fun kept => json_eqb kept line) (cast_lines s) then cast_lines s else cast_lines s ++ [line]
       | None => cast_lines s
       end) true
  else s.

Definition note_message (s : Stream) (message : json) : Stream := note_cast message (note_abort message s).
Definition read_stream (messages : list json) : Stream := fold_left note_message messages (mkStream [] 0 [] false).

Definition model_refuses_casts (model : option string) : bool :=
  is_some_and (fun model => contains "nocast" (to_ascii_lowercase model)) model.

Definition CAST_REASON : string :=
  "Why3 aborted, so no prover answered these goals and their FAILED status is not a "
  +s+ "verdict on the C code or the ACSL. WP also warned about casts between incompatible "
  +s+ "pointer types at the lines below, and the model in force refuses casts. Re-run under "
  +s+ "Typed+cast before changing an annotation: an anomaly is not an unprovable goal.".

Definition CAST_ACTION : json :=
  JObj [("tool", JStr "run_wp"); ("args", JObj [("model", JStr "Typed+cast"); ("cache", JStr "None")]);
        ("reason", JStr ("Prove the same obligations under a model that admits the pointer casts "
           +s+ "this code performs. If they prove there, the nocast run said nothing "
           +s+ "about them. The goal list then holds both models: a goal named "
           +s+ "typed_nocast_... is the crashed run's record, not a second failure, and "
           +s+ "only the typed_cast_... rows are this verdict."))].

Definition ANOMALY_REASON : string :=
  "Why3 aborted, so no prover answered these goals and their FAILED status is not a "
  +s+ "verdict on the C code or the ACSL. Establish the toolchain versions before changing "
  +s+ "an annotation.".

Definition ANOMALY_ACTION : json :=
  JObj [("tool", JStr "self_check"); ("args", JObj []);
        ("reason", JStr ("Record the Frama-C, Why3, and prover versions the anomaly came from "
           +s+ "before touching the specification."))].

Definition wp_backend_diagnosis (messages : list json) (model : option string) : json :=
  let s := read_stream messages in
  if anomaly_count s =? 0 then JNull
  else
    let '(kind, reason, next_action) :=
      if model_refuses_casts model && cast_warned s
      then ("why3_anomaly_with_pointer_cast", CAST_REASON, CAST_ACTION)
      else ("why3_anomaly", ANOMALY_REASON, ANOMALY_ACTION) in
    JObj [("kind", JStr kind); ("confidence", JStr "high"); ("model", jopt JStr model); ("reason", JStr reason);
          ("anomaly_count", jnat (anomaly_count s)); ("anomalies", JArr (anomalies s));
          ("anomalies_truncated", JBool (ANOMALY_SAMPLE <? anomaly_count s));
          ("cast_warning_lines", JArr (cast_lines s)); ("cast_warning_lines_are_a_sample", JBool true);
          ("next_action", next_action)].

(** ** Memory-model hypotheses *)

Definition hypothesis_function_name (entry : json) : string := finding_str entry "function" "".
Definition by_function_name (left right : json) : bool :=
  String.leb (hypothesis_function_name left) (hypothesis_function_name right).

(** What could not be read, as the last entry. *)
Definition unparsed_entry (unparsed : N) (source : json) (matched_by : string) : json :=
  JObj [("function", JNull); ("hypotheses", JArr []); ("hypothesis_count", jnat 0); ("hypotheses_truncated", JBool false);
        ("unparsed_warning_count", jN unparsed); ("source_location", source); ("matched_by", JStr matched_by)].

Definition with_unparsed (unparsed : N) (source : json) (matched_by : string) (entries : list json) : list json :=
  if (0 <? unparsed)%N then entries ++ [unparsed_entry unparsed source matched_by] else entries.

(** *** Merging two readings *)

Definition unparsed_of (entries : list json) : N :=
  foldr N.add 0%N (collect_some (get_u64 "unparsed_warning_count") entries).
Definition named (entry : json) : bool := is_some_and (fun name => negb (is_null name)) (get "function" entry).
Definition clause_count (entry : json) : N := unwrap_or (get_u64 "hypothesis_count" entry) 0%N.
Definition same_function (a b : json) : bool := opt_eqb json_eqb (get "function" a) (get "function" b).

(** The first kept entry of the same function, replaced by a longer one. *)
Fixpoint merge_entry (merged : list json) (entry : json) : list json :=
  match merged with
  | [] => [entry]
  | kept :: merged =>
    if same_function kept entry then (if (clause_count kept <? clause_count entry)%N then entry else kept) :: merged
    else kept :: merge_entry merged entry
  end.

Definition merge_memory_model_hypotheses (into from : list json) : list json :=
  with_unparsed (N.max (unparsed_of into) (unparsed_of from)) JNull "log_category"
    (sort_by by_function_name (fold_left merge_entry (bfilter named from) (bfilter named into))).

(** *** Reading one message *)

Definition MARKER : string := "Memory model hypotheses for function".

Definition quoted_name (text : string) : option string :=
  find "'" text ≫= fun open =>
  let rest := skip (open + 1) text in
  find "'" rest ≫= fun close =>
  let name := take_str close rest in
  if is_empty name then None else Some name.

(** Where a block stops: at the end of the comment or at the next marker. *)
Definition block_stop (marker after : string) : nat :=
  match find "*/" after, find marker after with
  | Some close, Some next => Nat.min close next
  | Some close, None => close
  | None, Some next => next
  | None, None => String.length after
  end.

Fixpoint blocks_go (fuel : nat) (rest marker : string) : list (string * string) :=
  match fuel with
  | 0 => []
  | S fuel =>
    match find marker rest with
    | None => []
    | Some at_ =>
      let after := skip (at_ + String.length marker) rest in
      match quoted_name after with
      | None => blocks_go fuel after marker
      | Some function =>
        let stop := block_stop marker after in
        (function, take_str stop after) :: blocks_go fuel (skip stop after) marker
      end
    end
  end.

Definition hypothesis_blocks (text marker : string) : list (string * string) :=
  blocks_go (S (String.length text)) text marker.

Section clauses.
Variable wide_alphanumeric : string -> bool.

(** [char::is_alphanumeric] of a character's bytes, and the last character of a text:
    its last byte with the continuation bytes that follow a leading one. *)
Definition char_alphanumeric (c : string) : bool :=
  match c with String a "" => is_ascii_alphanumeric a | _ => wide_alphanumeric c end.

Definition is_continuation (c : ascii) : bool := in_range 128 191 c.

Fixpoint last_char (s : string) : option string :=
  match s with
  | "" => None
  | String c s' =>
    match last_char s' with
    | Some found => Some found
    | None => if is_continuation c then None else Some s
    end
  end.

Definition word_boundary (before : string) : bool :=
  is_empty before
  || is_some_and (fun previous => negb (char_alphanumeric previous) && negb (previous =s "_")) (last_char before).

Fixpoint keyword_from (fuel from : nat) (text keyword : string) : option nat :=
  match fuel with
  | 0 => None
  | S fuel =>
    match find keyword (skip from text) with
    | None => None
    | Some at_ =>
      let at_ := from + at_ in
      if word_boundary (take_str at_ text) then Some at_
      else keyword_from fuel (at_ + String.length keyword) text keyword
    end
  end.

Definition clause_keyword_at (text keyword : string) : option nat :=
  keyword_from (S (String.length text)) 0 text keyword.

Definition CLAUSE_SAMPLE : nat := 16.
Definition CLAUSE_KEYWORDS : list string := ["requires "; "ensures "; "assigns "].

Definition min_opt (l : list nat) : option nat :=
  match l with [] => None | x :: l => Some (foldr Nat.min x l) end.

Definition clause_of (statement : string) : option string :=
  let collapsed := join " " (split_whitespace statement) in
  (fun at_ => skip at_ collapsed +s+ ";") <$> min_opt (collect_some (clause_keyword_at collapsed) CLAUSE_KEYWORDS).

(** The clauses not seen before, in their order. *)
Fixpoint new_clauses (seen : gset string) (statements : list string) : list string :=
  match statements with
  | [] => []
  | statement :: statements =>
    match clause_of statement with
    | None => new_clauses seen statements
    | Some clause =>
      if bool_decide (clause ∈ seen) then new_clauses seen statements
      else clause :: new_clauses ({[clause]} ∪ seen) statements
    end
  end.

Definition hypothesis_clauses (block : string) : list string * nat :=
  let clauses := new_clauses ∅ (split_char ";" block) in (firstn CLAUSE_SAMPLE clauses, length clauses).

(** *** Reading the stream *)

Record Hypotheses := mkHypotheses { h_found : list json; h_unparsed : N; h_source : json; h_matched_by : string }.

Definition hypothesis_entry (function : string) (hypotheses : list string) (total : nat) (source : json)
    (matched_by : string) : json :=
  JObj [("function", JStr function); ("hypotheses", JArr (map JStr hypotheses)); ("hypothesis_count", jnat total);
        ("hypotheses_truncated", JBool (length hypotheses <? total)); ("source_location", source);
        ("matched_by", JStr matched_by)].

Definition add_block (source : json) (matched_by : string) (found : list json) (block : string * string) : list json :=
  let '(function, text) := block in
  if existsb (fun entry => get_str "function" entry =?s function) found then found
  else
    let '(hypotheses, total) := hypothesis_clauses text in
    found ++ [hypothesis_entry function hypotheses total source matched_by].

Definition read_hypotheses (h : Hypotheses) (message : json) : Hypotheses :=
  if negb (get_str "plugin" message =?s "wp") then h
  else
    let by_category := get_str "category" message =?s "hypothesis" in
    let blocks := hypothesis_blocks (finding_str message "message" "") MARKER in
    let matched_by := if by_category then "log_category" else "message_text" in
    match blocks with
    | [] =>
      if negb by_category then h
      else if (h_unparsed h =? 0)%N
      then mkHypotheses (h_found h) 1 (field "source" message) matched_by
      else mkHypotheses (h_found h) (h_unparsed h + 1) (h_source h) (h_matched_by h)
    | _ =>
      mkHypotheses (fold_left (add_block (field "source" message) matched_by) blocks (h_found h))
        (h_unparsed h) (h_source h) (h_matched_by h)
    end.

Definition collect_memory_model_hypotheses (messages : list json) : list json :=
  let h := fold_left read_hypotheses messages (mkHypotheses [] 0 JNull "log_category") in
  with_unparsed (h_unparsed h) (h_source h) (h_matched_by h) (sort_by by_function_name (h_found h)).

Definition wp_memory_model_hypotheses (messages : list json) : list json := collect_memory_model_hypotheses messages.

Definition wp_memory_model_hypotheses_in_text (text : string) : list json :=
  collect_memory_model_hypotheses
    [JObj [("kind", JStr "WARNING"); ("plugin", JStr "wp"); ("message", JStr text)]].
End clauses.

(** ** The scheduler's payload *)

Definition has_goal_id (object : jmap) : bool :=
  map_contains_key "stable_goal_id" object || map_contains_key "goal_kind" object
  || map_contains_key "property_marker" object.

Fixpoint wp_tasks_contain_goal_with_status (accept : string -> bool) (value : json) : bool :=
  match value with
  | JArr values => existsb (wp_tasks_contain_goal_with_status accept) values
  | JObj object =>
    (has_goal_id object && is_some_and accept (consolidated_status value))
    || existsb (fun entry => wp_tasks_contain_goal_with_status accept entry.2) object
  | _ => false
  end.

Definition wp_tasks_contain_failed_goal : json -> bool := wp_tasks_contain_goal_with_status status_is_failed.
Definition wp_tasks_contain_unproved_goal : json -> bool :=
  wp_tasks_contain_goal_with_status (one_of_strings ["unknown"; "invalid"; "failed"]).

Definition wp_failure_kind_from_tasks (to_string : json -> string) (tasks triage : json) : string :=
  let triage_kind := finding_str triage "kind" "none" in
  if negb (triage_kind =s "none") then wp_failure_kind "prover_unknown" triage_kind
  else
    let text := to_ascii_lowercase (to_string tasks) in
    if wp_tasks_contain_failed_goal tasks then "frama_c_internal"
    else if names_missing_prover text then "missing_prover"
    else if names_why3_config text then "missing_why3_config"
    else if wp_tasks_contain_unproved_goal tasks then "proof_obligation"
    else "none".

Definition field_else (fallback : json) (key : string) (v : json) : json := unwrap_or (get key v) fallback.

Definition wp_prover_result (goal : json) : json :=
  JObj [("status", field "status" goal); ("raw_status", field "raw_status" goal);
        ("normalized_status", field "normalized_status" goal); ("raw_property_status", field "raw_property_status" goal);
        ("normalized_property_status", field "normalized_property_status" goal);
        ("counts_as_progress", field_else (JBool false) "counts_as_progress" goal);
        ("vacuous", field_else (JBool false) "vacuous" goal);
        ("requires_hypotheses", field_else (JBool false) "requires_hypotheses" goal)].

(** ** Lemmas on the stream *)

Definition aborts (message : json) : bool := why3_aborted (message_text message).
Definition warns_of_cast (message : json) : bool := contains "cast with incompatible pointer" (message_text message).

Definition distinct_values : list json -> Prop := StronglySorted (fun a b => json_eqb a b = false).

Lemma distinct_values_snoc l v :
  distinct_values l -> existsb (fun kept => json_eqb kept v) l = false -> distinct_values (l ++ [v]).
Proof.
  intros Hd; induction Hd as [|a l Hl IH Ha]; simpl; intros Hv.
  { constructor; constructor. }
  apply orb_false_iff in Hv as [Hv Hrest]. constructor; [apply IH; assumption|].
  apply Forall_app; split; [assumption|]. constructor; [assumption|constructor].
Qed.

Lemma firstn_snoc {A} n (l : list A) a :
  firstn n (l ++ [a]) = if length l <? n then firstn n l ++ [a] else firstn n l.
Proof.
  rewrite take_app. destruct (Nat.ltb_spec (length l) n).
  - f_equal. destruct (n - length l) as [|k] eqn:Hk; [lia|]. simpl. rewrite take_nil. reflexivity.
  - replace (n - length l) with 0 by lia. apply app_nil_r.
Qed.

Lemma as_u64_jnat n : as_u64 (jnat n) = Some (N.of_nat n).
Proof.
  unfold jnat, as_u64. rewrite (proj2 (Z.leb_le 0 _)) by apply Nat2Z.is_nonneg.
  rewrite <- nat_N_Z, N2Z.id. reflexivity.
Qed.

(** What the pass over the messages has gathered. *)
Lemma read_stream_spec messages (s := read_stream messages) :
  anomalies s = firstn ANOMALY_SAMPLE (map (field "message") (bfilter aborts messages))
  /\ anomaly_count s = count_if aborts messages
  /\ cast_warned s = existsb warns_of_cast messages
  /\ distinct_values (cast_lines s).
Proof.
  subst s. unfold read_stream. induction messages as [|m messages IH] using rev_ind.
  { split_and!; try reflexivity. constructor. }
  rewrite fold_left_app. set (s := fold_left note_message messages (mkStream [] 0 [] false)) in *. simpl fold_left.
  destruct IH as (Ha & Hc & Hw & Hd).
  assert (anomalies (note_message s m) = anomalies (note_abort m s)
    /\ anomaly_count (note_message s m) = anomaly_count (note_abort m s)
    /\ cast_warned (note_abort m s) = cast_warned s /\ cast_lines (note_abort m s) = cast_lines s) as (-> & -> & Hw' & Hl').
  { unfold note_message, note_cast, note_abort. destruct (contains _ _), (why3_aborted _); split_and!; reflexivity. }
  rewrite existsb_app, bfilter_app. unfold count_if. rewrite bfilter_app, length_app. simpl.
  split_and!.
  - unfold note_abort. fold (aborts m). destruct (aborts m); [|rewrite app_nil_r; assumption].
    rewrite map_app. simpl map. rewrite firstn_snoc, length_map. cbn [anomalies].
    rewrite Ha, length_firstn, length_map. destruct (Nat.ltb_spec (length (bfilter aborts messages)) ANOMALY_SAMPLE);
      destruct (Nat.ltb_spec (Nat.min ANOMALY_SAMPLE (length (bfilter aborts messages))) ANOMALY_SAMPLE); try lia; reflexivity.
  - unfold note_abort. fold (aborts m). unfold count_if in Hc. destruct (aborts m); simpl; lia.
  - unfold note_message, note_cast. fold (warns_of_cast m).
    destruct (warns_of_cast m); simpl; rewrite ?orb_true_r, ?orb_false_r; congruence.
  - unfold note_message, note_cast. rewrite Hl'. destruct (contains _ _); simpl; [|congruence].
    destruct (pointer _ m) as [line|]; [|assumption].
    destruct (existsb _ (cast_lines s)) eqn:He; [assumption|]. apply distinct_values_snoc; assumption.
Qed.

(** What the message stream says of the backend.  There is a diagnosis exactly when some
    message says that Why3 aborted; it counts all of them and shows the first five, and
    lists each warned line once.  A run under a model that admits casts is advised exactly
    when the model in force refuses them and a cast was warned of, with or without a line;
    otherwise the toolchain is to be looked at. *)
Theorem backend_diagnosis_spec messages model (d := wp_backend_diagnosis messages model) :
  (d = JNull <-> forall m, m ∈ messages -> aborts m = false)
  /\ (d <> JNull ->
      get_u64 "anomaly_count" d = Some (N.of_nat (count_if aborts messages))
      /\ get_arr "anomalies" d = Some (firstn ANOMALY_SAMPLE (map (field "message") (bfilter aborts messages)))
      /\ get_bool "anomalies_truncated" d = Some (ANOMALY_SAMPLE <? count_if aborts messages)
      /\ (exists lines, get_arr "cast_warning_lines" d = Some lines /\ distinct_values lines)
      /\ get_str "tool" (field "next_action" d)
         = Some (if model_refuses_casts model && existsb warns_of_cast messages then "run_wp" else "self_check")).
Proof.
  subst d. destruct (read_stream_spec messages) as (Ha & Hc & Hw & Hd). unfold wp_backend_diagnosis.
  rewrite Hc, Hw, Ha. destruct (Nat.eqb_spec (count_if aborts messages) 0) as [H0|H0].
  - split; [|congruence]. split; [intros _ m Hm | reflexivity].
    unfold count_if in H0. apply nil_length_inv in H0. rewrite bfilter_nil in H0. auto.
  - split.
    + split; [destruct (_ && _); discriminate|]. intros Hnone. elim H0. unfold count_if.
      rewrite (proj2 (bfilter_nil aborts messages)); auto.
    + intros _. destruct (_ && _); (split_and!; [apply as_u64_jnat | reflexivity | reflexivity | eexists; split; [reflexivity|assumption] | reflexivity]).
Qed.

(** ** Lemmas on readings *)

Definition function_of (entry : json) : option string := get_str "function" entry.

#[local] Arguments function_of : simpl never.

(** What a reading says of a function. *)
Definition reading (function : string) (entries : list json) : option json :=
  find_first (fun entry => function_of entry =?s function) entries.

(** A reading: its entries name a function by a string, each function once, but for the
    count of what could not be parsed. *)
Definition well_named (entries : list json) : Prop :=
  NoDup (map function_of entries) /\ Forall (fun entry => exists f, function_of entry = Some f) entries.
Definition counts_nothing (entry : json) : Prop := get_u64 "unparsed_warning_count" entry = None.
Definition is_reading (entries : list json) : Prop :=
  well_named (bfilter named entries) /\ Forall counts_nothing (bfilter named entries).

(** The longer of two entries, the first when they are as long. *)
Definition longer (a b : option json) : option json :=
  match a, b with
  | Some a, Some b => Some (if (clause_count a <? clause_count b)%N then b else a)
  | Some a, None => Some a
  | None, b => b
  end.

Lemma function_of_get entry f : function_of entry = Some f -> get "function" entry = Some (JStr f).
Proof.
  unfold function_of, get_str. destruct (get "function" entry) as [[]|]; simpl; try discriminate. congruence.
Qed.

Lemma same_function_spec a b f g :
  function_of a = Some f -> function_of b = Some g -> same_function a b = (f =s g).
Proof. intros Ha Hb. unfold same_function. apply function_of_get in Ha, Hb. rewrite Ha, Hb. reflexivity. Qed.

Lemma named_function entry f : function_of entry = Some f -> named entry = true.
Proof. intros H. apply function_of_get in H. unfold named. rewrite H. reflexivity. Qed.

Lemma reading_cons f e entries : reading f (e :: entries) = if function_of e =?s f then Some e else reading f entries.
Proof. reflexivity. Qed.

Lemma reading_named f entries : reading f (bfilter named entries) = reading f entries.
Proof.
  induction entries as [|e entries IH]; [reflexivity|]. unfold reading in *. simpl.
  destruct (function_of e =?s f) eqn:He.
  - apply opt_eqb_string_Some in He. rewrite (named_function e f He). simpl.
    apply opt_eqb_string_Some in He. rewrite He. reflexivity.
  - destruct (named e); simpl; rewrite ?He; assumption.
Qed.

Lemma reading_Some f entries e : reading f entries = Some e -> e ∈ entries /\ function_of e = Some f.
Proof. intros H. apply find_first_Some in H as [Hin He]. apply opt_eqb_string_Some in He. auto. Qed.

Lemma reading_elem f entries e :
  NoDup (map function_of entries) -> e ∈ entries -> function_of e = Some f -> reading f entries = Some e.
Proof.
  induction entries as [|a entries IH]; intros Hnd Hin He; [inversion Hin|].
  apply NoDup_cons in Hnd as [Hna Hnd]. unfold reading in *. simpl.
  apply elem_of_cons in Hin as [->|Hin].
  - apply opt_eqb_string_Some in He. rewrite He. reflexivity.
  - destruct (function_of a =?s f) eqn:Ha; [|auto].
    apply opt_eqb_string_Some in Ha. elim Hna. rewrite Ha, <- He. apply list_elem_of_In, in_map, list_elem_of_In. assumption.
Qed.

Lemma reading_perm f l k : NoDup (map function_of l) -> l ≡ₚ k -> reading f l = reading f k.
Proof.
  intros Hnd Hp. assert (NoDup (map function_of k)) as Hnd' by (rewrite <- Hp; assumption).
  destruct (reading f k) as [e|] eqn:Hk.
  - apply reading_Some in Hk as [Hin He]. apply reading_elem; [assumption| |assumption]. rewrite Hp. assumption.
  - apply find_first_None. intros a Ha. rewrite Hp in Ha. apply (proj1 (find_first_None _ _) Hk _ Ha).
Qed.

Lemma function_of_merge merged e f :
  function_of e = Some f -> Forall (fun entry => exists f, function_of entry = Some f) merged ->
  map function_of (merge_entry merged e)
  = if bool_decide (Some f ∈ map function_of merged) then map function_of merged else map function_of merged ++ [Some f].
Proof.
  intros He. induction merged as [|a merged IH]; cbn [map merge_entry app]; intros Hall.
  { rewrite bool_decide_eq_false_2 by apply not_elem_of_nil. congruence. }
  apply Forall_cons in Hall as [[g Hg] Hall]. rewrite (same_function_spec a e g f Hg He).
  destruct (String.eqb_spec g f) as [->|Hne].
  - rewrite bool_decide_eq_true_2 by (rewrite Hg; left). destruct (_ <? _)%N; cbn [map]; congruence.
  - cbn [map]. rewrite (IH Hall), Hg.
    case_bool_decide as Hin; case_bool_decide as Hcons; rewrite elem_of_cons in Hcons; try reflexivity.
    + elim Hcons. auto.
    + destruct Hcons as [[=]|?]; [congruence|contradiction].
Qed.

Lemma merge_entry_well_named merged e f : function_of e = Some f -> well_named merged -> well_named (merge_entry merged e).
Proof.
  intros He [Hnd Hall]. split.
  - rewrite (function_of_merge merged e f He Hall). case_bool_decide; [assumption|].
    apply NoDup_app. split; [assumption|]. split; [|apply NoDup_singleton].
    intros x Hx Hx'. apply list_elem_of_singleton in Hx' as ->. auto.
  - clear Hnd. induction Hall as [|a merged Ha Hall IH]; simpl; [constructor; [eauto|constructor]|].
    destruct (same_function a e); constructor; auto. destruct (_ <? _)%N; eauto.
Qed.

(** Merging one entry changes what is read of its function only. *)
Lemma reading_merge_entry merged e f g :
  function_of e = Some g -> Forall (fun entry => exists f, function_of entry = Some f) merged ->
  reading f (merge_entry merged e) = longer (reading f merged) (if g =s f then Some e else None).
Proof.
  intros He. unfold reading. induction merged as [|a merged IH]; simpl; intros Hall.
  { rewrite He. simpl. destruct (g =s f); reflexivity. }
  apply Forall_cons in Hall as [[h Hh] Hall]. rewrite (same_function_spec a e h g Hh He).
  destruct (String.eqb_spec h g) as [->|Hne]; simpl.
  - rewrite Hh. simpl. destruct (_ <? _)%N eqn:Hlt; simpl; rewrite ?He, ?Hh; simpl; destruct (g =s f); simpl; rewrite ?Hlt; try reflexivity;
      destruct (find_first _ merged); reflexivity.
  - rewrite Hh. simpl. destruct (String.eqb_spec h f) as [->|Hf]; [|auto].
    destruct (String.eqb_spec g f); [congruence|reflexivity].
Qed.

Lemma fold_merge merged from :
  well_named merged -> well_named from ->
  well_named (fold_left merge_entry from merged)
  /\ forall f, reading f (fold_left merge_entry from merged) = longer (reading f merged) (reading f from).
Proof.
  revert merged; induction from as [|e from IH]; intros merged Hm [Hnd Hall]; simpl.
  { split; [assumption|]. intros f. destruct (reading f merged); reflexivity. }
  apply NoDup_cons in Hnd as [Hne Hnd]. apply Forall_cons in Hall as [[g He] Hall].
  destruct (IH (merge_entry merged e) (merge_entry_well_named merged e g He Hm) (conj Hnd Hall)) as [Hw Hr].
  split; [assumption|]. intros f. rewrite Hr, (reading_merge_entry merged e f g He (proj2 Hm)).
  rewrite reading_cons, He. cbn [opt_eqb].
  destruct (String.eqb_spec g f) as [->|Hgf]; [|destruct (reading f merged), (reading f from); reflexivity].
  assert (reading f from = None) as ->.
  { apply find_first_None. intros a Ha. apply opt_eqb_string_Some_false. intros Heq. elim Hne.
    rewrite He, <- Heq. apply list_elem_of_In, in_map, list_elem_of_In. assumption. }
  destruct (reading f merged); reflexivity.
Qed.

Lemma Forall_merge (P : json -> Prop) merged from :
  Forall P merged -> Forall P from -> Forall P (fold_left merge_entry from merged).
Proof.
  intros Hm Hf; revert merged Hm; induction Hf as [|e from He Hf IH]; intros merged Hm; simpl; [assumption|].
  apply IH. clear IH Hf from. induction Hm as [|a merged Ha Hm IH]; simpl; [repeat constructor; assumption|].
  destruct (same_function a e); constructor; try assumption. destruct (_ <? _)%N; assumption.
Qed.

Lemma by_function_name_total a b : by_function_name a b = true \/ by_function_name b a = true.
Proof. apply (total str_le). Qed.

Lemma by_function_name_trans a b c : by_function_name a b = true -> by_function_name b c = true -> by_function_name a c = true.
Proof. unfold by_function_name. intros H1 H2. apply (transitivity (R := str_le) H1 H2). Qed.

Lemma sorted_by_name l : StronglySorted (in_order by_function_name) (sort_by by_function_name l).
Proof. apply sort_by_StronglySorted; [apply by_function_name_total | apply by_function_name_trans]. Qed.

Lemma well_named_perm l k : l ≡ₚ k -> well_named l -> well_named k.
Proof. intros Hp [Hnd Hall]. split; rewrite <- Hp; assumption. Qed.

Lemma well_named_all_named l : well_named l -> bfilter named l = l.
Proof.
  intros [_ Hall]. apply bfilter_all. intros a Ha. rewrite Forall_forall in Hall. destruct (Hall a Ha) as [f Hf].
  apply (named_function a f Hf).
Qed.

Lemma sum_counts_nothing l : Forall counts_nothing l -> unparsed_of l = 0%N.
Proof.
  intros H. unfold unparsed_of. assert (collect_some (get_u64 "unparsed_warning_count") l = []) as ->; [|reflexivity].
  apply collect_some_nil. apply Forall_forall. assumption.
Qed.

Lemma as_u64_jN n : as_u64 (jN n) = Some n.
Proof. unfold jN, as_u64. rewrite (proj2 (Z.leb_le 0 _)) by apply N2Z.is_nonneg. rewrite N2Z.id. reflexivity. Qed.

(** The entries of a list whose last one counts what could not be read. *)
Lemma with_unparsed_spec unparsed source matched_by l (r := with_unparsed unparsed source matched_by l) :
  well_named l -> Forall counts_nothing l ->
  bfilter named r = l /\ unparsed_of r = unparsed /\ forall f, reading f r = reading f l.
Proof.
  intros Hw Hc. pose proof (well_named_all_named l Hw) as Hn. pose proof (sum_counts_nothing l Hc) as Hs. subst r.
  assert (bfilter named (with_unparsed unparsed source matched_by l) = l) as Hfilter.
  { unfold with_unparsed. destruct (0 <? unparsed)%N; [|assumption]. rewrite bfilter_app, Hn. simpl. apply app_nil_r. }
  split; [assumption|]. split; [|intros f; rewrite <- reading_named, Hfilter; reflexivity].
  unfold with_unparsed. destruct (N.ltb_spec 0 unparsed); [|rewrite Hs; lia].
  unfold unparsed_of in *. rewrite collect_some_app.
  assert (collect_some (get_u64 "unparsed_warning_count") l = []) as ->.
  { apply collect_some_nil. apply Forall_forall. assumption. }
  assert (get_u64 "unparsed_warning_count" (unparsed_entry unparsed source matched_by) = Some unparsed) as Hu by apply as_u64_jN.
  simpl app. cbn [collect_some]. rewrite Hu. apply N.add_0_r.
Qed.

Lemma longer_count a b : clause_count <$> longer a b = clause_count <$> longer b a.
Proof.
  destruct a as [a|], b as [b|]; try reflexivity. simpl.
  destruct (N.ltb_spec (clause_count a) (clause_count b)), (N.ltb_spec (clause_count b) (clause_count a)); f_equal; lia.
Qed.

Lemma longer_assoc a b c : longer (longer a b) c = longer a (longer b c).
Proof.
  destruct a as [a|], b as [b|], c as [c|]; try reflexivity. simpl.
  destruct (N.ltb_spec (clause_count a) (clause_count b)), (N.ltb_spec (clause_count b) (clause_count c)); simpl;
    repeat match goal with |- context [(?x <? ?y)%N] => destruct (N.ltb_spec x y) end; try reflexivity; lia.
Qed.

(** The merge of two readings, read function by function. *)
Lemma merge_reading into from (m := merge_memory_model_hypotheses into from) :
  is_reading into -> is_reading from ->
  is_reading m /\ (forall f, reading f m = longer (reading f into) (reading f from))
  /\ unparsed_of m = N.max (unparsed_of into) (unparsed_of from)
  /\ StronglySorted (in_order by_function_name) (bfilter named m).
Proof.
  intros [Hi Hic] [Hf Hfc]. subst m. unfold merge_memory_model_hypotheses.
  destruct (fold_merge (bfilter named into) (bfilter named from) Hi Hf) as [Hw Hr].
  pose proof (Forall_merge counts_nothing _ _ Hic Hfc) as Hc.
  set (merged := fold_left merge_entry (bfilter named from) (bfilter named into)) in *.
  pose proof (sort_by_perm by_function_name merged) as Hp.
  destruct (with_unparsed_spec (N.max (unparsed_of into) (unparsed_of from)) JNull "log_category"
    (sort_by by_function_name merged)) as (Hn & Hu & Hread).
  { apply (well_named_perm merged); [symmetry|]; assumption. }
  { rewrite Hp. assumption. }
  unfold is_reading. rewrite Hn. split_and!.
  - apply (well_named_perm merged); [symmetry|]; assumption.
  - rewrite Hp. assumption.
  - intros f. rewrite Hread, (reading_perm f _ merged), Hr, !reading_named; [reflexivity| |assumption].
    rewrite Hp. apply Hw.
  - assumption.
  - apply sorted_by_name.
Qed.

(** ** Lemmas on the blocks of a text *)

Lemma block_stop_spec marker after :
  marker <> "" -> contains marker (take_str (block_stop marker after) after) = false
  /\ contains "*/" (take_str (block_stop marker after) after) = false
  /\ block_stop marker after <= String.length after.
Proof.
  intros Hm. assert (block_stop marker after <= String.length after) as Hle.
  { unfold block_stop. destruct (find "*/" after) as [a|] eqn:Ha, (find marker after) as [b|] eqn:Hb; try lia;
      try (apply find_spec in Ha as (_ & Ha & _); [lia|discriminate]);
      apply find_spec in Hb as (_ & Hb & _); [lia|assumption]. }
  split_and!; [| |assumption]; apply contains_before; try assumption; try discriminate; intros n Hn;
    unfold block_stop; rewrite Hn; [destruct (find "*/" after) | destruct (find marker after)]; lia.
Qed.

Lemma quoted_name_spec text name : quoted_name text = Some name -> name <> "" /\ contains "'" name = false.
Proof.
  unfold quoted_name. destruct (find "'" text) as [open|]; [simpl|discriminate].
  destruct (find "'" (skip (open + 1) text)) as [close|] eqn:Hc; [simpl|discriminate].
  destruct (is_empty _) eqn:He; [discriminate|]. intros [= <-]. split; [intros H; rewrite H in He; discriminate|].
  apply contains_before; [discriminate|]. intros n Hn. rewrite Hn in Hc. injection Hc as <-. lia.
Qed.

(** What follows a marker is shorter than what held it, so the scan ends within its fuel. *)
Lemma after_marker marker rest at_ : marker <> "" -> find marker rest = Some at_ ->
  String.length (skip (at_ + String.length marker) rest) < String.length rest.
Proof.
  intros Hm Hf. destruct (find_spec marker rest at_ Hm Hf) as (_ & Hlen & _). rewrite length_skip.
  destruct marker; [congruence|simpl in *; lia].
Qed.

Lemma blocks_go_enough marker fuel fuel' rest : marker <> "" ->
  String.length rest < fuel -> String.length rest < fuel' -> blocks_go fuel rest marker = blocks_go fuel' rest marker.
Proof.
  intros Hm. revert fuel' rest; induction fuel as [|fuel IH]; intros [|fuel'] rest H1 H2; try lia. simpl.
  destruct (find marker rest) as [at_|] eqn:Hf; [|reflexivity].
  pose proof (after_marker marker rest at_ Hm Hf). destruct (quoted_name _); [f_equal|]; apply IH;
    rewrite ?length_skip in *; lia.
Qed.

Lemma blocks_go_spec marker fuel rest function block : marker <> "" ->
  (function, block) ∈ blocks_go fuel rest marker ->
  function <> "" /\ contains "'" function = false /\ contains marker block = false /\ contains "*/" block = false.
Proof.
  intros Hm. revert rest; induction fuel as [|fuel IH]; intros rest Hin; simpl in Hin; [inversion Hin|].
  destruct (find marker rest) as [at_|]; [|inversion Hin].
  destruct (quoted_name _) as [f|] eqn:Hq; [|eauto].
  apply elem_of_cons in Hin as [[= -> ->]|Hin]; [|eauto].
  apply quoted_name_spec in Hq as [? ?]. pose proof (block_stop_spec marker (skip (at_ + String.length marker) rest) Hm).
  intuition.
Qed.

(** ** Lemmas on the reader *)

Section reader.
Context (wide_alphanumeric : string -> bool).

(** The blocks WP's messages hold, each with its message's place and matcher. *)
Definition is_wp (message : json) : bool := get_str "plugin" message =?s "wp".
Definition by_category (message : json) : bool := get_str "category" message =?s "hypothesis".
Definition message_blocks (message : json) : list (string * string) :=
  hypothesis_blocks (finding_str message "message" "") MARKER.
Definition located_blocks (message : json) : list (json * string * (string * string)) :=
  if is_wp message
  then map (pair (field "source" message, if by_category message then "log_category" else "message_text")) (message_blocks message)
  else [].

Definition unreadable (message : json) : bool :=
  is_wp message && by_category message && bool_decide (message_blocks message = []).

Definition entry_of (b : json * string * (string * string)) : json :=
  let '(source, matched_by, (function, text)) := b in
  let '(hypotheses, total) := hypothesis_clauses wide_alphanumeric text in
  hypothesis_entry function hypotheses total source matched_by.

Definition block_function (b : json * string * (string * string)) : string := b.2.1.

Definition add_located (found : list json) (b : json * string * (string * string)) : list json :=
  add_block wide_alphanumeric b.1.1 b.1.2 found b.2.

Lemma function_of_entry b : function_of (entry_of b) = Some (block_function b).
Proof. destruct b as [[source matched_by] [function text]]. reflexivity. Qed.

Lemma read_hypotheses_found h message :
  h_found (read_hypotheses wide_alphanumeric h message) = fold_left add_located (located_blocks message) (h_found h)
  /\ h_unparsed (read_hypotheses wide_alphanumeric h message) = (h_unparsed h + if unreadable message then 1 else 0)%N.
Proof.
  unfold read_hypotheses, located_blocks, unreadable, is_wp, by_category, message_blocks.
  destruct (get_str "plugin" message =?s "wp"); [simpl negb|simpl; split; [reflexivity|lia]]. cbv iota.
  destruct (hypothesis_blocks _ _) as [|b blocks].
  - destruct (get_str "category" message =?s "hypothesis"); simpl; [|split; [reflexivity|lia]].
    destruct (N.eqb_spec (h_unparsed h) 0) as [->|]; split; reflexivity.
  - rewrite bool_decide_eq_false_2 by discriminate. rewrite andb_false_r, N.add_0_r. split; [|reflexivity].
    cbn [h_found]. generalize (h_found h). generalize (b :: blocks). clear b blocks.
    intros blocks; induction blocks as [|b blocks IH]; intros found; [reflexivity|]. simpl. rewrite IH.
    reflexivity.
Qed.

Lemma existsb_reading f found : existsb (fun entry => get_str "function" entry =?s f) found = is_some_and (fun _ => true) (reading f found).
Proof.
  induction found as [|e found IH]; [reflexivity|]. rewrite reading_cons. simpl. fold (function_of e).
  destruct (function_of e =?s f); [reflexivity|assumption].
Qed.

Lemma reading_snoc f found e :
  reading f (found ++ [e]) = reading f found <||> (if function_of e =?s f then Some e else None).
Proof.
  induction found as [|a found IH]; [reflexivity|]. simpl app. rewrite !reading_cons.
  destruct (function_of a =?s f); [reflexivity|assumption].
Qed.

Lemma add_located_eq found b :
  add_located found b = if is_some_and (fun _ => true) (reading (block_function b) found) then found else found ++ [entry_of b].
Proof.
  unfold add_located, add_block. destruct b as [[source matched_by] [function text]]. simpl. rewrite existsb_reading.
  unfold block_function. simpl. destruct (is_some_and _ _); [reflexivity|].
  destruct (hypothesis_clauses wide_alphanumeric text); reflexivity.
Qed.

Lemma add_located_well_named found b : well_named found -> well_named (add_located found b).
Proof.
  intros [Hnd Hall]. rewrite add_located_eq. destruct (is_some_and _ _) eqn:Hs; [split; assumption|]. split.
  - rewrite map_app. simpl. rewrite function_of_entry. apply NoDup_app. split; [assumption|].
    split; [|apply NoDup_singleton]. intros x Hx Hx'. apply list_elem_of_singleton in Hx' as ->.
    apply list_elem_of_In, in_map_iff in Hx as (a & Ha & Hin). apply list_elem_of_In in Hin.
    rewrite (reading_elem _ _ a Hnd Hin Ha) in Hs. discriminate.
  - apply Forall_app; split; [assumption|]. constructor; [|constructor]. rewrite function_of_entry. eauto.
Qed.

Lemma add_located_reading f found b :
  reading f (add_located found b)
  = reading f found <||> (if block_function b =s f then Some (entry_of b) else None).
Proof.
  rewrite add_located_eq. destruct (is_some_and _ _) eqn:Hs.
  - destruct (String.eqb_spec (block_function b) f) as [<-|]; [|destruct (reading f found); reflexivity].
    destruct (reading _ found); [reflexivity|discriminate].
  - rewrite reading_snoc, function_of_entry. reflexivity.
Qed.

Definition all_blocks (messages : list json) : list (json * string * (string * string)) := flat_map located_blocks messages.

Definition first_block (f : string) (blocks : list (json * string * (string * string))) : option json :=
  entry_of <$> find_first (fun b => block_function b =s f) blocks.

Lemma fold_located blocks found (k := fold_left add_located blocks found) :
  well_named found -> Forall counts_nothing found ->
  well_named k /\ Forall counts_nothing k /\ forall f, reading f k = reading f found <||> first_block f blocks.
Proof.
  subst k. revert found; induction blocks as [|b blocks IH]; intros found Hw Hc; simpl.
  { split_and!; try assumption. intros f. destruct (reading f found); reflexivity. }
  destruct (IH (add_located found b)) as (Hw' & Hc' & Hr).
  { apply add_located_well_named. assumption. }
  { rewrite add_located_eq. destruct (is_some_and _ _); [assumption|]. apply Forall_app; split; [assumption|].
    constructor; [|constructor]. destruct b as [[source matched_by] [function text]]. reflexivity. }
  split_and!; try assumption. intros f. rewrite Hr, add_located_reading, or_else_assoc. f_equal.
  unfold first_block. simpl. destruct (block_function b =s f); reflexivity.
Qed.

Lemma fold_read messages h (k := fold_left (read_hypotheses wide_alphanumeric) messages h) :
  h_found k = fold_left add_located (all_blocks messages) (h_found h)
  /\ h_unparsed k = (h_unparsed h + N.of_nat (count_if unreadable messages))%N.
Proof.
  subst k. revert h; induction messages as [|m messages IH]; intros h; [split; [reflexivity|apply eq_sym, N.add_0_r]|].
  simpl fold_left. destruct (read_hypotheses_found h m) as [Hf Hu].
  destruct (IH (read_hypotheses wide_alphanumeric h m)) as [IHf IHu]. rewrite IHf, IHu, Hf, Hu. split.
  - unfold all_blocks. simpl. rewrite fold_left_app. reflexivity.
  - rewrite one_if_count. unfold one_if. destruct (unreadable m); lia.
Qed.

(** What the collector answers is a reading, and what it reads of a function is its first block. *)
Lemma collect_reading messages (r := collect_memory_model_hypotheses wide_alphanumeric messages) :
  is_reading r /\ (forall f, reading f r = first_block f (all_blocks messages))
  /\ unparsed_of r = N.of_nat (count_if unreadable messages)
  /\ StronglySorted (in_order by_function_name) (bfilter named r).
Proof.
  subst r. unfold collect_memory_model_hypotheses.
  destruct (fold_read messages (mkHypotheses [] 0 JNull "log_category")) as [Hf Hu].
  set (h := fold_left _ messages _) in *. simpl in Hf, Hu.
  destruct (fold_located (all_blocks messages) []) as (Hw & Hc & Hr); [split; constructor|constructor|].
  rewrite <- Hf in Hw, Hc, Hr. pose proof (sort_by_perm by_function_name (h_found h)) as Hp.
  destruct (with_unparsed_spec (h_unparsed h) (h_source h) (h_matched_by h) (sort_by by_function_name (h_found h)))
    as (Hn & Hun & Hread).
  { apply (well_named_perm (h_found h)); [symmetry|]; assumption. }
  { rewrite Hp. assumption. }
  unfold is_reading. rewrite Hn. split_and!.
  - apply (well_named_perm (h_found h)); [symmetry|]; assumption.
  - rewrite Hp. assumption.
  - intros f. rewrite Hread, (reading_perm f _ (h_found h)), Hr; [reflexivity| |assumption]. rewrite Hp. apply Hw.
  - rewrite Hun, Hu. reflexivity.
  - apply sorted_by_name.
Qed.
End reader.

(** ** Lemmas on clauses *)

Section clause_lemmas.
Context (wide_alphanumeric : string -> bool).

Lemma new_clauses_fresh seen statements clause :
  clause ∈ new_clauses wide_alphanumeric seen statements -> clause ∉ seen.
Proof.
  revert seen; induction statements as [|s statements IH]; intros seen Hin; simpl in Hin; [inversion Hin|].
  destruct (clause_of wide_alphanumeric s) as [c|]; [case_bool_decide|]; auto.
  apply elem_of_cons in Hin as [->|Hin]; [assumption|]. apply IH in Hin. set_solver.
Qed.

Lemma new_clauses_NoDup seen statements : NoDup (new_clauses wide_alphanumeric seen statements).
Proof.
  revert seen; induction statements as [|s statements IH]; intros seen; simpl; [constructor|].
  destruct (clause_of wide_alphanumeric s) as [c|]; [case_bool_decide|]; auto.
  constructor; [|auto]. intros Hin. apply new_clauses_fresh in Hin. set_solver.
Qed.

Lemma elem_of_new_clauses seen statements clause :
  clause ∈ new_clauses wide_alphanumeric seen statements
  <-> clause ∉ seen /\ exists s, s ∈ statements /\ clause_of wide_alphanumeric s = Some clause.
Proof.
  split.
  - intros Hin. split; [apply (new_clauses_fresh _ _ _ Hin)|]. revert seen Hin.
    induction statements as [|s statements IH]; intros seen Hin; simpl in Hin; [inversion Hin|].
    destruct (clause_of wide_alphanumeric s) as [c|] eqn:Hc; [case_bool_decide|].
    + destruct (IH _ Hin) as (s' & ? & ?). exists s'. split; [right|]; assumption.
    + apply elem_of_cons in Hin as [->|Hin]; [exists s; split; [left|assumption]|].
      destruct (IH _ Hin) as (s' & ? & ?). exists s'. split; [right|]; assumption.
    + destruct (IH _ Hin) as (s' & ? & ?). exists s'. split; [right|]; assumption.
  - intros (Hseen & s & Hs & Hc). revert seen Hseen.
    induction statements as [|a statements IH]; intros seen Hseen; [inversion Hs|]. simpl.
    apply elem_of_cons in Hs as [->|Hs].
    + rewrite Hc. rewrite bool_decide_eq_false_2 by assumption. left.
    + destruct (clause_of wide_alphanumeric a) as [c|]; [case_bool_decide|]; auto.
      destruct (decide (clause = c)) as [->|]; [left|right]. apply IH; [assumption|set_solver].
Qed.
End clause_lemmas.

(** ** Theorems on hypotheses *)

(** What several attempts say together.  The hypotheses of two runs, each read off its
    own messages, merge function by function: what is kept of a function is the longer of
    the first blocks that name it, the first run's when they are as long, and no function of
    either is lost or named twice; the entries are in the order of the names, and what could
    not be read is counted once.  Merging a third run does not depend on the grouping, nor a
    function's number of clauses on the order of the runs. *)
Theorem merged_attempts wide_alphanumeric a b
    (collect := collect_memory_model_hypotheses wide_alphanumeric)
    (m := merge_memory_model_hypotheses (collect a) (collect b)) :
  (forall f, reading f m = longer (first_block wide_alphanumeric f (all_blocks a)) (first_block wide_alphanumeric f (all_blocks b)))
  /\ NoDup (map function_of (bfilter named m))
  /\ StronglySorted (in_order by_function_name) (bfilter named m)
  /\ unparsed_of m = N.max (N.of_nat (count_if unreadable a)) (N.of_nat (count_if unreadable b))
  /\ (forall c f, reading f (merge_memory_model_hypotheses m (collect c))
                  = reading f (merge_memory_model_hypotheses (collect a) (merge_memory_model_hypotheses (collect b) (collect c))))
  /\ forall f, clause_count <$> reading f m = clause_count <$> reading f (merge_memory_model_hypotheses (collect b) (collect a)).
Proof.
  assert (forall l, is_reading (collect l) /\ (forall f, reading f (collect l) = first_block wide_alphanumeric f (all_blocks l))
    /\ unparsed_of (collect l) = N.of_nat (count_if unreadable l)) as Hcollect.
  { intros l. destruct (collect_reading wide_alphanumeric l) as (? & ? & ? & _). auto. }
  assert (forall x y, is_reading x -> is_reading y -> is_reading (merge_memory_model_hypotheses x y)
    /\ forall f, reading f (merge_memory_model_hypotheses x y) = longer (reading f x) (reading f y)) as Hmerge.
  { intros x y Hx Hy. destruct (merge_reading x y Hx Hy) as (? & ? & _). auto. }
  destruct (Hcollect a) as (Ha & Hra & Hua), (Hcollect b) as (Hb & Hrb & Hub).
  destruct (merge_reading (collect a) (collect b) Ha Hb) as ([[Hnd _] _] & Hr & Hu & Hs). fold m in Hnd, Hr, Hu, Hs.
  split_and!; try assumption.
  - intros f. rewrite Hr, Hra, Hrb. reflexivity.
  - rewrite Hu, Hua, Hub. reflexivity.
  - intros c f. destruct (Hcollect c) as (Hc & _). destruct (Hmerge _ _ Ha Hb) as [Hab Hrab], (Hmerge _ _ Hb Hc) as [Hbc Hrbc].
    unfold m. rewrite (proj2 (Hmerge _ _ Hab Hc)), (proj2 (Hmerge _ _ Ha Hbc)), Hrab, Hrbc. apply longer_assoc.
  - intros f. rewrite Hr, (proj2 (Hmerge _ _ Hb Ha)). apply longer_count.
Qed.

(** The blocks of a text.  The scan ends within its fuel; a block names a function in
    quotes, and its text stops before the end of the comment and before the next marker. *)
Theorem blocks_spec text :
  (forall fuel, String.length text < fuel -> blocks_go fuel text MARKER = hypothesis_blocks text MARKER)
  /\ forall function block, (function, block) ∈ hypothesis_blocks text MARKER ->
       function <> "" /\ contains "'" function = false
       /\ contains MARKER block = false /\ contains "*/" block = false.
Proof.
  split.
  - intros fuel Hfuel. apply blocks_go_enough; [discriminate|assumption|lia].
  - intros function block Hin. eapply blocks_go_spec; [|exact Hin]. discriminate.
Qed.

(** The clauses of a block.  They are exactly what the statements of the block that hold
    a clause keyword yield, each once; the count is of all of them and the sample is the
    first sixteen. *)
Theorem hypothesis_clauses_spec wide_alphanumeric block
    (sample := (hypothesis_clauses wide_alphanumeric block).1) (total := (hypothesis_clauses wide_alphanumeric block).2) :
  exists clauses, sample = firstn CLAUSE_SAMPLE clauses /\ total = length clauses /\ NoDup clauses
  /\ (length sample < total <-> CLAUSE_SAMPLE < total)
  /\ forall clause, clause ∈ clauses <->
       exists s, s ∈ split_char ";" block /\ clause_of wide_alphanumeric s = Some clause.
Proof.
  exists (new_clauses wide_alphanumeric ∅ (split_char ";" block)). split_and!; try reflexivity.
  - apply new_clauses_NoDup.
  - subst sample total. unfold hypothesis_clauses. cbn [fst snd]. rewrite length_firstn. lia.
  - intros clause. rewrite elem_of_new_clauses. set_solver.
Qed.

(** A stream in which one block's name is missing and the next block names [g]. *)
Definition cut_stream : string :=
  MARKER +s+ String nl (MARKER +s+ " 'g':" +s+ String nl "/*@ behavior wp_typed: requires \separated(p, &x); */").

(** A name taken from the next block.  A marker whose own name is missing takes the name
    in quotes after the next marker, with no clause; the entry that the named block would
    give is then dropped, so the hypotheses of [g] are reported as none, and as complete. *)
Theorem name_of_next_block wide_alphanumeric :
  (collect_memory_model_hypotheses wide_alphanumeric [JObj [("plugin", JStr "wp"); ("message", JStr cut_stream)]])
  = [hypothesis_entry "g" [] 0 JNull "message_text"]
  /\ hypothesis_blocks cut_stream MARKER !! 1 = Some ("g", " 'g':" +s+ String nl "/*@ behavior wp_typed: requires \separated(p, &x); ")
  /\ hypothesis_clauses wide_alphanumeric (" 'g':" +s+ String nl "/*@ behavior wp_typed: requires \separated(p, &x); ")
     = (["requires \separated(p, &x);"], 1).
Proof. split_and!; vm_compute; reflexivity. Qed.

(** ** Goals anywhere in a payload *)

(** [within v payload]: [v] is the payload or lies in it. *)
Inductive within : json -> json -> Prop :=
  | within_self v : within v v
  | within_array v w l : w ∈ l -> within v w -> within v (JArr l)
  | within_object v k w m : (k, w) ∈ m -> within v w -> within v (JObj m).

Definition goal_with_status (accept : string -> bool) (v : json) : Prop :=
  exists m s, v = JObj m /\ has_goal_id m = true /\ consolidated_status v = Some s /\ accept s = true.

(** The children of a value are no larger, which the walk's recursion needs no measure for;
    the proof does. *)
Fixpoint json_size (v : json) : nat :=
  match v with
  | JArr l => S (list_sum (map json_size l))
  | JObj m => S (list_sum (map (fun e => json_size e.2) m))
  | _ => 1
  end.

Lemma list_sum_elem {A} (f : A -> nat) a l : a ∈ l -> f a <= list_sum (map f l).
Proof. induction l as [|b l IH]; intros Hin; [inversion Hin|]. simpl. apply elem_of_cons in Hin as [->|Hin]; [|apply IH in Hin]; lia. Qed.

Lemma walk_found accept v : wp_tasks_contain_goal_with_status accept v = true ->
  exists goal, within goal v /\ goal_with_status accept goal.
Proof.
  induction v as [v IH] using (induction_ltof1 _ json_size). unfold ltof in IH. intros H.
  destruct v as [| | | |l|m]; try discriminate H.
  - apply existsb_true in H as (w & Hw & H). destruct (IH w) as (goal & Hin & Hg); [|assumption|eauto using within].
    simpl. pose proof (list_sum_elem json_size w l Hw). lia.
  - apply orb_true_iff in H as [H|H].
    + apply andb_true_iff in H as [Hid Hs]. apply is_some_and_true in Hs as (s & Hs & Ha).
      exists (JObj m). split; [constructor|]. exists m, s. auto.
    + apply existsb_true in H as ([k w] & Hw & H). destruct (IH w) as (goal & Hin & Hg); [|assumption|eauto using within].
      simpl. pose proof (list_sum_elem (fun e => json_size e.2) (k, w) m Hw). simpl in *. lia.
Qed.

(** The walk over a payload finds a goal exactly where there is one: at any depth, through
    arrays and objects, an object that identifies a goal and whose status is accepted. *)
Theorem walk_spec accept v :
  wp_tasks_contain_goal_with_status accept v = true <-> exists goal, within goal v /\ goal_with_status accept goal.
Proof.
  split; [apply walk_found|]. intros (goal & Hin & m & s & -> & Hid & Hs & Ha).
  remember (JObj m) as goal eqn:Hgoal. induction Hin as [v|v w l Hw Hin IH|v k w m' Hw Hin IH].
  - subst v. simpl. rewrite Hid. cbn [andb]. apply orb_true_iff. left. apply is_some_and_true. eauto.
  - simpl. apply existsb_true. eauto.
  - simpl. apply orb_true_iff. right. apply existsb_true. exists (k, w). auto.
Qed.

(** What a payload of tasks says of a failed run.  A triage that names a kind decides;
    otherwise a crashed goal anywhere is the backend's, ahead of any text, and with neither
    that nor a setup message in the text, an unproved goal anywhere is an obligation. *)
Theorem failure_kind_from_tasks_spec to_string tasks triage (k := wp_failure_kind_from_tasks to_string tasks triage)
    (text := to_ascii_lowercase (to_string tasks)) :
  finding_str triage "kind" "none" = "none" ->
  (k = "frama_c_internal" <-> exists goal, within goal tasks /\ goal_with_status status_is_failed goal)
  /\ (k = "proof_obligation" <->
      (forall goal, within goal tasks -> ~ goal_with_status status_is_failed goal)
      /\ names_missing_prover text = false /\ names_why3_config text = false
      /\ exists goal, within goal tasks /\ goal_with_status (one_of_strings ["unknown"; "invalid"; "failed"]) goal).
Proof.
  intros Hkind. subst k. unfold wp_failure_kind_from_tasks. rewrite Hkind. simpl negb. cbv iota. fold text.
  unfold wp_tasks_contain_failed_goal, wp_tasks_contain_unproved_goal. rewrite <- !walk_spec.
  assert ((forall goal, within goal tasks -> ~ goal_with_status status_is_failed goal)
    <-> wp_tasks_contain_goal_with_status status_is_failed tasks = false) as ->.
  { rewrite <- not_true_iff_false, walk_spec. firstorder. }
  destruct (wp_tasks_contain_goal_with_status status_is_failed tasks); [intuition congruence|].
  destruct (names_missing_prover text); [intuition congruence|].
  destruct (names_why3_config text); [intuition congruence|].
  destruct (wp_tasks_contain_goal_with_status _ tasks); intuition congruence.
Qed.

Lemma failure_kind_from_tasks_witness :
  let crashed := JObj [("goals", JArr [JObj [("goal_kind", JStr "spec"); ("status", JStr "FAILED")]])] in
  wp_failure_kind_from_tasks (fun _ => "prover not found") crashed wp_timeout_triage_none = "frama_c_internal".
Proof.
  cbv zeta. apply (failure_kind_from_tasks_spec (fun _ => "prover not found")); [reflexivity|].
  apply walk_spec. vm_compute. reflexivity.
Defined.
