(* ===== verification/Errors.v ===== *)
(** * Errors as the caller reads them (src/src/error.rs)

    What went wrong in a request becomes an error with a payload: its kind, whether a retry
    can help, what to call next, and for a timeout whether a longer one would.  The text of
    a standard library error inside another is a parameter ([display_error]). *)

From S2P Require Import Prelude RustStr Json Codec Verdicts Session StableId Paths WpMessages.
Local Open Scope nat_scope.

(** ** Payloads *)

Inductive ErrorCode := InvalidParams | InvalidRequest | InternalError.
#[export] Instance ErrorCode_eq_dec : EqDecision ErrorCode.
Proof. solve_decision. Defined.

Record ErrorData := mkErrorData { code : ErrorCode; mcp : McpError }.

Definition set_data (f : json -> json) (e : ErrorData) : ErrorData :=
  mkErrorData (code e) (mkMcpError (err_message (mcp e)) (f <$> err_data (mcp e))).
Definition put (k : string) (v : json) : json -> json := map_object (map_insert k v).

Definition structured_error_data (kind message : string) (retryable : bool) (suggestion : option json) : json :=
  let payload := [("kind", JStr kind); ("message", JStr message); ("retryable", JBool retryable)] in
  JObj (match suggestion with Some suggestion => map_insert "suggestion" suggestion payload | None => payload end).

Definition structured (code : ErrorCode) (kind message : string) (retryable : bool) (suggestion : option json) : ErrorData :=
  mkErrorData code (mkMcpError message (Some (structured_error_data kind message retryable suggestion))).
Definition structured_invalid_params := structured InvalidParams.
Definition structured_invalid_request := structured InvalidRequest.
Definition structured_internal_error := structured InternalError.

Definition suggest (tool : string) (args : json) : json := JObj [("tool", JStr tool); ("args_example", args)].
Definition self_check : json := suggest "self_check" (JObj []).

Definition no_project_loaded_error : ErrorData :=
  structured_invalid_params "NoProjectLoaded" "No project loaded. Call reload_project(files=[...]) first to spawn main frama-c."
    true (Some (suggest "reload_project" (JObj [("files", JArr [JStr "/path/to/source.c"])]))).

Definition sandbox_not_found_error (experiment_id : string) (existing : list string) : ErrorData :=
  let data := structured_error_data "SandboxNotFound"
    ("Sandbox '" +s+ experiment_id +s+ "' missing. Call create_sandbox(function=..., experiment_id='" +s+ experiment_id +s+ "') first.")
    true (Some (suggest "create_sandbox" (JObj [("function", JStr "<func_name>"); ("experiment_id", JStr experiment_id)]))) in
  mkErrorData InvalidParams (mkMcpError ("sandbox not found: " +s+ experiment_id)
    (Some (put "existing_sandboxes" (JArr (map JStr existing)) data))).

Definition project_locked_error (message : string) : ErrorData :=
  structured_invalid_params "ProjectLocked" message true
    (Some (suggest "verify_program_step" (JObj [("lock_project", JBool false)]))).

Definition marker_location_json (l : MarkerLocation) : json :=
  JObj [("marker_kind", JStr (marker_kind l)); ("marker", JStr (Session.marker l)); ("function_marker", jopt JStr (function_marker l));
        ("function_name", jopt JStr (function_name l)); ("kinstr_marker", jopt JStr (kinstr_marker l));
        ("source_file", jopt JStr (source_file l)); ("source_line", jopt jN (source_line l))].

Definition stale_marker_error (marker : string) (stale : StaleMarker) (refresh_tool : string) (refresh_args : json) : ErrorData :=
  let message := "marker '" +s+ marker +s+ "' changed location after reload_project" in
  let data := structured_error_data "StaleMarker" message true None in
  mkErrorData InvalidParams (mkMcpError message (Some
    (put "suggestion" (JObj [("tool", JStr refresh_tool); ("args", refresh_args);
                             ("reason", JStr "Refresh marker-bearing Frama-C output after reload_project.")])
      (put "current" (marker_location_json (current stale))
        (put "previous" (marker_location_json (previous stale))
          (put "marker" (JStr marker) data)))))).

(** ** Headers a preprocessor did not find *)

Definition clang_name (lower msg : string) : option string :=
  find "file not found" lower ≫= fun at_ =>
  strip_suffix "'" (trim_end (take_str at_ msg)) ≫= fun stripped =>
  snd <$> rsplit_once "'" stripped.

Definition gcc_name (lower msg : string) : option string :=
  find "no such file or directory" lower ≫= fun at_ =>
  strip_suffix ":" (trim_end (take_str at_ msg)) ≫= fun before =>
  let before := trim_end before in Some (unwrap_or (last (split_whitespace before)) before).

Definition missing_file_name (msg : string) : option string :=
  let lower := to_ascii_lowercase msg in clang_name lower msg <||> gcc_name lower msg.

Definition missing_header_name (msg : string) : option string := opt_filter (ends_with ".h") (missing_file_name msg).

(** [Path::extension]. *)
Definition extension (path : string) : option string :=
  match last (components path) with
  | Some (Normal name) =>
    match rsplit_once "." name with Some ("", _) | None => None | Some (_, ext) => Some ext end
  | _ => None
  end.

Definition missing_extensionless_name (msg : string) : option string :=
  opt_filter (fun name => negb (is_some_and (fun _ => true) (extension name))) (missing_file_name msg).

(** ** What a server's error text means *)

Definition header_advice (header : string) : json :=
  JObj [("tool", JStr "reload_project"); ("missing_header", JStr header);
        ("args_example", JObj [("include_paths", JArr [JStr "<directory containing the header>"])]);
        ("checks", JArr [JStr "include_is_dead"; JStr "include_paths"; JStr "declaration_only_stub"]);
        ("see", JStr "docs/agent-playbook.md#a-file-that-never-parsed-and-the-unit-of-verification");
        ("reason", JStr ("The preprocessor could not resolve " +s+ header +s+
           ", so nothing that includes it was parsed and it has no goals."))].

Definition anomaly_advice : json :=
  JObj [("tool", JStr "self_check"); ("args_example", JObj []);
        ("reason", JStr "Why3 aborted rather than answering, so nothing here is a verdict on the C code or the ACSL. Record the Frama-C, Why3, and prover versions before changing an annotation. Under Typed+nocast a pointer cast reaching a goal is the usual cause and the same contract proves under Typed+cast.")].

Definition parse_advice : json :=
  suggest "inject_all_annotations"
    (JObj [("function", JStr "<func_name>"); ("dry_run", JBool true);
           ("proposed_requires", JArr [JObj [("acsl", JStr "<fixed predicate>")]])]).

Definition classify_server_error (msg : string) : string * bool * option json :=
  let lower := to_ascii_lowercase msg in
  match missing_header_name msg with
  | Some header => ("MissingHeader", false, Some (header_advice header))
  | None =>
    if why3_aborted lower then ("Why3Anomaly", false, Some anomaly_advice)
    else if contains "why3" lower
            && any_contains ["config"; "configuration"; "not configured"; "no prover"; "not found"] lower
    then ("MissingWhy3Config", false, Some self_check)
    else if contains "prover" lower && any_contains ["not found"; "unknown"; "missing"; "not available"] lower
    then ("MissingProver", false, Some self_check)
    else if any_contains ["unknown request"; "request not found"; "unbound request"] lower
    then ("MissingPluginRequest", false, Some self_check)
    else if contains "acsl" lower && any_contains ["parse"; "syntax"; "logic_typing"; "typing"] lower
    then ("AcslParseError", false, Some parse_advice)
    else ("FramaCServerError", false, None)
  end.

Definition FAILURE_KINDS : list (string * string) :=
  [("MissingProver", "missing_prover"); ("MissingWhy3Config", "missing_why3_config"); ("Why3Anomaly", "frama_c_internal");
   ("MissingPluginRequest", "missing_plugin_request"); ("AcslParseError", "acsl_parse_error"); ("MissingHeader", "missing_header");
   ("RequestRejected", "request_rejected"); ("RequestKilled", "request_cancelled"); ("WpTimeout", "mcp_timeout");
   ("FramaCServerError", "frama_c_internal"); ("FramaCCommandFailed", "frama_c_internal")].

Definition assoc_or (table : list (string * string)) (default k : string) : string :=
  match find_first (fun e => e.1 =s k) table with Some e => e.2 | None => default end.

Definition failure_kind_for_error_kind (kind : string) : string := assoc_or FAILURE_KINDS "unknown" kind.

Definition TRIAGE_KINDS : list (string * string) :=
  [("prover_timeout", "prover_timeout"); ("mcp_server_timeout", "mcp_timeout"); ("rejected_task", "request_rejected");
   ("cancelled_task", "request_cancelled"); ("status_propagation_delay", "status_pending")].
Definition failure_kind_for_timeout_triage (kind : string) : string := assoc_or TRIAGE_KINDS "unknown" kind.

Definition with_failure_kind (failure_kind : string) : ErrorData -> ErrorData := set_data (put "failure_kind" (JStr failure_kind)).

(** A first spawn that dies in the preprocessor. *)
Definition missing_header_startup_error (message : string) : option ErrorData :=
  (fun header =>
    with_failure_kind (failure_kind_for_error_kind "MissingHeader")
      (structured_internal_error "MissingHeader" message false
         (Some (JObj [("tool", JStr "reload_project"); ("missing_header", JStr header);
                      ("checks", JArr [JStr "include_is_dead"; JStr "include_paths"; JStr "declaration_only_stub"])]))))
  <$> missing_header_name message.

(** ** From a failed request to an error *)

(** [{:?}] of a duration of whole milliseconds. *)
Definition trim_zeros (s : string) : string := trim_end_char "0" s.
Definition pad3 (n : N) : string := take_str (3 - String.length (dec_N n)) "000" +s+ dec_N n.
Definition duration_debug (ms : N) : string :=
  if (ms =? 0)%N then "0ns"
  else if (ms <? 1000)%N then dec_N ms +s+ "ms"
  else
    let frac := trim_zeros (pad3 (ms mod 1000)) in
    dec_N (ms / 1000) +s+ (if is_empty frac then "" else "." +s+ frac) +s+ "s".

Definition timeout_message (ms : N) : string := "timeout after " +s+ duration_debug ms.

Definition error_timeout_triage (kind : string) (retry_with_higher_prover_timeout : bool) (confidence reason : string) : json :=
  JObj [("kind", JStr kind); ("retry_with_higher_prover_timeout", JBool retry_with_higher_prover_timeout);
        ("confidence", JStr confidence); ("reason", JStr reason); ("evidence", JArr [])].

Definition with_timeout_triage (triage : json) : ErrorData -> ErrorData :=
  let failure_kind := match get_str "kind" triage with Some kind => failure_kind_for_timeout_triage kind | None => "unknown" end in
  set_data (fun data => put "failure_kind" (JStr failure_kind) (put "wp_timeout_triage" triage data)).

Definition diagnostics_json (d : FramaCRequestDiagnostics) : json :=
  JObj [("request_id", JStr (request_id d)); ("request", JStr (request d)); ("queued_task_id", jopt JStr (queued_task_id d));
        ("signal_count", jN (signal_count d)); ("elapsed_ms", jopt jN (elapsed_ms d)); ("final_result", jopt JStr (final_result d));
        ("cancellation_result", jopt JStr (cancellation_result d)); ("rejected_command_id", jopt JStr (rejected_command_id d))].

Definition command_failure (kind msg : string) : string * bool * option json :=
  if kind =s "ERROR" then classify_server_error msg
  else if kind =s "REJECTED" then ("RequestRejected", true, Some self_check)
  else if kind =s "KILLED" then ("RequestKilled", true, None)
  else if kind =s "TIMEOUT" then ("WpTimeout", true, None)
  else ("FramaCCommandFailed", false, None).

Definition command_triage (kind : string) : string :=
  if kind =s "REJECTED" then "rejected_task" else if kind =s "KILLED" then "cancelled_task" else "mcp_server_timeout".

Definition command_failed (kind msg : string) (diagnostics : FramaCRequestDiagnostics) : ErrorData :=
  let '(error_kind, retryable, suggestion) := command_failure kind msg in
  let error := structured (if kind =s "REJECTED" then InvalidRequest else InternalError) error_kind msg retryable suggestion in
  let error := with_failure_kind (failure_kind_for_error_kind error_kind) error in
  let error := set_data (put "frama_c_protocol" (diagnostics_json diagnostics)) error in
  if one_of kind ["TIMEOUT"; "KILLED"; "REJECTED"] then
    with_timeout_triage (error_timeout_triage (command_triage kind) false "high"
      "Frama-C command polling ended before a successful DATA response.") error
  else error.

Section from_frama_c.
Variable display_error : FramaCError -> string.

(** [From<FramaCError> for McpError]. *)
Definition from_frama_c_error (e : FramaCError) : ErrorData :=
  match e with
  | ServerError _ msg =>
    let '(kind, retryable, suggestion) := classify_server_error msg in
    with_failure_kind (failure_kind_for_error_kind kind) (structured_internal_error kind msg retryable suggestion)
  | Rejected id =>
    with_timeout_triage (error_timeout_triage "rejected_task" false "high"
        "Frama-C rejected the request; increasing WP prover timeout is not useful.")
      (structured_invalid_request "RequestRejected" ("rejected: " +s+ id) true (Some self_check))
  | Killed id =>
    with_timeout_triage (error_timeout_triage "cancelled_task" false "high"
        "Frama-C reported the request was killed or cancelled.")
      (structured_internal_error "RequestKilled" ("killed: " +s+ id) true None)
  | CommandFailed kind _ msg diagnostics => command_failed kind msg diagnostics
  | ConnectTimeout =>
    with_timeout_triage (error_timeout_triage "mcp_server_timeout" false "high"
        "The MCP client timed out before the Frama-C server was ready.")
      (structured_internal_error "ConnectionTimeout" "connection timeout" true (Some self_check))
  | Timeout d =>
    with_timeout_triage (error_timeout_triage "mcp_server_timeout" false "high"
        "The MCP request timed out before a WP goal reported prover timeout.")
      (structured_internal_error "WpTimeout" (timeout_message d) true None)
  | FunctionNotFound name => structured_invalid_params "FunctionNotFound" ("function not found: " +s+ name) false None
  | GlobalNotFound name => structured_invalid_params "GlobalNotFound" ("global variable not found: " +s+ name) false None
  | SymbolNotFound name => structured_invalid_params "SymbolNotFound" ("symbol not found: " +s+ name) false None
  | other => structured_internal_error "FramaCError" (display_error other) false None
  end.
End from_frama_c.

Example debug_durations : map duration_debug [0; 500; 1000; 1500; 30000; 61005]%N = ["0ns"; "500ms"; "1s"; "1.5s"; "30s"; "61.005s"].
Proof. reflexivity. Qed.

(** ** Theorems *)

Lemma get_put_ne k k' v o : k <> k' -> (put k' v o) .? k = o .? k.
Proof. intros Hk. destruct o; try done. cbn. by rewrite map_get_insert_ne. Qed.
Lemma get_put_here k v o : is_object o = true -> (put k v o) .? k = Some v.
Proof. destruct o; try done. intros _. cbn. by rewrite map_get_insert. Qed.

Definition SERVER_KINDS : list string :=
  ["MissingHeader"; "Why3Anomaly"; "MissingWhy3Config"; "MissingProver"; "MissingPluginRequest"; "AcslParseError"; "FramaCServerError"].

Lemma server_error_cases msg : exists kind suggestion, classify_server_error msg = (kind, false, suggestion) /\ kind ∈ SERVER_KINDS.
Proof.
  unfold classify_server_error. repeat (case_match; [eexists _, _; split; [reflexivity|decide_closed]|]). eexists _, _. split; [reflexivity|decide_closed].
Qed.

(** A request the server gave up on, was told to drop, or never got to make. *)
Definition not_answered (e : FramaCError) : bool :=
  match e with
  | Rejected _ | Killed _ | ConnectTimeout | Timeout _ => true
  | CommandFailed kind _ _ _ => one_of kind ["TIMEOUT"; "KILLED"; "REJECTED"]
  | _ => false
  end.

Definition is_timeout (e : FramaCError) : bool :=
  match e with Timeout _ => true | CommandFailed kind _ _ _ => kind =s "TIMEOUT" | _ => false end.

(** What every payload has: the kind, the message, whether a retry can help, and for a
    request that was not answered a triage. *)
Definition well_formed_error (r : ErrorData) (kind : string) (retryable triaged : bool) : Prop :=
  exists m, err_data (mcp r) = Some (JObj m)
    /\ map_get "kind" m = Some (JStr kind) /\ map_get "message" m = Some (JStr (err_message (mcp r)))
    /\ map_get "retryable" m = Some (JBool retryable)
    /\ (if triaged then exists triage, map_get "wp_timeout_triage" m = Some triage
                         /\ get "retry_with_higher_prover_timeout" triage = Some (JBool false)
                         /\ exists failure, get_str "kind" triage = Some failure
                              /\ map_get "failure_kind" m = Some (JStr (failure_kind_for_timeout_triage failure))
                              /\ failure_kind_for_timeout_triage failure <> "unknown"
        else map_get "wp_timeout_triage" m = None).

Ltac error_fields :=
  unfold well_formed_error; eexists; split_and!;
  [reflexivity|reflexivity|reflexivity|reflexivity|
   first [reflexivity | eexists; split_and!; [reflexivity|reflexivity|eexists; split_and!; [reflexivity|reflexivity|done]]]].

Lemma command_failed_fields kind msg d : exists error_kind,
  well_formed_error (command_failed kind msg d) error_kind (one_of kind ["TIMEOUT"; "KILLED"; "REJECTED"]) (one_of kind ["TIMEOUT"; "KILLED"; "REJECTED"])
  /\ (error_kind = "WpTimeout" <-> kind = "TIMEOUT").
Proof.
  unfold command_failed, command_failure, command_triage.
  destruct (String.eqb_spec kind "ERROR") as [->|He].
  { destruct (server_error_cases msg) as (k & s & -> & Hk). exists k. split.
    - destruct s; cbn; error_fields.
    - split; [intros ->; revert Hk; decide_closed|done]. }
  destruct (String.eqb_spec kind "REJECTED") as [->|Hr]; [eexists; split; [cbn; error_fields|done]|].
  destruct (String.eqb_spec kind "KILLED") as [->|Hk]; [eexists; split; [cbn; error_fields|done]|].
  destruct (String.eqb_spec kind "TIMEOUT") as [->|Ht]; [eexists; split; [cbn; error_fields|done]|].
  unfold one_of. cbn. apply String.eqb_neq in Hr, Hk, Ht. rewrite Hr, Hk, Ht. cbn.
  eexists; split; [error_fields|]. split; [done|]. intros ->. done.
Qed.

Lemma exact_of r kind a b : well_formed_error r kind a a -> (kind =s "WpTimeout") = b ->
  (exists kind, well_formed_error r kind a a) /\ wp_timed_out (mcp r) = b.
Proof.
  intros Hw <-. split; [by exists kind|]. destruct Hw as (m & Hd & Hk & _). unfold wp_timed_out. rewrite Hd. unfold get_str, get. cbn. by rewrite Hk.
Qed.

(** An error says what the caller can do.  Its payload has the kind, the message of the
    error and whether a retry can help, which is so exactly for a request that was not
    answered; these alone carry a triage, which never advises a longer prover timeout and
    agrees with the failure kind; and the retry of a timed out run is offered exactly
    for a request that timed out. *)
Theorem request_errors_exact display_error e :
  (exists kind, well_formed_error (from_frama_c_error display_error e) kind (not_answered e) (not_answered e))
  /\ wp_timed_out (mcp (from_frama_c_error display_error e)) = is_timeout e.
Proof.
  destruct e as [| | |id msg|id|id|kind id msg d| |ms| | | |]; cbn [from_frama_c_error not_answered is_timeout];
    try (eapply exact_of; [error_fields|reflexivity]).
  - destruct (server_error_cases msg) as (k & s & -> & Hk). eapply (exact_of _ k); [destruct s; cbn; error_fields|].
    apply String.eqb_neq. intros ->. revert Hk. decide_closed.
  - destruct (command_failed_fields kind msg d) as (k & Hw & Ht). apply (exact_of _ k); [done|].
    destruct (String.eqb_spec kind "TIMEOUT") as [->|Hn]; [by apply String.eqb_eq, Ht|]. apply String.eqb_neq. by rewrite Ht.
Qed.

Lemma strip_suffix_char c s : strip_suffix (String c "") (s +s+ String c "") = Some s.
Proof.
  induction s as [|d s IH]; cbn [strip_suffix String.append]; [by rewrite String.eqb_refl|].
  destruct (String.eqb_spec (String c "") (String d (s +s+ String c ""))) as [H|_]; [|by rewrite IH].
  injection H as _ H. by destruct s.
Qed.

Lemma word_last w : is_word w = true -> exists s c, w = s +s+ String c "" /\ graphic c = true.
Proof.
  unfold is_word. rewrite andb_true_iff. intros [Hne Hw]. induction w as [|c w IH]; [done|]. cbn in Hw. apply andb_true_iff in Hw as [Hc Hw].
  destruct w as [|d w]; [by exists "", c|]. destruct (IH eq_refl Hw) as (s & e & -> & He). by exists (String c s), e.
Qed.

Lemma join_snoc ws w : exists s, join " " (ws ++ [w]) = s +s+ w.
Proof.
  induction ws as [|v ws [s IH]]; [by exists ""|]. exists (v +s+ " " +s+ s).
  assert (Hne : exists a l, ws ++ [w] = a :: l) by (destruct ws; simpl; eauto). destruct Hne as (a & l & Hl).
  change ((v :: ws) ++ [w]) with (v :: (ws ++ [w])). rewrite Hl.
  change (join " " (v :: a :: l)) with (v +s+ " " +s+ join " " (a :: l)). rewrite <- Hl, IH. by rewrite !app_str_assoc.
Qed.

Lemma clang_name_read pre name post (msg := pre +s+ "'" +s+ name +s+ "' file not found" +s+ post) :
  free_of "'" name = true ->
  find "file not found" (to_ascii_lowercase msg) = Some (String.length (pre +s+ "'" +s+ name +s+ "' ")) ->
  clang_name (to_ascii_lowercase msg) msg = Some name.
Proof.
  intros Hq Hf. unfold clang_name. rewrite Hf. cbn [mbind option_bind].
  replace msg with ((pre +s+ "'" +s+ name +s+ "' ") +s+ "file not found" +s+ post) by (unfold msg; by rewrite !app_str_assoc).
  rewrite take_str_exact.
  replace (pre +s+ "'" +s+ name +s+ "' ") with ((pre +s+ String "'" name) +s+ String "'" " ") by (by rewrite app_str_assoc).
  rewrite trim_end_graphic by done. change (trim_end " ") with "". rewrite strip_suffix_char. cbn [mbind option_bind].
  by rewrite rsplit_once_free.
Qed.

Lemma gcc_name_read ws name post (msg := join " " (ws ++ [name]) +s+ ": No such file or directory" +s+ post) :
  forallb is_word (ws ++ [name]) = true ->
  find "no such file or directory" (to_ascii_lowercase msg) = Some (String.length (join " " (ws ++ [name]) +s+ ": ")) ->
  gcc_name (to_ascii_lowercase msg) msg = Some name.
Proof.
  intros Hws Hf. unfold gcc_name. rewrite Hf. cbn [mbind option_bind].
  replace msg with ((join " " (ws ++ [name]) +s+ ": ") +s+ "No such file or directory" +s+ post) by (unfold msg; by rewrite !app_str_assoc).
  rewrite take_str_exact. change (": ") with (String ":" " "). rewrite trim_end_graphic by done. change (trim_end " ") with "".
  rewrite strip_suffix_char. cbn [mbind option_bind]. f_equal.
  assert (Hword : is_word name = true) by (rewrite forallb_app, !andb_true_iff in Hws; cbn in Hws; rewrite andb_true_r in Hws; tauto).
  assert (Ht : trim_end (join " " (ws ++ [name])) = join " " (ws ++ [name])).
  { destruct (word_last name Hword) as (s & c & Hn & Hc). destruct (join_snoc ws name) as [s' Hs]. rewrite Hs, Hn, <- app_str_assoc.
    by apply trim_end_last. }
  by rewrite Ht, split_whitespace_join, last_snoc.
Qed.

(** The header a preprocessor did not find is the one named to the caller.  In clang's
    wording, at the first [file not found], it is the quoted name before it; in gcc's, when
    clang's phrase is not there, the last word before the colon.  Such an error is about
    a missing header exactly when the name ends in [.h], and then it names it, whatever
    else the message says. *)
Theorem header_named msg name :
  (exists pre post, msg = pre +s+ "'" +s+ name +s+ "' file not found" +s+ post /\ free_of "'" name = true
     /\ find "file not found" (to_ascii_lowercase msg) = Some (String.length (pre +s+ "'" +s+ name +s+ "' ")))
  \/ (exists ws post, msg = join " " (ws ++ [name]) +s+ ": No such file or directory" +s+ post /\ forallb is_word (ws ++ [name]) = true
       /\ find "file not found" (to_ascii_lowercase msg) = None
       /\ find "no such file or directory" (to_ascii_lowercase msg) = Some (String.length (join " " (ws ++ [name]) +s+ ": "))) ->
  missing_header_name msg = (if ends_with ".h" name then Some name else None)
  /\ (ends_with ".h" name = true -> classify_server_error msg = ("MissingHeader", false, Some (header_advice name))).
Proof.
  intros H. assert (Hn : missing_file_name msg = Some name).
  { unfold missing_file_name. destruct H as [(pre & post & -> & Hq & Hf)|(ws & post & -> & Hws & Hc & Hf)].
    - by rewrite clang_name_read.
    - unfold clang_name. rewrite Hc. cbn [mbind option_bind or_else]. by rewrite gcc_name_read. }
  assert (Hm : missing_header_name msg = if ends_with ".h" name then Some name else None).
  { unfold missing_header_name. rewrite Hn. unfold opt_filter. cbn. by destruct (ends_with ".h" name). }
  split; [done|]. intros Hh. unfold classify_server_error. by rewrite Hm, Hh.
Qed.

(** A request the server does not have is reported as a missing prover when its name has
    the word in it: the test for provers is made first, and [unknown] is one of its words. *)
Theorem plugin_request_read_as_prover request :
  contains "prover" (to_ascii_lowercase request) = true ->
  missing_header_name ("unknown request " +s+ request) = None ->
  contains "why3" (to_ascii_lowercase ("unknown request " +s+ request)) = false ->
  classify_server_error ("unknown request " +s+ request) = ("MissingProver", false, Some self_check)
  /\ any_contains ["unknown request"; "request not found"; "unbound request"] (to_ascii_lowercase ("unknown request " +s+ request)) = true.
Proof.
  intros Hp Hh Hw. assert (Hlow : to_ascii_lowercase ("unknown request " +s+ request) = "unknown request " +s+ to_ascii_lowercase request).
  { by rewrite lowercase_app. }
  assert (Hpre : forall needle, contains needle "unknown request " = true -> contains needle ("unknown request " +s+ to_ascii_lowercase request) = true).
  { intros needle Hn. by apply contains_longer. }
  unfold classify_server_error. rewrite Hh. unfold why3_aborted. rewrite Hw, Hlow. cbn [andb]. unfold any_contains. cbn [existsb].
  rewrite !(Hpre "unknown"), !(Hpre "unknown request") by reflexivity. rewrite !orb_true_r, andb_true_r.
  rewrite (contains_app_r "prover" "unknown request ") by done. done.
Qed.

(** ** Witnesses *)

Lemma header_named_witness :
  classify_server_error "a.c:3:10: fatal error: sys/sysctl.h: No such file or directory" = ("MissingHeader", false, Some (header_advice "sys/sysctl.h"))
  /\ classify_server_error "a.c:1:10: fatal error: 'prover not found.h' file not found" = ("MissingHeader", false, Some (header_advice "prover not found.h")).
Proof.
  split.
  - refine (proj2 (header_named "a.c:3:10: fatal error: sys/sysctl.h: No such file or directory" "sys/sysctl.h" (or_intror _)) eq_refl).
    exists ["a.c:3:10:"; "fatal"; "error:"], "". repeat split; vm_compute; reflexivity.
  - refine (proj2 (header_named "a.c:1:10: fatal error: 'prover not found.h' file not found" "prover not found.h" (or_introl _)) eq_refl).
    exists "a.c:1:10: fatal error: ", "". repeat split; vm_compute; reflexivity.
Defined.

Lemma plugin_request_read_as_prover_witness :
  classify_server_error ("unknown request " +s+ "plugins.wp.setProvers") = ("MissingProver", false, Some self_check).
Proof. refine (proj1 (plugin_request_read_as_prover "plugins.wp.setProvers" _ _ _)); vm_compute; reflexivity. Defined.
