(* ===== verification/ProgramStep.v ===== *)
(** * One step of the program workflow (src/mcp/analysis.rs)

    [verify_program_step] reads the session's plan and conclusions, asks which
    functions are ready ([Topo]) and names the next action; its response is held to
    a byte cap by shedding rows, and the size it reports is the size it has.  The
    pretty printer of serde_json is a parameter, the graph library the interface of
    [Graph], and what Frama-C says when the call graph is fetched, an error included, is a
    parameter per fetch ([CallgraphFetch]).  [None] stands for a measuring loop that ran
    out of fuel or a panic of the graph code. *)

From S2P Require Import Prelude RustStr BTree Json Verdicts Session Graph Topo Errors.
Local Open Scope nat_scope.
Local Open Scope fc_scope.

Definition VERIFY_PROGRAM_STEP_RESPONSE_CAP_BYTES : N := 16 * 1024.
Definition VERIFY_PROGRAM_STEP_READY_PREVIEW_ITEMS : nat := 16.
Definition USIZE_MAX : N := 2 ^ 64 - 1.

(** usize arithmetic of a release build. *)
Definition usize_add (a b : N) : N := N.modulo (a + b) (2 ^ 64).
Definition usize_sub (a b : N) : N := N.modulo (a + 2 ^ 64 - b) (2 ^ 64).
Definition saturating_sub (a b : nat) : nat := a - b.

(** ** Previews *)

(** The object and whether any row went. *)
Definition omit_preview_rows (field omitted : string) (keep : nat) (obj : jmap) : jmap * bool :=
  let already_omitted := unwrap_or (map_get omitted obj ≫= as_u64) 0%N in
  match map_get field obj ≫= as_array with
  | None => (obj, false)
  | Some items =>
    let before := length items in
    let total := usize_add (N.of_nat before) already_omitted in
    let items := take keep items in
    let retained := length items in
    (map_insert omitted (jN (total - N.of_nat retained)) (map_insert field (JArr items) obj),
     (retained <? before)%nat)
  end.

(** ** The byte cap *)

Section budget.
Variable to_string_pretty : json -> option string.

Definition verify_program_step_payload_bytes (response : json) : N :=
  match to_string_pretty response with
  | Some text => N.of_nat (String.length text)
  | None => USIZE_MAX
  end.

(** [pointer_mut("/payload_budget")] as an object, and its [bytes] written. *)
Definition with_budget_bytes (recorded : N) (response : json) : option json :=
  match response with
  | JObj m =>
    match map_get "payload_budget" m with
    | Some (JObj b) => Some (JObj (map_insert "payload_budget" (JObj (map_insert "bytes" (jN recorded) b)) m))
    | _ => None
    end
  | _ => None
  end.

(** The loop of the measurement: the response as sent and its size. *)
Fixpoint record_loop (fuel : nat) (recorded : N) (response : json) : option (json * N) :=
  let bytes := verify_program_step_payload_bytes response in
  if (bytes =? recorded)%N then Some (response, bytes)
  else
    match fuel with
    | O => None
    | S fuel =>
      match with_budget_bytes bytes response with
      | Some response => record_loop fuel bytes response
      | None => Some (response, bytes)
      end
    end.

Definition record_verify_program_step_payload_bytes (fuel : nat) (response : json) : option (json * N) :=
  record_loop fuel 0 response.

Abbreviation record := record_verify_program_step_payload_bytes.
Abbreviation CAP := VERIFY_PROGRAM_STEP_RESPONSE_CAP_BYTES.

(** One pass over the two previews; past the break a pass does nothing. *)
Definition shed_previews (fuel : nat) (st : option (json * N)) (keep : nat) : option (json * N) :=
  match st with
  | None => None
  | Some (response, bytes) =>
    if (bytes <=? CAP)%N then st
    else
      match response with
      | JObj obj =>
        let '(obj, shed) := omit_preview_rows "ready_functions" "ready_functions_omitted" keep obj in
        let '(obj, shed') := omit_preview_rows "frontier" "frontier_omitted" keep obj in
        if shed || shed' then record fuel (JObj obj) else Some (JObj obj, bytes)
      | _ => st
      end
  end.

(** The blocked list inside the action. *)
Definition shed_blocked (fuel : nat) (st : json * N) : option (json * N) :=
  let '(response, bytes) := st in
  if (bytes <=? CAP)%N then Some st
  else
    match response with
    | JObj m =>
      match map_get "next_action" m with
      | Some (JObj action) =>
        let '(action, shed) := omit_preview_rows "blocked_functions" "blocked_functions_omitted" 0 action in
        let response := JObj (map_insert "next_action" (JObj action) m) in
        if shed then record fuel response else Some (response, bytes)
      | _ => Some st
      end
    | _ => Some st
    end.

Definition oversized_name_action : json :=
  JObj [("tool", JNull); ("args", JObj []);
        ("reason", JStr ("The ready function's name does not fit the response budget, so no call "
          +s+ "naming it can be sent; read the frontier with list."));
        ("blockers", JArr [JStr "oversized_function_name"]); ("confidence", JStr "high")].

(** The name of the ready function in the action's arguments. *)
Definition shed_name (fuel : nat) (st : json * N) : option (json * N) :=
  let '(response, bytes) := st in
  if (bytes <=? CAP)%N then Some st
  else
    let name_bytes := unwrap_or
      ((fun name => N.of_nat (String.length name)) <$>
       (pointer ["next_action"; "args"; "function"] response ≫= as_str)) 0%N in
    if (0 <? name_bytes)%N && (usize_sub bytes name_bytes <=? CAP)%N
    then record fuel (map_object (map_insert "next_action" oversized_name_action) response)
    else Some st.

Definition budget_fields (omitted : list string) : json :=
  JObj [("cap_bytes", jN CAP); ("bytes", jN 0); ("omitted_fields", JArr (map JStr omitted))].

Definition truncated_response : json :=
  JObj [("status", JStr "payload_truncated");
        ("next_action", JObj [("tool", JNull); ("args", JObj []);
           ("reason", JStr ("The response did not fit the payload budget with every omittable field "
             +s+ "already dropped; repeating the call returns this same answer."));
           ("blockers", JArr [JStr "payload_budget"]); ("confidence", JStr "high")]);
        ("payload_budget", budget_fields ["response"])].

Definition truncate_response (fuel : nat) (st : json * N) : option json :=
  let '(response, bytes) := st in
  if (bytes <=? CAP)%N then Some response else fst <$> record fuel truncated_response.

Definition finish_verify_program_step_response (fuel : nat) (response : json) : option json :=
  let response := map_object (map_insert "payload_budget"
    (budget_fields ["order"; "verification_order"; "scc_groups"; "conclusions"; "project_state"])) response in
  match fold_left (shed_previews fuel) [1; 0] (record fuel response) with
  | None => None
  | Some st =>
    match shed_blocked fuel st with
    | None => None
    | Some st =>
      match shed_name fuel st with
      | None => None
      | Some st => truncate_response fuel st
      end
    end
  end.
End budget.

(** ** The next action *)

Inductive NextAction :=
  | ActionDone
  | ActionBlocked (blocked : list string)
  | ActionSandbox (f : string)
  | ActionWait (in_progress : list string).

Definition action_fields (status : list (string * json)) (tool : json) (args : json) (reason : string)
    (blockers : list string) (extra : list (string * json)) (confidence : string) : json :=
  JObj (status ++ [("tool", tool); ("args", args); ("reason", JStr reason);
                   ("blockers", JArr (map JStr blockers))] ++ extra ++ [("confidence", JStr confidence)]).

Definition action_json (a : NextAction) : json :=
  match a with
  | ActionDone =>
    action_fields [("status", JStr "done")] JNull (JObj [])
      "All defined functions have consumable conclusions." [] [] "high"
  | ActionBlocked blocked =>
    action_fields [] (JStr "verify_program_step") (JObj [])
      ("One or more functions have non-consumable terminal conclusions; fix or revise them before "
       +s+ "scheduling callers.") ["blocked_functions"]
      [("blocked_functions", JArr (map JStr blocked))] "high"
  | ActionSandbox f =>
    action_fields [] (JStr "create_sandbox") (JObj [("function", JStr f)])
      ("A function is ready because all required callees have consumable conclusions; create a sandbox, "
       +s+ "validate and inject annotations there, then store a conclusion and merge verified annotations.")
      [] [] "high"
  | ActionWait in_progress =>
    action_fields [] (JStr "verify_program_step")
      (JObj [("in_progress", JArr (map JStr in_progress))])
      ("No function is ready yet; wait for in-progress function verification or update conclusions.")
      ["no_ready_functions"] [] "medium"
  end.

(** The names of the conclusions with a status, sorted and without repetition. *)
Definition functions_with (p : VerificationStatus -> bool) (s : SessionState) : list string :=
  btree_set (map cs_function (bfilter (fun c => p (cs_status c)) (list_conclusions None s))).

Definition is_verified (st : VerificationStatus) : bool := bool_decide (st = Verified).
Definition is_in_progress (st : VerificationStatus) : bool := bool_decide (st = InProgress).
Definition is_blocked (st : VerificationStatus) : bool := negb (is_verified st || is_in_progress st).

Definition done_functions : SessionState -> list string := functions_with is_verified.
Definition blocked_functions : SessionState -> list string := functions_with is_blocked.

(** The recorded ones and those the caller names. *)
Definition running_functions (in_progress : option (list string)) (s : SessionState) : list string :=
  btree_set (functions_with is_in_progress s ++ unwrap_or in_progress []).

Definition defined_functions (s : SessionState) : list string :=
  map fi_name (bfilter fi_defined (map_to_list (functions s)).*2).

Definition all_done (s : SessionState) : bool :=
  negb (bool_decide (defined_functions s = [])) &&
  forallb (fun f => bool_decide (f ∈ done_functions s)) (defined_functions s).

Definition next_action (s : SessionState) (in_progress : list string) (ready : list ReadyFunc) : NextAction :=
  if all_done s then ActionDone
  else
    match blocked_functions s, ready with
    | b :: bs, _ => ActionBlocked (b :: bs)
    | [], r :: _ => ActionSandbox (rf_function r)
    | [], [] => ActionWait in_progress
    end.

(** ** The step *)

Definition ready_json (r : ReadyFunc) : json :=
  JObj [("function", JStr (rf_function r)); ("scc_id", jopt jN (rf_scc_id r));
        ("is_cycle", JBool (rf_is_cycle r)); ("scc_members", JArr (map JStr (rf_scc_members r)))].

(** The blocked list of an action is previewed like the lists beside it. *)
Definition preview_action (a : json) : json :=
  map_object (fun m => (omit_preview_rows "blocked_functions" "blocked_functions_omitted"
    VERIFY_PROGRAM_STEP_READY_PREVIEW_ITEMS m).1) a.

Definition needs_project_json (project_locked : bool) : json :=
  JObj [("status", JStr "needs_project"); ("project_locked", JBool project_locked);
        ("next_action", JObj [("tool", JStr "reload_project"); ("args", JObj []);
           ("reason", JStr "No project loaded. Load C source files first with reload_project.");
           ("blockers", JArr [JStr "project_not_loaded"]); ("confidence", JStr "high")])].

Definition order_missing (s : SessionState) : bool :=
  match project_state s with
  | None => true
  | Some p => bool_decide (verification_order p = []) || bool_decide (scc_groups p = [])
  end.

(** The frontier: what has a body and no verified conclusion. *)
Definition frontier (s : SessionState) : list string :=
  merge_sort str_le (bfilter (fun f => negb (bool_decide (f ∈ done_functions s))) (defined_functions s)).

(** One fetch: the error of connecting or of plugins.callgraph.compute, and what
    plugins.callgraph.getCallgraph then answers. *)
Record CallgraphFetch := mkFetch { compute_error : option ErrorData; graph_answer : json + ErrorData }.

Section step.
Context `{GraphOps}.
Variable to_string_pretty : json -> option string.
Variable fuel : nat.

(** What comes of fetching the call graph, the first time and the second, and the error,
    if any, of writing the plan to disk. *)
Variables for_order for_ready : CallgraphFetch.
Variable persist_error : ProjectVerificationState -> option string.

Definition ensure_callgraph_cached (fetch : CallgraphFetch) (s : SessionState) : SessionState + ErrorData :=
  match callgraph_edges s, callgraph_vertices s with
  | [], [] =>
    match compute_error fetch with
    | Some error => inr error
    | None => match graph_answer fetch with inl graph => inl (update_callgraph graph s) | inr error => inr error end
    end
  | _, _ => inl s
  end.

(** The plan is computed when the session has none. *)
Definition with_order (s : SessionState) : option (SessionState + ErrorData) :=
  if order_missing s then
    match ensure_callgraph_cached for_order s with
    | inl s => inl ∘ fst <$> compute_topological_order_tool s
    | inr error => Some (inr error)
    end
  else Some (inl s).

Definition order_persisted (s : SessionState) : SessionState :=
  let order := unwrap_or (verification_order <$> project_state s) [] in
  project_state_mut (fun p => mkProjectState (project_source_files p) order (scc_groups p)) s.

Definition persisted_json (s : SessionState) : json :=
  match project_state s with
  | Some p =>
    match persist_error p with
    | None => JObj [("stored", JBool true)]
    | Some e => JObj [("stored", JBool false); ("persist_error", JStr e)]
    end
  | None => JObj [("stored", JBool false)]
  end.

Definition step_response (s : SessionState) (initialized project_locked : bool)
    (in_progress : list string) (ready : list ReadyFunc) (persisted : json) : json :=
  let K := VERIFY_PROGRAM_STEP_READY_PREVIEW_ITEMS in
  let front := frontier s in
  let plan := unwrap_or (project_state s) (mkProjectState [] [] []) in
  JObj [("project_locked", JBool project_locked);
        ("initialized_order", JBool initialized);
        ("progress", JObj [("defined_count", jnat (length (defined_functions s)));
           ("done_count", jnat (length (done_functions s)));
           ("frontier_count", jnat (length front));
           ("in_progress_count", jnat (length in_progress));
           ("blocked_count", jnat (length (blocked_functions s)));
           ("ready_count", jnat (length ready));
           ("verification_order_count", jnat (length (verification_order plan)));
           ("scc_group_count", jnat (length (scc_groups plan)));
           ("conclusion_count", jnat (length (list_conclusions None s)));
           ("eva_completed", JBool (eva_completed s)); ("wp_completed", JBool (wp_completed s))]);
        ("frontier", JArr (map JStr (take K front)));
        ("frontier_omitted", jnat (saturating_sub (length front) K));
        ("ready_functions", JArr (map ready_json (take K ready)));
        ("ready_functions_omitted", jnat (saturating_sub (length ready) K));
        ("project_state_persisted", persisted);
        ("next_action", preview_action (action_json (next_action s in_progress ready)))].

(** The session and the project lock after the step, and the answer or the error. *)
Definition verify_program_step (in_progress : option (list string)) (lock_project : option bool)
    (project_locked : bool) (s : SessionState) : option (SessionState * bool * (json + ErrorData)) :=
  let project_locked := project_locked && negb (opt_eqb Bool.eqb lock_project (Some false)) in
  if negb (project_loaded s) then Some (s, project_locked, inl (needs_project_json project_locked))
  else
    match with_order s with
    | None => None
    | Some (inr error) => Some (s, project_locked, inr error)
    | Some (inl s1) =>
      let running := running_functions in_progress s1 in
      match ensure_callgraph_cached for_ready (order_persisted s1) with
      | inr error => Some (order_persisted s1, project_locked, inr error)
      | inl s2 =>
        match get_ready_functions (done_functions s1) running s2 with
        | None => None
        | Some ready =>
          let locked := project_locked || negb (opt_eqb Bool.eqb lock_project (Some false)) in
          let response := step_response s1 (order_missing s) locked running ready
            (persisted_json (order_persisted s1)) in
          match finish_verify_program_step_response to_string_pretty fuel response with
          | Some answer => Some (s2, locked, inl answer)
          | None => None
          end
        end
      end
    end.
End step.

(** ** Lemmas: how wide a number prints *)

Definition width (n : N) : N := N.of_nat (String.length (dec_N n)).

(** Digits, by the quotient that [dec_N] takes. *)
Fixpoint digits (fuel : nat) (n : N) : N :=
  match fuel with
  | O => 0
  | S fuel => if (n =? 0)%N then 0 else (1 + digits fuel (n / 10))%N
  end.

Lemma pretty_go_length x : forall fuel s, (N.to_nat x < fuel)%nat ->
  N.of_nat (String.length (pretty_N_go x s)) = (digits fuel x + N.of_nat (String.length s))%N.
Proof.
  induction (N.lt_wf_0 x) as [x _ IH]. intros [|fuel] s Hf; [lia|]. simpl.
  destruct (N.eqb_spec x 0) as [->|Hx]; [done|].
  rewrite pretty_N_go_step by lia. assert (Hd : (x / 10 < x)%N) by (apply N.div_lt; lia).
  rewrite (IH _ Hd fuel) by lia. simpl. lia.
Qed.

Lemma width_digits n : width n = if (n =? 0)%N then 1%N else digits (S (N.to_nat n)) n.
Proof.
  unfold width, dec_N, pretty, pretty_N. destruct (N.eqb_spec n 0) as [->|Hn]; [done|].
  rewrite decide_False by done. rewrite (pretty_go_length n (S (N.to_nat n))) by lia. simpl. lia.
Qed.

Lemma digits_mono fuel fuel' x y : (x <= y)%N -> (N.to_nat x < fuel)%nat -> (N.to_nat y < fuel')%nat ->
  (digits fuel x <= digits fuel' y)%N.
Proof.
  revert fuel' x y. induction fuel as [|fuel IH]; intros fuel' x y Hxy Hf Hf'; [lia|].
  destruct fuel' as [|fuel']; [lia|]. simpl.
  destruct (N.eqb_spec x 0) as [->|Hx]; [lia|]. destruct (N.eqb_spec y 0) as [->|Hy]; [lia|].
  assert (Hxd : (x / 10 < x)%N) by (apply N.div_lt; lia).
  assert (Hyd : (y / 10 < y)%N) by (apply N.div_lt; lia).
  assert (Hd : (x / 10 <= y / 10)%N) by (apply N.Div0.div_le_mono; lia).
  specialize (IH fuel' _ _ Hd). lia.
Qed.

Lemma digits_half fuel x : (N.to_nat x < fuel)%nat -> (2 * digits fuel x <= x + 2)%N.
Proof.
  revert x. induction fuel as [|fuel IH]; intros x Hf; [lia|]. simpl.
  destruct (N.eqb_spec x 0) as [->|Hx]; [lia|].
  assert (Hxd : (x / 10 < x)%N) by (apply N.div_lt; lia).
  specialize (IH (x / 10)%N ltac:(lia)).
  destruct (N.le_gt_cases 10 x) as [Hge|Hlt]; [|rewrite (N.div_small x 10) in * by lia; destruct fuel; simpl in *; lia].
  pose proof (N.Div0.mul_div_le x 10). lia.
Qed.

Lemma width_pos n : (1 <= width n)%N.
Proof.
  rewrite width_digits. destruct (N.eqb_spec n 0) as [->|Hn]; [lia|]. simpl.
  rewrite (proj2 (N.eqb_neq n 0)) by done. lia.
Qed.

Lemma width_mono x y : (x <= y)%N -> (width x <= width y)%N.
Proof.
  intros Hxy. destruct (N.eqb_spec x 0) as [->|Hx]; [apply width_pos|].
  rewrite !width_digits. rewrite !(proj2 (N.eqb_neq _ _)) by lia. apply digits_mono; lia.
Qed.

Lemma width_half n : (2 * width n <= n + 2)%N.
Proof.
  rewrite width_digits. destruct (N.eqb_spec n 0) as [->|Hn]; [lia|]. apply digits_half. lia.
Qed.

(** ** Lemmas: the measuring loop *)

Section measured.
Variable to_string_pretty : json -> option string.
Abbreviation bytes_of := (verify_program_step_payload_bytes to_string_pretty).

(** serde_json prints an unsigned number as its decimal digits: of a text, only the
    width depends on the number written in one place. *)
Definition prints_numbers : Prop := forall response,
  is_Some (with_budget_bytes 0 response) -> exists base, forall n, exists r,
    with_budget_bytes n response = Some r /\ bytes_of r = (base + width n)%N.

(** The size the response reports. *)
Definition reports (k : N) (response : json) : Prop :=
  with_budget_bytes k response = Some response.

Lemma with_budget_reports n response r : with_budget_bytes n response = Some r -> reports n r.
Proof.
  unfold reports, with_budget_bytes. destruct response as [| | | | |m]; try done.
  destruct (map_get "payload_budget" m) as [[| | | | |b]|] eqn:Hb; try done. intros [= <-].
  rewrite map_get_insert. by rewrite !map_insert_insert.
Qed.

Lemma with_budget_again n k response r : with_budget_bytes k response = Some r ->
  with_budget_bytes n r = with_budget_bytes n response.
Proof.
  unfold with_budget_bytes. destruct response as [| | | | |m]; try done.
  destruct (map_get "payload_budget" m) as [[| | | | |b]|] eqn:Hb; try done. intros [= <-].
  rewrite map_get_insert. by rewrite !map_insert_insert.
Qed.

Lemma reports_is_Some k response n : reports k response -> is_Some (with_budget_bytes n response).
Proof.
  unfold reports, with_budget_bytes. destruct response as [| | | | |m]; try done.
  destruct (map_get "payload_budget" m) as [[| | | | |b]|]; done.
Qed.

(** One response, its size as a function of the number in it. *)
Section sized.
Context (base : N) (r : json).
Hypothesis Hsize : forall n, exists r', with_budget_bytes n r = Some r' /\ bytes_of r' = (base + width n)%N.

Definition settles (x : N) (rx : json) (Z : N) : Prop := exists fuel y ry,
  with_budget_bytes y r = Some ry /\ bytes_of ry = y /\ (y <= Z)%N /\
  forall fuel', fuel <= fuel' -> record_loop to_string_pretty fuel' x rx = Some (ry, y).

Lemma settles_step x rx Z : with_budget_bytes x r = Some rx ->
  ((base + width x)%N = x -> (x <= Z)%N) ->
  ((base + width x)%N <> x -> forall r', with_budget_bytes (base + width x) r = Some r' ->
    settles (base + width x) r' Z) -> settles x rx Z.
Proof.
  intros Hx Hsame Hnext. destruct (Hsize x) as (rx' & Hx' & Hb). rewrite Hx in Hx'. injection Hx' as <-.
  destruct (N.eq_dec (base + width x)%N x) as [He|Hne].
  - exists 0, x, rx. split_and!; [done|congruence|by apply Hsame|].
    intros [|fuel'] _; simpl; by rewrite Hb, He, N.eqb_refl.
  - destruct (Hsize (base + width x)%N) as (r' & Hr' & _).
    destruct (Hnext Hne r' Hr') as (fuel & y & ry & Hy & Hyb & HyZ & Hloop).
    exists (S fuel), y, ry. split_and!; [done..|]. intros [|fuel'] Hf; [lia|]. simpl.
    rewrite Hb, (proj2 (N.eqb_neq _ _)) by done. rewrite (with_budget_again _ x r rx Hx), Hr'. apply Hloop. lia.
Qed.

(** Growing, the numbers stay below twice the base. *)
Lemma settles_up x rx Z : with_budget_bytes x r = Some rx -> (x <= base + width x)%N ->
  (x <= Z)%N -> (base + width Z <= Z)%N -> settles x rx Z.
Proof.
  remember (2 * base + 3 - x)%N as m eqn:Hm. revert x rx Hm.
  induction (N.lt_wf_0 m) as [m _ IH]. intros x rx -> Hx Hup HxZ HZ.
  apply settles_step; [done|done|]. intros Hne r' Hr'. pose proof (width_half x).
  apply (IH (2 * base + 3 - (base + width x))%N); [lia|done|done| | |done].
  - pose proof (width_mono x (base + width x)%N Hup). lia.
  - pose proof (width_mono x Z HxZ). lia.
Qed.

Lemma settles_down x rx Z : with_budget_bytes x r = Some rx -> (base + width x <= x)%N ->
  (x <= Z)%N -> settles x rx Z.
Proof.
  revert rx. induction (N.lt_wf_0 x) as [x _ IH]. intros rx Hx Hdown HxZ.
  apply settles_step; [done|done|]. intros Hne r' Hr'. apply IH; [lia|done| |lia].
  pose proof (width_mono (base + width x)%N x Hdown). lia.
Qed.

Lemma record_loop_ends x rx Z : with_budget_bytes x r = Some rx -> (x <= Z)%N -> (base + width Z <= Z)%N ->
  settles x rx Z.
Proof.
  intros Hx HxZ HZ. destruct (N.le_ge_cases x (base + width x)%N); [by apply settles_up|by apply settles_down].
Qed.
End sized.

Hypothesis Hprints : prints_numbers.

(** The measurement ends with a response that reports its own size. *)
Lemma record_ends response k : reports k response -> exists fuel r y, reports y r /\ bytes_of r = y /\
  (forall Z, (bytes_of response <= Z)%N -> (bytes_of response + width Z <= Z + 1)%N -> k = 0%N -> (y <= Z)%N) /\
  with_budget_bytes y response = Some r /\
  forall fuel', fuel <= fuel' ->
    record_verify_program_step_payload_bytes to_string_pretty fuel' response = Some (r, y).
Proof.
  intros Hk. destruct (Hprints response) as (base & Hsize); [by eapply reports_is_Some|].
  assert (Hb : bytes_of response = (base + width k)%N).
  { destruct (Hsize k) as (r' & Hr' & Hb'). unfold reports in Hk. congruence. }
  destruct (Hsize (bytes_of response)) as (r1 & Hr1 & _). pose proof (width_pos k) as Hpos.
  assert (Hend : forall Z, (bytes_of response <= Z)%N -> (base + width Z <= Z)%N ->
    settles response (bytes_of response) r1 Z) by (intros Z; by apply (record_loop_ends base)).
  destruct (Hend (2 * base + bytes_of response + 4)%N) as (fuel & y & ry & Hy & Hyb & _ & Hloop); [lia| |].
  { pose proof (width_half (2 * base + bytes_of response + 4)%N). lia. }
  exists (S fuel), ry, y. split_and!; [by eapply with_budget_reports|done| |done|].
  - intros Z HZ HwZ ->. destruct (Hend Z HZ) as (fuel2 & y2 & ry2 & _ & _ & Hy2 & Hloop2).
    { assert (width 0 = 1%N) by done. lia. }
    specialize (Hloop (fuel + fuel2) ltac:(lia)). specialize (Hloop2 (fuel + fuel2) ltac:(lia)). congruence.
  - intros [|fuel'] Hf; [lia|]. unfold record_verify_program_step_payload_bytes. simpl.
    rewrite (proj2 (N.eqb_neq _ _)) by lia. rewrite Hr1. apply Hloop. lia.
Qed.

(** ** Lemmas: what shedding keeps *)

Definition sized_state (st : json * N) : Prop := exists k, reports k st.1 /\
  ((st.2 <= VERIFY_PROGRAM_STEP_RESPONSE_CAP_BYTES)%N -> bytes_of st.1 = st.2 /\ k = st.2).

Lemma record_sized response k : reports k response -> exists fuel st, sized_state st /\
  with_budget_bytes st.2 response = Some st.1 /\ forall fuel', fuel <= fuel' ->
    record_verify_program_step_payload_bytes to_string_pretty fuel' response = Some st.
Proof.
  intros Hk. destruct (record_ends response k Hk) as (fuel & r & y & Hr & Hb & _ & Hw & Hloop).
  exists fuel, (r, y). split_and!; [|done|done]. exists y. by split.
Qed.
End measured.

Lemma reports_iff k m : reports k (JObj m) <->
  exists b, map_get "payload_budget" m = Some (JObj b) /\ map_get "bytes" b = Some (jN k).
Proof.
  unfold reports, with_budget_bytes. split.
  - destruct (map_get "payload_budget" m) as [[| | | | |b]|] eqn:Hb; try done. intros [= Hm]. exists b. split; [done|].
    rewrite <- Hm, map_get_insert in Hb. injection Hb as Hb. rewrite <- Hb. apply map_get_insert.
  - intros (b & Hb & Hk). rewrite Hb. by rewrite (map_insert_same _ _ b Hk), (map_insert_same _ _ m Hb).
Qed.

(** Of a previewed list a prefix is left, and what went is in the count. *)
Definition rows_kept (field omitted : string) (m0 m : jmap) : Prop := forall items k,
  map_get field m0 = Some (JArr items) -> map_get omitted m0 = Some (jN k) ->
  (N.of_nat (length items) + k < 2 ^ 64)%N -> exists n,
    map_get field m = Some (JArr (take n items)) /\
    map_get omitted m = Some (jN (N.of_nat (length items) + k - N.of_nat (length (take n items)))).

(** The call an action recommends is the one it was, or none. *)
Definition call_kept (a0 a : json) : Prop :=
  (a.?"tool" = a0.?"tool" /\ a.?"args" = a0.?"args") \/
  (a.?"tool" = Some JNull /\ a.?"args" = Some (JObj [])).

Record shed_from (m0 m : jmap) : Prop := {
  sf_ready : rows_kept "ready_functions" "ready_functions_omitted" m0 m;
  sf_frontier : rows_kept "frontier" "frontier_omitted" m0 m;
  sf_action : forall a0, map_get "next_action" m0 = Some a0 ->
    exists a, map_get "next_action" m = Some a /\ call_kept a0 a;
}.

Lemma rows_kept_same field omitted m0 m :
  map_get field m = map_get field m0 -> map_get omitted m = map_get omitted m0 -> rows_kept field omitted m0 m.
Proof.
  intros Hf Ho items k Hi Hk Hlt. exists (length items). rewrite Hf, Ho, firstn_all. split; [done|].
  rewrite Hk. do 3 f_equal. lia.
Qed.

Lemma rows_kept_trans field omitted m0 m1 m2 :
  rows_kept field omitted m0 m1 -> rows_kept field omitted m1 m2 -> rows_kept field omitted m0 m2.
Proof.
  intros H1 H2 items k Hi Hk Hlt. destruct (H1 items k Hi Hk Hlt) as (n & Hf & Ho).
  pose proof (length_take items n) as Hn. rewrite Hn in Ho.
  destruct (H2 _ _ Hf Ho) as (n' & Hf' & Ho'); [rewrite Hn; lia|].
  exists (n' `min` n)%nat. rewrite take_take in Hf', Ho'. split; [done|]. rewrite Ho', Hn.
  do 2 f_equal. rewrite length_take. lia.
Qed.

Lemma call_kept_refl a : call_kept a a.
Proof. by left. Qed.

Lemma call_kept_trans a b c : call_kept a b -> call_kept b c -> call_kept a c.
Proof. unfold call_kept. intros [[H1 H2]|[H1 H2]] [[H3 H4]|?]; rewrite ?H3, ?H4; tauto. Qed.

Lemma shed_from_refl m : shed_from m m.
Proof. split; [by apply rows_kept_same|by apply rows_kept_same|]. eauto using call_kept_refl. Qed.

Lemma shed_from_trans m0 m1 m2 : shed_from m0 m1 -> shed_from m1 m2 -> shed_from m0 m2.
Proof.
  intros [R1 F1 A1] [R2 F2 A2]. split; [by eapply rows_kept_trans|by eapply rows_kept_trans|].
  intros a0 (a1 & (a2 & ? & ?)%A2 & ?)%A1. eauto using call_kept_trans.
Qed.

(** Writing an entry none of this speaks of. *)
Lemma shed_from_insert k v m :
  k ∉ ["ready_functions"; "ready_functions_omitted"; "frontier"; "frontier_omitted"; "next_action"] ->
  shed_from m (map_insert k v m).
Proof.
  intros Hk. rewrite !not_elem_of_cons in Hk. destruct Hk as (? & ? & ? & ? & ? & _).
  split; [apply rows_kept_same; by apply map_get_insert_ne..|].
  intros a Ha. exists a. split; [|apply call_kept_refl]. by rewrite map_get_insert_ne.
Qed.

Lemma shed_from_budget n m r : with_budget_bytes n (JObj m) = Some r -> exists m', r = JObj m' /\ shed_from m m'.
Proof.
  unfold with_budget_bytes. destruct (map_get "payload_budget" m) as [[| | | | |b]|]; try done.
  intros [= <-]. eexists. split; [done|]. apply shed_from_insert. decide_closed.
Qed.

Lemma shed_from_action a m : (forall a0, map_get "next_action" m = Some a0 -> call_kept a0 a) ->
  shed_from m (map_insert "next_action" a m).
Proof.
  intros Ha. split; [by apply rows_kept_same; apply map_get_insert_ne..|].
  intros a0 Ha0. exists a. rewrite map_get_insert. eauto.
Qed.

Lemma omit_other field omitted keep k m : k <> field -> k <> omitted ->
  map_get k (omit_preview_rows field omitted keep m).1 = map_get k m.
Proof.
  intros Hf Ho. unfold omit_preview_rows. destruct (map_get field m ≫= as_array); [|done].
  simpl. by rewrite !map_get_insert_ne.
Qed.

Lemma omit_rows_kept field omitted keep m : field <> omitted ->
  rows_kept field omitted m (omit_preview_rows field omitted keep m).1.
Proof.
  intros Hne items k Hi Hk Hlt. unfold omit_preview_rows. rewrite Hi, Hk. cbn [option_bind mbind as_array fst].
  assert (as_u64 (jN k) = Some k) as ->.
  { unfold as_u64, jN. rewrite (proj2 (Z.leb_le _ _)) by lia. by rewrite N2Z.id. }
  exists keep. simpl. rewrite map_get_insert_ne by done. rewrite !map_get_insert. split; [done|].
  do 2 f_equal. unfold usize_add. by rewrite N.mod_small.
Qed.

Lemma omit_shed_from field omitted keep m :
  (field, omitted) ∈ [("ready_functions", "ready_functions_omitted"); ("frontier", "frontier_omitted")] ->
  shed_from m (omit_preview_rows field omitted keep m).1.
Proof.
  intros [[= -> ->]|[[= -> ->]|[]%elem_of_nil]%elem_of_cons]%elem_of_cons; split;
    (by apply omit_rows_kept) || (apply rows_kept_same; by apply omit_other) ||
    (intros a Ha; exists a; rewrite omit_other by done; split; [done|apply call_kept_refl]).
Qed.

(** ** Lemmas: the passes *)

(** With enough fuel the same result, and one that satisfies [P]. *)
Definition eventually {A} (f : nat -> option A) (P : A -> Prop) : Prop :=
  exists fuel a, P a /\ forall fuel', fuel <= fuel' -> f fuel' = Some a.

Lemma eventually_now {A} (a : A) (P : A -> Prop) : P a -> eventually (fun _ => Some a) P.
Proof. exists 0, a. by split. Qed.

Lemma eventually_bind {A B} (f : nat -> option A) (h : nat -> option A -> option B) (P : A -> Prop) (Q : B -> Prop) :
  eventually f P -> (forall a, P a -> eventually (fun fuel => h fuel (Some a)) Q) ->
  eventually (fun fuel => h fuel (f fuel)) Q.
Proof.
  intros (F & a & Ha & Hf) Hh. destruct (Hh a Ha) as (F' & b & Hb & Hf').
  exists (F + F'), b. split; [done|]. intros fuel Hfuel. rewrite Hf by lia. apply Hf'. lia.
Qed.

Lemma eventually_impl {A} (f : nat -> option A) (P Q : A -> Prop) :
  eventually f P -> (forall a, P a -> Q a) -> eventually f Q.
Proof. intros (F & a & Ha & Hf) HPQ. exists F, a. auto. Qed.

Section passes.
Variable to_string_pretty : json -> option string.
Hypothesis Hprints : prints_numbers to_string_pretty.
Variable m0 : jmap.

Definition good (st : json * N) : Prop :=
  sized_state to_string_pretty st /\ exists m, st.1 = JObj m /\ shed_from m0 m.

Lemma record_good k m : reports k (JObj m) -> shed_from m0 m ->
  eventually (fun fuel => record_verify_program_step_payload_bytes to_string_pretty fuel (JObj m)) good.
Proof.
  intros Hk Hm. destruct (record_sized to_string_pretty Hprints (JObj m) k Hk) as (F & st & Hs & Hw & Hf).
  exists F, st. split; [|done]. split; [done|].
  destruct (shed_from_budget _ _ _ Hw) as (m' & Hm' & Hs'). exists m'. split; [done|]. by eapply shed_from_trans.
Qed.

(** A rewritten object that still carries the report: measured again, or over the cap. *)
Lemma good_rewritten (b : bool) k m m' bytes :
  reports k (JObj m) -> shed_from m0 m -> shed_from m m' ->
  map_get "payload_budget" m' = map_get "payload_budget" m ->
  (VERIFY_PROGRAM_STEP_RESPONSE_CAP_BYTES < bytes)%N ->
  eventually (fun fuel => if b then record_verify_program_step_payload_bytes to_string_pretty fuel (JObj m')
    else Some (JObj m', bytes)) good.
Proof.
  intros Hk Hm Hmm Hb Hlt. assert (Hk' : reports k (JObj m')) by (apply reports_iff; rewrite Hb; by apply reports_iff).
  assert (Hm' : shed_from m0 m') by (by eapply shed_from_trans).
  destruct b; [by eapply record_good|]. apply eventually_now. split; [|by exists m'].
  exists k. split; [done|]. simpl. lia.
Qed.

Lemma shed_previews_good keep st : good st ->
  eventually (fun fuel => shed_previews to_string_pretty fuel (Some st) keep) good.
Proof.
  destruct st as [response bytes]. intros Hg. pose proof Hg as [(k & Hk & _) (m & Hr & Hm)].
  cbn [fst snd] in Hk, Hr. subst response.
  unfold shed_previews. destruct (N.leb_spec bytes VERIFY_PROGRAM_STEP_RESPONSE_CAP_BYTES) as [Hle|Hgt];
    [by apply eventually_now|].
  destruct (omit_preview_rows "ready_functions" "ready_functions_omitted" keep m) as [m1 s1] eqn:E1.
  destruct (omit_preview_rows "frontier" "frontier_omitted" keep m1) as [m2 s2] eqn:E2.
  pose proof (omit_shed_from "ready_functions" "ready_functions_omitted" keep m ltac:(set_solver)) as H1.
  pose proof (omit_shed_from "frontier" "frontier_omitted" keep m1 ltac:(set_solver)) as H2.
  pose proof (omit_other "ready_functions" "ready_functions_omitted" keep "payload_budget" m) as O1.
  pose proof (omit_other "frontier" "frontier_omitted" keep "payload_budget" m1) as O2.
  rewrite E1 in H1, O1. rewrite E2 in H2, O2. simpl in *.
  apply (good_rewritten (s1 || s2) k m m2 bytes); try done.
  - by eapply shed_from_trans.
  - by rewrite O2, O1.
Qed.

Lemma shed_blocked_good st : good st ->
  eventually (fun fuel => shed_blocked to_string_pretty fuel st) good.
Proof.
  destruct st as [response bytes]. intros Hg. pose proof Hg as [(k & Hk & _) (m & Hr & Hm)].
  cbn [fst snd] in Hk, Hr. subst response.
  unfold shed_blocked. destruct (N.leb_spec bytes VERIFY_PROGRAM_STEP_RESPONSE_CAP_BYTES) as [Hle|Hgt];
    [by apply eventually_now|].
  destruct (map_get "next_action" m) as [[| | | | |action]|] eqn:Ha; try by apply eventually_now.
  destruct (omit_preview_rows "blocked_functions" "blocked_functions_omitted" 0 action) as [a' s] eqn:E.
  apply (good_rewritten s k m (map_insert "next_action" (JObj a') m) bytes); try done.
  - apply shed_from_action. intros a0 Ha0. rewrite Ha in Ha0. injection Ha0 as <-. left.
    change a' with (a', s).1. rewrite <- E. simpl. by rewrite !omit_other.
  - by apply map_get_insert_ne.
Qed.

Lemma shed_name_good st : good st -> eventually (fun fuel => shed_name to_string_pretty fuel st) good.
Proof.
  destruct st as [response bytes]. intros Hg. pose proof Hg as [(k & Hk & _) (m & Hr & Hm)].
  cbn [fst snd] in Hk, Hr. subst response.
  unfold shed_name. destruct (N.leb_spec bytes VERIFY_PROGRAM_STEP_RESPONSE_CAP_BYTES) as [Hle|Hgt];
    [by apply eventually_now|].
  destruct (_ && _); [|by apply eventually_now].
  apply (record_good k).
  - apply reports_iff. setoid_rewrite map_get_insert_ne; [|done]. by apply reports_iff.
  - eapply shed_from_trans; [done|]. apply shed_from_action. intros a0 _. by right.
Qed.

(** The answer: within the cap, its own size in it, and shed from what it was or the
    fixed body. *)
Definition finished (r : json) : Prop :=
  let size := verify_program_step_payload_bytes to_string_pretty r in
  (size <= VERIFY_PROGRAM_STEP_RESPONSE_CAP_BYTES)%N /\ reports size r /\
  ((exists m, r = JObj m /\ shed_from m0 m) \/ with_budget_bytes size truncated_response = Some r).

Lemma truncate_finished st : good st ->
  (verify_program_step_payload_bytes to_string_pretty truncated_response + 4
    <= VERIFY_PROGRAM_STEP_RESPONSE_CAP_BYTES)%N ->
  eventually (fun fuel => truncate_response to_string_pretty fuel st) finished.
Proof.
  destruct st as [response bytes]. intros [(k & Hk & Hs) Hm] Hfits. simpl in *. unfold truncate_response.
  destruct (N.leb_spec bytes VERIFY_PROGRAM_STEP_RESPONSE_CAP_BYTES) as [Hle|Hgt].
  - apply eventually_now. destruct (Hs Hle) as [Hb ->]. unfold finished. rewrite Hb. auto.
  - destruct (record_ends to_string_pretty Hprints truncated_response 0) as (F & r & y & Hr & Hb & HZ & Hw & Hf);
      [reflexivity|]. exists F, r. split; [|intros fuel HF; by rewrite Hf].
    unfold finished. rewrite Hb. split; [|by auto]. apply HZ; [lia| |done].
    assert (width VERIFY_PROGRAM_STEP_RESPONSE_CAP_BYTES = 5%N) as -> by reflexivity. lia.
Qed.
End passes.

Lemma finish_ends to_string_pretty m0 : prints_numbers to_string_pretty ->
  (verify_program_step_payload_bytes to_string_pretty truncated_response + 4
    <= VERIFY_PROGRAM_STEP_RESPONSE_CAP_BYTES)%N ->
  eventually (fun fuel => finish_verify_program_step_response to_string_pretty fuel (JObj m0))
    (finished to_string_pretty m0).
Proof.
  intros Hprints Hfits. unfold finish_verify_program_step_response. cbn [map_object fold_left].
  set (m1 := map_insert "payload_budget" _ m0).
  pose proof (record_good to_string_pretty Hprints m0 0 m1) as Hrec.
  eapply (eventually_bind _ (fun fuel st => match st with None => None | Some st => _ end) (good to_string_pretty m0)).
  - eapply (eventually_bind _ (fun fuel st => shed_previews to_string_pretty fuel st 0)).
    + eapply (eventually_bind _ (fun fuel st => shed_previews to_string_pretty fuel st 1)).
      * apply Hrec; [|apply shed_from_insert; decide_closed].
        apply reports_iff. eexists. split; [apply map_get_insert|reflexivity].
      * intros st Hst. by apply shed_previews_good.
    + intros st Hst. by apply shed_previews_good.
  - intros st Hst.
    eapply (eventually_bind _ (fun fuel st => match st with None => None | Some st => _ end)).
    { by apply shed_blocked_good. }
    intros st' Hst'.
    eapply (eventually_bind _ (fun fuel st => match st with None => None | Some st => _ end)).
    { by apply shed_name_good. }
    intros st'' Hst''. by apply truncate_finished.
Qed.

(** ** Lemmas: what the session says of a function *)

(** A conclusion about [f] whose status satisfies [p]. *)
Definition concluded (p : VerificationStatus -> bool) (s : SessionState) (f : string) : Prop :=
  exists n e, conclusions s !! n = Some e /\ function e = f /\ p (status e) = true.

Lemma elem_of_functions_with p s f : f ∈ functions_with p s <-> concluded p s f.
Proof.
  unfold functions_with, list_conclusions, concluded. rewrite elem_of_btree_set, list_elem_of_fmap. split.
  - intros (x & -> & [Hx Hp]%elem_of_bfilter). apply list_elem_of_fmap in Hx as (e & -> & He).
    apply elem_of_bfilter in He as [He _]. apply list_elem_of_fmap in He as ([n e'] & -> & He).
    apply elem_of_map_to_list in He. exists n, e'. by split_and!.
  - intros (n & e & He & <- & Hp).
    exists (mkConclusionSummary (function e) (status e) (wp_summary e) (verified_with e)).
    split; [done|]. apply elem_of_bfilter. split; [|done]. apply list_elem_of_fmap. exists e. split; [done|].
    apply elem_of_bfilter. split; [|done]. apply list_elem_of_fmap. exists (n, e). split; [done|].
    by apply elem_of_map_to_list.
Qed.

Lemma all_done_spec s : all_done s = true <->
  defined_functions s <> [] /\ forall f, f ∈ defined_functions s -> concluded is_verified s f.
Proof.
  unfold all_done. rewrite andb_true_iff, negb_true_iff, bool_decide_eq_false, forallb_true.
  setoid_rewrite bool_decide_eq_true. by setoid_rewrite elem_of_functions_with.
Qed.

(** What each action says of the session and the call graph. *)
Inductive action_spec (s : SessionState) (vertices : list string) (edges : list (string * string))
    (running : list string) : NextAction -> Prop :=
  | spec_done : defined_functions s <> [] ->
      (forall f, f ∈ defined_functions s -> concluded is_verified s f) ->
      action_spec s vertices edges running ActionDone
  | spec_blocked l : all_done s = false -> l <> [] -> (forall f, f ∈ l <-> concluded is_blocked s f) ->
      action_spec s vertices edges running (ActionBlocked l)
  | spec_sandbox f : all_done s = false -> (forall g, ~ concluded is_blocked s g) ->
      f ∈ vertices -> ~ concluded is_verified s f -> f ∉ running ->
      (forall c, calls vertices edges f c -> same_cycle vertices edges f c \/ concluded is_verified s c) ->
      action_spec s vertices edges running (ActionSandbox f)
  | spec_wait : all_done s = false -> (forall g, ~ concluded is_blocked s g) ->
      (forall f, f ∈ vertices -> ~ concluded is_verified s f -> f ∉ running -> exists c,
        calls vertices edges f c /\ ~ same_cycle vertices edges f c /\ ~ concluded is_verified s c) ->
      action_spec s vertices edges running (ActionWait running).

Lemma next_action_spec `{GraphLaws} s vertices edges running : exists ready,
  compute_ready_functions vertices edges (done_functions s) running = Some ready /\
  action_spec s vertices edges running (next_action s running ready).
Proof.
  destruct (ready_list_spec vertices edges (done_functions s) running) as (ready & Hr & _ & Hin & Hall).
  exists ready. split; [done|]. unfold next_action.
  destruct (all_done s) eqn:Hdone; [apply all_done_spec in Hdone as [? ?]; by constructor|].
  destruct (blocked_functions s) as [|b bs] eqn:Hb.
  - assert (Hno : forall g, ~ concluded is_blocked s g).
    { intros g Hg%elem_of_functions_with. unfold blocked_functions in Hb. rewrite Hb in Hg. by inversion Hg. }
    destruct ready as [|r ready].
    + constructor; [done|done|]. intros f Hf Hv Hi. rewrite <- elem_of_functions_with in Hv.
      destruct (Hall f Hf Hv Hi) as [(r & Hr' & _)|(c & Hc & Hn)]; [by inversion Hr'|].
      exists c. rewrite <- elem_of_functions_with. split; [done|]. tauto.
    + destruct (Hin r) as (? & Hd & ? & _ & Hc); [left|]. constructor; try done.
      * by rewrite <- elem_of_functions_with.
      * intros c Hfc. rewrite <- elem_of_functions_with. by apply Hc.
  - constructor; [done|done|]. intros f. by rewrite <- Hb, <- elem_of_functions_with.
Qed.

(** ** Lemmas: the step *)

Definition no_graph (s : SessionState) : Prop := callgraph_edges s = [] /\ callgraph_vertices s = [].
Definition no_plan (s : SessionState) : Prop :=
  forall p, project_state s = Some p -> verification_order p = [] \/ scc_groups p = [].

(** The call graph, asked for when the session has none. *)
Inductive fetched (fetch : CallgraphFetch) (s : SessionState) : SessionState + ErrorData -> Prop :=
  | graph_at_hand : ~ no_graph s -> fetched fetch s (inl s)
  | not_computed e : no_graph s -> compute_error fetch = Some e -> fetched fetch s (inr e)
  | not_answered e : no_graph s -> compute_error fetch = None -> graph_answer fetch = inr e -> fetched fetch s (inr e)
  | graph_answered g : no_graph s -> compute_error fetch = None -> graph_answer fetch = inl g ->
      fetched fetch s (inl (update_callgraph g s)).

(** The plan: each function of the call graph that has a body, once, its callees before
    it unless they are in its own recursion, in the groups the plan keeps. *)
Definition plan_of (s : SessionState) (ps : ProjectVerificationState) : Prop :=
  let calls := calls (callgraph_by_name s).1 (callgraph_by_name s).2 in
  let vo := verification_order ps in
  project_source_files ps = unwrap_or (project_source_files <$> project_state s) [] /\
  vo = flat_map members (scc_groups ps) /\ NoDup vo /\
  (forall f, f ∈ vo <-> f ∈ (callgraph_by_name s).1 /\ exists i, functions s !! f = Some i /\ fi_defined i = true) /\
  forall l1 f l2 h, vo = l1 ++ f :: l2 -> rtc calls f h -> h ∈ vo -> mutual calls f h \/ h ∈ l1.

Inductive planned (for_order : CallgraphFetch) (s : SessionState) : SessionState -> Prop :=
  | plan_at_hand : ~ no_plan s -> planned for_order s s
  | plan_computed s1 ps : no_plan s -> fetched for_order s (inl s1) -> plan_of s1 ps ->
      planned for_order s (project_state_mut (fun _ => ps) s1).

(** What a step does to the session, and the error it stops at, if any. *)
Inductive stepped (for_order for_ready : CallgraphFetch) (s : SessionState) : SessionState -> option ErrorData -> Prop :=
  | stopped_planning e : no_plan s -> fetched for_order s (inr e) -> stepped for_order for_ready s s (Some e)
  | stopped_choosing s1 e : planned for_order s s1 -> fetched for_ready s1 (inr e) ->
      stepped for_order for_ready s s1 (Some e)
  | step_taken s1 s2 : planned for_order s s1 -> fetched for_ready s1 (inl s2) ->
      stepped for_order for_ready s s2 None.

(** All but the plan and the call graph. *)
Definition same_work (s s' : SessionState) : Prop :=
  exists edges vertices plan, s' = mkSession (project_loaded s) (eva_completed s) (wp_completed s) (functions s)
    (stale_markers s) (globals s) edges vertices (conclusions s) plan (verification_profiles s)
    (verification_profiles_source s) (seen_receipts s).

Section stepping.
Context `{GraphLaws} (to_string_pretty : json -> option string) (for_order for_ready : CallgraphFetch)
  (persist_error : ProjectVerificationState -> option string).

Lemma ensure_fetched fetch s : fetched fetch s (ensure_callgraph_cached fetch s).
Proof.
  unfold ensure_callgraph_cached. destruct (callgraph_edges s) eqn:He; [|constructor; intros []; congruence].
  destruct (callgraph_vertices s) eqn:Hv; [|constructor; intros []; congruence].
  destruct (compute_error fetch) eqn:Hc; [by constructor|]. by destruct (graph_answer fetch) eqn:Hg; constructor.
Qed.

Lemma order_missing_spec s : if order_missing s then no_plan s else ~ no_plan s.
Proof.
  unfold order_missing, no_plan. destruct (project_state s) as [p|] eqn:Hp; [|by intros p].
  do 2 case_bool_decide; simpl; [intros ? [= <-]; by auto..|].
  intros Hn. by destruct (Hn p eq_refl).
Qed.

Lemma order_persisted_same s p : project_state s = Some p -> order_persisted s = s.
Proof.
  intros Hp. unfold order_persisted, project_state_mut. rewrite Hp. destruct s, p. simpl in *. by subst.
Qed.

Lemma same_work_refl s : same_work s s.
Proof. exists (callgraph_edges s), (callgraph_vertices s), (project_state s). by destruct s. Qed.

Lemma same_work_trans s1 s2 s3 : same_work s1 s2 -> same_work s2 s3 -> same_work s1 s3.
Proof. intros (e & v & p & ->) (e' & v' & p' & ->). by exists e', v', p'. Qed.

Lemma fetched_same fetch s s' : fetched fetch s (inl s') -> same_work s s'.
Proof. inversion 1; [apply same_work_refl|]. by eexists _, _, _. Qed.

Lemma planned_same s s' : planned for_order s s' -> same_work s s'.
Proof.
  inversion 1 as [|s1 ps _ Hf%fetched_same]; [apply same_work_refl|].
  eapply same_work_trans; [done|]. by eexists _, _, _.
Qed.

Lemma stepped_same s s' e : stepped for_order for_ready s s' e -> same_work s s'.
Proof.
  inversion 1 as [|s1 ? Hp%planned_same|s1 ? Hp%planned_same Hf%fetched_same];
    [apply same_work_refl|done|by eapply same_work_trans].
Qed.

(** The code's plan: an error of the first fetch, or a session planned and persisted. *)
Lemma with_order_spec s :
  (exists e, with_order for_order s = Some (inr e) /\ no_plan s /\ fetched for_order s (inr e)) \/
  exists s1, with_order for_order s = Some (inl s1) /\ order_persisted s1 = s1 /\ planned for_order s s1.
Proof.
  unfold with_order. pose proof (order_missing_spec s) as Hm. destruct (order_missing s).
  - pose proof (ensure_fetched for_order s) as Hf. destruct (ensure_callgraph_cached for_order s) as [s1|e].
    + right. destruct (verification_order_stored s1) as (ps & -> & Hps). eexists. split; [reflexivity|].
      split; [by eapply order_persisted_same|]. by econstructor.
    + left. by exists e.
  - right. exists s. split; [done|]. destruct (project_state s) as [p|] eqn:Hp.
    + split; [by eapply order_persisted_same|]. by constructor.
    + exfalso. apply Hm. intros p. by rewrite Hp.
Qed.

Lemma concluded_ext p s s' f : conclusions s' = conclusions s -> concluded p s' f <-> concluded p s f.
Proof. unfold concluded. by intros ->. Qed.

Lemma action_spec_ext s s1 vertices edges running a : conclusions s1 = conclusions s -> functions s1 = functions s ->
  action_spec s1 vertices edges running a -> action_spec s vertices edges running a.
Proof.
  intros Hc Hf. assert (Hd : defined_functions s1 = defined_functions s) by (unfold defined_functions; by rewrite Hf).
  assert (Ha : all_done s1 = all_done s).
  { apply eq_true_iff_eq. rewrite !all_done_spec, Hd. by setoid_rewrite (concluded_ext is_verified s s1 _ Hc). }
  assert (Hp : forall p f, concluded p s1 f <-> concluded p s f) by (intros p f; by apply concluded_ext).
  intros [? Hv|l ? ? Hb|f ? Hb ? Hv ? Hcs|? Hb Hw].
  - constructor; [congruence|]. intros f. rewrite <- Hd, <- Hp. apply Hv.
  - constructor; [congruence|done|]. intros f. by rewrite <- Hp.
  - constructor; [congruence| |done|by rewrite <- Hp|done|].
    + intros g. rewrite <- Hp. apply Hb.
    + intros c. rewrite <- Hp. apply Hcs.
  - constructor; [congruence| |].
    + intros g. rewrite <- Hp. apply Hb.
    + intros f. rewrite <- Hp. setoid_rewrite <- Hp. apply Hw.
Qed.

(** The project lock, when a step stops at an error and when it answers. *)
Lemma lock_left (locked : bool) lock : locked && negb (opt_eqb Bool.eqb lock (Some false)) = true <->
  locked = true /\ lock <> Some false.
Proof. destruct locked, lock as [[]|]; simpl; naive_solver. Qed.

Lemma lock_taken (locked : bool) lock : locked && negb (opt_eqb Bool.eqb lock (Some false)) ||
  negb (opt_eqb Bool.eqb lock (Some false)) = true <-> lock <> Some false.
Proof. destruct locked, lock as [[]|]; simpl; naive_solver. Qed.

(** The answer recommends the action's call, or none where it does not fit. *)
Definition recommends (answer : json) (a : NextAction) : Prop :=
  exists act, answer.?"next_action" = Some act /\ call_kept (action_json a) act.

Lemma preview_call_kept a : call_kept (action_json a) (preview_action (action_json a)).
Proof. left. destruct a; split; reflexivity. Qed.

Lemma finished_recommends r s i l running ready persisted :
  (exists m, step_response s i l running ready persisted = JObj m /\ finished to_string_pretty m r) ->
  recommends r (next_action s running ready).
Proof.
  intros (m & Hm & _ & _ & Hr).
  assert (Ha : map_get "next_action" m = Some (preview_action (action_json (next_action s running ready)))).
  { unfold step_response in Hm. injection Hm as <-. reflexivity. }
  destruct Hr as [(m' & -> & [_ _ Hact])|Ht].
  - destruct (Hact _ Ha) as (act & Hact' & Hk). exists act. split; [done|].
    eapply call_kept_trans; [apply preview_call_kept|done].
  - injection Ht as <-. eexists. split; [reflexivity|]. by right.
Qed.
End stepping.

(** * Properties *)



(** The workflow does not stall by itself: while some function of the call graph
    has no verified conclusion, none blocks, and nothing is running, the step names a
    function to work on, at or below that one. *)
Theorem step_progress `{GraphLaws} s f : f ∈ (callgraph_by_name s).1 -> ~ concluded is_verified s f ->
  all_done s = false -> (forall g, ~ concluded is_blocked s g) ->
  exists ready h, get_ready_functions (done_functions s) [] s = Some ready /\
    next_action s [] ready = ActionSandbox h /\
    exists r, r ∈ ready /\ rtc (calls (callgraph_by_name s).1 (callgraph_by_name s).2) f (rf_function r).
Proof.
  intros Hf Hv Hd Hb. unfold get_ready_functions. destruct (callgraph_by_name s) as [vertices edges]. simpl in *.
  destruct (ready_progress vertices edges (done_functions s) [] f Hf) as (ready & r & Hr & Hin & Hp).
  { intros Hin. by apply Hv, elem_of_functions_with. }
  { intros h _ _ Hh. by inversion Hh. }
  destruct ready as [|r0 ready]; [by inversion Hin|]. exists (r0 :: ready), (rf_function r0).
  split_and!; [done| |by exists r]. unfold next_action. rewrite Hd.
  destruct (blocked_functions s) as [|b bs] eqn:Hbs; [done|]. exfalso. apply (Hb b), elem_of_functions_with.
  unfold blocked_functions in Hbs. rewrite Hbs. left.
Qed.

(** A function without a body is offered for verification, and holds back its
    callers for good: whatever else is verified, a function of the call graph that
    calls nothing and has no verified conclusion is on the list of ready functions,
    and no caller of it ever is, although the verification order leaves it out. *)
Theorem bodyless_function_offered `{GraphLaws} s running c : c ∈ (callgraph_by_name s).1 ->
  (forall i, functions s !! c = Some i -> fi_defined i = false) -> (forall g, (c, g) ∉ (callgraph_by_name s).2) ->
  ~ concluded is_verified s c -> c ∉ running ->
  exists ready, get_ready_functions (done_functions s) running s = Some ready /\
    c ∈ map rf_function ready /\
    (forall f, (f, c) ∈ (callgraph_by_name s).2 -> f ∉ map rf_function ready) /\
    forall s' order, compute_topological_order_tool s = Some (s', order) -> c ∉ order.1.
Proof.
  intros Hc Hbody Hleaf Hv Hi. unfold get_ready_functions. destruct (callgraph_by_name s) as [vertices edges]. simpl in *.
  destruct (ready_list_spec vertices edges (done_functions s) running) as (ready & Hr & _ & Hin & Hall).
  exists ready. split; [done|]. rewrite <- elem_of_functions_with in Hv. split_and!.
  - rewrite list_elem_of_fmap. destruct (Hall c Hc Hv Hi) as [(r & Hr' & <-)|(g & Hg & _)]; [by exists r|].
    by destruct (Hleaf g); apply Hg.
  - intros f Hfc (r & -> & Hr')%list_elem_of_fmap. destruct (Hin r Hr') as (Hfv & _ & _ & _ & Hcs).
    destruct (Hcs c) as [[_ Hback]|?]; [done| |done].
    apply rtc_inv in Hback as [Heq|(g & Hg & _)]; [|by apply (Hleaf g), Hg].
    rewrite <- Heq in Hfc. by apply (Hleaf c).
  - intros s' order Ho Hin'. destruct (tool_order_defined s s' order c Ho Hin') as (i & Hi' & Hd).
    by rewrite (Hbody i Hi') in Hd.
Qed.

(** ** Witnesses *)

(** A printer, compact where serde_json's is indented; numbers print as theirs. *)
Fixpoint show_json (v : json) : string :=
  match v with
  | JNull => "null"
  | JBool b => if b then "true" else "false"
  | JNum (NInt z) => if (0 <=? z)%Z then dec_N (Z.to_N z) else "-" +s+ dec_N (Z.to_N (- z))
  | JNum _ => "0.0"
  | JStr s => dq +s+ s +s+ dq
  | JArr l => "[" +s+ foldr (fun x acc => show_json x +s+ "," +s+ acc) "]" l
  | JObj m => "{" +s+ foldr (fun e acc => e.1 +s+ ":" +s+ show_json e.2 +s+ "," +s+ acc) "}" m
  end.

Definition show_entries (m : jmap) : string :=
  foldr (fun e acc => e.1 +s+ ":" +s+ show_json e.2 +s+ "," +s+ acc) "}" m.

Lemma show_entries_cons e m : String.length (show_entries (e :: m)) =
  String.length e.1 + String.length (show_json e.2) + 2 + String.length (show_entries m).
Proof. unfold show_entries. cbn [foldr]. rewrite !length_app_str. cbn [String.length]. lia. Qed.

Lemma show_insert k v w m : map_get k m = Some w ->
  String.length (show_entries (map_insert k v m)) + String.length (show_json w) =
  String.length (show_entries m) + String.length (show_json v).
Proof.
  induction m as [|[k' u] m IH]; cbn [map_get map_insert]; [done|]. destruct (k =s k') eqn:E.
  - intros [= ->]. rewrite !show_entries_cons. cbn [fst snd]. lia.
  - intros Hm. specialize (IH Hm). rewrite !show_entries_cons. lia.
Qed.

Lemma show_object m : String.length (show_json (JObj m)) = S (String.length (show_entries m)).
Proof. reflexivity. Qed.

Lemma show_prints_numbers : prints_numbers (fun v => Some (show_json v)).
Proof.
  intros [| | | | |m]; try (by intros [? ?]). unfold with_budget_bytes, verify_program_step_payload_bytes.
  destruct (map_get "payload_budget" m) as [[| | | | |b]|] eqn:Hb; try (by intros [? ?]). intros _.
  set (r n := map_insert "payload_budget" (JObj (map_insert "bytes" (jN n) b)) m).
  exists (N.of_nat (String.length (show_json (JObj (r 0%N)))) - 1)%N.
  intros n. exists (JObj (r n)). split; [done|].
  assert (Hn : forall n, map_get "bytes" (map_insert "bytes" (jN n) b) = Some (jN n)) by (intros; apply map_get_insert).
  assert (Hr : map_get "payload_budget" (r 0%N) = Some (JObj (map_insert "bytes" (jN 0) b))) by apply map_get_insert.
  pose proof (show_insert "payload_budget" (JObj (map_insert "bytes" (jN n) b)) _ _ Hr) as H1.
  pose proof (show_insert "bytes" (jN n) _ _ (Hn 0%N)) as H2.
  unfold r in H1 at 1. rewrite !map_insert_insert in H1, H2. fold (r n) in H1.
  assert (Hw : forall k, String.length (show_json (jN k)) = N.to_nat (width k)).
  { intros k. unfold jN, width. simpl. rewrite (proj2 (Z.leb_le _ _)) by lia. by rewrite N2Z.id, Nat2N.id. }
  rewrite !Hw in H2. assert (width 0 = 1%N) by reflexivity.
  rewrite !show_object in *. lia.
Qed.

Definition demo_printer (v : json) : option string := Some (show_json v).

(** Four hundred ready functions do not fit; one row stays, the others are counted. *)
Definition demo_rows : list json :=
  repeat (JObj [("function", JStr "a_function_with_a_rather_long_name"); ("is_cycle", JBool false)]) 400.
Definition demo_response : jmap :=
  [("frontier", JArr [JStr "f"]); ("frontier_omitted", jN 0);
   ("ready_functions", JArr demo_rows); ("ready_functions_omitted", jN 7); ("next_action", JNull)].


(** A program that only prints. *)
Definition hello_session : SessionState :=
  mkSession true false false
    (list_to_map [demo_function false "printf"; demo_function true "main"])
    ∅ ∅ [mkCallEdge "main" "printf" ""] [mkCallVertex "main" "main"; mkCallVertex "printf" "printf"]
    ∅ None ∅ None [].

(** The call of an answer. *)
Definition answered_call (answer : option (SessionState * bool * (json + ErrorData))) : option (string * option string) :=
  match answer with
  | Some (_, _, inl r) =>
    match pointer ["next_action"; "tool"] r ≫= as_str with
    | Some tool => Some (tool, pointer ["next_action"; "args"; "function"] r ≫= as_str)
    | None => None
    end
  | _ => None
  end.

(** The graph is at hand; the plan is not. *)
Definition no_fetch : CallgraphFetch := mkFetch None (inl JNull).
Definition failed_fetch : CallgraphFetch := mkFetch (Some (structured_internal_error "rpc" "no answer" true None)) (inl JNull).


Lemma no_conclusion_hello p f : ~ concluded p hello_session f.
Proof. intros (n & e & He & _). unfold hello_session in He. simpl in He. by rewrite lookup_empty in He. Qed.

Lemma step_progress_witness : exists ready h,
  @get_ready_functions list_graph (done_functions hello_session) [] hello_session = Some ready /\
  next_action hello_session [] ready = ActionSandbox h /\
  exists r, r ∈ ready /\ rtc (calls (callgraph_by_name hello_session).1 (callgraph_by_name hello_session).2)
    "main" (rf_function r).
Proof.
  apply (@step_progress list_graph list_graph_laws hello_session "main").
  - decide_closed.
  - apply no_conclusion_hello.
  - vm_compute. reflexivity.
  - intros g. apply no_conclusion_hello.
Defined.

Lemma bodyless_function_witness : exists ready,
  @get_ready_functions list_graph (done_functions hello_session) [] hello_session = Some ready /\
  "printf" ∈ map rf_function ready /\
  (forall f, (f, "printf") ∈ (callgraph_by_name hello_session).2 -> f ∉ map rf_function ready) /\
  forall s' order, @compute_topological_order_tool list_graph hello_session = Some (s', order) -> "printf" ∉ order.1.
Proof.
  apply (@bodyless_function_offered list_graph list_graph_laws hello_session [] "printf").
  - decide_closed.
  - intros i Hi. vm_compute in Hi. by injection Hi as <-.
  - intros g Hg. vm_compute in Hg. repeat (apply elem_of_cons in Hg as [Hg|Hg]; [discriminate Hg|]). inversion Hg.
  - apply no_conclusion_hello.
  - decide_closed.
Defined.
