(* ===== verification/WpConfig.v ===== *)
(** * The configuration of a WP run (src/src/mcp/server.rs)

    What a caller and the environment ask of a run, the command lines a load implies, the
    provers a session is switched to, the models this Frama-C accepts, and the response
    that says what a run used.  The environment's values are arguments, [debug_str] renders
    a text in quotes, and the header of builtin models is a path. *)

From S2P Require Import Prelude RustStr BTree Json Status Verdicts StableId WpTriage WpMessages Receipt Conclusions.
From Stdlib Require Import SpecFloat.
Local Open Scope nat_scope.

(** ** Parameters *)

Record RunWpParams := mkParams {
  functions : option (list string);
  prover : option string;
  provers : option (list string);
  timeout : option N;
  par : option N;
  steps : option N;
  model : option string;
  prop : option string;
  smoke : option bool;
  smoke_probe : bool;
  cache : option string;
}.

Abbreviation fallible A := (A + McpError)%type.
Definition refuse_params (message : string) : McpError := invalid_params message None.

Definition comma_list (value : string) : list string := bfilter (fun p => negb (is_empty p)) (map trim (split_char "," value)).

Definition parse_wp_provers (value : option string) : fallible (option (list string)) :=
  match value with
  | None => inl None
  | Some value =>
    match comma_list value with
    | [] => inr (refuse_params "FRAMAC_PROVERS must name at least one prover")
    | provers => inl (Some provers)
    end
  end.

Definition parse_u32 : string -> option N := from_str_radix digit_val 10 32.

Definition parse_wp_u32 (name : string) (value : option string) : fallible (option N) :=
  match value with
  | None => inl None
  | Some value =>
    match parse_u32 (trim value) with
    | Some n => inl (Some n)
    | None => inr (refuse_params (name +s+ " must be a non-negative integer"))
    end
  end.

Definition validate_wp_par (par : N) : fallible N :=
  if (par =? 0)%N then inr (refuse_params "WP parallelism must be at least 1") else inl par.

Definition default_wp_model : string := "Typed+nocast".

Definition default_wp_provers (executable_in_path : string -> bool) : string :=
  join "," ("Alt-Ergo" :: (if executable_in_path "cvc5" then ["CVC5"] else []) ++ (if executable_in_path "z3" then ["Z3"] else [])).

Definition requested_wp_provers (params : RunWpParams) : fallible (option (list string)) :=
  match prover params, provers params with
  | Some _, Some _ => inr (refuse_params "use either prover or provers, not both")
  | one, many =>
    match many <||> (comma_list <$> one) with
    | None => inl None
    | Some provers =>
      let provers := map trim provers in
      if bool_decide (provers = []) || existsb is_empty provers
      then inr (refuse_params "provers must be a non-empty list of non-empty prover names")
      else inl (Some provers)
    end
  end.

Definition effective_wp_provers_from (params : RunWpParams) (env_value : option string) : fallible (option (list string)) :=
  match requested_wp_provers params with
  | inr e => inr e
  | inl (Some provers) => inl (Some provers)
  | inl None => parse_wp_provers env_value
  end.

Definition effective_wp_timeout_from (params : RunWpParams) (env_value : option string) : fallible (option N) :=
  match timeout params with Some timeout => inl (Some timeout) | None => parse_wp_u32 "FRAMAC_TIMEOUT" env_value end.

Definition some_checked (r : fallible N) : fallible (option N) := match r with inl n => inl (Some n) | inr e => inr e end.

Definition effective_wp_par_from (params : RunWpParams) (env_value : option string) : fallible (option N) :=
  match par params with
  | Some par => some_checked (validate_wp_par par)
  | None =>
    match parse_wp_u32 "FRAMAC_PAR" env_value with
    | inl (Some par) => some_checked (validate_wp_par par)
    | other => other
    end
  end.

Definition WP_CACHE_MODES : list string := ["None"; "Update"; "Replay"; "Rebuild"; "Offline"; "Cleanup"].

Definition validate_wp_cache_mode (debug_str : string -> string) (requested : string) : fallible string :=
  match find_first (fun mode => eq_ignore_ascii_case mode (trim requested)) WP_CACHE_MODES with
  | Some mode => inl mode
  | None => inr (refuse_params ("unknown WP cache mode " +s+ debug_str requested +s+ "; expected one of " +s+ join ", " WP_CACHE_MODES))
  end.

Definition effective_wp_cache (debug_str : string -> string) (params : RunWpParams) : fallible string :=
  validate_wp_cache_mode debug_str (unwrap_or (cache params) "Update").

(** [Result::ok().flatten()]. *)
Definition ok_flatten {A} (r : fallible (option A)) : option A := match r with inl o => o | inr _ => None end.

(** ** Command lines *)

Definition UNSIGNED_RTE_OPTIONS : list string := ["-warn-unsigned-overflow"; "-warn-unsigned-downcast"].
Definition POINTER_RTE_OPTION : string := "-warn-invalid-pointer".
Definition RTE_INDEPENDENT_OF_EVA : string := "-rte-no-use-eva-results".

Definition unsigned_rte (o : ProjectLoadOptions) : bool := rte o && negb (unsigned_rte_skipped o).
Definition pointer_rte (o : ProjectLoadOptions) : bool := rte o && pointer_rte_requested o.
Definition unsigned_rte_args (o : ProjectLoadOptions) : list string :=
  (if unsigned_rte o then UNSIGNED_RTE_OPTIONS else []) ++ (if pointer_rte o then [POINTER_RTE_OPTION] else []).

Definition cpp_extra_args (builtin_models_header : option string) (o : ProjectLoadOptions) : option string :=
  let builtin := match builtin_models o with
                 | Some _ => ["-include " +s+ unwrap_or builtin_models_header "/nonexistent/frama-c-mcp-builtins.h"]
                 | None => []
                 end in
  let flags := (if nostdinc o then ["-nostdinc"] else [])
    ++ map (fun path => "-I" +s+ path) (include_paths o) ++ map (fun path => "-isystem " +s+ path) (isystem_paths o)
    ++ map (fun define => "-D" +s+ define) (defines o) ++ map (fun header => "-include " +s+ header) (force_includes o) ++ builtin in
  match flags with [] => None | _ => Some (join " " flags) end.

Definition option_arg (flag : string) (value : option string) : list string := match value with Some v => [flag; v] | None => [] end.

Definition project_cli_args (builtin_models_header : option string) (o : ProjectLoadOptions) : list string :=
  match cpp_extra_args builtin_models_header o with Some args => ["-cpp-extra-args=" +s+ args] | None => [] end
  ++ option_arg "-machdep" (machdep o) ++ option_arg "-compilation-db" (compilation_database o).

Definition main_frama_c_args (executable_in_path : string -> bool) (builtin_models_header : option string) (frama_c_path : string)
    (files : list string) (o : ProjectLoadOptions) (socket_path : string) : list string :=
  frama_c_path :: project_cli_args builtin_models_header o ++ files
  ++ ["-load-module"; "ast_utils_plugin"; "-server-socket"; socket_path; RTE_INDEPENDENT_OF_EVA;
      "-wp-prover"; default_wp_provers executable_in_path; "-wp-model"; default_wp_model].

(** ** Provers of a session *)

Definition prover_name (prover : string) : string * option string :=
  let prover := unwrap_or (strip_prefix "why3:" prover) prover in
  match split_once ":" prover with Some (name, version) => (name, Some version) | None => (prover, None) end.

Definition prover_id_matches (requested id : string) : bool :=
  let '(name, version) := prover_name requested in
  let '(id_name, id_version) := prover_name id in
  eq_ignore_ascii_case name id_name
  && match version, id_version with
     | None, _ => true
     | Some version, Some installed => eq_ignore_ascii_case version installed
     | Some _, None => false
     end.

Definition unmatched_provers (requested ids : list string) : list string :=
  bfilter (fun name => negb (existsb (prover_id_matches name) ids)) requested.

(** What [plugins.wp.getProvers] answers, the requests that are sent then, and how it ends. *)
Inductive ProversAnswer := ProverIds (response : json) | RejectedRequest | FailedRequest (error : McpError).

Definition apply_prover_selection (debug_list : list string -> string) (requested : list string) (answer : ProversAnswer)
    : list (string * json) * option McpError :=
  match answer with
  | RejectedRequest => ([("plugins.wp.setProvers", JArr (map JStr requested))], None)
  | FailedRequest error => ([], Some error)
  | ProverIds response =>
    match as_array response with
    | None => ([], None)
    | Some available =>
      let ids := collect_some as_str available in
      match unmatched_provers requested ids with
      | [] => (map (fun id => ("plugins.wp.setProverState", JArr [JStr id; JBool (existsb (fun name => prover_id_matches name id) requested)])) ids, None)
      | unmatched =>
        ([], Some (refuse_params ("no prover matches " +s+ debug_list unmatched +s+ "; this Frama-C offers " +s+ debug_list ids)))
      end
    end
  end.

Definition pvdecl_marker (debug_str : string -> string) (declaration : string) : fallible string :=
  match strip_prefix "#F" declaration with
  | Some vid => inl ("#v" +s+ vid)
  | None => inr (mkMcpError ("expected an AST.Decl marker like #F26, got " +s+ debug_str declaration) None)
  end.

(** ** Models *)

Record WpModelSupport := mkSupport { bases : list string; modifiers : list string; source : string }.

Definition ACCEPTED_BUT_UNDOCUMENTED_BASES : list string := ["Caveat"].

Definition fallback : WpModelSupport :=
  mkSupport (["Hoare"; "Typed"; "Bytes"; "Region"; "Eva"] ++ ACCEPTED_BUT_UNDOCUMENTED_BASES)
    ["nocast"; "cast"; "raw"; "ref"; "nat"; "int"; "real"; "float"] "fallback".

Definition str_mem (s : string) (l : list string) : bool := existsb (fun known => known =s s) l.
Definition known_name (s : string) (l : list string) : bool := existsb (fun known => eq_ignore_ascii_case known s) l.

Definition common_models (w : WpModelSupport) : list string :=
  fold_left (fun models '(model, base, modifier) =>
      if str_mem base (bases w) && str_mem modifier (modifiers w) && negb (str_mem model models) then models ++ [model] else models)
    [("Typed+nocast", "Typed", "nocast"); ("Typed+cast", "Typed", "cast")] (bases w).

Definition invalid_model (w : WpModelSupport) (model : string) : string :=
  "invalid WP model '" +s+ model +s+ "'; bases: " +s+ join ", " (bases w) +s+ "; modifiers: " +s+ join ", " (modifiers w)
  +s+ "; examples: " +s+ join ", " (common_models w).

Definition validate_one (w : WpModelSupport) (model : string) : option string :=
  let parts := split_char "+" model in
  let base := unwrap_or (head parts) "" in
  if is_empty base || negb (known_name base (bases w)) then Some (invalid_model w model)
  else if existsb (fun modifier => is_empty modifier || negb (known_name modifier (modifiers w))) (tail parts)
  then Some (invalid_model w model)
  else None.

(** The first selector that is wrong. *)
Definition validate (w : WpModelSupport) (model : string) : option string :=
  find_map (fun model => validate_one w (trim model)) (split_char "," model).

Fixpoint quoted_selectors_go (fuel : nat) (rest : string) : list string :=
  match fuel with
  | O => []
  | S fuel =>
    match split_once "'" rest with
    | None => []
    | Some (_, rest) =>
      match split_once "'" rest with
      | None => []
      | Some (selector, rest) => selector :: quoted_selectors_go fuel rest
      end
    end
  end.
Definition quoted_selectors (line : string) : list string := quoted_selectors_go (String.length line) line.

Definition push_new (known : list string) (name : string) : list string :=
  if is_empty name || str_mem name known then known else known ++ [name].

Definition trim_start_char (c : ascii) (s : string) : string :=
  (fix go s := match s with String d rest => if Ascii.eqb c d then go rest else s | "" => "" end) s.

Definition record_selector (acc : list string * list string) (selector : string) : list string * list string :=
  match strip_prefix "+" selector with
  | Some names => (acc.1, fold_left (fun known name => push_new known (trim_start_char "+" name)) (split_char "/" names) acc.2)
  | None => (push_new acc.1 selector, acc.2)
  end.

(** The lines of the help from [-wp-model] up to the next option of WP. *)
Fixpoint model_section (in_section : bool) (lines : list string) : list string :=
  match lines with
  | [] => []
  | line :: lines =>
    let trimmed := trim_start line in
    if starts_with "-wp-model " trimmed then line :: model_section true lines
    else if in_section then if starts_with "-wp-" trimmed then [] else line :: model_section true lines
    else model_section false lines
  end.

Definition parse_wp_model_support (help : string) : WpModelSupport :=
  let '(bases, modifiers) := fold_left record_selector (flat_map quoted_selectors (model_section false (lines help))) ([], []) in
  match bases, modifiers with
  | [], _ | _, [] => fallback
  | _, _ =>
    mkSupport (fold_left (fun bases base => if known_name base bases then bases else bases ++ [base]) ACCEPTED_BUT_UNDOCUMENTED_BASES bases)
      modifiers "frama-c -wp-h"
  end.

(** ** What a run says of itself *)

Fixpoint string_fields (keys : list string) (value : json) {struct value} : list string :=
  match value with
  | JObj map =>
    flat_map (fun '(key, value) => match value with JStr text => if str_mem key keys then [text] else [] | _ => [] end ++ string_fields keys value) map
  | JArr items => flat_map (string_fields keys) items
  | _ => []
  end.
Definition collect_json_string_fields (keys : list string) (value : json) : list string := btree_set (string_fields keys value).

Definition jstrs (l : list string) : json := JArr (map JStr l).
Definition known_entry (requested env effective : json) (known : bool) : json :=
  JObj [("requested", requested); ("env_default", env); ("effective", effective); ("effective_known", JBool known)].
Definition is_some {A} (o : option A) : bool := match o with Some _ => true | None => false end.

(** The values a response reports. *)
Record Reported := mkReported {
  r_provers : option (list string);
  r_timeout : option N;
  r_par : option N;
}.

Definition reported_config (params : RunWpParams) (env_provers env_timeout env_par : option string) : Reported :=
  mkReported (ok_flatten (requested_wp_provers params) <||> ok_flatten (parse_wp_provers env_provers))
    (timeout params <||> ok_flatten (parse_wp_u32 "FRAMAC_TIMEOUT" env_timeout))
    (par params <||> ok_flatten (parse_wp_u32 "FRAMAC_PAR" env_par)).

Definition reported_options (params : RunWpParams) (r : Reported) (rte_enabled unsigned_rte pointer_rte : bool) : list string :=
  ["-wp"; "-wp-model"; unwrap_or (model params) default_wp_model]
  ++ option_arg "-wp-prover" (join "," <$> r_provers r)
  ++ (if rte_enabled then "-wp-rte" :: (if unsigned_rte then UNSIGNED_RTE_OPTIONS else []) ++ (if pointer_rte then [POINTER_RTE_OPTION] else []) else [])
  ++ option_arg "-wp-timeout" (dec_N <$> r_timeout r) ++ option_arg "-wp-par" (dec_N <$> r_par r)
  ++ option_arg "-wp-steps" (dec_N <$> steps params) ++ option_arg "-wp-prop" (prop params).

Section response.
Variable to_string : json -> string.
Variable debug_str : string -> string.
Variables env_provers env_timeout env_par : option string.

Definition effective_wp_config (params : RunWpParams) (functions : list string) (scope : string) (rte_enabled : bool) (tasks : json) : json :=
  let r := reported_config params env_provers env_timeout env_par in
  let cache_mode := effective_wp_cache debug_str params in
  let config :=
    [("scope", JStr scope); ("functions", jstrs functions); ("model", JStr (unwrap_or (model params) default_wp_model)); ("arithmetic_model", JNull);
     ("provers", known_entry (jopt jstrs (ok_flatten (requested_wp_provers params))) (jopt jstrs (ok_flatten (parse_wp_provers env_provers)))
        (jopt jstrs (r_provers r)) (is_some (r_provers r)));
     ("timeout_seconds", known_entry (jopt jN (timeout params)) (jopt jN (ok_flatten (parse_wp_u32 "FRAMAC_TIMEOUT" env_timeout)))
        (jopt jN (r_timeout r)) (is_some (r_timeout r)));
     ("parallel", known_entry (jopt jN (par params)) (jopt jN (ok_flatten (parse_wp_u32 "FRAMAC_PAR" env_par)))
        (jopt jN (r_par r)) (is_some (r_par r)));
     ("prop", JObj [("requested", jopt JStr (prop params)); ("effective", jopt JStr (prop params)); ("effective_known", JBool (is_some (prop params)))]);
     ("cache", JObj [("requested", jopt JStr (cache params));
                     ("effective", match cache_mode with inl mode => JStr mode | inr _ => JNull end);
                     ("effective_known", JBool (match cache_mode with inl _ => true | inr _ => false end))]);
     ("rte", JBool rte_enabled); ("split_strategy", JNull);
     ("raw_task_ids", jstrs (collect_json_string_fields ["id"; "task_id"; "taskId"] tasks))] in
  JObj (match steps params with Some n => map_insert "steps" (jN n) config | None => config end).

(** A float that is no number is written as null. *)
Definition jfloat (f : spec_float) : json := match f with S754_nan | S754_infinity _ => JNull | _ => JNum (NFloat f) end.

Definition host_load_json (h : HostLoad) : json :=
  JObj [("per_cpu", jopt jfloat (per_cpu h)); ("category", JStr (category h));
        ("saturated_above", jfloat HOST_SATURATED_LOAD_PER_CPU)].

Definition insert_opt (k : string) (v : option json) (m : jmap) : jmap := match v with Some v => map_insert k v m | None => m end.

Definition wp_run_response (tasks : json) (params : RunWpParams) (functions : list string) (scope : string)
    (rte_enabled unsigned_rte pointer_rte : bool) (protocol : list json) (proofread_report : option json)
    (goals : option (list json)) (host_load : HostLoad) : json :=
  let options := jstrs (reported_options params (reported_config params env_provers env_timeout env_par) rte_enabled unsigned_rte pointer_rte) in
  let config := effective_wp_config params functions scope rte_enabled tasks in
  let measurement := run_measurement <$> goals in
  let triage := wp_timeout_triage_from_tasks_and_report to_string tasks proofread_report measurement host_load in
  let failure_kind := JStr (wp_failure_kind_from_tasks to_string tasks triage) in
  match tasks with
  | JObj object =>
    JObj (insert_opt "proofread_report" proofread_report
      (map_insert "failure_kind" failure_kind (map_insert "wp_timeout_triage" triage (map_insert "host_load" (host_load_json host_load)
        (insert_opt "measurement" (to_json <$> measurement)
          (map_insert "frama_c_protocol" (JArr protocol) (map_insert "frama_c_options" options
            (map_insert "effective_wp_config" config object))))))))
  | _ =>
    JObj (insert_opt "proofread_report" proofread_report (insert_opt "measurement" (to_json <$> measurement)
      [("tasks", tasks); ("effective_wp_config", config); ("frama_c_options", options); ("frama_c_protocol", JArr protocol);
       ("host_load", host_load_json host_load); ("wp_timeout_triage", triage); ("failure_kind", failure_kind)]))
  end.
End response.

(** ** Theorems *)

Lemma str_mem_elem s l : str_mem s l = true <-> s ∈ l.
Proof.
  unfold str_mem. rewrite existsb_true. split; [|by exists s; rewrite String.eqb_refl].
  by intros (a & Ha & ->%String.eqb_eq).
Qed.

Lemma comma_list_nonempty value : existsb is_empty (comma_list value) = false.
Proof. apply existsb_false. intros p [_ Hp]%elem_of_bfilter. by apply negb_true_iff. Qed.

Lemma requested_nonempty params l : requested_wp_provers params = inl (Some l) -> l <> [] /\ existsb is_empty l = false.
Proof.
  unfold requested_wp_provers. destruct (prover params), (provers params); cbn; try done; case_bool_decide; cbn; try done;
    destruct (existsb is_empty _) eqn:He; try done; intros [= <-]; by split.
Qed.

Lemma parse_provers_nonempty env l : parse_wp_provers env = inl (Some l) -> l <> [] /\ existsb is_empty l = false.
Proof.
  unfold parse_wp_provers. destruct env as [value|]; [|done]. destruct (comma_list value) as [|p ps] eqn:Hc; [done|].
  intros [= <-]. split; [done|]. rewrite <- Hc. apply comma_list_nonempty.
Qed.

(** A run reports the configuration it is made with.  When the provers, the timeout and
    the parallelism of a run can be determined, the response reports these, and its
    command line and the known flags follow them; the caller's values come before the
    environment's; no prover's name is empty, there is one at least when there is a list,
    and no parallelism is zero. *)
Theorem reported_is_effective params env_provers env_timeout env_par provers timeout_ par_
    (r := reported_config params env_provers env_timeout env_par) :
  effective_wp_provers_from params env_provers = inl provers -> effective_wp_timeout_from params env_timeout = inl timeout_ ->
  effective_wp_par_from params env_par = inl par_ ->
  r = mkReported provers timeout_ par_
  /\ (forall l, provers = Some l -> l <> [] /\ existsb is_empty l = false) /\ par_ <> Some 0%N
  /\ (forall n, timeout params = Some n -> timeout_ = Some n) /\ (forall n, par params = Some n -> par_ = Some n)
  /\ (forall l, requested_wp_provers params = inl (Some l) -> provers = Some l).
Proof.
  unfold effective_wp_provers_from, effective_wp_timeout_from, effective_wp_par_from, r, reported_config. intros Hp Ht Hn.
  assert (Hr : ok_flatten (requested_wp_provers params) <||> ok_flatten (parse_wp_provers env_provers) = provers
               /\ (forall l, provers = Some l -> l <> [] /\ existsb is_empty l = false)
               /\ (forall l, requested_wp_provers params = inl (Some l) -> provers = Some l)).
  { destruct (requested_wp_provers params) as [[l|]|] eqn:Hq; [|destruct (parse_wp_provers env_provers) as [o|] eqn:He|]; try done.
    - injection Hp as <-. split_and!; [done| |by intros l' [= <-]]. intros l' [= <-]. by apply (requested_nonempty params).
    - injection Hp as <-. cbn. split_and!; [by destruct o| |done]. intros l ->. by apply (parse_provers_nonempty env_provers). }
  destruct Hr as (-> & Hnonempty & Hfirst).
  assert (Htime : timeout params <||> ok_flatten (parse_wp_u32 "FRAMAC_TIMEOUT" env_timeout) = timeout_ /\ (forall n, timeout params = Some n -> timeout_ = Some n)).
  { destruct (timeout params); [injection Ht as <-; by split|]. rewrite Ht. cbn. by destruct timeout_. }
  destruct Htime as [-> Htime].
  assert (Hpar : par params <||> ok_flatten (parse_wp_u32 "FRAMAC_PAR" env_par) = par_ /\ par_ <> Some 0%N /\ (forall n, par params = Some n -> par_ = Some n)).
  { destruct (par params) as [n|]; cbn in Hn |- *.
    - unfold validate_wp_par in Hn. destruct (N.eqb_spec n 0); cbn in Hn; [done|]. injection Hn as <-. split_and!; [done|congruence|done].
    - destruct (parse_wp_u32 "FRAMAC_PAR" env_par) as [[n|]|]; cbn in Hn |- *; try done; [|by injection Hn as <-].
      unfold validate_wp_par in Hn. destruct (N.eqb_spec n 0); cbn in Hn; [done|]. injection Hn as <-. split_and!; [done|congruence|done]. }
  destruct Hpar as (-> & Hpar & Hfirst'). by split_and!.
Qed.

(** The session proves with the provers that were asked for.  A selection either sends
    nothing and names the provers this Frama-C does not have, or every name that was asked
    for is one it has, and one request for each of its provers, in its order, turns on
    exactly those that were asked for, which are some when any was. *)
Theorem selection_exact debug_list requested response ids :
  as_array response = Some (map JStr ids) ->
  let '(sent, error) := apply_prover_selection debug_list requested (ProverIds response) in
  match error with
  | Some _ => sent = [] /\ exists name, name ∈ requested /\ forall id, id ∈ ids -> prover_id_matches name id = false
  | None =>
    (forall name, name ∈ requested -> exists id, id ∈ ids /\ prover_id_matches name id = true)
    /\ Forall2 (fun id call => exists on, call = ("plugins.wp.setProverState", JArr [JStr id; JBool on])
                  /\ (on = true <-> exists name, name ∈ requested /\ prover_id_matches name id = true)) ids sent
    /\ (requested <> [] -> exists id, ("plugins.wp.setProverState", JArr [JStr id; JBool true]) ∈ sent)
  end.
Proof.
  intros Harr. cbn [apply_prover_selection]. rewrite Harr.
  assert (collect_some as_str (map JStr ids) = ids) as ->.
  { clear. induction ids as [|id ids IH]; [done|]. cbn. by rewrite IH. }
  destruct (unmatched_provers requested ids) as [|name names] eqn:Hu.
  - assert (Hall : forall name, name ∈ requested -> exists id, id ∈ ids /\ prover_id_matches name id = true).
    { intros name Hin. unfold unmatched_provers in Hu. rewrite bfilter_nil in Hu. specialize (Hu name Hin).
      apply negb_false_iff, existsb_exists in Hu as (id & Hid & Hm). exists id. split; [by apply list_elem_of_In|done]. }
    split_and!; [done| |].
    + apply Forall2_fmap_r. apply Forall_Forall2_diag, Forall_true. intros id. eexists. split; [reflexivity|].
      rewrite existsb_exists. setoid_rewrite list_elem_of_In. done.
    + intros Hne. destruct requested as [|name requested]; [done|]. destruct (Hall name ltac:(left)) as (id & Hid & Hm).
      exists id. apply list_elem_of_fmap. exists id. split; [|done]. cbn. by rewrite Hm.
  - assert (Hin : name ∈ unmatched_provers requested ids) by (rewrite Hu; left). apply elem_of_bfilter in Hin as [Hin Hm].
    split; [done|]. exists name. split; [done|]. apply negb_true_iff in Hm. by rewrite existsb_false in Hm.
Qed.

Lemma known_self s l : s ∈ l -> known_name s l = true.
Proof.
  intros Hs. unfold known_name. apply existsb_exists. exists s. split; [by apply list_elem_of_In|].
  unfold eq_ignore_ascii_case. apply String.eqb_refl.
Qed.

Lemma validate_parts w model base rest : split_char "," model = [model] -> trim model = model -> split_char "+" model = base :: rest ->
  is_empty base = false -> known_name base (bases w) = true -> forallb (fun m => negb (is_empty m) && known_name m (modifiers w)) rest = true ->
  validate w model = None.
Proof.
  intros Hc Ht Hp He Hb Hr. unfold validate. rewrite Hc. cbn [find_map]. rewrite Ht. unfold validate_one. rewrite Hp. cbn [head unwrap_or tail].
  rewrite He, Hb. cbn. assert (existsb (fun m => is_empty m || negb (known_name m (modifiers w))) rest = false) as ->; [|done].
  rewrite existsb_false. rewrite forallb_true in Hr. intros m Hm. specialize (Hr m Hm). apply andb_true_iff in Hr as [Hne Hk]. rewrite Hk. by destruct (is_empty m).
Qed.

Definition plain_base (base : string) : bool := is_word base && free_of "," base && free_of "+" base.

(** Every model that is offered is accepted.  The examples a refusal names, and that
    self_check lists, are the bases and two known combinations, and each of them is a
    model the same check accepts, as it accepts any base in any case. *)
Theorem offered_models_accepted w : forallb plain_base (bases w) = true ->
  (forall model, model ∈ common_models w -> validate w model = None)
  /\ (forall base spelling, base ∈ bases w -> plain_base spelling = true -> eq_ignore_ascii_case base spelling = true -> validate w spelling = None).
Proof.
  intros Hplain.
  assert (Hbase : forall base spelling, base ∈ bases w -> plain_base spelling = true -> eq_ignore_ascii_case base spelling = true -> validate w spelling = None).
  { intros base spelling Hin Hp Heq. unfold plain_base in Hp. apply andb_true_iff in Hp as [Hp Hplus]. apply andb_true_iff in Hp as [Hw Hcomma].
    assert (Ht : trim spelling = spelling).
    { unfold is_word in Hw. apply andb_true_iff in Hw as [Hne Hg]. pose proof (trim_word spelling "" Hg) as Ht. rewrite app_str_nil_r in Ht.
      rewrite Ht by (by destruct spelling). cbn [trim_end]. apply app_str_nil_r. }
    apply (validate_parts w spelling spelling []); [by apply split_char_free|exact Ht|by apply split_char_free| | |done].
    - unfold is_word in Hw. by destruct spelling.
    - apply existsb_exists. exists base. split; [by apply list_elem_of_In|done]. }
  split; [|exact Hbase]. intros model Hm.
  assert (Hcases : model ∈ bases w \/ (model = "Typed+nocast" /\ "Typed" ∈ bases w /\ "nocast" ∈ modifiers w)
                   \/ (model = "Typed+cast" /\ "Typed" ∈ bases w /\ "cast" ∈ modifiers w)).
  { assert (Hmem : forall s l, str_mem s l = true -> s ∈ l).
    { intros s l (x & Hx & Heq)%existsb_exists. apply String.eqb_eq in Heq as <-. by apply list_elem_of_In. }
    revert Hm. unfold common_models. cbn [fold_left].
    destruct (str_mem "Typed" (bases w)) eqn:Hty; cbn [andb]; [|by left]. apply Hmem in Hty.
    destruct (str_mem "nocast" (modifiers w)) eqn:Hn; cbn [andb]; [apply Hmem in Hn|];
      destruct (str_mem "cast" (modifiers w)) eqn:Hc; cbn [andb]; try apply Hmem in Hc; repeat case_match;
      rewrite ?elem_of_app, ?list_elem_of_singleton; intuition. }
  destruct Hcases as [Hin|[(-> & Hb & Hn)|(-> & Hb & Hn)]].
  - rewrite forallb_true in Hplain. eapply Hbase; [exact Hin|by apply Hplain|]. unfold eq_ignore_ascii_case. apply String.eqb_refl.
  - apply (validate_parts w _ "Typed" ["nocast"]); try (vm_compute; reflexivity); cbn [forallb]; by rewrite known_self.
  - apply (validate_parts w _ "Typed" ["cast"]); try (vm_compute; reflexivity); cbn [forallb]; by rewrite known_self.
Qed.

(** ** Witnesses *)

Definition example_params : RunWpParams :=
  mkParams None (Some "alt-ergo, z3") None None None None None None None false None.

Lemma reported_is_effective_witness :
  reported_config example_params (Some "cvc5") (Some " 20 ") (Some "4") = mkReported (Some ["alt-ergo"; "z3"]) (Some 20%N) (Some 4%N).
Proof.
  refine (proj1 (reported_is_effective example_params (Some "cvc5") (Some " 20 ") (Some "4") _ _ _ _ _ _)); vm_compute; reflexivity.
Defined.

Lemma selection_exact_witness :
  exists sent, apply_prover_selection (join ", ") ["z3"] (ProverIds (JArr [JStr "Alt-Ergo:2.6.3"; JStr "Z3:4.16.0"])) = (sent, None)
    /\ exists id, ("plugins.wp.setProverState", JArr [JStr id; JBool true]) ∈ sent.
Proof.
  pose proof (selection_exact (join ", ") ["z3"] (JArr [JStr "Alt-Ergo:2.6.3"; JStr "Z3:4.16.0"]) ["Alt-Ergo:2.6.3"; "Z3:4.16.0"] eq_refl) as H.
  eexists. split; [reflexivity|]. exact (proj2 (proj2 H) ltac:(discriminate)).
Defined.

Lemma offered_models_accepted_witness : forallb plain_base (bases fallback) = true
  /\ forall model, model ∈ common_models fallback -> validate fallback model = None.
Proof. split; [reflexivity|]. exact (proj1 (offered_models_accepted fallback eq_refl)). Defined.

Example help_read :
  parse_wp_model_support ("-wp-model <m> Memory model: 'Hoare', 'Typed' or 'Bytes'" +s+ String nl "  with '+raw/+ref' or '+cast'" +s+ String nl "-wp-par <p> 'x'")
  = mkSupport ["Hoare"; "Typed"; "Bytes"; "Caveat"] ["raw"; "ref"; "cast"] "frama-c -wp-h".
Proof. vm_compute. reflexivity. Qed.
