(* ===== verification/CompileDb.v ===== *)
(** * Compilation databases and the preprocessor (src/src/mcp/project.rs)

    The words of a shell command, the files and the semantic flags a compilation database
    carries, and which load options may reach the preprocessor through a shell.  Reading
    and parsing the database is an argument: its entries, or why there are none. *)

From S2P Require Import Prelude RustStr BTree Json Verdicts StableId Conclusions Receipt Paths WpConfig.
Local Open Scope nat_scope.

(** ** Words of a shell command *)

Definition dquote : ascii := ascii_of_nat 34.
Definition backslash : ascii := ascii_of_nat 92.
Definition quote : ascii := "'".

(** What a quoted span adds to the word, and the rest of the command. *)
Fixpoint single_quoted (s word : string) : string * string :=
  match s with
  | "" => (word, "")
  | String c s => if Ascii.eqb c quote then (word, s) else single_quoted s (word +s+ String c "")
  end.

Fixpoint push_double_quoted (s word : string) : string * string :=
  match s with
  | "" => (word, "")
  | String c s =>
    if Ascii.eqb c dquote then (word, s)
    else if Ascii.eqb c backslash
    then match s with "" => (word, "") | String d s => push_double_quoted s (word +s+ String d "") end
    else push_double_quoted s (word +s+ String c "")
  end.

(** [word] is the word begun, when one is.  Each step takes a character at least, so the
    length of the command bounds the steps; a continuation byte is no white space, quote
    or backslash, so a character of several bytes is pushed byte by byte. *)
Fixpoint shell_go (fuel : nat) (word : option string) (s : string) : list string :=
  match fuel with
  | O => []
  | S fuel =>
    let current := unwrap_or word "" in
    match s, ws_char s with
    | "", _ => option_list word
    | _, Some rest => option_list word ++ shell_go fuel None rest
    | String c s, None =>
      if Ascii.eqb c quote then let '(current, s) := single_quoted s current in shell_go fuel (Some current) s
      else if Ascii.eqb c dquote then let '(current, s) := push_double_quoted s current in shell_go fuel (Some current) s
      else if Ascii.eqb c backslash
      then match s with "" => [current] | String d s => shell_go fuel (Some (current +s+ String d "")) s end
      else shell_go fuel (Some (current +s+ String c "")) s
    end
  end.
Definition shell_words (command : string) : list string := shell_go (S (String.length command)) None command.

(** ** What a database carries *)

Definition DROPPED_SEMANTIC_FLAGS : list (string * string) :=
  [("-funsigned-char", "char is unsigned in the build; the machdep decides it here");
   ("-fsigned-char", "char is signed in the build; the machdep decides it here");
   ("-fwrapv", "signed overflow wraps in the build; RTE still reports it as undefined");
   ("-fno-strict-overflow", "signed overflow wraps in the build; RTE still reports it as undefined");
   ("-m32", "the build targets a 32-bit data model; the machdep decides it here");
   ("-mx32", "the build targets the x32 data model; the machdep decides it here");
   ("-m16", "the build targets a 16-bit data model; the machdep decides it here");
   ("--target", "the build names a target; the machdep decides sizes and alignment here");
   ("-target", "the build names a target; the machdep decides sizes and alignment here");
   ("-mabi", "the build selects an ABI; the machdep decides sizes and alignment here");
   ("-fshort-wchar", "wchar_t is 16 bits in the build; the machdep decides it here");
   ("-fshort-enums", "enums are packed in the build; the machdep decides it here");
   ("-fpack-struct", "structs are packed in the build; the machdep decides layout here");
   ("-funsigned-bitfields", "plain bit-fields are unsigned in the build")].

Definition is_flag (token flag : string) : bool :=
  (token =s flag) || is_some_and (starts_with "=") (strip_prefix flag token).
Definition dropped_semantic_flag (token : string) : option string := find_first (is_flag token) DROPPED_SEMANTIC_FLAGS.*1.

Definition compile_entry_tokens (entry : json) : list string :=
  match get_arr "arguments" entry with
  | Some arguments => collect_some as_str arguments
  | None => match get_str "command" entry with Some command => shell_words command | None => [] end
  end.

(** The flags of an entry, each once. *)
Definition entry_flags (entry : json) : list string := btree_set (collect_some dropped_semantic_flag (compile_entry_tokens entry)).

Definition count_flag (counts : gmap string N) (flag : string) : gmap string N := <[flag := (unwrap_or (counts !! flag) 0 + 1)%N]> counts.

Definition compile_database_dropped_flags (entries : list json) : json :=
  let counts := fold_left (fun counts entry => fold_left count_flag (entry_flags entry) counts) entries ∅ in
  JObj (map (fun '(flag, entries) =>
          let effect := unwrap_or (snd <$> find_first (fun '(f, _) => f =s flag) DROPPED_SEMANTIC_FLAGS) "" in
          (flag, JObj [("entries", jN entries); ("effect", JStr effect)])) (btree_entries counts)).

Record CompileDatabase := mkDatabase { db_path : string; db_entries : list json + string }.

(** The file read, and the text parsed: each as it is, or with its error. *)
Definition read_database (path : string) (text : string + string) (from_str : string -> json + string) : CompileDatabase :=
  mkDatabase path
    match text with
    | inr e => inr ("failed to read compilation database: " +s+ e)
    | inl text =>
      match from_str text with
      | inr e => inr ("failed to parse compilation database JSON: " +s+ e)
      | inl (JArr entries) => inl entries
      | inl _ => inr "compilation database must be a JSON array"
      end
    end.

Definition dropped_flags (db : CompileDatabase) : json :=
  match db_entries db with inl entries => compile_database_dropped_flags entries | inr reason => JObj [("unreadable", JStr reason)] end.

(** [Path::parent]: the text before the last component, without the separators and the
    [.] components at its end. *)
Fixpoint drop_ignored (parts : list string) : list string :=
  match parts with part :: up => if is_empty part || (part =s ".") then drop_ignored up else parts | [] => [] end.
Definition parent_text (path : string) : option string :=
  match split_char "/" path with
  | [] => None
  | first :: rest =>
    match drop_ignored (rev rest) with
    | _ :: up => let up := rev (drop_ignored up) in
                 Some (if is_empty first && bool_decide (up = []) then "/" else join "/" (first :: up))
    | [] => then_some (negb (is_empty first)) ""
    end
  end.

Definition resolve_entry (db_path : string) (entry : json) : option string :=
  (fun file =>
    if starts_with "/" file then file
    else join_text (unwrap_or (get_str "directory" entry) (unwrap_or (parent_text db_path) ".")) file) <$> get_str "file" entry.

Definition note_file (files : list string) (file : string) : list string := if str_mem file files then files else files ++ [file].

(** The walk ends at the first entry without a file. *)
Fixpoint collect_files (db_path : string) (files : list string) (entries : list json) : fallible (list string) :=
  match entries with
  | [] => inl files
  | entry :: entries =>
    match resolve_entry db_path entry with
    | None => inr (refuse_params "compilation database entry is missing file")
    | Some file => collect_files db_path (note_file files file) entries
    end
  end.

Definition compile_database_files (db : CompileDatabase) : fallible (list string) :=
  match db_entries db with
  | inr e => inr (refuse_params e)
  | inl entries =>
    match collect_files (db_path db) [] entries with
    | inr e => inr e
    | inl [] => inr (refuse_params "compilation database contains no files")
    | inl files => inl files
    end
  end.

(** ** What may reach the shell *)

Definition is_cpp_arg_char (c : ascii) : bool :=
  is_ascii_alphanumeric c || existsb (Ascii.eqb c) ["_"; "="; "."; "/"; "+"; "-"]%char.

Definition usable_entry (entry : string) : bool :=
  negb (is_empty entry) && negb (starts_with "-" entry) && sall is_cpp_arg_char entry.

Definition validate_cpp_entries (entries : list string) (complaint : string) : option McpError :=
  if existsb (fun entry => negb (usable_entry entry)) entries then Some (refuse_params complaint) else None.

Definition validate_dashless (value : option string) (complaint : string) : option McpError :=
  value ≫= fun value => then_some (is_empty value || starts_with "-" value) (refuse_params complaint).

(** [None] when the options are fine. *)
Definition validate_project_options (o : ProjectLoadOptions) : option McpError :=
  validate_cpp_entries (include_paths o)
    ("include_paths entries must be non-empty directories of [A-Za-z0-9_./+-] without a leading dash (write " +s+ dq +s+ "include" +s+ dq
     +s+ ", not " +s+ dq +s+ "-Iinclude" +s+ dq +s+ ")")
  <||> validate_cpp_entries (defines o)
    ("defines entries must be non-empty NAME or NAME=VALUE of [A-Za-z0-9_=./+-] without a leading dash (write " +s+ dq +s+ "_Atomic=" +s+ dq
     +s+ ", not " +s+ dq +s+ "-D_Atomic=" +s+ dq +s+ ")")
  <||> validate_cpp_entries (force_includes o)
    ("force_includes entries must be non-empty header names of [A-Za-z0-9_./+-] without a leading dash (write " +s+ dq +s+ "builtins.h" +s+ dq
     +s+ ", not " +s+ dq +s+ "-include builtins.h" +s+ dq +s+ ")")
  <||> validate_cpp_entries (isystem_paths o)
    ("isystem_paths entries must be non-empty directories of [A-Za-z0-9_./+-] without a leading dash (write " +s+ dq +s+ "include" +s+ dq
     +s+ ", not " +s+ dq +s+ "-isystem include" +s+ dq +s+ ")")
  <||> validate_dashless (machdep o)
    ("machdep must be a non-empty predefined name or YAML machdep file path without a leading dash (write " +s+ dq +s+ "gcc_x86_64" +s+ dq
     +s+ " or " +s+ dq +s+ "machdeps/custom" +s+ dq +s+ ", not " +s+ dq +s+ "-machdep gcc_x86_64" +s+ dq +s+ ")")
  <||> validate_dashless (compilation_database o)
    ("compilation_database must be a non-empty path without a leading dash (write " +s+ dq +s+ "build/compile_commands.json" +s+ dq
     +s+ ", not " +s+ dq +s+ "-json-compilation-database build" +s+ dq +s+ ")").

(** ** Theorems *)

Lemma single_quoted_length s : forall word, String.length (single_quoted s word).2 <= String.length s.
Proof. induction s as [|c s IH]; intros word; cbn; [lia|]. case_match; cbn; [lia|]. specialize (IH (word +s+ String c "")). lia. Qed.

Lemma push_double_quoted_length n : forall s word, String.length s <= n -> String.length (push_double_quoted s word).2 <= String.length s.
Proof.
  induction n as [|n IH]; intros s word Hn; destruct s as [|c s]; cbn in Hn |- *; try lia. case_match; cbn; [lia|].
  case_match; [destruct s as [|d s]; cbn in *; [lia|]|].
  - etransitivity; [apply IH; lia|lia].
  - etransitivity; [apply IH; lia|lia].
Qed.

Lemma shell_go_enough n : forall s fuel fuel' word, String.length s <= n -> String.length s < fuel -> String.length s < fuel' ->
  shell_go fuel word s = shell_go fuel' word s.
Proof.
  induction n as [|n IH]; intros s fuel fuel' word Hn Hf Hf'; (destruct fuel as [|fuel]; [lia|]); (destruct fuel' as [|fuel']; [lia|]);
    destruct s as [|c s]; cbn in Hn, Hf, Hf'; try done; try lia.
  cbn [shell_go]. destruct (ws_char (String c s)) as [rest|] eqn:Hws.
  - apply ws_char_length in Hws. cbn in Hws. f_equal. apply IH; lia.
  - destruct (Ascii.eqb c quote).
    { destruct (single_quoted s (unwrap_or word "")) as [w r] eqn:E. pose proof (single_quoted_length s (unwrap_or word "")) as Hl.
      rewrite E in Hl. cbn in Hl. apply IH; lia. }
    destruct (Ascii.eqb c dquote).
    { destruct (push_double_quoted s (unwrap_or word "")) as [w r] eqn:E.
      pose proof (push_double_quoted_length _ s (unwrap_or word "") (le_n _)) as Hl. rewrite E in Hl. cbn in Hl. apply IH; lia. }
    destruct (Ascii.eqb c backslash); [destruct s as [|d s]; [done|cbn in *; apply IH; lia]|apply IH; lia].
Qed.

(** The words from here on. *)
Definition shell_at (word : option string) (s : string) : list string := shell_go (S (String.length s)) word s.

Lemma shell_at_fuel fuel word s : String.length s < fuel -> shell_go fuel word s = shell_at word s.
Proof. intros H. apply (shell_go_enough (String.length s)); lia. Qed.

Lemma shell_at_blank word s : shell_at word (String " " s) = option_list word ++ shell_at None s.
Proof. reflexivity. Qed.

Definition word_char (c : ascii) : bool := graphic c && negb (existsb (Ascii.eqb c) [quote; dquote; backslash]).

Lemma shell_go_char fuel word c s : word_char c = true -> shell_go (S fuel) word (String c s) = shell_go fuel (Some (unwrap_or word "" +s+ String c "")) s.
Proof.
  intros [Hg Hn]%andb_true_iff. cbn in Hn. rewrite !negb_orb, !andb_true_iff, !negb_true_iff in Hn. destruct Hn as (Hq & Hd & Hb & _).
  cbn [shell_go]. rewrite graphic_not_ws by done. by rewrite Hq, Hd, Hb.
Qed.

Lemma shell_at_char word c s : word_char c = true -> shell_at word (String c s) = shell_at (Some (unwrap_or word "" +s+ String c "")) s.
Proof. intros Hc. by apply shell_go_char. Qed.

Lemma shell_at_word w : forall word s, sall word_char w = true -> w <> "" -> shell_at word (w +s+ s) = shell_at (Some (unwrap_or word "" +s+ w)) s.
Proof.
  induction w as [|c w IH]; intros word s Hw Hne; [done|]. cbn in Hw. apply andb_true_iff in Hw as [Hc Hw]. cbn [String.append].
  rewrite shell_at_char by done. destruct w as [|d w]; [done|]. rewrite IH by done. cbn [unwrap_or]. by rewrite app_str_assoc.
Qed.

Lemma shell_go_quote fuel word s :
  shell_go (S fuel) word (String quote s) = let '(current, s) := single_quoted s (unwrap_or word "") in shell_go fuel (Some current) s.
Proof. cbn [shell_go]. by rewrite graphic_not_ws. Qed.

Lemma shell_at_quote word s : shell_at word (String quote s) = let '(current, s) := single_quoted s (unwrap_or word "") in shell_at (Some current) s.
Proof.
  unfold shell_at at 1. rewrite shell_go_quote. destruct (single_quoted s (unwrap_or word "")) as [w r] eqn:E.
  pose proof (single_quoted_length s (unwrap_or word "")) as Hl. rewrite E in Hl. cbn in Hl. apply shell_at_fuel. cbn. lia.
Qed.

Lemma shell_go_escape fuel word d s :
  shell_go (S fuel) word (String backslash (String d s)) = shell_go fuel (Some (unwrap_or word "" +s+ String d "")) s.
Proof. cbn [shell_go]. by rewrite graphic_not_ws. Qed.

Lemma shell_at_escape word d s : shell_at word (String backslash (String d s)) = shell_at (Some (unwrap_or word "" +s+ String d "")) s.
Proof. unfold shell_at at 1. rewrite shell_go_escape. apply shell_at_fuel. cbn. lia. Qed.

(** A word as a shell user quotes it: in single quotes, each quote of its own as [\']
    between two of them. *)
Fixpoint quote_rest (w : string) : string :=
  match w with
  | "" => String quote ""
  | String c w => if Ascii.eqb c quote then String quote (String backslash (String quote (String quote (quote_rest w)))) else String c (quote_rest w)
  end.
Definition sh_quote (w : string) : string := String quote (quote_rest w).

Lemma quoted_rest w : forall current s, (let '(current, s) := single_quoted (quote_rest w +s+ s) current in shell_at (Some current) s) = shell_at (Some (current +s+ w)) s.
Proof.
  induction w as [|c w IH]; intros current s; cbn [quote_rest String.append].
  - cbn. by rewrite app_str_nil_r.
  - destruct (Ascii.eqb_spec c quote) as [->|Hc]; cbn [String.append single_quoted].
    + rewrite (Ascii.eqb_refl quote), shell_at_escape, shell_at_quote. cbn [unwrap_or]. rewrite IH. by rewrite app_str_assoc.
    + apply Ascii.eqb_neq in Hc. rewrite Hc, IH. by rewrite app_str_assoc.
Qed.

Lemma shell_at_quoted word w s : shell_at word (sh_quote w +s+ s) = shell_at (Some (unwrap_or word "" +s+ w)) s.
Proof. unfold sh_quote. cbn [String.append]. by rewrite shell_at_quote, quoted_rest. Qed.

(** A text read as one word whatever precedes and follows it. *)
Definition reads_as (text w : string) : Prop := forall word s, shell_at word (text +s+ s) = shell_at (Some (unwrap_or word "" +s+ w)) s.

Lemma words_joined texts ws : Forall2 reads_as texts ws -> shell_words (join " " texts) = ws.
Proof.
  change (shell_words (join " " texts)) with (shell_at None (join " " texts)).
  induction 1 as [|text w texts ws Hw Htail IH]; [done|]. destruct texts as [|t ts].
  - apply Forall2_nil_inv_l in Htail as ->. cbn [join String.concat]. rewrite <- (app_str_nil_r text), Hw. done.
  - change (join " " (text :: t :: ts)) with (text +s+ String " " (join " " (t :: ts))). rewrite Hw, shell_at_blank, IH. done.
Qed.

Lemma reads_as_word w : sall word_char w = true -> w <> "" -> reads_as w w.
Proof. intros Hw Hne word s. by apply shell_at_word. Qed.

(** C34: splitting a command reads back what quoting wrote.  Whatever the words are, empty,
    with blanks, quotes or backslashes, the command that writes each in single quotes the
    way a shell user does is split into exactly these words. *)
Theorem shell_words_quoted ws : shell_words (join " " (map sh_quote ws)) = ws.
Proof. apply words_joined. induction ws; constructor; [intros word s; apply shell_at_quoted|done]. Qed.

(** ** What reaches the shell *)

(** The preprocessor's arguments, in the groups the code writes as one flag each. *)
Definition cpp_groups (builtin_models_header : option string) (o : ProjectLoadOptions) : list (list string) :=
  (if nostdinc o then [["-nostdinc"]] else [])
  ++ map (fun path => ["-I" +s+ path]) (include_paths o) ++ map (fun path => ["-isystem"; path]) (isystem_paths o)
  ++ map (fun define => ["-D" +s+ define]) (defines o) ++ map (fun header => ["-include"; header]) (force_includes o)
  ++ match builtin_models o with
     | Some _ => [["-include"; unwrap_or builtin_models_header "/nonexistent/frama-c-mcp-builtins.h"]]
     | None => []
     end.

(** What a POSIX shell or one with history and brace expansion gives a meaning to, outside
    of quotes, beside blanks, control characters and bytes that are not ASCII. *)
Definition SHELL_ACTIVE : list ascii := dquote :: quote :: String.list_ascii_of_string "|&;<>()$`\*?[]#~%{}!^".
Definition shell_inert (c : ascii) : bool :=
  let code := N_of_ascii c in (33 <=? code)%N && (code <=? 126)%N && negb (bool_decide (c ∈ SHELL_ACTIVE)).
Definition inert_word (w : string) : Prop := w <> "" /\ sall shell_inert w = true.

Lemma inert_word_char c : shell_inert c = true -> word_char c = true.
Proof. destruct c as [[] [] [] [] [] [] [] []]; vm_compute; congruence. Qed.

Lemma cpp_arg_inert c : is_cpp_arg_char c = true -> shell_inert c = true.
Proof. destruct c as [[] [] [] [] [] [] [] []]; vm_compute; congruence. Qed.

Lemma join_cons sep (w : string) ws : ws <> [] -> join sep (w :: ws) = w +s+ sep +s+ join sep ws.
Proof. by destruct ws. Qed.

Lemma join_app sep (a b : list string) : a <> [] -> b <> [] -> join sep (a ++ b) = join sep a +s+ sep +s+ join sep b.
Proof.
  intros Ha Hb. induction a as [|w a IH]; [done|]. destruct a as [|v a]; [by apply join_cons|].
  rewrite (join_cons sep w (v :: a)) by done. change ((w :: v :: a) ++ b) with (w :: ((v :: a) ++ b)).
  rewrite join_cons by done. rewrite IH by done. by rewrite !app_str_assoc.
Qed.

Lemma join_groups sep (groups : list (list string)) : Forall (fun g => g <> []) groups -> join sep (map (join sep) groups) = join sep (concat groups).
Proof.
  induction 1 as [|g groups Hg Hall IH]; [done|]. cbn [map concat]. destruct groups as [|g' groups]; [by rewrite app_nil_r|].
  rewrite join_cons by done. rewrite IH. rewrite join_app; [done|done|]. apply Forall_cons_1 in Hall as [Hg' _]. by destruct g'.
Qed.

Lemma words_of_groups (groups : list (list string)) : Forall (Forall inert_word) groups -> Forall (fun g => g <> []) groups ->
  let args := join " " (map (join " ") groups) in
  args = join " " (concat groups) /\ shell_words args = concat groups /\ Forall inert_word (concat groups).
Proof.
  intros Hw Hg args. unfold args. rewrite join_groups by done. assert (Hws : Forall inert_word (concat groups)) by (by apply Forall_concat).
  split_and!; [done| |done].
  apply words_joined. apply Forall2_same_length_lookup_2; [done|]. intros i x y Hx Hy. simplify_eq.
  destruct (proj1 (Forall_lookup _ _) Hws _ _ Hx) as [Hne Hs]. apply reads_as_word; [|done]. by apply (sall_impl shell_inert); [apply inert_word_char|].
Qed.

Lemma validated_entries entries complaint : validate_cpp_entries entries complaint = None <-> Forall (fun e => usable_entry e = true) entries.
Proof.
  unfold validate_cpp_entries. destruct (existsb _ _) eqn:E.
  - split; [done|]. intros H. apply existsb_true in E as (e & He & Hu). rewrite Forall_forall in H. by rewrite (H e He) in Hu.
  - split; [|done]. intros _. apply Forall_forall. intros e He. apply negb_false_iff. by apply (proj1 (existsb_false _ _) E).
Qed.

Lemma usable_parts e : usable_entry e = true -> e <> "" /\ starts_with "-" e = false /\ sall shell_inert e = true.
Proof.
  unfold usable_entry. rewrite !andb_true_iff, !negb_true_iff. intros [[He Hd] Hs].
  split_and!; [by destruct e|done|by apply (sall_impl is_cpp_arg_char); [apply cpp_arg_inert|]].
Qed.

Lemma flag_groups (flag : string) l : inert_word flag -> Forall (fun e => usable_entry e = true) l ->
  Forall (Forall inert_word) (map (fun e => [flag +s+ e]) l) /\ Forall (Forall inert_word) (map (fun e => [flag; e]) l).
Proof.
  intros [Hne Hf] Hl. split; apply Forall_map; (eapply Forall_impl; [exact Hl|]); intros e (He & _ & Hs)%usable_parts.
  - repeat constructor; [by destruct flag|by rewrite sall_app, Hf, Hs].
  - by repeat constructor.
Qed.

Lemma cpp_extra_args_groups builtin_models_header o :
  cpp_extra_args builtin_models_header o
  = match map (join " ") (cpp_groups builtin_models_header o) with [] => None | flags => Some (join " " flags) end.
Proof.
  transitivity (let flags := map (join " ") (cpp_groups builtin_models_header o) in match flags with [] => None | _ :: _ => Some (join " " flags) end);
    [|by destruct (map _ _)].
  unfold cpp_extra_args, cpp_groups. rewrite !map_app, !map_map. destruct (nostdinc o), (builtin_models o); reflexivity.
Qed.

(** C33: options that pass the validation reach the preprocessor as they are.  The value the
    shell is handed is the words meant with one blank between two: each directory,
    definition and header with its flag, in order.  Each word is one or more printable
    ASCII characters none of which a shell gives a meaning to: no quote, backslash, [$],
    backquote, bracket, separator, redirection, glob, comment or history sign; so a shell
    splits the value into these words.  Assumed is that the path of the builtin models'
    header, which this server makes under its own directory, is such a word.  And neither
    the machine nor the database can be read as a flag of Frama-C. *)
Theorem cpp_args_reach_shell_whole builtin_models_header o :
  validate_project_options o = None ->
  (forall h, builtin_models_header = Some h -> inert_word h) ->
  let words := concat (cpp_groups builtin_models_header o) in
  match cpp_extra_args builtin_models_header o with
  | Some args => args = join " " words /\ shell_words args = words
  | None => words = []
  end
  /\ Forall inert_word words
  /\ (forall value, machdep o = Some value \/ compilation_database o = Some value -> value <> "" /\ starts_with "-" value = false).
Proof.
  intros Hv Hh words. unfold validate_project_options in Hv. rewrite !or_else_None, !validated_entries in Hv.
  destruct Hv as (((((Hi & Hd) & Hf) & Hs) & Hm) & Hc).
  destruct (words_of_groups (cpp_groups builtin_models_header o)) as (Hj & Hw & Hin).
  { unfold cpp_groups. rewrite !Forall_app. split_and!; [destruct (nostdinc o); repeat constructor; done| | | | |];
      try (by apply flag_groups).
    destruct (builtin_models o); [|constructor]. repeat constructor; try done; destruct builtin_models_header as [h|]; cbn; try done; by apply Hh. }
  { unfold cpp_groups. rewrite !Forall_app. split_and!; [destruct (nostdinc o); by repeat constructor| | | | |destruct (builtin_models o); by repeat constructor];
      rewrite ?Forall_map; by apply Forall_true. }
  split_and!; [|done|].
  - rewrite cpp_extra_args_groups. unfold words. destruct (cpp_groups builtin_models_header o); [done|]. by split.
  - assert (Hdash : forall o' text, validate_dashless o' text = None -> forall value, o' = Some value -> value <> "" /\ starts_with "-" value = false).
    { intros o' text H value ->. cbn in H. destruct (is_empty value || starts_with "-" value) eqn:E; [done|].
      apply orb_false_iff in E as [He Hd']. by destruct value. }
    intros value [H|H]; [exact (Hdash _ _ Hm _ H)|exact (Hdash _ _ Hc _ H)].
Qed.

Lemma cpp_args_reach_shell_whole_witness :
  let o := mkProjectLoadOptions ["include"] ["_Atomic="] ["stub/builtins.h"] (Some "gcc_x86_64") None false ["libc"] true false false (Some "v1") in
  let header := "/tmp/fcmcp-0/builtins-7.h" in
  shell_words "-nostdinc -Iinclude -isystem libc -D_Atomic= -include stub/builtins.h -include /tmp/fcmcp-0/builtins-7.h"
  = ["-nostdinc"; "-Iinclude"; "-isystem"; "libc"; "-D_Atomic="; "-include"; "stub/builtins.h"; "-include"; header]
  /\ inert_word header /\ starts_with "-" "gcc_x86_64" = false.
Proof.
  intros o header. assert (Hh : forall h, Some header = Some h -> inert_word h) by (by intros h [= <-]; split).
  destruct (cpp_args_reach_shell_whole (Some header) o) as (Ha & Hi & Hm); [by vm_compute|exact Hh|].
  split; [|split].
  - exact (proj2 Ha).
  - by apply Hh.
  - apply (Hm "gcc_x86_64"). by left.
Defined.

(** ** The flags and files of a database *)

Lemma flags_distinct : NoDup DROPPED_SEMANTIC_FLAGS.*1.
Proof. decide_closed. Qed.

Lemma fold_count_flag flags counts flag : NoDup flags ->
  fold_left count_flag flags counts !! flag = if bool_decide (flag ∈ flags) then Some (unwrap_or (counts !! flag) 0 + 1)%N else counts !! flag.
Proof.
  intros Hnd. revert counts. induction Hnd as [|f flags Hf _ IH]; intros counts; [done|]. cbn [fold_left]. rewrite IH. unfold count_flag.
  destruct (decide (f = flag)) as [->|Hne].
  - rewrite lookup_insert_eq, (bool_decide_eq_false_2 _ Hf), bool_decide_eq_true_2 by left. done.
  - rewrite lookup_insert_ne by done. assert (Hi : flag ∈ f :: flags <-> flag ∈ flags) by (rewrite elem_of_cons; intuition congruence).
    by rewrite (bool_decide_ext _ _ Hi).
Qed.

(** The entry has the flag among its words, alone or with a value. *)
Definition carries (flag : string) (entry : json) : bool := existsb (fun token => is_flag token flag) (compile_entry_tokens entry).

Lemma is_flag_shape token flag : is_flag token flag = true <-> token = flag \/ exists value, token = flag +s+ String "=" value.
Proof.
  unfold is_flag. rewrite orb_true_iff, String.eqb_eq. apply or_iff_compat_l. rewrite is_some_and_true. split.
  - intros (rest & Hr%strip_prefix_Some & Hs). destruct rest as [|c rest]; [done|]. change (starts_with "=" (String c rest)) with (if ascii_dec "=" c then String.prefix "" rest else false) in Hs.
    destruct (ascii_dec "=" c) as [<-|]; [|done]. by exists rest.
  - intros (value & ->). exists (String "=" value). rewrite strip_prefix_app. split; [done|by destruct value].
Qed.

Lemma is_flag_unique token f g : free_of "=" f = true -> free_of "=" g = true -> is_flag token f = true -> is_flag token g = true -> f = g.
Proof.
  intros Hf Hg Hft Hgt. apply is_flag_shape in Hft, Hgt.
  assert (Hno : forall a b v, free_of "=" a = true -> a <> b +s+ String "=" v).
  { intros a b v Ha ->. rewrite free_of_app in Ha. apply andb_true_iff in Ha as [_ Ha]. cbn in Ha. discriminate. }
  destruct Hft as [->|(v & ->)], Hgt as [Hg'|(v' & Hg')]; [done| | |].
  - by apply Hno in Hg'.
  - symmetry in Hg'. by apply Hno in Hg'.
  - by apply (separated_inj "=") in Hg' as [-> _].
Qed.

Lemma flags_free : forallb (free_of "=") DROPPED_SEMANTIC_FLAGS.*1 = true.
Proof. by vm_compute. Qed.

Lemma flag_of_token token flag : dropped_semantic_flag token = Some flag <-> flag ∈ DROPPED_SEMANTIC_FLAGS.*1 /\ is_flag token flag = true.
Proof.
  unfold dropped_semantic_flag. split; [intros H; by apply find_first_Some in H|]. intros [Hin Ht].
  destruct (find_first _ _) as [g|] eqn:Hg; [|by rewrite (proj1 (find_first_None _ _) Hg flag Hin) in Ht].
  apply find_first_Some in Hg as [Hg Hgt]. pose proof (proj1 (forallb_true _ _) flags_free) as Hfree.
  f_equal. apply (is_flag_unique token); auto.
Qed.

Lemma entry_flags_spec entry flag : flag ∈ entry_flags entry <-> flag ∈ DROPPED_SEMANTIC_FLAGS.*1 /\ carries flag entry = true.
Proof.
  unfold entry_flags, carries. rewrite elem_of_btree_set, elem_of_collect_some, existsb_true.
  setoid_rewrite flag_of_token. naive_solver.
Qed.

Lemma counts_spec flag entries : forall counts,
  fold_left (fun counts entry => fold_left count_flag (entry_flags entry) counts) entries counts !! flag
  = match counts !! flag, count_if (fun entry => bool_decide (flag ∈ entry_flags entry)) entries with
    | None, O => None
    | c, n => Some (unwrap_or c 0 + N.of_nat n)%N
    end.
Proof.
  induction entries as [|entry entries IH]; intros counts; cbn [fold_left].
  - cbn. destruct (counts !! flag); cbn; [f_equal; lia|done].
  - rewrite IH, fold_count_flag by apply btree_set_NoDup. unfold count_if. cbn [bfilter]. case_bool_decide; cbn [length].
    + destruct (counts !! flag); cbn; f_equal; lia.
    + done.
Qed.

Lemma count_if_ext {A} (f g : A -> bool) l : (forall a, g a = f a) -> count_if g l = count_if f l.
Proof. intros H. unfold count_if. induction l as [|a l IH]; cbn; [done|]. rewrite H. destruct (f a); cbn; by rewrite IH. Qed.

Lemma find_by_key {A} (key : string) (l : list (string * A)) (a : A) : NoDup l.*1 -> (key, a) ∈ l -> find_first (fun '(f, _) => f =s key) l = Some (key, a).
Proof.
  intros Hnd Hin. induction l as [|[k b] l IH]; [by apply elem_of_nil in Hin|]. cbn in Hnd |- *. apply NoDup_cons in Hnd as [Hk Hnd].
  destruct (String.eqb_spec k key) as [->|Hne].
  - apply elem_of_cons in Hin as [[= ->]|Hin]; [done|]. destruct Hk. apply list_elem_of_fmap. by exists (key, a).
  - apply elem_of_cons in Hin as [[= -> _]|Hin]; [done|]. by apply IH.
Qed.

(** An object with an entry for each of a map's. *)
Lemma btree_object_get {A} (f : string * A -> string * json) (m : gmap string A) key : (forall e, (f e).1 = e.1) ->
  map_get key (map f (btree_entries m)) = (fun a => (f (key, a)).2) <$> m !! key.
Proof.
  intros Hf. assert (Hk : (map f (btree_entries m)).*1 = btree_keys m).
  { unfold btree_keys. rewrite <- list_fmap_compose. apply list_fmap_ext. intros ? e _. apply Hf. }
  destruct (m !! key) as [a|] eqn:E.
  - apply map_get_elem_NoDup; [rewrite Hk; apply btree_keys_NoDup|]. apply list_elem_of_fmap. exists (key, a).
    rewrite elem_of_btree_entries. split; [|done]. pose proof (Hf (key, a)) as H. by destruct (f (key, a)); cbn in H; subst.
  - apply map_get_None_keys. rewrite Hk, elem_of_btree_keys, E. by intros [].
Qed.

(** The report counts, for each flag Frama-C drops, the entries that carry it.  A flag
    of the table is reported with the number of entries that have it among their words,
    alone or with a value, however often each has it, and with its effect; it is left out
    when there is none; and nothing else is reported. *)
Theorem dropped_flags_exact entries :
  (forall flag effect, (flag, effect) ∈ DROPPED_SEMANTIC_FLAGS ->
     (compile_database_dropped_flags entries) .? flag
     = match count_if (carries flag) entries with
       | O => None
       | n => Some (JObj [("entries", jN (N.of_nat n)); ("effect", JStr effect)])
       end)
  /\ (forall flag, flag ∉ DROPPED_SEMANTIC_FLAGS.*1 -> (compile_database_dropped_flags entries) .? flag = None).
Proof.
  set (counts := fold_left (fun counts entry => fold_left count_flag (entry_flags entry) counts) entries ∅).
  assert (Hget : forall flag, (compile_database_dropped_flags entries) .? flag
            = (fun n => JObj [("entries", jN n); ("effect", JStr (unwrap_or (snd <$> find_first (fun '(f, _) => f =s flag) DROPPED_SEMANTIC_FLAGS) ""))])
              <$> counts !! flag).
  { intros flag. unfold compile_database_dropped_flags. fold counts. cbn [get].
    rewrite btree_object_get by (by intros []). by destruct (counts !! flag). }
  assert (Hcounts : forall flag, counts !! flag
            = match count_if (fun entry => bool_decide (flag ∈ entry_flags entry)) entries with O => None | n => Some (N.of_nat n) end).
  { intros flag. unfold counts. rewrite counts_spec, lookup_empty. by destruct (count_if _ _). }
  split.
  - intros flag effect Hin. rewrite Hget, Hcounts. assert (Hf : flag ∈ DROPPED_SEMANTIC_FLAGS.*1) by (apply list_elem_of_fmap; by exists (flag, effect)).
    rewrite (count_if_ext (carries flag)) by (intros entry; apply Bool.eq_iff_eq_true; rewrite bool_decide_eq_true, entry_flags_spec; tauto).
    rewrite (find_by_key _ _ effect) by (done || apply flags_distinct). by destruct (count_if _ _).
  - intros flag Hf. rewrite Hget, Hcounts. rewrite (count_if_ext (fun _ => false)) by
      (intros entry; apply bool_decide_eq_false; rewrite entry_flags_spec; tauto).
    unfold count_if. by rewrite (proj2 (bfilter_nil _ _)).
Qed.

Lemma note_file_spec files file : NoDup files -> NoDup (note_file files file) /\ forall f, f ∈ note_file files file <-> f ∈ files \/ f = file.
Proof.
  intros Hnd. unfold note_file. destruct (str_mem file files) eqn:E.
  - split; [done|]. intros f. apply str_mem_elem in E. split; [auto|by intros [?| ->]].
  - assert (Hn : file ∉ files) by (by intros H%str_mem_elem; congruence). split.
    + apply NoDup_app. split_and!; [done| |apply NoDup_singleton]. by intros f Hf ->%list_elem_of_singleton.
    + intros f. by rewrite elem_of_app, list_elem_of_singleton.
Qed.

Lemma collect_files_spec path entries : forall files, NoDup files ->
  match collect_files path files entries with
  | inl out => NoDup out /\ (forall f, f ∈ out <-> f ∈ files \/ exists entry, entry ∈ entries /\ resolve_entry path entry = Some f)
               /\ Forall (fun entry => resolve_entry path entry <> None) entries /\ files `prefix_of` out
  | inr e => e = refuse_params "compilation database entry is missing file" /\ exists entry, entry ∈ entries /\ get_str "file" entry = None
  end.
Proof.
  induction entries as [|entry entries IH]; intros files Hnd; cbn [collect_files].
  - split_and!; [done| |constructor|done]. intros f. split; [auto|]. intros [?|(e & He & _)]; [done|by apply elem_of_nil in He].
  - destruct (resolve_entry path entry) as [file|] eqn:Hr.
    + destruct (note_file_spec files file Hnd) as [Hnd' Hmem]. specialize (IH _ Hnd'). destruct (collect_files _ _ _) as [out|e].
      * destruct IH as (Hout & Hin & Hall & Hpre). split_and!; [done| |constructor; [by rewrite Hr|done]|].
        -- intros f. rewrite Hin, Hmem. setoid_rewrite elem_of_cons. split; [naive_solver|].
           intros [?|(e & [->|He] & Hf)]; [auto|left; right; congruence|right; eauto].
        -- etransitivity; [|exact Hpre]. unfold note_file. destruct (str_mem _ _); [done|by apply prefix_app_r].
      * destruct IH as (-> & e' & He & Hn). split; [done|]. exists e'. split; [by right|done].
    + split; [done|]. exists entry. split; [left|]. unfold resolve_entry in Hr. by destruct (get_str "file" entry).
Qed.

(** A load takes each file of the database once.  The files are those of the entries,
    relative ones under the entry's directory or else the database's own, without
    repetition and never none; an entry without a file, a database that lists none or
    cannot be read is refused, and nothing else is. *)
Theorem database_files_exact db :
  match compile_database_files db with
  | inl files =>
    exists entries, db_entries db = inl entries /\ NoDup files /\ files <> [] /\ Forall (fun entry => get_str "file" entry <> None) entries
      /\ forall f, f ∈ files <-> exists entry, entry ∈ entries /\ resolve_entry (db_path db) entry = Some f
  | inr e =>
    db_entries db = inl [] \/ db_entries db = inr (err_message e)
    \/ exists entries entry, db_entries db = inl entries /\ entry ∈ entries /\ get_str "file" entry = None
  end.
Proof.
  unfold compile_database_files. destruct (db_entries db) as [entries|reason]; [|by right; left].
  pose proof (collect_files_spec (db_path db) entries [] NoDup_nil_2) as H. destruct (collect_files _ _ _) as [[|file files]|e].
  - left. destruct H as (_ & Hin & Hall & _). destruct entries as [|entry entries]; [done|]. apply Forall_cons_1 in Hall as [Hr _].
    destruct (resolve_entry (db_path db) entry) as [f|] eqn:Hf; [|done]. exfalso.
    apply (not_elem_of_nil f), Hin. right. exists entry. split; [left|done].
  - destruct H as (Hnd & Hin & Hall & _). exists entries. split_and!; [done|done|done| |].
    + eapply Forall_impl; [exact Hall|]. intros entry Hr Hn. apply Hr. unfold resolve_entry. by rewrite Hn.
    + intros f. rewrite Hin. split; [|auto]. by intros [Hf%elem_of_nil|?].
  - right; right. destruct H as (_ & entry & He & Hn). by exists entries, entry.
Qed.

Example relative_file_resolved :
  compile_database_files (mkDatabase "build/./compile_commands.json"
    (inl [JObj [("file", JStr "a.c")]; JObj [("file", JStr "/src/b.c")]; JObj [("directory", JStr "lib/"); ("file", JStr "c.c")]; JObj [("file", JStr "a.c")]]))
  = inl ["build/a.c"; "/src/b.c"; "lib/c.c"].
Proof. by vm_compute. Qed.
