(* ===== verification/Proc.v ===== *)
(** * Processes and their sockets (src/src/mcp/proc.rs)

    What is said of a process that did not start, which process or group a signal is aimed
    at, the wait for a server that is still starting, and a command that runs in a group of
    its own.  What the system answers is an argument; time is in milliseconds. *)

From S2P Require Import Prelude RustStr Json Codec.
Local Open Scope nat_scope.

(** ** Logs *)

Definition last_lines (n : nat) (text : string) : string :=
  join (String nl "") (reverse (take n (reverse (lines text)))).

Section logs.
Variable read_to_string : string -> option string.

Definition tail_file (path : string) (n : nat) : string := unwrap_or (last_lines n <$> read_to_string path) "".

Definition startup_failure_tail (stdout_log_path stderr_log_path : string) (n : nat) : string :=
  match bfilter (fun tail => negb (is_empty (trim tail))) (map (fun path => tail_file path n) [stdout_log_path; stderr_log_path]) with
  | [] => "(no output on stdout or stderr)"
  | tails => join (String nl "") tails
  end.
End logs.

Definition plugin_load_messages (stderr_tail : string) : list string :=
  bfilter (fun line => let lower := to_ascii_lowercase line in contains "plugin" lower || contains "ast_utils" lower) (lines stderr_tail).

(** ** Signals *)

Definition PID_MAX : N := 2 ^ 31 - 1.

Definition sandbox_kill_target (pid : N) (pgid : option N) : option Z :=
  if (pid =? 0)%N || (PID_MAX <? pid)%N then None
  else Some (if bool_decide (pgid = Some pid) then (- Z.of_N pid)%Z else Z.of_N pid).

(** What [kill] answers. *)
Inductive KillAnswer := Signalled | ESRCH | EPERM | OtherErrno.

Section signals.
Variable kill_0 : Z -> KillAnswer.

Definition process_is_alive (pid : N) : bool :=
  match sandbox_kill_target pid None with
  | None => false
  | Some _ => match kill_0 (Z.of_N pid) with Signalled | EPERM => true | _ => false end
  end.

(** The target [kill_frama_c_group] sends SIGKILL to; [kill_sandbox] is the same with a name. *)
Definition kill_frama_c_group (pid : N) (pgid : option N) : option Z := sandbox_kill_target pid pgid.
Definition kill_sandbox (pid : N) (pgid : option N) : option Z := kill_frama_c_group pid pgid.

(** [listing] is what ps says of the process: its group and its command line. *)
Definition kill_orphaned_sandbox (pid : N) (socket : option string) (listing : string) : option Z :=
  if negb (process_is_alive pid) then None
  else match socket with
       | None => None
       | Some socket =>
         if negb (contains socket listing) then None
         else kill_sandbox pid (head (split_whitespace listing) ≫= from_str_radix digit_val 10 32)
       end.
End signals.

(** ** Waiting for a server *)

(** One turn of [wait_socket_file]: whether the file is there, whether the process has
    exited, whether the file is there then, and the clock. *)
Record SocketTurn := mkSocketTurn { st_exists : bool; st_exited : bool; st_exists_now : bool; st_now : N }.

Fixpoint wait_socket_file (deadline : N) (turns : list SocketTurn) : option bool :=
  match turns with
  | [] => None
  | turn :: turns =>
    if st_exists turn then Some true
    else if st_exited turn then Some (st_exists_now turn)
    else if (deadline <=? st_now turn)%N then Some false
    else wait_socket_file deadline turns
  end.

Definition socket_not_listening_yet (e : FramaCError) : bool :=
  match e with Io (ConnectionRefused | NotFoundIo) => true | _ => false end.
Definition socket_refused (e : FramaCError) : bool := match e with Io ConnectionRefused => true | _ => false end.

Section connect.
Context {client : Type}.
Variable display_error : FramaCError -> string.
Variable timeout_debug : string.

Definition never_listened (socket : string) (e : FramaCError) : string :=
  "frama-c never listened on " +s+ socket +s+ " within " +s+ timeout_debug +s+ ": " +s+ display_error e.

(** One turn of the loop: the exit status of the process when it has one, what connecting
    answers, and the clock when that answer is there. *)
Record ConnectTurn := mkTurn { exited : option string; answer : client + FramaCError; ct_now : N }.

Inductive Connected := Listening (c : client) (refusals : nat) | NotConnected (why : string).

(** What one turn decides, when it decides. *)
Definition turn_decides (socket : string) (deadline : N) (refusals : nat) (turn : ConnectTurn) : option Connected :=
  match exited turn with
  | Some status => Some (NotConnected ("frama-c exited during startup: " +s+ status))
  | None =>
    match answer turn with
    | inl c => Some (Listening c refusals)
    | inr e =>
      if socket_not_listening_yet e then
        if (deadline <=? ct_now turn)%N then Some (NotConnected (never_listened socket e)) else None
      else Some (NotConnected (display_error e))
    end
  end.

Definition count_refusal (turn : ConnectTurn) (refusals : nat) : nat :=
  match answer turn with inr e => refusals + (if socket_refused e then 1 else 0) | inl _ => refusals end.

Fixpoint connect_loop (socket : string) (deadline : N) (refusals : nat) (turns : list ConnectTurn) : option Connected :=
  match turns with
  | [] => None
  | turn :: turns =>
    match turn_decides socket deadline refusals turn with
    | Some result => Some result
    | None => connect_loop socket deadline (count_refusal turn refusals) turns
    end
  end.

Definition connect_when_listening (socket : string) (utf8 : bool) (start timeout : N) (turns : list ConnectTurn) : option Connected :=
  if utf8 then connect_loop socket (start + timeout) 0 turns
  else Some (NotConnected ("socket path is not UTF-8: " +s+ socket)).
End connect.

(** ** Commands in a group of their own *)

Inductive Waited := Exited (code : option Z) | WaitError (error : string) | BudgetOver | Dropped.
Inductive PipeRead := ReadAll (bytes : string) | ReadError (error : string) | ReaderPanicked (error : string) | StillOpen.
Inductive GroupRun := Output (code : option Z) (stdout stderr : string) | RunError (error : string) | Elapsed | NoResult.

Definition collect_pipe (read : PipeRead) : string + string :=
  match read with
  | ReadAll bytes => inl bytes
  | ReadError error | ReaderPanicked error => inr error
  | StillOpen => inr "a process outside the group held the output pipe open"
  end.

(** The result of the run, and the targets that were sent SIGKILL.  [spawned] is the error
    of the spawn or the child's pid, which a process that was reaped no longer has;
    [Dropped] is a future dropped while it waits. *)
Definition output_in_own_group (spawned : option N + string) (waited : Waited) (stdout stderr : PipeRead) : GroupRun * list Z :=
  match spawned with
  | inr error => (RunError error, [])
  | inl pid =>
    let killed := match pid ≫= fun pid => kill_frama_c_group pid (Some pid) with Some target => [target] | None => [] end in
    (match waited with
     | Dropped => NoResult
     | WaitError error => RunError error
     | BudgetOver => Elapsed
     | Exited status =>
       match collect_pipe stdout with
       | inr error => RunError error
       | inl out => match collect_pipe stderr with inr error => RunError error | inl err => Output status out err end
       end
     end, killed)
  end.

(** [run_command_json]: [output] is what [wait_with_output] answers after the exit, as text.
    The exit code of a process that a signal ended is [None]. *)
Definition run_command_json (timeout : N) (spawn_error : option string) (waited : Waited) (output : (string * string) + string) : option json :=
  match spawn_error with
  | Some error => Some (JObj [("status", JStr "missing"); ("error", JStr error)])
  | None =>
    match waited with
    | Exited code =>
      let '(out, err) := match output with inl (out, err) => (trim out, trim err) | inr error => ("", error) end in
      Some (JObj [("status", JStr (if bool_decide (code = Some 0%Z) then "ok" else "error")); ("code", jopt jZ code);
                  ("stdout", JStr out); ("stderr", JStr err)])
    | WaitError error => Some (JObj [("status", JStr "error"); ("error", JStr error)])
    | BudgetOver => Some (JObj [("status", JStr "timeout"); ("timeout_ms", jN timeout)])
    | Dropped => None
    end
  end.

(** ** Theorems *)

(** A signal goes to the process or to the group it leads.  A pid that is zero or does
    not fit is never signalled; any other is signalled alone, or as a group exactly when
    it leads the group of its own number; so a target is never zero, and it is the one
    that addresses every process, minus one, only for a record of process 1 as a leader. *)
Theorem kill_target_spec pid pgid :
  (sandbox_kill_target pid pgid = None <-> pid = 0%N \/ (2 ^ 31 - 1 < pid)%N)
  /\ (forall target, sandbox_kill_target pid pgid = Some target ->
        target <> 0%Z /\ (- 2 ^ 31 < target < 2 ^ 31)%Z /\ Z.abs target = Z.of_N pid
        /\ ((target < 0)%Z <-> pgid = Some pid)
        /\ (target = (-1)%Z <-> pid = 1%N /\ pgid = Some 1%N)).
Proof.
  unfold sandbox_kill_target, PID_MAX. destruct (N.eqb_spec pid 0) as [->|Hz]; cbn [orb]; [split; [by split; auto|done]|].
  destruct (N.ltb_spec (2 ^ 31 - 1) pid) as [Hm|Hm]; [split; [by split; auto|done]|]. split; [split; [done|intros [?|?]; [done|lia]]|].
  intros target [= <-]. case_bool_decide as Hg.
  - subst pgid. split_and!; [lia|lia|lia|lia|split; [done|lia]|]. split; [intros H; assert (pid = 1%N) as -> by lia; done|intros [-> _]; done].
  - split_and!; [lia|lia|lia|lia|split; [lia|done]|]. split; [lia|]. intros [-> ->]. done.
Qed.

(** A recorded sandbox is killed only when the process is that sandbox: it is alive and
    its command line has the sandbox's socket.  The group is signalled when ps says that
    the process leads it, and the process alone otherwise. *)
Theorem orphan_is_the_sandbox kill_0 pid socket listing target :
  kill_orphaned_sandbox kill_0 pid socket listing = Some target ->
  process_is_alive kill_0 pid = true /\ (exists path, socket = Some path /\ contains path listing = true)
  /\ target = (if bool_decide (head (split_whitespace listing) ≫= from_str_radix digit_val 10 32 = Some pid) then - Z.of_N pid else Z.of_N pid)%Z.
Proof.
  unfold kill_orphaned_sandbox. destruct (process_is_alive kill_0 pid); [|done]. cbn [negb]. destruct socket as [path|]; [|done].
  destruct (contains path listing) eqn:Hc; [|done]. cbn [negb]. unfold kill_sandbox, kill_frama_c_group, sandbox_kill_target.
  destruct (_ || _); [done|]. intros [= <-]. split_and!; [done|by exists path|done].
Qed.

Section connect_theorems.
Context {client : Type} (display_error : FramaCError -> string) (timeout_debug : string).
Notation decides := (@turn_decides client display_error timeout_debug).
Notation loop := (@connect_loop client display_error timeout_debug).
Notation connect := (@connect_when_listening client display_error timeout_debug).

Definition refusals_in (turns : list (@ConnectTurn client)) : nat := fold_left (fun n turn => count_refusal turn n) turns 0.

Lemma connect_loop_first socket deadline refusals turns :
  match loop socket deadline refusals turns with
  | Some result => exists before turn after, turns = before ++ turn :: after
      /\ Forall (fun t => forall n, decides socket deadline n t = None) before
      /\ decides socket deadline (fold_left (fun n turn => count_refusal turn n) before refusals) turn = Some result
  | None => Forall (fun t => forall n, decides socket deadline n t = None) turns
  end.
Proof.
  revert refusals. induction turns as [|turn turns IH]; intros refusals; cbn [connect_loop]; [constructor|].
  destruct (decides socket deadline refusals turn) as [result|] eqn:Hd; [by exists [], turn, turns|].
  assert (Hall : forall n, decides socket deadline n turn = None).
  { intros n. revert Hd. unfold turn_decides. destruct (exited turn); [done|]. by destruct (answer turn). }
  specialize (IH (count_refusal turn refusals)). destruct (loop _ _ _ turns) as [result|]; [|by constructor].
  destruct IH as (before & t & after & -> & Hb & Ht). exists (turn :: before), t, after. split_and!; [done|by constructor|done].
Qed.

(** The wait for a server ends, and at the first answer that is one.  Turns are at least
    25 ms apart, so one more than fit in the timeout decide.  Before the turn that decides,
    the process was running and its socket absent or refusing, before the deadline; so an
    accepted connection is never followed by a second one, and the refusals that are
    counted are those the wait absorbed. *)
Theorem connect_decided socket start timeout turns :
  (forall i turn, turns !! i = Some turn -> (start + 25 * N.of_nat i <= ct_now turn)%N) -> (timeout + 25 <= 25 * N.of_nat (length turns))%N ->
  exists before turn after result, turns = before ++ turn :: after
    /\ connect socket true start timeout turns = Some result
    /\ decides socket (start + timeout) (refusals_in before) turn = Some result
    /\ Forall (fun t => exited t = None /\ (ct_now t < start + timeout)%N
                        /\ exists e, answer t = inr e /\ socket_not_listening_yet e = true) before.
Proof.
  intros Hclock Hlong. pose proof (connect_loop_first socket (start + timeout) 0 turns) as H.
  assert (Hwait : forall t, (forall n, decides socket (start + timeout) n t = None) -> exited t = None /\ (ct_now t < start + timeout)%N
                       /\ exists e, answer t = inr e /\ socket_not_listening_yet e = true).
  { intros t Ht. specialize (Ht 0). revert Ht. unfold turn_decides. destruct (exited t); [done|]. destruct (answer t) as [c|e]; [done|].
    destruct (socket_not_listening_yet e) eqn:He; [|done]. destruct (N.leb_spec (start + timeout) (ct_now t)); [done|]. intros _. split_and!; [done|done|by exists e]. }
  destruct (loop _ _ _ turns) as [result|] eqn:Hloop.
  - destruct H as (before & turn & after & -> & Hb & Ht). exists before, turn, after, result. split_and!; [done|exact Hloop|done|].
    eapply Forall_impl; [exact Hb|exact Hwait].
  - exfalso. destruct (last turns) as [t|] eqn:Hl.
    + rewrite last_lookup in Hl. pose proof (Hclock _ _ Hl) as Hc. rewrite Forall_lookup in H. destruct (Hwait t (H _ _ Hl)) as (_ & Hlt & _). lia.
    + apply last_None in Hl as ->. simpl in Hlong. lia.
Qed.
End connect_theorems.

(** No run leaves its group behind.  Whatever the wait answers, and also when the caller
    drops it, the group of a child that was started is sent SIGKILL, once; and output is
    reported only of a command that exited and whose two pipes were read to their end. *)
Theorem group_is_killed spawned waited stdout stderr :
  (forall pid, spawned = inl (Some pid) -> (0 < pid < 2 ^ 31)%N -> (output_in_own_group spawned waited stdout stderr).2 = [(- Z.of_N pid)%Z])
  /\ (forall error, spawned = inr error -> output_in_own_group spawned waited stdout stderr = (RunError error, []))
  /\ (forall code out err, (output_in_own_group spawned waited stdout stderr).1 = Output code out err <->
         (exists pid, spawned = inl pid) /\ waited = Exited code /\ stdout = ReadAll out /\ stderr = ReadAll err).
Proof.
  split_and!.
  - intros pid -> Hp. cbn. unfold kill_frama_c_group, sandbox_kill_target, PID_MAX. destruct (N.eqb_spec pid 0); [lia|].
    destruct (N.ltb_spec (2 ^ 31 - 1) pid); [lia|]. cbn [orb]. by rewrite bool_decide_eq_true_2.
  - by intros error ->.
  - intros code out err. destruct spawned as [pid|error]; [|split; [done|intros [[] _]; done]].
    destruct waited; cbn; try (split; [done|intros (_ & [=] & _)]).
    destruct stdout, stderr; cbn; (split; [intros [= <- <- <-] || done|intros (_ & [= <-] & [= <-] & [= <-])]); try done. split_and!; [by exists pid|done|done|done].
Qed.

(** ** Witnesses *)

Lemma orphan_is_the_sandbox_witness :
  kill_orphaned_sandbox (fun _ => Signalled) 4242 (Some "/tmp/fcmcp-1000/sb-1/frama-c.sock")
    " 4242 frama-c -server-socket /tmp/fcmcp-1000/sb-1/frama-c.sock" = Some (-4242)%Z
  /\ process_is_alive (fun _ => Signalled) 4242 = true.
Proof.
  assert (H : kill_orphaned_sandbox (fun _ => Signalled) 4242 (Some "/tmp/fcmcp-1000/sb-1/frama-c.sock")
    " 4242 frama-c -server-socket /tmp/fcmcp-1000/sb-1/frama-c.sock" = Some (-4242)%Z) by (vm_compute; reflexivity).
  split; [exact H|]. exact (proj1 (orphan_is_the_sandbox (fun _ => Signalled) _ _ _ _ H)).
Defined.

Lemma connect_decided_witness (refuse := fun now => mkTurn (client := nat) None (inr (Io ConnectionRefused)) now)
    (turns := [refuse 100%N; mkTurn None (inr (Io NotFoundIo)) 130%N; mkTurn None (inl 7) 160%N]) :
  exists before turn after result, turns = before ++ turn :: after
    /\ connect_when_listening (fun _ => "refused") "50ms" "/tmp/s" true 100 50 turns = Some result
    /\ turn_decides (fun _ => "refused") "50ms" "/tmp/s" 150 (refusals_in before) turn = Some result
    /\ Forall (fun t => exited t = None /\ (ct_now t < 100 + 50)%N
                        /\ exists e, answer t = inr e /\ socket_not_listening_yet e = true) before.
Proof.
  refine (connect_decided (fun _ => "refused") "50ms" "/tmp/s" 100 50 turns _ _); [|vm_compute; discriminate].
  intros [|[|[|i]]] turn; cbn; [intros [= <-]; vm_compute; discriminate..|done].
Defined.
