(* ===== verification/WpCli.v ===== *)
(** * WP in processes of its own (src/src/mcp/wpcli.rs)

    Proofs under one prover at a time, smoke tests, the memory-model probe, dumps,
    counter-examples and contract mutants: the command line of each, and what is read off
    what it printed.  The answer of a process is an argument, as the command's output is a
    [GroupRun]; decoding bytes as text ([lossy]) and the tables of WpMessages are parameters. *)

From S2P Require Import Prelude RustStr Json Status StableId Receipt ProbeGaps Verdicts WpTriage WpFailure WpMessages WpOutput WpConfig Conclusions Proc.
Local Open Scope nat_scope.

(** ** Warnings of a batch run *)

Definition split_first (needle other s : string) : option (string * string) :=
  match split_once needle s with
  | Some (before, after) => Some (before, needle +s+ after)
  | None => (fun '(before, after) => (before, other +s+ after)) <$> split_once other s
  end.

Fixpoint trim_start_matches (fuel : nat) (needle s : string) : string :=
  match fuel with
  | O => s
  | S fuel => match strip_prefix needle s with Some rest => trim_start_matches fuel needle rest | None => s end
  end.

(** The head of a message: its tag, its location, its kind and what follows on the line. *)
Record CliHead := mkHead { plugin : string; category : option string; location : string; kind : string; head_text : string }.

Definition cli_head (line : string) : option CliHead :=
  strip_prefix "[" line ≫= fun rest =>
  split_once "]" rest ≫= fun '(tag, rest) =>
  let '(plugin, category) := match split_once ":" tag with Some (plugin, category) => (plugin, Some category) | None => (tag, None) end in
  split_first "Warning:" "Error:" (trim_start rest) ≫= fun '(before, rest) =>
  let '(kind, head) := match strip_prefix "Warning:" rest with
                       | Some head => ("WARNING", head)
                       | None => ("ERROR", trim_start_matches (String.length rest) "Error:" rest)
                       end in
  Some (mkHead plugin category (trim_end_char ":" (trim before)) kind head).

(** The wrapped body, and the lines after it. *)
Definition continues (line : string) : bool := starts_with " " line && negb (starts_with "[" (trim_start line)).
Definition add_line (body next : string) : string := (if is_empty body then body else body +s+ " ") +s+ trim next.
Fixpoint cli_body (body : string) (lines : list string) : string * list string :=
  match lines with
  | next :: rest => if continues next then cli_body (add_line body next) rest else (body, lines)
  | [] => (body, [])
  end.

Definition cli_source (location : string) : option json :=
  rsplit_once ":" location ≫= fun '(file, line) => (fun line => JObj [("file", JStr file); ("line", jN line)]) <$> parse_u64 line.

Definition cli_message (head : CliHead) (body : string) : json :=
  JObj ([("plugin", JStr (plugin head)); ("kind", JStr (kind head)); ("message", JStr body)]
        ++ match category head with Some c => [("category", JStr c)] | None => [] end
        ++ match cli_source (location head) with Some s => [("source", s)] | None => [] end).

Fixpoint parse_cli_go (fuel : nat) (lines : list string) : list json :=
  match fuel, lines with
  | S fuel, line :: rest =>
    match cli_head line with
    | None => parse_cli_go fuel rest
    | Some head =>
      let '(body, rest) := cli_body (trim (head_text head)) rest in
      if is_empty body then parse_cli_go fuel rest else cli_message head body :: parse_cli_go fuel rest
    end
  | _, _ => []
  end.
Definition parse_cli_messages (text : string) : list json := let lines := lines text in parse_cli_go (length lines) lines.

(** ** Smoke tests *)

(** The part between the first and the second occurrence. *)
Definition second_part (needle s : string) : option string :=
  (fun '(_, rest) => match split_once needle rest with Some (part, _) => part | None => rest end) <$> split_once needle s.

Definition push_once (seen : list string) (name : string) : list string := if str_mem name seen then seen else seen ++ [name].

Definition doomed_name (line : string) : option string := second_part "[Failed] (Doomed) " line ≫= fun rest => head (split_whitespace rest).
Definition smoke_totals (line : string) : option (N * N) :=
  strip_prefix "Smoke Tests:" (trim line) ≫= fun rest =>
  split_once "/" rest ≫= fun '(passed, total) =>
  parse_u64 (trim passed) ≫= fun passed => (fun total => (passed, total)) <$> parse_u64 (trim total).

Definition parse_smoke_output (text : string) : json :=
  let failed := fold_left push_once (collect_some doomed_name (lines text)) [] in
  let summary := find_map smoke_totals (lines text) in
  JObj [("passed", jopt jN (fst <$> summary)); ("total", jopt jN (snd <$> summary)); ("failed", JArr (map JStr failed))].

Definition smoke_failure_kind (property : string) : string :=
  match split_once "wp_smoke_" property with
  | None => "unclassified"
  | Some (_, kind) =>
    if contains "requires" kind then "contract_vacuous" else if starts_with "dead_" kind then "unreachable_code" else "unclassified"
  end.

Definition doomed_entry (entry : json) : bool := eq_bool (field "smoke" entry) true && eq_bool (field "passed" entry) false.
Definition smoke_detail (entry : json) : json :=
  JObj [("goal", field "goal" entry); ("kind", JStr (smoke_failure_kind (unwrap_or (get_str "property" entry) "")));
        ("function", field "function" entry); ("file", field "file" entry); ("line", field "line" entry)].
Definition parse_smoke_report (report : json) : list json := map smoke_detail (bfilter doomed_entry (array_or_empty report)).

(** ** Contract mutants *)

(** [depth] is an i32 that a text shorter than 2^31 bytes does not overflow. *)
Fixpoint top_level_commas_go (depth : Z) (part text : string) : list string :=
  match text with
  | "" => [part]
  | String c text =>
    if Ascii.eqb c "(" || Ascii.eqb c "[" then top_level_commas_go (depth + 1) (part +s+ String c "") text
    else if Ascii.eqb c ")" || Ascii.eqb c "]" then top_level_commas_go (depth - 1) (part +s+ String c "") text
    else if Ascii.eqb c "," && (depth =? 0)%Z then part :: top_level_commas_go depth "" text
    else top_level_commas_go depth (part +s+ String c "") text
  end.
Definition top_level_commas (text : string) : list string := top_level_commas_go 0 "" text.

Definition ident_char (c : ascii) : bool := is_ascii_alphanumeric c || Ascii.eqb c "_".

(** What follows the last byte that is no part of an identifier, when there is one.  The
    code slices one byte after the start of the last such character, and so stops on a
    character of several bytes. *)
Fixpoint ident_suffix (s : string) : option string :=
  match s with
  | "" => None
  | String c rest =>
    match ident_suffix rest with
    | Some suffix => Some suffix
    | None => if ident_char c then None else Some rest
    end
  end.

Definition param_name (param : string) : option string :=
  match split_once "(*" param with
  | Some (_, rest) =>
    let name := trim (match split_once ")" rest with Some (name, _) => name | None => rest end) in
    then_some (negb (is_empty name) && sall ident_char name) name
  | None =>
    let declarator := trim_end (unwrap_or (head (split_char "[" param)) param) in
    ident_suffix declarator ≫= fun name => then_some (negb (is_empty name)) name
  end.

Definition param_type_text (param : string) : option string :=
  if contains "[" param || contains "(*" param then Some ""
  else (fun name => trim (take_str (String.length param - String.length name) param)) <$> param_name param.

Definition signature_parts (signature function : string) : option (string * list (string * string)) :=
  let signature := trim_end_char ";" (trim signature) in
  (fun '(head, rest) =>
    let rest := unwrap_or (strip_suffix ")" rest) rest in
    let params := bfilter (fun p => negb (is_empty p) && negb (p =s "void")) (map trim (top_level_commas rest)) in
    (trim head, collect_some (fun param => param_type_text param ≫= fun ty => (fun name => (ty, name)) <$> param_name param) params))
  <$> split_once (function +s+ "(") signature.

Definition contract_mutants (signature function : string) : list (string * string) :=
  match signature_parts signature function with
  | None => []
  | Some (return_type, params) =>
    if return_type =s "void" then [("empty", "{}")]
    else ("empty", "{ return 0; }")
         :: collect_some (fun '(ty, name) => then_some (ty =s return_type) ("return_" +s+ name, "{ return " +s+ name +s+ "; }")) params
  end.

(** The first place where the header stands over an opening brace. *)
Fixpoint header_position (header : string) (lines : list string) : option nat :=
  match lines with
  | a :: (b :: _) as rest => if (a =s header) && (b =s "{") then Some 0 else S <$> header_position header rest
  | _ => None
  end.
Fixpoint position_of (line : string) (lines : list string) : option nat :=
  match lines with [] => None | l :: lines => if l =s line then Some 0 else S <$> position_of line lines end.

Definition splice_body (source signature body : string) : option string :=
  let header := trim_end_char ";" (trim signature) in
  let lines := lines source in
  header_position header lines ≫= fun start =>
  (fun at_ =>
    let end_ := start + 1 + at_ in
    join (String nl "") (take (start + 1) lines ++ [body] ++ drop (end_ + 1) lines) +s+ String nl "")
  <$> position_of "}" (drop (start + 1) lines).

Definition ensures_entry (function : string) (entry : json) : bool :=
  eq_str (field "function" entry) function && negb (eq_bool (field "smoke" entry) true)
  && is_some_and (contains "ensures") (get_str "property" entry).

Definition mutant_verdict (report : json) (function : string) : string :=
  match bfilter (ensures_entry function) (array_or_empty report) with
  | [] => "not_applicable"
  | ensures => if forallb (fun entry => eq_bool (field "passed" entry) true) ensures then "decorative" else "killed"
  end.

Definition mutants_not_run (reason : string) : json := JObj [("ran", JBool false); ("reason", JStr reason); ("mutants", JArr [])].

(** [report] is the JSON file the run wrote, when it can be read. *)
Definition run_one_mutant (run : GroupRun) (report : option json) (function : string) : string :=
  match run with
  | Output (Some 0%Z) _ _ => match report with Some report => mutant_verdict report function | None => "not_applicable" end
  | _ => "not_applicable"
  end.

Section mutants.
(** Whether the mutated source could be written, and what the run of a mutant answers; [None]
    when its task failed. *)
Variable write : string -> string -> bool.
Variable answer : string -> option (GroupRun * option json).

Definition one_mutant (source function signature : string) (mutant : string * string) : option json :=
  let '(name, body) := mutant in
  if is_some_and (write name) (splice_body source signature body) then
    (fun '(run, report) => JObj [("mutant", JStr name); ("body", JStr body); ("verdict", JStr (run_one_mutant run report function))]) <$> answer name
  else Some (JObj [("mutant", JStr name); ("body", JStr body); ("verdict", JStr "not_applicable");
                   ("reason", JStr "the definition is not in the printed shape this splices")]).

(** The results in the order of the mutants, whichever run ends first. *)
Definition run_contract_mutants (scratch : bool) (source function signature : string) : json :=
  if negb scratch then mutants_not_run "could not create a scratch directory"
  else
    let results := collect_some (one_mutant source function signature) (contract_mutants signature function) in
    if existsb (fun r => negb (eq_str (field "verdict" r) "not_applicable")) results
    then JObj [("ran", JBool true); ("reason", JNull); ("mutants", JArr results)]
    else JObj [("ran", JBool false);
               ("reason", JStr "no mutant produced an ensures goal to judge: the contract has no postcondition, or no stub body parsed");
               ("mutants", JArr results)].
End mutants.

(** ** Counter-examples *)

Fixpoint nth_split (needle : string) (n : nat) (s : string) : option string :=
  match n with
  | O => Some (match split_once needle s with Some (part, _) => part | None => s end)
  | S n => split_once needle s ≫= fun '(_, rest) => nth_split needle n rest
  end.

Definition model_goal (line : string) : option string := nth_split "] " 2 line ≫= fun rest => head (split_whitespace rest).

Definition read_model (acc : list string * list string) (line : string) : list string * list string :=
  let '(with_model, without_model) := acc in
  if contains " (No Model)" line then
    (with_model, match model_goal line with Some goal => push_once without_model goal | None => without_model end)
  else if contains " (Model)" line then
    (match model_goal line with Some goal => push_once with_model goal | None => with_model end, without_model)
  else acc.

Definition parse_counter_example_models (text : string) : json :=
  let '(with_model, without_model) := fold_left read_model (bfilter (starts_with "[wp] [") (lines text)) ([], []) in
  JObj [("model_found", JBool (negb (bool_decide (with_model = []))));
        ("goals_with_model", JArr (map JStr with_model)); ("goals_without_model", JArr (map JStr without_model));
        ("note", JStr "A goal without a model is not evidence either way: the provers here often return none even for a false goal. Use run_e_acsl to look for a concrete violation.")].

(** ** The processes *)

Definition EXTERNAL_COMMAND_BUDGET : N := 60.

Section runs.
Variable lossy : string -> string.
Variable executable_in_path : string -> bool.
Variable builtin_models_header : option string.
Variable wide_alphanumeric : string -> bool.
Variable frama_c_path : string.

Abbreviation cli_args := (project_cli_args builtin_models_header).

Definition rte_flags (rte : bool) (o : ProjectLoadOptions) : list string := if rte then "-wp-rte" :: unsigned_rte_args o else [].
Definition success (code : option Z) : bool := bool_decide (code = Some 0%Z).
Definition capped_lossy_string (bytes : string) (max_bytes : nat) : string * bool :=
  (lossy (take_str max_bytes bytes), max_bytes <? String.length bytes).
Definition both_streams (stdout stderr : string) : string := lossy stdout +s+ String nl "" +s+ lossy stderr.

(** *** Printed goals *)

Definition wp_print_args (files : list string) (o : ProjectLoadOptions) (rte : bool) (function : string) : list string :=
  cli_args o ++ files ++ ["-wp"; "-wp-print"; "-wp-prover"; "none"; "-wp-fct"; function] ++ rte_flags rte o.

Definition timed_out_status : jmap := [("status", JStr "timeout"); ("timeout_seconds", jN EXTERNAL_COMMAND_BUDGET)].

(** [None] when the caller dropped the run. *)
Definition run_wp_print (files : list string) (o : ProjectLoadOptions) (rte : bool) (function : string) (run : GroupRun) : option json :=
  match files with
  | [] => Some (JObj [("status", JStr "unavailable"); ("reason", JStr "no source files available")])
  | _ =>
    match run with
    | Output code stdout stderr =>
      let blocks := parse_wp_print_blocks (lossy stdout) in
      Some (JObj [("status", JStr (if success code then "ok" else "error")); ("code", jopt jZ code);
                  ("command", jstrs (frama_c_path :: wp_print_args files o rte function)); ("block_count", jnat (length blocks));
                  ("blocks", JArr blocks); ("warnings", jstrs (wp_output_warnings (lossy stdout) (lossy stderr)));
                  ("stderr", JStr (trim (lossy stderr)))])
    | RunError error => Some (JObj [("status", JStr "error"); ("error", JStr error)])
    | Elapsed => Some (JObj timed_out_status)
    | NoResult => None
    end
  end.

(** *** Attempts under one prover *)

Record IsolatedAttempt := mkAttempt {
  ia_files : list string; ia_options : ProjectLoadOptions; ia_params : RunWpParams; ia_prover : string; ia_rte : bool;
  ia_timeout : option N; ia_par : option N; ia_cache_mode : string; ia_functions : list string;
}.

Definition isolated_attempt_command (a : IsolatedAttempt) : list string :=
  cli_args (ia_options a) ++ ia_files a
  ++ ["-wp"; "-wp-prover"; ia_prover a; "-wp-model"; unwrap_or (model (ia_params a)) default_wp_model]
  ++ rte_flags (ia_rte a) (ia_options a)
  ++ option_arg "-wp-timeout" (dec_N <$> ia_timeout a) ++ option_arg "-wp-par" (dec_N <$> ia_par a)
  ++ option_arg "-wp-steps" (dec_N <$> steps (ia_params a)) ++ option_arg "-wp-prop" (prop (ia_params a))
  ++ ["-wp-cache"; ia_cache_mode a]
  ++ match ia_functions a with [] => [] | fs => ["-wp-fct"; join "," fs] end.

Definition completed_attempt (prover : string) (code : option Z) (combined : string) (timeout : option N) : json :=
  let '(proved_goals, total_goals) := parse_proved_goals combined in
  let triage := if contains "timeout" (to_ascii_lowercase combined)
                then wp_timeout_triage "prover_timeout" true "medium" "The isolated WP prover output mentions timeout."
                       (JArr [evidence_field "output_contains" (JStr "timeout")])
                else wp_timeout_triage_none in
  JObj [("prover", JStr prover); ("success", JBool (success code)); ("exit_code", jopt jZ code);
        ("proved_goals", jopt jN proved_goals); ("total_goals", jopt jN total_goals); ("timeout_seconds", jopt jN timeout);
        ("wp_timeout_triage", triage)].

Definition command_timeout (timeout : option N) : N := unwrap_or timeout 600%N + 30.

Definition timed_out_attempt (prover : string) (timeout : option N) : json :=
  JObj [("prover", JStr prover); ("success", JBool false); ("exit_code", JNull); ("proved_goals", jN 0); ("total_goals", jN 0);
        ("timeout_seconds", jopt jN timeout);
        ("wp_timeout_triage", wp_timeout_triage "mcp_server_timeout" false "high"
           "The isolated Frama-C process exceeded the MCP-side command timeout."
           (JArr [evidence_field "command_timeout_seconds" (jN (command_timeout timeout))]))].

(** What the attempts so far gave: the first complete reading of the hypotheses, the merged
    partial ones, the messages and the rows. *)
Record Attempts := mkAttempts { complete : option (list json); partial : list json; cli_messages : list json; rows : list json }.

Definition hypotheses_in (text : string) : list json := wp_memory_model_hypotheses_in_text wide_alphanumeric text.

(** An attempt whose process could not be started ends the whole retry with its error. *)
Definition note_attempt (timeout : option N) (acc : Attempts) (attempt : string * GroupRun) : option (Attempts + string) :=
  let '(prover, run) := attempt in
  match run with
  | NoResult => None
  | RunError error => Some (inr ("failed to run isolated WP retry: " +s+ error))
  | Elapsed => Some (inl (mkAttempts (complete acc) (partial acc) (cli_messages acc) (rows acc ++ [timed_out_attempt prover timeout])))
  | Output code stdout stderr =>
    let combined := both_streams stdout stderr in
    Some (inl (mkAttempts
      (if success code then complete acc <||> Some (hypotheses_in combined) else complete acc)
      (if success code then partial acc else merge_memory_model_hypotheses (partial acc) (hypotheses_in combined))
      (cli_messages acc ++ parse_cli_messages combined)
      (rows acc ++ [completed_attempt prover code combined timeout])))
  end.

Fixpoint note_attempts (timeout : option N) (acc : Attempts) (attempts : list (string * GroupRun)) : option (Attempts + string) :=
  match attempts with
  | [] => Some (inl acc)
  | attempt :: attempts =>
    match note_attempt timeout acc attempt with
    | Some (inl acc) => note_attempts timeout acc attempts
    | other => other
    end
  end.

Definition isolated_triage (rows : list json) : json :=
  unwrap_or (find_map (fun row => row .? "wp_timeout_triage" ≫= fun triage =>
      then_some (negb (bool_decide (get_str "kind" triage = Some "none"))) triage) rows) wp_timeout_triage_none.

Definition isolated_probe (model : string) (acc : Attempts) : json :=
  let probe ran reason hypotheses :=
    JObj [("ran", JBool ran); ("reason", reason); ("read_from", JStr PROBE_READ_FROM_RETRY_OUTPUT); ("model", JStr model);
          ("hypotheses", JArr hypotheses)] in
  match complete acc with
  | Some hypotheses => probe true JNull hypotheses
  | None => probe false (JStr "no isolated Frama-C attempt completed successfully; see wp_attempts for exit_code") (partial acc)
  end.

(** *** Probes beside a run *)

(** The proof run's own provers, when it names any. *)
Definition run_provers (run : json) : string :=
  let named := (fun provers => join "," (collect_some as_str provers)) <$> (pointer ["provers"; "effective"] run ≫= as_array) in
  match opt_filter (fun provers => negb (is_empty provers)) named with
  | Some provers => provers
  | None => default_wp_provers executable_in_path
  end.

Definition smoke_args (files : list string) (o : ProjectLoadOptions) (rte : bool) (model : option string) (functions : list string)
    (run : json) (report : option string) : list string :=
  cli_args o ++ files ++ option_arg "-wp-report-json" report
  ++ ["-wp"; "-wp-smoke-tests"; "-wp-cache"; "none"; "-wp-prover"; run_provers run;
      "-wp-timeout"; dec_N (unwrap_or (pointer ["timeout_seconds"; "effective"] run ≫= as_u64) 10%N)]
  ++ option_arg "-wp-par" (dec_N <$> (pointer ["parallel"; "effective"] run ≫= as_u64))
  ++ option_arg "-wp-model" model ++ rte_flags rte o ++ flat_map (fun f => ["-wp-fct"; f]) functions.

Definition debug_code (code : option Z) : string := match code with Some z => "Some(" +s+ pretty z +s+ ")" | None => "None" end.

(** The command line of one mutant, proved as the proof run was. *)
Definition mutant_args (o : ProjectLoadOptions) (run : json) (function file report : string) : list string :=
  cli_args o ++ [file]
  ++ ["-wp"; "-wp-fct"; function; "-wp-prop"; "@ensures"; "-wp-cache"; "none"; "-wp-timeout"; "5";
      "-wp-model"; unwrap_or (get_str "model" run) default_wp_model; "-wp-prover"; run_provers run; "-wp-report-json"]
  ++ [report].

Definition run_wp_smoke_probe (files : list string) (o : ProjectLoadOptions) (rte : bool) (model : option string) (functions : list string)
    (config : json) (report_path : option string) (report : option json) (elapsed_ms : N) (run : GroupRun) : option json :=
  match files with
  | [] => Some (JObj [("ran", JBool false); ("reason", JStr "no source files available")])
  | _ =>
    let command := jstrs (frama_c_path :: smoke_args files o rte model functions config report_path) in
    match run with
    | Output code stdout stderr =>
      let probe := map_object (fun m =>
          map_insert "elapsed_ms" (jN elapsed_ms) (map_insert "parallel" (jopt jN (pointer ["parallel"; "effective"] config ≫= as_u64))
            (map_insert "provers" (JStr (run_provers config)) (map_insert "command" command (map_insert "ran" (JBool (success code))
              (map_insert "failed_detail" (jopt (fun report => JArr (parse_smoke_report report)) (report_path ≫= fun _ => report)) m))))))
        (parse_smoke_output (both_streams stdout stderr)) in
      Some (if success code then probe
            else map_object (map_insert "reason" (JStr ("frama-c exited with " +s+ debug_code code))) probe)
    | RunError error => Some (JObj [("ran", JBool false); ("reason", JStr error); ("command", command)])
    | Elapsed => Some (JObj [("ran", JBool false); ("reason", JStr ("timed out after " +s+ dec_N EXTERNAL_COMMAND_BUDGET +s+ " s")); ("command", command)])
    | NoResult => None
    end
  end.

Definition memory_model_args (files : list string) (o : ProjectLoadOptions) (rte : bool) (model : option string) (functions : list string)
    (prop : option string) : list string :=
  cli_args o ++ files ++ ["-wp"; "-wp-prover"; "none"] ++ option_arg "-wp-model" model ++ rte_flags rte o
  ++ flat_map (fun f => ["-wp-fct"; f]) functions ++ option_arg "-wp-prop" prop.

Definition MAX_PROBE_STDERR_BYTES : nat := 4096.

Definition run_wp_memory_model_probe (files : list string) (o : ProjectLoadOptions) (rte : bool) (model : option string)
    (functions : list string) (prop : option string) (run : GroupRun) : option json :=
  match files with
  | [] => Some (probe_absent "no source files available" false)
  | _ =>
    let command := jstrs (frama_c_path :: memory_model_args files o rte model functions prop) in
    match run with
    | Output code stdout stderr =>
      let hypotheses := JArr (hypotheses_in (both_streams stdout stderr)) in
      if success code then
        Some (JObj [("ran", JBool true); ("read_from", JStr PROBE_READ_FROM_SEPARATE_RUN); ("model", jopt JStr model); ("command", command);
                    ("exit_code", jopt jZ code); ("hypotheses", hypotheses)])
      else
        let '(err, err_cut) := capped_lossy_string stderr MAX_PROBE_STDERR_BYTES in
        let '(out, out_cut) := capped_lossy_string stdout MAX_PROBE_STDERR_BYTES in
        Some (JObj [("ran", JBool false); ("read_from", JStr PROBE_READ_FROM_SEPARATE_RUN);
                    ("reason", JStr ("frama-c exited " +s+ match code with Some z => pretty z | None => "on a signal" end +s+ " during the memory-model probe"));
                    ("model", jopt JStr model); ("command", command); ("exit_code", jopt jZ code);
                    ("stdout", JStr (trim out)); ("stdout_truncated", JBool out_cut); ("stderr", JStr (trim err)); ("stderr_truncated", JBool err_cut);
                    ("hypotheses", hypotheses)])
    | RunError error => Some (probe_absent ("frama-c could not be started: " +s+ error) false)
    | Elapsed => Some (probe_absent ("the memory-model probe exceeded " +s+ dec_N EXTERNAL_COMMAND_BUDGET +s+ " seconds") false)
    | NoResult => None
    end
  end.

(** *** The retry as a whole *)

Definition smoke_requested (params : RunWpParams) : bool := bool_decide (smoke params = Some true) || smoke_probe params.

Definition with_rte (rte : bool) (o : ProjectLoadOptions) : ProjectLoadOptions :=
  mkProjectLoadOptions (include_paths o) (defines o) (force_includes o) (machdep o) (compilation_database o) rte (isystem_paths o)
    (nostdinc o) (unsigned_rte_skipped o) (pointer_rte_requested o) (builtin_models o).

Record IsolatedWpRetry := mkRetry {
  rt_files : list string; rt_options : ProjectLoadOptions; rt_rte : bool; rt_functions : list string; rt_reported_functions : list string;
  rt_provers : list string; rt_params : RunWpParams; rt_scope : string;
}.

(** The answer to a command, and what the smoke probe's process answers: the path and
    content of its report, the milliseconds it took and its output. *)
Variable answer : list string -> GroupRun.
Variable smoke_answer : option string * option json * N * GroupRun.
Variable env_timeout env_par : option string.
Variable debug_str : string -> string.
Variable to_string : json -> string.
(** The receipt over the files, the configuration and the report. *)
Variable receipt : list string -> json -> json -> json.

Definition retry_config (t : IsolatedWpRetry) (timeout_ par_ : option N) : json :=
  let params := rt_params t in
  let config :=
    [("scope", JStr (rt_scope t)); ("functions", jstrs (rt_reported_functions t)); ("model", JStr (unwrap_or (model params) default_wp_model));
     ("provers", JObj [("requested", jstrs (rt_provers t)); ("effective", jstrs (rt_provers t)); ("effective_known", JBool true)]);
     ("timeout_seconds", known_entry (jopt jN (timeout params)) (jopt jN (ok_flatten (parse_wp_u32 "FRAMAC_TIMEOUT" env_timeout)))
        (jopt jN timeout_) (WpConfig.is_some timeout_));
     ("parallel", known_entry (jopt jN (par params)) (jopt jN (ok_flatten (parse_wp_u32 "FRAMAC_PAR" env_par))) (jopt jN par_) (WpConfig.is_some par_));
     ("prop", JObj [("requested", jopt JStr (prop params)); ("effective", jopt JStr (prop params)); ("effective_known", JBool (WpConfig.is_some (prop params)))]);
     ("smoke", JObj [("requested", jopt JBool (smoke params)); ("effective", JBool (smoke_requested params))]);
     ("rte", JBool (rt_rte t)); ("split_strategy", JNull)] in
  JObj (match steps params with Some n => map_insert "steps" (jN n) config | None => config end).

Definition retry_attempt (t : IsolatedWpRetry) (timeout_ par_ : option N) (cache_mode prover : string) : IsolatedAttempt :=
  mkAttempt (rt_files t) (with_rte (rt_rte t) (rt_options t)) (rt_params t) prover (rt_rte t) timeout_ par_ cache_mode (rt_functions t).

(** [None] when the caller dropped the call.  Every prover is asked, one after the other;
    the smoke probe runs when the parameters ask for it, and its fate never fails the call. *)
Definition run_isolated_wp_retries (t : IsolatedWpRetry) : option (fallible json) :=
  match effective_wp_timeout_from (rt_params t) env_timeout, effective_wp_par_from (rt_params t) env_par, effective_wp_cache debug_str (rt_params t) with
  | inr e, _, _ | inl _, inr e, _ | inl _, inl _, inr e => Some (inr e)
  | inl timeout_, inl par_, inl cache_mode =>
    let cache_mode := to_ascii_lowercase cache_mode in
    let run prover := (prover, answer (isolated_attempt_command (retry_attempt t timeout_ par_ cache_mode prover))) in
    match note_attempts timeout_ (mkAttempts None [] [] []) (map run (rt_provers t)) with
    | None => None
    | Some (inr message) => Some (inr (mkMcpError message None))
    | Some (inl acc) =>
      let config := retry_config t timeout_ par_ in
      let triage := isolated_triage (rows acc) in
      let failure_kind := JStr (wp_failure_kind_from_tasks to_string (JArr (rows acc)) triage) in
      let smoke := smoke_requested (rt_params t) in
      let response :=
        [("wp_attempts", JArr (rows acc)); ("effective_wp_config", config);
         ("frama_c_options", JObj [("mode", JStr "isolated-cli-retry"); ("files", jstrs (rt_files t)); ("smoke", JBool smoke)]);
         ("wp_timeout_triage", triage); ("failure_kind", failure_kind);
         ("proofread_report", proofread_report_with_basis [] "not_available_for_isolated_cli_retry");
         ("memory_model_probe", isolated_probe (unwrap_or (model (rt_params t)) default_wp_model) acc)] in
      let finish response :=
        let reported := JObj [("failure_kind", failure_kind); ("wp_timeout_triage", triage); ("wp_attempts", JArr (rows acc))] in
        inl (JObj (map_insert "proof_receipt" (receipt (rt_files t) config reported)
                    (map_insert "messages" (JArr (cli_messages acc)) response))) in
      if smoke then
        let '(report_path, report, elapsed_ms, run) := smoke_answer in
        (fun probe => finish (map_insert "smoke_probe" probe response))
        <$> run_wp_smoke_probe (rt_files t) (with_rte (rt_rte t) (rt_options t)) (rt_rte t) (model (rt_params t)) (rt_functions t) config
              report_path report elapsed_ms run
      else Some (finish response)
    end
  end.

(** *** Dumps and counter-examples *)

Definition why3_dump_args (files : list string) (o : ProjectLoadOptions) (rte : bool) (function out_dir : string) : list string :=
  cli_args o ++ files ++ ["-wp"; "-wp-gen"; "-wp-prover"; default_wp_provers executable_in_path; "-wp-out"; out_dir; "-wp-fct"; function]
  ++ rte_flags rte o.

Definition MAX_WHY3_DUMP_FILES : nat := 16.
Definition MAX_WHY3_DUMP_BYTES : N := 256 * 1024.

(** [dumps] is what [collect_why3_dump_files] finds in the directory afterwards. *)
Definition run_why3_dump (files : list string) (o : ProjectLoadOptions) (rte : bool) (function : string) (out_dir : option string)
    (dumps : list json * nat) (run : GroupRun) : option json :=
  match files, out_dir with
  | [], _ => Some (JObj [("status", JStr "unavailable"); ("reason", JStr "no source files available")])
  | _, None => Some (JObj [("status", JStr "error"); ("reason", JStr "could not create a temporary directory for the why3 dump")])
  | _, Some out_dir =>
    match run with
    | Output code stdout stderr =>
      Some (JObj [("status", JStr (if negb (success code) then "error" else match dumps.1 with [] => "not_found" | _ => "ok" end));
                  ("code", jopt jZ code); ("wp_out", JStr out_dir);
                  ("command", jstrs (frama_c_path :: why3_dump_args files o rte function out_dir));
                  ("file_count", jnat (length dumps.1)); ("files_omitted", jnat dumps.2); ("files", JArr dumps.1);
                  ("stdout", JStr (trim (lossy stdout))); ("stderr", JStr (trim (lossy stderr)))])
    | RunError error => Some (JObj [("status", JStr "error"); ("error", JStr error); ("wp_out", JStr out_dir)])
    | Elapsed => Some (JObj (timed_out_status ++ [("wp_out", JStr out_dir)]))
    | NoResult => None
    end
  end.

Definition counter_example_args (files : list string) (o : ProjectLoadOptions) (rte : bool) (function : string) : list string :=
  cli_args o ++ files
  ++ ["-wp"; "-wp-counter-examples"; "-wp-prover"; default_wp_provers executable_in_path; "-wp-fct"; function; "-wp-cache"; "none"; "-wp-timeout"; "10"]
  ++ rte_flags rte o.

Definition MAX_COUNTER_EXAMPLE_OUTPUT_BYTES : nat := 256 * 1024.
Definition no_output : jmap := [("raw_stdout", JNull); ("raw_stderr", JNull); ("truncated", JBool false)].

Definition run_wp_counter_examples (files : list string) (o : ProjectLoadOptions) (rte : bool) (function : string) (run : GroupRun) : option json :=
  match files with
  | [] => Some (JObj ([("status", JStr "unavailable"); ("reason", JStr "no source files available"); ("command", JArr [])] ++ no_output))
  | _ =>
    let command := jstrs (frama_c_path :: counter_example_args files o rte function) in
    match run with
    | Output code stdout stderr =>
      let '(out, out_cut) := capped_lossy_string stdout MAX_COUNTER_EXAMPLE_OUTPUT_BYTES in
      let '(err, err_cut) := capped_lossy_string stderr MAX_COUNTER_EXAMPLE_OUTPUT_BYTES in
      Some (JObj [("status", JStr (if success code then "ok" else "error")); ("code", jopt jZ code); ("command", command);
                  ("models", parse_counter_example_models out); ("raw_stdout", JStr out); ("raw_stderr", JStr err);
                  ("truncated", JBool (out_cut || err_cut))])
    | RunError error => Some (JObj ([("status", JStr "error"); ("error", JStr error); ("command", command)] ++ no_output))
    | Elapsed => Some (JObj (timed_out_status ++ [("command", command)] ++ no_output))
    | NoResult => None
    end
  end.
End runs.

(** ** Theorems *)

Lemma header_position_Some header l n : header_position header l = Some n ->
  exists pre rest, l = pre ++ header :: "{" :: rest /\ length pre = n.
Proof.
  revert n. induction l as [|a l IH]; [done|]. intros n. destruct l as [|b l]; [done|].
  cbn [header_position]. destruct ((a =s header) && (b =s "{")) eqn:E.
  - apply andb_true_iff in E as [->%String.eqb_eq ->%String.eqb_eq]. intros [= <-]. by exists [], l.
  - intros (m & Hm & ->)%fmap_Some. destruct (IH m Hm) as (pre & rest & Heq & <-). exists (a :: pre), rest. by rewrite Heq.
Qed.

Lemma header_position_first header pre rest : header ∉ pre -> header_position header (pre ++ header :: "{" :: rest) = Some (length pre).
Proof.
  induction pre as [|a pre IH]; intros Hn.
  - cbn [app header_position]. by rewrite !String.eqb_refl.
  - apply not_elem_of_cons in Hn as [Ha Hn]. specialize (IH Hn).
    destruct pre as [|b pre]; cbn [app header_position] in *; apply not_eq_sym, String.eqb_neq in Ha; rewrite Ha; cbn [andb]; by rewrite IH.
Qed.

Lemma position_of_Some line l n : position_of line l = Some n -> exists inner post, l = inner ++ line :: post /\ length inner = n /\ line ∉ inner.
Proof.
  revert n. induction l as [|a l IH]; cbn; [done|]. intros n. destruct (String.eqb_spec a line) as [->|Ha].
  - intros [= <-]. exists [], l. split_and!; [done|done|apply not_elem_of_nil].
  - intros (m & Hm & ->)%fmap_Some. destruct (IH m Hm) as (inner & post & -> & <- & Hn). exists (a :: inner), post.
    split_and!; [done|done|]. apply not_elem_of_cons. by split; [congruence|].
Qed.

Lemma position_of_first line inner post : line ∉ inner -> position_of line (inner ++ line :: post) = Some (length inner).
Proof.
  induction inner as [|a inner IH]; cbn; [by rewrite String.eqb_refl|]. intros [Ha Hn]%not_elem_of_cons.
  apply not_eq_sym, String.eqb_neq in Ha. rewrite Ha. by rewrite IH.
Qed.

Lemma splice_pieces {A} (pre : list A) h o inner c post :
  take (length pre + 1) (pre ++ h :: o :: inner ++ c :: post) = pre ++ [h]
  /\ drop (length pre + 1) (pre ++ h :: o :: inner ++ c :: post) = o :: inner ++ c :: post
  /\ drop (length pre + 1 + S (length inner) + 1) (pre ++ h :: o :: inner ++ c :: post) = post.
Proof.
  split_and!.
  - rewrite take_app_add. by cbn.
  - rewrite drop_app_add. by cbn.
  - replace (length pre + 1 + S (length inner) + 1) with (length pre + S (S (length inner + 1))) by lia.
    rewrite drop_app_add. cbn [drop]. rewrite drop_app_add. by cbn.
Qed.

(** Only the body that was asked for is replaced.  When a body is spliced in, the source
    had the signature on a line, a brace on the next and a closing brace alone on a later
    line, the first such, and the result is the same lines with the one body in their
    place; and a source of this shape, whose signature stands on no line before, is always
    spliced. *)
Theorem splice_exact source signature body (header := trim_end_char ";" (trim signature)) :
  (forall result, splice_body source signature body = Some result ->
     exists pre inner post, lines source = pre ++ header :: "{" :: inner ++ "}" :: post /\ "}" ∉ inner
       /\ result = join (String nl "") (pre ++ [header; body] ++ post) +s+ String nl "")
  /\ (forall pre inner post, lines source = pre ++ header :: "{" :: inner ++ "}" :: post -> header ∉ pre -> "}" ∉ inner ->
        splice_body source signature body = Some (join (String nl "") (pre ++ [header; body] ++ post) +s+ String nl "")).
Proof.
  unfold splice_body. fold header. split.
  - intros result. destruct (header_position header (lines source)) as [start|] eqn:Hh; [|done]. cbn [mbind option_bind].
    intros (at_ & Hp & ->)%fmap_Some. apply header_position_Some in Hh as (pre & rest & Hl & <-). rewrite Hl in Hp |- *.
    assert (Hd : drop (length pre + 1) (pre ++ header :: "{" :: rest) = "{" :: rest) by (rewrite drop_app_add; by cbn).
    rewrite Hd in Hp. cbn [position_of] in Hp. change ("{" =s "}") with false in Hp. cbn iota in Hp.
    apply fmap_Some in Hp as (n & Hn & ->). apply position_of_Some in Hn as (inner & post & -> & <- & Hin).
    exists pre, inner, post. split_and!; [done|done|]. destruct (splice_pieces pre header "{" inner "}" post) as (-> & _ & ->).
    by rewrite <- app_assoc.
  - intros pre inner post Hl Hpre Hin. rewrite Hl, header_position_first by done. cbn [mbind option_bind].
    destruct (splice_pieces pre header "{" inner "}" post) as (-> & -> & Hpost).
    cbn [position_of]. change ("{" =s "}") with false. cbn iota. rewrite position_of_first by done. cbn [fmap option_fmap option_map].
    rewrite Hpost. by rewrite <- app_assoc.
Qed.

(** ** The attempts of a retry *)

Section attempt_theorems.
Context (lossy : string -> string) (wide_alphanumeric : string -> bool).
Abbreviation reading run_out run_err := (hypotheses_in wide_alphanumeric (both_streams lossy run_out run_err)).

Definition attempt_row (timeout : option N) (attempt : string * GroupRun) : list json :=
  match attempt with
  | (prover, Output code out err) => [completed_attempt prover code (both_streams lossy out err) timeout]
  | (prover, Elapsed) => [timed_out_attempt prover timeout]
  | _ => []
  end.
Definition complete_reading (attempt : string * GroupRun) : option (list json) :=
  match attempt.2 with Output code out err => then_some (success code) (reading out err) | _ => None end.
Definition partial_reading (attempt : string * GroupRun) : option (list json) :=
  match attempt.2 with Output code out err => then_some (negb (success code)) (reading out err) | _ => None end.
Definition attempt_messages (attempt : string * GroupRun) : list json :=
  match attempt.2 with Output _ out err => parse_cli_messages (both_streams lossy out err) | _ => [] end.

Definition no_attempts : Attempts := mkAttempts None [] [] [].

Lemma one_row_each timeout attempts :
  Forall (fun a => (exists code out err, a.2 = Output code out err) \/ a.2 = Elapsed) attempts ->
  length (flat_map (attempt_row timeout) attempts) = length attempts.
Proof.
  induction 1 as [|[p run] attempts Hrun _ IH]; [done|]. cbn. rewrite length_app, IH.
  by destruct Hrun as [(code & out & err & Ho)|Ho]; cbn in Ho; rewrite Ho.
Qed.

Lemma note_attempts_exact timeout attempts acc :
  match note_attempts lossy wide_alphanumeric timeout acc attempts with
  | Some (inl acc') =>
    rows acc' = rows acc ++ flat_map (attempt_row timeout) attempts
    /\ complete acc' = (complete acc <||> find_map complete_reading attempts)
    /\ partial acc' = fold_left merge_memory_model_hypotheses (collect_some partial_reading attempts) (partial acc)
    /\ cli_messages acc' = cli_messages acc ++ flat_map attempt_messages attempts
    /\ Forall (fun a => (exists code out err, a.2 = Output code out err) \/ a.2 = Elapsed) attempts
  | Some (inr e) => exists prover error, (prover, RunError error) ∈ attempts /\ e = "failed to run isolated WP retry: " +s+ error
  | None => exists prover, (prover, NoResult) ∈ attempts
  end.
Proof.
  revert acc. induction attempts as [|[prover run] attempts IH]; intros acc; cbn [note_attempts].
  - cbn. rewrite !app_nil_r. split_and!; [done|by destruct (complete acc)|done|done|constructor].
  - unfold note_attempt. destruct run as [code out err|error| |]; [|exists prover, error; split; [left|done]| |exists prover; left].
    + match goal with |- context [note_attempts _ _ _ ?a attempts] => specialize (IH a) end. cbn [rows complete partial cli_messages] in IH.
      destruct (note_attempts _ _ _ _ attempts) as [[acc'|e]|].
      * destruct IH as (-> & -> & -> & -> & Hall). rewrite <- !app_assoc. unfold complete_reading, partial_reading. cbn.
        split_and!; [done| | |done|constructor; [left; by exists code, out, err|done]]; unfold complete_reading, partial_reading; cbn;
          destruct (success code); cbn; try done; by destruct (complete acc).
      * destruct IH as (p & error & Hin & ->). exists p, error. split; [by right|done].
      * destruct IH as (p & Hin). exists p. by right.
    + match goal with |- context [note_attempts _ _ _ ?a attempts] => specialize (IH a) end. cbn [rows complete partial cli_messages] in IH.
      destruct (note_attempts _ _ _ _ attempts) as [[acc'|e]|].
      * destruct IH as (-> & -> & -> & -> & Hall). rewrite <- !app_assoc. cbn. split_and!; [done|done|done|done|constructor; [by right|done]].
      * destruct IH as (p & error & Hin & ->). exists p, error. split; [by right|done].
      * destruct IH as (p & Hin). exists p. by right.
Qed.

(** The attempts under each prover are put together without loss.  There is a row for
    every attempt, in order, and the messages of each; the hypotheses are those of the
    first attempt that exited cleanly, which read the whole program, and only when there
    is none the merge of what the failing ones printed; the probe says it ran exactly when
    there was one; and the retry as a whole fails only when a process could not be run. *)
Theorem attempts_exact model timeout attempts :
  match note_attempts lossy wide_alphanumeric timeout no_attempts attempts with
  | Some (inl acc) =>
    rows acc = flat_map (attempt_row timeout) attempts /\ length (rows acc) = length attempts
    /\ cli_messages acc = flat_map attempt_messages attempts
    /\ (get_bool "ran" (isolated_probe model acc) = Some true <-> exists a, a ∈ attempts /\ is_some (complete_reading a) = true)
    /\ get_arr "hypotheses" (isolated_probe model acc)
       = Some (match find_map complete_reading attempts with
               | Some hypotheses => hypotheses
               | None => fold_left merge_memory_model_hypotheses (collect_some partial_reading attempts) []
               end)
  | Some (inr e) => exists prover error, (prover, RunError error) ∈ attempts /\ e = "failed to run isolated WP retry: " +s+ error
  | None => exists prover, (prover, NoResult) ∈ attempts
  end.
Proof.
  pose proof (note_attempts_exact timeout attempts no_attempts) as H. destruct (note_attempts _ _ _ _ _) as [[acc|e]|]; [|done|done].
  destruct H as (Hrows & Hc & Hp & Hm & Hall). cbn in Hrows, Hc, Hp, Hm. split_and!; [done| |done| |].
  - rewrite Hrows. by apply one_row_each.
  - unfold isolated_probe. rewrite Hc. unfold get_bool. destruct (find_map complete_reading attempts) as [hs|] eqn:Hf; cbn.
    + split; [intros _|done]. apply find_map_Some in Hf as (a & Ha & Hr). exists a. by rewrite Hr.
    + split; [done|]. intros (a & Ha & Hr). rewrite find_map_None in Hf. by rewrite (Hf a Ha) in Hr.
  - unfold isolated_probe. rewrite Hc. unfold get_arr. destruct (find_map complete_reading attempts); cbn; by rewrite ?Hp.
Qed.
End attempt_theorems.

(** ** The retry *)

Section retry_theorems.
Context (lossy : string -> string) (executable_in_path : string -> bool) (builtin_models_header : option string)
  (wide_alphanumeric : string -> bool) (frama_c_path : string) (answer : list string -> GroupRun)
  (smoke_answer : option string * option json * N * GroupRun) (env_timeout env_par : option string)
  (debug_str : string -> string) (to_string : json -> string) (receipt : list string -> json -> json -> json).

Definition asked (t : IsolatedWpRetry) (timeout_ par_ : option N) (cache_mode prover : string) : string * GroupRun :=
  (prover, answer (isolated_attempt_command builtin_models_header (retry_attempt t timeout_ par_ cache_mode prover))).

Abbreviation retry := (run_isolated_wp_retries lossy executable_in_path builtin_models_header wide_alphanumeric frama_c_path
                     answer smoke_answer env_timeout env_par debug_str to_string receipt).

Lemma smoke_probe_dropped files o rte model functions config path report elapsed run :
  run_wp_smoke_probe lossy executable_in_path builtin_models_header frama_c_path files o rte model functions config path report elapsed run = None ->
  run = NoResult.
Proof. unfold run_wp_smoke_probe. by destruct files, run. Qed.

(** A retry answers for every prover, with what it gave to each.  The response has one
    attempt for each prover, in order, read off the answer to the command built for it,
    and the timeout and parallelism it reports as effective are those the commands carry;
    there is a smoke probe exactly when one was asked for.  The call is refused only for
    a timeout, parallelism or cache mode that is no value, or when a process could not be
    run; and it gives no answer only when a process was dropped. *)
Theorem retry_exact t :
  match retry t with
  | Some (inl response) =>
    exists timeout_ par_ cache,
      effective_wp_timeout_from (rt_params t) env_timeout = inl timeout_ /\ effective_wp_par_from (rt_params t) env_par = inl par_
      /\ effective_wp_cache debug_str (rt_params t) = inl cache
      /\ (let runs := map (asked t timeout_ par_ (to_ascii_lowercase cache)) (rt_provers t) in
          get_arr "wp_attempts" response = Some (flat_map (attempt_row lossy timeout_) runs)
          /\ length (flat_map (attempt_row lossy timeout_) runs) = length (rt_provers t))
      /\ pointer ["effective_wp_config"; "timeout_seconds"; "effective"] response = Some (jopt jN timeout_)
      /\ pointer ["effective_wp_config"; "parallel"; "effective"] response = Some (jopt jN par_)
      /\ (response .? "smoke_probe" <> None <-> smoke_requested (rt_params t) = true)
  | Some (inr e) =>
    effective_wp_timeout_from (rt_params t) env_timeout = inr e \/ effective_wp_par_from (rt_params t) env_par = inr e
    \/ effective_wp_cache debug_str (rt_params t) = inr e
    \/ exists command error, answer command = RunError error /\ e = mkMcpError ("failed to run isolated WP retry: " +s+ error) None
  | None => (exists command, answer command = NoResult) \/ smoke_answer.2 = NoResult
  end.
Proof.
  unfold run_isolated_wp_retries. destruct (effective_wp_timeout_from _ _) as [timeout_|e] eqn:Ht; [|by left].
  destruct (effective_wp_par_from _ _) as [par_|e] eqn:Hp; [|by right; left].
  destruct (effective_wp_cache _ _) as [cache|e] eqn:Hc; [|by right; right; left].
  pose proof (note_attempts_exact lossy wide_alphanumeric timeout_ (map (asked t timeout_ par_ (to_ascii_lowercase cache)) (rt_provers t)) no_attempts) as H.
  unfold no_attempts, asked in H. cbv zeta.
  destruct (note_attempts _ _ _ _ _) as [[acc|message]|].
  - destruct H as (Hrows & _ & _ & _ & Hall). cbn [rows app] in Hrows.
    assert (Hlen : length (rows acc) = length (rt_provers t)).
    { rewrite Hrows. rewrite <- (length_map (asked t timeout_ par_ (to_ascii_lowercase cache)) (rt_provers t)).
      by apply one_row_each. }
    destruct (smoke_requested (rt_params t)) eqn:Hs.
    + destruct smoke_answer as [[[path report] elapsed] run] eqn:Ha. cbn [snd].
      destruct (run_wp_smoke_probe _ _ _ _ _ _ _ _ _ _ _ _ _ _) as [probe|] eqn:Hprobe; [|right; by apply smoke_probe_dropped in Hprobe].
      cbn [fmap option_fmap option_map]. exists timeout_, par_, cache. unfold asked. rewrite <- Hrows.
      split_and!; [done|done|done|done|done| | |split; [done|intros _; discriminate]]; unfold retry_config; by destruct (steps _).
    + exists timeout_, par_, cache. unfold asked. rewrite <- Hrows.
      split_and!; [done|done|done|done|done| | |split; [intros []; reflexivity|done]]; unfold retry_config; by destruct (steps _).
  - destruct H as (prover & error & Hin & ->). right; right; right.
    apply list_elem_of_fmap in Hin as (p & [= -> Hrun] & _). by exists (isolated_attempt_command builtin_models_header (retry_attempt t timeout_ par_ (to_ascii_lowercase cache) p)), error.
  - destruct H as (prover & Hin). left. apply list_elem_of_fmap in Hin as (p & [= _ Hrun] & _). by eexists.
Qed.
End retry_theorems.

(** An attempt is triaged by a word of its output.  When the text has [timeout] in it
    anywhere, in the name of a goal or a file, the attempt is triaged as a prover that ran
    out of time and a longer timeout is advised, whatever was proved; and the triage of
    the whole retry is then this one. *)
Theorem name_read_as_timeout prover code combined timeout before after :
  contains "timeout" (to_ascii_lowercase combined) = true ->
  let row := completed_attempt prover code combined timeout in
  isolated_triage (map (fun p => timed_out_attempt p timeout) before ++ row :: after) = isolated_triage (map (fun p => timed_out_attempt p timeout) before ++ [row])
  /\ get_str "kind" (isolated_triage [row]) = Some "prover_timeout"
  /\ get_bool "retry_with_higher_prover_timeout" (isolated_triage [row]) = Some true
  /\ (row .? "proved_goals", row .? "total_goals") = (Some (jopt jN (parse_proved_goals combined).1), Some (jopt jN (parse_proved_goals combined).2)).
Proof.
  intros Ht row. unfold row, completed_attempt. rewrite Ht. destruct (parse_proved_goals combined) as [p t].
  split_and!; [|reflexivity|reflexivity|reflexivity].
  unfold isolated_triage. f_equal. induction before as [|q before IH]; [reflexivity|reflexivity].
Qed.

Lemma name_read_as_timeout_witness :
  let row := completed_attempt "alt-ergo" (Some 0%Z) "[wp] Proved goals: 1 / 1 (typed_set_timeout_ensures)" None in
  get_str "kind" (isolated_triage [row]) = Some "prover_timeout" /\ row .? "proved_goals" = Some (jN 1).
Proof.
  destruct (name_read_as_timeout "alt-ergo" (Some 0%Z) "[wp] Proved goals: 1 / 1 (typed_set_timeout_ensures)" None [] []) as (_ & Hk & _).
  - by vm_compute.
  - split; [exact Hk|by vm_compute].
Defined.
