(* ===== verification/ParseSurface.v ===== *)
(** * Which files parse, and what stops the rest (src/src/mcp/project.rs)

    What one Frama-C front end printed about one file, read as one cause, and the report
    over the files of a call.  Whether a path is a file and what its probe answers are
    arguments, and so is the order in which the probes finish. *)

From S2P Require Import Prelude RustStr BTree Json Verdicts StableId Conclusions Receipt WpMessages Coverage Errors Proc WpConfig WpCli CompileDb.
Local Open Scope nat_scope.

(** ** The cause of one failure *)

Record ParseBlock := mkBlock { cause : string; subject : option string; message : string }.
Inductive ParseProbe := Parsed | Blocked (block : ParseBlock).

Fixpoint skip_while {A} (f : A -> bool) (l : list A) : list A :=
  match l with a :: l' => if f a then skip_while f l' else l | [] => [] end.
Fixpoint take_until {A} (f : A -> bool) (l : list A) : list A :=
  match l with a :: l' => if f a then a :: take_until f l' else [] | [] => [] end.

Definition error_line (line : string) : bool :=
  let lower := to_ascii_lowercase line in contains "user error" lower || contains "error:" lower.
Definition starts_with_whitespace (line : string) : bool := is_some_and (fun _ => true) (ws_char line).
Definition continuation_line (line : string) : bool := starts_with_whitespace line && negb (is_empty (trim line)).

Definition MAX_BODY_LINES : nat := 4.

Definition unclassified_message (output : string) : string :=
  match skip_while (fun line => negb (error_line line)) (lines output) with
  | [] => ""
  | head :: lines => join " " (map trim (head :: take MAX_BODY_LINES (take_until continuation_line lines)))
  end.

Definition includes_header (line header : string) : bool :=
  match split_once "#" line with
  | None => false
  | Some (_, rest) => starts_with "include" (trim_start rest) && contains header line
  end.

Section causes.
Variable wide_alphanumeric : string -> bool.

(** The characters of an identifier, each a byte and the continuation bytes after it. *)
Fixpoint take_identifier (fuel : nat) (s : string) : string :=
  match fuel, s with
  | S fuel, String c rest =>
    let char := String c (take_while is_continuation rest) in
    if char_alphanumeric wide_alphanumeric char || (char =s "_")
    then char +s+ take_identifier fuel (skip (String.length char) s) else ""
  | _, _ => ""
  end.

Definition undeclared_name (line : string) : option string :=
  split_once "Cannot resolve variable " line ≫= fun '(_, rest) =>
  let name := take_identifier (String.length rest) rest in then_some (negb (is_empty name)) name.

Definition missing_header (line : string) (following : list string) : option string :=
  missing_header_name line
  <||> opt_filter (fun header => existsb (fun line => includes_header line header) (take 2 following)) (missing_extensionless_name line).

Definition line_cause (line : string) (following : list string) : option ParseBlock :=
  match missing_header line following with
  | Some header => Some (mkBlock "header_not_found" (Some header) (trim line))
  | None => (fun name => mkBlock "undeclared_name" (Some name) (trim line)) <$> undeclared_name line
  end.

Fixpoint first_cause (lines : list string) : option ParseBlock :=
  match lines with [] => None | line :: following => line_cause line following <||> first_cause following end.

Definition classify_parse_failure (output : string) : ParseBlock :=
  unwrap_or (first_cause (lines output)) (mkBlock "other" None (unclassified_message output)).

(** ** One probe *)

Definition PARSE_PROBE_BUDGET : N := 120.

Definition probe_args (args : list string) (file : string) : list string := args ++ ["-no-autoload-plugins"; file].

Variable lossy : string -> string.
Variable is_file : string -> bool.
(** What the command line answers; a run here is never dropped by its caller. *)
Variable answer : list string -> GroupRun.

Definition probe_parse (program : string) (args : list string) (file : string) : ParseProbe :=
  if negb (is_file file) then Blocked (mkBlock "missing_file" None (file +s+ " is not a file"))
  else
    match answer (probe_args args file) with
    | Output code stdout stderr => if success code then Parsed else Blocked (classify_parse_failure (both_streams lossy stdout stderr))
    | RunError e => Blocked (mkBlock "probe_failed" None ("could not run " +s+ program +s+ ": " +s+ e))
    | Elapsed | NoResult => Blocked (mkBlock "timeout" None ("the parse did not finish in " +s+ dec_N PARSE_PROBE_BUDGET +s+ "s"))
    end.
End causes.

(** ** The report *)

Definition CauseKey : Type := string * string.
Definition key_before (a b : CauseKey) : bool := if a.1 =s b.1 then String.leb a.2 b.2 else String.leb a.1 b.1.

Definition add_to (key : CauseKey) (file : string) (entry : CauseKey * list string) : CauseKey * list string :=
  (entry.1, if bool_decide (entry.1 = key) then entry.2 ++ [file] else entry.2).
Definition has_key (key : CauseKey) (entry : CauseKey * list string) : bool := bool_decide (entry.1 = key).

(** The map from a cause and a subject to its files, in key order. *)
Definition push_cause (key : CauseKey) (file : string) (causes : list (CauseKey * list string)) : list (CauseKey * list string) :=
  if existsb (has_key key) causes then map (add_to key file) causes
  else insert_sorted (fun a b => key_before a.1 b.1) (key, [file]) causes.

Definition block_key (block : ParseBlock) : CauseKey := (cause block, unwrap_or (subject block) "").
Definition note_probe (causes : list (CauseKey * list string)) (probed : string * ParseProbe) : list (CauseKey * list string) :=
  match probed with (file, Blocked block) => push_cause (block_key block) file causes | _ => causes end.

Definition cause_row (entry : CauseKey * list string) : json :=
  let '((cause, subject), files) := entry in
  JObj [("cause", JStr cause); ("subject", jopt JStr (then_some (negb (is_empty subject)) subject));
        ("files", jnat (length files)); ("example", jopt JStr (head files))].

(** [Option::cmp]: nothing comes before any value. *)
Definition files_rank (row : json) : N := match get_u64 "files" row with Some n => n + 1 | None => 0 end.
Definition row_le (a b : json) : bool :=
  if (files_rank a =? files_rank b)%N then opt_leb (get_str "subject" a) (get_str "subject" b) else (files_rank b <? files_rank a)%N.

Definition surface_reason (cause subject : string) (count : N) : string :=
  let count := dec_N count in
  if cause =s "header_not_found" then
    subject +s+ " was not found on the include path and blocks " +s+ count
    +s+ " of these files. Two different things look like this. If it belongs to this project, the include path is short an entry and no stub is called for. If it is a system header Frama-C's libc does not model, writing one that declares only what this tree calls does not model it either: the analysis would reason about bodies that do not exist, and a proof resting on that is worth less than no proof. Check which it is before writing anything."
  else if cause =s "undeclared_name" then
    subject +s+ " is declared nowhere the analyzer can see and blocks " +s+ count
    +s+ " of these files. This is the case a stub answers honestly: declare it as the platform declares it, with the same type."
  else if cause =s "timeout" then
    count +s+ " of these files did not finish parsing. That is a front end problem rather than a missing declaration; read one of them directly."
  else if cause =s "missing_file" then
    count +s+ " of these paths are not files. Nothing was measured for them, so they are not evidence either way about what parses; check how the list was built."
  else
    "The largest group is " +s+ cause +s+ ", blocking " +s+ count +s+ " of these files. Its message is in the per-file list, which detail: "
    +s+ dq +s+ "full" +s+ dq +s+ " returns; read it before deciding what it is.".

Definition surface_action (reason : string) (blockers : list json) (confidence : string) : json :=
  JObj [("tool", JNull); ("args", JObj []); ("reason", JStr reason); ("blockers", JArr blockers); ("confidence", JStr confidence)].

Definition parse_surface_next_action (blocked_by : list json) : json :=
  match blocked_by with
  | [] => surface_action "Every file parsed under these flags." [] "high"
  | top :: _ =>
    let cause := unwrap_or (get_str "cause" top) "other" in
    surface_action (surface_reason cause (unwrap_or (get_str "subject" top) "") (unwrap_or (get_u64 "files" top) 0%N)) [JStr cause] "medium"
  end.

Definition is_parsed (probed : string * ParseProbe) : bool := match probed.2 with Parsed => true | Blocked _ => false end.

Definition file_row (probed : string * ParseProbe) : json :=
  match probed with
  | (file, Parsed) => JObj [("file", JStr file); ("parses", JBool true)]
  | (file, Blocked block) =>
    JObj [("file", JStr file); ("parses", JBool false); ("cause", JStr (cause block)); ("subject", jopt JStr (subject block));
          ("message", JStr (message block))]
  end.

Definition parse_surface_payload (probed : list (string * ParseProbe)) (full : bool) : json :=
  let blocked_by := sort_by row_le (map cause_row (fold_left note_probe probed [])) in
  let parsed := count_if is_parsed probed in
  JObj ([("files_total", jnat (length probed)); ("files_parsed", jnat parsed); ("files_blocked", jnat (length probed - parsed));
         ("blocked_by", JArr blocked_by); ("next_action", parse_surface_next_action blocked_by)]
        ++ if full then [("files", JArr (map file_row probed))] else []).

(** ** The call *)

Record ParseSurfaceParams := mkSurface {
  ps_files : option (list string); ps_include_paths : option (list string); ps_defines : option (list string);
  ps_force_includes : option (list string); ps_isystem_paths : option (list string); ps_nostdinc : option bool;
  ps_machdep : option string; ps_detail : option Detail;
}.

Definition surface_options (p : ParseSurfaceParams) : ProjectLoadOptions :=
  mkProjectLoadOptions (unwrap_or (ps_include_paths p) []) (unwrap_or (ps_defines p) []) (unwrap_or (ps_force_includes p) []) (ps_machdep p)
    None false (unwrap_or (ps_isystem_paths p) []) (unwrap_or (ps_nostdinc p) false) false false None.

Definition Finished : Type := nat * (string * ParseProbe).
Definition index_le (a b : Finished) : bool := a.1 <=? b.1.

(** [finished] is the order in which the probes of the files end, each with its place;
    [inr] when a task did not finish, and then the whole call fails. *)
Definition parse_surface (probe : list string -> string -> ParseProbe) (finish : list Finished -> list Finished + string)
    (p : ParseSurfaceParams) : fallible json :=
  match unwrap_or (ps_files p) [] with
  | [] => inr (refuse_params ("files must name at least one C source. Expand the set in the shell, as in git ls-files " +s+ dq +s+ "src/*.c" +s+ dq
                              +s+ ", so which files were measured stays visible."))
  | files =>
    match validate_project_options (surface_options p) with
    | Some e => inr e
    | None =>
      let args := project_cli_args None (surface_options p) in
      match finish (imap (fun index file => (index, (file, probe args file)) : Finished) files) with
      | inr e => inr (mkMcpError ("parse probe did not finish: " +s+ e) None)
      | inl results => inl (parse_surface_payload (map snd (sort_by index_le results)) match ps_detail p with Some Full => true | _ => false end)
      end
    end
  end.

(** ** Theorems *)

Definition blocked_on (key : CauseKey) (probed : string * ParseProbe) : option string :=
  match probed with (file, Blocked block) => then_some (bool_decide (block_key block = key)) file | _ => None end.
Definition blocked_files (key : CauseKey) (probed : list (string * ParseProbe)) : list string := collect_some (blocked_on key) probed.

Definition total_files (causes : list (CauseKey * list string)) : nat := sum_list_with (fun entry => length entry.2) causes.

(** The causes are exactly the files blocked on each. *)
Record accounts (causes : list (CauseKey * list string)) (probed : list (string * ParseProbe)) : Prop := {
  acc_keys : NoDup causes.*1;
  acc_files : forall key files, (key, files) ∈ causes <-> files <> [] /\ files = blocked_files key probed;
  acc_total : total_files causes = count_if (fun p => negb (is_parsed p)) probed;
}.

Lemma push_present key causes : existsb (has_key key) causes = true <-> key ∈ causes.*1.
Proof.
  rewrite existsb_true, list_elem_of_fmap. split.
  - intros ([k fs] & Hin & Hk%bool_decide_eq_true). cbn in Hk. subst k. by exists (key, fs).
  - intros ([k fs] & -> & Hin). exists (k, fs). split; [done|]. unfold has_key. by rewrite bool_decide_eq_true.
Qed.

Lemma push_absent key causes : existsb (has_key key) causes = false <-> key ∉ causes.*1.
Proof. rewrite <- push_present. by destruct (existsb _ _). Qed.

Lemma keys_of_add key file causes : (map (add_to key file) causes).*1 = causes.*1.
Proof. rewrite <- list_fmap_compose. by apply list_fmap_ext. Qed.

Lemma add_absent key file causes : key ∉ causes.*1 -> map (add_to key file) causes = causes.
Proof.
  induction causes as [|[k fs] causes IH]; [done|]. cbn. intros [Hne Hl]%not_elem_of_cons. rewrite IH by done.
  unfold add_to. cbn. by rewrite bool_decide_eq_false_2 by congruence.
Qed.

Lemma blocked_files_snoc key probed p : blocked_files key (probed ++ [p]) = blocked_files key probed ++ option_list (blocked_on key p).
Proof. unfold blocked_files. induction probed as [|q probed IH]; cbn; [by destruct (blocked_on key p)|]. rewrite IH. by destruct (blocked_on key q). Qed.

Lemma total_files_push key file causes : NoDup causes.*1 -> total_files (push_cause key file causes) = S (total_files causes).
Proof.
  intros Hnd. unfold push_cause. destruct (existsb _ _) eqn:E; [|unfold total_files; by rewrite insert_sorted_perm].
  apply push_present in E. unfold total_files. induction causes as [|[k fs] causes IH]; [by apply elem_of_nil in E|].
  cbn in Hnd |- *. apply NoDup_cons in Hnd as [Hk Hnd]. case_bool_decide as Hkey.
  - subst k. rewrite length_app, add_absent by done. cbn. lia.
  - cbn in E. apply elem_of_cons in E as [->|E]; [done|]. rewrite IH by done. lia.
Qed.

Lemma accounts_push causes probed file block : accounts causes probed ->
  accounts (push_cause (block_key block) file causes) (probed ++ [(file, Blocked block)]).
Proof.
  intros [Hk Hf Ht]. set (key := block_key block).
  assert (Hown : forall k, blocked_files k (probed ++ [(file, Blocked block)]) = blocked_files k probed ++ if bool_decide (k = key) then [file] else []).
  { intros k. rewrite blocked_files_snoc. cbn. fold key. case_bool_decide as E1; case_bool_decide as E2; try done; congruence. }
  constructor.
  - unfold push_cause. destruct (existsb _ _) eqn:E; [by rewrite keys_of_add|]. rewrite insert_sorted_perm. cbn.
    apply NoDup_cons. split; [by apply push_absent|done].
  - intros k files. rewrite Hown. unfold push_cause. destruct (existsb _ _) eqn:E.
    + rewrite list_elem_of_fmap. split.
      * intros ([k' fs] & [= -> ->] & [Hne ->]%Hf). cbn. case_bool_decide; rewrite ?app_nil_r; split; try done. by destruct (blocked_files _ _).
      * intros [Hne ->]. apply push_present in E. apply list_elem_of_fmap in E as ([k0 fs0] & Hk0 & Hin0). cbn in Hk0. subst k0.
        exists (k, blocked_files k probed). split; [unfold add_to; cbn; case_bool_decide; by rewrite ?app_nil_r|].
        case_bool_decide as Hkk; [subst k; by apply Hf in Hin0 as Hin'; destruct Hin' as [_ <-]|]. rewrite app_nil_r in Hne. by apply Hf.
    + apply push_absent in E. rewrite insert_sorted_perm, elem_of_cons. assert (Hnone : blocked_files key probed = []).
      { destruct (blocked_files key probed) as [|f fs] eqn:Eb; [done|]. destruct E. apply list_elem_of_fmap. exists (key, f :: fs). split; [done|].
        apply Hf. by rewrite Eb. }
      case_bool_decide as Hkk.
      * subst k. rewrite Hnone. split; [intros [[= ->]|[Hne Hfs]%Hf]; [done|congruence]|intros [_ ->]; by left].
      * rewrite app_nil_r, Hf. split; [intros [[= -> _]|?]; done|by right].
  - rewrite total_files_push, Ht by done. unfold count_if. rewrite bfilter_app, length_app. cbn. lia.
Qed.

Lemma fold_accounts probed : accounts (fold_left note_probe probed []) probed.
Proof.
  induction probed as [|[file [|block]] probed IH] using rev_ind.
  - constructor; [constructor| |done]. intros key files. split; [by intros ?%elem_of_nil|by intros [? ->]].
  - rewrite fold_left_app. cbn [fold_left note_probe]. destruct IH as [Hk Hf Ht]. constructor; [done| |].
    + intros key files. by rewrite blocked_files_snoc, app_nil_r.
    + rewrite Ht. unfold count_if. rewrite bfilter_app, length_app. cbn. lia.
  - rewrite fold_left_app. by apply accounts_push.
Qed.

Lemma row_le_total a b : row_le a b = true \/ row_le b a = true.
Proof.
  unfold row_le. rewrite (N.eqb_sym (files_rank b)). destruct (N.eqb_spec (files_rank a) (files_rank b)); [apply opt_leb_total|].
  rewrite !N.ltb_lt. lia.
Qed.

Lemma row_le_trans a b c : row_le a b = true -> row_le b c = true -> row_le a c = true.
Proof.
  unfold row_le. destruct (N.eqb_spec (files_rank a) (files_rank b)), (N.eqb_spec (files_rank b) (files_rank c)), (N.eqb_spec (files_rank a) (files_rank c));
    rewrite ?N.ltb_lt; try lia. apply opt_leb_trans.
Qed.

Lemma StronglySorted_weaken {A} (R R' : A -> A -> Prop) l : (forall a b, R a b -> R' a b) -> StronglySorted R l -> StronglySorted R' l.
Proof. intros H. induction 1 as [|a l _ IH Ha]; constructor; [done|]. eapply Forall_impl; [exact Ha|]. auto. Qed.

Lemma parsed_or_blocked probed : count_if is_parsed probed + count_if (fun p => negb (is_parsed p)) probed = length probed.
Proof. unfold count_if. induction probed as [|p probed IH]; cbn; [done|]. destruct (is_parsed p); cbn; lia. Qed.

(** The report accounts for every file of the call.  The files that parsed and those
    that did not add up to the files asked about; each row of the causes stands for the
    files blocked on its cause and subject, all of them and at least one, no two rows are
    for the same, and their counts add up to the files blocked; the rows stand in the
    order of these counts, the largest first; and the full report has a row for each file
    in the caller's order. *)
Theorem surface_accounts probed full (report := parse_surface_payload probed full) :
  (exists causes rows,
     get_arr "blocked_by" report = Some rows /\ rows ≡ₚ map cause_row causes
     /\ StronglySorted (fun a b => (files_rank b <= files_rank a)%N) rows
     /\ NoDup causes.*1
     /\ (forall key files, (key, files) ∈ causes <-> files <> [] /\ files = blocked_files key probed)
     /\ get_u64 "files_blocked" report = Some (N.of_nat (total_files causes)))
  /\ get_u64 "files_total" report = Some (N.of_nat (length probed))
  /\ get_u64 "files_parsed" report = Some (N.of_nat (count_if is_parsed probed))
  /\ get_arr "files" report = then_some full (map file_row probed).
Proof.
  pose proof (fold_accounts probed) as [Hk Hf Ht]. pose proof (parsed_or_blocked probed) as Hsum. split_and!.
  - exists (fold_left note_probe probed []), (sort_by row_le (map cause_row (fold_left note_probe probed []))).
    split_and!; [reflexivity|apply sort_by_perm| |done|done|].
    + eapply StronglySorted_weaken; [|apply (sort_by_StronglySorted row_le); [apply row_le_total|apply row_le_trans]].
      intros a b. unfold in_order, row_le. destruct (N.eqb_spec (files_rank a) (files_rank b)); [lia|rewrite N.ltb_lt; lia].
    + rewrite Ht. replace (count_if (fun p => negb (is_parsed p)) probed) with (length probed - count_if is_parsed probed) by lia.
      unfold report, parse_surface_payload, get_u64. destruct full; apply as_u64_jnat.
  - unfold report, parse_surface_payload, get_u64. destruct full; apply as_u64_jnat.
  - unfold report, parse_surface_payload, get_u64. destruct full; apply as_u64_jnat.
  - unfold report, parse_surface_payload, get_arr. by destruct full.
Qed.

Lemma imap_in_order {A B} (f : A -> B) (l : list A) : forall k,
  StronglySorted (fun a b : nat * B => a.1 < b.1) (imap (fun i a => (k + i, f a)) l) /\ Forall (fun e => k <= e.1) (imap (fun i a => (k + i, f a)) l).
Proof.
  induction l as [|a l IH]; intros k; cbn; [split; constructor|].
  assert (Hs : imap ((fun i a => (k + i, f a)) ∘ S) l = imap (fun i a => (S k + i, f a)) l) by (apply imap_ext; intros; cbn; f_equal; lia).
  rewrite Hs. destruct (IH (S k)) as [Hsort Hall]. split; constructor; try done.
  - eapply Forall_impl; [exact Hall|]. cbn. lia.
  - cbn. lia.
  - eapply Forall_impl; [exact Hall|]. cbn. lia.
Qed.

Lemma index_sort l l' : StronglySorted (fun a b : Finished => a.1 < b.1) l -> l' ≡ₚ l -> sort_by index_le l' = l.
Proof.
  intros Hl Hp. apply (StronglySorted_unique_strong (in_order index_le)).
  - intros x y Hx Hy Hxy Hyx. unfold in_order, index_le in *. rewrite Nat.leb_le in Hxy, Hyx.
    rewrite (sort_by_perm index_le l'), Hp in Hx. clear Hp. induction Hl as [|a l _ IH Ha]; [by apply elem_of_nil in Hy|].
    rewrite Forall_forall in Ha. apply elem_of_cons in Hx as [->|Hx], Hy as [->|Hy]; [done| | |by apply IH].
    + specialize (Ha _ Hy). lia.
    + specialize (Ha _ Hx). lia.
  - apply sort_by_StronglySorted; unfold index_le; [intros a b; destruct (Nat.leb_spec a.1 b.1), (Nat.leb_spec b.1 a.1); auto; lia|intros a b c; rewrite !Nat.leb_le; lia].
  - eapply StronglySorted_weaken; [|exact Hl]. intros a b Hab. cbv beta in Hab. unfold in_order, index_le. apply Nat.leb_le. lia.
  - by rewrite sort_by_perm.
Qed.

(** The report does not depend on which probe ends first.  In whatever order the probes
    of a call finish, the answer is the report of the files in the caller's order. *)
Theorem surface_order_free probe order p : (forall l, order l ≡ₚ l) ->
  validate_project_options (surface_options p) = None -> unwrap_or (ps_files p) [] <> [] ->
  parse_surface probe (fun l => inl (order l)) p
  = inl (parse_surface_payload (map (fun file => (file, probe (project_cli_args None (surface_options p)) file)) (unwrap_or (ps_files p) []))
           match ps_detail p with Some Full => true | _ => false end).
Proof.
  intros Hperm Hv Hne. unfold parse_surface. rewrite Hv. destruct (unwrap_or (ps_files p) []) as [|file files]; [done|].
  set (args := project_cli_args None (surface_options p)). do 2 f_equal. set (runs := imap _ _).
  rewrite (index_sort runs); [|exact (proj1 (imap_in_order (fun file => (file, probe args file)) (file :: files) 0))|apply Hperm].
  unfold runs. generalize (file :: files). intros l. assert (H : forall k, map snd (imap (fun i f => (k + i, (f, probe args f)) : Finished) l) = map (fun f => (f, probe args f)) l).
  { induction l as [|f l IH]; intros k; [done|]. cbn. f_equal. rewrite <- (IH (S k)). f_equal. apply imap_ext. intros; cbn. f_equal. lia. }
  exact (H 0).
Qed.

Definition two_files : ParseSurfaceParams := mkSurface (Some ["a.c"; "b.c"]) None None None None None None (Some Full).
Definition b_is_blocked (_ : list string) (file : string) : ParseProbe :=
  if file =s "a.c" then Parsed else Blocked (classify_parse_failure (fun _ => false) ("b.c:1:10: fatal error: 'sys/sysctl.h' file not found")).

Lemma surface_order_free_witness :
  parse_surface b_is_blocked (fun l => inl (rev l)) two_files
  = inl (parse_surface_payload [("a.c", Parsed); ("b.c", Blocked (mkBlock "header_not_found" (Some "sys/sysctl.h") "b.c:1:10: fatal error: 'sys/sysctl.h' file not found"))] true).
Proof.
  rewrite (surface_order_free b_is_blocked (@rev Finished) two_files); [by vm_compute| |by vm_compute|by vm_compute].
  intros l. symmetry. apply Permutation_rev.
Defined.

Example first_error_wins :
  classify_parse_failure (fun _ => false) ("[kernel] a.c:3: User Error:" +s+ String nl "  Cannot resolve variable O_CLOEXEC" +s+ String nl "[kernel] a.c:9: 'x.h' file not found")
  = mkBlock "undeclared_name" (Some "O_CLOEXEC") "Cannot resolve variable O_CLOEXEC".
Proof. by vm_compute. Qed.
