(* ===== verification/ParseLog.v ===== *)
(** * The warnings of a parse (src/src/mcp/project.rs)

    The part of Frama-C's log that built the AST, read line by line: which lines are
    warnings, their category and location, and the count of each category with a sample
    of its places.  The bytes of the log are decoded by [lossy], an argument. *)

From S2P Require Import Prelude RustStr BTree Json Gaps WpMessages Paths CompileDb.
Local Open Scope nat_scope.

Definition AST_DIAGNOSTIC_SAMPLE : nat := 20.
Definition ATTRIBUTE_PREFIX : string := "Ignoring unknown attribute:".
Definition AST_SOUNDNESS_CATEGORIES : list string := [ASM_CLOBBER; ATTRS_UNKNOWN].

(** ** Lines *)

Definition trailing_number (source : string) : option (string * N) :=
  rsplit_once ":" source ≫= fun '(head, last) => (fun n => (head, n)) <$> parse_u64 last.

Definition trim_colon (s : string) : string := trim (trim_end_char ":" (trim s)).

(** The path, the line and the column a location is printed as. *)
Definition split_location (source : string) : string * option N * option N :=
  match trailing_number source with
  | None => (source, None, None)
  | Some (head, last) =>
    match trailing_number head with
    | Some (head, line) => (head, Some line, Some last)
    | None => (head, Some last, None)
    end
  end.

Definition log_location (source cwd : string) : json :=
  let source := trim_colon source in
  if is_empty source then JObj [("unresolved", JBool true)]
  else
    let '(source, line, column) := split_location source in
    JObj [("file", JStr (join_text cwd source)); ("line", jopt jN line); ("column", jopt jN column)].

Definition ends_with_ws (s : string) : bool := is_some_and (fun c => is_some_and is_empty (ws_char c)) (last_char s).
Definition starts_with_ws (s : string) : bool := is_some_and (fun _ => true) (ws_char s).
Fixpoint contains_ws (s : string) : bool :=
  match s with "" => false | String _ s' => starts_with_ws s || contains_ws s' end.

(** A bracketed group [open] to [close] that is a field of its own, holds a colon and no
    white space. *)
Definition tag_at (head : string) (open close : nat) : bool :=
  let candidate := take_str (close - (open + 1)) (skip (open + 1) head) in
  let tail := skip (close + 1) head in
  ((open =? 0) || ends_with_ws (take_str open head))
  && (is_empty tail || starts_with_ws tail)
  && contains ":" candidate && negb (contains_ws candidate).

(** Each step starts after the bracket the last one turned down. *)
Fixpoint tag_from (fuel from : nat) (head : string) : option (nat * nat) :=
  match fuel with
  | O => None
  | S fuel =>
    find "[" (skip from head) ≫= fun at_ =>
    let open := from + at_ in
    find "]" (skip open head) ≫= fun to =>
    let close := open + to in
    if tag_at head open close then Some (open, close) else tag_from fuel (open + 1) head
  end.
Definition tag_bounds (head : string) : option (nat * nat) := tag_from (S (String.length head)) 0 head.

Fixpoint warning_from (fuel from : nat) (line : string) : option (string * nat * nat) :=
  match fuel with
  | O => None
  | S fuel =>
    find "Warning:" (skip from line) ≫= fun at_ =>
    let at_ := from + at_ in
    let head := take_str at_ line in
    match tag_bounds head with
    | Some (open, close) => Some (head, open, close)
    | None => warning_from fuel (at_ + 1) line
    end
  end.

Definition warning_line_fields (line : string) : option (string * string) :=
  (fun '(head, open, close) =>
    let before := trim_colon (take_str open head) in
    let after := trim_colon (skip (close + 1) head) in
    (take_str (close - (open + 1)) (skip (open + 1) head), if is_empty before then after else before))
  <$> warning_from (S (String.length line)) 0 line.

(** ** The record *)

Abbreviation Categories := (gmap string (nat * list json)).

(** Every site is counted and the first ones are kept. *)
Definition push_site (categories : Categories) (category : string) (site : json) : Categories :=
  let '(count, sites) := unwrap_or (categories !! category) (0, []) in
  <[category := (count + 1, if length sites <? AST_DIAGNOSTIC_SAMPLE then sites ++ [site] else sites)]> categories.

Definition or_default (categories : Categories) (category : string) : Categories :=
  match categories !! category with Some _ => categories | None => <[category := (0, [])]> categories end.

(** The first location of an attribute stays. *)
Definition or_insert (attributes : gmap string string) (name source : string) : gmap string string :=
  match attributes !! name with Some _ => attributes | None => <[name := source]> attributes end.

Record Reading := mkReading { categories : Categories; attributes : gmap string string; pending : option string }.

Definition attribute_name (line : string) : option string := (fun '(_, name) => trim name) <$> split_once ATTRIBUTE_PREFIX line.

Section diagnostics.
Variable cwd : string.

Definition read_log_line (r : Reading) (line : string) : Reading :=
  match warning_line_fields line with
  | Some (category, source) =>
    if category =s ATTRS_UNKNOWN then
      match attribute_name line with
      | Some name => mkReading (categories r) (or_insert (attributes r) name source) None
      | None => mkReading (categories r) (attributes r) (Some source)
      end
    else mkReading (push_site (categories r) category (log_location source cwd)) (attributes r) None
  | None =>
    match attribute_name line with
    | Some name => mkReading (categories r) (or_insert (attributes r) name (unwrap_or (pending r) "")) None
    | None => r
    end
  end.

Definition read_log_lines (lines : list string) : Reading := fold_left read_log_line lines (mkReading ∅ ∅ None).

Definition attribute_site (entry : string * string) : json :=
  JObj [("attribute", JStr entry.1); ("location", log_location entry.2 cwd)].

Definition all_categories (r : Reading) : Categories :=
  fold_left or_default AST_SOUNDNESS_CATEGORIES
    (fold_left (fun cs entry => push_site cs ATTRS_UNKNOWN (attribute_site entry)) (btree_entries (attributes r)) (categories r)).

Definition category_json (entry : string * (nat * list json)) : string * json :=
  let '(category, (count, sites)) := entry in
  (category, JObj [("count", jnat count);
                   ("count_unit", JStr (if category =s ATTRS_UNKNOWN then "distinct_attribute_names" else "sites"));
                   ("locations_omitted", jnat (count - length sites)); ("locations", JArr sites)]).

Definition diagnostics_of (lines : list string) : json :=
  JObj [("categories", JObj (map category_json (btree_entries (all_categories (read_log_lines lines)))))].

Variable lossy : string -> string.

(** The log up to [end_], or all of it when it is shorter. *)
Definition ast_parse_diagnostics (log : string) (end_ : N) : json :=
  diagnostics_of (lines (lossy (take_str (N.to_nat (N.min end_ (N.of_nat (String.length log)))) log))).
End diagnostics.

Definition parse_log_unavailable (reason : string) : json := JObj [("unavailable", JStr reason); ("categories", JObj [])].
Definition unreadable_parse_log (path error : string) : json :=
  parse_log_unavailable ("cannot read the Frama-C stdout log at " +s+ path +s+ ": " +s+ error).

(** ** Theorems *)

Example warning_read :
  warning_line_fields "[kernel:asm:clobber] src/[dir/a.c:3: Warning: Clobber list contains memory" = Some ("kernel:asm:clobber", "src/[dir/a.c:3").
Proof. by vm_compute. Qed.
Example location_before_the_tag :
  warning_line_fields "src/[dir/a.c:3: [kernel:asm:clobber] Warning: Clobber" = Some ("kernel:asm:clobber", "src/[dir/a.c:3").
Proof. by vm_compute. Qed.
Example token_in_path :
  warning_line_fields "[kernel:asm:clobber] src/Warning:x/a.c:3: Warning: Clobber" = Some ("kernel:asm:clobber", "src/").
Proof. by vm_compute. Qed.

(** A bracket and the first closing one after it. *)
Definition bracket_group (head : string) (open close : nat) : Prop :=
  starts_with "[" (skip open head) = true /\ open <= close /\ find "]" (skip open head) = Some (close - open).

Lemma find_later p s n m : p <> "" -> n <= m -> find p (skip n s) = None -> find p (skip m s) = None.
Proof.
  intros Hp Hle Hn. destruct (find p (skip m s)) as [k|] eqn:E; [|done]. apply find_spec in E as [Hs _]; [|done].
  rewrite skip_skip in Hs. replace (m + k) with (n + (m - n + k)) in Hs by lia. rewrite <- skip_skip in Hs.
  by rewrite (find_None p _ _ Hp Hn) in Hs.
Qed.

Lemma starts_with_bound p n s : p <> "" -> starts_with p (skip n s) = true -> n < String.length s.
Proof.
  intros Hp Hs. destruct (decide (n < String.length s)) as [|Hge]; [done|]. exfalso.
  apply prefix_length in Hs. rewrite length_skip in Hs. destruct p; [done|]. cbn in Hs. lia.
Qed.

Lemma tag_from_exact head : forall fuel from, String.length head < from + fuel ->
  match tag_from fuel from head with
  | Some (open, close) =>
    from <= open /\ bracket_group head open close /\ tag_at head open close = true
    /\ forall o c, from <= o -> bracket_group head o c -> tag_at head o c = true -> open <= o
  | None => forall o c, from <= o -> bracket_group head o c -> tag_at head o c = false
  end.
Proof.
  induction fuel as [|fuel IH]; intros from Hfuel.
  - intros o c Ho (Hs & _). apply starts_with_bound in Hs; [lia|done].
  - cbn [tag_from]. destruct (find "[" (skip from head)) as [at_|] eqn:Hopen; cbn [mbind option_bind].
    2: { intros o c Ho (Hs & _). replace o with (from + (o - from)) in Hs by lia. rewrite <- skip_skip in Hs. by rewrite (find_None "[" _ _ ltac:(done) Hopen) in Hs. }
    apply find_spec in Hopen as (Hs & _ & Hmin); [|done]. rewrite skip_skip in Hs.
    assert (Hbefore : forall o c, from <= o -> o < from + at_ -> ~ bracket_group head o c).
    { intros o c Hf Ho (Hs' & _). specialize (Hmin (o - from)). rewrite skip_skip in Hmin. replace (from + (o - from)) with o in Hmin by lia.
      rewrite Hmin in Hs' by lia. done. }
    destruct (find "]" (skip (from + at_) head)) as [to|] eqn:Hclose; cbn [mbind option_bind].
    2: { intros o c Ho Hg. destruct (decide (o < from + at_)) as [Hlt|Hge]; [by destruct (Hbefore o c Ho Hlt)|].
         destruct Hg as (_ & _ & Hf). by rewrite (find_later "]" head (from + at_) o) in Hf by (done || lia). }
    assert (Hg : bracket_group head (from + at_) (from + at_ + to)) by (split_and!; [done|lia|rewrite Hclose; f_equal; lia]).
    destruct (tag_at head (from + at_) (from + at_ + to)) eqn:Htag.
    + split_and!; [lia|done|done|]. intros o c Ho Hgo _. destruct (decide (o < from + at_)) as [Hlt|]; [|lia]. by destruct (Hbefore o c Ho Hlt).
    + assert (Hhere : forall c, bracket_group head (from + at_) c -> tag_at head (from + at_) c = false).
      { intros c (_ & Hle & Hf). rewrite Hclose in Hf. injection Hf as Hf. by replace c with (from + at_ + to) by lia. }
      specialize (IH (from + at_ + 1) ltac:(lia)). destruct (tag_from fuel _ _) as [[open close]|].
      * destruct IH as (Hle & Hgo & Ht & Hfirst). split_and!; [lia|done|done|]. intros o c Ho Hgr Hta.
        destruct (decide (o < from + at_)) as [Hlt|]; [by destruct (Hbefore o c Ho Hlt)|].
        destruct (decide (o = from + at_)) as [->|]; [by rewrite (Hhere c Hgr) in Hta|]. apply (Hfirst o c); [lia|done|done].
      * intros o c Ho Hgr. destruct (decide (o < from + at_)) as [Hlt|]; [by destruct (Hbefore o c Ho Hlt)|].
        destruct (decide (o = from + at_)) as [->|]; [by apply Hhere|]. apply IH; [lia|done].
Qed.

Lemma tag_bounds_exact head :
  match tag_bounds head with
  | Some (open, close) => bracket_group head open close /\ tag_at head open close = true
                          /\ forall o c, bracket_group head o c -> tag_at head o c = true -> open <= o
  | None => forall o c, bracket_group head o c -> tag_at head o c = false
  end.
Proof.
  unfold tag_bounds. pose proof (tag_from_exact head (S (String.length head)) 0 ltac:(lia)) as H.
  destruct (tag_from _ _ _) as [[open close]|]; [|intros o c Hg; apply H; [lia|done]].
  destruct H as (_ & Hg & Ht & Hf). split_and!; [done|done|]. intros o c Ho Hta. apply (Hf o c); [lia|done|done].
Qed.

Lemma warning_from_exact line : forall fuel from, String.length line < from + fuel ->
  match warning_from fuel from line with
  | Some (head, open, close) =>
    exists at_, from <= at_ /\ starts_with "Warning:" (skip at_ line) = true /\ head = take_str at_ line /\ tag_bounds head = Some (open, close)
      /\ forall a, from <= a -> a < at_ -> starts_with "Warning:" (skip a line) = true -> tag_bounds (take_str a line) = None
  | None => forall a, from <= a -> starts_with "Warning:" (skip a line) = true -> tag_bounds (take_str a line) = None
  end.
Proof.
  induction fuel as [|fuel IH]; intros from Hfuel.
  - intros a Ha Hs. apply starts_with_bound in Hs; [lia|done].
  - cbn [warning_from]. destruct (find "Warning:" (skip from line)) as [at_|] eqn:Hf; cbn [mbind option_bind].
    2: { intros a Ha Hs. replace a with (from + (a - from)) in Hs by lia. rewrite <- skip_skip in Hs.
         by rewrite (find_None "Warning:" _ _ ltac:(done) Hf) in Hs. }
    apply find_spec in Hf as (Hs & _ & Hmin); [|done]. rewrite skip_skip in Hs.
    assert (Hbefore : forall a, from <= a -> a < from + at_ -> starts_with "Warning:" (skip a line) = true -> False).
    { intros a Hf Ha Hs'. specialize (Hmin (a - from)). rewrite skip_skip in Hmin. replace (from + (a - from)) with a in Hmin by lia.
      rewrite Hmin in Hs' by lia. done. }
    destruct (tag_bounds (take_str (from + at_) line)) as [[open close]|] eqn:Ht.
    + exists (from + at_). split_and!; [lia|done|done|done|]. intros a Hf Ha Hs'. by destruct (Hbefore a Hf Ha Hs').
    + assert (Hskip : forall a, from <= a -> ~ (from + at_ + 1 <= a) -> starts_with "Warning:" (skip a line) = true -> tag_bounds (take_str a line) = None).
      { intros a Ha Hn Hs'. destruct (decide (a = from + at_)) as [->|]; [done|]. destruct (Hbefore a); [done|lia|done]. }
      specialize (IH (from + at_ + 1) ltac:(lia)). destruct (warning_from fuel _ _) as [[[head open] close]|].
      * destruct IH as (at' & Hle & Hs' & Hh & Hb & Hfirst). exists at'. split_and!; [lia|done|done|done|].
        intros a Ha Hlt Hsa. destruct (decide (from + at_ + 1 <= a)); [by apply Hfirst|by apply Hskip].
      * intros a Ha Hsa. destruct (decide (from + at_ + 1 <= a)); [by apply IH|by apply Hskip].
Qed.

(** The text before the token, when it holds a tag. *)
Definition warning_at (line : string) (at_ : nat) : Prop :=
  starts_with "Warning:" (skip at_ line) = true
  /\ exists open close, bracket_group (take_str at_ line) open close /\ tag_at (take_str at_ line) open close = true.

Lemma tag_before line at_ : (exists open close, bracket_group (take_str at_ line) open close /\ tag_at (take_str at_ line) open close = true)
  <-> tag_bounds (take_str at_ line) <> None.
Proof.
  pose proof (tag_bounds_exact (take_str at_ line)) as H. destruct (tag_bounds _) as [[open close]|].
  - destruct H as (Hg & Ht & _). split; [done|]. by exists open, close.
  - split; [|done]. intros (open & close & Hg & Ht). by rewrite (H open close Hg) in Ht.
Qed.

(** A line is read as a warning exactly when it is one.  It is one when the word
    [Warning:] stands after a tag: a bracketed field of its own, with a colon and no white
    space.  The word used is the first with a tag before it, whatever the path holds, and
    the tag is the first of the text before that word: the category is what stands between
    its brackets, and the location what stands before it or else after it. *)
Theorem warning_line_exact line :
  match warning_line_fields line with
  | Some (category, source) =>
    exists at_ open close (head := take_str at_ line),
      starts_with "Warning:" (skip at_ line) = true /\ (forall a, a < at_ -> ~ warning_at line a)
      /\ bracket_group head open close /\ tag_at head open close = true
      /\ (forall o c, bracket_group head o c -> tag_at head o c = true -> open <= o)
      /\ category = take_str (close - (open + 1)) (skip (open + 1) head)
      /\ source = (let before := trim_colon (take_str open head) in if is_empty before then trim_colon (skip (close + 1) head) else before)
  | None => forall a, ~ warning_at line a
  end.
Proof.
  unfold warning_line_fields. pose proof (warning_from_exact line (S (String.length line)) 0 ltac:(lia)) as H.
  destruct (warning_from _ _ _) as [[[head open] close]|]; cbn [fmap option_fmap option_map].
  - destruct H as (at_ & _ & Hs & -> & Ht & Hfirst). pose proof (tag_bounds_exact (take_str at_ line)) as Hb. rewrite Ht in Hb.
    destruct Hb as (Hg & Hta & Hmin). exists at_, open, close. split_and!; try done.
    intros a Ha [Hsa Hw]. apply tag_before in Hw. apply Hw, Hfirst; [lia|done|done].
  - intros a [Hsa Hw]. apply tag_before in Hw. apply Hw, H; [lia|done].
Qed.

(** ** The counts *)

(** What is kept of the sites of a category. *)
Definition summary (sites : list json) : option (nat * list json) :=
  match sites with [] => None | _ => Some (length sites, take AST_DIAGNOSTIC_SAMPLE sites) end.

Lemma push_site_other cs c c' site : c <> c' -> push_site cs c site !! c' = cs !! c'.
Proof. intros Hne. unfold push_site. destruct (unwrap_or _ _). exact (lookup_insert_ne _ _ _ _ Hne). Qed.

Lemma push_site_summary cs c site sites : cs !! c = summary sites -> push_site cs c site !! c = summary (sites ++ [site]).
Proof.
  intros Hc. unfold push_site. rewrite Hc.
  assert (Hs : unwrap_or (summary sites) (0, []) = (length sites, take AST_DIAGNOSTIC_SAMPLE sites)) by (by destruct sites).
  rewrite Hs. cbv iota beta. rewrite lookup_insert_eq.
  assert (Hs' : summary (sites ++ [site]) = Some (length (sites ++ [site]), take AST_DIAGNOSTIC_SAMPLE (sites ++ [site]))) by (by destruct sites).
  rewrite Hs', length_app, length_take. do 2 f_equal.
  destruct (Nat.ltb_spec (AST_DIAGNOSTIC_SAMPLE `min` length sites) AST_DIAGNOSTIC_SAMPLE).
  - rewrite !take_ge by (rewrite ?length_app; cbn [length]; lia). done.
  - rewrite take_app_le by lia. done.
Qed.

Lemma fold_push_summary {A} cs c (site : A -> json) entries : forall sites, cs !! c = summary sites ->
  fold_left (fun cs entry => push_site cs c (site entry)) entries cs !! c = summary (sites ++ map site entries).
Proof.
  revert cs. induction entries as [|e entries IH]; intros cs sites Hc; cbn [fold_left map]; [by rewrite app_nil_r|].
  rewrite (IH _ (sites ++ [site e])); [by rewrite <- app_assoc|]. by apply push_site_summary.
Qed.

Lemma fold_push_other {A} c c' (site : A -> json) entries : c <> c' ->
  forall cs, fold_left (fun cs entry => push_site cs c (site entry)) entries cs !! c' = cs !! c'.
Proof. intros Hne. induction entries as [|e entries IH]; intros cs; cbn [fold_left]; [done|]. rewrite IH. by apply push_site_other. Qed.

Section counts.
Context (cwd : string).

(** The site a line gives to a category, and the attribute it names. *)
Definition site_of (category line : string) : option json :=
  warning_line_fields line ≫= fun '(c, source) => then_some (c =s category) (log_location source cwd).
Definition named_attribute (line : string) : option string :=
  match warning_line_fields line with
  | Some (category, _) => if category =s ATTRS_UNKNOWN then attribute_name line else None
  | None => attribute_name line
  end.

Lemma read_log_snoc lines line : read_log_lines cwd (lines ++ [line]) = read_log_line cwd (read_log_lines cwd lines) line.
Proof. unfold read_log_lines. by rewrite fold_left_app. Qed.

Lemma collect_some_snoc {A B} (f : A -> option B) l a : collect_some f (l ++ [a]) = collect_some f l ++ option_list (f a).
Proof. induction l as [|b l IH]; cbn; [by destruct (f a)|]. rewrite IH. by destruct (f b). Qed.

Lemma read_categories lines category :
  categories (read_log_lines cwd lines) !! category
  = if category =s ATTRS_UNKNOWN then None else summary (collect_some (site_of category) lines).
Proof.
  induction lines as [|line lines IH] using rev_ind; [cbn; rewrite lookup_empty; by destruct (category =s ATTRS_UNKNOWN)|].
  rewrite read_log_snoc, collect_some_snoc. unfold read_log_line, site_of at 2. destruct (warning_line_fields line) as [[c source]|]; cbn [mbind option_bind].
  - destruct (String.eqb_spec c ATTRS_UNKNOWN) as [->|Hc].
    + assert (Hcs : categories (match attribute_name line with
                   | Some name => mkReading (categories (read_log_lines cwd lines)) (or_insert (attributes (read_log_lines cwd lines)) name source) None
                   | None => mkReading (categories (read_log_lines cwd lines)) (attributes (read_log_lines cwd lines)) (Some source) end)
                 = categories (read_log_lines cwd lines)) by (by destruct (attribute_name line)).
      rewrite Hcs, IH. destruct (String.eqb_spec category ATTRS_UNKNOWN) as [|Hn]; [done|].
      rewrite (proj2 (String.eqb_neq _ _)) by congruence. cbn. by rewrite app_nil_r.
    + cbn [categories]. destruct (String.eqb_spec c category) as [->|Hne].
      * apply String.eqb_neq in Hc. rewrite Hc in IH |- *. cbn [then_some option_list]. by apply push_site_summary.
      * rewrite push_site_other, IH by done. cbn. by rewrite app_nil_r.
  - cbn [option_list]. rewrite app_nil_r, <- IH. by destruct (attribute_name line).
Qed.

Lemma or_insert_dom attributes name source : dom (or_insert attributes name source) = dom attributes ∪ {[ name ]}.
Proof.
  unfold or_insert. destruct (attributes !! name) as [s|] eqn:E; [apply elem_of_dom_2 in E; set_solver|].
  rewrite dom_insert_L. set_solver.
Qed.

Lemma read_attributes lines : dom (attributes (read_log_lines cwd lines)) = list_to_set (collect_some named_attribute lines).
Proof.
  induction lines as [|line lines IH] using rev_ind; [done|].
  rewrite read_log_snoc, collect_some_snoc, list_to_set_app_L, <- IH. unfold read_log_line, named_attribute at 1.
  destruct (warning_line_fields line) as [[c source]|].
  - destruct (c =s ATTRS_UNKNOWN); [|cbn; set_solver]. destruct (attribute_name line); cbn [attributes option_list]; [rewrite or_insert_dom|]; set_solver.
  - destruct (attribute_name line); cbn [attributes option_list]; [rewrite or_insert_dom|]; set_solver.
Qed.
End counts.

Lemma or_default_lookup cs c c' : or_default cs c !! c' = match cs !! c' with Some e => Some e | None => if c' =s c then Some (0, []) else None end.
Proof.
  unfold or_default. destruct (decide (c' = c)) as [->|Hne].
  - rewrite String.eqb_refl. destruct (cs !! c) eqn:E; [done|by rewrite lookup_insert_eq].
  - rewrite (proj2 (String.eqb_neq _ _)) by done. destruct (cs !! c); [by destruct (cs !! c')|]. rewrite lookup_insert_ne by done. by destruct (cs !! c').
Qed.

(** What a report says of a category. *)
Definition category_entry (unit : string) (sites : list json) : json :=
  JObj [("count", jnat (length sites)); ("count_unit", JStr unit);
        ("locations_omitted", jnat (length sites - length (take AST_DIAGNOSTIC_SAMPLE sites))); ("locations", JArr (take AST_DIAGNOSTIC_SAMPLE sites))].

(** The record of a parse counts its warnings.  Every category but the unknown
    attributes has the number of the lines that warn under it and the places of the first
    twenty; the unknown attributes have the number of distinct names; what is left out of
    a sample is said; and the two categories that bear on soundness are there even with
    none, while no other category is. *)
Theorem parse_counts_exact cwd lines (report := diagnostics_of cwd lines) :
  (forall category, category <> ATTRS_UNKNOWN ->
     report .? "categories" ≫= get category
     = match collect_some (site_of cwd category) lines with
       | [] => then_some (category =s ASM_CLOBBER) (category_entry "sites" [])
       | sites => Some (category_entry "sites" sites)
       end)
  /\ exists sites, report .? "categories" ≫= get ATTRS_UNKNOWN = Some (category_entry "distinct_attribute_names" sites)
       /\ length sites = size (list_to_set (collect_some named_attribute lines) : gset string).
Proof.
  set (r := read_log_lines cwd lines).
  assert (Hget : forall category, report .? "categories" ≫= get category = (fun e => (category_json (category, e)).2) <$> all_categories cwd r !! category).
  { intros category. exact (btree_object_get category_json _ category ltac:(by intros [? []])). }
  assert (Hall : forall category, all_categories cwd r !! category
      = match (if category =s ATTRS_UNKNOWN then summary (map (attribute_site cwd) (btree_entries (attributes r))) else summary (collect_some (site_of cwd category) lines)) with
        | Some e => Some e
        | None => if (category =s ASM_CLOBBER) || (category =s ATTRS_UNKNOWN) then Some (0, []) else None
        end).
  { intros category. unfold all_categories. cbn [fold_left AST_SOUNDNESS_CATEGORIES]. rewrite !or_default_lookup.
    pose proof (read_categories cwd lines category) as Hc. fold r in Hc.
    destruct (category =s ATTRS_UNKNOWN) eqn:E; [apply String.eqb_eq in E; subst category|apply String.eqb_neq in E].
    - rewrite (fold_push_summary _ _ (attribute_site cwd) _ []) by (by rewrite Hc). cbn [app]. by destruct (summary _).
    - rewrite fold_push_other, Hc by done. destruct (summary _); [done|]. rewrite orb_false_r. by destruct (category =s ASM_CLOBBER). }
  split.
  - intros category Hne. rewrite Hget, Hall, (proj2 (String.eqb_neq category ATTRS_UNKNOWN)) by done. rewrite orb_false_r.
    apply String.eqb_neq in Hne. destruct (collect_some _ _) as [|site sites]; cbn [summary].
    + destruct (category =s ASM_CLOBBER); cbn [fmap option_fmap option_map then_some category_json snd]; [by rewrite Hne|done].
    + cbn [fmap option_fmap option_map category_json snd]. by rewrite Hne.
  - exists (map (attribute_site cwd) (btree_entries (attributes r))). rewrite Hget, Hall. cbn [String.eqb]. split.
    + change (ATTRS_UNKNOWN =s ATTRS_UNKNOWN) with true. rewrite orb_true_r. by destruct (map _ _).
    + rewrite length_map. unfold btree_entries. rewrite merge_sort_Permutation, length_map_to_list.
      rewrite <- size_dom. unfold r. by rewrite (read_attributes cwd lines).
Qed.

Example attribute_counted_once :
  pointer ["categories"; ATTRS_UNKNOWN; "count"]
    (diagnostics_of "/p" ["[kernel:attrs:unknown] a.c:1: Warning: Ignoring unknown attribute: __q__";
                          "[kernel:attrs:unknown] a.c:9: Warning: "; "  Ignoring unknown attribute: __q__"]) = Some (jN 1).
Proof. by vm_compute. Qed.
