(* ===== verification/SourceIdentity.v ===== *)
(** * The identity of a loaded file set (src/src/mcp/server.rs, src/src/state.rs)

    What a set of sources hashes as, and whether one of them may reach the preprocessor:
    the scan of a file read in chunks, the bytes the identity is made of, and the options
    that name bytes it does not cover.  Reading a file and SHA-256 are arguments. *)

From S2P Require Import Prelude RustStr Receipt.
From Stdlib Require Import Btauto.
Local Open Scope nat_scope.

(** ** Directives *)

Definition pct : ascii := "%".
Definition qmark : ascii := "?".

(** The byte opens what the preprocessor acts on, after the two bytes before it. *)
Definition opens_directive (previous : ascii * ascii) (byte : ascii) : bool :=
  Ascii.eqb byte "#" || (Ascii.eqb byte ":" && Ascii.eqb previous.2 pct)
  || (Ascii.eqb byte "=" && Ascii.eqb previous.2 qmark && Ascii.eqb previous.1 qmark).

(** Whether a chunk holds one, and the two bytes before the next chunk. *)
Fixpoint starts_a_directive (chunk : string) (previous : ascii * ascii) : bool * (ascii * ascii) :=
  match chunk with
  | "" => (false, previous)
  | String byte chunk =>
    if opens_directive previous byte then (true, previous) else starts_a_directive chunk (previous.2, byte)
  end.

(** The chunks a reader returns, each read only while none held a directive. *)
Definition scan_chunk (seen : bool * (ascii * ascii)) (chunk : string) : bool * (ascii * ascii) :=
  if seen.1 then seen else starts_a_directive chunk seen.2.
Definition scan_chunks (chunks : list string) : bool := (fold_left scan_chunk chunks (false, ("000"%char, "000"%char))).1.

Section identity.
Variable sha256_hex : string -> string.

(** What reading a file gives: the time it was written, in nanoseconds since the epoch,
    and its chunks, or an error.  The bytes hashed are those of the chunks. *)
Record Source := mkSource { written : option N; chunks : list string }.
Variable open_file : string -> Source + string.

Definition sha256_hex_of_reader (chunks : list string) : string * bool := (sha256_hex (join "" chunks), scan_chunks chunks).

Definition debug_written (written : option N) : string := match written with Some n => "Some(" +s+ dec_N n +s+ ")" | None => "None" end.

(** The bytes of one entry, and whether the file may hold a directive. *)
Definition hash_named_file (name : string) : string * bool :=
  match open_file name with
  | inl s => let '(digest, has_hash) := sha256_hex_of_reader (chunks s) in
             (name +s+ debug_written (written s) +s+ digest +s+ String "000" "", has_hash)
  | inr error => (name +s+ error +s+ String "000" "", true)
  end.

Definition identity_input (files : list string) (machdep : option string) : string :=
  join "" (map (fun file => (hash_named_file file).1) files) +s+ match machdep with Some m => (hash_named_file m).1 | None => "" end.

Definition loaded_source_state (files : list string) (machdep : option string) : string * bool :=
  (sha256_hex (identity_input files machdep), existsb (fun file => (hash_named_file file).2) files).
Definition loaded_source_digest (files : list string) (machdep : option string) : string := (loaded_source_state files machdep).1.
Definition files_may_include (files : list string) : bool := (loaded_source_state files None).2.
End identity.

Definition names_bytes_outside_the_file_set (o : ProjectLoadOptions) : bool :=
  negb (bool_decide (force_includes o = [])) || match compilation_database o with Some _ => true | None => false end.

(** ** Theorems *)

(** What the scan looks for, in a text as a whole. *)
Definition directive_spellings : list string := ["#"; "%:"; "??="].

(** The last two bytes of a text, after two zero bytes. *)
Fixpoint last_two (previous : ascii * ascii) (s : string) : ascii * ascii :=
  match s with "" => previous | String c s => last_two (previous.2, c) s end.

Lemma scan_one s : forall previous,
  starts_a_directive s previous = (false, last_two previous s) \/ (starts_a_directive s previous).1 = true.
Proof. induction s as [|c s IH]; intros previous; cbn; [by left|]. destruct (opens_directive previous c); [by right|]. apply IH. Qed.

Lemma scan_app s t : forall previous,
  (starts_a_directive (s +s+ t) previous).1
  = (starts_a_directive s previous).1 || (starts_a_directive t (last_two previous s)).1.
Proof. induction s as [|c s IH]; intros previous; cbn; [done|]. destruct (opens_directive previous c); [done|]. apply IH. Qed.

Lemma last_two_app s t : forall previous, last_two previous (s +s+ t) = last_two (last_two previous s) t.
Proof. induction s as [|c s IH]; intros previous; cbn; [done|]. apply IH. Qed.

Lemma join_nil_cons (s : string) l : join "" (s :: l) = s +s+ join "" l.
Proof. destruct l; cbn; [by rewrite app_str_nil_r|done]. Qed.

Lemma scan_chunks_joined l : forall previous,
  (fold_left scan_chunk l (false, previous)).1 = (starts_a_directive (join "" l) previous).1.
Proof.
  assert (Hseen : forall l previous, (fold_left scan_chunk l (true, previous)).1 = true) by (clear; induction l; intros; cbn; auto).
  induction l as [|s l IH]; intros previous; [done|]. rewrite join_nil_cons, scan_app. cbn [fold_left]. unfold scan_chunk at 2. cbn [fst snd].
  destruct (scan_one s previous) as [->|Ht]; cbn [fst].
  - by rewrite IH.
  - rewrite Ht. destruct (starts_a_directive s previous) as [b p]; cbn in Ht; subst b. cbn [orb]. apply Hseen.
Qed.

(** The first byte of a text. *)
Definition first_is (c : ascii) (s : string) : bool := match s with String d _ => Ascii.eqb d c | "" => false end.
Definition rest (s : string) : string := match s with String _ s => s | "" => "" end.

(** A spelling begun by the bytes before, and completed by the first ones. *)
Definition completes (previous : ascii * ascii) (s : string) : bool :=
  (first_is ":" s && Ascii.eqb previous.2 pct)
  || (first_is "=" s && Ascii.eqb previous.2 qmark && Ascii.eqb previous.1 qmark)
  || (first_is qmark s && first_is "=" (rest s) && Ascii.eqb previous.2 qmark).

Lemma starts_with_two a b c s : starts_with (String a (String b "")) (String c s) = Ascii.eqb c a && first_is b s.
Proof.
  unfold starts_with. cbn. destruct (ascii_dec a c) as [->|Hn]; [|symmetry; by rewrite (proj2 (Ascii.eqb_neq c a)) by congruence].
  rewrite Ascii.eqb_refl. destruct s as [|d s]; [done|]. cbn. destruct (ascii_dec b d) as [->|Hn]; [rewrite Ascii.eqb_refl; by destruct s|].
  by rewrite (proj2 (Ascii.eqb_neq d b)) by congruence.
Qed.

Lemma starts_with_three a b e c s : starts_with (String a (String b (String e ""))) (String c s) = Ascii.eqb c a && first_is b s && first_is e (rest s).
Proof.
  transitivity (Ascii.eqb c a && starts_with (String b (String e "")) s).
  - unfold starts_with. cbn. destruct (ascii_dec a c) as [->|Hn]; [by rewrite Ascii.eqb_refl|]. by rewrite (proj2 (Ascii.eqb_neq c a)) by congruence.
  - rewrite <- andb_assoc. f_equal. destruct s as [|d s]; [done|]. apply starts_with_two.
Qed.

Lemma starts_with_one a c s : starts_with (String a "") (String c s) = Ascii.eqb c a.
Proof. unfold starts_with. cbn. destruct (ascii_dec a c) as [->|Hn]; [rewrite Ascii.eqb_refl; by destruct s|]. by rewrite (proj2 (Ascii.eqb_neq c a)) by congruence. Qed.

Lemma scan_spellings s : forall previous,
  (starts_a_directive s previous).1 = existsb (fun needle => contains needle s) directive_spellings || completes previous s.
Proof.
  induction s as [|c s IH]; intros previous; [done|].
  assert (Hstep : (starts_a_directive (String c s) previous).1 = opens_directive previous c || (starts_a_directive s (previous.2, c)).1)
    by (cbn; by destruct (opens_directive previous c)).
  rewrite Hstep, IH. unfold directive_spellings, completes, opens_directive. cbn [existsb contains fst snd first_is rest].
  rewrite starts_with_one, starts_with_two, starts_with_three. fold qmark pct. btauto.
Qed.

(** The scan of a file finds what a scan of its bytes at once would.  However the reader
    cuts the file into chunks, it answers yes exactly when the bytes hold a [#], a [%:] or
    a [??=], one that a cut goes through included. *)
Theorem scan_exact chunks : scan_chunks chunks = existsb (fun needle => contains needle (join "" chunks)) directive_spellings.
Proof.
  unfold scan_chunks. rewrite scan_chunks_joined, scan_spellings. unfold completes. cbn [fst snd].
  change (Ascii.eqb "000" pct) with false. change (Ascii.eqb "000" qmark) with false. btauto.
Qed.

Section identity_theorems.
Context (sha256_hex : string -> string).
(** A digest is 64 hexadecimal digits. *)
Hypothesis digest_length : forall s, String.length (sha256_hex s) = 64.
Hypothesis digest_hex : forall s, sall is_ascii_hexdigit (sha256_hex s) = true.

Definition stamp (s : Source) : string := debug_written (written s) +s+ sha256_hex (join "" (chunks s)).

Lemma hexdigit_free s : sall is_ascii_hexdigit s = true -> free_of "000" s = true.
Proof. apply sall_impl. intros c Hc. destruct (Ascii.eqb_spec c "000") as [->|]; [by vm_compute in Hc|done]. Qed.

Lemma stamp_free s : free_of "000" (stamp s) = true.
Proof.
  unfold stamp. rewrite free_of_app, (hexdigit_free (sha256_hex _)) by apply digest_hex. rewrite andb_true_r.
  destruct (written s) as [n|]; [|done]. unfold debug_written. rewrite !free_of_app.
  change (free_of "000" "Some(") with true. change (free_of "000" ")") with true. rewrite andb_true_r. cbn [andb].
  rewrite <- (N2Nat.id n). exact (dec_free "000" (N.to_nat n) eq_refl).
Qed.

Lemma app_str_split (a b x y : string) : a +s+ x = b +s+ y -> String.length x = String.length y -> a = b /\ x = y.
Proof.
  revert b. induction a as [|c a IH]; intros [|d b] He Hl; cbn in He.
  - done.
  - subst x. cbn in Hl. rewrite length_app_str in Hl. lia.
  - subst y. cbn in Hl. rewrite length_app_str in Hl. lia.
  - injection He as -> He. destruct (IH b He Hl) as [-> ->]. done.
Qed.

Lemma stamp_inj s t : stamp s = stamp t -> written s = written t /\ sha256_hex (join "" (chunks s)) = sha256_hex (join "" (chunks t)).
Proof.
  unfold stamp. intros He. apply app_str_split in He as [Hw ->]; [|by rewrite !digest_length]. split; [|done].
  unfold debug_written in Hw. destruct (written s) as [n|], (written t) as [m|]; try done. apply app_str_cancel in Hw.
  apply app_str_split in Hw as [Hd _]; [|done]. unfold dec_N in Hd. by apply (inj pretty) in Hd as ->.
Qed.

Lemma entry_of_readable open_file name s : open_file name = inl s ->
  (hash_named_file sha256_hex open_file name).1 = name +s+ stamp s +s+ String "000" "".
Proof. intros Ho. unfold hash_named_file, stamp. rewrite Ho. cbn. by rewrite !app_str_assoc. Qed.

(** The identity of a file set sees every write.  For the files of a load, all readable
    before and after, the bytes that are hashed are the same only when every file has the
    time it was written and the digest of its bytes unchanged: a file that was edited and
    put back, and so has a new time, makes another identity. *)
Theorem identity_sees_writes before after files :
  (forall file, file ∈ files -> exists s t, before file = inl s /\ after file = inl t) ->
  identity_input sha256_hex before files None = identity_input sha256_hex after files None ->
  forall file s t, file ∈ files -> before file = inl s -> after file = inl t ->
    written s = written t /\ sha256_hex (join "" (chunks s)) = sha256_hex (join "" (chunks t)).
Proof.
  intros Hread. unfold identity_input. rewrite !app_str_nil_r.
  induction files as [|f files IH]; intros He file s t Hin Hs Ht; [by apply elem_of_nil in Hin|].
  cbn [map] in He. rewrite !join_nil_cons in He. destruct (Hread f ltac:(left)) as (sf & tf & Hsf & Htf).
  rewrite (entry_of_readable _ _ _ Hsf), (entry_of_readable _ _ _ Htf), !app_str_assoc in He. apply app_str_cancel in He.
  apply separated_inj in He as [Hstamp He]; [|apply stamp_free|apply stamp_free].
  apply elem_of_cons in Hin as [->|Hin].
  - rewrite Hs in Hsf. rewrite Ht in Htf. injection Hsf as <-. injection Htf as <-. by apply stamp_inj.
  - apply (IH (fun g Hg => Hread g ltac:(by right)) He file); done.
Qed.

(** ** Lemmas: what an identity says of the files *)

(** The text of an error of the file system: [(os error 2)] and the like end it. *)
Definition error_text (e : string) : Prop := free_of "000" e = true /\ exists front, e = front +s+ ")".

Definition tail_of (r : Source + string) : string := match r with inl s => stamp s | inr e => e end.
Definition bytes_of (r : Source + string) : option string := match r with inl s => Some (join "" (chunks s)) | inr _ => None end.
Definition named (files : list string) (machdep : option string) : list string :=
  files ++ match machdep with Some m => [m] | None => [] end.
Definition sane (r : Source + string) : Prop := match r with inl _ => True | inr e => error_text e end.

(** Same times and same digests, or the same error. *)
Definition same_state (a b : Source + string) : Prop :=
  match a, b with
  | inl s, inl t => written s = written t /\ sha256_hex (join "" (chunks s)) = sha256_hex (join "" (chunks t))
  | inr e, inr e' => e = e'
  | _, _ => False
  end.

Lemma tail_free r : sane r -> free_of "000" (tail_of r) = true.
Proof. destruct r as [s|e]; [intros _; apply stamp_free|by intros []]. Qed.

Lemma entry_tail open_file name :
  (hash_named_file sha256_hex open_file name).1 = (name +s+ tail_of (open_file name)) +s+ String "000" "".
Proof. unfold hash_named_file. destruct (open_file name) as [s|e]; cbn; unfold stamp; by rewrite !app_str_assoc. Qed.

Lemma identity_input_named open_file files machdep : identity_input sha256_hex open_file files machdep =
  join "" (map (fun name => (name +s+ tail_of (open_file name)) +s+ String "000" "") (named files machdep)).
Proof.
  unfold identity_input, named. induction files as [|f files IH]; cbn [map app].
  - destruct machdep as [m|]; [|done]. apply entry_tail.
  - by rewrite !join_nil_cons, app_str_assoc, IH, entry_tail.
Qed.

Lemma terminated_inj l l' : forallb (free_of "000") l = true -> forallb (free_of "000") l' = true ->
  join "" (map (fun e => e +s+ String "000" "") l) = join "" (map (fun e => e +s+ String "000" "") l') -> l = l'.
Proof.
  assert (Hempty : forall (e : string) r, "" = (e +s+ String "000" "") +s+ r -> False) by (intros [|? ?] r; discriminate).
  revert l'. induction l as [|e l IH]; intros [|e' l'] Hl Hl' He; cbn [map] in He; rewrite ?join_nil_cons in He.
  - done.
  - by apply Hempty in He.
  - symmetry in He. by apply Hempty in He.
  - cbn in Hl, Hl'. apply andb_true_iff in Hl as [Hf Hl], Hl' as [Hf' Hl']. rewrite !app_str_assoc in He.
    apply separated_inj in He as [-> He]; [|done..]. f_equal. by apply IH.
Qed.

Lemma right_separated c (a b x y : string) : free_of c x = true -> free_of c y = true ->
  a +s+ String c x = b +s+ String c y -> a = b /\ x = y.
Proof.
  assert (Hno : forall a x z, free_of c z = true -> z = a +s+ String c x -> False).
  { intros a' x' z Hz ->. rewrite free_of_app in Hz. cbn in Hz. rewrite Ascii.eqb_refl, andb_false_r in Hz. done. }
  intros Hx Hy. revert b. induction a as [|d a IH]; intros [|e b] He; cbn in He.
  - by injection He as ->.
  - injection He as _ He. by apply Hno in He.
  - injection He as _ He. symmetry in He. by apply Hno in He.
  - injection He as -> He. by destruct (IH b He) as [-> ->].
Qed.

Lemma written_end w : exists front c, debug_written w = front +s+ String c "" /\ (w = None <-> c = "e"%char).
Proof.
  destruct w as [n|]; [exists ("Some(" +s+ dec_N n), ")"%char|exists "Non", "e"%char]; split; [|done| |done].
  - unfold debug_written. by rewrite app_str_assoc.
  - done.
Qed.

Lemma written_inj (a b : string) w v : a +s+ debug_written w = b +s+ debug_written v -> a = b /\ w = v.
Proof.
  intros He. destruct (written_end w) as (p & c & Hp & Hw), (written_end v) as (q & d & Hq & Hv).
  assert (Hcd : c = d).
  { rewrite Hp, Hq, <- !app_str_assoc in He. by apply app_str_split in He as [_ [= ->]]. }
  subst d. destruct w as [n|], v as [m|]; [|by discriminate (proj2 Hw (proj1 Hv eq_refl))|by discriminate (proj2 Hv (proj1 Hw eq_refl))|].
  2: by apply app_str_split in He as [-> _].
  unfold debug_written in He. rewrite <- !app_str_assoc in He. apply app_str_split in He as [He _]; [|done].
  assert (Hs : forall c x, (c +s+ "Some(") +s+ x = (c +s+ "Some") +s+ String "(" x) by (intros; by rewrite !app_str_assoc).
  rewrite !Hs in He.
  apply right_separated in He as [Hab ->%dec_N_inj]; [|by apply dec_N_free..].
  by apply app_str_split in Hab as [-> _].
Qed.

Lemma last_char s : s <> "" -> exists front c, s = front +s+ String c "".
Proof.
  induction s as [|c s IH]; intros Hn; [done|]. destruct s as [|d s]; [by exists "", c|].
  destruct IH as (front & e & ->); [done|]. by exists (String c front), e.
Qed.

(** A digest does not end like an error. *)
Lemma stamp_not_error (a b : string) s e : error_text e -> a +s+ stamp s = b +s+ e -> False.
Proof.
  intros [_ [front ->]] He. pose proof (digest_length (join "" (chunks s))) as Hl. pose proof (digest_hex (join "" (chunks s))) as Hh.
  unfold stamp in He. destruct (last_char (sha256_hex (join "" (chunks s)))) as (p & c & Hp); [by intros Hn; rewrite Hn in Hl|].
  rewrite Hp in He, Hh. rewrite <- !app_str_assoc in He. apply app_str_split in He as [_ [= ->]]; [|done].
  rewrite sall_app, andb_true_iff in Hh. by destruct Hh as [_ Hh].
Qed.

Lemma tail_inj r r' : sane r -> sane r' -> tail_of r = tail_of r' -> same_state r r'.
Proof.
  destruct r as [s|e], r' as [t|e']; cbn; intros Hr Hr' He; [by apply stamp_inj| | |done].
  - by apply (stamp_not_error "" "" s e').
  - by apply (stamp_not_error "" "" t e).
Qed.

Lemma readable_entry_inj a b s r : sane r -> a +s+ tail_of (inl s) = b +s+ tail_of r -> a = b /\ same_state (inl s) r.
Proof.
  destruct r as [t|e]; cbn; intros Hr He; [|by apply stamp_not_error in He].
  unfold stamp in He. rewrite <- !app_str_assoc in He. apply app_str_split in He as [He Hd]; [|by rewrite !digest_length].
  by apply written_inj in He as [-> ->].
Qed.

Definition nul_free : list string -> bool := forallb (free_of "000").

(** Two identities of the same names, or of a set of files that could be read and any
    other: what is hashed tells the names and their states apart. *)
Lemma entries_eq o o' files files' machdep machdep' :
  nul_free (named files machdep) = true -> nul_free (named files' machdep') = true ->
  (forall path, sane (o path)) -> (forall path, sane (o' path)) ->
  identity_input sha256_hex o files machdep = identity_input sha256_hex o' files' machdep' ->
  map (fun name => name +s+ tail_of (o name)) (named files machdep)
  = map (fun name => name +s+ tail_of (o' name)) (named files' machdep').
Proof.
  intros Hn Hn' Ho Ho'. rewrite !identity_input_named.
  rewrite <- (map_map (fun name => name +s+ tail_of (o name)) (fun e => e +s+ String "000" "")).
  rewrite <- (map_map (fun name => name +s+ tail_of (o' name)) (fun e => e +s+ String "000" "")).
  assert (Hfree : forall o names, (forall path, sane (o path)) -> nul_free names = true ->
    forallb (free_of "000") (map (fun name => name +s+ tail_of (o name)) names) = true).
  { intros q names Hq. unfold nul_free. rewrite !forallb_true. intros Hf e (name & -> & Hin)%list_elem_of_fmap.
    by rewrite free_of_app, (Hf name Hin), (tail_free _ (Hq name)). }
  apply terminated_inj; by apply Hfree.
Qed.

Lemma same_names o o' files machdep : nul_free (named files machdep) = true ->
  (forall path, sane (o path)) -> (forall path, sane (o' path)) ->
  identity_input sha256_hex o files machdep = identity_input sha256_hex o' files machdep ->
  forall path, path ∈ named files machdep -> same_state (o path) (o' path).
Proof.
  intros Hn Ho Ho' He%entries_eq; [|done..]. intros path Hin. apply tail_inj; [done..|].
  induction (named files machdep) as [|name names IH]; [by inversion Hin|]. cbn in He. injection He as Hhd Htl.
  cbn in Hn. apply andb_true_iff in Hn as [_ Hn].
  apply elem_of_cons in Hin as [->|Hin]; [by eapply app_str_cancel|by apply IH].
Qed.

Lemma readable_names o o' files files' machdep : nul_free (named files machdep) = true -> nul_free (named files' machdep) = true ->
  (forall path, sane (o path)) -> (forall path, sane (o' path)) -> (forall file, file ∈ files -> exists s, o file = inl s) ->
  identity_input sha256_hex o files machdep = identity_input sha256_hex o' files' machdep -> files = files'.
Proof.
  intros Hn Hn' Ho Ho' Hread He%entries_eq; [|done..]. unfold named in He. rewrite !map_app in He.
  apply app_inj_2 in He as [He _]; [|by destruct machdep]. clear Hn Hn'.
  revert files' He. induction files as [|f files IH]; intros [|f' files'] He; [done|discriminate..|]. injection He as Hhd Htl.
  destruct (Hread f ltac:(left)) as [s Hs]. rewrite Hs in Hhd. apply readable_entry_inj in Hhd as [-> _]; [|done].
  f_equal. apply IH; [|done]. intros g Hg. apply Hread. by right.
Qed.
End identity_theorems.

Definition sixty_four (_ : string) : string := "00112233445566778899aabbccddeeff00112233445566778899aabbccddeeff".

Lemma identity_sees_writes_witness :
  let before := fun _ => inl (mkSource (Some 7%N) ["int x;"]) in let after := fun _ => inl (mkSource (Some 9%N) ["int x;"]) in
  identity_input sixty_four before ["a.c"; "b.c"] None <> identity_input sixty_four after ["a.c"; "b.c"] None.
Proof.
  intros before after He.
  destruct (identity_sees_writes sixty_four (fun _ => eq_refl) (fun _ => eq_refl) before after ["a.c"; "b.c"]
              (fun f _ => ex_intro _ _ (ex_intro _ _ (conj eq_refl eq_refl))) He "a.c" (mkSource (Some 7%N) ["int x;"]) (mkSource (Some 9%N) ["int x;"])) as [Hw _];
    [left|done|done|]. discriminate Hw.
Defined.
