(* ===== verification/MainInstance.v ===== *)
(** * The main Frama-C instance (src/src/mcp/server.rs)

    The process that holds the project: when a load stays in it and when it is replaced,
    what a failed load leaves, and which parse its record describes.  What the disk, the
    process and the socket answer are arguments of a call; the second half of the file
    runs calls beside other tasks, as a step relation over the server, the disk and the
    AST. *)

From S2P Require Import Prelude RustStr Json Verdicts Receipt Errors Proc WpConfig SourceIdentity ParseLog.
Local Open Scope nat_scope.

#[export] Instance ProjectLoadOptions_eq_dec : EqDecision ProjectLoadOptions.
Proof. solve_decision. Defined.

(** ** State *)

(** The child process, its temporary directory and its startup tail are not part of what
    a load decides. *)
Record MainFramaCState := mkMain {
  socket_path : string;
  files : list string;
  project_options : ProjectLoadOptions;
  pid : N;
  command_line : list string;
  ast_parse_log_end : N;
  ast_parse_source_digest : string;
  ast_reload_diagnostics : option json;
  working_dir : string;
  wp_model_used : option string;
  poisoned : bool;
}.

(** The server's part: the instance, its client when there is one (and whether the
    transport is poisoned), whether a project is loaded, and the counter of spawns. *)
Record Server := mkServer {
  main : option MainFramaCState;
  client : option bool;
  project_loaded : bool;
  spawn_counter : N;
}.

Definition set_poisoned (m : MainFramaCState) : MainFramaCState :=
  mkMain (socket_path m) (files m) (project_options m) (pid m) (command_line m) (ast_parse_log_end m) (ast_parse_source_digest m)
    (ast_reload_diagnostics m) (working_dir m) (wp_model_used m) true.
Definition set_record (record : json) (m : MainFramaCState) : MainFramaCState :=
  mkMain (socket_path m) (files m) (project_options m) (pid m) (command_line m) (ast_parse_log_end m) (ast_parse_source_digest m)
    (Some record) (working_dir m) (wp_model_used m) (poisoned m).
Definition set_files (new_files : list string) (m : MainFramaCState) : MainFramaCState :=
  mkMain (socket_path m) new_files (project_options m) (pid m) (command_line m) (ast_parse_log_end m) (ast_parse_source_digest m)
    (ast_reload_diagnostics m) (working_dir m) (wp_model_used m) (poisoned m).

(** ** Decisions *)

Definition parse_record_survives (m : MainFramaCState) (identity : string * bool) : bool :=
  let '(digest, may_include) := identity in
  negb (names_bytes_outside_the_file_set (project_options m)) && negb may_include && (digest =s ast_parse_source_digest m).

Definition needs_respawn (main : option MainFramaCState) (client : option bool) (options : ProjectLoadOptions) (identity : string * bool) : bool :=
  match main with
  | None => true
  | Some m => poisoned m || negb (bool_decide (project_options m = options)) || is_some_and (fun dead => dead) client
              || negb (parse_record_survives m identity)
  end.

(** [log_length] is the length of the log, or why it cannot be told. *)
Definition boot_parse_window (stdout_log_path : string) (log_length : N + string) (parsed booted_on : string) : N * option json :=
  let missing :=
    match log_length with
    | inr error => Some ("cannot measure the boot parse in the Frama-C stdout log at " +s+ stdout_log_path +s+ ": " +s+ error)
    | inl 0%N => Some "Frama-C had written nothing to its log when the socket appeared, so this server never saw the boot parse"
    | inl _ => then_some (negb (parsed =s booted_on))
                 "the sources changed while Frama-C was starting, so no boot parse describes them"
    end in
  (match log_length with inl n => n | inr _ => 0%N end, parse_log_unavailable <$> missing).

Definition changed_while_rebuilding : json :=
  parse_log_unavailable "the sources changed while Frama-C was rebuilding the AST, so no parse record describes it".

(** ** A load *)

(** What a spawn meets: an error before the process runs, a process that never listens and
    what it wrote, or one that answers, its pid and the length of its log. *)
Inductive SpawnOutcome :=
| LogDirectory (error : string)
| TmpDirectory (error : string)
| NotSpawned (e : ErrorData)
| NotListening (reason tail : string)
| Listening (pid : N) (log_length : N + string).

(** What a call of [ensure_main_spawned] is answered: the identity of the sources before
    and after, the reload over the socket, and the spawn. *)
Record Answers := mkAnswers {
  identity_before : string * bool;
  identity_after : string * bool;
  reload_answer : option ErrorData;
  spawn_answer : SpawnOutcome;
}.

Definition internal_error (message : string) : ErrorData := mkErrorData InternalError (mkMcpError message None).

Section load.
Variable executable_in_path : string -> bool.
Variable builtin_models_header : option string.
Variable frama_c_path : string.
Variable server_pid : N.
Variable log_root : string.
Variable current_dir : option string.

Definition spawn_socket (spawn_id : N) : string := "/tmp/frama-c-mcp-" +s+ dec_N server_pid +s+ "-" +s+ dec_N spawn_id +s+ ".sock".
Definition stdout_log (spawn_id : N) : string := log_root +s+ "/logs/main-" +s+ dec_N server_pid +s+ "-" +s+ dec_N spawn_id +s+ ".stdout.log".

Definition spawned_state (new_files : list string) (options : ProjectLoadOptions) (w : Answers) (spawn_id pid : N) (log_length : N + string)
    : MainFramaCState :=
  let digest := (identity_before w).1 in
  let '(log_end, record) := boot_parse_window (stdout_log spawn_id) log_length (identity_after w).1 digest in
  mkMain (spawn_socket spawn_id) new_files options pid
    (main_frama_c_args executable_in_path builtin_models_header frama_c_path new_files options (spawn_socket spawn_id))
    log_end digest record (unwrap_or current_dir ".") None (match record with Some _ => true | None => false end).

(** The old instance stays until the new one answers. *)
Definition respawn (new_files : list string) (options : ProjectLoadOptions) (w : Answers) (s : Server) : Server * option ErrorData :=
  let id := spawn_counter s in
  let s' := mkServer (main s) (client s) (project_loaded s) (id + 1) in
  match spawn_answer w with
  | LogDirectory error => (s', Some (internal_error ("create log directory: " +s+ error)))
  | TmpDirectory error => (s', Some (internal_error ("create a TMPDIR for frama-c: " +s+ error)))
  | NotSpawned e => (s', Some e)
  | NotListening reason tail =>
    let message := "connect to new frama-c: " +s+ reason +s+ String nl "" +s+ "output:" +s+ String nl "" +s+ tail in
    (s', Some (unwrap_or (missing_header_startup_error message) (internal_error message)))
  | Listening pid log_length =>
    (mkServer (Some (spawned_state new_files options w id pid log_length)) (Some false) true (id + 1), None)
  end.

(** The state after a reload in place that worked. *)
Definition after_reload (new_files : list string) (w : Answers) (m : MainFramaCState) : MainFramaCState :=
  set_files new_files
    (if (identity_after w).1 =s ast_parse_source_digest m then m else set_poisoned (set_record changed_while_rebuilding m)).

(** [None] is the panic of a state without a client. *)
Definition ensure_main_spawned (new_files : list string) (options : ProjectLoadOptions) (w : Answers) (s : Server)
    : option (Server * option ErrorData) :=
  if needs_respawn (main s) (client s) options (identity_before w) then Some (respawn new_files options w s)
  else
    match client s with
    | None => None
    | Some _ =>
      match reload_answer w with
      | None => Some (mkServer (after_reload new_files w <$> main s) (client s) true (spawn_counter s), None)
      | Some e => Some (mkServer (set_poisoned <$> main s) (client s) false (spawn_counter s), Some e)
      end
    end.
End load.

(** ** The parse record *)

(** What the reload answers as the record, read from the log once and then kept. *)
Definition parse_diagnostics (lossy : string -> string) (log : string + string) (log_path : string) (s : Server) : Server * json :=
  match main s with
  | None => (s, parse_log_unavailable "the Frama-C process is gone")
  | Some m =>
    match ast_reload_diagnostics m with
    | Some cached => (s, cached)
    | None =>
      match log with
      | inl log =>
        let fresh := ast_parse_diagnostics (working_dir m) lossy log (ast_parse_log_end m) in
        (mkServer (Some (set_record fresh m)) (client s) (project_loaded s) (spawn_counter s), fresh)
      | inr error => (s, unreadable_parse_log log_path error)
      end
    end
  end.

(** [kill_main_instance]: the instance is taken out of its slot, the client is left. *)
Definition kill_main_instance (s : Server) : Server := mkServer None (client s) (project_loaded s) (spawn_counter s).

(** ** Theorems *)

Section load_theorems.
Context (executable_in_path : string -> bool) (builtin_models_header : option string) (frama_c_path : string) (server_pid : N)
  (log_root : string) (current_dir : option string).
Abbreviation ensure := (ensure_main_spawned executable_in_path builtin_models_header frama_c_path server_pid log_root current_dir).
Abbreviation spawned := (spawned_state executable_in_path builtin_models_header frama_c_path server_pid log_root current_dir).

(** There is a client exactly when there is an instance. *)
Definition paired (s : Server) : Prop := client s = None <-> main s = None.

Lemma respawn_None main client options identity : needs_respawn main client options identity = false ->
  exists m, main = Some m /\ poisoned m = false /\ project_options m = options /\ is_some_and (fun dead => dead) client = false
            /\ parse_record_survives m identity = true.
Proof.
  unfold needs_respawn. destruct main as [m|]; [|done]. rewrite !orb_false_iff, !negb_false_iff, bool_decide_eq_true.
  intros [[[Hp Ho] Hc] Hs]. by exists m.
Qed.

(** A load never loses the project it had to a failed one.  From a server whose client
    and instance come together a load always answers, and leaves them together.  When it
    fails on a new process, the old instance, its client and what is loaded are as they
    were; when it fails inside the instance, nothing is loaded and the instance is kept
    aside, and whatever is loaded next gets a new process; and when it succeeds, the
    instance holds the files and the options asked for. *)
Theorem load_outcome files_ options w s : paired s ->
  exists s' e, ensure files_ options w s = Some (s', e) /\ paired s'
    /\ match e with
       | None => project_loaded s' = true /\ exists m, main s' = Some m /\ files m = files_ /\ project_options m = options
       | Some _ =>
         (needs_respawn (main s) (client s) options (identity_before w) = true
          /\ main s' = main s /\ client s' = client s /\ project_loaded s' = project_loaded s)
         \/ (project_loaded s' = false /\ forall options' identity, needs_respawn (main s') (client s') options' identity = true)
       end.
Proof.
  intros Hpair. unfold ensure_main_spawned. destruct (needs_respawn (main s) (client s) options (identity_before w)) eqn:Hn.
  - unfold respawn. destruct (spawn_answer w) as [error|error|e|reason tail|p log_length]; eexists _, _; (split; [reflexivity|]); cbn [main client project_loaded].
    1-4: by split; [|left].
    split; [unfold paired; done|]. split; [done|]. eexists. split; [reflexivity|]. unfold spawned_state. by destruct (boot_parse_window _ _ _ _).
  - apply respawn_None in Hn as (m & Hm & Hp & Ho & _ & _). destruct (client s) as [dead|] eqn:Hc.
    2: { destruct Hpair as [Hpair _]. rewrite (Hpair Hc) in Hm. done. }
    destruct (reload_answer w) as [e|]; eexists _, _; (split; [reflexivity|]); unfold paired; cbn [main client project_loaded]; rewrite Hm; cbn.
    + split; [done|]. right. by split.
    + split; [done|]. split; [done|]. exists (after_reload files_ w m). split; [done|]. unfold after_reload.
      by destruct (_ =s _).
Qed.

End load_theorems.

(** ** Loads beside writes *)

Definition no_options : ProjectLoadOptions := mkProjectLoadOptions [] [] [] None None false [] false false false None.

Section beside_writes.
Context (executable_in_path : string -> bool) (builtin_models_header : option string) (frama_c_path : string) (server_pid : N)
  (log_root : string) (current_dir : option string) (lossy : string -> string).
Abbreviation ensure := (ensure_main_spawned executable_in_path builtin_models_header frama_c_path server_pid log_root current_dir).
Abbreviation spawned := (spawned_state executable_in_path builtin_models_header frama_c_path server_pid log_root current_dir).

(** SHA-256, which does not collide on the texts that were hashed. *)
Variable sha256_hex : string -> string.
Hypothesis digest_length : forall s, String.length (sha256_hex s) = 64.
Hypothesis digest_hex : forall s, sall is_ascii_hexdigit (sha256_hex s) = true.
Variable hashed : string -> Prop.
Hypothesis no_collision : forall s t, hashed s -> hashed t -> sha256_hex s = sha256_hex t -> s = t.

(** Every path at every version of the disk. *)
Variable disk_at : nat -> string -> Source + string.
Hypothesis errors_read : forall d path, sane (disk_at d path).

(** What Frama-C makes of the files it is given, from the bytes on the disk: of sources
    that hold no directive, loaded with options that name no other file, nothing but
    their bytes and those of the machine description. *)
Variable Tree : Type.
Variable front_end : (string -> option string) -> list string -> ProjectLoadOptions -> Tree.
Hypothesis reads_its_files : forall fs fs' files options,
  force_includes options = [] -> compilation_database options = None ->
  (forall file, file ∈ files -> exists text, fs file = Some text
     /\ contains "#" text = false /\ contains "%:" text = false /\ contains "??=" text = false) ->
  (forall path, path ∈ named files (machdep options) -> fs path = fs' path) ->
  front_end fs files options = front_end fs' files options.

Definition bytes_at (d : nat) (path : string) : option string := bytes_of (disk_at d path).

(** What a process read: the names, the options and the version of the disk. *)
Record Built := mkBuilt { built_files : list string; built_options : ProjectLoadOptions; built_at : nat }.
Definition tree (b : Built) : Tree := front_end (bytes_at (built_at b)) (built_files b) (built_options b).

(** The AST is what the live process last built, when that worked; the boot parse is what
    its log describes, up to the length the log had when the process answered. *)
Record Run := mkRun { server : Server; disk : nat; ast : option Built; boot : Built; boot_end : N }.

(** The identity of the sources as a call takes it: the texts are hashed, or the task that
    reads them does not come back ([source_identity]). *)
Inductive identity_taken (d : nat) (files : list string) (machdep : option string) : string * bool -> Prop :=
| taken : hashed (identity_input sha256_hex (disk_at d) files machdep) ->
    (forall path text, path ∈ named files machdep -> bytes_at d path = Some text -> hashed text) ->
    identity_taken d files machdep (loaded_source_state sha256_hex (disk_at d) files machdep)
| not_joined : identity_taken d files machdep ("", true).

(** No file is written and put back between two readings with its time restored, or
    within one tick of the clock. *)
Definition no_round_trip (d0 d1 d2 : nat) (paths : list string) : Prop :=
  forall path, path ∈ paths -> bytes_at d0 path = bytes_at d2 path ->
    same_state sha256_hex (disk_at d0 path) (disk_at d2 path) -> bytes_at d1 path = bytes_at d0 path.

Definition boot_log (w : Answers) : N := match spawn_answer w with Listening _ (inl n) => n | _ => 0%N end.

(** A load holds the spawn lock to its end, so no other load runs beside it; the sources are
    hashed at [d0], parsed at [d1] and hashed again at [d2], with writes between. *)
Inductive step : Run -> Run -> Prop :=
| write s d a b n : step (mkRun s d a b n) (mkRun s (S d) a b n)
| transport_lost m l c d a b n dead : step (mkRun (mkServer m (Some dead) l c) d a b n) (mkRun (mkServer m (Some true) l c) d a b n)
| read_log s d a b n log path : step (mkRun s d a b n) (mkRun (parse_diagnostics lossy log path s).1 d a b n)
| load s d a b n files options w d0 d1 d2 s' e :
    d <= d0 -> d0 <= d1 -> d1 <= d2 ->
    nul_free (named files (machdep options)) = true ->
    identity_taken d0 files (machdep options) (identity_before w) ->
    identity_taken d2 files (machdep options) (identity_after w) ->
    no_round_trip d0 d1 d2 (named files (machdep options)) ->
    ensure files options w s = Some (s', e) ->
    let built := mkBuilt files options d1 in
    let in_place := negb (needs_respawn (main s) (client s) options (identity_before w)) in
    step (mkRun s d a b n)
      (mkRun s' d2
         match e with None => Some built | Some _ => if in_place then None else a end
         match e with None => if in_place then b else built | Some _ => b end
         match e with None => if in_place then n else boot_log w | Some _ => n end).

Definition initial : Run := mkRun (mkServer None None false 0) 0 None (mkBuilt [] no_options 0) 0.

Inductive reachable : Run -> Prop :=
| start : reachable initial
| go w w' : reachable w -> step w w' -> reachable w'.

(** The AST is the tree the boot parse built, of the files the instance names, and the
    record is read off the log of the boot parse. *)
Definition describes (w : Run) : Prop :=
  forall m, main (server w) = Some m -> poisoned m = false ->
    (exists b, ast w = Some b /\ built_files b = files m /\ built_options b = project_options m /\ tree b = tree (boot w))
    /\ built_files (boot w) = files m /\ built_options (boot w) = project_options m
    /\ (forall record, ast_reload_diagnostics m = Some record ->
          exists log, record = ast_parse_diagnostics (working_dir m) lossy log (boot_end w)).

(** What the digest of the instance stands for: a version of the disk with the bytes the
    boot parse read, unless the sources could not be hashed. *)
Definition vouched (w : Run) (m : MainFramaCState) : Prop :=
  let names := named (files m) (machdep (project_options m)) in
  ast_parse_source_digest m = "" \/
  exists d, nul_free names = true
    /\ identity_taken d (files m) (machdep (project_options m)) (loaded_source_state sha256_hex (disk_at d) (files m) (machdep (project_options m)))
    /\ ast_parse_source_digest m = loaded_source_digest sha256_hex (disk_at d) (files m) (machdep (project_options m))
    /\ forall path, path ∈ names -> bytes_at (built_at (boot w)) path = bytes_at d path.

Definition sound (w : Run) : Prop :=
  describes w /\ forall m, main (server w) = Some m -> poisoned m = false ->
    ast_parse_log_end m = boot_end w /\ vouched w m.

Lemma spawned_unpoisoned files_ options w id p log_length : poisoned (spawned files_ options w id p log_length) = false ->
  ast_reload_diagnostics (spawned files_ options w id p log_length) = None /\ (identity_after w).1 = (identity_before w).1.
Proof.
  unfold spawned_state, boot_parse_window. destruct log_length as [[|n]|error]; cbn; try done.
  destruct (String.eqb_spec (identity_after w).1 (identity_before w).1) as [He|]; cbn; [by rewrite He|done].
Qed.

Lemma spawned_fields files_ options w id p log_length (m := spawned files_ options w id p log_length) :
  files m = files_ /\ project_options m = options /\ ast_parse_source_digest m = (identity_before w).1
  /\ ast_parse_log_end m = match log_length with inl n => n | inr _ => 0%N end.
Proof.
  unfold m, spawned_state. destruct (boot_parse_window _ _ _ _) as [end_ record] eqn:E. unfold boot_parse_window in E. cbv zeta in E. by injection E as <- _.
Qed.

Lemma digest_not_empty s : sha256_hex s <> "".
Proof. intros He. pose proof (digest_length s) as Hl. by rewrite He in Hl. Qed.

Lemma taken_inv d files machdep : identity_taken d files machdep (loaded_source_state sha256_hex (disk_at d) files machdep) ->
  hashed (identity_input sha256_hex (disk_at d) files machdep)
  /\ forall path text, path ∈ named files machdep -> bytes_at d path = Some text -> hashed text.
Proof.
  intros Ht. remember (loaded_source_state sha256_hex (disk_at d) files machdep) as i eqn:Hi. destruct Ht as [Hh Ht|]; [done|].
  injection Hi as Hi _. by destruct (digest_not_empty _ (eq_sym Hi)).
Qed.

(** Equal digests of the same names are equal bytes. *)
Lemma same_digest d d' files machdep :
  nul_free (named files machdep) = true -> hashed (identity_input sha256_hex (disk_at d) files machdep) ->
  hashed (identity_input sha256_hex (disk_at d') files machdep) ->
  (forall path text, path ∈ named files machdep -> bytes_at d path = Some text -> hashed text) ->
  (forall path text, path ∈ named files machdep -> bytes_at d' path = Some text -> hashed text) ->
  loaded_source_digest sha256_hex (disk_at d) files machdep = loaded_source_digest sha256_hex (disk_at d') files machdep ->
  forall path, path ∈ named files machdep ->
    bytes_at d path = bytes_at d' path /\ same_state sha256_hex (disk_at d path) (disk_at d' path).
Proof.
  intros Hn Hh Hh' Ht Ht' He path Hin. apply no_collision in He; [|done..].
  pose proof (same_names _ digest_length digest_hex _ _ _ _ Hn (errors_read d) (errors_read d') He path Hin) as Hs.
  split; [|done]. specialize (Ht path). specialize (Ht' path). unfold bytes_at, bytes_of, same_state in *.
  destruct (disk_at d path) as [s|], (disk_at d' path) as [s'|]; [|done..]. destruct Hs as [_ Hs].
  f_equal. apply no_collision; [by apply Ht|by apply Ht'|done].
Qed.

(** Two readings with one digest: what was parsed between has the bytes of the first. *)
Lemma between d0 d1 d2 files machdep i i' :
  nul_free (named files machdep) = true -> identity_taken d0 files machdep i -> identity_taken d2 files machdep i' ->
  no_round_trip d0 d1 d2 (named files machdep) -> i.1 = i'.1 ->
  i.1 = "" \/ (i = loaded_source_state sha256_hex (disk_at d0) files machdep /\ identity_taken d0 files machdep i
    /\ forall path, path ∈ named files machdep -> bytes_at d1 path = bytes_at d0 path).
Proof.
  intros Hn [Hh Ht|] Hi' Hrt He; [|by left]. right. split; [done|]. split; [by constructor|]. intros path Hin.
  destruct Hi' as [Hh' Ht'|]; [|by apply digest_not_empty in He].
  destruct (same_digest d0 d2 files machdep Hn Hh Hh' Ht Ht' He path Hin) as [Hb Hs]. by apply Hrt.
Qed.

Lemma spawn_sound s d a b n fs options w id p log_length d0 d1 d2 client_ loaded counter : d0 <= d1 ->
  nul_free (named fs (machdep options)) = true ->
  identity_taken d0 fs (machdep options) (identity_before w) -> identity_taken d2 fs (machdep options) (identity_after w) ->
  no_round_trip d0 d1 d2 (named fs (machdep options)) -> sound (mkRun s d a b n) ->
  sound (mkRun (mkServer (Some (spawned fs options w id p log_length)) client_ loaded counter) d2
    (Some (mkBuilt fs options d1)) (mkBuilt fs options d1) (match log_length with inl n => n | inr _ => 0%N end)).
Proof.
  intros H01 Hn Hb Ha Hrt _. destruct (spawned_fields fs options w id p log_length) as (Hf & Ho & Hdig & Hend).
  split; intros m [= <-] Hp; apply spawned_unpoisoned in Hp as [Hrec Hsame].
  - cbn [ast boot]. rewrite Hf, Ho, Hrec. split_and!; [by eexists|done|done|done].
  - split; [by rewrite Hend|]. unfold vouched. rewrite Hf, Ho, Hdig. cbn [boot built_at].
    destruct (between _ _ _ _ _ _ _ Hn Hb Ha Hrt (eq_sym Hsame)) as [He|(He & Ht & Hbytes)]; [by left|right].
    exists d0. rewrite <- He. by split_and!; [| |rewrite He|].
Qed.

(** Sources a reload keeps the process for hold no directive, and are the ones it booted on. *)
Lemma survivors d0 fs options i m dh : identity_taken d0 fs (machdep options) i -> parse_record_survives m i = true ->
  project_options m = options -> nul_free (named fs (machdep options)) = true -> nul_free (named (files m) (machdep options)) = true ->
  identity_taken dh (files m) (machdep options) (loaded_source_state sha256_hex (disk_at dh) (files m) (machdep options)) ->
  ast_parse_source_digest m = loaded_source_digest sha256_hex (disk_at dh) (files m) (machdep options) ->
  force_includes options = [] /\ compilation_database options = None /\ files m = fs
  /\ (forall file, file ∈ fs -> exists text, bytes_at d0 file = Some text
       /\ contains "#" text = false /\ contains "%:" text = false /\ contains "??=" text = false)
  /\ (forall path, path ∈ named fs (machdep options) -> bytes_at d0 path = bytes_at dh path).
Proof.
  intros Hi Hsurv Ho Hn Hnm Hth Hd. unfold parse_record_survives in Hsurv.
  destruct Hi as [Hh Ht|]; [|by rewrite andb_false_r in Hsurv]. unfold loaded_source_state in Hsurv.
  apply andb_true_iff in Hsurv as [[Hout Hmay]%andb_true_iff Hdig%String.eqb_eq]. rewrite Ho in Hout.
  unfold names_bytes_outside_the_file_set in Hout. rewrite negb_orb, andb_true_iff, negb_true_iff, negb_false_iff, bool_decide_eq_true in Hout.
  destruct Hout as [Hfi Hdb%negb_true_iff]. split; [done|]. split; [by destruct (compilation_database options)|].
  subst options.
  assert (Hread : forall file, file ∈ fs -> exists s, disk_at d0 file = inl s /\ scan_chunks (chunks s) = false).
  { intros file Hin. apply negb_true_iff in Hmay.
    destruct ((hash_named_file sha256_hex (disk_at d0) file).2) eqn:Hone.
    - exfalso. rewrite (proj2 (existsb_exists _ _)) in Hmay; [done|]. exists file. by rewrite <- list_elem_of_In.
    - unfold hash_named_file in Hone. destruct (disk_at d0 file) as [s|]; [|done]. by exists s. }
  assert (Hfs : fs = files m).
  { apply taken_inv in Hth as [Hh' _].
    rewrite Hd in Hdig. apply no_collision in Hdig; [|done..].
    eapply readable_names; [exact digest_length|exact digest_hex|exact Hn|exact Hnm|apply errors_read|apply errors_read| |exact Hdig].
    intros file (s & Hs & _)%Hread. by exists s. }
  rewrite <- Hfs in *. split; [done|]. split.
  - intros file (s & Hs & Hscan)%Hread. exists (join "" (chunks s)). unfold bytes_at. rewrite Hs. split; [done|].
    rewrite scan_exact in Hscan. cbn in Hscan. rewrite !orb_false_iff in Hscan. tauto.
  - apply taken_inv in Hth as [Hh' Ht']. intros path Hin.
    rewrite Hd in Hdig. by apply (same_digest d0 dh fs (machdep (project_options m))).
Qed.

(** A reload in place that is not marked builds the tree of the boot parse again. *)
Lemma reload_sound s d a b n fs options w d0 d1 d2 m : sound (mkRun s d a b n) -> main s = Some m -> poisoned m = false ->
  project_options m = options -> parse_record_survives m (identity_before w) = true -> d0 <= d1 ->
  nul_free (named fs (machdep options)) = true ->
  identity_taken d0 fs (machdep options) (identity_before w) -> identity_taken d2 fs (machdep options) (identity_after w) ->
  no_round_trip d0 d1 d2 (named fs (machdep options)) ->
  sound (mkRun (mkServer (Some (after_reload fs w m)) (client s) true (spawn_counter s)) d2 (Some (mkBuilt fs options d1)) b n).
Proof.
  intros [Hd Hs] Hm Hp Ho Hsurv H01 Hn Hb Ha Hrt. destruct (Hd m Hm Hp) as (_ & Hbf & Hbo & Hrec). destruct (Hs m Hm Hp) as [Hend Hv].
  cbn [boot boot_end] in *. unfold after_reload. destruct (String.eqb_spec (identity_after w).1 (ast_parse_source_digest m)) as [Hsame|].
  2: { by split; intros m' [= <-]. }
  assert (Hdig : (identity_before w).1 = ast_parse_source_digest m).
  { unfold parse_record_survives in Hsurv. destruct (identity_before w). by apply andb_true_iff in Hsurv as [_ ?%String.eqb_eq]. }
  destruct (between d0 d1 d2 fs (machdep options) _ _ Hn Hb Ha Hrt) as [He|(He & _ & Hbytes)]; [by rewrite Hdig, Hsame| |].
  { unfold parse_record_survives in Hsurv. destruct Hb; [by apply digest_not_empty in He|]. by rewrite andb_false_r in Hsurv. }
  destruct Hv as [Hv|(dh & Hnm & Hth & Hdh & Hboot)].
  { rewrite <- Hdig, He in Hv. by apply digest_not_empty in Hv. }
  rewrite Ho in *. destruct (survivors d0 fs options _ m dh Hb Hsurv Ho Hn Hnm Hth Hdh) as (Hfi & Hdb & Hf & Htext & Hsame').
  assert (Hfs : forall path, path ∈ named fs (machdep options) -> bytes_at d0 path = bytes_at (built_at b) path).
  { intros path Hin. rewrite Hsame' by done. symmetry. apply Hboot. by rewrite Hf. }
  split; intros m' [= <-] Hp'; cbn [ast boot boot_end files project_options set_files ast_reload_diagnostics working_dir ast_parse_log_end].
  - rewrite Ho, Hbf. split_and!; [|done|done|exact Hrec]. eexists. split; [done|]. split; [done|]. split; [done|].
    unfold tree. cbn [built_files built_options built_at]. rewrite Hbf, Hbo, Hf. transitivity (front_end (bytes_at d0) fs options).
    + symmetry. apply reads_its_files; [done..|]. intros path Hin. by rewrite Hbytes.
    + by apply reads_its_files.
  - split; [done|]. right. exists dh. cbn [files project_options set_files ast_parse_source_digest boot]. rewrite Ho, <- Hf. by split_and!.
Qed.

Lemma load_sound s d a b n fs options w d0 d1 d2 s' e : sound (mkRun s d a b n) -> d0 <= d1 ->
  nul_free (named fs (machdep options)) = true ->
  identity_taken d0 fs (machdep options) (identity_before w) -> identity_taken d2 fs (machdep options) (identity_after w) ->
  no_round_trip d0 d1 d2 (named fs (machdep options)) -> ensure fs options w s = Some (s', e) ->
  let built := mkBuilt fs options d1 in
  let in_place := negb (needs_respawn (main s) (client s) options (identity_before w)) in
  sound (mkRun s' d2 match e with None => Some built | Some _ => if in_place then None else a end
           match e with None => if in_place then b else built | Some _ => b end
           match e with None => if in_place then n else boot_log w | Some _ => n end).
Proof.
  intros Hsd H01 Hn Hb Ha Hrt He built in_place. unfold in_place, ensure_main_spawned in *.
  destruct (needs_respawn (main s) (client s) options (identity_before w)) eqn:Hr; cbn [negb].
  - unfold respawn in He. unfold boot_log. destruct (spawn_answer w) as [error|error|e'|reason tail|p log_length]; injection He as <- <-; try exact Hsd.
    by eapply spawn_sound.
  - apply respawn_None in Hr as (m & Hm & Hp & Ho & _ & Hsurv). destruct (client s) as [dead|] eqn:Hc; [|done].
    destruct (reload_answer w) as [err|]; injection He as <- <-; rewrite Hm; cbn [fmap option_fmap option_map].
    + by split; intros m' [= <-].
    + rewrite <- Hc. by eapply reload_sound.
Qed.

Lemma read_sound s d a b n log path : sound (mkRun s d a b n) -> sound (mkRun (parse_diagnostics lossy log path s).1 d a b n).
Proof.
  intros [Hd Hs]. unfold parse_diagnostics. destruct (main s) as [m|] eqn:Hm; [|done]. destruct (ast_reload_diagnostics m) as [cached|] eqn:Hr; [done|].
  destruct log as [log|error]; [|done]. split; intros m' [= <-] Hp; cbn [poisoned set_record] in Hp.
  - destruct (Hd m Hm Hp) as (Ha & Hbf & Hbo & _). split_and!; [exact Ha|exact Hbf|exact Hbo|].
    intros record [= <-]. exists log. by rewrite (proj1 (Hs m Hm Hp)).
  - exact (Hs m Hm Hp).
Qed.

Lemma sound_reachable w : reachable w -> sound w.
Proof.
  induction 1 as [|w w' _ IH Hstep]; [by split; intros m Hm|].
  destruct Hstep as [s d a b n|m l c d a b n dead|s d a b n log path|s d a b n fs options w0 d0 d1 d2 s' e _ H01 _ Hn Hb Ha Hrt He].
  - exact IH.
  - exact IH.
  - by apply read_sound.
  - by eapply load_sound.
Qed.

End beside_writes.

(** ** Witnesses *)

Definition first_load : Answers := mkAnswers ("0", false) ("0", false) None (Listening 42 (inl 100%N)).
Definition loaded_server : Server :=
  mkServer (Some (spawned_state (fun _ => false) None "frama-c" 7 "/tmp/fcmcp-0" None ["a.c"] no_options first_load 0 42 (inl 100%N))) (Some false) true 1.

Lemma load_outcome_witness :
  exists s' e, ensure_main_spawned (fun _ => false) None "frama-c" 7 "/tmp/fcmcp-0" None ["a.c"] no_options
                 (mkAnswers ("1", false) ("1", false) None (NotSpawned (internal_error "spawn frama-c: no memory"))) loaded_server = Some (s', e)
    /\ main s' = main loaded_server /\ project_loaded s' = true.
Proof.
  destruct (load_outcome (fun _ => false) None "frama-c" 7 "/tmp/fcmcp-0" None ["a.c"] no_options
              (mkAnswers ("1", false) ("1", false) None (NotSpawned (internal_error "spawn frama-c: no memory"))) loaded_server)
    as (s' & e & He & _ & Hout); [by split|].
  exists s', e. split; [exact He|]. assert (Hsome : e <> None) by (vm_compute in He; injection He as _ <-; discriminate).
  destruct e as [e|]; [|done]. destruct Hout as [(_ & Hm & _ & Hl)|[_ Hn]]; [by rewrite Hm, Hl|].
  vm_compute in He. injection He as <- _. by specialize (Hn no_options ("0", false)).
Defined.

(** One source without a directive beside a header nobody reads, loaded and then reloaded
    in place after a write to the header. *)
Definition demo_disk (d : nat) (path : string) : Source + string :=
  if path =s "a.c" then inl (mkSource (Some 7%N) ["int x;"])
  else if path =s "a.h" then inl (mkSource (Some (N.of_nat d)) [dec d])
  else inr "No such file or directory (os error 2)".
Definition demo_input : string := identity_input (fun _ => sixty_four "") (demo_disk 0) ["a.c"] None.
Definition demo_sha (s : string) : string :=
  if s =s "int x;" then sixty_four "" else "ff112233445566778899aabbccddeeff00112233445566778899aabbccddeeff".
Definition demo_hashed (s : string) : Prop := s = "int x;" \/ s = demo_input.

Lemma demo_length s : String.length (demo_sha s) = 64.
Proof. unfold demo_sha. by destruct (s =s "int x;"). Qed.
Lemma demo_hex s : sall is_ascii_hexdigit (demo_sha s) = true.
Proof. unfold demo_sha. by destruct (s =s "int x;"). Qed.
Lemma demo_no_collision s t : demo_hashed s -> demo_hashed t -> demo_sha s = demo_sha t -> s = t.
Proof. by intros [->| ->] [->| ->]. Qed.
Lemma demo_errors d path : sane (demo_disk d path).
Proof.
  unfold demo_disk. destruct (path =s "a.c"); [done|]. destruct (path =s "a.h"); [done|].
  split; [done|]. by exists "No such file or directory (os error 2".
Qed.

(** A front end that reads the first file, and the header when the file has a directive. *)
Definition demo_front_end (fs : string -> option string) (files : list string) (_ : ProjectLoadOptions) : list (option string) :=
  let text := match files with file :: _ => fs file | [] => None end in
  match text with Some source => if contains "#" source then [text; fs "a.h"] else [text] | None => [] end.

Lemma demo_reads fs fs' files options :
  force_includes options = [] -> compilation_database options = None ->
  (forall file, file ∈ files -> exists text, fs file = Some text
     /\ contains "#" text = false /\ contains "%:" text = false /\ contains "??=" text = false) ->
  (forall path, path ∈ named files (machdep options) -> fs path = fs' path) ->
  demo_front_end fs files options = demo_front_end fs' files options.
Proof.
  intros _ _ Ht Hs. unfold demo_front_end. destruct files as [|f files]; [done|].
  rewrite <- (Hs f) by left. destruct (Ht f ltac:(left)) as (text & -> & -> & _). done.
Qed.

Abbreviation demo_taken := (identity_taken demo_sha demo_hashed demo_disk).
Lemma demo_identity d : demo_taken d ["a.c"] None (loaded_source_state demo_sha (demo_disk d) ["a.c"] None).
Proof.
  constructor; [by right|]. intros path text Hin. apply list_elem_of_singleton in Hin as ->. intros [= <-]. by left.
Qed.

Definition demo_answers : Answers :=
  let identity := loaded_source_state demo_sha (demo_disk 0) ["a.c"] None in
  mkAnswers identity identity None (Listening 42 (inl 100%N)).
Definition demo_server : Server :=
  mkServer (Some (spawned_state (fun _ => false) None "frama-c" 7 "/tmp/fcmcp-0" None ["a.c"] no_options demo_answers 0 42 (inl 100%N))) (Some false) true 1.

