(* ===== verification/Requests.v ===== *)
(** * Requests of a tool call (what src/src/mcp/ sends over one client)

    A tool call is a sequence of requests to Frama-C with decisions between them.  This file
    has the computations the handlers are written in: a state that records every request
    sent and whether it was answered, the clock, the session and the main instance.  What
    Frama-C answers is a function of everything it was sent, so an answer may depend on all
    earlier requests. *)

From S2P Require Import Prelude RustStr Json Codec Client Session Errors MainInstance.
Local Open Scope nat_scope.

Inductive request :=
| Get (name : string) (arg : json)
| Set_ (name : string) (arg : json)
| Exec (name : string) (arg : json) (budget : N).

Definition request_name (r : request) : string := match r with Get name _ | Set_ name _ | Exec name _ _ => name end.
Definition request_arg (r : request) : json := match r with Get _ arg | Set_ _ arg | Exec _ arg _ => arg end.

(** How a request ends: its outcome, how long it took, and how many cancels of other calls
    landed meanwhile. *)
Record Reply := mkReply { outcome : result FramaCExecResult; took : N; cancels : N }.

(** What was sent, and whether it worked, latest last; the clock in milliseconds; the
    cancel epoch; the session; the main instance. *)
Record Sys := mkSys {
  sent : list (request * bool);
  clock : N;
  epoch : N;
  session : SessionState;
  server : Server;
}.

Definition set_session (f : SessionState -> SessionState) (s : Sys) : Sys :=
  mkSys (sent s) (clock s) (epoch s) (f (session s)) (server s).
Definition set_server (f : Server -> Server) (s : Sys) : Sys :=
  mkSys (sent s) (clock s) (epoch s) (session s) (f (server s)).

(** [None] is a loop that ran out of fuel. *)
Definition Tool (A : Type) : Type := Sys -> option ((A + ErrorData) * Sys).

Definition pure {A} (a : A) : Tool A := fun s => Some (inl a, s).
Definition raise {A} (e : ErrorData) : Tool A := fun s => Some (inr e, s).
Definition stuck {A} : Tool A := fun _ => None.
Definition andThen {A B} (m : Tool A) (k : A -> Tool B) : Tool B := fun s =>
  match m s with
  | Some (inl a, s') => k a s'
  | Some (inr e, s') => Some (inr e, s')
  | None => None
  end.
(** A result taken as a value, for code that matches on it instead of using [?]. *)
Definition try {A} (m : Tool A) : Tool (A + ErrorData) := fun s =>
  match m s with Some (r, s') => Some (inl r, s') | None => None end.
Definition from_sum {A} (r : A + ErrorData) : Tool A := match r with inl a => pure a | inr e => raise e end.
Definition gets {A} (f : Sys -> A) : Tool A := fun s => Some (inl (f s), s).
Definition modify (f : Sys -> Sys) : Tool unit := fun s => Some (inl tt, f s).

Notation "'let*' x := m 'in' k" := (andThen m (fun x => k)) (at level 10, x pattern, k at level 200) : fc_scope.
Notation "'do*' m 'in' k" := (andThen m (fun _ => k)) (at level 10, m at level 100, k at level 200) : fc_scope.

Fixpoint each {A B} (f : A -> Tool B) (l : list A) : Tool (list B) :=
  match l with
  | [] => pure []
  | a :: l => let* b := f a in let* bs := each f l in pure (b :: bs)
  end.

Definition succeeded {A} (r : result A) : bool := match r with Ok _ => true | Err _ => false end.

Section requests.
(** What Frama-C answers, how late a sleep ends, and the text of an error inside another. *)
Variable answer : list (request * bool) -> request -> Reply.
Variable late : list (request * bool) -> N.
Variable display_error : FramaCError -> string.

(** A request whose outcome is matched on. *)
Definition ask (r : request) : Tool (result FramaCExecResult) := fun s =>
  let a := answer (sent s) r in
  Some (inl (outcome a), mkSys (sent s ++ [(r, succeeded (outcome a))]) (clock s + took a)%N (epoch s + cancels a)%N (session s) (server s)).

(** [.map_err(McpError::from)?]. *)
Definition or_raise (o : result FramaCExecResult) : Tool FramaCExecResult :=
  match o with Ok a => pure a | Err e => raise (from_frama_c_error display_error e) end.
Definition send (r : request) : Tool FramaCExecResult := let* o := ask r in or_raise o.
Definition get (name : string) (arg : json) : Tool json := let* a := send (Get name arg) in pure (data a).
Definition set_ (name : string) (arg : json) : Tool unit := do* send (Set_ name arg) in pure tt.
Definition exec_ (name : string) (arg : json) (budget : N) : Tool json := let* a := send (Exec name arg budget) in pure (data a).

Definition pause (ms : N) : Tool unit := modify (fun s => mkSys (sent s) (clock s + ms + late (sent s))%N (epoch s) (session s) (server s)).

(** The client's paged fetch, as a call makes it. *)
Fixpoint pages (fuel : nat) (name : string) (entries : list json) : Tool (list json) :=
  match fuel with
  | O => stuck
  | S fuel =>
    let* page := get name (jN 20000) in
    let entries := add_page entries page in
    if (page_pending page =? 0)%N then pure entries else pages fuel name entries
  end.

(** Frama-C decides when a table has no more pages, so the fuel of a fetch is an argument. *)
Definition reload_fetch (fuel : nat) (reload_request fetch_request : string) : Tool (list json) :=
  do* get reload_request JNull in pages fuel fetch_request [].

Definition require_client : Tool unit :=
  let* client := gets (fun s => client (server s)) in
  match client with Some _ => pure tt | None => raise no_project_loaded_error end.
End requests.

(** ** What a computation leaves *)

Lemma andThen_Some {A B} (m : Tool A) (k : A -> Tool B) s r s2 :
  andThen m k s = Some (r, s2) ->
  (exists a s1, m s = Some (inl a, s1) /\ k a s1 = Some (r, s2)) \/ (exists e, m s = Some (inr e, s2) /\ r = inr e).
Proof. unfold andThen. destruct (m s) as [[[a|e] s1]|]; [|intros [= <- <-]; right|done]; eauto. Qed.

(** Every run of the computation takes a state with [P] to one with [Q], by its result. *)
Definition triple {A} (P : Sys -> Prop) (m : Tool A) (Q : A + ErrorData -> Sys -> Prop) : Prop :=
  forall s r s', P s -> m s = Some (r, s') -> Q r s'.

Lemma triple_pure {A} (P : Sys -> Prop) (a : A) (Q : A + ErrorData -> Sys -> Prop) : (forall s, P s -> Q (inl a) s) -> triple P (pure a) Q.
Proof. intros H s r s' HP [= <- <-]. by apply H. Qed.
Lemma triple_raise {A} (P : Sys -> Prop) e (Q : A + ErrorData -> Sys -> Prop) : (forall s, P s -> Q (inr e) s) -> triple P (raise e) Q.
Proof. intros H s r s' HP [= <- <-]. by apply H. Qed.
Lemma triple_bind {A B} P (m : Tool A) (k : A -> Tool B) (R : A -> Sys -> Prop) (Q : B + ErrorData -> Sys -> Prop) :
  triple P m (fun r s => match r with inl a => R a s | inr e => Q (inr e) s end) ->
  (forall a, triple (R a) (k a) Q) -> triple P (andThen m k) Q.
Proof.
  intros Hm Hk s r s' HP He. apply andThen_Some in He as [(a & s1 & He & Hr)|(e & He & ->)].
  - specialize (Hm _ _ _ HP He). by apply (Hk a) in Hr.
  - exact (Hm _ _ _ HP He).
Qed.
Lemma triple_try {A} P (m : Tool A) (Q : (A + ErrorData) + ErrorData -> Sys -> Prop) :
  triple P m (fun r => Q (inl r)) -> triple P (try m) Q.
Proof. intros H s r s' HP. unfold try. destruct (m s) as [[r0 s1]|] eqn:E; [|done]. intros [= <- <-]. by apply (H s). Qed.
Lemma triple_weaken {A} (P P' : Sys -> Prop) (m : Tool A) (Q Q' : A + ErrorData -> Sys -> Prop) :
  triple P' m Q' -> (forall s, P s -> P' s) -> (forall r s, Q' r s -> Q r s) -> triple P m Q.
Proof. intros H HP HQ s r s' Hs He. eapply HQ, H; [by apply HP|exact He]. Qed.
Lemma triple_gets {A} P (f : Sys -> A) (Q : A + ErrorData -> Sys -> Prop) : (forall s, P s -> Q (inl (f s)) s) -> triple P (gets f) Q.
Proof. intros H s r s' HP [= <- <-]. by apply H. Qed.
Lemma triple_modify P (f : Sys -> Sys) (Q : unit + ErrorData -> Sys -> Prop) : (forall s, P s -> Q (inl tt) (f s)) -> triple P (modify f) Q.
Proof. intros H s r s' HP [= <- <-]. by apply H. Qed.

(** Computations that always end. *)
Definition ends {A} (m : Tool A) : Prop := forall s, m s <> None.
Lemma ends_pure {A} (a : A) : ends (pure a). Proof. done. Qed.
Lemma ends_raise {A} e : ends (raise (A:=A) e). Proof. done. Qed.
Lemma ends_gets {A} (f : Sys -> A) : ends (gets f). Proof. done. Qed.
Lemma ends_modify f : ends (modify f). Proof. done. Qed.
Lemma ends_bind {A B} (m : Tool A) (k : A -> Tool B) : ends m -> (forall a, ends (k a)) -> ends (andThen m k).
Proof. intros Hm Hk s. unfold andThen. specialize (Hm s). destruct (m s) as [[[a|e] s1]|]; [apply Hk|done|done]. Qed.
Lemma ends_try {A} (m : Tool A) : ends m -> ends (try m).
Proof. intros Hm s. unfold try. specialize (Hm s). by destruct (m s) as [[]|]. Qed.
Lemma ends_from_sum {A} (r : A + ErrorData) : ends (from_sum r). Proof. by destruct r. Qed.
Lemma ends_each {A B} (f : A -> Tool B) l : (forall a, ends (f a)) -> ends (each f l).
Proof. intros Hf. induction l as [|a l IH]; [done|]. apply ends_bind; [done|]. intros b. by apply ends_bind. Qed.
#[export] Hint Resolve ends_pure ends_raise ends_gets ends_modify ends_bind ends_try ends_from_sum ends_each : fc.

Section request_lemmas.
Context (answer : list (request * bool) -> request -> Reply) (late : list (request * bool) -> N) (display_error : FramaCError -> string).

Lemma ends_ask r : ends (ask answer r). Proof. done. Qed.
Lemma ends_send r : ends (send answer display_error r).
Proof. apply ends_bind; [apply ends_ask|]. intros [a|e]; done. Qed.
Lemma ends_get name arg : ends (get answer display_error name arg).
Proof. apply ends_bind; [apply ends_send|done]. Qed.
Lemma ends_set name arg : ends (set_ answer display_error name arg).
Proof. apply ends_bind; [apply ends_send|done]. Qed.
Lemma ends_exec name arg budget : ends (exec_ answer display_error name arg budget).
Proof. apply ends_bind; [apply ends_send|done]. Qed.
Lemma ends_require_client : ends require_client.
Proof. apply ends_bind; [done|]. by intros [|]. Qed.

(** What is sent is only ever added to, and the clock does not go back. *)
Definition onward (s s' : Sys) : Prop := sent s `prefix_of` sent s' /\ (clock s <= clock s')%N.
#[export] Instance onward_preorder : PreOrder onward.
Proof. split; [split; [done|lia]|]. intros a b c [? ?] [? ?]. split; [by etrans|lia]. Qed.

Lemma ask_spec r s : ask answer r s = Some (inl (outcome (answer (sent s) r)),
  mkSys (sent s ++ [(r, succeeded (outcome (answer (sent s) r)))]) (clock s + took (answer (sent s) r))%N
    (epoch s + cancels (answer (sent s) r))%N (session s) (server s)).
Proof. done. Qed.

(** A request that worked is the last one sent, and worked; one that failed raises. *)
Lemma send_spec r s o s' : send answer display_error r s = Some (o, s') ->
  sent s' = sent s ++ [(r, match o with inl _ => true | inr _ => false end)] /\ (clock s <= clock s')%N
  /\ session s' = session s /\ server s' = server s.
Proof.
  unfold send, andThen. rewrite ask_spec. destruct (outcome (answer (sent s) r)) as [a|e]; intros [= <- <-]; cbn; split_and!; (done || lia).
Qed.
Lemma get_spec name arg s o s' : get answer display_error name arg s = Some (o, s') ->
  sent s' = sent s ++ [(Get name arg, match o with inl _ => true | inr _ => false end)] /\ (clock s <= clock s')%N
  /\ session s' = session s /\ server s' = server s.
Proof. intros [(a & s1 & H & [= <- <-])|(e & H & ->)]%andThen_Some; by apply send_spec in H. Qed.
Lemma set_spec name arg s o s' : set_ answer display_error name arg s = Some (o, s') ->
  sent s' = sent s ++ [(Set_ name arg, match o with inl _ => true | inr _ => false end)] /\ (clock s <= clock s')%N
  /\ session s' = session s /\ server s' = server s.
Proof. intros [(a & s1 & H & [= <- <-])|(e & H & ->)]%andThen_Some; by apply send_spec in H. Qed.
Lemma exec_spec name arg budget s o s' : exec_ answer display_error name arg budget s = Some (o, s') ->
  sent s' = sent s ++ [(Exec name arg budget, match o with inl _ => true | inr _ => false end)] /\ (clock s <= clock s')%N
  /\ session s' = session s /\ server s' = server s.
Proof. intros [(a & s1 & H & [= <- <-])|(e & H & ->)]%andThen_Some; by apply send_spec in H. Qed.
End request_lemmas.

#[export] Hint Resolve ends_ask ends_send ends_get ends_set ends_exec ends_require_client : fc.

(** ** Settings in force *)

(** The value a setter was last given, when that request worked. *)
Definition setting (name : string) (log : list (request * bool)) : option json :=
  fold_left (fun v e => match e with (Set_ n arg, true) => if n =s name then Some arg else v | _ => v end) log None.

Lemma setting_snoc name log r ok :
  setting name (log ++ [(r, ok)]) = match r with Set_ n arg => if ok && (n =s name) then Some arg else setting name log | _ => setting name log end.
Proof. unfold setting. rewrite fold_left_app. cbn. destruct r as [| n arg|], ok; try done. Qed.

(** ** What a computation may send *)

Definition log_entry : Type := request * bool.

(** What is sent from one state to another satisfies [P]. *)
Definition adds (P : log_entry -> Prop) (s s' : Sys) : Prop := exists l, sent s' = sent s ++ l /\ Forall P l.
Definition only {A} (P : log_entry -> Prop) (m : Tool A) : Prop := forall s r s', m s = Some (r, s') -> adds P s s'.

Lemma adds_refl P s : adds P s s.
Proof. exists []. by rewrite app_nil_r. Qed.
Lemma adds_trans P s s1 s2 : adds P s s1 -> adds P s1 s2 -> adds P s s2.
Proof. intros (l & He & Hl) (l1 & He1 & Hl1). exists (l ++ l1). rewrite He1, He, app_assoc. split; [done|]. by apply Forall_app. Qed.

Lemma only_pure {A} P (a : A) : only P (pure a).
Proof. intros s r s' [= _ <-]. apply adds_refl. Qed.
Lemma only_raise {A} P e : only P (raise (A:=A) e).
Proof. intros s r s' [= _ <-]. apply adds_refl. Qed.
Lemma only_from_sum {A} P (x : A + ErrorData) : only P (from_sum x).
Proof. destruct x; [apply only_pure|apply only_raise]. Qed.
Lemma only_stuck {A} P : only P (stuck (A:=A)).
Proof. done. Qed.
Lemma only_gets {A} P (f : Sys -> A) : only P (gets f).
Proof. intros s r s' [= _ <-]. apply adds_refl. Qed.
Lemma only_modify P f : (forall s, sent (f s) = sent s) -> only P (modify f).
Proof. intros Hf s r s' [= _ <-]. exists []. by rewrite Hf, app_nil_r. Qed.
Lemma only_bind {A B} P (m : Tool A) (k : A -> Tool B) : only P m -> (forall a, only P (k a)) -> only P (andThen m k).
Proof.
  intros Hm Hk s r s' [(a & s1 & H1 & H2)|(e & H1 & ->)]%andThen_Some; [|by apply Hm in H1].
  eapply adds_trans; [by eapply Hm|by eapply Hk].
Qed.
Lemma only_try {A} P (m : Tool A) : only P m -> only P (try m).
Proof. intros Hm s r s'. unfold try. destruct (m s) as [[r0 s1]|] eqn:E; [|done]. intros [= _ <-]. by eapply Hm. Qed.
Lemma only_each {A B} P (f : A -> Tool B) l : (forall a, only P (f a)) -> only P (each f l).
Proof. intros Hf. induction l as [|a l IH]; [apply only_pure|]. apply only_bind; [done|]. intros b. apply only_bind; [done|]. intros ?. apply only_pure. Qed.
Lemma only_weaken {A} (P Q : log_entry -> Prop) (m : Tool A) : (forall e, P e -> Q e) -> only P m -> only Q m.
Proof. intros HPQ Hm s r s' H. destruct (Hm s r s' H) as (l & Hl & HP). exists l. split; [done|]. by eapply Forall_impl. Qed.
Lemma only_require_client P : only P require_client.
Proof. apply only_bind; [apply only_gets|]. intros [|]; [apply only_pure|apply only_raise]. Qed.

#[export] Hint Resolve only_pure only_raise only_from_sum only_stuck only_gets only_bind only_try only_each only_require_client : fc.

Section only_requests.
Context (answer : list (request * bool) -> request -> Reply) (late : list (request * bool) -> N) (display_error : FramaCError -> string).
Context (P : log_entry -> Prop).

Lemma only_ask r : (forall ok, P (r, ok)) -> only P (ask answer r).
Proof. intros HP s o s' H. rewrite ask_spec in H. injection H as _ <-. eexists. split; [reflexivity|]. by constructor. Qed.
Lemma only_send r : (forall ok, P (r, ok)) -> only P (send answer display_error r).
Proof. intros HP. apply only_bind; [by apply only_ask|]. intros [a|e]; [apply only_pure|apply only_raise]. Qed.
Lemma only_get name arg : (forall ok, P (Get name arg, ok)) -> only P (get answer display_error name arg).
Proof. intros HP. apply only_bind; [by apply only_send|]. intros a. apply only_pure. Qed.
Lemma only_set name arg : (forall ok, P (Set_ name arg, ok)) -> only P (set_ answer display_error name arg).
Proof. intros HP. apply only_bind; [by apply only_send|]. intros a. apply only_pure. Qed.
Lemma only_exec name arg budget : (forall ok, P (Exec name arg budget, ok)) -> only P (exec_ answer display_error name arg budget).
Proof. intros HP. apply only_bind; [by apply only_send|]. intros a. apply only_pure. Qed.
Lemma only_pause ms : only P (pause late ms).
Proof. apply only_modify. done. Qed.
Lemma only_pages fuel name entries : (forall arg ok, P (Get name arg, ok)) -> only P (pages answer display_error fuel name entries).
Proof.
  intros HP. revert entries. induction fuel as [|fuel IH]; intros entries; [apply only_stuck|].
  apply only_bind; [by apply only_get|]. intros page. cbn. destruct (page_pending _ =? 0)%N; [apply only_pure|apply IH].
Qed.
Lemma only_reload_fetch fuel name name' : (forall n arg ok, P (Get n arg, ok)) -> only P (reload_fetch answer display_error fuel name name').
Proof. intros HP. apply only_bind; [by apply only_get|]. intros _. by apply only_pages. Qed.
End only_requests.

#[export] Hint Resolve only_ask only_send only_get only_set only_exec only_pause only_pages only_reload_fetch : fc.

(** ** Requests that are only sent under settings in force *)

(** From a state with [P], every request sent that [t] is about is sent after a log with [G]. *)
Definition watched {A} (G : list log_entry -> Prop) (t : request -> bool) (P : Sys -> Prop) (m : Tool A) (Q : A -> Sys -> Prop) : Prop :=
  forall s r s', P s -> m s = Some (r, s') ->
    exists l, sent s' = sent s ++ l /\ (forall pre e post, l = pre ++ e :: post -> t e.1 = true -> G (sent s ++ pre))
      /\ match r with inl a => Q a s' | inr _ => True end.

Section watched_rules.
Context (G : list log_entry -> Prop) (t : request -> bool).

Lemma watched_bind {A B} P (m : Tool A) (k : A -> Tool B) R Q :
  watched G t P m R -> (forall a, watched G t (R a) (k a) Q) -> watched G t P (andThen m k) Q.
Proof.
  intros Hm Hk s r s' HP [(a & s1 & H1 & H2)|(e & H1 & ->)]%andThen_Some.
  - destruct (Hm _ _ _ HP H1) as (l & Hl & Hg & HR). destruct (Hk a _ _ _ HR H2) as (l1 & Hl1 & Hg1 & HQ).
    exists (l ++ l1). rewrite Hl1, Hl, app_assoc. split_and!; [done| |exact HQ].
    intros pre e post He Ht. symmetry in He. destruct (decide (length pre < length l)) as [Hlt|Hge].
    + assert (Hpre : exists post', l = pre ++ e :: post').
      { apply (f_equal (take (length l))) in He. rewrite take_app_length, take_app_ge in He by lia.
        destruct (length l - length pre) as [|n] eqn:En; [lia|]. cbn in He. eauto. }
      destruct Hpre as [post' ->]. by eapply Hg.
    + assert (Hpre : exists pre', pre = l ++ pre' /\ l1 = pre' ++ e :: post).
      { exists (drop (length l) pre). apply (f_equal (drop (length l))) in He as Hd. rewrite drop_app_length, drop_app_le in Hd by lia.
        apply (f_equal (take (length l))) in He. rewrite take_app_length, take_app_le in He by lia.
        split; [|done]. rewrite <- He at 1. by rewrite take_drop. }
      destruct Hpre as (pre' & -> & ->). rewrite app_assoc, <- Hl. by eapply Hg1.
  - destruct (Hm _ _ _ HP H1) as (l & Hl & Hg & _). by exists l.
Qed.

(** Nothing [t] is about is sent. *)
Lemma watched_quiet {A} P (m : Tool A) (Q : A -> Sys -> Prop) : only (fun e => t e.1 = false) m ->
  triple P m (fun r s => match r with inl a => Q a s | inr _ => True end) -> watched G t P m Q.
Proof.
  intros Ho Ht s r s' HP H. destruct (Ho _ _ _ H) as (l & Hl & Hq). exists l. split; [done|]. split; [|exact (Ht _ _ _ HP H)].
  intros pre e post -> He. apply Forall_app in Hq as [_ [Hq _]%Forall_cons]. congruence.
Qed.

(** What is sent keeps [G]. *)
Lemma watched_keeping {A} (K : log_entry -> Prop) (m : Tool A) :
  (forall log e, G log -> K e -> G (log ++ [e])) -> only K m ->
  watched G t (fun s => G (sent s)) m (fun _ s => G (sent s)).
Proof.
  intros Hk Ho s r s' HP H. destruct (Ho _ _ _ H) as (l & Hl & Hq).
  assert (Happ : forall l1, Forall K l1 -> G (sent s ++ l1)).
  { induction l1 as [|e l1 IH] using rev_ind; intros Hf; [by rewrite app_nil_r|].
    apply Forall_app in Hf as [Hf [He _]%Forall_cons]. rewrite app_assoc. by apply Hk; [apply IH|]. }
  exists l. split_and!; [done| |destruct r; [rewrite Hl; by apply Happ|done]].
  intros pre e post -> _. apply Happ. by apply Forall_app in Hq as [? _].
Qed.

Lemma watched_weaken {A} (P P' : Sys -> Prop) (m : Tool A) (Q Q' : A -> Sys -> Prop) :
  watched G t P' m Q' -> (forall s, P s -> P' s) -> (forall a s, Q' a s -> Q a s) -> watched G t P m Q.
Proof.
  intros H HP HQ s r s' Hs He. destruct (H s r s' (HP _ Hs) He) as (l & Hl & Hg & Hr). exists l. split_and!; [done..|].
  destruct r; [by apply HQ|done].
Qed.
End watched_rules.

(** What a computation may send, by its shape: one step at a time, a named computation is
    left to its own lemma. *)
Ltac only_step :=
  lazymatch goal with
  | |- only _ (andThen _ _) => apply only_bind; [|intros ?]
  | |- only _ (pure _) => apply only_pure
  | |- only _ (raise _) => apply only_raise
  | |- only _ (from_sum _) => apply only_from_sum
  | |- only _ (gets _) => apply only_gets
  | |- only _ stuck => apply only_stuck
  | |- only _ require_client => apply only_require_client
  | |- only _ (modify _) => apply only_modify; reflexivity
  | |- only _ (try _) => apply only_try
  | |- only _ (each _ _) => apply only_each; intros ?
  | |- only _ (ask _ _) => apply only_ask; intros ?
  | |- only _ (send _ _ _) => apply only_send; intros ?
  | |- only _ (get _ _ _ _) => apply only_get; intros ?
  | |- only _ (set_ _ _ _ _) => apply only_set; intros ?
  | |- only _ (exec_ _ _ _ _ _) => apply only_exec; intros ?
  | |- only _ (pause _ _) => apply only_pause
  | |- only _ (reload_fetch _ _ _ _ _) => apply only_reload_fetch; intros ? ? ?
  | |- only _ (match ?x with _ => _ end) => destruct x
  | |- only _ (if ?x then _ else _) => destruct x
  | |- only _ (let '_ := ?x in _) => destruct x
  end.
Ltac only_tac := repeat only_step.

Section more_watched.
Context (G : list log_entry -> Prop) (t : request -> bool).

Lemma watched_silent {A} P (m : Tool A) : only (fun e => t e.1 = false) m -> watched G t P m (fun _ _ => True).
Proof. intros Ho. apply watched_quiet; [done|]. intros s r s' _ _. by destruct r. Qed.

Lemma watched_try {A} P (m : Tool A) Q : watched G t P m Q ->
  watched G t P (try m) (fun r s => match r with inl a => Q a s | inr _ => True end).
Proof.
  intros Hm s r s' HP. unfold try. destruct (m s) as [[r0 s1]|] eqn:E; [|done]. intros [= <- <-].
  destruct (Hm _ _ _ HP E) as (l & Hl & Hg & Hr). by exists l.
Qed.
End more_watched.

(** ** What leaves the session alone, and what never raises *)

Lemma try_Some {A} (m : Tool A) s r s' : try m s = Some (r, s') -> exists o, r = inl o /\ m s = Some (o, s').
Proof. unfold try. destruct (m s) as [[o s1]|]; [|done]. intros [= <- <-]. by exists o. Qed.

Definition keeps_session {A} (m : Tool A) : Prop := forall s r s', m s = Some (r, s') -> session s' = session s.

Lemma keeps_session_bind {A B} (m : Tool A) (k : A -> Tool B) : keeps_session m -> (forall a, keeps_session (k a)) -> keeps_session (andThen m k).
Proof.
  intros Hm Hk s r s' [(a & s1 & H1 & H2)|(e & H1 & _)]%andThen_Some; [|by eapply Hm].
  rewrite (Hk _ _ _ _ H2). by eapply Hm.
Qed.
Lemma keeps_session_pure {A} (a : A) : keeps_session (pure a). Proof. by intros s r s' [= _ <-]. Qed.
Lemma keeps_session_raise {A} e : keeps_session (raise (A:=A) e). Proof. by intros s r s' [= _ <-]. Qed.
Lemma keeps_session_gets {A} (f : Sys -> A) : keeps_session (gets f). Proof. by intros s r s' [= _ <-]. Qed.
Lemma keeps_session_try {A} (m : Tool A) : keeps_session m -> keeps_session (try m).
Proof. intros Hm s r s' H. apply try_Some in H as (o & _ & H). by eapply Hm. Qed.
Lemma keeps_session_each {A B} (f : A -> Tool B) l : (forall a, keeps_session (f a)) -> keeps_session (each f l).
Proof.
  intros Hf. induction l as [|a l IH]; [apply keeps_session_pure|]. do 2 (apply keeps_session_bind; [done|intros]). apply keeps_session_pure.
Qed.
Lemma keeps_session_ask answer r : keeps_session (ask answer r). Proof. by intros s o s' [= _ <-]. Qed.
Lemma keeps_session_send answer display r : keeps_session (send answer display r).
Proof. apply keeps_session_bind; [apply keeps_session_ask|]. intros []; [apply keeps_session_pure|apply keeps_session_raise]. Qed.
Lemma keeps_session_get answer display name arg : keeps_session (get answer display name arg).
Proof. apply keeps_session_bind; [apply keeps_session_send|intros; apply keeps_session_pure]. Qed.
Lemma keeps_session_set answer display name arg : keeps_session (set_ answer display name arg).
Proof. apply keeps_session_bind; [apply keeps_session_send|intros; apply keeps_session_pure]. Qed.
Lemma keeps_session_exec answer display name arg budget : keeps_session (exec_ answer display name arg budget).
Proof. apply keeps_session_bind; [apply keeps_session_send|intros; apply keeps_session_pure]. Qed.
Lemma keeps_session_require_client : keeps_session require_client.
Proof. apply keeps_session_bind; [apply keeps_session_gets|]. intros []; [apply keeps_session_pure|apply keeps_session_raise]. Qed.
Lemma keeps_session_pages answer display fuel name : forall entries, keeps_session (pages answer display fuel name entries).
Proof.
  induction fuel as [|fuel IH]; intros entries; [done|]. apply keeps_session_bind; [apply keeps_session_get|]. intros page.
  destruct (_ =? _)%N; [apply keeps_session_pure|apply IH].
Qed.

Definition never_raises {A} (m : Tool A) : Prop := forall s o s', m s = Some (o, s') -> exists a, o = inl a.

Lemma never_raises_bind {A B} (m : Tool A) (k : A -> Tool B) : never_raises m -> (forall a, never_raises (k a)) -> never_raises (andThen m k).
Proof.
  intros Hm Hk s o s' [(a & s1 & _ & H)|(e & H & _)]%andThen_Some; [by eapply Hk|]. by destruct (Hm _ _ _ H).
Qed.
Lemma never_raises_pure {A} (a : A) : never_raises (pure a). Proof. intros s o s' [= <- _]. by exists a. Qed.
Lemma never_raises_gets {A} (f : Sys -> A) : never_raises (gets f). Proof. intros s o s' [= <- _]. by eexists. Qed.
Lemma never_raises_modify f : never_raises (modify f). Proof. intros s o s' [= <- _]. by eexists. Qed.
Lemma never_raises_ask answer r : never_raises (ask answer r). Proof. intros s o s' [= <- _]. by eexists. Qed.
Lemma never_raises_try {A} (m : Tool A) : never_raises (try m). Proof. intros s o s' H. apply try_Some in H as (r & -> & _). by exists r. Qed.
Lemma never_raises_each {A B} (f : A -> Tool B) l : (forall a, never_raises (f a)) -> never_raises (each f l).
Proof. intros Hf. induction l as [|a l IH]; [apply never_raises_pure|]. do 2 (apply never_raises_bind; [done|intros]). apply never_raises_pure. Qed.
