(* ===== verification/WpTasks.v ===== *)
(** * Proof tasks over one client (src/src/mcp/server.rs, src/src/mcp/analysis.rs)

    Reading Frama-C's messages and waiting for WP's queue, with their bounds, and what
    schedules proofs and reads goals back.  The settings of a run are pushed here too. *)

From S2P Require Import Prelude RustStr Json Codec Client Session Verdicts Rows StableId WpConfig Errors MainInstance Requests.
Local Open Scope nat_scope.

(** ** Messages *)

Definition LOG_FLUSH_LIMIT : nat := 100.
Definition LOG_FLUSH_ROUNDS : nat := 20.

Definition is_diagnostic_message (message : json) : bool :=
  match get_str "kind" message with Some kind => one_of kind ["ERROR"; "WARNING"; "FAILURE"] | None => false end.

(** ** The queue *)

(** The sum is of the width of its terms. *)
Definition wp_pending_task_count (tasks : json) : option N :=
  match as_object tasks with
  | None => None
  | Some _ => match get_u64 "todo" tasks, get_u64 "active" tasks with Some todo, Some active => Some ((todo + active) mod 2 ^ 64)%N | _, _ => None end
  end.

Definition left_running (pending budget : N) : json :=
  JObj [("pending", jN pending); ("waited_seconds", jN (budget / 1000));
        ("note", JStr "WP is still proving. The goals below are what existed when the wait ran out.")].

(** The last answer as it is handed back: the wait is over or ran out. *)
Definition settle_tasks (pending budget : N) (tasks : json) : json :=
  let tasks := put "drained" (JBool (pending =? 0)%N) tasks in
  if (0 <? pending)%N then put "left_running" (left_running pending budget) tasks else tasks.

Definition WP_PROOF_BUDGET : N := 600000.
Definition WP_DRAIN_BUDGET : N := WP_PROOF_BUDGET.

Definition mark_cancelled_mid_run (tasks : json) : json :=
  match as_object tasks with
  | Some _ => put "cancelled_mid_run" (JBool true) (put "drained" (JBool false) tasks)
  | None => JObj [("tasks", tasks); ("drained", JBool false); ("cancelled_mid_run", JBool true)]
  end.

Section tasks.
Variable answer : list (request * bool) -> request -> Reply.
Variable late : list (request * bool) -> N.
Variable display_error : FramaCError -> string.
Abbreviation ask := (ask answer).
Abbreviation send := (send answer display_error).
Abbreviation get := (get answer display_error).
Abbreviation set_ := (set_ answer display_error).
Abbreviation exec_ := (exec_ answer display_error).
Abbreviation reload_fetch := (reload_fetch answer display_error).

Definition enable_log_monitoring : Tool unit := do* ask (Set_ "kernel.services.setLogs" (JBool true)) in pure tt.

Fixpoint flush_rounds (rounds : nat) (messages : list json) : Tool (list json * bool) :=
  match rounds with
  | O => pure (messages, true)
  | S rounds =>
    let* batch := ask (Get "kernel.services.getLogs" JNull) in
    match batch with
    | Err _ => pure (messages, true)
    | Ok batch =>
      match as_array (data batch) with
      | None => pure (messages, true)
      | Some batch =>
        let messages := messages ++ bfilter is_diagnostic_message batch in
        if length batch <? LOG_FLUSH_LIMIT then pure (messages, false) else flush_rounds rounds messages
      end
    end
  end.
Definition drain_messages : Tool (list json * bool) := flush_rounds LOG_FLUSH_ROUNDS [].

Fixpoint drain_loop (fuel : nat) (budget deadline backoff : N) : Tool json :=
  match fuel with
  | O => stuck
  | S fuel =>
    let* tasks := get "plugins.wp.getScheduledTasks" JNull in
    match wp_pending_task_count tasks with
    | None => pure tasks
    | Some pending =>
      let* now := gets clock in
      if (0 <? pending)%N && (now <? deadline)%N
      then do* pause late backoff in drain_loop fuel budget deadline (N.min (backoff * 2) 500)
      else pure (settle_tasks pending budget tasks)
    end
  end.

(** Every turn but the last sleeps 50 ms or more before the deadline. *)
Definition drain_fuel (budget : N) : nat := S (N.to_nat (budget / 50 + 1)).
Definition drain_wp_tasks (budget : N) : Tool json :=
  let* started := gets clock in drain_loop (drain_fuel budget) budget (started + budget)%N 50.

(** ** Scheduling *)

Variable debug_str : string -> string.

Definition with_code (code : ErrorCode) {A} (r : A + McpError) : A + ErrorData := match r with inl a => inl a | inr e => inr (mkErrorData code e) end.

Definition exec_diagnostics (arg : json) : Tool json :=
  let* proof := send (Exec "plugins.wp.startProofs" arg WP_PROOF_BUDGET) in pure (diagnostics_json (diagnostics proof)).

Definition start_one (decl_marker : string) : Tool json :=
  let* marker :=
    (if starts_with "#p" decl_marker then pure decl_marker
     else do* get "kernel.ast.printDeclaration" (JStr decl_marker) in from_sum (with_code InternalError (pvdecl_marker debug_str decl_marker))) in
  exec_diagnostics (JStr marker).

Definition start_wp_proofs (decl_markers : option (list string)) : Tool (list json) :=
  match decl_markers with
  | None => let* d := exec_diagnostics JNull in pure [d]
  | Some decl_markers => each start_one decl_markers
  end.

(** A Frama-C without the request, or one that fails it, leaves the provenance unknown. *)
Definition fetch_wp_goals (fuel : nat) : Tool (list json) :=
  let* goals := reload_fetch fuel "plugins.wp.reloadGoals" "plugins.wp.fetchGoals" in
  let ids := collect_some (get_str "wpo") goals in
  let* stats :=
    (if bool_decide (ids = []) then pure JNull
     else let* o := ask (Get "plugins.ast-utils.getGoalCacheStats" (JObj [("goals", JArr (map JStr ids))])) in
          pure match o with Ok a => data a | Err _ => JNull end) in
  pure (apply_cache_provenance goals stats).

Definition fetch_properties (fuel : nat) : Tool (list json) :=
  let* properties := reload_fetch fuel "kernel.properties.reloadStatus" "kernel.properties.fetchStatus" in
  pure (add_ordered_instance_vacuity_warnings (map add_identity_fields properties)).

Definition prove_and_fetch (fuel : nat) (decl_markers : option (list string)) : Tool (list json) :=
  do* start_wp_proofs decl_markers in do* drain_wp_tasks WP_DRAIN_BUDGET in fetch_wp_goals fuel.
End tasks.

(** ** Theorems *)

Section task_theorems.
Context (answer : list (request * bool) -> request -> Reply) (late : list (request * bool) -> N) (display_error : FramaCError -> string)
  (debug_str : string -> string).
Abbreviation get := (get answer display_error).
Abbreviation drain := (drain_wp_tasks answer late display_error).

(** What an answer's two counters say is left to prove. *)
Definition left_to_prove (tasks : json) (pending : N) : Prop :=
  exists todo active, get_u64 "todo" tasks = Some todo /\ get_u64 "active" tasks = Some active /\ pending = ((todo + active) mod 2 ^ 64)%N.

Lemma pending_counted tasks pending : wp_pending_task_count tasks = Some pending <-> left_to_prove tasks pending.
Proof.
  unfold wp_pending_task_count, left_to_prove. split.
  - destruct (as_object tasks); [|done]. destruct (get_u64 "todo" tasks) as [todo|], (get_u64 "active" tasks) as [active|]; try done.
    intros [= <-]. by eexists _, _.
  - intros (todo & active & Ht & Ha & ->). destruct tasks; try done. cbn [as_object]. by rewrite Ht, Ha.
Qed.

(** Turns of the wait that found goals left before the deadline, from one state to another. *)
Inductive polled (deadline : N) : N -> nat -> Sys -> Sys -> Prop :=
| polled_none backoff s : polled deadline backoff 0 s s
| polled_turn backoff n s tasks pending s1 s2 s' :
    get "plugins.wp.getScheduledTasks" JNull s = Some (inl tasks, s1) ->
    left_to_prove tasks pending -> (0 < pending)%N -> (clock s1 < deadline)%N ->
    pause late backoff s1 = Some (inl tt, s2) ->
    polled deadline (N.min (backoff * 2) 500) n s2 s' -> polled deadline backoff (S n) s s'.

(** What the wait hands back for its last answer: the answer itself when a counter is missing,
    else the answer with its verdict on the queue. *)
Inductive settled (budget deadline now : N) (tasks : json) : json -> Prop :=
| settled_unknown : (get_u64 "todo" tasks = None \/ get_u64 "active" tasks = None) -> settled budget deadline now tasks tasks
| settled_drained answered : left_to_prove tasks 0 ->
    answered .? "drained" = Some (JBool true) ->
    (forall k, k <> "drained" -> answered .? k = tasks .? k) -> settled budget deadline now tasks answered
| settled_left answered pending : left_to_prove tasks pending -> (0 < pending)%N -> (deadline <= now)%N ->
    answered .? "drained" = Some (JBool false) ->
    answered .? "left_running" = Some (JObj [("pending", jN pending); ("waited_seconds", jN (budget / 1000));
        ("note", JStr "WP is still proving. The goals below are what existed when the wait ran out.")]) ->
    (forall k, k <> "drained" -> k <> "left_running" -> answered .? k = tasks .? k) -> settled budget deadline now tasks answered.

(** How the wait ends on the answer of one more request. *)
Definition last_answer (budget deadline : N) (s : Sys) (r : json + ErrorData) (s' : Sys) : Prop :=
  exists o, get "plugins.wp.getScheduledTasks" JNull s = Some (o, s') /\
    match o with
    | inr e => r = inr e
    | inl tasks => exists answered, r = inl answered /\ settled budget deadline (clock s') tasks answered
    end.

Lemma settle_settled pending budget deadline now tasks :
  wp_pending_task_count tasks = Some pending -> (pending = 0 \/ deadline <= now)%N -> settled budget deadline now tasks (settle_tasks pending budget tasks).
Proof.
  intros Hp Hd. assert (exists m, tasks = JObj m) as [m ->] by (destruct tasks; try done; by eexists).
  apply pending_counted in Hp. unfold settle_tasks. destruct (N.ltb_spec 0 pending) as [Hlt|Hle].
  - assert (pending =? 0 = false)%N as -> by (apply N.eqb_neq; lia). eapply settled_left; [done|done|lia|..]; unfold put; cbn [Json.get map_object].
    + rewrite map_get_insert_ne by done. by rewrite map_get_insert.
    + by rewrite map_get_insert.
    + intros k H1 H2. by rewrite !map_get_insert_ne by done.
  - assert (pending = 0%N) as -> by lia. apply settled_drained; [done|..]; unfold put; cbn [Json.get map_object].
    + by rewrite map_get_insert.
    + intros k H1. by rewrite map_get_insert_ne by done.
Qed.

Lemma uncounted_settled budget deadline now tasks : wp_pending_task_count tasks = None -> settled budget deadline now tasks tasks.
Proof.
  intros Hp. apply settled_unknown. destruct (get_u64 "todo" tasks) as [todo|] eqn:Ht; [|by left]. destruct (get_u64 "active" tasks) as [active|] eqn:Ha; [|by right].
  exfalso. assert (left_to_prove tasks ((todo + active) mod 2 ^ 64)%N) as H%pending_counted by (by eexists _, _). congruence.
Qed.

Lemma drain_loop_turn fuel budget deadline backoff :
  drain_loop answer late display_error (S fuel) budget deadline backoff =
  let* tasks := get "plugins.wp.getScheduledTasks" JNull in
  match wp_pending_task_count tasks with
  | None => pure tasks
  | Some pending =>
    let* now := gets clock in
    if (0 <? pending)%N && (now <? deadline)%N
    then do* pause late backoff in drain_loop answer late display_error fuel budget deadline (N.min (backoff * 2) 500)
    else pure (settle_tasks pending budget tasks)
  end.
Proof. reflexivity. Qed.

Lemma drain_loop_ends budget deadline fuel : forall backoff s, (50 <= backoff)%N ->
  (deadline <= clock s + 50 * N.of_nat fuel)%N ->
  exists n s1 r s', drain_loop answer late display_error (S fuel) budget deadline backoff s = Some (r, s')
    /\ polled deadline backoff n s s1 /\ last_answer budget deadline s1 r s'.
Proof.
  induction fuel as [|fuel IH]; intros backoff s Hb Hf; rewrite drain_loop_turn; unfold andThen at 1;
    destruct (get "plugins.wp.getScheduledTasks" JNull s) as [[[tasks|e] s1]|] eqn:Hg; try (by apply ends_get in Hg);
    try (exists 0, s; eexists _, _; split; [reflexivity|]; split; [constructor|]; by eexists; split; [exact Hg|]).
  all: destruct (wp_pending_task_count tasks) as [pending|] eqn:Hp;
    [|exists 0, s; eexists _, _; split; [reflexivity|]; split; [constructor|]; eexists; split; [exact Hg|]; cbn; eexists; split; [reflexivity|];
      by apply uncounted_settled].
  all: unfold andThen at 1, gets at 1; destruct (N.ltb_spec 0 pending) as [Hlt|Hle]; cbn [andb];
    [|exists 0, s; eexists _, _; split; [reflexivity|]; split; [constructor|]; eexists; split; [exact Hg|]; eexists; split; [reflexivity|];
      apply settle_settled; [done|lia]].
  all: destruct (N.ltb_spec (clock s1) deadline) as [Hd|Hd];
    [|exists 0, s; eexists _, _; split; [reflexivity|]; split; [constructor|]; eexists; split; [exact Hg|]; eexists; split; [reflexivity|];
      apply settle_settled; [done|lia]].
  all: apply get_spec in Hg as Hgs; destruct Hgs as (_ & Hc & _ & _).
  { lia. }
  unfold andThen, pause, modify. set (s2 := mkSys _ _ _ _ _).
  destruct (IH (N.min (backoff * 2) 500) s2) as (n & s3 & r & s' & -> & Hpolled & Hlast); [lia|subst s2; cbn; lia|].
  exists (S n), s3, r, s'. split; [done|]. split; [|done]. apply pending_counted in Hp. by eapply polled_turn.
Qed.

(** The first sleeps are shorter than 500 ms, by 500, 400, 300 and 100. *)
Definition head_start (backoff : N) : N :=
  (500 - backoff) + (500 - N.min (backoff * 2) 500) + (500 - N.min (backoff * 4) 500) + (500 - N.min (backoff * 8) 500).

Lemma polled_bound deadline backoff n s s' : polled deadline backoff n s s' -> (50 <= backoff <= 500)%N -> n <> 0 ->
  (clock s < deadline /\ 500 * N.of_nat n < (deadline - clock s) + 500 + head_start backoff)%N.
Proof.
  induction 1 as [|backoff n s tasks pending s1 s2 s' Hg _ _ Hd Hs Hp IH]; intros Hb Hn; [done|].
  apply get_spec in Hg as (_ & Hc & _ & _). injection Hs as <-. split; [lia|]. destruct n as [|n]; [lia|].
  assert (Hmin : (50 <= N.min (backoff * 2) 500 <= 500)%N) by lia. specialize (IH Hmin ltac:(done)). cbn [clock] in IH.
  unfold head_start in *. lia.
Qed.

(** C8: waiting for WP always ends, and says why.  From any state, whatever Frama-C answers
    and however late its answers and the sleeps are, the wait asks fewer than
    [(budget + 1750) / 500] times before its last request and then stops; every earlier
    answer left goals to prove before the deadline.  A last request that failed is the
    wait's error.  Else it hands the last answer back: with [drained] true exactly when both
    counters are there and their sum is zero; with [drained] false, and what is left under
    [left_running], only once the deadline passed; and as it came, for the caller to read
    as unknown, when a counter is missing.  Nothing else of the answer changes. *)
Theorem drain_settles budget s : exists n s1 r s', drain budget s = Some (r, s')
  /\ polled (clock s + budget) 50 n s s1 /\ (500 * N.of_nat n < budget + 1750)%N /\ last_answer budget (clock s + budget) s1 r s'.
Proof.
  unfold drain_wp_tasks, andThen, gets. unfold drain_fuel.
  destruct (drain_loop_ends budget (clock s + budget) (N.to_nat (budget / 50 + 1)) 50 s) as (n & s1 & r & s' & -> & Hp & Hl).
  { lia. }
  { rewrite N2Nat.id. pose proof (N.mod_lt budget 50). pose proof (N.div_mod budget 50). lia. }
  exists n, s1, r, s'. split_and!; try done. destruct (decide (n = 0)) as [->|Hn]; [lia|].
  apply polled_bound in Hp as [_ Hp]; [|lia|done]. unfold head_start in Hp. lia.
Qed.

(** *** Messages *)

(** Rounds that came back full, and what they held. *)
Inductive flushed : list json -> nat -> Sys -> Sys -> Prop :=
| flushed_none s : flushed [] 0 s s
| flushed_full batch v l n s s' (s1 := mkSys (sent s ++ [(Get "kernel.services.getLogs" JNull, true)])
      (clock s + took (answer (sent s) (Get "kernel.services.getLogs" JNull)))%N
      (epoch s + cancels (answer (sent s) (Get "kernel.services.getLogs" JNull)))%N (session s) (Requests.server s)) :
    outcome (answer (sent s) (Get "kernel.services.getLogs" JNull)) = Ok v -> as_array (data v) = Some batch ->
    LOG_FLUSH_LIMIT <= length batch -> flushed l n s1 s' -> flushed (batch ++ l) (S n) s s'.

(** What the round after the full ones holds, when it is a short batch. *)
Definition last_batch (s : Sys) : option (list json) :=
  match outcome (answer (sent s) (Get "kernel.services.getLogs" JNull)) with
  | Ok v => match as_array (data v) with Some batch => then_some (length batch <? LOG_FLUSH_LIMIT) batch | None => None end
  | Err _ => None
  end.

Lemma flush_rounds_spec rounds : forall messages s, exists n l s1 s',
  n <= rounds /\ flushed l n s s1 /\
  flush_rounds answer rounds messages s =
    Some (inl (match (if n =? rounds then None else last_batch s1) with
               | Some batch => (messages ++ bfilter is_diagnostic_message (l ++ batch), false)
               | None => (messages ++ bfilter is_diagnostic_message l, true)
               end), s')
  /\ (n <> rounds -> ~ (exists v batch, outcome (answer (sent s1) (Get "kernel.services.getLogs" JNull)) = Ok v
                          /\ as_array (data v) = Some batch /\ LOG_FLUSH_LIMIT <= length batch)).
Proof.
  induction rounds as [|rounds IH]; intros messages s.
  { exists 0, [], s, s. split_and!; [done|constructor| |done]. cbn. by rewrite app_nil_r. }
  destruct (outcome (answer (sent s) (Get "kernel.services.getLogs" JNull))) as [v|e] eqn:Ho.
  2: { exists 0, [], s; eexists; split_and!; [lia|constructor| |intros _ (v & batch & Hv & _); congruence].
       cbn [flush_rounds]. unfold andThen. rewrite ask_spec, Ho. cbn. unfold last_batch. rewrite Ho. by rewrite app_nil_r. }
  destruct (as_array (data v)) as [batch|] eqn:Ha.
  2: { exists 0, [], s; eexists; split_and!; [lia|constructor| |intros _ (v' & batch & Hv & Hb & _); congruence].
       cbn [flush_rounds]. unfold andThen. rewrite ask_spec, Ho, Ha. cbn. unfold last_batch. rewrite Ho, Ha. by rewrite app_nil_r. }
  destruct (length batch <? LOG_FLUSH_LIMIT) eqn:Hlen.
  - exists 0, [], s; eexists; split_and!; [lia|constructor| |].
    + cbn [flush_rounds]. unfold andThen. rewrite ask_spec, Ho, Ha, Hlen. cbn. unfold last_batch. rewrite Ho, Ha, Hlen. reflexivity.
    + intros _ (v' & batch' & Hv & Hb & Hl). apply Nat.ltb_lt in Hlen. assert (batch' = batch) by congruence. subst. lia.
  - set (s1 := mkSys (sent s ++ [(Get "kernel.services.getLogs" JNull, true)])
      (clock s + took (answer (sent s) (Get "kernel.services.getLogs" JNull)))%N
      (epoch s + cancels (answer (sent s) (Get "kernel.services.getLogs" JNull)))%N (session s) (Requests.server s)).
    destruct (IH (messages ++ bfilter is_diagnostic_message batch) s1) as (n & l & s2 & s' & Hn & Hf & Heq & Hstop).
    exists (S n), (batch ++ l), s2, s'. split_and!; [lia| | |].
    + eapply flushed_full; [exact Ho|exact Ha|by apply Nat.ltb_ge in Hlen|exact Hf].
    + cbn [flush_rounds]. unfold andThen. rewrite ask_spec, Ho, Ha, Hlen. cbn [succeeded]. fold s1. rewrite Heq.
      change (S n =? S rounds) with (n =? rounds). rewrite !bfilter_app.
      destruct (if n =? rounds then None else last_batch s2); by rewrite ?bfilter_app, ?app_assoc.
    + intros Hne. apply Hstop. lia.
Qed.

(** A drain of the message stream is whole or says it is not.  After at most twenty full
    batches it stops; the messages are the errors, warnings and failures of the batches it
    read, in order; and it answers that nothing is missing exactly when it ended on a batch
    with room left, before its rounds ran out: a request that fails, an answer that is no
    list, or twenty full batches are all reported as truncated. *)
Theorem drain_messages_exact s : exists n l s1 s', n <= LOG_FLUSH_ROUNDS /\ flushed l n s s1 /\
  drain_messages answer s =
    Some (inl (match (if n =? LOG_FLUSH_ROUNDS then None else last_batch s1) with
               | Some batch => (bfilter is_diagnostic_message (l ++ batch), false)
               | None => (bfilter is_diagnostic_message l, true)
               end), s').
Proof. destruct (flush_rounds_spec LOG_FLUSH_ROUNDS [] s) as (n & l & s1 & s' & Hn & Hf & He & _). exists n, l, s1, s'. split_and!; [done..|exact He]. Qed.
End task_theorems.
