(* ===== verification/EvaRun.v ===== *)
(** * One EVA run (src/src/mcp/analysis.rs)

    The settings a run is given, the compute request and its fallback, what the run is read
    back as, and what the session records of it.  The reset WP does before it proves is
    here too, since it is of the same two parameters. *)

From S2P Require Import Prelude RustStr Json Codec Client Verdicts Receipt Session Errors MainInstance Requests.
Local Open Scope nat_scope.

Record RunEvaParams := mkRunEva {
  profile : option string;
  precision : option Z;
  main_function : option string;
  slevel : option N;
  ilevel : option N;
}.

Definition eva_defaults (profile : string) : option RunEvaParams :=
  if profile =s "fast" then Some (mkRunEva None (Some 0%Z) None (Some 0%N) (Some 2%N))
  else if profile =s "default" then Some (mkRunEva None None None None None)
  else if profile =s "deep" then Some (mkRunEva None (Some 2%Z) None (Some 64%N) (Some 128%N))
  else None.

Definition bad_profile : ErrorData := mkErrorData InvalidParams (mkMcpError "profile must be one of: fast, default, deep" None).

Definition expand_eva_profile (params : RunEvaParams) : (RunEvaParams * json) + ErrorData :=
  match profile params with
  | None => inl (params, JNull)
  | Some name =>
    match eva_defaults name with
    | None => inr bad_profile
    | Some d =>
      inl (mkRunEva None (precision params <||> precision d) (main_function params <||> main_function d)
             (slevel params <||> slevel d) (ilevel params <||> ilevel d),
           JObj [("name", JStr name);
                 ("defaults", JObj [("precision", jopt jZ (precision d)); ("main_function", jopt JStr (main_function d));
                                    ("slevel", jopt jN (slevel d)); ("ilevel", jopt jN (ilevel d))])])
    end
  end.

Definition eva_lib_entry (main_function : string) : bool := negb (main_function =s "main").

Definition EVA_READBACK_REQUESTS : list (string * string) :=
  [("main_function", "kernel.parameters.getMain"); ("lib_entry", "kernel.parameters.getLibEntry");
   ("precision", "kernel.parameters.getEvaPrecision"); ("slevel", "kernel.parameters.getEvaSlevel");
   ("ilevel", "kernel.parameters.getEvaIlevel"); ("domains", "kernel.parameters.getEvaDomains");
   ("plevel", "kernel.parameters.getEvaPlevel"); ("widening_delay", "kernel.parameters.getEvaWideningDelay");
   ("subdivide_non_linear", "kernel.parameters.getEvaSubdivideNonLinear");
   ("partition_history", "kernel.parameters.getEvaPartitionHistory");
   ("auto_loop_unroll", "kernel.parameters.getEvaAutoLoopUnroll");
   ("min_loop_unroll", "kernel.parameters.getEvaMinLoopUnroll");
   ("default_loop_unroll", "kernel.parameters.getEvaDefaultLoopUnroll");
   ("remove_redundant_alarms", "kernel.parameters.getEvaRemoveRedundantAlarms");
   ("split_return", "kernel.parameters.getEvaSplitReturn");
   ("equality_through_calls", "kernel.parameters.getEvaEqualityThroughCalls");
   ("octagon_through_calls", "kernel.parameters.getEvaOctagonThroughCalls")].

Definition EVA_COMPUTE_BUDGET : N := 600000.

Definition clear_eva_completed (s : SessionState) : SessionState :=
  mkSession (Session.project_loaded s) false (wp_completed s) (functions s) (stale_markers s)
    (globals s) (callgraph_edges s) (callgraph_vertices s) (conclusions s) (project_state s)
    (verification_profiles s) (verification_profiles_source s) (seen_receipts s).

Definition set_eva_flag (completed : bool) (s : SessionState) : SessionState :=
  if completed then set_eva_completed s else clear_eva_completed s.

Section eva.
Variable answer : list (request * bool) -> request -> Reply.
Variable display_error : FramaCError -> string.
Abbreviation ask := (ask answer).
Abbreviation send := (send answer display_error).
Abbreviation set_ := (set_ answer display_error).

(** A setter, when there is something to set. *)
Definition set_some {A} (name : string) (f : A -> json) (v : option A) : Tool unit :=
  match v with Some v => do* require_client in set_ name (f v) | None => pure tt end.

(** The request of one Frama-C, then that of an older one when the first is rejected. *)
Definition get_either (new old : string) (arg : json) : Tool json :=
  let* first := ask (Get new arg) in
  match first with
  | Ok a => pure (data a)
  | Err (Rejected _) => let* a := send (Get old arg) in pure (data a)
  | Err e => raise (from_frama_c_error display_error e)
  end.
Definition get_eva_computation_state : Tool json :=
  get_either "plugins.eva.analysis.getComputationState" "plugins.eva.general.getComputationState" JNull.
Definition get_eva_program_stats : Tool json :=
  get_either "plugins.eva.stats.getProgramStats" "plugins.eva.general.getProgramStats" JNull.
Definition get_eva_callers (declaration : string) : Tool json :=
  get_either "plugins.eva.ast.getCallers" "plugins.eva.general.getCallers" (JStr declaration).

Definition exec_eva_compute : Tool (list json) :=
  let* first := ask (Exec "plugins.eva.analysis.compute" JNull EVA_COMPUTE_BUDGET) in
  match first with
  | Ok a => pure [diagnostics_json (diagnostics a)]
  | Err (CommandFailed kind id msg diag) =>
    if kind =s "REJECTED"
    then let* a := send (Exec "plugins.eva.general.compute" JNull EVA_COMPUTE_BUDGET) in
         pure [diagnostics_json diag; diagnostics_json (diagnostics a)]
    else raise (from_frama_c_error display_error (CommandFailed kind id msg diag))
  | Err e => raise (from_frama_c_error display_error e)
  end.

Definition read_option (e : string * string) : Tool (string * json) :=
  let* o := ask (Get e.2 JNull) in
  pure (e.1, match o with Ok a => data a | Err error => JObj [("unavailable", JStr (display_error error))] end).
Definition read_effective_eva_options : Tool json :=
  let* entries := each read_option EVA_READBACK_REQUESTS in pure (JObj entries).

Definition option_text (flag : string) (v : option string) : list string := match v with Some v => [flag; v] | None => [] end.
Definition signed_dec (z : Z) : string := if (z <? 0)%Z then "-" +s+ dec_N (Z.to_N (- z)) else dec_N (Z.to_N z).

Definition frama_c_options (params : RunEvaParams) : list string :=
  option_text "-eva-precision" (signed_dec <$> precision params)
  ++ option_text "-main" (main_function params)
  ++ (if eva_lib_entry (unwrap_or (main_function params) "main") then ["-lib-entry"] else [])
  ++ option_text "-eva-slevel" (dec_N <$> slevel params)
  ++ option_text "-eva-ilevel" (dec_N <$> ilevel params).

(** What is set before the run, in this order. *)
Definition configure_eva (params : RunEvaParams) : Tool unit :=
  let main_fn := unwrap_or (main_function params) "main" in
  do* set_some "kernel.parameters.setEvaPrecision" jZ (precision params) in
  do* require_client in
  do* set_ "kernel.parameters.setMain" (JStr main_fn) in
  do* require_client in
  do* set_ "kernel.parameters.setLibEntry" (JBool (eva_lib_entry main_fn)) in
  do* set_some "kernel.parameters.setEvaSlevel" jN (slevel params) in
  set_some "kernel.parameters.setEvaIlevel" jN (ilevel params).

(** What is read once EVA has computed. *)
Definition after_compute : Tool (json * json * json) :=
  let* effective_options := read_effective_eva_options in
  let* comp_state := get_eva_computation_state in
  let* stats := get_eva_program_stats in
  pure (effective_options, comp_state, stats).

Definition run_eva_payload (params0 : RunEvaParams) : Tool json :=
  let* (params, profile_used) := from_sum (expand_eva_profile params0) in
  do* configure_eva params in
  do* require_client in
  let* protocol_diagnostics := exec_eva_compute in
  let* (effective_options, comp_state, stats) := after_compute in
  do* modify (set_session (set_eva_flag (as_str comp_state =?s "computed"))) in
  pure (JObj
    [("computation_state", comp_state); ("program_stats", stats);
     ("frama_c_options", jstrings (frama_c_options params)); ("effective_options", effective_options);
     ("frama_c_protocol", JArr protocol_diagnostics);
     ("requested_options",
       JObj [("profile", jopt JStr (profile params0)); ("precision", jopt jZ (precision params));
             ("main_function", jopt JStr (main_function params)); ("slevel", jopt jN (slevel params)); ("ilevel", jopt jN (ilevel params))]);
     ("profile", profile_used)]).

(** Whether EVA's results survived; a state that cannot be read counts as lost. *)
Definition reset_wp_entry_state : Tool bool :=
  do* set_ "kernel.parameters.setMain" (JStr "main") in
  do* set_ "kernel.parameters.setLibEntry" (JBool false) in
  let* state := try get_eva_computation_state in
  pure (match state with inl v => as_str v =?s "computed" | inr _ => false end).
End eva.

(** ** Theorems *)

Section eva_theorems.
Context (answer : list (request * bool) -> request -> Reply) (display_error : FramaCError -> string).

(** The entry point and the state it starts from. *)
Definition entry_in_force (main_fn : string) (log : list log_entry) : Prop :=
  setting "kernel.parameters.setMain" log = Some (JStr main_fn)
  /\ setting "kernel.parameters.setLibEntry" log = Some (JBool (eva_lib_entry main_fn)).

(** What leaves both settings alone. *)
Definition keeps_entry (e : log_entry) : Prop :=
  match e.1 with Set_ name _ => one_of name ["kernel.parameters.setMain"; "kernel.parameters.setLibEntry"] = false | _ => True end.

Lemma entry_kept main_fn log e : entry_in_force main_fn log -> keeps_entry e -> entry_in_force main_fn (log ++ [e]).
Proof.
  intros [Hm Hl] He. destruct e as [r ok]. unfold entry_in_force. rewrite !setting_snoc. destruct r as [|name arg|]; [done| |done].
  unfold keeps_entry, one_of in He. cbn in He. apply orb_false_iff in He as [H1 [H2 _]%orb_false_iff].
  by rewrite H1, H2, !andb_false_r.
Qed.

Lemma set_some_only {A} P name (f : A -> json) v : (forall arg ok, P (Set_ name arg, ok)) -> only P (set_some answer display_error name f v).
Proof. intros HP. destruct v as [v|]; [|apply only_pure]. apply only_bind; [auto with fc|]. intros _. by apply only_set. Qed.
Lemma get_either_only P new old arg : (forall name arg ok, P (Get name arg, ok)) -> only P (get_either answer display_error new old arg).
Proof.
  intros HP. apply only_bind; [by apply only_ask|]. intros [a|[]]; try apply only_pure; try apply only_raise.
  apply only_bind; [by apply only_send|]. intros a. apply only_pure.
Qed.
Lemma exec_eva_compute_only P : (forall name arg budget ok, P (Exec name arg budget, ok)) -> only P (exec_eva_compute answer display_error).
Proof.
  intros HP. apply only_bind; [by apply only_ask|]. intros [a|[]]; try apply only_pure; try apply only_raise.
  destruct (_ =s _); [|apply only_raise]. apply only_bind; [by apply only_send|]. intros a. apply only_pure.
Qed.
Lemma read_options_only P : (forall name arg ok, P (Get name arg, ok)) -> only P (read_effective_eva_options answer display_error).
Proof.
  intros HP. unfold read_effective_eva_options. generalize EVA_READBACK_REQUESTS. intros l. apply only_bind; [|intros ?; apply only_pure]. apply only_each. intros e. apply only_bind; [by apply only_ask|]. intros ?. apply only_pure.
Qed.

(** A setter that worked is in force. *)
Lemma set_in_force name arg (P : Sys -> Prop) :
  triple P (set_ answer display_error name arg) (fun r s => match r with inl _ => setting name (sent s) = Some arg | inr _ => True end).
Proof.
  intros s r s' _ H. apply set_spec in H as (-> & _). destruct r; [|done]. by rewrite setting_snoc, String.eqb_refl.
Qed.

(** Keeping [G] through requests that keep it. *)
Lemma triple_keeping {A} (G : list log_entry -> Prop) (K : log_entry -> Prop) (m : Tool A) :
  (forall log e, G log -> K e -> G (log ++ [e])) -> only K m -> triple (fun s => G (sent s)) m (fun _ s => G (sent s)).
Proof.
  intros Hk Ho s r s' HG H. destruct (Ho _ _ _ H) as (l & -> & Hl). clear H. induction l as [|e l IH] using rev_ind; [by rewrite app_nil_r|].
  apply Forall_app in Hl as [Hl [He _]%Forall_cons]. rewrite app_assoc. by apply Hk; [apply IH|].
Qed.

Definition main_in_force (main_fn : string) (log : list log_entry) : Prop := setting "kernel.parameters.setMain" log = Some (JStr main_fn).

Lemma triple_any {A} P (m : Tool A) : triple P m (fun r _ => match r with inl _ => True | inr _ => True end).
Proof. intros s r s' _ _. by destruct r. Qed.

Lemma configure_sets params (main_fn := unwrap_or (main_function params) "main") :
  triple (fun _ => True) (configure_eva answer display_error params)
    (fun r s => match r with inl _ => entry_in_force main_fn (sent s) | inr _ => True end).
Proof.
  unfold configure_eva. fold main_fn. eapply triple_bind with (R := fun _ _ => True); [apply triple_any|]. intros _.
  eapply triple_bind with (R := fun _ _ => True); [apply triple_any|]. intros _.
  eapply triple_bind with (R := fun _ s => main_in_force main_fn (sent s)); [apply set_in_force|]. intros _.
  eapply triple_bind with (R := fun _ s => main_in_force main_fn (sent s)).
  { eapply triple_weaken; [apply (triple_keeping (main_in_force main_fn) (fun _ => False)); [done|auto with fc]|done|]. by intros [] s Hs. }
  intros _. eapply triple_bind with (R := fun _ s => entry_in_force main_fn (sent s)).
  { intros s r s' Hm H. apply set_spec in H as (-> & _). destruct r; [|done]. unfold entry_in_force, main_in_force in *. by rewrite !setting_snoc. }
  intros _. assert (Hkeep : forall name (f : N -> json) v, one_of name ["kernel.parameters.setMain"; "kernel.parameters.setLibEntry"] = false ->
    triple (fun s => entry_in_force main_fn (sent s)) (set_some answer display_error name f v) (fun _ s => entry_in_force main_fn (sent s))).
  { intros name f v Hn. apply (triple_keeping _ keeps_entry); [by intros; apply entry_kept|]. by apply set_some_only. }
  eapply triple_bind with (R := fun _ s => entry_in_force main_fn (sent s)).
  { eapply triple_weaken; [by apply Hkeep|done|]. by intros []. }
  intros _. eapply triple_weaken; [by apply Hkeep|done|]. by intros [].
Qed.

Definition is_set (e : log_entry) : bool := match e.1 with Set_ _ _ => true | _ => false end.
Definition is_exec (e : log_entry) : bool := match e.1 with Exec _ _ _ => true | _ => false end.
Definition is_get (e : log_entry) : bool := match e.1 with Get _ _ => true | _ => false end.

Lemma configure_only_sets params : only (fun e => is_set e = true) (configure_eva answer display_error params).
Proof. unfold configure_eva. repeat (apply only_bind; [first [by apply only_require_client | by apply only_set | by apply set_some_only]|intros _]). by apply set_some_only. Qed.

Lemma after_compute_only_gets : only (fun e => is_get e = true) (after_compute answer display_error).
Proof.
  unfold after_compute.
  apply only_bind; [by apply read_options_only|]. intros ?. apply only_bind; [by apply get_either_only|]. intros ?.
  apply only_bind; [by apply get_either_only|]. intros ?. apply only_pure.
Qed.

(** The run as its three phases. *)
Lemma run_eva_phases params s r s' : run_eva_payload answer display_error params s = Some (r, s') ->
  (exists e, expand_eva_profile params = inr e /\ r = inr e /\ s' = s) \/
  exists params' used, expand_eva_profile params = inl (params', used) /\
    ((exists e, configure_eva answer display_error params' s = Some (inr e, s') /\ r = inr e) \/
     exists s1, configure_eva answer display_error params' s = Some (inl tt, s1) /\
       ((s' = s1 /\ exists e, r = inr e) \/
        (exists e, exec_eva_compute answer display_error s1 = Some (inr e, s') /\ r = inr e) \/
        exists diags s2, exec_eva_compute answer display_error s1 = Some (inl diags, s2) /\
          ((exists e, after_compute answer display_error s2 = Some (inr e, s') /\ r = inr e) \/
           exists options state stats s3, after_compute answer display_error s2 = Some (inl (options, state, stats), s3)
             /\ s' = set_session (set_eva_flag (as_str state =?s "computed")) s3
             /\ exists payload, r = inl payload /\ payload.["computation_state"] = state /\ payload.["effective_options"] = options))).
Proof.
  unfold run_eva_payload. intros [([params' used] & s0 & He & H)|(e & He & ->)]%andThen_Some.
  2: { left. exists e. unfold from_sum in He. destruct (expand_eva_profile params); [done|]. by injection He as -> ->. }
  assert (expand_eva_profile params = inl (params', used) /\ s0 = s) as [Hx ->].
  { unfold from_sum in He. destruct (expand_eva_profile params); [by injection He as -> ->|done]. }
  right. exists params', used. split; [done|]. apply andThen_Some in H as [([] & s1 & Hc & H)|(e & Hc & ->)]; [right; exists s1; split; [done|]|left; eauto].
  apply andThen_Some in H as [([] & s2 & Hq & H)|(e & Hq & ->)].
  2: { left. assert (s' = s1) as -> by (unfold require_client, andThen, gets, pure, raise in Hq; destruct (client (server s1)); congruence). eauto. }
  right. assert (s2 = s1) as -> by (unfold require_client, andThen, gets, pure, raise in Hq; destruct (client (server s1)); congruence).
  apply andThen_Some in H as [(diags & s2 & Hx2 & H)|(e & Hx2 & ->)]; [right; exists diags, s2; split; [done|]|left; eauto].
  apply andThen_Some in H as [([[options state] stats] & s3 & Ha & H)|(e & Ha & ->)]; [right|left; eauto].
  apply andThen_Some in H as [([] & s4 & Hm & H)|(e & Hm & ->)]; [|discriminate Hm]. injection Hm as <-. injection H as <- <-.
  exists options, state, stats, s3. split; [done|]. split; [done|]. eexists. split; [reflexivity|]. by split.
Qed.

End eva_theorems.

(** ** Witnesses *)

Definition computed_reply (_ : list log_entry) (_ : request) : Reply :=
  mkReply (Ok (mkExecResult (JStr "computed") (new_diagnostics "RQ.0" "demo"))) 1 0.
Definition demo_sys : Sys := mkSys [] 0 0 default_session (mkServer None (Some false) true 1).
Definition scoped_eva : RunEvaParams := mkRunEva (Some "fast") None (Some "square") None None.

