(* ===== verification/Proofread.v ===== *)
(** * The report of a run (src/src/mcp/server.rs, src/src/mcp/analysis.rs)

    What a run's goals and the contracts around them leave to be read: the goals that are
    open and that WP assumes all the same, the calls whose callee or frame is not known,
    and the report these findings are put in.  The label pattern, the rendering of a value
    and SHA-256 are arguments, as in [StableId]. *)

From S2P Require Import Prelude RustStr Json Status Rows Verdicts Targets StableId Contracts WpTriage WpFailure.
Local Open Scope nat_scope.

Definition POSTCONDITION_GOAL_NAMES : list string :=
  ["post-condition"; "exit-condition"; "return-condition"; "breaking-condition"; "continue-condition"].

(** ** Goals that are assumed *)

Definition goal_status_of (goal : json) : string := normalize_frama_c_status (unwrap_or (own_status goal) "unknown").
Definition shown_goal_name (goal : json) : string :=
  unwrap_or (get_str "frama_c_goal_name" goal <||> get_str "name" goal) "<unnamed>".

(** What an open goal is assumed as: an assertion or a postcondition. *)
Inductive Assumed := AssumedAssertion | AssumedPostcondition.

Definition assumed_as (kind name : string) : option Assumed :=
  let name_lc := to_ascii_lowercase name in
  if starts_with "rte_" kind then None
  else if (kind =s "user_assert") || contains "assertion" name_lc then Some AssumedAssertion
  else if existsb (fun marker => contains marker name_lc) POSTCONDITION_GOAL_NAMES then Some AssumedPostcondition
  else None.

Definition assumed_what (a : Assumed) : string := match a with AssumedAssertion => "assertion" | AssumedPostcondition => "postcondition" end.
Definition assumed_by (a : Assumed) : string :=
  match a with
  | AssumedAssertion => "every goal sequenced after it in the same function"
  | AssumedPostcondition => "every call site of this function"
  end.
Definition assumed_fix (a : Assumed) : string :=
  match a with
  | AssumedAssertion =>
    "Prove it, or delete it and record the gap. Do not add further assertions to make a dependent goal go green: an unproved hint is assumed too."
  | AssumedPostcondition =>
    "Prove it, or weaken the contract to what the body supports. An unproved postcondition is assumed by callers, so leaving it in place is strictly worse than not claiming it."
  end.

Section proofread.
Variable hash_label_in : string -> option string.
Variable to_string : json -> string.
Variable sha256_hex : string -> string.

Definition assumption_kind (goal : json) : string :=
  match get_str "goal_kind" goal with Some kind => kind | None => (classify_wp_goal hash_label_in goal).1 end.

(** The goal's identity, which two unnamed goals of one function do not share. *)
Definition assumption_key (goal : json) : string :=
  match get_str "stable_goal_id" goal with
  | Some id => id
  | None => goal_scope_key goal +s+ ":" +s+ stable_goal_source_key goal +s+ ":" +s+ shown_goal_name goal
  end.

(** The kind of assumption an open goal is. *)
Definition open_assumption (goal : json) : option Assumed :=
  if check_goal_counts_as_progress goal then None else assumed_as (assumption_kind goal) (shown_goal_name goal).

Definition assumption_finding (function : option string) (goal : json) (a : Assumed) : json :=
  let status := goal_status_of goal in
  let owner := goal_scope_key goal in
  let location := goal .? "source_location" <||> goal .? "source" <||> goal .? "loc" in
  let what := assumed_what a in
  JObj [("id", JStr ("unproved-assumption:" +s+ unwrap_or function "<run>" +s+ ":" +s+ assumption_key goal));
        ("severity", JStr "high"); ("category", JStr "unproved_assumption");
        ("file", JStr (unwrap_or (location ≫= (fun loc => (loc .? "file" <||> loc .? "base") ≫= as_str)) "unknown"));
        ("line", jopt jN (location ≫= get_u64 "line"));
        ("column", jopt jN (location ≫= (fun loc => (loc .? "column" <||> loc .? "col") ≫= as_u64)));
        ("function", JStr (if is_empty owner then unwrap_or function "" else owner));
        ("stable_goal_id", field "stable_goal_id" goal);
        ("wpo", unwrap_or (goal .? "wpo_id" <||> goal .? "wpo") JNull);
        ("clause_or_goal_kind", JStr (assumption_kind goal)); ("trigger", JStr (shown_goal_name goal));
        ("current_behavior", JStr ("WP left this " +s+ what +s+ " at status " +s+ status +s+ "."));
        ("why_problem", JStr ("WP assumes an unproved " +s+ what +s+ " for " +s+ assumed_by a
           +s+ ", so a conclusion this run reports as proved may rest on it rather than on the code."));
        ("suggested_fix", JStr (assumed_fix a));
        ("evidence", JArr [JObj [("field", JStr "normalized_status"); ("value", JStr status)]])].

Fixpoint assumption_findings (function : option string) (seen : gset string) (goals : list json) : list json :=
  match goals with
  | [] => []
  | goal :: goals =>
    match open_assumption goal with
    | None => assumption_findings function seen goals
    | Some a =>
      if bool_decide (assumption_key goal ∈ seen) then assumption_findings function seen goals
      else assumption_finding function goal a :: assumption_findings function ({[assumption_key goal]} ∪ seen) goals
    end
  end.
Definition unproved_assumption_findings (goals : list json) (function : option string) : list json := assumption_findings function ∅ goals.

(** ** The report *)

Definition proofread_goal (function : option string) (goal0 : json) : json :=
  let goal := add_identity_fields goal0 in
  let '(kind, hash_label) := classify_wp_goal hash_label_in goal in
  let goal := map_object (fun obj =>
    let obj := map_or_insert "goal_kind" (JStr kind) obj in
    match hash_label with Some label => map_or_insert "hash_label" (JStr label) obj | None => obj end) goal in
  enrich_goal_stable_id to_string sha256_hex goal kind function.

Definition classification_findings (classification : option json) : option (list json) :=
  classification ≫= (fun c => c .? "proofread_report" ≫= get_arr "findings").

Definition goal_findings (function : option string) (goal : json) : list json :=
  match classification_findings (goal .? "failure_classification") with
  | Some existing => existing
  | None =>
    if unwrap_or (as_bool goal.["counts_as_progress"]) false then []
    else unwrap_or (classification_findings (Some (classify_wp_failure_from_goal hash_label_in to_string sha256_hex goal function))) []
  end.

Definition proofread_report_from_wp_goals (goals : list json) (function : option string) : json :=
  let enriched := map (proofread_goal function) goals in
  proofread_report (flat_map (goal_findings function) enriched ++ unproved_assumption_findings enriched function).

(** ** Calls *)

Definition assigns_kind_any (v : json) : bool := (v .? "assigns" ≫= get_str "kind") =?s "any".

Definition frameless_callee (callee : json) : bool :=
  match callee .? "contract" with
  | None => false
  | Some contract =>
    assigns_kind_any contract || is_some_and (existsb assigns_kind_any) (get_arr "behaviors" contract)
  end.

Definition callee_finding (caller : string) (callee : json) : json :=
  let callee_name := unwrap_or (get_str "function" callee) "<unknown>" in
  JObj [("id", JStr ("assumed-callee-contract:" +s+ caller +s+ ":" +s+ callee_name)); ("severity", JStr "high");
        ("category", JStr "assumed_callee_contract"); ("function", JStr caller); ("callee", JStr callee_name);
        ("source_location", field "loc" callee);
        ("message", JStr ("callee " +s+ callee_name +s+ " has no finite assigns clause; WP may treat the call frame unsafely."));
        ("suggested_fix", JStr ("Add an explicit assigns clause to " +s+ callee_name +s+ " before trusting caller proof results."));
        ("evidence", JArr [JObj [("field", JStr "contract.assigns.kind"); ("value", JStr "any")]])].

Definition assumed_callee_contract_findings (caller : string) (context : json) : list json :=
  map (callee_finding caller) (bfilter frameless_callee (unwrap_or (get_arr "callees" context) [])).

Definition pointer_expression (callee : string) : string :=
  let inner := trim callee in
  let inner := trim (unwrap_or (strip_prefix "*" inner) inner) in
  match strip_prefix "(" inner ≫= strip_suffix ")" with
  | Some unwrapped => if negb (contains "(" unwrapped) && negb (contains ")" unwrapped) then trim unwrapped else inner
  | None => inner
  end.

Definition unresolved_finding (caller : string) (call : json) : json :=
  let sid := field "sid" call in
  let expression := unwrap_or (get_str "callee" call) "<unknown>" in
  JObj [("id", JStr ("unresolved-call:" +s+ caller +s+ ":" +s+ to_string sid)); ("severity", JStr "high");
        ("category", JStr "unresolved_call"); ("function", JStr caller); ("callee_expression", JStr expression); ("stmt_id", sid);
        ("source_location", field "loc" call);
        ("message", JStr (caller +s+ " calls through " +s+ expression
           +s+ ", which names no callee. Without a calls clause WP assumes the pointer may reach any function, including " +s+ caller
           +s+ " itself, and the goals that follow are unprovable rather than slow."));
        ("why_problem", JStr "Unless a calls clause at this statement names the callee set, WP has no contract to use here and assumes the worst one. The goals it then leaves open are reported as prover timeouts, which names the prover for a defect that is a missing annotation.");
        ("suggested_fix", JStr ("Write the callee set at the call site, as in /*@ calls impl_a, impl_b; */ before the statement, naming every function the pointer may hold. Then constrain the pointer in "
           +s+ caller +s+ "'s own contract, as in requires " +s+ pointer_expression expression
           +s+ " == &impl_a;, naming the one it actually holds. The calls clause alone leaves the call-point goal open, because nothing yet says which function the pointer holds."));
        ("evidence", JArr [JObj [("field", JStr "unresolved_callees[].callee"); ("value", JStr expression)]])].

Definition unresolved_call_findings (caller : string) (context : json) : list json :=
  map (unresolved_finding caller) (unwrap_or (get_arr "unresolved_callees" context) []).

(** A function whose context Frama-C did not answer has no findings. *)
Definition contract_shape_findings (contexts : list (string * option json)) : list json :=
  flat_map (fun '(function, context) =>
    match context with
    | None => []
    | Some context =>
      assumed_callee_contract_findings function context ++ unconstrained_assigns_findings function context
      ++ result_unconstrained_findings function context ++ unresolved_call_findings function context
    end) contexts.

Definition main_proofread_report (contexts : list (string * option json)) (wp_goals : list json) (report_function : option string) : json :=
  let report := proofread_report_from_wp_goals wp_goals report_function in
  match contract_shape_findings contexts with
  | [] => report
  | assumed => proofread_report (unwrap_or (get_arr "findings" report) [] ++ assumed)
  end.
End proofread.

(** ** Theorems *)

Section proofread_theorems.
Context (hash_label_in : string -> option string).
Abbreviation key := (assumption_key (* of a goal *)).
Abbreviation opens := (open_assumption hash_label_in).
Abbreviation finding := (assumption_finding hash_label_in).

Definition assumption_id (function : option string) (k : string) : json :=
  JStr ("unproved-assumption:" +s+ unwrap_or function "<run>" +s+ ":" +s+ k).

Lemma assumption_id_inj function k k' : assumption_id function k = assumption_id function k' -> k = k'.
Proof. intros [= H]. apply app_str_cancel in H. by injection H. Qed.

Lemma assumption_findings_spec function goals : forall seen,
  (forall f, f ∈ assumption_findings hash_label_in function seen goals ->
     exists goal a, goal ∈ goals /\ opens goal = Some a /\ f = finding function goal a /\ key goal ∉ seen)
  /\ (forall goal a, goal ∈ goals -> opens goal = Some a -> key goal ∈ seen \/
        assumption_id function (key goal) ∈ map (fun f => f.["id"]) (assumption_findings hash_label_in function seen goals))
  /\ NoDup (map (fun f => f.["id"]) (assumption_findings hash_label_in function seen goals)).
Proof.
  induction goals as [|goal goals IH]; intros seen; cbn [assumption_findings].
  { split_and!; [by intros f ?%elem_of_nil|by intros g a ?%elem_of_nil|constructor]. }
  destruct (opens goal) as [a|] eqn:Ho; [case_bool_decide as Hs|].
  - destruct (IH seen) as (Hf & Hg & Hn). split_and!; [| |done].
    + intros f Hin. destruct (Hf f Hin) as (g & a' & ? & ? & ? & ?). exists g, a'. split_and!; try done. by right.
    + intros g a' [->|Hin]%elem_of_cons Ha; [by left|by apply (Hg g a')].
  - destruct (IH ({[key goal]} ∪ seen)) as (Hf & Hg & Hn). cbn [map]. split_and!.
    + intros f [->|Hin]%elem_of_cons; [exists goal, a; split_and!; [by left|done..]|].
      destruct (Hf f Hin) as (g & a' & ? & ? & ? & Hk). exists g, a'. split_and!; [by right|done|done|set_solver].
    + intros g a' [->|Hin]%elem_of_cons Ha; [right; by left|]. destruct (Hg g a' Hin Ha) as [Hk|Hk]; [|right; by right].
      apply elem_of_union in Hk as [->%elem_of_singleton|Hk]; [right; by left|by left].
    + constructor; [|done]. intros Hin. apply list_elem_of_fmap in Hin as (f & He & Hin).
      destruct (Hf f Hin) as (g & a' & _ & _ & -> & Hk). change (assumption_id function (key goal) = assumption_id function (key g)) in He.
      apply assumption_id_inj in He. set_solver.
  - destruct (IH seen) as (Hf & Hg & Hn). split_and!; [| |done].
    + intros f Hin. destruct (Hf f Hin) as (g & a' & ? & ? & ? & ?). exists g, a'. split_and!; try done. by right.
    + intros g a' [->|Hin]%elem_of_cons Ha; [congruence|by apply (Hg g a')].
Qed.

(** What WP takes an open goal for, by its kind and the name shown for it. *)
Inductive taken_for (kind name : string) : Assumed -> Prop :=
| taken_for_assertion : kind = "user_assert" \/ contains "assertion" (to_ascii_lowercase name) = true -> taken_for kind name AssumedAssertion
| taken_for_postcondition clause : kind <> "user_assert" -> contains "assertion" (to_ascii_lowercase name) = false ->
    clause ∈ ["post-condition"; "exit-condition"; "return-condition"; "breaking-condition"; "continue-condition"] ->
    contains clause (to_ascii_lowercase name) = true -> taken_for kind name AssumedPostcondition.

(** A goal nothing proved, no runtime-error guard, that WP assumes all the same. *)
Record left_open (goal : json) (a : Assumed) : Prop := {
  lo_unproved : get_bool "counts_as_progress" goal = Some false
    \/ get_bool "counts_as_progress" goal = None /\ forall status, own_status goal = Some status -> is_proved status = false;
  lo_assumed : exists kind, (get_str "goal_kind" goal <||> Some (classify_wp_goal hash_label_in goal).1) = Some kind
    /\ starts_with "rte_" kind = false
    /\ taken_for kind (unwrap_or (get_str "frama_c_goal_name" goal <||> get_str "name" goal) "<unnamed>") a;
}.

(** A goal's identity: its stable id, or its owner, place and shown name. *)
Inductive identified (goal : json) : string -> Prop :=
| identified_by_id id : get_str "stable_goal_id" goal = Some id -> identified goal id
| identified_by_place : get_str "stable_goal_id" goal = None ->
    identified goal (goal_scope_key goal +s+ ":" +s+ stable_goal_source_key goal +s+ ":"
      +s+ unwrap_or (get_str "frama_c_goal_name" goal <||> get_str "name" goal) "<unnamed>").

(** What a finding says of the goal it is about. *)
Record reports (function : option string) (goal : json) (a : Assumed) (f : json) : Prop := {
  rp_id : exists k, identified goal k /\ f.["id"] = assumption_id function k;
  rp_category : get_str "severity" f = Some "high" /\ get_str "category" f = Some "unproved_assumption";
  rp_function : get_str "function" f = Some (if is_empty (goal_scope_key goal) then unwrap_or function "" else goal_scope_key goal);
  rp_goal : f.["stable_goal_id"] = goal.["stable_goal_id"];
  rp_behavior : get_str "current_behavior" f = Some ("WP left this " +s+ match a with AssumedAssertion => "assertion" | AssumedPostcondition => "postcondition" end
    +s+ " at status " +s+ normalize_frama_c_status (unwrap_or (own_status goal) "unknown") +s+ ".");
}.

Lemma opens_left_open goal a : opens goal = Some a <-> left_open goal a.
Proof.
  unfold open_assumption. split.
  - destruct (check_goal_counts_as_progress goal) eqn:Hc; [done|]. unfold check_goal_counts_as_progress, own_status_is_proved in Hc.
    intros Ha. split.
    { destruct (get_bool _ goal) as [[]|]; [done|by left|right]. split; [done|]. intros status Hs. by rewrite Hs in Hc. }
    exists (assumption_kind hash_label_in goal). unfold assumed_as in Ha. destruct (starts_with _ _) eqn:Hr; [done|]. split_and!; [|done|].
    { unfold assumption_kind. by destruct (get_str "goal_kind" goal). }
    fold (shown_goal_name goal). destruct (_ || _) eqn:Hk.
    { injection Ha as <-. apply taken_for_assertion. by apply orb_true_iff in Hk as [->%String.eqb_eq|]; [left|right]. }
    destruct (existsb _ _) eqn:He; [injection Ha as <-|done]. apply existsb_true in He as (clause & Hin & Hcl).
    apply orb_false_iff in Hk as [Hk%String.eqb_neq ?]. by eapply taken_for_postcondition.
  - intros [Hc (kind & Hk & Hr & Ht)]. assert (check_goal_counts_as_progress goal = false) as ->.
    { unfold check_goal_counts_as_progress, own_status_is_proved. destruct Hc as [->|[-> Hs]]; [done|]. cbn.
      destruct (own_status goal) as [status|]; [by apply Hs|done]. }
    assert (assumption_kind hash_label_in goal = kind) as ->.
    { unfold assumption_kind. destruct (get_str "goal_kind" goal); by injection Hk. }
    unfold assumed_as. rewrite Hr. fold (shown_goal_name goal) in Ht. destruct Ht as [[->|Ha]|clause Hne Ha Hin Hcl]; [done| |].
    + by rewrite Ha, orb_true_r.
    + apply String.eqb_neq in Hne as ->. rewrite Ha. cbn [orb]. assert (existsb (fun marker => contains marker (to_ascii_lowercase (shown_goal_name goal))) POSTCONDITION_GOAL_NAMES = true) as ->; [|done].
      apply existsb_true. by exists clause.
Qed.

Lemma key_identified goal k : key goal = k <-> identified goal k.
Proof.
  unfold assumption_key. split.
  - destruct (get_str "stable_goal_id" goal) eqn:E; intros <-; by constructor.
  - by intros [id H|H]; rewrite H.
Qed.

Lemma finding_reports function goal a : reports function goal a (finding function goal a).
Proof. split; try done. exists (key goal). by split; [apply key_identified|]. Qed.

(** Two places of one file on different lines. *)
Definition on_line (goal : json) (file : string) (line : N) : Prop :=
  exists loc, goal .? "source_location" = Some loc /\ get_str "file" loc = Some file /\ get_u64 "line" loc = Some line.

Lemma on_line_key goal file line : on_line goal file line -> exists rest, stable_goal_source_key goal = file +s+ ":" +s+ dec_N line +s+ ":" +s+ rest.
Proof.
  intros (loc & Hl & Hf & Hn). unfold stable_goal_source_key. rewrite Hl. unfold get_str in Hf. cbn. destruct (loc .? "file") as [v|]; [|done].
  change (v ≫= as_str) with (as_str v) in Hf. cbn in Hf |- *. rewrite Hf, Hn. by eexists.
Qed.

Lemma lines_apart goal goal' file line line' : on_line goal file line -> on_line goal' file line' -> line <> line' ->
  get_str "stable_goal_id" goal = None -> get_str "stable_goal_id" goal' = None -> goal_scope_key goal = goal_scope_key goal' -> key goal <> key goal'.
Proof.
  intros (rest & Hk)%on_line_key (rest' & Hk')%on_line_key Hne Hi Hi' Ho. unfold assumption_key. rewrite Hi, Hi', Ho, Hk, Hk', !app_str_assoc.
  intros H%app_str_cancel%app_str_cancel%app_str_cancel%app_str_cancel. cbn in H.
  apply (f_equal (split_once ":")) in H. rewrite !split_once_free in H by (by apply dec_N_free). by injection H as ->%dec_N_inj.
Qed.

(** C11: what WP assumes without proof is named.  Each finding about a run reports a goal that
    nothing proved and that WP assumes all the same: an assertion, or one of the five kinds
    of postcondition, no runtime-error guard.  Every such goal is named by a finding of its
    own identity, and no two findings have the same id, so a goal listed twice is one; two
    assertions of one function without a stable id, of whatever name, which start on
    different lines stay two findings. *)
Theorem assumptions_named goals function (fs := unproved_assumption_findings hash_label_in goals function) :
  (forall f, f ∈ fs -> exists goal a, goal ∈ goals /\ left_open goal a /\ reports function goal a f)
  /\ (forall goal a k, goal ∈ goals -> left_open goal a -> identified goal k -> exists f, f ∈ fs /\ f.["id"] = assumption_id function k)
  /\ NoDup (map (fun f => f.["id"]) fs)
  /\ (forall goal goal' a a' file line line', goal ∈ goals -> goal' ∈ goals -> left_open goal a -> left_open goal' a' ->
       get_str "stable_goal_id" goal = None -> get_str "stable_goal_id" goal' = None -> goal_scope_key goal = goal_scope_key goal' ->
       on_line goal file line -> on_line goal' file line' -> line <> line' ->
       exists k k' f f', identified goal k /\ identified goal' k' /\ f ∈ fs /\ f' ∈ fs
         /\ f.["id"] = assumption_id function k /\ f'.["id"] = assumption_id function k' /\ f.["id"] <> f'.["id"]).
Proof.
  destruct (assumption_findings_spec function goals ∅) as (Hf & Hg & Hn).
  assert (Hnamed : forall goal a, goal ∈ goals -> left_open goal a -> exists f, f ∈ fs /\ f.["id"] = assumption_id function (key goal)).
  { intros goal a Hin Ho%opens_left_open. destruct (Hg goal a Hin Ho) as [Hk|Hk]; [by apply elem_of_empty in Hk|].
    apply list_elem_of_fmap in Hk as (f & Hid & Hk). by exists f. }
  split_and!; [| |done|].
  - intros f Hin. destruct (Hf f Hin) as (goal & a & Hgoal & Ho%opens_left_open & -> & _). exists goal, a. split_and!; [done..|apply finding_reports].
  - intros goal a k Hin Ho <-%key_identified. by eapply Hnamed.
  - intros goal goal' a a' file line line' Hin Hin' Ho Ho' Hi Hi' Hs Hl Hl' Hne. destruct (Hnamed _ _ Hin Ho) as (f & Hfin & Hid).
    destruct (Hnamed _ _ Hin' Ho') as (f' & Hfin' & Hid'). exists (key goal), (key goal'), f, f'. split_and!; try done; [by apply key_identified..|].
    rewrite Hid, Hid'. intros H%assumption_id_inj. revert H. by eapply lines_apart.
Qed.
End proofread_theorems.
