(* ===== verification/RunWp.v ===== *)
(** * One WP run on the main instance (src/src/mcp/analysis.rs, src/src/mcp/server.rs)

    What a run is asked to prove, the settings it proves under, the retry of what timed
    out, and the refusals of a run that would not be evidence about a target.  The
    environment's values, the models this Frama-C accepts, the host load and the renderings
    of texts in quotes are arguments. *)

From S2P Require Import Prelude RustStr BTree Json Status Codec Client Verdicts Rows Targets StableId WpTriage WpFailure Receipt Session Conclusions Errors WpConfig MainInstance Requests WpTasks EvaRun Proofread.
Local Open Scope nat_scope.

(** The parameters of a call beside those of [WpConfig]. *)
Record RunWpCall := mkCall {
  config : RunWpParams;
  cancel : option bool;
  drain_timeout_seconds : option N;
  retry_unproved : option bool;
  verify_profile : option string;
}.

Definition invalid_params_error (message : string) : ErrorData := mkErrorData InvalidParams (mkMcpError message None).

(** ** Selections *)

Inductive RunWpScope := ScopeMain | ScopeSandbox.

Definition run_wp_target_scope (names : option (list string)) : RunWpScope + ErrorData :=
  match names with
  | None => inl ScopeMain
  | Some names =>
    let has_sandbox := existsb (contains ":") names in
    let has_main := existsb (fun name => negb (contains ":" name)) names in
    if has_sandbox && has_main then inr (invalid_params_error "functions must all target main or the same sandbox")
    else if has_sandbox then inl ScopeSandbox else inl ScopeMain
  end.

(** An entry of a filter: whether it selects or excludes, and its pattern. *)
Definition prop_entry (entry : string) : bool * string :=
  match strip_prefix "-" entry with
  | Some rest => (false, trim rest)
  | None => (true, trim (unwrap_or (strip_prefix "+" entry) entry))
  end.
Definition prop_entries (prop : string) : list (bool * string) :=
  map prop_entry (bfilter (fun e => negb (is_empty e)) (map trim (split_char "," prop))).

Definition prop_matches (row : json) (pattern : string) : bool :=
  match strip_prefix "@" pattern with
  | Some category => is_some_and (fun kind => (kind =s category) || ends_with ("_" +s+ category) kind) (as_str row.["kind"])
  | None => is_some_and (existsb (fun name => as_str name =?s pattern)) (as_array row.["names"])
  end.

Definition prop_selected (entries : list (bool * string)) (row : json) : bool :=
  let any_positive := existsb fst entries in
  let included := negb any_positive || existsb (fun e => e.1 && prop_matches row e.2) entries in
  let excluded := existsb (fun e => negb e.1 && prop_matches row e.2) entries in
  included && negb excluded.

Definition select_prop_rows (rows : list json) (prop : string) : list string :=
  collect_some (fun row => as_str row.["key"]) (bfilter (prop_selected (prop_entries prop)) rows).

Definition retain_selected_goals (selection : list string) (goals : list json) : list json :=
  bfilter (fun goal => is_some_and (fun property => str_mem property selection) (get_str "property" goal)) goals.

(** ** Profiles *)

Definition goal_floor_shortfall (debug_list : list string -> string) (name : string) (min_goals : option N) (goals : list json) (functions : list string)
    : option string :=
  match min_goals with
  | None => None
  | Some min_goals =>
    let generated := goals_owned_by goals functions in
    if (min_goals <=? N.of_nat generated)%N then None
    else Some ("verify_profile " +s+ dq +s+ name +s+ dq +s+ " requires at least " +s+ dec_N min_goals +s+ " obligations and this run generated "
      +s+ dec generated +s+ " for " +s+ debug_list functions
      +s+ ", so it is not that target's evidence however many discharged. A dropped contract or an emptied body proves 0 of 0. WP did run: the goals are in Frama-C's table and reading them back through get_wp_goals or check reports the verdict this refusal is about, and any RTE guards this call generated are still in the AST.")
  end.

Definition profile_covers_exactly (requested declared : list string) : bool :=
  bool_decide ((list_to_set requested : gset string) = list_to_set declared).

Definition profile_matches_loaded_project (p : VerificationProfile) (files : list string) (o : ProjectLoadOptions) : bool :=
  match compilation_database o with Some _ => false | None => true end
  && (bool_decide (p_sources p = []) || bool_decide (p_sources p = files))
  && bool_decide (p_include_paths p = include_paths o) && bool_decide (p_defines p = defines o)
  && bool_decide (p_force_includes p = force_includes o) && bool_decide (p_machdep p = machdep o)
  && is_none_or (fun want => Bool.eqb want (rte o)) (p_rte p)
  && is_none_or (fun want => negb (Bool.eqb want (unsigned_rte_skipped o))) (p_rte_unsigned p)
  && Bool.eqb (unwrap_or (p_rte_pointer p) false) (pointer_rte_requested o)
  && Bool.eqb (unwrap_or (p_builtin_models p) false) (match builtin_models o with Some _ => true | None => false end)
  && bool_decide (p_isystem_paths p = isystem_paths o)
  && is_none_or (fun want => Bool.eqb want (nostdinc o)) (p_nostdinc p).

(** The floor and the echo of the profile a run was configured under. *)
Record AppliedProfile := mkApplied { a_name : string; a_echo : json; a_min_goals : option N }.

Definition is_Some_b {A} (o : option A) : bool := match o with Some _ => true | None => false end.

Definition profile_is_evidence (p : VerificationProfile) : bool :=
  is_Some_b (p_model p) && negb (bool_decide (p_provers p = [])) && is_Some_b (p_timeout_seconds p)
  && negb (bool_decide (p_functions p = [])) && is_Some_b (p_rte p) && is_Some_b (p_nostdinc p).

Definition overrides_profile (call : RunWpCall) : bool :=
  let c := config call in
  is_Some_b (model c) || is_Some_b (timeout c) || is_Some_b (prover c) || is_Some_b (provers c) || is_Some_b (prop c)
  || opt_eqb Bool.eqb (retry_unproved call) (Some true).

Definition profile_echo (name : string) (p : VerificationProfile) : json :=
  JObj [("name", JStr name); ("model", jopt JStr (p_model p)); ("provers", jstrings (p_provers p));
        ("timeout_seconds", jopt jN (p_timeout_seconds p)); ("rte", jopt JBool (p_rte p)); ("nostdinc", jopt JBool (p_nostdinc p));
        ("isystem_paths", jstrings (p_isystem_paths p)); ("min_goals", jopt jN (p_min_goals p));
        ("declared_build_gates_not_run_here", jstrings (p_build_gates p)); ("reproduce", jopt JStr (p_reproduce p))].

Definition set_config (c : RunWpParams) (call : RunWpCall) : RunWpCall :=
  mkCall c (cancel call) (drain_timeout_seconds call) (retry_unproved call) (verify_profile call).

(** The settings of a profile in place of the caller's, who gave none. *)
Definition with_profile (p : VerificationProfile) (call : RunWpCall) : RunWpCall :=
  let c := config call in
  set_config
    (mkParams (match WpConfig.functions c with Some fs => Some fs | None => Some (p_functions p) end)
       (if bool_decide (p_provers p = []) then prover c else Some (join "," (p_provers p))) (provers c) (p_timeout_seconds p) (par c) (steps c)
       (p_model p) (prop c) (smoke c) (smoke_probe c) (cache c)) call.

(** ** The run *)

Definition set_wp_model (model : string) (m : MainFramaCState) : MainFramaCState :=
  mkMain (socket_path m) (files m) (project_options m) (pid m) (command_line m) (ast_parse_log_end m) (ast_parse_source_digest m)
    (ast_reload_diagnostics m) (working_dir m) (Some model) (poisoned m).

Definition is_defined (info : FunctionInfo) : bool := fi_defined info.

(** What a run is about to prove, read off the session. *)
Record WpRunSubject := mkSubject {
  requested_model : string;
  rte_enabled : bool;
  subject_files : list string;
  subject_options : ProjectLoadOptions;
  changed_from : option string;
}.

Record WpProofTargets := mkTargets {
  targets : list FunctionInfo;
  rte_guarded : list string;
  decl_markers : option (list string);
  prop_selection : option (list string);
}.

(** What a run hands over when it has proved: the response, and what the receipt and the
    probes over the printed program are made from. *)
Record Proved := mkProved {
  response : json;
  proved_goals : list json;
  proved_functions : list string;
  proved_subject : WpRunSubject;
  probe_functions : list string;
  proved_rte : bool;
  report_function : option string;
  profile_applied : option AppliedProfile;
}.

(** A call is answered by the run below, or elsewhere. *)
Inductive WpAnswer :=
| OnSandbox
| QueueCancelled (payload : json)
| IsolatedRetries (files : list string) (options : ProjectLoadOptions) (functions provers : list string)
| OnMain (run : Proved).

Section run.
Variable answer : list (request * bool) -> request -> Reply.
Variable late : list (request * bool) -> N.
Variable display_error : FramaCError -> string.
Variable debug_str : string -> string.
Variable debug_list : list string -> string.
Variable debug_set : list string -> string.
Variable models : WpModelSupport.
Variables env_provers env_timeout env_par : option string.
Variable fuel : nat.
Variable hash_label_in : string -> option string.
Variable to_string : json -> string.
Variable sha256_hex : string -> string.
Variable host_load : HostLoad.
Abbreviation ask := (ask answer).
Abbreviation get := (get answer display_error).
Abbreviation set_ := (set_ answer display_error).
Abbreviation exec_ := (exec_ answer display_error).
Abbreviation reload_fetch := (reload_fetch answer display_error).
Abbreviation fetch_wp_goals := (fetch_wp_goals answer display_error fuel).
Abbreviation fetch_properties := (fetch_properties answer display_error fuel).
Abbreviation start_wp_proofs := (start_wp_proofs answer display_error debug_str).
Abbreviation drain_wp_tasks := (drain_wp_tasks answer late display_error).
Abbreviation prove_and_fetch := (prove_and_fetch answer late display_error debug_str fuel).
Abbreviation reset_wp_entry_state := (reset_wp_entry_state answer display_error).

Definition params_ {A} (r : A + McpError) : Tool A := from_sum (with_code InvalidParams r).

Definition send_all (sets : list (string * json)) : Tool unit := do* each (fun s => set_ s.1 s.2) sets in pure tt.

Definition select_provers (requested : list string) : Tool unit :=
  let* response := ask (Get "plugins.wp.getProvers" JNull) in
  let* provers_answer := match response with
                         | Ok a => pure (ProverIds (data a))
                         | Err (Rejected _) => pure RejectedRequest
                         | Err e => raise (from_frama_c_error display_error e)
                         end in
  let '(sets, error) := apply_prover_selection debug_list requested provers_answer in
  do* send_all sets in
  match error with Some e => raise (mkErrorData InvalidParams e) | None => pure tt end.

Definition wp_config_json (c : RunWpParams) (model : string) (par : option N) : json :=
  JObj ([("model", JStr model)]
        ++ match prop c with Some prop => [("prop", JStr prop)] | None => [] end
        ++ match par with Some par => [("par", jN par)] | None => [] end
        ++ [("steps", jN (unwrap_or (steps c) 0%N))]).

(** The setters come first, the model is checked after them and set last. *)
Definition apply_wp_config (c : RunWpParams) (provers : option (list string)) : Tool unit :=
  do* match provers with Some provers => select_provers provers | None => pure tt end in
  let* timeout := params_ (effective_wp_timeout_from c env_timeout) in
  do* match timeout with Some timeout => set_ "plugins.wp.setTimeout" (jN timeout) | None => pure tt end in
  let* mode := params_ (effective_wp_cache debug_str c) in
  do* set_ "plugins.wp.setCacheMode" (JStr mode) in
  let model := unwrap_or (model c) default_wp_model in
  do* match validate models model with Some message => raise (invalid_params_error message) | None => pure tt end in
  let* par := params_ (effective_wp_par_from c env_par) in
  do* exec_ "plugins.ast-utils.execSetWpConfig" (wp_config_json c model par) 10000 in
  pure tt.

Definition guard_target (target : FunctionInfo) : Tool string :=
  do* get "kernel.ast.printDeclaration" (JStr (fi_declaration target)) in
  let* marker := from_sum (with_code InternalError (pvdecl_marker debug_str (fi_declaration target))) in
  do* exec_ "plugins.wp.generateRTEGuards" (JStr marker) 60000 in
  pure (fi_name target).
Definition generate_rte_guards (targets : list FunctionInfo) : Tool (list string) := each guard_target (bfilter is_defined targets).

Definition refresh_functions : Tool unit :=
  let* entries := reload_fetch fuel "kernel.ast.reloadFunctions" "kernel.ast.fetchFunctions" in
  modify (set_session (update_functions entries)).

Definition resolve_function_or_refresh (name : string) : Tool FunctionInfo :=
  let* cached := gets (fun s => resolve_function name (session s)) in
  match cached with
  | Some info => pure info
  | None =>
    do* require_client in
    do* refresh_functions in
    let* found := gets (fun s => resolve_function name (session s)) in
    match found with Some info => pure info | None => raise (from_frama_c_error display_error (FunctionNotFound name)) end
  end.

(** The functions of the session are walked in some order, then sorted by name. *)
Definition resolve_wp_targets (names : option (list string)) : Tool (list FunctionInfo) :=
  match names with
  | None =>
    do* refresh_functions in
    gets (fun s => sort_by (fun a b => bool_decide (str_le (fi_name a) (fi_name b))) (map snd (map_to_list (Session.functions (session s)))))
  | Some names => each resolve_function_or_refresh names
  end.

Definition available_names (row : json) : list string :=
  match as_str row.["kind"] with Some kind => ["@" +s+ kind] | None => [] end
  ++ collect_some as_str (unwrap_or (as_array row.["names"]) []).

Definition select_prop_markers (targets : list FunctionInfo) (prop : string) : Tool (list string) :=
  do* each (fun info => get "kernel.ast.printDeclaration" (JStr (fi_declaration info))) (bfilter is_defined targets) in
  let* properties := fetch_properties in
  let in_scope := bfilter (fun row => is_none_or (fun scope => str_mem scope (map fi_declaration targets)) (as_str row.["scope"])) properties in
  match select_prop_rows in_scope prop with
  | [] => raise (invalid_params_error ("prop " +s+ debug_str prop +s+ " selects no property of the target functions; available: "
            +s+ debug_set (btree_set (flat_map available_names in_scope))))
  | selected => pure selected
  end.

Definition resolve_what_to_prove (c : RunWpParams) : Tool WpProofTargets :=
  let* targets := resolve_wp_targets (WpConfig.functions c) in
  let* guarded := generate_rte_guards targets in
  let named := match WpConfig.functions c with Some _ => Some (map fi_declaration targets) | None => None end in
  let* selection := match prop c with Some prop => let* l := select_prop_markers targets prop in pure (Some l) | None => pure None end in
  pure (mkTargets targets guarded (selection <||> named) selection).

Definition wp_run_subject (c : RunWpParams) : Tool WpRunSubject :=
  let requested := unwrap_or (model c) default_wp_model in
  let* main := gets (fun s => main (server s)) in
  match main with
  | None => raise no_project_loaded_error
  | Some m =>
    pure (mkSubject requested (rte (project_options m)) (files m) (project_options m)
            (opt_filter (fun previous => negb (previous =s requested)) (wp_model_used m)))
  end.

Definition append_message (sentence : string) (e : ErrorData) : ErrorData := mkErrorData (code e) (append_to_error_message sentence (mcp e)).

Definition explain_change (requested : string) (changed_from : option string) (e : ErrorData) : ErrorData :=
  match changed_from with
  | None => e
  | Some previous =>
    set_data (put "requested_wp_model" (JStr requested)) (set_data (put "previous_wp_model" (JStr previous))
      (append_message ("this Frama-C process had already run WP under memory model " +s+ debug_str previous
         +s+ " and Frama-C does not always accept a change to " +s+ debug_str requested
         +s+ "; call reload_project for a fresh process, then run_wp with the model you want") e))
  end.

Definition bump_epoch : Tool unit := modify (fun s => mkSys (sent s) (clock s) (epoch s + 1)%N (session s) (server s)).

Definition record_model_or_explain_abort (outcome : list json + ErrorData) (requested : string) (changed_from : option string) : Tool (list json) :=
  match outcome with
  | inl diagnostics =>
    do* modify (set_server (fun srv => mkServer (set_wp_model requested <$> main srv) (client srv) (MainInstance.project_loaded srv) (spawn_counter srv))) in
    pure diagnostics
  | inr error =>
    let error := explain_change requested changed_from error in
    if wp_timed_out (mcp error) then
      do* bump_epoch in
      let* o := ask (Set_ "plugins.wp.cancelProofTasks" JNull) in
      let cancelled := succeeded o in
      raise (set_data (put "wp_queue_cancelled" (JBool cancelled))
        (append_message ("WP's queue was " +s+ (if cancelled then "emptied" else "left running, the cancel did not land")
           +s+ ", so goals already proved keep their verdicts and the next call does not queue behind this one") error))
    else raise error
  end.

Definition cancel_wp_queue : Tool json :=
  do* require_client in
  do* bump_epoch in
  do* set_ "plugins.wp.cancelProofTasks" JNull in
  let* tasks := get "plugins.wp.getScheduledTasks" JNull in
  pure (JObj [("cancelled", JBool true); ("scheduled_tasks", tasks);
              ("note", JStr "WP's queue was emptied. Goals already proved keep their verdicts; the rest are simply not scheduled any more.")]).

(** *** Profiles *)

Definition apply_verify_profile (call : RunWpCall) : Tool (RunWpCall * option AppliedProfile) :=
  match verify_profile call with
  | None => pure (call, None)
  | Some name =>
    let* profiles := gets (fun s => verification_profiles (session s)) in
    match profiles !! name with
    | None => raise (mkErrorData InvalidParams (unknown_verify_profile name profiles))
    | Some p =>
      if negb (profile_is_evidence p) then
        raise (invalid_params_error ("verify_profile " +s+ dq +s+ name +s+ dq
          +s+ " is missing functions, model, provers, timeout_seconds, rte, or nostdinc, so it cannot be proof evidence"))
      else if overrides_profile call then
        raise (invalid_params_error ("verify_profile " +s+ dq +s+ name +s+ dq
          +s+ " is proof evidence and cannot be combined with model, prover, provers, timeout, prop, or retry_unproved overrides. Drop verify_profile to deviate from its proof settings."))
      else
        let* main := gets (fun s => main (server s)) in
        match main with
        | None => raise no_project_loaded_error
        | Some m =>
          if negb (profile_matches_loaded_project p (files m) (project_options m)) then
            raise (invalid_params_error ("verify_profile " +s+ dq +s+ name +s+ dq
              +s+ " does not match the loaded project. Reload its sources and load settings before using it as proof evidence."))
          else if negb (is_none_or (fun fs => profile_covers_exactly fs (p_functions p)) (WpConfig.functions (config call))) then
            raise (invalid_params_error ("verify_profile " +s+ dq +s+ name +s+ dq +s+ " is the target that proves " +s+ debug_list (p_functions p)
              +s+ ". This call names " +s+ debug_list (unwrap_or (WpConfig.functions (config call)) [])
              +s+ ", so its result would not be evidence about that target. Drop verify_profile and pass the model directly to prove a subset."))
          else pure (with_profile p call, Some (mkApplied name (profile_echo name p) (p_min_goals p)))
        end
    end
  end.

(** *** The second pass *)

Definition narrow (selection : option (list string)) (goals : list json) : list json :=
  match selection with Some selection => retain_selected_goals selection goals | None => goals end.

Definition timed_out_goals (goals : list json) : gset string :=
  list_to_set (collect_some wp_goal_identity (bfilter (fun goal => wp_goal_status_is goal "timeout") goals)).

Definition not_retried (reason : string) : json := JObj [("attempted", JBool false); ("reason", JStr reason)].

Definition doubled_config (doubled : N) (c : RunWpParams) : RunWpParams :=
  mkParams (WpConfig.functions c) (prover c) (provers c) (Some doubled) (par c) (steps c) (model c) (prop c) (smoke c) (smoke_probe c) (Some "None").

(** The configuration and proofs of the retry, whose failure waits for the restore. *)
Definition retry_pass (c : RunWpParams) (provers : option (list string)) (decl_markers : option (list string)) (doubled : N) : Tool (list json) :=
  do* apply_wp_config (doubled_config doubled c) provers in prove_and_fetch decl_markers.

Definition retry_timed_out_goals (call : RunWpCall) (provers decl_markers prop_selection : option (list string)) (goals0 : list json)
    : Tool (list json * json) :=
  let goals := narrow prop_selection goals0 in
  if negb (opt_eqb Bool.eqb (retry_unproved call) (Some true)) then pure (goals, JNull)
  else
    let timed_out := timed_out_goals goals in
    if bool_decide (timed_out = ∅) then pure (goals, not_retried "no goal timed out")
    else
      let* answered := get "plugins.wp.getTimeout" JNull in
      let before := (unwrap_or (as_u64 answered) 0 mod 2 ^ 32)%N in
      if (before =? 0)%N
      then pure (goals, not_retried "the session prover timeout is unset or unbounded, so there is nothing to double")
      else
        let doubled := N.min (before * 2) (2 ^ 32 - 1) in
        let* retried := try (retry_pass (config call) provers decl_markers doubled) in
        let* restored := try (set_ "plugins.wp.setTimeout" (jN before)) in
        let* retried := from_sum retried in
        do* from_sum restored in
        let retried := narrow prop_selection retried in
        pure (retried, timeout_retry_report timed_out retried before doubled).

(** *** The call *)

Definition project_locked : ErrorData :=
  project_locked_error ("Project is locked. run_wp is blocked during Phase 2 to prevent state pollution. If you are in verify-function, pass sandbox-prefixed functions. Do NOT touch the main Frama-C instance. Call verify_program_step with lock_project=false first if this is the final main-project gate.").
Definition refuse_while_locked (locked : bool) : Tool unit := if locked then raise project_locked else pure tt.

Definition drain_budget (seconds : option N) : N :=
  match seconds with Some seconds => (N.min seconds (WP_DRAIN_BUDGET / 1000) * 1000)%N | None => WP_DRAIN_BUDGET end.

(** Calls that are answered without a proof of the main instance. *)
Definition run_wp_answered_without_a_main_run (call : RunWpCall) : Tool (option WpAnswer) :=
  let* scope := from_sum (run_wp_target_scope (WpConfig.functions (config call))) in
  match scope with
  | ScopeSandbox =>
    match verify_profile call with
    | Some _ => raise (invalid_params_error "verify_profile only labels proofs of the loaded main project; sandbox proofs are not target evidence")
    | None => pure (Some OnSandbox)
    end
  | ScopeMain =>
    if opt_eqb Bool.eqb (cancel call) (Some true) then let* payload := cancel_wp_queue in pure (Some (QueueCancelled payload)) else pure None
  end.

Definition contract_context (function : string) : Tool (string * option json) :=
  let* o := ask (Get "plugins.ast-utils.getContractContext" (JStr function)) in
  pure (function, match o with Ok a => Some (data a) | Err _ => None end).

Definition forget_eva_unless (survived : bool) : Tool unit :=
  if survived then pure tt else modify (set_session clear_eva_completed).

(** Scheduling, the wait, and the goals of the run, retried ones included. *)
Definition prove_targets (call : RunWpCall) (provers : option (list string)) (subject : WpRunSubject) (what : WpProofTargets)
    : Tool (json * list json * json * list json) :=
  let* cancel_epoch := gets epoch in
  let* outcome := try (start_wp_proofs (decl_markers what)) in
  let* diagnostics := record_model_or_explain_abort outcome (requested_model subject) (changed_from subject) in
  let* tasks := drain_wp_tasks (drain_budget (drain_timeout_seconds call)) in
  let* epoch_now := gets epoch in
  let tasks := if (epoch_now =? cancel_epoch)%N then tasks else mark_cancelled_mid_run tasks in
  let* goals := fetch_wp_goals in
  let* (goals, timeout_retry) := retry_timed_out_goals call provers (decl_markers what) (prop_selection what) goals in
  pure (tasks, goals, timeout_retry, diagnostics).

Definition refuse_below_floor (applied : option AppliedProfile) (goals : list json) (names : list string) : Tool unit :=
  match applied ≫= (fun a => goal_floor_shortfall debug_list (a_name a) (a_min_goals a) goals names) with
  | Some message => raise (invalid_params_error message)
  | None => pure tt
  end.

Definition single {A} (l : list A) : option A := match l with [a] => Some a | _ => None end.

(** The requests are those of this call, and so is what it does to the session: others may send
    theirs in between, since only the reset of the entry point waits for an EVA run. *)
Definition run_on_main (call : RunWpCall) (provers : option (list string)) (applied : option AppliedProfile) : Tool Proved :=
  let* subject := wp_run_subject (config call) in
  do* require_client in
  let* survived := reset_wp_entry_state in
  do* forget_eva_unless survived in
  do* apply_wp_config (config call) provers in
  let* what := resolve_what_to_prove (config call) in
  let* (tasks, goals, timeout_retry, diagnostics) := prove_targets call provers subject what in
  let names := map fi_name (targets what) in
  do* refuse_below_floor applied goals names in
  let* contexts := each contract_context names in
  let report := proofread_drop_stale_retry_advice
    (main_proofread_report hash_label_in to_string sha256_hex contexts goals (single names)) timeout_retry in
  do* modify (set_session set_wp_completed) in
  let rte := rte_enabled subject || negb (bool_decide (rte_guarded what = [])) in
  let response := wp_run_response to_string debug_str env_provers env_timeout env_par tasks (config call) names "main" rte
    (unsigned_rte (subject_options subject)) (pointer_rte (subject_options subject)) diagnostics (Some report) (Some goals) host_load in
  pure (mkProved (put "timeout_retry" timeout_retry (put "rte_guarded_in_place" (jstrings (rte_guarded what)) response)) goals names subject
          (map fi_name (bfilter is_defined (targets what))) rte (single names) applied).

(** [locked] is whether the project is locked when the call asks, and again under the lock. *)
Definition run_wp (locked : bool * bool) (call0 : RunWpCall) : Tool WpAnswer :=
  let* answered := run_wp_answered_without_a_main_run call0 in
  match answered with
  | Some a => pure a
  | None =>
    let* (call, applied) := apply_verify_profile call0 in
    do* refuse_while_locked locked.1 in
    let* requested := params_ (effective_wp_provers_from (config call) env_provers) in
    match requested, provers (config call) with
    | Some requested, Some _ =>
      let* main := gets (fun s => main (server s)) in
      match main with
      | None => raise no_project_loaded_error
      | Some m => pure (IsolatedRetries (files m) (project_options m) (unwrap_or (WpConfig.functions (config call)) []) requested)
      end
    | _, _ =>
      do* refuse_while_locked locked.2 in
      let* run := run_on_main call requested applied in
      pure (OnMain run)
    end
  end.
End run.

(** ** Theorems *)

Definition START_PROOFS : string := "plugins.wp.startProofs".
Definition schedules (r : request) : bool := match r with Exec name _ _ => name =s START_PROOFS | _ => false end.

(** The memory model of the last configuration that worked. *)
Definition model_in_force (log : list log_entry) : option json :=
  fold_left (fun v e => match e with (Exec name arg _, true) => if name =s "plugins.ast-utils.execSetWpConfig" then Some (arg.["model"]) else v | _ => v end) log None.

Lemma model_snoc log r ok : model_in_force (log ++ [(r, ok)]) =
  match r with Exec name arg _ => if ok && (name =s "plugins.ast-utils.execSetWpConfig") then Some (arg.["model"]) else model_in_force log | _ => model_in_force log end.
Proof. unfold model_in_force. rewrite fold_left_app. cbn. destruct r, ok; done. Qed.

Section run_theorems.
Context (answer : list (request * bool) -> request -> Reply) (late : list (request * bool) -> N) (display_error : FramaCError -> string)
  (debug_str : string -> string) (debug_list debug_set : list string -> string) (models : WpModelSupport)
  (env_provers env_timeout env_par : option string) (fuel : nat) (hash_label_in : string -> option string)
  (to_string : json -> string) (sha256_hex : string -> string) (host_load : HostLoad).
Abbreviation apply_config := (apply_wp_config answer display_error debug_str debug_list models env_timeout env_par).
Abbreviation retry := (retry_timed_out_goals answer late display_error debug_str debug_list models env_timeout env_par fuel).
Abbreviation proves := (prove_targets answer late display_error debug_str debug_list models env_timeout env_par fuel).
Abbreviation on_main := (run_on_main answer late display_error debug_str debug_list debug_set models env_provers env_timeout env_par fuel
                           hash_label_in to_string sha256_hex host_load).
Abbreviation run := (run_wp answer late display_error debug_str debug_list debug_set models env_provers env_timeout env_par fuel
                           hash_label_in to_string sha256_hex host_load).

(** What a proof is scheduled under: the entry point of the program, the cache mode of the
    call or none for a retry, and the call's memory model. *)
Definition proves_under (c : RunWpParams) (log : list log_entry) : Prop :=
  entry_in_force "main" log
  /\ (exists mode, setting "plugins.wp.setCacheMode" log = Some (JStr mode) /\ (effective_wp_cache debug_str c = inl mode \/ mode = "None"))
  /\ model_in_force log = Some (JStr (unwrap_or (model c) default_wp_model)).

Definition keeps_settings (e : log_entry) : Prop :=
  match e.1 with
  | Set_ name _ => one_of name ["kernel.parameters.setMain"; "kernel.parameters.setLibEntry"; "plugins.wp.setCacheMode"] = false
  | Exec name _ _ => (name =s "plugins.ast-utils.execSetWpConfig") = false
  | Get _ _ => True
  end.

Lemma settings_kept c log e : proves_under c log -> keeps_settings e -> proves_under c (log ++ [e]).
Proof.
  intros (Hm & (mode & Hc & Hmode) & Hmodel) He. destruct e as [r ok]. split_and!.
  - apply entry_kept; [done|]. unfold keeps_settings, keeps_entry in *. destruct r as [|name arg|]; [done| |done]. cbn in *.
    unfold one_of in *. cbn in *. by apply orb_false_iff in He as [-> [-> _]%orb_false_iff].
  - exists mode. split; [|done]. rewrite setting_snoc. destruct r as [|name arg|]; [done| |done]. unfold keeps_settings, one_of in He. cbn in He.
    apply orb_false_iff in He as [_ [_ [He _]%orb_false_iff]%orb_false_iff]. by rewrite He, andb_false_r.
  - rewrite model_snoc. destruct r as [| |name arg budget]; [done..|]. unfold keeps_settings in He. cbn in He. by rewrite He, andb_false_r.
Qed.

(** *** What the steps of a run send *)

Section sends.
Context (P : log_entry -> Prop).
Hypothesis on_get : forall name arg ok, P (Get name arg, ok).

Lemma fetch_goals_only : only P (fetch_wp_goals answer display_error fuel).
Proof. unfold fetch_wp_goals. by only_tac. Qed.
Lemma fetch_properties_only : only P (fetch_properties answer display_error fuel).
Proof. unfold fetch_properties. by only_tac. Qed.
Lemma drain_only budget : only P (drain_wp_tasks answer late display_error budget).
Proof.
  unfold drain_wp_tasks. only_step; [by only_tac|]. generalize (drain_fuel budget) as n, 50%N as backoff. intros n.
  induction n as [|n IH]; intros backoff; [exact (only_stuck P)|]. rewrite drain_loop_turn. only_step; [by only_tac|]. only_step; [|by only_tac].
  only_step; [by only_tac|]. only_step; [|by only_tac]. only_step; [by only_tac|]. apply IH.
Qed.
Lemma refresh_only : only P (refresh_functions answer display_error fuel).
Proof. unfold refresh_functions. by only_tac. Qed.
Lemma resolve_only name : only P (resolve_function_or_refresh answer display_error fuel name).
Proof. unfold resolve_function_or_refresh. repeat first [apply refresh_only | only_step]; done. Qed.
Lemma targets_only names : only P (resolve_wp_targets answer display_error fuel names).
Proof. unfold resolve_wp_targets. repeat first [apply refresh_only | apply resolve_only | only_step]; done. Qed.
Lemma prop_markers_only infos prop : only P (select_prop_markers answer display_error debug_str debug_set fuel infos prop).
Proof. unfold select_prop_markers. repeat first [apply fetch_properties_only | only_step]; done. Qed.
Lemma eva_state_only : only P (get_eva_computation_state answer display_error).
Proof. by apply get_either_only. Qed.

Hypothesis on_guard : forall arg budget ok, P (Exec "plugins.wp.generateRTEGuards" arg budget, ok).
Lemma what_only c : only P (resolve_what_to_prove answer display_error debug_str debug_set fuel c).
Proof.
  unfold resolve_what_to_prove, generate_rte_guards, guard_target.
  repeat first [apply targets_only | apply prop_markers_only | only_step]; done.
Qed.

Hypothesis on_start : forall arg budget ok, P (Exec START_PROOFS arg budget, ok).
Lemma start_only markers : only P (start_wp_proofs answer display_error debug_str markers).
Proof. unfold start_wp_proofs, start_one, exec_diagnostics. only_tac; done. Qed.
Lemma prove_and_fetch_only markers : only P (prove_and_fetch answer late display_error debug_str fuel markers).
Proof. unfold prove_and_fetch. repeat first [apply start_only | apply drain_only | apply fetch_goals_only | only_step]. Qed.

Hypothesis on_cancel : forall arg ok, P (Set_ "plugins.wp.cancelProofTasks" arg, ok).
Lemma record_only outcome requested changed : only P (record_model_or_explain_abort answer debug_str outcome requested changed).
Proof. unfold record_model_or_explain_abort, bump_epoch. only_tac; done. Qed.
End sends.

(** *** Settings *)

Definition is_plain (e : log_entry) : Prop := keeps_settings e /\ schedules e.1 = false.

Lemma select_provers_only requested : only (fun e => keeps_settings e /\ schedules e.1 = false) (select_provers answer display_error debug_list requested).
Proof.
  assert (Hset : forall sets : list (string * json), Forall (fun e => e.1 ∈ ["plugins.wp.setProvers"; "plugins.wp.setProverState"]) sets ->
    only (fun e => keeps_settings e /\ schedules e.1 = false) (each (fun e => set_ answer display_error e.1 e.2) sets)).
  { induction 1 as [|[name arg] sets Hin _ IH]; [apply only_pure|]. cbn [each]. repeat first [apply IH | only_step]. cbn in Hin |- *.
    apply list_elem_of_In in Hin as [<-|[<-|[]]]; done. }
  unfold select_provers. only_step; [only_tac; done|]. only_step; [only_tac; done|].
  assert (Hnames : Forall (fun e => e.1 ∈ ["plugins.wp.setProvers"; "plugins.wp.setProverState"]) (apply_prover_selection debug_list requested a0).1).
  { unfold apply_prover_selection. destruct a0 as [response| |]; [|constructor; [left|constructor]|constructor].
    destruct (as_array response); [|constructor]. destruct (unmatched_provers _ _); [|constructor].
    cbn. apply Forall_map, Forall_forall. intros id _. cbn. right. left. }
  destruct (apply_prover_selection debug_list requested a0) as [sets error]. cbn in Hnames.
  unfold send_all. repeat first [apply Hset; exact Hnames | only_step].
Qed.

Lemma apply_config_quiet c provers : only (fun e => schedules e.1 = false) (apply_config c provers).
Proof.
  unfold apply_wp_config, params_. destruct provers as [l|].
  - only_step; [eapply only_weaken; [|apply select_provers_only]; by intros e [_ He]|]. only_tac; done.
  - only_tac; done.
Qed.

(** The entry point with the cache mode of the call. *)
Definition mode_in_force (c : RunWpParams) (log : list log_entry) : Prop :=
  entry_in_force "main" log /\ exists mode, setting "plugins.wp.setCacheMode" log = Some (JStr mode) /\ effective_wp_cache debug_str c = inl mode.

Lemma plain_keeps_entry e : keeps_settings e -> keeps_entry e.
Proof.
  unfold keeps_settings, keeps_entry. destruct e.1 as [|name arg|]; [done| |done]. unfold one_of. cbn.
  by intros [-> [-> _]%orb_false_iff]%orb_false_iff.
Qed.

Lemma keeping_entry {A} (m : Tool A) : only (fun e => keeps_settings e) m ->
  triple (fun s => entry_in_force "main" (sent s)) m (fun r s => match r with inl _ => entry_in_force "main" (sent s) | inr _ => True end).
Proof.
  intros Ho. eapply triple_weaken; [apply (triple_keeping (entry_in_force "main") keeps_entry)|done|by intros []].
  - intros log e. apply entry_kept.
  - eapply only_weaken; [apply plain_keeps_entry|exact Ho].
Qed.

Lemma from_sum_triple {A} (x : A + ErrorData) (P : Sys -> Prop) :
  triple P (from_sum x) (fun r s => match r with inl a => P s /\ x = inl a | inr _ => True end).
Proof. intros s r s' HP. destruct x; intros [= <- <-]; done. Qed.

Lemma from_sum_keeps {A} (x : A + ErrorData) (P : Sys -> Prop) :
  triple P (from_sum x) (fun r s => match r with inl _ => P s | inr _ => True end).
Proof. intros s r s' HP. destruct x; intros [= <- <-]; done. Qed.

Lemma apply_config_settings c provers :
  triple (fun s => entry_in_force "main" (sent s)) (apply_config c provers)
    (fun r s => match r with inl _ => mode_in_force c (sent s) /\ model_in_force (sent s) = Some (JStr (unwrap_or (model c) default_wp_model)) | inr _ => True end).
Proof.
  unfold apply_wp_config, params_. eapply triple_bind with (R := fun _ s => entry_in_force "main" (sent s)).
  { apply keeping_entry. destruct provers as [l|]; [|apply only_pure]. eapply only_weaken; [|apply select_provers_only]. by intros e [He _]. }
  intros []. eapply triple_bind with (R := fun _ s => entry_in_force "main" (sent s)).
  { apply from_sum_keeps. }
  intros timeout. eapply triple_bind with (R := fun _ s => entry_in_force "main" (sent s)).
  { apply keeping_entry. destruct timeout; only_tac. exact (eq_refl false). }
  intros []. eapply triple_bind with (R := fun mode s => entry_in_force "main" (sent s) /\ effective_wp_cache debug_str c = inl mode).
  { eapply triple_weaken; [apply (from_sum_triple _ (fun s => entry_in_force "main" (sent s)))|done|]. intros [mode|] s; [|done]. intros [He Hm]. split; [done|].
    unfold with_code in Hm. destruct (effective_wp_cache debug_str c); [by injection Hm as ->|done]. }
  intros mode. eapply triple_bind with (R := fun _ s => mode_in_force c (sent s)).
  { intros s r s' [He Hmode] H. apply set_spec in H as (Hs & _). destruct r as [[]|]; [|done]. rewrite Hs. split.
    - destruct He as [H1 H2]. split; by rewrite setting_snoc.
    - exists mode. by rewrite setting_snoc, String.eqb_refl. }
  intros []. eapply triple_bind with (R := fun _ s => mode_in_force c (sent s)).
  { destruct (validate _ _); [by apply triple_raise|by apply triple_pure]. }
  intros []. eapply triple_bind with (R := fun _ s => mode_in_force c (sent s)).
  { apply from_sum_keeps. }
  intros par. eapply triple_bind with (R := fun _ s => mode_in_force c (sent s) /\ model_in_force (sent s) = Some (JStr (unwrap_or (model c) default_wp_model))).
  2: { intros ?. by apply triple_pure. }
  intros s r s' [[H1 H2] (md & Hc & Hmd)] H. apply exec_spec in H as (Hs & _). destruct r as [a|]; [|done]. rewrite Hs.
  split; [split; [split; by rewrite setting_snoc|exists md; rewrite setting_snoc; by split]|]. by rewrite model_snoc.
Qed.

Lemma reset_settings : triple (fun _ => True) (reset_wp_entry_state answer display_error)
  (fun r s => match r with inl _ => entry_in_force "main" (sent s) | inr _ => True end).
Proof.
  unfold reset_wp_entry_state. eapply triple_bind with (R := fun _ s => setting "kernel.parameters.setMain" (sent s) = Some (JStr "main")); [apply set_in_force|].
  intros []. eapply triple_bind with (R := fun _ s => entry_in_force "main" (sent s)).
  { intros s r s' Hm H. apply set_spec in H as (-> & _). destruct r; [|done]. split; by rewrite setting_snoc. }
  intros []. eapply triple_bind with (R := fun _ s => entry_in_force "main" (sent s)).
  - apply keeping_entry. apply only_try. by apply get_either_only.
  - intros ?. by apply triple_pure.
Qed.

Abbreviation watch call := (watched (proves_under (config call)) schedules).

Lemma keeping_watch {A} call (m : Tool A) : only keeps_settings m ->
  watch call (fun s => proves_under (config call) (sent s)) m (fun _ s => proves_under (config call) (sent s)).
Proof. apply watched_keeping. intros log e. apply settings_kept. Qed.

Lemma config_watch call c provers P : (forall s, P s -> entry_in_force "main" (sent s)) ->
  unwrap_or (model c) default_wp_model = unwrap_or (model (config call)) default_wp_model ->
  (forall mode, effective_wp_cache debug_str c = inl mode -> effective_wp_cache debug_str (config call) = inl mode \/ mode = "None") ->
  watch call P (apply_config c provers) (fun _ s => proves_under (config call) (sent s)).
Proof.
  intros HP Hm Hc. apply watched_quiet; [apply apply_config_quiet|]. eapply triple_weaken; [apply apply_config_settings|exact HP|].
  intros [[]|] s; [|done]. intros [[He (mode & Hmode & Heff)] Hmodel]. split_and!; [done| |by rewrite Hmodel, Hm].
  exists mode. split; [done|]. by apply Hc.
Qed.

Lemma doubled_config_cache doubled c mode : effective_wp_cache debug_str (doubled_config doubled c) = inl mode -> mode = "None".
Proof. unfold effective_wp_cache, validate_wp_cache_mode, doubled_config. cbn. by intros [= <-]. Qed.

Lemma retry_watch call provers markers selection goals :
  watch call (fun s => proves_under (config call) (sent s)) (retry call provers markers selection goals) (fun _ _ => True).
Proof.
  unfold retry_timed_out_goals. destruct (negb _); [apply watched_silent, only_pure|]. destruct (bool_decide _); [apply watched_silent, only_pure|].
  eapply watched_bind; [apply keeping_watch; by only_tac|]. intros answered. cbn.
  destruct (_ =? 0)%N; [apply watched_silent, only_pure|].
  eapply watched_bind; [eapply watched_try, (watched_bind _ _ _ _ _ (fun _ s => proves_under (config call) (sent s)) (fun _ _ => True))|].
  - apply config_watch; [by intros s [? _]|done|]. intros mode Hmode. right. by eapply doubled_config_cache.
  - intros []. eapply watched_weaken; [apply keeping_watch|done|done]. by apply prove_and_fetch_only.
  - intros r. apply watched_silent. by only_tac.
Qed.

Lemma prove_targets_watch call provers subject what :
  watch call (fun s => proves_under (config call) (sent s)) (proves call provers subject what) (fun _ _ => True).
Proof.
  unfold prove_targets. eapply watched_bind; [apply keeping_watch; by only_tac|]. intros cancel_epoch.
  eapply watched_bind; [apply keeping_watch; apply only_try; by apply start_only|]. intros outcome.
  eapply watched_bind; [apply keeping_watch; by apply record_only|]. intros diagnostics.
  eapply watched_bind; [apply keeping_watch; by apply drain_only|]. intros tasks.
  eapply watched_bind; [apply keeping_watch; by only_tac|]. intros epoch_now. cbn.
  eapply watched_bind; [apply keeping_watch; by apply fetch_goals_only|]. intros goals.
  eapply watched_bind; [apply retry_watch|]. intros [goals' timeout_retry]. apply watched_silent, only_pure.
Qed.

Lemma run_watch call provers applied : watch call (fun _ => True) (on_main call provers applied) (fun _ _ => True).
Proof.
  unfold run_on_main. eapply watched_bind; [apply watched_silent; unfold wp_run_subject; by only_tac|]. intros subject. cbn.
  eapply watched_bind; [apply watched_silent; by only_tac|]. intros [].
  eapply watched_bind.
  { apply (watched_quiet _ _ _ _ (fun _ s => entry_in_force "main" (sent s))).
    - unfold reset_wp_entry_state. repeat first [by apply get_either_only | only_step]; done.
    - eapply triple_weaken; [apply reset_settings|done|]. by intros []. }
  intros survived. eapply watched_bind with (R := fun _ s => entry_in_force "main" (sent s)).
  { apply watched_quiet; [unfold forget_eva_unless; by only_tac|]. apply keeping_entry. unfold forget_eva_unless. by only_tac. }
  intros []. eapply watched_bind; [apply config_watch; [done|done|by left]|].
  intros []. eapply watched_bind; [apply keeping_watch; by apply what_only|]. intros what.
  eapply watched_bind; [apply prove_targets_watch|]. intros [[[tasks goals] timeout_retry] diagnostics]. cbn.
  apply watched_silent. unfold refuse_below_floor, contract_context. by only_tac.
Qed.

(** Requests of several calls in the order Frama-C handled them; the flag marks those of this
    call.  A check's EVA half does not wait for a proof run: it holds main_eva_lock, and a
    proof run holds that one only around the reset of the entry point. *)
Definition own_part (handled : list (bool * log_entry)) : list log_entry := map snd (bfilter fst handled).

Lemma fold_own {A} (f : A -> log_entry -> A) handled v : Forall (fun x => x.1 = false -> forall v, f v x.2 = v) handled ->
  fold_left f (map snd handled) v = fold_left f (own_part handled) v.
Proof.
  revert v. induction handled as [|[[] e] handled IH]; intros v; [done|..]; intros [He Hk]%Forall_cons; cbn in *; [by apply IH|].
  rewrite (He eq_refl). by apply IH.
Qed.

Lemma setting_beside name base handled :
  Forall (fun x => x.1 = false -> keeps_settings x.2) handled ->
  one_of name ["kernel.parameters.setMain"; "kernel.parameters.setLibEntry"; "plugins.wp.setCacheMode"] = true ->
  setting name (base ++ map snd handled) = setting name (base ++ own_part handled).
Proof.
  intros Hk Hn. unfold setting. rewrite !fold_left_app. apply fold_own. eapply Forall_impl; [exact Hk|]. intros [own [r []]] H Ho v; cbn in *; [|by destruct r].
  specialize (H Ho). unfold keeps_settings in H. destruct r as [|n arg|]; [done| |done]. cbn in *. destruct (String.eqb_spec n name) as [->|]; [congruence|done].
Qed.

Lemma beside_kept c base handled : Forall (fun x => x.1 = false -> keeps_settings x.2) handled ->
  proves_under c (base ++ own_part handled) -> proves_under c (base ++ map snd handled).
Proof.
  intros Hk ([Hm Hl] & (mode & Hc & Hmode) & Hmodel). split_and!; [split|exists mode; split; [|done]|]; [by rewrite setting_beside..|].
  rewrite <- Hmodel. unfold model_in_force. rewrite !fold_left_app. apply fold_own. eapply Forall_impl; [exact Hk|].
  intros [own [r []]] H Ho v; cbn in *; [|by destruct r]. specialize (H Ho). unfold keeps_settings in H. destruct r as [| |name arg budget]; [done..|]. cbn in *. by rewrite H.
Qed.

Lemma own_part_split handled pre e post : handled = pre ++ (true, e) :: post -> own_part handled = own_part pre ++ e :: own_part post.
Proof. intros ->. unfold own_part. by rewrite bfilter_app, map_app. Qed.


(** *** The retry *)

Definition sets_timeout (e : log_entry) : bool := match e.1 with Set_ name _ => name =s "plugins.wp.setTimeout" | _ => false end.

(** C10: a second pass leaves the session's timeout as it was.  However the pass ends, whether
    its configuration, its proofs or the restore fail, either no request changed the
    timeout, or the last request sent is the one that sets it back to the value Frama-C
    gave before, a positive one; when the pass reports goals, that request worked.  The
    goals it reports are those of the selected properties. *)
Theorem retry_restores_timeout call provers markers selection goals s r s' :
  retry call provers markers selection goals s = Some (r, s') ->
  ((exists l, sent s' = sent s ++ l /\ Forall (fun e => sets_timeout e = false) l)
   \/ exists v s1 l ok, get answer display_error "plugins.wp.getTimeout" JNull s = Some (inl v, s1)
        /\ let before := (unwrap_or (as_u64 v) 0 mod 2 ^ 32)%N in
           (0 < before)%N /\ sent s' = sent s1 ++ l ++ [(Set_ "plugins.wp.setTimeout" (jN before), ok)]
           /\ match r with inl _ => ok = true | inr _ => True end)
  /\ forall gs report names goal, r = inl (gs, report) -> selection = Some names -> goal ∈ gs ->
       exists property, get_str "property" goal = Some property /\ property ∈ names.
Proof.
  unfold retry_timed_out_goals. cbv zeta.
  assert (Hnarrow : forall gs names goal, goal ∈ narrow (Some names) gs -> exists property, get_str "property" goal = Some property /\ property ∈ names).
  { intros gs names goal [_ Hp]%elem_of_bfilter. apply is_some_and_true in Hp as (property & -> & Hin). exists property. split; [done|].
    by apply str_mem_elem. }
  assert (Hstop : forall report, pure (narrow selection goals, report) s = Some (r, s') ->
    ((exists l, sent s' = sent s ++ l /\ Forall (fun e => sets_timeout e = false) l))
    /\ (forall gs report names goal, r = inl (gs, report) -> selection = Some names -> goal ∈ gs ->
       exists property, get_str "property" goal = Some property /\ property ∈ names)).
  { intros report [= <- <-]. split; [exists []; by rewrite app_nil_r|]. intros gs' report' names goal [= <- _] ->. apply Hnarrow. }
  destruct (negb _); [intros H; apply Hstop in H as [? ?]; by split; [left|]|].
  destruct (bool_decide _); [intros H; apply Hstop in H as [? ?]; by split; [left|]|].
  intros [(v & s1 & Hg & H)|(e & Hg & ->)]%andThen_Some.
  2: { split; [|done]. left. apply get_spec in Hg as (-> & _). eexists. split; [reflexivity|]. by constructor. }
  cbn in H. destruct (N.eqb_spec (unwrap_or (as_u64 v) 0 mod 2 ^ 32)%N 0) as [Hz|Hz].
  { injection H as <- <-. split; [|intros gs report names goal [= <- _] ->; apply Hnarrow]. left.
    apply get_spec in Hg as (-> & _). eexists. split; [reflexivity|]. by constructor. }
  apply andThen_Some in H as [(retried & s2 & Ht & H)|(e & Ht & ->)]; apply try_Some in Ht as (o & [= <-] & Ht).
  apply andThen_Some in H as [(restored & s3 & Hr & H)|(e & Hr & ->)]; apply try_Some in Hr as (o' & [= <-] & Hr).
  assert (exists l, sent s2 = sent s1 ++ l) as [l Hl].
  { assert (Ho : only (fun _ => True) (retry_pass answer late display_error debug_str debug_list models env_timeout env_par fuel (config call) provers markers
                         (N.min ((unwrap_or (as_u64 v) 0 mod 2 ^ 32) * 2) (2 ^ 32 - 1))%N)).
    { apply only_bind; [eapply only_weaken; [|apply apply_config_quiet]; done|]. intros _. by apply prove_and_fetch_only. }
    destruct (Ho _ _ _ Ht) as (l & Hl & _). by exists l. }
  apply set_spec in Hr as (Hs3 & _). rewrite Hl, <- app_assoc in Hs3.
  destruct retried as [gs|e]; cbn [from_sum] in H; unfold andThen at 1 in H; cbn [pure raise] in H.
  2: { injection H as <- <-. split; [|done]. right. exists v, s1, l, (match restored with inl _ => true | inr _ => false end). split_and!; [done|by apply N.neq_0_lt_0|done|done]. }
  destruct restored as [[]|e]; cbn in H; injection H as <- <-.
  - split; [right; exists v, s1, l, true; split_and!; [done|by apply N.neq_0_lt_0|done|done]|]. intros gs' report names goal [= <- _] ->. apply Hnarrow.
  - split; [|done]. right. exists v, s1, l, false. split_and!; [done|by apply N.neq_0_lt_0|done|done].
Qed.

(** *** Profiles *)

Lemma answered_None call s s' :
  run_wp_answered_without_a_main_run answer display_error call s = Some (inl None, s') -> s' = s.
Proof.
  unfold run_wp_answered_without_a_main_run, andThen. destruct (run_wp_target_scope _) as [[|]|]; cbn; [| |done].
  - destruct (opt_eqb Bool.eqb (cancel call) (Some true)); [|by intros [= <-]].
    by destruct (cancel_wp_queue _ _ s) as [[[|] ]|].
  - by destruct (verify_profile call).
Qed.

Lemma floor_met applied goals names s s' :
  refuse_below_floor debug_list applied goals names s = Some (inl tt, s') ->
  forall a n, applied = Some a -> a_min_goals a = Some n -> (n <= N.of_nat (goals_owned_by goals names))%N.
Proof.
  unfold refuse_below_floor. intros H a n -> Ha. cbn in H. unfold goal_floor_shortfall in H. rewrite Ha in H.
  by destruct (N.leb_spec n (N.of_nat (goals_owned_by goals names))).
Qed.

Lemma on_main_floor call provers applied s p s' : on_main call provers applied s = Some (inl p, s') ->
  profile_applied p = applied /\
  forall a n, applied = Some a -> a_min_goals a = Some n -> (n <= N.of_nat (goals_owned_by (proved_goals p) (proved_functions p)))%N.
Proof.
  unfold run_on_main. do 6 (intros [(? & ? & _ & H)|(? & _ & ?)]%andThen_Some; [revert H|done]).
  intros [([[[tasks goals] timeout_retry] diagnostics] & s1 & _ & H)|(? & _ & ?)]%andThen_Some; [|done].
  apply andThen_Some in H as [([] & s2 & Hfloor & H)|(? & _ & ?)]; [|done].
  apply andThen_Some in H as [(contexts & s3 & _ & H)|(? & _ & ?)]; [|done].
  apply andThen_Some in H as [([] & s4 & _ & H)|(? & _ & ?)]; [|done]. injection H as <- _. split; [done|]. by eapply floor_met.
Qed.

Lemma answered_elsewhere call s p s' name :
  run_wp_answered_without_a_main_run answer display_error call s = Some (inl (Some (OnMain p)), s') -> verify_profile call = Some name -> False.
Proof.
  unfold run_wp_answered_without_a_main_run. intros [([|] & s0 & _ & Ha)|(e & _ & ?)]%andThen_Some Hname; [| |done].
  - destruct (opt_eqb Bool.eqb (cancel call) (Some true)); [|done]. apply andThen_Some in Ha as [(? & ? & _ & [=])|(? & _ & [=])].
  - by rewrite Hname in Ha.
Qed.

(** What is known once a profile was applied. *)
Lemma applied_profile call s name call' applied s' : verify_profile call = Some name ->
  apply_verify_profile debug_list call s = Some (inl (call', applied), s') ->
  exists prof m, verification_profiles (session s) !! name = Some prof /\ main (server s) = Some m
    /\ profile_is_evidence prof = true /\ overrides_profile call = false
    /\ profile_matches_loaded_project prof (files m) (project_options m) = true
    /\ (forall fs, WpConfig.functions (config call) = Some fs -> profile_covers_exactly fs (p_functions prof) = true)
    /\ call' = with_profile prof call /\ applied = Some (mkApplied name (profile_echo name prof) (p_min_goals prof)) /\ s' = s.
Proof.
  intros Hname Hp. unfold apply_verify_profile in Hp. rewrite Hname in Hp. unfold andThen, gets in Hp. cbn in Hp.
  destruct (verification_profiles (session s) !! name) as [prof|] eqn:Hl; [|done].
  destruct (profile_is_evidence prof) eqn:He; [|done]. destruct (overrides_profile call) eqn:Hov; [done|]. cbn in Hp.
  destruct (main (server s)) as [m|] eqn:Hm; [|done]. destruct (profile_matches_loaded_project _ _ _) eqn:Hmatch; [|done]. cbn in Hp.
  destruct (is_none_or _ _) eqn:Hcov; [|done]. cbn in Hp. injection Hp as <- <- <-. exists prof, m. split_and!; try done.
  intros fs Hfs. by rewrite Hfs in Hcov.
Qed.

Lemma owned_count goals names :
  goals_owned_by goals names = count_if (fun goal => is_some_and (fun owner => bool_decide (owner ∈ names)) (goal_owner_name goal)) goals.
Proof.
  unfold goals_owned_by, count_if. induction goals as [|goal goals IH]; [done|]. cbn. destruct (goal_owner_name goal) as [owner|]; cbn; [|done].
  destruct (one_of owner names) eqn:E;
    [apply one_of_true in E; rewrite bool_decide_eq_true_2 by done|apply one_of_false in E; rewrite bool_decide_eq_false_2 by done]; cbn; by rewrite IH.
Qed.

(** What a loaded project has to be for a proof of it to be about a profile's target.  A profile
    without sources leaves them open, and one that says nothing of unsigned checks leaves
    these open; nothing else is. *)
Record loaded_for (prof : VerificationProfile) (loaded_files : list string) (o : ProjectLoadOptions) : Prop := {
  lf_database : compilation_database o = None;
  lf_sources : p_sources prof <> [] -> p_sources prof = loaded_files;
  lf_include_paths : p_include_paths prof = include_paths o;
  lf_defines : p_defines prof = defines o;
  lf_force_includes : p_force_includes prof = force_includes o;
  lf_machdep : p_machdep prof = machdep o;
  lf_isystem_paths : p_isystem_paths prof = isystem_paths o;
  lf_rte : p_rte prof = Some (rte o);
  lf_nostdinc : p_nostdinc prof = Some (nostdinc o);
  lf_unsigned : forall checked, p_rte_unsigned prof = Some checked -> checked <> unsigned_rte_skipped o;
  lf_pointer : pointer_rte_requested o = true <-> p_rte_pointer prof = Some true;
  lf_builtin_models : builtin_models o <> None <-> p_builtin_models prof = Some true;
}.

(** The settings a run was asked for are those of a profile, and nothing narrows or retries it. *)
Record configured_as (prof : VerificationProfile) (call : RunWpCall) (requested : option (list string)) : Prop := {
  ca_model : model (config call) = p_model prof /\ p_model prof <> None;
  ca_timeout : timeout (config call) = p_timeout_seconds prof /\ p_timeout_seconds prof <> None;
  ca_provers : requested = Some (map trim (comma_list (join "," (p_provers prof)))) /\ p_provers prof <> [];
  ca_functions : exists fs, WpConfig.functions (config call) = Some fs /\ (forall f, f ∈ fs <-> f ∈ p_functions prof) /\ p_functions prof <> [];
  ca_whole : prop (config call) = None;
  ca_once : retry_unproved call <> Some true;
}.

Lemma profile_matches_loaded prof loaded_files o : profile_is_evidence prof = true ->
  profile_matches_loaded_project prof loaded_files o = true -> loaded_for prof loaded_files o.
Proof.
  unfold profile_is_evidence, profile_matches_loaded_project, is_Some_b. rewrite !andb_true_iff, !bool_decide_eq_true, orb_true_iff, !bool_decide_eq_true.
  intros H1 H2. destruct_and!. split; try done.
  - by destruct (compilation_database o).
  - intros Hne. destruct_or!; [done|done].
  - destruct (p_rte prof) as [b|]; [|done]. cbn in *. f_equal. by apply eqb_prop.
  - destruct (p_nostdinc prof) as [b|]; [|done]. cbn in *. f_equal. by apply eqb_prop.
  - intros checked He. rewrite He in *. cbn in *. intros ->. by destruct (unsigned_rte_skipped o).
  - destruct (p_rte_pointer prof) as [[]|], (pointer_rte_requested o); cbn in *; split; congruence.
  - destruct (p_builtin_models prof) as [[]|], (builtin_models o); cbn in *; split; congruence.
Qed.

End run_theorems.

(** ** Witnesses *)

Definition demo_goal (status : string) : json :=
  JObj [("wpo", JStr "typed_f_ensures"); ("fct", JStr "f"); ("property", JStr "#p1"); ("status", JStr status)].

(** Frama-C with one function and one goal that times out. *)
Definition demo_frama_c (_ : list log_entry) (r : request) : Reply :=
  let name := request_name r in
  let v := if one_of name ["plugins.wp.getScheduledTasks"] then JObj [("todo", jnat 0); ("active", jnat 0)]
           else if name =s "plugins.wp.getTimeout" then jnat 4
           else if name =s "plugins.wp.fetchGoals" then JObj [("updated", JArr [demo_goal "TIMEOUT"]); ("pending", jnat 0)]
           else if name =s "kernel.ast.fetchFunctions"
           then JObj [("updated", JArr [JObj [("name", JStr "f"); ("decl", JStr "#F1"); ("defined", JBool true)]]); ("pending", jnat 0)]
           else JNull in
  mkReply (Ok (mkExecResult v (new_diagnostics "RQ.0" name))) 1 0.

Definition demo_profile : VerificationProfile :=
  mkProfile [] ["f"] (Some "Typed") None [] [] [] ["z3"] (Some 4%N) [] (Some false) (Some 1%N) [] (Some false) None None None None.
Definition demo_loaded : Sys :=
  mkSys [] 0 0
    (mkSession true true false ∅ ∅ ∅ [] [] ∅ None {["kernel" := demo_profile]} None [])
    (mkServer (Some (spawned_state (fun _ => false) None "frama-c" 7 "/tmp/fcmcp-0" None ["a.c"] no_options first_load 0 42 (inl 100%N))) (Some false) true 1).
Definition plain_params : RunWpParams := mkParams None None None None None None None None None false None.
Definition demo_load : HostLoad := Unavailable.

Definition demo_run (call : RunWpCall) : option ((WpAnswer + ErrorData) * Sys) :=
  run_wp demo_frama_c (fun _ => 0%N) (fun _ => "") (fun s => s) (join ",") (join ",") fallback None None None 3 (fun _ => None)
    (fun _ => "") (fun s => s) demo_load (false, false) call demo_loaded.

Abbreviation demo_on_main := (run_on_main demo_frama_c (fun _ => 0%N) (fun _ => "") (fun s => s) (join ",") (join ",") fallback None None None 3
  (fun _ => None) (fun _ => "") (fun s => s) demo_load).

(** A check's EVA half that configures another entry point. *)
Definition other_entry : RunEvaParams := mkRunEva None None (Some "square") None None.
Definition other_requests : list log_entry :=
  match configure_eva demo_frama_c (fun _ => "") other_entry demo_loaded with Some (_, s) => sent s | None => [] end.
Definition demo_run_log : list log_entry :=
  match demo_on_main (mkCall plain_params None None (Some true) None) None None demo_loaded with Some (_, s') => sent s' | None => [] end.
Definition first_schedule : nat := unwrap_or (fst <$> list_find (fun e : log_entry => schedules e.1 = true) demo_run_log) 0.

(** A goal is proved from the entry point of another call.  The requests of a proof run, with
    those by which a check's EVA half configures its own entry point handled after the
    reset of the run and before it schedules its proofs, are an order in which no lock is
    held twice; the proofs are scheduled under the entry point [square], from an unknown
    initial state. *)
Lemma entry_point_changed_before_proofs :
  exists handled pre e post, own_part handled = demo_run_log
    /\ map snd (bfilter (fun x => negb x.1) handled) = other_requests
    /\ handled = pre ++ (true, e) :: post /\ schedules e.1 = true
    /\ setting "kernel.parameters.setMain" (map snd pre) = Some (JStr "square")
    /\ setting "kernel.parameters.setLibEntry" (map snd pre) = Some (JBool true).
Proof.
  exists (map (pair true) (take first_schedule demo_run_log) ++ map (pair false) other_requests ++ map (pair true) (drop first_schedule demo_run_log)).
  exists (map (pair true) (take first_schedule demo_run_log) ++ map (pair false) other_requests).
  eexists _, _. split_and!; vm_compute; reflexivity.
Qed.


Lemma retry_restores_timeout_witness :
  exists r s', retry_timed_out_goals demo_frama_c (fun _ => 0%N) (fun _ => "") (fun s => s) (join ",") fallback None None 3
      (mkCall plain_params None None (Some true) None) None None (Some ["#p1"]) [demo_goal "TIMEOUT"] demo_loaded = Some (r, s')
    /\ exists l, sent s' = l ++ [(Set_ "plugins.wp.setTimeout" (jN 4), true)].
Proof.
  destruct (retry_timed_out_goals demo_frama_c (fun _ => 0%N) (fun _ => "") (fun s => s) (join ",") fallback None None 3
      (mkCall plain_params None None (Some true) None) None None (Some ["#p1"]) [demo_goal "TIMEOUT"] demo_loaded) as [[r s']|] eqn:He;
    [|exfalso; vm_compute in He; discriminate He].
  exists r, s'. split; [reflexivity|].
  destruct (retry_restores_timeout demo_frama_c (fun _ => 0%N) (fun _ => "") (fun s => s) (join ",") fallback None None 3 _ _ _ _ _ _ _ _ He)
    as [[(l & Hl & Hno)|(v & s1 & l & ok & Hg & Hpos & Hl & Hok)] _].
  - exfalso. vm_compute in He. injection He as _ <-. assert (Hb : forallb (fun e => negb (sets_timeout e)) l = true)
      by (apply forallb_true; intros x Hx; by rewrite (proj1 (Forall_forall _ _) Hno x Hx)).
    vm_compute in Hl. subst l. discriminate Hb.
  - rewrite Hl. vm_compute in Hg. injection Hg as <- <-. assert (r = inl (match r with inl a => a | inr _ => ([], JNull) end)) as Hr
      by (vm_compute in He; injection He as <- _; vm_compute; reflexivity).
    rewrite Hr in Hok. subst ok. exists ([(Get "plugins.wp.getTimeout" JNull, true)] ++ l). reflexivity.
Defined.

