(* ===== verification/Alarms.v ===== *)
(** * What an alarm asks for (src/src/mcp/server.rs)

    The summary of one Eva alarm: its kind, the obligation that would discharge it, the
    clauses a caller may try, and the verdict of the WP goals that cover it. *)

From S2P Require Import Prelude RustStr Json Status Rows.
Local Open Scope nat_scope.

Definition first_field (keys : list string) (property : json) : option json := find_map (fun key => property.? key) keys.

Definition alarm_kind_text (property : json) : string :=
  unwrap_or (first_field ["alarm"; "alarm_descr"; "kind"; "descr"] property ≫= as_str) "unknown".

(** The text an alarm is judged by: its kind, its predicate and its description. *)
Definition words_of (kind : string) (predicate descr : option json) : string :=
  to_ascii_lowercase (kind +s+ " " +s+ unwrap_or (predicate ≫= as_str) "" +s+ " " +s+ unwrap_or (descr ≫= as_str) "").

Definition contains_any (words : list string) (text : string) : bool := existsb (fun word => contains word text) words.

Definition alarm_obligation_text (kind : string) (property : json) : string * string :=
  let text := words_of kind (property.? "predicate") (property.? "descr") in
  if contains_any ["division"; "divisor"; "zero"] text then
    ("Require or assert the divisor is nonzero before this operation.", "medium")
  else if contains_any ["bound"; "index"; "array"] text then
    ("Require or assert that the index stays within the valid array bounds.", "medium")
  else if contains_any ["mem"; "valid"; "pointer"] text then
    ("Require or assert pointer validity, and separation when multiple memory regions interact.", "medium")
  else if contains_any ["overflow"; "signed"; "unsigned"] text then
    ("Require or assert numeric bounds that make the arithmetic operation stay in range.", "medium")
  else
    (match first_field ["predicate"; "descr"] property ≫= as_str with
     | Some text => "Prove or assume this Frama-C property: " +s+ text
     | None => "Prove or assume the reported Frama-C property."
     end, "low").

Definition rte_suggestion_kind (kind : string) (property : json) : string * string :=
  let text := words_of kind (property.? "predicate") (first_field ["description"; "descr"] property) in
  if contains_any ["division"; "zero"] text then ("division_by_zero", "divisor_nonzero")
  else if contains_any ["bound"; "index"; "array"] text then ("index_bound", "index_in_bounds")
  else if contains_any ["mem"; "valid"; "pointer"] text then ("invalid_pointer", "pointer_valid")
  else if contains_any ["uninitialized"; "initialized"] text then ("uninitialized_read", "value_initialized")
  else if contains_any ["overflow"; "signed"; "unsigned"] text then ("overflow", "numeric_bounds")
  else ("unknown", "prove_rte_predicate").

Definition property_marker_value (property : json) : json :=
  unwrap_or (first_field ["property_marker"; "key"; "property"; "prop"; "marker"; "id"] property) JNull.
Definition source_marker_value (property : json) : json :=
  unwrap_or (first_field ["sid"; "stmt_id"; "kinstr_marker"; "kinstr"] property) JNull.
Definition source_marker (property : json) : string :=
  unwrap_or (as_str (source_marker_value property) <||> ((fun sid : Z => pretty sid) <$> as_i64 (source_marker_value property))) "unknown".

(** One entry of the suggestions; [extra] is what only the requires entry carries. *)
Definition suggestion (clause_kind predicate rte_kind reason confidence : string) (extra : jmap) (property source_statement source : json) : json :=
  JObj ([("kind", JStr clause_kind); ("rte_kind", JStr rte_kind); ("acsl", JStr predicate);
         ("clause", JStr (clause_kind +s+ " " +s+ predicate +s+ ";"))] ++ extra ++
        [("reason", JStr reason); ("confidence", JStr confidence); ("needs_validation", JBool true);
         ("source_property_marker", property_marker_value property); ("source_statement", source_statement);
         ("source", source); ("evidence", source)]).

Definition rte_precondition_suggestions (property : json) : json :=
  let predicate := trim (unwrap_or (get_str "predicate" property) "") in
  if is_empty predicate then JArr []
  else
    let kind := alarm_kind_text property in
    let '(rte_kind, reason) := rte_suggestion_kind kind property in
    let loc := unwrap_or (first_field ["stmt_loc"; "loc"] property) JNull in
    let property_marker := unwrap_or (as_str (property_marker_value property)) "unknown" in
    let confidence := if rte_kind =s "division_by_zero" then "high" else "medium" in
    let necessity := "Discharges Frama-C RTE " +s+ rte_kind +s+ " property " +s+ property_marker +s+ " at " +s+ source_marker property in
    let source_statement := JObj [("marker", source_marker_value property);
      ("stmt_id", unwrap_or (first_field ["sid"; "stmt_id"] property) JNull); ("loc", loc)] in
    let source := JObj [("property_marker", property_marker_value property); ("source_statement", source_statement);
      ("alarm_kind", JStr kind); ("loc", loc); ("predicate", JStr predicate)] in
    JArr [suggestion "requires" predicate rte_kind reason confidence
            [("annotations", JArr [JObj [("kind", JStr "requires"); ("acsl", JStr predicate); ("necessity", JStr necessity)]]);
             ("proposed_requires", JArr [JObj [("acsl", JStr predicate); ("necessity", JStr necessity)]])] property source_statement source;
          suggestion "assert" predicate rte_kind reason confidence [] property source_statement source].

Definition goal_verdict (goal : json) : json :=
  JObj [("stable_goal_id", field "stable_goal_id" goal); ("frama_c_goal_name", field "frama_c_goal_name" goal);
        ("goal_kind", field "goal_kind" goal); ("normalized_status", JStr (wp_goal_status goal));
        ("counts_as_progress", JBool (wp_goal_counts_as_progress goal))].

(** The verdict of the first goal that is not proved, or of the first one. *)
Definition current_wp_status (wp_goals : list json) : option string :=
  find_first (fun status => negb (status_counts_as_progress (normalize_frama_c_status status))) (map wp_goal_status wp_goals)
    <||> (wp_goal_status <$> head wp_goals).

Definition alarm_diagnostic_summary (property : json) (values : option json) (wp_goals : list json) (callstack : option N) : json :=
  let alarm_kind := alarm_kind_text property in
  let property_marker := unwrap_or (value_marker property) "" in
  let kinstr_marker := jopt JStr (first_field ["kinstr_marker"; "kinstr"] property ≫= as_str) in
  let '(obligation, confidence) := alarm_obligation_text alarm_kind property in
  let suggestions := rte_precondition_suggestions property in
  let of_row key := unwrap_or (property.? key) (JBool false) in
  JObj [
    ("alarm_kind", JStr alarm_kind);
    ("property_marker", JStr property_marker);
    ("kinstr_marker", kinstr_marker);
    ("callstack", jopt jN callstack);
    ("value_before", unwrap_or (values ≫= Json.get "vBefore") JNull);
    ("value_after", unwrap_or (values ≫= Json.get "vAfter") JNull);
    ("eva_status", JObj [("raw_status", JStr (unwrap_or (raw_status property) "unknown")); ("normalized_status", JStr (normalized_or_derived property));
      ("counts_as_progress", of_row "counts_as_progress"); ("vacuous", of_row "vacuous"); ("requires_hypotheses", of_row "requires_hypotheses")]);
    ("wp_status", JObj [("matched", JBool (match wp_goals with [] => false | _ => true end)); ("current_status", jopt JStr (current_wp_status wp_goals));
      ("goals", JArr (map goal_verdict wp_goals))]);
    ("diagnosis", JStr "Eva cannot prove this runtime check at the current statement with the current abstract state.");
    ("likely_acsl_obligation", JObj [("kind", JStr "requires_or_assert"); ("description", JStr obligation); ("confidence", JStr confidence)]);
    ("rte_suggestions", suggestions);
    ("suggestions", suggestions);
    ("evidence", JArr [JObj [("field", JStr "property_marker"); ("value", JStr property_marker)];
                       JObj [("field", JStr "kinstr_marker"); ("value", kinstr_marker)];
                       JObj [("field", JStr "alarm_kind"); ("value", JStr (alarm_kind_text property))]])
  ].

Definition mentions_assigns (property : json) : bool :=
  existsb (fun text => contains "assigns" (to_ascii_lowercase text))
    (collect_some (fun key => get_str key property) ["kind"; "name"; "descr"; "predicate"]).
Definition current_assigns_from_properties (properties : list json) (function_marker : option string) : list json :=
  bfilter mentions_assigns (bfilter (fun property => is_none_or (fun marker => get_str "scope" property =?s marker) function_marker) properties).

(** ** Theorems *)

(** An alarm is summed up as proved by WP only when it is.  Some goal covers it and every
    one that does is valid exactly when the status given is a valid one; otherwise the
    status is that of a goal that is not proved, and it is missing exactly when no goal
    covers the alarm. *)
Theorem summed_up_as_proved property values goals callstack
    (status := (alarm_diagnostic_summary property values goals callstack).["wp_status"].["current_status"])
    (proved := fun goal => status_counts_as_progress (normalize_frama_c_status (wp_goal_status goal))) :
  (is_null status = true <-> goals = [])
  /\ forall s, status = JStr s ->
       (exists goal, goal ∈ goals /\ wp_goal_status goal = s)
       /\ (status_counts_as_progress (normalize_frama_c_status s) = true <-> Forall (fun goal => proved goal = true) goals).
Proof.
  assert (status = jopt JStr (current_wp_status goals)) as ->.
  { subst status. unfold alarm_diagnostic_summary. by destruct (alarm_obligation_text _ _). }
  unfold current_wp_status. destruct (find_first _ _) as [s|] eqn:E; cbn.
  - apply find_first_Some in E as [(goal & -> & Hin)%list_elem_of_fmap Hs]. apply negb_true_iff in Hs.
    split; [split; [done|intros ->; by apply elem_of_nil in Hin]|]. intros s [= <-]. split; [by exists goal|].
    rewrite Forall_forall. split; [congruence|]. intros H. by apply H in Hin.
  - pose proof (proj1 (find_first_None _ _) E) as Hall. destruct goals as [|goal goals]; cbn; [split; [done|discriminate]|].
    split; [split; discriminate|]. intros s [= <-]. split; [exists goal; split; [left|done]|]. rewrite Forall_forall.
    assert (Hp : forall g, g ∈ goal :: goals -> proved g = true).
    { intros g Hg. apply negb_false_iff, Hall. apply list_elem_of_fmap. by exists g. }
    split; [intros _; exact Hp|]. intros _. apply Hp. left.
Qed.

(** What is suggested for an alarm is about its predicate.  Nothing is when the predicate
    is blank; otherwise a requires and an assert are, of the trimmed predicate each, and
    both name the marker of the alarm. *)
Theorem suggestions_of_predicate property predicate : predicate = trim (unwrap_or (get_str "predicate" property) "") ->
  (predicate = "" -> rte_precondition_suggestions property = JArr [])
  /\ (predicate <> "" -> exists requires assert,
       rte_precondition_suggestions property = JArr [requires; assert]
       /\ forall entry kind, (entry, kind) ∈ [(requires, "requires"); (assert, "assert")] ->
            get_str "kind" entry = Some kind /\ get_str "acsl" entry = Some predicate
            /\ get_str "clause" entry = Some (kind +s+ " " +s+ predicate +s+ ";")
            /\ entry.? "source_property_marker" = Some (property_marker_value property)).
Proof.
  intros ->. unfold rte_precondition_suggestions. split; [by intros ->|]. intros Hne. destruct (is_empty _) eqn:E; [by destruct (trim _)|].
  destruct (rte_suggestion_kind _ _) as [rte_kind reason]. do 2 eexists. split; [reflexivity|].
  intros entry kind [[= -> ->]|[[= -> ->]|[]%elem_of_nil]%elem_of_cons]%elem_of_cons; by split_and!.
Qed.

(** An identifier is read as a kind of alarm.  An overflow of a sum with a variable named
    [zero] is a division by zero, with the higher confidence, though its kind says what
    it is. *)
Theorem identifier_read_as_alarm :
  let alarm := JObj [("alarm", JStr "signed_overflow"); ("predicate", JStr "zero + n <= 2147483647"); ("descr", JStr "signed overflow")] in
  rte_suggestion_kind (alarm_kind_text alarm) alarm = ("division_by_zero", "divisor_nonzero")
  /\ (alarm_obligation_text (alarm_kind_text alarm) alarm).1 = "Require or assert the divisor is nonzero before this operation."
  /\ exists requires assert, rte_precondition_suggestions alarm = JArr [requires; assert] /\ get_str "confidence" requires = Some "high".
Proof. split_and!; [done|done|]. do 2 eexists. split; [by vm_compute|]. done. Qed.
