(* ===== verification/Suggestions.v ===== *)
(** * What an open goal's text suggests (src/src/mcp/server.rs)

    Next to the classification of a failed verification condition, what its printed sequent
    and its provers' statuses point at.  A character outside ASCII is no part of an
    identifier, so the bytes around a word decide as its characters do. *)

From S2P Require Import Prelude RustStr Json.
Local Open Scope nat_scope.

Definition vc_prover_statuses (vc : json) : list string :=
  match vc.? "prover_result" with
  | Some prover_result => map to_ascii_lowercase (collect_some (fun key => get_str key prover_result) ["status"; "raw_status"; "normalized_status"])
  | None => []
  end.

(** Between the last open parenthesis before the first percent sign and its close. *)
Definition looks_like_modular_multiplication (text : string) : bool :=
  match split_once "%" text with
  | None => false
  | Some (before_percent, _) =>
    match rsplit_once "(" before_percent with
    | None => false
    | Some (_, opened) => match split_once ")" opened with None => false | Some (inner, _) => contains "*" inner end
    end
  end.

Definition ident_char (ch : ascii) : bool := Ascii.eqb ch "_" || is_ascii_alphanumeric ch.
Definition first_char (s : string) : option ascii := match s with "" => None | String c _ => Some c end.

(** [text.match_indices(word).any(..)]: [before] is the character before [text], and the next
    [skip] characters are inside the occurrence found last. *)
Fixpoint word_in (word : string) (skip : nat) (before : option ascii) (text : string) : bool :=
  match skip, strip_prefix word text with
  | O, Some rest =>
    (negb (is_some_and ident_char before) && negb (is_some_and ident_char (first_char rest)))
    || match text with "" => false | String c text => word_in word (String.length word - 1) (Some c) text end
  | _, _ => match text with "" => false | String c text => word_in word (skip - 1) (Some c) text end
  end.
Definition contains_acsl_word (text word : string) : bool := word_in word 0 None text.

Definition hypothesis_lines (wp_print : json) : list string := collect_some as_str (unwrap_or (get_arr "hypotheses" wp_print) []).

Definition ends_precondition (trimmed : string) : bool :=
  starts_with "(* " trimmed || existsb (String.eqb trimmed) ["Then {"; "Else {"; "Residual {"; "Invariant {"].
Fixpoint precondition_lines (in_precondition : bool) (lines : list string) : list string :=
  match lines with
  | [] => []
  | line :: lines =>
    let trimmed := trim line in
    if contains "Pre-condition" trimmed then line :: precondition_lines true lines
    else if in_precondition && negb (ends_precondition trimmed) then line :: precondition_lines true lines
    else precondition_lines false lines
  end.
Definition wp_print_precondition_text (wp_print : json) : string := join " " (precondition_lines false (hypothesis_lines wp_print)).

Definition advice (kind message next_tool : string) : json := JObj [("kind", JStr kind); ("message", JStr message); ("next_tool", JStr next_tool)].
Definition when (b : bool) (entry : json) : list json := if b then [entry] else [].

Definition fresh_limited (conclusion hyp_text warning_text : string) : bool :=
  (contains_acsl_word conclusion "\fresh" || contains_acsl_word hyp_text "\fresh")
  && contains "allocation" (to_ascii_lowercase warning_text) && contains "not yet implemented" (to_ascii_lowercase warning_text).
Definition unseparated_access (conclusion precondition_text : string) : bool :=
  contains "shift_" conclusion && contains "Mint_" conclusion && negb (contains "separated" (to_ascii_lowercase precondition_text)).

Definition semantic_suggestions_for_vc (vc : json) (warnings : list json) : list json :=
  let wp_print := unwrap_or (vc.? "wp_print") JNull in
  let conclusion := unwrap_or (get_str "conclusion" wp_print) "" in
  let hyp_text := join " " (hypothesis_lines wp_print) in
  let warning_text := join (String nl "") (collect_some as_str warnings) in
  let statuses := vc_prover_statuses vc in
  when (fresh_limited conclusion hyp_text warning_text)
    (advice "fresh_allocation_model_limit"
      "WP's allocation model is incomplete for this obligation: \fresh-derived hypotheses may be dropped. Try a non-allocating implementation or treat this as a structural proof ceiling."
      "get_wp_goals")
  ++ when (existsb (String.eqb "unknown") statuses)
    (advice "unknown_missing_hypothesis"
      "A prover returned Unknown: it gave up without deciding, which usually means a fact the goal needs is not among its hypotheses rather than that it needs more time. Compare the hypotheses with the conclusion and strengthen the requires, loop invariant or callee ensures that should supply the missing fact."
      "get_wp_goals")
  ++ when (existsb (String.eqb "stepout") statuses)
    (advice "stepout_goal_too_large"
      "A prover ran out of steps. That is how a false goal ends too: Alt-Ergo under WP reports a plainly false postcondition as Stepout or Timeout, never as Invalid, so first rule falsity out with run_e_acsl or a counterexample. If the goal holds, it is too large or nonlinear: split it with a guiding assert or a smaller function, try another prover, or raise the budget with run_wp {steps}."
      "run_wp")
  ++ when (looks_like_modular_multiplication conclusion)
    (advice "decompose_modular_multiplication"
      "The conclusion involves modular multiplication; decompose the multiplication or split the cofactor before asking SMT to prove it directly."
      "get_wp_goals")
  ++ when (unseparated_access conclusion (wp_print_precondition_text wp_print))
    (advice "add_separated_or_typed_ref"
      "The goal involves a pointer access with no visible \separated() precondition. Add `requires \separated(p, q);` when valid, or try the `Typed+ref` WP model."
      "get_wp_goals").

Definition with_suggestions (warnings : list json) (vc : json) : json :=
  match vc.? "failure_classification" with
  | Some (JObj classification) =>
    match semantic_suggestions_for_vc vc warnings with
    | [] => vc
    | suggestions => map_object (map_insert "failure_classification" (JObj (map_insert "semantic_suggestions" (JArr suggestions) classification))) vc
    end
  | _ => vc
  end.
Definition enrich_semantic_suggestions (vcs warnings : list json) : list json := map (with_suggestions warnings) vcs.

(** ** Theorems *)

(** The character before what follows [pre]. *)
Fixpoint last_of (before : option ascii) (pre : string) : option ascii :=
  match pre with "" => before | String c pre => last_of (Some c) pre end.
Definition stands_alone (before : option ascii) (post : string) : bool :=
  negb (is_some_and ident_char before) && negb (is_some_and ident_char (first_char post)).

(** A word of which no later character is the first is found where it stands alone, and
    only there. *)
Section words.
Context (c0 : ascii) (tail : string) (Htail : free_of c0 tail = true).
Abbreviation word := (String c0 tail).

Lemma word_in_spec text : forall n before, free_of c0 (take_str n text) = true ->
  (word_in word n before text = true
   <-> exists pre post, text = pre +s+ word +s+ post /\ stands_alone (last_of before pre) post = true).
Proof.
  induction text as [|c text IH]; intros n before Hf.
  { split; [by destruct n|]. intros ([|c pre] & post & H & _); discriminate H. }
  destruct n as [|n].
  - cbn [word_in]. destruct (strip_prefix word (String c text)) as [rest|] eqn:E.
    + apply strip_prefix_Some in E as E'. injection E' as -> ->. rewrite orb_true_iff, IH.
      2: { cbn. rewrite Nat.sub_0_r. by rewrite take_str_exact. }
      split.
      * intros [H|(pre & post & H & Ha)]; [by exists "", rest|]. exists (String c0 pre), post. cbn. by rewrite H.
      * intros ([|d pre] & post & H & Ha).
        -- left. injection H as H. apply app_str_cancel in H as ->. exact Ha.
        -- right. injection H as -> H. by exists pre, post.
    + rewrite IH by done. split.
      * intros (pre & post & -> & Ha). by exists (String c pre), post.
      * intros ([|d pre] & post & H & Ha).
        -- change ("" +s+ word +s+ post) with (word +s+ post) in H. rewrite H, strip_prefix_app in E. done.
        -- injection H as -> ->. by exists pre, post.
  - cbn in Hf. apply andb_true_iff in Hf as [Hc Hf].
    assert (word_in word (S n) before (String c text) = word_in word n (Some c) text) as ->.
    { cbn [word_in]. replace (S n - 1) with n by lia. by destruct (strip_prefix word (String c text)). }
    rewrite IH by done. split.
    + intros (pre & post & -> & Ha). by exists (String c pre), post.
    + intros ([|d pre] & post & H & Ha); injection H as -> ->; [by rewrite Ascii.eqb_refl in Hc|by exists pre, post].
Qed.

(** A word of ACSL is found where it stands alone, and only there: no letter, digit or
    underscore is just before it or just after it. *)
Theorem contains_acsl_word_exact text :
  contains_acsl_word text word = true
  <-> exists pre post, text = pre +s+ word +s+ post /\ stands_alone (last_of None pre) post = true.
Proof. by apply word_in_spec. Qed.
End words.

(** A product under a modulus is seen only between the innermost parentheses: the text
    splits at its first percent sign, the last open parenthesis before that and the first
    close after it, and the star is between these two. *)
Theorem modular_multiplication_seen text :
  looks_like_modular_multiplication text = true
  <-> exists a inner b d, text = a +s+ "(" +s+ inner +s+ ")" +s+ b +s+ "%" +s+ d
        /\ free_of "%" (a +s+ "(" +s+ inner +s+ ")" +s+ b) = true /\ free_of "(" (inner +s+ ")" +s+ b) = true
        /\ free_of ")" inner = true /\ contains "*" inner = true.
Proof.
  unfold looks_like_modular_multiplication. split.
  - destruct (split_once "%" text) as [[before d]|] eqn:E1; [|done]. destruct (rsplit_once "(" before) as [[a opened]|] eqn:E2; [|done].
    destruct (split_once ")" opened) as [[inner b]|] eqn:E3; [|done]. intros Hs.
    apply split_once_Some in E1 as [-> H1], E3 as [-> H3]. apply rsplit_once_Some in E2 as [-> H2].
    exists a, inner, b, d. split_and!; [by repeat (rewrite !app_str_assoc; cbn [String.append])|exact H1|exact H2|exact H3|exact Hs].
  - intros (a & inner & b & d & -> & H1 & H2 & H3 & Hs).
    assert (a +s+ "(" +s+ inner +s+ ")" +s+ b +s+ "%" +s+ d = (a +s+ "(" +s+ inner +s+ ")" +s+ b) +s+ String "%" d) as ->.
    { by repeat (rewrite !app_str_assoc; cbn [String.append]). }
    rewrite split_once_free by done. change (a +s+ "(" +s+ inner +s+ ")" +s+ b) with (a +s+ String "(" (inner +s+ ")" +s+ b)).
    rewrite rsplit_once_free by done. change (inner +s+ ")" +s+ b) with (inner +s+ String ")" b). by rewrite split_once_free.
Qed.

(** A product whose factor has parentheses of its own is not seen. *)
Example nested_product_missed : looks_like_modular_multiplication "((a + b) * (c + d)) % m = 0" = false.
Proof. reflexivity. Qed.

(** Suggestions are an entry of the classification and change nothing else: no goal is added,
    lost or moved, no other field of a goal and no other field of its classification
    differs, and a goal without a classification is as it was. *)
Theorem suggestions_change_nothing_else vcs warnings :
  length (enrich_semantic_suggestions vcs warnings) = length vcs
  /\ forall i vc, vcs !! i = Some vc -> exists vc', enrich_semantic_suggestions vcs warnings !! i = Some vc'
       /\ (forall key, key <> "failure_classification" -> vc'.? key = vc.? key)
       /\ (forall key, key <> "semantic_suggestions" -> vc'.["failure_classification"].? key = vc.["failure_classification"].? key)
       /\ vc'.["failure_classification"].? "semantic_suggestions"
          = match vc.? "failure_classification", semantic_suggestions_for_vc vc warnings with
            | Some (JObj classification), _ :: _ as suggestions => Some (JArr (semantic_suggestions_for_vc vc warnings))
            | _, _ => vc.["failure_classification"].? "semantic_suggestions"
            end.
Proof.
  split; [apply length_map|]. intros i vc Hi. exists (with_suggestions warnings vc). split; [unfold enrich_semantic_suggestions; by rewrite list_lookup_fmap, Hi|].
  unfold with_suggestions. destruct (vc.? "failure_classification") as [[| | | | |classification]|] eqn:E; try done.
  destruct (semantic_suggestions_for_vc vc warnings) as [|s suggestions]; [done|]. destruct vc as [| | | | |m]; try done.
  cbn. unfold idx. cbn in *. rewrite E, map_get_insert. cbn. split_and!.
  - intros key Hk. by rewrite map_get_insert_ne.
  - intros key Hk. by rewrite map_get_insert_ne.
  - apply map_get_insert.
Qed.
