(* ===== verification/CallChain.v ===== *)
(** * Chains of calls (src/src/mcp/analysis.rs, src/src/mcp/server.rs)

    The callers or callees of a function up to a depth, walked breadth first over the cached
    call graph.  A function in [stop_at] is listed where it is called and not entered. *)

From S2P Require Import Prelude RustStr Json Codec Client Session Errors MainInstance Requests WpTasks EvaRun RunWp.
Local Open Scope nat_scope.

(** ** The walk *)

Record ChainEntry := mkEntry { from_marker : string; to_marker : string; chain_depth : nat }.

Definition neighbors_in (direction marker : string) (state : SessionState) : option (list string) :=
  if direction =s "callers" then Some (get_callers marker state)
  else if direction =s "callees" then Some (get_callees marker state)
  else None.

Definition BAD_DIRECTION : ErrorData := invalid_params_error ("direction must be " +s+ dq +s+ "callers" +s+ dq +s+ " or " +s+ dq +s+ "callees" +s+ dq).

(** The queue, first entry first; what was expanded; the entries found.  [None] is a walk
    that ran out of fuel. *)
Fixpoint chain_loop (direction : string) (state : SessionState) (max_depth : nat) (stop_markers : gset string)
    (fuel : nat) (queue : list (string * nat)) (visited : gset string) (chain : list ChainEntry) : option (list ChainEntry + ErrorData) :=
  match fuel with
  | O => None
  | S fuel =>
    match queue with
    | [] => Some (inl chain)
    | (marker, depth) :: queue =>
      if (max_depth <? depth) || bool_decide (marker ∈ visited) then chain_loop direction state max_depth stop_markers fuel queue visited chain
      else if (0 <? depth) && bool_decide (marker ∈ stop_markers) then chain_loop direction state max_depth stop_markers fuel queue visited chain
      else
        match neighbors_in direction marker state with
        | None => Some (inr BAD_DIRECTION)
        | Some neighbors =>
          chain_loop direction state max_depth stop_markers fuel (queue ++ map (fun neighbor => (neighbor, S depth)) neighbors)
            ({[marker]} ∪ visited) (chain ++ map (fun neighbor => mkEntry marker neighbor depth) neighbors)
        end
    end
  end.

(** Every edge is followed at most once, and the start was queued before any. *)
Definition chain_fuel (state : SessionState) : nat := 2 + length (callgraph_edges state).

Definition chain_entry (state : SessionState) (e : ChainEntry) : json :=
  JObj [("from", JStr (unwrap_or (resolve_decl_to_name (from_marker e) state) "?"));
        ("to", JStr (unwrap_or (resolve_decl_to_name (to_marker e) state) "?"));
        ("from_marker", JStr (from_marker e)); ("to_marker", JStr (to_marker e)); ("depth", jnat (chain_depth e))].

(** ** The calls *)

Section calls.
Variable answer : list (request * bool) -> request -> Reply.
Variable display_error : FramaCError -> string.
Variable fuel : nat.
Abbreviation resolve_function_or_refresh := (resolve_function_or_refresh answer display_error fuel).

Definition cache_callgraph : Tool unit :=
  let* needs_compute := gets (fun s => match callgraph_edges (session s), callgraph_vertices (session s) with [], [] => true | _, _ => false end) in
  if needs_compute : bool then
    do* require_client in
    do* exec_ answer display_error "plugins.callgraph.compute" JNull 60000 in
    do* require_client in
    let* graph := get answer display_error "plugins.callgraph.getCallgraph" JNull in
    modify (set_session (update_callgraph graph))
  else pure tt.

Definition stop_marker (name : string) : Tool (option string) :=
  let* r := try (resolve_function_or_refresh name) in
  pure match r with inl info => Some (fi_declaration info) | inr _ => None end.

Definition call_chain_payload (function direction : string) (max_depth : option nat) (stop_at : option (list string)) : Tool json :=
  do* cache_callgraph in
  let* info := resolve_function_or_refresh function in
  let max_depth := Nat.min (unwrap_or max_depth 5) 20 in
  let* stops := each stop_marker (unwrap_or stop_at []) in
  let* state := gets session in
  match chain_loop direction state max_depth (list_to_set (collect_some id stops)) (chain_fuel state) [(fi_declaration info, 0)] ∅ [] with
  | None => stuck
  | Some (inr error) => raise error
  | Some (inl chain) => pure (JArr (map (chain_entry state) chain))
  end.

Definition eva_callers_payload (function : string) : Tool json :=
  let* info := resolve_function_or_refresh function in
  do* require_client in
  get_eva_callers answer display_error (fi_declaration info).
End calls.

(** ** Theorems *)

Section walk.
Context (direction : string) (state : SessionState) (max_depth : nat) (stop_markers : gset string) (start : string).
Context (neighbors : string -> list string) (Hdir : forall m, neighbors_in direction m state = Some (neighbors m)).
Abbreviation loop := (chain_loop direction state max_depth stop_markers).

(** A function is entered [n] calls from the start along functions that are no stop markers. *)
Inductive entered : nat -> string -> Prop :=
| entered_start : entered 0 start
| entered_call n u v : entered n u -> v ∈ neighbors u -> v ∉ stop_markers -> entered (S n) v.
Definition nearest (n : nat) (u : string) : Prop := entered n u /\ forall m, entered m u -> n <= m.

Definition entries_of (u : string * nat) : list ChainEntry := map (fun v => mkEntry u.1 v u.2) (neighbors u.1).

(** What was expanded, latest last, with its depth; and the queue. *)
Record walk_inv (expanded queue : list (string * nat)) (visited : gset string) (chain : list ChainEntry) : Prop := {
  inv_chain : chain = expanded ≫= entries_of;
  inv_visited : forall u, u ∈ visited <-> u ∈ expanded.*1;
  inv_nodup : NoDup expanded.*1;
  inv_nearest : forall u d, (u, d) ∈ expanded -> d <= max_depth /\ nearest d u;
  inv_queued : forall v e, (v, e) ∈ queue -> (e = 0 /\ v = start) \/ exists u d, (u, d) ∈ expanded /\ v ∈ neighbors u /\ e = S d;
  inv_complete : forall u d v, (u, d) ∈ expanded -> v ∈ neighbors u -> S d <= max_depth -> v ∉ stop_markers ->
    exists e, e <= S d /\ (v, e) ∈ expanded ++ queue;
  inv_start : (start, 0) ∈ expanded ++ queue;
  inv_sorted : StronglySorted le (expanded ++ queue).*2;
  inv_close : forall d e, d ∈ queue.*2 -> e ∈ queue.*2 -> d <= S e;
}.

Lemma inv_initial : walk_inv [] [(start, 0)] ∅ [].
Proof.
  split; try set_solver; cbn; [by apply NoDup_nil|]. apply SSorted_cons; [apply SSorted_nil|done].
Qed.

(** Whatever is entered within the limit was expanded, or something at most as far waits. *)
Lemma inv_reached expanded queue visited chain n u : walk_inv expanded queue visited chain -> entered n u -> n <= max_depth ->
  (exists e, e <= n /\ (u, e) ∈ expanded) \/ exists w f, f <= n /\ (w, f) ∈ queue.
Proof.
  intros I. induction 1 as [|n u v Hu IH Hv Hs]; intros Hn.
  - destruct (elem_of_app expanded queue (start, 0)) as [H _]. destruct (H (inv_start _ _ _ _ I)); [left; by exists 0|right; by exists start, 0].
  - destruct (IH ltac:(lia)) as [(e & He & Hin)|(w & f & Hf & Hin)]; [|right; exists w, f; split; [lia|done]].
    destruct (inv_complete _ _ _ _ I u e v Hin Hv ltac:(lia) Hs) as (e' & He' & [H|H]%elem_of_app); [left|right; exists v]; exists e'; (split; [lia|done]).
Qed.

Lemma inv_ordered expanded v e queue visited chain : walk_inv expanded ((v, e) :: queue) visited chain ->
  (forall d, d ∈ expanded.*2 -> d <= e) /\ forall d, d ∈ queue.*2 -> e <= d <= S e.
Proof.
  intros I. pose proof (inv_sorted _ _ _ _ I) as H. rewrite fmap_app in H. apply StronglySorted_app in H as (H & _ & [_ Hq]%StronglySorted_inv).
  split; [intros d Hd; apply (H d e Hd); left|]. intros d Hd. split; [by apply (proj1 (Forall_forall _ _) Hq)|].
  apply (inv_close _ _ _ _ I); [by right|left].
Qed.

(** What has left the queue is found again, unless it was passed over for good. *)
Lemma inv_skip expanded v e queue visited chain : walk_inv expanded ((v, e) :: queue) visited chain ->
  max_depth < e \/ v ∈ visited \/ (0 < e /\ v ∈ stop_markers) -> walk_inv expanded queue visited chain.
Proof.
  intros I Hskip. destruct (inv_ordered _ _ _ _ _ _ I) as [Hle _].
  assert (Hseen : v ∈ visited -> exists d, d <= e /\ (v, d) ∈ expanded).
  { intros [[v' d] [-> Hd]]%(inv_visited _ _ _ _ I)%list_elem_of_fmap. exists d. split; [|done]. apply Hle, list_elem_of_fmap. by exists (v', d). }
  split; try apply I.
  - intros u d Hq. apply (inv_queued _ _ _ _ I). by right.
  - intros u d w Hu Hw Hd Hs. destruct (inv_complete _ _ _ _ I u d w Hu Hw Hd Hs) as (f & Hf & [Hin|Hin]%elem_of_app).
    { exists f. split; [done|]. apply elem_of_app. by left. }
    apply elem_of_cons in Hin as [[= -> ->]|Hin]; [|exists f; split; [done|]; apply elem_of_app; by right].
    destruct Hskip as [?|[Hv|[_ ?]]]; [lia| |done]. destruct (Hseen Hv) as (d' & Hd' & Hin).
    exists d'. split; [lia|]. apply elem_of_app. by left.
  - apply elem_of_app. destruct (proj1 (elem_of_app _ _ _) (inv_start _ _ _ _ I)) as [H|[[= <- <-]|H]%elem_of_cons]; [by left| |by right].
    destruct Hskip as [?|[Hv|[? _]]]; [lia| |lia]. destruct (Hseen Hv) as (d' & Hd' & Hin). replace d' with 0 in Hin by lia. by left.
  - pose proof (inv_sorted _ _ _ _ I) as H. rewrite fmap_app in *. apply StronglySorted_app in H as (H & He & [Hq _]%StronglySorted_inv).
    apply StronglySorted_app. split_and!; [|done|done]. intros x y Hx Hy. apply H; [done|by right].
  - intros x y Hx Hy. apply (inv_close _ _ _ _ I); by right.
Qed.

Lemma inv_expand_nearest expanded v e queue visited chain : walk_inv expanded ((v, e) :: queue) visited chain ->
  e <= max_depth -> v ∉ visited -> ~ (0 < e /\ v ∈ stop_markers) -> nearest e v.
Proof.
  intros I He Hv Hs. destruct (inv_ordered _ _ _ _ _ _ I) as [_ Hq]. split.
  - destruct (inv_queued _ _ _ _ I v e ltac:(left)) as [[-> ->]|(u & d & Hu & Hn & ->)]; [constructor|].
    econstructor; [apply (inv_nearest _ _ _ _ I _ _ Hu)|done|]. intros ?. apply Hs. split; [lia|done].
  - intros m Hm. destruct (decide (e <= m)) as [|Hlt]; [done|]. exfalso.
    destruct (inv_reached _ _ _ _ _ _ I Hm ltac:(lia)) as [(d & _ & Hin)|(w & f & Hf & Hin)].
    + apply Hv, (inv_visited _ _ _ _ I), list_elem_of_fmap. by exists (v, d).
    + apply elem_of_cons in Hin as [[= -> ->]|Hin]; [lia|]. assert (e <= f <= S e); [|lia].
      apply Hq, list_elem_of_fmap. by exists (w, f).
Qed.

Lemma inv_expand expanded v e queue visited chain : walk_inv expanded ((v, e) :: queue) visited chain ->
  e <= max_depth -> v ∉ visited -> ~ (0 < e /\ v ∈ stop_markers) ->
  walk_inv (expanded ++ [(v, e)]) (queue ++ map (fun neighbor => (neighbor, S e)) (neighbors v)) ({[v]} ∪ visited) (chain ++ entries_of (v, e)).
Proof.
  intros I He Hv Hs. pose proof (inv_expand_nearest _ _ _ _ _ _ I He Hv Hs) as Hnear. destruct (inv_ordered _ _ _ _ _ _ I) as [Hle Hq].
  assert (Hnew : forall w f, (w, f) ∈ map (fun neighbor => (neighbor, S e)) (neighbors v) <-> w ∈ neighbors v /\ f = S e).
  { intros w f. rewrite list_elem_of_fmap. split; [intros (x & [= -> ->] & Hx); done|intros [Hw ->]; by exists w]. }
  assert (Hnew2 : forall d, d ∈ (map (fun neighbor => (neighbor, S e)) (neighbors v)).*2 -> d = S e).
  { intros d ([w f] & -> & [_ ->]%Hnew)%list_elem_of_fmap. done. }
  split.
  - rewrite bind_app, (inv_chain _ _ _ _ I). cbn. by rewrite app_nil_r.
  - intros u. rewrite fmap_app, elem_of_union, elem_of_singleton, (inv_visited _ _ _ _ I), elem_of_app. cbn. rewrite list_elem_of_singleton. tauto.
  - rewrite fmap_app. apply NoDup_app. split_and!; [apply I| |apply NoDup_singleton].
    intros u Hu ->%list_elem_of_singleton. by apply Hv, (inv_visited _ _ _ _ I).
  - intros u d [Hu|[= -> ->]%list_elem_of_singleton]%elem_of_app; [by apply (inv_nearest _ _ _ _ I)|done].
  - intros w f [Hw|[Hw ->]%Hnew]%elem_of_app.
    + destruct (inv_queued _ _ _ _ I w f ltac:(by right)) as [?|(u & d & Hu & Hn & ->)]; [by left|right; exists u, d].
      split_and!; [apply elem_of_app; by left|done|done].
    + right. exists v, e. split_and!; [apply elem_of_app; right; left|done|done].
  - intros u d w [Hu|[= -> ->]%list_elem_of_singleton]%elem_of_app Hw Hd Hsw.
    + destruct (inv_complete _ _ _ _ I u d w Hu Hw Hd Hsw) as (f & Hf & Hin). exists f. split; [done|].
      rewrite !elem_of_app, elem_of_cons in *. set_solver.
    + exists (S e). split; [done|]. rewrite !elem_of_app. right. right. by apply Hnew.
  - pose proof (inv_start _ _ _ _ I) as H. rewrite !elem_of_app, elem_of_cons in *. set_solver.
  - pose proof (inv_sorted _ _ _ _ I) as H. set (new := map _ _).
    assert ((expanded ++ [(v, e)]) ++ queue ++ new = (expanded ++ (v, e) :: queue) ++ new) as -> by (by rewrite <- !app_assoc).
    rewrite fmap_app. apply StronglySorted_app. split_and!; [|done|].
    + intros d f Hd ->%Hnew2. rewrite fmap_app in Hd. apply elem_of_app in Hd as [Hd|[->|Hd]%elem_of_cons]; [apply Hle in Hd|cbn|apply Hq in Hd]; lia.
    + clear -Hnew2. subst new. induction (map _ _).*2 as [|d l IH]; constructor; [apply IH; intros x Hx; apply Hnew2; by right|].
      apply Forall_forall. intros x Hx. rewrite (Hnew2 d ltac:(left)), (Hnew2 x ltac:(by right)). done.
  - intros d f. rewrite fmap_app. intros [Hd|Hd]%elem_of_app [Hf|Hf]%elem_of_app;
      repeat match goal with H : _ ∈ queue.*2 |- _ => apply Hq in H | H : _ |- _ => apply Hnew2 in H end; lia.
Qed.

(** Edges that no expanded function has followed. *)
Context (edges : list (string * string)) (Hedges : forall u, neighbors u = map snd (bfilter (fun e => e.1 =s u) edges)).
Definition unfollowed (visited : gset string) : nat := count_if (fun e => negb (bool_decide (e.1 ∈ visited))) edges.

Lemma unfollowed_expand v visited : v ∉ visited -> unfollowed ({[v]} ∪ visited) + length (neighbors v) = unfollowed visited.
Proof.
  intros Hv. rewrite Hedges, length_map. unfold unfollowed, count_if. clear Hedges. induction edges as [|[a b] l IH]; [done|]. cbn.
  destruct (String.eqb_spec a v) as [->|Hne].
  - rewrite (bool_decide_eq_false_2 (v ∈ visited)), (bool_decide_eq_true_2 (v ∈ _ ∪ _)) by set_solver. cbn. lia.
  - destruct (bool_decide_reflect (a ∈ visited)).
    + rewrite bool_decide_eq_true_2 by set_solver. exact IH.
    + rewrite bool_decide_eq_false_2 by set_solver. cbn. lia.
Qed.

Lemma chain_loop_spec fuel : forall expanded queue visited chain,
  walk_inv expanded queue visited chain -> length queue + unfollowed visited < fuel ->
  exists expanded' visited' chain', loop fuel queue visited chain = Some (inl chain') /\ walk_inv expanded' [] visited' chain'.
Proof using Hdir Hedges.
  induction fuel as [|fuel IH]; intros expanded queue visited chain I Hf; [lia|]. cbn [chain_loop].
  destruct queue as [|[v e] queue]; [by eauto|]. cbn in Hf.
  destruct ((max_depth <? e) || bool_decide (v ∈ visited)) eqn:E1.
  { apply (IH expanded); [|lia]. eapply inv_skip; [exact I|]. apply orb_true_iff in E1 as [E1%Nat.ltb_lt|E1%bool_decide_eq_true]; tauto. }
  apply orb_false_iff in E1 as [He%Nat.ltb_ge Hv%bool_decide_eq_false].
  destruct ((0 <? e) && bool_decide (v ∈ stop_markers)) eqn:E2.
  { apply (IH expanded); [|lia]. eapply inv_skip; [exact I|]. apply andb_true_iff in E2 as [E2%Nat.ltb_lt E3%bool_decide_eq_true]. tauto. }
  rewrite Hdir. eapply IH; [eapply inv_expand; [exact I|done|done|]|].
  - intros [H1%Nat.ltb_lt H2%(bool_decide_eq_true_2 _)]. by rewrite H1, H2 in E2.
  - rewrite length_app, length_map. pose proof (unfollowed_expand v visited Hv). lia.
Qed.
End walk.

Lemma neighbors_of_edges direction state : direction ∈ ["callers"; "callees"] ->
  exists neighbors edges, (forall m, neighbors_in direction m state = Some (neighbors m))
    /\ (forall u, neighbors u = map snd (bfilter (fun e => e.1 =s u) edges)) /\ length edges = length (callgraph_edges state).
Proof.
  intros [->|[->|[]%elem_of_nil]%elem_of_cons]%elem_of_cons; cbn.
  - exists (fun m => get_callers m state), (map (fun e => (dst e, src e)) (callgraph_edges state)). split_and!; [done| |apply length_map].
    intros u. unfold get_callers. induction (callgraph_edges state) as [|e l IH]; [done|]. cbn. by destruct (dst e =s u); cbn; rewrite IH.
  - exists (fun m => get_callees m state), (map (fun e => (src e, dst e)) (callgraph_edges state)). split_and!; [done| |apply length_map].
    intros u. unfold get_callees. induction (callgraph_edges state) as [|e l IH]; [done|]. cbn. by destruct (src e =s u); cbn; rewrite IH.
Qed.

(** A chain is the calls of the functions that are near enough, each at its distance.  The
    walk always ends: a direction that is neither of the two is refused; otherwise the
    functions entered are exactly those at most [max_depth] calls from the start along
    functions that are no stop markers, each once and with the least number of calls that
    lead to it, nearest first; and the entries are all calls of each of them, calls into
    a stop marker included. *)
Theorem call_chain_exact direction state max_depth stop_markers start :
  match chain_loop direction state max_depth stop_markers (chain_fuel state) [(start, 0)] ∅ [] with
  | None => False
  | Some (inr error) => error = BAD_DIRECTION /\ direction ∉ ["callers"; "callees"]
  | Some (inl chain) => exists neighbors entered_at,
      (forall m, neighbors_in direction m state = Some (neighbors m))
      /\ chain = entered_at ≫= entries_of neighbors
      /\ NoDup entered_at.*1 /\ StronglySorted le entered_at.*2
      /\ forall u d, (u, d) ∈ entered_at <-> d <= max_depth /\ nearest stop_markers start neighbors d u
  end.
Proof.
  destruct (decide (direction ∈ ["callers"; "callees"])) as [Hd|Hd].
  - destruct (neighbors_of_edges direction state Hd) as (neighbors & edges & Hdir & Hedges & Hlen).
    destruct (chain_loop_spec direction state max_depth stop_markers start neighbors Hdir edges Hedges (chain_fuel state) [] [(start, 0)] ∅ [])
      as (entered_at & visited & chain & -> & I); [by eapply inv_initial| |].
    { unfold chain_fuel, unfollowed, count_if. rewrite <- Hlen. match goal with |- context [bfilter ?f edges] => pose proof (length_bfilter_le f edges) end. change (length [_]) with 1. lia. }
    exists neighbors, entered_at. pose proof (inv_sorted _ _ _ _ _ _ _ _ I) as Hs. rewrite app_nil_r in Hs.
    split_and!; [done|by apply I|by eapply inv_nodup|done|]. intros u d. split; [by apply (inv_nearest _ _ _ _ _ _ _ _ I)|].
    intros [Hle Hn]. destruct (inv_reached _ _ _ _ _ _ _ _ d u I (proj1 Hn) Hle) as [(e & He & Hin)|(w & f & _ & []%elem_of_nil)].
    destruct (inv_nearest _ _ _ _ _ _ _ _ I u e Hin) as [_ [Hent _]]. pose proof (proj2 Hn e Hent). by replace d with e by lia.
  - unfold chain_fuel. cbn [chain_loop Nat.add]. rewrite bool_decide_eq_false_2 by set_solver. cbn.
    assert (neighbors_in direction start state = None) as ->; [|done]. unfold neighbors_in.
    destruct (String.eqb_spec direction "callers") as [->|]; [set_solver|]. by destruct (String.eqb_spec direction "callees") as [->|]; [set_solver|].
Qed.
