(* ===== verification/Registry.v ===== *)
(** * The recorded sandboxes (src/src/mcp/store.rs, sandbox.rs, server.rs)

    A sandbox outlives the server that made it in one file, [sandboxes.json], which several
    servers may share.  A change is a load, an edit and a store under an advisory lock, and
    the store replaces the file in one step.  serde_json's rendering and parsing of the
    list are parameters. *)

From S2P Require Import Prelude RustStr BTree Json Session Conclusions Paths Proc.
Local Open Scope nat_scope.

(** ** Data *)

Record SandboxRte := mkRte { unsigned : bool; pointer : bool }.
Definition default_rte : SandboxRte := mkRte true false.

Record SandboxMetadata := mkSandbox {
  experiment_id : string;
  original_function : string;
  sandbox_dir : string;
  sandbox_socket : string;
  sandbox_pid : N;
  declaration_marker : string;
  created_at : string;
  last_activity : string;
  deleted : bool;
  command_line : list string;
  stdout_log_path : option string;
  stderr_log_path : option string;
  startup_stderr_tail : option string;
  rte : SandboxRte;
}.

Definition set_deleted (s : SandboxMetadata) : SandboxMetadata :=
  mkSandbox (experiment_id s) (original_function s) (sandbox_dir s) (sandbox_socket s) (sandbox_pid s) (declaration_marker s)
    (created_at s) (last_activity s) true (command_line s) (stdout_log_path s) (stderr_log_path s) (startup_stderr_tail s) (rte s).

(** Two [PathBuf]s are equal when their components are. *)
Definition path_eq (a b : string) : bool := bool_decide (components a = components b).

Definition id_le (a b : SandboxMetadata) : Prop := str_le (experiment_id a) (experiment_id b).
#[export] Instance id_le_dec a b : Decision (id_le a b) := decide (str_le (experiment_id a) (experiment_id b)).

(** ** The file *)

Inductive Change := Remember (metadata : SandboxMetadata) | MarkDeleted (id : string).

Section file.
Variable sha256_hex : string -> string.
Variable current_dir : list Component.
Variable uid : nat.
Variable from_str : string -> option (list SandboxMetadata).
Variable to_string : list SandboxMetadata -> string.
Variable base_dir : string.

Definition has_expected_sandbox_paths (sandbox : SandboxMetadata) : bool :=
  let dir := expected_sandbox_dir sha256_hex current_dir uid base_dir (experiment_id sandbox) in
  path_eq (sandbox_dir sandbox) dir && path_eq (sandbox_socket sandbox) (join_text dir "frama-c.sock").

Definition own_sandbox (sandbox : SandboxMetadata) : bool :=
  is_safe_path_segment (experiment_id sandbox) && has_expected_sandbox_paths sandbox.

(** [file] is the text of [sandboxes.json], when it can be read. *)
Definition load_sandbox_metadata_from_disk (file : option string) : list SandboxMetadata :=
  bfilter own_sandbox (unwrap_or (file ≫= from_str) []).

Definition remember_in (metadata : SandboxMetadata) (sandboxes : list SandboxMetadata) : list SandboxMetadata :=
  merge_sort id_le (bfilter (fun s => negb (experiment_id s =s experiment_id metadata)) sandboxes ++ [metadata]).

Definition mark_deleted_in (id : string) (sandboxes : list SandboxMetadata) : list SandboxMetadata :=
  map (fun s => if experiment_id s =s id then set_deleted s else s) sandboxes.

Definition edit (c : Change) : list SandboxMetadata -> list SandboxMetadata :=
  match c with Remember metadata => remember_in metadata | MarkDeleted id => mark_deleted_in id end.

End file.

(** ** Servers that share the file

    Each server is between two changes, has the lock, or has loaded the list; the rename of
    the written file is one step, the release of the lock another.  A read of the file can
    fail, and then counts as an empty list; a server can die at any point, and the kernel
    then releases its lock.  The servers run in directories of their own and each spells
    the state directory its own way, which is what its layout depends on. *)
Inductive Phase := Idle | Locked (c : Change) | Loaded (c : Change) (read : bool) (list : list SandboxMetadata) | Stored.

(** A change that reached the file: whose it is, and whether the list it edited was read. *)
Record Filed := mkFiled { filed_by : nat; was_read : bool; filed_change : Change }.

Record Shared := mkShared {
  file : option string;
  lock : option nat;
  phase : nat -> Phase;
  history : list Filed;  (* in order *)
}.

Definition at_phase (p : nat) (ph : Phase) (s : Shared) : nat -> Phase := fun q => if q =? p then ph else phase s q.

(** Where a server runs, and the state directory as it was given. *)
Record Layout := mkLayout { run_in : list Component; state_dir : string }.

Section servers.
Variable sha256_hex : string -> string.
Variable uid : nat.
Variable from_str : string -> option (list SandboxMetadata).
Variable to_string : list SandboxMetadata -> string.
Variable layout : nat -> Layout.

Definition load_at (p : nat) (file : option string) : list SandboxMetadata :=
  load_sandbox_metadata_from_disk sha256_hex (run_in (layout p)) uid from_str (state_dir (layout p)) file.

Inductive shared_step : Shared -> Shared -> Prop :=
  | take_lock p c s : phase s p = Idle -> lock s = None ->
      shared_step s (mkShared (file s) (Some p) (at_phase p (Locked c) s) (history s))
  | load_list p c s : phase s p = Locked c ->
      shared_step s (mkShared (file s) (lock s) (at_phase p (Loaded c true (load_at p (file s))) s) (history s))
  | read_failed p c s : phase s p = Locked c ->
      shared_step s (mkShared (file s) (lock s) (at_phase p (Loaded c false (load_at p None)) s) (history s))
  | write_failed p c b l s : phase s p = Loaded c b l ->
      shared_step s (mkShared (file s) (lock s) (at_phase p Stored s) (history s))
  | rename_over p c b l s : phase s p = Loaded c b l ->
      shared_step s (mkShared (Some (to_string (edit c l))) (lock s) (at_phase p Stored s) (history s ++ [mkFiled p b c]))
  | release p s : phase s p = Stored ->
      shared_step s (mkShared (file s) None (at_phase p Idle s) (history s))
  | die p s :
      shared_step s (mkShared (file s) (if bool_decide (lock s = Some p) then None else lock s) (at_phase p Idle s) (history s)).
End servers.

Definition no_file : Shared := mkShared None None (fun _ => Idle) [].

(** The record as a map from ids. *)
Definition recorded (l : list SandboxMetadata) : gmap string SandboxMetadata := list_to_map (map (fun s => (experiment_id s, s)) l).

Definition record_change (m : gmap string SandboxMetadata) (c : Change) : gmap string SandboxMetadata :=
  match c with
  | Remember metadata => <[experiment_id metadata := metadata]> m
  | MarkDeleted id => alter set_deleted id m
  end.
(** ** What a caller is shown *)

(** A live sandbox of this server wins over what is recorded under its id. *)
Definition known_sandboxes (live on_disk : list SandboxMetadata) : list (SandboxMetadata * bool) :=
  map (fun s => (s, true)) live
  ++ map (fun s => (s, false)) (bfilter (fun s => negb (existsb (fun l => experiment_id l =s experiment_id s) live)) on_disk).

Definition experiment_id_taken (process_is_alive : N -> bool) (id : string) (known : list (SandboxMetadata * bool)) : bool :=
  existsb (fun '(s, live) => (experiment_id s =s id) && (live || (negb (deleted s) && process_is_alive (sandbox_pid s)))) known.

Definition process_metadata_payload (read_to_string : string -> option string) (status : string) (pid : N) (command_line : list string)
    (socket_path : string) (stdout_log_path stderr_log_path startup_stderr_tail exit_status : option string) : json :=
  let tail := (stderr_log_path ≫= fun path => opt_filter (fun tail => negb (is_empty tail)) (Some (tail_file read_to_string path 20)))
              <||> startup_stderr_tail in
  let tail := unwrap_or tail "" in
  JObj [("status", JStr status); ("running", JBool (status =s "running")); ("pid", jN pid);
        ("command_line", JArr (map JStr command_line)); ("socket_path", JStr socket_path);
        ("stdout_log_path", jopt JStr stdout_log_path); ("stderr_log_path", jopt JStr stderr_log_path);
        ("startup_stderr_tail", JStr tail); ("plugin_load_messages", JArr (map JStr (plugin_load_messages tail)));
        ("exit_status", jopt JStr exit_status)].

Definition some_entry (k : string) (v : option json) : jmap := match v with Some v => [(k, v)] | None => [] end.

Definition some_items (k : string) (l : list json) : jmap := match l with [] => [] | _ => [(k, JArr l)] end.
Definition failed_assert_json (a : FailedSourceAssert) : json :=
  JObj [("stmt_id", jN (fa_stmt_id a)); ("acsl", JStr (fa_acsl a)); ("kind", JStr (fa_kind a))].

Definition wp_summary_json (s : WpGoalSummary) : json :=
  JObj ([("total", jN (total s)); ("valid", jN (valid s)); ("unknown", jN (unknown s)); ("timeout", jN (timeout s)); ("failed", jN (failed s))]
        ++ some_entry "model" (JStr <$> model s) ++ some_entry "timeout_used" (jN <$> timeout_used s)
        ++ some_entry "recorded_at_retry" (jN <$> recorded_at_retry s)
        ++ some_items "failed_goal_labels" (map JStr (failed_goal_labels s))
        ++ some_items "failed_source_asserts" (map failed_assert_json (failed_source_asserts s))).

Definition runtime_status (active deleted : bool) : string := if active then "live" else if deleted then "deleted" else "stale".

Definition sandbox_list_entry (read_to_string : string -> option string) (process_is_alive : N -> bool)
    (sandbox : SandboxMetadata) (conclusion : option FunctionVerificationState) (active : bool) : json :=
  let deleted := deleted sandbox in
  let clean := match conclusion with Some c => sandbox_clean c | None => true end in
  JObj [("experiment_id", JStr (experiment_id sandbox)); ("function", JStr (original_function sandbox));
        ("original_function", JStr (original_function sandbox));
        ("sandbox_name", JStr (experiment_id sandbox +s+ ":" +s+ original_function sandbox));
        ("pid", jN (sandbox_pid sandbox)); ("sandbox_pid", jN (sandbox_pid sandbox));
        ("source_path", JStr (join_text (sandbox_dir sandbox) "sandbox.c")); ("sandbox_dir", JStr (sandbox_dir sandbox));
        ("socket_path", JStr (sandbox_socket sandbox)); ("sandbox_socket", JStr (sandbox_socket sandbox));
        ("declaration_marker", JStr (declaration_marker sandbox)); ("active", JBool active);
        ("process_alive", JBool (process_is_alive (sandbox_pid sandbox)));
        ("stale", JBool (negb active && negb deleted)); ("recoverable", JBool (negb active && negb deleted));
        ("runtime_status", JStr (runtime_status active deleted));
        ("clean", JBool clean); ("sandbox_clean", JBool clean); ("deleted", JBool deleted); ("sandbox_deleted", JBool deleted);
        ("annotation_count", jN (match conclusion with Some c => annotation_count c | None => 0%N end));
        ("ast_stmt_count", jopt jN (conclusion ≫= ast_stmt_count));
        ("created_at", JStr (created_at sandbox)); ("last_activity", JStr (last_activity sandbox));
        ("process", process_metadata_payload read_to_string
           (if active then "running" else if deleted then "deleted" else "unknown") (sandbox_pid sandbox) (command_line sandbox)
           (sandbox_socket sandbox) (stdout_log_path sandbox) (stderr_log_path sandbox) (startup_stderr_tail sandbox) None);
        ("last_wp_summary", jopt wp_summary_json (conclusion ≫= wp_summary))].

Definition entry_id (entry : json) : string := unwrap_or (get_str "experiment_id" entry) "".
Definition entry_le (a b : json) : Prop := str_le (entry_id a) (entry_id b).
#[export] Instance entry_le_dec a b : Decision (entry_le a b) := decide (str_le (entry_id a) (entry_id b)).

Definition sandbox_list_payload (read_to_string : string -> option string) (process_is_alive : N -> bool) (max_sandboxes : nat)
    (state : SessionState) (known : list (SandboxMetadata * bool)) : json :=
  let sandboxes := merge_sort entry_le
    (map (fun '(s, live) => sandbox_list_entry read_to_string process_is_alive s (get_conclusion (original_function s) state) live) known) in
  JObj [("count", jnat (length sandboxes)); ("max_sandboxes", jnat max_sandboxes); ("sandboxes", JArr sandboxes)].

(** ** Lemmas *)

Notation ids l := (map experiment_id l).

#[export] Instance id_le_total : Total id_le.
Proof. intros a b. apply str_le_total. Qed.
#[export] Instance id_le_trans : Transitive id_le.
Proof. intros a b c. apply str_le_trans. Qed.

Lemma recorded_Some l i s : NoDup (ids l) -> (recorded l !! i = Some s <-> s ∈ l /\ experiment_id s = i).
Proof.
  intros Hn. unfold recorded. rewrite <- elem_of_list_to_map.
  - rewrite list_elem_of_fmap. split; [intros (s' & [= -> ->] & Hs); done|intros [Hs <-]; by exists s].
  - rewrite <- list_fmap_compose. exact Hn.
Qed.

Lemma recorded_ext l m : NoDup (ids l) -> (forall i s, m !! i = Some s <-> s ∈ l /\ experiment_id s = i) -> recorded l = m.
Proof. intros Hn Hm. apply map_eq. intros i. apply option_eq. intros s. by rewrite recorded_Some, Hm. Qed.

Lemma ids_mark id l : ids (mark_deleted_in id l) = ids l.
Proof. unfold mark_deleted_in. rewrite map_map. apply map_ext. intros s. by destruct (_ =s _). Qed.

Lemma ids_remember metadata l : NoDup (ids l) -> NoDup (ids (remember_in metadata l)).
Proof.
  intros Hn. unfold remember_in. rewrite merge_sort_Permutation, map_app. apply NoDup_app. split_and!.
  - eapply sublist_NoDup; [exact Hn|]. apply (fmap_sublist experiment_id), bfilter_sublist.
  - intros x Hx Hy. apply list_elem_of_singleton in Hy as ->. apply list_elem_of_fmap in Hx as (s & Hs & Hin).
    apply elem_of_bfilter in Hin as [_ Hne]. by rewrite Hs, String.eqb_refl in Hne.
  - apply NoDup_singleton.
Qed.

Lemma elem_of_remember metadata l s : s ∈ remember_in metadata l <-> s = metadata \/ s ∈ l /\ experiment_id s <> experiment_id metadata.
Proof.
  unfold remember_in. rewrite merge_sort_Permutation, elem_of_app, elem_of_bfilter, list_elem_of_singleton, negb_true_iff, String.eqb_neq. tauto.
Qed.

Lemma recorded_remember metadata l : NoDup (ids l) -> recorded (remember_in metadata l) = <[experiment_id metadata := metadata]> (recorded l).
Proof.
  intros Hn. apply recorded_ext; [by apply ids_remember|]. intros i s. rewrite lookup_insert_Some, recorded_Some, elem_of_remember by done.
  split; [intros [[<- ->]|(Hne & Hs & Hi)]; [by auto|split; [right; split; [done|congruence]|done]]|].
  intros [[->|[Hs Hne]] Hi]; [by left|right; split_and!; [congruence|done|done]].
Qed.

Lemma recorded_mark id l : NoDup (ids l) -> recorded (mark_deleted_in id l) = alter set_deleted id (recorded l).
Proof.
  intros Hn. apply recorded_ext; [by rewrite ids_mark|]. intros i s. unfold mark_deleted_in. rewrite list_elem_of_fmap.
  destruct (decide (i = id)) as [->|Hne].
  - rewrite lookup_alter_eq, fmap_Some. setoid_rewrite recorded_Some; [|done]. split.
    + intros (s' & [Hs <-] & ->). split; [exists s'; by rewrite String.eqb_refl|done].
    + intros [(s' & -> & Hs) Hi]. exists s'. destruct (String.eqb_spec (experiment_id s') id) as [->|]; done.
  - rewrite lookup_alter_ne, recorded_Some by done. split.
    + intros [Hs <-]. split; [exists s|done]. by apply String.eqb_neq in Hne as ->.
    + intros [(s' & -> & Hs) Hi]. destruct (String.eqb_spec (experiment_id s') id) as [He|]; [exfalso; apply Hne; by rewrite <- Hi, <- He|done].
Qed.

Lemma sorted_mark id l : StronglySorted id_le l -> StronglySorted id_le (mark_deleted_in id l).
Proof.
  induction 1 as [|s l Hl IH Hs]; [constructor|]. cbn. constructor; [exact IH|]. unfold mark_deleted_in.
  rewrite Forall_fmap. eapply Forall_impl; [exact Hs|]. intros t Ht. unfold id_le in *. cbn. by destruct (_ =s _), (_ =s _).
Qed.

Section theorems.
Context (sha256_hex : string -> string) (uid : nat).
Context (from_str : string -> option (list SandboxMetadata)) (to_string : list SandboxMetadata -> string) (layout : nat -> Layout).
(** A list that was written reads back. *)
Hypothesis read_back : forall l, from_str (to_string l) = Some l.
Notation own p := (own_sandbox sha256_hex (run_in (layout p)) uid (state_dir (layout p))).
Notation load := (load_at sha256_hex uid from_str layout).
Notation step := (shared_step sha256_hex uid from_str to_string layout).

Lemma recorded_filter (keep : SandboxMetadata -> bool) l : NoDup (ids l) ->
  recorded (bfilter keep l) = filter (fun e => keep e.2 = true) (recorded l).
Proof.
  intros Hn. apply recorded_ext.
  - eapply sublist_NoDup; [exact Hn|]. apply (fmap_sublist experiment_id), bfilter_sublist.
  - intros i s. rewrite map_lookup_filter_Some, recorded_Some, elem_of_bfilter by done. cbn. tauto.
Qed.

Lemma sorted_filter (keep : SandboxMetadata -> bool) l : StronglySorted id_le l -> StronglySorted id_le (bfilter keep l).
Proof.
  induction 1 as [|s l Hl IH Hs]; [constructor|]. cbn. destruct (keep s); [|exact IH]. constructor; [exact IH|].
  rewrite Forall_forall in Hs |- *. intros x Hx. apply Hs. by apply elem_of_bfilter in Hx as [? _].
Qed.

Inductive reaches : Shared -> Prop :=
  | reach_start : reaches no_file
  | reach_step s s' : reaches s -> step s s' -> reaches s'.

(** What the file holds, one stored change after another. *)
Definition contents (s : Shared) : list SandboxMetadata := unwrap_or (file s ≫= from_str) [].
Definition next_contents (l : list SandboxMetadata) (f : Filed) : list SandboxMetadata :=
  edit (filed_change f) (if was_read f then bfilter (own (filed_by f)) l else []).

(** One server is at work at a time, and what it read is still what the file has. *)
Lemma shared_invariant s : reaches s ->
  (forall p, phase s p <> Idle -> lock s = Some p)
  /\ (forall p c b l, phase s p = Loaded c b l -> l = if b then bfilter (own p) (contents s) else [])
  /\ contents s = fold_left next_contents (history s) [].
Proof.
  induction 1 as [|s s' Hs (Hlock & Hload & Hfile) Hstep]; [by split_and!|].
  assert (Hone : forall p q, phase s p <> Idle -> phase s q <> Idle -> p = q).
  { intros p q Hp Hq. apply Hlock in Hp, Hq. congruence. }
  assert (Hheld : forall p ph, phase s p <> Idle -> forall q, at_phase p ph s q <> Idle -> lock s = Some q).
  { intros p ph Hp q. unfold at_phase. destruct (Nat.eqb_spec q p) as [->|Hq]; [intros _|]; by apply Hlock. }
  assert (Hother : forall p ph q c b l, (forall c b l, ph <> Loaded c b l) -> at_phase p ph s q = Loaded c b l ->
    l = if b then bfilter (own q) (contents s) else []).
  { intros p ph q c b l Hph. unfold at_phase. destruct (Nat.eqb_spec q p) as [->|Hq]; [by intros ?%Hph|]. apply Hload. }
  destruct Hstep as [p c s Hp Hl|p c s Hp|p c s Hp|p c b l s Hp|p c b l s Hp|p s Hp|p s]; unfold contents in *; cbn;
    (split; [|split]); try done;
    try (eapply Hheld; by rewrite Hp); try (intros q c' b' l'; by eapply Hother).
  - intros q. unfold at_phase. destruct (Nat.eqb_spec q p) as [->|Hq]; [done|]. intros Hne. apply Hlock in Hne. congruence.
  - intros q c' b' l'. unfold at_phase. destruct (Nat.eqb_spec q p) as [->|Hq]; [by intros [= <- <- <-]|apply Hload].
  - intros q c' b' l'. unfold at_phase. destruct (Nat.eqb_spec q p) as [->|Hq]; [by intros [= <- <- <-]|apply Hload].
  - intros q c' b' l'. unfold at_phase. destruct (Nat.eqb_spec q p) as [->|Hq]; [done|]. intros Hq'. exfalso. apply Hq.
    apply Hone; [by rewrite Hq'|by rewrite Hp].
  - rewrite fold_left_app. cbn. rewrite <- Hfile, read_back. unfold next_contents. cbn. by rewrite <- (Hload _ _ _ _ Hp).
  - intros q. unfold at_phase. destruct (Nat.eqb_spec q p) as [->|Hq]; [done|]. intros Hne. exfalso. apply Hq.
    apply Hone; [done|by rewrite Hp].
  - intros q. unfold at_phase. destruct (Nat.eqb_spec q p) as [->|Hq]; [done|]. intros Hne. rewrite bool_decide_eq_false_2; [by apply Hlock|].
    apply Hlock in Hne. congruence.
Qed.

(** A stored change as it bears on the record: of what was there, what the server that
    stored it takes for sandboxes of its own layout, or nothing when it could not read. *)
Definition file_change (m : gmap string SandboxMetadata) (f : Filed) : gmap string SandboxMetadata :=
  record_change (if was_read f then filter (fun e => own (filed_by f) e.2 = true) m else ∅) (filed_change f).

Definition own_change (p : nat) (c : Change) : Prop := match c with Remember metadata => own p metadata = true | MarkDeleted _ => True end.

Lemma history_recorded fs : let l := fold_left next_contents fs [] in
  NoDup (ids l) /\ StronglySorted id_le l /\ recorded l = fold_left file_change fs ∅.
Proof.
  cbv zeta. induction fs as [|f fs IH] using rev_ind; [split_and!; constructor|]. rewrite !fold_left_app. cbn.
  destruct IH as (Hn & Hs & Hr). set (l := fold_left next_contents fs []) in *. rewrite <- Hr. unfold next_contents, file_change.
  set (l' := if was_read f then bfilter (own (filed_by f)) l else []).
  assert (Hl' : NoDup (ids l') /\ StronglySorted id_le l'
    /\ recorded l' = if was_read f then filter (fun e => own (filed_by f) e.2 = true) (recorded l) else ∅).
  { unfold l'. destruct (was_read f); [|split_and!; constructor]. split_and!; [|by apply sorted_filter|by apply recorded_filter].
    eapply sublist_NoDup; [exact Hn|]. apply (fmap_sublist experiment_id), bfilter_sublist. }
  destruct Hl' as (Hn' & Hs' & <-). destruct (filed_change f) as [metadata|id]; cbn.
  - split_and!; [by apply ids_remember|apply StronglySorted_merge_sort; apply _|by apply recorded_remember].
  - split_and!; [by rewrite ids_mark|by apply sorted_mark|by apply recorded_mark].
Qed.

(** Servers of one layout that read what they edit find all they filed to be their own. *)
Lemma alike_recorded q fs : (forall f, f ∈ fs -> was_read f = true /\ layout (filed_by f) = layout q /\ own_change (filed_by f) (filed_change f)) ->
  let m := fold_left record_change (map filed_change fs) ∅ in
  fold_left file_change fs ∅ = m /\ filter (fun e => own q e.2 = true) m = m.
Proof.
  cbv zeta. induction fs as [|f fs IH] using rev_ind; intros Hf; [done|]. destruct IH as [Hm Hown].
  { intros g Hg. apply Hf, elem_of_app. by left. }
  destruct (Hf f) as (Hr & Hl & Hc); [apply elem_of_app; right; left|].
  rewrite map_app, !fold_left_app. cbn. rewrite Hm. set (m := fold_left record_change (map filed_change fs) ∅) in *.
  unfold file_change. rewrite Hr, Hl, Hown. split; [done|].
  assert (Hall : forall i x, m !! i = Some x -> own q x = true).
  { intros i x Hx. rewrite <- Hown in Hx. by apply map_lookup_filter_Some in Hx as [_ ?]. }
  apply map_eq. intros i. apply option_eq. intros x. rewrite map_lookup_filter_Some. cbn. split; [by intros [? _]|]. intros Hx. split; [done|].
  destruct (filed_change f) as [metadata|id]; cbn in Hx, Hc.
  - apply lookup_insert_Some in Hx as [[_ <-]|[_ Hx]]; [by rewrite <- Hl|by eapply Hall].
  - destruct (decide (i = id)) as [->|Hne]; [|rewrite lookup_alter_ne in Hx by done; by eapply Hall].
    rewrite lookup_alter_eq in Hx. apply fmap_Some in Hx as (x' & Hx & ->). exact (Hall _ _ Hx).
Qed.

(** C40: no recorded sandbox is lost but in two ways.  From a state directory without the
    file, and as a list that was written reads back, however servers that share the state
    directory interleave, fail to read or to write, and die, what a server finds in the file
    is the changes that were stored, one after another, on a map from ids, each registration
    and each deletion and nothing else, except that a server that could not read the file
    stores its change over an empty list, and that one whose spelling of the directory, or
    whose working directory, makes another layout stores only the sandboxes of its own; a
    reader passes over those of another layout as well.  So as long as the reads succeed
    and the servers that stored share the reader's layout and register sandboxes of it,
    every change is there.  The ids are distinct and in order. *)
Theorem no_change_lost s q : reaches s ->
  let found := load q (file s) in
  recorded found = filter (fun e => own q e.2 = true) (fold_left file_change (history s) ∅)
  /\ ((forall f, f ∈ history s -> was_read f = true /\ layout (filed_by f) = layout q /\ own_change (filed_by f) (filed_change f)) ->
      recorded found = fold_left record_change (map filed_change (history s)) ∅)
  /\ NoDup (ids found) /\ StronglySorted id_le found.
Proof.
  intros Hs. destruct (shared_invariant s Hs) as (_ & _ & Hc). destruct (history_recorded (history s)) as (Hn & Hsort & Hr).
  cbv zeta. unfold load_at, load_sandbox_metadata_from_disk. fold (contents s). rewrite Hc.
  assert (Hfound : recorded (bfilter (own q) (fold_left next_contents (history s) [])) = filter (fun e => own q e.2 = true) (fold_left file_change (history s) ∅))
    by (rewrite <- Hr; by apply recorded_filter).
  split_and!; [done| | |by apply sorted_filter].
  - intros Hall. rewrite Hfound. by destruct (alike_recorded q (history s) Hall) as [-> ->].
  - eapply sublist_NoDup; [exact Hn|]. apply (fmap_sublist experiment_id), bfilter_sublist.
Qed.
End theorems.

(** ** What a caller is shown *)

Lemma known_spec live on_disk s active : (s, active) ∈ known_sandboxes live on_disk <->
  (active = true /\ s ∈ live) \/ (active = false /\ s ∈ on_disk /\ experiment_id s ∉ ids live).
Proof.
  unfold known_sandboxes. rewrite elem_of_app, !list_elem_of_fmap.
  assert (Hlive : existsb (fun l => experiment_id l =s experiment_id s) live = false <-> experiment_id s ∉ ids live).
  { rewrite existsb_false, list_elem_of_fmap. split.
    - intros H (l & Hl & Hin). specialize (H l Hin). by rewrite Hl, String.eqb_refl in H.
    - intros H l Hin. apply String.eqb_neq. intros Heq. apply H. by exists l. }
  rewrite list_elem_of_fmap in Hlive.
  split.
  - intros [(s' & [= -> ->] & Hs)|(s' & [= -> ->] & Hs)]; [by left|]. right. apply elem_of_bfilter in Hs as [Hs Hn].
    apply negb_true_iff in Hn. split; [done|]. split; [done|]. by apply Hlive.
  - intros [[-> Hs]|(-> & Hs & Hn)]; [left; by exists s|]. right. exists s. split; [done|]. apply elem_of_bfilter.
    split; [done|]. by apply negb_true_iff, Hlive.
Qed.

Lemma known_ids live on_disk : NoDup (ids live) -> NoDup (ids on_disk) -> NoDup (ids (known_sandboxes live on_disk).*1).
Proof.
  intros Hl Hd. unfold known_sandboxes. rewrite fmap_app, map_app. apply NoDup_app.
  assert (Heq : forall (b : bool) l, (map (fun s : SandboxMetadata => (s, b)) l).*1 = l).
  { intros b l. induction l as [|s l IH]; [done|]. cbn. by f_equal. }
  rewrite !Heq. split_and!; [done| |eapply sublist_NoDup; [exact Hd|apply (fmap_sublist experiment_id), bfilter_sublist]].
  intros x Hx Hy. apply list_elem_of_fmap in Hy as (s & -> & Hs). apply elem_of_bfilter in Hs as [_ Hn].
  apply negb_true_iff in Hn. rewrite existsb_false in Hn. apply list_elem_of_fmap in Hx as (l & Hx & Hin).
  specialize (Hn l Hin). by rewrite Hx, String.eqb_refl in Hn.
Qed.

Lemma taken_spec alive live on_disk id : experiment_id_taken alive id (known_sandboxes live on_disk) = false <->
  id ∉ ids live /\ forall s, s ∈ on_disk -> experiment_id s = id -> deleted s = true \/ alive (sandbox_pid s) = false.
Proof.
  unfold experiment_id_taken. rewrite existsb_false. split.
  + intros H. split.
    * intros (s & -> & Hs)%list_elem_of_fmap. specialize (H (s, true)). cbn in H. rewrite String.eqb_refl in H. cbn in H.
      discriminate H. apply known_spec. by left.
    * intros s Hs <-. destruct (decide (experiment_id s ∈ ids live)) as [Hin|Hni].
      -- exfalso. apply list_elem_of_fmap in Hin as (l & Heq & Hin). specialize (H (l, true)). cbn in H. rewrite Heq, String.eqb_refl in H.
         cbn in H. discriminate H. apply known_spec. by left.
      -- assert (H' : (s, false) ∈ known_sandboxes live on_disk) by (apply known_spec; by right). specialize (H _ H'). cbn in H. rewrite String.eqb_refl in H.
         cbn in H. destruct (deleted s); [by left|]. by right.
  + intros [Hni Hd'] [s active] Hs. destruct (String.eqb_spec (experiment_id s) id) as [<-|]; [|done]. cbn.
    apply known_spec in Hs as [[-> Hs]|(-> & Hs & _)]; [exfalso; apply Hni, list_elem_of_fmap; by exists s|].
    destruct (Hd' s Hs eq_refl) as [->| ->]; [done|]. by rewrite andb_false_r.
Qed.

(** Every known sandbox is listed once, as what it is.  A sandbox of this server is live;
    one that is only recorded is deleted or else stale, and only a stale one is offered for
    recovery; an id can be used again exactly when no sandbox of this server has it and the
    recorded one is deleted or its process is gone. *)
Theorem sandboxes_listed live on_disk read alive max_sandboxes state :
  NoDup (ids live) -> NoDup (ids on_disk) ->
  let known := known_sandboxes live on_disk in
  let entries := array_or_empty (field "sandboxes" (sandbox_list_payload read alive max_sandboxes state known)) in
  map entry_id entries ≡ₚ ids known.*1 /\ NoDup (map entry_id entries)
  /\ (forall id, id ∈ map entry_id entries <-> id ∈ ids live \/ id ∈ ids on_disk)
  /\ (forall s active, (s, active) ∈ known ->
        let e := sandbox_list_entry read alive s (get_conclusion (original_function s) state) active in
        e ∈ entries /\ get_str "runtime_status" e = Some (runtime_status active (deleted s))
        /\ (get_bool "recoverable" e = Some true <-> s ∈ on_disk /\ experiment_id s ∉ ids live /\ deleted s = false))
  /\ (forall id, experiment_id_taken alive id known = false <->
        id ∉ ids live /\ forall s, s ∈ on_disk -> experiment_id s = id -> deleted s = true \/ alive (sandbox_pid s) = false).
Proof.
  intros Hl Hd known. set (entry := fun p : SandboxMetadata * bool => sandbox_list_entry read alive p.1 (get_conclusion (original_function p.1) state) p.2).
  assert (Hpay : array_or_empty (field "sandboxes" (sandbox_list_payload read alive max_sandboxes state known)) = merge_sort entry_le (map entry known)).
  { unfold sandbox_list_payload. cbn. f_equal. apply map_ext. by intros [s b]. }
  cbv zeta. rewrite Hpay. pose proof (known_ids live on_disk Hl Hd) as Hn. fold known in Hn.
  assert (Hids : map entry_id (merge_sort entry_le (map entry known)) ≡ₚ ids known.*1).
  { rewrite merge_sort_Permutation, map_map. by rewrite <- list_fmap_compose. }
  split_and!; [done|by rewrite Hids| | |].
  - intros id. rewrite Hids, list_elem_of_fmap. setoid_rewrite list_elem_of_fmap. split.
    + intros (s & -> & [s' b] & -> & Hs). apply known_spec in Hs as [[_ Hs]|(_ & Hs & _)]; [left|right]; by exists s'.
    + intros [(s & -> & Hs)|(s & -> & Hs)]; [exists s; split; [done|]; exists (s, true); split; [done|]; apply known_spec; by left|].
      destruct (decide (experiment_id s ∈ ids live)) as [Hin|Hnin].
      * apply list_elem_of_fmap in Hin as (l & Heq & Hin). exists l. split; [done|]. exists (l, true). split; [done|]. apply known_spec. by left.
      * exists s. split; [done|]. exists (s, false). split; [done|]. apply known_spec. by right.
  - intros s active Hs. split_and!; [rewrite merge_sort_Permutation; apply list_elem_of_fmap; by exists (s, active)|done|].
    apply known_spec in Hs as [[-> Hs]|(-> & Hs & Hni)]; cbn; unfold get_bool; cbn.
    + split; [done|]. intros (_ & Hni & _). exfalso. apply Hni, list_elem_of_fmap. by exists s.
    + destruct (deleted s); cbn; (split; [intros|intros (_ & _ & [=])]); done.
  - intros id. apply taken_spec.
Qed.

(** ** Witnesses

    A text for every list: the bits of stdpp's code of it. *)
#[export] Instance SandboxRte_eq_dec : EqDecision SandboxRte.
Proof. solve_decision. Defined.
#[export] Instance SandboxRte_countable : Countable SandboxRte.
Proof. refine (inj_countable' (fun r => (unsigned r, pointer r)) (fun '(u, p) => mkRte u p) _). by intros []. Defined.
#[export] Instance SandboxMetadata_eq_dec : EqDecision SandboxMetadata.
Proof. solve_decision. Defined.
#[export] Instance SandboxMetadata_countable : Countable SandboxMetadata.
Proof.
  refine (inj_countable'
    (fun s => (experiment_id s, original_function s, sandbox_dir s, sandbox_socket s, sandbox_pid s, declaration_marker s, created_at s,
               last_activity s, deleted s, command_line s, stdout_log_path s, stderr_log_path s, startup_stderr_tail s, rte s))
    (fun '(a, b, c, d, e, f, g, h, i, j, k, l, m, n) => mkSandbox a b c d e f g h i j k l m n) _).
  by intros [].
Defined.

Fixpoint bits (p : positive) : string :=
  match p with xH => "" | xO p => String "0" (bits p) | xI p => String "1" (bits p) end.
Fixpoint of_bits (s : string) : positive :=
  match s with "" => xH | String c s => if Ascii.eqb c "0" then xO (of_bits s) else xI (of_bits s) end.
Lemma of_bits_bits p : of_bits (bits p) = p.
Proof. induction p as [p IH|p IH|]; cbn; [by rewrite IH|by rewrite IH|done]. Qed.

Definition list_text (l : list SandboxMetadata) : string := bits (encode l).
Definition text_list (s : string) : option (list SandboxMetadata) := decode (of_bits s).
Lemma list_text_back l : text_list (list_text l) = Some l.
Proof. unfold text_list, list_text. by rewrite of_bits_bits, decode_encode. Qed.

Definition sandbox_at (id : string) : SandboxMetadata :=
  let dir := expected_sandbox_dir digest_64 [RootDir] 0 "state" id in
  mkSandbox id "f" dir (join_text dir "frama-c.sock") 7 "#F1" "" "" false [] None None None default_rte.

(** One server registers [a] and dies before it releases the lock; another registers [b],
    having read the file or not. *)
Definition change_a : Change := Remember (sandbox_at "a").
Definition change_b : Change := Remember (sandbox_at "b").
Definition one_layout (_ : nat) : Layout := mkLayout [RootDir] "state".
Definition load_example : option string -> list SandboxMetadata := load_at digest_64 0 text_list one_layout 2.
Definition shared_1 : Shared := mkShared None (Some 1) (at_phase 1 (Locked change_a) no_file) [].
Definition shared_2 : Shared := mkShared None (Some 1) (at_phase 1 (Loaded change_a true (load_example None)) shared_1) [].
Definition shared_3 : Shared :=
  mkShared (Some (list_text (edit change_a (load_example None)))) (Some 1) (at_phase 1 Stored shared_2) [mkFiled 1 true change_a].
Definition shared_4 : Shared := mkShared (file shared_3) None (at_phase 1 Idle shared_3) (history shared_3).
Definition shared_5 : Shared := mkShared (file shared_3) (Some 2) (at_phase 2 (Locked change_b) shared_4) (history shared_3).
Definition shared_6 (read : bool) : Shared :=
  let list := load_example (if read then file shared_5 else None) in
  mkShared (file shared_3) (Some 2) (at_phase 2 (Loaded change_b read list) shared_5) (history shared_3).
Definition shared_7 (read : bool) : Shared :=
  let list := load_example (if read then file shared_5 else None) in
  mkShared (Some (list_text (edit change_b list))) (Some 2) (at_phase 2 Stored (shared_6 read)) (history shared_3 ++ [mkFiled 2 read change_b]).

Lemma shared_7_reached read : reaches digest_64 0 text_list list_text one_layout (shared_7 read).
Proof.
  apply (reach_step _ _ _ _ _ (shared_6 read)); [|exact (rename_over _ _ _ _ _ 2 change_b read _ (shared_6 read) eq_refl)].
  apply (reach_step _ _ _ _ _ shared_5);
    [|destruct read; [exact (load_list _ _ _ _ _ 2 change_b shared_5 eq_refl)|exact (read_failed _ _ _ _ _ 2 change_b shared_5 eq_refl)]].
  apply (reach_step _ _ _ _ _ shared_4); [|exact (take_lock _ _ _ _ _ 2 change_b shared_4 eq_refl eq_refl)].
  apply (reach_step _ _ _ _ _ shared_3); [|exact (die _ _ _ _ _ 1 shared_3)].
  apply (reach_step _ _ _ _ _ shared_2); [|exact (rename_over _ _ _ _ _ 1 change_a true _ shared_2 eq_refl)].
  apply (reach_step _ _ _ _ _ shared_1); [|exact (load_list _ _ _ _ _ 1 change_a shared_1 eq_refl)].
  apply (reach_step _ _ _ _ _ no_file); [constructor|exact (take_lock _ _ _ _ _ 1 change_a no_file eq_refl eq_refl)].
Qed.

(** A read that fails costs the record the sandboxes it had. *)
Lemma unreadable_list_overwritten : exists s, reaches digest_64 0 text_list list_text one_layout s
  /\ map filed_change (history s) = [change_a; change_b] /\ ids (load_example (file s)) = ["b"].
Proof.
  exists (shared_7 false). split; [apply shared_7_reached|]. split; [done|].
  change (ids (load_example (file (shared_7 false)))) with
    (ids (bfilter (own_sandbox digest_64 [RootDir] 0 "state") (unwrap_or (text_list (list_text (edit change_b (load_example None)))) []))).
  rewrite list_text_back. vm_compute. reflexivity.
Qed.

Lemma no_change_lost_witness :
  recorded (load_example (file (shared_7 true))) = <["b" := sandbox_at "b"]> (<["a" := sandbox_at "a"]> ∅)
  /\ recorded (load_example (file (shared_7 false)))
     = filter (fun e => own_sandbox digest_64 [RootDir] 0 "state" e.2 = true) (<["b" := sandbox_at "b"]> ∅).
Proof.
  pose proof (no_change_lost digest_64 0 text_list list_text one_layout list_text_back (shared_7 true) 2 (shared_7_reached true)) as (_ & H & _).
  pose proof (no_change_lost digest_64 0 text_list list_text one_layout list_text_back (shared_7 false) 2 (shared_7_reached false)) as (H' & _).
  split.
  - apply H. intros f Hf. change (f ∈ [mkFiled 1 true change_a; mkFiled 2 true change_b]) in Hf.
    apply elem_of_cons in Hf as [->|Hf]; [|apply list_elem_of_singleton in Hf as ->];
      (split; [reflexivity|split; [reflexivity|vm_compute; reflexivity]]).
  - exact H'.
Defined.

Lemma sandboxes_listed_witness :
  let known := known_sandboxes [sandbox_at "a"] [sandbox_at "a"; sandbox_at "b"] in
  map entry_id (array_or_empty (field "sandboxes" (sandbox_list_payload (fun _ => None) (fun _ => false) 4 default_session known))) ≡ₚ ["a"; "b"].
Proof.
  refine (proj1 (sandboxes_listed [sandbox_at "a"] [sandbox_at "a"; sandbox_at "b"] (fun _ => None) (fun _ => false) 4 default_session _ _));
    apply (bool_decide_eq_true_1 _); vm_compute; reflexivity.
Defined.
