(* ===== verification/Sandboxes.v ===== *)
(** * Live sandboxes and their WP runs (src/src/mcp/server.rs, sandbox.rs)

    The sandboxes of this server, by id.  A WP run on one is a transaction: the run takes
    the lock of the entry it found, waits, looks the entry up again and goes on only while
    it still has that lock.  Creating and deleting a sandbox do not wait for it, and calls
    interleave between any two of their steps. *)

From S2P Require Import Prelude RustStr Json Session Conclusions Paths Registry.
Local Open Scope nat_scope.

(** ** Names *)

Inductive FunctionScope := ScopeMain (function : string) | ScopeSandbox (experiment_id function : string).

Definition scope_for_function (function : string) : FunctionScope :=
  match split_once ":" function with
  | Some (experiment_id, name) => ScopeSandbox experiment_id name
  | None => ScopeMain function
  end.

(** The functions of a WP run on a sandbox: the sandbox of the first, and every name without
    its prefix, or why the run is refused. *)
Inductive Refused := NotASandboxName | OtherSandbox (name experiment_id expected : string) | NoPrefix (name : string).

Fixpoint target_names (exp_id : string) (names : list string) : list string + Refused :=
  match names with
  | [] => inl []
  | name :: names =>
    match scope_for_function name with
    | ScopeSandbox experiment_id function =>
      if experiment_id =s exp_id
      then match target_names exp_id names with inl rest => inl (function :: rest) | inr e => inr e end
      else inr (OtherSandbox name experiment_id exp_id)
    | ScopeMain _ => inr (NoPrefix name)
    end
  end.

Definition sandbox_targets (first : string) (names : list string) : (string * list string) + Refused :=
  match scope_for_function first with
  | ScopeMain _ => inr NotASandboxName
  | ScopeSandbox exp_id _ => match target_names exp_id names with inl targets => inl (exp_id, targets) | inr e => inr e end
  end.

(** The sandbox a delete is about: a name without a prefix is an id. *)
Definition delete_target (sandbox_name : string) : string :=
  match scope_for_function sandbox_name with ScopeSandbox experiment_id _ => experiment_id | ScopeMain name => name end.

(** ** The registry

    A client and a lock are shared objects: numbers, equal when the [Arc]s are the same. *)
Record SandboxEntry := mkEntry { metadata : SandboxMetadata; client : nat; wp_lock : nat }.
Abbreviation SandboxRegistry := (gmap string SandboxEntry).

Definition reg_metadata (id : string) (r : SandboxRegistry) : option SandboxMetadata := metadata <$> r !! id.
Definition reg_get (id : string) (r : SandboxRegistry) : option (SandboxMetadata * nat) := (fun e => (metadata e, client e)) <$> r !! id.
Definition reg_wp_lock (id : string) (r : SandboxRegistry) : option nat := wp_lock <$> r !! id.
Definition client_if_current (id : string) (lock : nat) (r : SandboxRegistry) : option nat :=
  r !! id ≫= fun e => then_some (wp_lock e =? lock) (client e).
Definition metadata_list (r : SandboxRegistry) : list SandboxMetadata := map (fun p => metadata p.2) (map_to_list r).
Definition reg_insert (m : SandboxMetadata) (client lock : nat) (r : SandboxRegistry) : SandboxRegistry :=
  <[experiment_id m := mkEntry m client lock]> r.
Definition reg_remove (id : string) (r : SandboxRegistry) : SandboxRegistry := delete id r.
Definition reg_drain (r : SandboxRegistry) : list SandboxEntry * SandboxRegistry := (map snd (map_to_list r), ∅).

(** ** Calls and their steps *)

Inductive CallState :=
  | NoCall
  | Creating (id : string)                      (* past the limit and the id's check, not registered yet *)
  | WaitsLock (id : string) (lock : nat)        (* run_wp_on_sandbox, waiting for the lock it found *)
  | HasLock (id : string) (lock : nat)          (* past the wait *)
  | Runs (id : string) (lock client : nat).     (* talking to the client *)

Record Server := mkServer {
  sandboxes : SandboxRegistry;
  held : nat -> option nat;       (* which call has a lock *)
  calls : nat -> CallState;
  fresh : nat;                    (* the next shared object *)
}.

Definition calling (t : nat) (c : CallState) (s : Server) : nat -> CallState := fun u => if u =? t then c else calls s u.
Definition holding (l : nat) (h : option nat) (s : Server) : nat -> option nat := fun m => if m =? l then h else held s m.

Definition call_lock (c : CallState) : option nat := match c with HasLock _ lock | Runs _ lock _ => Some lock | _ => None end.
Definition released (c : CallState) (s : Server) : nat -> option nat :=
  match call_lock c with Some lock => holding lock None s | None => held s end.

Section steps.
Variable max_sandboxes : nat.
Variable process_is_alive : N -> bool.
Variable on_disk : list SandboxMetadata.

Definition may_create (id : string) (s : Server) : bool :=
  (size (sandboxes s) <? max_sandboxes)
  && negb (experiment_id_taken process_is_alive id (known_sandboxes (metadata_list (sandboxes s)) on_disk)).

Inductive server_step : Server -> Server -> Prop :=
  | create_check t id s : calls s t = NoCall -> may_create id s = true ->
      server_step s (mkServer (sandboxes s) (held s) (calling t (Creating id) s) (fresh s))
  | create_insert t m s : calls s t = Creating (experiment_id m) ->
      server_step s (mkServer (reg_insert m (fresh s) (S (fresh s)) (sandboxes s)) (held s) (calling t NoCall s) (S (S (fresh s))))
  | delete_entry t id s : calls s t = NoCall ->
      server_step s (mkServer (reg_remove id (sandboxes s)) (held s) (calls s) (fresh s))
  | wp_find t id lock s : calls s t = NoCall -> reg_wp_lock id (sandboxes s) = Some lock ->
      server_step s (mkServer (sandboxes s) (held s) (calling t (WaitsLock id lock) s) (fresh s))
  | wp_take t id lock s : calls s t = WaitsLock id lock -> held s lock = None ->
      server_step s (mkServer (sandboxes s) (holding lock (Some t) s) (calling t (HasLock id lock) s) (fresh s))
  | wp_current t id lock c s : calls s t = HasLock id lock -> client_if_current id lock (sandboxes s) = Some c ->
      server_step s (mkServer (sandboxes s) (held s) (calling t (Runs id lock c) s) (fresh s))
  | wp_gone t id lock s : calls s t = HasLock id lock -> client_if_current id lock (sandboxes s) = None ->
      server_step s (mkServer (sandboxes s) (holding lock None s) (calling t NoCall s) (fresh s))
  | call_ends t s :  (* done, failed, or dropped: its guard is released *)
      server_step s (mkServer (sandboxes s) (released (calls s t) s) (calling t NoCall s) (fresh s)).

Definition empty_server : Server := mkServer ∅ (fun _ => None) (fun _ => NoCall) 0.

Inductive server_reaches : Server -> Prop :=
  | server_start : server_reaches empty_server
  | server_steps s s' : server_reaches s -> server_step s s' -> server_reaches s'.
End steps.

(** ** Theorems *)

(** The sandbox and function of a name that was built from a safe id. *)
Lemma scope_of_name id function : is_safe_path_segment id = true ->
  scope_for_function (id +s+ ":" +s+ function) = ScopeSandbox id function.
Proof.
  intros Hid. unfold scope_for_function. change (id +s+ ":" +s+ function) with (id +s+ String ":" function).
  rewrite split_once_free; [done|]. unfold is_safe_path_segment in Hid. apply andb_true_iff in Hid as [_ H]. revert H. apply sall_impl.
  intros c Hc. destruct (Ascii.eqb_spec c ":") as [->|]; done.
Qed.

Section server_theorems.
Context (max_sandboxes : nat) (process_is_alive : N -> bool) (on_disk : list SandboxMetadata).
Notation reaches := (server_reaches max_sandboxes process_is_alive on_disk).

(** [made] says which id a client was made for. *)
Definition server_invariant (made : nat -> string) (s : Server) : Prop :=
  (forall id e, sandboxes s !! id = Some e -> made (client e) = id /\ client e < fresh s /\ wp_lock e = S (client e))
  /\ (forall t id lock c, calls s t = Runs id lock c -> made c = id /\ c < fresh s /\ lock = S c)
  /\ (forall t lock, held s lock = Some t <-> call_lock (calls s t) = Some lock).

Lemma held_taken s t id lock : (forall u m, held s m = Some u <-> call_lock (calls s u) = Some m) ->
  calls s t = WaitsLock id lock -> held s lock = None ->
  forall u m, holding lock (Some t) s m = Some u <-> call_lock (calling t (HasLock id lock) s u) = Some m.
Proof.
  intros Hh Hc Hn u m. unfold holding, calling. destruct (Nat.eqb_spec m lock) as [->|Hm], (Nat.eqb_spec u t) as [->|Hu]; cbn; [done| | |by apply Hh].
  - rewrite <- Hh, Hn. split; [intros [= ->]; done|done].
  - rewrite Hh, Hc. cbn. split; [done|intros [= ->]; done].
Qed.

Lemma held_released s t : (forall u m, held s m = Some u <-> call_lock (calls s u) = Some m) ->
  forall u m, released (calls s t) s m = Some u <-> call_lock (calling t NoCall s u) = Some m.
Proof.
  intros Hh u m. unfold released, calling. destruct (call_lock (calls s t)) as [lock|] eqn:Hl.
  - unfold holding. destruct (Nat.eqb_spec m lock) as [->|Hm], (Nat.eqb_spec u t) as [->|Hu]; cbn; [done| | |by apply Hh].
    + split; [done|]. rewrite <- Hh. apply Hh in Hl. intros H. congruence.
    + rewrite Hh, Hl. split; [intros [= ->]; done|done].
  - destruct (Nat.eqb_spec u t) as [->|Hu]; [|by apply Hh]. cbn. by rewrite Hh, Hl.
Qed.

Lemma held_same s t c : (forall u m, held s m = Some u <-> call_lock (calls s u) = Some m) -> call_lock c = call_lock (calls s t) ->
  forall u m, held s m = Some u <-> call_lock (calling t c s u) = Some m.
Proof. intros Hh Hc u m. unfold calling. destruct (Nat.eqb_spec u t) as [->|]; [by rewrite Hc|]. apply Hh. Qed.

Lemma runs_elsewhere s t c u id lock cl : (forall id lock cl, c <> Runs id lock cl) -> calling t c s u = Runs id lock cl -> calls s u = Runs id lock cl.
Proof. unfold calling. destruct (u =? t); [intros H ->; by destruct (H id lock cl)|done]. Qed.

Lemma server_keeps made s s' : server_invariant made s -> server_step max_sandboxes process_is_alive on_disk s s' ->
  exists made', server_invariant made' s'.
Proof.
  intros (He & Hr & Hh) Hstep.
  destruct Hstep as [t id s Hc Hm|t m s Hc|t id s Hc|t id lock s Hc Hl|t id lock s Hc Hn|t id lock c s Hc Hcur|t id lock s Hc Hcur|t s].
  - exists made. split_and!; cbn; [done| |apply held_same; [done|by rewrite Hc]].
    intros u i l cl Hu. apply runs_elsewhere in Hu; [by apply (Hr u)|done].
  - exists (fun c => if c =? fresh s then experiment_id m else made c). split_and!; cbn; [| |apply held_same; [done|by rewrite Hc]].
    + intros id e. unfold reg_insert. rewrite lookup_insert_Some. intros [[<- <-]|[Hne Hl]]; cbn.
      * rewrite Nat.eqb_refl. split_and!; [done|lia|done].
      * destruct (He id e Hl) as (Hmade & Hlt & Hw). destruct (Nat.eqb_spec (client e) (fresh s)); [lia|]. split_and!; [done|lia|done].
    + intros u i l cl Hu. apply runs_elsewhere in Hu; [|done]. destruct (Hr u i l cl Hu) as (Hmade & Hlt & Hw).
      destruct (Nat.eqb_spec cl (fresh s)); [lia|]. split_and!; [done|lia|done].
  - exists made. split_and!; cbn; [|exact Hr|exact Hh]. intros i e. unfold reg_remove. intros [_ Hl]%lookup_delete_Some. by apply He.
  - exists made. split_and!; cbn; [done| |apply held_same; [done|by rewrite Hc]].
    intros u i l cl Hu. apply runs_elsewhere in Hu; [by apply (Hr u)|done].
  - exists made. split_and!; cbn; [done| |by apply held_taken].
    intros u i l cl Hu. apply runs_elsewhere in Hu; [by apply (Hr u)|done].
  - exists made. split_and!; cbn; [done| |apply held_same; [done|by rewrite Hc]].
    intros u i l cl. unfold calling. destruct (Nat.eqb_spec u t) as [->|]; [|by apply Hr]. intros [= <- <- <-].
    unfold client_if_current in Hcur. destruct (sandboxes s !! id) as [e|] eqn:Hl; [|done]. cbn in Hcur.
    destruct (Nat.eqb_spec (wp_lock e) lock) as [<-|]; [|done]. injection Hcur as <-. by apply He.
  - exists made. split_and!; cbn; [done| |].
    + intros u i l cl Hu. apply runs_elsewhere in Hu; [by apply (Hr u)|done].
    + pose proof (held_released s t Hh) as H. unfold released in H. by rewrite Hc in H.
  - exists made. split_and!; cbn; [done| |by apply held_released].
    intros u i l cl Hu. apply runs_elsewhere in Hu; [by apply (Hr u)|done].
Qed.

Lemma server_reaches_invariant s : reaches s -> exists made, server_invariant made s.
Proof.
  induction 1 as [|s s' _ [made IH] Hstep]; [exists (fun _ => ""); split_and!; done|]. by apply (server_keeps made s).
Qed.

(** WP runs on a sandbox exclude each other.  However calls interleave, two runs never
    talk to one client; the client a run talks to is that of the sandbox it was asked for,
    or of one that was deleted meanwhile, and never that of a sandbox created later under
    the same id; and a lock is held exactly by the call that is past the wait for it, so
    every call that ends gives its lock back. *)
Theorem wp_runs_exclusive s : reaches s ->
  (forall t u id id' lock lock' c, calls s t = Runs id lock c -> calls s u = Runs id' lock' c -> t = u)
  /\ (forall t id lock c, calls s t = Runs id lock c ->
        forall id' e, sandboxes s !! id' = Some e -> (client e = c <-> id' = id /\ wp_lock e = lock))
  /\ (forall t lock, held s lock = Some t <-> call_lock (calls s t) = Some lock).
Proof.
  intros Hs. destruct (server_reaches_invariant s Hs) as (made & He & Hr & Hh). split_and!; [| |exact Hh].
  - intros t u id id' lock lock' c Ht Hu. destruct (Hr _ _ _ _ Ht) as (_ & _ & ->), (Hr _ _ _ _ Hu) as (_ & _ & ->).
    assert (Ht' : held s (S c) = Some t) by (apply Hh; by rewrite Ht). assert (Hu' : held s (S c) = Some u) by (apply Hh; by rewrite Hu). congruence.
  - intros t id lock c Ht id' e Hl. destruct (Hr _ _ _ _ Ht) as (Hmade & _ & ->), (He _ _ Hl) as (Hmade' & _ & Hw). rewrite Hw. split.
    + intros Hc. split; [congruence|by rewrite Hc].
    + by intros [_ [= ->]].
Qed.
End server_theorems.

(** The names of a sandbox read back.  The name a sandbox is given is its id and its
    function; a run on names of one sandbox is on its functions, in order; and a delete
    finds the sandbox by that name or by its id alone. *)
Theorem sandbox_names_read id function functions : is_safe_path_segment id = true ->
  let name f := id +s+ ":" +s+ f in
  scope_for_function (name function) = ScopeSandbox id function
  /\ sandbox_targets (name function) (map name functions) = inl (id, functions)
  /\ delete_target (name function) = id /\ delete_target id = id.
Proof.
  intros Hid name. assert (Hscope : forall f, scope_for_function (name f) = ScopeSandbox id f) by (intros f; by apply scope_of_name).
  split_and!; [apply Hscope| |by unfold delete_target; rewrite Hscope|].
  - unfold sandbox_targets. rewrite Hscope. assert (target_names id (map name functions) = inl functions) as ->; [|done].
    induction functions as [|f fs IH]; [done|]. cbn [map target_names]. by rewrite Hscope, String.eqb_refl, IH.
  - unfold delete_target, scope_for_function. assert (split_once ":" id = None) as ->; [|done].
    assert (Hfree : free_of ":" id = true).
    { unfold is_safe_path_segment in Hid. apply andb_true_iff in Hid as [_ H]. revert H. apply sall_impl.
      intros c Hc. destruct (Ascii.eqb_spec c ":") as [->|]; done. }
    by apply (split_once_none ":").
Qed.

(** ** Two creations at once *)

Definition race_0 (id : string) : Server := mkServer ∅ (fun _ => None) (calling 1 (Creating id) empty_server) 0.
Definition race_1 (id id' : string) : Server := mkServer ∅ (fun _ => None) (calling 2 (Creating id') (race_0 id)) 0.
Definition race_2 (id id' : string) : Server :=
  mkServer (reg_insert (sandbox_at id) 0 1 ∅) (fun _ => None) (calling 1 NoCall (race_1 id id')) 2.
Definition race_3 (id id' : string) : Server :=
  mkServer (reg_insert (sandbox_at id') 2 3 (sandboxes (race_2 id id'))) (fun _ => None) (calling 2 NoCall (race_2 id id')) 4.

Lemma race_runs max id id' : (0 < max) ->
  server_reaches max (fun _ => false) [] (race_2 id id') /\ server_step max (fun _ => false) [] (race_2 id id') (race_3 id id').
Proof.
  intros Hm. assert (Hok : forall t s, sandboxes s = ∅ -> may_create max (fun _ => false) [] t s = true).
  { intros t s Hs. unfold may_create. rewrite Hs, map_size_empty. apply Nat.ltb_lt in Hm as ->. reflexivity. }
  split; [|exact (create_insert max (fun _ => false) [] 2 (sandbox_at id') (race_2 id id') eq_refl)].
  apply (server_steps _ _ _ (race_1 id id')); [|exact (create_insert max (fun _ => false) [] 1 (sandbox_at id) (race_1 id id') eq_refl)].
  apply (server_steps _ _ _ (race_0 id)); [|exact (create_check max (fun _ => false) [] 2 id' (race_0 id) eq_refl (Hok id' (race_0 id) eq_refl))].
  apply (server_steps _ _ _ empty_server); [constructor|exact (create_check max (fun _ => false) [] 1 id empty_server eq_refl (Hok id empty_server eq_refl))].
Qed.

(** Two creations at once pass each other's checks.  With room for one sandbox, two calls
    register two; and two calls for one id both succeed, the second in the place of the
    first, whose sandbox no call can reach or delete any more. *)
Theorem creations_race :
  (exists s, server_reaches 1 (fun _ => false) [] s /\ size (sandboxes s) = 2)
  /\ (exists s s', server_reaches 2 (fun _ => false) [] s /\ server_step 2 (fun _ => false) [] s s'
        /\ client <$> sandboxes s !! "a" = Some 0 /\ client <$> sandboxes s' !! "a" = Some 2
        /\ forall id e, sandboxes s' !! id = Some e -> client e <> 0).
Proof.
  split.
  - exists (race_3 "a" "b"). destruct (race_runs 1 "a" "b" ltac:(lia)) as [Hr Hs]. split; [by eapply server_steps|reflexivity].
  - exists (race_2 "a" "a"), (race_3 "a" "a"). destruct (race_runs 2 "a" "a" ltac:(lia)) as [Hr Hs]. split_and!; [done|done|reflexivity|reflexivity|].
    intros id e. cbn. unfold reg_insert. rewrite !lookup_insert_Some, lookup_empty.
    intros [[_ <-]|[Hne [[He _]|[_ [=]]]]]; [cbn; lia|by destruct Hne].
Qed.

(** ** Witnesses *)

Definition run_waits : Server := mkServer (sandboxes (race_2 "a" "b")) (fun _ => None) (calling 3 (WaitsLock "a" 1) (race_2 "a" "b")) 2.
Definition run_locked : Server := mkServer (sandboxes (race_2 "a" "b")) (holding 1 (Some 3) run_waits) (calling 3 (HasLock "a" 1) run_waits) 2.
Definition run_running : Server := mkServer (sandboxes (race_2 "a" "b")) (held run_locked) (calling 3 (Runs "a" 1 0) run_locked) 2.

Lemma wp_runs_exclusive_witness : calls run_running 3 = Runs "a" 1 0
  /\ forall t lock, held run_running lock = Some t <-> call_lock (calls run_running t) = Some lock.
Proof.
  assert (H : server_reaches 2 (fun _ => false) [] run_running).
  { apply (server_steps _ _ _ run_locked); [|exact (wp_current 2 (fun _ => false) [] 3 "a" 1 0 run_locked eq_refl eq_refl)].
    apply (server_steps _ _ _ run_waits); [|exact (wp_take 2 (fun _ => false) [] 3 "a" 1 run_waits eq_refl eq_refl)].
    apply (server_steps _ _ _ (race_2 "a" "b")); [|exact (wp_find 2 (fun _ => false) [] 3 "a" 1 (race_2 "a" "b") eq_refl eq_refl)].
    exact (proj1 (race_runs 2 "a" "b" ltac:(lia))). }
  split; [reflexivity|]. exact (proj2 (proj2 (wp_runs_exclusive 2 (fun _ => false) [] run_running H))).
Defined.

Lemma sandbox_names_read_witness : sandbox_targets "exp-1:f" ["exp-1:f"; "exp-1:A::g"] = inl ("exp-1", ["f"; "A::g"]).
Proof. exact (proj1 (proj2 (sandbox_names_read "exp-1" "f" ["f"; "A::g"] eq_refl))). Defined.
