(* ===== verification/Versions.v ===== *)
(** * Versions of Frama-C and usable helpers (src/src/mcp/selfcheck.rs and server.rs)

    What a version banner says, whether that version is supported, and whether a helper that
    ran is usable.  Lowercasing is the ASCII one: no letter outside it becomes one of the
    words looked for. *)

From S2P Require Import Prelude RustStr Json Codec Errors Paths WpFailure.
Local Open Scope nat_scope.

(** ** Banners *)

Definition MIN_FRAMA_C_VERSION : N * N := (32, 1)%N.
Definition min_frama_c_version : string := dec_N MIN_FRAMA_C_VERSION.1 +s+ "." +s+ dec_N MIN_FRAMA_C_VERSION.2.

Definition take_digits (s : string) : string := take_while is_ascii_digit s.

Definition depth_after_char (depth : nat) (c : ascii) : nat :=
  if Ascii.eqb c "(" then S depth else if Ascii.eqb c ")" then depth - 1 else depth.

(** [undotted] is the first number without a dot so far. *)
Fixpoint version_loop (depth : nat) (digits : string) (undotted : option N) (s : string) : option (N * N) :=
  match s with
  | "" => (fun major => (major, 0%N)) <$> (if is_empty digits then undotted else undotted <||> parse_u32 digits)
  | String ch s =>
    if (depth =? 0) && is_ascii_digit ch then version_loop depth (digits +s+ String ch "") undotted s
    else if is_empty digits then version_loop (depth_after_char depth ch) "" undotted s
    else if Ascii.eqb ch "." then (fun major => (major, unwrap_or (parse_u32 (take_digits s)) 0%N)) <$> parse_u32 digits
    else version_loop (depth_after_char depth ch) "" (undotted <||> parse_u32 digits) s
  end.
Definition frama_c_version (banner : string) : option (N * N) := version_loop 0 "" None banner.

(** Tuples compare by their first difference. *)
Definition version_ge (a b : N * N) : bool := (b.1 <? a.1)%N || ((a.1 =? b.1)%N && (b.2 <=? a.2)%N).

Definition unsupported_reason (probe : json) (version : option (N * N)) : json :=
  match version with
  | Some version =>
    if version_ge version MIN_FRAMA_C_VERSION then JNull
    else JStr ("Frama-C " +s+ dec_N version.1 +s+ "." +s+ dec_N version.2 +s+ " is below the " +s+ min_frama_c_version
      +s+ " this server targets: request names and payload shapes are unverified there, and the ast-utils plugin does not build against it")
  | None =>
    if get_str "status" probe =?s "ok"
    then JStr ("no version number in the -version banner: " +s+ unwrap_or (get_str "stdout" probe) "")
    else JStr "Frama-C did not report a version"
  end.

Definition with_version_verdict (probe : json) : json :=
  if negb (is_object probe) then probe
  else
    let version := get_str "stdout" probe ≫= frama_c_version in
    put "unsupported_reason" (unsupported_reason probe version)
      (put "supported" (JBool (is_some_and (fun v => version_ge v MIN_FRAMA_C_VERSION) version))
        (put "minor" (jopt jN (snd <$> version)) (put "major" (jopt jN (fst <$> version)) (put "minimum_version" (JStr min_frama_c_version) probe)))).

Definition frama_c_version_limitations (frama_c : json) : list string :=
  ("Frama-C " +s+ min_frama_c_version +s+ " or newer is required; run self_check after changing Frama-C versions.")
  :: if opt_eqb Bool.eqb (get_bool "supported" frama_c) (Some true) then []
     else ["The Frama-C in use is not supported: "
           +s+ unwrap_or (get_str "unsupported_reason" frama_c) "self_check reported no Frama-C version verdict" +s+ "."].

(** ** Helpers *)

Definition probe_lines (probe : json) : list string := collect_some (fun stream => get_str stream probe) ["stdout"; "stderr"] ≫= lines.

(** [None] when the helper printed what a working one prints. *)
Definition probe_failure (probe : json) (expected_output : string) : option string :=
  if existsb (contains expected_output) (probe_lines probe) then None
  else Some match find_first (fun line => contains "fatal error" (to_ascii_lowercase line)) (probe_lines probe) <||> get_str "error" probe with
            | Some reason => trim reason
            | None => "probe " +s+ unwrap_or (get_str "status" probe) "unknown" +s+ " without a " +s+ expected_output +s+ " line"
            end.


Definition require_known_e_acsl_tool (tool : string) : option ErrorData :=
  if existsb (String.eqb tool) E_ACSL_WRAPPERS then None
  else Some (mkErrorData InvalidParams (Verdicts.mkMcpError ("tool must be one of " +s+ join " or " E_ACSL_WRAPPERS +s+ "; it names the executable this server runs")
    (Some (JObj [("kind", JStr "UnknownEAcslTool"); ("tool", JStr tool); ("expected", JArr (map JStr E_ACSL_WRAPPERS))])))).

(** ** Theorems *)

Fixpoint depth_after (depth : nat) (s : string) : nat :=
  match s with "" => depth | String c s => depth_after (depth_after_char depth c) s end.

(** Whether the text ends in a digit. *)
Fixpoint ends_in_digit (s : string) : bool :=
  match s with "" => false | String c "" => is_ascii_digit c | String _ s => ends_in_digit s end.

(** Numbers without a dot are only banked. *)
Lemma version_loop_noise rest : forall s depth digits undotted, free_of "." s = true ->
  exists digits' undotted', version_loop depth digits undotted (s +s+ rest) = version_loop (depth_after depth s) digits' undotted' rest
    /\ (s = "" -> digits' = digits) /\ (s <> "" -> ends_in_digit s = false -> digits' = "").
Proof.
  induction s as [|c s IH]; intros depth digits undotted Hf; [by exists digits, undotted|].
  cbn in Hf. apply andb_true_iff in Hf as [Hc Hf]. apply negb_true_iff in Hc. cbn [String.append version_loop].
  destruct ((depth =? 0) && is_ascii_digit c) eqn:Hd.
  - apply andb_true_iff in Hd as [Hz Hd]. apply Nat.eqb_eq in Hz as ->.
    destruct (IH 0 (digits +s+ String c "") undotted Hf) as (d' & u' & He & H0 & H1). exists d', u'.
    assert (Hsame : depth_after_char 0 c = 0) by (unfold depth_after_char; destruct (Ascii.eqb_spec c "("); [by subst|by destruct (Ascii.eqb c ")")]).
    cbn [depth_after]. rewrite Hsame, He. split_and!; [done|done|]. intros _.
    destruct s as [|c' s']; [cbn; by rewrite Hd|]. intros Hn. by apply H1.
  - assert (Hrest : exists u, (if is_empty digits then version_loop (depth_after_char depth c) "" undotted (s +s+ rest)
        else if Ascii.eqb c "." then (fun major => (major, unwrap_or (parse_u32 (take_digits (s +s+ rest))) 0%N)) <$> parse_u32 digits
        else version_loop (depth_after_char depth c) "" (undotted <||> parse_u32 digits) (s +s+ rest))
        = version_loop (depth_after_char depth c) "" u (s +s+ rest)).
    { rewrite Hc. destruct (is_empty digits); by eexists. }
    destruct Hrest as [u ->]. destruct (IH (depth_after_char depth c) "" u Hf) as (d' & u' & He & H0 & H1). exists d', u'.
    split_and!; [exact He|done|]. intros _. destruct s as [|c' s']; [by rewrite H0|]. intros Hn. by apply H1.
Qed.

Lemma version_loop_digits rest undotted : forall ds digits, sall is_ascii_digit ds = true ->
  version_loop 0 digits undotted (ds +s+ rest) = version_loop 0 (digits +s+ ds) undotted rest.
Proof.
  induction ds as [|c ds IH]; intros digits Hd; [by rewrite app_str_nil_r|]. cbn in Hd. apply andb_true_iff in Hd as [Hc Hd].
  cbn [String.append version_loop]. rewrite Hc. cbn [Nat.eqb andb]. rewrite IH by done. by rewrite app_str_assoc.
Qed.

(** The version is the first dotted number of the banner.  Whatever stands before it, as
    long as that has no dot, closes what it opens and does not run into it, donates none of
    its numbers, so a warning of a plug-in ahead of the banner is not read as a version;
    and a version is called supported exactly when it is not below the floor, so a banner
    without one is not. *)
Theorem banner_version_exact noise major minor rest probe :
  free_of "." noise = true -> depth_after 0 noise = 0 -> ends_in_digit noise = false ->
  (major < 2 ^ 32)%N -> (minor < 2 ^ 32)%N -> match rest with String c _ => is_ascii_digit c = false | "" => True end ->
  get_str "stdout" probe = Some (noise +s+ dec_N major +s+ "." +s+ dec_N minor +s+ rest) ->
  frama_c_version (noise +s+ dec_N major +s+ "." +s+ dec_N minor +s+ rest) = Some (major, minor)
  /\ (get_bool "supported" (with_version_verdict probe) = Some true <-> (32 < major \/ (major = 32 /\ 1 <= minor))%N).
Proof.
  intros Hf Hdepth Hend Hmaj Hmin Hrest Hout.
  assert (Hv : frama_c_version (noise +s+ dec_N major +s+ "." +s+ dec_N minor +s+ rest) = Some (major, minor)).
  { destruct (version_loop_noise (dec_N major +s+ "." +s+ dec_N minor +s+ rest) noise 0 "" None Hf) as (d & u & He & H0 & H1).
    unfold frama_c_version. rewrite He, Hdepth. assert (d = "") as -> by (destruct noise; [by apply H0|by apply H1]).
    destruct (pretty_digits major) as (_ & Hd & c & s & Hs & _). destruct (pretty_digits minor) as (_ & Hdm & _).
    rewrite version_loop_digits by done. change ("" +s+ dec_N major) with (dec_N major). cbn [String.append version_loop].
    assert (is_empty (dec_N major) = false) as -> by (unfold dec_N; by rewrite Hs). cbn [Nat.eqb andb is_ascii_digit Ascii.eqb Bool.eqb].
    unfold take_digits. rewrite take_while_run, !dec_N_parse by done. done. }
  split; [done|]. unfold with_version_verdict. assert (Ho : is_object probe = true) by (by destruct probe).
  rewrite Ho. cbn [negb]. rewrite Hout. cbn [mbind option_bind]. rewrite Hv.
  unfold get_bool. rewrite get_put_ne by done. rewrite get_put_here by (by destruct probe). cbn.
  unfold version_ge, MIN_FRAMA_C_VERSION. cbn [fst snd]. split.
  - intros [= H]. apply orb_true_iff in H as [H|H]; [left; by apply N.ltb_lt|right]. apply andb_true_iff in H as [H1 H2].
    split; [by apply N.eqb_eq|by apply N.leb_le].
  - intros H. do 2 f_equal. apply orb_true_iff. destruct H as [H|[-> H]]; [left; by apply N.ltb_lt|right; by apply N.leb_le].
Qed.

Lemma banner_version_exact_witness :
  frama_c_version "[kernel] warning 2 things 31.7 (Arsenic)" = Some (31, 7)%N
   /\ get_bool "supported" (with_version_verdict (JObj [("status", JStr "ok"); ("stdout", JStr "[kernel] warning 2 things 31.7 (Arsenic)")])) <> Some true.
Proof.
  destruct (banner_version_exact "[kernel] warning 2 things " 31 7 " (Arsenic)"
    (JObj [("status", JStr "ok"); ("stdout", JStr "[kernel] warning 2 things 31.7 (Arsenic)")]) eq_refl eq_refl eq_refl eq_refl eq_refl eq_refl eq_refl) as [Hv Hs].
  split; [exact Hv|]. intros H. apply Hs in H. lia.
Defined.
