(* ===== verification/Probes.v ===== *)
(** * Which requests Frama-C knows (src/src/mcp/selfcheck.rs)

    The requests the server depends on, what each is probed with, and the probe itself: one
    connection, one request after the other, each waiting for the answer to its own
    identifier.  The network is the transport's script, as for the request client. *)

From S2P Require Import Prelude RustStr Json Codec Transport Client StableId Errors Proc EvaRun.
Local Open Scope nat_scope.

(** ** The requests *)

Inductive ProbeKind := GetProbe | SetProbe | ExecProbe.

Record RequiredRequest := mkRequired { rq_domain : string; rq_request : string; rq_kind : ProbeKind }.

(** The requests of the ast-utils plug-in, and whether each is probed. *)
Definition AST_UTILS_REQUESTS : list (string * ProbeKind * bool) :=
  [("plugins.ast-utils.getFunctionAst", GetProbe, true);
   ("plugins.ast-utils.getCilContext", GetProbe, true);
   ("plugins.ast-utils.getContractContext", GetProbe, true);
   ("plugins.ast-utils.getContractFrontier", GetProbe, true);
   ("plugins.ast-utils.getClauseOrigin", GetProbe, true);
   ("plugins.ast-utils.getWriteEffects", GetProbe, true);
   ("plugins.ast-utils.getLoopEffects", GetProbe, true);
   ("plugins.ast-utils.getLogicDeps", GetProbe, true);
   ("plugins.ast-utils.getRecursiveLogic", GetProbe, true);
   ("plugins.ast-utils.getRteObligations", GetProbe, true);
   ("plugins.ast-utils.getAcslValidation", GetProbe, true);
   ("plugins.ast-utils.getGoalCacheStats", GetProbe, true);
   ("plugins.ast-utils.execSetWpConfig", ExecProbe, true);
   ("plugins.ast-utils.execAddAnnotation", ExecProbe, true);
   ("plugins.ast-utils.execAddGlobalAcsl", ExecProbe, true);
   ("plugins.ast-utils.execRemoveGlobalAcsl", ExecProbe, false);
   ("plugins.ast-utils.execInsertGhostGlobal", ExecProbe, true);
   ("plugins.ast-utils.execInsertGhostFormal", ExecProbe, true);
   ("plugins.ast-utils.execInsertGhostLemmaFunction", ExecProbe, true);
   ("plugins.ast-utils.execInsertGhostLoop", ExecProbe, true);
   ("plugins.ast-utils.execRemoveAnnotations", ExecProbe, false);
   ("plugins.ast-utils.execRemoveAnnotationByLabel", ExecProbe, false);
   ("plugins.ast-utils.execInsertGhostStmt", ExecProbe, true);
   ("plugins.ast-utils.getVcDetails", GetProbe, true);
   ("plugins.ast-utils.getMarkerFunction", GetProbe, false);
   ("plugins.ast-utils.execCreateSandbox", ExecProbe, false);
   ("plugins.ast-utils.execDeleteSandbox", ExecProbe, false);
   ("plugins.ast-utils.extractFunctionWithDeps", GetProbe, true);
   ("plugins.ast-utils.execExtractAnnotations", GetProbe, true);
   ("plugins.ast-utils.printSource", GetProbe, true);
   ("plugins.ast-utils.dumpProject", GetProbe, false)].

Definition CORE_REQUESTS : list (string * string * ProbeKind) :=
  [("kernel", "kernel.ast.getFiles", GetProbe);
   ("kernel", "kernel.ast.fetchFunctions", GetProbe);
   ("kernel", "kernel.ast.fetchGlobals", GetProbe);
   ("kernel", "kernel.ast.reloadFunctions", GetProbe);
   ("kernel", "kernel.ast.reloadGlobals", GetProbe);
   ("kernel", "kernel.ast.getDeclarations", GetProbe);
   ("kernel", "kernel.ast.printDeclaration", GetProbe);
   ("kernel", "kernel.properties.fetchStatus", GetProbe);
   ("kernel", "kernel.properties.reloadStatus", GetProbe);
   ("kernel", "kernel.services.setLogs", SetProbe);
   ("kernel", "kernel.services.getLogs", GetProbe);
   ("callgraph", "plugins.callgraph.compute", ExecProbe);
   ("callgraph", "plugins.callgraph.getCallgraph", GetProbe);
   ("eva", "plugins.eva.analysis.compute", ExecProbe);
   ("eva", "plugins.eva.analysis.getComputationState", GetProbe);
   ("eva", "plugins.eva.stats.getProgramStats", GetProbe);
   ("eva", "plugins.eva.ast.getCallers", GetProbe);
   ("eva", "plugins.eva.values.getValues", GetProbe);
   ("wp", "plugins.wp.reloadGoals", GetProbe);
   ("wp", "plugins.wp.fetchGoals", GetProbe);
   ("wp", "plugins.wp.getScheduledTasks", GetProbe);
   ("wp", "plugins.wp.getProvers", GetProbe);
   ("wp", "plugins.wp.getTimeout", GetProbe);
   ("wp", "plugins.wp.setTimeout", SetProbe);
   ("wp", "plugins.wp.startProofs", ExecProbe)].

(** Called and not probed, each with the reason. *)
Definition UNPROBED_REQUESTS : list (string * string) :=
  [("plugins.eva.general.compute", "fallback for plugins.eva.analysis.compute");
   ("plugins.eva.general.getComputationState", "fallback for plugins.eva.analysis.getComputationState");
   ("plugins.eva.general.getProgramStats", "fallback for plugins.eva.stats.getProgramStats");
   ("plugins.eva.general.getCallers", "fallback for plugins.eva.ast.getCallers");
   ("plugins.wp.setProvers", "absent on 33.0; probing reports a missing request on a correct install");
   ("plugins.wp.setCacheMode", "SET; would change the cache mode every later proof runs under");
   ("plugins.wp.setProverState", "SET; would enable or disable a prover for the session");
   ("plugins.wp.cancelProofTasks", "SET; would cancel a live proof run");
   ("plugins.wp.generateRTEGuards", "EXEC; mutates the AST and needs a registered tag");
   ("kernel.ast.getMarkerAt", "GET, but its input is a marker nothing has registered at probe time")].

Definition PARAMETER_REQUESTS : list (string * string * ProbeKind) :=
  [("kernel", "kernel.parameters.setMain", SetProbe);
   ("kernel", "kernel.parameters.setLibEntry", SetProbe);
   ("kernel", "kernel.parameters.setEvaPrecision", SetProbe);
   ("kernel", "kernel.parameters.setEvaSlevel", SetProbe);
   ("kernel", "kernel.parameters.setEvaIlevel", SetProbe);
   ("kernel", "kernel.parameters.setWarnUnsignedOverflow", SetProbe);
   ("kernel", "kernel.parameters.setWarnUnsignedDowncast", SetProbe);
   ("kernel", "kernel.parameters.setWarnInvalidPointer", SetProbe);
   ("kernel", "kernel.ast.compute", ExecProbe);
   ("kernel", "kernel.ast.setFiles", SetProbe)].

Definition spec (s : string * string * ProbeKind) : RequiredRequest := mkRequired s.1.1 s.1.2 s.2.
Definition ast_utils_spec (s : string * ProbeKind * bool) : RequiredRequest := mkRequired "ast-utils" s.1.1 s.1.2.

Definition ast_utils_registered_requests : list RequiredRequest := map ast_utils_spec AST_UTILS_REQUESTS.
Definition required_requests : list RequiredRequest := map spec CORE_REQUESTS ++ map ast_utils_spec (bfilter snd AST_UTILS_REQUESTS).
Definition parameter_requests : list RequiredRequest :=
  map (fun e => mkRequired "kernel" e.2 GetProbe) EVA_READBACK_REQUESTS ++ map spec PARAMETER_REQUESTS.

Definition known_request_names : list string :=
  map (fun s => s.1.2) CORE_REQUESTS ++ map (fun s => s.1.2) PARAMETER_REQUESTS ++ map snd EVA_READBACK_REQUESTS
  ++ map (fun s => s.1.1) AST_UTILS_REQUESTS ++ map fst UNPROBED_REQUESTS.

(** ** What each is probed with *)

Definition assigns_nothing : json := JObj [("function", JStr "main"); ("kind", JStr "spec"); ("acsl", JStr "assigns \nothing;")].
Definition probe_predicate : json := JObj [("acsl", JStr "predicate self_check_predicate(integer x) = x >= 0;")].

(** The arms of the match; the first with the request is taken. *)
Definition probe_payloads : list (list string * json) :=
  [(["kernel.ast.reloadFunctions"; "kernel.ast.reloadGlobals"; "kernel.ast.getDeclarations"; "kernel.properties.reloadStatus"; "kernel.services.getLogs";
     "plugins.callgraph.getCallgraph"; "plugins.eva.analysis.getComputationState"; "plugins.eva.stats.getProgramStats"; "plugins.wp.reloadGoals";
     "plugins.wp.getScheduledTasks"; "plugins.wp.getProvers"], JNull);
   (["kernel.ast.fetchFunctions"; "kernel.ast.fetchGlobals"; "kernel.properties.fetchStatus"; "plugins.wp.fetchGoals"], jN 1);
   (["kernel.ast.printDeclaration"], JStr "main");
   (["kernel.ast.setFiles"], JArr []);
   (["kernel.parameters.setMain"], JStr "main");
   (["kernel.parameters.setLibEntry"], JBool false);
   (["kernel.parameters.setEvaPrecision"], jN 0);
   (["kernel.parameters.setEvaSlevel"], jN 0);
   (["plugins.ast-utils.getGoalCacheStats"], JObj [("goals", JArr [])]);
   (["kernel.parameters.setEvaIlevel"], jN 2);
   (["kernel.parameters.setWarnUnsignedOverflow"; "kernel.parameters.setWarnUnsignedDowncast"], JBool true);
   (["kernel.parameters.setWarnInvalidPointer"], JBool false);
   (["kernel.services.setLogs"], JBool true);
   (["kernel.ast.compute"; "plugins.callgraph.compute"; "plugins.eva.analysis.compute"], JNull);
   (["plugins.eva.ast.getCallers"], JStr "main");
   (["plugins.eva.values.getValues"], JObj [("target", JStr "#s1")]);
   (["plugins.wp.setTimeout"], jN 10);
   (["plugins.wp.startProofs"], JStr "main");
   (["plugins.ast-utils.getFunctionAst"], JStr "main");
   (["plugins.ast-utils.getCilContext"], JStr "main");
   (["plugins.ast-utils.getContractContext"], JStr "main");
   (["plugins.ast-utils.getClauseOrigin"], JStr "main");
   (["plugins.ast-utils.getWriteEffects"], JStr "main");
   (["plugins.ast-utils.getLoopEffects"], JStr "main");
   (["plugins.ast-utils.getLogicDeps"], JStr "main");
   (["plugins.ast-utils.getRteObligations"], JStr "main");
   (["plugins.ast-utils.getAcslValidation"], assigns_nothing);
   (["plugins.ast-utils.execSetWpConfig"], JObj [("model", JStr "Typed+nocast")]);
   (["plugins.ast-utils.execAddAnnotation"], assigns_nothing);
   (["plugins.ast-utils.execAddGlobalAcsl"], probe_predicate);
   (["plugins.ast-utils.execRemoveGlobalAcsl"], probe_predicate);
   (["plugins.ast-utils.execInsertGhostGlobal"], JObj [("name", JStr "self_check_ghost_global"); ("type", JStr "int"); ("expr", JStr "0")]);
   (["plugins.ast-utils.execInsertGhostFormal"],
      JObj [("function", JStr "main"); ("name", JStr "self_check_ghost_formal"); ("type", JStr "int"); ("where", JStr "$")]);
   (["plugins.ast-utils.execInsertGhostLemmaFunction"],
      JObj [("name", JStr "self_check_ghost_lemma"); ("param", JStr "n"); ("param_type", JStr "int"); ("requires", JStr "n >= 0");
            ("decreases", JStr "n"); ("assigns", JStr "\nothing"); ("ensures", JStr "n >= 0")]);
   (["plugins.ast-utils.execInsertGhostLoop"],
      JObj [("function", JStr "main"); ("stmt", jN 1); ("name", JStr "self_check_ghost_loop"); ("type", JStr "unsigned"); ("stop", JStr "1");
            ("invariant", JStr "0 <= self_check_ghost_loop <= 1"); ("assigns", JStr "self_check_ghost_loop"); ("variant", JStr "1 - self_check_ghost_loop")]);
   (["plugins.ast-utils.execRemoveAnnotations"], JStr "main");
   (["plugins.ast-utils.execRemoveAnnotationByLabel"], JObj [("function", JStr "main"); ("label", JStr "self_check_missing_label")]);
   (["plugins.ast-utils.execInsertGhostStmt"],
      JObj [("function", JStr "main"); ("stmt", jN 1); ("op", JStr "decl"); ("name", JStr "self_check_ghost"); ("type", JStr "int"); ("expr", JStr "0")]);
   (["plugins.ast-utils.getVcDetails"], JObj [("function", JStr "main")]);
   (["plugins.ast-utils.execCreateSandbox"], JStr "main");
   (["plugins.ast-utils.execDeleteSandbox"], JStr "__sandbox__missing_00000000");
   (["plugins.ast-utils.extractFunctionWithDeps"], JStr "main");
   (["plugins.ast-utils.execExtractAnnotations"], JStr "main");
   (["plugins.ast-utils.printSource"], JStr "");
   (["plugins.ast-utils.dumpProject"], JStr "")].
Definition probe_payload (request : string) : json :=
  unwrap_or (snd <$> find_first (fun arm => existsb (String.eqb request) arm.1) probe_payloads) JNull.

(** ** What a probe reports *)

Definition request_kind_name (kind : ProbeKind) : string := match kind with GetProbe => "GET" | SetProbe => "SET" | ExecProbe => "EXEC" end.

Definition request_exposure (request : string) : option (string * string) :=
  if request =s "plugins.ast-utils.dumpProject"
  then Some ("cli_only", "Full F-CIL JSON export is available through ast-utils command-line export, not a user-facing MCP tool.")
  else None.

Definition with_request_exposure (payload : json) (r : RequiredRequest) : json :=
  match request_exposure (rq_request r) with
  | Some (exposure, rationale) => put "exposure_rationale" (JStr rationale) (put "mcp_exposure" (JStr exposure) payload)
  | None => payload
  end.

Definition request_identity (r : RequiredRequest) : json :=
  JObj [("domain", JStr (rq_domain r)); ("request", JStr (rq_request r)); ("kind", JStr (request_kind_name (rq_kind r)))].

Definition UNKNOWN_REQUEST : list string := ["unknown request"; "request not found"; "unbound request"].

Section probes.
Variable to_string : json -> string.
Variable from_str : string -> option json.
Variable display_error : FramaCError -> string.
Variable timeout_debug : string.

(** A server that knows the request and dislikes its input has the request. *)
Definition probe_status (r : result json) : string * option string :=
  match r with
  | Ok _ => ("present", None)
  | Err (Rejected _) => ("missing", Some "request rejected")
  | Err (ServerError _ msg) => (if any_contains UNKNOWN_REQUEST (to_ascii_lowercase msg) then "missing" else "present", Some msg)
  | Err e => ("error", Some (display_error e))
  end.
Definition request_probe_status (req : RequiredRequest) (r : result json) : json :=
  let '(status, error) := probe_status r in
  let payload := put "status" (JStr status) (request_identity req) in
  with_request_exposure (match error with Some error => put "error" (JStr error) payload | None => payload end) req.

Definition not_probed_status (req : RequiredRequest) (reason : string) : json :=
  with_request_exposure (put "reason" (JStr reason) (put "status" (JStr "not_probed") (request_identity req))) req.
Definition not_probed_requests (requests : list RequiredRequest) (reason : string) : list json := map (fun req => not_probed_status req reason) requests.
Definition not_probed_reports (reason : string) : list json * list json :=
  (not_probed_requests (required_requests ++ parameter_requests) reason, not_probed_requests ast_utils_registered_requests reason).

(** ** The probe *)

Definition accepted : json := JObj [("accepted", JBool true)].
Definition on_timeout (accept_on_timeout : bool) (timeout : N) : M json := if accept_on_timeout then ret accepted else throw (Timeout timeout).

Fixpoint probe_wait_loop (fuel : nat) (rid : string) (timeout deadline : N) (accept_on_timeout : bool) : M json :=
  match fuel with
  | O => out_of_fuel
  | S fuel =>
    at_ <- now ;;
    let remaining := (deadline - at_)%N in
    if (remaining =? 0)%N then on_timeout accept_on_timeout timeout
    else
      resp <- recv_response from_str remaining ;;
      match resp with
      | None => on_timeout accept_on_timeout timeout
      | Some (RData id v) => if id =s rid then ret v else probe_wait_loop fuel rid timeout deadline accept_on_timeout
      | Some (RError id msg) => if id =s rid then throw (ServerError id msg) else probe_wait_loop fuel rid timeout deadline accept_on_timeout
      | Some (RRejected id) => if id =s rid then throw (Rejected id) else probe_wait_loop fuel rid timeout deadline accept_on_timeout
      | Some (RSignal _) | Some RCmdLineOn | Some RCmdLineOff | Some (RKilled _) => probe_wait_loop fuel rid timeout deadline accept_on_timeout
      end
  end.
Definition wait_for_probe_response (rid : string) (timeout : N) (accept_on_timeout : bool) : M json := fun w =>
  probe_wait_loop (wait_fuel w) rid timeout (net_now (w_net w) + timeout)%N accept_on_timeout w.

Definition probe_command (req : RequiredRequest) (id : string) : FramaCCommand :=
  let payload := probe_payload (rq_request req) in
  match rq_kind req with
  | GetProbe => CGet id (rq_request req) payload
  | SetProbe => CSet id (rq_request req) payload
  | ExecProbe => CExec id (rq_request req) payload
  end.
Definition probe_timeout (kind : ProbeKind) : N := match kind with GetProbe => 5000 | _ => 500 end.
Definition accepts_timeout (kind : ProbeKind) : bool := match kind with GetProbe => false | _ => true end.

Definition probe_one (id : string) (req : RequiredRequest) : M json :=
  r <- attempt (send_command to_string (probe_command req id) ;;;
                wait_for_probe_response id (probe_timeout (rq_kind req)) (accepts_timeout (rq_kind req))) ;;
  ret (request_probe_status req r).

(** Each result is pushed behind those before it, and its number is in the identifier. *)
Definition probe_id (id_prefix : string) (n : nat) : string := id_prefix +s+ "." +s+ dec n.
Fixpoint probe_loop (id_prefix : string) (results : list json) (requests : list RequiredRequest) : M (list json) :=
  match requests with
  | [] => ret results
  | req :: requests =>
    match request_exposure (rq_request req) with
    | Some _ => probe_loop id_prefix (results ++ [not_probed_status req "not a public MCP dependency"]) requests
    | None =>
      result <- probe_one (probe_id id_prefix (length results)) req ;;
      probe_loop id_prefix (results ++ [result]) requests
    end
  end.

(** What one attempt to connect answers, and the clock then. *)
Fixpoint probe_connect (socket_path : string) (deadline : N) (turns : list (option FramaCError * N)) : option (option string) :=
  match turns with
  | [] => None
  | (None, _) :: _ => Some None
  | (Some e, now) :: turns =>
    if Proc.socket_not_listening_yet e then
      if (deadline <=? now)%N then Some (Some (Proc.never_listened display_error timeout_debug socket_path e))
      else probe_connect socket_path deadline turns
    else Some (Some ("probe connection failed: " +s+ display_error e))
  end.

(** The entries and the connection after them; [None] is a connection that is still tried
    when the script of attempts ends. *)
Definition probe_requests (socket_path : string) (deadline : N) (turns : list (option FramaCError * N)) (requests : list RequiredRequest)
    (id_prefix : string) (w : World) : option (list json * World) :=
  match probe_connect socket_path deadline turns with
  | None => None
  | Some (Some reason) => Some (not_probed_requests requests reason, w)
  | Some None => match probe_loop id_prefix [] requests w with Some (Ok results, w') => Some (results, w') | _ => None end
  end.
End probes.

(** ** Theorems *)

(** What an entry says of its request. *)
Definition reported (req : RequiredRequest) (entry : json) (status : string) : Prop :=
  entry .? "domain" = Some (JStr (rq_domain req)) /\ entry .? "request" = Some (JStr (rq_request req))
  /\ entry .? "kind" = Some (JStr (request_kind_name (rq_kind req))) /\ entry .? "status" = Some (JStr status).

Lemma exposed_reports payload req status : is_object payload = true -> reported req payload status -> reported req (with_request_exposure payload req) status.
Proof.
  intros Ho (H1 & H2 & H3 & H4). unfold with_request_exposure. destruct (request_exposure _) as [[e r]|]; [|done].
  unfold reported. by rewrite !get_put_ne by done.
Qed.

Lemma not_probed_reported req reason : reported req (not_probed_status req reason) "not_probed".
Proof. apply exposed_reports; done. Qed.

Lemma probe_reported display_error req r : reported req (request_probe_status display_error req r) (probe_status display_error r).1.
Proof.
  unfold request_probe_status. destruct (probe_status display_error r) as [status [error|]]; apply exposed_reports; done.
Qed.

Lemma probe_status_range display_error r : (probe_status display_error r).1 ∈ ["present"; "missing"; "error"].
Proof. rewrite !elem_of_cons. destruct r as [|[]]; cbn [probe_status fst]; try destruct (any_contains _ _); by auto. Qed.

Lemma exposure_cases name : request_exposure name = None <-> name <> "plugins.ast-utils.dumpProject".
Proof. unfold request_exposure. by destruct (String.eqb_spec name "plugins.ast-utils.dumpProject"). Qed.

Section probe_theorems.
Context (to_string : json -> string) (from_str : string -> option json) (display_error : FramaCError -> string) (timeout_debug : string).

(** The wait of a probe is that of a request, but for a request that is not heard of. *)
Definition relaxed (accept_on_timeout : bool) (o : option (result json * World)) : option (result json * World) :=
  match o with Some (Err (Timeout t), w) => Some ((if accept_on_timeout then Ok accepted else Err (Timeout t)), w) | o => o end.

Lemma recv_loop_not_timeout timeout reads at_ t ms t' reads' at' : recv_loop timeout reads at_ t <> (Err (Timeout ms), t', reads', at').
Proof.
  revert at_ t. induction reads as [|[wait ev] reads IH]; intros at_ t; cbn [recv_loop].
  - destruct (decode_frame (read_buf t)) as [[[]|]|e] eqn:E; try done. intros [= -> _ _ _].
    unfold decode_frame in E. repeat (case_match; simplify_eq/=; try done).
  - destruct (decode_frame (read_buf t)) as [[[]|]|e] eqn:E; try done.
    + destruct (_ <? _)%N; [done|]. destruct ev as [[|c s]|e']; [done|apply IH|done].
    + intros [= -> _ _ _]. unfold decode_frame in E. repeat (case_match; simplify_eq/=; try done).
Qed.

Lemma recv_response_not_timeout d w ms w' : recv_response from_str d w <> Some (Err (Timeout ms), w').
Proof.
  unfold recv_response, bind, recv_text, recv_frame. destruct (Transport.poisoned (w_transport w)); [done|].
  destruct (recv_loop _ _ _ _) as [[[r0 t0] reads0] at0] eqn:E. destruct r0 as [[p|]|e]; [|done|].
  - destruct (decode_response from_str p) as [|e] eqn:Ep; [done|]. intros [= -> _]. unfold decode_response in Ep. repeat (case_match; simplify_eq/=; try done).
  - intros [= -> _]. by apply recv_loop_not_timeout in E.
Qed.

Lemma probe_wait_relaxed rid timeout deadline accept : forall fuel w,
  probe_wait_loop from_str fuel rid timeout deadline accept w = relaxed accept (wait_loop from_str fuel rid timeout deadline w).
Proof.
  induction fuel as [|fuel IH]; intros w; [done|]. cbn [probe_wait_loop wait_loop]. unfold bind at 1 3, now.
  destruct (_ =? 0)%N; [by destruct accept|]. unfold bind.
  destruct (recv_response _ _ w) as [[[[resp|]|e] w1]|] eqn:E; [|by destruct accept| |done].
  - destruct resp; try apply IH; by destruct (_ =s _); [|apply IH].
  - cbn. destruct e; try done. by apply recv_response_not_timeout in E.
Qed.

Lemma probe_wait_ends rid timeout accept w : wait_for_probe_response from_str rid timeout accept w <> None.
Proof.
  unfold wait_for_probe_response. rewrite probe_wait_relaxed.
  pose proof (wait_loop_ends from_str (wait_fuel w) rid timeout (net_now (w_net w) + timeout) w) as H.
  unfold wait_fuel in *. fold (pending_bytes w) in *. specialize (H ltac:(lia)).
  destruct (wait_loop _ _ _ _ _ _) as [[[|[]] ]|]; done.
Qed.

Lemma relaxed_answer id timeout accept rs w :
  relaxed accept (Some (unwrap_or (find_map (get_answer id) rs) (Err (Timeout timeout)), w))
  = Some (unwrap_or (find_map (get_answer id) rs) (if accept then Ok accepted else Err (Timeout timeout)), w).
Proof.
  unfold relaxed. destruct (find_map (get_answer id) rs) as [r|] eqn:Ef; cbn [unwrap_or]; [|by destruct accept].
  destruct r as [|e]; [done|]. destruct e; try done. exfalso. revert Ef. clear. induction rs as [|x rs IH]; [done|]. cbn [find_map].
  destruct (get_answer _ x) as [r|] eqn:Eg; [|exact IH]. intros [= ->]. destruct x; cbn in Eg; try done; by destruct (_ =s _).
Qed.

Lemma probe_error req r : (request_probe_status display_error req r) .? "error" = JStr <$> (probe_status display_error r).2.
Proof.
  unfold request_probe_status. destruct (probe_status display_error r) as [status [error|]]; unfold with_request_exposure;
    destruct (request_exposure _) as [[e x]|]; rewrite ?get_put_ne by done; done.
Qed.

(** ** Lemmas: what is on the wire *)

(** What a probe sends: its own identifier, the request, the payload, under its verb. *)
Definition command (prefix : string) (n : nat) (req : RequiredRequest) : FramaCCommand :=
  let id := prefix +s+ "." +s+ dec n in
  let data := probe_payload (rq_request req) in
  match rq_kind req with
  | GetProbe => CGet id (rq_request req) data
  | SetProbe => CSet id (rq_request req) data
  | ExecProbe => CExec id (rq_request req) data
  end.
Definition command_frame (prefix : string) (n : nat) (req : RequiredRequest) : string :=
  encode_frame (encode_command to_string (command prefix n req)).

(** The bytes of one request of a series: none for the export no tool uses, a whole frame,
    or, when the connection broke, a part of it and an entry that says so. *)
Inductive wired (prefix : string) (broken : bool) (n : nat) (req : RequiredRequest) (entry : json) : string -> Prop :=
| not_sent : rq_request req = "plugins.ast-utils.dumpProject" -> get_str "status" entry = Some "not_probed" -> wired prefix broken n req entry ""
| sent_whole : rq_request req <> "plugins.ast-utils.dumpProject" -> wired prefix broken n req entry (command_frame prefix n req)
| sent_in_part k : broken = true -> get_str "status" entry = Some "error" -> wired prefix broken n req entry (take_str k (command_frame prefix n req)).

(** The bytes of a series, one request after the other. *)
Inductive series (prefix : string) (broken : bool) : nat -> list RequiredRequest -> list json -> string -> Prop :=
| series_end n : series prefix broken n [] [] ""
| series_next n req reqs entry entries bytes rest : wired prefix broken n req entry bytes -> series prefix broken (S n) reqs entries rest ->
    series prefix broken n (req :: reqs) (entry :: entries) (bytes +s+ rest).

Definition wire (w : World) : string := sent (w_transport w).
Definition broken (w : World) : bool := Transport.poisoned (w_transport w).

(** Receiving leaves the wire as it is, and a broken connection broken. *)
Definition only_reads {A} (m : M A) : Prop :=
  forall w r w', m w = Some (r, w') -> wire w' = wire w /\ (broken w = true -> broken w' = true).

Lemma recv_response_only_reads d : only_reads (recv_response from_str d).
Proof.
  intros w r w'. unfold recv_response, bind, recv_text, wire, broken. destruct (recv_frame d (w_transport w) (w_net w)) as [[r0 t0] n0] eqn:E.
  apply recv_frame_keeps in E as (Hs & He & Ho).
  assert (Hb : Transport.poisoned (w_transport w) = true -> Transport.poisoned t0 = true).
  { intros Hp. destruct r0 as [o|e]; [destruct (Ho o eq_refl); congruence|by apply (He e)]. }
  destruct r0 as [[p|]|e]; [destruct (decode_response from_str p)| |]; by intros [= _ <-].
Qed.

Lemma wait_only_reads rid timeout deadline : forall fuel, only_reads (wait_loop from_str fuel rid timeout deadline).
Proof.
  induction fuel as [|fuel IH]; intros w r w'; [done|]. cbn [wait_loop]. unfold bind at 1, now. destruct (_ =? 0)%N; [by intros [= _ <-]|].
  unfold bind. destruct (recv_response _ _ w) as [[o w1]|] eqn:E; [|done]. apply recv_response_only_reads in E as [Hw Hb].
  destruct o as [[resp|]|e]; [| |by intros [= _ <-]]; [|by intros [= _ <-]].
  assert (Hgo : wait_loop from_str fuel rid timeout deadline w1 = Some (r, w') -> wire w' = wire w /\ (broken w = true -> broken w' = true)).
  { intros H. apply IH in H as [H1 H2]. split; [congruence|auto]. }
  destruct resp; try done; destruct (_ =s _); try done; by intros [= _ <-].
Qed.

Lemma probe_wait_only_reads rid timeout accept : only_reads (wait_for_probe_response from_str rid timeout accept).
Proof.
  intros w r w'. unfold wait_for_probe_response. rewrite probe_wait_relaxed.
  destruct (wait_loop _ _ _ _ _ w) as [[r1 w1]|] eqn:E; [|done]. apply wait_only_reads in E.
  destruct r1 as [v|[]]; intros [= _ <-]; exact E.
Qed.

Lemma command_sent prefix n req : probe_command req (probe_id prefix n) = command prefix n req.
Proof. done. Qed.

Lemma probe_one_ends prefix n req w : request_exposure (rq_request req) = None ->
  exists r w' bytes, probe_one to_string from_str display_error (probe_id prefix n) req w = Some (Ok (request_probe_status display_error req r), w')
    /\ wire w' = wire w +s+ bytes /\ (broken w = true -> broken w' = true)
    /\ wired prefix (broken w') n req (request_probe_status display_error req r) bytes.
Proof.
  intros Hx%exposure_cases. unfold probe_one, attempt, bind. rewrite command_sent. unfold send_command, send_frame.
  assert (Herr : forall e, (forall id msg, e <> ServerError id msg) -> (forall id, e <> Rejected id) ->
    get_str "status" (request_probe_status display_error req (Err e)) = Some "error").
  { intros e H1 H2. destruct (probe_reported display_error req (Err e)) as (_ & _ & _ & Hs). unfold get_str. rewrite Hs.
    destruct e; try done; exfalso; [by eapply H1|by eapply H2]. }
  assert (Hdone : forall w1, wire w1 = wire w +s+ command_frame prefix n req -> broken w1 = false -> broken w = false -> exists r w' bytes,
    wait_for_probe_response from_str (probe_id prefix n) (probe_timeout (rq_kind req)) (accepts_timeout (rq_kind req)) w1 = Some (r, w') /\ wire w' = wire w +s+ bytes /\ (broken w = true -> broken w' = true)
    /\ wired prefix (broken w') n req (request_probe_status display_error req r) bytes).
  { intros w1 Hw1 Hb1 Hb. destruct (wait_for_probe_response _ _ _ _ w1) as [[r w2]|] eqn:E; [|by apply probe_wait_ends in E].
    apply probe_wait_only_reads in E as [He _]. exists r, w2, (command_frame prefix n req).
    split_and!; [done|by rewrite He|by rewrite Hb|by constructor]. }
  unfold broken in *. destruct (Transport.poisoned (w_transport w)) eqn:Hp.
  - exists (Err poisoned_transport). eexists _, "". split; [done|]. split_and!; [by rewrite app_str_nil_r|done|].
    apply (sent_in_part _ _ _ _ _ 0); [done|by apply Herr].
  - set (frame := encode_frame _). destruct (net_writes (w_net w)) as [|[|k e|k] ws].
    1, 2: edestruct Hdone as (r & w' & bytes & Hr & Hrest); [..|rewrite Hr; exists r, w', bytes; by split]; done.
    + exists (Err (Io e)). eexists _, (take_str k frame). split; [done|]. split_and!; [done|done|]. apply sent_in_part; [done|by apply Herr].
    + exists (Err (Timeout WRITE_TIMEOUT)). eexists _, (take_str k frame). split; [done|]. split_and!; [done|done|]. apply sent_in_part; [done|by apply Herr].
Qed.

Lemma wired_broken prefix b n req entry bytes : wired prefix b n req entry bytes -> forall b', (b = true -> b' = true) -> wired prefix b' n req entry bytes.
Proof. intros [] b' Hb; [by apply not_sent|by apply sent_whole|apply sent_in_part; auto]. Qed.

(** What the entries of a series say. *)
Definition accounted (req : RequiredRequest) (entry : json) : Prop :=
  exists status, reported req entry status /\ status ∈ ["present"; "missing"; "error"; "not_probed"]
    /\ (status = "not_probed" <-> rq_request req = "plugins.ast-utils.dumpProject").

Lemma probe_loop_reports prefix : forall reqs results w, exists entries w' bytes,
  probe_loop to_string from_str display_error prefix results reqs w = Some (Ok (results ++ entries), w')
  /\ Forall2 accounted reqs entries
  /\ wire w' = wire w +s+ bytes /\ (broken w = true -> broken w' = true) /\ series prefix (broken w') (length results) reqs entries bytes.
Proof.
  induction reqs as [|req reqs IH]; intros results w.
  { exists [], w, "". rewrite app_nil_r, app_str_nil_r. split_and!; constructor || done. }
  cbn [probe_loop].
  assert (Hnext : forall e w1 bytes, wire w1 = wire w +s+ bytes -> (broken w = true -> broken w1 = true) ->
    accounted req e -> wired prefix (broken w1) (length results) req e bytes ->
    exists entries w' bytes', probe_loop to_string from_str display_error prefix (results ++ [e]) reqs w1 = Some (Ok (results ++ entries), w')
      /\ Forall2 accounted (req :: reqs) entries
      /\ wire w' = wire w +s+ bytes' /\ (broken w = true -> broken w' = true) /\ series prefix (broken w') (length results) (req :: reqs) entries bytes').
  { intros e w1 bytes Hw Hb He Hs. destruct (IH (results ++ [e]) w1) as (entries & w' & bytes' & -> & Hall & Hw' & Hb' & Hser).
    exists (e :: entries), w', (bytes +s+ bytes'). rewrite <- app_assoc. split_and!; [done|by constructor| |auto|].
    - by rewrite Hw', Hw, app_str_assoc.
    - constructor; [by apply (wired_broken prefix (broken w1))|]. by rewrite length_app, Nat.add_1_r in Hser. }
  destruct (request_exposure (rq_request req)) as [e|] eqn:He.
  - assert (Hn : rq_request req = "plugins.ast-utils.dumpProject").
    { destruct (String.eqb_spec (rq_request req) "plugins.ast-utils.dumpProject") as [|Hn]; [done|]. apply exposure_cases in Hn. congruence. }
    destruct (not_probed_reported req "not a public MCP dependency") as (H1 & H2 & H3 & H4).
    apply (Hnext _ w ""); [by rewrite app_str_nil_r|done| |].
    + exists "not_probed". split_and!; [done|repeat constructor|done].
    + apply not_sent; [done|]. unfold get_str. by rewrite H4.
  - destruct (probe_one_ends prefix (length results) req w He) as (r & w1 & bytes & Hone & Hw & Hb & Hs). unfold bind. rewrite Hone.
    apply (Hnext _ w1 bytes); [done..| |done].
    pose proof (probe_status_range display_error r) as Hr. exists (probe_status display_error r).1.
    split_and!; [apply probe_reported|rewrite !elem_of_cons in *; tauto|]. split; intros Hd.
    + rewrite Hd in Hr. by repeat (apply elem_of_cons in Hr as [?|Hr]; [done|]); apply elem_of_nil in Hr.
    + by apply exposure_cases in He.
Qed.

(** Connected or not, the entries are those of the requests. *)
Lemma probe_requests_reports socket deadline turns reqs prefix w entries w' :
  probe_requests to_string from_str display_error timeout_debug socket deadline turns reqs prefix w = Some (entries, w') ->
  Forall2 (fun req entry => exists status, reported req entry status) reqs entries.
Proof.
  unfold probe_requests. destruct (probe_connect _ _ _ _ _) as [[reason|]|]; [| |done].
  - intros [= <- _]. unfold not_probed_requests. apply Forall2_fmap_r, Forall_Forall2_diag, Forall_true. intros req.
    exists "not_probed". apply not_probed_reported.
  - destruct (probe_loop_reports prefix reqs [] w) as (es & w1 & bytes & -> & Hall & _). intros [= <- _]. eapply Forall2_impl; [exact Hall|].
    intros req entry (status & Hr & _). by exists status.
Qed.

(** ** Lemmas: what settles a probe *)

(** The messages in the order they arrive, the status and the error they settle a probe
    with, and the messages left unread. *)
Inductive settled (kind : ProbeKind) (id : string) : list FramaCResponse -> string -> option string -> list FramaCResponse -> Prop :=
| on_data v rest : settled kind id (RData id v :: rest) "present" None rest
| on_rejection rest : settled kind id (RRejected id :: rest) "missing" (Some "request rejected") rest
| on_unknown msg needle rest : needle ∈ ["unknown request"; "request not found"; "unbound request"] ->
    contains needle (to_ascii_lowercase msg) = true -> settled kind id (RError id msg :: rest) "missing" (Some msg) rest
| on_other_error msg rest :
    (forall needle, needle ∈ ["unknown request"; "request not found"; "unbound request"] -> contains needle (to_ascii_lowercase msg) = false) ->
    settled kind id (RError id msg :: rest) "present" (Some msg) rest
| on_another r rs status error rest :
    match r with RData other _ | RError other _ | RRejected other => other <> id | _ => True end ->
    settled kind id rs status error rest -> settled kind id (r :: rs) status error rest
| silent_get : kind = GetProbe -> settled kind id [] "error" (Some (display_error (Timeout 5000))) []
| silent_other : kind <> GetProbe -> settled kind id [] "present" None [].

Lemma answer_settles kind id rs :
  let o := unwrap_or (find_map (get_answer id) rs) (if accepts_timeout kind then Ok accepted else Err (Timeout (probe_timeout kind))) in
  settled kind id rs (probe_status display_error o).1 (probe_status display_error o).2 (drop (consumed id rs) rs).
Proof.
  cbv zeta. induction rs as [|r rs IH]; [by destruct kind; constructor|]. cbn [find_map consumed].
  destruct (get_answer id r) as [o|] eqn:E.
  - cbn [unwrap_or drop]. destruct r; cbn in E; try done; destruct (String.eqb_spec id0 id) as [->|]; try done; injection E as <-; cbn [probe_status fst snd].
    1, 3: constructor.
    destruct (any_contains UNKNOWN_REQUEST (to_ascii_lowercase msg)) eqn:Hu; unfold any_contains in Hu.
    + apply existsb_true in Hu as (needle & Hin & Hc). by apply (on_unknown _ _ _ needle).
    + apply on_other_error. intros needle Hin. by apply (proj1 (existsb_false _ _) Hu).
  - cbn [drop]. apply on_another; [|exact IH]. destruct r; cbn in E; try done; by destruct (String.eqb_spec id0 id).
Qed.

(** C35: a probe is settled by the answer to itself.  On a connection that is not broken, takes what
    is written and delivers, in time, messages that decode, five seconds for a GET and half
    a second for a SET or an EXEC, the probe
    sends its request whole and the first message with its identifier settles it: data
    makes it present; a rejection missing; an error missing when it says the request is
    unknown, not found or unbound, and present otherwise; an answer to an earlier probe that
    comes late, or a message of the server, is passed over.  Without such a message a GET is
    an error, its timeout, while a SET or an EXEC counts as present.  What arrived up to the
    message that settles it is consumed, and nothing behind it.  Identifiers of one series
    differ. *)
Theorem probe_answer_is_its_own prefix n m req ps rs w :
  Transport.poisoned (w_transport w) = false -> live (net_reads (w_net w)) -> net_writes (w_net w) = [] -> Forall acceptable ps ->
  undelivered (w_transport w) (net_reads (w_net w)) = frames ps -> Forall2 (fun p x => decode_response from_str p = Ok x) ps rs ->
  (total_wait (net_reads (w_net w)) < match rq_kind req with GetProbe => 5000 | SetProbe | ExecProbe => 500 end)%N ->
  (probe_id prefix n = probe_id prefix m -> n = m)
  /\ exists entry w' status error read unread rest,
      probe_one to_string from_str display_error (probe_id prefix n) req w = Some (Ok entry, w')
      /\ settled (rq_kind req) (probe_id prefix n) rs status error rest
      /\ reported req entry status /\ entry .? "error" = JStr <$> error
      /\ wire w' = wire w +s+ command_frame prefix n req
      /\ ps = read ++ unread /\ undelivered (w_transport w') (net_reads (w_net w')) = frames unread
      /\ Forall2 (fun p x => decode_response from_str p = Ok x) unread rest.
Proof.
  intros Hp Hl Hw Hok Hu Hdec Ht. split; [by intros H%app_str_cancel%app_str_cancel%dec_inj|].
  unfold probe_one, attempt, bind, send_command, send_frame. rewrite Hp, Hw.
  set (w1 := mkWorld _ _ _ _). set (id := probe_id prefix n). set (timeout := probe_timeout (rq_kind req)).
  assert (Htimeout : (total_wait (net_reads (w_net w)) < timeout)%N) by (unfold timeout; by destruct (rq_kind req)).
  destruct (wait_loop_live from_str id timeout (net_now (w_net w1) + timeout) ps rs (wait_fuel w1) w1) as (w' & He & _ & Hu');
    [unfold wait_fuel; fold (pending_bytes w1); lia|done..|cbn; lia|].
  pose proof (answer_settles (rq_kind req) id rs) as Hset. cbv zeta in Hset. fold timeout in Hset.
  set (o := unwrap_or (find_map (get_answer id) rs) (if accepts_timeout (rq_kind req) then Ok accepted else Err (Timeout timeout))) in *.
  assert (Hwait : wait_for_probe_response from_str id timeout (accepts_timeout (rq_kind req)) w1 = Some (o, w')).
  { unfold wait_for_probe_response. rewrite probe_wait_relaxed, He. unfold o. apply relaxed_answer. }
  rewrite Hwait. exists (request_probe_status display_error req o), w', (probe_status display_error o).1, (probe_status display_error o).2,
    (take (consumed id rs) ps), (drop (consumed id rs) ps), (drop (consumed id rs) rs).
  split_and!; [done|done|apply probe_reported|apply probe_error| |by rewrite take_drop|done|by apply Forall2_drop].
  apply probe_wait_only_reads in Hwait as [-> _]. done.
Qed.
End probe_theorems.

(** ** Witnesses *)

Definition get_files : RequiredRequest := mkRequired "kernel" "kernel.ast.getFiles" GetProbe.

Lemma probe_answer_is_its_own_witness :
  let rs := [RData "RQ.1" (jnat 1); RKilled "RQ.2"; RData "RQ.2" (jnat 2); RData "RQ.1" (jnat 1)] in
  exists entry w' status error read unread rest,
    probe_one (fun _ => "") demo_from_str (fun _ => "") "RQ.2" get_files demo_world = Some (Ok entry, w')
    /\ settled (fun _ => "") GetProbe "RQ.2" rs status error rest
    /\ reported get_files entry status /\ entry .? "error" = JStr <$> error
    /\ wire w' = wire demo_world +s+ command_frame (fun _ => "") "RQ" 2 get_files
    /\ ["A"; "K"; "B"; "A"] = read ++ unread /\ undelivered (w_transport w') (net_reads (w_net w')) = frames unread
    /\ Forall2 (fun p x => decode_response demo_from_str p = Ok x) unread rest.
Proof.
  intros rs. apply (probe_answer_is_its_own (fun _ => "") demo_from_str (fun _ => "") "RQ" 2 1 get_files ["A"; "K"; "B"; "A"] rs demo_world).
  - reflexivity.
  - repeat constructor; repeat eexists.
  - reflexivity.
  - repeat constructor; vm_compute; discriminate.
  - reflexivity.
  - repeat constructor.
  - reflexivity.
Defined.
