(* ===== verification/SelfCheck.v ===== *)
(** * The self check (src/src/mcp/selfcheck.rs and server.rs)

    What the environment is found to be: the opam switches that have a Frama-C, which are
    asked beside each other, the requests that are known, what can be run, and the canary,
    which asks whether a known bug can still be told from its fix.  What the commands and
    the processes answer are arguments. *)

From S2P Require Import Prelude RustStr Json Codec Transport Client GapCodes Paths Errors WpFailure WpOutput WpConfig MainInstance Registry Versions Probes.
Local Open Scope nat_scope.

(** ** Switches *)

Definition MAX_SWITCH_PROBES : nat := 4.

(** The switch with its frama-c, when the command names a directory that has one. *)
Definition opam_switch_frama_c (bin : string -> json) (executable : string -> bool) (switch : string) : option json :=
  opt_filter (fun bin => negb (is_empty bin)) (get_str "stdout" (bin switch)) ≫= fun bin =>
  let candidate := join_text bin "frama-c" in
  then_some (executable candidate) (JObj [("switch", JStr switch); ("frama_c", JStr candidate)]).

Definition listed_switches (listed : json) : list (nat * string) :=
  let names := bfilter (fun name => negb (is_empty name)) (map trim (lines (unwrap_or (get_str "stdout" listed) ""))) in
  zip (seq 0 (length names)) names.

(** The switches not asked yet, those being asked, and what was found. *)
Record Discovery := mkDiscovery { waiting : list (nat * string); running : list (nat * string); found : list (nat * json) }.

Definition start_discovery (switches : list (nat * string)) : Discovery :=
  mkDiscovery (drop MAX_SWITCH_PROBES switches) (take MAX_SWITCH_PROBES switches) [].

Section discovery.
Variable probe : string -> option json.
(** Whether a question may die unanswered. *)
Variable may_die : bool.

(** A question ends, in any order, and the next switch is asked; one that died found nothing. *)
Definition ended_probe (died : bool) (x : nat * string) : list (nat * json) :=
  if died then [] else match probe x.2 with Some candidate => [(x.1, candidate)] | None => [] end.
Inductive discovery_step : Discovery -> Discovery -> Prop :=
| probe_ended w before x after f died : (died = true -> may_die = true) ->
    discovery_step (mkDiscovery w (before ++ x :: after) f) (mkDiscovery (drop 1 w) (before ++ after ++ take 1 w) (f ++ ended_probe died x)).

Definition ordinal_le (a b : nat * json) : Prop := a.1 <= b.1.
#[export] Instance ordinal_le_dec : RelDecision ordinal_le.
Proof. intros a b. unfold ordinal_le. apply _. Defined.

(** What is reported when the loop ends: nothing runs any more, or the time is up. *)
Definition discovered (d : Discovery) : list json := map snd (merge_sort ordinal_le (found d)).
End discovery.

Definition frama_c_candidates (frama_c_path : string) (switches : list json) : json :=
  JObj [("opam_switches", JArr switches);
        ("hint", JStr match switches with
           | first :: _ =>
             let frama_c := unwrap_or (get_str "frama_c" first) "" in
             let switch := unwrap_or (get_str "switch" first) "" in
             "frama-c was not found at " +s+ frama_c_path +s+ ". These opam switches have one; start the server with --frama-c " +s+ frama_c
             +s+ " or run eval $(opam env --switch=" +s+ switch +s+ ") first, and install ast-utils into that same switch."
           | [] => "frama-c was not found at " +s+ frama_c_path +s+ ", and no opam switch lists one. Install Frama-C, or pass --frama-c with its path."
           end)].

(** ** The probe process *)

(** What the probe process came to; one that listens is asked over a connection, whose
    script of attempts decides. *)
Inductive ProbeServer :=
| SourceNotWritten (error : string)
| NotSpawned (error : string)
| NoSocket (stdout stderr : string)
| Up (deadline : N) (turns : list (option FramaCError * N)) (w : World).

Section payload.
Variable to_string : json -> string.
Variable from_str : string -> option json.
Variable display_error : FramaCError -> string.
Variable timeout_debug : string.

Definition all_probes : list RequiredRequest := required_requests ++ ast_utils_registered_requests ++ parameter_requests.
(** The result cut back into the two reports along the lengths that built it. *)
Definition cut_reports (probed : list json) : list json * list json :=
  let required_len := length required_requests in
  let registered_len := length ast_utils_registered_requests in
  (take required_len probed ++ drop (required_len + registered_len) probed, drop required_len (take (required_len + registered_len) probed)).

Definition plugin_missing (combined : string) : bool :=
  contains "ast_utils_plugin" combined && (contains "can't be found" combined || contains "Failed to load plug-in" combined).

(** The state of the probe process, the required report and the registered one. *)
Definition probe_process (socket : string) (server : ProbeServer) : option (json * (list json * list json)) :=
  match server with
  | SourceNotWritten error =>
    Some (JObj [("status", JStr "error"); ("error", JStr ("write probe source: " +s+ error))], not_probed_reports "probe source could not be written")
  | NotSpawned error => Some (JObj [("status", JStr "missing"); ("error", JStr error)], not_probed_reports "Frama-C binary could not be spawned")
  | NoSocket stdout stderr =>
    Some (JObj [("status", JStr "error"); ("socket", JStr socket);
                ("ast_utils_plugin", JStr (if plugin_missing (stdout +s+ String nl "" +s+ stderr) then "missing" else "unknown"));
                ("error", JStr "no socket: the probe process exited or never created one"); ("stdout", JStr stdout); ("stderr", JStr stderr)],
          not_probed_reports "Frama-C probe server did not start")
  | Up deadline turns w =>
    (fun '(probed, _) => (JObj [("status", JStr "ok"); ("socket", JStr socket); ("ast_utils_plugin", JStr "loaded")], cut_reports probed))
    <$> probe_requests to_string from_str display_error timeout_debug socket deadline turns all_probes "self_check" w
  end.

Definition socket_spawn (temp_ok version_ok : bool) (socket : string) (server : ProbeServer) : option (json * (list json * list json)) :=
  if temp_ok && version_ok then probe_process socket server
  else if negb version_ok
  then Some (JObj [("status", JStr "missing"); ("reason", JStr "Frama-C version check failed")], not_probed_reports "Frama-C binary is unavailable")
  else Some (JObj [("status", JStr "not_run"); ("reason", JStr "temp-dir write check failed")], not_probed_reports "temp-dir write check failed").

Definition e_acsl_tool (in_path : string -> bool) (help : string -> json) (tool : string) : json :=
  if in_path tool then
    let probe := help tool in
    let failure := probe_failure probe "Usage:" in
    JObj [("tool", JStr tool); ("status", JStr "found"); ("usable", JBool (match failure with None => true | Some _ => false end));
          ("probe_error", jopt JStr failure); ("probe", probe)]
  else JObj [("tool", JStr tool); ("status", JStr "missing"); ("usable", JBool false)].

(** *** What can be run *)

Definition domain_requests (payload : json) (domain : string) : list json :=
  bfilter (fun r => get_str "domain" r =?s domain) (array_or_empty payload.["required_requests"]).
Definition requests_available (requests : list json) : bool :=
  negb (bool_decide (requests = [])) && forallb (fun r => get_str "status" r =?s "present") requests.

Definition workflow (name : string) (available : bool) : json := JObj [("name", JStr name); ("available", JBool available)].

Definition capabilities_payload (server : json) (models : WpModelSupport) (in_path : string -> bool) (self_check : json) : json :=
  let e_acsl_probe := self_check.["e_acsl"].["tools"] in
  let entries := array_or_empty e_acsl_probe in
  let tools := collect_some (get_str "tool") (bfilter (fun entry => get_str "status" entry =?s "found") entries) in
  let ast_requests := array_or_empty self_check.["ast_utils_registered_requests"] in
  let required_ast := domain_requests self_check "ast-utils" in
  let eva := domain_requests self_check "eva" in
  let wp := domain_requests self_check "wp" in
  JObj
    [("server", server); ("processes", self_check.["processes"]); ("frama_c", self_check.["frama_c"]);
     ("ast_utils", JObj [("plugin", JStr "ast_utils_plugin"); ("status", self_check.["ast_utils"].["status"]);
        ("registered_request_count", jnat (length ast_requests)); ("registered_requests", JArr ast_requests);
        ("install_hint", self_check.["ast_utils"].["install_hint"])]);
     ("eva", JObj [("available", JBool (requests_available eva)); ("requests", JArr eva)]);
     ("wp", JObj [("available", JBool (requests_available wp));
        ("memory_model", JObj [("default", JStr default_wp_model); ("supported", jstrs (common_models models)); ("bases", jstrs (bases models));
           ("modifiers", jstrs (modifiers models)); ("source", JStr (source models))]);
        ("default_provers", jstrs (split_char "," (default_wp_provers in_path))); ("default_timeout_seconds", JNull);
        ("timeout_source", JStr "Frama-C/WP current setting unless run_wp passes timeout"); ("requests", JArr wp)]);
     ("e_acsl", JObj [("available", JBool (existsb (fun entry => opt_eqb Bool.eqb (get_bool "usable" entry) (Some true)) entries)); ("tools", jstrs tools);
        ("execution", JStr "run_e_acsl"); ("tool_probe", e_acsl_probe); ("coverage_warning", JStr runtime_check_coverage_warning)]);
     ("supported_workflows", JArr [workflow "load_project_then_eva" (requests_available eva);
        workflow "sandbox_cegis_then_merge" (requests_available required_ast);
        workflow "wp_main_or_sandbox" (requests_available wp && requests_available required_ast)]);
     ("known_frama_c_version_limitations", jstrs (frama_c_version_limitations self_check.["frama_c"]));
     ("self_check", JObj [("temp_dir_writeability", self_check.["temp_dir_writeability"]); ("socket_spawn", self_check.["socket_spawn"]); ("why3", self_check.["why3"])])].

(** The main process as it is: its exit when it has one, and the end of its log. *)
Definition process_diagnostics_payload (read_to_string : string -> option string) (frama_c_path : string) (main : option (MainFramaCState * option string))
    (logs : MainFramaCState -> string * string * string) (sandboxes : nat) : json :=
  JObj [("main", match main with
           | Some (m, exit_status) =>
             let '(stdout_log, stderr_log, startup_tail) := logs m in
             process_metadata_payload read_to_string (match exit_status with Some _ => "exited" | None => "running" end) (MainInstance.pid m) (MainInstance.command_line m) (MainInstance.socket_path m)
               (Some stdout_log) (Some stderr_log) (Some startup_tail) exit_status
           | None => JObj [("status", JStr "not_started"); ("frama_c_path", JStr frama_c_path)]
           end);
        ("sandbox_count", jnat sandboxes)].

(** *** The payload *)

(** Everything a self check asked for beside the probe process. *)
Record Environment := mkEnvironment {
  version_probe : json;
  opam_switch_hint : json;
  why3_provers : json;
  switches_found : list json;
  in_path : string -> bool;
  wrapper_help : string -> json;
  scratch_root : string + string;
  scratch_write : option string;
  server_pid : N;
  check_number : N;
  processes : json;
  server_json : json;
  surface_json : json;
  wp_models : WpModelSupport;
}.

Definition is_ok (v : json) : bool := get_str "status" v =?s "ok".

Definition temp_writeability (base : string) (error : option string) : json :=
  JObj (("status", JStr (match error with None => "ok" | Some _ => "error" end)) :: ("path", JStr base)
        :: match error with None => [] | Some error => [("error", JStr error)] end).

Definition self_check_payload (frama_c_path : string) (env : Environment) (server_settings : json) (server : ProbeServer) : option json :=
  let version := with_version_verdict (version_probe env) in
  let candidates := if get_str "status" version =?s "missing" then frama_c_candidates frama_c_path (switches_found env) else JNull in
  match scratch_root env with
  | inr error => Some (JObj [("status", JStr "error"); ("reason", JStr ("scratch root unusable: " +s+ error))])
  | inl root =>
    let base := join_text root ("sc-" +s+ dec_N (server_pid env) +s+ "-" +s+ dec_N (check_number env)) in
    let temp := temp_writeability base (scratch_write env) in
    (fun '(spawn, (required, registered)) =>
      let payload := JObj
        [("server", server_settings); ("frama_c", version); ("opam_switch_hint", opam_switch_hint env); ("frama_c_candidates", candidates);
         ("ast_utils", JObj [("plugin", JStr "ast_utils_plugin"); ("status", JStr (unwrap_or (get_str "ast_utils_plugin" spawn) "not_loaded"));
            ("install_hint", JStr "cd ast-utils && dune install")]);
         ("why3", JObj [("provers", why3_provers env)]);
         ("e_acsl", JObj [("execution", JStr "run_e_acsl"); ("tools", JArr (map (e_acsl_tool (in_path env) (wrapper_help env)) E_ACSL_WRAPPERS))]);
         ("temp_dir_writeability", temp); ("socket_spawn", spawn); ("processes", processes env);
         ("required_requests", JArr required); ("ast_utils_registered_requests", JArr registered)] in
      put "tool_surface" (surface_json env) (put "capabilities" (capabilities_payload (server_json env) (wp_models env) (in_path env) payload) payload))
    <$> socket_spawn (is_ok temp) (is_ok version) (join_text base "frama-c.sock") server
  end.
End payload.

(** ** The canary *)

Section canary.
Variable display_rmcp : ErrorData -> string.
Variable debug_list : list string -> string.

Definition names_the_alarm (item : json) : bool :=
  (get_str "code" item =?s incomplete_code.ALARM_NOT_VALID) && is_some_and (contains "signed_overflow") (get_str "descr" item).

Definition buggy_fixture_reason (verdict : string) (incomplete : list json) (codes : list string) : option string :=
  if negb (verdict =s "incomplete") then Some ("verdict " +s+ verdict +s+ ", expected incomplete")
  else if existsb names_the_alarm incomplete then None
  else Some ("incomplete, but no ALARM_NOT_VALID naming signed_overflow; got " +s+ debug_list codes).
Definition fixed_fixture_reason (verdict : string) (incomplete : list json) (codes : list string) : option string :=
  if negb (verdict =s "proved") then Some ("verdict " +s+ verdict +s+ ", expected proved; incomplete " +s+ debug_list codes)
  else match incomplete with [] => None | _ => Some ("proved but incomplete[] is not empty: " +s+ debug_list codes) end.

(** What a check of the fixture in a server of its own answers. *)
Definition canary_case (name : string) (expect_bug : bool) (checked : json + ErrorData) : json * option string :=
  match checked with
  | inr error => let reason := "check failed: " +s+ display_rmcp error in (JObj [("file", JStr name); ("reason", JStr reason)], Some reason)
  | inl payload =>
    let verdict := unwrap_or (get_str "verdict" payload) "missing" in
    let incomplete := array_or_empty payload.["incomplete"] in
    let codes := collect_some (get_str "code") incomplete in
    let reason := (if expect_bug then buggy_fixture_reason else fixed_fixture_reason) verdict incomplete codes in
    (JObj [("file", JStr name); ("verdict", JStr verdict); ("incomplete", jstrs codes); ("reason", jopt JStr reason)], reason)
  end.

Definition CANARY_FIXTURES : list (string * bool) := [("abs-int-buggy.c", true); ("abs-int-fixed.c", false)].

Definition canary_step (written : string -> option string) (check : string -> json + ErrorData) (acc : list json * list string) (fixture : string * bool)
    : list json * list string :=
  let '(name, expect_bug) := fixture in
  match written name with
  | Some error => (acc.1, acc.2 ++ [name +s+ ": could not write fixture: " +s+ error])
  | None =>
    let '(case, failure) := canary_case name expect_bug (check name) in
    (acc.1 ++ [case], acc.2 ++ match failure with Some reason => [name +s+ ": " +s+ reason] | None => [] end)
  end.

Definition canary_payload (dir_error : option string) (written : string -> option string) (check : string -> json + ErrorData) : json :=
  match dir_error with
  | Some error => JObj [("reliable", JBool false); ("reason", JStr ("could not write the canary fixtures: " +s+ error)); ("cases", JArr [])]
  | None =>
    let '(cases, failures) := fold_left (canary_step written check) CANARY_FIXTURES ([], []) in
    JObj [("reliable", JBool (bool_decide (failures = [])));
          ("reason", JStr (match failures with
             | [] => "EVA and WP separate the buggy fixture from the fixed one, and for the stated reason"
             | _ => join "; " failures end));
          ("cases", JArr cases)]
  end.
End canary.

(** ** Theorems *)

#[export] Instance ordinal_le_trans : Transitive ordinal_le.
Proof. intros a b c. unfold ordinal_le. lia. Qed.
#[export] Instance ordinal_le_total : Total ordinal_le.
Proof. intros a b. unfold ordinal_le. lia. Qed.

Section discovery_theorems.
Context (probe : string -> option json).

(** What a switch is found to be, with its place in the listing. *)
Definition candidate (x : nat * string) : option (nat * json) := (fun c => (x.1, c)) <$> probe x.2.

(** However the questions end, never more than four run, the loop ends with every switch
    asked, and only what was asked is found, once. *)
Record Asking (may_die : bool) (switches : list (nat * string)) (d : Discovery) : Prop := mkAsking {
  ask_bound : length (running d) <= MAX_SWITCH_PROBES;
  ask_done : running d = [] -> waiting d = [];
  ask_found : exists asked, asked ++ running d ++ waiting d ≡ₚ switches /\ found d ⊆+ collect_some candidate asked
    /\ (may_die = false -> found d ≡ₚ collect_some candidate asked);
}.

Lemma asking_start may_die switches : Asking may_die switches (start_discovery switches).
Proof.
  split; cbn [start_discovery waiting running found].
  - rewrite length_take. unfold MAX_SWITCH_PROBES. lia.
  - unfold MAX_SWITCH_PROBES. by destruct switches.
  - exists []. cbn. by rewrite take_drop.
Qed.

Lemma asking_step may_die switches d d' : Asking may_die switches d -> discovery_step probe may_die d d' -> Asking may_die switches d'.
Proof.
  intros [Hb Hd (asked & Hp & Hf & Hall)] Hstep. destruct Hstep as [w before x after f died Hdie]. cbn [waiting running found] in *.
  split; cbn [waiting running found].
  - rewrite !length_app in *. cbn in Hb. rewrite length_take. lia.
  - destruct w as [|y w]; [done|]. cbn. intros H. by destruct before, after.
  - exists (asked ++ [x]). rewrite collect_some_app. split_and!.
    + rewrite <- Hp. assert (Hw : before ++ after ++ take 1 w ++ drop 1 w = before ++ after ++ w) by (by rewrite take_drop).
      rewrite <- !app_assoc, Hw. cbn. apply Permutation_app_head. apply Permutation_middle.
    + apply submseteq_app; [done|]. unfold ended_probe. cbn. unfold candidate.
      destruct died; [apply submseteq_nil_l|]. by destruct (probe x.2).
    + intros Hno. rewrite (Hall Hno). unfold ended_probe. cbn. unfold candidate. destruct died; [by rewrite Hdie in Hno|]. by destruct (probe x.2).
Qed.

Lemma asking_reachable may_die switches d : rtc (discovery_step probe may_die) (start_discovery switches) d -> Asking may_die switches d.
Proof.
  assert (Hgen : forall d0, rtc (discovery_step probe may_die) d0 d -> Asking may_die switches d0 -> Asking may_die switches d).
  { induction 1 as [|d0 d1 d2 Hs _ IH]; [done|]. intros Ha. apply IH. by eapply asking_step. }
  intros Hr. apply (Hgen _ Hr), asking_start.
Qed.

(** The switches of a listing stand in it in order, each once. *)
Lemma zip_seq_sorted {A} (l : list A) k : StronglySorted (fun a b => a.1 < b.1) (zip (seq k (length l)) l) /\ Forall (fun x => k <= x.1) (zip (seq k (length l)) l).
Proof.
  revert k. induction l as [|a l IH]; intros k; cbn; [split; constructor|]. destruct (IH (S k)) as [Hs Hf]. split.
  - constructor; [done|]. eapply Forall_impl; [exact Hf|]. cbn. lia.
  - constructor; [done|]. eapply Forall_impl; [exact Hf|]. cbn. lia.
Qed.

Lemma sorted_candidates l : StronglySorted (fun a b => a.1 < b.1) l -> StronglySorted (fun a b => a.1 < b.1) (collect_some candidate l).
Proof.
  induction 1 as [|x l Hl IH Hx]; [constructor|]. cbn. destruct (candidate x) as [c|] eqn:Ec; [|done]. cbn. constructor; [done|].
  apply Forall_forall. intros y (z & Hz & Hy)%elem_of_collect_some. rewrite Forall_forall in Hx. specialize (Hx z Hz).
  unfold candidate in *. destruct (probe x.2), (probe z.2); try done. injection Ec as <-. by injection Hy as <-.
Qed.

Lemma sorted_same {A} (l : list (nat * A)) x y : StronglySorted (fun a b => a.1 < b.1) l -> x ∈ l -> y ∈ l -> x.1 <= y.1 -> y.1 <= x.1 -> x = y.
Proof.
  intros Hl Hx Hy Hle Hge. induction Hl as [|z l Hl IH Hz]; [by apply elem_of_nil in Hx|]. rewrite Forall_forall in Hz.
  apply elem_of_cons in Hx as [->|Hx], Hy as [->|Hy]; [done| | |by apply IH]; [specialize (Hz _ Hy)|specialize (Hz _ Hx)]; lia.
Qed.

(** C38: the switches are reported in opam's order, however the questions end.  At most four
    run at any time; every switch reported is one that was listed and has an executable;
    and when the loop ends by itself and no question died, what is reported is exactly the
    switches that have one, in the order of the listing. *)
Theorem switches_in_order may_die listed d : rtc (discovery_step probe may_die) (start_discovery (listed_switches listed)) d ->
  length (running d) <= 4
  /\ (forall c, c ∈ discovered d -> exists x, x ∈ listed_switches listed /\ probe x.2 = Some c)
  /\ (may_die = false -> running d = [] -> discovered d = collect_some (fun x => probe x.2) (listed_switches listed)).
Proof.
  intros Hr. destruct (asking_reachable _ _ _ Hr) as [Hb Hd (asked & Hp & Hf & Hall)]. split_and!; [exact Hb| |].
  - intros c Hc. unfold discovered in Hc. apply list_elem_of_fmap in Hc as (f & -> & Hin). rewrite merge_sort_Permutation in Hin.
    eapply elem_of_submseteq in Hin; [|exact Hf]. apply elem_of_collect_some in Hin as (x & Hx & Hc). exists x.
    split; [rewrite <- Hp; apply elem_of_app; by left|]. unfold candidate in Hc. destruct (probe x.2); [|done]. by injection Hc as <-.
  - intros Hlive Hrun. specialize (Hall Hlive). rewrite Hrun, (Hd Hrun), app_nil_r in Hp. cbn in Hp. rewrite ?app_nil_r in Hp.
    destruct (zip_seq_sorted (bfilter (fun name => negb (is_empty name)) (map trim (lines (unwrap_or (get_str "stdout" listed) "")))) 0) as [Hs _].
    fold (listed_switches listed) in Hs. pose proof (sorted_candidates _ Hs) as Hsc.
    assert (He : merge_sort ordinal_le (found d) = collect_some candidate (listed_switches listed)).
    { apply (StronglySorted_unique_strong ordinal_le).
      - intros x y Hx Hy Hle Hge. rewrite merge_sort_Permutation, Hall in Hx. eapply collect_some_perm in Hp. rewrite Hp in Hx.
        by eapply sorted_same.
      - apply (StronglySorted_merge_sort ordinal_le).
      - clear -Hsc. induction Hsc as [|x l Hl IH Hx]; constructor; [done|]. eapply Forall_impl; [exact Hx|]. unfold ordinal_le. intros y Hy. cbn in Hy. lia.
      - rewrite merge_sort_Permutation, Hall. by apply collect_some_perm. }
    unfold discovered. rewrite He. clear. induction (listed_switches listed) as [|x l IH]; [done|]. cbn. unfold candidate at 1.
    destruct (probe x.2); cbn; [by rewrite IH|done].
Qed.
End discovery_theorems.

Section report_theorems.
Context (to_string : json -> string) (from_str : string -> option json) (display_error : FramaCError -> string) (timeout_debug : string).

Definition names_request (req : RequiredRequest) (entry : json) : Prop := entry .? "request" = Some (JStr (rq_request req)).

Lemma not_probed_names reqs reason : Forall2 names_request reqs (not_probed_requests reqs reason).
Proof.
  apply Forall2_fmap_r, Forall_Forall2_diag, Forall_true. intros req. by destruct (not_probed_reported req reason) as (_ & H & _).
Qed.

Lemma cut_reports_names entries : Forall2 names_request all_probes entries ->
  Forall2 names_request (required_requests ++ parameter_requests) (cut_reports entries).1
  /\ Forall2 names_request ast_utils_registered_requests (cut_reports entries).2.
Proof.
  intros H. unfold cut_reports, all_probes in *. cbn [fst snd]. set (a := required_requests) in *. set (b := ast_utils_registered_requests) in *.
  set (c := parameter_requests) in *. clearbody a b c. split.
  - apply Forall2_app.
    + apply (Forall2_take _ _ _ (length a)) in H. by rewrite take_app_length in H.
    + apply (Forall2_drop _ _ _ (length a + length b)) in H. by rewrite app_assoc, drop_app_length' in H by (by rewrite length_app).
  - apply (Forall2_take _ _ _ (length a + length b)), (Forall2_drop _ _ _ (length a)) in H.
    by rewrite app_assoc, take_app_length', drop_app_length in H by (by rewrite length_app).
Qed.

(** A self check reports on every request it knows.  Whatever became of the scratch
    directory, the version check, the probe process or its connection, the required report
    has one entry for each request the workflows need and each setting, the other one for
    each request of the plug-in, in order; and unless a process came up, no entry claims
    that anything was probed. *)
Theorem self_check_reports_every_request temp_ok version_ok socket server spawn required registered :
  socket_spawn to_string from_str display_error timeout_debug temp_ok version_ok socket server = Some (spawn, (required, registered)) ->
  Forall2 names_request (required_requests ++ parameter_requests) required /\ Forall2 names_request ast_utils_registered_requests registered
  /\ (is_ok spawn = true \/ forall entry, entry ∈ required ++ registered -> get_str "status" entry = Some "not_probed").
Proof.
  assert (Hnot : forall s reason, Some (s, not_probed_reports reason) = Some (spawn, (required, registered)) ->
    Forall2 names_request (required_requests ++ parameter_requests) required /\ Forall2 names_request ast_utils_registered_requests registered
    /\ (is_ok spawn = true \/ forall entry, entry ∈ required ++ registered -> get_str "status" entry = Some "not_probed")).
  { intros s reason. unfold not_probed_reports.
    assert (Hall : forall entry, entry ∈ not_probed_requests (required_requests ++ parameter_requests) reason
        ++ not_probed_requests ast_utils_registered_requests reason -> get_str "status" entry = Some "not_probed").
    { intros entry. unfold not_probed_requests. rewrite <- map_app. intros (req & -> & _)%list_elem_of_fmap.
      destruct (not_probed_reported req reason) as (_ & _ & _ & H). unfold get_str. by rewrite H. }
    revert Hall. generalize (not_probed_names (required_requests ++ parameter_requests) reason) (not_probed_names ast_utils_registered_requests reason).
    generalize (not_probed_requests (required_requests ++ parameter_requests) reason) (not_probed_requests ast_utils_registered_requests reason).
    intros l1 l2 H1 H2 Hall [= _ <- <-]. split_and!; [exact H1|exact H2|by right]. }
  unfold socket_spawn. destruct (temp_ok && version_ok); [|destruct (negb version_ok); by intros H%Hnot].
  destruct server as [error|error|out err|deadline turns w]; cbn [probe_process]; try (by intros H%Hnot).
  destruct (probe_requests _ _ _ _ _ _ _ _ _ w) as [[entries w']|] eqn:E; [|done].
  apply probe_requests_reports in E. destruct (cut_reports_names entries) as [H1 H2].
  - eapply Forall2_impl; [exact E|]. by intros req entry (status & _ & H & _).
  - revert H1 H2. cbn [fmap option_fmap option_map]. destruct (cut_reports entries) as [r1 r2]. cbn [fst snd]. intros H1 H2 [= <- <- <-].
    split_and!; [done|done|by left].
Qed.

(** C36: a self check sends every request it probes and reports on each.  Once connecting is
    decided the probes end, whatever the network does, with one entry per request, in
    order, that names it.  On a connection the bytes sent are, request after request and
    none between, the frame of each under its own verb and identifier, whole unless the
    connection broke, and then its entry is an error; only the export that no tool uses is
    left out, and its entry alone says not probed.  Without a connection nothing is sent
    and every entry says so.  The list holds all the requests the plug-in registers: the
    removal and sandbox requests that a comment says stay unprobed are sent as well. *)
Theorem probes_account_for_requests socket deadline turns w connected :
  probe_connect display_error timeout_debug socket deadline turns = Some connected ->
  (exists entries w', probe_requests to_string from_str display_error timeout_debug socket deadline turns all_probes "self_check" w = Some (entries, w')
    /\ Forall2 (fun req entry => exists status, reported req entry status /\ status ∈ ["present"; "missing"; "error"; "not_probed"]
         /\ (status = "not_probed" <-> connected <> None \/ rq_request req = "plugins.ast-utils.dumpProject")) all_probes entries
    /\ match connected with
       | Some _ => w' = w
       | None => exists bytes, wire w' = wire w +s+ bytes /\ series to_string "self_check" (broken w') 0 all_probes entries bytes
       end)
  /\ (forall name kind probed, (name, kind, probed) ∈ AST_UTILS_REQUESTS -> mkRequired "ast-utils" name kind ∈ all_probes)
  /\ Forall (fun name => (name, ExecProbe, false) ∈ AST_UTILS_REQUESTS)
       ["plugins.ast-utils.execRemoveGlobalAcsl"; "plugins.ast-utils.execRemoveAnnotations"; "plugins.ast-utils.execRemoveAnnotationByLabel";
        "plugins.ast-utils.execCreateSandbox"; "plugins.ast-utils.execDeleteSandbox"].
Proof.
  intros Hc. split; [|split].
  - unfold probe_requests. rewrite Hc. destruct connected as [reason|].
    + eexists _, w. split; [reflexivity|]. split; [|done]. unfold not_probed_requests. apply Forall2_fmap_r, Forall_Forall2_diag, Forall_true.
      intros req. exists "not_probed". split_and!; [apply not_probed_reported|repeat constructor|]. split; [by left|done].
    + destruct (probe_loop_reports to_string from_str display_error "self_check" all_probes [] w) as (entries & w' & bytes & -> & Hall & Hw & _ & Hs).
      exists entries, w'. split; [done|]. split; [|by exists bytes]. eapply Forall2_impl; [exact Hall|].
      intros req entry (status & Hr & Hin & Hiff). exists status. split_and!; [done|done|]. rewrite Hiff. by intuition.
  - intros name kind probed Hin. unfold all_probes. rewrite !elem_of_app. right. left. unfold ast_utils_registered_requests.
    apply list_elem_of_fmap. by exists (name, kind, probed).
  - repeat constructor; decide_closed.
Qed.
End report_theorems.

Section canary_theorems.
Context (display_rmcp : ErrorData -> string) (debug_list : list string -> string) (written : string -> option string) (check : string -> json + ErrorData).

Lemma canary_failures_nil :
  (fold_left (canary_step display_rmcp debug_list written check) CANARY_FIXTURES ([], [])).2 = [] <->
  (written "abs-int-buggy.c" = None /\ (canary_case display_rmcp debug_list "abs-int-buggy.c" true (check "abs-int-buggy.c")).2 = None)
  /\ (written "abs-int-fixed.c" = None /\ (canary_case display_rmcp debug_list "abs-int-fixed.c" false (check "abs-int-fixed.c")).2 = None).
Proof.
  cbn [CANARY_FIXTURES fold_left]. unfold canary_step.
  destruct (written "abs-int-buggy.c") as [e1|], (written "abs-int-fixed.c") as [e2|]; cbn [fst snd];
    try destruct (canary_case _ _ "abs-int-buggy.c" _ _) as [c1 [r1|]]; try destruct (canary_case _ _ "abs-int-fixed.c" _ _) as [c2 [r2|]];
    cbn; split; try done; by intros [[? ?] [? ?]].
Qed.

Lemma get_str_iff k v s : get_str k v = Some s <-> v .? k = Some (JStr s).
Proof. unfold get_str. destruct (v .? k) as [[]|]; cbn; split; congruence. Qed.

Lemma idx_array k v : array_or_empty v.[k] = unwrap_or (v .? k ≫= as_array) [].
Proof. unfold array_or_empty, idx. destruct v; try done. cbn [Json.get]. by destruct (map_get k m). Qed.

Lemma elem_of_array k v x : x ∈ array_or_empty v.[k] <-> exists l, v .? k = Some (JArr l) /\ x ∈ l.
Proof.
  rewrite idx_array. destruct (v .? k) as [[]|] eqn:E; cbn; split; try (by intros ?%elem_of_nil); try (by intros (? & ? & _)).
  - intros Hx. by eexists.
  - by intros (? & [= ->] & ?).
Qed.

Lemma array_empty k v : array_or_empty v.[k] = [] <-> forall l, v .? k = Some (JArr l) -> l = [].
Proof. rewrite idx_array. destruct (v .? k) as [[]|]; cbn; split; try done; naive_solver. Qed.

Lemma names_the_alarm_iff item : names_the_alarm item = true <->
  exists code descr, item .? "code" = Some (JStr code) /\ code = "ALARM_NOT_VALID"
    /\ item .? "descr" = Some (JStr descr) /\ contains "signed_overflow" descr = true.
Proof.
  unfold names_the_alarm. rewrite andb_true_iff, is_some_and_true. setoid_rewrite get_str_iff. split.
  - intros [Hc (descr & Hd & Hs)]. destruct (get_str "code" item) as [code|] eqn:E; [|done].
    apply get_str_iff in E. cbn in Hc. apply String.eqb_eq in Hc. by exists code, descr.
  - intros (code & descr & Hc & -> & Hd & Hs). apply get_str_iff in Hc. rewrite Hc. split; [done|by exists descr].
Qed.

(** C37: a reliable canary means that the bug was told from its fix for the right reason.  It
    says so if and only if both fixtures were written and checked, the check of the buggy
    one was incomplete and one of its items, with the code of an alarm that was not found
    valid, describes a signed overflow, and the check of the fixed one was proved and left
    nothing open. *)
Theorem canary_reliable_iff :
  get_bool "reliable" (canary_payload display_rmcp debug_list None written check) = Some true <->
  written "abs-int-buggy.c" = None /\ written "abs-int-fixed.c" = None
  /\ (exists buggy items code descr item, check "abs-int-buggy.c" = inl buggy /\ buggy .? "verdict" = Some (JStr "incomplete")
       /\ buggy .? "incomplete" = Some (JArr items) /\ item ∈ items
       /\ item .? "code" = Some (JStr code) /\ code = "ALARM_NOT_VALID"
       /\ item .? "descr" = Some (JStr descr) /\ contains "signed_overflow" descr = true)
  /\ (exists fixed, check "abs-int-fixed.c" = inl fixed /\ fixed .? "verdict" = Some (JStr "proved")
       /\ forall items, fixed .? "incomplete" = Some (JArr items) -> items = []).
Proof.
  assert (Hr : get_bool "reliable" (canary_payload display_rmcp debug_list None written check) = Some true <->
    (fold_left (canary_step display_rmcp debug_list written check) CANARY_FIXTURES ([], [])).2 = []).
  { unfold canary_payload. destruct (fold_left _ CANARY_FIXTURES _) as [cases failures]. cbn. destruct failures; by split. }
  assert (Hv : forall p v, v <> "missing" -> unwrap_or (get_str "verdict" p) "missing" =s v = true <-> get_str "verdict" p = Some v).
  { intros p v Hne. rewrite String.eqb_eq. destruct (get_str "verdict" p); cbn; split; congruence. }
  rewrite Hr, canary_failures_nil. unfold canary_case.
  assert (Hb : forall p, buggy_fixture_reason debug_list (unwrap_or (get_str "verdict" p) "missing") (array_or_empty p.["incomplete"])
      (collect_some (get_str "code") (array_or_empty p.["incomplete"])) = None <->
    get_str "verdict" p = Some "incomplete" /\ exists item, item ∈ array_or_empty p.["incomplete"] /\ names_the_alarm item = true).
  { intros p. unfold buggy_fixture_reason. rewrite <- Hv by done. destruct (_ =s "incomplete"); cbn; [|split; [done|by intros [? _]]].
    rewrite <- existsb_true. destruct (existsb _ _); split; try done; by intros [_ ?]. }
  assert (Hf : forall p, fixed_fixture_reason debug_list (unwrap_or (get_str "verdict" p) "missing") (array_or_empty p.["incomplete"])
      (collect_some (get_str "code") (array_or_empty p.["incomplete"])) = None <-> get_str "verdict" p = Some "proved" /\ array_or_empty p.["incomplete"] = []).
  { intros p. unfold fixed_fixture_reason. rewrite <- Hv by done. destruct (_ =s "proved"); cbn; [|split; [done|by intros [? _]]].
    destruct (array_or_empty _); split; try done; by intros [_ ?]. }
  assert (Hbug : forall p, get_str "verdict" p = Some "incomplete" /\ (exists item, item ∈ array_or_empty p.["incomplete"] /\ names_the_alarm item = true)
    <-> exists items code descr item, p .? "verdict" = Some (JStr "incomplete") /\ p .? "incomplete" = Some (JArr items) /\ item ∈ items
       /\ item .? "code" = Some (JStr code) /\ code = "ALARM_NOT_VALID"
       /\ item .? "descr" = Some (JStr descr) /\ contains "signed_overflow" descr = true).
  { intros p. setoid_rewrite elem_of_array. setoid_rewrite names_the_alarm_iff. rewrite get_str_iff. naive_solver. }
  destruct (check "abs-int-buggy.c") as [b|eb], (check "abs-int-fixed.c") as [f|ef]; cbn [snd]; rewrite ?Hb, ?Hf, ?Hbug, ?array_empty, ?get_str_iff;
    naive_solver.
Qed.
End canary_theorems.

(** ** Witnesses *)

Definition demo_probe (switch : string) : option json := Some (JObj [("switch", JStr switch)]).
Definition demo_listing : json := JObj [("stdout", JStr ("5.1" +s+ String nl "default"))].

(** The second switch answers first. *)
Lemma demo_discovery : rtc (discovery_step demo_probe false) (start_discovery (listed_switches demo_listing))
  (mkDiscovery [] [] [(1, JObj [("switch", JStr "default")]); (0, JObj [("switch", JStr "5.1")])]).
Proof.
  eapply rtc_l; [exact (probe_ended demo_probe false [] [(0, "5.1")] (1, "default") [] [] false ltac:(done))|].
  eapply rtc_l; [exact (probe_ended demo_probe false [] [] (0, "5.1") [] [(1, JObj [("switch", JStr "default")])] false ltac:(done))|]. apply rtc_refl.
Qed.

Lemma switches_in_order_witness :
  discovered (mkDiscovery [] [] [(1, JObj [("switch", JStr "default")]); (0, JObj [("switch", JStr "5.1")])])
  = [JObj [("switch", JStr "5.1")]; JObj [("switch", JStr "default")]].
Proof.
  destruct (switches_in_order demo_probe false demo_listing _ demo_discovery) as (_ & _ & H). rewrite (H eq_refl eq_refl). reflexivity.
Defined.

Lemma self_check_reports_every_request_witness :
  exists spawn required registered, socket_spawn (fun _ => "") (fun _ => None) (fun _ => "") "5s" true true "/tmp/s" (NotSpawned "no such file")
      = Some (spawn, (required, registered))
    /\ length required = length required_requests + length parameter_requests /\ is_ok spawn = false.
Proof.
  destruct (socket_spawn (fun _ => "") (fun _ => None) (fun _ => "") "5s" true true "/tmp/s" (NotSpawned "no such file")) as [[spawn [required registered]]|] eqn:E;
    [|exfalso; revert E; vm_compute; discriminate].
  exists spawn, required, registered. split; [reflexivity|].
  destruct (self_check_reports_every_request (fun _ => "") (fun _ => None) (fun _ => "") "5s" true true "/tmp/s" (NotSpawned "no such file") spawn required registered E)
    as (H & _ & _).
  split; [apply Forall2_length in H; rewrite <- H; apply length_app|].
  apply (f_equal (option_map (fun r => is_ok (fst r)))) in E. vm_compute in E. by injection E.
Defined.

(** The first attempt is refused, the second answered; the answers are all to other requests. *)
Lemma probes_account_for_requests_witness :
  exists entries w' bytes, probe_requests (fun _ => "") demo_from_str (fun _ => "") "5s" "/tmp/s" 5000
      [(Some (Io ConnectionRefused), 10%N); (None, 35%N)] all_probes "self_check" demo_world = Some (entries, w')
    /\ length all_probes = length entries /\ wire w' = wire demo_world +s+ bytes
    /\ series (fun _ => "") "self_check" (broken w') 0 all_probes entries bytes.
Proof.
  destruct (probes_account_for_requests (fun _ => "") demo_from_str (fun _ => "") "5s" "/tmp/s" 5000
    [(Some (Io ConnectionRefused), 10%N); (None, 35%N)] demo_world None eq_refl) as ((entries & w' & He & Hall & bytes & Hw & Hs) & _).
  exists entries, w', bytes. split; [exact He|]. split; [exact (Forall2_length _ _ _ Hall)|]. by split.
Defined.
