(* ===== verification/ReceiptRun.v ===== *)
(** * The receipt of a run (src/src/mcp/receipt.rs, src/src/mcp/analysis.rs, src/src/mcp/server.rs)

    What a receipt asks Frama-C for: the contracts the run proved under and a digest of the
    program as Frama-C holds it; the receipt of a proof run and the probes over the printed
    program that come before it.  The answers of other processes, of the file system and of
    a sandbox's own Frama-C are arguments. *)

From S2P Require Import Prelude RustStr BTree Json Codec Client Rows StableId Receipt Session Errors ProbeGaps WpConfig Proc WpCli Sandboxes MainInstance Requests WpTasks RunWp.
Local Open Scope nat_scope.

(** ** Contracts *)

Definition CONTRACT_ARRAYS : list string := ["requires"; "ensures"].
Definition CONTRACT_GROUPS : list string := ["complete"; "disjoint"].

Definition contract_clauses (contract : json) (array : string) : list (string * string) :=
  collect_some (fun entry =>
    (fun text => (unwrap_or (get_str "kind" entry) array, strip_generated_label text)) <$> (pointer ["predicate"; "text"] entry ≫= as_str))
    (unwrap_or (get_arr array contract) []).

Definition behavior_groups (contract : json) (group : string) : list string :=
  collect_some (fun entry =>
    as_array entry ≫= fun names => match collect_some as_str names with [] => None | names => Some (join ", " names) end)
    (unwrap_or (get_arr group contract) []).

Definition push_clause (m : gmap string (list string)) (clause : string * string) : gmap string (list string) :=
  <[clause.1 := unwrap_or (m !! clause.1) [] ++ [clause.2]]> m.
Definition set_group (contract : json) (m : gmap string (list string)) (group : string) : gmap string (list string) :=
  match behavior_groups contract group with [] => m | names => <[group := names]> m end.
Definition clauses_by_kind (contract : json) : gmap string (list string) :=
  fold_left (set_group contract) CONTRACT_GROUPS
    (fold_left push_clause (flat_map (contract_clauses contract) CONTRACT_ARRAYS) ∅).

(** What a receipt records of one contract; nothing of an empty one. *)
Definition contract_snapshot (contract : json) : option json :=
  let by_kind := clauses_by_kind contract in
  if bool_decide (by_kind = ∅) then None
  else Some (JObj (map (fun e => (e.1, jstrings (btree_set e.2))) (btree_entries by_kind))).

(** *** The contract proposed beside a context *)

Definition predicate_text (value : json) : option string := get_str "text" value.
Definition behavior_name (value : json) : option string := opt_filter (fun b => negb (b =s "default!")) (get_str "behavior" value).
Definition assigns_text (value : json) : option string :=
  match get_str "kind" value with
  | Some kind =>
    if kind =s "nothing" then Some "\nothing"
    else if kind =s "list" then
      get_arr "assigns" value ≫= fun entries =>
        match collect_some (get_str "target") entries with [] => None | targets => Some (join ", " targets) end
    else None
  | None => None
  end.

Definition behaviors_of (contract : json) : list json := array_or_empty contract.["behaviors"].
Definition named_behavior (behavior : json) : option string := opt_filter (fun name => negb (name =s "default!")) (get_str "name" behavior).
Definition with_behavior (acsl : string) (behavior : option string) : json :=
  JObj (("acsl", JStr acsl) :: match behavior with Some b => [("behavior", JStr b)] | None => [] end).
Definition proposed_clauses (clauses : json) : list json :=
  collect_some (fun clause => (fun acsl => with_behavior acsl (behavior_name clause)) <$> predicate_text clause.["predicate"]) (array_or_empty clauses).

Definition proposed_contract_from_context (contract : json) : json :=
  JObj
    [("proposed_behaviors", JArr (collect_some (fun b =>
        (fun name => JObj [("name", JStr name); ("assumes", jstrings (collect_some predicate_text (array_or_empty b.["assumes"])))]) <$> named_behavior b)
        (behaviors_of contract)));
     ("proposed_requires", JArr (proposed_clauses contract.["requires"]));
     ("proposed_ensures", JArr (proposed_clauses contract.["ensures"]));
     ("proposed_assigns", JArr (option_list ((fun acsl => with_behavior acsl None) <$> assigns_text contract.["assigns"])
        ++ collect_some (fun b => named_behavior b ≫= fun name => (fun acsl => with_behavior acsl (Some name)) <$> assigns_text b.["assigns"]) (behaviors_of contract)));
     ("proposed_complete_behaviors", unwrap_or (contract .? "complete") (JArr []));
     ("proposed_disjoint_behaviors", unwrap_or (contract .? "disjoint") (JArr []))].

(** ** Receipts *)

(** What a receipt is written about. *)
Record ProofReceiptRequest := mkRequest {
  r_tool : string;
  r_files : list string;
  r_wp_config : json;
  r_eva_config : json;
  r_goals : list json;
  r_scope : option string;
  r_status_source : string;
  r_reported : json;
  r_properties : row_map;
  r_ast_source : option string;
  r_ast_digest : option string;
}.

(** The machine description is all a printed program still needs of its load. *)
Definition printed_source_options (o : ProjectLoadOptions) : ProjectLoadOptions :=
  mkProjectLoadOptions [] [] [] (machdep o) None (rte o) [] false (unsigned_rte_skipped o) (pointer_rte_requested o) None.

Definition PRINT_SOURCE : string := "plugins.ast-utils.printSource".
Definition NOT_RUN_RELOAD_FAILED : string := "not_run_reload_failed".

Section receipt.
Variable answer : list (request * bool) -> request -> Reply.
Variable display_error : FramaCError -> string.
Variable fuel : nat.
Variable hash_label_in : string -> option string.
Variable to_string : json -> string.
Variable sha256_hex : string -> string.
Variable canonical_ast_for_digest : string -> string.
Variable read_file : string -> string + string.
(** The context a sandbox's Frama-C gives of one of its functions. *)
Variable sandbox_context : string -> string -> json + ErrorData.
(** What a command prints, as [run_command_json] reports it; the command of Frama-C; the
    random draw of a receipt whose digest is null. *)
Variable run_command : string -> list string -> json.
Variable frama_c_path : string.
Variable nonce : list (request * bool) -> string.
Abbreviation ask := (ask answer).
Abbreviation get := (get answer display_error).
Abbreviation reload_fetch := (reload_fetch answer display_error fuel).

(** [print_source], matched on. *)
Definition print_source : Tool (result string) :=
  let* o := ask (Get PRINT_SOURCE (JStr "")) in
  pure match o with Ok a => Ok (unwrap_or (as_str (data a)) "") | Err e => Err e end.

Definition contract_context_payload (function : string) : Tool json :=
  match scope_for_function function with
  | Sandboxes.ScopeSandbox experiment_id name =>
    let* r := from_sum (sandbox_context experiment_id name) in
    pure (match pointer ["function"; "contract"] r with Some c => put "proposed_contract" (proposed_contract_from_context c) r | None => r end)
  | Sandboxes.ScopeMain name =>
    do* require_client in
    let* r := get "plugins.ast-utils.getContractContext" (JStr name) in
    pure (match pointer ["function"; "contract"] r with Some c => put "proposed_contract" (proposed_contract_from_context c) r | None => r end)
  end.

Definition function_snapshot (function : string) : Tool (string * option json) :=
  let* context := try (contract_context_payload function) in
  pure (function, match context with inl context => pointer ["function"; "contract"] context ≫= contract_snapshot | inr _ => None end).

Definition proof_receipt_contracts (wp_config : json) (goals_status_source : string) : Tool json :=
  if goals_status_source =s ISOLATED_RETRY_NO_AST then pure (JStr ISOLATED_RETRY_NO_AST)
  else
    let functions := collect_some as_str (unwrap_or (get_arr "functions" wp_config) []) in
    let* snapshots := each function_snapshot functions in
    pure (JObj (fold_left (fun m e => match e.2 with Some v => map_insert e.1 v m | None => m end) snapshots [])).

(** A digest, and the reason when there is none. [held] is whether the caller has a client. *)
Definition proof_receipt_ast_digest (held : bool) (goals_status_source : string) (ast_source ast_digest : option string) : Tool (json * json) :=
  if goals_status_source =s ISOLATED_RETRY_NO_AST then pure (JStr ISOLATED_RETRY_NO_AST, JNull)
  else
    match opt_filter (fun digest => negb (digest =s ISOLATED_RETRY_NO_AST)) ast_digest with
    | Some digest => pure (JStr digest, JNull)
    | None =>
      match ast_source with
      | Some source => pure (digest_of_printed_ast sha256_hex canonical_ast_for_digest source)
      | None =>
        if goals_status_source =s NOT_RUN_RELOAD_FAILED then pure (JNull, JStr "reload_failed")
        else
          let* client := (if held then pure (inl tt) else try require_client) in
          match client with
          | inr _ => pure (JNull, JStr "no_client")
          | inl _ =>
            let* printed := print_source in
            match printed with
            | Ok text => pure (digest_of_printed_ast sha256_hex canonical_ast_for_digest text)
            | Err error => pure (JNull, JStr ("request_failed: " +s+ display_error error))
            end
          end
      end
    end.

Definition environment_json : json :=
  JObj [("frama_c_version", run_command frama_c_path ["-version"]);
        ("why3_provers", run_command "why3" ["config"; "list-provers"]);
        ("opam_switch", run_command "opam" ["var"; "switch"])].

Definition load_identity_of (source_files : list string) (main : option MainFramaCState) : json :=
  match opt_filter (fun m => bool_decide (files m = source_files)) main with
  | Some m => project_load_identity (project_options m)
  | None => JNull
  end.

Definition proof_receipt (held : bool) (r : ProofReceiptRequest) : Tool json :=
  let* contracts := proof_receipt_contracts (r_wp_config r) (r_status_source r) in
  let* (digest, reason) := proof_receipt_ast_digest held (r_status_source r) (r_ast_source r) (r_ast_digest r) in
  let* main := gets (fun s => main (server s)) in
  let* drawn := gets (fun s => nonce (sent s)) in
  let receipt := proof_receipt_with_hash to_string sha256_hex (proof_receipt_body to_string sha256_hex drawn
    (mkProofReceiptBody (r_tool r) (proof_receipt_source_files sha256_hex read_file (r_files r)) (load_identity_of (r_files r) main)
       digest reason contracts environment_json (r_wp_config r) (r_eva_config r)
       (proof_receipt_goals to_string sha256_hex hash_label_in (r_goals r) (r_scope r) (r_properties r)) (r_status_source r) (r_reported r))) in
  do* match as_str receipt.["sha256"] with
      | Some sha256 => modify (set_session (remember_receipt sha256 receipt))
      | None => pure tt
      end in
  pure receipt.

(** ** The end of a proof run *)

Definition attach_run_wp_receipt (response : json) (source_files : list string) (wp_goals : list json) (report_function ast_source : option string) : Tool json :=
  let* rows := reload_fetch "kernel.properties.reloadStatus" "kernel.properties.fetchStatus" in
  let* receipt := proof_receipt true
    (mkRequest "run_wp" source_files response.["effective_wp_config"] (eva_config_absent "tool_does_not_run_eva") wp_goals report_function "wp_fetch_goals"
       (JObj [("failure_kind", response.["failure_kind"]); ("wp_timeout_triage", response.["wp_timeout_triage"])])
       (property_status_map rows) ast_source None) in
  pure (put "proof_receipt" receipt response).

(** Writing the printed program where a fresh Frama-C reads it, and what that Frama-C
    answers, the smoke run with the path and content of its report and its time. *)
Variable write_ast : string -> string -> string + ErrorData.
Variable display_rmcp : ErrorData -> string.
Variable probe_answer : string -> list string -> GroupRun.
Variable smoke_answer : string -> option string * option json * N * GroupRun.
Variable lossy : string -> string.
Variable executable_in_path : string -> bool.
Variable builtin_models_header : option string.
Variable wide_alphanumeric : string -> bool.

Record PrintedAstProbe := mkProbe {
  q_options : ProjectLoadOptions;
  q_rte : bool;
  q_functions : list string;
  q_prefix : string;
  q_smoke : bool;
}.

(** The answers of the two probes and the text they were asked about. *)
Definition ProbeAnswers : Type := json * option json * option string.

Definition probes_absent (p : PrintedAstProbe) (reason : string) (nothing_was_proved : bool) (source : option string) : ProbeAnswers :=
  (probe_absent reason nothing_was_proved, then_some (q_smoke p) (JObj [("ran", JBool false); ("reason", JStr reason)]), source).

(** A process whose result is lost leaves no answer. *)
Definition or_stuck {A} (o : option A) : Tool A := match o with Some a => pure a | None => stuck end.

Definition probe_printed (p : PrintedAstProbe) (response : json) (source path : string) : Tool ProbeAnswers :=
  let o := printed_source_options (q_options p) in
  let model := pointer ["effective_wp_config"; "model"] response ≫= as_str in
  let prop := pointer ["effective_wp_config"; "prop"; "effective"] response ≫= as_str in
  let* probe := or_stuck (run_wp_memory_model_probe lossy builtin_models_header wide_alphanumeric frama_c_path [path] o (q_rte p) model (q_functions p) prop
    (probe_answer source (memory_model_args builtin_models_header [path] o (q_rte p) model (q_functions p) prop))) in
  let* smoke := (if q_smoke p then
      let '(report_path, report, elapsed_ms, run) := smoke_answer source in
      let* smoke := or_stuck (run_wp_smoke_probe lossy executable_in_path builtin_models_header frama_c_path [path] o (q_rte p) model (q_functions p)
                       response.["effective_wp_config"] report_path report elapsed_ms run) in pure (Some smoke)
    else pure None) in
  pure (probe, smoke, Some source).

Definition memory_model_probe_over_printed_ast (response : json) (p : PrintedAstProbe) : Tool ProbeAnswers :=
  let* printed := print_source in
  match printed with
  | Err error => pure (probes_absent p ("printSource failed: " +s+ display_error error) false None)
  | Ok source =>
    if is_empty (trim source) then pure (probes_absent p "printSource returned nothing, so there is no AST to probe" false None)
    else match q_functions p with
    | [] => pure (probes_absent p "the run named no defined function for the probe to describe" true (Some source))
    | _ =>
      match write_ast source (q_prefix p) with
      | inr error => pure (probes_absent p ("the printed AST could not be written: " +s+ display_rmcp error) false (Some source))
      | inl path => probe_printed p response source path
      end
    end
  end.

Record ProbeAndReceipt := mkEnd {
  e_probe : PrintedAstProbe;
  e_source_files : list string;
  e_wp_goals : list json;
  e_report_function : option string;
}.

Definition attach_probe_and_receipt (response : json) (args : ProbeAndReceipt) : Tool json :=
  let* (probe, smoke, printed) := memory_model_probe_over_printed_ast response (e_probe args) in
  let response := put "memory_model_probe" probe response in
  let response := match smoke with Some smoke => put "smoke_probe" smoke response | None => response end in
  attach_run_wp_receipt response (e_source_files args) (e_wp_goals args) (e_report_function args) printed.

(** The payload of [run_wp] when it proved on the main instance. *)
Definition finish_run_wp (smoke : bool) (p : Proved) : Tool json :=
  let subject := proved_subject p in
  let* response := attach_probe_and_receipt (response p)
    (mkEnd (mkProbe (subject_options subject) (proved_rte p) (probe_functions p) "frama-c-mcp-wp-probe-ast-" smoke)
       (subject_files subject) (proved_goals p) (report_function p)) in
  pure match profile_applied p with Some applied => put "verify_profile" (a_echo applied) response | None => response end.
End receipt.

(** ** Theorems *)

Definition not_printed (e : log_entry) : Prop := request_name e.1 <> PRINT_SOURCE.

Lemma probe_in response probe smoke probe' : is_object response = true ->
  (match smoke with Some smoke => put "smoke_probe" smoke (put "memory_model_probe" probe response) | None => put "memory_model_probe" probe response end) .? "memory_model_probe"
    = Some probe' -> probe = probe'.
Proof.
  intros Ho. assert (Hp : (put "memory_model_probe" probe response) .? "memory_model_probe" = Some probe) by (destruct response; try done; apply map_get_insert).
  destruct smoke; [rewrite get_put_ne by done|]; rewrite Hp; by intros [= ->].
Qed.

Section theorems.
Context (answer : list (request * bool) -> request -> Reply) (display_error : FramaCError -> string) (fuel : nat)
  (hash_label_in : string -> option string) (to_string : json -> string) (sha256_hex canonical_ast_for_digest : string -> string)
  (read_file : string -> string + string) (sandbox_context : string -> string -> json + ErrorData) (run_command : string -> list string -> json)
  (frama_c_path : string) (nonce : list (request * bool) -> string) (write_ast : string -> string -> string + ErrorData)
  (display_rmcp : ErrorData -> string) (probe_answer : string -> list string -> GroupRun)
  (smoke_answer : string -> option string * option json * N * GroupRun) (lossy : string -> string) (executable_in_path : string -> bool)
  (builtin_models_header : option string) (wide_alphanumeric : string -> bool).
Abbreviation receipt_digest := (proof_receipt_ast_digest answer display_error sha256_hex canonical_ast_for_digest).
Abbreviation receipt_of := (proof_receipt answer display_error hash_label_in to_string sha256_hex canonical_ast_for_digest read_file sandbox_context run_command frama_c_path nonce).
Abbreviation attach := (attach_probe_and_receipt answer display_error fuel hash_label_in to_string sha256_hex canonical_ast_for_digest read_file sandbox_context
  run_command frama_c_path nonce write_ast display_rmcp probe_answer smoke_answer lossy executable_in_path builtin_models_header wide_alphanumeric).
Abbreviation attach_receipt := (attach_run_wp_receipt answer display_error fuel hash_label_in to_string sha256_hex canonical_ast_for_digest read_file sandbox_context
  run_command frama_c_path nonce).
Abbreviation digest_of text := (JStr (sha256_hex (canonical_ast_for_digest text))).

Lemma digest_of_text text : is_empty text = false -> digest_of_printed_ast sha256_hex canonical_ast_for_digest text = (digest_of text, JNull).
Proof. unfold digest_of_printed_ast. by intros ->. Qed.

Lemma contracts_only P wp_config source : (forall arg ok, P (Get "plugins.ast-utils.getContractContext" arg, ok)) ->
  only P (proof_receipt_contracts answer display_error sandbox_context wp_config source).
Proof.
  intros HP. unfold proof_receipt_contracts. destruct (source =s _); [apply only_pure|].
  apply only_bind; [|intros; apply only_pure]. apply only_each. intros f. apply only_bind; [|intros; apply only_pure]. apply only_try.
  unfold contract_context_payload. destruct (scope_for_function f).
  - apply only_bind; [apply only_require_client|]. intros _. apply only_bind; [apply only_get; auto|intros; apply only_pure].
  - apply only_bind; [apply only_from_sum|intros; apply only_pure].
Qed.

(** A receipt that is given the text asks for no print. *)
Lemma receipt_prints_nothing held r text : r_ast_source r = Some text -> only not_printed (receipt_of held r).
Proof.
  intros Hr. apply only_bind; [by apply contracts_only|]. intros contracts. apply only_bind.
  - rewrite Hr. unfold proof_receipt_ast_digest. destruct (_ =s _); [apply only_pure|]. destruct (opt_filter _ _); apply only_pure.
  - intros [digest reason]. do 2 (apply only_bind; [apply only_gets|]; intros ?). apply only_bind; [|intros; apply only_pure].
    destruct (as_str _); [by apply only_modify|apply only_pure].
Qed.

Lemma receipt_states_digest held r s receipt s' : receipt_of held r s = Some (inl receipt, s') ->
  exists s1 s2 digest reason, receipt_digest held (r_status_source r) (r_ast_source r) (r_ast_digest r) s1 = Some (inl (digest, reason), s2)
    /\ pointer ["subject"; "ast_digest"] receipt = Some digest
    /\ pointer ["subject"; "ast_digest_unavailable_reason"] receipt = Some reason
    /\ receipt .? "reported" = Some (r_reported r).
Proof.
  unfold proof_receipt. intros [(contracts & s1 & _ & H)|(? & _ & ?)]%andThen_Some; [|done].
  apply andThen_Some in H as [([digest reason] & s2 & Hd & H)|(? & _ & ?)]; [|done].
  apply andThen_Some in H as [(main & s3 & _ & H)|(? & _ & ?)]; [|done].
  apply andThen_Some in H as [(drawn & s4 & _ & H)|(? & _ & ?)]; [|done]. cbv zeta in H.
  exists s1, s2, digest, reason. split; [done|].
  apply andThen_Some in H as [([] & s5 & _ & [= <- _])|(? & _ & ?)]; [|done]. done.
Qed.

Lemma attach_receipt_digest response files goals scope text s r s' : is_empty text = false -> is_object response = true ->
  attach_receipt response files goals scope (Some text) s = Some (r, s') ->
  (exists l, sent s' = sent s ++ l /\ Forall not_printed l)
  /\ forall response', r = inl response' ->
       pointer ["proof_receipt"; "subject"; "ast_digest"] response' = Some (digest_of text)
       /\ forall k, k <> "proof_receipt" -> response' .? k = response .? k.
Proof.
  intros Ht Ho H. split.
  - assert (Hon : only not_printed (attach_receipt response files goals scope (Some text))).
    { apply only_bind; [apply only_bind; [by apply only_get|intros _; by apply only_pages]|]. intros rows.
      apply only_bind; [by eapply receipt_prints_nothing|intros; apply only_pure]. }
    exact (Hon _ _ _ H).
  - intros response' ->. unfold attach_run_wp_receipt in H. apply andThen_Some in H as [(rows & s1 & _ & H)|(? & _ & ?)]; [|done].
    apply andThen_Some in H as [(receipt & s2 & Hr & [= <- _])|(? & _ & ?)]; [|done].
    apply receipt_states_digest in Hr as (s3 & s4 & d & reason & Hd & Hp & _). cbn in Hd. rewrite digest_of_text in Hd by done. injection Hd as <- _ _.
    destruct response as [| | | | |m]; try done. unfold put. cbn [map_object]. split.
    + unfold pointer. cbn [fold_left mbind option_bind pointer_step]. rewrite map_get_insert. exact Hp.
    + intros k Hk. cbn. by rewrite map_get_insert_ne.
Qed.

(** What the memory-model probe is asked about a file with the printed program. *)
Definition probe_of (response : json) (p : PrintedAstProbe) (text path : string) : option json :=
  let o := printed_source_options (q_options p) in
  let model := pointer ["effective_wp_config"; "model"] response ≫= as_str in
  let prop := pointer ["effective_wp_config"; "prop"; "effective"] response ≫= as_str in
  run_wp_memory_model_probe lossy builtin_models_header wide_alphanumeric frama_c_path [path] o (q_rte p) model (q_functions p) prop
    (probe_answer text (memory_model_args builtin_models_header [path] o (q_rte p) model (q_functions p) prop)).

Abbreviation probes := (memory_model_probe_over_printed_ast answer display_error frama_c_path write_ast display_rmcp probe_answer smoke_answer
  lossy executable_in_path builtin_models_header wide_alphanumeric).

Lemma probes_spec response p s r s' : probes response p s = Some (r, s') ->
  exists a printed, r = inl a /\ print_source answer s = Some (inl printed, s') /\
  let '(probe, _, source) := a in
  match printed with
  | Ok text => (is_empty (trim text) = false -> source = Some text)
      /\ (get_bool "ran" probe = Some true -> exists path, write_ast text (q_prefix p) = inl path /\ probe_of response p text path = Some probe)
  | Err _ => source = None /\ get_bool "ran" probe = Some false /\ get_bool "nothing_was_proved" probe = Some false
  end.
Proof.
  unfold memory_model_probe_over_printed_ast.
  intros [(printed & s1 & Hp & H)|(e & Hp & _)]%andThen_Some; [|by injection Hp].
  destruct printed as [text|error]; [|injection H as <- <-; by eexists _, _].
  destruct (is_empty (trim text)) eqn:Hb; [injection H as <- <-; eexists _, (Ok text); split; [done|]; split; [done|]; by rewrite Hb|].
  destruct (q_functions p) eqn:Hf; [injection H as <- <-; by eexists _, (Ok text)|].
  destruct (write_ast text (q_prefix p)) as [path|error] eqn:Hw; [|injection H as <- <-; by eexists _, (Ok text)].
  unfold probe_printed in H. apply andThen_Some in H as [(probe & s2 & H1 & H)|(? & H1 & _)].
  2: { unfold or_stuck in H1. by destruct (run_wp_memory_model_probe _ _ _ _ _ _ _ _ _ _ _). }
  unfold or_stuck in H1. fold (probe_of response p text path) in H1. destruct (probe_of response p text path) as [probe'|] eqn:Hprobe; [|done].
  injection H1 as <- <-.
  assert (exists smoke, r = inl (probe', smoke, Some text) /\ s' = s1) as (smoke & -> & ->).
  { apply andThen_Some in H as [(smoke & s3 & H2 & [= <- <-])|(? & H2 & _)]; revert H2; destruct (q_smoke p); [|by intros [= <- <-]; eexists| |done];
      destruct (smoke_answer text) as [[[? ?] ?] ?]; unfold or_stuck, andThen; destruct (run_wp_smoke_probe _ _ _ _ _ _ _ _ _ _ _ _ _ _); [|done| |done];
      [|done]. intros [= <- <-]. by eexists. }
  eexists _, (Ok text). split; [done|]. split; [done|]. split; [done|]. intros _. by exists path.
Qed.

(** C5: the probe and the receipt of a run are about one print of the program.  When Frama-C
    prints a program that is not blank, the run prints it no second time and its receipt
    carries the digest of that text; a probe that ran read a file with that text, under
    the machine and the RTE settings of the load and the model, filter and functions of the
    run, and its answer is the one reported.  When the print fails the probe is reported
    as one that did not run over goals that were proved. *)
Theorem receipt_of_the_probed_print response args s r s' : is_object response = true ->
  attach response args s = Some (r, s') ->
  exists printed s1, print_source answer s = Some (inl printed, s1) /\
  match printed with
  | Ok text => is_empty (trim text) = false ->
      (exists l, sent s' = sent s1 ++ l /\ Forall not_printed l)
      /\ forall response', r = inl response' ->
           pointer ["proof_receipt"; "subject"; "ast_digest"] response' = Some (digest_of text)
           /\ forall probe, response' .? "memory_model_probe" = Some probe -> get_bool "ran" probe = Some true ->
                exists path, write_ast text (q_prefix (e_probe args)) = inl path /\ probe_of response (e_probe args) text path = Some probe
  | Err _ => forall response' probe, r = inl response' -> response' .? "memory_model_probe" = Some probe ->
      get_bool "ran" probe = Some false /\ get_bool "nothing_was_proved" probe = Some false
  end.
Proof.
  intros Ho. unfold attach_probe_and_receipt.
  intros [([[probe smoke] source] & s1 & Hp & H)|(e & Hp & _)]%andThen_Some;
    apply probes_spec in Hp as (a & printed & Ha & Hp & Hspec); [injection Ha as <-|done].
  exists printed, s1. split; [done|]. cbn [fst snd] in H.
  destruct printed as [text|error].
  - destruct Hspec as [Hsource Hran]. intros Hb. rewrite (Hsource Hb) in H.
    assert (Ht : is_empty text = false) by (by destruct text).
    apply attach_receipt_digest in H as [Hl H]; [|done|by destruct response, smoke]. split; [done|].
    intros response' Hr. destruct (H _ Hr) as [Hd Hk]. split; [done|]. intros probe' Hprobe.
    rewrite Hk in Hprobe by done. apply probe_in in Hprobe as <-; done.
  - destruct Hspec as (-> & Hran & Hnothing). intros response' probe' -> Hprobe.
    unfold attach_run_wp_receipt in H. apply andThen_Some in H as [(rows & s2 & _ & H)|(? & _ & ?)]; [|done].
    apply andThen_Some in H as [(receipt & s3 & Hr & [= <-])|(? & _ & ?)]; [|done].
    rewrite get_put_ne in Hprobe by done. apply probe_in in Hprobe as <-; done.
Qed.
End theorems.

(** ** Witness *)

Definition demo_printer (_ : list log_entry) (r : request) : Reply :=
  mkReply (Ok (mkExecResult (if request_name r =s PRINT_SOURCE then JStr "int f(void);" else JNull) (new_diagnostics "RQ.0" "demo"))) 1 0.
Definition demo_end : ProbeAndReceipt :=
  mkEnd (mkProbe no_options true ["f"] "frama-c-mcp-wp-probe-ast-" false) ["f.c"] [] (Some "f").
Definition demo_attach : option ((json + ErrorData) * Sys) :=
  attach_probe_and_receipt demo_printer (fun _ => "") 3 (fun _ => None) (fun _ => "") (fun s => "sha256 of " +s+ s) (fun s => s) (fun _ => inl "") (fun _ _ => inl JNull)
    (fun _ _ => JNull) "frama-c" (fun _ => "drawn") (fun _ prefix => inl ("/tmp/" +s+ prefix +s+ "x/current-ast.c")) (fun _ => "") (fun _ _ => Output (Some 0%Z) "" "")
    (fun _ => (None, None, 0%N, NoResult)) (fun s => s) (fun _ => false) None (fun _ => false) (JObj []) demo_end EvaRun.demo_sys.

Lemma receipt_of_the_probed_print_witness : exists response s', demo_attach = Some (inl response, s')
  /\ pointer ["proof_receipt"; "subject"; "ast_digest"] response = Some (JStr "sha256 of int f(void);")
  /\ exists probe path, response .? "memory_model_probe" = Some probe /\ path = "/tmp/frama-c-mcp-wp-probe-ast-x/current-ast.c" /\ get_bool "ran" probe = Some true.
Proof.
  destruct demo_attach as [[[response|] s']|] eqn:E; [|exfalso; revert E; vm_compute; discriminate|exfalso; revert E; vm_compute; discriminate].
  exists response, s'. split; [done|].
  destruct (receipt_of_the_probed_print demo_printer (fun _ => "") 3 (fun _ => None) (fun _ => "") (fun s => "sha256 of " +s+ s) (fun s => s) (fun _ => inl "")
    (fun _ _ => inl JNull) (fun _ _ => JNull) "frama-c" (fun _ => "drawn") (fun _ prefix => inl ("/tmp/" +s+ prefix +s+ "x/current-ast.c")) (fun _ => "")
    (fun _ _ => Output (Some 0%Z) "" "") (fun _ => (None, None, 0%N, NoResult)) (fun s => s) (fun _ => false) None (fun _ => false) (JObj []) demo_end
    EvaRun.demo_sys (inl response) s' eq_refl E) as (printed & s1 & Hp & H).
  injection Hp as <- _. cbn in H. destruct (H eq_refl) as [_ H1]. destruct (H1 _ eq_refl) as [Hd Hprobe]. split; [exact Hd|].
  assert (exists probe, response .? "memory_model_probe" = Some probe /\ get_bool "ran" probe = Some true) as (probe & Hm & Hran)
    by (revert E; vm_compute; intros [= <- <-]; by eexists).
  destruct (Hprobe _ Hm Hran) as (path & Hw & _). exists probe, path. split; [done|]. split; [|done]. by injection Hw.
Defined.
