(* ===== verification/FindingLists.v ===== *)
(** * The lists a caller reads (src/src/mcp/analysis.rs, src/src/mcp/server.rs)

    The property rows and the WP goals of a scope, as get_wp_goals answers them: which rows a
    function's scope keeps, the status filter, the comparison with an earlier receipt, and
    the goals with their kind, identity and advice.  A call is answered by one client, the
    main one or a sandbox's; its answers are an argument. *)

From S2P Require Import Prelude RustStr BTree Json Status Codec Client Verdicts Rows StableId Receipt WpTriage WpFailure Session Errors GoalDiff Sandboxes MainInstance Requests WpTasks RunWp.
Local Open Scope nat_scope.

(** ** Rows and scopes *)

(** A row of no function is in every scope: WP assumes it while discharging each goal. *)
Definition row_in_scope (scope_marker : option string) (row : json) : bool :=
  match scope_marker, as_str row.["scope"] with
  | Some marker, Some scope => scope =s marker
  | _, _ => true
  end.
Definition row_of_kind (kind : option string) (row : json) : bool :=
  match kind with Some kind => unwrap_or (as_str row.["kind"]) "" =s kind | None => true end.
Definition row_has_status (status : option string) (row : json) : bool :=
  match status with Some status => goal_status_matches (unwrap_or (as_str row.["status"]) "") status | None => true end.

(** A goal belongs to the scope its marker names, and to no other. *)
Definition goal_in_scope (scope_marker : option string) (goal : json) : bool :=
  match scope_marker with Some marker => as_str goal.["scope"] =?s marker | None => true end.

(** ** Authorship *)

Definition mark_origin (ours : gset string) (scope : option string) (row : json) : json :=
  if is_some_and (fun scope => negb (as_str row.["scope"] =?s scope)) scope then row
  else if as_str row.["kind"] =?s "behavior" then row
  else
    match collect_some as_str (array_or_empty row.["names"]) with
    | [] => row
    | named => put "origin" (JStr (if existsb (fun name => bool_decide (name ∈ ours)) named then "injected" else "source")) row
    end.

(** ** Goals *)

Section goals.
Variable hash_label_in : string -> option string.
Variable to_string : json -> string.
Variable sha256_hex : string -> string.

Definition finish_goal (goals_by_marker : row_map) (stable_scope : option string) (goal0 : json) : json :=
  let goal := enrich_goal_with_goal_dependencies goal0 goals_by_marker in
  let '(kind, hash_label) := classify_wp_goal hash_label_in goal in
  let goal := map_object (fun obj =>
      let obj := map_insert "goal_kind" (JStr kind) obj in
      match hash_label with Some label => map_insert "hash_label" (JStr label) obj | None => obj end) goal in
  enrich_goal_stable_id to_string sha256_hex goal kind stable_scope.

Definition enriched_goal (properties goals : row_map) (stable_scope : option string) (goal : json) : json :=
  finish_goal goals stable_scope (enrich_goal_with_property_status (add_identity_fields goal) properties).

(** The classification a goal carries, with the advice when no goal before it had its key. *)
Definition classified (function : option string) (carried : gset string) (goal : json) : json * gset string :=
  if goal_needs_failure_classification goal then
    let '(per_goal, key, advice) := split_goal_classification (classify_wp_failure_from_goal hash_label_in to_string sha256_hex goal function) in
    let per_goal := if bool_decide (key ∈ carried) then per_goal else put "advice" advice per_goal in
    (put "failure_classification" per_goal goal, {[key]} ∪ carried)
  else (goal, carried).

Fixpoint classified_goals (function : option string) (carried : gset string) (goals : list json) : list json :=
  match goals with
  | [] => []
  | goal :: goals => let '(goal, carried) := classified function carried goal in goal :: classified_goals function carried goals
  end.
End goals.

(** ** The calls *)

Section calls.
Variable answer : list (request * bool) -> request -> Reply.
Variable display_error : FramaCError -> string.
Variable debug_str : string -> string.
Variable fuel : nat.
Variable hash_label_in : string -> option string.
Variable to_string : json -> string.
Variable sha256_hex : string -> string.
(** Why a sandbox of that id cannot be asked. *)
Variable require_sandbox : string -> option ErrorData.
Abbreviation ask := (ask answer).
Abbreviation reload_fetch := (reload_fetch answer display_error fuel).
Abbreviation fetch_properties := (fetch_properties answer display_error fuel).
Abbreviation fetch_wp_goals := (fetch_wp_goals answer display_error fuel).
Abbreviation resolve_function_or_refresh := (resolve_function_or_refresh answer display_error fuel).

Definition accept_status (status : string) (rows : list json) : Tool unit :=
  match reject_unknown_status status (present_statuses rows) with
  | FilterAccepted => pure tt
  | FilterRefused status accepted =>
    raise (invalid_params_error ("status " +s+ debug_str status +s+ " is not a status this data can hold; accepted: " +s+ join ", " accepted))
  end.

Definition marker_of_function (function : option string) : Tool (option string) :=
  match function with
  | Some function => let* info := resolve_function_or_refresh function in pure (Some (fi_declaration info))
  | None => pure None
  end.

Definition eva_alarms_payload (function alarm_kind status : option string) : Tool json :=
  do* require_client in
  let* properties := fetch_properties in
  let* scope_marker := marker_of_function function in
  let in_scope := bfilter (fun row => row_in_scope scope_marker row && row_of_kind alarm_kind row) properties in
  do* match status with Some status => accept_status status in_scope | None => pure tt end in
  pure (JArr (bfilter (row_has_status status) in_scope)).

(** Which receipt the goals are compared with, and why it cannot be. *)
Definition unknown_since_error (since : string) : ErrorData :=
  invalid_params_error ("no run with proof_receipt.sha256 " +s+ debug_str since
    +s+ " in this session; `since` names a receipt this server handed out, and they are not kept across restarts").
Definition refuse_unusable_since (since function : string) : Tool unit :=
  let* receipt := gets (fun s => receipt_body since (session s)) in
  match receipt with
  | None => raise (unknown_since_error since)
  | Some receipt =>
    match pointer ["wp"; "functions"] receipt ≫= as_array with
    | Some [f] =>
      if as_str f =?s function then pure tt
      else raise (invalid_params_error ("since receipt was not scoped to function " +s+ debug_str function +s+ "; compare runs with the same scope"))
    | _ => raise (invalid_params_error ("since receipt was not scoped to function " +s+ debug_str function +s+ "; compare runs with the same scope"))
    end
  end.
Definition diff_since (function status since : option string) : Tool (option string) :=
  match since, function, status with
  | Some _, _, Some _ => raise (invalid_params_error "status cannot be combined with since; a diff already reports every status transition")
  | Some _, None, _ => raise (invalid_params_error "function is required with since so both runs have the same scope")
  | Some since, Some function, None => do* refuse_unusable_since since function in pure (Some since)
  | None, _, _ => pure None
  end.

(** The marker and the name of the scope, a sandbox's read off its own functions. *)
Definition goal_scope (function : option string) : Tool (option string * option string) :=
  match opt_filter (contains ":") function with
  | Some sandbox =>
    match scope_for_function sandbox with
    | Sandboxes.ScopeSandbox id name =>
      match require_sandbox id with
      | Some error => raise error
      | None =>
        let* functions := reload_fetch "kernel.ast.reloadFunctions" "kernel.ast.fetchFunctions" in
        pure (find_map (fun f => if get_str "name" f =?s name then get_str "decl" f else None) functions, Some name)
      end
    | Sandboxes.ScopeMain name => do* require_client in pure (None, Some name)
    end
  | None => do* require_client in let* marker := marker_of_function function in pure (marker, function)
  end.

Definition mark_clause_origin (function scope : option string) (rows : list json) : Tool (list json) :=
  match function, scope with
  | Some function, Some scope =>
    let* reply := ask (Get "plugins.ast-utils.getClauseOrigin" (JStr function)) in
    pure match reply with
         | Ok a => map (mark_origin (list_to_set (collect_some as_str (array_or_empty (data a).["names"]))) (Some scope)) rows
         | Err _ => rows
         end
  | _, _ => pure rows
  end.

Definition wp_goals_payload (function status since : option string) : Tool json :=
  let* diff_since := diff_since function status since in
  let* (scope_marker, stable_scope) := goal_scope function in
  let* properties := fetch_properties in
  let* properties := mark_clause_origin stable_scope scope_marker properties in
  let properties := property_status_map properties in
  let* goals := fetch_wp_goals in
  let goals := map add_identity_fields goals in
  do* match status with Some status => accept_status status (bfilter (goal_in_scope scope_marker) goals) | None => pure tt end in
  let selected := bfilter (fun goal => goal_in_scope scope_marker goal && row_has_status status goal) goals in
  match diff_since with
  | Some since =>
    let current := proof_receipt_goals to_string sha256_hex hash_label_in selected stable_scope properties in
    let* previous := gets (fun s => receipt_goals since (session s)) in
    match previous with None => raise (unknown_since_error since) | Some previous => pure (proof_goal_diff since previous current) end
  | None =>
    pure (JArr (classified_goals hash_label_in to_string sha256_hex function ∅
      (map (enriched_goal hash_label_in to_string sha256_hex properties (property_status_map goals) stable_scope) selected)))
  end.
End calls.

(** ** Theorems *)

Section theorems.
Context (hash_label_in : string -> option string) (to_string : json -> string) (sha256_hex : string -> string) (function : option string).
Abbreviation classify goal := (classify_wp_failure_from_goal hash_label_in to_string sha256_hex goal function).
Abbreviation key_of goal := (advice_key (classify goal)).
Abbreviation one := (classified hash_label_in to_string sha256_hex function).
Abbreviation list_of := (classified_goals hash_label_in to_string sha256_hex function).

(** The keys given out by the goals before. *)
Definition keys_given (goals : list json) : gset string := list_to_set (map (fun goal => key_of goal) (bfilter goal_needs_failure_classification goals)).

Lemma elem_of_keys_given k goals : k ∈ keys_given goals <-> exists j goal, goals !! j = Some goal /\ goal_needs_failure_classification goal = true /\ key_of goal = k.
Proof.
  unfold keys_given. rewrite elem_of_list_to_set, list_elem_of_fmap. split.
  - intros (goal & -> & [Hin Hn]%elem_of_bfilter). apply list_elem_of_lookup in Hin as [j Hj]. by exists j, goal.
  - intros (j & goal & Hj & Hn & <-). exists goal. split; [done|]. apply elem_of_bfilter. split; [by apply list_elem_of_lookup_2 in Hj|done].
Qed.

Lemma classified_goals_lookup goals : forall carried i,
  list_of carried goals !! i = (fun goal => (one (keys_given (take i goals) ∪ carried) goal).1) <$> goals !! i.
Proof.
  induction goals as [|goal goals IH]; intros carried i; [done|]. cbn [classified_goals].
  destruct (one carried goal) as [g carried'] eqn:E. destruct i as [|i]; [rewrite firstn_O|]; cbn -[keys_given].
  - assert (keys_given [] ∪ carried = carried) as -> by (unfold keys_given; cbn; set_solver). by rewrite E.
  - rewrite IH. assert (keys_given (take i goals) ∪ carried' = keys_given (goal :: take i goals) ∪ carried) as ->; [|done].
    revert E. unfold classified, keys_given. cbn. destruct (goal_needs_failure_classification goal); cbn; intros [= _ <-]; set_solver.
Qed.

Definition carries (key : string) (advice : json) (goal : json) : Prop :=
  exists c, goal .? "failure_classification" = Some c /\ get_str "advice_key" c = Some key /\ c .? "advice" = Some advice.

Lemma classified_object goal carried : is_object goal = true -> goal_needs_failure_classification goal = true ->
  exists c, (one carried goal).1 .? "failure_classification" = Some c /\ get_str "advice_key" c = Some (key_of goal)
    /\ c .? "advice" = if bool_decide (key_of goal ∈ carried) then None else Some (advice_of (classify goal)).
Proof.
  intros Ho Hn. unfold classified. rewrite Hn. cbn [fst split_goal_classification]. destruct goal as [| | | | |m]; try done.
  eexists. split; [cbn; apply map_get_insert|]. by destruct (bool_decide _).
Qed.

(** Some goal at or before a classified one carries the advice it was classified with. *)
Lemma carrier_before goals : Forall (fun goal => is_object goal = true) goals ->
  forall i goal, goals !! i = Some goal -> goal_needs_failure_classification goal = true ->
  exists j g, j <= i /\ list_of ∅ goals !! j = Some g /\ carries (key_of goal) (advice_of (classify goal)) g.
Proof.
  intros Hobj i. induction i as [i IH] using lt_wf_ind. intros goal Hi Hn.
  destruct (decide (key_of goal ∈ keys_given (take i goals))) as [Hin|Hout].
  - apply elem_of_keys_given in Hin as (j & goal' & Hj & Hn' & Hk). apply lookup_take_Some in Hj as [Hj Hlt].
    destruct (IH j Hlt goal' Hj Hn') as (j' & g & Hle & Hg & Hc). exists j', g. split; [lia|]. split; [done|].
    rewrite <- Hk. by rewrite (same_key_same_advice hash_label_in to_string sha256_hex goal goal' function function).
  - rewrite Forall_lookup in Hobj. destruct (classified_object goal (keys_given (take i goals) ∪ ∅) (Hobj _ _ Hi) Hn) as (c & Hc & Hk & Ha).
    exists i, (one (keys_given (take i goals) ∪ ∅) goal).1. split; [done|]. rewrite classified_goals_lookup, Hi. split; [done|].
    exists c. split_and!; [done|done|]. rewrite Ha, bool_decide_eq_false_2; [done|set_solver].
Qed.

(** The goals of a list lose no advice by sharing it.  The list has the goals it was given
    in their order; one that needs no classification is unchanged; one that does names
    the key of its own classification, and a goal at or before its place carries the very
    advice that classification gives; of the goals with one key exactly one carries it. *)
Theorem advice_reaches_every_goal goals (out := list_of ∅ goals) : Forall (fun goal => is_object goal = true) goals ->
  length out = length goals /\
  forall i goal, goals !! i = Some goal -> exists g, out !! i = Some g /\
    if goal_needs_failure_classification goal then
      (exists c, g .? "failure_classification" = Some c /\ get_str "advice_key" c = Some (key_of goal))
      /\ (exists j g', j <= i /\ out !! j = Some g' /\ carries (key_of goal) (advice_of (classify goal)) g')
      /\ forall j goal' g' a a', goals !! j = Some goal' -> goal_needs_failure_classification goal' = true -> key_of goal' = key_of goal ->
           out !! j = Some g' -> carries (key_of goal) a g -> carries (key_of goal) a' g' -> i = j
    else g = goal.
Proof.
  intros Hobj. subst out. split.
  { clear Hobj. generalize (∅ : gset string). induction goals as [|goal goals IH]; intros carried; [done|]. cbn. destruct (one carried goal). cbn. by rewrite IH. }
  intros i goal Hi. eexists. split; [by rewrite classified_goals_lookup, Hi|]. destruct (goal_needs_failure_classification goal) eqn:Hn.
  2: { unfold classified. by rewrite Hn. }
  assert (Hobj' := Hobj). rewrite Forall_lookup in Hobj'.
  assert (Hfirst : forall i j goal goal' g g' a a', goals !! i = Some goal -> goals !! j = Some goal' -> goal_needs_failure_classification goal = true ->
    goal_needs_failure_classification goal' = true -> key_of goal' = key_of goal -> list_of ∅ goals !! i = Some g -> list_of ∅ goals !! j = Some g' ->
    carries (key_of goal) a g -> carries (key_of goal) a' g' -> ~ i < j).
  { clear i goal Hi Hn. intros i j goal goal' g g' a a' Hi Hj Hn Hn' Hk _ Hg' _ (c' & Hc' & _ & Ha') Hlt.
    rewrite classified_goals_lookup, Hj in Hg'. injection Hg' as <-.
    destruct (classified_object goal' (keys_given (take j goals) ∪ ∅) (Hobj' _ _ Hj) Hn') as (c & Hc & _ & Ha).
    rewrite Hc in Hc'. injection Hc' as <-. rewrite Ha in Ha'. rewrite bool_decide_eq_true_2 in Ha'; [done|].
    apply elem_of_union_l, elem_of_keys_given. exists i, goal. split; [|done]. by apply lookup_take_Some. }
  split_and!.
  - destruct (classified_object goal (keys_given (take i goals) ∪ ∅) (Hobj' _ _ Hi) Hn) as (c & Hc & Hk & _). by exists c.
  - by apply carrier_before.
  - intros j goal' g' a a' Hj Hn' Hk Hg' Hc Hc'.
    assert (Hg : list_of ∅ goals !! i = Some (one (keys_given (take i goals) ∪ ∅) goal).1) by (by rewrite classified_goals_lookup, Hi).
    assert (~ i < j) by eauto. assert (~ j < i); [|lia]. rewrite <- Hk in Hc, Hc'. eapply Hfirst; eauto.
Qed.
End theorems.

(** *** Witness *)

Definition demo_goals : list json :=
  [JObj [("name", JStr "Post-condition"); ("status", JStr "unknown")]; JObj [("name", JStr "Assertion"); ("status", JStr "valid")];
   JObj [("name", JStr "Post-condition"); ("status", JStr "unknown"); ("fct", JStr "g")]].
Definition demo_list : list json := classified_goals (fun _ => None) (fun _ => "") (fun s => s) None ∅ demo_goals.

Lemma advice_reaches_every_goal_witness :
  length demo_list = 3 /\ exists g, demo_list !! 2 = Some g /\ exists key advice, carries key advice (unwrap_or (demo_list !! 0) JNull)
    /\ (exists c, g .? "failure_classification" = Some c /\ get_str "advice_key" c = Some key /\ c .? "advice" = None).
Proof.
  destruct (advice_reaches_every_goal (fun _ => None) (fun _ => "") (fun s => s) None demo_goals ltac:(by repeat constructor)) as [Hl H].
  split; [exact Hl|]. destruct (H 2 _ eq_refl) as (g & Hg & Hrest). exists g. split; [exact Hg|].
  destruct Hrest as ((c & Hc & Hk) & _ & _). eexists _, _. split; [eexists; split_and!; vm_compute; reflexivity|].
  exists c. split; [exact Hc|]. revert Hg Hc. vm_compute. intros [= <-] [= <-]. by split.
Defined.
