(* ===== verification/Reload.v ===== *)
(** * Loading a project (src/src/mcp/project.rs and server.rs)

    [reload_project] as a whole: the settings a load gets from the call and from a named
    profile, the files it names, the process it ends in, what the session forgets and
    learns, and which markers of the previous program moved.  The answers of the disk, of
    a spawn and of Frama-C are arguments. *)

From S2P Require Import Prelude RustStr BTree Json Codec Client Verdicts Rows Receipt Variants Session Conclusions Errors WpConfig CompileDb SourceIdentity ParseLog MainInstance Requests WpTasks RunWp.
Local Open Scope nat_scope.

(** ** Parameters *)

(** The parameters of a load that a check passes on. *)
Record LoadParams := mkLoad {
  l_files : option (list string);
  l_include_paths : option (list string);
  l_defines : option (list string);
  l_force_includes : option (list string);
  l_isystem_paths : option (list string);
  l_nostdinc : option bool;
  l_machdep : option string;
  l_compilation_database : option string;
  l_verify_profile : option string;
  l_rte : option bool;
  l_rte_unsigned : option bool;
  l_rte_pointer : option bool;
  l_builtin_models : option bool;
}.

(** The profiles to register, where they come from, and whether every field of a function is
    to be listed. *)
Record ReloadProjectParams := mkReload {
  l_load : LoadParams;
  l_verify_profiles : option json;
  l_verify_profiles_source : option string;
  l_full : bool;
}.

(** ** Markers and where they are *)

#[export] Instance MarkerLocation_eq_dec : EqDecision MarkerLocation.
Proof. solve_decision. Defined.

Definition marker_file_line (location : option json) : option string * option N :=
  (location ≫= get_str "file", location ≫= get_u64 "line").

Definition insert_location (m : gmap string MarkerLocation) (l : MarkerLocation) : gmap string MarkerLocation := <[marker l := l]> m.

(** A row is known under its declaration and under its variable. *)
Definition function_locations (entry : json) : list MarkerLocation :=
  let '(file, line) := marker_file_line (entry .? "sloc") in
  map (fun m => mkMarkerLocation "function" m (get_str "decl" entry) (get_str "name" entry) None file line)
    (option_list (get_str "decl" entry) ++ option_list (get_str "key" entry)).
Definition function_marker_locations (entries : list json) : list MarkerLocation := entries ≫= function_locations.

Definition property_location (names : gmap string string) (property : json) : option MarkerLocation :=
  (fun m =>
    let scope := get_str "scope" property in
    let '(file, line) := marker_file_line (property .? "source_location" <||> property .? "source" <||> property .? "loc") in
    mkMarkerLocation "property" m scope (scope ≫= fun scope => names !! scope)
      ((property .? "kinstr_marker" <||> property .? "kinstr") ≫= as_str) file line) <$> value_marker property.
Definition property_marker_locations (names : gmap string string) (properties : list json) : list MarkerLocation :=
  collect_some (property_location names) properties.

Definition declared_name (function : json) : option (string * string) :=
  get_str "decl" function ≫= fun decl => (fun name => (decl, name)) <$> get_str "name" function.

(** A later row replaces an earlier one under the same marker, a property's a function's. *)
Definition marker_locations (functions properties : list json) : gmap string MarkerLocation :=
  let names := fold_left (fun m e => <[e.1 := e.2]> m) (collect_some declared_name functions) ∅ in
  fold_left insert_location (function_marker_locations functions ++ property_marker_locations names (map add_identity_fields properties)) ∅.

Definition missing_marker (m : string) : MarkerLocation := mkMarkerLocation "missing" m None None None None None.

Definition moved (current : gmap string MarkerLocation) (m : string) (old : MarkerLocation) : option StaleMarker :=
  let new := unwrap_or (current !! m) (missing_marker m) in
  if bool_decide (old = new) then None else Some (mkStaleMarker old new).
Definition stale_marker_locations (previous current : gmap string MarkerLocation) : gmap string StaleMarker :=
  map_imap (moved current) previous.

Definition stale_marker_json (m : StaleMarker) : json :=
  JObj [("previous", marker_location_json (previous m)); ("current", marker_location_json (current m))].

(** ** What a load asks for *)

(** The call wins, then the profile, then the default. *)
Definition requested_flag (explicit : option bool) (profile : option VerificationProfile) (pick : VerificationProfile -> option bool) : option bool :=
  explicit <||> (profile ≫= pick).
Definition requested_list (explicit : option (list string)) (profile : option VerificationProfile) (pick : VerificationProfile -> list string) : list string :=
  unwrap_or explicit (unwrap_or (pick <$> profile) []).

Definition requested_files (params : LoadParams) (profile : option VerificationProfile) : option (list string) :=
  l_files params <||> (p_sources <$> opt_filter (fun p => negb (bool_decide (p_sources p = []))) profile).

Definition requested_options (builtin_models_digest : string) (params : LoadParams) (profile : option VerificationProfile) : ProjectLoadOptions :=
  let flag := fun explicit pick => unwrap_or (requested_flag explicit profile pick) false in
  let list := fun explicit pick => requested_list explicit profile pick in
  mkProjectLoadOptions
    (list (l_include_paths params) p_include_paths) (list (l_defines params) p_defines) (list (l_force_includes params) p_force_includes)
    (l_machdep params <||> (profile ≫= p_machdep)) (l_compilation_database params)
    (flag (l_rte params) p_rte) (list (l_isystem_paths params) p_isystem_paths) (flag (l_nostdinc params) p_nostdinc)
    (opt_eqb Bool.eqb (requested_flag (l_rte_unsigned params) profile p_rte_unsigned) (Some false))
    (opt_eqb Bool.eqb (requested_flag (l_rte_pointer params) profile p_rte_pointer) (Some true))
    (then_some (opt_eqb Bool.eqb (requested_flag (l_builtin_models params) profile p_builtin_models) (Some true)) builtin_models_digest).

Definition requested_load (builtin_models_digest : string) (params : LoadParams) (profile : option VerificationProfile)
    : (option (list string) * ProjectLoadOptions) + ErrorData :=
  let options := requested_options builtin_models_digest params profile in
  match validate_project_options options with
  | Some e => inr (mkErrorData InvalidParams e)
  | None => inl (requested_files params profile, options)
  end.

Definition profile_used_json (name : option string) (p : VerificationProfile) : json :=
  JObj [("name", jopt JStr name); ("sources", jstrings (p_sources p)); ("model", jopt JStr (p_model p)); ("machdep", jopt JStr (p_machdep p));
        ("rte", jopt JBool (p_rte p)); ("isystem_paths", jstrings (p_isystem_paths p)); ("nostdinc", jopt JBool (p_nostdinc p));
        ("reproduce", jopt JStr (p_reproduce p))].

Definition register_profiles (parsed : option (gmap string VerificationProfile)) (source : option string) (s : SessionState) : SessionState :=
  match parsed with
  | None => s
  | Some profiles =>
    mkSession (Session.project_loaded s) (eva_completed s) (wp_completed s) (Session.functions s) (stale_markers s) (globals s) (callgraph_edges s)
      (callgraph_vertices s) (conclusions s) (project_state s) profiles source (seen_receipts s)
  end.

Definition set_project_loaded (loaded : bool) (s : SessionState) : SessionState :=
  mkSession loaded (eva_completed s) (wp_completed s) (Session.functions s) (stale_markers s) (globals s) (callgraph_edges s)
    (callgraph_vertices s) (conclusions s) (project_state s) (verification_profiles s) (verification_profiles_source s) (seen_receipts s).

(** ** The load *)

Definition reload_health_error (display_error : FramaCError -> string) (request_ : string) (error : FramaCError) : ErrorData :=
  mkErrorData InternalError (mkMcpError ("reload health check failed at " +s+ request_ +s+ ": " +s+ display_error error)
    (Some (JObj [("kind", JStr "ReloadHealthCheckFailed"); ("request", JStr request_); ("message", JStr (display_error error)); ("retryable", JBool true)]))).

Definition project_locked_reload : ErrorData :=
  project_locked_error ("Project is locked. reload_project is blocked during Phase 2 to prevent annotation loss. If you are verifying in a sandbox, do NOT call reload_project; use create_sandbox or delete_sandbox instead. Call verify_program_step with lock_project=false first if this is the final main-project gate.").

Definition poisoned_without_files : ErrorData :=
  mkErrorData InternalError (mkMcpError "the Frama-C transport is poisoned and no file list is cached; pass files explicitly to reload_project to recover"
    (Some (JObj [("kind", JStr "TransportPoisoned"); ("retryable", JBool true);
                 ("suggestion", suggest "reload_project" (JObj [("files", JArr [JStr "/path/to/source.c"])]))]))).

Definition UNSIGNED_SETTERS : list string := ["kernel.parameters.setWarnUnsignedOverflow"; "kernel.parameters.setWarnUnsignedDowncast"].
Definition POINTER_SETTER : string := "kernel.parameters.setWarnInvalidPointer".
Definition AST_COMPUTE_BUDGET : N := 120000.
Definition STALE_MARKER_SAMPLE : nat := 20.

Definition entry_summary (entry : json) : json :=
  JObj [("name", unwrap_or (entry .? "name") JNull); ("defined", unwrap_or (entry .? "defined") JNull)].

(** What a load has done when it answers. *)
Record Loaded := mkLoaded {
  o_files : list string;
  o_options : ProjectLoadOptions;
  o_profile_used : option json;
  o_machdep_digest : option string;
  o_dropped_flags : option json;
  o_entries : list json;
  o_health : json;
  o_compared : bool;
  o_stale : gmap string StaleMarker;
  o_messages : list json;
  o_truncated : bool;
}.

Section reload.
Variable answer : list log_entry -> request -> Reply.
Variable display_error : FramaCError -> string.
Variable fuel : nat.
Variable profile_of_json : json -> VerificationProfile + string.
Variable sha256_hex : string -> string.
Variable builtin_models_text : string.
(** The disk: a text, the value in it, and the digest of a machine model. *)
Variable read_text : string -> string + string.
Variable from_str : string -> json + string.
Variable file_digest : string -> option string.
(** What a spawn needs and what it is answered. *)
Variable executable_in_path : string -> bool.
Variable builtin_models_header : option string.
Variable frama_c_path : string.
Variable server_pid : N.
Variable log_root : string.
Variable current_dir : option string.
Variable load_answers : list log_entry -> list string -> ProjectLoadOptions -> Answers.
(** The log of the process and where it is. *)
Variable lossy : string -> string.
Variable read_log : list log_entry -> MainFramaCState -> string + string.
Variable log_path : MainFramaCState -> string.
Abbreviation ask := (ask answer).
Abbreviation get := (get answer display_error).
Abbreviation set_ := (set_ answer display_error).
Abbreviation exec_ := (exec_ answer display_error).
Abbreviation reload_fetch := (reload_fetch answer display_error fuel).
Abbreviation ensure := (ensure_main_spawned executable_in_path builtin_models_header frama_c_path server_pid log_root current_dir).

Definition resolve_verify_profile (params : ReloadProjectParams) : Tool (option VerificationProfile * option json) :=
  let* registering := match l_verify_profiles params with
    | None => pure None
    | Some value => match parse_verification_profiles profile_of_json value with inl profiles => pure (Some profiles) | inr e => raise (invalid_params_error e) end
    end in
  do* modify (set_session (register_profiles registering (l_verify_profiles_source params))) in
  match l_verify_profile (l_load params) with
  | None => pure (None, None)
  | Some name =>
    let* profiles := gets (fun s => verification_profiles (session s)) in
    match profiles !! name with
    | Some p => pure (Some p, Some (profile_used_json (l_verify_profile (l_load params)) p))
    | None => raise (mkErrorData InvalidParams (unknown_verify_profile name profiles))
    end
  end.

Definition files_for_this_load (requested : option (list string)) (database : option CompileDatabase) : Tool (list string) :=
  match requested, database with
  | Some files, _ => pure files
  | None, Some database => from_sum (with_code InvalidParams (compile_database_files database))
  | None, None =>
    let* client := gets (fun s => client (server s)) in
    match client with
    | Some true =>
      let* main := gets (fun s => main (server s)) in
      match unwrap_or (files <$> main) [] with
      | [] => raise poisoned_without_files
      | files => pure files
      end
    | Some false => let* value := get "kernel.ast.getFiles" JNull in pure (collect_some as_str (unwrap_or (as_array value) []))
    | None => raise no_project_loaded_error
    end
  end.

Definition marker_location_snapshot : Tool (gmap string MarkerLocation) :=
  let* functions := reload_fetch "kernel.ast.reloadFunctions" "kernel.ast.fetchFunctions" in
  let* properties := reload_fetch "kernel.properties.reloadStatus" "kernel.properties.fetchStatus" in
  pure (marker_locations functions properties).
Definition snapshot : Tool (option (gmap string MarkerLocation)) :=
  let* r := try marker_location_snapshot in pure match r with inl m => Some m | inr _ => None end.

Definition reload_files_in_place (files : list string) : Tool unit :=
  do* set_ "kernel.ast.setFiles" (JArr []) in
  do* set_ "kernel.ast.setFiles" (jstrings files) in
  do* exec_ "kernel.ast.compute" JNull AST_COMPUTE_BUDGET in
  pure tt.

(** The instance as MainInstance decides it, with what the socket answered; a state
    without a client is a panic. *)
Definition take_instance (files : list string) (options : ProjectLoadOptions) (w : Answers) (respawns : bool) : Tool unit := fun s =>
  match ensure files options w (server s) with
  | None => None
  | Some (server', None) => Some (inl tt, set_session (set_project_loaded true) (set_server (fun _ => server') s))
  | Some (server', Some e) => Some (inr e, set_session (fun session => if respawns then session else set_project_loaded false session) (set_server (fun _ => server') s))
  end.
Definition ensure_main (files : list string) (options : ProjectLoadOptions) : Tool unit :=
  let* w := gets (fun s => load_answers (sent s) files options) in
  let* respawns := gets (fun s => needs_respawn (main (server s)) (client (server s)) options (identity_before w)) in
  if respawns then
    do* match spawn_answer w with Listening _ _ => enable_log_monitoring answer | _ => pure tt end in
    take_instance files options w true
  else
    let* r := try (reload_files_in_place files) in
    take_instance files options
      (mkAnswers (identity_before w) (identity_after w) match r with inl _ => None | inr e => Some e end (spawn_answer w)) false.

Definition set_alarms (options : ProjectLoadOptions) : Tool unit :=
  do* each (fun setter => set_ setter (JBool (unsigned_rte options))) UNSIGNED_SETTERS in
  set_ POINTER_SETTER (JBool (pointer_rte options)).

Definition reload_health_get (request_ : string) (data_ : json) : Tool json :=
  let* o := ask (Get request_ data_) in match o with Ok a => pure (data a) | Err e => raise (reload_health_error display_error request_ e) end.
Fixpoint health_pages (fuel : nat) (name : string) (entries : list json) : Tool (list json) :=
  match fuel with
  | O => stuck
  | S fuel =>
    let* page := reload_health_get name (jN 20000) in
    let entries := add_page entries page in
    if (page_pending page =? 0)%N then pure entries else health_pages fuel name entries
  end.
Definition reload_health_fetch_all (reload_request fetch_request : string) : Tool (list json) :=
  do* reload_health_get reload_request JNull in health_pages fuel fetch_request [].

Definition ast_reload_health (diagnostics : json) : Tool (list json * json) :=
  let* files := reload_health_get "kernel.ast.getFiles" JNull in
  let* functions := reload_health_fetch_all "kernel.ast.reloadFunctions" "kernel.ast.fetchFunctions" in
  let* globals := reload_health_fetch_all "kernel.ast.reloadGlobals" "kernel.ast.fetchGlobals" in
  let* properties := reload_health_fetch_all "kernel.properties.reloadStatus" "kernel.properties.fetchStatus" in
  pure (functions,
    JObj [("checked", JBool true);
          ("requests", JObj [("get_files", JStr "kernel.ast.getFiles"); ("reload_functions", JStr "kernel.ast.reloadFunctions");
             ("fetch_functions", JStr "kernel.ast.fetchFunctions"); ("reload_globals", JStr "kernel.ast.reloadGlobals");
             ("fetch_globals", JStr "kernel.ast.fetchGlobals"); ("reload_properties", JStr "kernel.properties.reloadStatus");
             ("fetch_properties", JStr "kernel.properties.fetchStatus")]);
          ("files_count", jnat (length (unwrap_or (as_array files) []))); ("functions_count", jnat (length functions));
          ("globals_count", jnat (length globals)); ("properties_count", jnat (length properties)); ("parse_diagnostics", diagnostics)]).

(** The record of the parse, read and kept under one lock. *)
Definition read_parse_diagnostics : Tool json := fun s =>
  let '(server', record) :=
    match main (server s) with
    | Some m => parse_diagnostics lossy (read_log (sent s) m) (log_path m) (server s)
    | None => parse_diagnostics lossy (inr "") "" (server s)
    end in
  Some (inl record, set_server (fun _ => server') s).

(** Everything a session knew of the previous program. *)
Definition renew (entries : list json) (s : SessionState) : SessionState :=
  set_project_loaded true (update_functions entries (invalidate_all s)).

Definition run_load (requested : option (list string)) (options : ProjectLoadOptions) (profile_used : option json) : Tool Loaded :=
  let* had_client := gets (fun s => client (server s)) in
  let* previous := match had_client with Some _ => snapshot | None => pure None end in
  let database := (fun path => read_database path (read_text path) from_str) <$> compilation_database options in
  let* files := files_for_this_load requested database in
  let digest := machdep_digest file_digest (machdep options) in
  do* ensure_main files options in
  do* require_client in
  do* set_alarms options in
  let* diagnostics := read_parse_diagnostics in
  let* (entries, health) := ast_reload_health diagnostics in
  do* modify (set_session (renew entries)) in
  let* current := snapshot in
  let stale := match previous, current with Some previous, Some current => stale_marker_locations previous current | _, _ => ∅ end in
  do* modify (set_session (set_stale_markers stale)) in
  let* (messages, truncated) := drain_messages answer in
  pure (mkLoaded files options profile_used digest (dropped_flags <$> database) entries health (is_Some_b previous && is_Some_b current) stale messages truncated).

Definition reload_payload (full : bool) (o : Loaded) (s : SessionState) : json :=
  let options := o_options o in
  let stale := map (fun e => stale_marker_json e.2) (btree_entries (o_stale o)) in
  let shown := take STALE_MARKER_SAMPLE stale in
  let payload := JObj
    [("functions", JArr (if full then o_entries o else map entry_summary (o_entries o))); ("detail", JStr (if full then "full" else "summary"));
     ("files", jstrings (o_files o)); ("rte", JBool (rte options)); ("include_paths", jstrings (include_paths options));
     ("defines", jstrings (defines options)); ("force_includes", jstrings (force_includes options));
     ("isystem_paths", jstrings (isystem_paths options)); ("nostdinc", JBool (nostdinc options)); ("machdep", jopt JStr (machdep options));
     ("machdep_digest", jopt JStr (o_machdep_digest o)); ("compilation_database", jopt JStr (compilation_database options));
     ("compilation_database_dropped_flags", unwrap_or (o_dropped_flags o) JNull);
     ("source_location_stability", JObj
        [("checked", JBool (o_compared o)); ("stale_marker_count", jnat (length stale)); ("stale_markers", JArr shown);
         ("stale_markers_omitted", jnat (length stale - length shown))]);
     ("ast_reload_health", o_health o); ("messages", JArr (o_messages o)); ("messages_truncated", JBool (o_truncated o))] in
  let payload := match o_profile_used o with Some used => put "verify_profile" used payload | None => payload end in
  if bool_decide (verification_profiles s = ∅) then payload
  else put "verify_profiles_registered"
         (JObj [("names", jstrings (btree_entries (verification_profiles s)).*1); ("source", jopt JStr (verification_profiles_source s))]) payload.

(** [locked] is whether the project is locked when the call asks, and again under the locks. *)
Definition refuse_reload_while (locked : bool) : Tool unit := if locked then raise project_locked_reload else pure tt.

Definition reload_project (locked : bool * bool) (params : ReloadProjectParams) : Tool json :=
  do* refuse_reload_while locked.1 in
  let* (profile, profile_used) := resolve_verify_profile params in
  let* (requested, options) := from_sum (requested_load (sha256_hex builtin_models_text) (l_load params) profile) in
  do* refuse_reload_while locked.2 in
  let* o := run_load requested options profile_used in
  let* s := gets session in
  pure (reload_payload (l_full params) o s).
End reload.

(** ** Theorems *)

(** *** Settings by name *)

(** What was given explicitly is what the profile says. *)
Definition given_as {A} (explicit : option A) (v : A) : Prop := forall x, explicit = Some x -> x = v.
(** The same, of a field a profile may leave open. *)
Definition given_as_stated {A} (explicit stated : option A) : Prop := forall x y, explicit = Some x -> stated = Some y -> x = y.

Lemma requested_list_profile explicit p pick : pick p = requested_list explicit (Some p) pick <-> given_as explicit (pick p).
Proof. unfold requested_list, given_as. destruct explicit as [x|]; cbn; split; [intros <- ? [= <-]|intros H; by rewrite (H x)|intros _ ?|]; done. Qed.

Lemma requested_flag_stated explicit p (pick : VerificationProfile -> option bool) :
  is_none_or (fun want => Bool.eqb want (unwrap_or (requested_flag explicit (Some p) pick) false)) (pick p) = true <-> given_as_stated explicit (pick p).
Proof.
  unfold requested_flag, given_as_stated. cbn. destruct explicit as [x|], (pick p) as [w|]; cbn; try (split; [intros _ ??|]; done);
    rewrite Bool.eqb_true_iff; split; [intros <- ?? [= <-] [= <-]|intros H; by rewrite (H x w)|intros _ ?? ?|]; done.
Qed.

Lemma requested_flag_skipped explicit p (pick : VerificationProfile -> option bool) :
  is_none_or (fun want => negb (Bool.eqb want (opt_eqb Bool.eqb (requested_flag explicit (Some p) pick) (Some false)))) (pick p) = true
  <-> given_as_stated explicit (pick p).
Proof.
  unfold requested_flag, given_as_stated. cbn. destruct explicit as [[]|], (pick p) as [[]|]; cbn; split; try done; try (by intros _ ?? [= <-] [= <-]); 
    intros H; by specialize (H _ _ eq_refl eq_refl).
Qed.

Lemma requested_flag_asked explicit p (pick : VerificationProfile -> option bool) :
  Bool.eqb (unwrap_or (pick p) false) (opt_eqb Bool.eqb (requested_flag explicit (Some p) pick) (Some true)) = true
  <-> given_as explicit (unwrap_or (pick p) false).
Proof.
  unfold requested_flag, given_as. cbn. destruct explicit as [[]|], (pick p) as [[]|]; cbn; split; try done; try (by intros _ ? [= <-]);
    intros H; by specialize (H _ eq_refl).
Qed.

(** C15: a target loaded by name is that target, unless the call departed from it.  When a
    profile was named, what the load ends with is what a proof run of that profile accepts
    if and only if no compilation database was named and every setting the call gave is the
    profile's; but whether runtime errors are generated, whether unsigned arithmetic is
    checked and whether system headers are dropped are compared only where the profile
    states them. *)
Theorem named_load_matches digest params p requested options files :
  requested_load digest params (Some p) = inl (requested, options) -> requested = Some files \/ (requested = None /\ p_sources p = []) ->
  profile_matches_loaded_project p files options = true <->
  l_compilation_database params = None /\ (p_sources p = [] \/ given_as (l_files params) (p_sources p))
  /\ given_as (l_include_paths params) (p_include_paths p) /\ given_as (l_defines params) (p_defines p)
  /\ given_as (l_force_includes params) (p_force_includes p) /\ given_as (Some <$> l_machdep params) (p_machdep p)
  /\ given_as (l_isystem_paths params) (p_isystem_paths p)
  /\ given_as (l_rte_pointer params) (unwrap_or (p_rte_pointer p) false) /\ given_as (l_builtin_models params) (unwrap_or (p_builtin_models p) false)
  /\ given_as_stated (l_rte params) (p_rte p) /\ given_as_stated (l_rte_unsigned params) (p_rte_unsigned p) /\ given_as_stated (l_nostdinc params) (p_nostdinc p).
Proof.
  unfold requested_load. destruct (validate_project_options _); [done|]. intros [= <- <-] Hfiles.
  unfold profile_matches_loaded_project. cbn [requested_options compilation_database include_paths defines force_includes machdep rte
    isystem_paths nostdinc unsigned_rte_skipped pointer_rte_requested builtin_models].
  rewrite !andb_true_iff, !bool_decide_eq_true, !requested_list_profile, requested_flag_skipped, !requested_flag_stated, requested_flag_asked.
  rewrite <- (requested_flag_asked (l_builtin_models params)).
  assert (forall b : bool, match then_some b digest with Some _ => true | None => false end = b) as -> by (by intros []).
  assert (Hs : bool_decide (p_sources p = []) || bool_decide (p_sources p = files) = true <-> p_sources p = [] \/ given_as (l_files params) (p_sources p)).
  { rewrite orb_true_iff, !bool_decide_eq_true. unfold requested_files in Hfiles. destruct (l_files params) as [f|]; cbn in Hfiles.
    - destruct Hfiles as [[= ->]|[? _]]; [|done]. split; (intros [->|H]; [by left|right]); [by intros ? [= ->]|by rewrite (H _ eq_refl)].
    - destruct (decide (p_sources p = [])) as [->|Hn]; [by split; left|]. rewrite bool_decide_eq_false_2 in Hfiles by done. cbn in Hfiles.
      destruct Hfiles as [[= ->]|[? _]]; [|done]. by split; right. }
  assert (Hm : p_machdep p = l_machdep params <||> p_machdep p <-> given_as (Some <$> l_machdep params) (p_machdep p)).
  { unfold given_as. destruct (l_machdep params); cbn; split; [intros -> ? [= <-]|intros H; by rewrite (H _ eq_refl)|intros _ ?|]; done. }
  rewrite Hs, Hm. assert (match l_compilation_database params with Some _ => false | None => true end = true <-> l_compilation_database params = None) as ->
    by (by destruct (l_compilation_database params)).
  tauto.
Qed.

(** *** Markers *)

Lemma stale_marker_locations_spec previous current m stale :
  stale_marker_locations previous current !! m = Some stale <->
  previous !! m = Some (Session.previous stale) /\ Session.current stale = unwrap_or (current !! m) (missing_marker m)
  /\ Session.previous stale <> Session.current stale.
Proof.
  unfold stale_marker_locations. rewrite map_lookup_imap. destruct (previous !! m) as [old|] eqn:Hm; cbn; [|split; [done|by intros [? _]]].
  unfold moved. case_bool_decide as He; split.
  - done.
  - intros ([= Hp] & Hc & Hne). by rewrite <- Hp, Hc in Hne.
  - intros [= <-]. by cbn.
  - intros ([= Hp] & Hc & _). destruct stale as [a b]. cbn in *. by subst.
Qed.

(** *** What only reads *)

Definition alarm_setter (e : log_entry) : bool := match e.1 with Set_ name _ => str_mem name (POINTER_SETTER :: UNSIGNED_SETTERS) | _ => false end.

(** Nothing but requests, and none of the settings that decide the alarms. *)
Definition reads {A} (m : Tool A) : Prop := forall s r s', m s = Some (r, s') ->
  session s' = session s /\ server s' = server s /\ adds (fun e => alarm_setter e = false) s s'.

Lemma reads_bind {A B} (m : Tool A) (k : A -> Tool B) : reads m -> (forall a, reads (k a)) -> reads (andThen m k).
Proof.
  intros Hm Hk s r s' [(a & s1 & H1 & H2)|(e & H1 & _)]%andThen_Some; [|by eapply Hm].
  apply Hm in H1 as (Hs & Hv & Ha). apply Hk in H2 as (Hs2 & Hv2 & Ha2). rewrite Hs2, Hv2. split_and!; [done|done|by eapply adds_trans].
Qed.
Lemma reads_pure {A} (a : A) : reads (pure a). Proof. intros s r s' [= _ <-]. split_and!; [done|done|apply adds_refl]. Qed.
Lemma reads_raise {A} e : reads (raise (A:=A) e). Proof. intros s r s' [= _ <-]. split_and!; [done|done|apply adds_refl]. Qed.
Lemma reads_gets {A} (f : Sys -> A) : reads (gets f). Proof. intros s r s' [= _ <-]. split_and!; [done|done|apply adds_refl]. Qed.
Lemma reads_try {A} (m : Tool A) : reads m -> reads (try m).
Proof. intros Hm s r s'. unfold try. destruct (m s) as [[r0 s1]|] eqn:E; [|done]. intros [= _ <-]. by eapply Hm. Qed.
Create HintDb reload.
#[export] Hint Resolve reads_pure reads_gets reads_raise reads_try : reload.

Section reload_theorems.
Context (answer : list log_entry -> request -> Reply) (display_error : FramaCError -> string) (fuel : nat)
  (profile_of_json : json -> VerificationProfile + string) (sha256_hex : string -> string) (builtin_models_text : string)
  (read_text : string -> string + string) (from_str : string -> json + string) (file_digest : string -> option string)
  (executable_in_path : string -> bool) (builtin_models_header : option string) (frama_c_path : string) (server_pid : N) (log_root : string)
  (current_dir : option string) (load_answers : list log_entry -> list string -> ProjectLoadOptions -> Answers) (lossy : string -> string)
  (read_log : list log_entry -> MainFramaCState -> string + string) (log_path : MainFramaCState -> string).
Abbreviation load := (run_load answer display_error fuel read_text from_str file_digest executable_in_path builtin_models_header frama_c_path
  server_pid log_root current_dir load_answers lossy read_log log_path).
Abbreviation ensures := (ensure_main answer display_error executable_in_path builtin_models_header frama_c_path server_pid log_root current_dir load_answers).
Abbreviation ensure := (ensure_main_spawned executable_in_path builtin_models_header frama_c_path server_pid log_root current_dir).
Abbreviation alarms := (set_alarms answer display_error).

Lemma reads_ask r : (forall ok, alarm_setter (r, ok) = false) -> reads (ask answer r).
Proof. intros Hr s o s' [= _ <-]. split_and!; [done|done|]. eexists. split; [reflexivity|]. by constructor. Qed.
Lemma reads_get name arg : reads (get answer display_error name arg).
Proof. apply reads_bind; [|auto with reload]. apply reads_bind; [by apply reads_ask|]. intros []; cbn; auto with reload. Qed.
Lemma reads_pages name n : forall entries, reads (pages answer display_error n name entries).
Proof. induction n as [|n IH]; intros entries; [done|]. apply reads_bind; [apply reads_get|]. intros page. destruct (_ =? _)%N; auto with reload. Qed.
Lemma reads_fetch a b : reads (reload_fetch answer display_error fuel a b).
Proof. apply reads_bind; [apply reads_get|]. intros _. apply reads_pages. Qed.
Lemma reads_snapshot : reads (snapshot answer display_error fuel).
Proof.
  apply reads_bind; [|intros []; auto with reload]. apply reads_try. do 2 (apply reads_bind; [apply reads_fetch|intros]). apply reads_pure.
Qed.
Lemma reads_health_get name arg : reads (reload_health_get answer display_error name arg).
Proof. apply reads_bind; [by apply reads_ask|]. intros []; auto with reload. Qed.
Lemma reads_health_pages name n : forall entries, reads (health_pages answer display_error n name entries).
Proof. induction n as [|n IH]; intros entries; [done|]. apply reads_bind; [apply reads_health_get|]. intros page. destruct (_ =? _)%N; auto with reload. Qed.
Lemma reads_health diagnostics : reads (ast_reload_health answer display_error fuel diagnostics).
Proof.
  apply reads_bind; [apply reads_health_get|]. intros files.
  do 3 (apply reads_bind; [apply reads_bind; [apply reads_health_get|intros; apply reads_health_pages]|intros ?]). apply reads_pure.
Qed.
Lemma reads_drain : reads (drain_messages answer).
Proof.
  unfold drain_messages. generalize ([] : list json). induction LOG_FLUSH_ROUNDS as [|n IH]; intros messages; [apply reads_pure|].
  apply reads_bind; [by apply reads_ask|]. intros [a|]; [|apply reads_pure]. destruct (as_array _); [|apply reads_pure].
  destruct (_ <? _); [apply reads_pure|apply IH].
Qed.
Lemma require_client_same s r s' : require_client s = Some (r, s') -> s' = s.
Proof. unfold require_client, andThen. cbn. by destruct (client (server s)); intros [= _ <-]. Qed.
Lemma reads_files requested database : reads (files_for_this_load answer display_error requested database).
Proof.
  destruct requested, database; cbn; auto with reload; [destruct (compile_database_files _); cbn; auto with reload|].
  apply reads_bind; [apply reads_gets|]. intros [[]|]; [|apply reads_bind; [apply reads_get|]|]; auto with reload.
  apply reads_bind; [apply reads_gets|]. intros main. destruct (unwrap_or _ _); auto with reload.
Qed.
Hint Resolve reads_ask reads_get reads_fetch reads_snapshot reads_health reads_drain : reload.

Lemma reads_previous (c : option bool) : reads match c with Some _ => snapshot answer display_error fuel | None => pure None end.
Proof. destruct c; auto with reload. Qed.

(** *** The load as it ends *)

(** The settings in force once the alarms are set, whatever was read since. *)
Lemma alarms_in_force options s r s1 l : alarms options s = Some (inl r, s1) -> Forall (fun e => alarm_setter e = false) l ->
  exists l0, sent s1 = sent s ++ l0 /\ session s1 = session s /\ server s1 = server s
  /\ (forall name, name ∈ UNSIGNED_SETTERS -> setting name (l0 ++ l) = Some (JBool (unsigned_rte options)))
  /\ setting POINTER_SETTER (l0 ++ l) = Some (JBool (pointer_rte options)).
Proof.
  intros [(a & s2 & H & Hp)|(? & _ & ?)]%andThen_Some Hl; [|done].
  assert (Hquiet : forall name log, str_mem name (POINTER_SETTER :: UNSIGNED_SETTERS) = true -> setting name (log ++ l) = setting name log).
  { intros name log Hn. induction l as [|e l IH] using rev_ind; [by rewrite app_nil_r|]. apply Forall_app in Hl as [Hl [He _]%Forall_cons].
    destruct e as [r1 ok]. rewrite app_assoc, setting_snoc, (IH Hl). unfold alarm_setter in He. destruct r1 as [|n arg|]; [done| |done]. cbn [fst] in He.
    destruct (String.eqb_spec n name) as [->|]; [congruence|]. by rewrite andb_false_r. }
  apply andThen_Some in H as [(b & s3 & H1 & H)|(? & _ & ?)]; [|done]. apply andThen_Some in H as [(c & s4 & H2 & H)|(? & _ & ?)]; [|done].
  apply andThen_Some in H2 as [(d & s5 & H2 & H3)|(? & _ & ?)]; [|done]. injection H as _ <-. injection H3 as _ <-.
  apply set_spec in H1 as (H1 & _ & Hs1 & Hv1), H2 as (H2 & _ & Hs2 & Hv2), Hp as (Hp & _ & Hs3 & Hv3).
  rewrite Hs3, Hs2, Hs1, Hv3, Hv2, Hv1, Hp, H2, H1, <- !app_assoc. eexists. split_and!; [reflexivity|done|done| |by rewrite Hquiet].
  intros name Hn. unfold UNSIGNED_SETTERS in Hn. by apply elem_of_cons in Hn as [->|[->|[]%elem_of_nil]%elem_of_cons]; rewrite Hquiet.
Qed.

(** An instance that took the load holds its files and options. *)
Lemma ensure_takes files_ options w v v' : ensure files_ options w v = Some (v', None) ->
  exists m, main v' = Some m /\ files m = files_ /\ project_options m = options.
Proof.
  unfold ensure_main_spawned. destruct (needs_respawn _ _ _ _) eqn:Hn.
  - unfold respawn. destruct (spawn_answer w) as [| | | |p log_length]; intros [= <-]. eexists. split; [reflexivity|].
    destruct (spawned_fields executable_in_path builtin_models_header frama_c_path server_pid log_root current_dir files_ options w (spawn_counter v) p log_length)
      as (? & ? & _). done.
  - apply respawn_None in Hn as (m & Hm & _ & Ho & _). destruct (client v); [|done]. destruct (reload_answer w); intros [= <-].
    cbn. rewrite Hm. cbn. eexists. split; [reflexivity|]. unfold after_reload. by destruct (_ =s _).
Qed.

Lemma ensures_takes files_ options s s' : ensures files_ options s = Some (inl tt, s') ->
  exists m, main (server s') = Some m /\ files m = files_ /\ project_options m = options.
Proof.
  assert (Htake : forall w respawns s1, take_instance executable_in_path builtin_models_header frama_c_path server_pid log_root current_dir
      files_ options w respawns s1 = Some (inl tt, s') -> exists m, main (server s') = Some m /\ files m = files_ /\ project_options m = options).
  { intros w respawns s1. unfold take_instance. destruct (ensure _ _ _ _) as [[v' [e|]]|] eqn:E; intros [= <-]. by eapply ensure_takes. }
  intros [(w & s1 & _ & H)|(? & _ & ?)]%andThen_Some; [|done]. apply andThen_Some in H as [(b & s2 & _ & H)|(? & _ & ?)]; [|done].
  destruct b; (apply andThen_Some in H as [(c & s3 & _ & H)|(? & _ & ?)]; [by eapply Htake|done]).
Qed.

Lemma parse_diagnostics_fields log path v m : main v = Some m ->
  exists m', main (parse_diagnostics lossy log path v).1 = Some m' /\ files m' = files m /\ project_options m' = project_options m.
Proof.
  intros Hm. unfold parse_diagnostics. rewrite Hm. destruct (ast_reload_diagnostics m); [by exists m|]. destruct log; [|by exists m].
  eexists. split; [reflexivity|]. done.
Qed.

Lemma read_record_session s r s' : read_parse_diagnostics lossy read_log log_path s = Some (r, s') -> sent s' = sent s /\ session s' = session s.
Proof. unfold read_parse_diagnostics. destruct (match main (server s) with Some _ => _ | None => _ end) as [v' record']. by intros [= _ <-]. Qed.

(** The session of a load that listed [entries] as the functions of the new program. *)
Record SessionRenewed (entries : list json) (s s' : SessionState) : Prop := mkRenewed {
  sr_flags : Session.project_loaded s' = true /\ eva_completed s' = false /\ wp_completed s' = false;
  sr_functions : forall f info, Session.functions s' !! f = Some info <->
    f <> "" /\ exists pre entry post, entries = pre ++ entry :: post /\ unwrap_or (get_str "name" entry) "" = f
      /\ Forall (fun later => unwrap_or (get_str "name" later) "" <> f) post
      /\ fi_name info = f /\ fi_marker info = unwrap_or (get_str "key" entry) "" /\ fi_declaration info = unwrap_or (get_str "decl" entry) ""
      /\ fi_signature info = unwrap_or (get_str "signature" entry) "" /\ fi_file info = unwrap_or (get_str "file" entry.["sloc"]) ""
      /\ fi_line info = (unwrap_or (get_u64 "line" entry.["sloc"]) 0 mod 2 ^ 32)%N /\ fi_defined info = unwrap_or (get_bool "defined" entry) false;
  sr_forgotten : globals s' = ∅ /\ callgraph_edges s' = [] /\ callgraph_vertices s' = [] /\ seen_receipts s' = [];
  sr_kept : conclusions s' = conclusions s /\ project_state s' = project_state s
    /\ verification_profiles s' = verification_profiles s /\ verification_profiles_source s' = verification_profiles_source s;
}.

Lemma str_at_get k v : str_at k v = unwrap_or (get_str k v) "".
Proof. unfold str_at, get_str, idx. by destruct (v .? k). Qed.
Lemma u32_at_get k v : u32_at k v = (unwrap_or (get_u64 k v) 0 mod 2 ^ 32)%N.
Proof. unfold u32_at, get_u64, idx. by destruct (v .? k). Qed.

Lemma as_bool_get k v : as_bool v.[k] = get_bool k v.
Proof. unfold get_bool, idx. by destruct (v .? k). Qed.

Lemma renewed stale entries s : SessionRenewed entries s (set_stale_markers stale (renew entries s)).
Proof.
  split; try done. intros f info. change (Session.functions _) with (by_name fi_name (map function_info entries)).
  rewrite by_name_lookup. apply and_iff_compat_l. split.
  - intros (pre & post & He & <- & Hpost). apply map_eq_app in He as (pre' & rest & -> & _ & He).
    apply map_eq_cons in He as (entry & post' & -> & <- & <-). exists pre', entry, post'.
    unfold function_info. cbn [fi_name fi_marker fi_declaration fi_signature fi_file fi_line fi_defined]. rewrite !str_at_get, u32_at_get, as_bool_get.
    split_and!; try done.
    rewrite Forall_map in Hpost. eapply Forall_impl; [exact Hpost|]. intros later Hl. unfold function_info in *. cbn [fi_name] in *. by rewrite ?str_at_get in *.
  - intros (pre & entry & post & -> & Hn & Hpost & H1 & H2 & H3 & H4 & H5 & H6 & H7). exists (map function_info pre), (map function_info post).
    assert (info = function_info entry) as ->.
    { destruct info. cbn in *. subst. unfold function_info. by rewrite !str_at_get, u32_at_get, as_bool_get. }
    rewrite map_app. split_and!; [done|by rewrite <- str_at_get in Hn|]. rewrite Forall_map. eapply Forall_impl; [exact Hpost|].
    intros later Hl. unfold function_info in *. cbn [fi_name] in *. by rewrite ?str_at_get in *.
Qed.

(** The state [s'] of a load that answered [o], from [s]. *)
Record ProjectLoaded (options : ProjectLoadOptions) (s : Sys) (o : Loaded) (s' : Sys) : Prop := mkProjectLoaded {
  pl_options : o_options o = options;
  pl_instance : exists m, main (server s') = Some m /\ files m = o_files o /\ project_options m = options;
  pl_session : SessionRenewed (o_entries o) (session s) (session s');
  pl_stale : stale_markers (session s') = o_stale o;
  pl_alarms : exists s0 s1 l, ensures (o_files o) options s0 = Some (inl tt, s1) /\ sent s' = sent s1 ++ l
    /\ (forall name, name ∈ UNSIGNED_SETTERS -> setting name l = Some (JBool (unsigned_rte options)))
    /\ setting POINTER_SETTER l = Some (JBool (pointer_rte options));
  pl_markers : exists previous current s2 s3,
    (match client (server s) with Some _ => exists s0, snapshot answer display_error fuel s = Some (inl previous, s0) | None => previous = None end)
    /\ snapshot answer display_error fuel s2 = Some (inl current, s3) /\ Session.functions (session s2) = Session.functions (session s')
    /\ o_compared o = is_Some_b previous && is_Some_b current
    /\ forall m stale, stale_marker m (session s') = Some stale <->
         exists p c, previous = Some p /\ current = Some c /\ p !! m = Some (Session.previous stale)
           /\ Session.current stale = unwrap_or (c !! m) (missing_marker m) /\ Session.previous stale <> Session.current stale;
}.

(** What a load does to the session before it knows the new program: at most whether a
    project is loaded. *)
Lemma renew_loaded entries b s : renew entries (set_project_loaded b s) = renew entries s.
Proof. done. Qed.

Lemma in_place_session files_ : keeps_session (reload_files_in_place answer display_error files_).
Proof.
  do 2 (apply keeps_session_bind; [apply keeps_session_set|intros _]). apply keeps_session_bind; [apply keeps_session_exec|intros; apply keeps_session_pure].
Qed.

Lemma ensures_session files_ options s s' : ensures files_ options s = Some (inl tt, s') -> forall entries, renew entries (session s') = renew entries (session s).
Proof.
  assert (Htake : forall w respawns s1, take_instance executable_in_path builtin_models_header frama_c_path server_pid log_root current_dir
      files_ options w respawns s1 = Some (inl tt, s') -> forall entries, renew entries (session s') = renew entries (session s1)).
  { intros w respawns s1. unfold take_instance. destruct (ensure _ _ _ _) as [[v' [e|]]|] eqn:E; by intros [= <-]. }
  intros [(w & s1 & Hg & H)|(? & _ & ?)]%andThen_Some entries; [|done]. injection Hg as _ <-.
  apply andThen_Some in H as [(b & s2 & Hg & H)|(? & _ & ?)]; [|done]. injection Hg as _ <-.
  destruct b; (apply andThen_Some in H as [(c & s3 & Hm & H)|(? & _ & ?)]; [rewrite (Htake _ _ _ H)|done]).
  - destruct (spawn_answer w); by injection Hm as _ <-.
  - apply try_Some in Hm as (o & _ & Hm). by rewrite (in_place_session _ _ _ _ Hm).
Qed.


Definition only_loaded (s s' : Sys) : Prop := exists b, session s' = set_project_loaded b (session s).

Lemma only_loaded_same s s' : session s' = session s -> only_loaded s s'.
Proof. intros H. exists (Session.project_loaded (session s)). rewrite H. by destruct (session s). Qed.
Lemma only_loaded_after s s1 s' : session s1 = session s -> only_loaded s1 s' -> only_loaded s s'.
Proof. intros H [b Hb]. exists b. by rewrite Hb, H. Qed.
Lemma only_loaded_trans s s1 s' : only_loaded s s1 -> only_loaded s1 s' -> only_loaded s s'.
Proof. intros [b Hb] [b' Hb']. exists b'. by rewrite Hb', Hb. Qed.

Lemma ensures_only_loaded files_ options s r s' : ensures files_ options s = Some (r, s') -> only_loaded s s'.
Proof.
  assert (Htake : forall w respawns s1, take_instance executable_in_path builtin_models_header frama_c_path server_pid log_root current_dir
      files_ options w respawns s1 = Some (r, s') -> only_loaded s1 s').
  { intros w respawns s1. unfold take_instance. destruct (ensure _ _ _ _) as [[v' [e|]]|] eqn:E; [|intros [= _ <-]; by exists true|done].
    intros [= _ <-]. destruct respawns; [by apply only_loaded_same|by exists false]. }
  intros [(w & s1 & Hg & H)|(? & Hg & _)]%andThen_Some; [|done]. injection Hg as _ <-.
  apply andThen_Some in H as [(b & s2 & Hg & H)|(? & Hg & _)]; [|done]. injection Hg as _ <-.
  destruct b; apply andThen_Some in H as [(c & s3 & Hm & H)|(? & Hm & _)].
  - apply Htake in H. refine (only_loaded_after _ _ _ _ H). destruct (spawn_answer w); by injection Hm as _ <-.
  - destruct (spawn_answer w); done.
  - apply Htake in H. apply try_Some in Hm as (o & _ & Hm). exact (only_loaded_after _ _ _ (in_place_session _ _ _ _ Hm) H).
  - by apply try_Some in Hm as (o & ? & _).
Qed.

Lemma alarms_session options : keeps_session (alarms options).
Proof.
  apply keeps_session_bind; [apply keeps_session_each; intros|intros; apply keeps_session_set]. apply keeps_session_set.
Qed.

(** Once the program is known, nothing stops a load. *)
Lemma after_renewal (k : option (gmap string MarkerLocation) -> gmap string StaleMarker) (build : option (gmap string MarkerLocation) -> list json -> bool -> Loaded) :
  never_raises (let* current := snapshot answer display_error fuel in
    do* modify (set_session (set_stale_markers (k current))) in
    let* (messages, truncated) := drain_messages answer in
    pure (build current messages truncated)).
Proof.
  apply never_raises_bind; [apply never_raises_bind; [apply never_raises_try|intros; apply never_raises_pure]|]. intros current.
  apply never_raises_bind; [apply never_raises_modify|]. intros _. apply never_raises_bind; [|intros []; apply never_raises_pure].
  unfold drain_messages. generalize ([] : list json). induction LOG_FLUSH_ROUNDS as [|n IH]; intros messages; [apply never_raises_pure|].
  apply never_raises_bind; [apply never_raises_ask|]. intros [a|]; [|apply never_raises_pure]. destruct (as_array _); [|apply never_raises_pure].
  destruct (_ <? _); [apply never_raises_pure|apply IH].
Qed.

(** C14: a load that fails forgets nothing.  Whenever it stops, all it did to the session is
    to say whether a project is loaded: the functions, the completed analyses and the
    receipts are those of before, whichever program the instance holds by then. *)
Theorem failed_load_forgets_nothing requested options profile_used s e s' : load requested options profile_used s = Some (inr e, s') ->
  exists loaded, session s' = set_project_loaded loaded (session s).
Proof.
  intros H. unfold run_load in H. apply andThen_Some in H as [(c & s0 & Hg & H)|(? & Hg & _)]; [|done]. injection Hg as <- <-.
  apply andThen_Some in H as [(previous & s1 & Hprev & H)|(? & Hprev & _)]; apply reads_previous in Hprev as (Hs1 & _); [|by apply only_loaded_same].
  apply (only_loaded_after _ _ _ Hs1).
  apply andThen_Some in H as [(files_ & s2 & Hfiles & H)|(? & Hfiles & _)]; apply reads_files in Hfiles as (Hs2 & _); [|by apply only_loaded_same].
  apply (only_loaded_after _ _ _ Hs2).
  apply andThen_Some in H as [([] & s3 & Hens & H)|(? & Hens & _)]; apply ensures_only_loaded in Hens; [|done]. apply (only_loaded_trans _ _ _ Hens).
  apply andThen_Some in H as [([] & s4 & Hreq & H)|(? & Hreq & _)]; apply require_client_same in Hreq as ->; [|by apply only_loaded_same].
  apply andThen_Some in H as [([] & s5 & Hset & H)|(? & Hset & _)]; apply alarms_session in Hset; [|by apply only_loaded_same].
  apply (only_loaded_after _ _ _ Hset).
  apply andThen_Some in H as [(record & s6 & Hrec & H)|(? & Hrec & _)].
  2: { exfalso. revert Hrec. unfold read_parse_diagnostics. by destruct (match main (server s5) with Some _ => _ | None => _ end). }
  apply read_record_session in Hrec as (_ & Hs6). apply (only_loaded_after _ _ _ Hs6).
  apply andThen_Some in H as [([entries health] & s7 & Hhealth & H)|(? & Hhealth & _)]; apply reads_health in Hhealth as (Hs7 & _); [|by apply only_loaded_same].
  apply andThen_Some in H as [([] & s8 & Hmod & H)|(? & Hmod & _)]; [|done].
  exfalso. apply (after_renewal (fun current => match previous, current with Some p, Some c => stale_marker_locations p c | _, _ => ∅ end)
    (fun current messages truncated => mkLoaded files_ options profile_used (machdep_digest file_digest (machdep options)) _ entries health _ _ messages truncated)) in H as [? ?]. done.
Qed.
End reload_theorems.

(** ** Witnesses *)

(** A Frama-C that answers as in a run, but refuses the settings in [refused]. *)
Definition demo_refusing (refused : list string) (log : list log_entry) (r : request) : Reply :=
  if str_mem (request_name r) refused then mkReply (Err (Rejected "RQ.7")) 1 0 else demo_frama_c log r.
Definition demo_spawn (_ : list log_entry) (_ : list string) (_ : ProjectLoadOptions) : Answers :=
  mkAnswers ("1", false) ("1", false) None (Listening 43 (inl 100%N)).

(** [b.c] with runtime errors, over a session that has [a.c]. *)
Definition demo_request : LoadParams :=
  mkLoad (Some ["b.c"]) None None None None None None None (Some "kernel") (Some true) None None None.
Definition demo_options : ProjectLoadOptions := requested_options "digest" demo_request (Some demo_profile).
Abbreviation demo_reload_run refused :=
  (run_load (demo_refusing refused) (fun _ => "") 3 (fun _ => inr "") (fun _ => inr "") (fun _ => None) (fun _ => false) None "frama-c" 7 "/tmp/fcmcp-0" None
    demo_spawn (fun s => s) (fun _ _ => inl "") (fun _ => "") (Some ["b.c"]) demo_options None demo_loaded).

(** What a concrete run ends with, computed on its own. *)
Lemma final_state {A B} (f : A + ErrorData -> Sys -> B) (run : option ((A + ErrorData) * Sys)) r s v : run = Some (r, s) ->
  (fun e => f e.1 e.2) <$> run = Some v -> f r s = v.
Proof. intros -> H. by injection H. Qed.

Lemma named_load_matches_witness :
  profile_matches_loaded_project demo_profile ["b.c"] demo_options = false
  /\ profile_matches_loaded_project demo_profile ["b.c"]
       (requested_options "digest" (mkLoad (Some ["b.c"]) None None None None None None None (Some "kernel") None (Some false) None None) (Some demo_profile)) = true.
Proof.
  split.
  - apply not_true_iff_false. intros H.
    apply (named_load_matches "digest" demo_request demo_profile (Some ["b.c"]) demo_options ["b.c"] eq_refl (or_introl eq_refl)) in H
      as (_ & _ & _ & _ & _ & _ & _ & _ & _ & H & _). by specialize (H true false eq_refl eq_refl).
  - apply (named_load_matches "digest" (mkLoad (Some ["b.c"]) None None None None None None None (Some "kernel") None (Some false) None None) demo_profile
             (Some ["b.c"]) _ ["b.c"] eq_refl (or_introl eq_refl)).
    split_and!; try done; by left.
Defined.


(** A load whose settings were refused: the process has the new program, and the session
    still says that the old one was analysed. *)
Lemma failed_load_forgets_nothing_witness :
  exists e s' loaded, demo_reload_run UNSIGNED_SETTERS = Some (inr e, s') /\ (exists m, main (server s') = Some m /\ files m = ["b.c"])
  /\ session s' = set_project_loaded loaded (session demo_loaded) /\ eva_completed (session s') = true.
Proof.
  destruct (demo_reload_run UNSIGNED_SETTERS) as [[[|e] s']|] eqn:E; try (exfalso; revert E; vm_compute; discriminate).
  destruct (failed_load_forgets_nothing (demo_refusing UNSIGNED_SETTERS) (fun _ => "") 3 (fun _ => inr "") (fun _ => inr "") (fun _ => None) (fun _ => false) None
    "frama-c" 7 "/tmp/fcmcp-0" None demo_spawn (fun s => s) (fun _ _ => inl "") (fun _ => "") (Some ["b.c"]) demo_options None demo_loaded e s' E) as [loaded Hs].
  exists e, s', loaded. split; [reflexivity|]. split; [|split; [exact Hs|rewrite Hs; reflexivity]].
  assert (Hm : (files <$> main (server s')) = Some ["b.c"]) 
    by (apply (final_state (fun _ s => files <$> main (server s)) _ _ _ _ E); vm_compute; reflexivity).
  destruct (main (server s')) as [m|]; [|done]. exists m. split; [done|]. by injection Hm.
Defined.
