(* ===== verification/Check.v ===== *)
(** * One check (src/src/mcp/analysis.rs)

    A check reloads the program, runs EVA and WP, reads back what they left, and composes
    every gate into a verdict with a receipt.  The steps it calls are an interface, which
    MainCheck.v instantiates with the main instance; what it composes itself is here. *)

From S2P Require Import Prelude RustStr BTree Json Status Codec Client Verdicts Rows GapCodes Gaps ProbeGaps Targets Pins NextCall Variants StableId Receipt Session Errors WpMessages WpConfig Proc WpCli MainInstance Requests WpTasks EvaRun RunWp ReceiptRun Reload.
Import incomplete_code.
Local Open Scope nat_scope.

(** ** Parameters *)

Record CheckParams := mkCheck {
  c_want : option (list CheckAnalysis);
  c_source : option string;
  c_load : LoadParams;
  c_function : option string;
  c_smoke : option bool;
  c_pinned : option (list PinnedProperty);
  c_mutants : option bool;
  c_full : bool;
  c_profile : option string;
  c_precision : option Z;
  c_slevel : option N;
  c_ilevel : option N;
  c_prover : option string;
  c_provers : option (list string);
  c_timeout : option N;
  c_steps : option N;
  c_par : option N;
  c_model : option string;
  c_prop : option string;
  c_retry_unproved : option bool;
}.

(** Inline source, written where a load can read it: the files and the directory. *)
Definition materialize_check_source (scratch : string + string) (write : string -> string -> option string) (source : string)
    : (list string * string) + ErrorData :=
  match scratch with
  | inr error => inr (mkErrorData InternalError (mkMcpError ("failed to create temporary C source directory: " +s+ error) None))
  | inl dir =>
    let path := dir +s+ "/input.c" in
    match write path source with
    | Some error => inr (mkErrorData InternalError (mkMcpError ("failed to write temporary C source: " +s+ error) None))
    | None => inl ([path], dir)
    end
  end.

(** ** Summaries *)

Definition CHECK_SUMMARY_PREVIEW_ITEMS : nat := 5.

Definition summarize_entries (entries : list json) (keep : json -> bool) (bucket : json -> string) : json :=
  let needing := bfilter keep entries in
  let kept := take CHECK_SUMMARY_PREVIEW_ITEMS needing in
  let buckets := map bucket entries in
  JObj [("total", jnat (length entries));
        ("counts", JObj (map (fun b => (b, jnat (count_if (String.eqb b) buckets))) (btree_set buckets)));
        ("shown", jnat (length kept)); ("omitted", jnat (length entries - length kept));
        ("needing_attention", jnat (length needing)); ("entries", JArr kept)].

Definition summarize_unless_skipped (value : json) (keep : json -> bool) (bucket : json -> string) : json :=
  if is_null value then JNull else summarize_entries (array_or_empty value) keep bucket.

Definition goal_summary_bucket (goal : json) : string :=
  unwrap_or (get_str "goal_kind" goal) "unknown" +s+ "/" +s+ unwrap_or (get_str "normalized_status" goal) "unknown".
Definition alarm_summary_bucket (alarm : json) : string :=
  unwrap_or ((alarm .? "alarm" <||> alarm .? "kind") ≫= as_str) "unknown" +s+ "/" +s+ property_normalized_status alarm.

Definition reported_arrays (summarize : bool) (wp_goals eva_alarms : json) : json * json :=
  if summarize
  then (summarize_unless_skipped wp_goals goal_needs_failure_classification goal_summary_bucket,
        summarize_unless_skipped eva_alarms alarm_is_undischarged alarm_summary_bucket)
  else (wp_goals, eva_alarms).

(** ** Evidence gates *)

Definition wp_backend_anomaly_left_goal_unjudged (diagnosis goals : json) : bool :=
  is_object diagnosis
  && existsb (fun goal => goal_needs_failure_classification goal && is_some_and status_is_failed (own_status goal)) (array_or_empty goals).

(** What the memory-model probe of the run answered, or why there is no answer. *)
Definition memory_model_probe (wanted : WantedAnalyses) (wp : json) : json :=
  if negb (want_wp wanted) then probe_absent "check did not run WP" true
  else if opt_eqb Bool.eqb (get_bool "ok" wp) (Some false) then probe_absent "WP did not complete" true
  else match opt_filter (fun probe => negb (is_null probe)) (wp .? "memory_model_probe") with
       | Some probe => probe
       | None => probe_absent "the WP run reported no memory-model probe" false
       end.

Definition withheld_by_request_gaps (unsigned_skipped rte : bool) (prop : option string) : list json :=
  (if rte && unsigned_skipped
   then [gap RTE_REDUCED [("reason", JStr "RTE ran without the unsigned overflow and downcast checks, so unsigned wraparound and narrowing were not checked.")]]
   else [])
  ++ match prop with
     | Some prop =>
       [gap CHECK_NARROWED_BY_PROP
         [("reason", JStr "WP ran under a prop filter, so only the selected properties were attempted and this verdict does not cover the rest."); ("prop", JStr prop)]]
     | None => []
     end.

(** Whether the goals read back are those the run counted; a narrowed or scoped run's are not compared. *)
Definition goals_changed_gap (wanted : WantedAnalyses) (prop : option string) (wp wp_goals : json) : option json :=
  let function_scoped := is_some_and (fun functions => negb (bool_decide (functions = []))) (pointer ["effective_wp_config"; "functions"] wp ≫= as_array) in
  if want_wp wanted && negb (is_Some_b prop) && negb function_scoped then
    match pointer ["measurement"; "goals"] wp ≫= as_u64, as_array wp_goals with
    | Some measured, Some goals =>
      let read_back := N.of_nat (length goals) in
      if (measured =? read_back)%N then None
      else Some (gap WP_GOALS_CHANGED_UNDER_CHECK
        [("reason", JStr ("The proof run produced " +s+ dec_N measured +s+ " goals and " +s+ dec_N read_back
             +s+ " were read back, so the goal table changed between the two."));
         ("run_goals", jN measured); ("read_back_goals", jN read_back)])
    | _, _ => None
    end
  else None.

Definition backend_anomaly_gap (diagnosis : json) : json :=
  gap WP_BACKEND_ANOMALY
    [("reason", field "reason" diagnosis); ("kind", field "kind" diagnosis); ("model", field "model" diagnosis); ("anomaly_count", field "anomaly_count" diagnosis)].

Record RunEvidenceInputs := mkEvidence {
  i_wanted : WantedAnalyses;
  i_smoke : bool;
  i_rte : bool;
  i_prop : option string;
  i_messages : list json;
  i_truncated : bool;
  i_wp : json;
  i_goals : json;
}.

Record RunEvidenceGates := mkGates {
  g_gaps : list json;
  g_diagnosis : json;
  g_memory_model : json;
  g_unjudged : bool;
}.

Definition messages_truncated_gap : json :=
  gap WP_MESSAGES_TRUNCATED
    [("reason", JStr "The analyzer's message stream was not read to the end, so the gates derived from it cannot distinguish a clean run from an unread one.")].

Definition run_evidence_gates (unsigned_skipped : bool) (i : RunEvidenceInputs) : RunEvidenceGates :=
  let model := pointer ["effective_wp_config"; "model"] (i_wp i) ≫= as_str in
  let diagnosis := wp_backend_diagnosis (i_messages i) model in
  let unjudged := wp_backend_anomaly_left_goal_unjudged diagnosis (i_goals i) in
  let memory_model := memory_model_probe (i_wanted i) (i_wp i) in
  mkGates
    ((if unjudged then [backend_anomaly_gap diagnosis] else [])
     ++ option_list (goals_changed_gap (i_wanted i) (i_prop i) (i_wp i) (i_goals i))
     ++ smoke_test_gaps (want_wp (i_wanted i) && i_smoke i) (i_wp i)
     ++ withheld_by_request_gaps unsigned_skipped (i_rte i) (opt_filter (fun _ => want_wp (i_wanted i)) (i_prop i))
     ++ (if i_truncated i then [messages_truncated_gap] else [])
     ++ wp_message_gaps (i_messages i) model
     ++ option_list (memory_model_hypothesis_gap memory_model)
     ++ option_list (memory_model_unchecked_gap memory_model (i_wanted i)))
    diagnosis memory_model unjudged.

(** ** The steps a check calls *)

(** Loading, EVA and its alarms, a proof run and its goals, and the receipt: each may ask
    Frama-C, change the session and fail, but a receipt is always written and states what
    it was asked to report. *)
Class CheckSteps := {
  reload_step : LoadParams -> Tool json;
  eva_step : RunEvaParams -> Tool json;
  alarms_step : option string -> Tool json;
  wp_step : RunWpCall -> Tool json;
  goals_step : option string -> Tool json;
  receipt_step : ProofReceiptRequest -> Tool json;
  receipt_written : forall r s o s', receipt_step r s = Some (o, s') ->
    exists receipt, o = inl receipt /\ receipt .? "reported" = Some (r_reported r);
}.

Section check.
Context {steps : CheckSteps}.
Variable answer : list (request * bool) -> request -> Reply.
Variable display_error : FramaCError -> string.
Variable display_rmcp : ErrorData -> string.
Variable debug_str : string -> string.
Variable fuel : nat.
Variable to_string : json -> string.
Variable sha256_hex : string -> string.
(** The scratch directory of inline source, and writing into it. *)
Variable scratch : string + string.
Variable write : string -> string -> option string.
(** The directory of the mutants and what the run of each answers. *)
Variable mutant_scratch : bool.
Variable mutant_write : string -> string -> bool.
Variable mutant_answer : ProjectLoadOptions -> json -> string -> option (GroupRun * option json).
Abbreviation ask := (ask answer).
Abbreviation drain_messages := (drain_messages answer).
Abbreviation fetch_properties := (fetch_properties answer display_error fuel).

Definition check_step_error (error : ErrorData) : json := JObj [("ok", JBool false); ("error", JStr (display_rmcp error))].
Definition step (m : Tool json) : Tool json :=
  let* r := try m in pure match r with inl payload => payload | inr error => check_step_error error end.

Definition check_eva_step (params : RunEvaParams) (function : option string) : Tool (json * json) :=
  let* eva := step (eva_step params) in
  let* alarms := step (alarms_step function) in
  pure (eva, alarms).
Definition check_wp_step (call : RunWpCall) (function : option string) : Tool (json * json) :=
  let* wp := step (wp_step call) in
  let* goals := step (goals_step function) in
  pure (wp, goals).

Definition check_rte_setting (requested : option bool) (profile : option string) : Tool bool :=
  match requested, profile with
  | Some rte, _ => pure rte
  | None, None => pure true
  | None, Some name =>
    let* profiles := gets (fun s => verification_profiles (session s)) in
    pure (unwrap_or (profiles !! name ≫= p_rte) true)
  end.

(** *** The program *)

Definition find_harness (s : SessionState) : list harness :=
  collect_some (fun name => (fun info =>
    (fi_name info, fi_declaration info, unwrap_or ((fun p => map snd p.2) <$> signature_parts (fi_signature info) (fi_name info)) []))
    <$> resolve_function name s) (map fst SVCOMP_PROPERTY_FUNCTIONS).
Definition find_threads (s : SessionState) : list string :=
  bfilter (fun name => is_Some_b (resolve_function name s)) THREAD_CREATION_FUNCTIONS.

Definition pin_scopes (pins : list PinnedProperty) (s : SessionState) : gmap string string :=
  list_to_map (rev (collect_some (fun pin => pin_function pin ≫= fun name => (fun info => (name, fi_declaration info)) <$> resolve_function name s) pins)).
Definition all_formals (s : SessionState) : gmap string (list string) :=
  list_to_map (collect_some (fun e => (fun p => (fi_declaration e.2, map snd p.2)) <$> signature_parts (fi_signature e.2) (fi_name e.2)) (map_to_list (Session.functions s))).
Definition pinned_gaps (pins : list PinnedProperty) (properties : list json) (s : SessionState) : list json :=
  pinned_property_gaps pins properties (pin_scopes pins s) (all_formals s).

Definition contract_mutant_probe (function : option string) (wp_config : json) : Tool json :=
  match function with
  | None => pure (mutants_not_run "mutants need check's function: the stubs replace one body")
  | Some function =>
    let* info := gets (fun s => resolve_function function (session s)) in
    match info with
    | None => pure (mutants_not_run ("no function named " +s+ debug_str function +s+ " is loaded"))
    | Some info =>
      let* client := try require_client in
      let* extracted := match client with
        | inl _ => let* o := ask (Get "plugins.ast-utils.extractFunctionWithDeps" (JStr function)) in pure (match o with Ok a => Some (data a) | Err _ => None end)
        | inr _ => pure None
        end in
      match extracted ≫= fun e => as_str e.["source"] with
      | None => pure (mutants_not_run "the function could not be extracted")
      | Some source =>
        let* main := gets (fun s => main (server s)) in
        let options := unwrap_or ((fun m => printed_source_options (project_options m)) <$> main) no_options in
        pure (run_contract_mutants mutant_write (mutant_answer options wp_config) mutant_scratch source function (fi_signature info))
      end
    end
  end.

Definition assumed_definitions_payload : Tool json :=
  let* client := try require_client in
  let* answered := match client with
    | inl _ => let* o := ask (Get "plugins.ast-utils.getRecursiveLogic" JNull) in pure (match o with Ok a => inl (data a) | Err error => inr (display_error error) end)
    | inr error => pure (inr (display_rmcp error))
    end in
  pure (assumed_definitions to_string answered).

(** The property table of the pins and the harness, when one of them reads it. *)
Definition fact_properties (wanted : bool) : Tool (option (list json)) :=
  if wanted then
    let* client := try require_client in
    match client with
    | inl _ => let* r := try fetch_properties in pure (match r with inl rows => Some rows | inr _ => None end)
    | inr _ => pure None
    end
  else pure None.

Record ProgramFacts := mkFacts { f_gaps : list json; f_mutant_probe : json; f_assumed : json }.

Definition program_facts (pins : option (list PinnedProperty)) (mutants : bool) (function : option string) (wp_config : json) : Tool ProgramFacts :=
  let pins := opt_filter (fun pins => negb (bool_decide (length pins = 0))) pins in
  let* harness := gets (fun s => find_harness (session s)) in
  let* threads := gets (fun s => find_threads (session s)) in
  let* properties := fact_properties (is_Some_b pins || negb (bool_decide (harness = []))) in
  let* now := gets session in
  let* mutant_probe := (if mutants then contract_mutant_probe function wp_config else pure JNull) in
  let* assumed := assumed_definitions_payload in
  pure (mkFacts
    (match properties with Some properties => option_list (reachability_property_gap (harness_encoding harness properties)) | None => [] end
     ++ option_list (concurrent_program_gap threads)
     ++ match pins with Some pins => pinned_gaps pins (unwrap_or properties []) now | None => [] end
     ++ contract_mutant_gaps mutant_probe)
    mutant_probe assumed).

(** *** The payload *)

Definition CHECK : string := "check".

Definition check_proof_receipt (payload : json) (files : list string) (eva wp : json) (goals : list json) (wanted_eva : bool) (scope : option string)
    (properties : row_map) : Tool json :=
  receipt_step (mkRequest CHECK files (field "effective_wp_config" wp)
    (unwrap_or (eva .? "effective_options") (eva_config_absent (if wanted_eva then "eva_did_not_complete" else "not_requested")))
    goals scope "check_wp_goals"
    (JObj [("verdict", payload.["verdict"]); ("incomplete", incomplete_digest to_string sha256_hex payload.["incomplete"]);
           ("wp_failure_kind", field "failure_kind" wp)])
    properties None (pointer ["proof_receipt"; "subject"; "ast_digest"] wp ≫= as_str)).

(** What the messages are when they are read: those the drain found, and whether it was cut. *)
Definition read_messages (missed : bool) : Tool (list json * bool) :=
  let* client := try require_client in
  match client with inl _ => drain_messages | inr _ => pure ([], missed) end.

(** Nothing ran: every analysis is null and the open items say why. *)
Definition reload_failed_payload (reload : json) (incomplete messages : list json) (truncated : bool) (temporary_source_dir : option string) : json :=
  JObj
    [("schema", JStr CHECK_SCHEMA); ("verdict", JStr "incomplete"); ("incomplete_guidance", incomplete_guidance incomplete); ("incomplete", JArr incomplete);
     ("detail", JNull); ("reload", reload); ("eva", JNull); ("eva_alarms", JNull); ("wp", JNull); ("wp_goals", JNull); ("wp_backend_diagnosis", JNull);
     ("memory_model_probe", probe_absent "the reload failed, so nothing was proved" true); ("contract_mutant_probe", JNull);
     ("assumed_definitions", assumed_definitions to_string (inr "the reload failed, so there is no program to read"));
     ("established", established_by_target JNull incomplete); ("messages", JArr messages); ("messages_truncated", JBool truncated);
     ("recommended_next_call", JObj [("tool", JStr "reload_project"); ("args", JObj []);
        ("reason", JStr "check could not reload the requested input, so EVA/WP were not run.")]);
     ("temporary_source_dir", jopt JStr temporary_source_dir)].

Definition check_reload_failed_payload (error : ErrorData) (rte : bool) (function : option string) (wanted : WantedAnalyses) (files : list string)
    (temporary_source_dir : option string) : Tool json :=
  let reload := check_step_error error in
  let incomplete := check_incomplete_items debug_str (Some rte) reload JNull JNull JNull JNull wanted in
  let* (messages, messages_truncated) := read_messages false in
  let payload := reload_failed_payload reload incomplete messages messages_truncated temporary_source_dir in
  let* receipt := receipt_step (mkRequest CHECK files JNull (eva_config_absent "reload_failed") [] function NOT_RUN_RELOAD_FAILED
    (JObj [("verdict", payload.["verdict"]); ("incomplete", incomplete_digest to_string sha256_hex payload.["incomplete"])]) ∅ None None) in
  pure (put "proof_receipt" receipt payload).

Definition source_files (params : CheckParams) : Tool (option (list string) * option string) :=
  match c_source params with
  | Some source => let* (files, dir) := from_sum (materialize_check_source scratch write source) in pure (Some files, Some dir)
  | None => pure (l_files (c_load params), None)
  end.

(** What a check makes of the load it asks for. *)
Definition load_of (params : CheckParams) (files : option (list string)) (rte : bool) : LoadParams :=
  let l := c_load params in
  mkLoad files (l_include_paths l) (l_defines l) (l_force_includes l) (l_isystem_paths l) (l_nostdinc l) (l_machdep l) (l_compilation_database l)
    (l_verify_profile l) (Some rte) (l_rte_unsigned l) (l_rte_pointer l) (l_builtin_models l).
Definition eva_of (params : CheckParams) : RunEvaParams :=
  mkRunEva (c_profile params) (c_precision params) (c_function params) (c_slevel params) (c_ilevel params).
Definition wp_of (params : CheckParams) (smoke : bool) : RunWpCall :=
  mkCall (mkParams ((fun f => [f]) <$> c_function params) (c_prover params) (c_provers params) (c_timeout params) (c_par params) (c_steps params)
            (c_model params) (c_prop params) None smoke None) None None (c_retry_unproved params) (l_verify_profile (c_load params)).

(** Everything a check has read when it composes its verdict. *)
Record CheckOutcome := mkOutcome {
  o_rte : bool;
  o_unsigned_skipped : bool;
  o_reload : json;
  o_eva : json;
  o_alarms : json;
  o_wp : json;
  o_goals : json;
  o_messages : list json;
  o_truncated : bool;
  o_facts : ProgramFacts;
}.

Definition gates_of (params : CheckParams) (o : CheckOutcome) : RunEvidenceGates :=
  run_evidence_gates (o_unsigned_skipped o)
    (mkEvidence (from_want (c_want params)) (bool_decide (c_smoke params = Some true)) (o_rte o) (c_prop params) (o_messages o) (o_truncated o) (o_wp o) (o_goals o)).
Definition incomplete_of (params : CheckParams) (o : CheckOutcome) : list json :=
  check_incomplete_items debug_str (Some (o_rte o)) (o_reload o) (o_eva o) (o_alarms o) (o_wp o) (o_goals o) (from_want (c_want params))
  ++ g_gaps (gates_of params o) ++ f_gaps (o_facts o).

Definition payload_of (params : CheckParams) (o : CheckOutcome) (temporary_source_dir : option string) : json :=
  let wanted := from_want (c_want params) in
  let gates := gates_of params o in
  let incomplete := incomplete_of params o in
  let summarize := negb (c_full params) in
  let '(reported_goals, reported_alarms) := reported_arrays summarize (o_goals o) (o_alarms o) in
  JObj
    [("schema", JStr CHECK_SCHEMA); ("verdict", JStr match incomplete with [] => "proved" | _ => "incomplete" end);
     ("incomplete_guidance", incomplete_guidance incomplete); ("incomplete", JArr incomplete);
     ("detail", JStr (if summarize then "summary" else "full")); ("reload", o_reload o); ("eva", o_eva o); ("eva_alarms", reported_alarms);
     ("wp", o_wp o); ("wp_goals", reported_goals); ("wp_backend_diagnosis", g_diagnosis gates); ("memory_model_probe", g_memory_model gates);
     ("contract_mutant_probe", f_mutant_probe (o_facts o)); ("assumed_definitions", f_assumed (o_facts o));
     ("established", established_by_target (o_goals o) incomplete); ("messages", JArr (o_messages o)); ("messages_truncated", JBool (o_truncated o));
     ("recommended_next_call", check_next_call (mkNextCall (g_diagnosis gates) (g_unjudged gates) (o_alarms o) (o_goals o) incomplete wanted (c_function params)));
     ("temporary_source_dir", jopt JStr temporary_source_dir)].

(** The run of a check whose program loaded. *)
Definition check_run (params : CheckParams) (rte : bool) (reload : json) : Tool CheckOutcome :=
  let wanted := from_want (c_want params) in
  let* (eva, alarms) := (if want_eva wanted then check_eva_step (eva_of params) (c_function params) else pure (JNull, JNull)) in
  let* (wp, goals) := (if want_wp wanted then check_wp_step (wp_of params (bool_decide (c_smoke params = Some true))) (c_function params) else pure (JNull, JNull)) in
  let* (drained, messages_truncated) := read_messages true in
  let messages := drained ++ unwrap_or (get_arr "messages" wp) [] in
  let* unsigned_skipped := gets (fun s => is_some_and (fun m => unsigned_rte_skipped (project_options m)) (main (server s))) in
  let* facts := program_facts (c_pinned params) (bool_decide (c_mutants params = Some true)) (c_function params) wp.["effective_wp_config"] in
  pure (mkOutcome rte unsigned_skipped reload eva alarms wp goals messages messages_truncated facts).

Definition check_payload (params : CheckParams) : Tool json :=
  let* (files, temporary_source_dir) := source_files params in
  let* rte := check_rte_setting (l_rte (c_load params)) (l_verify_profile (c_load params)) in
  let* reload := try (reload_step (load_of params files rte)) in
  match reload with
  | inr error =>
    check_reload_failed_payload error rte (c_function params) (from_want (c_want params)) (unwrap_or files []) temporary_source_dir
  | inl reload =>
    let* o := check_run params rte reload in
    let payload := payload_of params o temporary_source_dir in
    let* receipt := check_proof_receipt payload (unwrap_or files []) (o_eva o) (o_wp o) (array_or_empty (o_goals o)) (want_eva (from_want (c_want params)))
      (c_function params) (property_status_map (array_or_empty (o_alarms o))) in
    pure (put "proof_receipt" receipt payload)
  end.
End check.

(** ** Theorems *)

Lemma option_list_nil {A} (o : option A) : option_list o = [] <-> o = None.
Proof. by destruct o. Qed.

Lemma if_nil {A} (b : bool) (a : A) : (if b then [a] else []) = [] <-> b = false.
Proof. by destruct b. Qed.

(** The run behind a verdict: every analysis was asked for and ended, the whole program was
    covered, nothing was declined, everything said was read, and every probe answered. *)
Record ProvedCheck (params : CheckParams) (o : CheckOutcome) : Prop := mkProvedCheck {
  pc_clean : CleanRun (Some (o_rte o)) (o_reload o) (o_eva o) (o_alarms o) (o_wp o) (o_goals o) (from_want (c_want params));
  pc_unsigned : o_unsigned_skipped o = false;
  pc_whole : c_prop params = None;
  pc_read : o_truncated o = false;
  pc_messages : forall message, message ∈ o_messages o -> message_code message = None;
  pc_model : weakening_model_selectors (pointer ["effective_wp_config"; "model"] (o_wp o) ≫= as_str) = [];
  pc_judged : wp_backend_anomaly_left_goal_unjudged
    (wp_backend_diagnosis (o_messages o) (pointer ["effective_wp_config"; "model"] (o_wp o) ≫= as_str)) (o_goals o) = false;
  pc_counted : forall measured goals, pointer ["effective_wp_config"; "functions"] (o_wp o) ≫= as_array = None
      \/ pointer ["effective_wp_config"; "functions"] (o_wp o) ≫= as_array = Some [] ->
    pointer ["measurement"; "goals"] (o_wp o) ≫= as_u64 = Some measured -> as_array (o_goals o) = Some goals -> measured = N.of_nat (length goals);
  pc_smoke : c_smoke params = Some true -> exists probe total, (o_wp o) .? "smoke_probe" = Some probe /\ get_bool "ran" probe = Some true
    /\ unwrap_or (get_arr "failed" probe) [] = [] /\ get_u64 "total" probe = Some total
    /\ forall passed, get_u64 "passed" probe = Some passed -> (total <= passed)%N;
  pc_memory : let probe := memory_model_probe BOTH (o_wp o) in
    (probe_ran probe = true /\ unparsed_hypothesis_warnings probe = 0%N /\ forall entry, entry ∈ hypothesis_entries probe -> entry_names_function entry = false)
    \/ (probe_ran probe = false /\ (get_str "reason" probe = None \/ get_bool "nothing_was_proved" probe = Some true));
  pc_facts : f_gaps (o_facts o) = [];
}.

Lemma wanted_both w : want_eva w = true -> want_wp w = true -> w = BOTH.
Proof. destruct w as [e p]. cbn. by intros -> ->. Qed.

Lemma wp_message_gaps_nil messages model :
  wp_message_gaps messages model = [] <-> (forall m, m ∈ messages -> message_code m = None) /\ weakening_model_selectors model = [].
Proof.
  destruct (wp_message_gaps_spec messages model) as (gaps & -> & Hinv). rewrite app_nil_iff. apply Morphisms_Prop.and_iff_morphism.
  - split.
    + intros -> m Hm. destruct (message_code m) as [c|] eqn:E; [|done].
      assert (Hk : (JStr c, JStr (message_line m)) ∈ (finding_key <$> ([] : list json))); [|by apply elem_of_nil in Hk].
      apply (si_keys _ _ Hinv). exists m. split; [done|]. by apply message_key_Some.
    + intros Hno. destruct gaps as [|g gaps]; [done|]. exfalso.
      destruct (Forall_cons_1 _ _ _ (si_gaps _ _ Hinv)) as [(c & r & ls & Hc & Hr & _) _].
      assert (Hk : (JStr c, JStr r) ∈ (finding_key <$> g :: gaps)) by (unfold finding_key; cbn; rewrite Hc, Hr; left).
      apply (si_keys _ _ Hinv) in Hk as (m & Hm & [Hcode _]%message_key_Some). by rewrite (Hno m Hm) in Hcode.
  - unfold weakened_model_gap. by destruct (weakening_model_selectors model).
Qed.

Lemma memory_gaps_nil probe :
  (memory_model_hypothesis_gap probe = None /\ memory_model_unchecked_gap probe BOTH = None) <->
  (probe_ran probe = true /\ unparsed_hypothesis_warnings probe = 0%N /\ forall entry, entry ∈ hypothesis_entries probe -> entry_names_function entry = false)
  \/ (probe_ran probe = false /\ (get_str "reason" probe = None \/ get_bool "nothing_was_proved" probe = Some true)).
Proof.
  split; [intros [H1 H2]; by apply (proj2 (memory_model_gaps_exclusive probe BOTH))|].
  unfold memory_model_hypothesis_gap, memory_model_unchecked_gap. intros [(-> & -> & Hn)|[-> Hr]]; cbn.
  - assert (parsed_hypothesis_entries probe = []) as -> by (by apply bfilter_nil). done.
  - split; [done|]. destruct Hr as [->| ->]; [done|]. by destruct (get_str "reason" probe).
Qed.

Lemma goals_changed_nil prop wp goals :
  goals_changed_gap BOTH prop wp goals = None <-> (prop = None ->
    forall measured l, pointer ["effective_wp_config"; "functions"] wp ≫= as_array = None \/ pointer ["effective_wp_config"; "functions"] wp ≫= as_array = Some [] ->
    pointer ["measurement"; "goals"] wp ≫= as_u64 = Some measured -> as_array goals = Some l -> measured = N.of_nat (length l)).
Proof.
  unfold goals_changed_gap. destruct prop as [p|]; [by cbn|]. cbn [want_wp BOTH is_Some_b negb andb].
  destruct (pointer ["effective_wp_config"; "functions"] wp ≫= as_array) as [[|f fs]|]; cbn [is_some_and];
    [rewrite bool_decide_eq_true_2 by done|rewrite bool_decide_eq_false_2 by done|]; cbn [negb].
  2: { split; [|done]. intros _ _ measured l [?|?]; done. }
  all: destruct (pointer ["measurement"; "goals"] wp ≫= as_u64) as [n|], (as_array goals) as [l|]; try (by split; [intros _ _ ?? ?|]).
  all: destruct (N.eqb_spec n (N.of_nat (length l))) as [->|Hne]; split; try done; [by intros _ _ ?? _ [= <-] [= <-]|intros H; destruct Hne; by apply (H eq_refl n l); auto].
Qed.

Lemma incomplete_nil debug_str params o : incomplete_of debug_str params o = [] <-> ProvedCheck params o.
Proof.
  unfold incomplete_of. rewrite !app_nil_iff, check_incomplete_items_clean.
  split.
  - intros (Hc & Hg & Hf). destruct (clean_wanted _ _ _ _ _ _ _ Hc) as [He Hw]. pose proof (wanted_both _ He Hw) as Hb.
    unfold gates_of, run_evidence_gates in Hg. cbn [g_gaps i_wanted i_smoke i_rte i_prop i_messages i_truncated i_wp i_goals] in Hg. rewrite Hb in Hg.
    rewrite !app_nil_iff, !if_nil, !option_list_nil in Hg. destruct Hg as (Hj & Hn & Hs & Hwith & Ht & Hm & Hh & Hu).
    apply wp_message_gaps_nil in Hm as [Hm Hmodel]. unfold withheld_by_request_gaps in Hwith. rewrite app_nil_iff, if_nil in Hwith. destruct Hwith as [Hr Hp].
    assert (Hprop : c_prop params = None) by (by destruct (c_prop params)).
    assert (Hrte : o_rte o = true) by (pose proof (clean_rte _ _ _ _ _ _ _ Hc); by destruct (o_rte o)). rewrite Hrte in Hr.
    split; try done.
    + exact (proj1 (goals_changed_nil _ _ _) Hn Hprop).
    + intros Hsmoke. rewrite bool_decide_eq_true_2 in Hs by done. apply smoke_test_gaps_spec in Hs as [?|Hs]; done.
    + by apply memory_gaps_nil.
  - intros [Hc Hr Hp Ht Hm Hmodel Hj Hn Hs Hmem Hf]. split; [done|]. split; [|done].
    destruct (clean_wanted _ _ _ _ _ _ _ Hc) as [He Hw]. pose proof (wanted_both _ He Hw) as Hb.
    unfold gates_of, run_evidence_gates. cbn [g_gaps i_wanted i_smoke i_rte i_prop i_messages i_truncated i_wp i_goals]. rewrite Hb, Hp, Hr.
    apply memory_gaps_nil in Hmem as [Hh Hu].
    rewrite !app_nil_iff, !if_nil, !option_list_nil. split_and!; try done.
    + apply goals_changed_nil. intros _. exact Hn.
    + apply smoke_test_gaps_spec. destruct (decide (c_smoke params = Some true)) as [E|E]; [right; by apply Hs|left; by rewrite bool_decide_eq_false_2].
    + unfold withheld_by_request_gaps. by rewrite andb_false_r.
    + by apply wp_message_gaps_nil.
Qed.

Lemma keeps_session_properties answer display fuel : keeps_session (fetch_properties answer display fuel).
Proof.
  apply keeps_session_bind; [|intros; apply keeps_session_pure]. apply keeps_session_bind; [apply keeps_session_get|]. intros _. apply keeps_session_pages.
Qed.

(** *** Payloads *)

Definition CHECK_FIELDS : list string :=
  ["schema"; "verdict"; "incomplete_guidance"; "incomplete"; "detail"; "reload"; "eva"; "eva_alarms"; "wp"; "wp_goals"; "wp_backend_diagnosis";
   "memory_model_probe"; "contract_mutant_probe"; "assumed_definitions"; "established"; "messages"; "messages_truncated"; "recommended_next_call";
   "temporary_source_dir"; "proof_receipt"].

Lemma idx_put_ne k k' v o : k <> k' -> (put k' v o).[k] = o.[k].
Proof. intros Hk. unfold idx. by rewrite get_put_ne. Qed.

Lemma map_insert_new k v m : k ∉ m.*1 -> (map_insert k v m).*1 = m.*1 ++ [k].
Proof.
  intros Hk. apply map_insert_keys. induction m as [|[k' v'] m IH]; [done|]. apply not_elem_of_cons in Hk as [Hk Hm].
  cbn in *. apply String.eqb_neq in Hk. rewrite Hk. by apply IH.
Qed.

(** A receipt put into a payload without one: its place, and what is reported of the rest. *)
Lemma put_receipt body receipt reported : keys body ++ ["proof_receipt"] = CHECK_FIELDS -> receipt .? "reported" = Some reported ->
  keys (put "proof_receipt" receipt body) = CHECK_FIELDS /\ pointer ["proof_receipt"; "reported"] (put "proof_receipt" receipt body) = Some reported.
Proof.
  intros Hk Hr. assert (Hn : "proof_receipt" ∉ keys body).
  { assert (Hl : length (keys body) = 19) by (apply (f_equal length) in Hk; rewrite length_app in Hk; cbn in Hk; lia).
    assert (keys body = take 19 CHECK_FIELDS) as -> by (by rewrite <- Hk, take_app_length').
    intros Hin. apply (bool_decide_eq_true_2 _) in Hin. revert Hin. by vm_compute. }
  destruct body as [| | | | |m]; try done. cbn [keys put map_object] in *. split; [by rewrite map_insert_new|].
  unfold pointer. cbn [fold_left mbind option_bind pointer_step]. by rewrite map_get_insert.
Qed.

Section theorems.
Context {steps : CheckSteps} (answer : list (request * bool) -> request -> Reply) (display_error : FramaCError -> string) (display_rmcp : ErrorData -> string)
  (debug_str : string -> string) (fuel : nat) (to_string : json -> string) (sha256_hex : string -> string) (scratch : string + string)
  (write : string -> string -> option string) (mutant_scratch : bool) (mutant_write : string -> string -> bool)
  (mutant_answer : ProjectLoadOptions -> json -> string -> option (GroupRun * option json)).
Abbreviation check := (check_payload answer display_error display_rmcp debug_str fuel to_string sha256_hex scratch write mutant_scratch mutant_write mutant_answer).
Abbreviation run_of := (check_run answer display_error display_rmcp debug_str fuel to_string mutant_scratch mutant_write mutant_answer).
Abbreviation facts_of := (program_facts answer display_error display_rmcp debug_str fuel to_string mutant_scratch mutant_write mutant_answer).
Abbreviation properties_of := (fetch_properties answer display_error fuel).

(** How a check ends: on a load that failed, or with the payload of what its run read. *)
Lemma check_cases params s payload s' : check params s = Some (inl payload, s') ->
  exists files dir rte s1 s2 r, reload_step (load_of params files rte) s1 = Some (r, s2)
  /\ ((exists e body receipt s3 s4 q, r = inr e /\ payload = put "proof_receipt" receipt body /\ keys body ++ ["proof_receipt"] = CHECK_FIELDS
        /\ body.["verdict"] = JStr "incomplete" /\ receipt_step q s3 = Some (inl receipt, s4)
        /\ r_reported q = JObj [("verdict", body.["verdict"]); ("incomplete", incomplete_digest to_string sha256_hex body.["incomplete"])]
        /\ body.["wp"] = JNull /\ exists i g, body.["incomplete"] = JArr (i :: g) /\ r_status_source q = NOT_RUN_RELOAD_FAILED /\ r_ast_source q = None /\ r_ast_digest q = None)
      \/ exists reload o s3 receipt q, r = inl reload /\ run_of params rte reload s2 = Some (inl o, s3)
           /\ payload = put "proof_receipt" receipt (payload_of debug_str params o dir) /\ receipt_step q s3 = Some (inl receipt, s')
           /\ r_reported q = JObj [("verdict", (payload_of debug_str params o dir).["verdict"]);
                ("incomplete", incomplete_digest to_string sha256_hex (payload_of debug_str params o dir).["incomplete"]); ("wp_failure_kind", field "failure_kind" (o_wp o))]
           /\ r_status_source q = "check_wp_goals" /\ r_ast_digest q = (pointer ["proof_receipt"; "subject"; "ast_digest"] (o_wp o) ≫= as_str)
           /\ r_ast_source q = None).
Proof.
  unfold check_payload. intros [([files dir] & s0 & _ & H)|(? & _ & ?)]%andThen_Some; [|done].
  apply andThen_Some in H as [(rte & s1 & _ & H)|(? & _ & ?)]; [|done].
  apply andThen_Some in H as [(r & s2 & Hr & H)|(? & _ & ?)]; [|done].
  apply try_Some in Hr as (r0 & [= <-] & Hr). exists files, dir, rte, s1, s2, r. split; [done|]. destruct r as [reload|e].
  - right. apply andThen_Some in H as [(o & s3 & Ho & H)|(? & _ & ?)]; [|done].
    apply andThen_Some in H as [(receipt & s4 & Hc & [= <- <-])|(? & _ & ?)]; [|done].
    exists reload, o, s3, receipt. eexists. split_and!; [done|done|done|exact Hc|done..].
  - left. unfold check_reload_failed_payload in H. apply andThen_Some in H as [([messages cut] & s3 & _ & H)|(? & _ & ?)]; [|done].
    apply andThen_Some in H as [(receipt & s4 & Hc & [= <- <-])|(? & _ & ?)]; [|done].
    eexists e, (reload_failed_payload to_string _ _ messages cut dir), receipt, s3, s4, _.
    split; [done|]. split; [reflexivity|]. split; [reflexivity|]. split; [reflexivity|]. split; [exact Hc|]. split; [reflexivity|]. split; [reflexivity|].
    unfold idx. cbn [reload_failed_payload Json.get map_get].
    destruct (check_incomplete_items debug_str (Some rte) (check_step_error display_rmcp e) JNull JNull JNull JNull (from_want (c_want params))) as [|i g] eqn:E;
      [|by exists i, g; split_and!].
    exfalso. apply check_incomplete_items_clean in E. pose proof (clean_steps _ _ _ _ _ _ _ E) as Hs. by apply Forall_cons in Hs as [Hs _].
Qed.

(** C2: every check answers with one set of fields, in one order, whether its program loaded
    or not; the verdict is proved exactly when nothing is left open; and the receipt
    reports that verdict and a digest of those open items. *)
Theorem check_payload_typed params s payload s' : check params s = Some (inl payload, s') ->
  keys payload = CHECK_FIELDS
  /\ (exists incomplete, payload.["incomplete"] = JArr incomplete
       /\ payload.["verdict"] = JStr (match incomplete with [] => "proved" | _ => "incomplete" end))
  /\ exists reported, pointer ["proof_receipt"; "reported"] payload = Some reported
       /\ reported.["verdict"] = payload.["verdict"] /\ reported.["incomplete"] = incomplete_digest to_string sha256_hex payload.["incomplete"].
Proof.
  intros (files & dir & rte & s1 & s2 & r & _ & [(e & body & receipt & s3 & s4 & q & _ & -> & Hkeys & Hv & Hr & Hq & _ & i & g & Hi & _)
                                              |(reload & o & s3 & receipt & q & _ & _ & -> & Hr & Hq & _)])%check_cases;
    destruct (receipt_written _ _ _ _ Hr) as (receipt' & [= <-] & Hrep).
  - rewrite Hq in Hrep. destruct (put_receipt body receipt _ Hkeys Hrep) as [Hk Hp]. split; [done|]. rewrite !idx_put_ne by done. split.
    + exists (i :: g). by rewrite Hi, Hv.
    + eexists. split; [exact Hp|]. by rewrite Hv.
  - rewrite Hq in Hrep. set (body := payload_of debug_str params o dir) in *.
    assert (Hb : keys body ++ ["proof_receipt"] = CHECK_FIELDS /\ body.["incomplete"] = JArr (incomplete_of debug_str params o)
      /\ body.["verdict"] = JStr match incomplete_of debug_str params o with [] => "proved" | _ => "incomplete" end)
      by (unfold body, payload_of; by destruct (reported_arrays _ _ _)).
    destruct Hb as (Hkeys & Hi & Hv). destruct (put_receipt body receipt _ Hkeys Hrep) as [Hk Hp]. split; [done|]. rewrite !idx_put_ne by done. split.
    + exists (incomplete_of debug_str params o). by rewrite Hi, Hv.
    + eexists. by split; [exact Hp|].
Qed.

Lemma fact_properties_Some wanted s properties s' : fact_properties answer display_error fuel wanted s = Some (inl (Some properties), s') ->
  exists s1, session s1 = session s /\ properties_of s1 = Some (inl properties, s').
Proof.
  unfold fact_properties. destruct wanted; [|done]. intros [(client & s1 & Hc & H)|(? & _ & ?)]%andThen_Some; [|done].
  apply keeps_session_try in Hc; [|apply keeps_session_require_client]. destruct client; [|done].
  apply andThen_Some in H as [(r & s2 & Hr & H)|(? & _ & ?)]; [|done]. apply try_Some in Hr as (r0 & [= <-] & Hr). destruct r; [|done].
  injection H as <- <-. by exists s1.
Qed.

Lemma keeps_session_facts pins mutants function config : keeps_session (facts_of pins mutants function config).
Proof.
  assert (Hask : forall r (f : result FramaCExecResult -> json + string), keeps_session (let* o := ask answer r in pure (f o)))
    by (intros; apply keeps_session_bind; [apply keeps_session_ask|intros; apply keeps_session_pure]).
  assert (Hclient : keeps_session (try require_client)) by apply keeps_session_try, keeps_session_require_client.
  unfold program_facts. apply keeps_session_bind; [apply keeps_session_gets|]. intros harness. apply keeps_session_bind; [apply keeps_session_gets|]. intros threads.
  apply keeps_session_bind; [|intros properties; apply keeps_session_bind; [apply keeps_session_gets|]; intros now; apply keeps_session_bind; [|intros probe; apply keeps_session_bind]].
  - unfold fact_properties. destruct (_ || _); [|apply keeps_session_pure]. apply keeps_session_bind; [done|]. intros []; [|apply keeps_session_pure].
    apply keeps_session_bind; [apply keeps_session_try, keeps_session_properties|intros; apply keeps_session_pure].
  - destruct mutants; [|apply keeps_session_pure]. unfold contract_mutant_probe. destruct function; [|apply keeps_session_pure].
    apply keeps_session_bind; [apply keeps_session_gets|]. intros [info|]; [|apply keeps_session_pure]. apply keeps_session_bind; [done|]. intros client.
    apply keeps_session_bind; [destruct client; [apply keeps_session_bind; [apply keeps_session_ask|intros; apply keeps_session_pure]|apply keeps_session_pure]|].
    intros extracted. destruct (extracted ≫= _); [|apply keeps_session_pure]. apply keeps_session_bind; [apply keeps_session_gets|intros; apply keeps_session_pure].
  - apply keeps_session_bind; [done|]. intros client. apply keeps_session_bind; [|intros; apply keeps_session_pure]. destruct client; [apply Hask|apply keeps_session_pure].
  - intros; apply keeps_session_pure.
Qed.

(** What the program states and asks, when it leaves nothing open. *)
Lemma program_facts_clean pins mutants function config s facts s' (now := session s') :
  facts_of pins mutants function config s = Some (inl facts, s') -> f_gaps facts = [] ->
  find_threads now = []
  /\ (forall l, pins = Some l -> l <> [] -> exists s1 s2 properties, session s1 = now /\ properties_of s1 = Some (inl properties, s2) /\
       forall pin, pin ∈ l -> exists row, row ∈ properties /\ pin_matches (pin_scopes l now) (all_formals now) pin row = true /\ own_status_is_proved row = true)
  /\ (mutants = true -> contract_mutant_gaps (f_mutant_probe facts) = []).
Proof.
  intros H0. assert (Hnow : now = session s) by (by apply keeps_session_facts in H0). clearbody now. subst now. revert H0.
  unfold program_facts. do 2 (intros [(? & ? & [= <- <-] & H)|(? & _ & ?)]%andThen_Some; [revert H|done]).
  intros [(properties & s1 & Hp & H)|(? & _ & ?)]%andThen_Some; [|done]. apply andThen_Some in H as [(now & ? & [= <- <-] & H)|(? & _ & ?)]; [|done].
  apply andThen_Some in H as [(probe & s2 & _ & H)|(? & _ & ?)]; [|done]. apply andThen_Some in H as [(assumed & s3 & _ & [= <- _])|(? & _ & ?)]; [|done].
  cbn [f_gaps f_mutant_probe]. rewrite !app_nil_iff, option_list_nil. intros (_ & Ht & Hpins & Hm). split_and!; [|intros l -> Hl|done].
  - unfold concurrent_program_gap in Ht. by destruct (find_threads _).
  - cbn [opt_filter] in Hpins, Hp. rewrite bool_decide_eq_false_2 in Hpins, Hp by (by destruct l). cbn [negb is_Some_b orb] in Hpins, Hp.
    unfold pinned_gaps, pinned_property_gaps in Hpins. rewrite collect_some_nil in Hpins.
    destruct properties as [properties|].
    + apply fact_properties_Some in Hp as (s0 & Hs0 & Hp). exists s0, s1, properties. assert (Hs1 : session s1 = session s) by (rewrite <- Hs0; by apply keeps_session_properties in Hp).
      split; [done|]. split; [done|]. intros pin Hin. rewrite <- Hs1. by apply pin_gap_None, Hpins.
    + exfalso. destruct l as [|pin l]; [done|]. specialize (Hpins pin ltac:(left)). apply pin_gap_None in Hpins as (row & Hin & _). by apply elem_of_nil in Hin.
Qed.

End theorems.

(** ** Witnesses *)

(** Steps that leave a clean run: one goal, proved, and a probe that found nothing. *)
Definition demo_wp_payload : json :=
  JObj [("ok", JBool true); ("drained", JBool true); ("memory_model_probe", JObj [("ran", JBool true); ("hypotheses", JArr [])]);
        ("effective_wp_config", JObj [("model", JStr "Typed")]); ("measurement", JObj [("goals", jnat 1)])].
#[local] Program Instance demo_steps : CheckSteps := {|
  reload_step := fun _ => pure demo_reload;
  eva_step := fun _ => pure demo_eva;
  alarms_step := fun _ => pure (JArr []);
  wp_step := fun _ => pure demo_wp_payload;
  goals_step := fun _ => pure (JArr [Gaps.demo_goal "valid"]);
  receipt_step := fun r => pure (JObj [("reported", r_reported r)]);
|}.
Next Obligation. cbn. intros r s o s' [= <- _]. by eexists. Qed.

Definition quiet_reply (_ : list log_entry) (_ : request) : Reply :=
  mkReply (Ok (mkExecResult (JArr []) (new_diagnostics "RQ.0" "demo"))) 1 0.
Definition plain_check : CheckParams :=
  mkCheck None None (mkLoad (Some ["f.c"]) None None None None None None None None None None None None) None None (Some []) None false None None None None
    None None None None None None None None.
Definition demo_check : option ((json + ErrorData) * Sys) :=
  check_payload quiet_reply (fun _ => "") (fun _ => "") (fun s => s) 2 (fun _ => "") (fun s => s) (inr "") (fun _ _ => None) false (fun _ _ => false) (fun _ _ _ => None)
    plain_check demo_sys.

Lemma check_payload_typed_witness : exists payload s', demo_check = Some (inl payload, s') /\ keys payload = CHECK_FIELDS /\ payload.["verdict"] = JStr "proved".
Proof.
  destruct demo_check as [[[payload|] s']|] eqn:E; [|exfalso; revert E; vm_compute; discriminate|exfalso; revert E; vm_compute; discriminate].
  exists payload, s'. split; [done|].
  destruct (check_payload_typed quiet_reply (fun _ => "") (fun _ => "") (fun s => s) 2 (fun _ => "") (fun s => s) (inr "") (fun _ _ => None) false (fun _ _ => false)
    (fun _ _ _ => None) plain_check demo_sys payload s' E) as (Hk & _ & _).
  split; [exact Hk|]. revert E. vm_compute. by intros [= <- _].
Defined.

