(* ===== verification/CheckVariants.v ===== *)
(** * A check over several configurations (src/src/mcp/analysis.rs, src/src/mcp/checkgaps.rs)

    One check after the other, since they share one Frama-C; each under a label of its own,
    and a configuration whose program was already analysed under different inputs named as
    the duplicate it is.  The check itself is an argument. *)

From S2P Require Import Prelude RustStr Json Receipt Errors Variants Requests Reload Check.
Local Open Scope nat_scope.

Record CheckVariant := mkVariant {
  variant_label : option string;
  variant_defines : option (list string);
  variant_machdep : option string;
  variant_model : option string;
}.

(** The values of the variant where it sets them, the call's otherwise. *)
Definition vary (base : CheckParams) (v : CheckVariant) : CheckParams :=
  let l := c_load base in
  mkCheck (c_want base) (c_source base)
    (mkLoad (l_files l) (l_include_paths l) (variant_defines v <||> l_defines l) (l_force_includes l) (l_isystem_paths l) (l_nostdinc l)
       (variant_machdep v <||> l_machdep l) (l_compilation_database l) (l_verify_profile l) (l_rte l) (l_rte_unsigned l) (l_rte_pointer l) (l_builtin_models l))
    (c_function base) (c_smoke base) (c_pinned base) (c_mutants base) (c_full base) (c_profile base) (c_precision base) (c_slevel base) (c_ilevel base)
    (c_prover base) (c_provers base) (c_timeout base) (c_steps base) (c_par base) (variant_model v <||> c_model base) (c_prop base) (c_retry_unproved base).

(** [serde_json::from_value::<Vec<String>>], or none. *)
Definition strings_of (v : json) : list string :=
  match v with
  | JArr l => if forallb (fun x => is_some_and (fun _ => true) (as_str x)) l then collect_some as_str l else []
  | _ => []
  end.

(** What could have changed the code: the definitions and the machine. *)
Definition AstInputs : Type := list string * option string.

(** What the load used, when it recorded it, with the digest of the machine file. *)
Definition effective_inputs (params : CheckParams) (payload : json) : AstInputs * option string :=
  match opt_filter (fun reload => is_some_and (fun _ => true) (reload .? "defines")) (payload .? "reload") with
  | Some reload => ((strings_of reload.["defines"], as_str reload.["machdep"]), as_str reload.["machdep_digest"])
  | None => ((unwrap_or (l_defines (c_load params)) [], l_machdep (c_load params)), None)
  end.

Definition payload_digest (payload : json) : option string := pointer ["proof_receipt"; "subject"; "ast_digest"] payload ≫= as_str.

Definition variant_entry (label : string) (params : CheckParams) (payload : json) : json :=
  let '((defines, machdep), machdep_digest) := effective_inputs params payload in
  JObj [("label", JStr label); ("defines", jstrings defines); ("machdep", jopt JStr machdep); ("machdep_digest", jopt JStr machdep_digest);
        ("model", unwrap_or (pointer ["wp"; "effective_wp_config"; "model"] payload) JNull); ("verdict", field "verdict" payload);
        ("incomplete", jstrings (collect_some (get_str "code") (unwrap_or (get_arr "incomplete" payload) [])));
        ("ast_digest", jopt JStr (payload_digest payload)); ("wp_backend_diagnosis", field "wp_backend_diagnosis" payload);
        ("proof_receipt_sha256", unwrap_or (pointer ["proof_receipt"; "sha256"] payload) JNull)].

(** Per program, the variants that had it, one for each set of inputs, the first first. *)
Abbreviation groups := (gmap string (list (string * AstInputs))).

Definition seen_inputs (inputs : AstInputs) (group : list (string * AstInputs)) : bool := existsb (fun g => bool_decide (g.2 = inputs)) group.

Definition duplicate_of (digests : groups) (program : option string) (inputs : AstInputs) : option string :=
  program ≫= fun key => digests !! key ≫= fun group => if seen_inputs inputs group then None else fst <$> head group.
Definition note_group (digests : groups) (program : option string) (label : string) (inputs : AstInputs) : groups :=
  match program with
  | None => digests
  | Some key =>
    let group := unwrap_or (digests !! key) [] in
    <[key := if seen_inputs inputs group then group else group ++ [(label, inputs)]]> digests
  end.

Definition note_variant (digests : groups) (label : string) (params : CheckParams) (payload : json) : json * groups :=
  let entry := variant_entry label params payload in
  let inputs := (effective_inputs params payload).1 in
  let program := variant_program_key entry in
  (match duplicate_of digests program inputs with Some first => put "duplicate_ast" (JStr first) entry | None => entry end,
   note_group digests program label inputs).

Section variants.
Variable check : CheckParams -> Tool json.

Fixpoint variants_from (base : CheckParams) (index : nat) (taken : gset string) (digests : groups) (variants : list CheckVariant) : Tool (list json) :=
  match variants with
  | [] => pure []
  | v :: variants =>
    let '(label, taken) := claim_label taken (unwrap_or (variant_label v) ("variant" +s+ dec index)) index in
    let params := vary base v in
    let* payload := check params in
    let '(entry, digests) := note_variant digests label params payload in
    let* entries := variants_from base (S index) taken digests variants in
    pure (entry :: entries)
  end.

Definition check_variants (base : CheckParams) (variants : list CheckVariant) : Tool json :=
  let* results := variants_from base 0 ∅ ∅ variants in pure (check_variants_summary results).
End variants.

(** ** Theorems *)

Section theorems.
Context (check : CheckParams -> Tool json) (base : CheckParams).

(** The checks of a call, one after the other, with their payloads. *)
Inductive checked : list CheckVariant -> Sys -> list (CheckParams * json) -> Sys -> Prop :=
| checked_none s : checked [] s [] s
| checked_one v vs s payload s1 items s2 : check (vary base v) s = Some (inl payload, s1) -> checked vs s1 items s2 ->
    checked (v :: vs) s ((vary base v, payload) :: items) s2.

(** The program a check analysed, and what its inputs were. *)
Definition program_of (d : CheckParams * json) : option string := variant_program_key (variant_entry "" d.1 d.2).
Definition inputs_of (d : CheckParams * json) : AstInputs := (effective_inputs d.1 d.2).1.

Lemma program_of_entry label d : variant_program_key (variant_entry label d.1 d.2) = program_of d.
Proof. unfold program_of, variant_entry. by destruct (effective_inputs d.1 d.2) as [[? ?] ?]. Qed.

(** No program was analysed under two inputs so far. *)
Definition consistent (items : list (CheckParams * json)) : Prop :=
  forall d d' key, d ∈ items -> d' ∈ items -> program_of d = Some key -> program_of d' = Some key -> inputs_of d = inputs_of d'.

Definition describes (digests : groups) (items : list (CheckParams * json)) : Prop :=
  forall key, match digests !! key with
  | None => forall d, d ∈ items -> program_of d <> Some key
  | Some group => group <> [] /\ exists inputs, (forall g, g ∈ group -> g.2 = inputs) /\ forall d, d ∈ items -> program_of d = Some key -> inputs_of d = inputs
  end.

Lemma describes_consistent digests items : describes digests items -> consistent items.
Proof.
  intros H d d' key Hd Hd' Hp Hp'. specialize (H key). destruct (digests !! key); [|by destruct (H d Hd)].
  destruct H as (_ & inputs & _ & H). by rewrite (H d), (H d').
Qed.

Lemma seen_inputs_true inputs group : seen_inputs inputs group = true <-> exists g, g ∈ group /\ g.2 = inputs.
Proof. unfold seen_inputs. rewrite existsb_true. by setoid_rewrite bool_decide_eq_true. Qed.

Lemma note_group_describes digests items label d : describes digests items -> duplicate_of digests (program_of d) (inputs_of d) = None ->
  describes (note_group digests (program_of d) label (inputs_of d)) (d :: items).
Proof.
  intros H Hdup key. unfold note_group. destruct (program_of d) as [k|] eqn:Hk.
  2: { specialize (H key). destruct (digests !! key) as [group|].
       - destruct H as (Hne & inputs & Hg & H). split; [done|]. exists inputs. split; [done|]. intros d' [->|Hd']%elem_of_cons; [congruence|auto].
       - intros d' [->|Hd']%elem_of_cons; [congruence|auto]. }
  destruct (decide (k = key)) as [->|Hne].
  - rewrite lookup_insert_eq. specialize (H key). cbn -[seen_inputs] in Hdup. destruct (digests !! key) as [group|]; cbn -[seen_inputs] in Hdup |- *.
    + destruct H as (Hne & inputs & Hg & H). destruct (seen_inputs (inputs_of d) group) eqn:Hs; [|by destruct group].
      split; [done|]. apply seen_inputs_true in Hs as (g & Hin & Hi). exists inputs. split; [done|].
      intros d' [->|Hd']%elem_of_cons Hp'; [|by apply H]. rewrite <- Hi. by apply Hg.
    + split; [done|]. exists (inputs_of d). split; [by intros g ->%list_elem_of_singleton|]. intros d' [->|Hd']%elem_of_cons Hp; [done|]. by destruct (H d' Hd').
  - rewrite lookup_insert_ne by done. specialize (H key). destruct (digests !! key) as [group|].
    + destruct H as (Hg0 & inputs & Hg & H). split; [done|]. exists inputs. split; [done|]. intros d' [->|Hd']%elem_of_cons Hp; [congruence|auto].
    + intros d' [->|Hd']%elem_of_cons; [congruence|auto].
Qed.

Lemma variants_from_spec vs : forall index taken digests items s results s', variants_from check base index taken digests vs s = Some (inl results, s') ->
  describes digests items -> (forall e, e ∈ results -> e .? "duplicate_ast" = None) ->
  exists new, checked vs s new s' /\ consistent (items ++ new) /\ Forall2 (fun e d => exists label, e = variant_entry label d.1 d.2) results new.
Proof.
  induction vs as [|v vs IH]; intros index taken digests items s results s' H Hinv Hno.
  { injection H as <- <-. exists []. split; [constructor|]. rewrite app_nil_r. split; [by eapply describes_consistent|constructor]. }
  cbn [variants_from] in H. destruct (claim_label _ _ _) as [label taken'].
  apply andThen_Some in H as [(payload & s1 & Hc & H)|(? & _ & ?)]; [|done].
  set (d := (vary base v, payload)). unfold note_variant in H.
  change (vary base v) with d.1 in H. change payload with d.2 in H. rewrite program_of_entry in H. fold (inputs_of d) in H.
  apply andThen_Some in H as [(entries & s2 & H & [= <- <-])|(? & _ & ?)]; [|done].
  assert (Hdup : duplicate_of digests (program_of d) (inputs_of d) = None).
  { specialize (Hno _ ltac:(left)). destruct (duplicate_of _ _ _) as [first|]; [|done]. exfalso. revert Hno. unfold variant_entry, put.
    destruct (effective_inputs _ _) as [[? ?] ?]. cbn [map_object Json.get]. by rewrite map_get_insert. }
  destruct (IH _ _ _ (d :: items) _ _ _ H) as (new & Hrun & Hcons & Hres); [by apply note_group_describes|intros e He; apply Hno; by right|].
  exists (d :: new). split; [by econstructor|]. split.
  - intros a a' key Ha Ha'. apply Hcons; [set_solver|set_solver].
  - constructor; [|done]. exists label. by rewrite Hdup.
Qed.

End theorems.

(** *** Witness *)

Definition demo_payload (digest : string) : json :=
  JObj [("verdict", JStr "proved"); ("proof_receipt", JObj [("subject", JObj [("ast_digest", JStr digest)])])].
Definition demo_variants : list CheckVariant :=
  [mkVariant (Some "a") (Some ["N=1"]) None None; mkVariant (Some "a") (Some ["N=2"]) None None].
Definition demo_checker (params : CheckParams) : Tool json := pure (demo_payload (join "," (unwrap_or (l_defines (c_load params)) []))).

