(* ===== verification/MainCheck.v ===== *)
(** * A check of the main instance (src/src/mcp/analysis.rs)

    The steps of a check as the main instance takes them, and what holds of the whole: its
    load, the runs that are answered elsewhere and the answers of other processes are
    arguments. *)

From S2P Require Import Prelude RustStr Json Codec Client Status Verdicts Rows Gaps Receipt WpTriage Session Errors WpConfig Proc WpCli MainInstance Requests WpTasks EvaRun RunWp ReceiptRun FindingLists Reload Check CheckVariants.
Local Open Scope nat_scope.

Section main.
Variable answer : list (request * bool) -> request -> Reply.
Variable late : list (request * bool) -> N.
Variable display_error : FramaCError -> string.
Variable display_rmcp : ErrorData -> string.
Variable debug_str : string -> string.
Variables debug_list debug_set : list string -> string.
Variable models : WpModelSupport.
Variables env_provers env_timeout env_par : option string.
Variable fuel : nat.
Variable hash_label_in : string -> option string.
Variable to_string : json -> string.
Variables sha256_hex canonical_ast_for_digest : string -> string.
Variable host_load : HostLoad.
Variable read_file : string -> string + string.
Variable sandbox_context : string -> string -> json + ErrorData.
Variable run_command : string -> list string -> json.
Variable frama_c_path : string.
Variable nonce : list (request * bool) -> string.
Variable write_ast : string -> string -> string + ErrorData.
Variable probe_answer : string -> list string -> GroupRun.
Variable smoke_answer : string -> option string * option json * N * GroupRun.
Variable lossy : string -> string.
Variable executable_in_path : string -> bool.
Variable builtin_models_header : option string.
Variable wide_alphanumeric : string -> bool.
(** Loading a program; a proof run answered elsewhere; the goals of a sandbox's function;
    why a sandbox cannot be asked; whether the project is locked when a run asks. *)
Variable reload_project : LoadParams -> Tool json.
Variable answered_elsewhere : WpAnswer -> Tool json.
Variable sandbox_goals : string -> Tool json.
Variable locked : bool * bool.

(** A whole [run_wp] call, its receipt included. *)
Definition run_wp_tool (call : RunWpCall) : Tool json :=
  let* a := run_wp answer late display_error debug_str debug_list debug_set models env_provers env_timeout env_par fuel hash_label_in to_string sha256_hex host_load locked call in
  match a with
  | OnMain run =>
    finish_run_wp answer display_error fuel hash_label_in to_string sha256_hex canonical_ast_for_digest read_file sandbox_context run_command frama_c_path nonce
      write_ast display_rmcp probe_answer smoke_answer lossy executable_in_path builtin_models_header wide_alphanumeric (smoke_requested (config call)) run
  | QueueCancelled payload => pure payload
  | a => answered_elsewhere a
  end.

Definition main_goals (function : option string) : Tool json :=
  match opt_filter (contains ":") function with
  | Some name => sandbox_goals name
  | None => wp_goals_payload answer display_error debug_str fuel hash_label_in to_string sha256_hex (fun _ => None) function None None
  end.

Definition main_receipt (r : ProofReceiptRequest) : Tool json :=
  proof_receipt answer display_error hash_label_in to_string sha256_hex canonical_ast_for_digest read_file sandbox_context run_command frama_c_path nonce false r.

(** *** A receipt is always written *)

Lemma main_receipt_written r s o s' : main_receipt r s = Some (o, s') -> exists receipt, o = inl receipt /\ receipt .? "reported" = Some (r_reported r).
Proof.
  intros H. assert (Hn : never_raises (main_receipt r)).
  { apply never_raises_bind; [|intros contracts; apply never_raises_bind; [|intros [digest reason]; do 2 (apply never_raises_bind; [apply never_raises_gets|intros]);
      apply never_raises_bind; [destruct (as_str _); [apply never_raises_modify|apply never_raises_pure]|intros; apply never_raises_pure]]].
    - unfold proof_receipt_contracts. destruct (_ =s _); [apply never_raises_pure|]. apply never_raises_bind; [|intros; apply never_raises_pure].
      apply never_raises_each. intros f. apply never_raises_bind; [apply never_raises_try|intros; apply never_raises_pure].
    - unfold proof_receipt_ast_digest. destruct (_ =s _); [apply never_raises_pure|]. destruct (opt_filter _ _); [apply never_raises_pure|].
      destruct (r_ast_source r); [apply never_raises_pure|]. destruct (_ =s _); [apply never_raises_pure|].
      apply never_raises_bind; [apply never_raises_try|]. intros []; [|apply never_raises_pure].
      apply never_raises_bind; [apply never_raises_bind; [apply never_raises_ask|intros; apply never_raises_pure]|]. intros []; apply never_raises_pure. }
  destruct (Hn _ _ _ H) as [receipt ->]. exists receipt. split; [done|]. apply receipt_states_digest in H as (? & ? & ? & ? & _ & _ & _ & H). exact H.
Qed.

(** The steps of a check of the main instance. *)
#[export] Instance main_steps : CheckSteps := {|
  reload_step := reload_project;
  eva_step := run_eva_payload answer display_error;
  alarms_step := fun function => eva_alarms_payload answer display_error debug_str fuel function None None;
  wp_step := run_wp_tool;
  goals_step := main_goals;
  receipt_step := main_receipt;
  receipt_written := main_receipt_written;
|}.

(** ** Theorems *)

Variables (scratch : string + string) (write : string -> string -> option string) (mutant_scratch : bool) (mutant_write : string -> string -> bool)
  (mutant_answer : ProjectLoadOptions -> json -> string -> option (GroupRun * option json)).
Abbreviation check := (check_payload answer display_error display_rmcp debug_str fuel to_string sha256_hex scratch write mutant_scratch mutant_write mutant_answer).

(** What a receipt says of the program: the digest it was given, or the one of a print. *)
Lemma receipt_digest_from held source given s r s' : source <> ISOLATED_RETRY_NO_AST ->
  proof_receipt_ast_digest answer display_error sha256_hex canonical_ast_for_digest held source None given s = Some (inl r, s') ->
  (exists digest, given = Some digest /\ digest <> ISOLATED_RETRY_NO_AST /\ r = (JStr digest, JNull))
  \/ (given = None \/ given = Some ISOLATED_RETRY_NO_AST)
     /\ ((exists reason, r = (JNull, JStr reason))
         \/ exists s1 text, print_source answer s1 = Some (inl (Ok text), s') /\ r = (JStr (sha256_hex (canonical_ast_for_digest text)), JNull)).
Proof.
  unfold proof_receipt_ast_digest. intros Hs%String.eqb_neq. rewrite Hs.
  assert (Hlate : forall s, (if source =s NOT_RUN_RELOAD_FAILED then pure (JNull, JStr "reload_failed") else
    let* client := if held then pure (inl tt) else try require_client in
    match client with inr _ => pure (JNull, JStr "no_client") | inl _ =>
      let* printed := print_source answer in
      match printed with
      | Ok text => pure (digest_of_printed_ast sha256_hex canonical_ast_for_digest text)
      | Err error => pure (JNull, JStr ("request_failed: " +s+ display_error error))
      end end) s = Some (inl r, s') -> (exists reason, r = (JNull, JStr reason))
         \/ exists s1 text, print_source answer s1 = Some (inl (Ok text), s') /\ r = (JStr (sha256_hex (canonical_ast_for_digest text)), JNull)).
  { intros s0. destruct (source =s NOT_RUN_RELOAD_FAILED); [intros [= <- _]; left; by eexists|].
    intros [(client & s1 & _ & H)|(? & _ & ?)]%andThen_Some; [|done]. destruct client; [|left; injection H as <- _; by eexists].
    apply andThen_Some in H as [(printed & s2 & Hp & H)|(? & _ & ?)]; [|done]. destruct printed as [text|e]; injection H as <- <-; [|left; by eexists].
    unfold digest_of_printed_ast. destruct (is_empty text); [left; by eexists|right; by exists s1, text]. }
  destruct given as [digest|]; cbn [opt_filter mbind option_bind]; [destruct (String.eqb_spec digest ISOLATED_RETRY_NO_AST) as [->|Hne]|]; cbn.
  - intros H. right. split; [by right|by apply (Hlate s)].
  - intros [= <- _]. left. by exists digest.
  - intros H. right. split; [by left|by apply (Hlate s)].
Qed.

Lemma receipt_pointer receipt m path : pointer ("proof_receipt" :: path) (put "proof_receipt" receipt (JObj m)) = pointer path receipt.
Proof. unfold pointer. cbn. by rewrite map_get_insert. Qed.

Lemma no_run_digest receipt m path : (JObj m).["wp"] = JNull ->
  pointer ("wp" :: "proof_receipt" :: path) (put "proof_receipt" receipt (JObj m)) = None.
Proof.
  unfold idx, pointer. cbn. rewrite map_get_insert_ne by done. intros Hwp. assert (Hnone : fold_left (fun acc tok => acc ≫= pointer_step tok) path None = None) by (by induction path).
  destruct (map_get "wp" m) as [[]|]; done.
Qed.

(** Where the digest that a check states comes from. *)
Lemma check_states_digest params s payload s' : check params s = Some (inl payload, s') ->
  exists source s1 s2 digest reason, source <> ISOLATED_RETRY_NO_AST
    /\ proof_receipt_ast_digest answer display_error sha256_hex canonical_ast_for_digest false source None
         (pointer ["wp"; "proof_receipt"; "subject"; "ast_digest"] payload ≫= as_str) s1 = Some (inl (digest, reason), s2)
    /\ pointer ["proof_receipt"; "subject"; "ast_digest"] payload = Some digest
    /\ pointer ["proof_receipt"; "subject"; "ast_digest_unavailable_reason"] payload = Some reason.
Proof.
  intros (files & dir & rte & s1 & s2 & r & _ & [(e & body & receipt & s3 & s4 & q & _ & -> & Hk & _ & Hr & _ & Hwp & i & g & _ & Hsource & Hno & Hgiven)
    |(reload & o & s3 & receipt & q & _ & _ & -> & Hr & _ & Hsource & Hgiven & Hno)])%check_cases;
    apply receipt_states_digest in Hr as (s5 & s6 & d & why & Hdigest & Hin & Hreason & _);
    rewrite Hsource, Hgiven, Hno in Hdigest.
  - exists NOT_RUN_RELOAD_FAILED, s5, s6, d, why. assert (exists m, body = JObj m) as [m ->] by (destruct body; try done; by eexists).
    rewrite (receipt_pointer _ _ ["subject"; "ast_digest"]), (receipt_pointer _ _ ["subject"; "ast_digest_unavailable_reason"]), no_run_digest by done.
    split_and!; [discriminate|exact Hdigest|done..].
  - exists "check_wp_goals", s5, s6, d, why. assert (exists m, payload_of debug_str params o dir = JObj m /\ map_get "wp" m = Some (o_wp o)) as (m & Hm & Hwp)
      by (unfold payload_of; destruct (reported_arrays _ _ _); eexists; split; reflexivity).
    rewrite Hm, (receipt_pointer _ _ ["subject"; "ast_digest"]), (receipt_pointer _ _ ["subject"; "ast_digest_unavailable_reason"]) by done.
    split_and!; [discriminate| |done..].
    assert (forall path, pointer ("wp" :: path) (put "proof_receipt" receipt (JObj m)) = pointer path (o_wp o)) as ->; [|exact Hdigest].
    intros path. unfold pointer. cbn. rewrite map_get_insert_ne by done. by rewrite Hwp.
Qed.

End main.

(** ** Witness *)

(** The Frama-C of a run on one function, whose program prints. *)
Definition demo_printing (log : list log_entry) (r : request) : Reply :=
  if request_name r =s PRINT_SOURCE then mkReply (Ok (mkExecResult (JStr "int f(void);") (new_diagnostics "RQ.0" "demo"))) 1 0
  else demo_frama_c log r.

Abbreviation demo_main :=
  (main_steps demo_printing (fun _ => 0%N) (fun _ => "") (fun _ => "") (fun s => s) (join ",") (join ",") fallback None None None 3 (fun _ => None) (fun _ => "")
    (fun s => "sha256 of " +s+ s) (fun s => s) demo_load (fun _ => inl "") (fun _ _ => inl JNull) (fun _ _ => JNull) "frama-c" (fun _ => "drawn")
    (fun _ _ => inl "/tmp/x/current-ast.c") (fun _ _ => Output (Some 0%Z) "" "") (fun _ => (None, None, 0%N, NoResult)) (fun s => s) (fun _ => false) None (fun _ => false)
    (fun _ => pure demo_reload) (fun _ => stuck) (fun _ => stuck) (false, false)).

Abbreviation demo_main_check :=
  (check_payload (steps := demo_main) demo_printing (fun _ => "") (fun _ => "") (fun s => s) 3 (fun _ => "") (fun s => "sha256 of " +s+ s) (inr "") (fun _ _ => None)
    false (fun _ _ => false) (fun _ _ _ => None) plain_check demo_loaded).

