(* ===== verification/ConcText.v ===== *)
(** * Text of the thread analysis (first part of src/mcp/concurrency.rs)

    The pass that lists concurrent accesses never parses C.  It blanks comments and
    literals, keeping columns ([strip_noise]); reads identifiers and calls off one
    line at a time ([identifiers], [calls_among]); and recognises declarations,
    function headers and branches by their text.  Brackets are ASCII, so an offset is
    a byte offset into the line.  A depth counter of type i32 is a [Z]: it cannot
    overflow before a line of two gigabytes. *)

From S2P Require Import Prelude RustStr Json.
Local Open Scope nat_scope.

Definition KEYWORDS : list string :=
  ["if"; "for"; "while"; "switch"; "return"; "sizeof"; "do"; "else"; "case"; "goto"; "break";
   "continue"; "typedef"; "struct"; "union"; "enum"; "static"; "const"; "volatile"; "extern";
   "unsigned"; "signed"; "register"; "inline"; "restrict"].

(** [slice::contains] of a name. *)
Definition among (names : list string) (name : string) : bool := existsb (String.eqb name) names.

(** ** The synchronisation calls *)

Inductive LockOp := Acquire | Try | Release | Wait.
Inductive LockMode := Exclusive | Shared.

#[export] Instance LockMode_eq_dec : EqDecision LockMode.
Proof. solve_decision. Defined.

Record LockApi := mkApi {
  api_name : string;
  api_arg : option nat;
  api_op : LockOp;
  api_mode : LockMode;
}.

Definition api (name : string) (arg : nat) (op : LockOp) (mode : LockMode) : LockApi :=
  mkApi name (Some arg) op mode.

Definition LOCK_API : list LockApi :=
  [api "pthread_mutex_lock" 0 Acquire Exclusive;
   api "pthread_mutex_trylock" 0 Try Exclusive;
   api "pthread_mutex_timedlock" 0 Try Exclusive;
   api "pthread_mutex_unlock" 0 Release Exclusive;
   api "pthread_spin_lock" 0 Acquire Exclusive;
   api "pthread_spin_trylock" 0 Try Exclusive;
   api "pthread_spin_unlock" 0 Release Exclusive;
   api "pthread_rwlock_rdlock" 0 Acquire Shared;
   api "pthread_rwlock_wrlock" 0 Acquire Exclusive;
   api "pthread_rwlock_tryrdlock" 0 Try Shared;
   api "pthread_rwlock_trywrlock" 0 Try Exclusive;
   api "pthread_rwlock_timedrdlock" 0 Try Shared;
   api "pthread_rwlock_timedwrlock" 0 Try Exclusive;
   api "pthread_rwlock_unlock" 0 Release Exclusive;
   api "sem_wait" 0 Acquire Exclusive;
   api "sem_trywait" 0 Try Exclusive;
   api "sem_timedwait" 0 Try Exclusive;
   api "sem_post" 0 Release Exclusive;
   api "pthread_cond_wait" 1 Wait Exclusive;
   api "pthread_cond_timedwait" 1 Wait Exclusive;
   mkApi "__VERIFIER_atomic_begin" None Acquire Exclusive;
   mkApi "__VERIFIER_atomic_end" None Release Exclusive].

Definition ATOMIC_SECTION : string := "<atomic>".
Definition ATOMIC_FUNCTION_PREFIX : string := "__VERIFIER_atomic".

Definition lock_api (name : string) : option LockApi :=
  find_first (fun api => api_name api =s name) LOCK_API.

Definition lock_kind (op : LockOp) : string :=
  match op with
  | Acquire => "LOCK"
  | Try => "TRYLOCK"
  | Release => "UNLOCK"
  | Wait => "COND_WAIT"
  end.

Definition atomic_access (name : string) : option string :=
  let family := existsb (fun prefix => starts_with prefix name) ["__atomic_"; "__sync_"; "atomic_"] in
  if negb family || existsb (fun w => contains w name) ["fence"; "lock_free"; "synchronize"] then None
  else if name =s "atomic_init" then Some "WRITE"
  else if contains "load" name then Some "ATOMIC_READ"
  else if contains "store" name || contains "clear" name || (name =s "__sync_lock_release")
  then Some "ATOMIC_WRITE"
  else Some "ATOMIC_RMW".

Definition writes_expected (name : string) : bool :=
  starts_with "atomic_compare_exchange_" name
  || (name =s "__atomic_compare_exchange")
  || (name =s "__atomic_compare_exchange_n").

Definition is_some {A} (o : option A) : bool := match o with Some _ => true | None => false end.

Definition reads_arguments (name : string) : bool :=
  starts_with "pthread_" name || is_some (lock_api name) || is_some (atomic_access name).

Definition is_modelled (name : string) : bool :=
  starts_with "pthread_" name || is_some (lock_api name).

Definition is_access (kind : string) : bool :=
  among ["READ"; "WRITE"; "ATOMIC_READ"; "ATOMIC_WRITE"; "ATOMIC_RMW"] kind.
Definition is_atomic (kind : string) : bool := starts_with "ATOMIC_" kind.
Definition writes (kind : string) : bool := among ["WRITE"; "ATOMIC_WRITE"; "ATOMIC_RMW"] kind.

Definition conflicting (left right : string) : bool :=
  (writes left || writes right) && negb (is_atomic left && is_atomic right).

Definition UNATTRIBUTED : string := "<unattributed>".

(** ** Cleaning *)

Record Noise := mkNoise {
  n_block : bool;
  n_string : bool;
  n_character : bool;
  n_escaped : bool;
}.

Definition quiet : Noise := mkNoise false false false false.

Inductive Step := Keep | Blank (width : nat) | Rest.

(** The characters of a string, each as its UTF-8 bytes: a byte that does not
    continue a character starts one. *)
Definition continues (s : string) : bool :=
  match s with String d _ => RustStr.in_range 128 191 d | "" => false end.

Fixpoint chars (s : string) : list string :=
  match s with
  | "" => []
  | String c s =>
    match chars s with
    | part :: parts => if continues s then String c part :: parts else String c "" :: part :: parts
    | [] => [String c ""]
    end
  end.

Definition step_literal (state : Noise) (c : string) : Step * Noise :=
  let '(mkNoise block string character escaped) := state in
  if escaped then (Blank 1, mkNoise block string character false)
  else if c =s "\" then (Blank 1, mkNoise block string character true)
  else if (string && (c =s dq)) || (character && (c =s "'")) then (Keep, mkNoise block false false escaped)
  else (Blank 1, state).

Definition step_noise (state : Noise) (c next : string) : Step * Noise :=
  let '(mkNoise block string character escaped) := state in
  if block then
    let closing := (c =s "*") && (next =s "/") in
    (Blank (if closing then 2 else 1), mkNoise (negb closing) string character escaped)
  else if string || character then step_literal state c
  else if (c =s "/") && (next =s "*") then (Blank 2, mkNoise true string character escaped)
  else if (c =s "/") && (next =s "/") then (Rest, state)
  else (Keep, mkNoise block (c =s dq) (c =s "'") escaped).

(** One line: each step takes at least one character, so their number is enough. *)
Fixpoint clean_chars (fuel : nat) (state : Noise) (characters : list string) : list string * Noise :=
  match fuel, characters with
  | S fuel, c :: rest =>
    let next := match rest with d :: _ => d | [] => " " end in
    match step_noise state c next with
    | (Keep, state) =>
      let '(out, state) := clean_chars fuel state rest in (c :: out, state)
    | (Blank width, state) =>
      let '(out, state) := clean_chars fuel state (drop width characters) in
      (replicate width " " ++ out, state)
    | (Rest, state) => ([], state)
    end
  | _, _ => ([], state)
  end.

Definition clean_line (state : Noise) (raw : list string) : list string * Noise :=
  let '(out, state) := clean_chars (length raw) state raw in
  (out, mkNoise (n_block state) false false false).

Fixpoint clean_lines (state : Noise) (raws : list (list string)) : list (list string) :=
  match raws with
  | [] => []
  | raw :: raws => let '(out, state) := clean_line state raw in out :: clean_lines state raws
  end.

Definition BOM : string :=
  String (ascii_of_nat 239) (String (ascii_of_nat 187) (String (ascii_of_nat 191) "")).

Definition strip_noise (text : string) : list string :=
  map (String.concat "") (clean_lines quiet (map chars (lines (trim_start_matches BOM text)))).

(** ** Tokens and calls *)

Definition byte_is (c : string) (b : ascii) : bool := String b "" =s c.

Definition is_head (byte : ascii) : bool := is_ascii_upper byte || is_ascii_lower byte || byte_is "_" byte.
Definition is_tail (byte : ascii) : bool := is_ascii_alphanumeric byte || byte_is "_" byte.

Fixpoint identifiers_from (fuel index : nat) (rest : string) : list (nat * string) :=
  match fuel, rest with
  | S fuel, String c rest' =>
    if is_head c then
      let token := take_while is_tail rest in
      (index, token) :: identifiers_from fuel (index + String.length token) (skip (String.length token) rest)
    else identifiers_from fuel (S index) rest'
  | _, _ => []
  end.

Definition identifiers (line : string) : list (nat * string) := identifiers_from (String.length line) 0 line.

Record Call := mkCall {
  c_name : string;
  c_args : list string;
  c_start : nat;
  c_open : nat;
  c_end : nat;
}.

Fixpoint paren_pairs_from (offset : nat) (unclosed : list nat) (pairs : gmap nat nat) (s : string) : gmap nat nat :=
  match s with
  | "" => pairs
  | String c s =>
    if byte_is "(" c then paren_pairs_from (S offset) (offset :: unclosed) pairs s
    else if byte_is ")" c then
      match unclosed with
      | start :: unclosed => paren_pairs_from (S offset) unclosed (<[start := offset]> pairs) s
      | [] => paren_pairs_from (S offset) [] pairs s
      end
    else paren_pairs_from (S offset) unclosed pairs s
  end.

Definition paren_pairs (line : string) : gmap nat nat := paren_pairs_from 0 [] ∅ line.

(** [&s\[a..b\]]. *)
Definition slice (a b : nat) (s : string) : string := take_str (b - a) (skip a s).

Definition depth_step (opening closing : string) (c : ascii) : Z :=
  (if contains (String c "") opening then 1 else 0) - (if contains (String c "") closing then 1 else 0).

Fixpoint matching_from (opening closing : string) (offset : nat) (depth : Z) (s : string) : option nat :=
  match s with
  | "" => None
  | String c s =>
    let depth := (depth + depth_step opening closing c)%Z in
    if (depth =? 0)%Z then Some offset else matching_from opening closing (S offset) depth s
  end.

Definition matching (line : string) (open : nat) : option nat :=
  matching_from "(" ")" open 0 (skip open line).

Fixpoint split_from (depth : Z) (current body : string) : list string :=
  match body with
  | "" => [current]
  | String c body =>
    let depth := (depth + depth_step "([{" ")]}" c)%Z in
    if byte_is "," c && (depth =? 0)%Z then current :: split_from depth "" body
    else split_from depth (current +s+ String c "") body
  end.

Definition split_top_level (body : string) : list string := split_from 0 "" body.

Definition call_at (line : string) (pairs : gmap nat nat) (token : nat * string) : option Call :=
  let '(start, name) := token in
  let after := start + String.length name in
  if negb (starts_with "(" (trim_start (skip after line))) || among KEYWORDS name then None
  else
    let open := after + unwrap_or (find "(" (skip after line)) 0 in
    match pairs !! open with
    | None => None
    | Some close =>
      let args := if reads_arguments name then split_top_level (slice (S open) close line) else [] in
      Some (mkCall name args start open close)
    end.

Definition calls_among (line : string) (tokens : list (nat * string)) : list Call :=
  collect_some (call_at line (paren_pairs line)) tokens.

(** [trim_start_matches] and [trim_end_matches] of a set of ASCII characters. *)
Fixpoint trim_start_of (set s : string) : string :=
  match s with
  | "" => ""
  | String c s' => if contains (String c "") set then trim_start_of set s' else s
  end.
Fixpoint trim_end_of (set s : string) : string :=
  match s with
  | "" => ""
  | String c s' => if sall (fun d => contains (String d "") set) s then "" else String c (trim_end_of set s')
  end.

(** The loop over leading casts; each turn drops at least the two brackets. *)
Fixpoint drop_casts (fuel : nat) (text : string) : string :=
  match fuel with
  | O => text
  | S fuel =>
    if starts_with "(" text then
      match matching text 0 with
      | None => text
      | Some close =>
        if (String.length text <=? close + 1)%nat then text
        else drop_casts fuel (trim (skip (close + 1) text))
      end
    else text
  end.

Definition lock_expression (arg : string) : string :=
  let text := trim arg in
  let text := drop_casts (String.length text) text in
  join "" (split_whitespace (trim_start_of "&* " text)).

Definition is_identifier (token : string) : bool :=
  match token with
  | "" => false
  | String c _ => is_head c && sall is_tail token
  end.

Definition entry_function (arg : string) : option string :=
  let name := trim_end_of "()" (lock_expression arg) in
  then_some (is_identifier name) name.

(** ** Lemmas: lengths, and the fuel of the scans *)

Lemma length_trim_start_of set s : String.length (trim_start_of set s) <= String.length s.
Proof. induction s as [|c s IH]; simpl; [done|]. destruct (contains _ _); simpl; lia. Qed.

Lemma length_take_while f s : String.length (take_while f s) <= String.length s.
Proof. induction s as [|c s IH]; simpl; [done|]. destruct (f c); simpl; lia. Qed.

Lemma find_length needle s at_ : find needle s = Some at_ -> at_ + String.length needle <= String.length s.
Proof.
  unfold find. revert at_. induction s as [|c s IH]; intros at_.
  - destruct needle; simpl; [intros [= <-]; simpl; lia|done].
  - cbn [String.index]. destruct (String.prefix needle (String c s)) eqn:E.
    + intros [= <-]. by apply prefix_length in E.
    + destruct (String.index 0 needle s) as [n|]; [|done]. intros [= <-]. specialize (IH n eq_refl). simpl. lia.
Qed.

Lemma matching_from_bounds opening closing offset depth s at_ :
  matching_from opening closing offset depth s = Some at_ -> offset <= at_ < offset + String.length s.
Proof.
  revert offset depth. induction s as [|c s IH]; intros offset depth; simpl; [done|].
  destruct (_ =? 0)%Z; [intros [= <-]; lia|]. intros H. apply IH in H. lia.
Qed.

Lemma matching_bounds line open close : matching line open = Some close -> open <= close < String.length line.
Proof.
  intros H. apply matching_from_bounds in H. rewrite length_skip in H. lia.
Qed.

(** A scan answers the same with any fuel that covers the text. *)
Lemma identifiers_from_fuel fuel fuel' index rest :
  String.length rest <= fuel -> String.length rest <= fuel' ->
  identifiers_from fuel index rest = identifiers_from fuel' index rest.
Proof.
  revert fuel' index rest. induction fuel as [|fuel IH]; intros [|fuel'] index [|c rest] H H'; simpl in *;
    try done; try lia.
  destruct (is_head c) eqn:E; [|apply IH; lia].
  destruct (is_tail c) eqn:Et.
  - simpl. f_equal. apply IH; rewrite length_skip; lia.
  - exfalso. revert E Et. unfold is_head, is_tail, is_ascii_alphanumeric.
    destruct (is_ascii_upper c), (is_ascii_lower c), (is_ascii_digit c), (byte_is "_" c); done.
Qed.

Lemma drop_casts_fuel fuel fuel' text : String.length text <= fuel -> String.length text <= fuel' ->
  drop_casts fuel text = drop_casts fuel' text.
Proof.
  revert fuel' text. induction fuel as [|fuel IH]; intros [|fuel'] text H H'; simpl; try done.
  - destruct text; [done|simpl in *; lia].
  - destruct text; [done|simpl in *; lia].
  - destruct (starts_with "(" text); [|done]. destruct (matching text 0) as [close|]; [|done].
    destruct (_ <=? _)%nat eqn:E; [done|]. bool_simpl.
    pose proof (length_trim (skip (close + 1) text)) as Ht. rewrite length_skip in Ht. apply IH; lia.
Qed.

(** ** Lemmas: cleaning *)

(** What a step takes never reaches past the line. *)
Lemma step_noise_blank state c next width st : step_noise state c next = (Blank width, st) ->
  width = 1 \/ (width = 2 /\ next <> " ").
Proof.
  destruct state as [block string character escaped]. unfold step_noise, step_literal.
  repeat split_match; intros [= <- <-]; auto; right; (split; [done|]); intros ?;
    bool_simpl; destruct_and?; bool_simpl; congruence.
Qed.

Definition kept_or_blank (raw out : list string) : Prop :=
  length out <= length raw /\ forall i c, out !! i = Some c -> c = " " \/ raw !! i = Some c.

Lemma kept_or_blank_nil raw : kept_or_blank raw [].
Proof. split; [simpl; lia|]. intros i c. by rewrite lookup_nil. Qed.

Lemma kept_or_blank_keep c raw out : kept_or_blank raw out -> kept_or_blank (c :: raw) (c :: out).
Proof. intros [Hl Hk]. split; [simpl; lia|]. intros [|i] d; simpl; [auto|apply Hk]. Qed.

Lemma kept_or_blank_blank c raw out : kept_or_blank raw out -> kept_or_blank (c :: raw) (" " :: out).
Proof. intros [Hl Hk]. split; [simpl; lia|]. intros [|i] d; simpl; [intros [= <-]; auto|apply Hk]. Qed.

Lemma clean_chars_columns fuel state raw : length raw <= fuel ->
  kept_or_blank raw (clean_chars fuel state raw).1.
Proof.
  revert state raw. induction fuel as [|fuel IH]; intros state [|c raw] Hl; simpl in *;
    try apply kept_or_blank_nil.
  destruct (step_noise _ _ _) as [[|width|] st] eqn:E; [| |apply kept_or_blank_nil].
  - specialize (IH st raw ltac:(lia)). destruct (clean_chars fuel st raw). by apply kept_or_blank_keep.
  - apply step_noise_blank in E as [->|[-> Hne]]; simpl; rewrite ?drop_0.
    + specialize (IH st raw ltac:(lia)). destruct (clean_chars fuel st raw). by apply kept_or_blank_blank.
    + destruct raw as [|d raw]; [done|]. simpl in Hl |- *. rewrite ?drop_0.
      specialize (IH st raw ltac:(lia)). destruct (clean_chars fuel st raw).
      by apply kept_or_blank_blank, kept_or_blank_blank.
Qed.

(** The state a second pass is in where the first is in [state]: the comment is
    blank, and so is every escape. *)
Definition second_state (state : Noise) : Noise :=
  mkNoise false (n_string state) (n_character state) false.

(** Outside a literal nothing is escaped, and a comment is no literal. *)
Definition noise_ok (state : Noise) : Prop :=
  (n_block state = true -> n_string state = false /\ n_character state = false)
  /\ (n_escaped state = true -> n_string state = true \/ n_character state = true).

Lemma step_noise_ok state c next : noise_ok state -> noise_ok (step_noise state c next).2.
Proof.
  destruct state as [block string character escaped]. unfold noise_ok, step_noise, step_literal. simpl.
  intros [H1 H2]. destruct block, string, character, escaped; simpl; repeat split_match; simpl;
    (split; intros Hx; first [done|by auto|exfalso; by destruct (H1 eq_refl)|by destruct (H2 eq_refl)]).
Qed.

(** The second pass leaves a blank where it is, and stays in its state. *)
Lemma step_noise_space state next : n_block state = false -> n_escaped state = false ->
  (step_noise state " " next = (Keep, state) /\ n_string state = false /\ n_character state = false)
  \/ step_noise state " " next = (Blank 1, state).
Proof.
  destruct state as [block string character escaped]. simpl. intros -> ->.
  unfold step_noise, step_literal. destruct string, character; simpl; auto.
Qed.

Lemma clean_chars_space fuel state raw : n_block state = false -> n_escaped state = false ->
  clean_chars (S fuel) state (" " :: raw)
  = let '(out, state) := clean_chars fuel state raw in (" " :: out, state).
Proof.
  intros Hb He. cbn [clean_chars].
  destruct (step_noise_space state (match raw with d :: _ => d | [] => " " end) Hb He) as [[-> _]| ->]; done.
Qed.

(** A character the first pass keeps, the second keeps. *)
Lemma step_noise_again state c next next' st : noise_ok state ->
  step_noise state c next = (Keep, st) -> (next' = " " \/ next' = next) ->
  step_noise (second_state state) c next' = (Keep, second_state st).
Proof.
  destruct state as [block string character escaped]. intros [Hb He] H Hn.
  unfold second_state, step_noise, step_literal in *; cbn [n_block n_string n_character n_escaped] in *.
  destruct block; [done|]. destruct (string || character) eqn:El.
  - destruct escaped; [done|]. destruct (c =s "\"); [done|].
    destruct ((string && (c =s dq)) || (character && (c =s "'"))); [|done].
    by injection H as <-.
  - destruct ((c =s "/") && (next =s "*")) eqn:E1; [done|].
    destruct ((c =s "/") && (next =s "/")) eqn:E2; [done|].
    injection H as <-. simpl.
    assert ((c =s "/") && (next' =s "*") = false) as ->.
    { destruct Hn as [->| ->]; [|done]. destruct (c =s "/"); done. }
    assert ((c =s "/") && (next' =s "/") = false) as ->; [|done].
    destruct Hn as [->| ->]; [|done]. destruct (c =s "/"); done.
Qed.

Lemma second_state_block width state c next st : noise_ok state -> step_noise state c next = (Blank width, st) ->
  second_state st = second_state state.
Proof.
  destruct state as [block string character escaped]. intros [Hb He].
  unfold second_state, step_noise, step_literal; cbn [n_block n_string n_character n_escaped] in *.
  destruct block; [destruct Hb as [-> ->]; [done|]|]; repeat split_match; intros [= <- <-]; done.
Qed.

Lemma clean_chars_again fuel fuel' state raw : noise_ok state -> length raw <= fuel ->
  length (clean_chars fuel state raw).1 <= fuel' ->
  let '(out, st) := clean_chars fuel state raw in
  noise_ok st /\ exists st', clean_chars fuel' (second_state state) out = (out, st') /\ n_block st' = false.
Proof.
  revert fuel' state raw. induction fuel as [|fuel IH]; intros fuel' state [|c raw] Hok Hl; simpl in *;
    try (intros _; split; [done|]; destruct fuel'; by eexists).
  pose proof (step_noise_ok state c (match raw with d :: _ => d | [] => " " end) Hok) as Hok'.
  destruct (step_noise _ _ _) as [[|width|] st] eqn:E; simpl in Hok'.
  - pose proof (clean_chars_columns fuel st raw ltac:(lia)) as [_ Hcol].
    specialize (IH (pred fuel') st raw Hok' ltac:(lia)).
    destruct (clean_chars fuel st raw) as [out st1]; simpl in *. intros Hf.
    destruct fuel' as [|fuel']; [lia|]. destruct (IH ltac:(simpl; lia)) as (Hok1 & st' & Hrun & Hb).
    split; [done|]. exists st'. split; [|done]. cbn [clean_chars].
    rewrite (step_noise_again state c _ _ st Hok E).
    + simpl in Hrun. by rewrite Hrun.
    + destruct out as [|d out]; [auto|]. destruct (Hcol 0 d) as [->|Hr]; [done|auto|].
      destruct raw; [done|]. simpl in Hr. injection Hr as <-. auto.
  - pose proof (second_state_block _ _ _ _ _ Hok E) as Hs.
    assert (Hd : length (drop width (c :: raw)) <= fuel).
    { rewrite length_drop. apply step_noise_blank in E. simpl. lia. }
    specialize (IH (fuel' - width) st (drop width (c :: raw)) Hok' Hd).
    destruct (clean_chars fuel st _) as [out st1]; simpl in *. rewrite length_app, length_replicate. intros Hf.
    destruct IH as (Hok1 & st' & Hrun & Hb); [lia|]. split; [done|].
    exists st'. split; [|done]. rewrite Hs in Hrun.
    replace fuel' with (width + (fuel' - width)) by lia. generalize (fuel' - width), Hrun. clear.
    intros n Hrun. induction width as [|w IHw]; [done|].
    simpl replicate. cbn [app]. change (S w + n) with (S (w + n)).
    by rewrite clean_chars_space, IHw.
  - intros _. split; [done|]. destruct fuel'; by eexists.
Qed.

Lemma clean_line_columns state raw : kept_or_blank raw (clean_line state raw).1.
Proof.
  unfold clean_line. pose proof (clean_chars_columns (length raw) state raw ltac:(lia)) as Hc.
  by destruct (clean_chars _ _ _).
Qed.

(** Between lines only a comment can be open. *)
Definition between_lines (state : Noise) : Prop :=
  n_string state = false /\ n_character state = false /\ n_escaped state = false.

Lemma clean_lines_columns state raws : Forall2 kept_or_blank raws (clean_lines state raws).
Proof.
  revert state. induction raws as [|raw raws IH]; intros state; simpl; [constructor|].
  pose proof (clean_line_columns state raw) as Hc. destruct (clean_line state raw). by constructor.
Qed.

Lemma clean_line_again state raw : between_lines state ->
  let '(out, st) := clean_line state raw in between_lines st /\ clean_line quiet out = (out, quiet).
Proof.
  intros (Hs & Hc & He). unfold clean_line.
  assert (Hok : noise_ok state) by (split; intros; [done|congruence]).
  pose proof (clean_chars_again (length raw) (length (clean_chars (length raw) state raw).1) state raw Hok
    ltac:(lia) ltac:(lia)) as H.
  destruct (clean_chars _ state raw) as [out st]. destruct H as (_ & st' & Hrun & Hb).
  split; [done|]. simpl in Hrun. unfold second_state in Hrun. rewrite Hs, Hc in Hrun.
  unfold quiet at 1. by rewrite Hrun, Hb.
Qed.

Lemma clean_lines_again state raws : between_lines state ->
  clean_lines quiet (clean_lines state raws) = clean_lines state raws.
Proof.
  revert state. induction raws as [|raw raws IH]; intros state Hs; simpl; [done|].
  pose proof (clean_line_again state raw Hs) as H. destruct (clean_line state raw) as [out st].
  destruct H as [Hst H]. simpl. rewrite H. by rewrite IH.
Qed.

(** ** The theorem on cleaning *)

(** Cleaning keeps the lines of a file and every column: each character of a
    cleaned line is the source's character at that column or a blank, and no line
    grows.  What is left is free of comments and of text in literals: cleaning it
    again changes nothing. *)
Theorem strip_noise_spec (text : string) :
  let raws := map chars (lines (trim_start_matches BOM text)) in
  exists cleaned,
    strip_noise text = map (String.concat "") cleaned
    /\ Forall2 kept_or_blank raws cleaned
    /\ clean_lines quiet cleaned = cleaned.
Proof.
  exists (clean_lines quiet (map chars (lines (trim_start_matches BOM text)))).
  split_and!; [done|apply clean_lines_columns|by apply clean_lines_again].
Qed.

(** Cleaning at work: a comment over two lines, a character, a string, a line
    comment; the tokens that are left. *)
Example strip_noise_runs :
  strip_noise ("int x; /* a " +s+ String nl "" +s+ " b */ char c = 'q'; // z") = ["int x;      "; "      char c = ' '; "]
  /\ identifiers "x1 = 3y + _z;" = [(0, "x1"); (6, "y"); (10, "_z")]%nat.
Proof. split; vm_compute; reflexivity. Qed.
