(* ===== verification/ConcStructure.v ===== *)
(** * Files, functions and globals (second part of src/mcp/concurrency.rs)

    [structure] reads the cleaned lines of a file once: which function owns each
    line, which lines sit in a loop, and which data the file declares.  Its state
    from line to line is a [Scanning]. *)

From S2P Require Import Prelude RustStr Json ConcText.
Local Open Scope nat_scope.

Record CFunction := mkFunction { f_name : string; f_params : list string }.

Record FileScan := mkScan {
  fs_path : string;
  fs_lines : list string;
  fs_owner : list (option nat);
  fs_in_loop : list bool;
  fs_functions : list CFunction;
  fs_globals : gset string;
  fs_atomics : gset string;
}.

(** ** Declarations *)

(** [rfind] of an iterator: the last element that satisfies the test. *)
Fixpoint rfind {A} (f : A -> bool) (l : list A) : option A :=
  match l with
  | [] => None
  | x :: l => rfind f l <||> then_some (f x) x
  end.

Definition AGGREGATES : list string := ["struct"; "union"; "enum"].

Definition opens_member_list (statement : string) : bool :=
  match rfind (fun token => among AGGREGATES token.2) (identifiers statement) with
  | None => false
  | Some (start, name) =>
    let rest := skip (start + String.length name) statement in
    match find "{" rest with
    | None => false
    | Some brace => forallb is_identifier (split_whitespace (take_str brace rest))
    end
  end.

Definition is_byte (set : string) (c : ascii) : bool := contains (String c "") set.

Definition declarator_head (part : string) : string :=
  smap (fun c => if byte_is "*" c then " "%char else c) (take_while (fun c => negb (is_byte "=[" c)) part).

Definition declared_part (statement : string) : string :=
  take_while (fun c => negb (byte_is "=" c)) statement.

Definition declarator_name (part : string) : option string :=
  match last (split_whitespace (declarator_head part)) with
  | Some name => then_some (is_identifier name && negb (among KEYWORDS name)) name
  | None => None
  end.

(** [declared.rfind(\['{', '}'\])] and the offset after it, or 0. *)
Fixpoint after_last_from (set : string) (offset found : nat) (s : string) : nat :=
  match s with
  | "" => found
  | String c s => after_last_from set (S offset) (if is_byte set c then S offset else found) s
  end.
Definition after_last (set s : string) : nat := after_last_from set 0 0 s.

Definition fragment_names (fragment : string) : list string :=
  let start := after_last "{}" (declared_part fragment) in
  let body := skip start fragment in
  if contains "(" (declared_part body) then []
  else
    let parts := split_top_level body in
    let tokens := split_whitespace (declarator_head (unwrap_or (head parts) "")) in
    if (length tokens <? 2)%nat || negb (forallb is_identifier tokens) then []
    else collect_some declarator_name parts.

Definition declarators (statement : string) : list string :=
  if opens_member_list statement then []
  else flat_map fragment_names (split_char ";" statement).

Definition is_declaration (line : string) : bool :=
  ends_with ";" line && negb (contains "(" (declared_part line))
  && negb (starts_with "#" line) && negb (is_empty line).

(** ** Function headers *)

Fixpoint parameter_list_from (offset : nat) (depth : Z) (found : option nat) (text : string) : option nat :=
  match text with
  | "" => found
  | String c text =>
    let found := if byte_is "(" c && (depth =? 0)%Z then Some offset else found in
    parameter_list_from (S offset) (depth + depth_step "(" ")" c) found text
  end.
Definition parameter_list (text : string) : option nat := parameter_list_from 0 0 None text.

Definition before_brace (header : string) : string := take_while (fun c => negb (byte_is "{" c)) header.

Definition header_function (header : string) : option string :=
  let text := before_brace header in
  match parameter_list text with
  | None => None
  | Some open =>
    match last (identifiers (take_str open text)) with
    | None => None
    | Some (_, name) => then_some (negb (among KEYWORDS name)) name
    end
  end.

Definition parameter_name (part : string) : string :=
  match find "(" part with
  | Some open => unwrap_or (snd <$> head (identifiers (skip open part))) ""
  | None =>
    match identifiers (declarator_head part) with
    | [] | [_] => ""
    | names => unwrap_or (snd <$> last names) ""
    end
  end.

Definition header_params (header : string) : list string :=
  let text := before_brace header in
  match parameter_list text with
  | None => []
  | Some open =>
    match matching text open with
    | None => []
    | Some close => map parameter_name (split_top_level (slice (S open) close text))
    end
  end.

(** ** Branches *)

Definition starts_with_word (head word : string) : bool :=
  starts_with word head && match String.get (String.length word) head with
                           | None => true
                           | Some byte => negb (is_tail byte)
                           end.

Inductive Branch := NoBranch | NextLine | SameLine.

(** The loop over leading ["else"]; each turn drops four bytes. *)
Fixpoint step_past_else (fuel : nat) (saw_else : bool) (head : string) : bool * string :=
  match fuel with
  | O => (saw_else, head)
  | S fuel =>
    if starts_with_word head "else" then step_past_else fuel true (trim_start (skip 4 head))
    else (saw_else, head)
  end.

Definition branch_on (line : string) : Branch :=
  let head := trim_start line in
  if contains "{" head then NoBranch
  else
    let '(saw_else, head) := step_past_else (String.length head) false head in
    if negb (existsb (starts_with_word head) ["if"; "for"; "while"]) then
      match saw_else, is_empty head with
      | false, _ => NoBranch
      | true, true => NextLine
      | true, false => SameLine
      end
    else
      match find "(" head ≫= matching head with
      | None => NextLine
      | Some close => if is_empty (trim (skip (close + 1) head)) then NextLine else SameLine
      end.

Definition opens_loop (line : string) : bool :=
  existsb (starts_with_word (trim_start line)) ["for"; "while"; "do"].

Definition is_same_line (b : Branch) : bool := match b with SameLine => true | _ => false end.
Definition is_next_line (b : Branch) : bool := match b with NextLine => true | _ => false end.

(** ** Atomic objects *)

(** The loop of [unwrap_atomic_specifier] from the offset [from]: [from] grows by
    more than the text does, so the length is fuel enough. *)
Fixpoint unwrap_from (fuel from : nat) (text : string) : string :=
  match fuel with
  | O => text
  | S fuel =>
    match find "_Atomic" (skip from text) with
    | None => text
    | Some found =>
      let after := from + found + 7 in
      let rest := skip after text in
      if starts_with "(" (trim_start rest) then
        let open := after + unwrap_or (find "(" rest) 0 in
        match matching text open with
        | None => text
        | Some close =>
          unwrap_from fuel after
            (take_str after text +s+ " " +s+ slice (S open) close text +s+ " " +s+ skip (close + 1) text)
        end
      else unwrap_from fuel after text
    end
  end.

Definition unwrap_atomic_specifier (line : string) : string := unwrap_from (S (String.length line)) 0 line.

Definition STDATOMIC_TYPES : list string :=
  ["bool"; "char"; "schar"; "uchar"; "short"; "ushort"; "int"; "uint"; "long"; "ulong"; "llong";
   "ullong"; "char8_t"; "char16_t"; "char32_t"; "wchar_t"; "intptr_t"; "uintptr_t"; "size_t";
   "ptrdiff_t"; "intmax_t"; "uintmax_t"; "flag"].

Definition is_stdatomic_type (token : string) : bool :=
  match strip_prefix "atomic_" token with
  | None => false
  | Some rest =>
    among STDATOMIC_TYPES rest
    || let rest := unwrap_or (strip_prefix "u" rest) rest in
       is_some_and (among ["8_t"; "16_t"; "32_t"; "64_t"])
         (strip_prefix "int_least" rest <||> strip_prefix "int_fast" rest)
  end.

Fixpoint atomic_token (names : list string) (tag : bool) (tokens : list (nat * string)) : bool :=
  match tokens with
  | [] => false
  | (_, token) :: tokens =>
    (token =s "_Atomic") || (is_stdatomic_type token && negb tag && negb (among names token))
    || atomic_token names (among AGGREGATES token) tokens
  end.

Definition declares_atomic (line : string) (names : list string) : bool :=
  atomic_token names false (identifiers (declared_part line)).

(** ** Structure *)

Record Blocks := mkBlocks { b_depth : nat; b_loops : list bool; b_header : string }.

Record Scanning := mkScanning {
  s_owner : list (option nat);
  s_in_loop : list bool;
  s_functions : list CFunction;
  s_globals : gset string;
  s_atomics : gset string;
  s_blocks : Blocks;
  s_current : option nat;
  s_pending_loop : bool;
}.

(** A line at file scope, with the function whose body it opens. *)
Definition file_scope_line (st : Scanning) (line0 : string) : Scanning * option nat :=
  let '(mkScanning owner in_loop functions globals atomics (mkBlocks depth loops header) cur pending) := st in
  let with_header h fs gs ats :=
    mkScanning owner in_loop fs gs ats (mkBlocks depth loops h) cur pending in
  let line := unwrap_atomic_specifier line0 in
  if is_declaration line then
    let names := declarators line in
    let atomics := if declares_atomic line names then atomics ∪ list_to_set names else atomics in
    (with_header "" functions (globals ∪ list_to_set names) atomics, None)
  else if negb (contains "{" line) && (ends_with ";" line || starts_with "#" line) then
    (with_header "" functions globals atomics, None)
  else
    let header := header +s+ " " +s+ line in
    if negb (contains "{" line) then (with_header header functions globals atomics, None)
    else
      match header_function header with
      | None => (with_header "" functions globals atomics, None)
      | Some name =>
        (with_header "" (functions ++ [mkFunction name (header_params header)]) globals atomics,
         Some (length functions))
      end.

(** [line.matches(c).count()]. *)
Fixpoint count_byte (b : string) (s : string) : nat :=
  match s with
  | "" => 0
  | String c s => (if byte_is b c then 1 else 0) + count_byte b s
  end.

Definition structure_line (st : Scanning) (raw : string) : Scanning :=
  let line := trim raw in
  let '(st, current) :=
    if (b_depth (s_blocks st) =? 0)%nat then file_scope_line st line else (st, s_current st) in
  let same_line_body := opens_loop line && is_same_line (branch_on line) in
  let carried := s_pending_loop st || same_line_body in
  let opened := count_byte "{" line in
  let closed := count_byte "}" line in
  let '(mkBlocks depth0 loops0 header) := s_blocks st in
  let loops := loops0 ++ replicate opened (carried || opens_loop line) in
  let depth := (depth0 + opened) - Nat.min closed (depth0 + opened) in
  mkScanning (s_owner st ++ [current]) (s_in_loop st ++ [carried || existsb id loops0])
    (s_functions st) (s_globals st) (s_atomics st)
    (mkBlocks depth (take depth loops) header)
    (if (depth =? 0)%nat then None else current)
    (opens_loop line && is_next_line (branch_on line)).

Definition scanning0 : Scanning :=
  mkScanning [] [] [] ∅ ∅ (mkBlocks 0 [] "") None false.

Definition structure (path : string) (lines : list string) : FileScan :=
  let st := fold_left structure_line lines scanning0 in
  mkScan path lines (s_owner st) (s_in_loop st) (s_functions st) (s_globals st) (s_atomics st).

(** The fields indexed by a line number. *)
Definition owner_at (file : FileScan) (index : nat) : option nat := mjoin (fs_owner file !! index).
Definition loop_at (file : FileScan) (index : nat) : bool := unwrap_or (fs_in_loop file !! index) false.
Definition owner_name (file : FileScan) (index : nat) : option string :=
  owner_at file index ≫= fun at_ => f_name <$> fs_functions file !! at_.

(** ** Lemmas: the fuel of the scans *)

Lemma step_past_else_fuel fuel fuel' saw head : String.length head <= fuel -> String.length head <= fuel' ->
  step_past_else fuel saw head = step_past_else fuel' saw head.
Proof.
  revert fuel' saw head. induction fuel as [|fuel IH]; intros [|fuel'] saw head H H';
    cbn [step_past_else]; try done.
  - destruct head; [done|simpl in *; lia].
  - destruct head; [done|simpl in *; lia].
  - destruct (starts_with_word head "else") eqn:E; [|done].
    unfold starts_with_word in E. bool_simpl.
    match goal with Hp : starts_with _ _ = true |- _ => apply prefix_length in Hp; simpl in Hp end.
    pose proof (length_trim_start (skip 4 head)) as Ht. rewrite length_skip in Ht. apply IH; lia.
Qed.

Lemma unwrap_from_fuel fuel fuel' from text :
  String.length text - from < fuel -> String.length text - from < fuel' ->
  unwrap_from fuel from text = unwrap_from fuel' from text.
Proof.
  revert fuel' from text. induction fuel as [|fuel IH]; intros [|fuel'] from text H H';
    cbn [unwrap_from]; try lia.
  destruct (find "_Atomic" (skip from text)) as [found|] eqn:Ef; [|done].
  apply find_length in Ef. rewrite length_skip in Ef. simpl in Ef.
  set (after := from + found + 7).
  assert (Hafter : from < after <= String.length text) by (unfold after; lia).
  destruct (starts_with "(" _); [|apply IH; lia].
  set (open := after + unwrap_or (find "(" (skip after text)) 0).
  destruct (matching text open) as [close|] eqn:Em; [|done].
  pose proof (matching_bounds _ _ _ Em) as Hc.
  assert (Hl : String.length (take_str after text +s+ " " +s+ slice (S open) close text +s+ " " +s+ skip (close + 1) text)
               <= S (String.length text)); [|apply IH; lia].
  unfold slice.
  rewrite !length_app_str, !length_skip, (length_take_str after) by lia.
  rewrite length_take_str by (rewrite length_skip; lia). change (String.length " ") with 1.
  unfold open in *. lia.
Qed.

(** ** Lemmas: tokens *)

Lemma take_while_all f s : sall f (take_while f s) = true.
Proof. induction s as [|c s IH]; simpl; [done|]. destruct (f c) eqn:E; simpl; [by rewrite E|done]. Qed.

Lemma head_is_tail c : is_head c = true -> is_tail c = true.
Proof.
  unfold is_head, is_tail, is_ascii_alphanumeric. intros H.
  destruct (is_ascii_upper c), (is_ascii_lower c), (is_ascii_digit c), (byte_is "_" c); done.
Qed.

Lemma token_is_identifier c s : is_head c = true -> is_identifier (take_while is_tail (String c s)) = true.
Proof.
  intros Hc. unfold is_identifier. simpl. rewrite (head_is_tail c Hc). simpl.
  by rewrite Hc, (head_is_tail c Hc), take_while_all.
Qed.

Lemma identifiers_from_sound fuel index rest start name : (start, name) ∈ identifiers_from fuel index rest ->
  is_identifier name = true.
Proof.
  revert index rest. induction fuel as [|fuel IH]; intros index [|c rest]; cbn [identifiers_from];
    try (intros H; by apply elem_of_nil in H).
  destruct (is_head c) eqn:E; [|apply IH].
  intros [H|H]%elem_of_cons; [|by eapply IH]. injection H as -> ->. by apply token_is_identifier.
Qed.

Lemma identifiers_sound line start name : (start, name) ∈ identifiers line -> is_identifier name = true.
Proof. apply identifiers_from_sound. Qed.

(** A name the scan takes for data or for a function. *)
Definition name_ok (name : string) : Prop := is_identifier name = true /\ among KEYWORDS name = false.

Lemma declarator_name_ok part name : declarator_name part = Some name -> name_ok name.
Proof.
  unfold declarator_name. destruct (last _) as [n|]; [|done]. intros [H <-]%then_some_Some. by bool_simpl.
Qed.

Lemma declarators_ok line name : name ∈ declarators line -> name_ok name.
Proof.
  unfold declarators. destruct (opens_member_list line); [intros H; by apply elem_of_nil in H|].
  intros H. apply list_elem_of_In, in_flat_map in H as (fragment & _ & H). apply list_elem_of_In in H.
  revert H. unfold fragment_names. repeat split_match; try (intros H; by apply elem_of_nil in H).
  intros (part & _ & Hp)%elem_of_collect_some. by eapply declarator_name_ok.
Qed.

Lemma header_function_ok header name : header_function header = Some name -> name_ok name.
Proof.
  unfold header_function. destruct (parameter_list _) as [open|]; [|done].
  destruct (last (identifiers _)) as [[start n]|] eqn:E; [|done]. intros [H <-]%then_some_Some.
  split; [|by bool_simpl]. eapply identifiers_sound, last_Some_elem_of, E.
Qed.

(** ** Lemmas: the state of the scan *)

Record scanning_ok (n : nat) (st : Scanning) : Prop := {
  sok_owner : length (s_owner st) = n;
  sok_in_loop : length (s_in_loop st) = n;
  sok_owners : forall i o, s_owner st !! i = Some (Some o) -> o < length (s_functions st);
  sok_current : forall o, s_current st = Some o -> o < length (s_functions st);
  sok_loops : length (b_loops (s_blocks st)) = b_depth (s_blocks st);
  sok_outside : b_depth (s_blocks st) = 0 -> s_current st = None;
  sok_atomics : s_atomics st ⊆ s_globals st;
  sok_globals : forall name, name ∈ s_globals st -> name_ok name;
  sok_functions : forall f, f ∈ s_functions st -> name_ok (f_name f);
}.

(** What a line at file scope may change: the names and the functions. *)
Lemma file_scope_line_ok n st line : scanning_ok n st ->
  let '(st', current) := file_scope_line st line in
  scanning_ok n st' /\ (forall o, current = Some o -> o < length (s_functions st'))
  /\ b_depth (s_blocks st') = b_depth (s_blocks st).
Proof.
  destruct st as [owner in_loop functions globals atomics [depth loops header] cur pending].
  intros [H1 H2 H3 H4 H5 H6 H7 H8 H9]. simpl in *. unfold file_scope_line.
  set (text := unwrap_atomic_specifier line).
  destruct (is_declaration text).
  { split_and!; [split; simpl; try done|done|done].
    - destruct (declares_atomic _ _); set_solver.
    - intros name [Hn|Hn]%elem_of_union; [by apply H8|].
      rewrite elem_of_list_to_set in Hn. by eapply declarators_ok. }
  destruct (negb _ && _); [split_and!; [by split|done|done]|].
  destruct (negb _); [split_and!; [by split|done|done]|].
  destruct (header_function _) as [name|] eqn:E; [|split_and!; [by split|done|done]].
  split_and!; [split; simpl; try done|simpl; intros o [= <-]; rewrite length_app; simpl; lia|done].
  - intros i o Ho. apply H3 in Ho. rewrite length_app. lia.
  - intros o Ho. apply H4 in Ho. rewrite length_app. lia.
  - intros f [Hf|Hf]%elem_of_app; [by apply H9|]. apply list_elem_of_singleton in Hf as ->.
    by eapply header_function_ok.
Qed.

Lemma structure_line_ok n st raw : scanning_ok n st -> scanning_ok (S n) (structure_line st raw).
Proof.
  intros Hok. unfold structure_line. set (line := trim raw).
  assert (Hmid : let '(st', current) :=
    if (b_depth (s_blocks st) =? 0)%nat then file_scope_line st line else (st, s_current st) in
    scanning_ok n st' /\ (forall o, current = Some o -> o < length (s_functions st'))).
  { destruct (b_depth (s_blocks st) =? 0)%nat; [|split; [done|apply (sok_current _ _ Hok)]].
    pose proof (file_scope_line_ok n st line Hok) as H. destruct (file_scope_line st line). naive_solver. }
  destruct (if (b_depth (s_blocks st) =? 0)%nat then _ else _) as [st' current]. clear st Hok.
  destruct Hmid as [[H1 H2 H3 H4 H5 H6 H7 H8 H9] Hc].
  destruct (s_blocks st') as [depth loops header] eqn:Eb. simpl in H5, H6.
  split; simpl; try done.
  - rewrite length_app. simpl. lia.
  - rewrite length_app. simpl. lia.
  - intros i o [Ho|[_ Ho]]%lookup_app_Some; [by eapply H3|].
    destruct (i - length (s_owner st')); simpl in Ho; [|done]. injection Ho as Ho. by apply Hc.
  - intros o Ho. destruct (_ =? 0)%nat; [done|by apply Hc].
  - rewrite length_take, length_app, length_replicate. lia.
  - by intros ->.
Qed.

Lemma structure_ok lines n st : scanning_ok n st ->
  scanning_ok (n + length lines) (fold_left structure_line lines st).
Proof.
  revert n st. induction lines as [|line lines IH]; intros n st Hok; simpl.
  - by replace (n + 0) with n by lia.
  - rewrite <- Nat.add_succ_comm. by apply IH, structure_line_ok.
Qed.

(** A file as [structure] builds it. *)
Record scan_ok (f : FileScan) : Prop := {
  fok_owner : length (fs_owner f) = length (fs_lines f);
  fok_in_loop : length (fs_in_loop f) = length (fs_lines f);
  fok_owners : forall i o, fs_owner f !! i = Some (Some o) -> is_Some (fs_functions f !! o);
  fok_atomics : fs_atomics f ⊆ fs_globals f;
  fok_globals : forall name, name ∈ fs_globals f -> name_ok name;
  fok_functions : forall g, g ∈ fs_functions f -> name_ok (f_name g);
}.

Lemma structure_scan_ok path lines : scan_ok (structure path lines).
Proof.
  assert (H0 : scanning_ok 0 scanning0).
  { split; simpl; try done; intros ? H; by apply elem_of_nil in H. }
  destruct (structure_ok lines 0 scanning0 H0) as [H1 H2 H3 H4 H5 H6 H7 H8 H9].
  split; simpl in *; try done. intros i o Ho. apply lookup_lt_is_Some. by eapply H3.
Qed.

(** ** The theorem on structure *)

(** The scan of a file, whatever its text, is well formed: there is an owner and
    a loop mark for each line, an owner is an index of a function of the file, so the
    walks that index by them cannot panic; an atomic is a global; and every global
    and every function has a name that is an identifier and no keyword. *)
Theorem structure_well_formed (path : string) (lines : list string) :
  scan_ok (structure path lines) /\ fs_lines (structure path lines) = lines
  /\ forall i, i < length lines -> is_Some (fs_owner (structure path lines) !! i)
                                  /\ is_Some (fs_in_loop (structure path lines) !! i).
Proof.
  pose proof (structure_scan_ok path lines) as Hok. split_and!; [done|done|].
  intros i Hi. destruct Hok as [H1 H2 _ _ _ _]. by rewrite !lookup_lt_is_Some, H1, H2.
Qed.

Lemma structure_well_formed_witness :
  1 < 2 /\ let f := structure "a.c" ["_Atomic(int) x;"; "int f(void) {"] in
  is_Some (fs_owner f !! 1) /\ fs_owner f = [None; Some 0] /\ bool_decide (fs_atomics f = {["x"]}) = true.
Proof.
  split; [lia|]. cbv zeta. split_and!; [|vm_compute; reflexivity|vm_compute; reflexivity].
  pose proof (structure_well_formed "a.c" ["_Atomic(int) x;"; "int f(void) {"]) as (_ & _ & H).
  apply H. simpl. lia.
Defined.
