(* ===== verification/ConcProgram.v ===== *)
(** * Threads and the call graph (third part of src/mcp/concurrency.rs)

    [survey] gathers thread entries, calls and globals over every file before any
    event is listed.  [runs_more_than_once] and [thread_sets] are closures over the
    call graph; a [BTreeMap] is a [gmap] walked in key order where the order shows. *)

From S2P Require Import Prelude RustStr BTree Json Verdicts Session Graph Topo ConcText ConcStructure.
Local Open Scope nat_scope.

Record Spawn := mkSpawn {
  sp_sites : nat;
  sp_in_loop : bool;
  sp_spawners : gset string;
  sp_spawner_repeats : bool;
}.

Definition spawn0 : Spawn := mkSpawn 0 false ∅ false.

Definition may_repeat (s : Spawn) : bool :=
  (1 <? sp_sites s)%nat || sp_in_loop s || sp_spawner_repeats s.

Record CallSites := mkCallSites { cs_count : nat; cs_in_loop : bool }.

Abbreviation call_graph := (gmap string (gset string)).

Record Program := mkProgram {
  p_entries : gmap string Spawn;
  p_edges : call_graph;
  p_calls : gmap string CallSites;
  p_defined : gset string;
  p_globals : gset string;
  p_atomics : gset string;
  p_spawn_calls : nat;
  p_params : gmap string (list string);
  p_indirect : gset string;
  p_lock_calls : nat;
}.

Definition program0 : Program := mkProgram ∅ ∅ ∅ ∅ ∅ ∅ 0 ∅ ∅ 0.

Definition sum_sites (entries : gmap string Spawn) : nat :=
  map_fold (fun _ spawn n => sp_sites spawn + n) 0 entries.

Definition unresolved_spawns (p : Program) : nat := p_spawn_calls p - sum_sites (p_entries p).

Definition has_unattributed_threads (p : Program) : bool :=
  (0 <? unresolved_spawns p)%nat
  || existsb (fun name => negb (bool_decide (name ∈ p_defined p))) (btree_keys (p_entries p)).

(** ** What one line adds *)

(** [any(set, name)]: membership as the code tests it. *)
Definition in_set (s : gset string) (name : string) : bool := bool_decide (name ∈ s).

Definition names_its_own_definition (file : FileScan) (index : nat) (line name : string) (start : nat) : bool :=
  match owner_at file index with
  | None => false
  | Some owner =>
    let first_line := match index with
                      | O => true
                      | S before => negb (bool_decide (owner_at file before = Some owner))
                      end in
    let before_body := negb (contains "{" (take_str start line)) in
    first_line && before_body && (name =s unwrap_or (owner_name file index) "")
  end.

Definition record_spawn (entries : gmap string Spawn) (call : Call) (in_loop : bool) (caller : option string) :
    gmap string Spawn :=
  match c_args call !! 2 ≫= entry_function with
  | None => entries
  | Some entry =>
    let spawn := unwrap_or (entries !! entry) spawn0 in
    <[entry := mkSpawn (S (sp_sites spawn)) (sp_in_loop spawn || in_loop)
                 (sp_spawners spawn ∪ from_option singleton ∅ caller) (sp_spawner_repeats spawn)]> entries
  end.

Definition add_call_site (calls : gmap string CallSites) (name : string) (in_loop : bool) : gmap string CallSites :=
  let sites := unwrap_or (calls !! name) (mkCallSites 0 false) in
  <[name := mkCallSites (S (cs_count sites)) (cs_in_loop sites || in_loop)]> calls.

Definition add_edge_to (edges : call_graph) (from to : string) : call_graph :=
  <[from := unwrap_or (edges !! from) ∅ ∪ {[to]}]> edges.

(** The body of the loop over the calls of a line. *)
Definition survey_call (file : FileScan) (line : string) (index : nat) (program : Program) (call : Call) : Program :=
  let '(mkProgram entries edges calls defined globals atomics spawn_calls params indirect lock_calls) := program in
  let caller := owner_name file index in
  let in_loop := loop_at file index in
  let lock_calls := lock_calls + (if is_some (lock_api (c_name call)) then 1 else 0) in
  let entries := if c_name call =s "pthread_create" then record_spawn entries call in_loop caller else entries in
  let counted := match caller with
                 | None => None
                 | Some from =>
                   then_some (negb (names_its_own_definition file index line (c_name call) (c_start call))
                              && in_set defined (c_name call)) from
                 end in
  match counted with
  | None => mkProgram entries edges calls defined globals atomics spawn_calls params indirect lock_calls
  | Some from =>
    mkProgram entries (add_edge_to edges from (c_name call)) (add_call_site calls (c_name call) in_loop)
      defined globals atomics spawn_calls params indirect lock_calls
  end.

Definition survey_line (file : FileScan) (program : Program) (numbered : nat * string) : Program :=
  let '(index, line) := numbered in
  let tokens := identifiers line in
  let found := calls_among line tokens in
  let resolved := map c_start found in
  let named := bfilter (fun token => negb (existsb (Nat.eqb token.1) resolved) && in_set (p_defined program) token.2)
                 tokens in
  let '(mkProgram entries edges calls defined globals atomics spawn_calls params indirect lock_calls) := program in
  let spawn_calls := spawn_calls + count_if (fun token => token.2 =s "pthread_create") tokens in
  let indirect := indirect ∪ list_to_set (map snd named) in
  fold_left (survey_call file line index) found
    (mkProgram entries edges calls defined globals atomics spawn_calls params indirect lock_calls).

Definition numbered (lines : list string) : list (nat * string) := imap (fun i line => (i, line)) lines.

Definition survey_lines (program : Program) (file : FileScan) : Program :=
  fold_left (survey_line file) (numbered (fs_lines file)) program.

Definition survey_names (program : Program) (file : FileScan) : Program :=
  let '(mkProgram entries edges calls defined globals atomics spawn_calls params indirect lock_calls) := program in
  mkProgram entries edges calls
    (defined ∪ list_to_set (map f_name (fs_functions file)))
    (globals ∪ fs_globals file) (atomics ∪ fs_atomics file) spawn_calls
    (fold_left (fun params f => <[f_name f := f_params f]> params) (fs_functions file) params)
    indirect lock_calls.

(** ** Closures *)

Definition callees (edges : call_graph) (f : string) : gset string := unwrap_or (edges !! f) ∅.

Definition edge_count (edges : call_graph) : nat := map_fold (fun _ to n => size to + n) 0 edges.

(** The worklist of [reach]; the queue's last element is the head of the list here.
    Each function is expanded once, so the queue sees its seeds and each edge at most
    once. *)
Fixpoint reach_loop (fuel : nat) (edges : call_graph) (seen : gset string) (queue : list string) : gset string :=
  match fuel, queue with
  | S fuel, function :: queue =>
    if in_set seen function then reach_loop fuel edges seen queue
    else reach_loop fuel edges ({[function]} ∪ seen) (reverse (btree_elements (callees edges function)) ++ queue)
  | _, _ => seen
  end.

Definition reach (edges : call_graph) (seeds : list string) : gset string :=
  reach_loop (length seeds + edge_count edges) edges ∅ (reverse seeds).

(** Every name of a graph, and its edges. *)
Definition graph_names (edges : call_graph) : gset string :=
  dom edges ∪ map_fold (fun _ to names => to ∪ names) ∅ edges.

Definition graph_pairs (edges : call_graph) : list (string * string) :=
  flat_map (fun e => map (pair e.1) (btree_elements e.2)) (btree_entries edges).

Section components.
Context `{GraphOps}.

Definition component_node (st : graph string * gmap string nat) (name : string) : graph string * gmap string nat :=
  let '(directed, node) := add_node name st.1 in (directed, <[name := node]> st.2).

Definition component_edge (index : gmap string nat) (directed : graph string) (e : string * string) : graph string :=
  match index !! e.1, index !! e.2 with
  | Some from, Some to => add_edge from to directed
  | _, _ => directed
  end.

Definition names_le (a b : list string) : Prop := names_leb a b = true.
#[local] Instance names_le_dec a b : Decision (names_le a b) := decide (names_leb a b = true).

Definition components (edges : call_graph) : list (list string) :=
  let '(directed, index) := fold_left component_node (btree_elements (graph_names edges)) (new_graph, ∅) in
  let directed := fold_left (component_edge index) (graph_pairs edges) directed in
  merge_sort names_le
    (map (fun members => merge_sort str_le (omap (weight directed) members)) (kosaraju_scc directed)).

(** ** What runs more than once *)

Definition repeats_by_calls (program : Program) : gset string :=
  list_to_set (map fst (bfilter (fun e => (1 <? cs_count e.2)%nat || cs_in_loop e.2) (btree_entries (p_calls program)))).

Definition recursive_component (edges : call_graph) (component : list string) : bool :=
  match component with
  | [] => false
  | name :: rest => in_set (callees edges name) name || negb (bool_decide (rest = []))
  end.

Definition runs_by_recursion (edges : call_graph) : gset string :=
  list_to_set (concat (bfilter (recursive_component edges) (components edges))).

Definition repeating_entries (program : Program) (many : gset string) : list string :=
  map fst (bfilter (fun e => (1 <? sp_sites e.2)%nat || sp_in_loop e.2
                             || existsb (in_set many) (btree_elements (sp_spawners e.2)))
             (btree_entries (p_entries program))).

Definition grow (program : Program) (many : gset string) : gset string :=
  reach (p_edges program) (btree_elements many ++ repeating_entries program many).

Fixpoint grow_loop (fuel : nat) (program : Program) (many : gset string) : gset string :=
  match fuel with
  | O => many
  | S fuel =>
    let next := grow program many in
    if (size next =? size many)%nat then next else grow_loop fuel program next
  end.

(** Every name the loop can add. *)
Definition program_names (program : Program) : gset string :=
  dom (p_calls program) ∪ dom (p_entries program) ∪ graph_names (p_edges program).

Definition runs_more_than_once (program : Program) : gset string :=
  grow_loop (S (size (program_names program))) program
    (repeats_by_calls program ∪ runs_by_recursion (p_edges program)).

(** ** The survey *)

Definition with_spawner_repeats (many : gset string) (program : Program) : Program :=
  let '(mkProgram entries edges calls defined globals atomics spawn_calls params indirect lock_calls) := program in
  let mark spawn := mkSpawn (sp_sites spawn) (sp_in_loop spawn) (sp_spawners spawn)
                      (existsb (in_set many) (btree_elements (sp_spawners spawn))) in
  mkProgram (mark <$> entries) edges calls defined globals atomics spawn_calls params indirect lock_calls.

Definition survey (files : list FileScan) : Program :=
  let program := fold_left survey_names files program0 in
  let program := fold_left survey_lines files program in
  with_spawner_repeats (runs_more_than_once program) program.
End components.

(** ** Threads *)

Definition thread_roots (program : Program) : list string :=
  btree_keys (p_entries program) ++ (if in_set (p_defined program) "main" then ["main"] else []).

Definition add_root (edges : call_graph) (sets : gmap string (gset string)) (root : string) :
    gmap string (gset string) :=
  fold_left (fun sets f => <[f := unwrap_or (sets !! f) ∅ ∪ {[root]}]> sets)
    (btree_elements (reach edges [root])) sets.

Definition thread_sets (program : Program) : gmap string (gset string) :=
  fold_left (add_root (p_edges program)) (thread_roots program) ∅.

Definition repeating (program : Program) : gset string :=
  list_to_set (map fst (bfilter (fun e => may_repeat e.2) (btree_entries (p_entries program))))
  ∪ (if has_unattributed_threads program then {[UNATTRIBUTED]} else ∅).

(** ** Lemmas: reachability *)

(** One call of the graph. *)
Definition calls_in (edges : call_graph) (a b : string) : Prop := b ∈ callees edges a.

(** The edges of the functions not yet expanded. *)
Definition open_edges (seen : gset string) (l : list (string * gset string)) : nat :=
  sum_list_with (fun e => if in_set seen e.1 then 0 else size e.2) l.

Lemma edge_count_list edges : edge_count edges = open_edges ∅ (map_to_list edges).
Proof.
  unfold edge_count, open_edges, in_set. rewrite map_fold_foldr. induction (map_to_list edges) as [|[f to] l IH];
    simpl; [done|]. by rewrite IH.
Qed.

Lemma in_set_true s x : in_set s x = true <-> x ∈ s.
Proof. apply bool_decide_eq_true. Qed.

Lemma in_set_false s x : in_set s x = false <-> x ∉ s.
Proof. apply bool_decide_eq_false. Qed.

Lemma open_edges_other seen f l : f ∉ l.*1 -> open_edges ({[f]} ∪ seen) l = open_edges seen l.
Proof.
  induction l as [|[g to] l IH]; simpl; [done|]. intros [Hne Hf]%not_elem_of_cons. unfold open_edges in *. simpl.
  rewrite IH by done. assert (in_set ({[f]} ∪ seen) g = in_set seen g) as ->; [|done].
  apply bool_decide_ext. set_solver.
Qed.

Lemma open_edges_expand seen f to l : NoDup l.*1 -> (f, to) ∈ l -> f ∉ seen ->
  open_edges seen l = size to + open_edges ({[f]} ∪ seen) l.
Proof.
  induction l as [|[g to'] l IH]; simpl; [intros _ H; by apply elem_of_nil in H|].
  intros [Hg Hnd]%NoDup_cons Hin Hf. apply elem_of_cons in Hin as [[= -> ->]|Hin].
  - pose proof (open_edges_other seen g l Hg) as Ho. unfold open_edges in *. simpl. rewrite Ho.
    rewrite (proj2 (in_set_false seen g) Hf), (proj2 (in_set_true ({[g]} ∪ seen) g)) by set_solver. lia.
  - pose proof (IH Hnd Hin Hf) as Ho. unfold open_edges in *. simpl. rewrite Ho.
    assert (in_set ({[f]} ∪ seen) g = in_set seen g) as ->; [|lia].
    apply bool_decide_ext. assert (g <> f); [|set_solver].
    intros ->. apply Hg. apply list_elem_of_fmap. by exists (f, to).
Qed.

Lemma callees_some edges f to : edges !! f = Some to -> callees edges f = to.
Proof. unfold callees. by intros ->. Qed.

Lemma open_edges_seen edges seen f : f ∉ seen ->
  size (callees edges f) + open_edges ({[f]} ∪ seen) (map_to_list edges) = open_edges seen (map_to_list edges).
Proof.
  intros Hf. destruct (edges !! f) as [to|] eqn:E.
  - rewrite (callees_some _ _ _ E). symmetry. apply open_edges_expand; [apply NoDup_fst_map_to_list| |done].
    by apply elem_of_map_to_list.
  - unfold callees. rewrite E. change (size (unwrap_or None (∅ : gset string))) with 0. apply open_edges_other.
    rewrite list_elem_of_fmap. intros ([g to] & -> & Hg%elem_of_map_to_list). simpl in E. congruence.
Qed.

Lemma reach_loop_spec edges fuel seen queue :
  length queue + open_edges seen (map_to_list edges) <= fuel ->
  (forall a b, a ∈ seen -> calls_in edges a b -> b ∈ seen \/ b ∈ queue) ->
  let R := reach_loop fuel edges seen queue in
  (forall a, a ∈ R -> a ∈ seen \/ exists s, s ∈ queue /\ rtc (calls_in edges) s a)
  /\ (forall a, a ∈ seen \/ a ∈ queue -> a ∈ R)
  /\ (forall a b, a ∈ R -> calls_in edges a b -> b ∈ R).
Proof.
  revert seen queue. induction fuel as [|fuel IH]; intros seen [|f queue] Hfuel Hseen; simpl in *;
    try (split_and!; [by auto|intros a [?|Ha]; [done|by apply elem_of_nil in Ha]|];
         intros a b Ha Hab; destruct (Hseen a b Ha Hab) as [?|Hb]; [done|by apply elem_of_nil in Hb]).
  { lia. }
  destruct (in_set seen f) eqn:Ef.
  - apply in_set_true in Ef. destruct (IH seen queue) as (H1 & H2 & H3); [lia| |].
    + intros a b Ha Hab. destruct (Hseen a b Ha Hab) as [?|[->|?]%elem_of_cons]; auto.
    + split_and!; [|set_solver|done].
      intros a Ha. destruct (H1 a Ha) as [?|(s & ? & ?)]; [auto|]. right. exists s. split; [by right|done].
  - apply in_set_false in Ef. pose proof (open_edges_seen edges seen f Ef) as Hopen.
    assert (Hnew : forall b, b ∈ reverse (btree_elements (callees edges f)) <-> calls_in edges f b).
    { intros b. by rewrite elem_of_reverse, elem_of_btree_elements. }
    destruct (IH ({[f]} ∪ seen) (reverse (btree_elements (callees edges f)) ++ queue)) as (H1 & H2 & H3).
    + rewrite length_app, length_reverse. unfold btree_elements. rewrite merge_sort_Permutation.
      unfold size, set_size in Hopen. simpl in Hopen. lia.
    + intros a b [Ha|Ha]%elem_of_union Hab; rewrite !elem_of_app, Hnew.
      * apply elem_of_singleton in Ha as ->. auto.
      * destruct (Hseen a b Ha Hab) as [?|[->|?]%elem_of_cons]; set_solver.
    + split_and!; [|set_solver|done].
      intros a Ha. destruct (H1 a Ha) as [[Hf|?]%elem_of_union|(s & Hs & Hp)].
      * apply elem_of_singleton in Hf as ->. right. exists f. split; [left|apply rtc_refl].
      * by left.
      * right. apply elem_of_app in Hs as [Hs|Hs]; [|exists s; split; [by right|done]].
        exists f. split; [left|]. eapply rtc_l; [by apply Hnew|done].
Qed.

Lemma reach_spec edges seeds f :
  f ∈ reach edges seeds <-> exists s, s ∈ seeds /\ rtc (calls_in edges) s f.
Proof.
  destruct (reach_loop_spec edges (length seeds + edge_count edges) ∅ (reverse seeds)) as (H1 & H2 & H3).
  - by rewrite length_reverse, edge_count_list.
  - intros a b Ha. by apply elem_of_empty in Ha.
  - fold (reach edges seeds) in *. split.
    + intros [Hf|(s & Hs & Hp)]%H1; [by apply elem_of_empty in Hf|]. exists s. by rewrite <- elem_of_reverse.
    + intros (s & Hs & Hp). assert (Hin : s ∈ reach edges seeds).
      { apply H2. right. by rewrite elem_of_reverse. }
      clear Hs. induction Hp as [|a b c Hab _ IH]; [done|]. eauto.
Qed.

(** ** Lemmas: the components of a call graph *)

Lemma elem_of_targets edges b :
  b ∈ map_fold (fun _ to names => to ∪ names) (∅ : gset string) edges <-> exists a, calls_in edges a b.
Proof.
  rewrite map_fold_foldr. transitivity (exists a to, (a, to) ∈ map_to_list edges /\ b ∈ to).
  - induction (map_to_list edges) as [|[a to] l IH]; simpl; [set_solver|].
    rewrite elem_of_union, IH. split.
    + intros [Hb|(a' & to' & Hin & Hb)]; [exists a, to; split; [left|done]|exists a', to'; split; [by right|done]].
    + intros (a' & to' & [[= -> ->]|Hin]%elem_of_cons & Hb); [by left|right; eauto].
  - unfold calls_in, callees. split.
    + intros (a & to & Hin%elem_of_map_to_list & Hb). exists a. by rewrite Hin.
    + intros (a & Hb). destruct (edges !! a) as [to|] eqn:E; simpl in Hb; [|by apply elem_of_empty in Hb].
      exists a, to. by rewrite elem_of_map_to_list.
Qed.

Lemma elem_of_graph_names edges x :
  x ∈ graph_names edges <-> is_Some (edges !! x) \/ exists a, calls_in edges a x.
Proof. unfold graph_names. by rewrite elem_of_union, elem_of_dom, elem_of_targets. Qed.

Lemma calls_in_names edges a b : calls_in edges a b -> a ∈ graph_names edges /\ b ∈ graph_names edges.
Proof.
  intros H. rewrite !elem_of_graph_names. split; [|by right; exists a].
  left. unfold calls_in, callees in H. destruct (edges !! a); [done|by apply elem_of_empty in H].
Qed.

Lemma elem_of_graph_pairs edges a b : (a, b) ∈ graph_pairs edges <-> calls_in edges a b.
Proof.
  unfold graph_pairs. rewrite list_elem_of_In, in_flat_map. setoid_rewrite <- list_elem_of_In. split.
  - intros ([f to] & Hin%elem_of_btree_entries & (t & Heq & Ht)%list_elem_of_fmap). simplify_eq/=.
    unfold calls_in. rewrite (callees_some _ _ _ Hin). by apply elem_of_btree_elements.
  - unfold calls_in, callees. destruct (edges !! a) as [to|] eqn:E; [|intros H; by apply elem_of_empty in H].
    simpl. intros Hb. exists (a, to). split; [by apply elem_of_btree_entries|].
    apply list_elem_of_fmap. exists b. split; [done|]. by apply elem_of_btree_elements.
Qed.

Section components_spec.
Context `{GraphLaws}.

(** Nodes are numbered in the order they are added. *)
Definition numbers (W : list string) (index : gmap string nat) : Prop :=
  forall name i, index !! name = Some i <-> W !! i = Some name.

Lemma component_nodes names g index :
  NoDup (node_weights g ++ names) -> numbers (node_weights g) index ->
  let st := fold_left component_node names (g, index) in
  node_weights st.1 = node_weights g ++ names /\ edge_references st.1 = edge_references g
  /\ numbers (node_weights g ++ names) st.2.
Proof.
  revert g index. induction names as [|name names IH]; intros g index Hnd Hnum; simpl.
  - by rewrite app_nil_r.
  - unfold component_node at 2 4 6. simpl.
    pose proof (add_node_weights _ name g) as Hw. pose proof (add_node_edges _ name g) as He.
    pose proof (add_node_index _ name g) as Hi. destruct (add_node name g) as [g' node]. simpl in *.
    rewrite cons_middle, app_assoc, <- Hw in Hnd |- *. rewrite <- He.
    apply IH; [done|]. rewrite Hw, Hi. intros x i.
    assert (Hfresh : name ∉ node_weights g).
    { rewrite Hw in Hnd. rewrite <- app_assoc in Hnd. apply NoDup_app in Hnd as (_ & Hd & _).
      intros Hin. apply (Hd name Hin). left. }
    unfold node_count. rewrite lookup_insert_Some, lookup_snoc_Some, (Hnum x i). split.
    + intros [[<- <-]|[Hne Hx]]; [auto|]. left. split; [by eapply lookup_lt_Some|done].
    + intros [[Hlt Hx]|[-> ->]]; [|auto]. right. split; [|done]. intros <-. apply Hfresh.
      by eapply list_elem_of_lookup_2.
Qed.

Lemma components_spec edges :
  scc_partition (btree_elements (graph_names edges)) (calls_in edges) (components edges).
Proof.
  unfold components. set (names := btree_elements (graph_names edges)).
  destruct (component_nodes names new_graph ∅) as (Hw & He & Hnum).
  { rewrite new_graph_weights. apply btree_elements_NoDup. }
  { intros x i. by rewrite new_graph_weights, lookup_empty, lookup_nil. }
  rewrite new_graph_weights in *. rewrite new_graph_edges in He. simpl in Hw, Hnum.
  unfold numbers in Hnum. destruct (fold_left component_node names (new_graph, ∅)) as [g0 index]. simpl in *.
  destruct (graph_edges_spec index (graph_pairs edges) g0) as [Hw' Ha].
  { intros v i Hv%Hnum. unfold node_count. rewrite Hw. by eapply lookup_lt_Some. }
  change (graph_edge index) with (component_edge index) in *.
  set (g := fold_left (component_edge index) (graph_pairs edges) g0) in *.
  assert (Harc : forall u v, arc g u v <-> exists a b, names !! u = Some a /\ names !! v = Some b /\ calls_in edges a b).
  { intros u v. rewrite Ha. unfold arc. rewrite He. setoid_rewrite elem_of_graph_pairs. setoid_rewrite Hnum.
    split; [intros [Hn|?]; [by apply elem_of_nil in Hn|done]|by right]. }
  assert (Hrange : in_range g).
  { intros u v (a & b & Hu & Hv & _)%Harc. unfold node_count. rewrite Hw', Hw. eauto using lookup_lt_Some. }
  pose proof (kosaraju_scc_spec _ g Hrange) as Hp.
  unfold node_indices, node_count in Hp. rewrite Hw', Hw in Hp.
  eapply scc_partition_perm; [|symmetry; apply merge_sort_Permutation|].
  2: eapply (labels_partition names (arc g) (calls_in edges)).
  - instantiate (1 := map (omap (weight g)) (kosaraju_scc g)).
    apply Forall2_fmap, Forall_Forall2_diag, Forall_forall. intros c _.
    symmetry. apply merge_sort_Permutation.
  - apply btree_elements_NoDup.
  - done.
  - intros a b [Hx Hy]%calls_in_names. unfold names. by rewrite !elem_of_btree_elements.
  - apply Forall2_fmap_r, Forall_Forall2_diag, Forall_forall. intros c Hc. unfold weight. rewrite Hw', Hw.
    assert (Hin : Forall (fun u => is_Some (names !! u)) c).
    { apply Forall_forall. intros u Hu. apply lookup_lt_is_Some.
      assert (Hs : u ∈ seq 0 (length names)); [|apply elem_of_seq in Hs; lia].
      rewrite <- (scc_nodes _ _ _ Hp). apply list_elem_of_In, in_concat. exists c. by rewrite <- !list_elem_of_In. }
    apply mapM_is_Some in Hin as [k Hk]. rewrite Hk. f_equal.
    symmetry. exact (mapM_omap _ _ _ Hk).
  - done.
Qed.

Lemma runs_by_recursion_spec edges f : f ∈ runs_by_recursion edges <-> tc (calls_in edges) f f.
Proof.
  pose proof (components_spec edges) as Hp. pose proof (btree_elements_NoDup (graph_names edges)) as Hnd.
  assert (HE : forall x y, calls_in edges x y -> x ∈ btree_elements (graph_names edges)
                                              /\ y ∈ btree_elements (graph_names edges)).
  { intros x y. rewrite !elem_of_btree_elements. apply calls_in_names. }
  assert (Hrec : forall i c, components edges !! i = Some c -> f ∈ c ->
    (recursive_component edges c = true <-> tc (calls_in edges) f f)).
  { intros i c Hi Hf. rewrite <- (partition_cycle _ _ _ Hp Hnd i c f HE Hi Hf). unfold recursive_component.
    destruct c as [|x [|y c]]; [by apply elem_of_nil in Hf| |].
    - apply list_elem_of_singleton in Hf as ->. rewrite (bool_decide_eq_true_2 ([] = [])) by done.
      rewrite orb_false_r, in_set_true. simpl. unfold calls_in. split; [auto|intros [?|?]; [lia|done]].
    - rewrite (bool_decide_eq_false_2 (y :: c = [])) by done. rewrite orb_true_r. simpl. split; [left; lia|done]. }
  unfold runs_by_recursion. rewrite elem_of_list_to_set, list_elem_of_In, in_concat. split.
  - intros (c & Hc & Hf). apply list_elem_of_In in Hc, Hf. apply elem_of_bfilter in Hc as [Hc Hr].
    apply list_elem_of_lookup in Hc as [i Hi]. by apply (Hrec i c Hi Hf).
  - intros Ht. assert (Hin : f ∈ btree_elements (graph_names edges)).
    { inversion Ht as [? ? Hc|? k ? Hc _]; subst; by destruct (HE _ _ Hc). }
    destruct (partition_has _ _ _ Hp f Hin) as (i & c & Hi & Hf).
    exists c. rewrite <- !list_elem_of_In. split; [|done]. apply elem_of_bfilter.
    split; [by eapply list_elem_of_lookup_2|]. by apply (Hrec i c Hi Hf).
Qed.
End components_spec.

(** ** Lemmas: the fixpoint of what repeats *)

(** A function runs more than once, as far as the text shows. *)
Inductive Repeats (p : Program) : string -> Prop :=
  | rep_sites f sites : p_calls p !! f = Some sites -> 1 < cs_count sites \/ cs_in_loop sites = true -> Repeats p f
  | rep_recursion f : tc (calls_in (p_edges p)) f f -> Repeats p f
  | rep_called f g : Repeats p f -> calls_in (p_edges p) f g -> Repeats p g
  | rep_spawned f spawn : p_entries p !! f = Some spawn ->
      1 < sp_sites spawn \/ sp_in_loop spawn = true -> Repeats p f
  | rep_spawner f spawn g : p_entries p !! f = Some spawn -> g ∈ sp_spawners spawn -> Repeats p g -> Repeats p f.

Lemma existsb_in_set many l : existsb (in_set many) l = true <-> exists x, x ∈ l /\ x ∈ many.
Proof. rewrite existsb_true. by setoid_rewrite in_set_true. Qed.

Lemma elem_of_repeating_entries p many f :
  f ∈ repeating_entries p many <-> exists spawn, p_entries p !! f = Some spawn /\
    (1 < sp_sites spawn \/ sp_in_loop spawn = true \/ exists g, g ∈ sp_spawners spawn /\ g ∈ many).
Proof.
  unfold repeating_entries. rewrite list_elem_of_fmap. split.
  - intros ([f' spawn] & -> & [Hin Hr]%elem_of_bfilter). apply elem_of_btree_entries in Hin.
    exists spawn. split; [done|]. rewrite !orb_true_iff, existsb_in_set, Nat.ltb_lt in Hr.
    setoid_rewrite elem_of_btree_elements in Hr. tauto.
  - intros (spawn & Hf & Hr). exists (f, spawn). split; [done|]. apply elem_of_bfilter.
    rewrite elem_of_btree_entries. split; [done|]. rewrite !orb_true_iff, existsb_in_set, Nat.ltb_lt.
    setoid_rewrite elem_of_btree_elements. tauto.
Qed.

Lemma elem_of_repeats_by_calls p f :
  f ∈ repeats_by_calls p <-> exists sites, p_calls p !! f = Some sites /\ (1 < cs_count sites \/ cs_in_loop sites = true).
Proof.
  unfold repeats_by_calls. rewrite elem_of_list_to_set, list_elem_of_fmap. split.
  - intros ([f' sites] & -> & [Hin Hr]%elem_of_bfilter). apply elem_of_btree_entries in Hin.
    exists sites. rewrite orb_true_iff, Nat.ltb_lt in Hr. done.
  - intros (sites & Hf & Hr). exists (f, sites). split; [done|]. apply elem_of_bfilter.
    by rewrite elem_of_btree_entries, orb_true_iff, Nat.ltb_lt.
Qed.

Lemma elem_of_grow p many f :
  f ∈ grow p many <-> exists s, (s ∈ many \/ s ∈ repeating_entries p many) /\ rtc (calls_in (p_edges p)) s f.
Proof.
  unfold grow. rewrite reach_spec. by setoid_rewrite elem_of_app; setoid_rewrite elem_of_btree_elements.
Qed.

Lemma grow_sub p many : many ⊆ grow p many.
Proof. intros f Hf. apply elem_of_grow. exists f. split; [by left|apply rtc_refl]. Qed.

Lemma grow_names p many : many ⊆ program_names p -> grow p many ⊆ program_names p.
Proof.
  intros Hm f (s & Hs & Hp)%elem_of_grow. unfold program_names in *.
  assert (Hn : s ∈ dom (p_calls p) ∪ dom (p_entries p) ∪ graph_names (p_edges p)).
  { destruct Hs as [Hs|(spawn & Hs & _)%elem_of_repeating_entries]; [by apply Hm|].
    rewrite !elem_of_union, !elem_of_dom, Hs. eauto. }
  clear Hs. induction Hp as [|a b c Hab _ IH]; [done|]. apply IH. apply calls_in_names in Hab. set_solver.
Qed.

Lemma grow_sound p many : (forall f, f ∈ many -> Repeats p f) -> forall f, f ∈ grow p many -> Repeats p f.
Proof.
  intros Hm f (s & Hs & Hp)%elem_of_grow.
  assert (Hr : Repeats p s).
  { destruct Hs as [Hs|(spawn & Hs & H)%elem_of_repeating_entries]; [by apply Hm|].
    destruct H as [H|[H|(g & Hg & Hgm)]].
    - eapply rep_spawned; eauto.
    - eapply rep_spawned; eauto.
    - eapply rep_spawner; eauto. }
  clear Hs. induction Hp as [|a b c Hab _ IH]; [done|]. apply IH. by eapply rep_called.
Qed.

(** The loop ends in a fixpoint that holds what it started from. *)
Lemma grow_loop_fixpoint p fuel many : many ⊆ program_names p -> size (program_names p) - size many < fuel ->
  let R := grow_loop fuel p many in many ⊆ R /\ grow p R = R.
Proof.
  revert many. induction fuel as [|fuel IH]; intros many Hm Hf; simpl; [lia|].
  pose proof (grow_sub p many) as Hsub. pose proof (grow_names p many Hm) as Hn.
  destruct (Nat.eqb_spec (size (grow p many)) (size many)) as [He|Hne].
  - assert (Heq : grow p many = many) by (symmetry; apply set_subseteq_size_eq; [done|lia]).
    by rewrite !Heq.
  - pose proof (subseteq_size _ _ Hsub) as H1. pose proof (subseteq_size _ _ Hn) as H2.
    destruct (IH (grow p many) Hn) as [H3 H4]; [lia|]. split; [set_solver|done].
Qed.

Lemma grow_loop_sound p fuel many : (forall f, f ∈ many -> Repeats p f) ->
  forall f, f ∈ grow_loop fuel p many -> Repeats p f.
Proof.
  revert many. induction fuel as [|fuel IH]; intros many Hm; simpl; [done|].
  pose proof (grow_sound p many Hm) as Hg. destruct (_ =? _)%nat; [done|by apply IH].
Qed.

Section repeats_spec.
Context `{GraphLaws}.

Lemma first_repeats_names p : repeats_by_calls p ∪ runs_by_recursion (p_edges p) ⊆ program_names p.
Proof.
  intros f [Hf|Hf]%elem_of_union; unfold program_names; rewrite !elem_of_union.
  - apply elem_of_repeats_by_calls in Hf as (sites & Hs & _). left. left. by apply elem_of_dom.
  - right. apply runs_by_recursion_spec in Hf. inversion Hf as [? ? Hc|? k ? Hc _]; subst;
    by destruct (calls_in_names _ _ _ Hc).
Qed.

Lemma runs_more_than_once_iff p f : f ∈ runs_more_than_once p <-> Repeats p f.
Proof.
  unfold runs_more_than_once. set (first := repeats_by_calls p ∪ runs_by_recursion (p_edges p)).
  destruct (grow_loop_fixpoint p (S (size (program_names p))) first (first_repeats_names p)) as [Hsub Hfix]; [lia|].
  split.
  - apply grow_loop_sound. intros g [Hg|Hg]%elem_of_union.
    + apply elem_of_repeats_by_calls in Hg as (sites & Hs & Hr). by eapply rep_sites.
    + apply rep_recursion. by apply runs_by_recursion_spec.
  - set (R := grow_loop _ _ _) in *. intros Hr. induction Hr as [f sites Hs Hr|f Ht|f g _ IH Hc|f spawn Hs Hr|f spawn g Hs Hg _ IH].
    + apply Hsub, elem_of_union. left. apply elem_of_repeats_by_calls. eauto.
    + apply Hsub, elem_of_union. right. by apply runs_by_recursion_spec.
    + rewrite <- Hfix. apply elem_of_grow. exists f. split; [by left|by apply rtc_once].
    + rewrite <- Hfix. apply elem_of_grow. exists f. split; [right|apply rtc_refl].
      apply elem_of_repeating_entries. exists spawn. tauto.
    + rewrite <- Hfix. apply elem_of_grow. exists f. split; [right|apply rtc_refl].
      apply elem_of_repeating_entries. exists spawn. split; [done|]. right. right. eauto.
Qed.
End repeats_spec.

(** ** Lemmas: threads *)

Lemma add_root_spec edges sets root f t :
  t ∈ unwrap_or (add_root edges sets root !! f) ∅ <->
  t ∈ unwrap_or (sets !! f) ∅ \/ (t = root /\ rtc (calls_in edges) root f).
Proof.
  unfold add_root.
  assert (Hfold : forall l (sets : call_graph), t ∈ unwrap_or (fold_left
      (fun (sets : call_graph) f => <[f := unwrap_or (sets !! f) ∅ ∪ {[root]}]> sets) l sets !! f) (∅ : gset string) <->
      t ∈ unwrap_or (sets !! f) (∅ : gset string) \/ (t = root /\ f ∈ l)).
  { induction l as [|g l IH]; intros s; simpl; [set_solver|]. rewrite IH, elem_of_cons.
    destruct (decide (f = g)) as [->|Hne].
    - rewrite lookup_insert_eq. simpl. set_solver.
    - rewrite lookup_insert_ne by done. set_solver. }
  rewrite Hfold, elem_of_btree_elements, reach_spec.
  split; (intros [?|[-> H]]; [by left|right; split; [done|]]).
  - destruct H as (s & ->%list_elem_of_singleton & Hp). done.
  - exists root. by rewrite list_elem_of_singleton.
Qed.

Lemma elem_of_thread_roots p t :
  t ∈ thread_roots p <-> is_Some (p_entries p !! t) \/ (t = "main" /\ "main" ∈ p_defined p).
Proof.
  unfold thread_roots. rewrite elem_of_app, elem_of_btree_keys.
  destruct (in_set (p_defined p) "main") eqn:E; [apply in_set_true in E|apply in_set_false in E];
    [rewrite list_elem_of_singleton|rewrite elem_of_nil]; naive_solver.
Qed.

Lemma thread_sets_iff p f t :
  t ∈ unwrap_or (thread_sets p !! f) ∅ <-> t ∈ thread_roots p /\ rtc (calls_in (p_edges p)) t f.
Proof.
  unfold thread_sets.
  assert (Hfold : forall roots sets, t ∈ unwrap_or (fold_left (add_root (p_edges p)) roots sets !! f) ∅ <->
     t ∈ unwrap_or (sets !! f) ∅ \/ (t ∈ roots /\ rtc (calls_in (p_edges p)) t f)).
  { induction roots as [|r roots IH]; intros sets; simpl; [set_solver|].
    rewrite IH, add_root_spec, elem_of_cons. naive_solver. }
  rewrite Hfold, lookup_empty. simpl. set_solver.
Qed.

(** ** The theorems on threads *)

(** The functions taken to run more than once are exactly those with two call
    sites or one in a loop, those that take part in recursion, those such a function
    calls, and the thread entries spawned twice, in a loop, or by such a function,
    closed under these rules.  The loop that computes them ends. *)
Theorem runs_more_than_once_spec `{GraphLaws} (p : Program) (f : string) :
  f ∈ runs_more_than_once p <-> Repeats p f.
Proof. apply runs_more_than_once_iff. Qed.

(** A function runs in exactly the threads whose entry, spawned or [main], reaches
    it through calls, whatever cycles the call graph has. *)
Theorem thread_sets_spec (p : Program) (f t : string) :
  t ∈ unwrap_or (thread_sets p !! f) ∅ <->
  (is_Some (p_entries p !! t) \/ (t = "main" /\ "main" ∈ p_defined p)) /\ rtc (calls_in (p_edges p)) t f.
Proof. by rewrite thread_sets_iff, elem_of_thread_roots. Qed.

(** A pool started by a helper that is called twice, and a recursion. *)
Definition demo_files : list FileScan :=
  [structure "a.c" ["void *worker(void *a) {"; " helper();"; "}"; "void start(void) {";
                    " pthread_create(&t, 0, worker, 0);"; "}"; "void helper(void) { helper(); }";
                    "int main(void) {"; " start();"; " start();"; "}"]].

Lemma runs_more_than_once_witness :
  "worker" ∈ @runs_more_than_once list_graph (@survey list_graph demo_files)
  /\ Repeats (@survey list_graph demo_files) "worker" /\ "main" ∉ @runs_more_than_once list_graph (@survey list_graph demo_files).
Proof.
  split_and!; [decide_closed| |decide_closed].
  apply (@runs_more_than_once_spec list_graph list_graph_laws). decide_closed.
Defined.
