(* ===== verification/ConcActions.v ===== *)
(** * What happens on one line (fourth part of src/mcp/concurrency.rs)

    [actions_on_line] lists, in source order, the locks, spawns, joins, accesses,
    calls, returns and braces of a line.  The loop that steps over subscripts and
    field selectors to see what follows a name is modelled with fuel, and [None]
    says that it does not end: [stuck_diverges] shows that the length is
    enough fuel, and so that [None] is a loop that no number of turns ends. *)

From S2P Require Import Prelude RustStr BTree Json ConcText ConcStructure.
Local Open Scope nat_scope.

Record CallAt := mkCallAt { ca_name : string; ca_start : nat; ca_open : nat; ca_end : nat }.

Inductive Action :=
  | ALock (a : LockApi) (lock : string)
  | ACreate (entry : string)
  | AJoin
  | AAccess (kind zone : string)
  | AOpen
  | AClose
  | ACall (call : CallAt)
  | AReturn.

(** ** Written or read *)

Definition matching_bracket (rest : string) : option nat :=
  if starts_with "[" rest then matching_from "[" "]" 0 0 rest else None.

Definition step_suffix (rest : string) : string :=
  match matching_bracket rest with
  | Some close => trim_start (skip (close + 1) rest)
  | None =>
    let skipped := trim_start (trim_start_of ".->" rest) in
    match String.length (take_while is_tail skipped) with
    | O => skipped
    | last => trim_start (skip last skipped)
    end
  end.

Definition opens_suffix (rest : string) : bool :=
  starts_with "[" rest || starts_with "." rest || starts_with "->" rest.

Fixpoint after_suffixes (fuel : nat) (rest : string) : option string :=
  match fuel with
  | O => None
  | S fuel => if opens_suffix rest then after_suffixes fuel (step_suffix rest) else Some rest
  end.

Definition assigns (rest : string) : bool :=
  starts_with "++" rest || starts_with "--" rest
  || existsb (fun operator => starts_with (operator +s+ "=") rest)
       ["+"; "-"; "*"; "/"; "%"; "&"; "|"; "^"; "<<"; ">>"]
  || (starts_with "=" rest && negb (starts_with "==" rest)).

Definition is_written (line : string) (start end_ : nat) : option bool :=
  let before := trim_end (take_str start line) in
  if ends_with "++" before || ends_with "--" before then Some true
  else
    let rest := trim_start (skip end_ line) in
    assigns <$> after_suffixes (S (String.length rest)) rest.

(** ** Modelled calls *)

Definition modelled_ranges (found : list Call) : list (nat * nat) :=
  map (fun call => (c_start call, c_end call)) (bfilter (fun call => is_modelled (c_name call)) found).

(** A zone a token names, and whether that zone is an atomic object. *)
Definition Zones := string -> option (string * bool).

Definition first_zone (tokens : list (nat * string)) (from to : nat) (zones : Zones) : option nat :=
  fst <$> find_first (fun token => (from <=? token.1)%nat && (token.1 <? to)%nat && is_some (zones token.2)) tokens.

Definition insert_at (at_ : option nat) (kind : string) (targets : gmap nat string) : gmap nat string :=
  match at_ with Some start => <[start := kind]> targets | None => targets end.

Definition atomic_target (tokens : list (nat * string)) (zones : Zones) (targets : gmap nat string) (call : Call) :
    gmap nat string :=
  match atomic_access (c_name call), head (c_args call) with
  | Some kind, Some first =>
    let second_at := c_open call + 1 + String.length first + 1 in
    let targets := insert_at (first_zone tokens (c_open call + 1) (second_at - 1) zones) kind targets in
    let expected := opt_filter (fun _ => writes_expected (c_name call)) (c_args call !! 1) in
    insert_at (expected ≫= fun arg => first_zone tokens second_at (second_at + String.length arg) zones)
      "WRITE" targets
  | _, _ => targets
  end.

Definition atomic_targets (tokens : list (nat * string)) (found : list Call) (zones : Zones)
    (defined : gset string) : gmap nat string :=
  fold_left (atomic_target tokens zones)
    (bfilter (fun call => negb (bool_decide (c_name call ∈ defined))) found) ∅.

Definition plain_kind (line : string) (start : nat) (name : string) (atomic : bool) : option string :=
  match is_written line start (start + String.length name) with
  | None => None
  | Some true => Some (if atomic then "ATOMIC_WRITE" else "WRITE")
  | Some false => Some (if atomic then "ATOMIC_READ" else "READ")
  end.

(** The end of the statement that starts at an offset. *)
Fixpoint statement_end_from (offset : nat) (depth : Z) (s : string) : nat :=
  match s with
  | "" => offset
  | String c s =>
    let depth := (depth + depth_step "(" ")" c)%Z in
    if (depth <=? 0)%Z && is_byte ";}" c then offset else statement_end_from (S offset) depth s
  end.
Definition statement_end (line : string) (start : nat) : nat := statement_end_from start 0 (skip start line).

Definition call_action (call : Call) : option (nat * Action) :=
  if c_name call =s "pthread_join" then Some (c_start call, AJoin)
  else if c_name call =s "pthread_create" then
    (fun entry => (c_start call, ACreate entry)) <$> (c_args call !! 2 ≫= entry_function)
  else
    (fun a => (c_start call,
       ALock a match api_arg a with
               | None => ATOMIC_SECTION
               | Some at_ => unwrap_or (lock_expression <$> c_args call !! at_) "<unknown>"
               end)) <$> lock_api (c_name call).

(** ** The actions of a line *)

Definition call_actions (defined : gset string) (call : Call) : list (nat * Action) :=
  option_list (call_action call)
  ++ (if bool_decide (c_name call ∈ defined) && negb (is_modelled (c_name call))
      then [(c_end call, ACall (mkCallAt (c_name call) (c_start call) (c_open call) (c_end call)))] else []).

Definition inside (covered : list (nat * nat)) (start : nat) : bool :=
  existsb (fun range => (range.1 <=? start)%nat && (start <=? range.2)%nat) covered.

(** What one token of the line is: outer [None] when reading it does not end. *)
Definition token_action (line : string) (zones : Zones) (covered : list (nat * nat)) (atomic : gmap nat string)
    (token : nat * string) : option (list (nat * Action)) :=
  let '(start, name) := token in
  if name =s "return" then Some [(statement_end line start, AReturn)]
  else
    match opt_filter (fun _ => negb (inside covered start)) (zones name) with
    | None => Some []
    | Some (zone, atomic_zone) =>
      match atomic !! start with
      | Some kind => Some [(start, AAccess kind zone)]
      | None => (fun kind => [(start, AAccess kind zone)]) <$> plain_kind line start name atomic_zone
      end
    end.

Fixpoint braces_from (offset : nat) (s : string) : list (nat * Action) :=
  match s with
  | "" => []
  | String c s =>
    (if byte_is "{" c then [(offset, AOpen)] else if byte_is "}" c then [(offset, AClose)] else [])
    ++ braces_from (S offset) s
  end.

Definition offset_le (a b : nat * Action) : bool := (a.1 <=? b.1)%nat.

Definition actions_on_line (line : string) (zones : Zones) (defined : gset string) : option (list (nat * Action)) :=
  let tokens := identifiers line in
  let found := calls_among line tokens in
  let covered := modelled_ranges found in
  let atomic := atomic_targets tokens found zones defined in
  match mapM (token_action line zones covered atomic) tokens with
  | None => None
  | Some accesses =>
    Some (sort_by offset_le (flat_map (call_actions defined) found ++ concat accesses ++ braces_from 0 line))
  end.

(** ** Lemmas: the loop over subscripts and selectors *)

(** The loop meets a subscript that the line does not close. *)
Inductive Stuck : string -> Prop :=
  | stuck_here rest : starts_with "[" rest = true -> matching_bracket rest = None -> Stuck rest
  | stuck_later rest : opens_suffix rest = true -> Stuck (step_suffix rest) -> Stuck rest.

Lemma starts_with_split p s : starts_with p s = true -> exists rest, s = p +s+ rest.
Proof.
  unfold starts_with. revert s. induction p as [|a p IH]; intros [|b s]; simpl;
    [by exists ""|by eexists|done|].
  destruct (ascii_dec a b) as [->|]; [|done]. intros (rest & ->)%IH. by exists rest.
Qed.

(** Such a subscript is left where it is. *)
Lemma step_suffix_stuck rest : starts_with "[" rest = true -> matching_bracket rest = None -> step_suffix rest = rest.
Proof.
  intros Hs Hm. unfold step_suffix. rewrite Hm. apply starts_with_split in Hs as [s ->].
  change (trim_start_of ".->" ("[" +s+ s)) with (String "[" s). by rewrite trim_start_ascii.
Qed.

Lemma step_suffix_shorter rest : opens_suffix rest = true ->
  ~ (starts_with "[" rest = true /\ matching_bracket rest = None) ->
  String.length (step_suffix rest) < String.length rest.
Proof.
  intros Ho Hn. unfold step_suffix. destruct (matching_bracket rest) as [close|] eqn:Em.
  - unfold matching_bracket in Em. destruct (starts_with "[" rest); [|done].
    apply matching_from_bounds in Em. pose proof (length_trim_start (skip (close + 1) rest)) as Hl.
    rewrite length_skip in Hl. lia.
  - assert (Hd : String.length (trim_start (trim_start_of ".->" rest)) < String.length rest).
    { pose proof (length_trim_start (trim_start_of ".->" rest)) as Hl.
      assert (exists c s, rest = String c s /\ trim_start_of ".->" rest = trim_start_of ".->" s) as (c & s & -> & E).
      { unfold opens_suffix in Ho. destruct (starts_with "[" rest); [by destruct Hn|]. simpl in Ho.
        apply orb_true_iff in Ho as [(s & ->)%starts_with_split|(s & ->)%starts_with_split]; by do 2 eexists. }
      rewrite E in *. pose proof (length_trim_start_of ".->" s). simpl. lia. }
    destruct (String.length (take_while _ _)) as [|n]; [done|].
    pose proof (length_trim_start (skip (S n) (trim_start (trim_start_of ".->" rest)))) as Hl.
    rewrite length_skip in Hl. lia.
Qed.

Lemma stuck_diverges rest : Stuck rest -> forall fuel, after_suffixes fuel rest = None.
Proof.
  intros Hs fuel. revert rest Hs. induction fuel as [|fuel IH]; intros rest Hs; simpl; [done|].
  destruct Hs as [rest H1 H2|rest H1 H2].
  - unfold opens_suffix. rewrite H1. simpl. rewrite step_suffix_stuck by done. apply IH. by apply stuck_here.
  - rewrite H1. by apply IH.
Qed.

(** A loop that outlasts the text's length meets such a subscript. *)
Lemma after_suffixes_stuck fuel rest : String.length rest < fuel -> after_suffixes fuel rest = None -> Stuck rest.
Proof.
  revert rest. induction fuel as [|fuel IH]; intros rest Hl; simpl; [lia|].
  destruct (opens_suffix rest) eqn:Eo; [|done]. intros Hn.
  destruct (starts_with "[" rest) eqn:Es; [destruct (matching_bracket rest) eqn:Em|].
  - apply stuck_later; [done|]. apply IH; [|done].
    pose proof (step_suffix_shorter rest Eo) as Hd. rewrite Em in Hd. pose proof (Hd ltac:(intros [_ [=]])). lia.
  - by apply stuck_here.
  - apply stuck_later; [done|]. apply IH; [|done].
    pose proof (step_suffix_shorter rest Eo) as Hd. rewrite Es in Hd. pose proof (Hd ltac:(intros [[=] _])). lia.
Qed.

(** ** Lemmas: every suffix reached is one of the line *)

Definition brackets_close (line : string) : bool :=
  forallb (fun i => negb (starts_with "[" (skip i line)) || is_some (matching_bracket (skip i line)))
    (seq 0 (String.length line)).

Definition suffix_of (line s : string) : Prop := exists k, s = skip k line.

Lemma suffix_refl line : suffix_of line line.
Proof. by exists 0. Qed.

Lemma suffix_skip line s k : suffix_of line s -> suffix_of line (skip k s).
Proof. intros [j ->]. exists (j + k). apply skip_skip. Qed.

Lemma suffix_trans a b c : suffix_of a b -> suffix_of b c -> suffix_of a c.
Proof. intros [j ->] [k ->]. by apply suffix_skip, suffix_skip, suffix_refl. Qed.

Lemma suffix_tail line c s : suffix_of line (String c s) -> suffix_of line s.
Proof. intros H. by apply (suffix_skip _ _ 1) in H. Qed.

Lemma ws_char_suffix s rest : ws_char s = Some rest -> suffix_of s rest.
Proof.
  unfold ws_char. destruct s as [|a [|b [|c s]]]; [done| | |]; repeat split_match; intros [= <-];
    first [by exists 1|by exists 2|by exists 3].
Qed.

Lemma trim_start_suffix s : suffix_of s (trim_start s).
Proof.
  unfold trim_start. generalize (String.length s) as fuel. intros fuel. revert s.
  induction fuel as [|fuel IH]; intros s; simpl; [apply suffix_refl|].
  destruct (ws_char s) as [rest|] eqn:E; [|apply suffix_refl].
  eapply suffix_trans; [by apply ws_char_suffix|apply IH].
Qed.

Lemma trim_start_of_suffix set s : suffix_of s (trim_start_of set s).
Proof.
  induction s as [|c s IH]; simpl; [apply suffix_refl|]. destruct (contains _ _); [|apply suffix_refl].
  eapply suffix_trans; [by exists 1|done].
Qed.

Lemma step_suffix_suffix s : suffix_of s (step_suffix s).
Proof.
  unfold step_suffix. destruct (matching_bracket s).
  - eapply suffix_trans; [apply suffix_skip, suffix_refl|apply trim_start_suffix].
  - assert (Hs : suffix_of s (trim_start (trim_start_of ".->" s))).
    { eapply suffix_trans; [apply trim_start_of_suffix|apply trim_start_suffix]. }
    destruct (String.length _) as [|n]; [done|].
    eapply suffix_trans; [apply suffix_skip, Hs|apply trim_start_suffix].
Qed.

Lemma brackets_close_suffix line s : brackets_close line = true -> suffix_of line s ->
  starts_with "[" s = true -> matching_bracket s <> None.
Proof.
  unfold brackets_close. rewrite forallb_true. intros H [k ->] Hs.
  assert (Hk : k ∈ seq 0 (String.length line)).
  { apply elem_of_seq. split; [lia|]. destruct (decide (k < String.length line)) as [?|Hge]; [lia|].
    apply starts_with_split in Hs as [r Hr]. apply (f_equal String.length) in Hr.
    rewrite length_skip in Hr. simpl in Hr. lia. }
  specialize (H k Hk). rewrite Hs in H. simpl in H. by destruct (matching_bracket _).
Qed.

Lemma not_stuck line s : brackets_close line = true -> suffix_of line s -> ~ Stuck s.
Proof.
  intros Hc Hs Hst. revert Hs. induction Hst as [s H1 H2|s H1 _ IH]; intros Hs.
  - by apply (brackets_close_suffix line s Hc Hs H1).
  - apply IH. eapply suffix_trans; [done|apply step_suffix_suffix].
Qed.

Lemma is_written_returns line start end_ : brackets_close line = true -> is_Some (is_written line start end_).
Proof.
  intros Hc. unfold is_written. destruct (_ || _); [done|].
  destruct (after_suffixes _ _) as [rest|] eqn:E; [by eexists|].
  exfalso. apply after_suffixes_stuck in E; [|lia]. apply (not_stuck line _ Hc) in E; [done|].
  eapply suffix_trans; [apply suffix_skip, suffix_refl|apply trim_start_suffix].
Qed.

Lemma actions_on_line_returns line zones defined :
  brackets_close line = true -> is_Some (actions_on_line line zones defined).
Proof.
  intros Hc. unfold actions_on_line.
  destruct (mapM _ (identifiers line)) eqn:E; [by eexists|]. exfalso.
  apply mapM_None in E. apply Exists_exists in E as ([start name] & _ & E). revert E. unfold token_action.
  destruct (name =s "return"); [done|]. destruct (opt_filter _ _) as [[zone atomic]|]; [|done].
  destruct (atomic_targets _ _ _ _ !! start); [done|]. unfold plain_kind.
  destruct (is_written_returns line start (start + String.length name) Hc) as [[|] ->]; done.
Qed.

(** A name whose reading does not end stops its line. *)
Lemma actions_on_line_diverges line zones defined start name z :
  (start, name) ∈ identifiers line -> name <> "return" -> zones name = Some z ->
  inside (modelled_ranges (calls_among line (identifiers line))) start = false ->
  (forall call, call ∈ calls_among line (identifiers line) -> atomic_access (c_name call) = None) ->
  is_written line start (start + String.length name) = None ->
  actions_on_line line zones defined = None.
Proof.
  intros Hin Hr Hz Hc Ha Hw. unfold actions_on_line.
  assert (Ht : atomic_targets (identifiers line) (calls_among line (identifiers line)) zones defined = ∅).
  { unfold atomic_targets.
    assert (Hsub : forall call, call ∈ bfilter (fun call => negb (bool_decide (c_name call ∈ defined)))
                               (calls_among line (identifiers line)) -> atomic_access (c_name call) = None).
    { intros call [H _]%elem_of_bfilter. by apply Ha. }
    revert Hsub. generalize (bfilter (fun call => negb (bool_decide (c_name call ∈ defined)))
                               (calls_among line (identifiers line))). intros l Hl.
    induction l as [|call l IH]; [done|]. simpl. unfold atomic_target at 2. rewrite (Hl call) by left.
    apply IH. intros c Hcl. apply Hl. by right. }
  rewrite Ht. destruct (mapM _ (identifiers line)) as [k|] eqn:E; [|done]. exfalso.
  assert (Hs : is_Some (mapM (token_action line zones (modelled_ranges (calls_among line (identifiers line))) ∅)
                          (identifiers line))) by (rewrite E; by eexists).
  apply mapM_is_Some in Hs. rewrite Forall_forall in Hs. destruct (Hs _ Hin) as [x Hx].
  revert Hx. unfold token_action. apply String.eqb_neq in Hr. rewrite Hr, Hz, Hc. simpl. destruct z as [zone atomic].
  rewrite lookup_empty. unfold plain_kind. by rewrite Hw.
Qed.
