(* ===== verification/ConcLocks.v ===== *)
(** * Locksets, the lock order and summaries (fifth part of src/mcp/concurrency.rs)

    The lockset of a point is what every path to it holds: blocks intersect
    ([leave]), a try never holds ([apply_lock]), and a call applies a
    [Summary].  A [Vec] used as a stack keeps its top at the head of the list here;
    a set of held locks keeps the code's order, the innermost hold last. *)

From S2P Require Import Prelude RustStr BTree Json ConcText ConcStructure ConcProgram ConcActions.
Local Open Scope nat_scope.

Record Held := mkHeld { h_name : string; h_shared : bool }.

#[export] Instance Held_eq_dec : EqDecision Held.
Proof. solve_decision. Defined.

(** ** Blocks *)

Inductive Body := Plain | Loop | Switch.

#[export] Instance Body_eq_dec : EqDecision Body.
Proof. solve_decision. Defined.

Record Frame := mkFrame { fr_held : list Held; fr_body : Body; fr_exits : list (list Held) }.

Definition frame0 : Frame := mkFrame [] Plain [].

Inductive Exit := FallThrough | Leaves | Breaks | Continues | Jumps.

Definition NO_RETURN : list string :=
  ["exit"; "_exit"; "_Exit"; "abort"; "pthread_exit"; "longjmp"; "siglongjmp"; "__assert_fail"].

Fixpoint statement_start (offset start : nat) (depth : Z) (text : string) : nat :=
  match text with
  | "" => start
  | String c text =>
    let depth := (depth + depth_step "(" ")" c)%Z in
    statement_start (S offset) (if (depth =? 0)%Z && is_byte ";{}" c then S offset else start) depth text
  end.

Definition last_statement (text : string) : string := trim (skip (statement_start 0 0 0 text) text).

Definition block_exit (text : string) : Exit :=
  match strip_suffix ";" (trim_end text) with
  | None => FallThrough
  | Some body =>
    let statement := last_statement body in
    if starts_with_word statement "return" then Leaves
    else if starts_with_word statement "goto" then Jumps
    else if starts_with_word statement "break" then Breaks
    else if starts_with_word statement "continue" then Continues
    else if existsb (fun name => starts_with_word statement name
                                 && starts_with "(" (trim_start (skip (String.length name) statement))) NO_RETURN
    then Leaves else FallThrough
  end.

Definition opened_body (head : string) : Body :=
  let statement := last_statement head in
  let statement := match strip_prefix "else" statement with Some rest => trim_start rest | None => statement end in
  if opens_loop statement then Loop
  else if starts_with_word statement "switch" then Switch else Plain.

Definition lands_at (exit : Exit) (body : Body) : bool :=
  match exit with
  | Breaks => negb (bool_decide (body = Plain))
  | Continues => bool_decide (body = Loop)
  | _ => false
  end.

Definition is_label (line0 : string) : bool :=
  let line := trim_start line0 in
  let name := take_while is_tail line in
  let rest := trim_start (skip (String.length name) line) in
  is_identifier name && negb (among ["default"; "case"] name)
  && starts_with ":" rest && negb (starts_with "::" rest).

Definition intersect (outer path : list Held) : list Held :=
  bfilter (fun lock => bool_decide (lock ∈ path)) outer.

(** ** The state of a walk *)

Record Walk := mkWalk {
  w_stack : list Frame;
  w_locals : gset string;
  w_gotos : list (list Held);
  w_previous : string;
  w_previous_conditional : bool;
}.

Definition Walk_new : Walk := mkWalk [frame0] ∅ [] "" false.

Definition with_stack (stack : list Frame) (w : Walk) : Walk :=
  mkWalk stack (w_locals w) (w_gotos w) (w_previous w) (w_previous_conditional w).

Definition held (w : Walk) : list Held :=
  match w_stack w with frame :: _ => fr_held frame | [] => [] end.

(** Writing through the reference [Walk::held] returns. *)
Definition set_held (locks : list Held) (w : Walk) : Walk :=
  match w_stack w with
  | frame :: stack => with_stack (mkFrame locks (fr_body frame) (fr_exits frame) :: stack) w
  | [] => with_stack [mkFrame locks Plain []] w
  end.

Definition enter (body : Body) (w : Walk) : Walk :=
  with_stack (mkFrame (held w) body [] :: w_stack w) w.

Definition Walk_open (before : string) (w : Walk) : Walk :=
  enter (opened_body (if is_empty (trim before) then w_previous w else before)) w.

(** [self.stack\[at\].exits.push(path)]. *)
Definition push_exit (path : list Held) (frame : Frame) : Frame :=
  mkFrame (fr_held frame) (fr_body frame) (fr_exits frame ++ [path]).

(** The position from the top of the block an exit lands at. *)
Fixpoint landing (exit : Exit) (stack : list Frame) : option nat :=
  match stack with
  | [] => None
  | frame :: stack => if lands_at exit (fr_body frame) then Some 0 else S <$> landing exit stack
  end.

Definition intersect_frame (path : list Held) (frame : Frame) : Frame :=
  mkFrame (intersect (fr_held frame) path) (fr_body frame) (fr_exits frame).

Definition on_top (f : Frame -> Frame) (stack : list Frame) : list Frame :=
  match stack with frame :: stack => f frame :: stack | [] => [] end.

Definition merge_exits (exits : list (list Held)) (stack : list Frame) : list Frame :=
  on_top (fun frame => fold_left (fun frame path => intersect_frame path frame) exits frame) stack.

Definition leave (exit0 : Exit) (w : Walk) : Walk * option (list Held) :=
  match w_stack w with
  | inner :: ((_ :: _) as stack) =>
    let exit := if lands_at exit0 (fr_body inner) then FallThrough else exit0 in
    let fall := with_stack (merge_exits (fr_exits inner) (on_top (intersect_frame (fr_held inner)) stack)) w in
    (match exit with
     | Leaves => with_stack (merge_exits (fr_exits inner) stack) w
     | Jumps =>
       mkWalk (merge_exits (fr_exits inner) stack) (w_locals w) (w_gotos w ++ [fr_held inner])
         (w_previous w) (w_previous_conditional w)
     | Breaks | Continues =>
       match landing exit stack with
       | Some at_ => with_stack (merge_exits (fr_exits inner) (alter (push_exit (fr_held inner)) at_ stack)) w
       | None => fall
       end
     | FallThrough => fall
     end, Some (fr_held inner))
  | _ => (w, None)
  end.

Definition Walk_close (before : string) (w : Walk) : Walk * option (list Held) :=
  leave (match is_empty (trim before), w_previous_conditional w with
         | false, _ => block_exit before
         | true, false => block_exit (w_previous w)
         | true, true => FallThrough
         end) w.

(** A label is where a goto lands. *)
Definition land (w : Walk) : Walk :=
  with_stack (on_top (fun frame => fold_left (fun frame path => intersect_frame path frame) (w_gotos w) frame)
                (w_stack w)) w.

(** The lockset of an event: every name held, and those held in shared mode. *)
Definition lockset (atomic_function : bool) (w : Walk) : list string * list string :=
  let names := map h_name (held w) in
  let shared := map h_name (bfilter h_shared (held w)) in
  (if atomic_function && negb (among names ATOMIC_SECTION) then ATOMIC_SECTION :: names else names, shared).

(** ** The lock order *)

Definition SITES_PER_EDGE : nat := 16.

Record Site := mkSite { si_file : string; si_line : nat; si_threads : list string }.

Record EdgeSites := mkEdge {
  ed_sites : list (string * nat);
  ed_count : nat;
  ed_threads : gset string;
  ed_exclusive : bool;
}.

Definition edge0 : EdgeSites := mkEdge [] 0 ∅ false.

Record LockGraph := mkGraph {
  g_edges : gmap (string * string) EdgeSites;
  g_cap : nat;
  g_sites_dropped : nat;
  g_writers : gset string;
}.

Definition graph_of_cap (cap : nat) : LockGraph := mkGraph ∅ cap 0 ∅.

Definition take_lock (lock : string) (shared : bool) (g : LockGraph) : LockGraph :=
  if (g_cap g =? 0)%nat then g
  else if negb shared && negb (bool_decide (lock ∈ g_writers g))
       then mkGraph (g_edges g) (g_cap g) (g_sites_dropped g) (g_writers g ∪ {[lock]}) else g.

Definition edge_site (shared : bool) (site : Site) (edge : EdgeSites) : EdgeSites :=
  mkEdge (if (length (ed_sites edge) <? SITES_PER_EDGE)%nat
          then ed_sites edge ++ [(si_file site, si_line site)] else ed_sites edge)
    (S (ed_count edge)) (ed_threads edge ∪ list_to_set (si_threads site)) (ed_exclusive edge || negb shared).

Definition record_edge (from to : string) (shared : bool) (site : Site) (g : LockGraph) : LockGraph :=
  let key := (from, to) in
  if (g_cap g <=? size (g_edges g))%nat && negb (is_some (g_edges g !! key))
  then mkGraph (g_edges g) (g_cap g) (S (g_sites_dropped g)) (g_writers g)
  else mkGraph (<[key := edge_site shared site (unwrap_or (g_edges g !! key) edge0)]> (g_edges g))
         (g_cap g) (g_sites_dropped g) (g_writers g).

(** Record an edge from each of some held locks. *)
Definition record_from (outers : list Held) (to : string) (shared : Held -> bool) (site : Site) (g : LockGraph) :
    LockGraph :=
  fold_left (fun g outer => record_edge (h_name outer) to (shared outer) site g) outers g.

(** Remove the innermost hold of a lock; [None] when there is none. *)
Fixpoint remove_last (lock : string) (locks : list Held) : option (list Held) :=
  match locks with
  | [] => None
  | h :: locks =>
    match remove_last lock locks with
    | Some locks => Some (h :: locks)
    | None => then_some (h_name h =s lock) locks
    end
  end.

Definition release (locks : list Held) (lock : string) : list Held * bool :=
  match remove_last lock locks with Some locks => (locks, true) | None => (locks, false) end.

(** The held set and graph after one lock call, and whether it released a lock
    that was not held. *)
Definition apply_lock (a : LockApi) (lock : string) (locks : list Held) (inherited : list string) (site : Site)
    (g : LockGraph) : list Held * LockGraph * bool :=
  let ordered outer := negb (among inherited (h_name outer)) in
  let is_shared := bool_decide (api_mode a = Shared) in
  match api_op a with
  | Release => let '(locks, was_held) := release locks lock in (locks, g, negb was_held)
  | Try => (locks, take_lock lock is_shared g, false)
  | Acquire =>
    let g := take_lock lock is_shared g in
    let g := record_from (bfilter ordered locks) lock (fun outer => h_shared outer && is_shared) site g in
    (locks ++ [mkHeld lock is_shared], g, false)
  | Wait =>
    let g := take_lock lock false g in
    if existsb (fun other => h_name other =s lock) locks then
      let outers := bfilter ordered (bfilter (fun other => negb (h_name other =s lock)) locks) in
      (locks, record_from outers lock (fun _ => false) site g, false)
    else (locks, g, false)
  end.

(** ** Summaries *)

Inductive LockRef :=
  | RName (name : string)
  | RParam (at_ : nat)
  | ROpaque
  | RUnknown.

#[export] Instance LockRef_eq_dec : EqDecision LockRef.
Proof. solve_decision. Defined.

Record Summary := mkSummary { su_acquired : list (LockRef * bool); su_released : list LockRef }.

#[export] Instance Summary_eq_dec : EqDecision Summary.
Proof. solve_decision. Defined.

Definition summary0 : Summary := mkSummary [] [].

Record Interproc := mkInterproc {
  ip_summaries : gmap string Summary;
  ip_entries : gmap string (list Held);
}.

Definition nothing_known : Interproc := mkInterproc ∅ ∅.

Record Facts := mkFacts {
  fa_returns : gmap string (list Held);
  fa_released : gmap string (gset string);
  fa_releases_unknown : gset string;
  fa_sites : gmap string (list Held);
  fa_unresolved_arguments : nat;
}.

Definition facts0 : Facts := mkFacts ∅ ∅ ∅ ∅ 0.

Definition meet (slot : gmap string (list Held)) (key : string) (path : list Held) : gmap string (list Held) :=
  match slot !! key with
  | Some sofar => <[key := intersect sofar path]> slot
  | None => <[key := path]> slot
  end.

Definition LOCK_SUMMARY_ROUNDS : nat := 16.

(** [iter().position(f)]. *)
Fixpoint position {A} (f : A -> bool) (l : list A) : option nat :=
  match l with
  | [] => None
  | x :: l => if f x then Some 0 else S <$> position f l
  end.

Definition names_param (params : list string) (candidate : string) : bool :=
  existsb (fun p => negb (is_empty p) && (p =s candidate)) params.

Definition lock_ref (name : string) (params : list string) : LockRef :=
  match position (fun p => negb (is_empty p) && (p =s name)) params with
  | Some at_ => RParam at_
  | None =>
    match head (identifiers name) with
    | Some (_, lead) => if names_param params lead then ROpaque else RName name
    | None => RName name
    end
  end.

Definition params_of (program : Program) (function : string) : list string :=
  unwrap_or (p_params program !! function) [].

Definition add_acquired (params : list string) (acquired : list (LockRef * bool)) (h : Held) :
    list (LockRef * bool) :=
  let named := lock_ref (h_name h) params in
  let fresh := bool_decide (named = ROpaque) || negb (existsb (fun other => bool_decide (other.1 = named)) acquired) in
  if negb (h_name h =s "<unknown>") && fresh then acquired ++ [(named, h_shared h)] else acquired.

Definition add_released (params : list string) (released : list LockRef) (name : string) : list LockRef :=
  let named := lock_ref name params in
  if bool_decide (named = ROpaque) || negb (bool_decide (named ∈ released)) then released ++ [named] else released.

Definition summary_of (facts : Facts) (program : Program) (function : string) : Summary :=
  let params := params_of program function in
  let acquired := fold_left (add_acquired params) (unwrap_or (fa_returns facts !! function) []) [] in
  let released := fold_left (add_released params)
                    (btree_elements (unwrap_or (fa_released facts !! function) ∅)) [] in
  let unknown := bool_decide (function ∈ fa_releases_unknown facts) in
  mkSummary acquired
    (if unknown && negb (bool_decide (RUnknown ∈ released)) then released ++ [RUnknown] else released).

(** The entries of a map, for some keys, that are not the default. *)
Definition kept_summaries (f : string -> Summary) (names : gset string) : gmap string Summary :=
  list_to_map (collect_some (fun name => then_some (negb (bool_decide (f name = summary0))) (name, f name))
                 (btree_elements names)).

Definition summaries_from (facts : Facts) (program : Program) : gmap string Summary :=
  kept_summaries (summary_of facts program) (p_defined program).

Definition entries_from (facts : Facts) (program : Program) : gmap string (list Held) :=
  filter (fun e => e.2 <> [] /\ e.1 <> "main" /\ p_entries program !! e.1 = None /\ e.1 ∉ p_indirect program)
    (fa_sites facts).

(** [widen] of one function. *)
Definition widen_summary (before after : Summary) : Summary :=
  mkSummary (bfilter (fun held => bool_decide (held ∈ su_acquired before)) (su_acquired after))
    (fold_left (fun released named => if bool_decide (named ∈ released) then released else released ++ [named])
       (su_released after) (su_released before)).

Definition summary_at (m : gmap string Summary) (name : string) : Summary := unwrap_or (m !! name) summary0.

Definition widen (previous next : gmap string Summary) : gmap string Summary :=
  kept_summaries (fun name => widen_summary (summary_at previous name) (summary_at next name))
    (dom previous ∪ dom next).
