(* ===== verification/ConcWalk.v ===== *)
(** * The walk over the files (sixth part of src/mcp/concurrency.rs)

    [emit_file] walks a file line by line, [emit_line] applies the actions of a line
    in order, and [interprocedural] repeats the walk until the lock summaries and the
    entry locksets settle.

    The clock: [Deadline::passed] compares a monotone clock with a fixed instant, so
    its answers are [false] some number of times and [true] from then on.  A
    [deadline] is that number, and a reading takes one off it.  An outer [None] is a
    walk that does not return (see [ConcActions]). *)

From S2P Require Import Prelude RustStr BTree Json Graph ConcText ConcStructure ConcProgram ConcActions ConcLocks.
Local Open Scope nat_scope.

Definition deadline := nat.
Definition passed (d : deadline) : bool * deadline :=
  match d with O => (true, O) | S d => (false, d) end.

Record Event := mkEvent {
  ev_id : string;
  ev_threads : list string;
  ev_may_repeat : bool;
  ev_kind : string;
  ev_file : string;
  ev_line : nat;
  ev_function : string;
  ev_zone : option string;
  ev_lockset : list string;
  ev_read_locks : list string;
  ev_lock_mode : option string;
}.

Record Sink := mkSink { k_events : list Event; k_total : nat; k_limit : nat }.

Definition with_id (id : string) (e : Event) : Event :=
  mkEvent id (ev_threads e) (ev_may_repeat e) (ev_kind e) (ev_file e) (ev_line e) (ev_function e)
    (ev_zone e) (ev_lockset e) (ev_read_locks e) (ev_lock_mode e).

Definition sink_push (event : Event) (sink : Sink) : Sink :=
  let total := S (k_total sink) in
  let event := with_id ("E" +s+ dec total) event in
  mkSink (if (length (k_events sink) <? k_limit sink)%nat then k_events sink ++ [event] else k_events sink)
    total (k_limit sink).

Record Ctx := mkCtx {
  cx_program : Program;
  cx_sets : gmap string (gset string);
  cx_repeat : gset string;
  cx_include_unshared : bool;
  cx_interproc : Interproc;
}.

Definition with_interproc (i : Interproc) (include_unshared : bool) (ctx : Ctx) : Ctx :=
  mkCtx (cx_program ctx) (cx_sets ctx) (cx_repeat ctx) include_unshared i.

Definition threads_of (ctx : Ctx) (function : string) : list string :=
  match cx_sets ctx !! function with
  | Some set => if bool_decide (set = ∅) then [UNATTRIBUTED] else btree_elements set
  | None => [UNATTRIBUTED]
  end.

Definition repeats (ctx : Ctx) (threads : list string) : bool := existsb (in_set (cx_repeat ctx)) threads.

Record Emission := mkEmission {
  em_sink : option Sink;
  em_graph : LockGraph;
  em_unreleased : list json;
  em_facts : Facts;
}.

Definition on_graph (f : LockGraph -> LockGraph) (out : Emission) : Emission :=
  mkEmission (em_sink out) (f (em_graph out)) (em_unreleased out) (em_facts out).
Definition on_facts (f : Facts -> Facts) (out : Emission) : Emission :=
  mkEmission (em_sink out) (em_graph out) (em_unreleased out) (f (em_facts out)).

Definition note_return (function : string) (path : list Held) (f : Facts) : Facts :=
  mkFacts (meet (fa_returns f) function path) (fa_released f) (fa_releases_unknown f) (fa_sites f)
    (fa_unresolved_arguments f).
Definition note_site (callee : string) (path : list Held) (f : Facts) : Facts :=
  mkFacts (fa_returns f) (fa_released f) (fa_releases_unknown f) (meet (fa_sites f) callee path)
    (fa_unresolved_arguments f).
Definition note_released (function lock : string) (f : Facts) : Facts :=
  mkFacts (fa_returns f) (<[function := unwrap_or (fa_released f !! function) ∅ ∪ {[lock]}]> (fa_released f))
    (fa_releases_unknown f) (fa_sites f) (fa_unresolved_arguments f).
Definition note_unknown (function : string) (f : Facts) : Facts :=
  mkFacts (fa_returns f) (fa_released f) (fa_releases_unknown f ∪ {[function]}) (fa_sites f)
    (fa_unresolved_arguments f).
Definition note_unresolved (n : nat) (f : Facts) : Facts :=
  mkFacts (fa_returns f) (fa_released f) (fa_releases_unknown f) (fa_sites f) (fa_unresolved_arguments f + n).

(** ** Calls to defined functions *)

Definition argument_lock (line : string) (call : CallAt) (at_ : nat) (locals : gset string) : option string :=
  match split_top_level (slice (S (ca_open call)) (ca_end call) line) !! at_ with
  | None => None
  | Some arg =>
    let name := lock_expression arg in
    then_some (is_identifier name && negb (bool_decide (name ∈ locals))) name
  end.

Definition resolve (line : string) (call : CallAt) (locals : gset string) (named : LockRef) : option string :=
  match named with
  | RName name => Some name
  | RParam at_ => argument_lock line call at_ locals
  | ROpaque | RUnknown => None
  end.

Definition counted (named : LockRef) : bool :=
  match named with RParam _ | ROpaque => true | _ => false end.

Definition apply_released (caller line : string) (call : CallAt) (locals : gset string)
    (st : Walk * Emission) (named : LockRef) : Walk * Emission :=
  let '(walk, out) := st in
  match resolve line call locals named with
  | Some name =>
    let '(locks, was_held) := release (held walk) name in
    (set_held locks walk, if was_held then out else on_facts (note_released caller name) out)
  | None =>
    (set_held [] walk,
     on_facts (fun f => note_unresolved (if counted named then 1 else 0) (note_unknown caller f)) out)
  end.

Definition apply_acquired (line : string) (call : CallAt) (locals : gset string) (site : Site)
    (st : Walk * Emission) (acquired : LockRef * bool) : Walk * Emission :=
  let '(walk, out) := st in
  let '(named, shared) := acquired in
  match resolve line call locals named with
  | None => (walk, on_facts (note_unresolved 1) out)
  | Some name =>
    (set_held (held walk ++ [mkHeld name shared]) walk,
     on_graph (fun g => record_from (held walk) name (fun outer => h_shared outer && shared) site
                          (take_lock name shared g)) out)
  end.

Definition call_site (ctx : Ctx) (caller : string) (call : CallAt) (line : string) (site : Site)
    (st : Walk * Emission) : Walk * Emission :=
  let '(walk, out) := st in
  let params := params_of (cx_program ctx) caller in
  let carried := bfilter (fun h => negb (among params (h_name h))) (held walk) in
  let out := on_facts (note_site (ca_name call) carried) out in
  match ip_summaries (cx_interproc ctx) !! ca_name call with
  | None => (walk, out)
  | Some summary =>
    fold_left (apply_acquired line call (w_locals walk) site) (su_acquired summary)
      (fold_left (apply_released caller line call (w_locals walk)) (su_released summary) (walk, out))
  end.

(** ** One line *)

Definition jstrs (l : list string) : json := JArr (map JStr l).

Definition report_unreleased (ctx : Ctx) (function : option string) (locks : option (list Held)) (site : Site)
    (out : Emission) : Emission :=
  match function, locks with
  | Some entry, Some locks =>
    if bool_decide (locks = []) || negb (is_some (p_entries (cx_program ctx) !! entry)) then out
    else
      mkEmission (em_sink out) (em_graph out)
        (em_unreleased out ++
         [JObj [("status", JStr "potential"); ("entry", JStr entry); ("locks", jstrs (map h_name locks));
                ("source", JObj [("file", JStr (si_file site)); ("line", jnat (si_line site))]);
                ("reason", JStr "the thread entry's closing brace is reached with these locks lexically held");
                ("provenance", JStr "syntax")]])
        (em_facts out)
  | _, _ => out
  end.

Definition entry_locks (ctx : Ctx) (function : string) : list Held :=
  unwrap_or (ip_entries (cx_interproc ctx) !! function) [].

Definition lock_action (ctx : Ctx) (function : string) (a : LockApi) (lock : string) (site : Site)
    (st : Walk * Emission) : Walk * Emission :=
  let '(walk, out) := st in
  let own_param := among (params_of (cx_program ctx) function) lock in
  let wrapped := is_some_and
    (fun summary => existsb (fun acquired => bool_decide (acquired.1 = RName lock)) (su_acquired summary))
    (ip_summaries (cx_interproc ctx) !! function) in
  let inherited := if own_param || wrapped then map h_name (entry_locks ctx function) else [] in
  let '(locks, graph, unheld) := apply_lock a lock (held walk) inherited site (em_graph out) in
  (set_held locks walk,
   let out := on_graph (fun _ => graph) out in
   if unheld then on_facts (note_released function lock) out else out).

Definition zones_of (ctx : Ctx) (named : string) (locals : gset string) : Zones := fun name =>
  if in_set (p_globals (cx_program ctx)) name then Some (name, in_set (p_atomics (cx_program ctx)) name)
  else then_some (cx_include_unshared ctx && in_set locals name) (named +s+ "::" +s+ name, false).

Definition mode_name (mode : LockMode) : string :=
  match mode with Exclusive => "exclusive" | Shared => "shared" end.

(** The line an action is on. *)
Record Place := mkPlace {
  pl_file : FileScan;
  pl_index : nat;
  pl_line : string;
  pl_function : option string;
  pl_site : Site;
}.

Definition pl_named (p : Place) : string := unwrap_or (pl_function p) "".

(** What an action does to the walk, and the kind, zone and lock mode of its event
    when it has one. *)
Definition act (ctx : Ctx) (p : Place) (offset : nat) (action : Action) (st : Walk * Emission) :
    Walk * Emission * option (string * option string * option string) :=
  let '(walk, out) := st in
  let in_function := is_some (pl_function p) in
  match action with
  | AOpen =>
    let walk := Walk_open (take_str offset (pl_line p)) walk in
    let body := (length (w_stack walk) =? 2)%nat && in_function in
    (set_held (held walk ++ (if body then entry_locks ctx (pl_named p) else [])) walk, out, None)
  | AClose =>
    let '(walk, locks) := Walk_close (take_str offset (pl_line p)) walk in
    let ended := (length (w_stack walk) =? 1)%nat && in_function in
    let out := match locks with
               | Some path => if ended then on_facts (note_return (pl_named p) path) out else out
               | None => out
               end in
    (walk, report_unreleased ctx (if ended then pl_function p else None) locks (pl_site p) out, None)
  | AReturn => (walk, on_facts (note_return (pl_named p) (held walk)) out, None)
  | ACall call =>
    let own := names_its_own_definition (pl_file p) (pl_index p) (pl_line p) (ca_name call) (ca_start call) in
    (if in_function && negb own then call_site ctx (pl_named p) call (pl_line p) (pl_site p) (walk, out)
     else (walk, out), None)
  | ALock a lock =>
    (lock_action ctx (pl_named p) a lock (pl_site p) (walk, out),
     Some (lock_kind (api_op a), Some lock, Some (mode_name (api_mode a))))
  | ACreate entry => (walk, out, Some ("THREAD_CREATE", Some entry, None))
  | AJoin => (walk, out, Some ("THREAD_JOIN", None, None))
  | AAccess kind zone => (walk, out, Some (kind, Some zone, None))
  end.

Definition push_event (ctx : Ctx) (p : Place) (event : string * option string * option string)
    (walk : Walk) (out : Emission) : Emission :=
  let '(kind, zone, lock_mode) := event in
  match em_sink out, pl_function p with
  | Some sink, Some function =>
    let threads := si_threads (pl_site p) in
    let '(locks, read_locks) := lockset (starts_with ATOMIC_FUNCTION_PREFIX function) walk in
    mkEmission
      (Some (sink_push (mkEvent "" threads (repeats ctx threads) kind (fs_path (pl_file p)) (S (pl_index p))
                          function zone locks read_locks lock_mode) sink))
      (em_graph out) (em_unreleased out) (em_facts out)
  | _, _ => out
  end.

Definition emit_action (ctx : Ctx) (p : Place) (st : Walk * Emission) (positioned : nat * Action) : Walk * Emission :=
  let '(walk, out, event) := act ctx p positioned.1 positioned.2 st in
  match event with
  | Some event => (walk, push_event ctx p event walk out)
  | None => (walk, out)
  end.

Definition place_of (ctx : Ctx) (file : FileScan) (index : nat) : Place :=
  let function := owner_name file index in
  mkPlace file index (unwrap_or (fs_lines file !! index) "") function
    (mkSite (fs_path file) (S index) (match function with Some name => threads_of ctx name | None => [] end)).

Definition emit_line (file : FileScan) (ctx : Ctx) (index : nat) (walk : Walk) (out : Emission) :
    option (Walk * Emission) :=
  let p := place_of ctx file index in
  match actions_on_line (pl_line p) (zones_of ctx (pl_named p) (w_locals walk)) (p_defined (cx_program ctx)) with
  | None => None
  | Some actions =>
    let walk := if is_some (pl_function p) && is_label (pl_line p) then land walk else walk in
    Some (fold_left (emit_action ctx p) actions (walk, out))
  end.

(** ** One file *)

Definition add_locals (ctx : Ctx) (owned : bool) (line : string) (walk : Walk) : Walk :=
  if owned then
    mkWalk (w_stack walk)
      (w_locals walk ∪ list_to_set (bfilter (fun n => negb (in_set (p_globals (cx_program ctx)) n)) (declarators line)))
      (w_gotos walk) (w_previous walk) (w_previous_conditional walk)
  else walk.

Definition remember (line : string) (pending_branch : bool) (walk : Walk) : Walk :=
  if is_empty line then walk
  else mkWalk (w_stack walk) (w_locals walk) (w_gotos walk) line pending_branch.

Definition forget_locals (walk : Walk) : Walk :=
  if (length (w_stack walk) =? 1)%nat
  then mkWalk (w_stack walk) ∅ [] (w_previous walk) (w_previous_conditional walk) else walk.

(** The body of the loop of [emit_file], with its [pending_branch]. *)
Definition walk_line (file : FileScan) (ctx : Ctx) (index : nat) (st : Walk * bool * Emission) :
    option (Walk * bool * Emission) :=
  let '(walk, pending_branch, out) := st in
  let line := trim (unwrap_or (fs_lines file !! index) "") in
  let walk := add_locals ctx (is_some (owner_at file index)) line walk in
  let branch := branch_on line in
  let balanced := (count_byte "{" line =? count_byte "}" line)%nat in
  let wrapped := (pending_branch || is_same_line branch) && balanced in
  let walk := if wrapped then enter Plain walk else walk in
  match emit_line file ctx index walk out with
  | None => None
  | Some (walk, out) =>
    let walk := if wrapped then (leave FallThrough walk).1 else walk in
    Some (forget_locals (remember line pending_branch walk), is_next_line branch, out)
  end.

(** The answer is [false] when the deadline passed before a line. *)
Fixpoint walk_lines (file : FileScan) (ctx : Ctx) (indices : list nat) (st : Walk * bool * Emission)
    (d : deadline) : option (bool * Emission * deadline) :=
  match indices with
  | [] => Some (true, st.2, d)
  | index :: indices =>
    match passed d with
    | (true, d) => Some (false, st.2, d)
    | (false, d) =>
      match walk_line file ctx index st with
      | None => None
      | Some st => walk_lines file ctx indices st d
      end
    end
  end.

Definition emit_file (file : FileScan) (ctx : Ctx) (out : Emission) (d : deadline) :
    option (bool * Emission * deadline) :=
  walk_lines file ctx (seq 0 (length (fs_lines file))) (Walk_new, false, out) d.

(** A list of files, until one is cut short. *)
Fixpoint emit_files (files : list FileScan) (ctx : Ctx) (out : Emission) (d : deadline) :
    option (bool * Emission * deadline) :=
  match files with
  | [] => Some (true, out, d)
  | file :: files =>
    match emit_file file ctx out d with
    | Some (true, out, d) => emit_files files ctx out d
    | answer => answer
    end
  end.

(** ** The fixpoint walks *)

(** A computation that reads the clock: it may not return, and it may be cut short. *)
Definition Timed (A : Type) : Type := deadline -> option (option A * deadline).
Definition ret {A} (a : A) : Timed A := fun d => Some (Some a, d).
Definition bind {A B} (m : Timed A) (f : A -> Timed B) : Timed B := fun d =>
  match m d with
  | Some (Some a, d) => f a d
  | Some (None, d) => Some (None, d)
  | None => None
  end.
Local Notation "'let!' x := m 'in' k" := (bind m (fun x => k)) (at level 10, x pattern, k at level 200).

Definition facts_emission : Emission := mkEmission None (graph_of_cap 0) [] facts0.

Definition walk_for_facts (scans : list FileScan) (ctx : Ctx) : Timed Facts := fun d =>
  match emit_files scans ctx facts_emission d with
  | None => None
  | Some (true, out, d) => Some (Some (em_facts out), d)
  | Some (false, _, d) => Some (None, d)
  end.

Definition summary_step (scans : list FileScan) (base : Ctx) (round : nat) (interproc : Interproc) :
    Timed (gmap string Summary) :=
  let! facts := walk_for_facts scans (with_interproc interproc false base) in
  let next := summaries_from facts (cx_program base) in
  ret (if (LOCK_SUMMARY_ROUNDS / 2 <=? round)%nat then widen (ip_summaries interproc) next else next).

(** The rounds from [round] on: the last interproc and whether it settled. *)
Fixpoint summary_rounds (rounds round : nat) (scans : list FileScan) (base : Ctx) (interproc : Interproc) :
    Timed (Interproc * bool) :=
  match rounds with
  | O => ret (interproc, false)
  | S rounds =>
    let! next := summary_step scans base round interproc in
    if bool_decide (next = ip_summaries interproc) then ret (interproc, true)
    else summary_rounds rounds (S round) scans base (mkInterproc next (ip_entries interproc))
  end.

Definition unknown_summary : Summary := mkSummary [] [RUnknown].

Definition unknown_summaries (program : Program) : gmap string Summary :=
  gset_to_gmap unknown_summary (p_defined program).

Fixpoint entry_rounds (rounds : nat) (scans : list FileScan) (base : Ctx) (interproc : Interproc) : Timed Interproc :=
  match rounds with
  | O => ret interproc
  | S rounds =>
    let! facts := walk_for_facts scans (with_interproc interproc false base) in
    let next := entries_from facts (cx_program base) in
    if bool_decide (next = ip_entries interproc) then ret interproc
    else entry_rounds rounds scans base (mkInterproc (ip_summaries interproc) next)
  end.

Definition interprocedural (scans : list FileScan) (base : Ctx) : Timed (Interproc * bool) :=
  if (p_lock_calls (cx_program base) =? 0)%nat then ret (nothing_known, true)
  else
    let! settled := summary_rounds LOCK_SUMMARY_ROUNDS 0 scans base nothing_known in
    let '(interproc, converged) := settled in
    let interproc := if converged then interproc
                     else mkInterproc (unknown_summaries (cx_program base)) (ip_entries interproc) in
    let! interproc := entry_rounds LOCK_SUMMARY_ROUNDS scans base interproc in
    ret (interproc, converged).

(** ** Lemmas: walks that do not return, and walks that do *)

(** A line reads a global through a subscript that the line does not close. *)
Record reads_open_subscript (globals : gset string) (line : string) (start : nat) (name : string) : Prop := {
  ros_token : (start, name) ∈ identifiers line;
  ros_name : name <> "return";
  ros_global : name ∈ globals;
  ros_outside : inside (modelled_ranges (calls_among line (identifiers line))) start = false;
  ros_atomic : forall call, call ∈ calls_among line (identifiers line) -> atomic_access (c_name call) = None;
  ros_before : let before := trim_end (take_str start line) in
    ends_with "++" before || ends_with "--" before = false;
  ros_stuck : Stuck (trim_start (skip (start + String.length name) line));
}.

Lemma emit_line_diverges file ctx index line start name walk out :
  fs_lines file !! index = Some line -> reads_open_subscript (p_globals (cx_program ctx)) line start name ->
  emit_line file ctx index walk out = None.
Proof.
  intros Hline [H1 H2 H3 H4 H5 H6 H7]. unfold emit_line. cbn [pl_line place_of]. rewrite Hline. cbn [unwrap_or].
  rewrite (actions_on_line_diverges line _ _ start name (name, in_set (p_atomics (cx_program ctx)) name)); try done.
  - unfold zones_of. by rewrite (proj2 (in_set_true _ _) H3).
  - unfold is_written. rewrite H6. by rewrite stuck_diverges.
Qed.

Lemma walk_lines_diverges file ctx index line start name indices st d :
  fs_lines file !! index = Some line -> reads_open_subscript (p_globals (cx_program ctx)) line start name ->
  index ∈ indices -> length indices <= d -> walk_lines file ctx indices st d = None.
Proof.
  intros Hline Hros. revert st d. induction indices as [|i indices IH]; intros st d Hin Hd; [by apply elem_of_nil in Hin|].
  simpl in *. destruct d as [|d]; [lia|]. simpl.
  apply elem_of_cons in Hin as [<-|Hin].
  - destruct st as [[walk pending] out]. unfold walk_line.
    by rewrite (emit_line_diverges file ctx index line start name).
  - destruct (walk_line file ctx i st); [|done]. apply IH; [done|lia].
Qed.

Lemma walk_line_returns file ctx index st :
  (forall line, line ∈ fs_lines file -> brackets_close line = true) -> is_Some (walk_line file ctx index st).
Proof.
  intros Hc. destruct st as [[walk pending] out]. unfold walk_line, emit_line. cbn [pl_line place_of].
  set (line := unwrap_or (fs_lines file !! index) "").
  assert (Hl : brackets_close line = true).
  { unfold line. destruct (fs_lines file !! index) as [l|] eqn:E; [|done]. simpl. by apply Hc, list_elem_of_lookup_2 with index. }
  set (w := if _ : bool then enter Plain _ else _).
  destruct (actions_on_line_returns line (zones_of ctx (pl_named (place_of ctx file index)) (w_locals w))
    (p_defined (cx_program ctx)) Hl) as [actions ->].
  destruct (fold_left _ _ _). eauto.
Qed.

Lemma walk_lines_returns file ctx indices st d :
  (forall line, line ∈ fs_lines file -> brackets_close line = true) -> is_Some (walk_lines file ctx indices st d).
Proof.
  intros Hc. revert st d. induction indices as [|i indices IH]; intros st d; simpl; [by eexists|].
  destruct (passed d) as [[|] d']; [by eexists|]. destruct (walk_line_returns file ctx i st Hc) as [st' ->]. apply IH.
Qed.

(** *** A walk that was not cut short is the same under any later deadline *)

Lemma walk_lines_later file ctx indices st out d d1 k : walk_lines file ctx indices st d = Some (true, out, d1) ->
  walk_lines file ctx indices st (d + k) = Some (true, out, d1 + k).
Proof.
  revert st d. induction indices as [|i indices IH]; intros st d; simpl; [by intros [= <- <-]|].
  destruct d as [|d]; [done|]. simpl. destruct (walk_line file ctx i st); [|done]. apply IH.
Qed.

Lemma emit_files_later scans ctx st out d d1 k : emit_files scans ctx st d = Some (true, out, d1) ->
  emit_files scans ctx st (d + k) = Some (true, out, d1 + k).
Proof.
  revert st d. induction scans as [|file scans IH]; intros st d; simpl; [by intros [= <- <-]|].
  unfold emit_file. destruct (walk_lines _ _ _ _ d) as [[[[|] o] d2]|] eqn:E; [|done..].
  apply walk_lines_later with (k := k) in E. rewrite E. apply IH.
Qed.

Definition steady {A} (m : Timed A) : Prop := forall d a d1 k, m d = Some (Some a, d1) -> m (d + k) = Some (Some a, d1 + k).

Lemma steady_ret {A} (a : A) : steady (ret a).
Proof. by intros d b d1 k [= <- <-]. Qed.

Lemma steady_bind {A B} (m : Timed A) (f : A -> Timed B) : steady m -> (forall a, steady (f a)) -> steady (bind m f).
Proof.
  intros Hm Hf d b d1 k. unfold bind. destruct (m d) as [[[a|] d2]|] eqn:E; [|done..]. rewrite (Hm _ _ _ k E). apply Hf.
Qed.

Lemma steady_if {A} (b : bool) (m m' : Timed A) : steady m -> steady m' -> steady (if b then m else m').
Proof. by destruct b. Qed.

#[local] Hint Resolve steady_ret steady_bind steady_if : steady.

Lemma walk_for_facts_steady scans ctx : steady (walk_for_facts scans ctx).
Proof.
  intros d a d1 k. unfold walk_for_facts. destruct (emit_files _ _ _ d) as [[[[|] out] d2]|] eqn:E; [|done..].
  apply emit_files_later with (k := k) in E. rewrite E. by intros [= <- <-].
Qed.
#[local] Hint Resolve walk_for_facts_steady : steady.

Lemma summary_rounds_steady rounds round scans base interproc : steady (summary_rounds rounds round scans base interproc).
Proof.
  revert round interproc. induction rounds as [|rounds IH]; intros round interproc; simpl; [auto with steady|].
  apply steady_bind; [unfold summary_step; auto with steady|]. auto with steady.
Qed.

Lemma entry_rounds_steady rounds scans base interproc : steady (entry_rounds rounds scans base interproc).
Proof. revert interproc. induction rounds as [|rounds IH]; intros interproc; simpl; auto with steady. Qed.

Lemma interprocedural_steady scans base : steady (interprocedural scans base).
Proof.
  apply steady_if; [apply steady_ret|]. apply steady_bind; [apply summary_rounds_steady|]. intros [interproc converged].
  apply steady_bind; [apply entry_rounds_steady|]. intros; apply steady_ret.
Qed.

(** Files whose lines close every bracket they open. *)
Definition all_close (scans : list FileScan) : Prop :=
  forall file line, file ∈ scans -> line ∈ fs_lines file -> brackets_close line = true.

Lemma emit_files_returns scans ctx out d : all_close scans -> is_Some (emit_files scans ctx out d).
Proof.
  revert out d. induction scans as [|file scans IH]; intros out d Hc; simpl; [by eexists|].
  destruct (walk_lines_returns file ctx (seq 0 (length (fs_lines file))) (Walk_new, false, out) d) as [[[b o] d'] E].
  { intros line. apply Hc. left. }
  unfold emit_file. rewrite E. destruct b; [|by eexists]. apply IH. intros f l Hf. apply Hc. by right.
Qed.

Lemma walk_for_facts_returns scans ctx d : all_close scans -> is_Some (walk_for_facts scans ctx d).
Proof.
  intros Hc. unfold walk_for_facts. destruct (emit_files_returns scans ctx facts_emission d Hc) as [[[[|] o] d'] ->]; eauto.
Qed.

(** A sequence returns when both parts do. *)
Lemma bind_returns {A B} (m : Timed A) (f : A -> Timed B) d :
  is_Some (m d) -> (forall a d', is_Some (f a d')) -> is_Some (bind m f d).
Proof. intros [[[a|] d'] Hm] Hf; unfold bind; rewrite Hm; [apply Hf|by eexists]. Qed.

Lemma summary_rounds_returns scans base rounds round interproc d : all_close scans ->
  is_Some (summary_rounds rounds round scans base interproc d).
Proof.
  intros Hc. revert round interproc d. induction rounds as [|rounds IH]; intros round interproc d; simpl; [by eexists|].
  apply bind_returns.
  - unfold summary_step. apply bind_returns; [by apply walk_for_facts_returns|intros; by eexists].
  - intros next d'. destruct (bool_decide _); [by eexists|apply IH].
Qed.

Lemma entry_rounds_returns scans base rounds interproc d : all_close scans ->
  is_Some (entry_rounds rounds scans base interproc d).
Proof.
  intros Hc. revert interproc d. induction rounds as [|rounds IH]; intros interproc d; simpl; [by eexists|].
  apply bind_returns; [by apply walk_for_facts_returns|]. intros facts d'. destruct (bool_decide _); [by eexists|apply IH].
Qed.

Lemma interprocedural_returns scans base d : all_close scans -> is_Some (interprocedural scans base d).
Proof.
  intros Hc. unfold interprocedural. destruct (_ =? 0)%nat; [by eexists|].
  apply bind_returns; [by apply summary_rounds_returns|]. intros [interproc converged] d'.
  apply bind_returns; [by apply entry_rounds_returns|]. intros; by eexists.
Qed.

(** ** Lemmas: summaries *)

Lemma summary_at_kept f names name :
  summary_at (kept_summaries f names) name = if bool_decide (name ∈ names) then f name else summary0.
Proof.
  unfold summary_at, kept_summaries.
  set (entries := collect_some _ _).
  assert (Hin : forall n s, (n, s) ∈ entries <-> n ∈ names /\ f n = s /\ s <> summary0).
  { intros n s. unfold entries. rewrite elem_of_collect_some. setoid_rewrite then_some_Some.
    setoid_rewrite elem_of_btree_elements. setoid_rewrite negb_true_iff. setoid_rewrite bool_decide_eq_false.
    split; [intros (a & Ha & Hne & [= -> <-]); done|intros (Hn & <- & Hne); by exists n]. }
  assert (Hnd : NoDup entries.*1).
  { apply (sublist_NoDup _ (btree_elements names)); [apply btree_elements_NoDup|].
    unfold entries. clear. induction (btree_elements names) as [|n l IH]; simpl; [constructor|].
    unfold then_some. destruct (negb _); simpl; by constructor. }
  destruct (list_to_map entries !! name) as [s|] eqn:E; simpl.
  - apply elem_of_list_to_map_2 in E. apply Hin in E as (Hn & <- & _). by rewrite bool_decide_eq_true_2.
  - apply not_elem_of_list_to_map_2 in E. case_bool_decide as Hn; [|done].
    destruct (decide (f name = summary0)) as [->|Hne]; [done|]. exfalso. apply E.
    apply list_elem_of_fmap. exists (name, f name). split; [done|]. by apply Hin.
Qed.

Lemma widen_summary_default : widen_summary summary0 summary0 = summary0.
Proof. done. Qed.

Lemma summary_at_none m name : name ∉ dom m -> summary_at m name = summary0.
Proof. intros Hn. unfold summary_at. apply not_elem_of_dom in Hn. by rewrite Hn. Qed.

Lemma summary_at_widen previous next name :
  summary_at (widen previous next) name = widen_summary (summary_at previous name) (summary_at next name).
Proof.
  unfold widen. rewrite summary_at_kept. case_bool_decide as Hn; [done|].
  rewrite not_elem_of_union in Hn. destruct Hn as [H1 H2].
  rewrite !summary_at_none by done. by rewrite widen_summary_default.
Qed.

Lemma add_missing_elem x l l0 :
  x ∈ fold_left (fun released named => if bool_decide (named ∈ released) then released else released ++ [named]) l l0 <->
  x ∈ l0 \/ x ∈ (l : list LockRef).
Proof.
  revert l0. induction l as [|y l IH]; intros l0; simpl; [set_solver|]. rewrite IH.
  case_bool_decide as Hy; set_solver.
Qed.

(** What widening promises: it claims no more than either summary. *)
Definition claims_at_most (claim other : Summary) : Prop :=
  (forall a, a ∈ su_acquired claim -> a ∈ su_acquired other)
  /\ (forall r, r ∈ su_released other -> r ∈ su_released claim).

Lemma widen_summary_spec before after :
  claims_at_most (widen_summary before after) before /\ claims_at_most (widen_summary before after) after.
Proof.
  unfold claims_at_most, widen_summary. simpl. setoid_rewrite elem_of_bfilter.
  setoid_rewrite add_missing_elem. setoid_rewrite bool_decide_eq_true. naive_solver.
Qed.

Lemma timed_bind_Some {A B} (m : Timed A) (f : A -> Timed B) d b d2 : bind m f d = Some (Some b, d2) ->
  exists a d1, m d = Some (Some a, d1) /\ f a d1 = Some (Some b, d2).
Proof. unfold bind. destruct (m d) as [[[a|] d1]|]; [|done|done]. eauto. Qed.

(** The summaries are those one more walk, from no entry lockset, would not improve. *)
Definition settled (scans : list FileScan) (base : Ctx) (summaries : gmap string Summary) : Prop :=
  exists facts d1 d2,
    walk_for_facts scans (with_interproc (mkInterproc summaries ∅) false base) d1 = Some (Some facts, d2)
    /\ forall f, claims_at_most (summary_at summaries f) (summary_at (summaries_from facts (cx_program base)) f).

Lemma summary_rounds_settled scans base rounds round interproc d i d' : ip_entries interproc = ∅ ->
  summary_rounds rounds round scans base interproc d = Some (Some (i, true), d') ->
  ip_entries i = ∅ /\ settled scans base (ip_summaries i).
Proof.
  revert round interproc d. induction rounds as [|rounds IH]; intros round interproc d He; simpl; [done|].
  intros (next & d1 & Hs & H)%timed_bind_Some. case_bool_decide as Hn; [|by eapply IH in H].
  injection H as <- <-. split; [done|].
  unfold summary_step in Hs. apply timed_bind_Some in Hs as (facts & d2 & Hw & Hs). injection Hs as Hs <-.
  destruct interproc as [summaries entries]. simpl in *. subst entries. exists facts, d, d2. split; [done|].
  intros f. match type of Hs with (if ?b then _ else _) = _ => destruct b end.
  - assert (Hf : summary_at summaries f = widen_summary (summary_at summaries f)
                   (summary_at (summaries_from facts (cx_program base)) f)).
    { rewrite <- summary_at_widen, Hs. by rewrite Hn. }
    rewrite Hf at 1. apply widen_summary_spec.
  - by rewrite Hs, Hn.
Qed.

Lemma summary_rounds_entries scans base rounds round interproc d i c d' :
  summary_rounds rounds round scans base interproc d = Some (Some (i, c), d') -> ip_entries i = ip_entries interproc.
Proof.
  revert round interproc d. induction rounds as [|rounds IH]; intros round interproc d; simpl; [by intros [= <- <- <-]|].
  intros (next & d1 & _ & H)%timed_bind_Some. destruct (bool_decide _); [by injection H as <- <- <-|]. by apply IH in H.
Qed.

(** A function nothing is known of at its entry. *)
Definition starts_with_nothing (program : Program) (f : string) : Prop :=
  f = "main" \/ is_Some (p_entries program !! f) \/ f ∈ p_indirect program.

Definition entries_ok (program : Program) (entries : gmap string (list Held)) : Prop :=
  forall f, starts_with_nothing program f -> entries !! f = None.

Lemma entries_from_ok facts program : entries_ok program (entries_from facts program).
Proof.
  intros f Hf. unfold entries_from. apply map_lookup_filter_None. right. intros locks _ (_ & H1 & H2 & H3).
  destruct Hf as [->|[[s Hs]|Hi]]; simpl in *; [done|congruence|done].
Qed.

Lemma entry_rounds_ok scans base rounds interproc d i d' : entries_ok (cx_program base) (ip_entries interproc) ->
  entry_rounds rounds scans base interproc d = Some (Some i, d') ->
  ip_summaries i = ip_summaries interproc /\ entries_ok (cx_program base) (ip_entries i).
Proof.
  revert interproc d. induction rounds as [|rounds IH]; intros interproc d He; simpl; [by intros [= <- <-]|].
  intros (facts & d1 & _ & H)%timed_bind_Some. case_bool_decide as Hn.
  - by injection H as <- <-.
  - apply IH in H; [done|]. simpl. apply entries_from_ok.
Qed.

(** ** The theorem on summaries *)

(** What is carried across calls never claims more than a walk supports.  When the
    summaries settle, one more walk finds every acquisition they claim and no release
    they leave out, although half of the rounds only narrow them; when they do not,
    every function is taken to acquire nothing and to release anything.  A thread
    entry, main and a function whose name is used other than in a call start with
    nothing held. *)
Theorem interprocedural_settles (scans : list FileScan) (base : Ctx) (d d' : deadline) (i : Interproc) (converged : bool) :
  interprocedural scans base d = Some (Some (i, converged), d') ->
  (p_lock_calls (cx_program base) = 0 /\ i = nothing_known /\ converged = true
   \/ (if converged then settled scans base (ip_summaries i)
       else ip_summaries i = unknown_summaries (cx_program base)))
  /\ entries_ok (cx_program base) (ip_entries i).
Proof.
  unfold interprocedural. destruct (Nat.eqb_spec (p_lock_calls (cx_program base)) 0) as [He|He].
  { intros [= <- <- <-]. split; [by left|]. intros f _. apply lookup_empty. }
  intros ([i1 c] & d1 & H1 & H)%timed_bind_Some. apply timed_bind_Some in H as (i2 & d2 & H2 & H). injection H as <- <- <-.
  pose proof (summary_rounds_entries _ _ _ _ _ _ _ _ _ H1) as Hent. simpl in Hent.
  apply entry_rounds_ok in H2 as [Hs Hok]; [|by destruct c; simpl; rewrite Hent; intros f _; apply lookup_empty].
  split; [|done]. right. destruct c; simpl in Hs; [|done].
  apply summary_rounds_settled in H1 as [_ Hset]; [|done]. by rewrite Hs.
Qed.

(** ** Lemmas: what a walk does to its output *)

Inductive graph_step : LockGraph -> LockGraph -> Prop :=
  | step_take lock shared g : graph_step g (take_lock lock shared g)
  | step_record from to shared site g : graph_step g (record_edge from to shared site g).

Inductive em_step : Emission -> Emission -> Prop :=
  | step_facts f out : em_step out (on_facts f out)
  | step_graph g out : graph_step (em_graph out) g -> em_step out (on_graph (fun _ => g) out)
  | step_unreleased l out : em_step out (mkEmission (em_sink out) (em_graph out) (em_unreleased out ++ l) (em_facts out))
  | step_event e sink out : em_sink out = Some sink ->
      em_step out (mkEmission (Some (sink_push e sink)) (em_graph out) (em_unreleased out) (em_facts out)).

Lemma record_from_steps outers to shared site g : rtc graph_step g (record_from outers to shared site g).
Proof.
  unfold record_from. revert g. induction outers as [|o outers IH]; intros g; simpl; [apply rtc_refl|].
  eapply rtc_l; [apply step_record|apply IH].
Qed.

Lemma apply_lock_steps a lock l inherited site g : rtc graph_step g (apply_lock a lock l inherited site g).1.2.
Proof.
  unfold apply_lock. destruct (api_op a); simpl.
  - eapply rtc_l; [apply step_take|apply record_from_steps].
  - apply rtc_once, step_take.
  - destruct (release l lock). apply rtc_refl.
  - destruct (existsb _ _); simpl; [|apply rtc_once, step_take].
    eapply rtc_l; [apply step_take|apply record_from_steps].
Qed.

Lemma graph_steps g out : rtc graph_step (em_graph out) g -> rtc em_step out (on_graph (fun _ => g) out).
Proof.
  destruct out as [sink g0 unreleased facts]. simpl. intros H. revert sink unreleased facts.
  induction H as [g|g1 g2 g3 Hs _ IH]; intros sink unreleased facts; [apply rtc_refl|].
  eapply rtc_l; [by apply (step_graph g2)|apply IH].
Qed.

Lemma facts_steps f out : rtc em_step out (on_facts f out).
Proof. apply rtc_once, step_facts. Qed.

(** A fold whose every turn is some steps. *)
Lemma fold_steps {A B} (f : B * Emission -> A -> B * Emission) l st :
  (forall st x, rtc em_step st.2 (f st x).2) -> rtc em_step st.2 (fold_left f l st).2.
Proof.
  intros Hf. revert st. induction l as [|x l IH]; intros st; simpl; [apply rtc_refl|].
  eapply rtc_trans; [apply Hf|apply IH].
Qed.

Lemma call_site_steps ctx caller call line site st : rtc em_step st.2 (call_site ctx caller call line site st).2.
Proof.
  destruct st as [walk out]. unfold call_site. destruct (_ !! ca_name call) as [summary|]; [|apply facts_steps].
  eapply rtc_trans; [apply facts_steps|].
  eapply rtc_trans; [|apply fold_steps]; [apply (fold_steps _ _ (walk, _))|].
  - intros [w o] named. simpl. destruct (resolve _ _ _ _); [destruct (release _ _) as [l [|]]|]; simpl;
      [apply rtc_refl|apply facts_steps..].
  - intros [w o] [named shared]. simpl. destruct (resolve _ _ _ _); [|apply facts_steps].
    apply (graph_steps _ o). eapply rtc_l; [apply step_take|apply record_from_steps].
Qed.

Lemma lock_action_steps ctx function a lock site st : rtc em_step st.2 (lock_action ctx function a lock site st).2.
Proof.
  destruct st as [walk out]. unfold lock_action.
  match goal with |- context [apply_lock ?a ?l ?h ?i ?s ?g] => pose proof (apply_lock_steps a l h i s g) as Hs;
    destruct (apply_lock a l h i s g) as [[locks graph] unheld] end.
  simpl in Hs |- *. eapply rtc_trans; [by apply graph_steps|]. destruct unheld; [apply facts_steps|apply rtc_refl].
Qed.

Lemma report_unreleased_steps ctx function locks site out :
  rtc em_step out (report_unreleased ctx function locks site out).
Proof.
  unfold report_unreleased. destruct function, locks; try apply rtc_refl. destruct (_ || _); [apply rtc_refl|].
  apply rtc_once, step_unreleased.
Qed.

Lemma emit_action_steps ctx p st positioned : rtc em_step st.2 (emit_action ctx p st positioned).2.
Proof.
  destruct st as [walk out]. unfold emit_action.
  assert (Hact : rtc em_step out (act ctx p positioned.1 positioned.2 (walk, out)).1.2).
  { destruct positioned as [offset action]. destruct action; simpl; try apply rtc_refl.
    - apply (lock_action_steps _ _ _ _ _ (walk, out)).
    - destruct (Walk_close _ _) as [w locks]. simpl.
      eapply rtc_trans; [|apply report_unreleased_steps].
      destruct locks; [destruct (_ && _); [apply facts_steps|apply rtc_refl]|apply rtc_refl].
    - destruct (_ && _); [apply (call_site_steps _ _ _ _ _ (walk, out))|apply rtc_refl].
    - apply facts_steps. }
  destruct (act _ _ _ _ _) as [[w o] [event|]]; simpl in *; [|done].
  eapply rtc_trans; [exact Hact|]. unfold push_event. destruct event as [[kind zone] mode].
  destruct (em_sink o) as [sink|] eqn:E; [|apply rtc_refl]. destruct (pl_function p); [|apply rtc_refl].
  destruct (lockset _ _). by apply rtc_once, step_event.
Qed.

Lemma walk_line_steps file ctx index st st' : walk_line file ctx index st = Some st' -> rtc em_step st.2 st'.2.
Proof.
  destruct st as [[walk pending] out]. unfold walk_line, emit_line.
  destruct (actions_on_line _ _ _) as [actions|]; [|done].
  match goal with |- context [fold_left (emit_action ctx ?p) actions (?w, out)] =>
    pose proof (fold_steps (emit_action ctx p) actions (w, out) (emit_action_steps ctx p)) as Hs;
    destruct (fold_left (emit_action ctx p) actions (w, out)) as [w' out'] end.
  intros [= <-]. exact Hs.
Qed.

Lemma walk_lines_steps file ctx indices st d b out d' :
  walk_lines file ctx indices st d = Some (b, out, d') -> rtc em_step st.2 out.
Proof.
  revert st d. induction indices as [|i indices IH]; intros st d; simpl; [intros [= _ <- _]; apply rtc_refl|].
  destruct (passed d) as [[|] d1]; [intros [= _ <- _]; apply rtc_refl|].
  destruct (walk_line file ctx i st) as [st'|] eqn:E; [|done]. intros H.
  eapply rtc_trans; [by eapply walk_line_steps|by eapply IH].
Qed.

Lemma emit_files_steps scans ctx out d b out' d' : emit_files scans ctx out d = Some (b, out', d') -> rtc em_step out out'.
Proof.
  revert out d. induction scans as [|file scans IH]; intros out d; simpl; [intros [= _ <- _]; apply rtc_refl|].
  unfold emit_file. destruct (walk_lines _ _ _ _ _) as [[[b1 out1] d1]|] eqn:E; [|done].
  apply walk_lines_steps in E. simpl in E. destruct b1.
  - intros H. eapply rtc_trans; [exact E|by eapply IH].
  - by intros [= _ <- _].
Qed.

(** An invariant of the steps holds of a walk's output. *)
Lemma steps_invariant (I : Emission -> Prop) out out' :
  (forall o o', em_step o o' -> I o -> I o') -> rtc em_step out out' -> I out -> I out'.
Proof. intros Hstep. induction 1; eauto. Qed.

(** The events kept are the first ones, numbered from 1. *)
Definition sink_ok (sink : Sink) : Prop :=
  length (k_events sink) = Nat.min (k_total sink) (k_limit sink)
  /\ forall i e, k_events sink !! i = Some e -> ev_id e = "E" +s+ dec (S i).

Lemma sink_push_ok e sink : sink_ok sink -> sink_ok (sink_push e sink).
Proof.
  intros [Hl Hi]. unfold sink_push, sink_ok. cbn [k_events k_total k_limit].
  destruct (Nat.ltb_spec (length (k_events sink)) (k_limit sink)) as [Hlt|Hge].
  - rewrite length_app. split; [cbn [length]; lia|]. intros i e' [He|[Hge He]]%lookup_app_Some; [by apply Hi|].
    destruct (i - length (k_events sink)) eqn:Ei; simpl in He; [|done]. injection He as <-.
    assert (i = k_total sink) as -> by lia. done.
  - split; [lia|done].
Qed.

(** A lock graph within its cap. *)
Definition edge_ok (e : EdgeSites) : Prop :=
  1 <= ed_count e /\ length (ed_sites e) = Nat.min (ed_count e) SITES_PER_EDGE.

Definition graph_ok (g : LockGraph) : Prop :=
  size (g_edges g) <= g_cap g /\ forall k e, g_edges g !! k = Some e -> edge_ok e.

Lemma graph_step_ok g g' : graph_step g g' -> graph_ok g -> graph_ok g' /\ g_cap g' = g_cap g.
Proof.
  intros Hs [Hsize He]. destruct Hs as [lock shared g|from to shared site g].
  - unfold take_lock. destruct (_ =? 0)%nat; [done|]. by destruct (_ && _).
  - unfold record_edge. destruct (_ && _) eqn:E; [done|]. split; [|done]. split; cbn [g_edges g_cap].
    + destruct (g_edges g !! (from, to)) as [e|] eqn:Ek.
      * by rewrite map_size_insert_Some.
      * rewrite map_size_insert_None by done. simpl in E. rewrite andb_true_r in E. bool_simpl. lia.
    + intros k e. rewrite lookup_insert_Some. intros [[<- <-]|[_ Hk]]; [|by apply (He k)].
      assert (Ho : length (ed_sites (unwrap_or (g_edges g !! (from, to)) edge0))
                   = Nat.min (ed_count (unwrap_or (g_edges g !! (from, to)) edge0)) SITES_PER_EDGE).
      { destruct (g_edges g !! (from, to)) as [e|] eqn:Ek; [by apply He in Ek as [_ ?]|done]. }
      unfold edge_ok, edge_site. cbn [ed_count ed_sites]. split; [lia|].
      destruct (Nat.ltb_spec (length (ed_sites (unwrap_or (g_edges g !! (from, to)) edge0))) SITES_PER_EDGE);
        rewrite ?length_app; simpl length; lia.
Qed.

(** The output of a walk: numbered events up to the limit, edges up to the cap. *)
Definition output_ok (limit cap : nat) (out : Emission) : Prop :=
  (forall sink, em_sink out = Some sink -> sink_ok sink /\ k_limit sink = limit)
  /\ graph_ok (em_graph out) /\ g_cap (em_graph out) = cap.

Lemma em_step_ok limit cap out out' : em_step out out' -> output_ok limit cap out -> output_ok limit cap out'.
Proof.
  intros Hs (Hk & Hg & Hc). destruct Hs as [f out|g out Hg'|l out|e sink out E]; try done.
  - destruct (graph_step_ok _ _ Hg' Hg) as [Hok Hcap]. split_and!; [done|done|simpl; congruence].
  - split_and!; [|done|done]. simpl. intros s [= <-]. destruct (Hk sink E) as [Hok Hl].
    split; [by apply sink_push_ok|done].
Qed.

Lemma emit_files_output scans ctx out d b out' d' limit cap :
  emit_files scans ctx out d = Some (b, out', d') -> output_ok limit cap out -> output_ok limit cap out'.
Proof.
  intros H%emit_files_steps Hok. eapply steps_invariant; [|exact H|exact Hok]. intros o o'. apply em_step_ok.
Qed.

(** ** Lemmas: the readings a walk takes *)

Definition total_lines (scans : list FileScan) : nat := sum_list_with (fun file => length (fs_lines file)) scans.

Lemma walk_lines_deadline file ctx indices st d b out d' : length indices <= d ->
  walk_lines file ctx indices st d = Some (b, out, d') -> b = true /\ d' = d - length indices.
Proof.
  revert st d. induction indices as [|i indices IH]; intros st d Hd; simpl in *.
  - intros [= <- _ <-]. split; [done|lia].
  - destruct d as [|d]; [lia|]. simpl. destruct (walk_line file ctx i st); [|done].
    intros H. apply IH in H; [|lia]. simpl. done.
Qed.

Lemma emit_files_diverges scans file ctx index line start name out d :
  file ∈ scans -> fs_lines file !! index = Some line ->
  reads_open_subscript (p_globals (cx_program ctx)) line start name ->
  total_lines scans <= d -> emit_files scans ctx out d = None.
Proof.
  intros Hin Hline Hros. revert out d. induction scans as [|f scans IH]; intros out d Hd; [by apply elem_of_nil in Hin|].
  unfold total_lines in Hd. simpl in Hd. fold (total_lines scans) in Hd. simpl. unfold emit_file.
  apply elem_of_cons in Hin as [<-|Hin].
  - rewrite (walk_lines_diverges file ctx index line start name); try done.
    + apply elem_of_seq. apply lookup_lt_Some in Hline. lia.
    + rewrite length_seq. lia.
  - destruct (walk_lines _ _ _ _ _) as [[[b o] d1]|] eqn:E; [|done].
    apply walk_lines_deadline in E as [-> ->]; [|rewrite length_seq; lia].
    apply IH; [done|]. rewrite length_seq. lia.
Qed.

Lemma interprocedural_diverges scans file base index line start name d :
  file ∈ scans -> fs_lines file !! index = Some line ->
  reads_open_subscript (p_globals (cx_program base)) line start name -> total_lines scans <= d ->
  p_lock_calls (cx_program base) <> 0 -> interprocedural scans base d = None.
Proof.
  intros Hin Hline Hros Hd Hne. unfold interprocedural. destruct (Nat.eqb_spec (p_lock_calls (cx_program base)) 0); [done|].
  unfold LOCK_SUMMARY_ROUNDS at 1. cbn [summary_rounds]. unfold bind at 1 2, summary_step, bind at 1, walk_for_facts.
  by rewrite (emit_files_diverges scans file _ index line start name).
Qed.

(** A lock wrapper, and a thread that calls it. *)
Definition wrapper_files : list FileScan :=
  [structure "a.c" ["void lock_m(void) { pthread_mutex_lock(&m); }"; "void touch(void) { x = 1; }";
                    "void *w(void *p) {"; " lock_m();"; " touch();"; "}";
                    "int main(void) { pthread_create(&t, 0, w, 0); }"]].

Definition wrapper_program : Program := @survey list_graph wrapper_files.
Definition wrapper_context : Ctx :=
  mkCtx wrapper_program (thread_sets wrapper_program) (repeating wrapper_program) false nothing_known.

Lemma interprocedural_settles_witness :
  match interprocedural wrapper_files wrapper_context 100 with
  | Some (Some (i, converged), _) =>
    converged = true
    /\ summary_at (ip_summaries i) "lock_m" = mkSummary [(RName "m", false)] []
    /\ entry_locks (with_interproc i false wrapper_context) "touch" = [mkHeld "m" false]
    /\ entries_ok (cx_program wrapper_context) (ip_entries i)
  | _ => False
  end.
Proof.
  assert (Hc : match interprocedural wrapper_files wrapper_context 100 with
    | Some (Some (i, converged), _) =>
      Some (converged, summary_at (ip_summaries i) "lock_m",
            entry_locks (with_interproc i false wrapper_context) "touch")
    | _ => None
    end = Some (true, mkSummary [(RName "m", false)] [], [mkHeld "m" false])) by (vm_compute; reflexivity).
  destruct (interprocedural wrapper_files wrapper_context 100) as [[[[i c]|] d']|] eqn:E; [|discriminate Hc..].
  injection Hc as H1 H2 H3. split_and!; [exact H1|exact H2|exact H3|].
  exact (proj2 (interprocedural_settles _ _ _ _ _ _ E)).
Defined.
