(* ===== verification/ConcSound.v ===== *)
(** * What a lockset promises

    A lockset is evidence that a lock is held, so the walk must not claim one that
    some path does not hold.  The paths of structured code without a second turn of a
    loop and without labels are given here as a small step machine ([path_step]): a
    block may be skipped, a block may be left by a break or a continue that lands
    after an enclosing loop or switch, a path may leave for good.  A call does to the
    locks of a path what the summary of its callee says, and a body starts with the locks
    of its entry lockset.  [lockset_sound] says that at every access, on every such path,
    the walk's lockset is held. *)

From S2P Require Import Prelude RustStr ConcText ConcStructure ConcProgram ConcActions ConcLocks ConcWalk.
Local Open Scope nat_scope.

(** ** The operations the walk performs *)

Inductive Op :=
  | OLock (a : LockApi) (lock : string)
  | OForget
  | OAccess
  | OEnter (body : Body)
  | OLeave (exit : Exit).

Definition no_site : Site := mkSite "" 0 [].

Definition op_lock (a : LockApi) (lock : string) (locks : list Held) : list Held :=
  (apply_lock a lock locks [] no_site (graph_of_cap 0)).1.1.

(** The walk after an operation. *)
Definition walk_op (w : Walk) (op : Op) : Walk :=
  match op with
  | OLock a lock => set_held (op_lock a lock (held w)) w
  | OForget => set_held [] w
  | OAccess => w
  | OEnter body => enter body w
  | OLeave exit => (leave exit w).1
  end.

(** What a callee does to the locks of its caller, and what a body is entered with. *)
Definition takes (is_shared : bool) : LockApi := api "" 0 Acquire (if is_shared then Shared else Exclusive).
Definition gives : LockApi := api "" 0 Release Exclusive.

(** The releases of a summary, then its acquisitions; a release of a lock that has no name
    at the call may be of any. *)
Definition call_ops (line : string) (call : CallAt) (locals : gset string) (summary : Summary) : list Op :=
  map (fun named => match resolve line call locals named with Some name => OLock gives name | None => OForget end) (su_released summary)
  ++ collect_some (fun acquired => OLock (takes acquired.2) <$> resolve line call locals acquired.1) (su_acquired summary).

(** The operations an action of a line is. *)
Definition action_ops (ctx : Ctx) (p : Place) (offset : nat) (action : Action) (w : Walk) : list Op :=
  let before := take_str offset (pl_line p) in
  match action with
  | ALock a lock => [OLock a lock]
  | AOpen =>
    OEnter (opened_body (if is_empty (trim before) then w_previous w else before))
    :: (if (length (w_stack w) =? 1)%nat && is_some (pl_function p)
        then map (fun h => OLock (takes (h_shared h)) (h_name h)) (entry_locks ctx (pl_named p)) else [])
  | AClose =>
    [OLeave (match is_empty (trim before), w_previous_conditional w with
             | false, _ => block_exit before
             | true, false => block_exit (w_previous w)
             | true, true => FallThrough
             end)]
  | ACall call =>
    if is_some (pl_function p) && negb (names_its_own_definition (pl_file p) (pl_index p) (pl_line p) (ca_name call) (ca_start call))
    then unwrap_or (call_ops (pl_line p) call (w_locals w) <$> ip_summaries (cx_interproc ctx) !! ca_name call) []
    else []
  | _ => [OAccess]
  end.

(** An acquisition of a lock the walk already holds: the intersection of two
    locksets does not count holds, so this is where its claims may be too strong. *)
Definition acquires_again (w : Walk) (op : Op) : bool :=
  match op with
  | OLock a lock =>
    match api_op a with Acquire => among (map h_name (held w)) lock | _ => false end
  | _ => false
  end.

(** ** Paths *)

(** The locks a path holds, and where it is: running; skipping a block, under some
    number of nested ones; on its way to where a break or continue lands, under some
    number of blocks it is not in; or gone. *)
Inductive Path :=
  | Running (locks : gset string)
  | Skipping (nested : nat) (locks : gset string)
  | Landing (exit : Exit) (nested : nat) (locks : gset string)
  | Gone.

Definition lock_effect (a : LockApi) (lock : string) (locks locks' : gset string) : Prop :=
  match api_op a with
  | Acquire => locks' = locks ∪ {[lock]}
  | Try => locks' = locks \/ locks' = locks ∪ {[lock]}
  | Release => locks' = locks ∖ {[lock]}
  | Wait => locks' = locks
  end.

(** One operation on a path; the list is the bodies of the blocks around it. *)
Inductive path_step : list Body -> Path -> Op -> list Body -> Path -> Prop :=
  | path_lock bs locks locks' a lock : lock_effect a lock locks locks' ->
      path_step bs (Running locks) (OLock a lock) bs (Running locks')
  | path_access bs p : path_step bs p OAccess bs p
  | path_forget bs locks locks' : path_step bs (Running locks) OForget bs (Running locks')
  | path_forget_elsewhere bs p : (forall locks, p <> Running locks) -> path_step bs p OForget bs p
  | path_enter bs locks b : path_step bs (Running locks) (OEnter b) (b :: bs) (Running locks)
  | path_skip bs locks b : path_step bs (Running locks) (OEnter b) (b :: bs) (Skipping 0 locks)
  | path_end b bs locks e : lands_at e b = true \/ e = FallThrough ->
      path_step (b :: bs) (Running locks) (OLeave e) bs (Running locks)
  | path_gone b bs locks e : e = Leaves \/ e = Jumps ->
      path_step (b :: bs) (Running locks) (OLeave e) bs Gone
  | path_jump b bs locks e : lands_at e b = false -> e = Breaks \/ e = Continues ->
      path_step (b :: bs) (Running locks) (OLeave e) bs (Landing e 0 locks)
  | skip_lock bs n locks a lock : path_step bs (Skipping n locks) (OLock a lock) bs (Skipping n locks)
  | skip_enter bs n locks b : path_step bs (Skipping n locks) (OEnter b) (b :: bs) (Skipping (S n) locks)
  | skip_leave bs b n locks e : path_step (b :: bs) (Skipping (S n) locks) (OLeave e) bs (Skipping n locks)
  | skip_end bs b locks e : path_step (b :: bs) (Skipping 0 locks) (OLeave e) bs (Running locks)
  | landing_lock bs x n locks a lock : path_step bs (Landing x n locks) (OLock a lock) bs (Landing x n locks)
  | landing_enter bs x n locks b : path_step bs (Landing x n locks) (OEnter b) (b :: bs) (Landing x (S n) locks)
  | landing_leave bs b x n locks e : path_step (b :: bs) (Landing x (S n) locks) (OLeave e) bs (Landing x n locks)
  | landing_pass bs b x locks e : lands_at x b = false ->
      path_step (b :: bs) (Landing x 0 locks) (OLeave e) bs (Landing x 0 locks)
  | landing_end bs b x locks e : lands_at x b = true ->
      path_step (b :: bs) (Landing x 0 locks) (OLeave e) bs (Running locks)
  | gone_lock bs a lock : path_step bs Gone (OLock a lock) bs Gone
  | gone_enter bs b : path_step bs Gone (OEnter b) (b :: bs) Gone
  | gone_leave bs b e : path_step (b :: bs) Gone (OLeave e) bs Gone.

(** A path beside the walk that never acquires a lock it holds. *)
Inductive together : Walk -> list Body -> Path -> list Op -> Walk -> list Body -> Path -> Prop :=
  | together_nil w bs p : together w bs p [] w bs p
  | together_cons w bs p op ops bs' p' w2 bs2 p2 :
      acquires_again w op = false -> path_step bs p op bs' p' ->
      together (walk_op w op) bs' p' ops w2 bs2 p2 -> together w bs p (op :: ops) w2 bs2 p2.

(** ** Lemmas *)

Definition within (locks : list Held) (path : gset string) : Prop := forall h, h ∈ locks -> h_name h ∈ path.

Definition names_once (locks : list Held) : Prop := NoDup (map h_name locks).

Lemma elem_of_intersect h outer path : h ∈ intersect outer path <-> h ∈ outer /\ h ∈ path.
Proof. unfold intersect. by rewrite elem_of_bfilter, bool_decide_eq_true. Qed.

Lemma names_once_sublist l l' : sublist l l' -> names_once l' -> names_once l.
Proof. intros Hs Hn. eapply sublist_NoDup; [exact Hn|]. by apply (fmap_sublist h_name). Qed.

Lemma sublist_elem {A} (l k : list A) x : sublist l k -> x ∈ l -> x ∈ k.
Proof. induction 1; set_solver. Qed.

Lemma intersect_sublist outer path : sublist (intersect outer path) outer.
Proof. apply bfilter_sublist. Qed.

Lemma remove_last_Some lock l l' : remove_last lock l = Some l' ->
  exists l1 h l2, l = l1 ++ h :: l2 /\ l' = l1 ++ l2 /\ h_name h = lock.
Proof.
  revert l'. induction l as [|h l IH]; intros l'; simpl; [done|].
  destruct (remove_last lock l) as [k|].
  - intros [= <-]. destruct (IH k eq_refl) as (l1 & g & l2 & -> & -> & Hg). by exists (h :: l1), g, l2.
  - intros [He <-]%then_some_Some. bool_simpl. by exists [], h, l.
Qed.

Lemma remove_last_None lock l : remove_last lock l = None -> forall h, h ∈ l -> h_name h <> lock.
Proof.
  induction l as [|g l IH]; simpl; [intros _ h Hh; by apply elem_of_nil in Hh|].
  destruct (remove_last lock l); [done|]. unfold then_some. destruct (h_name g =s lock) eqn:E; [done|].
  intros _ h [->|Hh]%elem_of_cons; [by bool_simpl|by apply IH].
Qed.

(** A lock call keeps the claims of a walk that names each lock once. *)
Lemma op_lock_spec a lock l path path' :
  names_once l -> within l path -> lock_effect a lock path path' ->
  (api_op a = Acquire -> among (map h_name l) lock = false) ->
  names_once (op_lock a lock l) /\ within (op_lock a lock l) path'.
Proof.
  unfold op_lock, apply_lock, lock_effect. intros Hn Hw He Ha. destruct (api_op a); simpl.
  - subst. specialize (Ha eq_refl). split.
    + unfold names_once. rewrite map_app. apply NoDup_app. split_and!; [done| |apply NoDup_singleton].
      intros x Hx Hin. apply list_elem_of_singleton in Hin as ->. unfold among in Ha.
      rewrite existsb_false in Ha. specialize (Ha _ Hx). by rewrite String.eqb_refl in Ha.
    + intros h [Hh|Hh]%elem_of_app; [set_solver|]. apply list_elem_of_singleton in Hh as ->. set_solver.
  - split; [done|]. intros h Hh. destruct He as [->| ->]; set_solver.
  - unfold release. subst. destruct (remove_last lock l) as [l'|] eqn:E; simpl.
    + apply remove_last_Some in E as (l1 & g & l2 & -> & -> & Hg). split.
      * eapply names_once_sublist; [|done]. apply sublist_app; [done|]. by apply sublist_cons.
      * intros h Hh. apply elem_of_difference. split; [apply Hw; set_solver|].
        intros Heq%elem_of_singleton. unfold names_once in Hn. rewrite map_app in Hn. simpl in Hn.
        apply NoDup_app in Hn as (_ & Hd & [Hni _]%NoDup_cons).
        apply elem_of_app in Hh as [Hh|Hh].
        -- apply (Hd (h_name h)); [by apply list_elem_of_fmap_2|]. rewrite Heq, Hg. left.
        -- apply Hni. rewrite Hg, <- Heq. by apply list_elem_of_fmap_2.
    + split; [done|]. intros h Hh. apply elem_of_difference. split; [by apply Hw|].
      rewrite elem_of_singleton. by apply (remove_last_None _ _ E).
  - subst. by destruct (existsb _ _).
Qed.

Lemma op_lock_names_once a lock l : names_once l ->
  (api_op a = Acquire -> among (map h_name l) lock = false) -> names_once (op_lock a lock l).
Proof.
  intros Hn Ha. set (path := list_to_set (map h_name l) : gset string).
  assert (Hw : within l path).
  { intros h Hh. apply elem_of_list_to_set. by apply list_elem_of_fmap_2. }
  assert (exists path', lock_effect a lock path path') as [path' He].
  { unfold lock_effect. destruct (api_op a); eauto. }
  by destruct (op_lock_spec a lock l path path' Hn Hw He Ha).
Qed.

(** What closing a block may do to a frame below it. *)
Definition frame_le (f f' : Frame) : Prop :=
  sublist (fr_held f') (fr_held f) /\ fr_body f' = fr_body f /\ forall P, P ∈ fr_exits f -> P ∈ fr_exits f'.

Lemma frame_le_refl f : frame_le f f.
Proof. done. Qed.

Lemma frame_le_trans f g k : frame_le f g -> frame_le g k -> frame_le f k.
Proof. intros (H1 & H2 & H3) (H4 & H5 & H6). split_and!; [by etrans|congruence|auto]. Qed.

Lemma frames_le_refl fs : Forall2 frame_le fs fs.
Proof. apply Forall_Forall2_diag, Forall_forall. intros f _. apply frame_le_refl. Qed.

Lemma frames_le_trans fs gs ks : Forall2 frame_le fs gs -> Forall2 frame_le gs ks -> Forall2 frame_le fs ks.
Proof.
  intros H. revert ks. induction H as [|f g fs gs Hfg _ IH]; intros ks H2; [done|].
  apply Forall2_cons_inv_l in H2 as (k & ks' & Hgk & Hks & ->).
  constructor; [by eapply frame_le_trans|by apply IH].
Qed.

Lemma intersect_frame_le path f : frame_le f (intersect_frame path f).
Proof. split_and!; [apply intersect_sublist|done|done]. Qed.

Lemma push_exit_le path f : frame_le f (push_exit path f).
Proof. split_and!; [done|done|]. intros P HP. simpl. set_solver. Qed.

Lemma on_top_le g fs : (forall f, frame_le f (g f)) -> Forall2 frame_le fs (on_top g fs).
Proof. intros Hg. destruct fs as [|f fs]; simpl; constructor; [apply Hg|apply frames_le_refl]. Qed.

Lemma alter_le at_ g fs : (forall f, frame_le f (g f)) -> Forall2 frame_le fs (alter g at_ fs).
Proof.
  intros Hg. revert at_. induction fs as [|f fs IH]; intros [|at_]; [constructor|constructor| |].
  - constructor; [apply Hg|apply frames_le_refl].
  - constructor; [apply frame_le_refl|apply IH].
Qed.

Definition top_held (fs : list Frame) : list Held := match fs with f :: _ => fr_held f | [] => [] end.

Lemma fold_intersect_le exits f : frame_le f (fold_left (fun frame path => intersect_frame path frame) exits f).
Proof.
  revert f. induction exits as [|P exits IH]; intros f; simpl; [apply frame_le_refl|].
  eapply frame_le_trans; [apply (intersect_frame_le P)|apply IH].
Qed.

Lemma fold_intersect_in exits f P h : P ∈ exits ->
  h ∈ fr_held (fold_left (fun frame path => intersect_frame path frame) exits f) -> h ∈ P.
Proof.
  revert f. induction exits as [|Q exits IH]; intros f HP; [by apply elem_of_nil in HP|]. simpl.
  apply elem_of_cons in HP as [->|HP]; [|by apply IH]. intros Hh.
  destruct (fold_intersect_le exits (intersect_frame Q f)) as (Hs & _).
  apply (sublist_elem _ _ h Hs) in Hh. simpl in Hh. by apply elem_of_intersect in Hh as [_ ?].
Qed.

Lemma merge_exits_le exits fs : Forall2 frame_le fs (merge_exits exits fs).
Proof. apply on_top_le. intros f. apply fold_intersect_le. Qed.

Lemma merge_exits_in exits fs P h : P ∈ exits -> h ∈ top_held (merge_exits exits fs) -> h ∈ P.
Proof. destruct fs as [|f fs]; simpl; [intros _ Hh; by apply elem_of_nil in Hh|apply fold_intersect_in]. Qed.

Lemma top_held_le fs gs h : Forall2 frame_le fs gs -> h ∈ top_held gs -> h ∈ top_held fs.
Proof.
  intros Hf. destruct Hf as [|f g fs gs (Hs & _) _]; [done|]. simpl. by apply sublist_elem.
Qed.

(** How a block is left, once its own body is accounted for. *)
Definition effective (e : Exit) (b : Body) : Exit := if lands_at e b then FallThrough else e.

Lemma leave_spec e w inner stack : w_stack w = inner :: stack -> stack <> [] ->
  let stack' := w_stack (leave e w).1 in
  Forall2 frame_le stack stack'
  /\ (forall P h, P ∈ fr_exits inner -> h ∈ top_held stack' -> h ∈ P)
  /\ (effective e (fr_body inner) = FallThrough -> forall h, h ∈ top_held stack' -> h ∈ fr_held inner)
  /\ (effective e (fr_body inner) = Breaks \/ effective e (fr_body inner) = Continues ->
      forall at_, landing (effective e (fr_body inner)) stack = Some at_ ->
      exists f', stack' !! at_ = Some f' /\ fr_held inner ∈ fr_exits f').
Proof.
  intros Hw Hne. unfold leave. rewrite Hw. destruct stack as [|outer stack]; [done|]. cbn zeta. cbn [fst].
  fold (effective e (fr_body inner)). set (e' := effective e (fr_body inner)).
  set (fs := outer :: stack).
  assert (Hfall : let fs' := merge_exits (fr_exits inner) (on_top (intersect_frame (fr_held inner)) fs) in
    Forall2 frame_le fs fs' /\ (forall P h, P ∈ fr_exits inner -> h ∈ top_held fs' -> h ∈ P)
    /\ (forall h, h ∈ top_held fs' -> h ∈ fr_held inner)).
  { split_and!.
    - eapply frames_le_trans; [|apply merge_exits_le]. apply on_top_le. intros f. apply intersect_frame_le.
    - intros P h. apply merge_exits_in.
    - intros h Hh. eapply top_held_le in Hh; [|apply merge_exits_le]. simpl in Hh. by apply elem_of_intersect in Hh as [_ ?]. }
  destruct Hfall as (Hf1 & Hf2 & Hf3).
  assert (Hjump : forall at_, let fs' := merge_exits (fr_exits inner) (alter (push_exit (fr_held inner)) at_ fs) in
    Forall2 frame_le fs fs' /\ (forall P h, P ∈ fr_exits inner -> h ∈ top_held fs' -> h ∈ P)
    /\ (at_ < length fs -> exists f', fs' !! at_ = Some f' /\ fr_held inner ∈ fr_exits f')).
  { intros at_. split_and!.
    - eapply frames_le_trans; [|apply merge_exits_le]. apply alter_le. intros f. apply push_exit_le.
    - intros P h. apply merge_exits_in.
    - intros Hlt. apply lookup_lt_is_Some in Hlt as [f Hf].
      pose proof (list_lookup_alter_eq (push_exit (fr_held inner)) fs at_) as Ha. rewrite Hf in Ha. simpl in Ha.
      destruct (Forall2_lookup_l _ _ _ _ _ (merge_exits_le (fr_exits inner) (alter (push_exit (fr_held inner)) at_ fs)) Ha)
        as (f' & Hf' & _ & _ & Hex).
      exists f'. split; [done|]. apply Hex. simpl. set_solver. }
  assert (Hland : forall x at_, landing x fs = Some at_ -> at_ < length fs).
  { intros x. generalize fs. intros l. induction l as [|f l IH]; intros at_; simpl; [done|].
    destruct (lands_at x (fr_body f)); [intros [= <-]; lia|]. intros (k & Hk & ->)%fmap_Some.
    apply IH in Hk. lia. }
  destruct e' eqn:Ee; cbn [w_stack with_stack].
  - split_and!; [done..|by intros [?|?]].
  - split_and!; [apply merge_exits_le|intros P h; apply merge_exits_in|done|by intros [?|?]].
  - destruct (landing Breaks fs) as [at_|] eqn:El; cbn [w_stack with_stack]; [|split_and!; [done|done|done|done]].
    destruct (Hjump at_) as (H1 & H2 & H3). split_and!; [done|done|done|]. intros _ k [= <-]. apply H3. by eapply Hland.
  - destruct (landing Continues fs) as [at_|] eqn:El; cbn [w_stack with_stack]; [|split_and!; [done|done|done|done]].
    destruct (Hjump at_) as (H1 & H2 & H3). split_and!; [done|done|done|]. intros _ k [= <-]. apply H3. by eapply Hland.
  - split_and!; [apply merge_exits_le|intros P h; apply merge_exits_in|done|by intros [?|?]].
Qed.

(** ** The invariant *)

(** What a path that is where [p] says knows of the walk's frames. *)
Definition path_ok (fs : list Frame) (p : Path) : Prop :=
  match p with
  | Running locks => within (top_held fs) locks
  | Skipping n locks => exists f, fs !! S n = Some f /\ within (fr_held f) locks
  | Landing x n locks => (x = Breaks \/ x = Continues) /\
      forall j, landing x (drop n fs) = Some j ->
      exists f P, fs !! (n + j) = Some f /\ P ∈ fr_exits f /\ within P locks
  | Gone => True
  end.

Record walk_ok (w : Walk) (bs : list Body) (p : Path) : Prop := {
  wok_bodies : map fr_body (w_stack w) = bs ++ [Plain];
  wok_names : Forall (fun f => names_once (fr_held f)) (w_stack w);
  wok_path : path_ok (w_stack w) p;
}.

Lemma held_top w : held w = top_held (w_stack w).
Proof. done. Qed.

Lemma walk_ok_stack w bs p : walk_ok w bs p -> exists f fs, w_stack w = f :: fs.
Proof. intros [Hb _ _]. destruct (w_stack w) as [|f fs]; [by destruct bs|eauto]. Qed.

Lemma landing_bodies x fs gs : map fr_body fs = map fr_body gs -> landing x fs = landing x gs.
Proof.
  revert gs. induction fs as [|f fs IH]; intros [|g gs]; simpl; try done. intros [= -> H]. by rewrite (IH gs H).
Qed.

Lemma frames_le_bodies fs gs : Forall2 frame_le fs gs -> map fr_body gs = map fr_body fs.
Proof. induction 1 as [|f g fs gs (_ & Hb & _) _ IH]; simpl; [done|]. by rewrite Hb, IH. Qed.

Lemma frames_le_names fs gs : Forall2 frame_le fs gs -> Forall (fun f => names_once (fr_held f)) fs ->
  Forall (fun f => names_once (fr_held f)) gs.
Proof.
  induction 1 as [|f g fs gs (Hs & _) _ IH]; [done|]. intros [Hf Hfs]%Forall_cons.
  constructor; [by eapply names_once_sublist|by apply IH].
Qed.

Lemma set_held_ok w bs p0 p l : walk_ok w bs p0 -> names_once l ->
  path_ok (w_stack (set_held l w)) p -> walk_ok (set_held l w) bs p.
Proof.
  intros Hok Hl Hp. destruct (walk_ok_stack _ _ _ Hok) as (f & fs & Hw). destruct Hok as [Hb Hn _].
  split; [| |done]; unfold set_held in *; rewrite Hw in *; simpl in *; [done|].
  apply Forall_cons in Hn as [_ Hn]. by constructor.
Qed.

(** A change of the top frame's lockset is no matter to a path that is elsewhere. *)
Lemma set_held_elsewhere w l p : (forall locks, p <> Running locks) -> path_ok (w_stack w) p ->
  path_ok (w_stack (set_held l w)) p.
Proof.
  intros Hne. unfold set_held. destruct (w_stack w) as [|f fs] eqn:E.
  - destruct p as [locks|n locks|x n locks|]; simpl; try done; [by destruct (Hne locks)|].
    intros [Hx _]. split; [done|]. intros j.
    destruct n; simpl; [by destruct Hx as [->| ->]|by rewrite drop_nil].
  - destruct p as [locks|n locks|x n locks|]; simpl; try done; [by destruct (Hne locks)|].
    intros [Hx H]. split; [done|]. intros j Hj. destruct n as [|n]; simpl in *.
    + destruct (H j) as (g & P & Hg & HP & HPl).
      { exact Hj. }
      destruct j as [|j]; simpl in *; [|by exists g, P]. injection Hg as <-. by exists (mkFrame l (fr_body f) (fr_exits f)), P.
    + by apply H.
Qed.

Lemma enter_ok w bs p p' b : walk_ok w bs p ->
  path_ok (mkFrame (held w) b [] :: w_stack w) p' -> walk_ok (enter b w) (b :: bs) p'.
Proof.
  intros Hok Hp. destruct (walk_ok_stack _ _ _ Hok) as (f & fs & Hw). destruct Hok as [Hb Hn _].
  split; simpl; [by rewrite Hb| |done]. constructor; [|done]. rewrite Hw in Hn. apply Forall_cons in Hn as [Hf _].
  unfold held. by rewrite Hw.
Qed.

(** Closing a block, for a path that was [p] and is [p']. *)
Lemma leave_ok w b bs p p' e : walk_ok w (b :: bs) p -> path_step (b :: bs) p (OLeave e) bs p' ->
  walk_ok (leave e w).1 bs p'.
Proof.
  intros [Hb Hn Hp] Hstep. destruct (w_stack w) as [|inner stack] eqn:Hw; [done|].
  simpl in Hb. injection Hb as Hbody Hb.
  assert (Hne : stack <> []) by (intros ->; by destruct bs).
  destruct (leave_spec e w inner stack Hw Hne) as (Hle & Hex & Hfall & Hjump).
  set (stack' := w_stack (leave e w).1) in *.
  pose proof (frames_le_bodies _ _ Hle) as Hbs. apply Forall_cons in Hn as [Hin Hn].
  assert (Hlook : forall i f, stack !! i = Some f -> exists f', stack' !! i = Some f' /\ frame_le f f').
  { intros i f Hf. destruct (Forall2_lookup_l _ _ _ _ _ Hle Hf) as (f' & Hf' & Hff). eauto. }
  assert (Hdrop : forall x n, landing x (drop n stack') = landing x (drop n stack)).
  { intros x n. apply landing_bodies. rewrite <- !skipn_map. by rewrite Hbs. }
  split; [exact (eq_trans Hbs Hb)|by apply (frames_le_names stack)|]. fold stack'.
  unfold effective in *. subst b.
  inversion Hstep; subst; simpl in Hp |- *; try done.
  - intros h Hh. apply Hp, Hfall; [|done].
    match goal with H : _ \/ _ |- _ => destruct H as [->| ->] end; [done|]. by destruct (fr_body inner).
  - match goal with H : lands_at _ _ = false |- _ => rewrite H in * end. split; [done|].
    intros j. rewrite Hdrop. intros Hj. destruct (Hjump ltac:(done) j Hj) as (f' & Hf' & HP).
    by exists f', (fr_held inner).
  - destruct Hp as (f & Hf & Hpf). destruct (Hlook _ _ Hf) as (f' & Hf' & Hs & _).
    exists f'. split; [done|]. intros h Hh. by eapply Hpf, sublist_elem.
  - destruct Hp as (f & Hf & Hpf). destruct stack' as [|g stack']; [intros h Hh; by apply elem_of_nil in Hh|].
    destruct (Hlook _ _ Hf) as (f' & [= ->] & Hs & _). intros h Hh. by eapply Hpf, sublist_elem.
  - destruct Hp as [Hx Hp]. split; [done|]. intros j. rewrite Hdrop. intros Hj.
    destruct (Hp j Hj) as (f & P & Hf & HP & HPl). destruct (Hlook _ _ Hf) as (f' & Hf' & _ & _ & Hexs).
    exists f', P. auto.
  - destruct Hp as [Hx Hp]. split; [done|]. intros j Hj. change (landing x (drop 0 stack') = Some j) in Hj.
    rewrite Hdrop in Hj.
    destruct (Hp (S j)) as (f & P & Hf & HP & HPl).
    { match goal with H : lands_at _ _ = false |- _ => rewrite H end. simpl in Hj. unfold drop in Hj. by rewrite Hj. }
    destruct (Hlook _ _ Hf) as (f' & Hf' & _ & _ & Hexs). exists f', P. auto.
  - destruct Hp as [Hx Hp]. destruct (Hp 0) as (f & P & [= <-] & HP & HPl).
    { match goal with H : lands_at _ _ = true |- _ => by rewrite H end. }
    intros h Hh. apply HPl. by eapply Hex.
Qed.

Lemma walk_step_ok w bs p op bs' p' : walk_ok w bs p -> acquires_again w op = false -> path_step bs p op bs' p' ->
  walk_ok (walk_op w op) bs' p'.
Proof.
  intros Hok Ha Hstep.
  assert (Hnames : names_once (held w)).
  { destruct (walk_ok_stack _ _ _ Hok) as (f & fs & Hw). destruct Hok as [_ Hn _]. unfold held.
    rewrite Hw in *. by apply Forall_cons in Hn as [? _]. }
  assert (Hl : forall a lock, op = OLock a lock -> api_op a = Acquire -> among (map h_name (held w)) lock = false).
  { intros a lock -> E. simpl in Ha. by rewrite E in Ha. }
  destruct op as [a lock| | |b|e]; simpl.
  - assert (Hset : forall q, path_ok (w_stack (set_held (op_lock a lock (held w)) w)) q ->
      walk_ok (set_held (op_lock a lock (held w)) w) bs q).
    { intros q Hq. eapply set_held_ok; [done| |done]. apply op_lock_names_once; [done|by apply Hl]. }
    inversion Hstep; subst;
      try (apply Hset, set_held_elsewhere; [done|apply (wok_path _ _ _ Hok)]).
    apply Hset. destruct (walk_ok_stack _ _ _ Hok) as (f & fs & Hw).
    destruct (op_lock_spec a lock (held w) locks locks' Hnames (wok_path _ _ _ Hok)) as [_ H2]; [done|by apply Hl|].
    unfold set_held. by rewrite Hw.
  - inversion Hstep; subst; (eapply set_held_ok; [done|constructor|]).
    + destruct (walk_ok_stack _ _ _ Hok) as (f & fs & Hw). unfold set_held. rewrite Hw. intros h Hh. by apply elem_of_nil in Hh.
    + apply set_held_elsewhere; [done|apply (wok_path _ _ _ Hok)].
  - by inversion Hstep; subst.
  - pose proof (wok_path _ _ _ Hok) as Hp. destruct (walk_ok_stack _ _ _ Hok) as (f & fs & Hw).
    inversion Hstep; subst; (eapply enter_ok; [done|]); simpl in *; try done.
    exists f. by rewrite Hw in *.
  - inversion Hstep; subst; by eapply leave_ok.
Qed.

Lemma together_ok w bs p ops w' bs' p' : together w bs p ops w' bs' p' -> walk_ok w bs p -> walk_ok w' bs' p'.
Proof. induction 1 as [|w bs p op ops bs1 p1 w2 bs2 p2 Ha Hs _ IH]; [done|]. intros Hok. by eapply IH, walk_step_ok. Qed.

Lemma walk_new_ok : walk_ok Walk_new [] (Running ∅).
Proof.
  split; simpl; [done| |intros h Hh; by apply elem_of_nil in Hh].
  constructor; [constructor|constructor].
Qed.

(** ** From the actions of the code to operations *)

Lemma op_lock_held a lock l inherited site g : (apply_lock a lock l inherited site g).1.1 = op_lock a lock l.
Proof.
  unfold op_lock, apply_lock. destruct (api_op a); try done.
  - by destruct (release l lock).
  - by destruct (existsb _ _).
Qed.

Lemma set_held_held w : w_stack w <> [] -> set_held (held w) w = w.
Proof.
  unfold set_held, held, with_stack. destruct w as [[|[h b e] fs] locals gotos previous conditional]; done.
Qed.

Lemma held_set_held l w : w_stack w <> [] -> held (set_held l w) = l.
Proof. unfold set_held, held, with_stack. by destruct (w_stack w). Qed.
Lemma set_held_set_held l l' w : set_held l (set_held l' w) = set_held l w.
Proof. unfold set_held, with_stack. by destruct w as [[|f fs] ????]. Qed.
Lemma set_held_stack l w : w_stack w <> [] -> w_stack (set_held l w) <> [].
Proof. unfold set_held, with_stack. by destruct (w_stack w). Qed.
Lemma set_held_locals l w : w_locals (set_held l w) = w_locals w.
Proof. unfold set_held, with_stack. by destruct (w_stack w). Qed.

(** Locks taken one by one are appended. *)
Lemma takes_all l w : w_stack w <> [] ->
  fold_left walk_op (map (fun h => OLock (takes (h_shared h)) (h_name h)) l) w = set_held (held w ++ l) w.
Proof.
  revert w. induction l as [|h l IH]; intros w Hw; cbn [map fold_left]; [by rewrite app_nil_r, set_held_held|].
  cbn [walk_op]. rewrite IH by (by apply set_held_stack). rewrite set_held_set_held, held_set_held by done.
  unfold op_lock, apply_lock, takes. cbn. rewrite <- app_assoc. cbn. do 2 f_equal. by destruct h as [name []].
Qed.

Lemma calls_release caller line call locals released : forall w out, w_stack w <> [] -> w_locals w = locals ->
  let w' := (fold_left (apply_released caller line call locals) released (w, out)).1 in
  w' = fold_left walk_op (map (fun named => match resolve line call locals named with Some name => OLock gives name | None => OForget end) released) w
  /\ w_stack w' <> [].
Proof.
  induction released as [|named released IH]; intros w out Hw Hl; [done|]. cbn [fold_left map apply_released].
  destruct (resolve line call locals named) as [name|]; [|apply IH; [by apply set_held_stack|by rewrite set_held_locals]].
  unfold op_lock, apply_lock, gives. cbn [walk_op api api_op fst]. destruct (release (held w) name) as [locks was] eqn:E.
  unfold op_lock, apply_lock, gives. cbn [api api_op fst]. rewrite E. cbn [fst].
  apply IH; [by apply set_held_stack|by rewrite set_held_locals].
Qed.

Lemma calls_acquire line call locals site acquired : forall w out, w_stack w <> [] ->
  (fold_left (apply_acquired line call locals site) acquired (w, out)).1
  = fold_left walk_op (collect_some (fun a => OLock (takes a.2) <$> resolve line call locals a.1) acquired) w.
Proof.
  induction acquired as [|[named shared] acquired IH]; intros w out Hw; [done|]. cbn [fold_left collect_some apply_acquired fst snd].
  destruct (resolve line call locals named) as [name|]; cbn [fmap option_fmap option_map]; [|by apply IH].
  cbn [fold_left walk_op]. rewrite IH by (by apply set_held_stack). do 2 f_equal.
  unfold op_lock, apply_lock, takes. cbn. by destruct shared.
Qed.

(** Each action of a line is its operations, in order. *)
Lemma act_is_ops ctx p offset action w out : w_stack w <> [] ->
  (act ctx p offset action (w, out)).1.1 = fold_left walk_op (action_ops ctx p offset action w) w.
Proof.
  intros Hw. destruct action as [a lock|entry| |kind zone| | |call|]; cbn [act action_ops fold_left walk_op]; try done.
  - unfold lock_action. cbv zeta. pose proof (op_lock_held a lock (held w)) as Ho.
    match goal with |- context [apply_lock ?a ?l ?h ?i ?s ?g] => specialize (Ho i s g); destruct (apply_lock a l h i s g) as [[locks graph] unheld] end.
    cbn in Ho |- *. by rewrite Ho.
  - cbv zeta. fold (Walk_open (take_str offset (pl_line p)) w). cbn [fst].
    assert (Hlen : (length (w_stack (Walk_open (take_str offset (pl_line p)) w)) =? 2) = (length (w_stack w) =? 1)) by done. rewrite Hlen.
    destruct (_ && _); [by rewrite takes_all|]. rewrite app_nil_r. by apply set_held_held.
  - unfold Walk_close. by destruct (leave _ w) as [w' path].
  - cbv zeta. cbn [fst]. destruct (_ && _); [|done]. unfold call_site.
    destruct (ip_summaries (cx_interproc ctx) !! ca_name call) as [summary|]; [|done]. cbn [fmap option_fmap option_map unwrap_or].
    match goal with |- context [fold_left (apply_released ?caller ?line ?call ?locals) ?l (w, ?o)] =>
      destruct (calls_release caller line call locals l w o Hw eq_refl) as [Hr Hs]; destruct (fold_left (apply_released caller line call locals) l (w, o)) as [w' out'] end.
    cbn [fst] in Hr, Hs. rewrite calls_acquire by done. unfold call_ops. by rewrite fold_left_app, Hr.
Qed.

(** ** The theorem *)

(** C19: the walk claims no lock a path does not hold.  Each action of a line is its
    operations on the walk, whatever is known of the callees: a lock call, a block entered
    or left, the locks of the entry lockset taken as a body is entered, and what the
    summary of its callee says a call gives back, by name or any, and takes.  And whatever
    blocks, branches taken or not, early returns, breaks and continues a function has, at
    every point of every path that does these operations, runs each block at most once and
    jumps to no label, and along which the walk never takes a lock it already holds, each
    lock of the walk's lockset is held by the path. *)
Theorem lockset_sound :
  (forall ctx p offset action w out, w_stack w <> [] ->
    (act ctx p offset action (w, out)).1.1 = fold_left walk_op (action_ops ctx p offset action w) w)
  /\ (forall ops w bs locks, together Walk_new [] (Running ∅) ops w bs (Running locks) ->
    forall lock, lock ∈ (lockset false w).1 -> lock ∈ locks).
Proof.
  split; [apply act_is_ops|]. intros ops w bs locks Ht lock Hl.
  pose proof (wok_path _ _ _ (together_ok _ _ _ _ _ _ _ Ht walk_new_ok)) as Hp.
  simpl in Hl. apply list_elem_of_fmap in Hl as (h & -> & Hh). by apply Hp.
Qed.

(** The early-return idiom: the lock is given back in a branch that returns, and is
    still held after it. *)
Definition demo_lock : LockApi := api "pthread_mutex_lock" 0 Acquire Exclusive.
Definition demo_unlock : LockApi := api "pthread_mutex_unlock" 0 Release Exclusive.
Definition demo_ops : list Op :=
  [OEnter Plain; OLock demo_lock "m"; OEnter Plain; OLock demo_unlock "m"; OLeave Leaves; OAccess].

Lemma lockset_sound_witness :
  let w := fold_left walk_op demo_ops Walk_new in
  (lockset false w).1 = ["m"]
  /\ (forall lock, lock ∈ (lockset false w).1 -> lock ∈ (∅ ∪ {["m"]} : gset string)).
Proof.
  split; [reflexivity|].
  apply (proj2 lockset_sound demo_ops _ [Plain]). unfold demo_ops.
  eapply together_cons; [reflexivity|apply path_enter|].
  eapply together_cons; [reflexivity|by apply path_lock|].
  eapply together_cons; [reflexivity|apply path_skip|].
  eapply together_cons; [reflexivity|apply skip_lock|].
  eapply together_cons; [reflexivity|apply skip_end|].
  eapply together_cons; [reflexivity|apply path_access|].
  apply together_nil.
Defined.
