(* ===== verification/ConcReport.v ===== *)
(** * The report of the thread analysis (last part of src/mcp/concurrency.rs)

    Lock order, deadlock and race candidates, and the payload: every list is cut at
    a cap and carries the count it was cut from.  Files are read through a
    parameter; the clock is that of [ConcWalk]. *)

From S2P Require Import Prelude RustStr BTree Json Graph ConcText ConcStructure ConcProgram ConcActions ConcLocks ConcWalk.
Local Open Scope nat_scope.

(** ** The lock order *)

Definition pair_leb (a b : string * string) : bool :=
  if a.1 =s b.1 then String.leb a.2 b.2 else String.leb a.1 b.1.
Definition edge_le (a b : (string * string) * EdgeSites) : Prop := pair_leb a.1 b.1 = true.
#[local] Instance edge_le_dec a b : Decision (edge_le a b) := decide (pair_leb a.1 b.1 = true).

Definition edge_list := list ((string * string) * EdgeSites).

(** The edges of a lock graph in key order. *)
Definition graph_edges (g : LockGraph) : edge_list := merge_sort edge_le (map_to_list (g_edges g)).

Definition jsource (file : string) (line : nat) : json := JObj [("file", JStr file); ("line", jnat line)].

Definition sites_json (edge : EdgeSites) : list json := map (fun site => jsource site.1 site.2) (ed_sites edge).

Definition edge_json (from to : string) (edge : EdgeSites) : json :=
  let sites := sites_json edge in
  JObj [("from", JStr from); ("to", JStr to); ("source", jopt id (head sites)); ("sites", JArr sites);
        ("site_count", jnat (ed_count edge)); ("threads", jstrs (btree_elements (ed_threads edge)))].

Definition double_lock_json (lock : string) (edge : EdgeSites) : json :=
  JObj [("status", JStr "potential"); ("lock", JStr lock); ("sites", JArr (sites_json edge));
        ("site_count", jnat (ed_count edge)); ("threads", jstrs (btree_elements (ed_threads edge)));
        ("reason", JStr "acquired while lexically already held: a self-deadlock for a default mutex; harmless for a recursive mutex, and for a second read lock unless a writer is queued; a second wait on a semaphore blocks unless its count covers both; this pass sees neither attributes nor counts");
        ("provenance", JStr "syntax")].

Definition threads_concurrent (left right : list string) (repeat : gset string) : bool :=
  match left, right with
  | [], _ | _, [] => false
  | [one], [other] => if one =s other then in_set repeat one || (one =s UNATTRIBUTED) else true
  | _, _ => true
  end.

Definition cycle_concurrent (edges : edge_list) (repeat : gset string) : bool :=
  match edges with
  | [] => false
  | (_, first) :: _ =>
    existsb (fun e => threads_concurrent (btree_elements (ed_threads first)) (btree_elements (ed_threads e.2)) repeat)
      edges
  end.

Definition cycle_json (members : list string) (edges : edge_list) (repeat : gset string) : option json :=
  then_some (cycle_concurrent edges repeat)
    (JObj [("status", JStr "potential"); ("locks", jstrs members);
           ("edges", JArr (map (fun e => edge_json e.1.1 e.1.2 e.2) edges));
           ("threads", jstrs (btree_elements (foldr (fun e threads => ed_threads e.2 ∪ threads) ∅ edges)));
           ("reason", JStr "these locks are acquired in a cyclic order by code that may run concurrently");
           ("provenance", JStr "syntax"); ("next_analysis", JStr "alias_and_happens_before")]).

Definition readers_only (members : list string) (edges : edge_list) (writers : gset string) : bool :=
  forallb (fun e => negb (ed_exclusive e.2)) edges && negb (existsb (in_set writers) members).

Record LockReport := mkReport { lr_order : list json; lr_double_lock : list json; lr_deadlocks : list json }.

(** The edges between two different locks. *)
Definition lock_adjacency (g : LockGraph) : call_graph :=
  fold_left (fun adjacency e => if e.1.1 =s e.1.2 then adjacency else add_edge_to adjacency e.1.1 e.1.2)
    (graph_edges g) ∅.

(** The edges both of whose ends are in a component; [component_of] gives a lock one
    component, since components are disjoint. *)
Definition edges_inside (members : list string) (edges : edge_list) : edge_list :=
  bfilter (fun e => among members e.1.1 && among members e.1.2) edges.

Section report.
Context `{GraphOps}.

Definition lock_cycles (g : LockGraph) : list (list string) :=
  bfilter (fun members => (1 <? length members)%nat) (components (lock_adjacency g)).

Definition deadlock_of (g : LockGraph) (repeat : gset string) (members : list string) : option json :=
  let edges := edges_inside members (graph_edges g) in
  if readers_only members edges (g_writers g) then None else cycle_json members edges repeat.

Definition lock_report (g : LockGraph) (repeat : gset string) (threads_detected : bool) : LockReport :=
  let edges := graph_edges g in
  mkReport (map (fun e => edge_json e.1.1 e.1.2 e.2) edges)
    (map (fun e => double_lock_json e.1.1 e.2) (bfilter (fun e => e.1.1 =s e.1.2) edges))
    (if threads_detected then collect_some (deadlock_of g repeat) (lock_cycles g) else []).
End report.

(** ** Race candidates *)

Definition PAIRS_PER_CANDIDATE : nat := 1024.

Record Candidates := mkCandidates {
  ca_emitted : list json;
  ca_total : nat;
  ca_cap : nat;
  ca_budget : N;
  ca_exhausted : bool;
  ca_timed_out : bool;
}.

Definition cand_push (candidate : json) (c : Candidates) : Candidates :=
  mkCandidates
    (if (length (ca_emitted c) <? ca_cap c)%nat then ca_emitted c ++ [candidate] else ca_emitted c)
    (S (ca_total c)) (ca_cap c) (ca_budget c) (ca_exhausted c) (ca_timed_out c).

Definition cand_spend (c : Candidates) : bool * Candidates :=
  if (ca_budget c =? 0)%N
  then (false, mkCandidates (ca_emitted c) (ca_total c) (ca_cap c) (ca_budget c) true (ca_timed_out c))
  else (true, mkCandidates (ca_emitted c) (ca_total c) (ca_cap c) (N.pred (ca_budget c)) (ca_exhausted c) (ca_timed_out c)).

Definition cand_time_out (t : bool) (c : Candidates) : Candidates :=
  mkCandidates (ca_emitted c) (ca_total c) (ca_cap c) (ca_budget c) (ca_exhausted c) (ca_timed_out c || t).

Definition may_run_concurrently (left right : Event) (repeat : gset string) : bool :=
  threads_concurrent (ev_threads left) (ev_threads right) repeat.

Definition common_locks (left right : Event) : list string :=
  bfilter (fun lock => negb (among (ev_read_locks left) lock && among (ev_read_locks right) lock))
    (bfilter (among (ev_lockset right)) (ev_lockset left)).

Definition exclusive_locks (access : Event) : list string :=
  bfilter (fun lock => negb (among (ev_read_locks access) lock)) (ev_lockset access).

Definition lock_note (shared : list string) : json :=
  match shared with
  | [] => JNull
  | _ =>
    JObj [("common_lexical_locks", jstrs shared);
          ("note", JStr "Both accesses lexically hold these names. That is evidence, not protection: acquisition is not path sensitive here and two spellings are not proof of one mutex.")]
  end.

Definition pair_candidate (left right : Event) : json :=
  JObj [("status", JStr "potential"); ("accesses", jstrs [ev_id left; ev_id right]);
        ("memory_zone", jopt JStr (ev_zone left)); ("kinds", jstrs [ev_kind left; ev_kind right]);
        ("threads", jstrs (btree_set (ev_threads left ++ ev_threads right)));
        ("lock_evidence", lock_note (common_locks left right));
        ("reason", JStr (if is_atomic (ev_kind left) || is_atomic (ev_kind right)
                         then "an atomic access against a plain one, which its atomicity does not order"
                         else "conflicting accesses that this pass cannot order"));
        ("provenance", JStr "syntax"); ("next_analysis", JStr "alias_and_happens_before")].

Definition self_candidate (access : Event) : json :=
  JObj [("status", JStr "potential"); ("accesses", jstrs [ev_id access; ev_id access]);
        ("memory_zone", jopt JStr (ev_zone access)); ("kinds", jstrs [ev_kind access; ev_kind access]);
        ("threads", jstrs (ev_threads access)); ("lock_evidence", lock_note (exclusive_locks access));
        ("reason", JStr "the same write may execute in more than one instance of its thread");
        ("provenance", JStr "syntax"); ("next_analysis", JStr "alias_and_happens_before")].

(** Two events that are a candidate. *)
Definition races (repeat : gset string) (left right : Event) : bool :=
  conflicting (ev_kind left) (ev_kind right) && may_run_concurrently left right repeat.

(** The inner loop; the flag says that the scan of the zone stops. *)
Fixpoint pair_with (access : Event) (rights : list Event) (repeat : gset string) (out : Candidates) (d : deadline) :
    bool * Candidates * deadline :=
  match rights with
  | [] => (false, out, d)
  | other :: rights =>
    match passed d with
    | (true, d) => (true, cand_time_out true out, d)
    | (false, d) =>
      match cand_spend out with
      | (false, out) => (true, out, d)
      | (true, out) =>
        pair_with access rights repeat
          (if races repeat access other then cand_push (pair_candidate access other) out else out) d
      end
    end
  end.

Fixpoint zone_candidates (group : list Event) (repeat : gset string) (out : Candidates) (d : deadline) :
    Candidates * deadline :=
  match group with
  | [] => (out, d)
  | access :: group =>
    match pair_with access group repeat out d with
    | (true, out, d) => (out, d)
    | (false, out, d) => zone_candidates group repeat out d
    end
  end.

(** Group the accesses by zone; [None] when the deadline passes. *)
Fixpoint group_by_zone (accesses : list Event) (by_zone : gmap string (list Event)) (d : deadline) :
    option (gmap string (list Event)) * deadline :=
  match accesses with
  | [] => (Some by_zone, d)
  | event :: accesses =>
    match passed d with
    | (true, d) => (None, d)
    | (false, d) =>
      group_by_zone accesses
        (match ev_zone event with
         | Some zone => <[zone := unwrap_or (by_zone !! zone) [] ++ [event]]> by_zone
         | None => by_zone
         end) d
    end
  end.

Fixpoint self_candidates (writes : list Event) (out : Candidates) (d : deadline) : bool * Candidates * deadline :=
  match writes with
  | [] => (false, out, d)
  | event :: writes =>
    match passed d with
    | (true, d) => (true, cand_time_out true out, d)
    | (false, d) => self_candidates writes (cand_push (self_candidate event) out) d
    end
  end.

Fixpoint zones_candidates (groups : list (list Event)) (repeat : gset string) (out : Candidates) (d : deadline) :
    Candidates * deadline :=
  match groups with
  | [] => (out, d)
  | group :: groups =>
    if ca_exhausted out || ca_timed_out out then (out, d)
    else let '(out, d) := zone_candidates group repeat out d in zones_candidates groups repeat out d
  end.

Definition usize_max : N := 2 ^ 64 - 1.

Definition pair_budget (cap : nat) : N :=
  N.max (N.min (N.of_nat cap * N.of_nat PAIRS_PER_CANDIDATE) usize_max) (N.of_nat PAIRS_PER_CANDIDATE).

Definition no_candidates (cap : nat) (timed_out : bool) : Candidates := mkCandidates [] 0 cap 0 false timed_out.

Definition candidate_list (events : list Event) (repeat : gset string) (cap : nat) (d : deadline) :
    Candidates * deadline :=
  match group_by_zone (bfilter (fun e => is_access (ev_kind e)) events) ∅ d with
  | (None, d) => (no_candidates cap true, d)
  | (Some by_zone, d) =>
    let out := mkCandidates [] 0 cap (pair_budget cap) false false in
    match self_candidates (bfilter (fun e => (ev_kind e =s "WRITE") && ev_may_repeat e) events) out d with
    | (true, out, d) => (out, d)
    | (false, out, d) =>
      let '(out, d) := zones_candidates (map snd (btree_entries by_zone)) repeat out d in
      let '(late, d) := passed d in
      (cand_time_out late out, d)
    end
  end.

(** ** The payload *)

Definition event_json (event : Event) : json :=
  JObj ([("id", JStr (ev_id event)); ("threads", jstrs (ev_threads event));
         ("thread_may_repeat", JBool (ev_may_repeat event)); ("kind", JStr (ev_kind event));
         ("source_location", jsource (ev_file event) (ev_line event)); ("function", JStr (ev_function event));
         ("memory_zone", jopt JStr (ev_zone event)); ("lockset", jstrs (ev_lockset event));
         ("provenance", JStr "syntax")]
        ++ match ev_lock_mode event with Some mode => [("lock_mode", JStr mode)] | None => [] end
        ++ match ev_read_locks event with [] => [] | locks => [("read_lockset", jstrs locks)] end).

Definition lock_ref_json (named : LockRef) (params : list string) : jmap :=
  match named with
  | RName name => [("lock", JStr name)]
  | RParam at_ => [("parameter", jnat at_); ("name", jopt JStr (params !! at_))]
  | ROpaque | RUnknown => [("unknown", JBool true)]
  end.

Definition summary_json (function : string) (summary : Summary) (params : list string) : json :=
  JObj [("function", JStr function);
        ("acquires", JArr (map (fun acquired =>
           JObj (lock_ref_json acquired.1 params ++
                 [("mode", JStr (if (acquired.2 : bool) then "shared" else "exclusive"))])) (su_acquired summary)));
        ("releases", JArr (map (fun named => JObj (lock_ref_json named params)) (su_released summary)))].

Definition interproc_json (interproc : Interproc) (program : Program) : json * json :=
  (JArr (map (fun e => summary_json e.1 e.2 (params_of program e.1)) (btree_entries (ip_summaries interproc))),
   JArr (map (fun e => JObj [("function", JStr e.1); ("locks", jstrs (map h_name e.2))])
           (btree_entries (ip_entries interproc)))).

Record PayloadParts := mkParts {
  pp_files : list string;
  pp_events : Sink;
  pp_threads_detected : bool;
  pp_entries : Program;
  pp_candidates : Candidates;
  pp_locks : LockReport;
  pp_lock_edges : nat;
  pp_lock_sites_dropped : nat;
  pp_unreleased : list json;
  pp_unreadable : list json;
  pp_within_deadline : bool;
  pp_lock_summaries : json;
  pp_entry_locksets : json;
  pp_summaries_converged : bool;
  pp_arguments_unresolved : nat;
}.

Definition enumeration_complete (parts : PayloadParts) : bool :=
  negb (ca_exhausted (pp_candidates parts)) && negb (ca_timed_out (pp_candidates parts))
  && (k_total (pp_events parts) =? length (k_events (pp_events parts)))%nat
  && bool_decide (pp_unreadable parts = []) && pp_within_deadline parts.

Definition entry_json (e : string * Spawn) : json :=
  JObj [("entry", JStr e.1); ("spawn_sites", jnat (sp_sites e.2)); ("spawned_in_loop", JBool (sp_in_loop e.2));
        ("spawner_may_repeat", JBool (sp_spawner_repeats e.2)); ("may_repeat", JBool (may_repeat e.2))].

Definition payload (parts : PayloadParts) : json :=
  let candidates := pp_candidates parts in
  let events := k_events (pp_events parts) in
  let total := k_total (pp_events parts) in
  JObj
    [("schema", JStr "frama-c-mcp.concurrency.v1");
     ("analysis_level", jnat 0);
     ("analysis", JStr "syntactic_screening");
     ("files", jstrs (pp_files parts));
     ("threads_detected", JBool (pp_threads_detected parts));
     ("thread_entries", JArr (map entry_json (btree_entries (p_entries (pp_entries parts)))));
     ("unresolved_spawn_sites", jnat (unresolved_spawns (pp_entries parts)));
     ("event_count", jnat total);
     ("events_omitted", jnat (total - length events));
     ("events", JArr (map event_json events));
     ("candidate_count", jnat (ca_total candidates));
     ("candidates_omitted", jnat (ca_total candidates - length (ca_emitted candidates)));
     ("candidate_enumeration_complete", JBool (enumeration_complete parts));
     ("candidates", JArr (ca_emitted candidates));
     ("scan_complete", JBool (pp_within_deadline parts && negb (ca_timed_out candidates)));
     ("lock_order", JArr (lr_order (pp_locks parts)));
     ("lock_order_count", jnat (pp_lock_edges parts));
     ("lock_order_sites_omitted", jnat (pp_lock_sites_dropped parts));
     ("lock_order_complete", JBool ((pp_lock_sites_dropped parts =? 0)%nat && pp_within_deadline parts));
     ("double_lock", JArr (lr_double_lock (pp_locks parts)));
     ("deadlock_candidates", JArr (lr_deadlocks (pp_locks parts)));
     ("unreleased_lock", JArr (pp_unreleased parts));
     ("lock_summaries", pp_lock_summaries parts);
     ("lock_summaries_converged", JBool (pp_summaries_converged parts));
     ("entry_locksets", pp_entry_locksets parts);
     ("lock_arguments_unresolved", jnat (pp_arguments_unresolved parts));
     ("unreadable_files", JArr (pp_unreadable parts));
     ("evidence", JObj
        [("all_claims", JStr "syntax");
         ("soundness", JStr "candidate generation only; an absent candidate is not evidence of an absent race");
         ("unsupported", jstrs
            ["aliasing"; "path feasibility"; "happens-before"; "join ordering"; "macros";
             "headers not named in files"; "calls through function pointers"; "function-static storage";
             "context-sensitive locksets"; "lock arguments that are not a plain global or parameter";
             "mutex attributes (recursive, error-checking)"; "semaphore counts"; "backward goto";
             "memory orders weaker than sequential consistency"; "Eva states"; "Mthread states"])]);
     ("refinement", JObj
        [("tool", JNull);
         ("note", JStr "No tool on this surface confirms a race. Level 0 evidence has to be taken to Eva or Mthread outside it before a defect is reported.")])].

(** ** The scan *)

Section scan.
Context `{GraphOps}.

(** The file system: whether a path is a regular file, and its text, or the error
    each answers. *)
Variable is_file : string -> bool + string.
Variable read_to_string : string -> string + string.

Definition read_source_file (path : string) : string + string :=
  match is_file path with
  | inr error => inr error
  | inl false => inr "not a regular file"
  | inl true => read_to_string path
  end.

(** The files read, those that could not be, and whether the deadline let all be
    tried. *)
Fixpoint read_files (files : list string) (d : deadline) : list FileScan * list json * bool * deadline :=
  match files with
  | [] => ([], [], true, d)
  | file :: files =>
    match passed d with
    | (true, d) => ([], [], false, d)
    | (false, d) =>
      let '(scans, unreadable, within, d) := read_files files d in
      match read_source_file file with
      | inl text => (structure file (strip_noise text) :: scans, unreadable, within, d)
      | inr error => (scans, JObj [("file", JStr file); ("error", JStr error)] :: unreadable, within, d)
      end
    end
  end.

Definition base_context (program : Program) (include_unshared : bool) : Ctx :=
  mkCtx program (thread_sets program) (repeating program) include_unshared nothing_known.

(** What is carried across calls, whether the summaries settled, and whether the
    deadline held. *)
Definition carried_facts (scans : list FileScan) (base : Ctx) (within : bool) (d : deadline) :
    option (Interproc * bool * bool * deadline) :=
  if within then
    match interprocedural scans base d with
    | None => None
    | Some (Some (found, converged), d) => Some (found, converged, true, d)
    | Some (None, d) => Some (nothing_known, true, false, d)
    end
  else Some (nothing_known, true, false, d).

Definition scan_emission (max_events : nat) : Emission :=
  mkEmission (Some (mkSink [] 0 max_events)) (graph_of_cap max_events) [] facts0.

Definition emit_scan (scans : list FileScan) (ctx : Ctx) (within : bool) (max_events : nat) (d : deadline) :
    option (bool * Emission * deadline) :=
  if within then emit_files scans ctx (scan_emission max_events) d
  else Some (false, scan_emission max_events, d).

Definition scan_parts (files : list string) (max_events max_candidates : nat) (include_unshared : bool)
    (d : deadline) : option PayloadParts :=
  let '(scans, unreadable, read_within, d) := read_files files d in
  let program := survey scans in
  let base := base_context program include_unshared in
  match carried_facts scans base read_within d with
  | None => None
  | Some (interproc, converged, within, d) =>
    match emit_scan scans (with_interproc interproc include_unshared base) within max_events d with
    | None => None
    | Some (within_deadline, out, d) =>
      let sink := unwrap_or (em_sink out) (mkSink [] 0 max_events) in
      let threads_detected := (0 <? p_spawn_calls program)%nat in
      let candidates :=
        if threads_detected then (candidate_list (k_events sink) (cx_repeat base) max_candidates d).1
        else no_candidates max_candidates (passed d).1 in
      let '(lock_summaries, entry_locksets) := interproc_json interproc program in
      Some (mkParts files sink threads_detected program candidates
              (lock_report (em_graph out) (cx_repeat base) threads_detected)
              (size (g_edges (em_graph out))) (g_sites_dropped (em_graph out)) (em_unreleased out) unreadable
              within_deadline lock_summaries entry_locksets converged
              (fa_unresolved_arguments (em_facts out)))
    end
  end.

(** [scan_to_deadline]; [None] when it does not return. *)
Definition scan_to_deadline (files : list string) (max_events max_candidates : nat) (include_unshared : bool)
    (d : deadline) : option json :=
  payload <$> scan_parts files max_events max_candidates include_unshared d.
End scan.

(** ** The tool *)

Section tool.
Context `{GraphOps}.
Variable is_file : string -> bool + string.
Variable read_to_string : string -> string + string.

Inductive Answer := NoProject | TimedOut (message : string) | Scanned (payload : json).

Definition CONCURRENCY_SCAN_BUDGET_SECS : nat := 120.

Definition scan_timed_out : string :=
  "concurrency scan exceeded " +s+ dec CONCURRENCY_SCAN_BUDGET_SECS +s+
  "s and was abandoned. This pass is superlinear in the shape of the source, not only in its size: a generated or preprocessed file that puts a whole function on one line is the usual cause. Narrow the files argument, or lower max_events.".

Definition scanned_files (files : option (list string)) (loaded : option (list string)) : list string :=
  match files with
  | Some ((_ :: _) as files) => files
  | _ => unwrap_or loaded []
  end.

(** [late]: the timeout around the scan fired before it answered. *)
Definition analyze_concurrency (files loaded : option (list string)) (max_events max_candidates : option nat)
    (include_unshared : option bool) (d : deadline) (late : bool) : Answer :=
  match scanned_files files loaded with
  | [] => NoProject
  | files =>
    match scan_to_deadline is_file read_to_string files
            (Nat.min (unwrap_or max_events (10 * 1000)) (100 * 1000)) (Nat.min (unwrap_or max_candidates (2 * 1000)) (20 * 1000))
            (unwrap_or include_unshared false) d with
    | Some payload => if late then TimedOut scan_timed_out else Scanned payload
    | None => TimedOut scan_timed_out
    end
  end.
End tool.

(** ** Lemmas: threads that run together *)

Lemma threads_concurrent_false left right repeat : left <> [] -> right <> [] ->
  threads_concurrent left right repeat = false <->
  exists t, left = [t] /\ right = [t] /\ t ∉ repeat /\ t <> UNATTRIBUTED.
Proof.
  intros Hl Hr. destruct left as [|a [|b left]], right as [|c [|e right]]; simpl; try done;
    try (split; [done|intros (t & ? & ? & _); done]).
  destruct (a =s c) eqn:E; bool_simpl.
  - subst c. rewrite orb_false_iff, in_set_false, String.eqb_neq. split; [naive_solver|].
    intros (t & [= ->] & _ & ?). done.
  - split; [done|]. intros (t & [= ->] & [= ->] & _). done.
Qed.

Definition edge_threads (e : (string * string) * EdgeSites) : list string := btree_elements (ed_threads e.2).

Lemma cycle_concurrent_two edges repeat : cycle_concurrent edges repeat = true ->
  exists e1 e2, e1 ∈ edges /\ e2 ∈ edges /\ threads_concurrent (edge_threads e1) (edge_threads e2) repeat = true.
Proof.
  destruct edges as [|[k first] rest]; simpl; [done|]. intros H. change (existsb (fun e => threads_concurrent (edge_threads (k, first)) (edge_threads e) repeat)
    ((k, first) :: rest) = true) in H. apply existsb_true in H as (e & He & Hc). exists (k, first), e. split_and!; [left|done|done].
Qed.

(** Comparing the first edge with the others finds any two edges taken at once, when
    every edge has a thread. *)
Lemma cycle_concurrent_iff edges repeat : (forall e, e ∈ edges -> edge_threads e <> []) ->
  cycle_concurrent edges repeat = true <->
  exists e1 e2, e1 ∈ edges /\ e2 ∈ edges /\ threads_concurrent (edge_threads e1) (edge_threads e2) repeat = true.
Proof.
  intros Hne. destruct edges as [|[k first] rest]; simpl.
  - split; [done|]. intros (e1 & e2 & H & _). by apply elem_of_nil in H.
  - set (edges := (k, first) :: rest) in *.
    change (existsb (fun e => threads_concurrent (edge_threads (k, first)) (edge_threads e) repeat) edges = true <->
      exists e1 e2, e1 ∈ edges /\ e2 ∈ edges /\ threads_concurrent (edge_threads e1) (edge_threads e2) repeat = true).
    split.
    + intros (e & He & Hc)%existsb_true. exists (k, first), e. split_and!; [left|done|done].
    + intros (e1 & e2 & H1 & H2 & Hc). apply not_false_is_true. intros Hf.
      rewrite existsb_false in Hf.
      assert (Hall : forall e, e ∈ edges -> exists t, edge_threads (k, first) = [t] /\ edge_threads e = [t]
                /\ t ∉ repeat /\ t <> UNATTRIBUTED).
      { intros e He. apply threads_concurrent_false; [apply Hne; left|by apply Hne|by apply Hf]. }
      destruct (Hall e1 H1) as (t & Ht & E1 & Hr & Hu). destruct (Hall e2 H2) as (t' & Ht' & E2 & _).
      assert (t' = t) as -> by congruence.
      assert (Hx : threads_concurrent (edge_threads e1) (edge_threads e2) repeat = false); [|congruence].
      apply threads_concurrent_false; [by apply Hne|by apply Hne|eauto].
Qed.

(** ** Lemmas: the lock order *)

Definition lock_before (g : LockGraph) (a b : string) : Prop := a <> b /\ is_Some (g_edges g !! (a, b)).

Lemma elem_of_graph_edges g k e : (k, e) ∈ graph_edges g <-> g_edges g !! k = Some e.
Proof. unfold graph_edges. by rewrite merge_sort_Permutation, elem_of_map_to_list. Qed.

Lemma calls_in_add_edge edges from to a b :
  calls_in (add_edge_to edges from to) a b <-> calls_in edges a b \/ (a = from /\ b = to).
Proof.
  unfold calls_in, callees, add_edge_to. destruct (decide (a = from)) as [->|Hne].
  - rewrite lookup_insert_eq. simpl. set_solver.
  - rewrite lookup_insert_ne by done. set_solver.
Qed.

Lemma lock_adjacency_spec g a b : calls_in (lock_adjacency g) a b <-> lock_before g a b.
Proof.
  unfold lock_adjacency.
  assert (Hfold : forall l edges, calls_in (fold_left (fun adjacency e =>
      if e.1.1 =s e.1.2 then adjacency else add_edge_to adjacency e.1.1 e.1.2) l edges) a b <->
      calls_in edges a b \/ (a <> b /\ exists e, ((a, b), e) ∈ (l : edge_list))).
  { induction l as [|[[x y] e] l IH]; intros edges; simpl.
    - split; [by left|]. intros [?|(_ & e & H)]; [done|by apply elem_of_nil in H].
    - rewrite IH. setoid_rewrite elem_of_cons. destruct (x =s y) eqn:E; bool_simpl.
      + naive_solver.
      + rewrite calls_in_add_edge. naive_solver. }
  rewrite Hfold. unfold lock_before, is_Some. setoid_rewrite elem_of_graph_edges.
  assert (Hno : ~ calls_in (∅ : call_graph) a b).
  { unfold calls_in, callees. rewrite lookup_empty. simpl. intros Hc. by apply elem_of_empty in Hc. }
  tauto.
Qed.

Lemma among_true names x : among names x = true <-> x ∈ names.
Proof.
  unfold among. rewrite existsb_true. split; [intros (y & Hy & He); bool_simpl; by subst|].
  intros Hx. exists x. by rewrite String.eqb_refl.
Qed.

Lemma elem_of_edges_inside members edges e :
  e ∈ edges_inside members edges <-> e ∈ edges /\ e.1.1 ∈ members /\ e.1.2 ∈ members.
Proof. unfold edges_inside. by rewrite elem_of_bfilter, andb_true_iff, !among_true. Qed.

Lemma readers_only_false members edges writers :
  readers_only members edges writers = false <->
  (exists e, e ∈ edges /\ ed_exclusive e.2 = true) \/ exists lock, lock ∈ members /\ lock ∈ writers.
Proof.
  unfold readers_only. rewrite andb_false_iff, forallb_false, negb_false_iff, existsb_in_set.
  setoid_rewrite negb_false_iff. done.
Qed.

Section cycles.
Context `{GraphLaws}.

(** The cycles of a lock order are its classes of two or more locks that wait for one
    another. *)
Lemma lock_cycles_sound g members a b : members ∈ lock_cycles g -> a ∈ members -> b ∈ members ->
  rtc (lock_before g) a b.
Proof.
  intros [Hm _]%elem_of_bfilter Ha Hb. pose proof (components_spec (lock_adjacency g)) as Hp.
  apply list_elem_of_lookup in Hm as [i Hi].
  assert (Hm : mutual (calls_in (lock_adjacency g)) a b).
  { eapply (partition_mutual _ _ _ Hp (btree_elements_NoDup _)); done. }
  destruct Hm as [Hab _]. eapply rtc_subrel; [|exact Hab]. intros x y. by rewrite lock_adjacency_spec.
Qed.

Lemma lock_cycles_complete g a b : a <> b -> rtc (lock_before g) a b -> rtc (lock_before g) b a ->
  exists members, members ∈ lock_cycles g /\ forall x, x ∈ members <-> mutual (lock_before g) a x.
Proof.
  intros Hne Hab Hba. pose proof (components_spec (lock_adjacency g)) as Hp.
  assert (Hsame : forall x y, rtc (lock_before g) x y <-> rtc (calls_in (lock_adjacency g)) x y).
  { intros x y. split; apply rtc_subrel; intros u v; by rewrite lock_adjacency_spec. }
  assert (Hnode : forall x, mutual (lock_before g) a x -> x ∈ btree_elements (graph_names (lock_adjacency g))).
  { intros x [Hax Hxa]. rewrite elem_of_btree_elements.
    assert (Hstep : exists y, lock_before g x y \/ lock_before g y x).
    { destruct (decide (x = a)) as [->|Hxne].
      - inversion Hab; subst; [done|eauto].
      - inversion Hxa; subst; [done|eauto]. }
    destruct Hstep as (y & [Hs|Hs]); rewrite <- lock_adjacency_spec in Hs; apply calls_in_names in Hs as [? ?]; done. }
  destruct (partition_has _ _ _ Hp a (Hnode a (mutual_refl _ _))) as (i & c & Hc & Ha).
  assert (Hmem : forall x, x ∈ c <-> mutual (lock_before g) a x).
  { intros x. unfold mutual. rewrite !Hsame. split.
    - intros Hx. by apply (partition_mutual _ _ _ Hp (btree_elements_NoDup _) i i c c a x).
    - intros Hm. apply (scc_mutual _ _ _ Hp c a x); [by eapply list_elem_of_lookup_2|done| |done].
      apply Hnode. unfold mutual. by rewrite !Hsame. }
  exists c. split; [|done]. apply elem_of_bfilter. split; [by eapply list_elem_of_lookup_2|].
  assert (Hb : b ∈ c) by (by apply Hmem). destruct c as [|x [|y c]]; [by apply elem_of_nil in Ha| |done].
  apply list_elem_of_singleton in Ha, Hb. congruence.
Qed.
End cycles.

(** ** The theorem on deadlock candidates *)

(** The report of one cycle. *)
Definition deadlock_json (g : LockGraph) (members : list string) : json :=
  let edges := edges_inside members (graph_edges g) in
  JObj [("status", JStr "potential"); ("locks", jstrs members);
        ("edges", JArr (map (fun e => edge_json e.1.1 e.1.2 e.2) edges));
        ("threads", jstrs (btree_elements (foldr (fun e threads => ed_threads e.2 ∪ threads) ∅ edges)));
        ("reason", JStr "these locks are acquired in a cyclic order by code that may run concurrently");
        ("provenance", JStr "syntax"); ("next_analysis", JStr "alias_and_happens_before")].

Lemma jstrs_inj l k : jstrs l = jstrs k -> l = k.
Proof.
  unfold jstrs. revert k. induction l as [|x l IH]; intros [|y k]; simpl; try done.
  intros [= -> H]. f_equal. apply IH. by rewrite H.
Qed.

Lemma deadlock_of_Some g repeat members j : deadlock_of g repeat members = Some j <->
  readers_only members (edges_inside members (graph_edges g)) (g_writers g) = false
  /\ cycle_concurrent (edges_inside members (graph_edges g)) repeat = true /\ j = deadlock_json g members.
Proof.
  unfold deadlock_of, cycle_json. destruct (readers_only _ _ _); [naive_solver|].
  rewrite then_some_Some. unfold deadlock_json. naive_solver.
Qed.

(** Both ends of an edge wait for a lock and are waited for by it. *)
Definition edge_on_cycle (g : LockGraph) (a : string) (k : string * string) (e : EdgeSites) : Prop :=
  g_edges g !! k = Some e /\ mutual (lock_before g) a k.1 /\ mutual (lock_before g) a k.2.

(** The acquisitions among the locks that wait for [a] that make a deadlock of it. *)
Definition deadlock_at (g : LockGraph) (repeat : gset string) (a : string) : Prop :=
  (exists k1 e1 k2 e2, edge_on_cycle g a k1 e1 /\ edge_on_cycle g a k2 e2
     /\ threads_concurrent (edge_threads (k1, e1)) (edge_threads (k2, e2)) repeat = true)
  /\ ((exists k e, edge_on_cycle g a k e /\ ed_exclusive e = true)
      \/ exists lock, mutual (lock_before g) a lock /\ lock ∈ g_writers g).

(** Each acquisition among the locks that wait for [a] was made in a function. *)
Definition threads_known (g : LockGraph) (a : string) : Prop := forall k e, edge_on_cycle g a k e -> ed_threads e <> ∅.

Section deadlocks.
Context `{GraphLaws}.
Context (g : LockGraph) (repeat : gset string).

Lemma elem_of_deadlocks j : j ∈ lr_deadlocks (lock_report g repeat true) <->
  exists members, members ∈ lock_cycles g /\ deadlock_of g repeat members = Some j.
Proof. unfold lock_report. cbn [lr_deadlocks]. apply elem_of_collect_some. Qed.

Lemma lock_cycle_unique c m a : c ∈ lock_cycles g -> m ∈ lock_cycles g -> a ∈ c -> a ∈ m -> m = c.
Proof.
  intros [Hc _]%elem_of_bfilter [Hm _]%elem_of_bfilter Hac Ham.
  apply list_elem_of_lookup in Hm as [i Hi], Hc as [j Hj].
  pose proof (components_spec (lock_adjacency g)) as Hp.
  assert (i = j) as ->; [|congruence].
  apply (concat_index_unique (components (lock_adjacency g)) i j m c a); try done.
  rewrite (scc_nodes _ _ _ Hp). apply btree_elements_NoDup.
Qed.

Lemma edges_on_cycle c a k e : (forall x, x ∈ c <-> mutual (lock_before g) a x) ->
  (k, e) ∈ edges_inside c (graph_edges g) <-> edge_on_cycle g a k e.
Proof. intros Hmem. rewrite elem_of_edges_inside, elem_of_graph_edges. simpl. by rewrite !Hmem. Qed.

Lemma cycle_edges_threads c a e : (forall x, x ∈ c <-> mutual (lock_before g) a x) -> threads_known g a ->
  e ∈ edges_inside c (graph_edges g) -> edge_threads e <> [].
Proof.
  destruct e as [k e]. intros Hmem Hk He%(edges_on_cycle c a _ _ Hmem). apply Hk in He.
  unfold edge_threads. simpl. intros Hn. apply He. apply elem_of_equiv_empty_L. intros x Hx.
  apply elem_of_btree_elements in Hx. rewrite Hn in Hx. by apply elem_of_nil in Hx.
Qed.

Lemma cycle_writes_iff c a : (forall x, x ∈ c <-> mutual (lock_before g) a x) ->
  readers_only c (edges_inside c (graph_edges g)) (g_writers g) = false <->
  (exists k e, edge_on_cycle g a k e /\ ed_exclusive e = true) \/ exists lock, mutual (lock_before g) a lock /\ lock ∈ g_writers g.
Proof.
  intros Hmem. rewrite readers_only_false. setoid_rewrite Hmem. apply or_iff_compat_r. split.
  - intros ([k e] & He%(edges_on_cycle c a _ _ Hmem) & Hx). by exists k, e.
  - intros (k & e & He%(edges_on_cycle c a _ _ Hmem) & Hx). by exists (k, e).
Qed.

Lemma cycle_deadlock c a : (forall x, x ∈ c <-> mutual (lock_before g) a x) ->
  readers_only c (edges_inside c (graph_edges g)) (g_writers g) = false ->
  cycle_concurrent (edges_inside c (graph_edges g)) repeat = true -> deadlock_at g repeat a.
Proof.
  intros Hmem Hx%(cycle_writes_iff c a Hmem) Hc. split; [|done].
  apply cycle_concurrent_two in Hc as ([k1 e1] & [k2 e2] & H1 & H2 & Ht). exists k1, e1, k2, e2.
  by rewrite <- !(edges_on_cycle c a _ _ Hmem).
Qed.

Lemma deadlock_cycle c a : (forall x, x ∈ c <-> mutual (lock_before g) a x) -> threads_known g a -> deadlock_at g repeat a ->
  readers_only c (edges_inside c (graph_edges g)) (g_writers g) = false /\ cycle_concurrent (edges_inside c (graph_edges g)) repeat = true.
Proof.
  intros Hmem Hk [(k1 & e1 & k2 & e2 & H1 & H2 & Ht) Hx]. split; [by apply (cycle_writes_iff c a Hmem)|].
  apply (cycle_concurrent_iff _ _ (fun e => cycle_edges_threads c a e Hmem Hk)). exists (k1, e1), (k2, e2).
  by rewrite !(edges_on_cycle c a _ _ Hmem).
Qed.

(** A report that has [a] is of the class of [a]. *)
Lemma reported_class a b members : a <> b -> mutual (lock_before g) a b -> a ∈ members ->
  deadlock_json g members ∈ lr_deadlocks (lock_report g repeat true) <->
  (forall x, x ∈ members <-> mutual (lock_before g) a x) /\ members ∈ lock_cycles g
  /\ readers_only members (edges_inside members (graph_edges g)) (g_writers g) = false
  /\ cycle_concurrent (edges_inside members (graph_edges g)) repeat = true.
Proof.
  intros Hab Hm Ha. destruct (lock_cycles_complete g a b Hab (proj1 Hm) (proj2 Hm)) as (c & Hc & Hmem). split.
  - intros (m & Hmc & (H1 & H2 & Hj)%deadlock_of_Some)%elem_of_deadlocks. unfold deadlock_json in Hj. injection Hj as Hj _ _.
    assert (jstrs members = jstrs m) as ->%jstrs_inj by (unfold jstrs; by rewrite Hj).
    assert (m = c) as ->; [|done]. apply (lock_cycle_unique c m a); try done. by apply Hmem, mutual_refl.
  - intros (_ & Hc' & H1 & H2). apply elem_of_deadlocks. exists members. split; [done|]. by apply deadlock_of_Some.
Qed.

Lemma reported_sound a b members : a <> b -> mutual (lock_before g) a b -> a ∈ members ->
  deadlock_json g members ∈ lr_deadlocks (lock_report g repeat true) -> deadlock_at g repeat a.
Proof. intros Hab Hm Ha Hj. apply (reported_class a b members Hab Hm Ha) in Hj as (Hmem & _ & H1 & H2). by apply (cycle_deadlock members). Qed.

Lemma reported_complete a b : a <> b -> mutual (lock_before g) a b -> threads_known g a -> deadlock_at g repeat a ->
  exists members, a ∈ members /\ b ∈ members /\ deadlock_json g members ∈ lr_deadlocks (lock_report g repeat true).
Proof.
  intros Hab Hm Hk Hd. destruct (lock_cycles_complete g a b Hab (proj1 Hm) (proj2 Hm)) as (c & Hc & Hmem).
  exists c. split_and!; [by apply Hmem, mutual_refl|by apply Hmem|].
  apply (reported_class a b c Hab Hm); [by apply Hmem, mutual_refl|]. destruct (deadlock_cycle c a Hmem Hk Hd). done.
Qed.
End deadlocks.

(** A place in a function has threads, if only the one that stands for none known. *)
Lemma place_threads ctx file index name : pl_function (place_of ctx file index) = Some name -> si_threads (pl_site (place_of ctx file index)) <> [].
Proof.
  unfold place_of. cbn [pl_function pl_site si_threads]. intros ->. unfold threads_of. destruct (cx_sets ctx !! name) as [set|]; [|done].
  destruct (bool_decide (set = ∅)) eqn:E; [done|]. apply bool_decide_eq_false in E. intros Hn. apply E, elem_of_equiv_empty_L. intros x Hx.
  apply elem_of_btree_elements in Hx. rewrite Hn in Hx. by apply elem_of_nil in Hx.
Qed.


(** Two threads that take two mutexes in opposite orders. *)
Definition demo_edge (thread : string) : EdgeSites := mkEdge [("a.c", 3)] 1 {[thread]} true.
Definition demo_graph : LockGraph :=
  mkGraph (<[("m", "n") := demo_edge "t"]> (<[("n", "m") := demo_edge "u"]> ∅)) 10 0 {["m"; "n"]}.

Lemma demo_deadlock_reported : length (lr_deadlocks (@lock_report list_graph demo_graph ∅ true)) = 1.
Proof. vm_compute. reflexivity. Qed.


(** Two orders, one taken by two threads that run at once and the other at file scope only:
    nothing is reported. *)
Definition file_scope_graph : LockGraph :=
  mkGraph (<[("m", "n") := mkEdge [("a.c", 3)] 1 ∅ true]> (<[("n", "m") := mkEdge [("a.c", 4); ("a.c", 9)] 2 {["t"; "u"]} true]> ∅)) 10 0 {["m"; "n"]}.

Lemma file_scope_hides_deadlock : deadlock_at file_scope_graph ∅ "m" /\ lr_deadlocks (@lock_report list_graph file_scope_graph ∅ true) = [].
Proof.
  split; [|vm_compute; reflexivity].
  assert (Hmn : lock_before file_scope_graph "m" "n") by (split; [done|]; vm_compute; by eexists).
  assert (Hnm : lock_before file_scope_graph "n" "m") by (split; [done|]; vm_compute; by eexists).
  assert (He : edge_on_cycle file_scope_graph "m" ("n", "m") (mkEdge [("a.c", 4); ("a.c", 9)] 2 {["t"; "u"]} true)).
  { split_and!; [by vm_compute|split; by apply rtc_once|split; apply rtc_refl]. }
  split; [|left; by eexists _, _]. eexists _, _, _, _. split; [exact He|]. split; [exact He|]. by vm_compute.
Qed.

(** ** What the candidate list should be *)

(** The pairs of a list, in the order the loops visit them. *)
Fixpoint pairs (group : list Event) : list (Event * Event) :=
  match group with
  | [] => []
  | access :: group => map (pair access) group ++ pairs group
  end.

Definition add_to_zone (by_zone : gmap string (list Event)) (event : Event) : gmap string (list Event) :=
  match ev_zone event with
  | Some zone => <[zone := unwrap_or (by_zone !! zone) [] ++ [event]]> by_zone
  | None => by_zone
  end.

Definition by_zone (events : list Event) : gmap string (list Event) :=
  fold_left add_to_zone (bfilter (fun e => is_access (ev_kind e)) events) ∅.

Definition racing_pairs (repeat : gset string) (group : list Event) : list json :=
  map (fun p => pair_candidate p.1 p.2) (bfilter (fun p => races repeat p.1 p.2) (pairs group)).

(** Every candidate, with no limit on time, pairs or size. *)
Definition all_candidates (events : list Event) (repeat : gset string) : list json :=
  map self_candidate (bfilter (fun e => (ev_kind e =s "WRITE") && ev_may_repeat e) events)
  ++ flat_map (racing_pairs repeat) (map snd (btree_entries (by_zone events))).

(** ** Lemmas: the loops count candidates *)

(** The list holds the first candidates counted, up to the cap. *)
Definition counted_in (c : Candidates) (counted : list json) : Prop :=
  ca_emitted c = take (ca_cap c) counted /\ ca_total c = length counted.

Definition stopped (c : Candidates) : bool := ca_exhausted c || ca_timed_out c.

(** From [c] to [c'] a prefix [l'] of [l] was counted, all of it unless the scan
    stopped. *)
Definition counts (c c' : Candidates) (l : list json) : Prop :=
  ca_cap c' = ca_cap c
  /\ forall counted, counted_in c counted -> exists l', l' `prefix_of` l /\ counted_in c' (counted ++ l')
       /\ (stopped c' = false -> l' = l).

Lemma counts_nil c c' : ca_cap c' = ca_cap c -> ca_emitted c' = ca_emitted c -> ca_total c' = ca_total c ->
  counts c c' [].
Proof.
  intros Hc He Ht. split; [done|]. intros counted [H1 H2]. exists []. split_and!; [done| |done].
  rewrite app_nil_r. unfold counted_in. by rewrite He, Ht, Hc.
Qed.

Lemma counts_push c j : counts c (cand_push j c) [j].
Proof.
  split; [done|]. intros counted [H1 H2]. exists [j]. split_and!; [done| |done].
  unfold counted_in, cand_push. cbn [ca_emitted ca_total ca_cap]. rewrite H1, H2, length_app, length_take. split; [|simpl; lia].
  destruct (Nat.ltb_spec (Nat.min (ca_cap c) (length counted)) (ca_cap c)) as [Hl|Hl].
  - rewrite !take_ge by (rewrite ?length_app; simpl; lia). done.
  - rewrite take_app_le by lia. done.
Qed.

Lemma counts_stop c c' l : ca_cap c' = ca_cap c -> ca_emitted c' = ca_emitted c -> ca_total c' = ca_total c ->
  stopped c' = true -> counts c c' l.
Proof.
  intros Hc He Ht Hs. split; [done|]. intros counted [H1 H2]. exists []. split_and!; [apply prefix_nil| |by rewrite Hs].
  rewrite app_nil_r. unfold counted_in. by rewrite He, Ht, Hc.
Qed.

Lemma counts_app c c1 c2 l1 l2 : (stopped c1 = true -> c2 = c1) -> counts c c1 l1 -> counts c1 c2 l2 ->
  counts c c2 (l1 ++ l2).
Proof.
  intros Hs [Hc1 H1] [Hc2 H2]. split; [congruence|]. intros counted Hc.
  destruct (H1 counted Hc) as (k1 & Hp1 & Hk1 & He1). destruct (stopped c1) eqn:E.
  - rewrite (Hs eq_refl). exists k1. split_and!; [by apply prefix_app_r|done|by rewrite E].
  - destruct (H2 _ Hk1) as (k2 & Hp2 & Hk2 & He2). exists (k1 ++ k2). specialize (He1 eq_refl). subst k1.
    split_and!; [by apply prefix_app|by rewrite app_assoc|]. intros Hn. by rewrite (He2 Hn).
Qed.

(** The last stretch may stop. *)
Lemma counts_then c c1 c2 l1 l2 : stopped c1 = false -> counts c c1 l1 -> counts c1 c2 l2 -> counts c c2 (l1 ++ l2).
Proof. intros Hs. apply counts_app. by rewrite Hs. Qed.

Lemma pair_with_counts access rights repeat c d : stopped c = false ->
  let '(stop, c', _) := pair_with access rights repeat c d in
  counts c c' (map (fun p => pair_candidate p.1 p.2)
                 (bfilter (fun p => races repeat p.1 p.2) (map (pair access) rights)))
  /\ stop = stopped c'.
Proof.
  revert c d. induction rights as [|other rights IH]; intros c d Hs; simpl; [split; [by apply counts_nil|done]|].
  destruct (passed d) as [[|] d1].
  { split; [|unfold stopped; simpl; by rewrite orb_true_r, orb_true_r].
    apply counts_stop; try done. unfold stopped. simpl. by rewrite orb_true_r, orb_true_r. }
  unfold cand_spend. destruct (ca_budget c =? 0)%N; [split; [by apply counts_stop|done]|].
  set (c1 := mkCandidates _ _ _ _ _ _). assert (Hs1 : stopped c1 = false) by done.
  assert (H1 : counts c c1 []) by by apply counts_nil.
  destruct (races repeat access other) eqn:Er; simpl.
  - specialize (IH (cand_push (pair_candidate access other) c1) d1 Hs1).
    destruct (pair_with _ _ _ _ _) as [[stop c'] d2]. destruct IH as [IH ->]. split; [|done].
    apply (counts_then c c1 c' [] _ Hs1 H1).
    by apply (counts_then c1 (cand_push (pair_candidate access other) c1) c' [_] _ Hs1 (counts_push _ _)).
  - specialize (IH c1 d1 Hs1). destruct (pair_with _ _ _ _ _) as [[stop c'] d2]. destruct IH as [IH ->].
    split; [|done]. by apply (counts_then c c1 c' [] _ Hs1 H1).
Qed.

Lemma zone_candidates_counts group repeat c d : stopped c = false ->
  counts c (zone_candidates group repeat c d).1 (racing_pairs repeat group).
Proof.
  revert c d. induction group as [|access group IH]; intros c d Hs; simpl; [by apply counts_nil|].
  pose proof (pair_with_counts access group repeat c d Hs) as H.
  destruct (pair_with _ _ _ _ _) as [[stop c1] d1]. destruct H as [H ->].
  unfold racing_pairs. simpl. rewrite bfilter_app, map_app.
  destruct (stopped c1) eqn:E; simpl.
  - replace (map (fun p => pair_candidate p.1 p.2) (bfilter (fun p => races repeat p.1 p.2) (pairs group)))
      with (racing_pairs repeat group) by done.
    eapply (counts_app c c1 c1); [done|done|by apply counts_stop].
  - eapply counts_then; [done|done|by apply IH].
Qed.

Lemma zones_candidates_counts groups repeat c d :
  counts c (zones_candidates groups repeat c d).1 (flat_map (racing_pairs repeat) groups).
Proof.
  revert c d. induction groups as [|group groups IH]; intros c d; simpl; [by apply counts_nil|].
  fold (stopped c). destruct (stopped c) eqn:E; [by apply counts_stop|].
  pose proof (zone_candidates_counts group repeat c d E) as H.
  destruct (zone_candidates group repeat c d) as [c1 d1]. simpl in H.
  eapply counts_app; [|done|apply IH].
  intros Hs. destruct groups; simpl; [done|]. fold (stopped c1). by rewrite Hs.
Qed.

Lemma self_candidates_counts writes c d : stopped c = false ->
  let '(stop, c', _) := self_candidates writes c d in
  counts c c' (map self_candidate writes) /\ stop = stopped c'.
Proof.
  revert c d. induction writes as [|event writes IH]; intros c d Hs; simpl; [split; [by apply counts_nil|done]|].
  destruct (passed d) as [[|] d1].
  - split; [|unfold stopped; simpl; by rewrite orb_true_r, orb_true_r].
    apply counts_stop; try done. unfold stopped. simpl. by rewrite orb_true_r, orb_true_r.
  - specialize (IH (cand_push (self_candidate event) c) d1 Hs).
    destruct (self_candidates _ _ _) as [[stop c'] d2]. destruct IH as [IH ->]. split; [|done].
    by apply (counts_then c (cand_push (self_candidate event) c) c' [_] _ Hs (counts_push _ _)).
Qed.

Lemma group_by_zone_spec accesses m d :
  forall m', (group_by_zone accesses m d).1 = Some m' -> m' = fold_left add_to_zone accesses m.
Proof.
  revert m d. induction accesses as [|event accesses IH]; intros m d m'; simpl; [by intros [= <-]|].
  destruct (passed d) as [[|] d1]; [done|]. apply IH.
Qed.

(** The list the scan makes is the start of the full list, and all of it when the scan
    was not stopped. *)
Lemma candidate_list_counts events repeat cap d :
  let c := (candidate_list events repeat cap d).1 in
  ca_cap c = cap /\ exists counted, counted `prefix_of` all_candidates events repeat /\ counted_in c counted
    /\ (stopped c = false -> counted = all_candidates events repeat).
Proof.
  unfold candidate_list, all_candidates, by_zone.
  set (accesses := bfilter (fun e => is_access (ev_kind e)) events).
  pose proof (group_by_zone_spec accesses ∅ d) as Hz.
  destruct (group_by_zone accesses ∅ d) as [[zones|] d1]; simpl.
  2:{ split; [done|]. exists []. split_and!; [apply prefix_nil|by destruct cap|done]. }
  rewrite <- (Hz zones eq_refl). set (selfs := bfilter _ events).
  set (c0 := mkCandidates [] 0 cap (pair_budget cap) false false).
  pose proof (self_candidates_counts selfs c0 d1 eq_refl) as Hself.
  destruct (self_candidates selfs c0 d1) as [[stop c1] d2]. destruct Hself as [Hself ->].
  assert (H0 : counted_in c0 []) by (unfold counted_in; simpl; by rewrite take_nil).
  assert (Hdone : forall c l, counts c0 c l -> ca_cap c = cap /\ exists counted, counted `prefix_of` l
      /\ counted_in c counted /\ (stopped c = false -> counted = l)).
  { intros c l [Hcap H]. split; [done|]. by apply (H []). }
  destruct (stopped c1) eqn:E; simpl.
  - apply Hdone. eapply (counts_app c0 c1 c1); [done|done|by apply counts_stop].
  - pose proof (zones_candidates_counts (map snd (btree_entries zones)) repeat c1 d2) as Hzones.
    destruct (zones_candidates _ repeat c1 d2) as [c2 d3]. simpl in Hzones. destruct (passed d3) as [late d4]. simpl.
    assert (H2 : counts c0 c2 (map self_candidate selfs ++ flat_map (racing_pairs repeat) (map snd (btree_entries zones)))).
    { by eapply counts_then. }
    apply Hdone in H2 as (Hcap & counted & Hp & Hc & Hall). split; [done|]. exists counted. split_and!; [done|done|].
    unfold stopped. simpl. intros [H3 [H4 _]%orb_false_iff]%orb_false_iff. apply Hall. unfold stopped. by rewrite H3, H4.
Qed.

(** ** Lemmas: which pairs the full list has *)

Lemma elem_of_pairs l r group : (l, r) ∈ pairs group <-> sublist [l; r] group.
Proof.
  induction group as [|x group IH]; simpl; [split; [intros H; by apply elem_of_nil in H|inversion 1]|].
  rewrite elem_of_app, list_elem_of_fmap, IH. split.
  - intros [(y & [= -> ->] & Hy)|H]; [|by apply sublist_cons].
    apply sublist_skip. by apply singleton_sublist_l.
  - intros H. inversion H as [|? ? ? Hr|]; subst; [left|by right].
    exists r. split; [done|]. by apply singleton_sublist_l.
Qed.

Lemma bfilter_sublist_mono {A} (f : A -> bool) l k : sublist l k -> sublist (bfilter f l) (bfilter f k).
Proof. induction 1 as [|x l k _ IH|x l k _ IH]; simpl; [done|destruct (f x); [by constructor|done]..]. Qed.

Definition in_zone (zone : string) (e : Event) : bool := is_access (ev_kind e) && (ev_zone e =?s zone).

Lemma by_zone_lookup events zone :
  unwrap_or (by_zone events !! zone) [] = bfilter (in_zone zone) events
  /\ (by_zone events !! zone = None -> bfilter (in_zone zone) events = []).
Proof.
  assert (Hfold : forall l m, unwrap_or (fold_left add_to_zone (bfilter (fun e => is_access (ev_kind e)) l) m !! zone) []
     = unwrap_or (m !! zone) [] ++ bfilter (in_zone zone) l).
  { induction l as [|e l IH]; intros m; simpl; [by rewrite app_nil_r|]. unfold in_zone at 1.
    destruct (is_access (ev_kind e)) eqn:Ea; simpl; [|done]. rewrite IH. unfold add_to_zone.
    destruct (ev_zone e) as [z|]; [|done]. simpl. destruct (z =s zone) eqn:Ez; bool_simpl.
    - subst z. rewrite lookup_insert_eq. simpl. by rewrite <- app_assoc.
    - by rewrite lookup_insert_ne. }
  unfold by_zone. rewrite Hfold, lookup_empty. split; [done|]. intros Hn.
  specialize (Hfold events ∅). rewrite Hn, lookup_empty in Hfold. by symmetry.
Qed.

Lemma elem_of_all_candidates events repeat j :
  j ∈ all_candidates events repeat <->
  (exists e, e ∈ events /\ ev_kind e = "WRITE" /\ ev_may_repeat e = true /\ j = self_candidate e)
  \/ (exists l r zone, sublist [l; r] events /\ in_zone zone l = true /\ in_zone zone r = true
        /\ races repeat l r = true /\ j = pair_candidate l r).
Proof.
  unfold all_candidates. rewrite elem_of_app, list_elem_of_fmap.
  assert (Hself : (exists y, j = self_candidate y /\ y ∈ bfilter (fun e => (ev_kind e =s "WRITE") && ev_may_repeat e) events)
    <-> exists e, e ∈ events /\ ev_kind e = "WRITE" /\ ev_may_repeat e = true /\ j = self_candidate e).
  { setoid_rewrite elem_of_bfilter. setoid_rewrite andb_true_iff. setoid_rewrite String.eqb_eq. naive_solver. }
  rewrite Hself. clear Hself. apply or_iff_compat_l.
  rewrite list_elem_of_In, in_flat_map. setoid_rewrite <- list_elem_of_In. split.
  - intros (group & ([zone g] & -> & Hg)%list_elem_of_fmap & ([l r] & -> & [Hp Hr]%elem_of_bfilter)%list_elem_of_fmap).
    apply elem_of_btree_entries in Hg. simpl in *. destruct (by_zone_lookup events zone) as [Hz _].
    rewrite Hg in Hz. simpl in Hz. subst g. apply elem_of_pairs in Hp.
    exists l, r, zone. assert (Hin : forall e, e ∈ [l; r] -> in_zone zone e = true).
    { intros e He. apply (elem_of_sublist _ _ e He) in Hp. by apply elem_of_bfilter in Hp as [_ ?]. }
    split_and!; [by etrans; [|apply bfilter_sublist]|apply Hin; left|apply Hin; right; left|done|done].
  - intros (l & r & zone & Hs & Hl & Hr & Hrace & ->). destruct (by_zone_lookup events zone) as [Hz Hnone].
    apply (bfilter_sublist_mono (in_zone zone)) in Hs. simpl in Hs. rewrite Hl, Hr in Hs.
    exists (bfilter (in_zone zone) events). split.
    + destruct (by_zone events !! zone) as [g|] eqn:E.
      * apply list_elem_of_fmap. exists (zone, g). simpl in Hz. split; [done|]. by apply elem_of_btree_entries.
      * rewrite (Hnone eq_refl) in Hs. inversion Hs.
    + apply list_elem_of_fmap. exists (l, r). split; [done|]. apply elem_of_bfilter. by rewrite elem_of_pairs.
Qed.

(** ** Lemmas: the scan *)

Section scan_lemmas.
Context `{GraphOps}.
Context (is_file : string -> bool + string) (read_to_string : string -> string + string).

Abbreviation read_all := (read_files is_file read_to_string).
Abbreviation scan := (scan_parts is_file read_to_string).

(** The files a scan read. *)
Definition scans_of (files : list string) (d : deadline) : list FileScan := (read_all files d).1.1.1.

(** Every line a file can yield closes its brackets. *)
Definition sources_close (files : list string) : Prop :=
  forall file text line, file ∈ files -> read_source_file is_file read_to_string file = inl text ->
  line ∈ strip_noise text -> brackets_close line = true.

Lemma read_files_close files d : sources_close files -> all_close (scans_of files d).
Proof.
  unfold scans_of. revert d. induction files as [|file files IH]; intros d Hc; simpl.
  - intros f line Hf. by apply elem_of_nil in Hf.
  - destruct (passed d) as [[|] d1]; simpl; [intros f line Hf; by apply elem_of_nil in Hf|].
    assert (Hr : all_close (read_all files d1).1.1.1).
    { apply IH. intros f text line Hf. apply Hc. by right. }
    destruct (read_all files d1) as [[[scans unreadable] within] d2]. simpl in Hr.
    destruct (read_source_file _ _ file) as [text|error] eqn:E; simpl; [|done].
    intros f line [->|Hf]%elem_of_cons; [|by apply Hr]. intros Hl. by apply (Hc file text line); [left| |].
Qed.

Lemma read_files_deadline files d : length files <= d ->
  (read_all files d).1.2 = true /\ (read_all files d).2 = d - length files.
Proof.
  revert d. induction files as [|file files IH]; intros d Hd; simpl in *; [split; [done|lia]|].
  destruct d as [|d]; [lia|]. simpl. destruct (IH d ltac:(lia)) as [H1 H2].
  destruct (read_all files d) as [[[scans unreadable] within] d2]. simpl in *. subst.
  by destruct (read_source_file _ _ file).
Qed.

Lemma carried_facts_returns scans base within d : all_close scans -> is_Some (carried_facts scans base within d).
Proof.
  intros Hc. unfold carried_facts. destruct within; [|by eexists].
  destruct (interprocedural_returns scans base d Hc) as [[[[i c]|] d'] ->]; by eexists.
Qed.

Lemma emit_scan_returns scans ctx within max_events d : all_close scans ->
  is_Some (emit_scan scans ctx within max_events d).
Proof. intros Hc. unfold emit_scan. destruct within; [by apply emit_files_returns|by eexists]. Qed.

(** What the parts of a payload are taken from. *)
Lemma scan_parts_Some files max_events max_candidates unshared d parts :
  scan files max_events max_candidates unshared d = Some parts ->
  exists scans out d' interproc,
    pp_entries parts = survey scans /\ em_sink out = Some (pp_events parts)
    /\ output_ok max_events max_events out
    /\ pp_lock_edges parts = size (g_edges (em_graph out))
    /\ pp_locks parts = lock_report (em_graph out) (repeating (survey scans)) (pp_threads_detected parts)
    /\ pp_threads_detected parts = (0 <? p_spawn_calls (survey scans))%nat
    /\ pp_candidates parts =
         (if pp_threads_detected parts
          then (candidate_list (k_events (pp_events parts)) (repeating (survey scans)) max_candidates d').1
          else no_candidates max_candidates (passed d').1)
    /\ pp_lock_summaries parts = (interproc_json interproc (survey scans)).1.
Proof.
  unfold scan_parts. destruct (read_all files d) as [[[scans unreadable] read_within] d1].
  destruct (carried_facts _ _ _ _) as [[[[interproc converged] within] d2]|]; [|done].
  destruct (emit_scan _ _ _ _ _) as [[[within_deadline out] d3]|] eqn:E; [|done].
  assert (Hout : output_ok max_events max_events out).
  { assert (H0 : output_ok max_events max_events (scan_emission max_events)).
    { split_and!; [intros sink [= <-]; split; [by split|done]| |done].
      split; [apply Nat.le_0_l|]. intros k e Hk. simpl in Hk. by rewrite lookup_empty in Hk. }
    unfold emit_scan in E. destruct within; [by eapply emit_files_output|by injection E as _ <- _]. }
  assert (Hsink : exists sink, em_sink out = Some sink).
  { unfold emit_scan in E. destruct within; [|injection E as _ <- _; by eexists].
    apply emit_files_steps in E.
    refine (steps_invariant (fun o => exists sink, em_sink o = Some sink) _ _ _ E _); [|by eexists].
    intros o o' Hs [sink Hk]. destruct Hs; simpl; eauto. }
  destruct Hsink as [sink Hk]. rewrite Hk. simpl. intros [= <-].
  exists scans, out, d3, interproc. by split_and!.
Qed.
End scan_lemmas.

(** ** The theorems on the scan *)

(** Files that were all tried under a deadline are read the same under a later one, and
    without a failure they are all the files there are. *)
Lemma read_files_later is_file read_to_string files d scans unreadable d1 k :
  read_files is_file read_to_string files d = (scans, unreadable, true, d1) ->
  read_files is_file read_to_string files (d + k) = (scans, unreadable, true, d1 + k).
Proof.
  revert d scans unreadable. induction files as [|file files IH]; intros d scans unreadable; simpl; [by intros [= <- <- <-]|].
  destruct d as [|d]; [done|]. simpl. destruct (read_files _ _ files d) as [[[scans' unreadable'] within] d2] eqn:E. intros H.
  assert (within = true /\ d2 = d1) as [-> ->] by (by destruct (read_source_file _ _ file); injection H as _ _ -> ->).
  rewrite (IH _ _ _ E). destruct (read_source_file _ _ file); by injection H as <- <-.
Qed.

Lemma read_files_all is_file read_to_string files d scans d1 : read_files is_file read_to_string files d = (scans, [], true, d1) ->
  Forall2 (fun file scan => exists text, is_file file = inl true /\ read_to_string file = inl text /\ scan = structure file (strip_noise text)) files scans.
Proof.
  revert d scans. induction files as [|file files IH]; intros d scans; simpl; [by intros [= <- _]|].
  destruct (passed d) as [[|] d']; [done|]. destruct (read_files _ _ files d') as [[[scans' unreadable'] within] d2] eqn:E.
  destruct (read_source_file _ _ file) as [text|] eqn:Hr; [|done]. intros [= <- -> -> ->]. constructor; [|by eapply IH].
  exists text. unfold read_source_file in Hr. by destruct (is_file file) as [[]|].
Qed.

(** A scan that no deadline cut short. *)
Lemma scan_uncut `{GraphOps} is_file read_to_string files max_events max_candidates unshared d parts :
  scan_parts is_file read_to_string files max_events max_candidates unshared d = Some parts -> pp_within_deadline parts = true ->
  (exists scans d1, read_files is_file read_to_string files d = (scans, pp_unreadable parts, true, d1) /\ pp_entries parts = survey scans)
  /\ forall k, exists parts', scan_parts is_file read_to_string files max_events max_candidates unshared (d + k) = Some parts'
       /\ pp_entries parts' = pp_entries parts /\ pp_events parts' = pp_events parts /\ pp_locks parts' = pp_locks parts.
Proof.
  unfold scan_parts. destruct (read_files _ _ files d) as [[[scans unreadable] read_within] d1] eqn:Er.
  destruct (carried_facts _ _ _ _) as [[[[interproc converged] within] d2]|] eqn:Ec; [|done].
  destruct (emit_scan _ _ _ _ _) as [[[within_deadline out] d3]|] eqn:Ee; [|done].
  destruct (interproc_json _ _) eqn:Ei. intros [= <-]. cbn [pp_within_deadline pp_unreadable pp_entries pp_events pp_locks]. intros ->.
  unfold emit_scan in Ee. destruct within; [|done]. unfold carried_facts in Ec. destruct read_within; [|done].
  destruct (interprocedural _ _ d1) as [[[[found conv]|] d4]|] eqn:Ep; [|done..]. injection Ec as <- <- <-.
  split; [by exists scans, d1|]. intros k. rewrite (read_files_later _ _ _ _ _ _ _ k Er). unfold carried_facts.
  rewrite (interprocedural_steady _ _ _ _ _ k Ep). unfold emit_scan. rewrite (emit_files_later _ _ _ _ _ _ k Ee), Ei. by eexists.
Qed.


(** The lists of a payload stay within the limits asked for, and are the start of
    what there was: the events kept are the first, numbered from 1, and the count is of
    all of them; the lock order has at most as many pairs, each with at most sixteen of
    its sites; and no more candidates are listed than asked for. *)
Theorem scan_bounded `{GraphOps} (is_file : string -> bool + string)
    (read_to_string : string -> string + string) (files : list string) (max_events max_candidates : nat)
    (unshared : bool) (d : deadline) (parts : PayloadParts) :
  scan_parts is_file read_to_string files max_events max_candidates unshared d = Some parts ->
  length (k_events (pp_events parts)) = Nat.min (k_total (pp_events parts)) max_events
  /\ (forall i e, k_events (pp_events parts) !! i = Some e -> ev_id e = "E" +s+ dec (S i))
  /\ pp_lock_edges parts <= max_events
  /\ length (lr_order (pp_locks parts)) = pp_lock_edges parts
  /\ (exists g, pp_locks parts = lock_report g (repeating (pp_entries parts)) (pp_threads_detected parts)
        /\ forall k e, g_edges g !! k = Some e -> 1 <= ed_count e
             /\ length (ed_sites e) = Nat.min (ed_count e) SITES_PER_EDGE)
  /\ length (ca_emitted (pp_candidates parts)) <= max_candidates.
Proof.
  intros Hs. destruct (scan_parts_Some _ _ _ _ _ _ _ _ Hs)
    as (scans & out & d' & i & He & Hk & (Hsink & [Hsize Hedges] & Hcap) & Hn & Hl & _ & Hc & _).
  destruct (Hsink _ Hk) as [[Hlen Hids] Hlimit]. rewrite Hlimit in Hlen.
  split_and!; [done|done|rewrite Hn; lia| | |].
  - rewrite Hl, Hn. unfold lock_report. cbn [lr_order]. rewrite length_map. unfold graph_edges.
    by rewrite merge_sort_Permutation, length_map_to_list.
  - exists (em_graph out). rewrite He. split; [done|]. intros k e Hke. by apply Hedges in Hke.
  - rewrite Hc. destruct (pp_threads_detected parts); [|simpl; lia].
    destruct (candidate_list_counts (k_events (pp_events parts)) (repeating (survey scans)) max_candidates d')
      as (Hcap' & counted & _ & [H1 _] & _).
    rewrite H1, Hcap', length_take. lia.
Qed.

(** C29: a scan returns, whatever the files, the limits and the clock, when every
    square bracket a cleaned line opens is closed on it. *)
Theorem scan_returns `{GraphOps} (is_file : string -> bool + string)
    (read_to_string : string -> string + string) (files : list string) (max_events max_candidates : nat)
    (unshared : bool) (d : deadline) :
  sources_close is_file read_to_string files ->
  is_Some (scan_to_deadline is_file read_to_string files max_events max_candidates unshared d).
Proof.
  intros Hclose. apply (read_files_close is_file read_to_string files d) in Hclose.
  unfold scan_to_deadline, scan_parts, scans_of in *.
  destruct (read_files is_file read_to_string files d) as [[[scans unreadable] within] d1]. simpl in Hclose.
  destruct (carried_facts_returns scans (base_context (survey scans) unshared) within d1 Hclose)
    as [[[[interproc converged] held] d2] ->].
  destruct (emit_scan_returns scans (with_interproc interproc unshared (base_context (survey scans) unshared)) held
    max_events d2 Hclose) as [[[w out] d3] ->].
  simpl. by eexists.
Qed.

Lemma open_subscript_no_scan `{GraphOps} is_file read_to_string files max_events max_candidates unshared d file index
    start line name :
  let scans := scans_of is_file read_to_string files d in
  file ∈ scans -> fs_lines file !! index = Some line ->
  reads_open_subscript (p_globals (survey scans)) line start name ->
  length files + total_lines scans <= d ->
  scan_to_deadline is_file read_to_string files max_events max_candidates unshared d = None.
Proof.
  intros scans Hin Hline Hros Hd. unfold scan_to_deadline, scan_parts, scans, scans_of in *.
  destruct (read_files_deadline is_file read_to_string files d) as [H1 H2]; [lia|].
  destruct (read_files is_file read_to_string files d) as [[[fs unreadable] within] d1]. simpl in *. subst within.
  unfold carried_facts. destruct (decide (p_lock_calls (survey fs) = 0)) as [He|Hne].
  - unfold interprocedural. cbn [cx_program base_context]. rewrite He. simpl. unfold ret. simpl.
    rewrite (emit_files_diverges fs file _ index line start name); try done. lia.
  - by rewrite (interprocedural_diverges fs file _ index line start name); [|done..|lia|].
Qed.

(** C28: a scan never returns on a global whose subscript its line does not close.  The line
    has the name of a global, not [return], with no [++] or [--] before it and not inside a
    call the scan models, on a line without an atomic access call, and after the name, over
    the subscripts and selectors that close, stands a bracket that the line does not close:
    the loop that steps over it makes no progress and reads no clock, so no deadline that
    reaches every line ends it, whatever limits are asked for.  The tool answers that the
    scan timed out, however little there is to scan. *)
Theorem open_subscript_hangs `{GraphOps} (is_file : string -> bool + string)
    (read_to_string : string -> string + string) (files : list string) (d : deadline)
    (file : FileScan) (index start : nat) (line name : string) :
  let scans := scans_of is_file read_to_string files d in
  file ∈ scans -> fs_lines file !! index = Some line ->
  reads_open_subscript (p_globals (survey scans)) line start name ->
  length files + total_lines scans <= d ->
  (forall max_events max_candidates unshared,
    scan_to_deadline is_file read_to_string files max_events max_candidates unshared d = None)
  /\ forall loaded max_events max_candidates unshared late,
    analyze_concurrency is_file read_to_string (Some files) loaded max_events max_candidates unshared d late
    = TimedOut scan_timed_out.
Proof.
  intros scans Hin Hline Hros Hd.
  assert (Hn : forall max_events max_candidates unshared,
    scan_to_deadline is_file read_to_string files max_events max_candidates unshared d = None).
  { intros. by eapply (open_subscript_no_scan is_file read_to_string files). }
  split; [exact Hn|]. intros loaded max_events max_candidates unshared late. unfold analyze_concurrency.
  destruct files as [|f files]; [by apply elem_of_nil in Hin|]. cbn [scanned_files]. by rewrite Hn.
Qed.

(** ** The scan at work *)

Definition unlines (l : list string) : string := join (String nl "") l.

(** One file called [a.c]. *)
Abbreviation scan_text text max_events max_candidates d :=
  (@scan_parts list_graph (fun _ => inl true) (fun _ => inl (unlines text)) ["a.c"] max_events max_candidates false d).

(** An access of a scan: its line and its lockset. *)
Definition accesses_of (parts : option PayloadParts) : list (nat * list string) :=
  match parts with
  | Some parts => map (fun e => (ev_line e, ev_lockset e))
                    (bfilter (fun e => is_access (ev_kind e)) (k_events (pp_events parts)))
  | None => []
  end.

Definition race_text : list string :=
  ["int shared;"; "void *a(void *p) { shared = 1; return 0; }"; "void *b(void *p) { return (void *)(long) shared; }";
   "int main(void) {"; " pthread_create(&t, 0, a, 0);"; " pthread_create(&u, 0, b, 0);"; "}"].


Lemma scan_bounded_witness :
  match scan_text race_text 1 0 1000 with
  | Some parts =>
    length (k_events (pp_events parts)) = 1 /\ k_total (pp_events parts) = 4
    /\ length (ca_emitted (pp_candidates parts)) <= 0 /\ enumeration_complete parts = false
  | None => False
  end.
Proof.
  assert (Hc : (fun parts => (enumeration_complete parts, k_total (pp_events parts)))
      <$> scan_text race_text 1 0 1000 = Some (false, 4)) by (vm_compute; reflexivity).
  destruct (scan_text race_text 1 0 1000) as [parts|] eqn:E; [|discriminate Hc].
  injection Hc as H1 H2.
  destruct (@scan_bounded list_graph _ _ _ _ _ _ _ _ E) as (Hl & _ & _ & _ & _ & Hm).
  rewrite H2 in Hl. split_and!; [exact Hl|exact H2|exact Hm|exact H1].
Defined.

Lemma scan_returns_witness :
  is_Some (@scan_to_deadline list_graph (fun _ => inl true) (fun _ => inl (unlines race_text)) ["a.c"] 10 10 false 3).
Proof.
  apply (@scan_returns list_graph). intros file text line Hf [= <-] Hl.
  revert line Hl. apply Forall_forall. vm_compute. repeat constructor.
Defined.

(** A subscript that wraps to the next line. *)
Definition wrapped_text : list string :=
  ["int shared[4];"; "void *worker(void *a) {"; " shared["; " 0] = 1;"; "}"].

Lemma open_subscript_witness :
  @analyze_concurrency list_graph (fun _ => inl true) (fun _ => inl (unlines wrapped_text)) (Some ["a.c"]) None
    (Some 10) (Some 10) (Some false) 100 false = TimedOut scan_timed_out.
Proof.
  apply (@open_subscript_hangs list_graph (fun _ => inl true) (fun _ => inl (unlines wrapped_text)) ["a.c"] 100
    (structure "a.c" (strip_noise (unlines wrapped_text))) 2 1 " shared[" "shared").
  - left.
  - vm_compute. reflexivity.
  - split.
    + decide_closed.
    + discriminate.
    + decide_closed.
    + vm_compute. reflexivity.
    + intros call. vm_compute. intros H. by apply elem_of_nil in H.
    + vm_compute. reflexivity.
    + apply stuck_here; vm_compute; reflexivity.
  - change (1 + 5 <= 100). lia.
Defined.

(** ** What a lockset claims too much *)

(** A lockset can name a lock that no path holds.  A macro at file scope that locks
    leaves its mutex in the lockset of every access below it, in functions that never
    take it; a lock taken twice and given back once in a branch and once after it is
    still listed; and a lock one case of a switch takes and leaves by a break is listed
    in the next case. *)
Theorem lockset_overclaims :
  accesses_of (scan_text
    ["int shared;"; "#define LOCK() pthread_mutex_lock(&m)"; "void *worker(void *a) {"; " shared = 1;"; "}"] 99 99 999)
    = [(4, ["m"])]
  /\ accesses_of (scan_text
    ["int shared;"; "void *worker(void *a) {"; " sem_wait(&s); sem_wait(&s);"; " if (a) {"; "  sem_post(&s);"; " }";
     " sem_post(&s);"; " shared = 1;"; "}"] 99 99 999) = [(8, ["s"])]
  /\ accesses_of (scan_text
    ["int shared;"; "void *worker(void *a) {"; " switch (*a) {"; " case 1: pthread_mutex_lock(&m);"; "  break;";
     " case 2: shared = 1;"; " }"; "}"] 99 99 999) = [(6, ["m"])].
Proof. split_and!; vm_compute; reflexivity. Qed.
